(* ===== verification/_CoqProject ===== *)
-Q . S2P
Prelude.v
GoStrings.v
Regex.v
Errors.v
Net.v
Validate.v
Catalog.v
Transactor.v
Postgres.v
Http.v
Floats.v
Progress.v
MergeGraph.v
WorkGraph.v
WorkServices.v
Services.v
Jobs.v
JobsSafety.v
Pairing.v
PairingStore.v
PairingSafety.v
Cfi.v
Sync.v
SyncSafety.v
Identity.v
Encoding.v
Paths.v
Patterns.v
Tokens.v
Utf8.v
Totp.v
AuthStore.v
AuthHandlers.v
AuthSafety.v
SignInSafety.v
Access.v
AccessSafety.v
ReadingStore.v
Reading.v
ReadingPrivacy.v
ReadingSafety.v
ReadingSpec.v
CatalogStore.v
CatalogLaws.v
Library.v
LibrarySafety.v
Collections.v
CollectionsSafety.v
CollectionsSpec.v
Network.v
NetworkSafety.v
Sources.v
SourceProviders.v
SourceHandlers.v
SourceSafety.v
SourceDemo.v
ReaderCache.v
Extract.v
ExtractSafety.v
ReaderHtml.v
ReaderContent.v
ReaderContentSafety.v
OpenLibrary.v
MetadataCache.v
Discover.v
OpenLibrarySafety.v
ImportStore.v
Importer.v
ImportJob.v
ImportHandlers.v
ImporterSafety.v
ImportJobSafety.v
ImportDemo.v
Config.v
ConfigSafety.v
Edge.v
Router.v
RouterSafety.v
Observability.v
Leaderboard.v
