(* ===== verification/Prelude.v ===== *)
(** * Alexandryn: a verification library for its Go backend

    Alexandryn is a self-hosted library for electronic books: a Go server over
    PostgreSQL, with a desktop host and a web client.  This development models
    the backend (src/internal, and the wiring of src/cmd/server) and proves
    what makes it correct.

    ** The program's parts and the files that model them

    A component's data, operations and basic lemmas are in the file named
    after it; [<Component>Safety], [<Component>Spec] and [<Component>Laws]
    hold what it guarantees, [<Component>Demo] runs it on concrete inputs.

    Shared, and of the language and its library:
    - Prelude: outcomes ([res]), the state-and-error monad of the services
      ([stM], whose writes survive an error, as a Go method's do), instants
      and 64-bit durations, the development's tactics, lemmas on lists and
      bytes.
    - GoStrings, Utf8: Go strings as bytes, UTF-8 decoding ([decode],
      [chunks]) and encoding, [TrimSpace], [ToUpper], [ReplaceAll],
      [Duration.String].  The Unicode case tables beyond ASCII are the class
      [CaseTables].
    - Regex, Patterns: the regular expressions of the code, matched by
      derivatives, and searching with them.
    - Floats: [float64] as Rocq's [spec_float], with the comparisons Go has
      (NaN compares false) and the integer key that orders the finite values.
    - Encoding, Paths, Net: hexadecimal, unpadded base64 with its round trip;
      slash-separated paths; hosts, ports, addresses and prefixes.

    The domain (src/internal/domain):
    - Errors: the error values and the chain walks [CategoryOf] and [Is]
      (error.go).
    - Validate: bounded text, language tags, ISBN checksums (validate.go,
      language.go, subject.go).
    - Catalog: authors, works, editions, sources, offerings, entries,
      collections, highlights, preferences and events, with constructors and
      mutations (one heading per file).
    - Progress: percentages, reconciliation, overrides, and the transaction
      that persists a report (percentage.go, reading_progress.go,
      reconcile_progress.go, reader/api/progress.go).
    - MergeGraph, WorkGraph, WorkServices: the mathematics of merges and
      containment; the work graph against the class [WorkRepository], with
      its loops (resolve_work.go, work_merge_service.go,
      work_containment_service.go, is_in_library.go); what those services
      guarantee.
    - Services: author merges, library entries and the removal of a source
      (author_merge_service.go, library_service.go,
      source_removal_service.go), each with its repository as a class.

    Persistence (src/internal/persistence/postgres):
    - Transactor, Postgres: [InTx], the all-or-nothing body of a transaction
      (transactor.go); the errors of a statement and [TranslateError]
      (errors.go), statements, queries, updates and deletions, which the
      repositories share.
    - CatalogStore, CatalogLaws: the tables of works, authors, editions,
      sources and offerings and the statements of their repositories; that
      they find what they saved.
    - Http: the outcome of a handler, its query, cursors and pages, which the
      handlers share (transport/http).

    The library:
    - Library, LibrarySafety: the queries of the library, its pages and their
      cursors, and the handlers of works (domain/library_query.go,
      work_repository.go, transport/http/library.go).
    - Collections, CollectionsSafety, CollectionsSpec: collections, their
      table and handlers; that libraries are kept apart; what collections
      hold (collection_service.go, collection_repository.go, collections.go).

    Reading:
    - ReadingStore: the tables of progress, bookmarks, highlights and
      preferences and every statement of their repositories, scoped by
      account (scope.go and the repositories).
    - Reading, ReadingPrivacy, ReadingSafety, ReadingSpec: the reading API
      and its exports (transport/http/reading.go, reading_export.go); that
      the data of an account are its own; positions over any history; what
      an export, the preferences and the notes hold.
    - Cfi: the checks of positions, device identifiers, epochs and
      percentages (reader/api/validate.go).
    - Sync, SyncSafety: device synchronisation: the delta queries and their
      cursor, the middleware and the handlers (reading_sync_repository.go,
      transport/http/device_sync.go); polling, polling while transactions
      write.  A device's own writes in its deltas are in ReadingSpec.
    - ReaderCache, ReaderHtml: the cache of open books
      (reader/content/cache.go) and sanitised markup (sanitize.go), with what
      they guarantee.
    - Extract, ExtractSafety, ReaderContent, ReaderContentSafety: the formats
      of book files (importer/extract); the route that serves the inside of a
      book (reader/content, reader_content.go).
    - Leaderboard: finished books and the capabilities of the client
      (leaderboard.go, bootstrap.go).

    Where books come from:
    - Sources, SourceProviders, SourceHandlers, SourceSafety, SourceDemo: the
      adapters' shared parts, local folders and OPDS catalogues, and their
      administration (adapters/sources, adapters/crypto,
      transport/http/sources.go).
    - OpenLibrary, MetadataCache, Discover, OpenLibrarySafety: the client of
      Open Library with its rate and its caches, and looking books up
      (adapters/openlibrary, metadata_cache_repository.go,
      cover_cache_repository.go, transport/http/discover.go).
    - ImportStore, Importer, ImportJob, ImportHandlers, ImporterSafety,
      ImportJobSafety, ImportDemo: the import pipeline: its tables, matching
      and confirmation, discovery and the job, the handlers (importer,
      import_candidate_repository.go, transport/http/import.go).
    - Jobs, JobsSafety: the job queue (src/internal/jobs): the jobs table and
      every statement of store.go, lifecycle, backoff, configuration,
      registry, the decisions of the engine; the queue as a step relation over
      interleaved workers, reapers and administrators.

    Who may do what:
    - Identity: users, credentials, sessions, second factors, resets,
      libraries, memberships, invitations (domain/auth.go,
      library_aggregate.go, network_settings.go).
    - Tokens, Totp: the HS256 envelope and the four kinds of token in it
      (auth/hs256.go, jwt.go, enrolment_grant.go, reader_content_grant.go);
      secrets, codes, recovery codes, the sealed secret (auth/totp.go).
    - AuthStore, AuthHandlers, AuthSafety, SignInSafety: the tables of
      identity and libraries and every statement of their repositories; the
      sign-in handlers, each whole (transport/http/auth_handlers.go); what
      histories of them do to sessions; passwords, the second factor, tickets
      and resets.
    - Access, AccessSafety: the authentication middleware, the guards and the
      handlers of libraries, members and invitations, the limiter per address
      (auth_middleware.go, library_handlers.go, auth/ratelimit.go).
    - Pairing, PairingStore, PairingSafety, Network, NetworkSafety: device
      pairing (domain/device_pairing.go, pairing/code.go), its tables and the
      verify-and-consume transaction, and the pages of network sharing
      (transport/http/network.go).

    The server itself:
    - Config, ConfigSafety: the keys of the configuration, the parser of each
      kind of value, loading, and the check of the address to bind
      (config/config.go, bindaddress.go).
    - Edge: whom a request comes from, which origins are let in,
      the limits of size and URL, the headers of security, the addresses the
      server answers under (client_ip.go, origin_validation.go, cors.go,
      limits.go, security_headers.go, acme.go, network_helpers.go).
    - Router, RouterSafety: the table of routes with the guards each is
      wrapped in, the multiplexer and the chain of middleware
      (cmd/server/main.go); which handlers a request reaches.
    - Observability: events, the sanitised payload, the activity page, the
      sweep and the histograms of latency
      (internal/observability, transport/http/activity.go).

    A component's services call another component only through a class
    ([WorkRepository], [AuthorRepository], [LibraryEntryRepository],
    [SourceRepositories], [ProgressStore], [SyncTables]), whose laws state what
    the repositories promise.  Code outside src/ is a class too:
    - ciphers, hashes and the limiter's bucket: [Crypto], [TokenPrimitives],
      [TOTPPrimitives], [PasswordHasher], [Limiter];
    - texts of the standard library and of PostgreSQL: [CaseTables],
      [FoldTable], [RuneKinds], [TimeText], [FloatText], [Collation],
      [FullText], [Urls], [UrlDetails], [Addresses], [IPText], [NetipText];
    - the JSON of a value: [Jsonb], [ImportJSON], [CoverJSON],
      [OpenLibraryJSON], [PayloadJSON];
    - what is read from outside: [FileSystem], [Network], [Containers],
      [Decoders], [HtmlLibraries], [TextDecoders], [OpenLibraryServer],
      [Toml], [Certificates].
    Each class the witnesses need has an executable instance, on which they
    run.

    ** How code becomes definitions

    A Go function of values is a function; an error return is [Err]; a method
    that mutates its receiver, or a service that mutates the store, is a
    computation in [stM].  An optional pointer is an [option]; a string
    enumeration whose values are checked at run time stays a string.  A table is
    a [gmap] from its primary key to its row and a statement a function of it,
    with the constraints of its migration; a child table is a list.  The order a
    query without ORDER BY answers in is an argument of the loads of the
    catalogue ([row_order]); elsewhere such a query answers in the order the
    model holds the table in; where Go ranges over a map the order is an
    argument.  A handler is a sequence of such statements, any of which the
    driver may fail, so that what a failure in the middle leaves is part of the
    model; a statement, and a transaction that locks the rows it decides on, is
    atomic.  What the driver, the random source or the clock answers is an
    argument.  Integers that the code can overflow are wrapped ([wrap64]) or
    saturated ([clamp64]) as Go does.  Instants are exact: PostgreSQL's rounding
    of a stored instant to the microsecond is not modelled.

    ** What is proved

    - Reading progress: folding the reports of one epoch gives the same
      percentage and epoch in any order, the greatest one; an override always
      wins; the persisted value never goes back, over any history of requests;
      [ReportProgress] implements its abstract specification; percentages lie
      in the unit interval, so no book is ever listed as finished.
    - Reading data: an account's answers and rows depend on nothing of other
      accounts and change nothing of theirs; an export that answers holds
      each row of its caller once.
    - Validation and aggregates: the ISBN checksums catch every substituted
      digit; a collection is a set whatever is added and removed.
    - Catalogue and library: a saved work is found again as it was, up to the
      order of its parts, which no query asks for; following the cursors lists
      every work of a filter once, in order; libraries are kept apart, but for
      the three fields that the theorem names, two of a collection's detail and
      one of a work's.
    - Work graph: resolution, merge groups and containment closures return
      with the fuel given and compute exactly the mathematical relation; any
      history of merges, undos and containments keeps merges acyclic; each
      service's outcome is characterised, errors included; an undone merge is
      as if it had not been.
    - Services: removing a source is atomic; adding and removing an entry are
      idempotent; author merges never form a cycle.
    - Open books: an archive in use stays open and none is cleaned up twice,
      whatever interleaves; opening leaves one spooled file or none; the route
      gives out only an entry of a book of the caller's library, sanitised by
      its kind; the pass before the policy lets no style sheet or SVG through.
    - Book files: extraction ends and its metadata is clean.
    - Sources: requests go to the configured origin and carry the source's own
      credential, or the one their address names; a local folder shows and opens
      nothing outside itself; cursors round-trip.
    - Open Library: what a lookup answers, for how long a cached work is found
      and what it is then, whatever else is saved in between; the covers on
      record stay within the cache's size.
    - Import: a confirmation is all or nothing; a candidate of another library
      is hidden; a run of the job ends, leaks no file and imports nothing by
      itself; a second discovery does nothing.
    - Job queue: at every moment of every interleaving at most one worker owns
      a job, as long as the row of a claim is read before its lease ends; a
      worker that lost its lease can change nothing; attempts
      are bounded; rows follow the documented lifecycle; claims, recovery and
      the engine's outcomes are exact; backoff saturates rather than
      overflows.
    - Pairing: codes round-trip and the generator is a bijection on its
      random bits; a session follows its lifecycle whatever is called on it;
      wrong guesses neither burn it nor reveal anything; a code enrols one
      device, all or nothing; a stored session is the session; stored devices
      only move forward; a device that has the code of the page pairs.
    - Synchronisation: a device that polls a quiet database is brought up to
      date in finitely many pulls, if the tables its ceiling is read from exist,
      and on the migrated database every pull is refused; the gate of the
      queries loses nothing as long as transactions write in the order of their
      numbers, and loses rows otherwise; a pull answers what lies beyond the
      device's cursor, if its ceiling can be read; a push is a progress report
      of the authenticated device.
    - Tokens: a token is good for the one purpose it was issued for, whatever
      the keys; what a signer's own verifier reads back is what was signed,
      until it expires; a code of the second factor passes in its own time
      step and the two beside it; a recovery code works once.
    - Sign-in: tokens mean a verified password and, if the store could be
      read, no second factor; a ticket stands for one attempt; a session
      that has ended never comes back, in any history of calls; what a reset
      does and what a failure inside it leaves; overlapping rotations.
    - Access: the middleware admits a request only to a library its token or
      cookie grants; a sign-in gives access to the account's libraries for
      fifteen minutes; every membership goes back to an administrator; an
      invitation is accepted once; the limiter keeps addresses apart.
    - Configuration: what loading answers on every input; a configuration
      that loads never serves a public address in plaintext.
    - The edge and routing: every handler behind the router runs for a caller
      the middleware verified, the operator's for an administrator, or is one
      of the public ones; the headers each response carries; whom a request
      is taken to come from; which origins may sign in.
    - Observability: no key with a prohibited word is left in the maps and lists
      of a stored payload; a page of events is its library's own; a histogram
      counts every request in bounded space.

    Not every theorem is a headline: the files also hold the theorems on
    single operations that the list above sums up.

    ** Fuel

    The loops of the work graph, which follow rows of a store, run on fuel:
    one step per stored work plus two.  Each visited set grows at every step
    and stays within the stored works, so the fuel is enough; the theorems
    state that the functions return.  A polling device needs one delta more
    than there are rows to deliver, and a client that pages through a library
    one page more than there are works.  Decoding a string, splitting it and
    reading a duration have its length as fuel, the backoff loop its attempt
    number.  Discovery follows the pages of a source's feed, which only the
    source can end; its fuel is an argument, and the theorem about it is of a
    discovery that answers.

    ** What is not modelled

    Bytes on the wire and the JSON of responses, SQL outside the tables named
    above, process supervision and migrations, discovery by multicast and the
    diagnosis of the network, logging, the middleware that recovers from
    panics and caps bodies, the files of the web client, and the desktop and
    web clients: they are input and output, or glue.  The tokenizer of HTML,
    the policy that cleans its output, archives, hashes of passwords and
    ciphers are libraries, hence parameters.  Goroutines appear as the
    interleavings of the steps of the queue, of the cache of open books and of
    the transactions behind a delta; contexts and timeouts are represented
    only where a definition takes one.  In synchronisation the wrap-around of
    PostgreSQL's transaction numbers and the deletion of bookmarks and
    highlights are not represented. *)

From stdpp Require Export prelude gmap strings list sets relations pretty.
From Stdlib Require Export Ascii ZArith Lia.


(** ** Outcomes

    A Go function that returns [(T, error)] is modelled by [res E T].  A loop
    whose termination is a theorem of the development, not a syntactic fact,
    runs on fuel; [OutOfFuel] is the outcome the totality theorems exclude. *)
Inductive res (E A : Type) : Type :=
| Ok (a : A)
| Err (e : E)
| OutOfFuel.
Arguments Ok {E A} a.
Arguments Err {E A} e.
Arguments OutOfFuel {E A}.

#[export] Instance res_ret E : MRet (res E) := fun A a => Ok a.
#[export] Instance res_bind E : MBind (res E) := fun A B f m =>
  match m with
  | Ok a => f a
  | Err e => Err e
  | OutOfFuel => OutOfFuel
  end.
#[export] Instance res_fmap E : FMap (res E) := fun A B f m =>
  match m with
  | Ok a => Ok (f a)
  | Err e => Err e
  | OutOfFuel => OutOfFuel
  end.

Definition is_ok {E A} (r : res E A) : bool :=
  match r with Ok _ => true | _ => false end.

(** ** The state-and-error monad of the services

    A service method reads and writes a store and may fail; what it wrote
    before failing stays written (only a transaction undoes it). *)
Definition stM (S E A : Type) : Type := S -> res E A * S.

#[export] Instance stM_ret S E : MRet (stM S E) := fun A a s => (Ok a, s).
#[export] Instance stM_bind S E : MBind (stM S E) := fun A B f m s =>
  match m s with
  | (Ok a, s') => f a s'
  | (Err e, s') => (Err e, s')
  | (OutOfFuel, s') => (OutOfFuel, s')
  end.

Section stM_ops.
Context {S E : Type}.

(** A read that leaves the store alone. *)
Definition reading {A} (f : S -> res E A) : stM S E A := fun s => (f s, s).

(** A write that either produces the next store or fails without effect. *)
Definition writing (f : S -> res E S) : stM S E unit := fun s =>
  match f s with
  | Ok s' => (Ok tt, s')
  | Err e => (Err e, s)
  | OutOfFuel => (OutOfFuel, s)
  end.

Definition throw {A} (e : E) : stM S E A := fun s => (Err e, s).

(** A write that cannot fail. *)
Definition modify (f : S -> S) : stM S E unit := fun s => (Ok tt, f s).
End stM_ops.

Lemma stM_bind_ok {S E A B} (m : stM S E A) (f : A -> stM S E B) s b s' :
  (m ≫= f) s = (Ok b, s') <->
  exists a s1, m s = (Ok a, s1) /\ f a s1 = (Ok b, s').
Proof.
  unfold mbind, stM_bind. split.
  - destruct (m s) as [[a|e|] s1]; intros H; simplify_eq. by exists a, s1.
  - intros (a & s1 & -> & H). exact H.
Qed.

Lemma reading_ok {S E A} (f : S -> res E A) s a s' :
  reading f s = (Ok a, s') <-> f s = Ok a /\ s' = s.
Proof. unfold reading. split; [by intros [= -> ->] | by intros [-> ->]]. Qed.

Lemma writing_ok {S E} (f : S -> res E S) s s' :
  writing f s = (Ok tt, s') <-> f s = Ok s'.
Proof. unfold writing. destruct (f s); split; intros; simplify_eq; done. Qed.

Lemma throw_ok {S E A} (e : E) (s s' : S) (a : A) :
  throw e s = (Ok a, s') <-> False.
Proof. unfold throw. split; intros; simplify_eq; done. Qed.

Lemma mret_ok {S E A} (s s' : S) (a b : A) :
  (mret a : stM S E A) s = (Ok b, s') <-> a = b /\ s = s'.
Proof. split; [by intros [= -> ->] | by intros [-> ->]]. Qed.

(** ** Machine integers and instants *)

Definition two63 : Z := 2 ^ 63.
Definition int64_min : Z := - two63.
Definition int64_max : Z := two63 - 1.

(** Two's-complement wrap-around of Go's [int64]. *)
Definition wrap64 (z : Z) : Z := (z + two63) mod (2 * two63) - two63.

(** Saturation, as [time.Time.Sub] does. *)
Definition clamp64 (z : Z) : Z := Z.max int64_min (Z.min int64_max z).

Definition in_int64 (z : Z) : Prop := (int64_min <= z <= int64_max)%Z.

Lemma wrap64_id z : in_int64 z -> wrap64 z = z.
Proof.
  unfold in_int64, wrap64, int64_min, int64_max, two63. intros H.
  rewrite Z.mod_small; lia.
Qed.

Lemma clamp64_id z : in_int64 z -> clamp64 z = z.
Proof. unfold in_int64, clamp64. lia. Qed.

(** An instant is a number of nanoseconds since the Unix epoch; a duration is
    an [int64] number of nanoseconds. *)
Abbreviation Time := Z (only parsing).
Abbreviation Duration := Z (only parsing).

Definition Nanosecond : Duration := 1.
Definition Millisecond : Duration := 1000000.
Definition Second : Duration := 1000000000.
Definition Minute : Duration := 60 * Second.
Definition Hour : Duration := 60 * Minute.

(** [t.Before(u)], [t.After(u)], [t.Add(d)], [t.Sub(u)] and [t.Unix()]. *)
Definition Before (t u : Time) : bool := (t <? u)%Z.
Definition After (t u : Time) : bool := (u <? t)%Z.
Definition Add (t : Time) (d : Duration) : Time := (t + d)%Z.
Definition Sub (t u : Time) : Duration := clamp64 (t - u).
Definition Unix (t : Time) : Z := (t / Second)%Z.

Lemma Sub_Add t d : in_int64 d -> Sub (Add t d) t = d.
Proof.
  intros H. unfold Sub, Add. replace (t + d - t)%Z with d by lia.
  by apply clamp64_id.
Qed.

(** ** Automation *)

(** The rewriting rules that take a successful run of a service apart. *)
Create Rewrite HintDb svc.
#[export] Hint Rewrite @stM_bind_ok @reading_ok @writing_ok @throw_ok @mret_ok : svc.

(** Splits a successful run [H] into the successful runs of its steps. *)
Ltac svc_inv H :=
  repeat first
    [ rewrite stM_bind_ok in H; destruct H as (? & ? & ? & H)
    | rewrite reading_ok in H; destruct H as [? ->]
    | rewrite mret_ok in H; destruct H as [H <-]; simplify_eq ];
  repeat match goal with
    | K : reading _ _ = (Ok _, _) |- _ => apply reading_ok in K as [K ->]
    | K : writing _ _ = (Ok ?u, _) |- _ => destruct u; apply writing_ok in K
    end.

(** Case analysis on the innermost match or conditional of a hypothesis. *)
Ltac split_match H :=
  match type of H with
  | context [match ?x with _ => _ end] => destruct x eqn:?; simplify_eq H
  end.

(** Splits a conjunction into its conjuncts, without unfolding them, and
    closes the trivial ones. *)
Ltac conjuncts := repeat match goal with |- _ /\ _ => split end; try done.

Ltac bool_to_prop :=
  repeat match goal with
    | H : (_ && _)%bool = true |- _ => apply andb_true_iff in H as [? ?]
    | H : (_ || _)%bool = false |- _ => apply orb_false_iff in H as [? ?]
    | H : negb _ = true |- _ => apply negb_true_iff in H
    | H : negb _ = false |- _ => apply negb_false_iff in H
    | H : (_ <? _)%Z = true |- _ => apply Z.ltb_lt in H
    | H : (_ <? _)%Z = false |- _ => apply Z.ltb_ge in H
    | H : (_ <=? _)%Z = true |- _ => apply Z.leb_le in H
    | H : (_ <=? _)%Z = false |- _ => apply Z.leb_gt in H
    | H : (_ =? _)%Z = true |- _ => apply Z.eqb_eq in H
    | H : (_ =? _)%Z = false |- _ => apply Z.eqb_neq in H
    | H : bool_decide _ = true |- _ => apply bool_decide_eq_true in H
    | H : bool_decide _ = false |- _ => apply bool_decide_eq_false in H
    end.

(** [lia] with quotients and remainders by constants spelled out. *)
Ltac zmod_lia := Z.to_euclidean_division_equations; lia.

(** ** Lists *)

Lemma last_cons_default {A} (x d : A) l : List.last (x :: l) d = List.last l x.
Proof.
  revert x d. induction l as [|y l IH]; intros x d; [done|].
  change (List.last (x :: y :: l) d) with (List.last (y :: l) d). by rewrite !IH.
Qed.

Fixpoint drop_while {A} (p : A -> bool) (l : list A) : list A :=
  match l with
  | [] => []
  | x :: l' => if p x then drop_while p l' else l
  end.

Definition drop_while_end {A} (p : A -> bool) (l : list A) : list A :=
  rev (drop_while p (rev l)).

Lemma drop_while_none {A} (p : A -> bool) l :
  Forall (fun x => p x = false) l -> drop_while p l = l.
Proof. destruct 1 as [|x l Hx]; simpl; [done|]. by rewrite Hx. Qed.

Lemma drop_while_end_none {A} (p : A -> bool) l :
  Forall (fun x => p x = false) l -> drop_while_end p l = l.
Proof.
  intros H. unfold drop_while_end. rewrite drop_while_none; [by rewrite rev_involutive|].
  rewrite Forall_forall in *. intros x Hx. apply H.
  by rewrite list_elem_of_In, <- in_rev, <- list_elem_of_In in Hx.
Qed.

Lemma drop_while_suffix {A} (p : A -> bool) l : exists k, l = k ++ drop_while p l.
Proof.
  induction l as [|x l [k IH]]; simpl; [by exists []|].
  destruct (p x); [exists (x :: k); by rewrite <- app_comm_cons, <- IH | by exists []].
Qed.

Lemma drop_while_idemp {A} (p : A -> bool) l :
  drop_while p (drop_while p l) = drop_while p l.
Proof.
  induction l as [|x l IH]; simpl; [done|].
  destruct (p x) eqn:E; [done|]. simpl. by rewrite E.
Qed.

Lemma drop_while_head {A} (p : A -> bool) l :
  match drop_while p l with [] => True | x :: _ => p x = false end.
Proof. induction l as [|x l IH]; simpl; [done|]. by destruct (p x) eqn:E. Qed.

Lemma drop_while_snoc {A} (p : A -> bool) l x :
  p x = false -> drop_while p (l ++ [x]) = drop_while p l ++ [x].
Proof.
  intros Hx. induction l as [|y l IH]; simpl; [by rewrite Hx|]. by destruct (p y).
Qed.

Lemma drop_while_end_cons {A} (p : A -> bool) x l :
  p x = false -> drop_while_end p (x :: l) = x :: drop_while_end p l.
Proof.
  intros Hx. unfold drop_while_end. simpl. rewrite drop_while_snoc by done.
  by rewrite rev_app_distr.
Qed.

Lemma drop_while_end_idemp {A} (p : A -> bool) l :
  drop_while_end p (drop_while_end p l) = drop_while_end p l.
Proof. unfold drop_while_end. by rewrite rev_involutive, drop_while_idemp. Qed.

Lemma drop_while_end_prefix {A} (p : A -> bool) l :
  exists k, l = drop_while_end p l ++ k.
Proof.
  destruct (drop_while_suffix p (rev l)) as [k Hk]. exists (rev k).
  unfold drop_while_end. by rewrite <- rev_app_distr, <- Hk, rev_involutive.
Qed.

(** Trimming both ends twice is trimming them once. *)
Lemma trim_idemp {A} (p : A -> bool) l :
  let t := drop_while_end p (drop_while p l) in
  drop_while_end p (drop_while p t) = t.
Proof.
  intros t. subst t. pose proof (drop_while_head p l) as Hh.
  destruct (drop_while p l) as [|x m]; [done|].
  rewrite drop_while_end_cons by done. simpl. rewrite Hh.
  rewrite drop_while_end_cons by done. by rewrite drop_while_end_idemp.
Qed.

Lemma trim_infix {A} (p : A -> bool) l :
  exists a b, l = a ++ drop_while_end p (drop_while p l) ++ b.
Proof.
  destruct (drop_while_suffix p l) as [a Ha].
  destruct (drop_while_end_prefix p (drop_while p l)) as [b Hb].
  exists a, b. by rewrite <- Hb.
Qed.

Lemma NoDup_fmap_filter {A B} (f : A -> B) (p : A -> bool) l :
  NoDup (f <$> l) -> NoDup (f <$> List.filter p l).
Proof.
  induction l as [|x l IH]; simpl; [done|]. intros [Hx Hl]%NoDup_cons.
  destruct (p x); simpl; [|by apply IH]. apply NoDup_cons. split; [|by apply IH].
  intros (y & Hy & Hin)%list_elem_of_fmap. apply Hx. apply list_elem_of_fmap.
  exists y. split; [done|]. apply list_elem_of_In, filter_In in Hin as [Hin _].
  by apply list_elem_of_In.
Qed.

(** The bytes of a string as integers, and its length as Go's [len]. *)
Definition byte (c : ascii) : Z := Z.of_N (N_of_ascii c).
Definition ascii_of_Z (z : Z) : ascii := ascii_of_N (Z.to_N z).
Definition len (s : string) : Z := Z.of_nat (String.length s).
Fixpoint bytes (s : string) : list Z :=
  match s with
  | EmptyString => []
  | String c s' => byte c :: bytes s'
  end.

Lemma byte_range c : (0 <= byte c < 256)%Z.
Proof.
  unfold byte. pose proof (N_ascii_bounded c). lia.
Qed.

Lemma byte_inj c d : byte c = byte d -> c = d.
Proof.
  unfold byte. intros H. apply N2Z.inj in H.
  rewrite <- (ascii_N_embedding c), <- (ascii_N_embedding d). by rewrite H.
Qed.

Lemma byte_ascii_of_Z z : (0 <= z < 256)%Z -> byte (ascii_of_Z z) = z.
Proof.
  intros H. unfold byte, ascii_of_Z. rewrite N_ascii_embedding; lia.
Qed.

Lemma bytes_length s : length (bytes s) = String.length s.
Proof. induction s; simpl; auto. Qed.

Lemma bytes_inj s t : bytes s = bytes t -> s = t.
Proof.
  revert t. induction s as [|c s IH]; intros [|d t]; simpl; intros; simplify_eq; [done|].
  f_equal; [by apply byte_inj | by apply IH].
Qed.

(** The double quote, which a Rocq string literal would have to double. *)
Definition dquote : string := String (ascii_of_nat 34) EmptyString.
