(* ===== verification/GoStrings.v ===== *)
(** * Go strings

    What the code uses of Go's [strings], [unicode] and [unicode/utf8]
    packages.  A Go string is a sequence of bytes; [range s] and [[]rune(s)]
    decode it as UTF-8, an undecodable byte being one [RuneError] of width
    one.  The case mappings of the non-ASCII runes are the Unicode tables,
    which are data of the Go distribution: they are the parameter
    [CaseTables], with the two upper and two lower mappings that land in ASCII
    written out. *)

From S2P Require Import Prelude.

Local Open Scope string_scope.
Local Open Scope list_scope.
Local Open Scope Z_scope.

Definition RuneError : Z := 65533.

Definition between (lo x hi : Z) : bool := (lo <=? x) && (x <=? hi).
Definition cont (b : Z) : bool := between 128 b 191.

(** The accept ranges of [unicode/utf8]: which second bytes may follow a lead
    byte of a two-, three- and four-byte sequence. *)
Definition lead2 (b0 b1 : Z) : bool := between 194 b0 223 && cont b1.
Definition lead3 (b0 b1 : Z) : bool :=
  (b0 =? 224) && between 160 b1 191
  || between 225 b0 236 && cont b1
  || (b0 =? 237) && between 128 b1 159
  || between 238 b0 239 && cont b1.
Definition lead4 (b0 b1 : Z) : bool :=
  (b0 =? 240) && between 144 b1 191
  || between 241 b0 243 && cont b1
  || (b0 =? 244) && between 128 b1 143.

Definition rune2 (b0 b1 : Z) : Z := (b0 - 192) * 64 + (b1 - 128).
Definition rune3 (b0 b1 b2 : Z) : Z := (b0 - 224) * 4096 + (b1 - 128) * 64 + (b2 - 128).
Definition rune4 (b0 b1 b2 b3 : Z) : Z :=
  (b0 - 240) * 262144 + (b1 - 128) * 4096 + (b2 - 128) * 64 + (b3 - 128).

(** [utf8.DecodeRuneInString]: the first rune, its bytes and the rest. *)
Definition decode (s : string) : option (Z * string * string) :=
  match s with
  | "" => None
  | String c0 t0 =>
    let bad := Some (RuneError, String c0 "", t0) in
    if byte c0 <? 128 then Some (byte c0, String c0 "", t0) else
    match t0 with
    | "" => bad
    | String c1 t1 =>
      if lead2 (byte c0) (byte c1)
      then Some (rune2 (byte c0) (byte c1), String c0 (String c1 ""), t1) else
      match t1 with
      | "" => bad
      | String c2 t2 =>
        if lead3 (byte c0) (byte c1) && cont (byte c2)
        then Some (rune3 (byte c0) (byte c1) (byte c2),
                   String c0 (String c1 (String c2 "")), t2) else
        match t2 with
        | "" => bad
        | String c3 t3 =>
          if lead4 (byte c0) (byte c1) && cont (byte c2) && cont (byte c3)
          then Some (rune4 (byte c0) (byte c1) (byte c2) (byte c3),
                     String c0 (String c1 (String c2 (String c3 ""))), t3)
          else bad
        end
      end
    end
  end.

(** The whole string, rune by rune, each with the bytes it was decoded from.
    The fuel is the length of the string: every step consumes a byte. *)
Fixpoint chunks_fuel (n : nat) (s : string) : list (Z * string) :=
  match n, decode s with
  | S n', Some (r, b, t) => (r, b) :: chunks_fuel n' t
  | _, _ => []
  end.
Definition chunks (s : string) : list (Z * string) := chunks_fuel (String.length s) s.
Definition runes (s : string) : list Z := (chunks s).*1.
Fixpoint cat (l : list (Z * string)) : string :=
  match l with
  | [] => ""
  | (_, b) :: l' => b +:+ cat l'
  end.

(** [len([]rune(s))]. *)
Definition rune_count (s : string) : Z := Z.of_nat (length (chunks s)).

(** [unicode.IsSpace] and [unicode.IsControl]. *)
Definition IsSpace (r : Z) : bool :=
  between 9 r 13 || (r =? 32) || (r =? 133) || (r =? 160) || (r =? 5760)
  || between 8192 r 8202 || (r =? 8232) || (r =? 8233) || (r =? 8239)
  || (r =? 8287) || (r =? 12288).
Definition IsControl (r : Z) : bool := between 0 r 31 || between 127 r 159.

(** [strings.TrimSpace]. *)
Definition space_chunk (c : Z * string) : bool := IsSpace c.1.
Definition TrimSpace (s : string) : string :=
  cat (drop_while_end space_chunk (drop_while space_chunk (chunks s))).

(** [utf8.EncodeRune], with the replacement of what is not a scalar value. *)
Definition encode_rune (r : Z) : string :=
  let b z := String (ascii_of_Z z) in
  if between 0 r 127 then b r ""
  else if between 128 r 2047 then b (192 + r / 64) (b (128 + r mod 64) "")
  else if between 55296 r 57343 || negb (between 0 r 1114111) then
    b 239 (b 191 (b 189 ""))
  else if between 2048 r 65535 then
    b (224 + r / 4096) (b (128 + (r / 64) mod 64) (b (128 + r mod 64) ""))
  else b (240 + r / 262144) (b (128 + (r / 4096) mod 64)
         (b (128 + (r / 64) mod 64) (b (128 + r mod 64) ""))).

(** The Unicode simple case mappings outside ASCII. *)
Class CaseTables := {
  upper_tbl : Z -> Z;
  lower_tbl : Z -> Z;
  upper_tbl_ge : forall r, 128 <= r -> 128 <= upper_tbl r;
  lower_tbl_ge : forall r, 128 <= r -> 128 <= lower_tbl r;
}.

Section case_mapping.
Context `{CaseTables}.

(** [unicode.ToUpper]: U+0131 (dotless i) and U+017F (long s) are the two
    non-ASCII runes whose upper case is an ASCII letter. *)
Definition upper_rune (r : Z) : Z :=
  if between 97 r 122 then r - 32
  else if r <? 128 then r
  else if r =? 305 then 73
  else if r =? 383 then 83
  else upper_tbl r.

(** [unicode.ToLower]: U+0130 (dotted I) and U+212A (Kelvin sign). *)
Definition lower_rune (r : Z) : Z :=
  if between 65 r 90 then r + 32
  else if r <? 128 then r
  else if r =? 304 then 105
  else if r =? 8490 then 107
  else lower_tbl r.

Definition map_runes (f : Z -> Z) (s : string) : string :=
  cat ((fun c => (c.1, encode_rune (f c.1))) <$> chunks s).
Definition ToUpper (s : string) : string := map_runes upper_rune s.
Definition ToLower (s : string) : string := map_runes lower_rune s.
End case_mapping.

(** A table with no mapping outside ASCII, for concrete evaluation. *)
#[export] Program Instance ascii_tables : CaseTables :=
  {| upper_tbl := fun r => r; lower_tbl := fun r => r |}.
Solve Obligations with done.

(** [strings.ReplaceAll(s, c, "")] for a one-byte [c]. *)
Fixpoint remove_char (c : ascii) (s : string) : string :=
  match s with
  | "" => ""
  | String d s' => if Ascii.eqb d c then remove_char c s' else String d (remove_char c s')
  end.

(** [strings.HasPrefix], [strings.HasSuffix], [strings.ContainsRune] for a byte. *)
Definition HasPrefix (s p : string) : bool := String.prefix p s.
Fixpoint contains_char (c : ascii) (s : string) : bool :=
  match s with
  | "" => false
  | String d s' => Ascii.eqb d c || contains_char c s'
  end.

Definition blank (s : string) : bool := String.eqb (TrimSpace s) "".

(** [%d] and, for the strings the code formats with it, [%q]. *)
Definition itoa (z : Z) : string := pretty z.
Fixpoint quote_body (s : string) : string :=
  match s with
  | "" => ""
  | String c s' =>
    (if byte c =? 34 then "\" +:+ dquote
     else if byte c =? 92 then "\\"
     else String c "") +:+ quote_body s'
  end.
Definition quote (s : string) : string := dquote +:+ quote_body s +:+ dquote.

(** ** Decoding *)

Lemma decode_split s r b t : decode s = Some (r, b, t) -> s = b +:+ t /\ b <> "".
Proof.
  unfold decode. intros H. repeat (case_match; simplify_eq/=); done.
Qed.

Lemma str_app_cons c (a b : string) : String c a +:+ b = String c (a +:+ b).
Proof. reflexivity. Qed.
Lemma str_app_nil_l (b : string) : "" +:+ b = b.
Proof. reflexivity. Qed.

Lemma str_length_app (a b : string) :
  String.length (a +:+ b) = (String.length a + String.length b)%nat.
Proof.
  induction a as [|c a IH]; [done|].
  rewrite str_app_cons. cbn [String.length]. by rewrite IH.
Qed.

Lemma decode_length s r b t :
  decode s = Some (r, b, t) -> (String.length t < String.length s)%nat.
Proof.
  intros [-> Hb]%decode_split. rewrite str_length_app.
  destruct b as [|c b]; [done|]. simpl. lia.
Qed.

Lemma chunks_fuel_enough n s :
  (String.length s <= n)%nat -> chunks_fuel n s = chunks s.
Proof.
  unfold chunks. revert s.
  enough (forall m n s, (String.length s <= m)%nat -> (String.length s <= n)%nat ->
    chunks_fuel n s = chunks_fuel m s) by eauto.
  clear n. induction m as [|m IH]; intros n s Hm Hn.
  - destruct s; simpl in *; [|lia]. by destruct n.
  - destruct n as [|n]; [by destruct s; simpl in *; [|lia]|]. cbn [chunks_fuel].
    destruct (decode s) as [[[r b] t]|] eqn:E; [|done].
    apply decode_length in E. f_equal. apply IH; lia.
Qed.

Lemma chunks_unfold s :
  chunks s = match decode s with
             | Some (r, b, t) => (r, b) :: chunks t
             | None => []
             end.
Proof.
  destruct s as [|c s]; [done|]. unfold chunks at 1.
  cbn [String.length chunks_fuel].
  destruct (decode (String c s)) as [[[r b] t]|] eqn:E; [|done].
  f_equal. apply chunks_fuel_enough. apply decode_length in E. simpl in E. lia.
Qed.

Lemma decode_none s : decode s = None <-> s = "".
Proof.
  split; [|by intros ->].
  destruct s; [done|]. unfold decode. intros H.
  repeat (case_match; simplify_eq/=).
Qed.

(** Induction along the decoding of a string. *)
Lemma decode_ind (P : string -> Prop) :
  P "" ->
  (forall s r b t, decode s = Some (r, b, t) -> P t -> P s) ->
  forall s, P s.
Proof.
  intros H0 HS s. remember (String.length s) as n eqn:Hn.
  revert s Hn. induction (lt_wf n) as [n _ IH]. intros s ->.
  destruct (decode s) as [[[r b] t]|] eqn:E.
  - eapply HS; [done|]. eapply IH; [|done]. by eapply decode_length.
  - apply decode_none in E as ->. done.
Qed.

Lemma str_app_assoc (a b c : string) : (a +:+ b) +:+ c = a +:+ (b +:+ c).
Proof. induction a; [done|]. rewrite !str_app_cons. by f_equal. Qed.

Lemma str_app_nil_r (a : string) : a +:+ "" = a.
Proof. induction a; [done|]. rewrite str_app_cons. by f_equal. Qed.

Lemma str_app_nil_inv (a b : string) : a +:+ b = "" -> a = "" /\ b = "".
Proof. destruct a; [done|]. done. Qed.

Lemma cat_app l k : cat (l ++ k) = cat l +:+ cat k.
Proof.
  induction l as [|[r b] l IH]; simpl; [done|]. by rewrite IH, str_app_assoc.
Qed.

Lemma cat_chunks s : cat (chunks s) = s.
Proof.
  induction s as [|s r b t E IH] using decode_ind; [done|].
  rewrite chunks_unfold, E. simpl. rewrite IH. by apply decode_split in E as [-> _].
Qed.

Lemma decode_prefix b t t' r :
  decode (b +:+ (t +:+ t')) = Some (r, b, t +:+ t') ->
  decode (b +:+ t) = Some (r, b, t).
Proof.
  unfold decode.
  destruct b as [|c0 [|c1 [|c2 [|c3 [|c4 b]]]]], t as [|d0 [|d1 [|d2 t]]];
    rewrite ?str_app_cons, ?str_app_nil_l, ?str_app_nil_r; intros H; try done.
  all: repeat (case_match; simplify_eq; try done).
Qed.

Lemma chunks_cons s r b cs :
  chunks s = (r, b) :: cs -> exists t, decode s = Some (r, b, t) /\ chunks t = cs.
Proof.
  rewrite chunks_unfold. destruct (decode s) as [[[r' b'] t]|]; naive_solver.
Qed.

(** A cut between two runes of a decoded string splits the decoding. *)
Lemma chunks_cut s l k :
  chunks s = l ++ k -> chunks (cat l) = l /\ chunks (cat k) = k.
Proof.
  revert s. induction l as [|[r b] l IH]; intros s Hs.
  - split; [done|]. simpl in Hs. by rewrite <- Hs, cat_chunks.
  - apply chunks_cons in Hs as (t & Hd & Ht). destruct (IH _ Ht) as [Hl Hk].
    split; [|done]. pose proof (cat_chunks t) as Hc. rewrite Ht, cat_app in Hc.
    pose proof Hd as [Hsplit _]%decode_split. subst s t.
    simpl. apply decode_prefix in Hd. by rewrite chunks_unfold, Hd, Hl.
Qed.

Lemma chunks_infix s a l b : chunks s = a ++ l ++ b -> chunks (cat l) = l.
Proof.
  intros [_ Hr]%chunks_cut. by apply chunks_cut in Hr as [Hl _].
Qed.

Lemma chunks_TrimSpace s :
  chunks (TrimSpace s) = drop_while_end space_chunk (drop_while space_chunk (chunks s)).
Proof.
  unfold TrimSpace. destruct (trim_infix space_chunk (chunks s)) as (a & b & Hab).
  by apply (chunks_infix s a _ b).
Qed.

Lemma TrimSpace_idemp s : TrimSpace (TrimSpace s) = TrimSpace s.
Proof.
  unfold TrimSpace at 1. by rewrite chunks_TrimSpace, trim_idemp.
Qed.

Lemma blank_TrimSpace s : blank (TrimSpace s) = blank s.
Proof. unfold blank. by rewrite TrimSpace_idemp. Qed.

(** ** ASCII strings decode byte by byte *)

Definition is_ascii (s : string) : bool := forallb (fun b => b <? 128) (bytes s).

Definition chunks_of_bytes : list Z -> list (Z * string) :=
  fmap (fun b => (b, String (ascii_of_Z b) "")).

Lemma ascii_of_Z_byte c : ascii_of_Z (byte c) = c.
Proof.
  unfold ascii_of_Z, byte. by rewrite N2Z.id, ascii_N_embedding.
Qed.

Lemma chunks_ascii s : is_ascii s = true -> chunks s = chunks_of_bytes (bytes s).
Proof.
  induction s as [|c s IH]; [done|]. unfold is_ascii. simpl.
  intros [Hc Hs]%andb_true_iff. rewrite chunks_unfold. simpl. rewrite Hc.
  rewrite IH by done. by rewrite ascii_of_Z_byte.
Qed.

Lemma runes_ascii s : is_ascii s = true -> runes s = bytes s.
Proof.
  intros H. unfold runes. rewrite chunks_ascii by done.
  unfold chunks_of_bytes. rewrite <- list_fmap_compose.
  rewrite list_fmap_id. done.
Qed.

Lemma encode_rune_ascii r : 0 <= r < 128 -> encode_rune r = String (ascii_of_Z r) "".
Proof.
  intros H. unfold encode_rune, between.
  by replace ((0 <=? r) && (r <=? 127)) with true by (symmetry; lia).
Qed.

Lemma TrimSpace_id s :
  is_ascii s = true -> Forall (fun b => IsSpace b = false) (bytes s) -> TrimSpace s = s.
Proof.
  intros Ha Hs. unfold TrimSpace.
  assert (Forall (fun c => space_chunk c = false) (chunks s)) as Hc.
  { rewrite chunks_ascii by done. unfold chunks_of_bytes. by rewrite Forall_fmap. }
  rewrite drop_while_none, drop_while_end_none by done. apply cat_chunks.
Qed.

Lemma is_ascii_app s t : is_ascii (s +:+ t) = is_ascii s && is_ascii t.
Proof.
  induction s as [|c s IH]; [done|]. rewrite str_app_cons. unfold is_ascii in *. simpl.
  by rewrite IH, andb_assoc.
Qed.

Lemma decode_low s r b t :
  decode s = Some (r, b, t) -> r < 128 -> exists c, b = String c "" /\ byte c = r.
Proof.
  unfold decode, lead2, lead3, lead4, cont, between, rune2, rune3, rune4, RuneError.
  intros H Hr. repeat (case_match; simplify_eq/=); bool_to_prop; try lia; eauto.
  all: repeat match goal with
    | K : (_ || _)%bool = true |- _ => apply orb_true_iff in K as [K|K]
    end; bool_to_prop; lia.
Qed.

(** A string of runes below 128 is one byte per rune. *)
Lemma runes_low s : Forall (fun r => r < 128) (runes s) -> is_ascii s = true.
Proof.
  induction s as [|s r b t E IH] using decode_ind; [done|].
  unfold runes. rewrite chunks_unfold, E. simpl. intros [Hr Ht]%Forall_cons.
  destruct (decode_low _ _ _ _ E Hr) as (c & -> & Hc).
  apply decode_split in E as [-> _]. rewrite is_ascii_app, (IH Ht), andb_true_r.
  unfold is_ascii. simpl. rewrite Hc. simpl. by replace (r <? 128) with true by lia.
Qed.

Lemma bytes_range s : Forall (fun b => 0 <= b < 256) (bytes s).
Proof. induction s; simpl; constructor; [apply byte_range|done]. Qed.

Lemma is_ascii_Forall s : is_ascii s = true <-> Forall (fun b => b < 128) (bytes s).
Proof.
  unfold is_ascii. induction s as [|c s IH]; simpl; [done|].
  rewrite andb_true_iff, Forall_cons, IH. by rewrite Z.ltb_lt.
Qed.

(** A mapping of ASCII to ASCII acts byte by byte. *)
Lemma map_runes_ascii f s :
  is_ascii s = true -> Forall (fun b => 0 <= f b < 128) (bytes s) ->
  bytes (map_runes f s) = f <$> bytes s.
Proof.
  intros Ha Hf. unfold map_runes. rewrite chunks_ascii by done.
  replace ((fun c => (c.1, encode_rune (f c.1))) <$> chunks_of_bytes (bytes s))
    with ((fun b => (b, String (ascii_of_Z (f b)) "")) <$> bytes s).
  - clear Ha. induction Hf as [|b l Hb _ IH]; [done|].
    change (byte (ascii_of_Z (f b))
      :: bytes (cat ((fun b => (b, String (ascii_of_Z (f b)) "")) <$> l)) = f b :: (f <$> l)).
    rewrite IH, byte_ascii_of_Z by lia. done.
  - unfold chunks_of_bytes. rewrite <- list_fmap_compose. apply list_fmap_ext.
    intros i b Hb. apply (Forall_lookup_1 _ _ _ _ Hf) in Hb. simpl.
    by rewrite encode_rune_ascii.
Qed.

Lemma ToUpper_id `{CaseTables} s :
  is_ascii s = true -> Forall (fun b => upper_rune b = b) (bytes s) -> ToUpper s = s.
Proof.
  intros Ha Hu. apply bytes_inj. unfold ToUpper. rewrite map_runes_ascii; [|done|].
  - rewrite <- (list_fmap_id (bytes s)) at 2. apply list_fmap_ext. intros i b Hb.
    by apply (Forall_lookup_1 _ _ _ _ Hu) in Hb.
  - apply is_ascii_Forall in Ha. pose proof (bytes_range s) as Hr.
    rewrite Forall_forall in *. intros b Hb. rewrite (Hu _ Hb).
    specialize (Ha _ Hb). specialize (Hr _ Hb). simpl in *. lia.
Qed.

Lemma bytes_app s t : bytes (s +:+ t) = bytes s ++ bytes t.
Proof. induction s; [done|]. rewrite str_app_cons. simpl. by f_equal. Qed.

Lemma bytes_remove_char c s :
  bytes (remove_char c s) = List.filter (fun b => negb (b =? byte c)) (bytes s).
Proof.
  induction s as [|d s IH]; simpl; [done|].
  destruct (Ascii.eqb_spec d c) as [->|Hne]; simpl.
  - by rewrite Z.eqb_refl.
  - destruct (Z.eqb_spec (byte d) (byte c)) as [E|_]; [by apply byte_inj in E|].
    simpl. by rewrite IH.
Qed.

Lemma remove_char_id c s : Forall (fun b => b <> byte c) (bytes s) -> remove_char c s = s.
Proof.
  intros Hf. apply bytes_inj. rewrite bytes_remove_char.
  induction Hf as [|b l Hb _ IH]; simpl; [done|].
  destruct (Z.eqb_spec b (byte c)); [done|]. simpl. by rewrite IH.
Qed.

(** ** Slices *)

Lemma prefix_app a b : HasPrefix (a +:+ b) a = true.
Proof.
  unfold HasPrefix. induction a as [|c a IH]; [by destruct b|]. rewrite str_app_cons. simpl.
  by destruct (ascii_dec c c).
Qed.

Lemma substring_prefix a b : String.substring 0 (String.length a) (a +:+ b) = a.
Proof.
  induction a as [|c a IH]; simpl; [by destruct b|]. by rewrite IH.
Qed.

Lemma substring_all b : String.substring 0 (String.length b) b = b.
Proof. induction b as [|c b IH]; simpl; [done|]. by rewrite IH. Qed.

Lemma substring_suffix a b :
  String.substring (String.length a) (String.length b) (a +:+ b) = b.
Proof. by induction a as [|c a IH]; simpl; [apply substring_all|]. Qed.

(** ** [time.Duration.String] *)

Definition digit (d : Z) : ascii := ascii_of_Z (48 + d).

(** [fmtFrac]: the fraction of [v / 10 ^ prec] without its trailing zeros, and
    the integer part. *)
Fixpoint fmtFrac (prec : nat) (v : Z) (print : bool) (acc : string) : string * Z :=
  match prec with
  | O => ((if print then "." else "") +:+ acc, v)
  | S prec' =>
      let print' := print || negb (v mod 10 =? 0) in
      fmtFrac prec' (v / 10) print' (if print' then String (digit (v mod 10)) acc else acc)
  end.

Definition duration_string (d : Duration) : string :=
  let u := Z.abs d in
  let sign := if d <? 0 then "-" else "" in
  if u =? 0 then "0s"
  else if u <? 1000 then sign +:+ itoa u +:+ "ns"
  else if u <? 1000000 then
    let '(frac, v) := fmtFrac 3 u false "" in sign +:+ itoa v +:+ frac +:+ "µs"
  else if u <? 1000000000 then
    let '(frac, v) := fmtFrac 6 u false "" in sign +:+ itoa v +:+ frac +:+ "ms"
  else
    let '(frac, v) := fmtFrac 9 u false "" in
    let secs := itoa (v mod 60) +:+ frac +:+ "s" in
    let mins := if 0 <? v / 60 then itoa (v / 60 mod 60) +:+ "m" else "" in
    let hours := if 0 <? v / 3600 then itoa (v / 3600) +:+ "h" else "" in
    sign +:+ hours +:+ mins +:+ secs.

Example duration_string_ttl : duration_string (5 * Minute) = "5m0s".
Proof. reflexivity. Qed.
Example duration_string_frac : duration_string (-1500000) = "-1.5ms".
Proof. reflexivity. Qed.

(** ** Numbers and substrings *)

(** [strconv.Atoi]: decimal digits after an optional sign, within an [int]. *)
Fixpoint decimal (acc : Z) (l : list Z) : option Z :=
  match l with
  | [] => Some acc
  | c :: l' => if between 48 c 57 then decimal (10 * acc + (c - 48)) l' else None
  end.
Definition Atoi (s : string) : option Z :=
  let value sign l :=
    match l with
    | [] => None
    | _ => match decimal 0 l with
           | Some n => if bool_decide (in_int64 (sign * n)) then Some (sign * n) else None
           | None => None
           end
    end in
  match bytes s with
  | c :: l => if c =? 45 then value (-1) l else if c =? 43 then value 1 l else value 1 (c :: l)
  | [] => None
  end.

(** [strings.Contains] and [strings.TrimPrefix]. *)
Fixpoint Contains (s sub : string) : bool :=
  HasPrefix s sub || match s with "" => false | String _ s' => Contains s' sub end.
Definition TrimPrefix (s p : string) : string :=
  if HasPrefix s p then String.substring (String.length p) (String.length s - String.length p) s else s.

(** [strings.ReplaceAll], of an old string that is not empty. *)
Fixpoint replace_skipping (old new : string) (skip : nat) (s : string) : string :=
  match s with
  | "" => ""
  | String c s' =>
      match skip with
      | S skip' => replace_skipping old new skip' s'
      | O => if String.prefix old s then new +:+ replace_skipping old new (String.length old - 1) s'
             else String c (replace_skipping old new 0 s')
      end
  end.
Definition ReplaceAll (s old new : string) : string := replace_skipping old new 0 s.
