(* ===== verification/Regex.v ===== *)
(** * Regular expressions

    The code validates many of its strings with [regexp.MustCompile] patterns
    anchored at both ends.  Each such pattern is written here as a term of
    [re], read off the source literally, and run with Brzozowski derivatives
    over the runes of the string; [re_match_lang] says the matcher decides the
    language of the pattern. *)

From S2P Require Import Prelude GoStrings.

Local Open Scope list_scope.
Local Open Scope Z_scope.

Inductive re : Type :=
| REmpty
| REps
| RClass (ranges : list (Z * Z))
| RCat (r1 r2 : re)
| RAlt (r1 r2 : re)
| RStar (r : re).

Definition in_class (ranges : list (Z * Z)) (x : Z) : bool :=
  existsb (fun '(lo, hi) => between lo x hi) ranges.

(** The language of a pattern. *)
Inductive lang : re -> list Z -> Prop :=
| L_eps : lang REps []
| L_class ranges x : in_class ranges x = true -> lang (RClass ranges) [x]
| L_cat r1 r2 s t : lang r1 s -> lang r2 t -> lang (RCat r1 r2) (s ++ t)
| L_alt_l r1 r2 s : lang r1 s -> lang (RAlt r1 r2) s
| L_alt_r r1 r2 s : lang r2 s -> lang (RAlt r1 r2) s
| L_star_nil r : lang (RStar r) []
| L_star_cons r s t : lang r s -> lang (RStar r) t -> lang (RStar r) (s ++ t).
Create HintDb regex discriminated.
#[export] Hint Constructors lang : regex.

(** Constructors that keep derivatives small. *)
Definition mk_cat (r1 r2 : re) : re :=
  match r1, r2 with
  | REmpty, _ | _, REmpty => REmpty
  | REps, r | r, REps => r
  | _, _ => RCat r1 r2
  end.
Definition mk_alt (r1 r2 : re) : re :=
  match r1, r2 with
  | REmpty, r | r, REmpty => r
  | _, _ => RAlt r1 r2
  end.

Fixpoint nullable (r : re) : bool :=
  match r with
  | REmpty | RClass _ => false
  | REps | RStar _ => true
  | RCat r1 r2 => nullable r1 && nullable r2
  | RAlt r1 r2 => nullable r1 || nullable r2
  end.

Fixpoint deriv (x : Z) (r : re) : re :=
  match r with
  | REmpty | REps => REmpty
  | RClass ranges => if in_class ranges x then REps else REmpty
  | RCat r1 r2 =>
    if nullable r1 then mk_alt (mk_cat (deriv x r1) r2) (deriv x r2)
    else mk_cat (deriv x r1) r2
  | RAlt r1 r2 => mk_alt (deriv x r1) (deriv x r2)
  | RStar r1 => mk_cat (deriv x r1) (RStar r1)
  end.

Fixpoint re_match (r : re) (s : list Z) : bool :=
  match s with
  | [] => nullable r
  | x :: s' => re_match (deriv x r) s'
  end.

(** [pattern.MatchString(s)] for a pattern anchored at both ends. *)
Definition MatchString (r : re) (s : string) : bool := re_match r (runes s).

(** The derived forms of the source patterns. *)
Definition ROpt (r : re) : re := RAlt REps r.
Definition RPlus (r : re) : re := RCat r (RStar r).
Fixpoint RTimes (n : nat) (r : re) : re :=
  match n with
  | O => REps
  | S n' => mk_cat r (RTimes n' r)
  end.
Fixpoint RUpTo (n : nat) (r : re) : re :=
  match n with
  | O => REps
  | S n' => ROpt (mk_cat r (RUpTo n' r))
  end.
(** [r{n,n+m}] *)
Definition RRange (n m : nat) (r : re) : re := mk_cat (RTimes n r) (RUpTo m r).
Definition RChar (z : Z) : re := RClass [(z, z)].
Fixpoint RString (s : list Z) : re :=
  match s with
  | [] => REps
  | x :: s' => mk_cat (RChar x) (RString s')
  end.

Definition upper_letters : Z * Z := (65, 90).
Definition lower_letters : Z * Z := (97, 122).
Definition digits : Z * Z := (48, 57).

(** ** The matcher decides the language *)

Lemma lang_cat_inv r1 r2 s :
  lang (RCat r1 r2) s <-> exists a b, s = a ++ b /\ lang r1 a /\ lang r2 b.
Proof.
  split; [inversion 1; subst; eauto 6 | intros (a & b & -> & ? & ?); eauto with regex].
Qed.

Lemma lang_alt_inv r1 r2 s : lang (RAlt r1 r2) s <-> lang r1 s \/ lang r2 s.
Proof. split; [inversion 1; subst; eauto | intros []; eauto with regex]. Qed.

Lemma lang_empty_inv s : ~ lang REmpty s.
Proof. inversion 1. Qed.

Lemma lang_eps_inv s : lang REps s <-> s = [].
Proof. split; [by inversion 1 | intros ->; constructor]. Qed.

Lemma lang_mk_cat r1 r2 s : lang (mk_cat r1 r2) s <-> lang (RCat r1 r2) s.
Proof.
  assert (forall r s, lang (RCat REps r) s <-> lang r s) as HE1.
  { intros r t. rewrite lang_cat_inv. split.
    - by intros (a & b & -> & ->%lang_eps_inv & ?).
    - intros. by exists [], t; eauto with regex. }
  assert (forall r s, lang (RCat r REps) s <-> lang r s) as HE2.
  { intros r t. rewrite lang_cat_inv. split.
    - intros (a & b & -> & ? & ->%lang_eps_inv). by rewrite app_nil_r.
    - intros. exists t, []. rewrite app_nil_r. eauto with regex. }
  assert (forall r s, lang (RCat REmpty r) s <-> lang REmpty s) as HZ1.
  { intros r t. rewrite lang_cat_inv. split; [by intros (a & b & ? & ?%lang_empty_inv & ?)|].
    by intros ?%lang_empty_inv. }
  assert (forall r s, lang (RCat r REmpty) s <-> lang REmpty s) as HZ2.
  { intros r t. rewrite lang_cat_inv. split; [by intros (a & b & ? & ? & ?%lang_empty_inv)|].
    by intros ?%lang_empty_inv. }
  destruct r1, r2; simpl; rewrite ?HE1, ?HE2, ?HZ1, ?HZ2; done.
Qed.

Lemma lang_mk_alt r1 r2 s : lang (mk_alt r1 r2) s <-> lang r1 s \/ lang r2 s.
Proof.
  pose proof (lang_empty_inv s).
  destruct r1, r2; simpl; rewrite ?lang_alt_inv; tauto.
Qed.

Lemma nullable_lang r : nullable r = true <-> lang r [].
Proof.
  induction r as [| |rs|r1 IH1 r2 IH2|r1 IH1 r2 IH2|r IH]; simpl.
  - split; [done | by intros ?%lang_empty_inv].
  - split; [constructor | done].
  - split; [done | by inversion 1].
  - rewrite andb_true_iff, IH1, IH2, lang_cat_inv. split.
    + intros []. by exists [], [].
    + intros (a & b & Hab & ? & ?). symmetry in Hab. by apply app_eq_nil in Hab as [-> ->].
  - by rewrite orb_true_iff, IH1, IH2, lang_alt_inv.
  - split; [constructor | done].
Qed.

Lemma lang_star_cons_inv r x s :
  lang (RStar r) (x :: s) <->
  exists a b, s = a ++ b /\ lang r (x :: a) /\ lang (RStar r) b.
Proof.
  split.
  - remember (RStar r) as q eqn:Hq. remember (x :: s) as l eqn:Hl. intros HL.
    revert x s Hl. induction HL; intros x0 s0 Hl; simplify_eq.
    destruct s as [|y s]; simplify_eq/=; [by apply IHHL2|]. by exists s, t.
  - intros (a & b & -> & ? & ?). rewrite app_comm_cons. by constructor.
Qed.

Lemma deriv_lang x r s : lang (deriv x r) s <-> lang r (x :: s).
Proof.
  revert s. induction r as [| |rs|r1 IH1 r2 IH2|r1 IH1 r2 IH2|r IH]; intros s; simpl.
  - split; by intros ?%lang_empty_inv.
  - split; [by intros ?%lang_empty_inv | by inversion 1].
  - destruct (in_class rs x) eqn:E.
    + rewrite lang_eps_inv. split; [intros ->; by constructor | by inversion 1].
    + split; [by intros ?%lang_empty_inv | inversion 1; congruence].
  - assert (lang (RCat r1 r2) (x :: s) <->
      lang (RCat (deriv x r1) r2) s \/ (nullable r1 = true /\ lang (deriv x r2) s)) as Hc.
    { rewrite !lang_cat_inv, nullable_lang, IH2. split.
      - intros ([|y a] & b & Hab & H1 & H2); simplify_eq/=; [by right|].
        left. exists a, b. by rewrite IH1.
      - intros [(a & b & -> & H1 & H2) | [H1 H2]].
        + exists (x :: a), b. by rewrite <- IH1.
        + by exists [], (x :: s). }
    rewrite Hc. destruct (nullable r1).
    + rewrite lang_mk_alt, lang_mk_cat. naive_solver.
    + rewrite lang_mk_cat. naive_solver.
  - by rewrite lang_mk_alt, lang_alt_inv, IH1, IH2.
  - rewrite lang_mk_cat, lang_cat_inv, lang_star_cons_inv. by setoid_rewrite IH.
Qed.

(** The executable matcher accepts exactly the strings of the language. *)
Lemma re_match_lang r s : re_match r s = true <-> lang r s.
Proof.
  revert r. induction s as [|x s IH]; intros r; simpl.
  - apply nullable_lang.
  - by rewrite IH, deriv_lang.
Qed.

(** ** Reading languages off the derived forms *)

Lemma lang_char z s : lang (RChar z) s <-> s = [z].
Proof.
  unfold RChar. split.
  - inversion 1 as [|? ? Hx| | | | |]; subst. unfold in_class, between in Hx. simpl in Hx.
    f_equal. lia.
  - intros ->. constructor. unfold in_class, between. simpl. lia.
Qed.

Lemma lang_class rs s : lang (RClass rs) s <-> exists x, s = [x] /\ in_class rs x = true.
Proof. split; [inversion 1; eauto | intros (x & -> & ?); by constructor]. Qed.

Lemma lang_star_class rs s :
  lang (RStar (RClass rs)) s <-> Forall (fun x => in_class rs x = true) s.
Proof.
  split.
  - remember (RStar (RClass rs)) as q eqn:Hq. induction 1; simplify_eq; [constructor|].
    apply lang_class in H as (x & -> & Hx). constructor; auto.
  - induction 1 as [|x s Hx _ IH]; [constructor|].
    change (x :: s) with ([x] ++ s). by constructor; [constructor|].
Qed.

Lemma lang_times_class n rs s :
  lang (RTimes n (RClass rs)) s <->
  length s = n /\ Forall (fun x => in_class rs x = true) s.
Proof.
  revert s. induction n as [|n IH]; intros s; cbn [RTimes].
  - rewrite lang_eps_inv. split; [by intros -> | intros [H _]; by apply nil_length_inv].
  - rewrite lang_mk_cat, lang_cat_inv. split.
    + intros (a & b & -> & (x & -> & Hx)%lang_class & [<- ?]%IH). split; [done|].
      by constructor.
    + intros [Hl Hs]. destruct s as [|x s]; simplify_eq/=.
      apply Forall_cons in Hs as [Hx Hs]. exists [x], s.
      rewrite lang_class, IH. split; [done|]. split; [by exists x | done].
Qed.

Lemma lang_upto_class n rs s :
  lang (RUpTo n (RClass rs)) s <->
  (length s <= n)%nat /\ Forall (fun x => in_class rs x = true) s.
Proof.
  revert s. induction n as [|n IH]; intros s; cbn [RUpTo].
  - rewrite lang_eps_inv. split; [by intros ->; split; [simpl; lia|] |].
    intros [H _]. destruct s; [done|]. simpl in H. lia.
  - unfold ROpt. rewrite lang_alt_inv, lang_eps_inv, lang_mk_cat, lang_cat_inv. split.
    + intros [-> | (a & b & -> & (x & -> & Hx)%lang_class & [? ?]%IH)].
      * split; [simpl; lia | done].
      * split; [simpl; lia | by constructor].
    + intros [Hl Hs]. destruct s as [|x s]; [by left|right].
      apply Forall_cons in Hs as [Hx Hs]. exists [x], s.
      rewrite lang_class, IH. simpl in Hl. split; [done|]. split; [by eauto|].
      split; [lia|done].
Qed.

(** [[class]{n,n+m}] *)
Lemma lang_range_class n m rs s :
  lang (RRange n m (RClass rs)) s <->
  (n <= length s <= n + m)%nat /\ Forall (fun x => in_class rs x = true) s.
Proof.
  unfold RRange. rewrite lang_mk_cat, lang_cat_inv. split.
  - intros (a & b & -> & [<- ?]%lang_times_class & [? ?]%lang_upto_class).
    rewrite length_app, Forall_app. split; [lia | done].
  - intros [Hl Hs]. exists (take n s), (drop n s).
    rewrite take_drop, lang_times_class, lang_upto_class.
    rewrite <- (take_drop n s) in Hs. apply Forall_app in Hs as [? ?].
    rewrite length_take, length_drop. repeat split; try done; lia.
Qed.
