(* ===== verification/Errors.v ===== *)
(** * Errors (src/internal/domain/error.go)

    The typed error of the domain, the other error values the modelled code
    builds ([errors.New], [fmt.Errorf] with [%w], and the job queue's
    permanent marker), and the two chain walks [errors.As] and [errors.Is]
    the code relies on. *)

From S2P Require Import Prelude.

(** [type Category string] and its closed set of constants. *)
Inductive Category : Type :=
| NotFound
| InvalidInput
| Unauthorized
| Conflict
| Unavailable
| Internal.

#[export] Instance Category_eq_dec : EqDecision Category.
Proof. solve_decision. Defined.

#[local] Set Warnings "-register-all".

(** A Go error value.  [DomainError] is [*domain.Error]; [PermanentError] is
    [*jobs.permanentError]; [Errorf] is a [fmt.Errorf] message over the error
    it wraps with [%w]; [New] is an [errors.New] value, identified by its
    text. *)
Inductive error : Type :=
| DomainError (cat : Category) (msg : string) (err : option error)
| PermanentError (err : error)
| Errorf (msg : string) (err : error)
| New (text : string).

Abbreviation Result := (res error).

(** [err.Error()]. *)
Fixpoint Error (e : error) : string :=
  match e with
  | DomainError _ msg _ => msg
  | PermanentError e' => Error e'
  | Errorf msg _ => msg
  | New text => text
  end.

(** [errors.Unwrap(err)]. *)
Definition Unwrap (e : error) : option error :=
  match e with
  | DomainError _ _ e' => e'
  | PermanentError e' => Some e'
  | Errorf _ e' => Some e'
  | New _ => None
  end.

(** [CategoryOf]: the category of the first [*domain.Error] in the chain. *)
Fixpoint CategoryOf (e : error) : Category :=
  match e with
  | DomainError c _ _ => c
  | PermanentError e' => CategoryOf e'
  | Errorf _ e' => CategoryOf e'
  | New _ => Internal
  end.

(** [errors.Is(err, target)] for a sentinel made by [errors.New]. *)
Fixpoint Is (e : error) (target : string) : bool :=
  match e with
  | DomainError _ _ (Some e') => Is e' target
  | DomainError _ _ None => false
  | PermanentError e' => Is e' target
  | Errorf _ e' => Is e' target
  | New text => String.eqb text target
  end.

(** The two constructors the domain writes most. *)
Definition mkErr (c : Category) (msg : string) : error := DomainError c msg None.
Definition fails {A} (c : Category) (msg : string) : Result A := Err (mkErr c msg).

(** The category of a failed result, [None] for a successful one. *)
Definition category {A} (r : Result A) : option Category :=
  match r with
  | Err e => Some (CategoryOf e)
  | _ => None
  end.
