(* ===== verification/Net.v ===== *)
(** * Network addresses (net and net/netip, of the standard library)

    Splitting and joining hosts and ports; addresses of either family with
    their zone, prefixes, the prefix an address belongs to and what a prefix
    contains.  The texts of addresses are a class. *)

From S2P Require Import Prelude GoStrings Errors.

Local Open Scope string_scope.
Local Open Scope list_scope.
Local Open Scope Z_scope.

(** ** Hosts and ports (net.SplitHostPort, net.JoinHostPort)

    Texts are split as lists of characters. *)

(** What is before and after the first, or the last, occurrence of [c]. *)
Fixpoint split_first (c : ascii) (l : list ascii) : option (list ascii * list ascii) :=
  match l with
  | [] => None
  | d :: l' =>
      if Ascii.eqb d c then Some ([], l')
      else '(before, after) ← split_first c l'; Some (d :: before, after)
  end.
Fixpoint split_last (c : ascii) (l : list ascii) : option (list ascii * list ascii) :=
  match l with
  | [] => None
  | d :: l' =>
      match split_last c l' with
      | Some (before, after) => Some (d :: before, after)
      | None => if Ascii.eqb d c then Some ([], l') else None
      end
  end.
Definition has_char (c : ascii) (l : list ascii) : bool := existsb (fun d => Ascii.eqb d c) l.

Definition chars (s : string) : list ascii := String.list_ascii_of_string s.
Definition text_of (l : list ascii) : string := String.string_of_list_ascii l.

Definition AddrError (addr why : string) : error :=
  New (if String.eqb addr "" then why else "address " +:+ addr +:+ ": " +:+ why).

Definition SplitHostPort (hostport : string) : Result (string * string) :=
  let addrErr why := Err (AddrError hostport why) in
  let finish host port (from_host from_bracket : list ascii) :=
    if has_char "[" from_host then addrErr "unexpected '[' in address"
    else if has_char "]" from_bracket then addrErr "unexpected ']' in address"
    else Ok (text_of host, text_of port) in
  match split_last ":" (chars hostport) with
  | None => addrErr "missing port in address"
  | Some (before, port) =>
      match before with
      | "["%char :: inner =>
          match split_first "]" inner with
          | None =>
              (* The first bracket that closes is after the last colon, if
                 there is one. *)
              match split_first "]" port with
              | None => addrErr "missing ']' in address"
              | Some _ => addrErr "missing port in address"
              end
          | Some (host, []) => finish host port (host ++ "]" :: ":" :: port)%char (":" :: port)%char
          | Some (_, ":"%char :: _) => addrErr "too many colons in address"
          | Some (_, _) => addrErr "missing port in address"
          end
      | _ =>
          if has_char ":" before then addrErr "too many colons in address"
          else finish before port (before ++ ":" :: port)%char (before ++ ":" :: port)%char
      end
  end.

Definition JoinHostPort (host port : string) : string :=
  if contains_char ":" host then "[" +:+ host +:+ "]:" +:+ port else host +:+ ":" +:+ port.

(** ** Addresses and prefixes (net/netip) *)

Inductive family := V4 | V6.
#[export] Instance family_eq_dec : EqDecision family.
Proof. solve_decision. Defined.

Definition width (f : family) : Z := match f with V4 => 32 | V6 => 128 end.

(** The bits of an address as a number; only addresses of version 6 have a
    zone. *)
Record Addr := mkAddr { ad_family : family; ad_bits : Z; ad_zone : string }.
#[export] Instance Addr_eq_dec : EqDecision Addr.
Proof. solve_decision. Defined.

Definition Is6 (a : Addr) : bool := bool_decide (ad_family a = V6).
Definition Is4In6 (a : Addr) : bool := Is6 a && (Z.shiftr (ad_bits a) 32 =? 65535).
Definition Unmap (a : Addr) : Addr :=
  if Is4In6 a then mkAddr V4 (Z.land (ad_bits a) (Z.ones 32)) "" else a.

Record Prefix := mkPrefix { px_addr : Addr; px_bits : Z }.
#[export] Instance Prefix_eq_dec : EqDecision Prefix.
Proof. solve_decision. Defined.

(** The first [b] bits, the others zero, without a zone. *)
Definition masked (f : family) (b x : Z) : Z := Z.shiftl (Z.shiftr x (width f - b)) (width f - b).
Definition addr_Prefix (a : Addr) (b : Z) : option Prefix :=
  if (b <? 0) || (width (ad_family a) <? b) then None
  else Some (mkPrefix (mkAddr (ad_family a) (masked (ad_family a) b (ad_bits a)) "") b).
Definition Masked (p : Prefix) : Prefix :=
  default (mkPrefix (mkAddr V4 0 "") (-1)) (addr_Prefix (px_addr p) (px_bits p)).

(** [IsValid] of a prefix that was parsed. *)
Definition valid_prefix (p : Prefix) : bool := (0 <=? px_bits p) && (px_bits p <=? width (ad_family (px_addr p))).
Definition prefix_Contains (p : Prefix) (a : Addr) : bool :=
  valid_prefix p && String.eqb (ad_zone a) "" && bool_decide (ad_family (px_addr p) = ad_family a) &&
  (Z.shiftr (Z.lxor (ad_bits (px_addr p)) (ad_bits a)) (width (ad_family a) - px_bits p) =? 0).

(** [ParseAddr], [ParsePrefix] and the texts of what they parse. *)
Class NetipText := {
  ParseAddr : string -> option Addr;
  ParsePrefix : string -> Prefix + error;
  addr_text : Addr -> string;
  prefix_text : Prefix -> string;
}.

(** Different addresses and prefixes have different texts. *)
Class NetipTextLaws `{NetipText} := {
  addr_text_inj a b : addr_text a = addr_text b -> a = b;
  prefix_text_inj p q : prefix_text p = prefix_text q -> p = q;
  addr_not_prefix a p : addr_text a <> prefix_text p;
}.

(** ** Laws *)

Lemma shiftr_lxor_zero x y n : Z.shiftr (Z.lxor x y) n = 0 <-> Z.shiftr x n = Z.shiftr y n.
Proof. rewrite Z.shiftr_lxor. apply Z.lxor_eq_0_iff. Qed.

(** Masking keeps what a prefix contains. *)
Lemma masked_shift f b x : b <= width f -> Z.shiftr (masked f b x) (width f - b) = Z.shiftr x (width f - b).
Proof.
  intros Hb. unfold masked. rewrite Z.shiftr_shiftl_l by lia. rewrite Z.sub_diag. apply Z.shiftl_0_r.
Qed.

Lemma Masked_Contains p a : valid_prefix p = true -> prefix_Contains (Masked p) a = prefix_Contains p a.
Proof.
  intros Hv. pose proof Hv as [H1%Z.leb_le H2%Z.leb_le]%andb_true_iff. unfold Masked, addr_Prefix.
  destruct (Z.ltb_spec (px_bits p) 0); [lia|]. destruct (Z.ltb_spec (width (ad_family (px_addr p))) (px_bits p)); [lia|].
  cbn [orb default id]. unfold prefix_Contains, valid_prefix. cbn [px_addr px_bits ad_family ad_bits].
  destruct (decide (ad_family (px_addr p) = ad_family a)) as [E|E];
    [|rewrite !(bool_decide_eq_false_2 _ E), !andb_false_r; done].
  f_equal. apply eq_true_iff_eq. rewrite !Z.eqb_eq, !shiftr_lxor_zero. rewrite E in *.
  cbn [px_addr px_bits ad_bits]. rewrite masked_shift by lia. done.
Qed.

(** Two addresses are in one prefix of [b] bits just when their first [b] bits
    are the same. *)
Lemma addr_Prefix_same a1 a2 b p1 p2 :
  addr_Prefix a1 b = Some p1 -> addr_Prefix a2 b = Some p2 ->
  p1 = p2 <-> ad_family a1 = ad_family a2 /\
    Z.shiftr (ad_bits a1) (width (ad_family a1) - b) = Z.shiftr (ad_bits a2) (width (ad_family a2) - b).
Proof.
  unfold addr_Prefix. destruct (_ || _) eqn:E1; [done|]. destruct (_ || _) eqn:E2 in |- *; [done|]. intros [= <-] [= <-].
  apply orb_false_iff in E1 as [_ E1%Z.ltb_ge], E2 as [_ E2%Z.ltb_ge]. split.
  - intros [= Hf Hm]. split; [done|]. apply (f_equal (fun x => Z.shiftr x (width (ad_family a1) - b))) in Hm.
    rewrite masked_shift in Hm by done. rewrite Hm, Hf. apply masked_shift. by rewrite <- Hf.
  - intros [Hf Hm]. unfold masked. by rewrite Hm, Hf.
Qed.

(** ** Splitting what was joined *)

Lemma split_last_none c l : has_char c l = false -> split_last c l = None.
Proof.
  induction l as [|d l IH]; [done|]. cbn [has_char existsb split_last]. intros [Hd Hl]%orb_false_iff.
  by rewrite IH, Hd.
Qed.

Lemma split_last_app c before after :
  has_char c after = false -> split_last c (before ++ c :: after) = Some (before, after).
Proof.
  intros Ha. induction before as [|d before IH]; cbn [app split_last].
  - by rewrite split_last_none, Ascii.eqb_refl.
  - by rewrite IH.
Qed.

Lemma split_first_app c before after :
  has_char c before = false -> split_first c (before ++ c :: after) = Some (before, after).
Proof.
  induction before as [|d before IH]; cbn [app split_first has_char existsb]; [by rewrite Ascii.eqb_refl|].
  intros [Hd Hb]%orb_false_iff. by rewrite Hd, IH.
Qed.

Lemma has_char_app c l1 l2 : has_char c (l1 ++ l2) = has_char c l1 || has_char c l2.
Proof. apply existsb_app. Qed.

Lemma chars_app s t : chars (s +:+ t) = chars s ++ chars t.
Proof. induction s as [|c s IH]; [done|]. change (chars (String c s +:+ t)) with (c :: chars (s +:+ t)). by rewrite IH. Qed.

Lemma contains_chars c s : contains_char c s = has_char c (chars s).
Proof.
  induction s as [|d s IH]; [done|]. cbn. by rewrite IH.
Qed.

Lemma text_of_chars s : text_of (chars s) = s.
Proof. apply String.string_of_list_ascii_of_string. Qed.

(** A host without brackets and a port without colon or brackets. *)
Definition plain_host (host : string) : bool := negb (contains_char "[" host) && negb (contains_char "]" host).
Definition plain_port (port : string) : bool := plain_host port && negb (contains_char ":" port).

Lemma SplitHostPort_join host port :
  plain_host host = true -> plain_port port = true -> SplitHostPort (JoinHostPort host port) = Ok (host, port).
Proof.
  unfold plain_port, plain_host. rewrite !contains_chars.
  intros [Ho%negb_true_iff Hc%negb_true_iff]%andb_true_iff
    [[Po%negb_true_iff Pc%negb_true_iff]%andb_true_iff Pp%negb_true_iff]%andb_true_iff.
  unfold JoinHostPort, SplitHostPort. rewrite contains_chars. destruct (has_char ":" (chars host)) eqn:Hcol.
  - rewrite chars_app. change (chars "[") with ["["%char]. rewrite !chars_app.
    change (chars "]:") with ["]"; ":"]%char. cbn [app].
    replace ("[" :: chars host ++ "]" :: ":" :: chars port)%char
      with (("[" :: chars host ++ ["]"]) ++ ":" :: chars port)%char
      by (cbn [app]; by rewrite <- app_assoc).
    rewrite split_last_app by done. cbn [app]. rewrite split_first_app by done.
    rewrite has_char_app, Ho. cbn [has_char existsb orb Ascii.eqb Bool.eqb]. fold (has_char "[" (chars port)).
    fold (has_char "]" (chars port)). rewrite Po, Pc. by rewrite !text_of_chars.
  - rewrite !chars_app. change (chars ":") with [":"%char]. cbn [app]. rewrite split_last_app by done.
    assert (Hf : has_char "[" (chars host ++ ":" :: chars port)%char = false)
      by (rewrite has_char_app, Ho; exact Po).
    assert (Hg : has_char "]" (chars host ++ ":" :: chars port)%char = false)
      by (rewrite has_char_app, Hc; exact Pc).
    rewrite Hcol, Hf, Hg, !text_of_chars. destruct (chars host) as [|c l]; [done|].
    destruct (decide (c = "["%char)) as [->|Hne]; [done|].
    destruct c as [[] [] [] [] [] [] [] []]; done.
Qed.
