(* ===== verification/Validate.v ===== *)
(** * Shared validation (src/internal/domain/validate.go, language.go,
    subject.go)

    The bounded-text rule every free-form field goes through, the BCP-47 tag
    pattern and the ISBN checksums, with what the checksums detect. *)

From S2P Require Import Prelude GoStrings Regex Errors.

Local Open Scope string_scope.
Local Open Scope list_scope.
Local Open Scope Z_scope.

Definition ValidateBoundedText (field s : string) (maxLen : Z) : Result unit :=
  if String.eqb (TrimSpace s) "" then
    fails InvalidInput (field +:+ " must not be empty or whitespace-only")
  else if maxLen <? rune_count s then
    fails InvalidInput
      (field +:+ " exceeds maximum length of " +:+ itoa maxLen +:+ " characters")
  else if existsb IsControl (runes s) then
    fails InvalidInput (field +:+ " contains a control character")
  else Ok tt.

(** [^[a-zA-Z]{2,8}(-[a-zA-Z0-9]{1,8})*$] *)
Definition bcp47Pattern : re :=
  RCat (RRange 2 6 (RClass [lower_letters; upper_letters]))
       (RStar (RCat (RChar 45) (RRange 1 7 (RClass [lower_letters; upper_letters; digits])))).

Definition ValidateLanguageTag (s : string) : Result unit :=
  if negb (MatchString bcp47Pattern s)
  then fails InvalidInput "language must be a valid BCP-47 tag"
  else Ok tt.

(** The loop of [isValidISBN10] from index [i] on, over the bytes not yet
    read. *)
Fixpoint isbn10_loop (s : list Z) (i sum : Z) : bool :=
  match s with
  | [] => sum mod 11 =? 0
  | c :: s' =>
    if between 48 c 57 then isbn10_loop s' (i + 1) (sum + (c - 48) * (10 - i))
    else if (c =? 88) && (i =? 9) then isbn10_loop s' (i + 1) (sum + 10 * (10 - i))
    else false
  end.
Definition isValidISBN10 (s : string) : bool := isbn10_loop (bytes s) 0 0.

Fixpoint isbn13_loop (s : list Z) (i sum : Z) : bool :=
  match s with
  | [] => sum mod 10 =? 0
  | c :: s' =>
    if (c <? 48) || (57 <? c) then false
    else if i mod 2 =? 0 then isbn13_loop s' (i + 1) (sum + (c - 48))
    else isbn13_loop s' (i + 1) (sum + (c - 48) * 3)
  end.
Definition isValidISBN13 (s : string) : bool := isbn13_loop (bytes s) 0 0.

Definition ValidateISBN (s : string) : Result unit :=
  let cleaned := remove_char "-" s in
  let valid :=
    if len cleaned =? 10 then isValidISBN10 cleaned
    else if len cleaned =? 13 then isValidISBN13 cleaned
    else false in
  if negb valid then fails InvalidInput "isbn is not a valid ISBN-10 or ISBN-13"
  else Ok tt.

(** ** Value types *)

(** [Language] and [NewLanguage] (language.go). *)
Record Language := mkLanguage { lang_tag : string }.

Definition NewLanguage (tag : string) : Result Language :=
  _ ← ValidateLanguageTag tag;
  mret (mkLanguage tag).

(** [Subject] and [NewSubject] (subject.go). *)
Definition maxSubjectLength : Z := 100.
Record Subject := mkSubject { subject_value : string }.

Definition NewSubject (value : string) : Result Subject :=
  _ ← ValidateBoundedText "subject" value maxSubjectLength;
  mret (mkSubject value).

#[export] Instance Language_eq_dec : EqDecision Language.
Proof. solve_decision. Defined.
#[export] Instance Subject_eq_dec : EqDecision Subject.
Proof. solve_decision. Defined.
#[export] Instance Subject_countable : Countable Subject.
Proof.
  refine (inj_countable' subject_value mkSubject _). by intros [].
Defined.

(** ** Bounded text *)

Lemma ValidateBoundedText_ok f s n :
  ValidateBoundedText f s n = Ok tt <->
  blank s = false /\ rune_count s <= n /\ Forall (fun r => IsControl r = false) (runes s).
Proof.
  unfold ValidateBoundedText, blank, fails.
  destruct (String.eqb (TrimSpace s) ""); [split; [done|by intros (? & _)]|].
  destruct (n <? rune_count s) eqn:El; bool_to_prop.
  { split; [done|]. intros (_ & ? & _). lia. }
  destruct (existsb IsControl (runes s)) eqn:Ec.
  - split; [done|]. intros (_ & _ & Hf).
    apply existsb_exists in Ec as (r & Hin & Hr). rewrite <- list_elem_of_In in Hin.
    rewrite Forall_forall in Hf. rewrite Hf in Hr; done.
  - split; [|done]. intros _. split; [done|]. split; [done|].
    apply Forall_forall. intros r Hr. destruct (IsControl r) eqn:E; [|done].
    assert (existsb IsControl (runes s) = true); [|congruence].
    apply existsb_exists. exists r. by rewrite <- list_elem_of_In.
Qed.

(** ** What the ISBN checksums detect *)

Lemma isbn10_loop_shift s i a b :
  (a - b) mod 11 = 0 -> isbn10_loop s i a = isbn10_loop s i b.
Proof.
  revert i a b. induction s as [|c s IH]; intros i a b H; simpl.
  - f_equal. rewrite Z.mod_divide in H by lia. destruct H as [k Hk].
    replace a with (b + k * 11) by lia. by rewrite Z_mod_plus_full.
  - destruct (between 48 c 57); [|destruct ((c =? 88) && (i =? 9)); [|done]];
      apply IH; rewrite <- H; f_equal; lia.
Qed.

(** Two accumulators that both lead to a valid sum agree modulo 11. *)
Lemma isbn10_loop_inj s i a b :
  isbn10_loop s i a = true -> isbn10_loop s i b = true -> (a - b) mod 11 = 0.
Proof.
  revert i a b. induction s as [|c s IH]; intros i a b; simpl.
  - intros Ha Hb. bool_to_prop. rewrite Zminus_mod, Ha, Hb. done.
  - destruct (between 48 c 57); [|destruct ((c =? 88) && (i =? 9)); [|done]];
      intros Ha Hb; specialize (IH _ _ _ Ha Hb); rewrite <- IH; f_equal; lia.
Qed.

Lemma isbn13_loop_inj s i a b :
  isbn13_loop s i a = true -> isbn13_loop s i b = true -> (a - b) mod 10 = 0.
Proof.
  revert i a b. induction s as [|c s IH]; intros i a b; simpl.
  - intros Ha Hb. bool_to_prop. rewrite Zminus_mod, Ha, Hb. done.
  - destruct ((c <? 48) || (57 <? c)); [done|]. destruct (i mod 2 =? 0);
      intros Ha Hb; specialize (IH _ _ _ Ha Hb); rewrite <- IH; f_equal; lia.
Qed.

(** The weights of both schemes are units: a digit is determined by its
    weighted contribution. *)
Lemma unit_weight_11 w x y :
  1 <= w <= 10 -> 0 <= x <= 10 -> 0 <= y <= 10 -> (x * w - y * w) mod 11 = 0 -> x = y.
Proof.
  intros Hw Hx Hy H.
  assert (w = 1 \/ w = 2 \/ w = 3 \/ w = 4 \/ w = 5 \/ w = 6 \/ w = 7 \/ w = 8 \/ w = 9 \/ w = 10)
    as [->|[->|[->|[->|[->|[->|[->|[->|[->| ->]]]]]]]]] by lia; zmod_lia.
Qed.

Lemma isbn10_substitution p c d q i a :
  0 <= i -> i + Z.of_nat (length p + 1 + length q) = 10 ->
  isbn10_loop (p ++ c :: q) i a = true ->
  isbn10_loop (p ++ d :: q) i a = true -> c = d.
Proof.
  revert i a. induction p as [|x p IH]; intros i a Hi Hl; simpl in *.
  - intros Hc Hd. unfold between in *.
    destruct ((48 <=? c) && (c <=? 57)) eqn:Ec, ((48 <=? d) && (d <=? 57)) eqn:Ed;
      repeat (case_match; try done); bool_to_prop;
      pose proof (isbn10_loop_inj _ _ _ _ Hc Hd) as Hm.
    + assert (c - 48 = d - 48); [|lia].
      apply (unit_weight_11 (10 - i)); [lia..|]. rewrite <- Hm. f_equal. lia.
    + assert (c - 48 = 10); [|lia].
      apply (unit_weight_11 (10 - i)); [lia..|]. rewrite <- Hm. f_equal. lia.
    + assert (10 = d - 48); [|lia].
      apply (unit_weight_11 (10 - i)); [lia..|]. rewrite <- Hm. f_equal. lia.
    + lia.
  - destruct (between 48 x 57); [|destruct ((x =? 88) && (i =? 9)); [|done]];
      apply IH; lia.
Qed.

Lemma isbn13_substitution p c d q i a :
  isbn13_loop (p ++ c :: q) i a = true ->
  isbn13_loop (p ++ d :: q) i a = true -> c = d.
Proof.
  revert i a. induction p as [|x p IH]; intros i a; simpl in *.
  - destruct ((c <? 48) || (57 <? c)) eqn:Ec, ((d <? 48) || (57 <? d)) eqn:Ed; try done.
    destruct (i mod 2 =? 0); intros Hc Hd; bool_to_prop;
      pose proof (isbn13_loop_inj _ _ _ _ Hc Hd) as Hm; zmod_lia.
  - destruct ((x <? 48) || (57 <? x)); [done|]. destruct (i mod 2 =? 0); apply IH.
Qed.

Lemma remove_char_app c s t :
  remove_char c (s +:+ t) = remove_char c s +:+ remove_char c t.
Proof.
  induction s as [|d s IH]; [done|]. rewrite str_app_cons. simpl.
  rewrite IH. by destruct (Ascii.eqb d c).
Qed.

Lemma ValidateISBN_ok s :
  ValidateISBN s = Ok tt <->
  (len (remove_char "-" s) = 10 /\ isbn10_loop (bytes (remove_char "-" s)) 0 0 = true) \/
  (len (remove_char "-" s) = 13 /\ isbn13_loop (bytes (remove_char "-" s)) 0 0 = true).
Proof.
  unfold ValidateISBN, isValidISBN10, isValidISBN13, fails.
  set (l := len (remove_char "-" s)).
  destruct (l =? 10) eqn:E10; [|destruct (l =? 13) eqn:E13]; bool_to_prop.
  - destruct (isbn10_loop _ _ _); simpl; split; try done; [by left|].
    intros [[_ ?]|[? _]]; [done|lia].
  - destruct (isbn13_loop _ _ _); simpl; split; try done; [by right|].
    intros [[? _]|[_ ?]]; [lia|done].
  - simpl. split; [done|]. intros [[? _]|[? _]]; lia.
Qed.

(** ** Properties *)

Lemma len_app s t : len (s +:+ t) = len s + len t.
Proof. unfold len. rewrite str_length_app. lia. Qed.

Lemma len_cons c s : len (String c s) = 1 + len s.
Proof. unfold len. simpl. lia. Qed.

Lemma bytes_len s : Z.of_nat (length (bytes s)) = len s.
Proof. unfold len. by rewrite bytes_length. Qed.

(** A checksum-valid ISBN with one character replaced by another (hyphens
    aside) is rejected, in both schemes. *)
Theorem ValidateISBN_substitution p c d q :
  c <> d -> c <> "-"%char -> d <> "-"%char ->
  ValidateISBN (p +:+ String c q) = Ok tt ->
  category (ValidateISBN (p +:+ String d q)) = Some InvalidInput.
Proof.
  intros Hne Hc Hd H1.
  destruct (ValidateISBN (p +:+ String d q)) as [[]|e|] eqn:H2.
  - exfalso. apply Hne, byte_inj. apply ValidateISBN_ok in H1, H2.
    rewrite !remove_char_app in H1, H2. cbn [remove_char] in H1, H2.
    apply Ascii.eqb_neq in Hc, Hd. rewrite Hc in H1. rewrite Hd in H2.
    rewrite !bytes_app, !len_app, !len_cons in H1, H2. cbn [bytes] in H1, H2.
    destruct H1 as [[Hl H1]|[Hl H1]], H2 as [[Hl' H2]|[Hl' H2]]; try lia.
    + eapply isbn10_substitution; [| |exact H1|exact H2]; [lia|].
      rewrite <- (bytes_len (remove_char _ p)), <- (bytes_len (remove_char _ q)) in Hl. lia.
    + eapply isbn13_substitution; [exact H1|exact H2].
  - unfold ValidateISBN, fails in H2. case_match; simplify_eq. done.
  - unfold ValidateISBN, fails in H2. by case_match.
Qed.

Lemma ValidateISBN_substitution_witness :
  category (ValidateISBN ("0-306-40615" +:+ String "3" "")) = Some InvalidInput.
Proof. apply (ValidateISBN_substitution "0-306-40615" "2" "3" ""); done || reflexivity. Defined.
