(* ===== verification/Catalog.v ===== *)
(** * The catalogue aggregates (src/internal/domain)

    The records of the domain model that are validated at construction and
    carry no behaviour across aggregates: authors, works, editions, sources
    and their offerings, library entries, collections, bookmarks, highlights,
    reading preferences, and the domain events with their split into public
    and sensitive. *)

From S2P Require Import Prelude GoStrings Errors Validate.

Local Open Scope string_scope.
Local Open Scope list_scope.
Local Open Scope Z_scope.

(** The identifier types of id.go are strings of the same shape. *)
Abbreviation WorkID := string (only parsing).
Abbreviation EditionID := string (only parsing).
Abbreviation AuthorID := string (only parsing).
Abbreviation LibraryEntryID := string (only parsing).
Abbreviation CollectionID := string (only parsing).
Abbreviation SourceID := string (only parsing).
Abbreviation SourceOfferingID := string (only parsing).
Abbreviation ReadingProgressID := string (only parsing).
Abbreviation BookmarkID := string (only parsing).
Abbreviation HighlightID := string (only parsing).
Abbreviation UserID := string (only parsing).
Abbreviation LibraryID := string (only parsing).
Abbreviation DeviceID := string (only parsing).
Abbreviation PairingSessionID := string (only parsing).

(** ** External references, authors (external_reference.go, author.go) *)

Record ExternalReference := mkExternalReference { ref_Source : string; ref_ID : string }.

#[export] Instance ExternalReference_eq_dec : EqDecision ExternalReference.
Proof. solve_decision. Defined.
#[export] Instance ExternalReference_countable : Countable ExternalReference.
Proof.
  refine (inj_countable' (fun r => (ref_Source r, ref_ID r))
            (fun '(s, i) => mkExternalReference s i) _). by intros [].
Defined.

Definition maxAuthorNameLength : Z := 200.

Record Author := mkAuthor {
  a_id : AuthorID;
  a_name : string;
  a_externalReferences : list ExternalReference;
  a_mergedInto : option AuthorID;
}.

Definition NewAuthor (id : AuthorID) (name : string)
    (externalReferences : list ExternalReference) : Result Author :=
  _ ← ValidateBoundedText "name" name maxAuthorNameLength;
  mret (mkAuthor id name externalReferences None).

(** ** Works (work.go) *)

Definition maxTitleLength : Z := 500.

Record Work := mkWork {
  w_id : WorkID;
  w_title : string;
  w_subtitle : string;
  w_authors : list AuthorID;
  w_subjects : list Subject;
  w_originalLanguage : option Language;
  w_externalReferences : list ExternalReference;
  w_mergedInto : option WorkID;
  w_contains : list WorkID;
}.

#[export] Instance Work_eq_dec : EqDecision Work.
Proof. solve_decision. Defined.

(** Optional text: the empty string skips validation. *)
Definition ValidateOptionalText (field s : string) (maxLen : Z) : Result unit :=
  if String.eqb s "" then Ok tt else ValidateBoundedText field s maxLen.

Definition NewWork (id : WorkID) (title subtitle : string) (authors : list AuthorID)
    (subjects : list Subject) (originalLanguage : option Language)
    (externalReferences : list ExternalReference) : Result Work :=
  _ ← ValidateBoundedText "title" title maxTitleLength;
  _ ← ValidateOptionalText "subtitle" subtitle maxTitleLength;
  mret (mkWork id title subtitle authors subjects originalLanguage
               externalReferences None []).

(** Assignments to one field. *)
Definition set_mergedInto (t : option WorkID) (w : Work) : Work :=
  mkWork (w_id w) (w_title w) (w_subtitle w) (w_authors w) (w_subjects w)
    (w_originalLanguage w) (w_externalReferences w) t (w_contains w).
Definition set_contains (c : list WorkID) (w : Work) : Work :=
  mkWork (w_id w) (w_title w) (w_subtitle w) (w_authors w) (w_subjects w)
    (w_originalLanguage w) (w_externalReferences w) (w_mergedInto w) c.
Definition set_author_mergedInto (t : option AuthorID) (a : Author) : Author :=
  mkAuthor (a_id a) (a_name a) (a_externalReferences a) t.

(** [RehydrateWork] and [RehydrateAuthor] (rehydrate.go): no validation. *)
Definition RehydrateWork (id : WorkID) (title subtitle : string) (authors : list AuthorID)
    (subjects : list Subject) (originalLanguage : option Language)
    (externalReferences : list ExternalReference) (mergedInto : option WorkID)
    (contains : list WorkID) : Work :=
  mkWork id title subtitle authors subjects originalLanguage externalReferences
    mergedInto contains.
Definition RehydrateAuthor (id : AuthorID) (name : string)
    (externalReferences : list ExternalReference) (mergedInto : option AuthorID) : Author :=
  mkAuthor id name externalReferences mergedInto.

(** ** Editions (edition.go) *)

Record Edition := mkEdition {
  e_id : EditionID;
  e_workID : WorkID;
  e_language : Language;
  e_isbn : option string;
  e_publisher : string;
  e_publicationYear : option Z;
  e_externalReferences : list ExternalReference;
}.

Definition NewEdition (id : EditionID) (workID : WorkID) (language : Language)
    (isbn : option string) (publisher : string) (publicationYear : option Z)
    (externalReferences : list ExternalReference) : Result Edition :=
  _ ← match isbn with Some i => ValidateISBN i | None => Ok tt end;
  _ ← ValidateOptionalText "publisher" publisher maxTitleLength;
  mret (mkEdition id workID language isbn publisher publicationYear externalReferences).

(** ** Sources and offerings (file_reference.go, source.go, source_offering.go) *)

Record FileReference := mkFileReference {
  ReferenceID : string;
  Format : string;
  SizeBytes : option Z;
}.

Definition NewFileReference (referenceID format : string) (sizeBytes : option Z)
    : Result FileReference :=
  if String.eqb (TrimSpace referenceID) "" then
    fails InvalidInput "file reference id must not be empty"
  else if String.eqb (TrimSpace format) "" then
    fails InvalidInput "file reference format must not be empty"
  else Ok (mkFileReference referenceID format sizeBytes).

Record SourceCapabilities := mkSourceCapabilities {
  CanList : bool; CanSearch : bool; CanDownload : bool;
}.

Definition maxSourceLabelLength : Z := 100.

Record Source := mkSource {
  s_id : SourceID;
  s_label : string;
  s_capabilities : SourceCapabilities;
  s_kind : string;
}.

Definition NewSource (id : SourceID) (label : string) (capabilities : SourceCapabilities)
    (kind : string) : Result Source :=
  _ ← ValidateBoundedText "label" label maxSourceLabelLength;
  mret (mkSource id label capabilities kind).

#[export] Instance FileReference_eq_dec : EqDecision FileReference.
Proof. solve_decision. Defined.

Record SourceOfferingKey := mkSourceOfferingKey {
  key_SourceID : SourceID; key_EditionID : EditionID; key_Format : string;
}.

Record SourceOffering := mkSourceOffering {
  o_id : SourceOfferingID;
  o_sourceID : SourceID;
  o_editionID : EditionID;
  o_fileReference : FileReference;
  o_observedAt : Time;
}.

#[export] Instance SourceOffering_eq_dec : EqDecision SourceOffering.
Proof. solve_decision. Defined.

Definition NewSourceOffering (id : SourceOfferingID) (sourceID : SourceID)
    (editionID : EditionID) (fileReference : FileReference) (observedAt : Time)
    : SourceOffering :=
  mkSourceOffering id sourceID editionID fileReference observedAt.

Definition UniquenessKey (o : SourceOffering) : SourceOfferingKey :=
  mkSourceOfferingKey (o_sourceID o) (o_editionID o) (Format (o_fileReference o)).

(** ** Library entries (library_entry.go) *)

Record LibraryEntry := mkLibraryEntry {
  le_id : LibraryEntryID;
  le_editionID : EditionID;
  le_addedAt : Time;
}.

Definition NewLibraryEntry (id : LibraryEntryID) (editionID : EditionID) (addedAt : Time)
    : LibraryEntry := mkLibraryEntry id editionID addedAt.

(** ** Bookmarks and highlights (bookmark_and_highlight.go) *)

Record Bookmark := mkBookmark {
  b_id : BookmarkID; b_editionID : EditionID; b_position : string; b_label : string;
  b_createdAt : Time;
}.
Definition NewBookmark (id : BookmarkID) (editionID : EditionID) (position label : string)
    (createdAt : Time) : Bookmark := mkBookmark id editionID position label createdAt.

Record Highlight := mkHighlight {
  h_id : HighlightID; h_editionID : EditionID; h_startPosition : string;
  h_endPosition : string; h_note : string; h_category : string; h_createdAt : Time;
}.
Definition NewHighlight (id : HighlightID) (editionID : EditionID)
    (startPosition endPosition note category : string) (createdAt : Time) : Highlight :=
  mkHighlight id editionID startPosition endPosition note category createdAt.

(** ** Collections (collection.go) *)

Definition maxCollectionNameLength : Z := 100.

Record CollectionMember := mkCollectionMember { cm_WorkID : WorkID; cm_AddedAt : Time }.

Record Collection := mkCollection {
  c_id : CollectionID;
  c_name : string;
  c_members : list CollectionMember;
}.

Definition NewCollection (id : CollectionID) (name : string) : Result Collection :=
  _ ← ValidateBoundedText "name" name maxCollectionNameLength;
  mret (mkCollection id name []).

(** [AddMember] and [RemoveMember] of the aggregate; the services of the same
    names are in Services.v. *)
Definition add_member (workID : WorkID) (addedAt : Time) (c : Collection) : Collection :=
  if existsb (fun m => String.eqb (cm_WorkID m) workID) (c_members c) then c
  else mkCollection (c_id c) (c_name c)
         (c_members c ++ [mkCollectionMember workID addedAt]).

Definition remove_member (workID : WorkID) (c : Collection) : Collection :=
  mkCollection (c_id c) (c_name c)
    (List.filter (fun m => negb (String.eqb (cm_WorkID m) workID)) (c_members c)).

(** ** Reading preferences (reading_preferences.go) *)

Record ReadingPreferences := mkReadingPreferences {
  rp_deviceID : DeviceID;
  rp_settings : gmap string string;
}.
Definition NewReadingPreferences (deviceID : DeviceID) : ReadingPreferences :=
  mkReadingPreferences deviceID ∅.
Definition set_preference (key value : string) (p : ReadingPreferences) : ReadingPreferences :=
  mkReadingPreferences (rp_deviceID p) (<[key := value]> (rp_settings p)).

(** ** Domain events (event.go)

    The Go types embed [publicMarker] or [sensitiveMarker]; the split is the
    sum type of an event's kind, so a sink over public events cannot be given
    a sensitive one. *)

Inductive PublicKind :=
| WorkCreated | EditionCreated | AuthorCreated
| WorkMerged | WorkMergeUndone | AuthorMerged | AuthorMergeUndone
| WorkContainsAdded | WorkContainsRemoved
| SourceCreated | SourceRemoved | SourceOfferingObserved | SourceOfferingRemoved.

Inductive SensitiveKind :=
| WorkImported | EditionImported
| LibraryEntryAdded | LibraryEntryRemoved
| CollectionCreated | CollectionMemberAdded | CollectionMemberRemoved
| ReadingProgressUpdated | BookmarkCreated | HighlightCreated.

(** The [Type()] methods. *)
Definition pub_Type (k : PublicKind) : string :=
  match k with
  | WorkCreated => "WorkCreated"
  | EditionCreated => "EditionCreated"
  | AuthorCreated => "AuthorCreated"
  | WorkMerged => "WorkMerged"
  | WorkMergeUndone => "WorkMergeUndone"
  | AuthorMerged => "AuthorMerged"
  | AuthorMergeUndone => "AuthorMergeUndone"
  | WorkContainsAdded => "WorkContainsAdded"
  | WorkContainsRemoved => "WorkContainsRemoved"
  | SourceCreated => "SourceCreated"
  | SourceRemoved => "SourceRemoved"
  | SourceOfferingObserved => "SourceOfferingObserved"
  | SourceOfferingRemoved => "SourceOfferingRemoved"
  end.
Definition sens_Type (k : SensitiveKind) : string :=
  match k with
  | WorkImported => "WorkImported"
  | EditionImported => "EditionImported"
  | LibraryEntryAdded => "LibraryEntryAdded"
  | LibraryEntryRemoved => "LibraryEntryRemoved"
  | CollectionCreated => "CollectionCreated"
  | CollectionMemberAdded => "CollectionMemberAdded"
  | CollectionMemberRemoved => "CollectionMemberRemoved"
  | ReadingProgressUpdated => "ReadingProgressUpdated"
  | BookmarkCreated => "BookmarkCreated"
  | HighlightCreated => "HighlightCreated"
  end.

Record baseEvent := mkBaseEvent { aggregateID : string; occurredAt : Time }.
Record PublicEvent := mkPublic { pub_kind : PublicKind; pub_base : baseEvent }.
Record SensitiveEvent := mkSensitive { sens_kind : SensitiveKind; sens_base : baseEvent }.
Definition newBaseEvent (id : string) (at_ : Time) : baseEvent := mkBaseEvent id at_.
Definition newPublic (k : PublicKind) (id : string) (at_ : Time) : PublicEvent :=
  mkPublic k (newBaseEvent id at_).
Definition newSensitive (k : SensitiveKind) (id : string) (at_ : Time) : SensitiveEvent :=
  mkSensitive k (newBaseEvent id at_).

(** ** Collections are sets of works *)

(** Histories of a collection. *)
Inductive CollectionOp := OpAdd (w : WorkID) (t : Time) | OpRemove (w : WorkID).

Definition run_collection_op (c : Collection) (op : CollectionOp) : Collection :=
  match op with
  | OpAdd w t => add_member w t c
  | OpRemove w => remove_member w c
  end.

Fixpoint last_op_adds (w : WorkID) (ops : list CollectionOp) (acc : bool) : bool :=
  match ops with
  | [] => acc
  | OpAdd w' _ :: ops' => last_op_adds w ops' (if String.eqb w w' then true else acc)
  | OpRemove w' :: ops' => last_op_adds w ops' (if String.eqb w w' then false else acc)
  end.

(** No work is a member twice. *)
Definition members_unique (c : Collection) : Prop :=
  NoDup (cm_WorkID <$> c_members c).

Lemma has_member_spec c w :
  existsb (fun m => String.eqb (cm_WorkID m) w) (c_members c) = true <->
  w ∈ cm_WorkID <$> c_members c.
Proof.
  rewrite existsb_exists, list_elem_of_fmap. setoid_rewrite <- list_elem_of_In.
  setoid_rewrite String.eqb_eq. naive_solver.
Qed.

Lemma add_member_elem w t c x :
  x ∈ cm_WorkID <$> c_members (add_member w t c) <->
  x = w \/ x ∈ cm_WorkID <$> c_members c.
Proof.
  unfold add_member.
  destruct (existsb _ _) eqn:E; simpl.
  - apply has_member_spec in E. naive_solver.
  - rewrite fmap_app, elem_of_app. simpl. rewrite list_elem_of_singleton. naive_solver.
Qed.

Lemma remove_member_elem w c x :
  x ∈ cm_WorkID <$> c_members (remove_member w c) <->
  x <> w /\ x ∈ cm_WorkID <$> c_members c.
Proof.
  unfold remove_member. simpl. rewrite !list_elem_of_fmap.
  setoid_rewrite list_elem_of_In. setoid_rewrite filter_In.
  setoid_rewrite negb_true_iff. setoid_rewrite String.eqb_neq. naive_solver.
Qed.

Lemma add_member_unique w t c :
  members_unique c -> members_unique (add_member w t c).
Proof.
  unfold members_unique, add_member.
  destruct (existsb _ _) eqn:E; simpl; [done|].
  intros H. rewrite fmap_app, NoDup_app. split; [done|]. split.
  - intros x Hx. simpl. rewrite list_elem_of_singleton. intros ->.
    apply has_member_spec in Hx. congruence.
  - simpl. apply NoDup_singleton.
Qed.

Lemma remove_member_unique w c :
  members_unique c -> members_unique (remove_member w c).
Proof.
  unfold members_unique, remove_member. simpl.
  generalize (c_members c). intros l. induction l as [|m l IH]; simpl; [done|].
  rewrite NoDup_cons. intros [Hm Hl]. destruct (String.eqb (cm_WorkID m) w); simpl; auto.
  rewrite NoDup_cons. split; [|by apply IH].
  intros Hin. apply Hm. rewrite list_elem_of_fmap in Hin |- *.
  destruct Hin as (y & -> & Hy). exists y. split; [done|].
  rewrite list_elem_of_In, filter_In, <- list_elem_of_In in Hy. tauto.
Qed.

Lemma run_collection_ops_elem ops c w acc :
  (w ∈ cm_WorkID <$> c_members c <-> acc = true) ->
  (w ∈ cm_WorkID <$> c_members (fold_left run_collection_op ops c) <->
   last_op_adds w ops acc = true).
Proof.
  revert c acc. induction ops as [|[w' t|w'] ops IH]; intros c acc Hc; simpl; [done| |];
    apply IH.
  - rewrite add_member_elem. destruct (String.eqb_spec w w'); naive_solver.
  - rewrite remove_member_elem. destruct (String.eqb_spec w w'); naive_solver.
Qed.

Lemma run_collection_ops_unique ops c :
  members_unique c -> members_unique (fold_left run_collection_op ops c).
Proof.
  revert c. induction ops as [|[w t|w] ops IH]; intros c Hc; simpl; [done| |]; apply IH.
  - by apply add_member_unique.
  - by apply remove_member_unique.
Qed.

(** A collection is a set of works.  From the empty collection that
    [NewCollection] makes, whatever members are added and removed in whatever
    order, no work is listed twice, the works listed are exactly those whose
    last operation was an addition, and adding a listed work again changes
    nothing (its first timestamp is kept). *)
Theorem collection_is_a_set id name c ops :
  NewCollection id name = Ok c ->
  let c' := fold_left run_collection_op ops c in
  members_unique c' /\
  (forall w, w ∈ cm_WorkID <$> c_members c' <-> last_op_adds w ops false = true) /\
  (forall w t, w ∈ cm_WorkID <$> c_members c' -> add_member w t c' = c').
Proof.
  intros H c'. unfold NewCollection in H.
  assert (Hc : c_members c = []).
  { unfold mbind, res_bind in H. destruct (ValidateBoundedText _ _ _); [|done..].
    by injection H as <-. }
  split; [|split].
  - apply run_collection_ops_unique. unfold members_unique. rewrite Hc. constructor.
  - intros w. apply run_collection_ops_elem. rewrite Hc. simpl. rewrite elem_of_nil. done.
  - intros w t Hw. unfold add_member. by rewrite (proj2 (has_member_spec c' w) Hw).
Qed.

Lemma collection_is_a_set_witness :
  let c := mkCollection "c1" "To read" [] in
  let c' := fold_left run_collection_op
              [OpAdd "w1" 1; OpAdd "w2" 2; OpAdd "w1" 3; OpRemove "w2"] c in
  members_unique c' /\ c_members c' = [mkCollectionMember "w1" 1].
Proof.
  intros c c'. destruct (collection_is_a_set "c1" "To read" c
    [OpAdd "w1" 1; OpAdd "w2" 2; OpAdd "w1" 3; OpRemove "w2"]) as (H & _); [reflexivity|].
  split; [exact H | reflexivity].
Defined.
