(* ===== verification/Transactor.v ===== *)
(** * Transactions (src/internal/domain/transactor.go and
      src/internal/persistence/postgres/transactor.go)

    [InTx] runs a service body atomically: the body's writes become visible
    only when it succeeds and the commit succeeds.  The two calls into the
    driver can fail; their outcomes are arguments of the model. *)

From S2P Require Import Prelude Errors.

(** What the driver answers to [pool.Begin] and [tx.Commit]: [None] for
    success, the translated error otherwise. *)
Record TxOutcome := mkTxOutcome {
  begin_error : option error;
  commit_error : option error;
}.

Definition tx_ok : TxOutcome := mkTxOutcome None None.

Section InTx.
Context {S A : Type}.

Definition InTx (tx : TxOutcome) (fn : stM S error A) : stM S error A := fun s =>
  match begin_error tx with
  | Some e => (Err e, s)
  | None =>
      match fn s with
      | (Ok a, s') =>
          match commit_error tx with
          | Some e => (Err e, s)
          | None => (Ok a, s')
          end
      | (Err e, _) => (Err e, s)
      | (OutOfFuel, _) => (OutOfFuel, s)
      end
  end.

(** A transaction is all or nothing. *)
Lemma InTx_ok tx fn s a s' :
  InTx tx fn s = (Ok a, s') -> fn s = (Ok a, s').
Proof.
  unfold InTx. destruct (begin_error tx); [done|].
  destruct (fn s) as [[b|e|] s1]; try done. by destruct (commit_error tx).
Qed.

Lemma InTx_err tx fn s e s' :
  InTx tx fn s = (Err e, s') -> s' = s.
Proof.
  unfold InTx. destruct (begin_error tx); [by intros [=]|].
  destruct (fn s) as [[b|e'|] s1]; [|by intros [=]..].
  destruct (commit_error tx); by intros [=].
Qed.

Lemma InTx_fuel tx fn s s' :
  InTx tx fn s = (OutOfFuel, s') -> s' = s.
Proof.
  unfold InTx. destruct (begin_error tx); [by intros [=]|].
  destruct (fn s) as [[b|e'|] s1]; [|by intros [=]..].
  destruct (commit_error tx); by intros [=].
Qed.

Lemma InTx_run fn s a s' : fn s = (Ok a, s') -> InTx tx_ok fn s = (Ok a, s').
Proof. unfold InTx. simpl. by intros ->. Qed.
End InTx.
