(* ===== verification/Postgres.v ===== *)
(** * PostgreSQL (src/internal/persistence/postgres/errors.go)

    What the repositories share: the errors of a statement, statements as
    functions of the tables, and the queries, updates and deletions they are
    made of.  A statement can also fail in the driver: its error is an
    argument. *)

From S2P Require Import Prelude Errors.
From Stdlib Require Import Sorted.

Local Open Scope string_scope.
Local Open Scope list_scope.
Local Open Scope Z_scope.

(** ** Errors (errors.go) *)

(** What a failed statement returns: a server error with its SQLSTATE, or an
    error of the connection. *)
Inductive pg_error :=
| PgError (Code : string)
| ConnError (e : error).

Definition pg_err (e : pg_error) : error :=
  match e with PgError code => New ("SQLSTATE " +:+ code) | ConnError e => e end.

Definition TranslateError (err : pg_error) : error :=
  let internal := DomainError Internal "an internal error occurred" (Some (pg_err err)) in
  match err with
  | PgError code =>
      if String.eqb code "23505" then
        DomainError Conflict "the requested change conflicts with an existing record"
          (Some (pg_err err))
      else internal
  | ConnError _ => internal
  end.

Definition unique_violation : pg_error := PgError "23505".
Definition check_violation : pg_error := PgError "23514".
Definition foreign_key_violation : pg_error := PgError "23503".
Definition invalid_text : pg_error := PgError "22P02".

(** A statement: the driver's error, or the statement's effect on the tables. *)
Definition exec {S A} (fault : option pg_error) (f : S -> res pg_error (A * S))
    : stM S error A := fun db =>
  match fault with
  | Some e => (Err (TranslateError e), db)
  | None =>
      match f db with
      | Ok (a, db') => (Ok a, db')
      | Err e => (Err (TranslateError e), db)
      | OutOfFuel => (OutOfFuel, db)
      end
  end.

(** The first row of a query, in the order of the table. *)
Definition first_row {R} (p : R -> bool) (t : gmap string R) : option (string * R) :=
  head (List.filter (fun kr => p kr.2) (map_to_list t)).

(** [SELECT .. FROM t WHERE p], in the order of the table. *)
Definition select {R} (p : string -> R -> bool) (t : gmap string R) : list (string * R) :=
  map_to_list (filter (fun kr => p kr.1 kr.2 = true) t).

(** An [UPDATE t SET .. WHERE p]: the rows it affects and the table after. *)
Definition update_where {R} (p : string -> R -> bool) (f : R -> R) (t : gmap string R)
    : Z * gmap string R :=
  (Z.of_nat (size (filter (fun kr => p kr.1 kr.2 = true) t)),
   map_imap (fun k r => Some (if p k r then f r else r)) t).

(** A [DELETE FROM t WHERE p]. *)
Definition delete_where {R} (p : R -> bool) (t : gmap string R) : Z * gmap string R :=
  (Z.of_nat (size (filter (fun kr => p kr.2 = true) t)), filter (fun kr => p kr.2 = false) t).

(** A query for one row, whose absence is [NotFound]. *)
Definition query_one {S A} (fault : option pg_error) (message : string) (f : S -> option A)
    : stM S error A :=
  r ← exec fault (fun db => Ok (f db, db));
  match r with
  | Some a => mret a
  | None => throw (mkErr NotFound message)
  end.

(** The statement's [RowsAffected] decides between success and [NotFound]. *)
Definition affecting {S} (message : string) (m : stM S error Z) : stM S error unit :=
  n ← m;
  if n =? 0 then throw (mkErr NotFound message) else mret tt.

(** [ORDER BY]. *)
Fixpoint insert_by {A} (le : A -> A -> bool) (x : A) (l : list A) : list A :=
  match l with
  | [] => [x]
  | y :: l' => if le x y then x :: l else y :: insert_by le x l'
  end.
Definition sort_by {A} (le : A -> A -> bool) (l : list A) : list A := fold_right (insert_by le) [] l.

(** The rows of a query, stopping at the first that does not scan. *)
Fixpoint scan_rows {A B} (scan : A -> Result B) (l : list A) : Result (list B) :=
  match l with
  | [] => mret []
  | x :: l' =>
      y ← scan x;
      ys ← scan_rows scan l';
      mret (y :: ys)
  end.

(** ** Statements and queries *)

Lemma exec_ok {S A} fault (f : S -> res pg_error (A * S)) db (a : A) db' :
  exec fault f db = (Ok a, db') <-> fault = None /\ f db = Ok (a, db').
Proof.
  unfold exec. destruct fault; [split; [done|by intros [? _]]|].
  destruct (f db) as [[b db1]|e|] eqn:E; split; try (by intros [_ ?]); try done.
  - by intros [= -> ->].
  - by intros [_ [= -> ->]].
Qed.

Lemma exec_fail {S A} fault (f : S -> res pg_error (A * S)) db r db' :
  exec fault f db = (r, db') -> is_ok r = false -> db' = db.
Proof.
  unfold exec. destruct fault; [by intros [= <- <-]|].
  destruct (f db) as [[b db1]|e|]; intros [= <- <-]; done.
Qed.

Lemma first_row_Some {R} (p : R -> bool) (t : gmap string R) k r :
  first_row p t = Some (k, r) -> t !! k = Some r /\ p r = true.
Proof.
  unfold first_row. intros H. apply head_Some_elem_of in H.
  apply list_elem_of_In, filter_In in H as [H Hp]. split; [|done].
  by apply elem_of_map_to_list, list_elem_of_In.
Qed.

Lemma first_row_None {R} (p : R -> bool) (t : gmap string R) :
  first_row p t = None <-> forall k r, t !! k = Some r -> p r = false.
Proof.
  unfold first_row. rewrite head_None. split.
  - intros H k r Hk. destruct (p r) eqn:E; [|done].
    assert (In (k, r) (List.filter (fun kr => p kr.2) (map_to_list t))) as Hin.
    { apply filter_In. split; [|done]. by apply list_elem_of_In, elem_of_map_to_list. }
    by rewrite H in Hin.
  - intros H. destruct (List.filter _ _) as [|[k r] l] eqn:E; [done|].
    assert (In (k, r) (List.filter (fun kr => p kr.2) (map_to_list t))) as Hin
      by (rewrite E; by left).
    apply filter_In in Hin as [Hin Hp]. apply list_elem_of_In, elem_of_map_to_list in Hin.
    simpl in Hp. rewrite (H _ _ Hin) in Hp. done.
Qed.

Lemma first_row_unique {R} (p : R -> bool) (t : gmap string R) k r :
  t !! k = Some r -> p r = true ->
  (forall k' r', t !! k' = Some r' -> p r' = true -> k' = k) ->
  first_row p t = Some (k, r).
Proof.
  intros Hk Hp Hu. destruct (first_row p t) as [[k' r']|] eqn:E.
  - apply first_row_Some in E as [Hk' Hp']. assert (k' = k) as -> by eauto. congruence.
  - rewrite first_row_None in E. rewrite (E _ _ Hk) in Hp. done.
Qed.

Lemma update_where_lookup {R} p (f : R -> R) (t : gmap string R) k :
  (update_where p f t).2 !! k = (fun r => if p k r then f r else r) <$> t !! k.
Proof. unfold update_where. simpl. rewrite map_lookup_imap. by destruct (t !! k). Qed.

Lemma delete_where_lookup {R} p (t : gmap string R) k r :
  (delete_where p t).2 !! k = Some r <-> t !! k = Some r /\ p r = false.
Proof. unfold delete_where. simpl. by rewrite map_lookup_filter_Some. Qed.

Lemma elem_of_select {R} p (t : gmap string R) kr :
  kr ∈ select p t <-> t !! kr.1 = Some kr.2 /\ p kr.1 kr.2 = true.
Proof.
  unfold select. destruct kr as [k r]. rewrite elem_of_map_to_list, map_lookup_filter_Some. done.
Qed.

Lemma select_nil {R} p (t : gmap string R) :
  select p t = [] <-> forall k r, t !! k = Some r -> p k r = false.
Proof.
  split.
  - intros E k r Hk. destruct (p k r) eqn:Hp; [|done].
    assert ((k, r) ∈ select p t) as Hin by (by apply elem_of_select). rewrite E in Hin.
    by apply elem_of_nil in Hin.
  - intros H. destruct (select p t) as [|[k r] l] eqn:E; [done|].
    assert ((k, r) ∈ select p t) as Hin by (rewrite E; by left).
    apply elem_of_select in Hin as [Hk Hp]. simpl in *. rewrite (H _ _ Hk) in Hp. done.
Qed.

(** A query sees of a table only the rows that one of its conditions admits. *)
Lemma select_filter {R} (p : string -> R -> bool) (q : R -> bool) (t : gmap string R) :
  (forall k r, p k r = true -> q r = true) ->
  select p t = select p (filter (fun kr => q kr.2 = true) t).
Proof.
  intros Hpq. unfold select. f_equal. apply map_eq. intros k. apply option_eq. intros r.
  rewrite !map_lookup_filter_Some. simpl. naive_solver.
Qed.

Lemma NoDup_select {R} p (t : gmap string R) : NoDup (select p t).*1.
Proof. apply NoDup_fst_map_to_list. Qed.

(** ** Sorting *)

Lemma leb_String a s b t :
  String.leb (String a s) (String b t) =
  match N.compare (N_of_ascii a) (N_of_ascii b) with Eq => String.leb s t | Lt => true | Gt => false end.
Proof. unfold String.leb. simpl. unfold Ascii.compare. by destruct (N.compare _ _). Qed.

Lemma leb_refl s : String.leb s s = true.
Proof. by destruct (String.leb_total s s). Qed.

Lemma leb_trans s1 s2 s3 : String.leb s1 s2 = true -> String.leb s2 s3 = true -> String.leb s1 s3 = true.
Proof.
  revert s2 s3. induction s1 as [|a s1 IH]; intros [|b s2] [|c s3]; try done.
  rewrite !leb_String.
  destruct (N.compare_spec (N_of_ascii a) (N_of_ascii b)) as [E1|E1|E1],
    (N.compare_spec (N_of_ascii b) (N_of_ascii c)) as [E2|E2|E2],
    (N.compare_spec (N_of_ascii a) (N_of_ascii c)) as [E3|E3|E3]; try done; try lia. apply IH.
Qed.

Section sorting.
Context {A : Type} (le : A -> A -> bool).

Lemma insert_by_perm x l : insert_by le x l ≡ₚ x :: l.
Proof.
  induction l as [|y l IH]; simpl; [done|]. destruct (le x y); [done|]. rewrite IH. apply perm_swap.
Qed.
Lemma sort_by_perm l : sort_by le l ≡ₚ l.
Proof. induction l as [|x l IH]; simpl; [done|]. by rewrite insert_by_perm, IH. Qed.

Context (le_total : forall x y, le x y = true \/ le y x = true).
Context (le_trans : forall x y z, le x y = true -> le y z = true -> le x z = true).

Lemma insert_by_sorted x l :
  StronglySorted (fun x y => le x y = true) l -> StronglySorted (fun x y => le x y = true) (insert_by le x l).
Proof.
  induction 1 as [|y l Hs IH Hy]; simpl; [repeat constructor|]. destruct (le x y) eqn:E.
  - constructor; [by constructor|]. constructor; [done|]. eapply Forall_impl; [exact Hy|]. eauto.
  - constructor; [done|]. rewrite Forall_forall in *. intros z. rewrite insert_by_perm.
    intros [->|Hz]%elem_of_cons; [|by apply Hy]. destruct (le_total x y); congruence.
Qed.
Lemma sort_by_sorted l : StronglySorted (fun x y => le x y = true) (sort_by le l).
Proof. induction l; simpl; [constructor|by apply insert_by_sorted]. Qed.

(** Sorting what is sorted. *)
Lemma sort_by_id l : StronglySorted (fun x y => le x y = true) l -> sort_by le l = l.
Proof.
  induction 1 as [|x l Hs IH Hx]; simpl; [done|]. rewrite IH. destruct Hx as [|y l Hy]; [done|].
  simpl. by rewrite Hy.
Qed.

(** A WHERE before the ORDER BY or after it. *)
Lemma insert_by_filter p x l : StronglySorted (fun x y => le x y = true) l ->
  List.filter p (insert_by le x l) = if p x then insert_by le x (List.filter p l) else List.filter p l.
Proof.
  induction 1 as [|y l Hs IH Hy]; simpl; [by destruct (p x)|]. destruct (le x y) eqn:E.
  - simpl. destruct (p x); [|done]. destruct (p y); simpl; [by rewrite E|].
    assert (Hx : Forall (fun z => le x z = true) (List.filter p l)).
    { apply Forall_forall. intros z Hz. apply list_elem_of_In, filter_In in Hz as [Hz _].
      rewrite Forall_forall in Hy. apply (le_trans _ y); [done|]. by apply Hy, list_elem_of_In. }
    destruct (List.filter p l) as [|z k]; simpl; [done|].
    apply Forall_cons in Hx as [-> _]. done.
  - simpl. rewrite IH. destruct (p y), (p x); simpl; rewrite ?E; done.
Qed.
Lemma sort_by_filter p l : sort_by le (List.filter p l) = List.filter p (sort_by le l).
Proof.
  induction l as [|x l IH]; simpl; [done|]. rewrite insert_by_filter by apply sort_by_sorted.
  rewrite <- IH. by destruct (p x).
Qed.

(** What comes strictly after an element of a sorted list. *)
Lemma filter_after l1 x l2 :
  StronglySorted (fun x y => le x y = true) (l1 ++ x :: l2) -> (forall y, y ∈ l2 -> le y x = false) ->
  List.filter (fun y => negb (le y x)) (l1 ++ x :: l2) = l2.
Proof.
  intros Hs Hl2. induction l1 as [|z l1 IH]; simpl in *.
  - assert (le x x = true) as -> by (destruct (le_total x x); done). simpl.
    clear Hs. induction l2 as [|y l2 IH]; simpl; [done|]. rewrite Hl2 by (by left). simpl.
    f_equal. apply IH. intros w Hw. apply Hl2. by right.
  - inversion Hs as [|? ? Hs' Hz]; subst. rewrite Forall_forall in Hz.
    assert (le z x = true) as -> by (apply Hz, elem_of_app; right; by left). simpl. by apply IH.
Qed.
End sorting.
