(* ===== verification/Http.v ===== *)
(** * Handlers (src/internal/transport/http)

    What the handlers of the HTTP layer share: the errors they answer with,
    the ways they treat the error of a call, and the reasoning about what a
    run of a handler does to the store. *)

From S2P Require Import Prelude Errors Postgres.

Local Open Scope string_scope.
Local Open Scope list_scope.
Local Open Scope Z_scope.

(** ** Responses

    [WriteError] with its category, the errors outside the domain's
    categories, and the recovery from a panic. *)
Inductive http_error :=
| HTTPError (cat : Category) (msg : string)
| TooManyRequests (msg : string)
| Forbidden (msg : string)
| UnsupportedMediaType (msg : string)
| Panicked.

(** [writeDomainError]. *)
Fixpoint domain_http (e : error) : http_error :=
  match e with
  | DomainError c m _ => HTTPError c m
  | PermanentError e' => domain_http e'
  | Errorf _ e' => domain_http e'
  | New _ => HTTPError Internal "unexpected error"
  end.

(** A call whose error the handler looks at, one whose error it drops, and one
    that cannot fail unless the program panics. *)
Definition attempt {S A} (m : stM S error A) : stM S http_error (Result A) := fun s =>
  let '(r, s') := m s in (Ok r, s').
Definition dropping {S A} (m : stM S error A) : stM S http_error unit := fun s =>
  (Ok tt, (m s).2).
Definition surely {S A} (r : Result A) : stM S http_error A := fun s =>
  match r with Ok a => (Ok a, s) | _ => (Err Panicked, s) end.

(** A call whose error becomes the response. *)
Definition or_fail {S A} (m : stM S error A) (f : error -> http_error) : stM S http_error A :=
  r ← attempt m;
  match r with
  | Ok a => mret a
  | Err e => throw (f e)
  | OutOfFuel => throw Panicked
  end.

Definition or_domain {S A} (m : stM S error A) : stM S http_error A := or_fail m domain_http.
Definition checked {S A} (r : Result A) : stM S http_error A := or_domain (reading (fun _ => r)).
Definition bad_request {S A} (msg : string) : stM S http_error A := throw (HTTPError InvalidInput msg).

(** The decoding of the request's body; [None] when it is not the JSON object
    asked for. *)
Definition body_of {S A} (req : option A) : stM S http_error A :=
  match req with
  | Some a => mret a
  | None => bad_request "request body must be a valid JSON object"
  end.

(** What decoding a body gives, for a handler that admits an empty one. *)
Inductive body (A : Type) := Decoded (a : A) | EmptyBody | Malformed.
Arguments Decoded {A} a.
Arguments EmptyBody {A}.
Arguments Malformed {A}.

(** ** Runs of a handler *)

Section runs.
Context {S : Type}.

Lemma attempt_ok {A} (m : stM S error A) s r s' : attempt m s = (Ok r, s') <-> m s = (r, s').
Proof. unfold attempt. destruct (m s) as [r1 s1]. split; [by intros [= -> ->]|by intros [= -> ->]]. Qed.

Lemma dropping_ok {A} (m : stM S error A) s u s' : dropping m s = (Ok u, s') <-> s' = (m s).2.
Proof. unfold dropping. destruct u. split; [by intros [= <-]|by intros ->]. Qed.

Lemma surely_ok {A} (r : Result A) (s : S) a s' : surely r s = (Ok a, s') <-> r = Ok a /\ s' = s.
Proof. unfold surely. destruct r; split; try (by intros [= -> ->]); try (by intros [[=] _]); by intros [[= ->] ->]. Qed.
End runs.

#[export] Hint Rewrite @attempt_ok @dropping_ok @surely_ok : svc.

(** What every run of a computation does to the store. *)
Definition always {S E A} (R : S -> S -> Prop) (m : stM S E A) : Prop := forall s, R s (m s).2.

Section always.
Context {S : Type} (R : S -> S -> Prop) `{!PreOrder R}.

Lemma always_ret {E A} (a : A) : always R (mret a : stM S E A).
Proof. intros s. simpl. reflexivity. Qed.
Lemma always_throw {E A} (e : E) : always R (throw e : stM S E A).
Proof. intros s. simpl. reflexivity. Qed.
Lemma always_reading {E A} (f : S -> res E A) : always R (reading f).
Proof. intros s. simpl. reflexivity. Qed.
Lemma always_surely {A} (r : Result A) : always R (surely r : stM S http_error A).
Proof. intros s. unfold surely. destruct r; simpl; reflexivity. Qed.
Lemma always_bind {E A B} (m : stM S E A) (f : A -> stM S E B) :
  always R m -> (forall a, always R (f a)) -> always R (m ≫= f).
Proof.
  intros Hm Hf s. unfold mbind, stM_bind. specialize (Hm s). destruct (m s) as [[a|e|] s1]; simpl in *; [|done..].
  etrans; [exact Hm|apply Hf].
Qed.
Lemma always_attempt {A} (m : stM S error A) : always R m -> always R (attempt m).
Proof. intros Hm s. unfold attempt. specialize (Hm s). by destruct (m s). Qed.
Lemma always_dropping {A} (m : stM S error A) : always R m -> always R (dropping m).
Proof. intros Hm s. apply Hm. Qed.
Lemma always_exec {A} fault (f : S -> res pg_error (A * S)) :
  (forall s a s', f s = Ok (a, s') -> R s s') -> always R (exec fault f).
Proof.
  intros Hf s. unfold exec. destruct fault; simpl; [reflexivity|].
  destruct (f s) as [[a s']|e|] eqn:E; simpl; [by eapply Hf|reflexivity..].
Qed.
End always.

Create HintDb always.
#[export] Hint Resolve always_ret always_throw always_reading always_surely always_bind always_attempt
  always_dropping : always.

(** A query leaves the store as it is. *)
Definition pure {S E A} (m : stM S E A) : Prop := always eq m.

Lemma query_one_pure {S A} fault msg (f : S -> option A) : pure (query_one fault msg f).
Proof.
  unfold pure, query_one. apply always_bind; [typeclasses eauto| |].
  - apply always_exec; [typeclasses eauto|]. by intros s a s' [= _ <-].
  - intros [a|]; auto with always typeclass_instances.
Qed.

Lemma query_one_ok {S A} fault msg (f : S -> option A) s a s' :
  query_one fault msg f s = (Ok a, s') <-> fault = None /\ f s = Some a /\ s' = s.
Proof.
  unfold query_one, mbind, stM_bind, exec. destruct fault; [by split; [|intros [[=] _]]|].
  simpl. destruct (f s) as [b|]; simpl; split; try done.
  - by intros [= -> ->].
  - by intros (_ & [= ->] & ->).
  - by intros (_ & [=] & _).
Qed.

Create HintDb pure.
Lemma pure_attempt {S A} (m : stM S error A) : pure m -> pure (attempt m).
Proof. apply always_attempt. Qed.
Lemma pure_ret {S E A} (a : A) : pure (mret a : stM S E A).
Proof. by intros s. Qed.
Lemma pure_bind {S E A B} (m : stM S E A) (f : A -> stM S E B) :
  pure m -> (forall a, pure (f a)) -> pure (m ≫= f).
Proof. apply always_bind. typeclasses eauto. Qed.
#[export] Hint Resolve pure_attempt pure_ret pure_bind : pure.

(** The answer of a query, in a handler that goes on from it. *)
Lemma pure_run {S E A} (m : stM S E A) s : pure m -> m s = ((m s).1, s).
Proof. intros Hm. specialize (Hm s). destruct (m s) as [r s']. simpl in *. by subst. Qed.

Lemma bind_attempt {S A B} (m : stM S error A) (f : Result A -> stM S http_error B) s :
  pure m -> (attempt m ≫= f) s = f (m s).1 s.
Proof. intros Hm. unfold mbind, stM_bind, attempt. by rewrite (pure_run m s Hm). Qed.

Lemma bind_pure {S E A B} (m : stM S E A) (f : A -> stM S E B) s :
  pure m -> (m ≫= f) s =
  match (m s).1 with Ok a => f a s | Err e => (Err e, s) | OutOfFuel => (OutOfFuel, s) end.
Proof. intros Hm. unfold mbind, stM_bind. rewrite (pure_run m s Hm). by destruct (m s).1. Qed.

(** ** Two runs

    A computation respects a relation of stores when from related stores it
    gives the same answer and leaves related stores: what the relation hides
    does not show. *)
Definition respects {S E A} (R : S -> S -> Prop) (m : stM S E A) : Prop := forall s1 s2,
  R s1 s2 -> (m s1).1 = (m s2).1 /\ R (m s1).2 (m s2).2.

Section respects.
Context {S : Type} (R : S -> S -> Prop).

Lemma respects_ret {E A} (a : A) : respects R (mret a : stM S E A).
Proof. by intros s1 s2. Qed.
Lemma respects_throw {E A} (e : E) : respects R (throw e : stM S E A).
Proof. by intros s1 s2. Qed.
Lemma respects_reading {E A} (f : S -> res E A) :
  (forall s1 s2, R s1 s2 -> f s1 = f s2) -> respects R (reading f).
Proof. intros Hf s1 s2 Hs. simpl. auto. Qed.
Lemma respects_bind {E A B} (m : stM S E A) (f : A -> stM S E B) :
  respects R m -> (forall a, respects R (f a)) -> respects R (m ≫= f).
Proof.
  intros Hm Hf s1 s2 Hs. destruct (Hm _ _ Hs) as [Hr HR]. unfold mbind, stM_bind.
  destruct (m s1) as [r1 s1'], (m s2) as [r2 s2']. simpl in *. subst r2.
  destruct r1; simpl; [by apply Hf|done..].
Qed.
Lemma respects_attempt {A} (m : stM S error A) : respects R m -> respects R (attempt m).
Proof.
  intros Hm s1 s2 Hs. destruct (Hm _ _ Hs) as [Hr HR]. unfold attempt.
  destruct (m s1), (m s2). simpl in *. by subst.
Qed.
Lemma respects_or_fail {A} (m : stM S error A) f : respects R m -> respects R (or_fail m f).
Proof.
  intros Hm. unfold or_fail. apply respects_bind; [by apply respects_attempt|].
  intros [a|e|]; [apply respects_ret|apply respects_throw..].
Qed.

(** A statement whose effect the relation determines. *)
Lemma respects_exec {A} fault (f : S -> res pg_error (A * S)) :
  (forall s1 s2, R s1 s2 ->
     match f s1, f s2 with
     | Ok (a1, s1'), Ok (a2, s2') => a1 = a2 /\ R s1' s2'
     | Err e1, Err e2 => e1 = e2
     | OutOfFuel, OutOfFuel => True
     | _, _ => False
     end) -> respects R (exec fault f).
Proof.
  intros Hf s1 s2 Hs. unfold exec. destruct fault; [done|]. specialize (Hf _ _ Hs).
  destruct (f s1) as [[a1 s1']|e1|], (f s2) as [[a2 s2']|e2|]; simpl; try done; [|by subst].
  by destruct Hf as [-> ?].
Qed.

Lemma respects_query {A} fault (f : S -> A) :
  (forall s1 s2, R s1 s2 -> f s1 = f s2) -> respects R (exec fault (fun s => Ok (f s, s))).
Proof. intros Hf. apply respects_exec. auto. Qed.

Lemma respects_query_one {A} fault msg (f : S -> option A) :
  (forall s1 s2, R s1 s2 -> f s1 = f s2) -> respects R (query_one fault msg f).
Proof.
  intros Hf. apply respects_bind; [by apply respects_query|].
  intros []; [apply respects_ret|apply respects_throw].
Qed.
End respects.

Create HintDb respects.
#[export] Hint Resolve respects_ret respects_throw respects_bind respects_attempt respects_or_fail : respects.

(** Queries, then the rest of a handler. *)
Lemma always_after {S E A B} (R : S -> S -> Prop) `{!Reflexive R} (m : stM S E A) (f : A -> stM S E B) :
  pure m -> (forall a s, (m s).1 = Ok a -> R s (f a s).2) -> always R (m ≫= f).
Proof.
  intros Hm Hf s. rewrite bind_pure by done. specialize (Hf) with (s := s).
  destruct (m s).1 as [a|e|]; simpl; [by apply Hf|done..].
Qed.
