(* ===== verification/Floats.v ===== *)
(** * IEEE-754 doubles

    Go's [float64] as the Standard Library's [spec_float] (binary64: precision
    53, maximal exponent 1024), with the comparisons [<], [>], [==] of the
    language.  The comparisons are a total preorder on the values that are
    not NaN. *)

From S2P Require Import Prelude.
From Stdlib Require Export SpecFloat.

Local Open Scope Z_scope.

Abbreviation float64 := spec_float (only parsing).

#[export] Instance spec_float_eq_dec : EqDecision spec_float.
Proof. solve_decision. Defined.

Definition f64_zero : float64 := S754_zero false.
Definition f64_one : float64 := S754_finite false 4503599627370496 (-52).

(** An integer converted to [float64]; exact below [2 ^ 53]. *)
Definition f64_of_Z (z : Z) : float64 := binary_normalize 53 1024 z 0 false.

Example f64_one_is_one : f64_of_Z 1 = f64_one.
Proof. reflexivity. Qed.

Definition flt (x y : float64) : bool := SFltb x y.
Definition fgt (x y : float64) : bool := SFltb y x.
Definition feq (x y : float64) : bool := SFeqb x y.
Definition fge (x y : float64) : bool := SFleb y x.

Definition is_nan (x : float64) : bool :=
  match x with S754_nan => true | _ => false end.

(** ** The order

    A key of three integers whose lexicographic order is the order of the
    floats: the class, then the signed exponent, then the signed mantissa. *)
Definition fkey (x : float64) : Z * Z * Z :=
  match x with
  | S754_infinity true => (-2, 0, 0)
  | S754_finite true m e => (-1, - e, - Zpos m)
  | S754_zero _ => (0, 0, 0)
  | S754_finite false m e => (1, e, Zpos m)
  | S754_infinity false => (2, 0, 0)
  | S754_nan => (3, 0, 0)
  end.

Definition key_lt (a b : Z * Z * Z) : Prop :=
  match a, b with
  | (a1, a2, a3), (b1, b2, b3) =>
      a1 < b1 \/ (a1 = b1 /\ (a2 < b2 \/ (a2 = b2 /\ a3 < b3)))
  end.

(** The comparison is the one of the keys. *)
Lemma SFcompare_key x y :
  is_nan x = false -> is_nan y = false ->
  match SFcompare x y with
  | Some Lt => key_lt (fkey x) (fkey y)
  | Some Eq => fkey x = fkey y
  | Some Gt => key_lt (fkey y) (fkey x)
  | None => False
  end.
Proof.
  intros Hx Hy.
  destruct x as [[]|[]| |[] m e], y as [[]|[]| |[] n f]; try discriminate; simpl;
    try lia; try reflexivity.
  all: change (Pos.compare_cont Eq m n) with (m ?= n)%positive.
  all: destruct (Z.compare_spec e f), (Pos.compare_spec m n); simpl; subst; first [reflexivity | lia].
Qed.

Section order.
Context {x y : float64} (Hx : is_nan x = false) (Hy : is_nan y = false).

Lemma flt_key : flt x y = true <-> key_lt (fkey x) (fkey y).
Proof using Hx Hy.
  pose proof (SFcompare_key x y Hx Hy) as H. unfold flt, SFltb.
  destruct (SFcompare x y) as [[]|]; [| |split; [done|]|done];
    destruct (fkey x) as [[??]?], (fkey y) as [[??]?]; simplify_eq; simpl in *; lia.
Qed.

Lemma feq_key : feq x y = true <-> fkey x = fkey y.
Proof using Hx Hy.
  pose proof (SFcompare_key x y Hx Hy) as H. unfold feq, SFeqb.
  destruct (SFcompare x y) as [[]|]; [done| | |done];
    destruct (fkey x) as [[??]?], (fkey y) as [[??]?]; simpl in *;
    (split; [done|intros ?; simplify_eq; lia]).
Qed.

Lemma fge_key : fge x y = true <-> ~ key_lt (fkey x) (fkey y).
Proof using Hx Hy.
  pose proof (SFcompare_key y x Hy Hx) as H. unfold fge, SFleb.
  destruct (SFcompare y x) as [[]|]; [| | |done];
    destruct (fkey x) as [[??]?], (fkey y) as [[??]?]; simplify_eq; simpl in *; split;
    try done; try lia; intros; lia.
Qed.
End order.

Lemma key_trichotomy a b : key_lt a b \/ a = b \/ key_lt b a.
Proof.
  destruct a as [[a1 a2] a3], b as [[b1 b2] b3]. simpl.
  destruct (Z.lt_trichotomy a1 b1) as [?|[->|?]], (Z.lt_trichotomy a2 b2) as [?|[->|?]],
    (Z.lt_trichotomy a3 b3) as [?|[->|?]]; auto 10.
Qed.

Lemma key_lt_irrefl a : ~ key_lt a a.
Proof. destruct a as [[??]?]. simpl. lia. Qed.

Lemma key_lt_trans a b c : key_lt a b -> key_lt b c -> key_lt a c.
Proof. destruct a as [[??]?], b as [[??]?], c as [[??]?]. simpl. lia. Qed.

(** NaN compares false with everything. *)
Lemma flt_nan_l y : flt S754_nan y = false.
Proof. reflexivity. Qed.
Lemma flt_nan_r x : flt x S754_nan = false.
Proof. by destruct x. Qed.
Lemma feq_nan_r x : feq x S754_nan = false.
Proof. by destruct x. Qed.

Lemma flt_not_nan x y : flt x y = true -> is_nan x = false /\ is_nan y = false.
Proof. by destruct x, y. Qed.
