(* ===== verification/Progress.v ===== *)
(** * Reading progress (src/internal/domain/percentage.go, reading_progress.go,
      reconcile_progress.go, reading_progress_service.go, and
      src/internal/reader/api/progress.go)

    The canonical reading position of a work, the fold that merges the reports
    of several devices into it, the deliberate override, and the transaction
    that reconciles and persists. *)

From S2P Require Import Prelude Floats Errors Catalog Transactor.

Local Open Scope string_scope.
Local Open Scope list_scope.
Local Open Scope Z_scope.

(** ** Percentages (percentage.go) *)

Abbreviation Percentage := spec_float (only parsing).

Inductive ReadingStatus := NotStarted | InProgress | Finished.

Definition NewPercentage (value : float64) : Result Percentage :=
  if flt value f64_zero || fgt value f64_one then
    fails InvalidInput "percentage must be within [0.0, 1.0]"
  else Ok value.

Definition Status (p : Percentage) : ReadingStatus :=
  if feq p f64_zero then NotStarted
  else if feq p f64_one then Finished
  else InProgress.

(** ** The canonical value and the reports (reading_progress.go) *)

Record PrecisePosition := mkPrecisePosition { pp_EditionID : EditionID; pp_Value : string }.

Record ReadingProgress := mkReadingProgress {
  rp_id : ReadingProgressID;
  rp_workID : WorkID;
  rp_percentage : Percentage;
  rp_epoch : Z;
  rp_precisePosition : option PrecisePosition;
  rp_dev : DeviceID;
  rp_observedAt : Time;
}.

#[export] Instance PrecisePosition_eq_dec : EqDecision PrecisePosition.
Proof. solve_decision. Defined.
#[export] Instance ReadingProgress_eq_dec : EqDecision ReadingProgress.
Proof. solve_decision. Defined.

Record ProgressReport := mkProgressReport {
  pr_WorkID : WorkID;
  pr_Percentage : Percentage;
  pr_ObservedEpoch : Z;
  pr_PrecisePosition : option PrecisePosition;
  pr_DeviceID : DeviceID;
  pr_ReportedAt : Time;
}.

Definition NewReadingProgress (id : ReadingProgressID) (workID : WorkID)
    (percentage : Percentage) (deviceID : DeviceID) (observedAt : Time) : ReadingProgress :=
  mkReadingProgress id workID percentage 0 None deviceID observedAt.

Definition RehydrateReadingProgress (id : ReadingProgressID) (workID : WorkID)
    (percentage : Percentage) (epoch : Z) (precisePosition : option PrecisePosition)
    (deviceID : DeviceID) (observedAt : Time) : ReadingProgress :=
  mkReadingProgress id workID percentage epoch precisePosition deviceID observedAt.

(** ** Reconciliation (reconcile_progress.go) *)

Inductive ReconcileOutcome :=
| ReconcileAdvanced | ReconcileUnchanged | ReconcileRejected | ReconcileOverridden.

#[export] Instance ReconcileOutcome_eq_dec : EqDecision ReconcileOutcome.
Proof. solve_decision. Defined.

Record ReconcileResult := mkReconcileResult {
  Progress : ReadingProgress;
  Outcome : ReconcileOutcome;
}.

Definition ReconcileProgress (canonical : ReadingProgress) (report : ProgressReport)
    : ReconcileResult :=
  if pr_ObservedEpoch report <? rp_epoch canonical then
    mkReconcileResult canonical ReconcileRejected
  else if fgt (pr_Percentage report) (rp_percentage canonical) then
    let next := mkReadingProgress (rp_id canonical) (rp_workID canonical)
      (pr_Percentage report) (rp_epoch canonical) (pr_PrecisePosition report)
      (pr_DeviceID report) (pr_ReportedAt report) in
    mkReconcileResult next ReconcileAdvanced
  else if feq (pr_Percentage report) (rp_percentage canonical) then
    mkReconcileResult canonical ReconcileUnchanged
  else mkReconcileResult canonical ReconcileRejected.

Definition FirstProgress (id : ReadingProgressID) (report : ProgressReport)
    : ReadingProgress :=
  mkReadingProgress id (pr_WorkID report) (pr_Percentage report) 0
    (pr_PrecisePosition report) (pr_DeviceID report) (pr_ReportedAt report).

Definition OverrideProgress (canonical : ReadingProgress) (target : Percentage)
    (position : option PrecisePosition) (deviceID : DeviceID) (at_ : Time)
    : ReadingProgress :=
  mkReadingProgress (rp_id canonical) (rp_workID canonical) target
    (wrap64 (rp_epoch canonical + 1)) position deviceID at_.

(** Folding the reports one after the other, as the reconcile transactions do. *)
Definition reconcile_all (canonical : ReadingProgress) (reports : list ProgressReport)
    : ReadingProgress :=
  fold_left (fun c r => Progress (ReconcileProgress c r)) reports canonical.

(** ** Precise positions (reading_progress_service.go, reader/api/progress.go) *)

Definition AttachPrecisePosition (findEdition : EditionID -> Result Edition)
    (progress : ReadingProgress) (position : PrecisePosition) : Result ReadingProgress :=
  edition ← findEdition (pp_EditionID position);
  if negb (String.eqb (e_workID edition) (rp_workID progress)) then
    fails InvalidInput
      "precise position's edition does not belong to this reading progress's work"
  else
    mret (mkReadingProgress (rp_id progress) (rp_workID progress) (rp_percentage progress)
            (rp_epoch progress) (Some position) (rp_dev progress) (rp_observedAt progress)).

Definition ErrEditionWorkMismatch : error :=
  mkErr InvalidInput "precisePosition.editionId does not belong to this work".

Definition CheckPrecisePositionWork (findEdition : EditionID -> Result Edition)
    (workID : WorkID) (pos : option PrecisePosition) : Result unit :=
  match pos with
  | None => Ok tt
  | Some pos =>
      match findEdition (pp_EditionID pos) with
      | Err err =>
          if bool_decide (CategoryOf err = NotFound) then Err ErrEditionWorkMismatch
          else Err err
      | OutOfFuel => OutOfFuel
      | Ok edition =>
          if negb (String.eqb (e_workID edition) workID) then Err ErrEditionWorkMismatch
          else Ok tt
      end
  end.

(** ** The store (reader/api/progress.go, [ProgressStore])

    [FindByWorkForUpdate] and [Save], with what the reconcile transaction
    needs of them: a find answers with a row of that work, or with [NotFound]
    only when there is none; a save upserts by id and is refused when another
    row already has the work (the unique index of the table). *)
Class ProgressStore (S : Type) := {
  progress_rows : S -> gmap ReadingProgressID ReadingProgress;
  FindByWorkForUpdate : WorkID -> S -> Result ReadingProgress;
  SaveProgress : ReadingProgress -> S -> Result S;
}.

Class ProgressStoreLaws (S : Type) `{ProgressStore S} := {
  find_progress_ok s w p :
    FindByWorkForUpdate w s = Ok p ->
    progress_rows s !! rp_id p = Some p /\ rp_workID p = w;
  find_progress_none s w e :
    FindByWorkForUpdate w s = Err e -> CategoryOf e = NotFound ->
    forall i p, progress_rows s !! i = Some p -> rp_workID p <> w;
  save_progress_ok s p s' :
    SaveProgress p s = Ok s' ->
    progress_rows s' = <[rp_id p := p]> (progress_rows s) /\
    forall i q, progress_rows s !! i = Some q -> i <> rp_id p -> rp_workID q <> rp_workID p;
}.

(** ** Reconcile and persist (reader/api/progress.go, [ReportProgress]) *)
Section ReportProgress.
Context {S : Type} `{ProgressStore S}.

(** The body of the transaction.  [newID] is the id [ids.NewID()] mints if
    there is no canonical value yet. *)
Definition reconcile_and_persist (newID : ReadingProgressID) (report : ProgressReport)
    (override : bool) : stM S error (ReadingProgress * ReconcileOutcome) := fun s =>
  match FindByWorkForUpdate (pr_WorkID report) s with
  | Err err =>
      if bool_decide (CategoryOf err = NotFound) then
        let first := FirstProgress newID report in
        (_ ← writing (SaveProgress first);
         mret (first, ReconcileAdvanced)) s
      else (Err err, s)
  | OutOfFuel => (OutOfFuel, s)
  | Ok current =>
      if override then
        let next := OverrideProgress current (pr_Percentage report)
                      (pr_PrecisePosition report) (pr_DeviceID report)
                      (pr_ReportedAt report) in
        (_ ← writing (SaveProgress next);
         mret (next, ReconcileOverridden)) s
      else
        let r := ReconcileProgress current report in
        if bool_decide (Outcome r = ReconcileAdvanced) then
          (_ ← writing (SaveProgress (Progress r));
           mret (Progress r, Outcome r)) s
        else (Ok (Progress r, Outcome r), s)
  end.

Definition ReportProgress (tx : TxOutcome) (newID : ReadingProgressID)
    (report : ProgressReport) (override : bool)
    : stM S error (ReadingProgress * ReconcileOutcome) :=
  InTx tx (reconcile_and_persist newID report override).
End ReportProgress.

(** The rows a leaderboard query counts as finished
    (transport/http/leaderboard.go): [percentage >= 100].  PostgreSQL orders
    a NaN above every number. *)
Definition leaderboard_finished (p : Percentage) : bool := is_nan p || fge p (f64_of_Z 100).

(** ** The order on canonical values *)

(** Two canonical values agree when they have the same epoch and percentages
    the comparison cannot tell apart: the coarser equality the fold is
    deterministic for. *)
Definition same_key (p q : ReadingProgress) : Prop :=
  rp_epoch p = rp_epoch q /\ fkey (rp_percentage p) = fkey (rp_percentage q).

(** The lexicographic order on (epoch, percentage). *)
Definition progress_le (p q : ReadingProgress) : Prop :=
  rp_epoch p < rp_epoch q \/
  (rp_epoch p = rp_epoch q /\ ~ key_lt (fkey (rp_percentage q)) (fkey (rp_percentage p))).

#[export] Instance same_key_equiv : Equivalence same_key.
Proof.
  split.
  - done.
  - intros p q [H1 H2]. by split; symmetry.
  - intros p q r [H1 H2] [H3 H4]. split; by etransitivity.
Qed.

#[export] Instance progress_le_preorder : PreOrder progress_le.
Proof.
  split.
  - intros p. right. split; [done | apply key_lt_irrefl].
  - intros p q r Hpq Hqr. unfold progress_le in *.
    destruct Hpq as [H1|[H1 H2]], Hqr as [H3|[H3 H4]]; [left; lia..|].
    right. split; [lia|]. intros Hrp.
    destruct (key_trichotomy (fkey (rp_percentage p)) (fkey (rp_percentage q)))
      as [Hlt|[Heq|Hlt]]; [|congruence|done].
    apply H4. by eapply key_lt_trans.
Qed.

#[export] Instance progress_le_proper :
  Proper (same_key ==> same_key ==> iff) progress_le.
Proof.
  intros p p' [E1 K1] q q' [E2 K2]. unfold progress_le. by rewrite E1, E2, K1, K2.
Qed.

(** What a report contributes: nothing when it is behind the epoch, its
    percentage otherwise. *)
Definition competes (c : ReadingProgress) (r : ProgressReport) : bool :=
  negb (pr_ObservedEpoch r <? rp_epoch c).

Definition taken (c : ReadingProgress) (r : ProgressReport) : ReadingProgress :=
  mkReadingProgress (rp_id c) (rp_workID c) (pr_Percentage r) (rp_epoch c)
    (pr_PrecisePosition r) (pr_DeviceID r) (pr_ReportedAt r).

Lemma reconcile_cases c r :
  (competes c r = true /\ flt (rp_percentage c) (pr_Percentage r) = true /\
   ReconcileProgress c r = mkReconcileResult (taken c r) ReconcileAdvanced) \/
  ((competes c r = false \/ flt (rp_percentage c) (pr_Percentage r) = false) /\
   Progress (ReconcileProgress c r) = c /\
   Outcome (ReconcileProgress c r) <> ReconcileAdvanced).
Proof.
  unfold ReconcileProgress, competes, taken, fgt, flt.
  destruct (_ <? _); simpl; [right; auto|].
  destruct (SFltb _ _) eqn:E; simpl; [left; auto|].
  right. destruct (feq _ _); simpl; auto.
Qed.

Lemma reconcile_keeps c r :
  let c' := Progress (ReconcileProgress c r) in
  rp_id c' = rp_id c /\ rp_workID c' = rp_workID c /\ rp_epoch c' = rp_epoch c.
Proof. by destruct (reconcile_cases c r) as [(_ & _ & ->)|(_ & -> & _)]. Qed.

Lemma reconcile_all_cons c r rs :
  reconcile_all c (r :: rs) = reconcile_all (Progress (ReconcileProgress c r)) rs.
Proof. reflexivity. Qed.

Lemma reconcile_all_keeps c rs :
  rp_id (reconcile_all c rs) = rp_id c /\ rp_workID (reconcile_all c rs) = rp_workID c /\
  rp_epoch (reconcile_all c rs) = rp_epoch c.
Proof.
  revert c. induction rs as [|r rs IH]; intros c; [done|]. rewrite reconcile_all_cons.
  destruct (IH (Progress (ReconcileProgress c r))) as (-> & -> & ->). apply reconcile_keeps.
Qed.

Lemma reconcile_le c r : progress_le c (Progress (ReconcileProgress c r)).
Proof.
  destruct (reconcile_cases c r) as [(_ & Hlt & ->)|(_ & -> & _)]; [|reflexivity].
  right. split; [done|]. simpl. intros Hk.
  destruct (flt_not_nan _ _ Hlt) as [Hc Hr]. apply (flt_key Hc Hr) in Hlt.
  by eapply key_lt_irrefl, key_lt_trans.
Qed.

Lemma reconcile_all_le c rs : progress_le c (reconcile_all c rs).
Proof.
  revert c. induction rs as [|r rs IH]; intros c; [reflexivity|].
  rewrite reconcile_all_cons. etransitivity; [apply reconcile_le | apply IH].
Qed.

(** A canonical NaN wins against everything and loses against nothing. *)
Lemma reconcile_all_nan c rs :
  is_nan (rp_percentage c) = true -> reconcile_all c rs = c.
Proof.
  intros Hc. induction rs as [|r rs IH]; [done|]. rewrite reconcile_all_cons.
  destruct (reconcile_cases c r) as [(_ & Hlt & _)|(_ & -> & _)]; [|done].
  apply flt_not_nan in Hlt as [??]. congruence.
Qed.

(** The fold's value: the canonical one or a competing report, and at least
    every competing report. *)
Definition upper (c : ReadingProgress) (rs : list ProgressReport) (p : ReadingProgress) : Prop :=
  progress_le c p /\
  forall r, r ∈ rs -> competes c r = true -> flt (rp_percentage p) (pr_Percentage r) = false.

Lemma reconcile_all_upper c rs : upper c rs (reconcile_all c rs).
Proof.
  revert c. induction rs as [|r rs IH]; intros c.
  { split; [reflexivity|]. intros r Hr. by apply elem_of_nil in Hr. }
  rewrite reconcile_all_cons. set (c' := Progress (ReconcileProgress c r)).
  destruct (IH c') as [Hle Hup].
  split; [etransitivity; [apply reconcile_le|exact Hle]|].
  intros q Hq Hcomp. apply elem_of_cons in Hq as [->|Hq].
  2:{ apply Hup; [done|]. unfold competes, c' in *.
      by rewrite (proj2 (proj2 (reconcile_keeps c r))). }
  destruct (flt _ _) eqn:Hlt; [exfalso|done].
  destruct (flt_not_nan _ _ Hlt) as [Hp Hr]. apply (flt_key Hp Hr) in Hlt.
  assert (Hep : rp_epoch (reconcile_all c' rs) = rp_epoch c')
    by apply reconcile_all_keeps.
  destruct Hle as [?|[_ Hle]]; [lia|].
  destruct (is_nan (rp_percentage c')) eqn:Hn.
  { rewrite (reconcile_all_nan c' rs) in Hp by done. congruence. }
  unfold c' in *. destruct (reconcile_cases c r) as [(_ & _ & E)|([?|Hnl] & E & _)].
  - rewrite E in *. simpl in *. by apply Hle.
  - congruence.
  - rewrite E in *. destruct (key_trichotomy (fkey (rp_percentage c)) (fkey (pr_Percentage r)))
      as [Hk|[Hk|Hk]].
    + apply (flt_key Hn Hr) in Hk. congruence.
    + apply Hle. by rewrite Hk.
    + apply Hle. by eapply key_lt_trans.
Qed.

Lemma reconcile_all_member c rs :
  reconcile_all c rs = c \/
  exists r, r ∈ rs /\ competes c r = true /\ is_nan (pr_Percentage r) = false /\
            flt (rp_percentage c) (pr_Percentage r) = true /\
            reconcile_all c rs = taken c r.
Proof.
  revert c. induction rs as [|r rs IH]; intros c; [by left|].
  rewrite reconcile_all_cons.
  destruct (reconcile_cases c r) as [(Hc & Hlt & ->)|(_ & -> & _)]; simpl.
  - right. destruct (flt_not_nan _ _ Hlt) as [Hnc Hnr].
    destruct (IH (taken c r)) as [->|(q & Hq & Hcq & Hnq & Hltq & ->)].
    + exists r. split; [by left|]. done.
    + exists q. split; [by right|]. split; [done|]. split; [done|]. split; [|done].
      apply (flt_key Hnc Hnq). simpl in Hltq. apply (flt_key Hnr Hnq) in Hltq.
      apply (flt_key Hnc Hnr) in Hlt. by eapply key_lt_trans.
  - destruct (IH c) as [->|(q & Hq & Hrest)]; [by left|].
    right. exists q. split; [by right|done].
Qed.

(** Two reports one cannot be told apart by percentage are the same report. *)
Definition no_ties (rs : list ProgressReport) : Prop :=
  forall r q, r ∈ rs -> q ∈ rs ->
    feq (pr_Percentage r) (pr_Percentage q) = true -> r = q.

Lemma upper_perm c rs rs' p : rs ≡ₚ rs' -> upper c rs p -> upper c rs' p.
Proof.
  intros HP [H1 H2]. split; [done|]. intros r Hr. apply H2. by rewrite HP.
Qed.

(** Two maxima over the same reports have the same key. *)
Lemma reconcile_all_dominates c rs rs' :
  rs ≡ₚ rs' ->
  ~ key_lt (fkey (rp_percentage (reconcile_all c rs)))
           (fkey (rp_percentage (reconcile_all c rs'))).
Proof.
  intros HP Hlt. destruct (reconcile_all_upper c rs) as [Hle Hup].
  pose proof (reconcile_all_keeps c rs) as (_ & _ & Hep).
  destruct (reconcile_all_member c rs') as [E|(r & Hr & Hc & Hn & Hcr & E)];
    rewrite E in Hlt; simpl in Hlt.
  - destruct Hle as [?|[_ Hle]]; [lia|done].
  - rewrite <- HP in Hr. specialize (Hup r Hr Hc).
    destruct (is_nan (rp_percentage (reconcile_all c rs))) eqn:Hn'.
    + destruct (reconcile_all_member c rs) as [E'|(q & _ & _ & Hq & _ & E')];
        rewrite E' in Hn'; simpl in Hn'; [|congruence].
      apply flt_not_nan in Hcr as [??]. congruence.
    + apply (flt_key Hn' Hn) in Hlt. congruence.
Qed.

Lemma reconcile_all_same_key c rs rs' :
  rs ≡ₚ rs' -> same_key (reconcile_all c rs) (reconcile_all c rs').
Proof.
  intros HP. split.
  - by rewrite (proj2 (proj2 (reconcile_all_keeps c rs))),
               (proj2 (proj2 (reconcile_all_keeps c rs'))).
  - destruct (key_trichotomy (fkey (rp_percentage (reconcile_all c rs)))
                             (fkey (rp_percentage (reconcile_all c rs')))) as [H|[H|H]];
      [|done|].
    + by apply reconcile_all_dominates in H.
    + by apply (reconcile_all_dominates c rs' rs) in H.
Qed.

(** C1: whatever the order in which the background reports of a work arrive,
    folding them leaves the same epoch and the same percentage, whatever
    their observed epochs and even when a percentage is NaN; and when no two
    different reports tie on their percentage, the whole canonical value
    (position, device, time included) is the same. *)
Theorem reconcile_order_independent c rs rs' :
  rs ≡ₚ rs' ->
  same_key (reconcile_all c rs) (reconcile_all c rs') /\
  (no_ties rs -> reconcile_all c rs = reconcile_all c rs').
Proof.
  intros HP. pose proof (reconcile_all_same_key c rs rs' HP) as Hk. split; [done|].
  intros Hties. destruct Hk as [_ Hk].
  destruct (reconcile_all_member c rs) as [E|(r & Hr & _ & Hn & Hlt & E)],
    (reconcile_all_member c rs') as [E'|(r' & Hr' & _ & Hn' & Hlt' & E')];
    rewrite E, E' in Hk |- *; simpl in Hk.
  - done.
  - exfalso. destruct (flt_not_nan _ _ Hlt') as [Hc _]. apply (flt_key Hc Hn') in Hlt'.
    rewrite Hk in Hlt'. by eapply key_lt_irrefl.
  - exfalso. destruct (flt_not_nan _ _ Hlt) as [Hc _]. apply (flt_key Hc Hn) in Hlt.
    rewrite Hk in Hlt. by eapply key_lt_irrefl.
  - rewrite <- HP in Hr'. f_equal. apply Hties; [done..|]. by apply (feq_key Hn Hn').
Qed.

Definition demo_canonical : ReadingProgress :=
  mkReadingProgress "p1" "w1" (f64_of_Z 0) 0 None "phone" 0.
Definition demo_report (dev : DeviceID) (n epoch t : Z) : ProgressReport :=
  mkProgressReport "w1" (SFdiv 53 1024 (f64_of_Z n) (f64_of_Z 100)) epoch None dev t.

Lemma reconcile_order_independent_witness :
  let a := demo_report "tablet" 40 0 1 in
  let b := demo_report "phone" 55 3 2 in
  same_key (reconcile_all demo_canonical [a; b]) (reconcile_all demo_canonical [b; a]) /\
  (no_ties [a; b] -> reconcile_all demo_canonical [a; b] = reconcile_all demo_canonical [b; a]) /\
  Outcome (ReconcileProgress demo_canonical b) = ReconcileAdvanced.
Proof.
  intros a b.
  destruct (reconcile_order_independent demo_canonical [a; b] [b; a] (perm_swap b a [])) as [H1 H2].
  split; [exact H1|]. split; [exact H2|]. vm_compute. reflexivity.
Defined.

(** The fold computes a maximum: its value keeps the row's id, work and
    epoch, is not below the canonical value or any report that competes at
    the stored epoch, and is the canonical value itself or, field by field,
    one of the competing reports. *)
Theorem reconcile_all_maximum c rs :
  let p := reconcile_all c rs in
  (rp_id p = rp_id c /\ rp_workID p = rp_workID c /\ rp_epoch p = rp_epoch c) /\
  progress_le c p /\
  (forall r, r ∈ rs -> competes c r = true -> flt (rp_percentage p) (pr_Percentage r) = false) /\
  (p = c \/ exists r, r ∈ rs /\ competes c r = true /\ p = taken c r).
Proof.
  destruct (reconcile_all_upper c rs) as [H1 H2].
  split; [apply reconcile_all_keeps|]. split; [done|]. split; [done|].
  destruct (reconcile_all_member c rs) as [?|(r & ? & ? & _ & _ & ?)]; eauto.
Qed.

(** An override always wins: whatever its target it is strictly above the
    value it replaces, and afterwards every report that still carries the old
    epoch (or an older one) is rejected and changes nothing, until the device
    has seen the new epoch. *)
Theorem override_wins c target pos dev at_ rs :
  in_int64 (rp_epoch c) -> rp_epoch c <> int64_max ->
  Forall (fun r => pr_ObservedEpoch r <= rp_epoch c) rs ->
  let o := OverrideProgress c target pos dev at_ in
  progress_le c o /\ ~ progress_le o c /\
  rp_percentage o = target /\ reconcile_all o rs = o /\
  Forall (fun r => Outcome (ReconcileProgress o r) = ReconcileRejected) rs.
Proof.
  intros Hin Hmax Hrs o.
  assert (Ho : rp_epoch o = rp_epoch c + 1).
  { unfold o. simpl. apply wrap64_id. unfold in_int64, int64_max in *. lia. }
  assert (Hrej : forall r, pr_ObservedEpoch r <= rp_epoch c ->
            ReconcileProgress o r = mkReconcileResult o ReconcileRejected).
  { intros r Hr. unfold ReconcileProgress. by rewrite (proj2 (Z.ltb_lt _ _)) by lia. }
  repeat split; [left; lia | intros [?|[? _]]; lia | |].
  - induction Hrs as [|r rs Hr _ IH]; [done|]. by rewrite reconcile_all_cons, Hrej.
  - eapply Forall_impl; [exact Hrs|]. intros r Hr. by rewrite Hrej.
Qed.

Lemma override_wins_witness :
  let c := mkReadingProgress "p1" "w1" f64_one 4 None "phone" 10 in
  let stale := demo_report "tablet" 90 4 11 in
  let o := OverrideProgress c f64_zero None "phone" 12 in
  reconcile_all o [stale] = o /\ rp_percentage o = f64_zero.
Proof.
  intros c stale o.
  destruct (override_wins c f64_zero None "phone" 12 [stale]) as (_ & _ & H1 & H2 & _).
  - unfold in_int64. simpl. split; vm_compute; discriminate.
  - vm_compute. discriminate.
  - constructor; [vm_compute; discriminate | constructor].
  - split; [exact H2 | exact H1].
Defined.

(** The comment on [ReconcileProgress] promises that folding same-epoch
    reports in any order yields the same canonical value.  For two devices
    that report the same percentage at different positions the order does
    show: the first to arrive keeps its position, device and time. *)
Theorem reconcile_tie_keeps_first c r q :
  competes c r = true -> competes c q = true ->
  flt (rp_percentage c) (pr_Percentage r) = true ->
  feq (pr_Percentage q) (pr_Percentage r) = true ->
  reconcile_all c [r; q] = taken c r /\ reconcile_all c [q; r] = taken c q.
Proof.
  intros Hr Hq Hlt Heq.
  assert (Hn : is_nan (pr_Percentage q) = false) by (by destruct (pr_Percentage q)).
  destruct (flt_not_nan _ _ Hlt) as [Hc Hn'].
  apply (feq_key Hn Hn') in Heq.
  assert (Hstep : forall a b, competes c a = true -> flt (rp_percentage c) (pr_Percentage a) = true ->
            is_nan (pr_Percentage a) = false -> is_nan (pr_Percentage b) = false ->
            fkey (pr_Percentage a) = fkey (pr_Percentage b) ->
            reconcile_all c [a; b] = taken c a).
  { intros a b Ha Hla Hna Hnb Hk. unfold reconcile_all. simpl.
    destruct (reconcile_cases c a) as [(_ & _ & ->)|([?|?] & _ & _)]; [|congruence..].
    simpl. destruct (reconcile_cases (taken c a) b) as [(_ & Hl & _)|(_ & -> & _)]; [|done].
    simpl in Hl. apply (flt_key Hna Hnb) in Hl. rewrite Hk in Hl. by apply key_lt_irrefl in Hl. }
  split; apply Hstep; try done.
  apply (flt_key Hc Hn). rewrite Heq. by apply (flt_key Hc Hn').
Qed.

Lemma reconcile_tie_keeps_first_witness :
  let a := demo_report "tablet" 40 0 1 in
  let b := demo_report "phone" 40 0 2 in
  rp_dev (reconcile_all demo_canonical [a; b]) = "tablet" /\
  rp_dev (reconcile_all demo_canonical [b; a]) = "phone".
Proof.
  intros a b.
  destruct (reconcile_tie_keeps_first demo_canonical a b) as [-> ->];
    [vm_compute; reflexivity..|]. split; reflexivity.
Defined.

(** A percentage that [NewPercentage] accepts and that is a number lies
    in [0, 1], its reading status is [Finished] only at 1 and [NotStarted]
    only at 0; so no stored percentage ever reaches the 100 that the
    leaderboard and finished-works queries ask for. *)
Theorem NewPercentage_unit_interval v p :
  NewPercentage v = Ok p ->
  p = v /\
  (is_nan p = false ->
     leaderboard_finished p = false /\ flt p f64_zero = false /\ fgt p f64_one = false /\
     (Status p = NotStarted <-> fkey p = fkey f64_zero) /\
     (Status p = Finished <-> fkey p = fkey f64_one)).
Proof.
  unfold NewPercentage. destruct (_ || _) eqn:E; [done|]. intros [= <-].
  apply orb_false_iff in E as [H0 H1]. split; [done|].
  intros Hn. assert (H100 : key_lt (fkey f64_one) (fkey (f64_of_Z 100))) by (vm_compute; auto).
  split.
  - unfold leaderboard_finished. rewrite Hn. apply not_true_iff_false. cbn [orb]. intros Hge.
    apply (fge_key Hn (y := f64_of_Z 100) eq_refl) in Hge. apply Hge.
    destruct (key_trichotomy (fkey v) (fkey f64_one)) as [Hk|[->|Hk]]; [|done|].
    + by eapply key_lt_trans.
    + apply (flt_key (x := f64_one) eq_refl Hn) in Hk. unfold fgt in H1. unfold flt in Hk. congruence.
  - split; [done|]. split; [done|]. unfold Status.
    pose proof (feq_key Hn (y := f64_zero) eq_refl) as Hz.
    pose proof (feq_key Hn (y := f64_one) eq_refl) as Ho.
    destruct (feq v f64_zero) eqn:Ez.
    + pose proof (proj1 Hz eq_refl) as Ez'. split; [done|]. rewrite Ez'. done.
    + destruct (feq v f64_one) eqn:Eo; split; split; intros H; try done; naive_solver.
Qed.

Lemma NewPercentage_unit_interval_witness :
  leaderboard_finished f64_one = false /\ Status f64_one = Finished.
Proof.
  destruct (NewPercentage_unit_interval f64_one f64_one) as [_ H]; [reflexivity|].
  destruct H as [H _]; [reflexivity|].
  split; [exact H | reflexivity].
Defined.

(** ** The transaction over a store that keeps its promises *)

(** The abstract specification: what one call does to a work's canonical
    value, with nothing of the store in it. *)
Definition progress_step (current : option ReadingProgress) (newID : ReadingProgressID)
    (report : ProgressReport) (override : bool) : ReadingProgress * ReconcileOutcome :=
  match current with
  | None => (FirstProgress newID report, ReconcileAdvanced)
  | Some c =>
      if override then
        (OverrideProgress c (pr_Percentage report) (pr_PrecisePosition report)
           (pr_DeviceID report) (pr_ReportedAt report), ReconcileOverridden)
      else (Progress (ReconcileProgress c report), Outcome (ReconcileProgress c report))
  end.

Section ReportProgress_correct.
Context {S : Type} `{ProgressStoreLaws S}.

(** The row of a work. *)
Definition work_row (s : S) (w : WorkID) (p : ReadingProgress) : Prop :=
  progress_rows s !! rp_id p = Some p /\ rp_workID p = w.

(** Rows are stored under their own id, and no work has two rows. *)
Record progress_wf (s : S) : Prop := {
  wf_keyed : forall i p, progress_rows s !! i = Some p -> rp_id p = i;
  wf_unique : forall i j p q, progress_rows s !! i = Some p -> progress_rows s !! j = Some q ->
                rp_workID p = rp_workID q -> i = j;
}.

(** The canonical value of the work before the call. *)
Definition current_of (s : S) (w : WorkID) (c : option ReadingProgress) : Prop :=
  match c with
  | Some p => work_row s w p
  | None => forall p, ~ work_row s w p
  end.

Lemma step_id c newID r o p :
  progress_step c newID r o = p ->
  rp_id p.1 = match c with Some q => rp_id q | None => newID end /\
  rp_workID p.1 = match c with Some q => rp_workID q | None => pr_WorkID r end.
Proof.
  intros <-. destruct c as [c|]; simpl; [|done]. destruct o; simpl; [done|].
  pose proof (reconcile_keeps c r). naive_solver.
Qed.

Local Ltac saved_as Hs :=
  match goal with K : SaveProgress _ _ = Ok _ |- _ =>
    destruct (save_progress_ok _ _ _ K) as [Hs _]
  end.

(** One successful run of the body: the value before, and the rows after. *)
Lemma reconcile_and_persist_ok newID r o s p out s' :
  progress_wf s ->
  reconcile_and_persist newID r o s = (Ok (p, out), s') ->
  exists c, current_of s (pr_WorkID r) c /\
    (p, out) = progress_step c newID r o /\
    progress_rows s' = <[rp_id p := p]> (progress_rows s) /\
    (c = None -> forall i q, progress_rows s !! i = Some q -> i <> newID ->
                 rp_workID q <> pr_WorkID r).
Proof.
  intros Hwf. unfold reconcile_and_persist.
  destruct (FindByWorkForUpdate (pr_WorkID r) s) as [c|e|] eqn:Hf; [| |done].
  - destruct (find_progress_ok _ _ _ Hf) as [Hc Hw]. intros Hrun.
    exists (Some c). split; [done|]. unfold progress_step. destruct o.
    + svc_inv Hrun. simplify_eq. saved_as Hs.
      repeat split; done.
    + destruct (bool_decide _) eqn:Ho; apply bool_decide_eq_true in Ho || apply bool_decide_eq_false in Ho.
      * svc_inv Hrun. simplify_eq. saved_as Hs.
        repeat split; done.
      * simplify_eq. split; [done|]. split; [|done].
        destruct (reconcile_cases c r) as [(_ & _ & E)|(_ & E & _)].
        { rewrite E in Ho. done. }
        rewrite E. symmetry. by apply insert_id.
  - destruct (bool_decide _) eqn:He; [|done]. apply bool_decide_eq_true in He.
    intros Hrun. svc_inv Hrun. simplify_eq.
    saved_as Hs.
    exists None. split.
    { intros p [Hp Hw]. by apply (find_progress_none _ _ _ Hf He _ _ Hp). }
    split; [done|]. split; [done|].
    intros _ i q Hq _. by apply (find_progress_none _ _ _ Hf He i).
Qed.

Lemma reconcile_and_persist_wf newID r o s p out s' :
  progress_wf s -> progress_rows s !! newID = None ->
  reconcile_and_persist newID r o s = (Ok (p, out), s') -> progress_wf s'.
Proof.
  intros Hwf Hnew Hrun.
  destruct (reconcile_and_persist_ok _ _ _ _ _ _ _ Hwf Hrun) as (c & Hc & Hp & Hs & Hn).
  pose proof (step_id c newID r o _ (eq_sym Hp)) as [Hid Hw]. simpl in Hid, Hw.
  split; rewrite Hs.
  - intros i q. rewrite lookup_insert_Some. intros [[<- <-]|[_ Hq]]; [done|].
    by eapply wf_keyed.
  - assert (Hother : forall j q, j <> rp_id p -> progress_rows s !! j = Some q ->
              rp_workID q <> rp_workID p).
    { intros j q Hj Hq Heq. destruct c as [c|].
      - destruct Hc as [Hc Hwc]. rewrite Hid in Hj. apply Hj.
        eapply (wf_unique s Hwf); [exact Hq|exact Hc|congruence].
      - rewrite Hid in Hj. rewrite Hw in Heq. by apply (Hn eq_refl _ _ Hq Hj). }
    intros i j q q'. rewrite !lookup_insert_Some.
    intros [[<- <-]|[Hi Hq]] [[<- <-]|[Hj Hq']] Heq; [done| | |].
    + exfalso. by eapply Hother.
    + exfalso. by eapply Hother.
    + by eapply wf_unique.
Qed.
End ReportProgress_correct.

(** ** An instance: the rows in memory, with the table's two constraints *)

Definition row_with_work (w : WorkID) (m : gmap ReadingProgressID ReadingProgress)
    : option ReadingProgress :=
  head (filter (fun p => rp_workID p = w) (map_to_list m).*2).

#[export] Instance mem_progress : ProgressStore (gmap ReadingProgressID ReadingProgress) := {
  progress_rows m := m;
  FindByWorkForUpdate w m :=
    match row_with_work w m with
    | Some p => if bool_decide (m !! rp_id p = Some p) then Ok p
                else fails Internal "row not under its own id"
    | None => fails NotFound "reading progress not found"
    end;
  SaveProgress p m :=
    match row_with_work (rp_workID p) (delete (rp_id p) m) with
    | Some _ => fails Conflict "duplicate work"
    | None => Ok (<[rp_id p := p]> m)
    end;
}.

Lemma row_with_work_some w m p :
  row_with_work w m = Some p -> rp_workID p = w /\ exists i, m !! i = Some p.
Proof.
  unfold row_with_work. intros H. apply head_Some_elem_of in H.
  rewrite list_elem_of_filter, list_elem_of_fmap in H.
  destruct H as [Hw ([i q] & -> & Hq)]. split; [done|]. exists i.
  by apply elem_of_map_to_list in Hq.
Qed.

Lemma row_with_work_none w m :
  row_with_work w m = None -> forall i p, m !! i = Some p -> rp_workID p <> w.
Proof.
  unfold row_with_work. intros H i p Hp Hw. apply head_None in H.
  assert (Hin : p ∈ filter (fun p => rp_workID p = w) (map_to_list m).*2).
  { apply list_elem_of_filter. split; [done|]. apply list_elem_of_fmap.
    exists (i, p). split; [done|]. by apply elem_of_map_to_list. }
  rewrite H in Hin. by apply elem_of_nil in Hin.
Qed.

#[export] Instance mem_progress_laws :
  ProgressStoreLaws (gmap ReadingProgressID ReadingProgress).
Proof.
  split; simpl.
  - intros m w p. destruct (row_with_work w m) as [q|] eqn:E; [|done].
    destruct (bool_decide _) eqn:D; [|done]. apply bool_decide_eq_true in D.
    intros [= <-]. split; [done|]. by apply row_with_work_some in E as [? _].
  - intros m w e. destruct (row_with_work w m) as [q|] eqn:E.
    + destruct (bool_decide _); [done|]. by intros [= <-].
    + intros _ _. by apply row_with_work_none.
  - intros m p m'. destruct (row_with_work _ _) eqn:E; [done|]. intros [= <-].
    split; [done|]. intros i q Hq Hi.
    by apply (row_with_work_none _ _ E i q); rewrite lookup_delete_ne.
Qed.

(** ** Sequences of calls

    The row lock serialises the transactions of a work, so any interleaving
    of devices is a sequence of calls. *)
Record ReportCall := mkReportCall {
  call_tx : TxOutcome;
  call_newID : ReadingProgressID;
  call_report : ProgressReport;
  call_override : bool;
}.

Section ReportProgress_sequences.
Context {S : Type} `{ProgressStoreLaws S}.

Definition run_call (s : S) (c : ReportCall) : S :=
  (ReportProgress (call_tx c) (call_newID c) (call_report c) (call_override c) s).2.
Definition run_calls (s : S) (cs : list ReportCall) : S := fold_left run_call cs s.

Definition epochs_within (k : Z) (s : S) : Prop :=
  forall i p, progress_rows s !! i = Some p -> 0 <= rp_epoch p <= k.

Definition ids_fresh (s : S) (cs : list ReportCall) : Prop :=
  NoDup (call_newID <$> cs) /\
  Forall (fun c => progress_rows s !! call_newID c = None) cs.

Lemma run_call_cases s c :
  progress_wf s ->
  run_call s c = s \/
  exists p out cur, current_of s (pr_WorkID (call_report c)) cur /\
    (p, out) = progress_step cur (call_newID c) (call_report c) (call_override c) /\
    progress_rows (run_call s c) = <[rp_id p := p]> (progress_rows s) /\
    reconcile_and_persist (call_newID c) (call_report c) (call_override c) s
      = (Ok (p, out), run_call s c).
Proof.
  intros Hwf. unfold run_call. unfold ReportProgress.
  destruct (InTx _ _ s) as [[[p out]|e|] s'] eqn:E; simpl.
  - right. apply InTx_ok in E. exists p, out.
    destruct (reconcile_and_persist_ok _ _ _ _ _ _ _ Hwf E) as (cur & ? & ? & ? & _).
    by exists cur.
  - left. by apply InTx_err in E.
  - left. by apply InTx_fuel in E.
Qed.

Lemma run_call_wf s c :
  progress_wf s -> progress_rows s !! call_newID c = None -> progress_wf (run_call s c).
Proof.
  intros Hwf Hn. destruct (run_call_cases s c Hwf) as [->|(p & out & cur & _ & _ & _ & E)];
    [done|]. by eapply reconcile_and_persist_wf.
Qed.

Lemma step_epoch cur newID r o k :
  0 <= k -> k < int64_max ->
  (forall p, cur = Some p -> 0 <= rp_epoch p <= k) ->
  0 <= rp_epoch (progress_step cur newID r o).1 <= k + 1.
Proof.
  intros Hk Hmax Hcur. destruct cur as [c|]; simpl; [|lia].
  specialize (Hcur c eq_refl). destruct o; simpl.
  - rewrite wrap64_id; [lia|]. unfold in_int64, int64_min, int64_max, two63 in *. lia.
  - pose proof (reconcile_keeps c r) as (_ & _ & ->). lia.
Qed.

Lemma run_call_epochs s c k :
  progress_wf s -> 0 <= k -> k < int64_max -> epochs_within k s ->
  epochs_within (k + 1) (run_call s c).
Proof.
  intros Hwf Hk Hmax Hep i q Hq.
  destruct (run_call_cases s c Hwf) as [E|(p & out & cur & Hcur & Hp & E & _)];
    rewrite E in Hq; [specialize (Hep _ _ Hq); lia|].
  apply lookup_insert_Some in Hq as [[<- <-]|[_ Hq]]; [|specialize (Hep _ _ Hq); lia].
  change p with (p, out).1. rewrite Hp. apply step_epoch; [done..|].
  intros x ->. destruct Hcur as [Hx _]. by apply (Hep _ _ Hx).
Qed.

Lemma step_le c newID r o :
  0 <= rp_epoch c < int64_max -> progress_le c (progress_step (Some c) newID r o).1.
Proof.
  intros He. destruct o; simpl; [|apply reconcile_le].
  left. simpl. rewrite wrap64_id; [lia|].
  unfold in_int64, int64_min, int64_max, two63 in *. lia.
Qed.

Lemma run_call_le s c k w p :
  progress_wf s -> progress_rows s !! call_newID c = None ->
  k < int64_max -> epochs_within k s -> work_row s w p ->
  exists p', work_row (run_call s c) w p' /\ rp_id p' = rp_id p /\ progress_le p p'.
Proof.
  intros Hwf Hn Hk Hep Hp.
  destruct (run_call_cases s c Hwf) as [->|(q & out & cur & Hcur & Hq & E & _)];
    [by exists p|].
  pose proof (step_id cur _ _ _ _ (eq_sym Hq)) as [Hid Hw]. simpl in Hid, Hw.
  destruct (decide (rp_id q = rp_id p)) as [Heq|Hne].
  - destruct cur as [x|].
    + assert (x = p) as ->.
      { destruct Hcur as [Hx _], Hp as [Hp _]. rewrite <- Hid, Heq in Hx. congruence. }
      exists q. split; [split; [rewrite E; by rewrite lookup_insert_eq | destruct Hp; congruence]|].
      split; [done|]. change q with (q, out).1. rewrite Hq. apply step_le.
      destruct Hp as [Hp _]. specialize (Hep _ _ Hp). lia.
    + exfalso. destruct Hp as [Hp _]. rewrite <- Heq, Hid in Hp. congruence.
  - exists p. split; [|done]. destruct Hp as [Hp Hwp].
    split; [|done]. rewrite E. by rewrite lookup_insert_ne.
Qed.

Lemma run_call_fresh s c cs :
  progress_wf s -> ids_fresh s (c :: cs) -> ids_fresh (run_call s c) cs.
Proof.
  intros Hwf [Hnd Hf]. apply NoDup_cons in Hnd as [Hc Hnd].
  apply Forall_cons in Hf as [_ Hf]. split; [done|].
  rewrite Forall_forall in *. intros d Hd.
  destruct (run_call_cases s c Hwf) as [->|(q & out & cur & Hcur & Hq & E & _)];
    [by apply Hf|].
  rewrite E. rewrite lookup_insert_ne; [by apply Hf|].
  pose proof (step_id cur _ _ _ _ (eq_sym Hq)) as [Hid _]. simpl in Hid. rewrite Hid.
  destruct cur as [x|].
  - destruct Hcur as [Hx _]. specialize (Hf _ Hd). congruence.
  - intros Heq. apply Hc. apply list_elem_of_fmap. by exists d.
Qed.

(** C2: a call of [ReportProgress] implements the pure step on the work's
    canonical value and touches nothing else: on success the result is that
    of [progress_step] on the row found (or on no row, when there was none),
    exactly that row is written, and the table stays well formed; on any
    failure, of the store, of the begin or of the commit, nothing changed. *)
Theorem ReportProgress_refines tx newID r o s out s' :
  progress_wf s -> progress_rows s !! newID = None ->
  ReportProgress tx newID r o s = (out, s') ->
  match out with
  | Ok po =>
      exists cur, current_of s (pr_WorkID r) cur /\ po = progress_step cur newID r o /\
        progress_rows s' = <[rp_id po.1 := po.1]> (progress_rows s) /\
        work_row s' (pr_WorkID r) po.1 /\ progress_wf s'
  | _ => s' = s
  end.
Proof.
  intros Hwf Hn Hrun. destruct out as [[p out]|e|].
  - apply InTx_ok in Hrun.
    pose proof (reconcile_and_persist_wf _ _ _ _ _ _ _ Hwf Hn Hrun) as Hwf'.
    destruct (reconcile_and_persist_ok _ _ _ _ _ _ _ Hwf Hrun) as (cur & Hc & Hp & Hs & _).
    exists cur. repeat split; try done; simpl.
    + by rewrite Hs, lookup_insert_eq.
    + destruct (step_id cur newID r o _ (eq_sym Hp)) as [_ Hw]. simpl in Hw. rewrite Hw.
      destruct cur as [c|]; [|done]. by destruct Hc.
    + apply Hwf'.
    + apply Hwf'.
  - by apply InTx_err in Hrun.
  - by apply InTx_fuel in Hrun.
Qed.

(** Over any sequence of reports and overrides, from any devices, of
    any works, whatever fails along the way, the canonical progress of a
    work is never lost and never moves backwards in (epoch, percentage). *)
Theorem ReportProgress_monotone cs s k w p :
  progress_wf s -> ids_fresh s cs ->
  0 <= k -> epochs_within k s -> k + Z.of_nat (length cs) < int64_max ->
  work_row s w p ->
  exists p', work_row (run_calls s cs) w p' /\ rp_id p' = rp_id p /\ progress_le p p'.
Proof.
  revert s k p. induction cs as [|c cs IH]; intros s k p Hwf Hfr Hk Hep Hlen Hp.
  { exists p. split; [exact Hp|]. split; reflexivity. }
  assert (Hn : progress_rows s !! call_newID c = None).
  { destruct Hfr as [_ Hf]. by apply Forall_cons in Hf as [? _]. }
  simpl length in Hlen.
  destruct (run_call_le s c k w p) as (q & Hq & Hid & Hle); [done|done|lia|done..|].
  destruct (IH (run_call s c) (k + 1) q) as (p' & Hp' & Hid' & Hle').
  - by apply run_call_wf.
  - by apply run_call_fresh.
  - lia.
  - apply run_call_epochs; [done|done|lia|done].
  - lia.
  - done.
  - exists p'. split; [done|]. split; [congruence|]. by etransitivity.
Qed.
End ReportProgress_sequences.

Definition demo_rows : gmap ReadingProgressID ReadingProgress :=
  {[ "p1" := demo_canonical ]}.

Lemma demo_rows_wf : progress_wf demo_rows.
Proof.
  split; unfold demo_rows; simpl.
  - intros i p [<- <-]%lookup_singleton_Some. done.
  - intros i j p q [<- _]%lookup_singleton_Some [<- _]%lookup_singleton_Some. done.
Qed.

Lemma demo_rows_epochs : epochs_within 0 demo_rows.
Proof.
  intros i p Hp. simpl in Hp. unfold demo_rows in Hp.
  apply lookup_singleton_Some in Hp as [_ <-]. simpl. lia.
Qed.

Lemma ReportProgress_refines_witness :
  exists p, ReportProgress tx_ok "fresh" (demo_report "tablet" 40 0 5) false demo_rows
              = (Ok (p, ReconcileAdvanced), <["p1" := p]> demo_rows) /\
            rp_dev p = "tablet" /\ progress_wf (<["p1" := p]> demo_rows).
Proof.
  assert (E : ReportProgress tx_ok "fresh" (demo_report "tablet" 40 0 5) false demo_rows
              = (Ok (taken demo_canonical (demo_report "tablet" 40 0 5), ReconcileAdvanced),
                 <["p1" := taken demo_canonical (demo_report "tablet" 40 0 5)]> demo_rows))
    by (vm_compute; reflexivity).
  assert (Hf : progress_rows demo_rows !! "fresh" = None) by (vm_compute; reflexivity).
  destruct (ReportProgress_refines _ _ _ _ _ _ _ demo_rows_wf Hf E)
    as (cur & _ & _ & _ & _ & Hwf).
  eexists. split; [exact E|]. split; [reflexivity | exact Hwf].
Defined.

Lemma ReportProgress_monotone_witness :
  let calls := [mkReportCall tx_ok "f1" (demo_report "tablet" 40 0 5) false;
                mkReportCall tx_ok "f2" (demo_report "phone" 10 0 6) true;
                mkReportCall (mkTxOutcome None (Some (New "lost"))) "f3"
                  (demo_report "phone" 90 1 7) false] in
  exists p', work_row (run_calls demo_rows calls) "w1" p' /\ progress_le demo_canonical p'.
Proof.
  intros calls.
  destruct (ReportProgress_monotone calls demo_rows 0 "w1" demo_canonical)
    as (p' & H1 & _ & H2).
  - exact demo_rows_wf.
  - split; [|repeat constructor].
    apply (bool_decide_unpack _). vm_compute. exact I.
  - lia.
  - exact demo_rows_epochs.
  - vm_compute. reflexivity.
  - split; reflexivity.
  - exists p'. split; [exact H1 | exact H2].
Defined.
