(* ===== verification/MergeGraph.v ===== *)
(** * Merge and containment graphs

    The theory the two graph services share.  A merge graph is the
    merged-into column of a table: a finite map from an id to the optional id
    it is merged into.  A containment list hangs off every id; containment is
    read through merges, between the canonical ids the two ends resolve to. *)

From S2P Require Import Prelude Errors.

(** ** Closures of relations *)

Section closures.
Context {A : Type}.

Lemma tc_subrel (R R' : A -> A -> Prop) x y :
  (forall a b, R a b -> R' a b) -> tc R x y -> tc R' x y.
Proof. intros HR. induction 1; [constructor | eapply tc_l]; eauto. Qed.

(** An edge added to an acyclic relation closes no cycle unless its head
    already reached its tail. *)
Lemma tc_add_edge (R R' : A -> A -> Prop) a b :
  (forall x y, R' x y -> R x y \/ (x = a /\ y = b)) ->
  forall x y, tc R' x y -> tc R x y \/ (rtc R x a /\ rtc R b y).
Proof.
  intros HR x y. induction 1 as [x y H|x y z H _ IH].
  - destruct (HR _ _ H) as [H'|[-> ->]]; [left; by constructor | right; split; constructor].
  - destruct (HR _ _ H) as [H'|[-> ->]], IH as [IH|[IH1 IH2]].
    + left. by eapply tc_l.
    + right. split; [by eapply rtc_l | done].
    + right. split; [constructor | by apply tc_rtc].
    + right. split; [constructor | done].
Qed.

Lemma acyclic_add_edge (R R' : A -> A -> Prop) a b :
  (forall x y, R' x y -> R x y \/ (x = a /\ y = b)) ->
  (forall x, ~ tc R x x) -> ~ rtc R b a -> forall x, ~ tc R' x x.
Proof.
  intros HR Hac Hba x Hx. destruct (tc_add_edge R R' a b HR x x Hx) as [H|[H1 H2]].
  - by eapply Hac.
  - apply Hba. by etransitivity.
Qed.

(** A relation that maps into an acyclic one is acyclic; the map is a
    relation defined on every source of an edge. *)
Lemma tc_simulates {B} (R' : B -> B -> Prop) (R : A -> A -> Prop) (f : B -> A -> Prop) :
  (forall x y, R' x y -> exists x' y', f x x' /\ f y y' /\ R x' y') ->
  (forall x y z, f x y -> f x z -> y = z) ->
  forall x y, tc R' x y -> exists x' y', f x x' /\ f y y' /\ tc R x' y'.
Proof.
  intros HR Hf x y. induction 1 as [x y H|x y z H _ IH].
  - destruct (HR _ _ H) as (x' & y' & ? & ? & ?). exists x', y'. by repeat split; [..|constructor].
  - destruct (HR _ _ H) as (x' & y' & Hx & Hy & H'), IH as (y'' & z' & Hy' & Hz & IH).
    rewrite (Hf _ _ _ Hy' Hy) in IH. exists x', z'. by repeat split; [..|eapply tc_l].
Qed.

Lemma acyclic_simulates {B} (R' : B -> B -> Prop) (R : A -> A -> Prop) (f : B -> A -> Prop) :
  (forall x y, R' x y -> exists x' y', f x x' /\ f y y' /\ R x' y') ->
  (forall x y z, f x y -> f x z -> y = z) ->
  (forall x, ~ tc R x x) -> forall x, ~ tc R' x x.
Proof.
  intros HR Hf Hac x Hx. destruct (tc_simulates R' R f HR Hf x x Hx) as (y & z & Hy & Hz & H).
  rewrite (Hf _ _ _ Hy Hz) in H. by eapply Hac.
Qed.

(** Two points of an acyclic relation glued together, neither of which
    reaches the other: [lift s t x x'] says [x'] is one of the points glued
    into [x]. *)
Definition lift (s t x x' : A) : Prop := x' = x \/ (x' = s /\ x = t).

Lemma lift_cases s t x a b :
  lift s t x a -> lift s t x b -> a = b \/ ((a = s \/ a = t) /\ (b = s \/ b = t)).
Proof. intros [->|[-> ->]] [->|[-> Heq]]; subst; auto. Qed.

Section glue.
Context (R R' : A -> A -> Prop) (s t : A).
Hypothesis R'_lifts : forall x y, R' x y ->
  exists x' y', lift s t x x' /\ lift s t y y' /\ R x' y'.
Hypothesis R_acyclic : forall x, ~ tc R x x.
Hypothesis R_st : ~ tc R s t.
Hypothesis R_ts : ~ tc R t s.

Lemma glued_apart g h : (g = s \/ g = t) -> (h = s \/ h = t) -> ~ tc R g h.
Proof using R_acyclic R_st R_ts. intros [->| ->] [->| ->]; auto. Qed.

Lemma glue_path x y :
  tc R' x y ->
  exists x' y', lift s t x x' /\ lift s t y y' /\
    (tc R x' y' \/ exists g h, (g = s \/ g = t) /\ (h = s \/ h = t) /\ tc R x' g /\ tc R h y').
Proof using R'_lifts.
  induction 1 as [x y H|x y z H _ IH].
  - destruct (R'_lifts _ _ H) as (x' & y' & ? & ? & ?). exists x', y'.
    split; [done|]. split; [done|]. left. by constructor.
  - destruct (R'_lifts _ _ H) as (x' & y' & Hx & Hy & HR).
    destruct IH as (y'' & z' & Hy' & Hz & IH). exists x', z'.
    split; [done|]. split; [done|].
    destruct (lift_cases _ _ _ _ _ Hy Hy') as [<-|[Hg Hg']].
    + destruct IH as [IH|(g & h & ? & ? & ? & ?)].
      * left. by eapply tc_l.
      * right. exists g, h. repeat split; try done. by eapply tc_l.
    + right. destruct IH as [IH|(g & h & ? & ? & ? & ?)].
      * exists y', y''. repeat split; try done. by constructor.
      * exists y', h. repeat split; try done. by constructor.
Qed.

Lemma acyclic_glue x : ~ tc R' x x.
Proof using R'_lifts R_acyclic R_st R_ts.
  intros Hx. destruct (glue_path x x Hx) as (a & b & Ha & Hb & H).
  destruct (lift_cases _ _ _ _ _ Ha Hb) as [<-|[Hga Hgb]], H as [H|(g & h & Hg & Hh & H1 & H2)].
  - by eapply R_acyclic.
  - apply (glued_apart h g Hh Hg). by etransitivity.
  - by apply (glued_apart a b).
  - by apply (glued_apart a g).
Qed.
End glue.
End closures.

(** ** Merge graphs *)

(** [parent g x y]: [x] is merged into [y]. *)
Abbreviation merge_graph := (gmap string (option string)) (only parsing).
Definition parent (g : merge_graph) (x y : string) : Prop := g !! x = Some (Some y).
Definition is_root (g : merge_graph) (r : string) : Prop := g !! r = Some None.
Definition resolves (g : merge_graph) (x r : string) : Prop := rtc (parent g) x r /\ is_root g r.

(** Acyclic, and every merge target exists. *)
Record merge_wf (g : merge_graph) : Prop := {
  merge_acyclic : forall x, ~ tc (parent g) x x;
  merge_closed : forall x y, parent g x y -> is_Some (g !! y);
}.

Lemma parent_det g x y z : parent g x y -> parent g x z -> y = z.
Proof. unfold parent. congruence. Qed.

Lemma root_no_parent g r y : is_root g r -> ~ parent g r y.
Proof. unfold is_root, parent. congruence. Qed.

Lemma root_rtc g r y : is_root g r -> rtc (parent g) r y -> y = r.
Proof. intros Hr H. inversion H; subst; [done|]. by eapply root_no_parent in Hr. Qed.

Lemma resolves_root g r : is_root g r -> resolves g r r.
Proof. by split. Qed.

Lemma resolves_step g x y r : parent g x y -> resolves g y r -> resolves g x r.
Proof. intros H [H1 H2]. split; [by eapply rtc_l | done]. Qed.

Lemma resolves_inv g x y r : parent g x y -> resolves g x r -> resolves g y r.
Proof.
  intros Hp [H Hr]. inversion H as [|? z ? Hz Hrest]; subst.
  - by eapply root_no_parent in Hr.
  - rewrite (parent_det _ _ _ _ Hp Hz). by split.
Qed.

Lemma resolves_rtc g x y r : rtc (parent g) x y -> resolves g x r -> resolves g y r.
Proof.
  induction 1 as [|x z y Hz _ IH]; [done|]. intros H. apply IH. by eapply resolves_inv.
Qed.

Lemma resolves_det g x r r' : resolves g x r -> resolves g x r' -> r = r'.
Proof.
  intros [H Hr] Hx. apply (resolves_rtc _ _ _ _ H) in Hx as [H' _].
  symmetry. by eapply root_rtc.
Qed.

Lemma resolves_lookup g x r : resolves g x r -> is_Some (g !! x).
Proof. intros [H Hr]. inversion H; subst; [by exists None | by eexists]. Qed.

Lemma resolves_total g x : merge_wf g -> is_Some (g !! x) -> exists r, resolves g x r.
Proof.
  intros [Hac Hcl]. assert (Hsn : sn (parent g) x).
  { apply tc_finite_sn; [by intros y Hy; eapply Hac|].
    exists (elements (dom g)). intros y Hy. apply elem_of_elements, elem_of_dom.
    clear Hac. induction Hy as [a b Hab|a b c Hab _ IH]; [by eapply Hcl|done]. }
  induction Hsn as [x _ IH]. intros [[y|] Hx].
  - destruct (IH y) as [r Hr]; [done|by eapply Hcl|].
    exists r. by eapply resolves_step.
  - by exists x.
Qed.

(** ** Recording and undoing a merge *)

Lemma parent_insert g s o x y :
  parent (<[s := o]> g) x y <-> (x = s /\ o = Some y) \/ (x <> s /\ parent g x y).
Proof.
  unfold parent. destruct (decide (x = s)) as [->|Hne].
  - rewrite lookup_insert_eq. naive_solver.
  - rewrite lookup_insert_ne by done. naive_solver.
Qed.

Lemma is_root_insert g s o r :
  is_root (<[s := o]> g) r <-> (r = s /\ o = None) \/ (r <> s /\ is_root g r).
Proof.
  unfold is_root. destruct (decide (r = s)) as [->|Hne].
  - rewrite lookup_insert_eq. naive_solver.
  - rewrite lookup_insert_ne by done. naive_solver.
Qed.

Lemma merge_wf_clear g s : merge_wf g -> is_Some (g !! s) -> merge_wf (<[s := None]> g).
Proof.
  intros [Hac Hcl] Hs. split.
  - intros x Hx. apply (Hac x). eapply tc_subrel; [|exact Hx].
    by intros a b [[_ ?]|[_ H]]%parent_insert.
  - intros x y [[_ ?]|[_ H]]%parent_insert; [done|].
    apply lookup_insert_is_Some'. right. by eapply Hcl.
Qed.

Lemma merge_wf_record g s t :
  merge_wf g -> is_Some (g !! t) -> ~ rtc (parent g) t s -> merge_wf (<[s := Some t]> g).
Proof.
  intros [Hac Hcl] Ht Hts. split.
  - apply (acyclic_add_edge (parent g) _ s t); [|done|done].
    intros x y [[-> [= ->]]|[_ H]]%parent_insert; auto.
  - intros x y [[_ [= ->]]|[_ H]]%parent_insert; apply lookup_insert_is_Some'; eauto.
Qed.

Lemma rtc_parent_insert_fwd g s o x y :
  rtc (parent g) x y -> ~ rtc (parent g) x s -> rtc (parent (<[s := o]> g)) x y.
Proof.
  induction 1 as [x|x z y Hz _ IH]; intros Hs; [constructor|].
  eapply rtc_l; [|apply IH; intros H; apply Hs; by eapply rtc_l].
  apply parent_insert. right. split; [|done]. intros ->. apply Hs. constructor.
Qed.

Lemma resolves_insert_fwd g s o x r :
  resolves g x r -> ~ rtc (parent g) x s -> resolves (<[s := o]> g) x r.
Proof.
  intros [H Hr] Hs. split; [by apply rtc_parent_insert_fwd|].
  apply is_root_insert. right. split; [|done]. by intros ->.
Qed.

(** Every chain into [s] still ends in [s] after [s] is re-merged. *)
Lemma rtc_parent_insert_to g s o x :
  merge_wf g -> rtc (parent g) x s -> rtc (parent (<[s := o]> g)) x s.
Proof.
  intros Hwf. induction 1 as [s|x z s Hz Hrest IH]; [constructor|].
  destruct (decide (x = s)) as [->|Hne]; [constructor|].
  eapply rtc_l; [|exact IH]. apply parent_insert. by right.
Qed.

(** A merge moves exactly the works that resolved through the source. *)
Lemma resolves_record g s t x r :
  merge_wf g -> ~ rtc (parent g) t s ->
  resolves (<[s := Some t]> g) x r <->
  (~ rtc (parent g) x s /\ resolves g x r) \/ (rtc (parent g) x s /\ resolves g t r).
Proof.
  intros Hwf Hts. split.
  - intros [H Hr]. induction H as [x|x y r Hy _ IH].
    + apply is_root_insert in Hr as [[_ ?]|[Hne Hr]]; [done|]. left.
      split; [intros Hx; apply Hne; symmetry; by eapply root_rtc | by apply resolves_root].
    + specialize (IH Hr). apply parent_insert in Hy as [[-> [= ->]]|[Hne Hy]].
      * right. split; [constructor|]. destruct IH as [[_ ?]|[? _]]; done.
      * destruct IH as [[Hn IH]|[Hs IH]].
        -- left. split; [|by eapply resolves_step]. intros Hx. apply Hn.
           inversion Hx as [|? z ? Hz Hrest]; subst; [done|].
           by rewrite (parent_det _ _ _ _ Hy Hz).
        -- right. split; [by eapply rtc_l | done].
  - intros [[Hn H]|[Hs H]]; [by apply resolves_insert_fwd|].
    apply (resolves_insert_fwd _ s (Some t)) in H as [H Hr]; [|done]. split; [|done].
    etransitivity; [by apply rtc_parent_insert_to|].
    eapply rtc_l; [|exact H]. apply parent_insert. by left.
Qed.

Lemma rtc_parent_clear g s x y :
  rtc (parent (<[s := None]> g)) x y -> rtc (parent g) x y.
Proof.
  induction 1 as [x|x z y Hz _ IH]; [constructor|].
  apply parent_insert in Hz as [[_ ?]|[_ Hz]]; [done|]. by eapply rtc_l.
Qed.

(** After an undo every work's new canonical work still resolves, in the old
    graph, to the work's old canonical one. *)
Lemma resolves_clear g s x r R :
  resolves (<[s := None]> g) x r -> resolves g r R -> resolves g x R.
Proof.
  intros [H _] [H' Hr]. apply rtc_parent_clear in H. split; [by etransitivity | done].
Qed.

Lemma resolves_clear_root g s x r :
  merge_wf g -> is_Some (g !! s) -> resolves (<[s := None]> g) x r ->
  exists R, resolves g r R.
Proof.
  intros Hwf Hs [_ Hr]. apply resolves_total; [done|].
  apply is_root_insert in Hr as [[-> _]|[_ Hr]]; [done | by exists None].
Qed.

(** ** Containment read through merges *)

Abbreviation contains_lists := (gmap string (list string)) (only parsing).

Definition cedge (g : merge_graph) (c : contains_lists) (a b : string) : Prop :=
  exists x l y, resolves g x a /\ c !! x = Some l /\ y ∈ l /\ resolves g y b.

Definition contains_acyclic (g : merge_graph) (c : contains_lists) : Prop :=
  forall a, ~ tc (cedge g c) a a.

Lemma cedge_roots g c a b : cedge g c a b -> is_root g a /\ is_root g b.
Proof. intros (x & l & y & [_ ?] & _ & _ & [_ ?]). done. Qed.

(** Undoing a merge refines the groups, so it closes no cycle. *)
Lemma contains_acyclic_clear g c s :
  merge_wf g -> is_Some (g !! s) ->
  contains_acyclic g c -> contains_acyclic (<[s := None]> g) c.
Proof.
  intros Hwf Hs Hac. unfold contains_acyclic.
  apply (acyclic_simulates _ (cedge g c) (resolves g)); [|by apply resolves_det|done].
  intros a b (x & l & y & Hx & Hl & Hy & Hb).
  destruct (resolves_clear_root _ _ _ _ Hwf Hs Hx) as [A HA].
  destruct (resolves_clear_root _ _ _ _ Hwf Hs Hb) as [B HB].
  exists A, B. split; [done|]. split; [done|]. exists x, l, y.
  split; [by eapply resolves_clear|]. split; [done|]. split; [done|]. by eapply resolves_clear.
Qed.

Lemma tc_cedge_clear g c s a b :
  merge_wf g -> is_Some (g !! s) -> tc (cedge (<[s := None]> g) c) a b ->
  exists A B, resolves g a A /\ resolves g b B /\ tc (cedge g c) A B.
Proof.
  intros Hwf Hs. apply tc_simulates; [|by apply resolves_det].
  clear a b. intros a b (x & l & y & Hx & Hl & Hy & Hb).
  destruct (resolves_clear_root _ _ _ _ Hwf Hs Hx) as [A HA].
  destruct (resolves_clear_root _ _ _ _ Hwf Hs Hb) as [B HB].
  exists A, B. split; [done|]. split; [done|]. exists x, l, y.
  split; [by eapply resolves_clear|]. split; [done|]. split; [done|]. by eapply resolves_clear.
Qed.

(** Merging a root [s] into [t] glues [s] to the root of [t]. *)
Lemma contains_acyclic_record_root g c s t rt :
  merge_wf g -> is_root g s -> resolves g t rt -> ~ rtc (parent g) t s ->
  contains_acyclic g c -> ~ tc (cedge g c) s rt -> ~ tc (cedge g c) rt s ->
  contains_acyclic (<[s := Some t]> g) c.
Proof.
  intros Hwf Hs Ht Hts Hac H1 H2. unfold contains_acyclic.
  assert (Hlift : forall x r, resolves (<[s := Some t]> g) x r ->
            exists x', lift s rt r x' /\ resolves g x x').
  { intros x r Hr. apply (resolves_record _ _ _ _ _ Hwf Hts) in Hr as [[_ H]|[Hxs H]].
    - exists r. split; [by left | done].
    - exists s. rewrite (resolves_det _ _ _ _ H Ht). split; [by right | by split]. }
  apply (acyclic_glue (cedge g c) _ s rt); [|done..].
  intros a b (x & l & y & Hx & Hl & Hy & Hb).
  destruct (Hlift _ _ Hx) as (A & HA & ?), (Hlift _ _ Hb) as (B & HB & ?).
  exists A, B. split; [done|]. split; [done|]. by exists x, l, y.
Qed.

(** Merging any [s] into [t]: its canonical work and [t]'s must not contain
    one another. *)
Lemma contains_acyclic_record g c s t rs rt :
  merge_wf g -> resolves g s rs -> resolves g t rt -> ~ rtc (parent g) t s ->
  contains_acyclic g c -> ~ tc (cedge g c) rs rt -> ~ tc (cedge g c) rt rs ->
  contains_acyclic (<[s := Some t]> g) c.
Proof.
  intros Hwf Hs Ht Hts Hac H1 H2.
  pose proof (resolves_lookup _ _ _ Hs) as Hsl.
  rewrite <- (insert_insert_eq g s (Some t) None).
  assert (Hts' : ~ rtc (parent (<[s := None]> g)) t s)
    by (intros H; by apply rtc_parent_clear in H).
  assert (Ht' : resolves (<[s := None]> g) t rt) by (by apply resolves_insert_fwd).
  assert (Hrt : resolves g rt rt) by (apply resolves_root; apply Ht).
  eapply contains_acyclic_record_root; try done.
  - by apply merge_wf_clear.
  - apply is_root_insert. by left.
  - by apply contains_acyclic_clear.
  - intros H. destruct (tc_cedge_clear _ _ _ _ _ Hwf Hsl H) as (A & B & HA & HB & HAB).
    rewrite (resolves_det _ _ _ _ HA Hs), (resolves_det _ _ _ _ HB Hrt) in HAB. done.
  - intros H. destruct (tc_cedge_clear _ _ _ _ _ Hwf Hsl H) as (A & B & HA & HB & HAB).
    rewrite (resolves_det _ _ _ _ HA Hrt), (resolves_det _ _ _ _ HB Hs) in HAB. done.
Qed.

(** A new containment reference adds one resolved edge. *)
Lemma contains_acyclic_add g c x l y a b :
  c !! x = Some l -> resolves g x a -> resolves g y b ->
  contains_acyclic g c -> ~ rtc (cedge g c) b a ->
  contains_acyclic g (<[x := l ++ [y]]> c).
Proof.
  intros Hl Hx Hy Hac Hba. unfold contains_acyclic.
  apply (acyclic_add_edge (cedge g c) _ a b); [|done|done].
  intros a' b' (x' & l' & y' & Hx' & Hl' & Hy' & Hb').
  apply lookup_insert_Some in Hl' as [[<- <-]|[_ Hl']]; [|left; by exists x', l', y'].
  apply elem_of_app in Hy' as [Hy'| ->%list_elem_of_singleton].
  - left. by exists x, l, y'.
  - right. split; by eapply resolves_det.
Qed.

Lemma contains_acyclic_shrink g c x l l' :
  c !! x = Some l -> (forall y, y ∈ l' -> y ∈ l) ->
  contains_acyclic g c -> contains_acyclic g (<[x := l']> c).
Proof.
  intros Hl Hsub Hac a Ha. apply (Hac a). eapply tc_subrel; [|exact Ha].
  intros a' b' (x' & l'' & y' & Hx' & Hl' & Hy' & Hb').
  apply lookup_insert_Some in Hl' as [[<- <-]|[_ Hl']].
  - exists x, l, y'. split; [done|]. split; [done|]. split; [by apply Hsub | done].
  - by exists x', l'', y'.
Qed.

(** ** Following a chain

    The loop both merge services run before they record a merge
    (work_merge_service.go and author_merge_service.go,
    [sourceReachableFromTarget]); [next] is [FindByID] followed by
    [MergedInto]. *)
Fixpoint reachable_loop (next : string -> Result (option string)) (fuel : nat)
    (source : string) (visited : gset string) (current : string) : Result bool :=
  match fuel with
  | O => OutOfFuel
  | S fuel' =>
      if decide (current = source) then Ok true
      else if decide (current ∈ visited) then Ok false
      else
        mergedInto ← next current;
        match mergedInto with
        | None => Ok false
        | Some target => reachable_loop next fuel' source ({[current]} ∪ visited) target
        end
  end.

Lemma seen_grows (all seen : gset string) i n :
  i ∉ seen -> i ∈ all -> seen ⊆ all -> size all < S n + size seen ->
  {[i]} ∪ seen ⊆ all /\ size all < n + size ({[i]} ∪ seen).
Proof.
  intros Hi Hid Hsub Hn. split; [set_solver|].
  rewrite size_union by set_solver. rewrite size_singleton. lia.
Qed.

Section reachable.
Context (next : string -> Result (option string)) (g : merge_graph).
Hypothesis next_ok : forall i o, next i = Ok o -> g !! i = Some o.

Lemma reachable_loop_true fuel source visited i :
  reachable_loop next fuel source visited i = Ok true -> rtc (parent g) i source.
Proof using next_ok.
  revert visited i. induction fuel as [|fuel IH]; intros visited i; simpl; [done|].
  destruct (decide (i = source)) as [->|]; [constructor|].
  destruct (decide _); [done|]. unfold mbind, res_bind.
  destruct (next i) as [[j|]| |] eqn:Hf; [|done..].
  intros Hr%IH. eapply rtc_l; [by apply next_ok | done].
Qed.

(** The visited set only ever holds ids that cannot be reached again. *)
Lemma reachable_loop_false fuel source visited i :
  merge_wf g -> (forall x, x ∈ visited -> ~ rtc (parent g) i x) ->
  reachable_loop next fuel source visited i = Ok false -> ~ rtc (parent g) i source.
Proof using next_ok.
  intros Hwf. revert visited i. induction fuel as [|fuel IH]; intros visited i Hv; simpl; [done|].
  destruct (decide (i = source)) as [->|Hne]; [done|].
  destruct (decide _) as [Hi|Hi]; [exfalso; apply (Hv i Hi); constructor|].
  unfold mbind, res_bind. destruct (next i) as [[j|]| |] eqn:Hf; [| |done..].
  - assert (Hp : parent g i j) by (by apply next_ok). intros Hr%IH.
    + intros Hx. inversion Hx as [|? k ? Hk Hrest]; subst; [done|].
      by rewrite (parent_det _ _ _ _ Hp Hk) in Hr.
    + intros x [->%elem_of_singleton|Hx]%elem_of_union Hjx.
      * eapply merge_acyclic; [done|]. eapply tc_rtc_r; [by constructor | done].
      * apply (Hv x Hx). by eapply rtc_l.
  - intros _ Hx. apply Hne. symmetry. eapply root_rtc; [by apply next_ok | done].
Qed.

Lemma reachable_loop_spec fuel source target r :
  merge_wf g -> reachable_loop next fuel source ∅ target = Ok r ->
  (r = true <-> rtc (parent g) target source).
Proof using next_ok.
  intros Hwf Hr. destruct r.
  - split; [intros _; by eapply reachable_loop_true | done].
  - split; [done|]. intros Hx. exfalso.
    by eapply (reachable_loop_false fuel source ∅ target Hwf); [set_solver|exact Hr|].
Qed.

Lemma reachable_loop_up fuel source visited i :
  merge_wf g -> (forall i o, g !! i = Some o -> next i = Ok o) -> is_Some (g !! i) ->
  (exists b, reachable_loop next fuel source visited i = Ok b) \/
  reachable_loop next fuel source visited i = OutOfFuel.
Proof.
  intros Hwf Hup. revert visited i.
  induction fuel as [|fuel IH]; intros visited i [o Ho]; simpl; [by right|].
  destruct (decide (i = source)); [eauto|]. destruct (decide _); [eauto|].
  unfold mbind, res_bind. rewrite (Hup _ _ Ho). destruct o as [j|]; [|eauto].
  apply IH. by eapply (merge_closed _ Hwf i).
Qed.
Hypothesis next_fuel : forall i, next i <> OutOfFuel.

Lemma reachable_loop_fuel fuel source visited i :
  visited ⊆ dom g -> size (dom g) < fuel + size visited ->
  reachable_loop next fuel source visited i <> OutOfFuel.
Proof using next_ok next_fuel.
  revert visited i. induction fuel as [|fuel IH]; intros seen i Hsub Hn; simpl.
  { apply subseteq_size in Hsub. lia. }
  destruct (decide (i = source)); [done|].
  destruct (decide _) as [|Hi]; [done|]. unfold mbind, res_bind.
  destruct (next i) as [[j|]| |] eqn:Hf; [|done|done|by apply next_fuel in Hf].
  destruct (seen_grows (dom g) seen i fuel Hi) as [??]; [|done..|].
  { apply elem_of_dom. rewrite (next_ok _ _ Hf). by eexists. }
  by apply IH.
Qed.
End reachable.
