(* ===== verification/WorkGraph.v ===== *)
(** * Works: merges, containment, resolution
      (src/internal/domain/resolve_work.go, work_merge_service.go,
      work_containment_service.go, is_in_library.go)

    The two graph services and the read-time resolution they share, against
    an interface of the work repository.  The Go loops are unbounded [for]
    loops; here they run on fuel taken from the size of the table, and the
    theorems show that fuel is never exhausted. *)

From S2P Require Import Prelude Errors Validate Catalog MergeGraph.

Local Open Scope string_scope.
Local Open Scope list_scope.

(** ** The repository (repository.go, [WorkRepository]) *)

Class WorkRepository (S : Type) := {
  works_view : S -> gmap WorkID Work;
  FindWork : WorkID -> S -> Result Work;
  FindMergedInto : WorkID -> S -> Result (list Work);
  SaveWork : Work -> S -> Result S;
}.

(** What its answers mean: a found work is the stored one, the works merged
    into an id are listed once each, a save of a work that can be stored
    replaces one row, and a found work can be stored again, wherever it is
    merged and whatever it contains.  The store may still fail at any call. *)
Class WorkRepositoryLaws (S : Type) `{WorkRepository S} := {
  storable : Work -> Prop;
  works_keyed s i w : works_view s !! i = Some w -> w_id w = i;
  find_work_ok s i w : FindWork i s = Ok w -> works_view s !! i = Some w;
  find_merged_ok s i l : FindMergedInto i s = Ok l ->
    NoDup (w_id <$> l) /\
    forall w, w ∈ l <-> works_view s !! w_id w = Some w /\ w_mergedInto w = Some i;
  find_work_storable s i w : FindWork i s = Ok w -> storable w;
  storable_merged o w : storable w -> storable (set_mergedInto o w);
  storable_contains l w : storable w -> storable (set_contains l w);
  save_work_ok s w s' : storable w -> SaveWork w s = Ok s' ->
    works_view s' = <[w_id w := w]> (works_view s);
  find_work_fuel s i : FindWork i s <> OutOfFuel;
  find_merged_fuel s i : FindMergedInto i s <> OutOfFuel;
  save_work_fuel s w : SaveWork w s <> OutOfFuel;
}.

(** A store that does not fail: only a missing work is an error. *)
Class WorkRepositoryUp (S : Type) `{WorkRepository S} := {
  find_work_up s i w : works_view s !! i = Some w -> FindWork i s = Ok w;
  find_work_none s i : works_view s !! i = None ->
    exists msg, FindWork i s = fails NotFound msg;
  find_merged_up s i : exists l, FindMergedInto i s = Ok l;
  save_work_up s w : exists s', SaveWork w s = Ok s';
}.

(** The view as a merge graph and containment lists. *)
Definition merges (m : gmap WorkID Work) : merge_graph := w_mergedInto <$> m.
Definition containments (m : gmap WorkID Work) : contains_lists := w_contains <$> m.

(** ** The loops (resolve_work.go, work_merge_service.go) *)

Section loops.
Context {S : Type} `{WorkRepository S}.

(** Fuel: one turn per work, and the two turns that can find nothing new. *)
Definition graph_fuel (s : S) : nat := 2 + size (works_view s).

Fixpoint resolve_loop (fuel : nat) (s : S) (seen : gset WorkID) (current : WorkID)
    : Result WorkID :=
  match fuel with
  | O => OutOfFuel
  | Datatypes.S fuel' =>
      if decide (current ∈ seen) then
        fails Internal "merge chain contains an existing cycle"
      else
        w ← FindWork current s;
        match w_mergedInto w with
        | None => Ok current
        | Some next => resolve_loop fuel' s ({[current]} ∪ seen) next
        end
  end.

Definition resolveCanonicalWork (id : WorkID) (s : S) : Result WorkID :=
  resolve_loop (graph_fuel s) s ∅ id.

Fixpoint merge_group_loop (fuel : nat) (s : S) (group : list Work) (queue : list WorkID)
    : Result (list Work) :=
  match queue with
  | [] => Ok group
  | current :: rest =>
      match fuel with
      | O => OutOfFuel
      | Datatypes.S fuel' =>
          members ← FindMergedInto current s;
          merge_group_loop fuel' s (group ++ members) (rest ++ (w_id <$> members))
      end
  end.

Definition collectMergeGroup (canonical : WorkID) (s : S) : Result (list Work) :=
  canonicalWork ← FindWork canonical s;
  merge_group_loop (graph_fuel s) s [canonicalWork] [canonical].

(** The two inner [for] loops of [containsClosure]: every reference of every
    work of the group, resolved, joins the closure and the queue once. *)
Fixpoint closure_refs (s : S) (ids : list WorkID) (closure : gset WorkID)
    (queue : list WorkID) : Result (gset WorkID * list WorkID) :=
  match ids with
  | [] => Ok (closure, queue)
  | containedID :: ids' =>
      resolved ← resolveCanonicalWork containedID s;
      if decide (resolved ∈ closure) then closure_refs s ids' closure queue
      else closure_refs s ids' ({[resolved]} ∪ closure) (queue ++ [resolved])
  end.

Fixpoint closure_group (s : S) (group : list Work) (closure : gset WorkID)
    (queue : list WorkID) : Result (gset WorkID * list WorkID) :=
  match group with
  | [] => Ok (closure, queue)
  | w :: group' =>
      '(closure', queue') ← closure_refs s (w_contains w) closure queue;
      closure_group s group' closure' queue'
  end.

Fixpoint closure_loop (fuel : nat) (s : S) (closure visitedGroups : gset WorkID)
    (queue : list WorkID) : Result (gset WorkID) :=
  match queue with
  | [] => Ok closure
  | canonical :: rest =>
      match fuel with
      | O => OutOfFuel
      | Datatypes.S fuel' =>
          if decide (canonical ∈ visitedGroups) then
            closure_loop fuel' s closure visitedGroups rest
          else
            group ← collectMergeGroup canonical s;
            '(closure', queue') ← closure_group s group closure rest;
            closure_loop fuel' s closure' ({[canonical]} ∪ visitedGroups) queue'
      end
  end.

Definition containsClosure (start : WorkID) (s : S) : Result (gset WorkID) :=
  startCanonical ← resolveCanonicalWork start s;
  closure_loop (graph_fuel s) s ∅ ∅ [startCanonical].

(** [FindByID] followed by [MergedInto]. *)
Definition work_next (s : S) (i : WorkID) : Result (option WorkID) :=
  w ← FindWork i s;
  mret (w_mergedInto w).

Definition sourceReachableFromTarget (source target : WorkID) (s : S) : Result bool :=
  reachable_loop (work_next s) (graph_fuel s) source ∅ target.

Definition wouldCreateSelfContainment (source target : WorkID) (s : S) : Result bool :=
  targetCanonical ← resolveCanonicalWork target s;
  sourceCanonical ← resolveCanonicalWork source s;
  closure ← containsClosure targetCanonical s;
  mret (bool_decide (sourceCanonical ∈ closure)).

(** ** The services (work_merge_service.go, work_containment_service.go) *)

Definition RecordMerge (source target : WorkID) (occurredAt : Time) : stM S error PublicEvent :=
  reachable ← reading (sourceReachableFromTarget source target);
  if (reachable : bool) then
    throw (mkErr Conflict "recording this merge would create a cycle")
  else
    selfContaining ← reading (wouldCreateSelfContainment source target);
    if (selfContaining : bool) then
      throw (mkErr Conflict
               "recording this merge would make a Work's resolved containment reach itself")
    else
      sourceWork ← reading (FindWork source);
      _ ← writing (SaveWork (set_mergedInto (Some target) sourceWork));
      mret (newPublic WorkMerged source occurredAt).

Definition UndoMerge (source : WorkID) (occurredAt : Time) : stM S error PublicEvent :=
  sourceWork ← reading (FindWork source);
  _ ← writing (SaveWork (set_mergedInto None sourceWork));
  mret (newPublic WorkMergeUndone source occurredAt).

Definition AddContains (container containee : WorkID) (occurredAt : Time)
    : stM S error PublicEvent :=
  containerCanonical ← reading (resolveCanonicalWork container);
  containeeCanonical ← reading (resolveCanonicalWork containee);
  if String.eqb containerCanonical containeeCanonical then
    throw (mkErr Conflict "a Work cannot contain itself")
  else
    closure ← reading (containsClosure containeeCanonical);
    if decide (containerCanonical ∈ closure) then
      throw (mkErr Conflict "adding this containment reference would create a cycle")
    else
      containerWork ← reading (FindWork container);
      _ ← writing (SaveWork
            (set_contains (w_contains containerWork ++ [containee]) containerWork));
      mret (newPublic WorkContainsAdded container occurredAt).

Definition RemoveContains (container containee : WorkID) (occurredAt : Time)
    : stM S error PublicEvent :=
  containerWork ← reading (FindWork container);
  let filtered := List.filter (fun id => negb (String.eqb id containee))
                    (w_contains containerWork) in
  _ ← writing (SaveWork (set_contains filtered containerWork));
  mret (newPublic WorkContainsRemoved container occurredAt).

(** ** Read-time resolution (resolve_work.go) *)

Record ResolvedWork := mkResolvedWork {
  CanonicalID : WorkID;
  Title : string;
  Subtitle : string;
  Authors : list AuthorID;
  Subjects : list Subject;
  OriginalLanguage : option Language;
  ExternalReferences : list ExternalReference;
  Contains : list WorkID;
}.

(** The union loops: each value kept the first time it is seen. *)
Fixpoint dedup_append {A} `{EqDecision A} (acc l : list A) : list A :=
  match l with
  | [] => acc
  | x :: l' => if decide (x ∈ acc) then dedup_append acc l' else dedup_append (acc ++ [x]) l'
  end.

Definition union_field {A} `{EqDecision A} (field : Work -> list A) (group : list Work) : list A :=
  fold_left (fun acc w => dedup_append acc (field w)) group [].

Definition ResolveWork (id : WorkID) (s : S) : Result ResolvedWork :=
  canonical ← resolveCanonicalWork id s;
  canonicalWork ← FindWork canonical s;
  group ← collectMergeGroup canonical s;
  mret (mkResolvedWork canonical (w_title canonicalWork) (w_subtitle canonicalWork)
          (union_field w_authors group) (union_field w_subjects group)
          (w_originalLanguage canonicalWork)
          (union_field w_externalReferences group) (union_field w_contains group)).

(** ** Ownership (is_in_library.go)

    [editionsOf] is [EditionRepository.FindByWork] and [entryOf] is
    [LibraryEntryRepository.FindByEdition]. *)
Section IsInLibrary.
Variable editionsOf : WorkID -> Result (list Edition).
Variable entryOf : EditionID -> Result LibraryEntry.

Fixpoint any_entry (editions : list Edition) : Result bool :=
  match editions with
  | [] => Ok false
  | e :: editions' =>
      match entryOf (e_id e) with
      | Ok _ => Ok true
      | Err err => if bool_decide (CategoryOf err = NotFound) then any_entry editions'
                   else Err err
      | OutOfFuel => OutOfFuel
      end
  end.

Fixpoint any_owned (group : list Work) : Result bool :=
  match group with
  | [] => Ok false
  | w :: group' =>
      editionsForWork ← editionsOf (w_id w);
      found ← any_entry editionsForWork;
      if (found : bool) then Ok true else any_owned group'
  end.

Definition IsInLibrary (workID : WorkID) (s : S) : Result bool :=
  canonical ← resolveCanonicalWork workID s;
  group ← collectMergeGroup canonical s;
  any_owned group.
End IsInLibrary.
End loops.

(** ** The repository in memory

    A log of saved works, newest first; the view is the newest version of
    each id. *)
Abbreviation work_log := (list Work) (only parsing).

Definition log_view (l : work_log) : gmap WorkID Work :=
  list_to_map ((fun w => (w_id w, w)) <$> l).

Definition merged_into (i : WorkID) (m : gmap WorkID Work) : list Work :=
  List.filter (fun w => bool_decide (w_mergedInto w = Some i)) (map_to_list m).*2.

#[export] Instance log_works : WorkRepository work_log := {
  works_view := log_view;
  FindWork i l := match log_view l !! i with
                  | Some w => Ok w
                  | None => fails NotFound "work not found"
                  end;
  FindMergedInto i l := Ok (merged_into i (log_view l));
  SaveWork w l := Ok (w :: l);
}.

Lemma log_keyed l i w : log_view l !! i = Some w -> w_id w = i.
Proof.
  unfold log_view. intros H%elem_of_list_to_map_2.
  apply list_elem_of_fmap in H as (v & [= -> ->] & _). done.
Qed.

Lemma log_values_ids l : (w_id <$> (map_to_list (log_view l)).*2) = (map_to_list (log_view l)).*1.
Proof.
  assert (H : forall i w, (i, w) ∈ map_to_list (log_view l) -> w_id w = i).
  { intros i w Hw. apply elem_of_map_to_list in Hw. by eapply log_keyed. }
  revert H. generalize (map_to_list (log_view l)). intros k.
  induction k as [|[i w] k IH]; intros H; [done|]. simpl. f_equal.
  - apply H. by left.
  - apply IH. intros j v Hv. apply H. by right.
Qed.

Lemma merged_into_spec i l w :
  w ∈ merged_into i (log_view l) <->
  log_view l !! w_id w = Some w /\ w_mergedInto w = Some i.
Proof.
  unfold merged_into. rewrite list_elem_of_In, filter_In, <- list_elem_of_In.
  rewrite bool_decide_eq_true, list_elem_of_fmap. split; intros [H Hm]; (split; [|done]).
  - destruct H as ([j v] & -> & Hv). apply elem_of_map_to_list in Hv. simpl.
    by rewrite (log_keyed _ _ _ Hv).
  - exists (w_id w, w). split; [done|]. by apply elem_of_map_to_list.
Qed.

#[export] Instance log_works_laws : WorkRepositoryLaws work_log.
Proof.
  refine (Build_WorkRepositoryLaws _ _ (fun _ => True) _ _ _ _ _ _ _ _ _ _); simpl; try done.
  - apply log_keyed.
  - intros l i w. by destruct (log_view l !! i) eqn:E; intros [= <-].
  - intros l i ws [= <-]. split; [|by intros; apply merged_into_spec].
    apply NoDup_fmap_filter. rewrite log_values_ids. apply NoDup_fst_map_to_list.
  - by intros l w l' _ [= <-].
  - intros l i. by destruct (log_view l !! i).
Qed.

#[export] Instance log_works_up : WorkRepositoryUp work_log.
Proof.
  split; simpl.
  - by intros l i w ->.
  - intros l i ->. by eexists.
  - intros l i. by eexists.
  - intros l w. by eexists.
Qed.

(** ** The loops follow the graph *)

Section loops_correct.
Context {S : Type} `{WorkRepositoryLaws S}.

Abbreviation G s := (merges (works_view s)).
Abbreviation Cn s := (containments (works_view s)).

Lemma find_merges s i w : FindWork i s = Ok w -> G s !! i = Some (w_mergedInto w).
Proof. intros Hf%find_work_ok. unfold merges. by rewrite lookup_fmap, Hf. Qed.

Lemma find_parent s i w j :
  FindWork i s = Ok w -> w_mergedInto w = Some j -> parent (G s) i j.
Proof. intros Hf Hw. unfold parent. by rewrite (find_merges _ _ _ Hf), Hw. Qed.

Lemma find_root s i w :
  FindWork i s = Ok w -> w_mergedInto w = None -> is_root (G s) i.
Proof. intros Hf Hw. unfold is_root. by rewrite (find_merges _ _ _ Hf), Hw. Qed.

Lemma merges_lookup s i : is_Some (G s !! i) <-> is_Some (works_view s !! i).
Proof. unfold merges. by rewrite lookup_fmap, fmap_is_Some. Qed.

Lemma view_merges s i w : works_view s !! i = Some w -> G s !! i = Some (w_mergedInto w).
Proof. intros Hi. unfold merges. by rewrite lookup_fmap, Hi. Qed.

Lemma merges_view s i o :
  G s !! i = Some o -> exists w, works_view s !! i = Some w /\ w_mergedInto w = o.
Proof. unfold merges. rewrite lookup_fmap_Some. naive_solver. Qed.

(** The ids of the table, counted. *)
Definition ids (s : S) : gset WorkID := dom (works_view s).

Lemma ids_size s : size (ids s) = size (works_view s).
Proof. apply size_dom. Qed.

Lemma find_ids s i w : FindWork i s = Ok w -> i ∈ ids s.
Proof. intros Hf%find_work_ok. by eapply elem_of_dom_2. Qed.

Lemma resolves_ids s x r : resolves (G s) x r -> r ∈ ids s.
Proof.
  intros [_ Hr]. apply elem_of_dom. apply merges_lookup. by exists None.
Qed.

Lemma resolve_loop_ok fuel s seen i r :
  resolve_loop fuel s seen i = Ok r -> resolves (G s) i r.
Proof.
  revert seen i. induction fuel as [|fuel IH]; intros seen i; simpl; [done|].
  destruct (decide _); [done|]. unfold mbind, res_bind.
  destruct (FindWork i s) as [w| |] eqn:Hf; [|done..].
  destruct (w_mergedInto w) as [j|] eqn:Hw.
  - intros Hr%IH. eapply resolves_step; [by eapply find_parent | done].
  - intros [= <-]. by eapply resolves_root, find_root.
Qed.

Lemma resolve_loop_fuel fuel s seen i :
  seen ⊆ ids s -> size (ids s) < fuel + size seen ->
  resolve_loop fuel s seen i <> OutOfFuel.
Proof.
  revert seen i. induction fuel as [|fuel IH]; intros seen i Hsub Hn; simpl.
  { apply subseteq_size in Hsub. lia. }
  destruct (decide _) as [|Hi]; [done|]. unfold mbind, res_bind.
  destruct (FindWork i s) as [w| |] eqn:Hf; [|done|by apply find_work_fuel in Hf].
  destruct (w_mergedInto w) as [j|]; [|done].
  destruct (seen_grows (ids s) seen i fuel Hi) as [??]; [by eapply find_ids|done..|].
  by apply IH.
Qed.

Lemma resolveCanonicalWork_ok s i r :
  resolveCanonicalWork i s = Ok r -> resolves (G s) i r.
Proof. apply resolve_loop_ok. Qed.

Lemma resolveCanonicalWork_fuel s i : resolveCanonicalWork i s <> OutOfFuel.
Proof.
  apply resolve_loop_fuel; [set_solver|]. unfold graph_fuel. rewrite ids_size. lia.
Qed.

Lemma work_next_ok s i o : work_next s i = Ok o -> G s !! i = Some o.
Proof.
  unfold work_next, mbind, res_bind. destruct (FindWork i s) as [w| |] eqn:Hf; [|done..].
  intros [= <-]. by apply find_merges.
Qed.

Lemma work_next_fuel s i : work_next s i <> OutOfFuel.
Proof.
  unfold work_next, mbind, res_bind.
  destruct (FindWork i s) eqn:Hf; [done|done|by apply find_work_fuel in Hf].
Qed.

Lemma merges_size s : size (dom (G s)) = size (works_view s).
Proof. unfold merges. by rewrite dom_fmap_L, size_dom. Qed.

Lemma sourceReachable_fuel s a b : sourceReachableFromTarget a b s <> OutOfFuel.
Proof.
  apply (reachable_loop_fuel (work_next s) (G s)).
  - apply work_next_ok.
  - apply work_next_fuel.
  - set_solver.
  - unfold graph_fuel. rewrite merges_size. lia.
Qed.

Lemma sourceReachable_spec s a b r :
  merge_wf (G s) -> sourceReachableFromTarget a b s = Ok r ->
  (r = true <-> rtc (parent (G s)) b a).
Proof. intros Hwf. apply (reachable_loop_spec (work_next s) (G s)); [apply work_next_ok | done]. Qed.

(** ** Merge groups *)

(** The state of the breadth-first walk from the root: [P] is processed. *)
Record group_inv (s : S) (root : WorkID) (group : list Work) (P queue : list WorkID) : Prop := {
  gi_ids : w_id <$> group = P ++ queue;
  gi_nodup : NoDup (P ++ queue);
  gi_stored : forall w, w ∈ group -> works_view s !! w_id w = Some w;
  gi_chain : forall x, x ∈ P ++ queue -> rtc (parent (G s)) x root;
  gi_parent : forall x, x ∈ P ++ queue -> x = root \/ exists p, p ∈ P /\ parent (G s) x p;
  gi_children : forall p x, p ∈ P -> parent (G s) x p -> x ∈ P ++ queue;
  gi_root : root ∈ P ++ queue;
}.

Lemma group_inv_step s root group P current rest members :
  is_root (G s) root ->
  group_inv s root group P (current :: rest) ->
  FindMergedInto current s = Ok members ->
  group_inv s root (group ++ members) (P ++ [current]) (rest ++ (w_id <$> members)).
Proof.
  intros Hroot [Hids Hnd Hst Hch Hpar Hchild Hr] Hm.
  destruct (find_merged_ok _ _ _ Hm) as [Hmnd Hmem].
  assert (Hall : (P ++ [current]) ++ rest ++ (w_id <$> members) =
                 (P ++ current :: rest) ++ (w_id <$> members)) by (by rewrite <- !app_assoc).
  assert (Hmp : forall x, x ∈ w_id <$> members <-> parent (G s) x current).
  { intros x. rewrite list_elem_of_fmap. split.
    - intros (w & -> & [Hv Hw]%Hmem). unfold parent. by rewrite (view_merges _ _ _ Hv), Hw.
    - intros (w & Hv & Hw)%merges_view. exists w.
      pose proof (works_keyed _ _ _ Hv) as Hk. split; [done|]. apply Hmem. by rewrite Hk. }
  assert (Hfresh : forall x, x ∈ w_id <$> members -> x ∉ P ++ current :: rest).
  { intros x Hx%Hmp Hin. destruct (Hpar _ Hin) as [->|(p & Hp & Hxp)].
    - by eapply root_no_parent in Hroot.
    - rewrite (parent_det _ _ _ _ Hxp Hx) in Hp.
      apply NoDup_app in Hnd as (_ & Hdis & _). by apply (Hdis _ Hp); left. }
  split; rewrite ?Hall.
  - by rewrite fmap_app, Hids.
  - apply NoDup_app. split; [done|]. split; [|done].
    intros x Hin Hx. by apply (Hfresh x).
  - intros w [Hw|Hw]%elem_of_app; [by apply Hst | by apply Hmem in Hw as [? _]].
  - intros x [Hx|Hx]%elem_of_app; [by apply Hch|].
    apply Hmp in Hx. eapply rtc_l; [done|]. apply Hch. set_solver.
  - intros x [Hx|Hx]%elem_of_app.
    + destruct (Hpar _ Hx) as [?|(p & ? & ?)]; [by left|]. right. exists p. set_solver.
    + right. exists current. apply Hmp in Hx. set_solver.
  - intros p x [Hp| ->%list_elem_of_singleton]%elem_of_app Hx.
    + apply elem_of_app. left. by eapply Hchild.
    + apply elem_of_app. right. by apply Hmp.
  - apply elem_of_app. by left.
Qed.

Lemma group_inv_count s root group P queue :
  group_inv s root group P queue -> length (P ++ queue) <= size (ids s).
Proof.
  intros [Hids Hnd Hst _ _ _ _].
  rewrite <- (size_list_to_set (C := gset WorkID)) by done. apply subseteq_size.
  intros x Hx%elem_of_list_to_set. rewrite <- Hids in Hx.
  apply list_elem_of_fmap in Hx as (w & -> & Hw). by eapply elem_of_dom_2, Hst.
Qed.

Definition is_merge_group (s : S) (root : WorkID) (group : list Work) : Prop :=
  NoDup (w_id <$> group) /\
  forall w, w ∈ group <-> works_view s !! w_id w = Some w /\ resolves (G s) (w_id w) root.

Lemma group_inv_done s root group P :
  is_root (G s) root -> group_inv s root group P [] -> is_merge_group s root group.
Proof.
  intros Hroot [Hids Hnd Hst Hch Hpar Hchild Hr]. rewrite app_nil_r in *.
  split; [by rewrite Hids|]. intros w. split.
  - intros Hw. split; [by apply Hst|]. split; [|done]. apply Hch. rewrite <- Hids.
    apply list_elem_of_fmap. by exists w.
  - intros [Hv [Hw _]].
    assert (Hin : w_id w ∈ P).
    { clear Hv. induction Hw as [x|x y z Hxy _ IH]; [done|]. by eapply Hchild, Hxy; apply IH. }
    rewrite <- Hids in Hin. apply list_elem_of_fmap in Hin as (v & Hid & Hv').
    pose proof (Hst _ Hv') as Hsv. rewrite <- Hid, Hv in Hsv. by injection Hsv as ->.
Qed.

Lemma merge_group_loop_spec fuel s root group P queue :
  is_root (G s) root -> group_inv s root group P queue ->
  size (ids s) <= fuel + length P ->
  match merge_group_loop fuel s group queue with
  | Ok group' => is_merge_group s root group'
  | Err _ => True
  | OutOfFuel => False
  end.
Proof.
  intros Hroot. revert group P queue.
  induction fuel as [|fuel IH]; intros group P [|current rest] Hinv Hn; simpl.
  - by eapply group_inv_done.
  - pose proof (group_inv_count _ _ _ _ _ Hinv) as Hc. rewrite length_app in Hc.
    simpl in Hc. lia.
  - by eapply group_inv_done.
  - unfold mbind, res_bind. destruct (FindMergedInto current s) as [members| |] eqn:Hm;
      [|done|by apply find_merged_fuel in Hm].
    apply (IH _ (P ++ [current])); [by apply group_inv_step|].
    rewrite length_app. simpl. lia.
Qed.

Lemma collectMergeGroup_spec s root :
  is_root (G s) root ->
  match collectMergeGroup root s with
  | Ok group => is_merge_group s root group
  | Err _ => True
  | OutOfFuel => False
  end.
Proof.
  intros Hroot. unfold collectMergeGroup, mbind, res_bind.
  destruct (FindWork root s) as [w| |] eqn:Hf; [|done|by apply find_work_fuel in Hf].
  pose proof (find_work_ok _ _ _ Hf) as Hv. pose proof (works_keyed _ _ _ Hv) as Hk.
  apply (merge_group_loop_spec _ s root [w] [] [root]); [done| |].
  - split; simpl.
    + by rewrite Hk.
    + apply NoDup_singleton.
    + intros v ->%list_elem_of_singleton. by rewrite Hk.
    + intros x ->%list_elem_of_singleton. constructor.
    + intros x ->%list_elem_of_singleton. by left.
    + intros p x Hp. by apply elem_of_nil in Hp.
    + by apply list_elem_of_singleton.
  - unfold graph_fuel. rewrite ids_size. simpl. lia.
Qed.

(** ** Containment closures *)

(** What a run over a list of references adds: the canonical works they
    resolve to, each queued once. *)
Definition extends (closure : gset WorkID) (queue : list WorkID)
    (closure' : gset WorkID) (queue' new : list WorkID) : Prop :=
  queue' = queue ++ new /\ NoDup new /\ closure' = closure ∪ list_to_set new /\
  (forall d, d ∈ new -> d ∉ closure).

Lemma extends_nil closure queue : extends closure queue closure queue [].
Proof.
  split; [by rewrite app_nil_r|]. split; [constructor|]. split; [set_solver|].
  intros d Hd. by apply elem_of_nil in Hd.
Qed.

Lemma extends_trans c1 q1 c2 q2 c3 q3 n1 n2 :
  extends c1 q1 c2 q2 n1 -> extends c2 q2 c3 q3 n2 -> extends c1 q1 c3 q3 (n1 ++ n2).
Proof.
  intros (-> & Hn1 & -> & Hd1) (-> & Hn2 & -> & Hd2).
  split; [by rewrite app_assoc|]. split; [|split].
  - apply NoDup_app. split; [done|]. split; [|done]. intros x Hx Hx2.
    apply (Hd2 x Hx2). set_solver.
  - rewrite list_to_set_app_L. set_solver.
  - intros d [Hd|Hd]%elem_of_app; [by apply Hd1|]. specialize (Hd2 _ Hd). set_solver.
Qed.

Lemma extends_size c q c' q' n : extends c q c' q' n -> size c' = size c + length n.
Proof.
  intros (_ & Hnd & -> & Hd). rewrite size_union.
  - by rewrite size_list_to_set.
  - intros x Hx Hxn%elem_of_list_to_set. by eapply Hd.
Qed.

Lemma closure_refs_spec s l closure queue :
  match closure_refs s l closure queue with
  | Ok (closure', queue') =>
      exists new, extends closure queue closure' queue' new /\
        forall d, d ∈ closure' <-> d ∈ closure \/ exists y, y ∈ l /\ resolves (G s) y d
  | Err _ => True
  | OutOfFuel => False
  end.
Proof.
  revert closure queue. induction l as [|y l IH]; intros closure queue; simpl.
  { exists []. split; [apply extends_nil|]. intros d. split; [by left|].
    intros [?|(y & Hy & _)]; [done|by apply elem_of_nil in Hy]. }
  unfold mbind, res_bind.
  destruct (resolveCanonicalWork y s) as [r| |] eqn:Hr; [|done|by apply resolveCanonicalWork_fuel in Hr].
  apply resolveCanonicalWork_ok in Hr.
  assert (Hy : forall d, (exists y', y' ∈ y :: l /\ resolves (G s) y' d) <->
                         d = r \/ exists y', y' ∈ l /\ resolves (G s) y' d).
  { intros d. setoid_rewrite elem_of_cons. split.
    - intros (y' & [->|?] & Hd); [left; by eapply resolves_det | right; by exists y'].
    - intros [->|(y' & ? & ?)]; [by exists y; auto | by exists y'; auto]. }
  destruct (decide (r ∈ closure)) as [Hin|Hin].
  - specialize (IH closure queue). destruct (closure_refs s l closure queue) as [[c q]| |]; [|done..].
    destruct IH as (new & He & Hd). exists new. split; [done|]. intros d. rewrite Hy, Hd.
    split; [tauto|]. intros [?|[->|?]]; auto.
  - specialize (IH ({[r]} ∪ closure) (queue ++ [r])).
    destruct (closure_refs _ _ _ _) as [[c q]| |]; [|done..].
    destruct IH as (new & He & Hd). exists ([r] ++ new). split.
    + eapply extends_trans; [|exact He]. split; [done|]. split; [apply NoDup_singleton|].
      split; [set_solver|]. by intros d ->%list_elem_of_singleton.
    + intros d. rewrite Hy, Hd, elem_of_union, elem_of_singleton. tauto.
Qed.

Lemma closure_group_spec s group closure queue :
  match closure_group s group closure queue with
  | Ok (closure', queue') =>
      exists new, extends closure queue closure' queue' new /\
        forall d, d ∈ closure' <-> d ∈ closure \/
          exists w y, w ∈ group /\ y ∈ w_contains w /\ resolves (G s) y d
  | Err _ => True
  | OutOfFuel => False
  end.
Proof.
  revert closure queue. induction group as [|w group IH]; intros closure queue; simpl.
  { exists []. split; [apply extends_nil|]. intros d. split; [by left|].
    intros [?|(w & y & Hw & _)]; [done|by apply elem_of_nil in Hw]. }
  unfold mbind at 1, res_bind at 1.
  pose proof (closure_refs_spec s (w_contains w) closure queue) as Hrefs.
  destruct (closure_refs _ _ _ _) as [[c1 q1]| |]; [|done..].
  destruct Hrefs as (n1 & He1 & Hd1). specialize (IH c1 q1).
  destruct (closure_group _ _ _ _) as [[c2 q2]| |]; [|done..].
  destruct IH as (n2 & He2 & Hd2). exists (n1 ++ n2). split; [by eapply extends_trans|].
  intros d. rewrite Hd2, Hd1. setoid_rewrite elem_of_cons. split.
  - intros [[?|(y & ? & ?)]|(v & y & ? & ? & ?)]; [by left| right; exists w, y; auto |
      right; exists v, y; auto].
  - intros [?|(v & y & [->|?] & ? & ?)]; [by left; left | left; right; by exists y |
      right; by exists v, y].
Qed.

(** Expanding a canonical work: exactly its outgoing edges. *)
Lemma group_edges s canonical group d :
  is_merge_group s canonical group ->
  (exists w y, w ∈ group /\ y ∈ w_contains w /\ resolves (G s) y d) <->
  cedge (G s) (Cn s) canonical d.
Proof.
  intros [_ Hg]. split.
  - intros (w & y & [Hv Hr]%Hg & Hy & Hd). exists (w_id w), (w_contains w), y.
    split; [done|]. split; [|done]. unfold containments. by rewrite lookup_fmap, Hv.
  - intros (x & l & y & Hx & Hl & Hy & Hd).
    unfold containments in Hl. apply lookup_fmap_Some in Hl as (w & <- & Hv).
    exists w, y. split; [|done]. apply Hg. pose proof (works_keyed _ _ _ Hv) as ->. done.
Qed.

Record closure_inv (s : S) (start : WorkID) (closure V : gset WorkID) (Q : list WorkID) : Prop := {
  ci_start : is_root (G s) start;
  ci_sound : forall d, d ∈ closure -> tc (cedge (G s) (Cn s)) start d;
  ci_queue : forall d, d ∈ Q -> d = start \/ d ∈ closure;
  ci_done : forall v d, v ∈ V -> cedge (G s) (Cn s) v d -> d ∈ closure;
  ci_covered : forall d, d = start \/ d ∈ closure -> d ∈ V \/ d ∈ Q;
}.

Lemma closure_inv_root s start closure V Q d :
  closure_inv s start closure V Q -> d = start \/ d ∈ closure -> is_root (G s) d.
Proof.
  intros Hi [->|Hd]; [apply Hi|]. apply (ci_sound _ _ _ _ _ Hi) in Hd.
  clear Hi. induction Hd as [a b Hab|a b c Hab _ IH]; [by apply cedge_roots in Hab as [??] | done].
Qed.

Lemma closure_inv_size s start closure V Q :
  closure_inv s start closure V Q -> size closure <= size (ids s).
Proof.
  intros Hi. apply subseteq_size. intros d Hd. eapply resolves_ids, resolves_root.
  eapply closure_inv_root; [done | by right].
Qed.

Lemma closure_inv_skip s start closure V c Q :
  closure_inv s start closure V (c :: Q) -> c ∈ V -> closure_inv s start closure V Q.
Proof.
  intros [H1 H2 H3 H4 H5] Hc. split; try done.
  - intros d Hd. apply H3. by right.
  - intros d Hd. destruct (H5 d Hd) as [?|[->|?]%elem_of_cons]; auto.
Qed.

Lemma closure_inv_expand s start closure V c Q closure' new :
  closure_inv s start closure V (c :: Q) ->
  extends closure Q closure' (Q ++ new) new ->
  (forall d, d ∈ closure' <-> d ∈ closure \/ cedge (G s) (Cn s) c d) ->
  closure_inv s start closure' ({[c]} ∪ V) (Q ++ new).
Proof.
  intros [H1 H2 H3 H4 H5] (_ & _ & Hc' & _) Hd. split; try done.
  - intros d [?|He]%Hd; [by apply H2|].
    destruct (H3 c) as [->|Hc]; [by left| by constructor|].
    eapply tc_r; [by apply H2 | done].
  - intros d [Hq|Hn]%elem_of_app.
    + destruct (H3 d) as [?|?]; [by right | by left | right; apply Hd; by left].
    + right. rewrite Hc'. set_solver.
  - intros v d [->%elem_of_singleton|Hv]%elem_of_union He; apply Hd; [by right|].
    left. by eapply H4.
  - intros d Hin. assert (d = start \/ d ∈ closure \/ d ∈ new) as Hcases.
    { destruct Hin as [?|Hin]; [by left|]. rewrite Hc' in Hin. set_solver. }
    destruct Hcases as [?|[?|?]].
    + destruct (H5 d) as [?|[->|?]%elem_of_cons]; [by left|set_solver..].
    + destruct (H5 d) as [?|[->|?]%elem_of_cons]; [by right|set_solver..].
    + set_solver.
Qed.

Lemma closure_inv_finished s start closure V :
  closure_inv s start closure V [] ->
  forall d, d ∈ closure <-> tc (cedge (G s) (Cn s)) start d.
Proof.
  intros [H1 H2 H3 H4 H5] d. split; [by apply H2|].
  assert (HV : forall v, v = start \/ v ∈ closure -> v ∈ V).
  { intros v Hv. destruct (H5 v Hv) as [?|Hn]; [done|by apply elem_of_nil in Hn]. }
  assert (Hgen : forall a b, a = start \/ a ∈ closure -> tc (cedge (G s) (Cn s)) a b -> b ∈ closure).
  { intros a b Ha Hab. induction Hab as [a b Hab|a b c Hab _ IH].
    - eapply H4; [by apply HV | done].
    - apply IH. right. eapply H4; [by apply HV | done]. }
  apply Hgen. by left.
Qed.

Lemma closure_loop_spec fuel s start closure V Q :
  closure_inv s start closure V Q ->
  length Q + size (ids s) <= fuel + size closure ->
  match closure_loop fuel s closure V Q with
  | Ok closure' => forall d, d ∈ closure' <-> tc (cedge (G s) (Cn s)) start d
  | Err _ => True
  | OutOfFuel => False
  end.
Proof.
  revert closure V Q. induction fuel as [|fuel IH]; intros closure V [|c Q] Hinv Hn; simpl.
  - by eapply closure_inv_finished.
  - apply closure_inv_size in Hinv. simpl in Hn. lia.
  - by eapply closure_inv_finished.
  - simpl in Hn. destruct (decide (c ∈ V)) as [Hc|Hc].
    { apply IH; [by eapply closure_inv_skip | lia]. }
    assert (Hroot : is_root (G s) c).
    { eapply closure_inv_root; [done|]. eapply ci_queue; [done | by left]. }
    pose proof (collectMergeGroup_spec s c Hroot) as Hg. unfold mbind, res_bind.
    destruct (collectMergeGroup c s) as [group| |]; [|done..].
    pose proof (closure_group_spec s group closure Q) as Hcg.
    destruct (closure_group _ _ _ _) as [[closure' Q']| |]; [|done..].
    destruct Hcg as (new & He & Hd). pose proof (extends_size _ _ _ _ _ He) as Hsz.
    pose proof He as (-> & _). apply IH.
    + eapply closure_inv_expand; [done..|]. intros d. by rewrite Hd, group_edges.
    + rewrite length_app. lia.
Qed.

(** The closure of a work is the set of canonical works its canonical work
    reaches by one containment or more. *)
Lemma containsClosure_spec s start :
  match containsClosure start s with
  | Ok closure => exists r, resolves (G s) start r /\
                    forall d, d ∈ closure <-> tc (cedge (G s) (Cn s)) r d
  | Err _ => True
  | OutOfFuel => False
  end.
Proof.
  unfold containsClosure, mbind, res_bind.
  destruct (resolveCanonicalWork start s) as [r| |] eqn:Hr;
    [|done|by apply resolveCanonicalWork_fuel in Hr].
  apply resolveCanonicalWork_ok in Hr.
  assert (Hinv : closure_inv s r ∅ ∅ [r]).
  { split; [apply Hr|set_solver|set_solver|set_solver|set_solver]. }
  pose proof (closure_loop_spec (graph_fuel s) s r ∅ ∅ [r] Hinv) as Hl.
  destruct (closure_loop _ _ _ _ _) as [closure| |]; [|done|].
  - exists r. split; [done|]. apply Hl. unfold graph_fuel. rewrite ids_size, size_empty. simpl. lia.
  - apply Hl. unfold graph_fuel. rewrite ids_size, size_empty. simpl. lia.
Qed.

(** ** The services *)

(** The graph invariant the two services are there to keep. *)
Definition graph_ok (s : S) : Prop :=
  merge_wf (G s) /\ contains_acyclic (G s) (Cn s).

(** A saved work that only changed its merge reference, or its list. *)
Lemma save_merge_view s i w o s' :
  FindWork i s = Ok w -> SaveWork (set_mergedInto o w) s = Ok s' ->
  works_view s' = <[i := set_mergedInto o w]> (works_view s) /\
  G s' = <[i := o]> (G s) /\ Cn s' = Cn s.
Proof.
  intros Hf Hs. apply save_work_ok in Hs; [|by eapply storable_merged, find_work_storable].
  apply find_work_ok in Hf. pose proof (works_keyed _ _ _ Hf) as Hk.
  simpl in Hs. rewrite Hk in Hs. rewrite Hs. split; [done|].
  unfold merges, containments. rewrite !fmap_insert. split; [done|].
  apply insert_id. by rewrite lookup_fmap, Hf.
Qed.

Lemma save_contains_view s i w l s' :
  FindWork i s = Ok w -> SaveWork (set_contains l w) s = Ok s' ->
  works_view s' = <[i := set_contains l w]> (works_view s) /\
  G s' = G s /\ Cn s' = <[i := l]> (Cn s).
Proof.
  intros Hf Hs. apply save_work_ok in Hs; [|by eapply storable_contains, find_work_storable].
  apply find_work_ok in Hf. pose proof (works_keyed _ _ _ Hf) as Hk.
  simpl in Hs. rewrite Hk in Hs. rewrite Hs. split; [done|].
  unfold merges, containments. rewrite !fmap_insert. split; [|done].
  apply insert_id. by rewrite lookup_fmap, Hf.
Qed.

Lemma find_contains s i w : FindWork i s = Ok w -> Cn s !! i = Some (w_contains w).
Proof. intros Hf%find_work_ok. unfold containments. by rewrite lookup_fmap, Hf. Qed.

Lemma wouldCreate_spec s source target b :
  wouldCreateSelfContainment source target s = Ok b ->
  exists rs rt, resolves (G s) source rs /\ resolves (G s) target rt /\
    (b = true <-> tc (cedge (G s) (Cn s)) rt rs).
Proof.
  unfold wouldCreateSelfContainment, mbind, res_bind.
  destruct (resolveCanonicalWork target s) as [rt| |] eqn:Ht; [|done..].
  destruct (resolveCanonicalWork source s) as [rs| |] eqn:Hs; [|done..].
  apply resolveCanonicalWork_ok in Ht. apply resolveCanonicalWork_ok in Hs.
  pose proof (containsClosure_spec s rt) as Hc.
  destruct (containsClosure rt s) as [closure| |]; [|done..].
  destruct Hc as (r & Hr & Hc). intros [= <-].
  rewrite (resolves_det _ _ _ _ Hr (resolves_root _ _ (proj2 Ht))) in Hc.
  exists rs, rt. split; [done|]. split; [done|]. rewrite bool_decide_eq_true. apply Hc.
Qed.

(** What a recorded merge was checked for, and what it wrote. *)
Lemma RecordMerge_inv source target at_ s ev s' :
  RecordMerge source target at_ s = (Ok ev, s') ->
  exists w rs rt, FindWork source s = Ok w /\
    resolves (G s) source rs /\ resolves (G s) target rt /\
    sourceReachableFromTarget source target s = Ok false /\
    ~ tc (cedge (G s) (Cn s)) rt rs /\
    ev = newPublic WorkMerged source at_ /\
    works_view s' = <[source := set_mergedInto (Some target) w]> (works_view s) /\
    G s' = <[source := Some target]> (G s) /\ Cn s' = Cn s.
Proof.
  unfold RecordMerge. intros Hrun.
  rewrite stM_bind_ok in Hrun. destruct Hrun as (reach & s1 & [Hr ->]%reading_ok & Hrun).
  destruct reach; [by apply throw_ok in Hrun|].
  rewrite stM_bind_ok in Hrun. destruct Hrun as (self & s1 & [Hw ->]%reading_ok & Hrun).
  destruct self; [by apply throw_ok in Hrun|]. svc_inv Hrun.
  match goal with Hsv : SaveWork _ _ = Ok _, Hf : FindWork _ _ = Ok ?w |- _ =>
    destruct (save_merge_view _ _ _ _ _ Hf Hsv) as (Hv & Hg & Hc);
    destruct (wouldCreate_spec _ _ _ _ Hw) as (rs & rt & Hs & Ht & Hb);
    exists w, rs, rt
  end.
  conjuncts. intros Htc. by apply Hb in Htc.
Qed.

Lemma UndoMerge_inv source at_ s ev s' :
  UndoMerge source at_ s = (Ok ev, s') ->
  exists w, FindWork source s = Ok w /\ ev = newPublic WorkMergeUndone source at_ /\
    works_view s' = <[source := set_mergedInto None w]> (works_view s) /\
    G s' = <[source := None]> (G s) /\ Cn s' = Cn s.
Proof.
  unfold UndoMerge. intros Hrun. svc_inv Hrun.
  match goal with Hsv : SaveWork _ _ = Ok _, Hf : FindWork _ _ = Ok ?w |- _ =>
    destruct (save_merge_view _ _ _ _ _ Hf Hsv) as (Hv & Hg & Hc); by exists w
  end.
Qed.

Lemma AddContains_inv container containee at_ s ev s' :
  AddContains container containee at_ s = (Ok ev, s') ->
  exists w rc re, FindWork container s = Ok w /\
    resolves (G s) container rc /\ resolves (G s) containee re /\
    ~ rtc (cedge (G s) (Cn s)) re rc /\
    ev = newPublic WorkContainsAdded container at_ /\
    works_view s' = <[container := set_contains (w_contains w ++ [containee]) w]> (works_view s) /\
    G s' = G s /\ Cn s' = <[container := w_contains w ++ [containee]]> (Cn s).
Proof.
  unfold AddContains. intros Hrun.
  rewrite stM_bind_ok in Hrun. destruct Hrun as (rc & s1 & [Hrc ->]%reading_ok & Hrun).
  rewrite stM_bind_ok in Hrun. destruct Hrun as (re & s1 & [Hre ->]%reading_ok & Hrun).
  destruct (String.eqb_spec rc re) as [|Hne]; [by apply throw_ok in Hrun|].
  rewrite stM_bind_ok in Hrun. destruct Hrun as (cl & s1 & [Hcl ->]%reading_ok & Hrun).
  destruct (decide (rc ∈ cl)) as [|Hnot]; [by apply throw_ok in Hrun|]. svc_inv Hrun.
  apply resolveCanonicalWork_ok in Hrc. apply resolveCanonicalWork_ok in Hre.
  pose proof (containsClosure_spec s re) as Hspec. rewrite Hcl in Hspec.
  destruct Hspec as (r & Hr & Hspec).
  rewrite (resolves_det _ _ _ _ Hr (resolves_root _ _ (proj2 Hre))) in Hspec.
  match goal with Hsv : SaveWork _ _ = Ok _, Hf : FindWork _ _ = Ok ?w |- _ =>
    destruct (save_contains_view _ _ _ _ _ Hf Hsv) as (Hv & Hg & Hc); exists w, rc, re
  end.
  conjuncts.
  intros Hx. apply rtc_tc in Hx as [->|Hx]; [done|]. by apply Hnot, Hspec.
Qed.

Lemma RemoveContains_inv container containee at_ s ev s' :
  RemoveContains container containee at_ s = (Ok ev, s') ->
  exists w, FindWork container s = Ok w /\ ev = newPublic WorkContainsRemoved container at_ /\
    G s' = G s /\
    Cn s' = <[container := List.filter (fun id => negb (String.eqb id containee)) (w_contains w)]> (Cn s).
Proof.
  unfold RemoveContains. intros Hrun. svc_inv Hrun.
  match goal with Hsv : SaveWork _ _ = Ok _, Hf : FindWork _ _ = Ok ?w |- _ =>
    destruct (save_contains_view _ _ _ _ _ Hf Hsv) as (Hv & Hg & Hc); by exists w
  end.
Qed.

Lemma RecordMerge_wf source target at_ s ev s' :
  merge_wf (G s) -> RecordMerge source target at_ s = (Ok ev, s') ->
  merge_wf (G s') /\ ~ rtc (parent (G s)) target source.
Proof.
  intros Hwf (w & rs & rt & Hf & Hs & Ht & Hr & _ & _ & _ & -> & _)%RecordMerge_inv.
  assert (Hn : ~ rtc (parent (G s)) target source).
  { intros Hx. by apply (sourceReachable_spec _ _ _ _ Hwf Hr) in Hx. }
  split; [|done]. apply merge_wf_record; [done|by eapply resolves_lookup|done].
Qed.

Lemma UndoMerge_ok source at_ s ev s' :
  graph_ok s -> UndoMerge source at_ s = (Ok ev, s') -> graph_ok s'.
Proof.
  intros [Hwf Hac] (w & Hf & _ & _ & Hg & Hc)%UndoMerge_inv. unfold graph_ok. rewrite Hg, Hc.
  assert (is_Some (G s !! source)) by (rewrite (find_merges _ _ _ Hf); by eexists).
  split; [by apply merge_wf_clear | by apply contains_acyclic_clear].
Qed.

Lemma AddContains_ok container containee at_ s ev s' :
  graph_ok s -> AddContains container containee at_ s = (Ok ev, s') -> graph_ok s'.
Proof.
  intros [Hwf Hac] (w & rc & re & Hf & Hrc & Hre & Hn & _ & _ & Hg & Hc)%AddContains_inv.
  unfold graph_ok. rewrite Hg, Hc. split; [done|].
  eapply contains_acyclic_add; try done. by apply find_contains.
Qed.

Lemma RemoveContains_ok container containee at_ s ev s' :
  graph_ok s -> RemoveContains container containee at_ s = (Ok ev, s') -> graph_ok s'.
Proof.
  intros [Hwf Hac] (w & Hf & _ & Hg & Hc)%RemoveContains_inv.
  unfold graph_ok. rewrite Hg, Hc. split; [done|].
  eapply contains_acyclic_shrink; [by apply find_contains| |done].
  intros y. rewrite !list_elem_of_In, filter_In. tauto.
Qed.

Lemma RecordMerge_ok source target at_ s ev s' rs rt :
  graph_ok s -> RecordMerge source target at_ s = (Ok ev, s') ->
  resolves (G s) source rs -> resolves (G s) target rt ->
  ~ tc (cedge (G s) (Cn s)) rs rt -> graph_ok s'.
Proof.
  intros [Hwf Hac] Hrun Hrs Hrt Hn. destruct (RecordMerge_wf _ _ _ _ _ _ Hwf Hrun) as [Hwf' Hts].
  destruct (RecordMerge_inv _ _ _ _ _ _ Hrun)
    as (w & rs' & rt' & _ & Hrs' & Hrt' & _ & Hn' & _ & _ & Hg & Hc).
  rewrite (resolves_det _ _ _ _ Hrs' Hrs), (resolves_det _ _ _ _ Hrt' Hrt) in Hn'.
  split; [done|]. rewrite Hg, Hc. by apply (contains_acyclic_record _ _ _ _ rs rt).
Qed.
End loops_correct.
