(* ===== verification/WorkServices.v ===== *)
(** * Works: what the graph services promise

    The theorems on WorkGraph.v: termination and correctness of the
    resolution loops, the invariants the merge and containment services keep,
    the merge they fail to reject, and read-time resolution. *)

From S2P Require Import Prelude Errors Validate Catalog MergeGraph WorkGraph.

Local Open Scope string_scope.
Local Open Scope list_scope.

Lemma resolves_not_cyclic g x r : resolves g x r -> ~ tc (parent g) x x.
Proof.
  intros [H Hr]. induction H as [x|x y z Hy _ IH]; intros Hx.
  - inversion Hx; subst; by eapply root_no_parent.
  - apply (IH Hr). inversion Hx as [? ? Hp|? w ? Hp Hrest]; subst.
    + by rewrite <- (parent_det _ _ _ _ Hy Hp) in Hx.
    + rewrite <- (parent_det _ _ _ _ Hy Hp) in Hrest. by eapply tc_r.
Qed.

(** ** A store that does not fail *)

Section complete.
Context {S : Type} `{WorkRepositoryLaws S} `{!WorkRepositoryUp S}.

Abbreviation G s := (merges (works_view s)).
Abbreviation Cn s := (containments (works_view s)).

Lemma find_up s i : is_Some (G s !! i) -> exists w, FindWork i s = Ok w /\ G s !! i = Some (w_mergedInto w).
Proof.
  intros [o Ho]. destruct (merges_view _ _ _ Ho) as (w & Hv & <-).
  exists w. split; [by apply find_work_up | done].
Qed.

Lemma resolve_loop_up fuel s seen i r :
  resolves (G s) i r -> (forall x, x ∈ seen -> ~ rtc (parent (G s)) i x) ->
  resolve_loop fuel s seen i = Ok r \/ resolve_loop fuel s seen i = OutOfFuel.
Proof.
  revert seen i. induction fuel as [|fuel IH]; intros seen i Hr Hseen; simpl; [by right|].
  destruct (decide _) as [Hi|Hi]; [exfalso; apply (Hseen i Hi); constructor|].
  destruct (find_up s i) as (w & Hf & Hw); [by eapply resolves_lookup|].
  unfold mbind, res_bind. rewrite Hf. destruct (w_mergedInto w) as [j|] eqn:Hj.
  - apply IH; [by eapply resolves_inv|]. intros x [->%elem_of_singleton|Hx]%elem_of_union Hjx.
    + eapply resolves_not_cyclic; [exact Hr|]. eapply tc_rtc_r; [by apply tc_once, Hw | done].
    + apply (Hseen x Hx). by eapply rtc_l; [exact Hw|].
  - left. f_equal. eapply resolves_det; [|exact Hr]. by apply resolves_root.
Qed.

Lemma resolveCanonicalWork_up s i r :
  resolves (G s) i r -> resolveCanonicalWork i s = Ok r.
Proof.
  intros Hr. destruct (resolve_loop_up (graph_fuel s) s ∅ i r Hr) as [?|Hf]; [set_solver|done|].
  exfalso. by eapply resolveCanonicalWork_fuel.
Qed.

Lemma merge_group_loop_up fuel s group queue :
  (exists group', merge_group_loop fuel s group queue = Ok group') \/
  merge_group_loop fuel s group queue = OutOfFuel.
Proof.
  revert group queue. induction fuel as [|fuel IH]; intros group [|c rest]; simpl; eauto.
  unfold mbind, res_bind. destruct (find_merged_up s c) as [l ->]. apply IH.
Qed.

Lemma collectMergeGroup_up s root :
  is_root (G s) root -> exists group, collectMergeGroup root s = Ok group.
Proof.
  intros Hroot. pose proof (collectMergeGroup_spec s root Hroot) as Hspec.
  unfold collectMergeGroup, mbind, res_bind in *.
  destruct (find_up s root) as (w & Hf & _); [by exists None|]. rewrite Hf in *.
  destruct (merge_group_loop_up (graph_fuel s) s [w] [root]) as [?|E]; [done|].
  by rewrite E in Hspec.
Qed.

(** Every contained reference is a stored work. *)
Definition contains_closed (s : S) : Prop :=
  forall x l y, Cn s !! x = Some l -> y ∈ l -> is_Some (G s !! y).

Lemma closure_refs_up s l closure queue :
  merge_wf (G s) -> (forall y, y ∈ l -> is_Some (G s !! y)) ->
  exists c q, closure_refs s l closure queue = Ok (c, q).
Proof.
  intros Hwf. revert closure queue. induction l as [|y l IH]; intros closure queue Hl; simpl; [eauto|].
  destruct (resolves_total _ y Hwf) as [r Hr]; [apply Hl; by left|].
  unfold mbind, res_bind. rewrite (resolveCanonicalWork_up _ _ _ Hr).
  destruct (decide _); apply IH; intros z Hz; apply Hl; by right.
Qed.

Lemma closure_group_up s group closure queue :
  merge_wf (G s) -> (forall w y, w ∈ group -> y ∈ w_contains w -> is_Some (G s !! y)) ->
  exists c q, closure_group s group closure queue = Ok (c, q).
Proof.
  intros Hwf. revert closure queue.
  induction group as [|w group IH]; intros closure queue Hg; simpl; [eauto|].
  unfold mbind at 1, res_bind at 1.
  destruct (closure_refs_up s (w_contains w) closure queue Hwf) as (c & q & ->).
  { intros y Hy. eapply Hg; [by left | done]. }
  apply IH. intros v y Hv Hy. eapply Hg; [by right | done].
Qed.

Lemma closure_loop_up fuel s start closure V Q :
  merge_wf (G s) -> contains_closed s -> closure_inv s start closure V Q ->
  (exists c, closure_loop fuel s closure V Q = Ok c) \/ closure_loop fuel s closure V Q = OutOfFuel.
Proof.
  intros Hwf Hcl. revert closure V Q.
  induction fuel as [|fuel IH]; intros closure V [|c Q] Hinv; simpl; eauto.
  destruct (decide (c ∈ V)) as [Hc|Hc]; [apply IH; by eapply closure_inv_skip|].
  assert (Hroot : is_root (G s) c).
  { eapply closure_inv_root; [done|]. eapply ci_queue; [done | by left]. }
  pose proof (collectMergeGroup_spec s c Hroot) as Hg.
  destruct (collectMergeGroup_up s c Hroot) as [group E]. unfold mbind, res_bind.
  rewrite E in *. destruct Hg as [Hnd Hg].
  destruct (closure_group_up s group closure Q Hwf) as (c' & q' & E').
  { intros w y [Hv _]%Hg Hy. eapply (Hcl (w_id w)); [|exact Hy].
    unfold containments. by rewrite lookup_fmap, Hv. }
  pose proof (closure_group_spec s group closure Q) as Hcg. rewrite E' in *.
  destruct Hcg as (new & He & Hd). pose proof He as (-> & _). apply IH.
  eapply closure_inv_expand; [done..|]. intros d. rewrite Hd, group_edges; [done|by split].
Qed.

Lemma containsClosure_up s start r :
  merge_wf (G s) -> contains_closed s -> resolves (G s) start r ->
  exists c, containsClosure start s = Ok c /\
    forall d, d ∈ c <-> tc (cedge (G s) (Cn s)) r d.
Proof.
  intros Hwf Hcl Hr. pose proof (containsClosure_spec s start) as Hspec.
  unfold containsClosure, mbind, res_bind in *.
  rewrite (resolveCanonicalWork_up _ _ _ Hr) in *.
  assert (Hinv : closure_inv s r ∅ ∅ [r]).
  { split; [apply Hr|set_solver|set_solver|set_solver|set_solver]. }
  destruct (closure_loop_up (graph_fuel s) s r ∅ ∅ [r] Hwf Hcl Hinv) as [[c E]|E];
    rewrite E in *; [|done].
  exists c. split; [done|]. destruct Hspec as (r' & Hr' & Hd).
  by rewrite (resolves_det _ _ _ _ Hr' Hr) in Hd.
Qed.

Lemma sourceReachable_up s a b :
  merge_wf (G s) -> is_Some (G s !! b) ->
  exists r, sourceReachableFromTarget a b s = Ok r /\ (r = true <-> rtc (parent (G s)) b a).
Proof.
  intros Hwf Hb.
  destruct (reachable_loop_up (work_next s) (G s) (graph_fuel s) a ∅ b Hwf) as [[r Hr]|Hf].
  - intros i o Ho. destruct (find_up s i) as (w & Hf & Hw); [by eexists|].
    unfold work_next, mbind, res_bind. rewrite Hf. rewrite Ho in Hw. by injection Hw as ->.
  - done.
  - exists r. split; [done|]. by eapply sourceReachable_spec.
  - exfalso. by eapply sourceReachable_fuel.
Qed.
End complete.

(** ** Histories

    One successful call of a service.  A merge is [safe] when the source's
    canonical work does not contain the target's: the half of the
    self-containment check that [wouldCreateSelfContainment] leaves out. *)
Section histories.
Context {S : Type} `{WorkRepository S}.

Definition safe_merge (s : S) (source target : WorkID) : Prop :=
  forall rs rt, resolves (merges (works_view s)) source rs ->
    resolves (merges (works_view s)) target rt ->
    ~ tc (cedge (merges (works_view s)) (containments (works_view s))) rs rt.

Inductive graph_step : S -> S -> Prop :=
| step_merge source target at_ s ev s' :
    safe_merge s source target ->
    RecordMerge source target at_ s = (Ok ev, s') -> graph_step s s'
| step_undo source at_ s ev s' :
    UndoMerge source at_ s = (Ok ev, s') -> graph_step s s'
| step_add container containee at_ s ev s' :
    AddContains container containee at_ s = (Ok ev, s') -> graph_step s s'
| step_remove container containee at_ s ev s' :
    RemoveContains container containee at_ s = (Ok ev, s') -> graph_step s s'.
End histories.

(** Edges of the merged graph, from edges of the old one. *)
Lemma cedge_record_fwd g c s t rt a b :
  merge_wf g -> is_root g s -> resolves g t rt -> ~ rtc (parent g) t s ->
  cedge g c a b ->
  cedge (<[s := Some t]> g) c (if decide (a = s) then rt else a) (if decide (b = s) then rt else b).
Proof.
  intros Hwf Hs Ht Hts (x & l & y & Hx & Hl & Hy & Hb).
  assert (Hmap : forall x r, resolves g x r ->
            resolves (<[s := Some t]> g) x (if decide (r = s) then rt else r)).
  { intros z r Hz. apply resolves_record; [done|done|]. destruct (decide (r = s)) as [->|Hne].
    - right. split; [apply Hz | done].
    - left. split; [|done]. intros Hzs. apply Hne.
      destruct (resolves_rtc _ _ _ _ Hzs Hz) as [Hsr _]. by eapply root_rtc. }
  exists x, l, y. split; [by apply Hmap|]. split; [done|]. split; [done|]. by apply Hmap.
Qed.

Lemma tc_cedge_record_fwd g c s t rt a b :
  merge_wf g -> is_root g s -> resolves g t rt -> ~ rtc (parent g) t s ->
  tc (cedge g c) a b ->
  tc (cedge (<[s := Some t]> g) c)
     (if decide (a = s) then rt else a) (if decide (b = s) then rt else b).
Proof.
  intros Hwf Hs Ht Hts. induction 1 as [a b Hab|a b d Hab _ IH].
  - constructor. by apply cedge_record_fwd.
  - eapply tc_l; [by apply cedge_record_fwd | exact IH].
Qed.

(** The elements a union field collects. *)
Lemma dedup_append_elem {A} `{EqDecision A} (acc l : list A) x :
  x ∈ dedup_append acc l <-> x ∈ acc \/ x ∈ l.
Proof.
  revert acc. induction l as [|y l IH]; intros acc; simpl.
  { split; [by left|]. intros [?|Hx]; [done|by apply elem_of_nil in Hx]. }
  rewrite elem_of_cons. destruct (decide (y ∈ acc)); rewrite IH.
  - naive_solver.
  - rewrite elem_of_app, list_elem_of_singleton. naive_solver.
Qed.

Lemma dedup_append_NoDup {A} `{EqDecision A} (acc l : list A) :
  NoDup acc -> NoDup (dedup_append acc l).
Proof.
  revert acc. induction l as [|y l IH]; intros acc Hacc; simpl; [done|].
  destruct (decide (y ∈ acc)); apply IH; [done|].
  apply NoDup_app. split; [done|]. split; [|apply NoDup_singleton].
  by intros x Hx ->%list_elem_of_singleton.
Qed.

Lemma union_field_spec {A} `{EqDecision A} (field : Work -> list A) group :
  NoDup (union_field field group) /\
  forall x, x ∈ union_field field group <-> exists w, w ∈ group /\ x ∈ field w.
Proof.
  unfold union_field.
  assert (Hgen : forall acc, NoDup acc ->
    NoDup (fold_left (fun acc w => dedup_append acc (field w)) group acc) /\
    forall x, x ∈ fold_left (fun acc w => dedup_append acc (field w)) group acc <->
      x ∈ acc \/ exists w, w ∈ group /\ x ∈ field w).
  { induction group as [|w group IH]; intros acc Hacc; simpl.
    - split; [done|]. intros x. split; [by left|].
      intros [?|(w & Hw & _)]; [done|by apply elem_of_nil in Hw].
    - destruct (IH (dedup_append acc (field w))) as [H1 H2]; [by apply dedup_append_NoDup|].
      split; [done|]. intros x. rewrite H2, dedup_append_elem. setoid_rewrite elem_of_cons.
      naive_solver. }
  destruct (Hgen [] (NoDup_nil_2)) as [H1 H2]. split; [done|]. intros x. rewrite H2.
  split; [|by right]. intros [Hx|?]; [by apply elem_of_nil in Hx | done].
Qed.

Lemma any_entry_spec (entryOf : EditionID -> Result LibraryEntry) es b :
  any_entry entryOf es = Ok b ->
  (b = true <-> exists e, e ∈ es /\ is_ok (entryOf (e_id e)) = true).
Proof.
  induction es as [|e es IH]; simpl.
  { intros [= <-]. split; [done|]. intros (e & He & _). by apply elem_of_nil in He. }
  setoid_rewrite elem_of_cons. destruct (entryOf (e_id e)) as [le|err|] eqn:E; [| |done].
  - intros [= <-]. split; [|done]. intros _. exists e. rewrite E. auto.
  - destruct (bool_decide _); [|done]. intros Hb%IH. rewrite Hb. split.
    + intros (e' & ? & ?). exists e'. auto.
    + intros (e' & [->|?] & He'); [by rewrite E in He' | by exists e'].
Qed.

Lemma any_owned_spec (editionsOf : WorkID -> Result (list Edition)) entryOf group b :
  any_owned editionsOf entryOf group = Ok b ->
  (b = true <-> exists w es e, w ∈ group /\ editionsOf (w_id w) = Ok es /\ e ∈ es /\
                  is_ok (entryOf (e_id e)) = true).
Proof.
  induction group as [|w group IH]; simpl.
  { intros [= <-]. split; [done|]. intros (w & ? & ? & Hw & _). by apply elem_of_nil in Hw. }
  unfold mbind, res_bind. destruct (editionsOf (w_id w)) as [es| |] eqn:Hes; [|done..].
  destruct (any_entry entryOf es) as [found| |] eqn:Hf; [|done..].
  apply any_entry_spec in Hf. setoid_rewrite elem_of_cons. destruct found.
  - intros [= <-]. split; [|done]. intros _. destruct (proj1 Hf eq_refl) as (e & ? & ?).
    exists w, es, e. auto.
  - intros Hb%IH. rewrite Hb. split.
    + intros (v & es' & e & ? & ?). exists v, es', e. auto.
    + intros (v & es' & e & [->|?] & He & Hin & Hok); [|by exists v, es', e].
      rewrite Hes in He. injection He as <-. exfalso.
      assert (false = true) by (apply Hf; by exists e). done.
Qed.

(** A concrete catalogue: [b] and [c] are merged into [a], and [o], an
    omnibus, contains [b]. *)
Definition demo_work (id : WorkID) (into : option WorkID) (cont : list WorkID) : Work :=
  mkWork id "Dune" "" [id +:+ "-author"] [] None [] into cont.
Definition demo_log : work_log :=
  [demo_work "a" None []; demo_work "b" (Some "a") []; demo_work "c" (Some "b") [];
   demo_work "o" None ["b"]].

Lemma lookup_list_to_map_cons {A} (k i : string) (x y : A) (l : list (string * A)) :
  (list_to_map ((k, x) :: l) : gmap string A) !! i = Some y ->
  (i = k /\ y = x) \/ (list_to_map l : gmap string A) !! i = Some y.
Proof.
  simpl. intros [[<- <-]|[_ H]]%lookup_insert_Some; auto.
Qed.

(** Well-formedness of a concrete log is a finite check: every merge chain
    is followed by [resolveCanonicalWork] without an error. *)
Definition log_wf_check (l : work_log) : bool :=
  forallb (fun i => is_ok (resolveCanonicalWork i l)) (elements (dom (log_view l))).

Lemma log_wf_check_ok (l : work_log) :
  log_wf_check l = true -> merge_wf (merges (works_view l)).
Proof.
  unfold log_wf_check. rewrite forallb_forall. intros Hall.
  assert (Hres : forall i, is_Some (merges (works_view l) !! i) ->
            exists r, resolves (merges (works_view l)) i r).
  { intros i Hi%merges_lookup. specialize (Hall i).
    rewrite <- list_elem_of_In, elem_of_elements, elem_of_dom in Hall. specialize (Hall Hi).
    destruct (resolveCanonicalWork i l) as [r| |] eqn:E; [|done..].
    exists r. by apply resolveCanonicalWork_ok. }
  split.
  - intros x Hx. assert (Hsx : is_Some (merges (works_view l) !! x)).
    { inversion Hx; subst; by eexists. }
    destruct (Hres x Hsx) as [r Hr]. by apply (resolves_not_cyclic _ _ _ Hr).
  - intros x y Hxy. destruct (Hres x) as [r Hr]; [by eexists|].
    eapply resolves_lookup. by eapply resolves_inv.
Qed.

(** Likewise for containment: no work is in its own closure. *)
Definition log_contains_check (l : work_log) : bool :=
  forallb (fun i => match containsClosure i l with
                    | Ok c => negb (bool_decide (i ∈ c))
                    | _ => false
                    end) (elements (dom (log_view l))).

Lemma log_contains_check_ok (l : work_log) :
  log_contains_check l = true ->
  contains_acyclic (merges (works_view l)) (containments (works_view l)).
Proof.
  unfold log_contains_check. rewrite forallb_forall. intros Hall a Ha.
  assert (Hroot : is_root (merges (works_view l)) a).
  { inversion Ha as [? ? He|? ? ? He _]; subst; by apply cedge_roots in He as [? _]. }
  specialize (Hall a). rewrite <- list_elem_of_In, elem_of_elements, elem_of_dom in Hall.
  specialize (Hall (proj1 (merges_lookup l a) (ex_intro _ None Hroot))).
  pose proof (containsClosure_spec l a) as Hspec.
  destruct (containsClosure a l) as [c| |]; [|done..].
  destruct Hspec as (r & Hr & Hc). rewrite <- (resolves_det _ _ _ _ (resolves_root _ _ Hroot) Hr) in Hc.
  apply negb_true_iff, bool_decide_eq_false in Hall. by apply Hall, Hc.
Qed.

(** ** The properties *)

Section properties.
Context {S : Type} `{WorkRepositoryLaws S}.

Abbreviation G s := (merges (works_view s)).
Abbreviation Cn s := (containments (works_view s)).

(** C23: [resolveCanonicalWork] terminates on every table, cyclic data
    included, and on a store that answers it returns [r] exactly when [r] is
    the end of the work's merge chain; a canonical work resolves to itself. *)
Theorem resolveCanonicalWork_correct `{!WorkRepositoryUp S} (s : S) i :
  resolveCanonicalWork i s <> OutOfFuel /\
  (forall r, resolveCanonicalWork i s = Ok r <-> resolves (G s) i r) /\
  (forall r, resolveCanonicalWork i s = Ok r -> resolveCanonicalWork r s = Ok r).
Proof.
  split; [apply resolveCanonicalWork_fuel|]. split.
  - intros r. split; [apply resolveCanonicalWork_ok | apply resolveCanonicalWork_up].
  - intros r [_ Hr]%resolveCanonicalWork_ok. by apply resolveCanonicalWork_up, resolves_root.
Qed.

(** [collectMergeGroup] has no visited set, yet from a canonical work it
    terminates and returns each work of the merge group, that is, each work
    whose chain ends in the canonical one, exactly once. *)
Theorem collectMergeGroup_correct `{!WorkRepositoryUp S} (s : S) root :
  is_root (G s) root ->
  exists group, collectMergeGroup root s = Ok group /\ NoDup (w_id <$> group) /\
    forall w, w ∈ group <-> works_view s !! w_id w = Some w /\ resolves (G s) (w_id w) root.
Proof.
  intros Hroot. destruct (collectMergeGroup_up s root Hroot) as [group E].
  exists group. split; [done|]. pose proof (collectMergeGroup_spec s root Hroot) as Hg.
  by rewrite E in Hg.
Qed.

(** C22: [containsClosure] terminates on every table, cyclic ones and those with
    dangling references included, and what it returns is the transitive
    closure of containment read through merges: the canonical works reached
    from the start's canonical work by one containment or more, every reference
    of every work of every merge group followed.  It does return it, not an
    error, when the repository's reads do not fail, merges are acyclic and
    refer to stored works, every contained work is stored and the start
    resolves. *)
Theorem containsClosure_correct (s : S) start :
  containsClosure start s <> OutOfFuel /\
  (forall closure, containsClosure start s = Ok closure ->
     exists r, resolves (G s) start r /\ forall d, d ∈ closure <-> tc (cedge (G s) (Cn s)) r d) /\
  (forall r, WorkRepositoryUp S -> merge_wf (G s) -> contains_closed s -> resolves (G s) start r ->
     exists closure, containsClosure start s = Ok closure).
Proof.
  pose proof (containsClosure_spec s start) as Hspec. split_and!.
  - by destruct (containsClosure start s).
  - intros closure E. by rewrite E in Hspec.
  - intros r Hup Hwf Hcl Hr. destruct (containsClosure_up s start r Hwf Hcl Hr) as (c & Hc & _). by exists c.
Qed.

(** [RecordMerge] on existing works of a well-formed catalogue decides:
    it answers Conflict, writing nothing, when the source is already
    reachable from the target or is contained by it, and otherwise it writes
    exactly the source's merge reference; every work that resolved through
    the source then resolves to the target's canonical work, every other
    work is where it was, and merges are still acyclic. *)
Theorem RecordMerge_outcome `{!WorkRepositoryUp S} (s : S) source target at_ w rs rt :
  merge_wf (G s) -> contains_closed s -> works_view s !! source = Some w ->
  resolves (G s) source rs -> resolves (G s) target rt ->
  let out := RecordMerge source target at_ s in
  (rtc (parent (G s)) target source ->
     out = (fails Conflict "recording this merge would create a cycle", s)) /\
  (~ rtc (parent (G s)) target source -> tc (cedge (G s) (Cn s)) rt rs ->
     out = (fails Conflict
              "recording this merge would make a Work's resolved containment reach itself", s)) /\
  (~ rtc (parent (G s)) target source -> ~ tc (cedge (G s) (Cn s)) rt rs ->
     exists s', out = (Ok (newPublic WorkMerged source at_), s') /\
       works_view s' = <[source := set_mergedInto (Some target) w]> (works_view s) /\
       merge_wf (G s') /\
       forall x r, resolves (G s') x r <->
         (~ rtc (parent (G s)) x source /\ resolves (G s) x r) \/
         (rtc (parent (G s)) x source /\ r = rt)).
Proof.
  intros Hwf Hcl Hw Hrs Hrt out.
  destruct (sourceReachable_up s source target Hwf) as (reach & Hreach & Hspec);
    [by eapply resolves_lookup|].
  assert (Hself : exists b, wouldCreateSelfContainment source target s = Ok b /\
            (b = true <-> tc (cedge (G s) (Cn s)) rt rs)).
  { destruct (containsClosure_up s rt rt Hwf Hcl) as (c & Hc & Hd); [by apply resolves_root; apply Hrt|].
    unfold wouldCreateSelfContainment, mbind, res_bind.
    rewrite (resolveCanonicalWork_up _ _ _ Hrt), (resolveCanonicalWork_up _ _ _ Hrs), Hc.
    eexists. split; [done|]. by rewrite bool_decide_eq_true. }
  destruct Hself as (self & Hself & Hsspec).
  assert (Hout : out = if reach then
      (fails Conflict "recording this merge would create a cycle", s)
    else if self then
      (fails Conflict "recording this merge would make a Work's resolved containment reach itself", s)
    else (_ ← writing (SaveWork (set_mergedInto (Some target) w));
          mret (newPublic WorkMerged source at_)) s).
  { unfold out, RecordMerge, mbind, stM_bind, reading. rewrite Hreach.
    destruct reach; [done|]. rewrite Hself. destruct self; [done|].
    by rewrite (find_work_up s source w Hw). }
  split; [|split].
  - intros Hr%Hspec. rewrite Hout, Hr. done.
  - intros Hr Ht%Hsspec. rewrite Hout, Ht. destruct reach; [|done].
    exfalso. by apply Hr, Hspec.
  - intros Hr Ht. destruct reach; [exfalso; by apply Hr, Hspec|].
    destruct self; [exfalso; by apply Ht, Hsspec|].
    destruct (save_work_up s (set_mergedInto (Some target) w)) as [s' Hs'].
    exists s'. assert (Hrun : out = (Ok (newPublic WorkMerged source at_), s')).
    { rewrite Hout. unfold mbind, stM_bind, writing. by rewrite Hs'. }
    destruct (save_merge_view s source w (Some target) s') as (Hv & Hg & _);
      [by apply find_work_up|done|].
    split; [done|]. split; [done|]. split; [by eapply RecordMerge_wf|].
    intros x r. rewrite Hg, resolves_record by done.
    split; (intros [?|[? Hx]]; [by left|right; split; [done|]]).
    + by eapply resolves_det.
    + by subst.
Qed.

(** [AddContains] on existing works of a well-formed catalogue answers
    Conflict, writing nothing, exactly when the new reference would close a
    containment cycle through merges (the two are the same canonical work, or
    the containee already contains the container), and otherwise appends the
    reference to the container's own list. *)
Theorem AddContains_outcome `{!WorkRepositoryUp S} (s : S) container containee at_ w rc re :
  merge_wf (G s) -> contains_closed s -> works_view s !! container = Some w ->
  resolves (G s) container rc -> resolves (G s) containee re ->
  let out := AddContains container containee at_ s in
  (rtc (cedge (G s) (Cn s)) re rc -> out.2 = s /\ category out.1 = Some Conflict) /\
  (~ rtc (cedge (G s) (Cn s)) re rc ->
     exists s', out = (Ok (newPublic WorkContainsAdded container at_), s') /\
       works_view s' = <[container := set_contains (w_contains w ++ [containee]) w]> (works_view s)).
Proof.
  intros Hwf Hcl Hw Hrc Hre out.
  destruct (containsClosure_up s re re Hwf Hcl) as (c & Hc & Hd); [by apply resolves_root; apply Hre|].
  assert (Hout : out = if String.eqb rc re then (fails Conflict "a Work cannot contain itself", s)
    else if decide (rc ∈ c) then
      (fails Conflict "adding this containment reference would create a cycle", s)
    else (_ ← writing (SaveWork (set_contains (w_contains w ++ [containee]) w));
          mret (newPublic WorkContainsAdded container at_)) s).
  { unfold out, AddContains, mbind, stM_bind, reading.
    rewrite (resolveCanonicalWork_up _ _ _ Hrc), (resolveCanonicalWork_up _ _ _ Hre).
    destruct (String.eqb rc re); [done|]. rewrite Hc. destruct (decide _); [done|].
    by rewrite (find_work_up s container w Hw). }
  split.
  - intros [Heq|Htc]%rtc_tc; rewrite Hout.
    + rewrite Heq, String.eqb_refl. done.
    + destruct (String.eqb rc re); [done|]. apply Hd in Htc.
      destruct (decide _); done.
  - intros Hn. destruct (save_work_up s (set_contains (w_contains w ++ [containee]) w)) as [s' Hs'].
    exists s'. destruct (save_contains_view s container w (w_contains w ++ [containee]) s') as (Hv & _ & _);
      [by apply find_work_up|done|].
    split; [|done]. rewrite Hout. destruct (String.eqb_spec rc re) as [->|Hne].
    + exfalso. apply Hn. constructor.
    + destruct (decide (rc ∈ c)) as [Hin|_]; [exfalso; apply Hn; by apply tc_rtc, Hd|].
      unfold mbind, stM_bind, writing. by rewrite Hs'.
Qed.

(** C21: along any history of successful merges, undos, additions and removals
    of containments, in which no merge takes a source that already contains
    its target, the catalogue keeps both graph invariants: merges are
    acyclic with existing targets, and no canonical work transitively
    contains itself. *)
Theorem graph_history_ok (s s' : S) :
  graph_ok s -> rtc graph_step s s' -> graph_ok s'.
Proof.
  intros Hok Hsteps. induction Hsteps as [s|s s1 s' Hstep _ IH]; [done|]. apply IH.
  destruct Hstep as [source target at_ s ev s1 Hsafe Hrun|source at_ s ev s1 Hrun|
                     container containee at_ s ev s1 Hrun|container containee at_ s ev s1 Hrun].
  - destruct (RecordMerge_inv _ _ _ _ _ _ Hrun) as (w & rs & rt & _ & Hrs & Hrt & _).
    eapply RecordMerge_ok; [done|done|exact Hrs|exact Hrt|]. by apply Hsafe.
  - by eapply UndoMerge_ok.
  - by eapply AddContains_ok.
  - by eapply RemoveContains_ok.
Qed.

(** C24: undoing a merge is exactly reversing it: for a source that was not
    merged before, [UndoMerge] after [RecordMerge] leaves every work as it
    was before the merge. *)
Theorem UndoMerge_reverses_RecordMerge (s s1 s2 : S) source target at1 at2 e1 e2 w :
  works_view s !! source = Some w -> w_mergedInto w = None ->
  RecordMerge source target at1 s = (Ok e1, s1) ->
  UndoMerge source at2 s1 = (Ok e2, s2) ->
  works_view s2 = works_view s.
Proof.
  intros Hw Hnone (v & _ & _ & Hf & _ & _ & _ & _ & _ & Hv & _)%RecordMerge_inv
    (u & Hu & _ & Hv2 & _)%UndoMerge_inv.
  apply find_work_ok in Hf. rewrite Hw in Hf. injection Hf as <-.
  apply find_work_ok in Hu. rewrite Hv, lookup_insert_eq in Hu. injection Hu as <-.
  rewrite Hv2, Hv, insert_insert_eq. apply insert_id. rewrite Hw. f_equal.
  destruct w. simpl in *. by subst.
Qed.

(** What [wouldCreateSelfContainment] misses.  It looks for the source in
    the target's closure only.  For an unmerged source a successful merge
    keeps containment acyclic exactly when the source did not contain the
    target: a merge of an omnibus into one of its own parts is recorded, and
    the merged work then contains itself. *)
Theorem RecordMerge_self_containment (s s' : S) source target at_ ev rt :
  graph_ok s -> is_root (G s) source -> resolves (G s) target rt ->
  RecordMerge source target at_ s = (Ok ev, s') ->
  (contains_acyclic (G s') (Cn s') <-> ~ tc (cedge (G s) (Cn s)) source rt).
Proof.
  intros Hok Hroot Hrt Hrun. split.
  - intros Hac Htc. destruct Hok as [Hwf _].
    destruct (RecordMerge_wf _ _ _ _ _ _ Hwf Hrun) as [_ Hts].
    destruct (RecordMerge_inv _ _ _ _ _ _ Hrun) as (w & rs & rt' & _ & _ & _ & _ & _ & _ & _ & Hg & Hc).
    rewrite Hg, Hc in Hac.
    pose proof (tc_cedge_record_fwd _ _ _ _ _ _ _ Hwf Hroot Hrt Hts Htc) as Hcyc.
    rewrite decide_True in Hcyc by done. rewrite decide_False in Hcyc; [by eapply Hac|].
    intros ->. apply Hts. apply Hrt.
  - intros Hn. eapply RecordMerge_ok; [done|done|by apply resolves_root|done|done].
Qed.

(** [ResolveWork] answers with the union over the merge group: each
    author, subject, external reference and containment of any work of the
    group listed exactly once and nothing else, and the scalar fields those
    of the canonical work alone. *)
Theorem ResolveWork_union (s : S) i rw :
  ResolveWork i s = Ok rw ->
  resolves (G s) i (CanonicalID rw) /\
  (exists w, works_view s !! CanonicalID rw = Some w /\ Title rw = w_title w /\
     Subtitle rw = w_subtitle w /\ OriginalLanguage rw = w_originalLanguage w) /\
  (NoDup (Authors rw) /\ NoDup (Subjects rw) /\ NoDup (ExternalReferences rw) /\
   NoDup (Contains rw)) /\
  let member w := works_view s !! w_id w = Some w /\ resolves (G s) (w_id w) (CanonicalID rw) in
  (forall a, a ∈ Authors rw <-> exists w, member w /\ a ∈ w_authors w) /\
  (forall a, a ∈ Subjects rw <-> exists w, member w /\ a ∈ w_subjects w) /\
  (forall a, a ∈ ExternalReferences rw <-> exists w, member w /\ a ∈ w_externalReferences w) /\
  (forall a, a ∈ Contains rw <-> exists w, member w /\ a ∈ w_contains w).
Proof.
  unfold ResolveWork. unfold mbind, res_bind.
  destruct (resolveCanonicalWork i s) as [c| |] eqn:Hc; [|done..].
  apply resolveCanonicalWork_ok in Hc.
  destruct (FindWork c s) as [cw| |] eqn:Hf; [|done..].
  pose proof (collectMergeGroup_spec s c (proj2 Hc)) as Hg.
  destruct (collectMergeGroup c s) as [group| |]; [|done..].
  destruct Hg as [_ Hg]. intros [= <-]. cbn [CanonicalID Title Subtitle OriginalLanguage
    Authors Subjects ExternalReferences Contains].
  split; [done|]. split; [exists cw; by apply find_work_ok in Hf|].
  split; [conjuncts; apply union_field_spec|].
  setoid_rewrite <- Hg. conjuncts; apply union_field_spec.
Qed.

(** When [IsInLibrary] answers, it answers [true] exactly when some
    edition of some work of the merge group has a library entry. *)
Theorem IsInLibrary_correct (s : S) editionsOf entryOf i r b :
  resolves (G s) i r ->
  IsInLibrary editionsOf entryOf i s = Ok b ->
  (b = true <-> exists w es e,
     works_view s !! w_id w = Some w /\ resolves (G s) (w_id w) r /\
     editionsOf (w_id w) = Ok es /\ e ∈ es /\ is_ok (entryOf (e_id e)) = true).
Proof.
  intros Hr. unfold IsInLibrary, mbind, res_bind.
  destruct (resolveCanonicalWork i s) as [c| |] eqn:Hc; [|done..].
  apply resolveCanonicalWork_ok in Hc. rewrite (resolves_det _ _ _ _ Hr Hc) in *.
  pose proof (collectMergeGroup_spec s c (proj2 Hc)) as Hg.
  destruct (collectMergeGroup c s) as [group| |]; [|done..].
  destruct Hg as [_ Hg]. intros Hb%any_owned_spec. rewrite Hb. setoid_rewrite Hg.
  split; intros (w & es & e & ?); exists w, es, e; tauto.
Qed.
End properties.

(** ** The properties at work on the demonstration catalogue *)

Lemma demo_merges : merge_wf (merges (works_view demo_log)).
Proof. apply log_wf_check_ok. vm_compute. reflexivity. Qed.

Lemma demo_contains : contains_acyclic (merges (works_view demo_log)) (containments (works_view demo_log)).
Proof. apply log_contains_check_ok. vm_compute. reflexivity. Qed.

Definition log_closed_check (l : work_log) : bool :=
  forallb (fun w => forallb (fun y => bool_decide (is_Some (log_view l !! y))) (w_contains w)) l.

Lemma log_closed_check_ok (l : work_log) : log_closed_check l = true -> contains_closed l.
Proof.
  unfold log_closed_check. rewrite forallb_forall. intros Hall x k y Hx Hy.
  unfold containments in Hx. apply lookup_fmap_Some in Hx as (w & <- & Hw).
  apply merges_lookup. apply elem_of_list_to_map_2, list_elem_of_fmap in Hw as (v & [= -> ->] & Hv).
  specialize (Hall v). rewrite <- list_elem_of_In in Hall. specialize (Hall Hv).
  rewrite forallb_forall in Hall. specialize (Hall y). rewrite <- list_elem_of_In in Hall.
  by apply Hall, bool_decide_eq_true in Hy.
Qed.

Lemma demo_resolves i r :
  resolveCanonicalWork i demo_log = Ok r -> resolves (merges (works_view demo_log)) i r.
Proof. apply resolveCanonicalWork_ok. Qed.

Lemma resolveCanonicalWork_correct_witness :
  resolveCanonicalWork "c" demo_log = Ok "a" /\ resolveCanonicalWork "a" demo_log = Ok "a".
Proof.
  destruct (resolveCanonicalWork_correct demo_log "c") as (_ & _ & H).
  split; [vm_compute; reflexivity|]. apply H. vm_compute. reflexivity.
Defined.

Lemma collectMergeGroup_correct_witness :
  exists group, collectMergeGroup "a" demo_log = Ok group /\ NoDup (w_id <$> group) /\
    (w_id <$> group) = ["a"; "b"; "c"].
Proof.
  destruct (collectMergeGroup_correct demo_log "a") as (g & Hg & Hnd & _); [vm_compute; reflexivity|].
  exists g. split; [exact Hg|]. split; [exact Hnd|].
  vm_compute in Hg. injection Hg as <-. reflexivity.
Defined.

Lemma containsClosure_correct_witness :
  exists closure, containsClosure "o" demo_log = Ok closure /\ elements closure = ["a"] /\
    (forall d, d ∈ closure <->
       tc (cedge (merges (works_view demo_log)) (containments (works_view demo_log))) "o" d).
Proof.
  destruct (containsClosure_correct demo_log "o") as (_ & Hd & Hc).
  destruct (Hc "o") as [c E].
  - apply _.
  - exact demo_merges.
  - apply log_closed_check_ok. vm_compute. reflexivity.
  - apply demo_resolves. vm_compute. reflexivity.
  - exists c. split; [exact E|]. destruct (Hd c E) as (r & Hr & Hdr).
    assert (r = "o") as -> by (eapply resolves_det; [exact Hr|]; apply demo_resolves; vm_compute; reflexivity).
    split; [|exact Hdr]. vm_compute in E. injection E as <-. vm_compute. reflexivity.
Defined.

(** [c] is merged into [a] through [b]: merging [a] into [c] is a Conflict. *)
Lemma RecordMerge_outcome_witness :
  category (RecordMerge "a" "c" 7 demo_log).1 = Some Conflict /\
  (RecordMerge "a" "c" 7 demo_log).2 = demo_log.
Proof.
  destruct (RecordMerge_outcome demo_log "a" "c" 7 (demo_work "a" None []) "a" "a") as (H & _).
  - exact demo_merges.
  - apply log_closed_check_ok. vm_compute. reflexivity.
  - vm_compute. reflexivity.
  - apply demo_resolves. vm_compute. reflexivity.
  - apply demo_resolves. vm_compute. reflexivity.
  - rewrite H; [split; reflexivity|].
    eapply rtc_l; [|eapply rtc_l; [|apply rtc_refl]]; vm_compute; reflexivity.
Defined.

Lemma AddContains_outcome_witness :
  (AddContains "c" "o" 7 demo_log).2 = demo_log /\
  category (AddContains "c" "o" 7 demo_log).1 = Some Conflict.
Proof.
  destruct (AddContains_outcome demo_log "c" "o" 7 (demo_work "c" (Some "b") []) "a" "o") as (H & _).
  - exact demo_merges.
  - apply log_closed_check_ok. vm_compute. reflexivity.
  - vm_compute. reflexivity.
  - apply demo_resolves. vm_compute. reflexivity.
  - apply demo_resolves. vm_compute. reflexivity.
  - apply H. apply rtc_once. exists "o", ["b"], "b".
    split; [apply demo_resolves; vm_compute; reflexivity|].
    split; [vm_compute; reflexivity|]. split; [left|].
    apply demo_resolves. vm_compute. reflexivity.
Defined.

Definition demo_log2 : work_log :=
  [demo_work "a" None []; demo_work "b" None []; demo_work "o" None ["b"]].

Lemma demo_log2_ok : graph_ok demo_log2.
Proof.
  split; [apply log_wf_check_ok | apply log_contains_check_ok]; vm_compute; reflexivity.
Qed.

Lemma graph_history_ok_witness :
  exists l, graph_ok (l : work_log) /\ (w_contains <$> works_view l !! "a") = Some ["o"].
Proof.
  destruct (AddContains "a" "o" 1 demo_log2) as [[e| |] l] eqn:E; [|vm_compute in E; discriminate E..].
  exists l. split.
  - apply (graph_history_ok demo_log2 l demo_log2_ok). apply rtc_once.
    eapply step_add. exact E.
  - vm_compute in E. injection E as <- <-. vm_compute. reflexivity.
Defined.

Lemma UndoMerge_reverses_RecordMerge_witness :
  exists l2, works_view (l2 : work_log) = works_view demo_log2 /\ length l2 = 5%nat.
Proof.
  destruct (RecordMerge "b" "a" 1 demo_log2) as [[e1| |] l1] eqn:E1; [|vm_compute in E1; discriminate E1..].
  destruct (UndoMerge "b" 2 l1) as [[e2| |] l2] eqn:E2;
    [|vm_compute in E1; injection E1 as <- <-; vm_compute in E2; discriminate E2..].
  exists l2. split.
  - apply (UndoMerge_reverses_RecordMerge demo_log2 l1 l2 "b" "a" 1 2 e1 e2 (demo_work "b" None []));
      [vm_compute; reflexivity | reflexivity | exact E1 | exact E2].
  - vm_compute in E1. injection E1 as <- <-. vm_compute in E2. injection E2 as <- <-. reflexivity.
Defined.

(** The omnibus [o] contains [b]; merging [o] into [b] is accepted. *)
Lemma RecordMerge_self_containment_witness :
  exists ev l, RecordMerge "o" "b" 1 demo_log2 = (Ok ev, l) /\ graph_ok demo_log2 /\
    ~ contains_acyclic (merges (works_view l)) (containments (works_view l)).
Proof.
  destruct (RecordMerge "o" "b" 1 demo_log2) as [[e| |] l] eqn:E; [|vm_compute in E; discriminate E..].
  exists e, l. split; [reflexivity|]. split; [exact demo_log2_ok|].
  intros Hac. revert Hac.
  assert (Hb : resolves (merges (works_view demo_log2)) "b" "b").
  { apply resolveCanonicalWork_ok. vm_compute. reflexivity. }
  assert (Ho : resolves (merges (works_view demo_log2)) "o" "o").
  { apply resolveCanonicalWork_ok. vm_compute. reflexivity. }
  intros Hac.
  apply (RecordMerge_self_containment demo_log2 l "o" "b" 1 e "b" demo_log2_ok (proj2 Ho) Hb E) in Hac.
  apply Hac. constructor. exists "o", ["b"], "b".
  split; [exact Ho|]. split; [vm_compute; reflexivity|]. split; [left | exact Hb].
Defined.

Lemma ResolveWork_union_witness :
  exists rw, ResolveWork "c" demo_log = Ok rw /\
    resolves (merges (works_view demo_log)) "c" (CanonicalID rw) /\
    Authors rw = ["a-author"; "b-author"; "c-author"].
Proof.
  destruct (ResolveWork "c" demo_log) as [rw| |] eqn:E; [|vm_compute in E; discriminate E..].
  exists rw. split; [reflexivity|].
  destruct (ResolveWork_union demo_log "c" rw E) as (H & _). split; [exact H|].
  vm_compute in E. injection E as <-. reflexivity.
Defined.

Definition demo_editions (i : WorkID) : Result (list Edition) :=
  if String.eqb i "b" then Ok [mkEdition "e1" "b" (mkLanguage "en") None "" None []] else Ok [].
Definition demo_entries (i : EditionID) : Result LibraryEntry :=
  if String.eqb i "e1" then Ok (mkLibraryEntry "l1" "e1" 0) else fails NotFound "no entry".

Lemma IsInLibrary_correct_witness :
  IsInLibrary demo_editions demo_entries "c" demo_log = Ok true /\
  exists w es e, works_view demo_log !! w_id w = Some w /\
    resolves (merges (works_view demo_log)) (w_id w) "a" /\
    demo_editions (w_id w) = Ok es /\ e ∈ es /\ is_ok (demo_entries (e_id e)) = true.
Proof.
  assert (E : IsInLibrary demo_editions demo_entries "c" demo_log = Ok true) by (vm_compute; reflexivity).
  split; [exact E|].
  apply (IsInLibrary_correct demo_log demo_editions demo_entries "c" "a" true); [|exact E|reflexivity].
  apply demo_resolves. vm_compute. reflexivity.
Defined.
