(* ===== verification/Services.v ===== *)
(** * The small services (src/internal/domain/author_merge_service.go,
      library_service.go, source_removal_service.go)

    Author merges, the library's add and remove of an edition, and the atomic
    removal of a source with its offerings, each against the interface of the
    repositories it holds. *)

From S2P Require Import Prelude Errors Validate Catalog MergeGraph Transactor.

Local Open Scope string_scope.
Local Open Scope list_scope.

(** ** Author merges *)

Class AuthorRepository (S : Type) := {
  authors_view : S -> gmap AuthorID Author;
  FindAuthor : AuthorID -> S -> Result Author;
  SaveAuthor : Author -> S -> Result S;
}.

Class AuthorRepositoryLaws (S : Type) `{AuthorRepository S} := {
  authors_keyed s i a : authors_view s !! i = Some a -> a_id a = i;
  find_author_ok s i a : FindAuthor i s = Ok a -> authors_view s !! i = Some a;
  save_author_ok s a s' :
    SaveAuthor a s = Ok s' -> authors_view s' = <[a_id a := a]> (authors_view s);
  find_author_fuel s i : FindAuthor i s <> OutOfFuel;
}.

Section author_service.
Context {S : Type} `{AuthorRepository S}.

Definition author_next (s : S) (i : AuthorID) : Result (option AuthorID) :=
  a ← FindAuthor i s;
  mret (a_mergedInto a).

Definition authorReachableFromTarget (source target : AuthorID) (s : S) : Result bool :=
  reachable_loop (author_next s) (2 + size (authors_view s)) source ∅ target.

Definition RecordAuthorMerge (source target : AuthorID) (occurredAt : Time)
    : stM S error PublicEvent :=
  reachable ← reading (authorReachableFromTarget source target);
  if (reachable : bool) then
    throw (mkErr Conflict "recording this merge would create a cycle")
  else
    sourceAuthor ← reading (FindAuthor source);
    _ ← writing (SaveAuthor (set_author_mergedInto (Some target) sourceAuthor));
    mret (newPublic AuthorMerged source occurredAt).

Definition UndoAuthorMerge (source : AuthorID) (occurredAt : Time) : stM S error PublicEvent :=
  sourceAuthor ← reading (FindAuthor source);
  _ ← writing (SaveAuthor (set_author_mergedInto None sourceAuthor));
  mret (newPublic AuthorMergeUndone source occurredAt).
End author_service.

Definition author_merges (m : gmap AuthorID Author) : merge_graph := a_mergedInto <$> m.

(** Authors in memory: a log of saved rows, newest first. *)
Abbreviation author_log := (list Author) (only parsing).
Definition author_log_view (l : author_log) : gmap AuthorID Author :=
  list_to_map ((fun a => (a_id a, a)) <$> l).

#[export] Instance log_authors : AuthorRepository author_log := {
  authors_view := author_log_view;
  FindAuthor i l := match author_log_view l !! i with
                    | Some a => Ok a
                    | None => fails NotFound "author not found"
                    end;
  SaveAuthor a l := Ok (a :: l);
}.

(** ** The library (library_service.go) *)

Class LibraryEntryRepository (S : Type) := {
  entries_view : S -> gmap EditionID LibraryEntry;
  FindByEdition : EditionID -> S -> Result LibraryEntry;
  SaveEntry : LibraryEntry -> S -> Result S;
  DeleteByEdition : EditionID -> S -> Result S;
}.

(** Entries are keyed by edition; a save of an edition that has one already
    is refused. *)
Class LibraryEntryRepositoryLaws (S : Type) `{LibraryEntryRepository S} := {
  find_entry_ok s i e : FindByEdition i s = Ok e -> entries_view s !! i = Some e;
  find_entry_none s i err : FindByEdition i s = Err err -> CategoryOf err = NotFound ->
    entries_view s !! i = None;
  find_entry_some s i e : entries_view s !! i = Some e -> FindByEdition i s = Ok e;
  save_entry_ok s e s' : SaveEntry e s = Ok s' ->
    entries_view s !! le_editionID e = None /\
    entries_view s' = <[le_editionID e := e]> (entries_view s);
  delete_entry_ok s i s' : DeleteByEdition i s = Ok s' ->
    entries_view s' = delete i (entries_view s);
}.

Section library_service.
Context {S : Type} `{LibraryEntryRepository S}.
Variable findEdition : EditionID -> Result Edition.

Definition AddEntry (editionID : EditionID) (addedAt : Time)
    : stM S error (LibraryEntry * option SensitiveEvent) := fun s =>
  match findEdition editionID with
  | Err err => (Err err, s)
  | OutOfFuel => (OutOfFuel, s)
  | Ok _ =>
      match FindByEdition editionID s with
      | Ok existing => (Ok (existing, None), s)
      | OutOfFuel => (OutOfFuel, s)
      | Err err =>
          if negb (bool_decide (CategoryOf err = NotFound)) then (Err err, s)
          else
            let entryID := editionID in
            let entry := NewLibraryEntry entryID editionID addedAt in
            (_ ← writing (SaveEntry entry);
             mret (entry, Some (newSensitive LibraryEntryAdded entryID addedAt))) s
      end
  end.

Definition RemoveEntry (editionID : EditionID) (occurredAt : Time)
    : stM S error (option SensitiveEvent) := fun s =>
  match FindByEdition editionID s with
  | Err err => if bool_decide (CategoryOf err = NotFound) then (Ok None, s) else (Err err, s)
  | OutOfFuel => (OutOfFuel, s)
  | Ok existing =>
      (_ ← writing (DeleteByEdition editionID);
       mret (Some (newSensitive LibraryEntryRemoved (le_id existing) occurredAt))) s
  end.
End library_service.

#[export] Instance map_entries : LibraryEntryRepository (gmap EditionID LibraryEntry) := {
  entries_view m := m;
  FindByEdition i m := match m !! i with
                       | Some e => Ok e
                       | None => fails NotFound "library entry not found"
                       end;
  SaveEntry e m := match m !! le_editionID e with
                   | Some _ => fails Conflict
                       "the requested change conflicts with an existing record"
                   | None => Ok (<[le_editionID e := e]> m)
                   end;
  DeleteByEdition i m := Ok (delete i m);
}.

(** ** Removing a source (source_removal_service.go) *)

Record source_store := mkSourceStore {
  ss_sources : gmap SourceID Source;
  ss_offerings : gmap SourceOfferingID SourceOffering;
}.

Class SourceRepositories (S : Type) := {
  source_view : S -> source_store;
  FindBySource : SourceID -> S -> Result (list SourceOffering);
  DeleteOffering : SourceOfferingID -> S -> Result S;
  DeleteSource : SourceID -> S -> Result S;
}.

Class SourceRepositoriesLaws (S : Type) `{SourceRepositories S} := {
  find_by_source_ok s i l : FindBySource i s = Ok l ->
    NoDup (o_id <$> l) /\
    forall o, o ∈ l <-> ss_offerings (source_view s) !! o_id o = Some o /\ o_sourceID o = i;
  delete_offering_ok s i s' : DeleteOffering i s = Ok s' ->
    source_view s' = mkSourceStore (ss_sources (source_view s))
                       (delete i (ss_offerings (source_view s)));
  delete_source_ok s i s' : DeleteSource i s = Ok s' ->
    source_view s' = mkSourceStore (delete i (ss_sources (source_view s)))
                       (ss_offerings (source_view s));
}.

Section source_removal.
Context {S : Type} `{SourceRepositories S}.

Fixpoint delete_offerings (offerings : list SourceOffering) (occurredAt : Time)
    : stM S error (list PublicEvent) :=
  match offerings with
  | [] => mret []
  | o :: offerings' =>
      _ ← writing (DeleteOffering (o_id o));
      events ← delete_offerings offerings' occurredAt;
      mret (newPublic SourceOfferingRemoved (o_id o) occurredAt :: events)
  end.

Definition RemoveSource (tx : TxOutcome) (sourceID : SourceID) (occurredAt : Time)
    : stM S error (PublicEvent * list PublicEvent) :=
  InTx tx
    (offerings ← reading (FindBySource sourceID);
     offeringEvents ← delete_offerings offerings occurredAt;
     _ ← writing (DeleteSource sourceID);
     mret (newPublic SourceRemoved sourceID occurredAt, offeringEvents)).
End source_removal.

(** The two tables in memory; the foreign key of the offerings refuses the
    removal of a source that still has one. *)
Definition offerings_of (i : SourceID) (m : gmap SourceOfferingID SourceOffering)
    : list SourceOffering :=
  (List.filter (fun jo => String.eqb (o_sourceID jo.2) i && String.eqb (o_id jo.2) jo.1)%bool
     (map_to_list m)).*2.

#[export] Instance map_sources : SourceRepositories source_store := {
  source_view s := s;
  FindBySource i s := Ok (offerings_of i (ss_offerings s));
  DeleteOffering i s := Ok (mkSourceStore (ss_sources s) (delete i (ss_offerings s)));
  DeleteSource i s :=
    match offerings_of i (ss_offerings s) with
    | [] => Ok (mkSourceStore (delete i (ss_sources s)) (ss_offerings s))
    | _ => fails Internal "an internal error occurred"
    end;
}.

(** ** Lemmas *)

Section author_correct.
Context {S : Type} `{AuthorRepositoryLaws S}.

Lemma author_next_ok s i o :
  author_next s i = Ok o -> author_merges (authors_view s) !! i = Some o.
Proof.
  unfold author_next, mbind, res_bind. destruct (FindAuthor i s) as [a| |] eqn:Hf; [|done..].
  intros [= <-]. unfold author_merges. by rewrite lookup_fmap, (find_author_ok _ _ _ Hf).
Qed.

Lemma author_reachable_spec s a b r :
  merge_wf (author_merges (authors_view s)) -> authorReachableFromTarget a b s = Ok r ->
  (r = true <-> rtc (parent (author_merges (authors_view s))) b a).
Proof. intros Hwf. apply reachable_loop_spec; [apply author_next_ok | done]. Qed.

Lemma save_author_view s i a o s' :
  FindAuthor i s = Ok a -> SaveAuthor (set_author_mergedInto o a) s = Ok s' ->
  authors_view s' = <[i := set_author_mergedInto o a]> (authors_view s) /\
  author_merges (authors_view s') = <[i := o]> (author_merges (authors_view s)).
Proof.
  intros Hf%find_author_ok Hs%save_author_ok. pose proof (authors_keyed _ _ _ Hf) as Hk.
  simpl in Hs. rewrite Hk in Hs. rewrite Hs. split; [done|].
  unfold author_merges. by rewrite fmap_insert.
Qed.

(** What the check looked at: the target is the source, or is stored. *)
Lemma author_reachable_found s a b :
  authorReachableFromTarget a b s = Ok false ->
  is_Some (author_merges (authors_view s) !! b).
Proof.
  unfold authorReachableFromTarget. simpl. destruct (decide (b = a)); [done|].
  unfold mbind, res_bind. destruct (author_next s b) as [o| |] eqn:E; [|done..].
  intros _. rewrite (author_next_ok _ _ _ E). by eexists.
Qed.

Lemma RecordAuthorMerge_inv source target at_ s e s' :
  RecordAuthorMerge source target at_ s = (Ok e, s') ->
  exists a, FindAuthor source s = Ok a /\ authorReachableFromTarget source target s = Ok false /\
    authors_view s' = <[source := set_author_mergedInto (Some target) a]> (authors_view s) /\
    author_merges (authors_view s') = <[source := Some target]> (author_merges (authors_view s)).
Proof.
  unfold RecordAuthorMerge. intros Hrun.
  rewrite stM_bind_ok in Hrun. destruct Hrun as (reach & s0 & [Hr ->]%reading_ok & Hrun).
  destruct reach; [by apply throw_ok in Hrun|]. svc_inv Hrun.
  match goal with Hsv : SaveAuthor _ _ = Ok _, Hf : FindAuthor _ _ = Ok ?w |- _ =>
    destruct (save_author_view _ _ _ _ _ Hf Hsv) as (? & ?); by exists w
  end.
Qed.

Lemma UndoAuthorMerge_inv source at_ s e s' :
  UndoAuthorMerge source at_ s = (Ok e, s') ->
  exists a, FindAuthor source s = Ok a /\
    authors_view s' = <[source := set_author_mergedInto None a]> (authors_view s).
Proof.
  unfold UndoAuthorMerge. intros Hrun. svc_inv Hrun.
  match goal with Hsv : SaveAuthor _ _ = Ok _, Hf : FindAuthor _ _ = Ok ?w |- _ =>
    destruct (save_author_view _ _ _ _ _ Hf Hsv) as (? & ?); by exists w
  end.
Qed.
End author_correct.

Section removal_correct.
Context {S : Type} `{SourceRepositoriesLaws S}.

Lemma delete_offerings_ok l at_ s events s' :
  delete_offerings l at_ s = (Ok events, s') ->
  events = (fun o => newPublic SourceOfferingRemoved (o_id o) at_) <$> l /\
  ss_sources (source_view s') = ss_sources (source_view s) /\
  forall i, ss_offerings (source_view s') !! i =
    if decide (i ∈ o_id <$> l) then None else ss_offerings (source_view s) !! i.
Proof.
  revert s events. induction l as [|o l IH]; intros s events; simpl.
  - intros [= <- <-]. conjuncts. 
  - intros Hrun. rewrite stM_bind_ok in Hrun. destruct Hrun as ([] & s1 & Hd%writing_ok & Hrun).
    rewrite stM_bind_ok in Hrun. destruct Hrun as (ev & s2 & Hev & Hrun).
    apply mret_ok in Hrun as [<- <-]. apply IH in Hev as (-> & Hsrc & Hoff).
    pose proof (delete_offering_ok _ _ _ Hd) as Hdel. rewrite Hdel in Hsrc, Hoff. simpl in *.
    conjuncts. intros i. rewrite Hoff.
    destruct (decide (i = o_id o)) as [->|Hne].
    + rewrite lookup_delete_eq. repeat case_decide; set_solver.
    + rewrite lookup_delete_ne by done. repeat case_decide; set_solver.
Qed.
End removal_correct.

(** ** The properties *)

Section services.
Context {S : Type}.

(** Recording a merge of authors on a well-formed catalogue writes only
    the source's merge reference and keeps merges acyclic with existing
    targets, merging an author into one that already resolves through it is
    refused, and undoing restores every author to what it was. *)
Theorem RecordAuthorMerge_correct `{AuthorRepositoryLaws S} s s1 s2 source target at1 at2 e1 e2 a :
  merge_wf (author_merges (authors_view s)) ->
  authors_view s !! source = Some a -> a_mergedInto a = None ->
  RecordAuthorMerge source target at1 s = (Ok e1, s1) ->
  UndoAuthorMerge source at2 s1 = (Ok e2, s2) ->
  merge_wf (author_merges (authors_view s1)) /\
  ~ rtc (parent (author_merges (authors_view s))) target source /\
  authors_view s1 = <[source := set_author_mergedInto (Some target) a]> (authors_view s) /\
  authors_view s2 = authors_view s.
Proof.
  intros Hwf Ha Hnone (w & Hf & Hr & Hv & Hg)%RecordAuthorMerge_inv
    (u & Hu & Hv2)%UndoAuthorMerge_inv.
  apply find_author_ok in Hf. rewrite Ha in Hf. injection Hf as <-.
  apply find_author_ok in Hu. rewrite Hv, lookup_insert_eq in Hu. injection Hu as <-.
  assert (Hn : ~ rtc (parent (author_merges (authors_view s))) target source).
  { intros Hx. by apply (author_reachable_spec _ _ _ _ Hwf Hr) in Hx. }
  split; [|split; [done|split; [done|]]].
  - rewrite Hg. apply merge_wf_record; [done|by eapply author_reachable_found|done].
  - rewrite Hv2, Hv, insert_insert_eq. apply insert_id. rewrite Ha. f_equal.
    destruct a. simpl in *. by subst.
Qed.

(** The library holds at most one entry per edition and adding is
    idempotent: a first [AddEntry] of an existing edition creates its entry
    and one event, a later one returns the same entry, no event, and changes
    nothing; [RemoveEntry] then takes exactly that entry away, and removing an
    edition that has none is a no-op; no call touches another edition. *)
Theorem library_entry_lifecycle `{LibraryEntryRepositoryLaws S} findEdition s s1 i at1 at2 e ev :
  AddEntry findEdition i at1 s = (Ok (e, ev), s1) ->
  entries_view s1 = <[i := e]> (entries_view s) /\
  (ev = None <-> entries_view s !! i = Some e) /\
  AddEntry findEdition i at2 s1 = (Ok (e, None), s1) /\
  (forall ev' s2, RemoveEntry i at2 s1 = (Ok ev', s2) ->
     ev' = Some (newSensitive LibraryEntryRemoved (le_id e) at2) /\
     entries_view s2 = delete i (entries_view s) /\
     (forall err, FindByEdition i s2 = Err err -> CategoryOf err = NotFound ->
        RemoveEntry i at2 s2 = (Ok None, s2))).
Proof.
  intros Hrun.
  assert (Hadd : entries_view s1 = <[i := e]> (entries_view s) /\
                 (ev = None <-> entries_view s !! i = Some e) /\
                 exists ed, findEdition i = Ok ed).
  { unfold AddEntry in Hrun. destruct (findEdition i) as [ed| |]; [|done..].
    destruct (FindByEdition i s) as [x|err|] eqn:Hf; [| |done].
    - injection Hrun as <- <- <-. apply find_entry_ok in Hf. split; [by rewrite insert_id|].
      split; [by rewrite Hf | by exists ed].
    - destruct (negb _) eqn:Hc; [done|]. apply negb_false_iff, bool_decide_eq_true in Hc.
      svc_inv Hrun.
      match goal with Hsv : SaveEntry _ _ = Ok _ |- _ => apply save_entry_ok in Hsv as [Hn Hv] end.
      simpl in *. split; [done|]. rewrite Hn. split; [by split | by exists ed]. }
  destruct Hadd as (Hv & Hev & ed & Hed). split; [done|]. split; [done|].
  assert (Hf1 : FindByEdition i s1 = Ok e).
  { apply find_entry_some. by rewrite Hv, lookup_insert_eq. }
  split.
  - unfold AddEntry. by rewrite Hed, Hf1.
  - intros ev' s2. unfold RemoveEntry. rewrite Hf1. intros Hrm. svc_inv Hrm.
    match goal with Hd : DeleteByEdition _ _ = Ok _ |- _ => apply delete_entry_ok in Hd as Hv2 end.
    split; [done|]. split; [by rewrite Hv2, Hv, delete_insert_eq|].
    intros err -> Hn. by rewrite bool_decide_eq_true_2.
Qed.

(** Removing a source is atomic and complete: on success the source and
    exactly the offerings that reference it are gone, everything else is
    untouched, and one event is returned per offering removed plus the
    source's own; on any failure, of a delete, the begin or the commit,
    nothing is removed. *)
Theorem RemoveSource_atomic `{SourceRepositoriesLaws S} tx s sourceID at_ out s' :
  RemoveSource tx sourceID at_ s = (out, s') ->
  match out with
  | Ok (sourceEvent, offeringEvents) =>
      sourceEvent = newPublic SourceRemoved sourceID at_ /\
      ss_sources (source_view s') = delete sourceID (ss_sources (source_view s)) /\
      (exists offerings, NoDup (o_id <$> offerings) /\
         (forall o, o ∈ offerings <-> ss_offerings (source_view s) !! o_id o = Some o /\
                                     o_sourceID o = sourceID) /\
         offeringEvents = (fun o => newPublic SourceOfferingRemoved (o_id o) at_) <$> offerings /\
         forall i, ss_offerings (source_view s') !! i =
           if decide (i ∈ o_id <$> offerings) then None else ss_offerings (source_view s) !! i)
  | _ => s' = s
  end.
Proof.
  unfold RemoveSource. intros Hrun. destruct out as [[se oe]|e|].
  - apply InTx_ok in Hrun. rewrite stM_bind_ok in Hrun.
    destruct Hrun as (l & s1 & [Hl ->]%reading_ok & Hrun).
    rewrite stM_bind_ok in Hrun. destruct Hrun as (ev & s1 & Hd & Hrun).
    rewrite stM_bind_ok in Hrun. destruct Hrun as ([] & s2 & Hs%writing_ok & Hrun).
    apply mret_ok in Hrun as [[= <- <-] <-].
    apply delete_offerings_ok in Hd as (-> & Hsrc & Hoff).
    destruct (find_by_source_ok _ _ _ Hl) as [Hnd Hmem].
    pose proof (delete_source_ok _ _ _ Hs) as Hds. rewrite Hds. simpl.
    split; [done|]. split; [by rewrite Hsrc|]. exists l. conjuncts.
  - by apply InTx_err in Hrun.
  - by apply InTx_fuel in Hrun.
Qed.
End services.

(** ** The instances keep their promises *)

#[export] Instance log_authors_laws : AuthorRepositoryLaws author_log.
Proof.
  split; simpl.
  - intros l i a H%elem_of_list_to_map_2. by apply list_elem_of_fmap in H as (b & [= -> ->] & _).
  - intros l i a. by destruct (author_log_view l !! i); intros [= <-].
  - intros l a l' [= <-]. done.
  - intros l i. by destruct (author_log_view l !! i).
Qed.

#[export] Instance map_entries_laws : LibraryEntryRepositoryLaws (gmap EditionID LibraryEntry).
Proof.
  split; simpl.
  - intros m i e. by destruct (m !! i); intros [= <-].
  - intros m i err. by destruct (m !! i).
  - by intros m i e ->.
  - intros m e m'. by destruct (m !! le_editionID e); intros [= <-].
  - by intros m i m' [= <-].
Qed.

Lemma offerings_of_ids i m :
  o_id <$> offerings_of i m =
  (List.filter (fun jo => String.eqb (o_sourceID jo.2) i && String.eqb (o_id jo.2) jo.1)%bool
     (map_to_list m)).*1.
Proof.
  unfold offerings_of. generalize (map_to_list m). intros l.
  induction l as [|[j o] l IH]; simpl; [done|].
  destruct (String.eqb (o_sourceID o) i); simpl; [|done].
  destruct (String.eqb_spec (o_id o) j) as [Heq|]; simpl; [|done].
  f_equal; [exact Heq | exact IH].
Qed.

Lemma offerings_of_spec i m o :
  o ∈ offerings_of i m <-> m !! o_id o = Some o /\ o_sourceID o = i.
Proof.
  unfold offerings_of. rewrite list_elem_of_fmap. split.
  - intros ([j x] & -> & Hx). rewrite list_elem_of_In, filter_In, <- list_elem_of_In in Hx.
    destruct Hx as [Hx Hc]. apply elem_of_map_to_list in Hx. simpl in *.
    apply andb_true_iff in Hc as [H1%String.eqb_eq H2%String.eqb_eq]. by subst.
  - intros [Ho Hs]. exists (o_id o, o). split; [done|].
    rewrite list_elem_of_In, filter_In, <- list_elem_of_In. split; [by apply elem_of_map_to_list|].
    simpl. by rewrite Hs, !String.eqb_refl.
Qed.

#[export] Instance map_sources_laws : SourceRepositoriesLaws source_store.
Proof.
  split; simpl.
  - intros s i l [= <-]. split; [|intros; apply offerings_of_spec].
    rewrite offerings_of_ids. apply NoDup_fmap_filter, NoDup_fst_map_to_list.
  - by intros s i s' [= <-].
  - intros s i s'. by destruct (offerings_of i _); intros [= <-].
Qed.

(** ** The properties on concrete stores *)

Definition demo_authors : author_log :=
  [mkAuthor "a1" "F. Herbert" [] None; mkAuthor "a2" "Frank Herbert" [] None].

Lemma demo_authors_wf : merge_wf (author_merges (authors_view demo_authors)).
Proof.
  assert (Hroot : forall x y, ~ parent (author_merges (authors_view demo_authors)) x y).
  { intros x y Hp. unfold parent, author_merges in Hp. apply lookup_fmap_Some in Hp as (a & Ha & Hx).
    apply elem_of_list_to_map_2 in Hx. simpl in Hx.
    repeat (apply elem_of_cons in Hx as [[= -> ->]|Hx]; [done|]). by apply elem_of_nil in Hx. }
  split; [intros x Hx; inversion Hx; subst; by eapply Hroot | intros x y Hp; by apply Hroot in Hp].
Qed.

Lemma RecordAuthorMerge_correct_witness :
  exists s1 s2, RecordAuthorMerge "a1" "a2" 1 demo_authors = (Ok (newPublic AuthorMerged "a1" 1), s1) /\
    merge_wf (author_merges (authors_view s1)) /\ authors_view s2 = authors_view demo_authors.
Proof.
  set (s1 := mkAuthor "a1" "F. Herbert" [] (Some "a2") :: demo_authors).
  set (s2 := mkAuthor "a1" "F. Herbert" [] None :: s1).
  exists s1, s2.
  assert (E1 : RecordAuthorMerge "a1" "a2" 1 demo_authors = (Ok (newPublic AuthorMerged "a1" 1), s1))
    by (vm_compute; reflexivity).
  assert (E2 : UndoAuthorMerge "a1" 2 s1 = (Ok (newPublic AuthorMergeUndone "a1" 2), s2))
    by (vm_compute; reflexivity).
  destruct (RecordAuthorMerge_correct demo_authors s1 s2 "a1" "a2" 1 2
              (newPublic AuthorMerged "a1" 1) (newPublic AuthorMergeUndone "a1" 2)
              (mkAuthor "a1" "F. Herbert" [] None) demo_authors_wf) as (H1 & _ & _ & H2);
    [vm_compute; reflexivity | reflexivity | exact E1 | exact E2 |].
  split; [exact E1|]. split; [exact H1 | exact H2].
Defined.

Lemma library_entry_lifecycle_witness :
  let findEdition := fun i : EditionID => Ok (mkEdition i "w1" (mkLanguage "en") None "" None []) in
  let s1 : gmap EditionID LibraryEntry := {[ "e1" := mkLibraryEntry "e1" "e1" 5 ]} in
  AddEntry findEdition "e1" 5 (∅ : gmap EditionID LibraryEntry)
    = (Ok (mkLibraryEntry "e1" "e1" 5, Some (newSensitive LibraryEntryAdded "e1" 5)), s1) /\
  AddEntry findEdition "e1" 9 s1 = (Ok (mkLibraryEntry "e1" "e1" 5, None), s1).
Proof.
  intros findEdition s1.
  assert (E : AddEntry findEdition "e1" 5 (∅ : gmap EditionID LibraryEntry)
    = (Ok (mkLibraryEntry "e1" "e1" 5, Some (newSensitive LibraryEntryAdded "e1" 5)), s1))
    by (vm_compute; reflexivity).
  split; [exact E|].
  destruct (library_entry_lifecycle findEdition ∅ s1 "e1" 5 9 _ _ E) as (_ & _ & H & _).
  exact H.
Defined.

Definition demo_sources : source_store :=
  mkSourceStore {[ "s1" := mkSource "s1" "NAS" (mkSourceCapabilities true true true) "local";
                   "s2" := mkSource "s2" "Disk" (mkSourceCapabilities true true true) "local" ]}
    {[ "o1" := mkSourceOffering "o1" "s1" "e1" (mkFileReference "a.epub" "epub" None) 0;
       "o2" := mkSourceOffering "o2" "s2" "e1" (mkFileReference "b.epub" "epub" None) 0 ]}.

Lemma RemoveSource_atomic_witness :
  exists s', RemoveSource tx_ok "s1" 3 demo_sources
    = (Ok (newPublic SourceRemoved "s1" 3, [newPublic SourceOfferingRemoved "o1" 3]), s') /\
    ss_sources s' = delete "s1" (ss_sources demo_sources) /\
    RemoveSource (mkTxOutcome None (Some (New "connection reset"))) "s1" 3 demo_sources
      = (Err (New "connection reset"), demo_sources).
Proof.
  destruct (RemoveSource tx_ok "s1" 3 demo_sources) as [out s'] eqn:E.
  pose proof (RemoveSource_atomic tx_ok demo_sources "s1" 3 out s' E) as H.
  vm_compute in E. injection E as <- <-. eexists. split; [reflexivity|].
  split; [exact (proj1 (proj2 H)) | vm_compute; reflexivity].
Defined.
