(* ===== verification/Jobs.v ===== *)
(** * The background job queue (src/internal/jobs)

    The jobs table with the statements of store.go, each a function from the
    table to the table (a statement, or a transaction that locks its row, is
    atomic), the lifecycle of job.go, the backoff and the configuration, the
    registry, and the decisions of engine.go. *)

From S2P Require Import Prelude GoStrings Floats Errors.

Local Open Scope string_scope.
Local Open Scope list_scope.
Local Open Scope Z_scope.

Abbreviation ID := string (only parsing).
Abbreviation Kind := string (only parsing).

(** ** Lifecycle (job.go) *)

Inductive State := StateQueued | StateRunning | StateRetrying | StateCompleted | StateDeadLetter.

#[export] Instance State_eq_dec : EqDecision State.
Proof. solve_decision. Defined.

Definition IsTerminal (s : State) : bool :=
  match s with StateCompleted | StateDeadLetter => true | _ => false end.

Definition CanTransitionTo (s next : State) : bool :=
  match s with
  | StateQueued | StateRetrying => bool_decide (next = StateRunning)
  | StateRunning =>
      bool_decide (next = StateCompleted) || bool_decide (next = StateRetrying)
      || bool_decide (next = StateDeadLetter)
  | _ => false
  end.

(** The status column. *)
Definition status (s : State) : string :=
  match s with
  | StateQueued => "queued"
  | StateRunning => "running"
  | StateRetrying => "retrying"
  | StateCompleted => "completed"
  | StateDeadLetter => "dead_letter"
  end.

Record JobProgress := mkJobProgress { Current : Z; Total : Z }.

#[export] Instance JobProgress_eq_dec : EqDecision JobProgress.
Proof. solve_decision. Defined.

Record Job := mkJob {
  j_ID : ID;
  j_Kind : Kind;
  j_Payload : string;
  j_State : State;
  j_Attempts : Z;
  j_MaxAttempts : Z;
  j_AvailableAt : Time;
  j_LockedUntil : option Time;
  j_LeaseToken : option string;
  j_LockedBy : option string;
  j_LastError : option string;
  j_Progress : option JobProgress;
  j_CreatedAt : Time;
  j_UpdatedAt : Time;
  j_CompletedAt : option Time;
}.

#[export] Instance Job_eq_dec : EqDecision Job.
Proof. solve_decision. Defined.

(** [Permanent] and [IsPermanent]. *)
Definition Permanent (err : option error) : option error := PermanentError <$> err.

Fixpoint IsPermanent (err : error) : bool :=
  match err with
  | PermanentError _ => true
  | Errorf _ e => IsPermanent e
  | DomainError _ _ (Some e) => IsPermanent e
  | DomainError _ _ None => false
  | New _ => false
  end.

(** ** Error text (errortext.go) *)

Definition maxLastErrorBytes : nat := 512.

(** [utf8.RuneStart]: not a continuation byte. *)
Definition RuneStart (c : ascii) : bool := negb (Z.eqb (Z.land (byte c) 192) 128).

(** The byte at an index. *)
Fixpoint byte_at (s : string) (n : nat) : option ascii :=
  match s, n with
  | EmptyString, _ => None
  | String c _, O => Some c
  | String _ s', S n' => byte_at s' n'
  end.

Fixpoint prefix_of (n : nat) (s : string) : string :=
  match n, s with
  | S n', String c s' => String c (prefix_of n' s')
  | _, _ => ""
  end.

(** The loop that backs off to a rune boundary; [n] is [len(trunc)]. *)
Fixpoint back_off (s : string) (n : nat) : nat :=
  match n with
  | O => O
  | S n' =>
      match byte_at s n with
      | Some c => if RuneStart c then n else back_off s n'
      | None => n
      end
  end.

Definition truncateBytes (s : string) (max : nat) : string :=
  if Nat.leb (String.length s) max then s else prefix_of (back_off s max) s.

Definition redactError (err : option error) : string :=
  match err with
  | None => ""
  | Some e => truncateBytes (Error e) maxLastErrorBytes
  end.

(** ** Errors of the store (errors.go)

    [SQLSTATE] codes the statements can meet. *)
Inductive sql_error := UniqueViolation | CheckViolation.

Definition translateError (e : sql_error) : error :=
  match e with
  | UniqueViolation =>
      DomainError Conflict "the job conflicts with an existing record" (Some (New "23505"))
  | CheckViolation =>
      DomainError Internal "an internal job store error occurred" (Some (New "23514"))
  end.

Definition notFound : error := mkErr NotFound "job not found".

(** ** Statements (store.go) *)

Abbreviation jobs_table := (gmap ID Job) (only parsing).

Record NewJob := mkNewJob {
  nj_ID : ID;
  nj_Kind : Kind;
  nj_Payload : string;
  nj_MaxAttempts : Z;
  nj_AvailableAt : Time;
  nj_Now : Time;
}.

(** An inserted row: queued, never attempted, the nullable columns NULL. *)
Definition queued_row (id : ID) (kind : Kind) (payload : string) (maxAttempts : Z)
    (availableAt now : Time) : Job :=
  mkJob id kind (if String.eqb payload "" then "null" else payload) StateQueued 0 maxAttempts
    availableAt None None None None None now now None.

(** [INSERT], with the table's primary key and check constraint. *)
Definition insert_row (j : Job) (t : jobs_table) : Result jobs_table :=
  match t !! j_ID j with
  | Some _ => Err (translateError UniqueViolation)
  | None => if j_MaxAttempts j <? 1 then Err (translateError CheckViolation)
            else Ok (<[j_ID j := j]> t)
  end.

Definition Enqueue (j : NewJob) (t : jobs_table) : Result jobs_table :=
  insert_row (queued_row (nj_ID j) (nj_Kind j) (nj_Payload j) (nj_MaxAttempts j)
                (nj_AvailableAt j) (nj_Now j)) t.

(** The claim query's [WHERE]; [kinds = []] means any kind, and [locked] are
    the rows other transactions hold. *)
Definition claimable (locked : gset ID) (kinds : list Kind) (now : Time) (j : Job) : bool :=
  (bool_decide (j_State j = StateQueued) || bool_decide (j_State j = StateRetrying))
  && (j_AvailableAt j <=? now)
  && (match kinds with [] => true | _ => existsb (String.eqb (j_Kind j)) kinds end)
  && negb (bool_decide (j_ID j ∈ locked)).

(** [ORDER BY available_at LIMIT 1]. *)
Definition older (best : option Job) (j : Job) : option Job :=
  match best with
  | Some b => if j_AvailableAt j <? j_AvailableAt b then Some j else best
  | None => Some j
  end.

Definition claim_query (locked : gset ID) (kinds : list Kind) (now : Time) (t : jobs_table)
    : option Job :=
  fold_left older (List.filter (claimable locked kinds now) (map_to_list t).*2) None.

(** The claim's [UPDATE]. *)
Definition claimed_row (leaseDuration : Duration) (token workerID : string) (now : Time)
    (j : Job) : Job :=
  mkJob (j_ID j) (j_Kind j) (j_Payload j) StateRunning (j_Attempts j + 1) (j_MaxAttempts j)
    (j_AvailableAt j) (Some (Add now leaseDuration)) (Some token) (Some workerID)
    (j_LastError j) (j_Progress j) (j_CreatedAt j) now (j_CompletedAt j).

Definition GetJob (id : ID) (t : jobs_table) : Result Job :=
  match t !! id with Some j => Ok j | None => Err notFound end.

(** The transaction of a claim: the row it takes, if any, moves to running
    under the token it mints, and its id is what the commit leaves known. *)
Definition claim_tx (leaseDuration : Duration) (token : string) (locked : gset ID)
    (workerID : string) (kinds : list Kind) (now : Time) (t : jobs_table) : option ID * jobs_table :=
  match claim_query locked kinds now t with
  | None => (None, t)
  | Some j => (Some (j_ID j), <[j_ID j := claimed_row leaseDuration token workerID now j]> t)
  end.

(** [ClaimNext]: the transaction, which [tx_fault] rolls back, and then the row
    read by a statement of its own: [meanwhile] is what others do to the table
    between the two, [read_fault] the error of the second. *)
Definition ClaimNext (leaseDuration : Duration) (token : string) (locked : gset ID)
    (workerID : string) (kinds : list Kind) (now : Time) (meanwhile : jobs_table -> jobs_table)
    (tx_fault read_fault : option error) (t : jobs_table) : Result (option Job) * jobs_table :=
  match tx_fault with
  | Some e => (Err e, t)
  | None =>
      match claim_tx leaseDuration token locked workerID kinds now t with
      | (None, t') => (Ok None, t')
      | (Some id, t') =>
          let t'' := meanwhile t' in
          (match read_fault with Some e => Err e | None => Some <$> GetJob id t'' end, t'')
      end
  end.

(** An [UPDATE ... WHERE id = $1 AND lease_token = $2 AND status = 'running']
    and whether it affected its one row. *)
Definition fenced (id : ID) (leaseToken : string) (update : Job -> Job) (t : jobs_table)
    : bool * jobs_table :=
  match t !! id with
  | Some j =>
      if bool_decide (j_LeaseToken j = Some leaseToken) && bool_decide (j_State j = StateRunning)
      then (true, <[id := update j]> t)
      else (false, t)
  | None => (false, t)
  end.

Definition Heartbeat (leaseDuration : Duration) (id : ID) (leaseToken : string) (now : Time)
    : jobs_table -> bool * jobs_table :=
  fenced id leaseToken (fun j =>
    mkJob (j_ID j) (j_Kind j) (j_Payload j) (j_State j) (j_Attempts j) (j_MaxAttempts j)
      (j_AvailableAt j) (Some (Add now leaseDuration)) (j_LeaseToken j) (j_LockedBy j)
      (j_LastError j) (j_Progress j) (j_CreatedAt j) now (j_CompletedAt j)).

Definition Complete (id : ID) (leaseToken : string) (now : Time)
    : jobs_table -> bool * jobs_table :=
  fenced id leaseToken (fun j =>
    mkJob (j_ID j) (j_Kind j) (j_Payload j) StateCompleted (j_Attempts j) (j_MaxAttempts j)
      (j_AvailableAt j) None (j_LeaseToken j) (j_LockedBy j)
      (j_LastError j) (j_Progress j) (j_CreatedAt j) now (Some now)).

Definition Fail_ (id : ID) (leaseToken : string) (now nextRunAt : Time) (deadLetter : bool)
    (cause : option error) : jobs_table -> bool * jobs_table :=
  let next := if deadLetter then StateDeadLetter else StateRetrying in
  fenced id leaseToken (fun j =>
    mkJob (j_ID j) (j_Kind j) (j_Payload j) next (j_Attempts j) (j_MaxAttempts j)
      nextRunAt None (j_LeaseToken j) (j_LockedBy j)
      (Some (redactError cause)) (j_Progress j) (j_CreatedAt j) now (j_CompletedAt j)).

Definition UpdateProgress (id : ID) (leaseToken : string) (current total : Z) (now : Time)
    (t : jobs_table) : jobs_table :=
  (fenced id leaseToken (fun j =>
    mkJob (j_ID j) (j_Kind j) (j_Payload j) (j_State j) (j_Attempts j) (j_MaxAttempts j)
      (j_AvailableAt j) (j_LockedUntil j) (j_LeaseToken j) (j_LockedBy j)
      (j_LastError j) (Some (mkJobProgress current total)) (j_CreatedAt j) now
      (j_CompletedAt j)) t).2.

(** ** The reaper (store.go) *)

Definition reaperLastError : string := "worker lease expired without heartbeat".

(** [status = 'running' AND locked_until < now]; NULL compares unknown. *)
Definition stale (now : Time) (j : Job) : bool :=
  bool_decide (j_State j = StateRunning)
  && match j_LockedUntil j with Some u => u <? now | None => false end.

Definition reclaimed_row (backoffFor : Z -> Duration) (token : string) (now : Time) (j : Job) : Job :=
  let dead := j_MaxAttempts j <=? j_Attempts j in
  mkJob (j_ID j) (j_Kind j) (j_Payload j)
    (if dead then StateDeadLetter else StateRetrying) (j_Attempts j) (j_MaxAttempts j)
    (if dead then now else Add now (backoffFor (j_Attempts j))) None (Some token) None
    (Some reaperLastError) (j_Progress j) (j_CreatedAt j) now (j_CompletedAt j).

Definition reclaimOne (backoffFor : Z -> Duration) (token : string) (locked : gset ID) (now : Time)
    (id : ID) (t : jobs_table) : bool * jobs_table :=
  match t !! id with
  | Some j =>
      if stale now j && negb (bool_decide (id ∈ locked))
      then (true, <[id := reclaimed_row backoffFor token now j]> t)
      else (false, t)
  | None => (false, t)
  end.

(** The sweep over the ids the first query listed; [newToken id] is the token
    minted for the reclaim of [id]. *)
Fixpoint reclaim_all (backoffFor : Z -> Duration) (newToken : ID -> string) (locked : gset ID)
    (now : Time) (ids : list ID) (t : jobs_table) : Z * jobs_table :=
  match ids with
  | [] => (0, t)
  | id :: ids' =>
      let '(ok, t1) := reclaimOne backoffFor (newToken id) locked now id t in
      let '(n, t2) := reclaim_all backoffFor newToken locked now ids' t1 in
      ((if ok then n + 1 else n), t2)
  end.

Definition stale_ids (now : Time) (t : jobs_table) : list ID :=
  j_ID <$> List.filter (stale now) (map_to_list t).*2.

Definition RecoverStale (backoffFor : Z -> Duration) (newToken : ID -> string) (locked : gset ID)
    (now : Time) (t : jobs_table) : Z * jobs_table :=
  reclaim_all backoffFor newToken locked now (stale_ids now t) t.

(** ** Queries and administration (store.go) *)

Record JobFilter := mkJobFilter { f_Kind : Kind; f_State : option State }.

Definition job_matches (f : JobFilter) (j : Job) : bool :=
  (String.eqb (f_Kind f) "" || String.eqb (f_Kind f) (j_Kind j))
  && match f_State f with None => true | Some s => bool_decide (s = j_State j) end.

(** [ORDER BY created_at, id]. *)
Definition created_before (a b : Job) : bool :=
  (j_CreatedAt a <? j_CreatedAt b)
  || ((j_CreatedAt a =? j_CreatedAt b) && String.leb (j_ID a) (j_ID b)).

Fixpoint insert_sorted (j : Job) (l : list Job) : list Job :=
  match l with
  | [] => [j]
  | x :: l' => if created_before j x then j :: l else x :: insert_sorted j l'
  end.

Definition ListJobs (f : JobFilter) (t : jobs_table) : list Job :=
  fold_right insert_sorted [] (List.filter (job_matches f) (map_to_list t).*2).

Definition CountByState (s : State) (t : jobs_table) : Z :=
  Z.of_nat (length (List.filter (fun j => bool_decide (j_State j = s)) (map_to_list t).*2)).

Definition cancelled_row (now : Time) (j : Job) : Job :=
  mkJob (j_ID j) (j_Kind j) (j_Payload j) StateDeadLetter (j_Attempts j) (j_MaxAttempts j)
    (j_AvailableAt j) None (j_LeaseToken j) (j_LockedBy j) (Some "cancelled_by_admin")
    (j_Progress j) (j_CreatedAt j) now (Some now).

Definition CancelJob (id : ID) (now : Time) (t : jobs_table) : Result jobs_table :=
  match t !! id with
  | None => Err notFound
  | Some j =>
      if IsTerminal (j_State j) then fails Conflict "job is already in a terminal state"
      else Ok (<[id := cancelled_row now j]> t)
  end.

Definition RetryJob (id newID : ID) (now : Time) (t : jobs_table) : Result (ID * jobs_table) :=
  match t !! id with
  | None => Err notFound
  | Some j =>
      if negb (bool_decide (j_State j = StateDeadLetter)) then
        fails Conflict ("only a dead-letter job can be retried; this job is " +:+ status (j_State j))
      else
        t' ← insert_row (queued_row newID (j_Kind j) (j_Payload j) (j_MaxAttempts j) now now) t;
        mret (newID, t')
  end.

(** [ClearCompleted]'s [WHERE]. *)
Definition cleared (olderThan : Time) (j : Job) : bool :=
  bool_decide (j_State j = StateCompleted)
  && match j_CompletedAt j with
     | Some c => c <=? olderThan
     | None => j_UpdatedAt j <=? olderThan
     end.

Definition ClearCompleted (olderThan : Time) (t : jobs_table) : Z * jobs_table :=
  let t' := filter (fun ij : ID * Job => cleared olderThan ij.2 = false) t in
  (Z.of_nat (size t) - Z.of_nat (size t'), t').

(** ** Backoff (backoff.go) *)

Record Backoff := mkBackoff { Base : Duration; Max : Duration }.

(** The doubling loop, [n] turns of it; [delay *= 2] wraps. *)
Fixpoint backoff_loop (b : Backoff) (n : nat) (delay : Duration) : Duration :=
  match n with
  | O => delay
  | S n' =>
      let delay' := wrap64 (delay * 2) in
      if (0 <? Max b) && (Max b <=? delay') then Max b
      else backoff_loop b n' delay'
  end.

(** The delay before jitter. *)
Definition backoff_delay (b : Backoff) (attempts : Z) : Duration :=
  let attempts := if attempts <? 1 then 1 else attempts in
  let delay := backoff_loop b (Z.to_nat (attempts - 1)) (Base b) in
  if (0 <? Max b) && (Max b <? delay) then Max b else delay.

(** A float constant with the given quotient, correctly rounded. *)
Definition f64_ratio (n d : Z) : float64 := SFdiv 53 1024 (f64_of_Z n) (f64_of_Z d).

(** [time.Duration(x)] for a finite float: truncation towards zero. *)
Definition f64_trunc (x : float64) : Z :=
  match x with
  | S754_finite s m e =>
      let a := if 0 <=? e then Zpos m * 2 ^ e else Zpos m / 2 ^ (- e) in
      if s then - a else a
  | _ => 0
  end.

Definition For (b : Backoff) (attempts : Z) (jitter : float64) : Duration :=
  let jitter := if flt jitter f64_zero then f64_zero else jitter in
  let jitter := if fge jitter f64_one then f64_ratio 999999 1000000 else jitter in
  let factor := SFadd 53 1024 (f64_ratio 8 10) (SFmul 53 1024 (f64_ratio 4 10) jitter) in
  f64_trunc (SFmul 53 1024 (f64_of_Z (backoff_delay b attempts)) factor).

(** ** Configuration (config.go) *)

Record Config := mkConfig {
  Concurrency : Z;
  PollInterval : Duration;
  LeaseDuration : Duration;
  HeartbeatInterval : Duration;
  ReaperInterval : Duration;
  cfg_Backoff : Backoff;
  ShutdownGracePeriod : Duration;
}.

Definition DefaultConfig : Config :=
  mkConfig 4 (2 * Second) (60 * Second) (20 * Second) (30 * Second)
    (mkBackoff (5 * Second) (5 * Minute)) (10 * Second).

Definition or_default (x d : Z) : Z := if x <=? 0 then d else x.

Definition withDefaults (c : Config) : Config :=
  let d := DefaultConfig in
  mkConfig (or_default (Concurrency c) (Concurrency d))
    (or_default (PollInterval c) (PollInterval d))
    (or_default (LeaseDuration c) (LeaseDuration d))
    (or_default (HeartbeatInterval c) (HeartbeatInterval d))
    (or_default (ReaperInterval c) (ReaperInterval d))
    (mkBackoff (or_default (Base (cfg_Backoff c)) (Base (cfg_Backoff d)))
               (or_default (Max (cfg_Backoff c)) (Max (cfg_Backoff d))))
    (or_default (ShutdownGracePeriod c) (ShutdownGracePeriod d)).

(** ** The registry (registry.go)

    A handler is a Go function value: [H], with [None] for nil.  A panic is
    the error value [Register] stops with. *)
Section registry.
Context {H : Type}.

Record registration := mkRegistration { maxAttempts : Z; handler : H }.
Definition Registry : Type := gmap Kind registration.
Definition NewRegistry : Registry := ∅.

Definition Register (kind : Kind) (maxAttempts : Z) (handler : option H) (r : Registry)
    : Result Registry :=
  if String.eqb kind "" then Err (New "jobs: Register called with an empty kind")
  else match handler with
    | None => Err (New ("jobs: Register(" +:+ quote kind +:+ ") called with a nil handler"))
    | Some h =>
        if maxAttempts <? 1 then
          Err (New ("jobs: Register(" +:+ quote kind +:+ ") called with maxAttempts "
                    +:+ itoa maxAttempts +:+ ", must be >= 1"))
        else match r !! kind with
          | Some _ => Err (New ("jobs: kind " +:+ quote kind +:+ " is already registered"))
          | None => Ok (<[kind := mkRegistration maxAttempts h]> r)
          end
    end.

Definition lookup_kind (kind : Kind) (r : Registry) : option registration := r !! kind.

Fixpoint insert_kind (k : Kind) (l : list Kind) : list Kind :=
  match l with
  | [] => [k]
  | x :: l' => if String.leb k x then k :: l else x :: insert_kind k l'
  end.

Definition kinds (r : Registry) : list Kind := fold_right insert_kind [] (map_to_list r).*1.

(** ** Enqueue and cancel (queue.go, live_jobs.go) *)

(** [payload] is what [json.Marshal] gave. *)
Definition QueueEnqueue (r : Registry) (newID : ID) (now : Time) (kind : Kind)
    (payload : Result string) (t : jobs_table) : Result (ID * jobs_table) :=
  match lookup_kind kind r with
  | None => fails InvalidInput ("no handler is registered for job kind " +:+ quote kind)
  | Some reg =>
      match payload with
      | Err e => Err (DomainError InvalidInput "job payload is not JSON-serializable" (Some e))
      | OutOfFuel => OutOfFuel
      | Ok raw =>
          t' ← Enqueue (mkNewJob newID kind raw (maxAttempts reg) now now) t;
          mret (newID, t')
      end
  end.

(** The jobs a worker of this process is running. *)
Definition liveJobs : Type := gset ID.
Definition live_add (id : ID) (l : liveJobs) : liveJobs := {[id]} ∪ l.
Definition live_remove (id : ID) (l : liveJobs) : liveJobs := l ∖ {[id]}.
Definition live_cancel (id : ID) (l : liveJobs) : bool := bool_decide (id ∈ l).

(** Answers whether a running handler was aborted. *)
Definition QueueCancelJob (id : ID) (now : Time) (l : liveJobs) (t : jobs_table)
    : Result (bool * jobs_table) :=
  t' ← CancelJob id now t;
  mret (live_cancel id l, t').

(** ** The engine's decisions (engine.go) *)

(** How a handler's run ended: whether the heartbeat found the lease lost,
    whether the process was shutting down, whether the job's own context was
    cancelled, and the handler's error (a panic is an error). *)
Record Run := mkRun {
  leaseLost : bool;
  parentDone : bool;
  jobDone : bool;
  runErr : option error;
}.

Inductive TerminalWrite :=
| NoWrite
| WriteComplete
| WriteFail (cause : error) (deadLetter : bool).

Definition execute (reg : option registration) (job : Job) (run : Run) : TerminalWrite :=
  match reg with
  | None => WriteFail (New ("no handler registered for kind " +:+ quote (j_Kind job))) true
  | Some reg =>
      if leaseLost run then NoWrite
      else if parentDone run then NoWrite
      else if jobDone run then NoWrite
      else match runErr run with
        | None => WriteComplete
        | Some err => WriteFail err (IsPermanent err || (maxAttempts reg <=? j_Attempts job))
        end
  end.

Definition token_of (job : Job) : string := default "" (j_LeaseToken job).

Definition finishSuccess (now : Time) (job : Job) (t : jobs_table) : jobs_table :=
  (Complete (j_ID job) (token_of job) now t).2.

Definition finishFailure (b : Backoff) (jitter : float64) (now : Time) (job : Job) (cause : error)
    (deadLetter : bool) (t : jobs_table) : jobs_table :=
  let nextRun := if deadLetter then now else Add now (For b (j_Attempts job) jitter) in
  (Fail_ (j_ID job) (token_of job) now nextRun deadLetter (Some cause) t).2.

Definition finish (b : Backoff) (jitter : float64) (now : Time) (job : Job) (w : TerminalWrite)
    (t : jobs_table) : jobs_table :=
  match w with
  | NoWrite => t
  | WriteComplete => finishSuccess now job t
  | WriteFail cause deadLetter => finishFailure b jitter now job cause deadLetter t
  end.

(** One turn of a poller that runs undisturbed: whether a job was claimed,
    and the table. [run] is what the handler of the claimed job does. *)
Definition pollOnce (r : Registry) (b : Backoff) (lease : Duration) (jitter : float64)
    (paused : bool) (token workerID : string) (now : Time) (run : Job -> Run) (t : jobs_table)
    : bool * jobs_table :=
  if paused then (false, t)
  else match ClaimNext lease token ∅ workerID (kinds r) now (fun t => t) None None t with
    | (Ok (Some job), t') =>
        (true, finish b jitter now job (execute (lookup_kind (j_Kind job) r) job (run job)) t')
    | (_, t') => (false, t')
    end.
End registry.
Arguments registration : clear implicits.
Arguments Registry : clear implicits.
