(* ===== verification/JobsSafety.v ===== *)
(** * The job queue: safety

    The step relation of a running queue (pollers, handlers, heartbeats, the
    reaper and the administrator interleaved at the level of statements), its
    invariant, and the theorems: fencing, one owner per job as long as claims
    are read in time (and two when one is not), terminal states,
    bounded attempts, and the functional behaviour of claim, sweep, backoff,
    configuration and error truncation. *)

From S2P Require Import Prelude GoStrings Floats Errors Jobs.

Local Open Scope string_scope.
Local Open Scope list_scope.
Local Open Scope Z_scope.

(** ** The claim query *)

Definition table_keyed (t : jobs_table) : Prop := forall i j, t !! i = Some j -> j_ID j = i.

Lemma older_spec l best :
  match fold_left older l best with
  | Some b => (best = Some b \/ b ∈ l) /\
              (forall x, best = Some x -> j_AvailableAt b <= j_AvailableAt x) /\
              (forall x, x ∈ l -> j_AvailableAt b <= j_AvailableAt x)
  | None => best = None /\ l = []
  end.
Proof.
  revert best. induction l as [|j l IH]; intros best; simpl.
  - destruct best as [b|]; [|done]. split; [by left|]. split; [by intros x [= ->]|].
    intros x Hx. by apply elem_of_nil in Hx.
  - specialize (IH (older best j)). destruct (fold_left older l (older best j)) as [b|].
    + destruct IH as (Hin & Hbest & Hl). setoid_rewrite elem_of_cons.
      unfold older in *. destruct best as [x|].
      * destruct (Z.ltb_spec (j_AvailableAt j) (j_AvailableAt x)).
        -- split; [destruct Hin as [[= <-]|?]; auto|]. specialize (Hbest j eq_refl).
           split; [intros y [= <-]; lia|]. intros y [->|Hy]; [done|by apply Hl].
        -- split; [destruct Hin as [[= <-]|?]; auto|]. specialize (Hbest x eq_refl).
           split; [by intros y [= <-]|]. intros y [->|Hy]; [lia|by apply Hl].
      * split; [destruct Hin as [[= <-]|?]; auto|]. specialize (Hbest j eq_refl).
        split; [done|]. intros y [->|Hy]; [done|by apply Hl].
    + destruct IH as [Hn _]. unfold older in Hn. destruct best as [x|]; [|done].
      by destruct (_ <? _).
Qed.

Lemma table_values t j : table_keyed t -> j ∈ (map_to_list t).*2 <-> t !! j_ID j = Some j.
Proof.
  intros Hk. rewrite list_elem_of_fmap. split.
  - intros ([i x] & -> & Hx). apply elem_of_map_to_list in Hx. simpl. by rewrite (Hk _ _ Hx).
  - intros Hj. exists (j_ID j, j). split; [done|]. by apply elem_of_map_to_list.
Qed.

Lemma filtered_values t p j :
  table_keyed t ->
  j ∈ List.filter p (map_to_list t).*2 <-> t !! j_ID j = Some j /\ p j = true.
Proof.
  intros Hk. rewrite list_elem_of_In, filter_In, <- list_elem_of_In. by rewrite table_values.
Qed.

Lemma claim_query_spec locked kinds now t :
  table_keyed t ->
  match claim_query locked kinds now t with
  | Some j => t !! j_ID j = Some j /\ claimable locked kinds now j = true /\
      forall x, t !! j_ID x = Some x -> claimable locked kinds now x = true ->
        j_AvailableAt j <= j_AvailableAt x
  | None => forall x, t !! j_ID x = Some x -> claimable locked kinds now x = false
  end.
Proof.
  intros Hk. unfold claim_query.
  pose proof (older_spec (List.filter (claimable locked kinds now) (map_to_list t).*2) None) as H.
  destruct (fold_left _ _ _) as [j|].
  - destruct H as ([?|Hin] & _ & Hmin); [done|]. apply filtered_values in Hin as [? ?]; [|done].
    split; [done|]. split; [done|]. intros x Hx Hc. apply Hmin. by apply filtered_values.
  - destruct H as [_ Hnil]. intros x Hx. apply not_true_iff_false. intros Hc.
    assert (Hin : x ∈ List.filter (claimable locked kinds now) (map_to_list t).*2)
      by (by apply filtered_values).
    rewrite Hnil in Hin. by apply elem_of_nil in Hin.
Qed.

Lemma claim_tx_cases lease token locked worker kinds now t out t' :
  table_keyed t ->
  claim_tx lease token locked worker kinds now t = (out, t') ->
  (out = None /\ t' = t /\ claim_query locked kinds now t = None) \/
  exists j, claim_query locked kinds now t = Some j /\ t !! j_ID j = Some j /\
    claimable locked kinds now j = true /\ out = Some (j_ID j) /\
    t' = <[j_ID j := claimed_row lease token worker now j]> t.
Proof.
  intros Hk. unfold claim_tx. pose proof (claim_query_spec locked kinds now t Hk) as Hq.
  destruct (claim_query locked kinds now t) as [j|]; intros [= <- <-]; [|by left].
  right. exists j. destruct Hq as (Hj & Hc & _). conjuncts.
Qed.

(** ** Fenced statements *)

Lemma fenced_cases id token update t ok t' :
  fenced id token update t = (ok, t') ->
  (ok = false /\ t' = t /\
   forall j, t !! id = Some j -> ~ (j_LeaseToken j = Some token /\ j_State j = StateRunning)) \/
  (ok = true /\ exists j, t !! id = Some j /\ j_LeaseToken j = Some token /\
     j_State j = StateRunning /\ t' = <[id := update j]> t).
Proof.
  unfold fenced. destruct (t !! id) as [j|] eqn:Hj; [|intros [= <- <-]; left; by split].
  destruct (bool_decide _ && bool_decide _) eqn:E; intros [= <- <-].
  - right. bool_to_prop. split; [done|]. by exists j.
  - left. split; [done|]. split; [done|]. intros x [= <-] [H1 H2].
    apply andb_false_iff in E as [E|E]; by apply bool_decide_eq_false in E.
Qed.

(** ** The step relation *)

(** A committed claim whose row is not read yet: the job, and the end of the
    lease. *)
Record claim := mkClaim { cl_ID : ID; cl_until : Time }.

(** The row a worker read after its claim and works on, and whether it was
    read in time: before any sweep of the reaper had run at a clock beyond the
    end of the claim's lease. *)
Record held := mkHeld { h_job : Job; h_in_time : bool }.

Definition read_in_time (c : claim) (sweeps : list Time) : bool :=
  forallb (fun now => now <=? cl_until c) sweeps.

(** Claims are named by the token they minted.  [sys_held] keeps the abandoned
    ones: a worker may act on its claim long after losing the lease. *)
Record jobs_system := mkSystem {
  sys_rows : jobs_table;
  sys_unread : gmap string claim;
  sys_held : gmap string held;
  sys_tokens : gset string;
  sys_sweeps : list Time;
}.

Section system.
Context {H : Type} (r : Registry H) (b : Backoff) (lease : Duration).

(** The statements of pollers, handlers, heartbeats, the reaper and the
    administrator, in any order; a statement that fails changes nothing and is
    no step.  A claim is two steps, its transaction and the read of its row.
    A token is never minted twice, and is never empty. *)
Inductive jstep : jobs_system -> jobs_system -> Prop :=
| js_enqueue id now kind payload t t' un hs toks sw id' :
    QueueEnqueue r id now kind payload t = Ok (id', t') ->
    jstep (mkSystem t un hs toks sw) (mkSystem t' un hs toks sw)
| js_claim token locked worker now t t' un hs toks sw id :
    token ∉ toks -> token <> "" -> kinds r <> [] ->
    claim_tx lease token locked worker (kinds r) now t = (Some id, t') ->
    jstep (mkSystem t un hs toks sw)
          (mkSystem t' (<[token := mkClaim id (Add now lease)]> un) hs ({[token]} ∪ toks) sw)
| js_read token c j t un hs toks sw :
    un !! token = Some c -> GetJob (cl_ID c) t = Ok j ->
    jstep (mkSystem t un hs toks sw)
          (mkSystem t (delete token un) (<[token := mkHeld j (read_in_time c sw)]> hs) toks sw)
| js_read_fails token t un hs toks sw :
    jstep (mkSystem t un hs toks sw) (mkSystem t (delete token un) hs toks sw)
| js_heartbeat k h now t un hs toks sw :
    hs !! k = Some h ->
    jstep (mkSystem t un hs toks sw)
          (mkSystem (Heartbeat lease (j_ID (h_job h)) (token_of (h_job h)) now t).2 un hs toks sw)
| js_progress k h current total now t un hs toks sw :
    hs !! k = Some h ->
    jstep (mkSystem t un hs toks sw)
          (mkSystem (UpdateProgress (j_ID (h_job h)) (token_of (h_job h)) current total now t) un hs toks sw)
| js_finish k h run jitter now t un hs toks sw :
    hs !! k = Some h ->
    jstep (mkSystem t un hs toks sw)
          (mkSystem (finish b jitter now (h_job h)
                       (execute (lookup_kind (j_Kind (h_job h)) r) (h_job h) run) t) un hs toks sw)
| js_reclaim backoffFor token locked now id t un hs toks sw :
    token ∉ toks -> token <> "" ->
    jstep (mkSystem t un hs toks sw)
          (mkSystem (reclaimOne backoffFor token locked now id t).2 un hs ({[token]} ∪ toks) (now :: sw))
| js_cancel id now t t' un hs toks sw :
    CancelJob id now t = Ok t' ->
    jstep (mkSystem t un hs toks sw) (mkSystem t' un hs toks sw)
| js_retry id newID now t t' un hs toks sw id' :
    RetryJob id newID now t = Ok (id', t') ->
    jstep (mkSystem t un hs toks sw) (mkSystem t' un hs toks sw)
| js_clear olderThan t un hs toks sw :
    jstep (mkSystem t un hs toks sw) (mkSystem (ClearCompleted olderThan t).2 un hs toks sw).

Definition initial : jobs_system := mkSystem ∅ ∅ ∅ ∅ [].

(** A job some worker has read. *)
Definition holds (s : jobs_system) (h : Job) : Prop := exists k x, sys_held s !! k = Some x /\ h_job x = h.

(** The worker that works on [h], as it read it, owns its job: the row is
    running under the token it read. *)
Definition owns (s : jobs_system) (h : Job) : Prop :=
  exists j, sys_rows s !! j_ID h = Some j /\ j_State j = StateRunning /\
            j_LeaseToken j = j_LeaseToken h.

(** A row at rest. *)
Record row_ok (toks : gset string) (i : ID) (j : Job) : Prop := {
  ro_id : j_ID j = i;
  ro_kind : exists reg : registration H, r !! j_Kind j = Some reg /\ j_MaxAttempts j = maxAttempts reg;
  ro_max : 1 <= j_MaxAttempts j;
  ro_attempts : 0 <= j_Attempts j <= j_MaxAttempts j;
  ro_waiting : j_State j = StateQueued \/ j_State j = StateRetrying ->
                 j_Attempts j < j_MaxAttempts j;
  ro_token : forall tok, j_LeaseToken j = Some tok -> tok ∈ toks;
  ro_leased : j_State j = StateRunning -> exists tok, j_LeaseToken j = Some tok;
}.

(** What a worker read: a minted token, if any, and, while the worker owns the
    row, the row's attempt count. *)
Record claim_ok (s : jobs_system) (h : Job) : Prop := {
  co_token : forall tok, j_LeaseToken h = Some tok -> tok ∈ sys_tokens s;
  co_row : owns s h -> forall j, sys_rows s !! j_ID h = Some j ->
             j_Attempts j = j_Attempts h /\ j_Kind j = j_Kind h;
}.

Record jobs_inv (s : jobs_system) : Prop := {
  ji_rows : forall i j, sys_rows s !! i = Some j -> row_ok (sys_tokens s) i j;
  ji_claims : forall h, holds s h -> claim_ok s h;
  ji_unread : forall k c, sys_unread s !! k = Some c -> k ∈ sys_tokens s /\ sys_held s !! k = None;
  ji_held : forall k x, sys_held s !! k = Some x -> k ∈ sys_tokens s;
  ji_empty : "" ∉ sys_tokens s;
}.

(** ** Every way a row can change *)

(** What no statement of a worker, the reaper or the administrator touches. *)
Definition same_job (j j' : Job) : Prop :=
  j_ID j' = j_ID j /\ j_Kind j' = j_Kind j /\ j_Payload j' = j_Payload j /\
  j_Attempts j' = j_Attempts j /\ j_MaxAttempts j' = j_MaxAttempts j /\
  j_CreatedAt j' = j_CreatedAt j.

Inductive row_change (s s' : jobs_system) (i : ID) : option Job -> option Job -> Prop :=
| rc_same o : row_change s s' i o o
| rc_insert kind payload max availableAt now :
    1 <= max -> (exists reg : registration H, r !! kind = Some reg /\ max = maxAttempts reg) \/
                (exists k j, sys_rows s !! k = Some j /\ kind = j_Kind j /\ max = j_MaxAttempts j) ->
    row_change s s' i None (Some (queued_row i kind payload max availableAt now))
| rc_claim token worker now j :
    token ∉ sys_tokens s -> token ∈ sys_tokens s' -> j_State j = StateQueued \/ j_State j = StateRetrying ->
    row_change s s' i (Some j) (Some (claimed_row lease token worker now j))
| rc_worker h j j' :
    holds s h -> j_ID h = i -> j_State j = StateRunning -> j_LeaseToken j = Some (token_of h) ->
    same_job j j' -> j_LeaseToken j' = j_LeaseToken j ->
    j_State j' = StateRunning \/ j_State j' = StateCompleted \/ j_State j' = StateDeadLetter \/
      (j_State j' = StateRetrying /\
       exists reg : registration H, r !! j_Kind h = Some reg /\ j_Attempts h < maxAttempts reg) ->
    row_change s s' i (Some j) (Some j')
| rc_reclaim backoffFor token now j :
    token ∉ sys_tokens s -> token ∈ sys_tokens s' -> stale now j = true -> now ∈ sys_sweeps s' ->
    row_change s s' i (Some j) (Some (reclaimed_row backoffFor token now j))
| rc_cancel now j :
    IsTerminal (j_State j) = false ->
    row_change s s' i (Some j) (Some (cancelled_row now j))
| rc_clear olderThan j :
    cleared olderThan j = true -> row_change s s' i (Some j) None.

Lemma rc_inserted s s' i id (o : option Job) j :
  sys_rows s !! i = o ->
  (i = id -> row_change s s' i o (Some j)) ->
  row_change s s' i (sys_rows s !! i) (<[id := j]> (sys_rows s) !! i).
Proof.
  intros <- Hc. destruct (decide (i = id)) as [->|Hne].
  - rewrite lookup_insert_eq. by apply Hc.
  - rewrite lookup_insert_ne by done. constructor.
Qed.

Lemma insert_row_ok j t t' :
  insert_row j t = Ok t' -> t !! j_ID j = None /\ 1 <= j_MaxAttempts j /\ t' = <[j_ID j := j]> t.
Proof.
  unfold insert_row. destruct (t !! j_ID j); [done|].
  destruct (Z.ltb_spec (j_MaxAttempts j) 1); [done|]. intros [= <-]. conjuncts.
Qed.

(** A fenced statement that keeps the job's identity and token. *)
Lemma fenced_change s s' h update i :
  holds s h ->
  (forall j, same_job j (update j) /\ j_LeaseToken (update j) = j_LeaseToken j) ->
  (forall j, j_State j = StateRunning ->
     j_State (update j) = StateRunning \/ j_State (update j) = StateCompleted \/
     j_State (update j) = StateDeadLetter \/
     (j_State (update j) = StateRetrying /\
      exists reg : registration H, r !! j_Kind h = Some reg /\ j_Attempts h < maxAttempts reg)) ->
  row_change s s' i (sys_rows s !! i) ((fenced (j_ID h) (token_of h) update (sys_rows s)).2 !! i).
Proof.
  intros Hh Hsame Hst. destruct (fenced _ _ _ _) as [ok t'] eqn:E. simpl.
  destruct (fenced_cases _ _ _ _ _ _ E) as [(_ & -> & _)|(_ & j & Hj & Ht & Hs & ->)]; [constructor|].
  apply (rc_inserted s s' i (j_ID h) (sys_rows s !! i)); [done|]. intros ->. rewrite Hj.
  destruct (Hsame j) as [??]. apply (rc_worker s s' (j_ID h) h); auto.
Qed.

Lemma execute_retrying (reg : option (registration H)) job run cause :
  execute reg job run = WriteFail cause false ->
  exists x, reg = Some x /\ j_Attempts job < maxAttempts x.
Proof.
  unfold execute. destruct reg as [x|]; [|done].
  destruct (leaseLost run), (parentDone run), (jobDone run); try done.
  destruct (runErr run) as [err|]; [|done]. intros [= _ Hd].
  apply orb_false_iff in Hd as [_ Hd]. apply Z.leb_gt in Hd. by exists x.
Qed.

Lemma jstep_row_change s s' i :
  table_keyed (sys_rows s) -> jstep s s' ->
  row_change s s' i (sys_rows s !! i) (sys_rows s' !! i).
Proof.
  intros Hk Hstep. pose proof (fun f => fenced_change s s' f) as Hfen. unfold holds in Hfen.
  destruct Hstep as [id now kind payload t t' un hs toks sw id' Hen
    |token locked worker now t t' un hs toks sw id Htok _ _ Hcl|token c j t un hs toks sw _ _|
    |k h now t un hs toks sw Hh|k h cur total now t un hs toks sw Hh|k h run jitter now t un hs toks sw Hh
    |bf token locked now id t un hs toks sw Htok _|id now t t' un hs toks sw Hc
    |id newID now t t' un hs toks sw id' Hr|olderThan t un hs toks sw]; simpl in *.
  - unfold QueueEnqueue, lookup_kind in Hen. destruct (r !! kind) as [reg|] eqn:Hreg; [|done].
    destruct payload as [raw| |]; [|done..]. unfold mbind, res_bind in Hen.
    destruct (Enqueue _ t) as [t1| |] eqn:Hins; [|done..]. injection Hen as <- <-.
    apply insert_row_ok in Hins as (Hn & Hmax & ->). simpl in *.
    apply (rc_inserted (mkSystem t un hs toks sw) _ i id (t !! i)); [done|]. intros ->. rewrite Hn.
    apply rc_insert; [done|]. left. by exists reg.
  - destruct (claim_tx_cases _ _ _ _ _ _ _ _ _ Hk Hcl) as [([=] & _)|(x & _ & Hx & Hcx & [= ->] & ->)].
    apply (rc_inserted (mkSystem t un hs toks sw) _ i (j_ID x) (t !! i)); [done|]. intros ->. rewrite Hx.
    apply rc_claim; [done|set_solver|]. unfold claimable in Hcx. bool_to_prop.
    match goal with H0 : (_ || _)%bool = true |- _ => apply orb_true_iff in H0 as [H0|H0] end;
      apply bool_decide_eq_true in H0; auto.
  - constructor.
  - constructor.
  - apply Hfen; [eauto| |]; intros x; simpl; [|auto]. by unfold same_job.
  - apply Hfen; [eauto| |]; intros x; simpl; [|auto]. by unfold same_job.
  - destruct (execute _ _ _) as [| |cause dead] eqn:Hex; simpl; [constructor| |].
    + apply Hfen; [eauto| |]; intros x; simpl; [|auto]. by unfold same_job.
    + apply Hfen; [eauto| |]; intros x; simpl; [by unfold same_job|].
      destruct dead; [by auto|]. intros _. right. right. right. split; [done|].
      by apply execute_retrying in Hex.
  - unfold reclaimOne. destruct (t !! id) as [j|] eqn:Hj; simpl; [|constructor].
    destruct (stale now j && _) eqn:E; simpl; [|constructor].
    apply (rc_inserted (mkSystem t un hs toks sw) _ i id (t !! i)); [done|]. intros ->. rewrite Hj.
    apply andb_true_iff in E as [E _]. apply rc_reclaim; [done|simpl; set_solver|done|simpl; left].
  - unfold CancelJob in Hc. destruct (t !! id) as [j|] eqn:Hj; [|done].
    destruct (IsTerminal (j_State j)) eqn:Ht; [done|]. injection Hc as <-.
    apply (rc_inserted (mkSystem t un hs toks sw) _ i id (t !! i)); [done|]. intros ->. rewrite Hj.
    by apply rc_cancel.
  - unfold RetryJob in Hr. destruct (t !! id) as [j|] eqn:Hj; [|done].
    destruct (negb _); [done|]. unfold mbind, res_bind in Hr.
    destruct (insert_row _ t) as [t1| |] eqn:Hins; [|done..]. injection Hr as <- <-.
    apply insert_row_ok in Hins as (Hn & Hmax & ->). simpl in *.
    apply (rc_inserted (mkSystem t un hs toks sw) _ i newID (t !! i)); [done|]. intros ->. rewrite Hn.
    apply rc_insert; [done|]. right. by exists id, j.
  - rewrite map_lookup_filter. destruct (t !! i) as [j|] eqn:Hj; simpl; [|constructor].
    case_guard as Hg; simpl; [constructor|].
    apply rc_clear with olderThan. simpl in Hg. by destruct (cleared olderThan j).
Qed.

(** ** The invariant is kept *)

Lemma jstep_tokens s s' : jstep s s' -> sys_tokens s ⊆ sys_tokens s'.
Proof. destruct 1; simpl; set_solver. Qed.

(** What a step adds to the rows read is a row as it is. *)
Lemma jstep_held s s' k x :
  jstep s s' -> sys_held s' !! k = Some x ->
  sys_held s !! k = Some x \/
  (exists c, sys_unread s !! k = Some c /\ sys_rows s !! cl_ID c = Some (h_job x) /\
     h_in_time x = read_in_time c (sys_sweeps s) /\ sys_rows s' = sys_rows s).
Proof.
  destruct 1 as [| |token c j t un hs toks sw Hu Hg| | | | | | | |]; simpl; auto.
  intros [[-> <-]|[_ ?]]%lookup_insert_Some; [|by left]. right. exists c. simpl.
  unfold GetJob in Hg. destruct (t !! cl_ID c); [|done]. by injection Hg as <-.
Qed.

Lemma inv_keyed s : jobs_inv s -> table_keyed (sys_rows s).
Proof. intros Hinv i j Hj. by apply (ro_id _ _ _ (ji_rows s Hinv _ _ Hj)). Qed.

Lemma row_ok_mono toks toks' i j : toks ⊆ toks' -> row_ok toks i j -> row_ok toks' i j.
Proof. intros Hsub [H1 H2 H3 H4 H5 H6 H7]. split; try done. intros tok Ht. by apply Hsub, H6. Qed.

(** A row under the text of a read token is under that token. *)
Lemma row_token s i j h :
  jobs_inv s -> sys_rows s !! i = Some j -> j_LeaseToken j = Some (token_of h) ->
  j_LeaseToken j = j_LeaseToken h.
Proof.
  intros Hinv Hj Ht. rewrite Ht. unfold token_of in *. destruct (j_LeaseToken h) as [tok|]; [done|].
  exfalso. apply (ji_empty s Hinv). by apply (ro_token _ _ _ (ji_rows s Hinv _ _ Hj)).
Qed.

(** A worker's statement moved the row under the token it had read. *)
Lemma worker_row_ok s i j j' h :
  jobs_inv s -> sys_rows s !! i = Some j ->
  holds s h -> j_ID h = i -> j_State j = StateRunning -> j_LeaseToken j = Some (token_of h) ->
  same_job j j' -> j_LeaseToken j' = j_LeaseToken j ->
  j_State j' = StateRunning \/ j_State j' = StateCompleted \/ j_State j' = StateDeadLetter \/
    (j_State j' = StateRetrying /\
     exists reg : registration H, r !! j_Kind h = Some reg /\ j_Attempts h < maxAttempts reg) ->
  row_ok (sys_tokens s) i j'.
Proof.
  intros Hinv Hj Hh Hid Hrun Htk (Eid & Ekind & _ & Eat & Emax & _) Etok Hst.
  destruct (ji_rows s Hinv _ _ Hj) as [H1 H2 H3 H4 H5 H6 H7].
  split; rewrite ?Eid, ?Ekind, ?Emax, ?Eat, ?Etok; try done; [|by auto].
  intros Hw. destruct Hst as [E|[E|[E|(E & reg & Hreg & Hlt)]]]; rewrite E in Hw;
    [by destruct Hw..|].
  subst i. destruct (co_row s h (ji_claims s Hinv h Hh)) with (j := j) as [Ha Hk]; [|done|].
  { exists j. split; [done|]. split; [done|]. by eapply row_token. }
  destruct H2 as (reg' & Hreg' & ->). rewrite Hk, Hreg in Hreg'. injection Hreg' as <-. lia.
Qed.

Lemma inv_rows_step s s' i j' :
  jobs_inv s -> jstep s s' -> sys_rows s' !! i = Some j' -> row_ok (sys_tokens s') i j'.
Proof.
  intros Hinv Hstep Hj'. pose proof (jstep_row_change s s' i (inv_keyed s Hinv) Hstep) as Hc.
  pose proof (jstep_tokens _ _ Hstep) as Hsub. rewrite Hj' in Hc.
  assert (Hold : forall j, sys_rows s !! i = Some j -> row_ok (sys_tokens s') i j).
  { intros j Hj. eapply row_ok_mono; [exact Hsub|]. by apply (ji_rows s Hinv). }
  inversion Hc as [o Heq|kind payload max av now Hmax Hreg Heq|token worker now j Htok Htok' Hst Heq
    |h j j'' Hh Hid Hrun Htk Hsame Htk' Hst Heq|bf token now j Htok Htok' Hst _ Heq|now j Ht Heq|];
    subst; try (symmetry in Heq; destruct (Hold _ Heq) as [H1 H2 H3 H4 H5 H6 H7]).
  - apply Hold. congruence.
  - split; simpl; try done; try lia.
    destruct Hreg as [?|(k & j & Hj & -> & ->)]; [done|].
    apply (ro_kind _ _ _ (ji_rows s Hinv _ _ Hj)).
  - split; simpl; try done; [specialize (H5 Hst); lia|by intros [?|?]|by intros tok [= <-]|eauto].
  - eapply row_ok_mono; [exact Hsub|]. by apply (worker_row_ok s (j_ID h) j j' h).
  - destruct (Hold j eq_refl) as [H1 H2 H3 H4 H5 H6 H7].
    split; simpl; try done; try (by eauto); try (by intros tok [= <-]).
    destruct (Z.leb_spec (j_MaxAttempts j) (j_Attempts j)); [by intros [?|?] | lia].
  - split; simpl; try done. by intros [?|?].
Qed.

(** A worker that owns its row after a step owned it before: a lost lease is
    never regained. *)
Lemma owns_step s s' h :
  jobs_inv s -> jstep s s' -> holds s h -> owns s' h ->
  owns s h /\
  (forall j j', sys_rows s !! j_ID h = Some j -> sys_rows s' !! j_ID h = Some j' ->
     j_Attempts j' = j_Attempts j /\ j_Kind j' = j_Kind j).
Proof.
  intros Hinv Hstep Hh (j' & Hj' & Hrun & Htok).
  pose proof (co_token s h (ji_claims s Hinv h Hh)) as Hin.
  pose proof (jstep_row_change s s' (j_ID h) (inv_keyed s Hinv) Hstep) as Hc. rewrite Hj' in Hc.
  inversion Hc as [o Heq|kind payload max av now Hmax Hreg Heq|token worker now j Hn Hn' Hst Heq
    |g j j'' Hg Hid Hr Htk Hsame Htk' Hst Heq|bf token now j Hn Hn' Hst _ Heq|now j Ht Heq|]; subst;
    simpl in *.
  - split; [by exists j'|]. intros x y Hx Hy. split; congruence.
  - done.
  - by destruct (Hn (Hin token (eq_sym Htok))).
  - split; [exists j; split; [done|split; [done|congruence]]|].
    intros x y Hx Hy. destruct Hsame as (_ & Ek & _ & Ea & _). split; congruence.
  - by destruct (Hn (Hin token (eq_sym Htok))).
  - done.
Qed.

Lemma inv_claims_step s s' h :
  jobs_inv s -> jstep s s' -> holds s' h -> claim_ok s' h.
Proof.
  intros Hinv Hstep (k & x & Hx & <-). pose proof (jstep_tokens _ _ Hstep) as Hsub.
  destruct (jstep_held s s' k x Hstep Hx) as [Hold|(c & _ & Hj & _ & Hrows)].
  - assert (Hh : holds s (h_job x)) by (by exists k, x).
    destruct (ji_claims s Hinv _ Hh) as [Hin Hrow].
    split; [intros tok Ht; by apply Hsub, Hin|].
    intros Ho j' Hj'. destruct (owns_step s s' _ Hinv Hstep Hh Ho) as [Ho' Hsame].
    destruct Ho' as (j & Hj & Hr & Htk). destruct (Hsame j j' Hj Hj') as [-> ->].
    apply Hrow; [by exists j|done].
  - pose proof (ji_rows s Hinv _ _ Hj) as Hok. pose proof (ro_id _ _ _ Hok) as Hid. split.
    + intros tok Ht. by apply Hsub, (ro_token _ _ _ Hok).
    + intros _ j'. rewrite Hrows, Hid, Hj. by intros [= <-].
Qed.

(** Claims keep their names apart. *)
Lemma inv_names_step s s' :
  jobs_inv s -> jstep s s' ->
  (forall k c, sys_unread s' !! k = Some c -> k ∈ sys_tokens s' /\ sys_held s' !! k = None) /\
  (forall k x, sys_held s' !! k = Some x -> k ∈ sys_tokens s') /\ "" ∉ sys_tokens s'.
Proof.
  intros [_ _ Hu Hh He].
  assert (Hgrow : forall k token, k ∈ sys_tokens s -> k ∈ {[token]} ∪ sys_tokens s)
    by (intros k token Hk; apply elem_of_union; by right).
  assert (Hnew : forall token, token <> "" -> "" ∉ {[token]} ∪ sys_tokens s)
    by (intros token Hne [E%elem_of_singleton|E]%elem_of_union; congruence).
  destruct 1 as [|token locked worker now t t' un hs toks sw id Htok Hne _ _
    |token c j t un hs toks sw Hc _|token t un hs toks sw| | | |bf token locked now id t un hs toks sw Htok Hne| | |];
    simpl in *; try done.
  - split; [|split; [intros k x Hk; by eapply Hgrow, Hh|by apply Hnew]].
    intros k c [[<- _]|[_ Hk]]%lookup_insert_Some; [|destruct (Hu k c Hk); auto].
    split; [apply elem_of_union; left; by apply elem_of_singleton|].
    destruct (hs !! token) eqn:E; [|done]. by apply Hh in E.
  - split; [|split; [|done]].
    + intros k c' [Hne Hk]%lookup_delete_Some. rewrite lookup_insert_ne by done. by apply Hu in Hk.
    + intros k x [[<- _]|[_ Hk]]%lookup_insert_Some; [by apply Hu in Hc as [? _]|by apply Hh in Hk].
  - split; [|done]. intros k c [_ Hk]%lookup_delete_Some. by apply Hu in Hk.
  - split; [|split; [intros k x Hk; by eapply Hgrow, Hh|by apply Hnew]].
    intros k c Hk. destruct (Hu k c Hk). auto.
Qed.

Lemma jobs_inv_step s s' : jobs_inv s -> jstep s s' -> jobs_inv s'.
Proof.
  intros Hinv Hstep. destruct (inv_names_step s s' Hinv Hstep) as (Hu & Hh & He). split; try done.
  - intros i j. by apply (inv_rows_step s).
  - intros h. by apply (inv_claims_step s).
Qed.

Lemma jobs_inv_initial : jobs_inv initial.
Proof. split; try done. intros h (k & x & Hx & _). done. Qed.

Lemma jobs_inv_reachable s s' : jobs_inv s -> rtc jstep s s' -> jobs_inv s'.
Proof. intros Hinv. induction 1; [done|]. eauto using jobs_inv_step. Qed.

(** ** Claims that are read in time *)

(** Every worker that read job [i] so far did so in time. *)
Definition all_in_time (i : ID) (s : jobs_system) : Prop :=
  forall k x, sys_held s !! k = Some x -> j_ID (h_job x) = i -> h_in_time x = true.

(** As long as that holds, a worker works under the token it minted, and the
    row of a claim not yet read is as the claim left it, or cancelled. *)
Record prompt (i : ID) (s : jobs_system) : Prop := {
  pr_held : forall k x, sys_held s !! k = Some x -> j_ID (h_job x) = i -> j_LeaseToken (h_job x) = Some k;
  pr_unread : forall k c, sys_unread s !! k = Some c -> cl_ID c = i -> read_in_time c (sys_sweeps s) = true ->
    exists j, sys_rows s !! i = Some j /\ j_LeaseToken j = Some k /\
      (j_State j = StateRunning /\ j_LockedUntil j = Some (cl_until c) \/ j_State j = StateDeadLetter);
}.

Lemma held_kept s s' k x :
  jobs_inv s -> jstep s s' -> sys_held s !! k = Some x -> sys_held s' !! k = Some x.
Proof.
  intros Hinv. destruct 1 as [| |token c j t un hs toks sw Hu _| | | | | | | |]; simpl; try done.
  intros Hx. rewrite lookup_insert_ne; [done|]. intros <-.
  apply (ji_unread _ Hinv) in Hu as [_ Hn]. simpl in Hn. congruence.
Qed.

Lemma holds_kept s s' h : jobs_inv s -> jstep s s' -> holds s h -> holds s' h.
Proof. intros Hinv Hstep (k & x & Hx & Hh). exists k, x. split; [by eapply held_kept|done]. Qed.

Lemma sweeps_grow s s' c :
  jstep s s' -> read_in_time c (sys_sweeps s') = true -> read_in_time c (sys_sweeps s) = true.
Proof. destruct 1; simpl; try done. by intros [_ ?]%andb_true_iff. Qed.

(** What a step does to the row of a claim that nobody has read yet. *)
Lemma unread_row_step i s s' k c :
  jobs_inv s -> prompt i s -> jstep s s' -> sys_unread s !! k = Some c -> cl_ID c = i ->
  read_in_time c (sys_sweeps s') = true ->
  exists j, sys_rows s' !! i = Some j /\ j_LeaseToken j = Some k /\
    (j_State j = StateRunning /\ j_LockedUntil j = Some (cl_until c) \/ j_State j = StateDeadLetter).
Proof.
  intros Hinv [Hheld Hun] Hstep Hc Hi Hin.
  destruct (Hun k c Hc Hi (sweeps_grow _ _ _ Hstep Hin)) as (j & Hj & Htk & Hst).
  pose proof (jstep_row_change s s' i (inv_keyed s Hinv) Hstep) as Hch. rewrite Hj in Hch.
  inversion Hch as [o Heq Heq'|?|token worker now j0 Hn Hn' Hw Heq Heq'
    |g j0 j'' Hg Hid Hr Htk' Hsame Htk'' Hw Heq Heq'|bf token now j0 Hn Hn' Hsta Hsw Heq Heq'
    |now j0 Ht Heq Heq'|cutoff j0 Hcl Heq Heq']; subst.
  - by exists j.
  - by destruct Hw as [E|E], Hst as [[E' _]|E']; rewrite E in E'.
  - exfalso. destruct Hg as (kg & x & Hx & <-). pose proof (Hheld kg x Hx Hid) as Hkg.
    unfold token_of in Htk'. rewrite Hkg in Htk'. simpl in Htk'. rewrite Htk in Htk'. injection Htk' as ->.
    apply (ji_unread s Hinv) in Hc as [_ Hnone]. congruence.
  - exfalso. unfold stale in Hsta. apply andb_true_iff in Hsta as [Hrun%bool_decide_eq_true Hu].
    destruct Hst as [[_ El]|E]; [|by rewrite E in Hrun]. rewrite El in Hu. apply Z.ltb_lt in Hu.
    unfold read_in_time in Hin. rewrite forallb_forall in Hin.
    specialize (Hin now ltac:(by apply list_elem_of_In)). apply Z.leb_le in Hin. lia.
  - exists (cancelled_row now j). split; [done|]. split; [done|by right].
  - exfalso. unfold cleared in Hcl. apply andb_true_iff in Hcl as [E%bool_decide_eq_true _].
    by destruct Hst as [[E' _]|E']; rewrite E in E'.
Qed.

Lemma prompt_step i s s' :
  jobs_inv s -> prompt i s -> jstep s s' -> all_in_time i s' -> prompt i s'.
Proof.
  intros Hinv Hp Hstep Hall. split.
  - intros k x Hx Hid. destruct (jstep_held s s' k x Hstep Hx) as [Hold|(c & Hc & Hj & Ht & _)].
    + by apply (pr_held i s Hp).
    + rewrite (Hall k x Hx Hid) in Ht. pose proof (ro_id _ _ _ (ji_rows s Hinv _ _ Hj)) as E.
      destruct (pr_unread i s Hp k c Hc) as (j & Hj' & Htk & _); [congruence|done|].
      rewrite <- E, Hid, Hj' in Hj. by injection Hj as <-.
  - intros k c Hc Hi Hin. destruct (sys_unread s !! k) as [c'|] eqn:Hk.
    + assert (c' = c) as ->.
      { destruct Hstep as [|token locked worker now t t' un hs toks sw id Htok _ _ _| | | | | | | | |];
          simpl in *; try congruence.
        - apply lookup_insert_Some in Hc as [[-> _]|[_ ?]]; [|congruence].
          exfalso. by apply Htok, (ji_unread _ Hinv k c').
        - apply lookup_delete_Some in Hc as [_ ?]. congruence.
        - apply lookup_delete_Some in Hc as [_ ?]. congruence. }
      by apply (unread_row_step i s s' k c).
    + pose proof (inv_keyed s Hinv) as Hkd.
      destruct Hstep as [|token locked worker now t t' un hs toks sw id Htok _ _ Hcl| | | | | | | | |];
        simpl in *; try congruence.
      * apply lookup_insert_Some in Hc as [[-> <-]|[_ ?]]; [|congruence]. simpl in *. subst id.
        destruct (claim_tx_cases _ _ _ _ _ _ _ _ _ Hkd Hcl) as [([=] & _)|(x & _ & Hx & _ & [= ->] & ->)].
        eexists. rewrite lookup_insert_eq. split; [done|]. split; [done|by left].
      * apply lookup_delete_Some in Hc as [_ ?]. congruence.
      * apply lookup_delete_Some in Hc as [_ ?]. congruence.
Qed.

Lemma prompt_reachable i s : rtc jstep initial s -> all_in_time i s -> prompt i s.
Proof.
  intros Hreach Hall.
  enough (Hg : forall s0, rtc jstep s0 s -> jobs_inv s0 -> prompt i s0 -> prompt i s).
  { apply (Hg initial Hreach jobs_inv_initial). by split. }
  clear Hreach. intros s0 Hsteps. induction Hsteps as [s0|s0 s1 s2 Hstep Hrest IH]; [done|].
  intros Hinv Hp. pose proof (jobs_inv_step _ _ Hinv Hstep) as Hinv1. apply (IH Hall Hinv1).
  apply (prompt_step i s0 s1 Hinv Hp Hstep).
  intros k x Hx Hid. apply (Hall k x); [|done]. clear -Hrest Hx Hinv1.
  induction Hrest as [s1|s1 s3 s2 Hstep _ IH]; [done|].
  apply IH; [by eapply jobs_inv_step|by eapply held_kept].
Qed.

(** ** The properties of a running queue *)

(** C25: at any moment of any interleaving of pollers, handlers, heartbeats,
    reaper sweeps and administration, at most one worker owns a job, and it
    works under the token its own claim minted, as long as each worker that
    claimed the job read it before a sweep ran at a clock beyond the end of
    its claim's lease.  A claim commits and reads its row in two statements;
    a read that comes later than that can find the row under the lease of
    another worker, and then both own it. *)
Theorem one_owner_per_job s i k1 k2 x1 x2 :
  rtc jstep initial s -> all_in_time i s ->
  sys_held s !! k1 = Some x1 -> sys_held s !! k2 = Some x2 ->
  j_ID (h_job x1) = i -> j_ID (h_job x2) = i -> owns s (h_job x1) -> owns s (h_job x2) ->
  k1 = k2 /\ j_LeaseToken (h_job x1) = Some k1.
Proof.
  intros Hreach Hall Hx1 Hx2 Hi1 Hi2 (j1 & Hj1 & _ & Ht1) (j2 & Hj2 & _ & Ht2).
  pose proof (prompt_reachable i s Hreach Hall) as Hp.
  pose proof (pr_held i s Hp k1 x1 Hx1 Hi1) as E1. pose proof (pr_held i s Hp k2 x2 Hx2 Hi2) as E2.
  split; [|done]. rewrite Hi1 in Hj1. rewrite Hi2 in Hj2. congruence.
Qed.

(** C26: a worker that has lost the lease it read has lost it for good, and
    can no longer affect anything: in every later state its heartbeat reports
    false, and its heartbeat, progress, completion and failure statements
    leave the whole table as it is.  If it read its claim, and every worker
    theirs of that job, before a sweep ran beyond the end of the claim's
    lease, that lease is its own claim's and none of another worker's. *)
Theorem lost_lease_is_fenced s s' k x now run jitter current total :
  let h := h_job x in
  rtc jstep initial s -> sys_held s !! k = Some x -> rtc jstep s s' ->
  (~ owns s h ->
   ~ owns s' h /\
   Heartbeat lease (j_ID h) (token_of h) now (sys_rows s') = (false, sys_rows s') /\
   UpdateProgress (j_ID h) (token_of h) current total now (sys_rows s') = sys_rows s' /\
   finish b jitter now h (execute (lookup_kind (j_Kind h) r) h run) (sys_rows s') = sys_rows s') /\
  (all_in_time (j_ID h) s -> token_of h = k).
Proof.
  intros h Hreach Hx Hsteps. split.
  2: { intros Hall. pose proof (prompt_reachable _ s Hreach Hall) as Hp.
       unfold token_of, h. by rewrite (pr_held _ s Hp k x Hx eq_refl). }
  intros Hno. assert (Hh : holds s h) by (by exists k, x).
  pose proof (jobs_inv_reachable _ _ jobs_inv_initial Hreach) as Hinv.
  assert (Hlast : jobs_inv s' /\ ~ owns s' h).
  { clear Hreach Hx. induction Hsteps as [s|s s1 s' Hstep _ IH]; [done|].
    apply IH; [|by eapply holds_kept|by eapply jobs_inv_step].
    intros Ho. apply Hno. by apply (owns_step s s1 h Hinv Hstep Hh). }
  destruct Hlast as (Hinv' & Hno'). split; [done|].
  assert (Hf : forall update, fenced (j_ID h) (token_of h) update (sys_rows s') = (false, sys_rows s')).
  { intros update. destruct (fenced _ _ _ _) as [ok t'] eqn:E.
    destruct (fenced_cases _ _ _ _ _ _ E) as [(-> & -> & _)|(_ & j & Hj & Ht & Hr & _)]; [done|].
    exfalso. apply Hno'. exists j. split; [done|]. split; [done|]. by eapply row_token. }
  unfold Heartbeat, UpdateProgress. rewrite !Hf. split; [done|]. split; [done|].
  destruct (execute _ _ _); simpl; unfold finishSuccess, finishFailure, Complete, Fail_;
    by rewrite ?Hf.
Qed.

(** No job is ever attempted more often than its budget: in every
    reachable state 0 <= attempts <= max_attempts, and a job waiting for
    another attempt has one left. *)
Theorem attempts_bounded s i j :
  rtc jstep initial s -> sys_rows s !! i = Some j ->
  0 <= j_Attempts j <= j_MaxAttempts j /\
  (j_State j = StateQueued \/ j_State j = StateRetrying -> j_Attempts j < j_MaxAttempts j).
Proof.
  intros Hreach Hj. pose proof (jobs_inv_reachable _ _ jobs_inv_initial Hreach) as Hinv.
  destruct (ji_rows s Hinv _ _ Hj) as [_ _ _ H1 H2 _]. done.
Qed.

(** Terminal states are final: one step leaves a completed or
    dead-lettered row exactly as it is, except that clearing deletes old
    completed rows; every other change of a row's state is one
    [CanTransitionTo] allows, or an administrator's cancellation, which also
    takes a waiting job straight to dead_letter. *)
Theorem lifecycle_respected s s' i j :
  rtc jstep initial s -> jstep s s' -> sys_rows s !! i = Some j ->
  (IsTerminal (j_State j) = true ->
     sys_rows s' !! i = Some j \/ (j_State j = StateCompleted /\ sys_rows s' !! i = None)) /\
  (forall j', sys_rows s' !! i = Some j' ->
     j_State j' = j_State j \/ CanTransitionTo (j_State j) (j_State j') = true \/
     (j_State j' = StateDeadLetter /\ j_LastError j' = Some "cancelled_by_admin" /\
      CanTransitionTo (j_State j) (j_State j') = false)).
Proof.
  intros Hreach Hstep Hj. pose proof (jobs_inv_reachable _ _ jobs_inv_initial Hreach) as Hinv.
  pose proof (jstep_row_change s s' i (inv_keyed s Hinv) Hstep) as Hc. rewrite Hj in Hc.
  assert (Hclear : forall cutoff, cleared cutoff j = true -> j_State j = StateCompleted).
  { intros cutoff Hcl. unfold cleared in Hcl. by bool_to_prop. }
  inversion Hc as [o Heq Heq'|?|token worker now j0 Hn Hn' Hst Heq Heq'
    |g j0 j'' Hg Hid Hr Htk Hsame Htk' Hst Heq Heq'|bf token now j0 Hn Hn' Hst _ Heq Heq'
    |now j0 Ht Heq Heq'|cutoff j0 Hcl Heq Heq']; subst;
    try (unfold stale in Hst; apply andb_true_iff in Hst as [Hst%bool_decide_eq_true _]).
  - split; [by left|]. intros j' [= <-]. by left.
  - split; [by destruct Hst as [->| ->]|]. intros j' [= <-]. right. left. simpl.
    by destruct Hst as [->| ->].
  - split; [by rewrite Hr|]. intros j' [= <-].
    destruct Hst as [E|[E|[E|[E _]]]]; rewrite E, Hr; auto.
  - split; [by rewrite Hst|]. intros j' [= <-]. right. left. simpl. rewrite Hst.
    by destruct (_ <=? _).
  - split; [by rewrite Ht|]. intros j' [= <-]. right. simpl.
    destruct (CanTransitionTo _ _); auto.
  - split; [|done]. intros _. right. split; [by eapply Hclear | done].
Qed.
End system.

(** ** Functional behaviour of the statements *)

(** A row a worker that polls for [kinds] may take: waiting, due, of a wanted
    kind (any, when the list is empty) and not locked by another worker. *)
Definition takeable (locked : gset ID) (kinds : list Kind) (now : Time) (j : Job) : Prop :=
  (j_State j = StateQueued \/ j_State j = StateRetrying) /\ j_AvailableAt j <= now /\
  (kinds = [] \/ j_Kind j ∈ kinds) /\ (j_ID j ∉ locked).

Lemma claimable_spec locked kinds now j :
  claimable locked kinds now j = true <-> takeable locked kinds now j.
Proof.
  unfold claimable, takeable. rewrite !andb_true_iff, orb_true_iff, !bool_decide_eq_true, Z.leb_le.
  rewrite negb_true_iff, bool_decide_eq_false.
  assert (match kinds with [] => true | _ => existsb (String.eqb (j_Kind j)) kinds end = true <->
    kinds = [] \/ j_Kind j ∈ kinds) as ->; [|tauto].
  destruct kinds as [|k ks]; [by split; [left|]|]. rewrite existsb_exists. split.
  - intros (x & Hx & E%String.eqb_eq). right. by rewrite E, list_elem_of_In.
  - intros [?|Hin]; [done|]. exists (j_Kind j). by rewrite <- list_elem_of_In, String.eqb_refl.
Qed.

(** [ClaimNext] takes the oldest row it may: its transaction, unless it
    fails and changes nothing, takes none exactly when no unlocked row of the
    wanted kinds is waiting and due, and otherwise moves one such row, with the
    least available_at, to running under the new token, one attempt more and a
    lease of the configured length, and touches no other row.  What it answers
    then is the row as it is when it is read. *)
Theorem ClaimNext_correct lease token locked worker kinds now meanwhile tx_fault read_fault t out t' :
  table_keyed t ->
  ClaimNext lease token locked worker kinds now meanwhile tx_fault read_fault t = (out, t') ->
  (exists e, tx_fault = Some e /\ out = Err e /\ t' = t) \/
  (tx_fault = None /\ out = Ok None /\ t' = t /\ forall i j, t !! i = Some j -> ~ takeable locked kinds now j) \/
  exists j j', t !! j_ID j = Some j /\ takeable locked kinds now j /\
    (forall i x, t !! i = Some x -> takeable locked kinds now x -> j_AvailableAt j <= j_AvailableAt x) /\
    tx_fault = None /\ t' = meanwhile (<[j_ID j := j']> t) /\
    (j_ID j' = j_ID j /\ j_State j' = StateRunning /\ j_Attempts j' = j_Attempts j + 1 /\
     j_LeaseToken j' = Some token /\ j_LockedBy j' = Some worker /\
     j_LockedUntil j' = Some (Add now lease) /\ j_Payload j' = j_Payload j) /\
    out = match read_fault, t' !! j_ID j with
          | Some e, _ => Err e
          | None, Some row => Ok (Some row)
          | None, None => Err notFound
          end.
Proof.
  intros Hk. unfold ClaimNext. destruct tx_fault as [e|]; [intros [= <- <-]; left; by exists e|].
  destruct (claim_tx _ _ _ _ _ _ _) as [o t1] eqn:E.
  pose proof (claim_query_spec locked kinds now t Hk) as Hq.
  destruct (claim_tx_cases _ _ _ _ _ _ _ _ _ Hk E) as [(-> & -> & Ec)|(j & Ec & Hj & Hc & -> & ->)];
    rewrite Ec in Hq; intros [= <- <-]; right.
  - left. conjuncts. intros i j Hj Ht%claimable_spec. rewrite Hq in Ht; [done|].
    by rewrite (Hk _ _ Hj).
  - right. exists j, (claimed_row lease token worker now j). destruct Hq as (_ & _ & Hmin).
    split; [done|]. split; [by apply claimable_spec|]. split.
    { intros i x Hx Ht%claimable_spec. apply Hmin; [by rewrite (Hk _ _ Hx)|done]. }
    conjuncts. destruct read_fault; [done|]. unfold GetJob. by destruct (meanwhile _ !! _).
Qed.

Lemma reclaimOne_other bf token locked now id i t :
  i <> id -> (reclaimOne bf token locked now id t).2 !! i = t !! i.
Proof.
  intros Hne. unfold reclaimOne. destruct (t !! id); [|done].
  destruct (_ && _); [|done]. simpl. by rewrite lookup_insert_ne.
Qed.

Lemma reclaim_all_spec bf newToken locked now l t :
  NoDup l -> (forall id, id ∈ l -> exists j, t !! id = Some j /\ stale now j = true) ->
  (reclaim_all bf newToken locked now l t).1 =
    Z.of_nat (length (List.filter (fun id => negb (bool_decide (id ∈ locked))) l)) /\
  (forall i, i ∉ l -> (reclaim_all bf newToken locked now l t).2 !! i = t !! i) /\
  (forall i j, i ∈ l -> t !! i = Some j ->
     (reclaim_all bf newToken locked now l t).2 !! i =
       Some (if bool_decide (i ∈ locked) then j else reclaimed_row bf (newToken i) now j)).
Proof.
  revert t. induction l as [|id l IH]; intros t Hnd Hst; simpl.
  { split; [done|]. split; [done|]. intros i j Hi. by apply elem_of_nil in Hi. }
  apply NoDup_cons in Hnd as [Hnotin Hnd].
  destruct (Hst id) as (j & Hj & Hs); [by left|].
  pose proof (fun i => reclaimOne_other bf (newToken id) locked now id i t) as Hother.
  assert (Hone : reclaimOne bf (newToken id) locked now id t =
    (negb (bool_decide (id ∈ locked)),
     if bool_decide (id ∈ locked) then t else <[id := reclaimed_row bf (newToken id) now j]> t)).
  { unfold reclaimOne. rewrite Hj, Hs. simpl. by destruct (bool_decide (id ∈ locked)). }
  rewrite Hone in *. simpl in Hother.
  set (t1 := if bool_decide (id ∈ locked) then t
             else <[id := reclaimed_row bf (newToken id) now j]> t) in *.
  destruct (IH t1 Hnd) as (IH1 & IH2 & IH3).
  { intros x Hx. assert (x <> id) by (by intros ->).
    destruct (Hst x) as (y & Hy & Hys); [by right|]. exists y. by rewrite Hother. }
  destruct (reclaim_all bf newToken locked now l t1) as [n t2]. simpl in *.
  split; [rewrite IH1; destruct (bool_decide (id ∈ locked)); simpl; lia|]. split.
  - intros i [Hne Hi]%not_elem_of_cons. by rewrite IH2, Hother.
  - intros i x [->|Hi]%elem_of_cons Hx.
    + rewrite IH2 by done. unfold t1. rewrite Hj in Hx. injection Hx as <-.
      destruct (bool_decide (id ∈ locked)); [done|]. by rewrite lookup_insert_eq.
    + apply IH3; [done|]. rewrite Hother; [done|]. by intros ->.
Qed.

Lemma stale_ids_spec now t :
  table_keyed t ->
  NoDup (stale_ids now t) /\
  forall i, i ∈ stale_ids now t <-> exists j, t !! i = Some j /\ stale now j = true.
Proof.
  intros Hk. unfold stale_ids. split.
  - apply NoDup_fmap_filter.
    replace (j_ID <$> (map_to_list t).*2) with ((map_to_list t).*1); [apply NoDup_fst_map_to_list|].
    assert (Hel : forall ij, ij ∈ map_to_list t -> j_ID ij.2 = ij.1).
    { intros [i j] Hij. apply elem_of_map_to_list in Hij. by apply Hk. }
    revert Hel. generalize (map_to_list t). intros l Hel.
    induction l as [|[i j] l IH]; simpl; [done|]. f_equal.
    + symmetry. apply (Hel (i, j)). by left.
    + apply IH. intros ij Hij. apply Hel. by right.
  - intros i. rewrite list_elem_of_fmap. setoid_rewrite filtered_values; [|done]. split.
    + intros (j & -> & Hj & Hs). by exists j.
    + intros (j & Hj & Hs). exists j. by rewrite (Hk _ _ Hj).
Qed.

(** A running row whose lease has run out. *)
Definition lease_expired (now : Time) (j : Job) : Prop :=
  j_State j = StateRunning /\ exists u, j_LockedUntil j = Some u /\ u < now.

Lemma stale_spec now j : stale now j = true <-> lease_expired now j.
Proof.
  unfold stale, lease_expired. rewrite andb_true_iff, bool_decide_eq_true.
  destruct (j_LockedUntil j) as [u|]; [rewrite Z.ltb_lt|]; naive_solver.
Qed.

(** [j'] is the expired row [j] after the reaper took it back. *)
Definition recovered (backoffFor : Z -> Duration) (token : string) (now : Time) (j j' : Job) : Prop :=
  j_ID j' = j_ID j /\ j_Payload j' = j_Payload j /\ j_Attempts j' = j_Attempts j /\
  j_LeaseToken j' = Some token /\ j_LockedUntil j' = None /\ j_LockedBy j' = None /\
  (j_MaxAttempts j <= j_Attempts j -> j_State j' = StateDeadLetter) /\
  (j_Attempts j < j_MaxAttempts j ->
     j_State j' = StateRetrying /\ j_AvailableAt j' = now + backoffFor (j_Attempts j)).

Lemma reclaimed_recovered backoffFor token now j :
  recovered backoffFor token now j (reclaimed_row backoffFor token now j).
Proof.
  unfold recovered, reclaimed_row. simpl. conjuncts; intros H;
    destruct (Z.leb_spec (j_MaxAttempts j) (j_Attempts j)); done || lia.
Qed.

(** A reaper sweep recovers exactly the running rows whose lease has
    expired and that no other transaction holds: each gets a new token (so its
    old worker is fenced), loses its lease and worker, and goes to dead_letter
    when its attempts are used up and to retrying after the backoff otherwise,
    its attempt count unchanged; every other row is untouched, and the sweep
    reports how many it recovered. *)
Theorem RecoverStale_correct backoffFor newToken locked now t :
  table_keyed t ->
  let out := RecoverStale backoffFor newToken locked now t in
  (exists ids, out.1 = Z.of_nat (length ids) /\ NoDup ids /\
     forall i, i ∈ ids <-> exists j, t !! i = Some j /\ lease_expired now j /\ (i ∉ locked)) /\
  (forall i j, t !! i = Some j -> exists j', out.2 !! i = Some j' /\
     (lease_expired now j -> i ∉ locked -> recovered backoffFor (newToken i) now j j') /\
     (~ lease_expired now j \/ i ∈ locked -> j' = j)) /\
  (forall i, t !! i = None -> out.2 !! i = None).
Proof.
  intros Hk out. destruct (stale_ids_spec now t Hk) as [Hnd Hin].
  destruct (reclaim_all_spec backoffFor newToken locked now (stale_ids now t) t Hnd) as (H1 & H2 & H3).
  { intros i Hi. by apply Hin. }
  split; [|split].
  - eexists. split; [exact H1|]. split; [by apply NoDup_ListNoDup, List.NoDup_filter, NoDup_ListNoDup|].
    intros i. rewrite list_elem_of_In, filter_In, <- list_elem_of_In, Hin, negb_true_iff,
      bool_decide_eq_false. setoid_rewrite stale_spec. naive_solver.
  - intros i j Hj. destruct (decide (i ∈ stale_ids now t)) as [Hs|Hs].
    + exists (if bool_decide (i ∈ locked) then j else reclaimed_row backoffFor (newToken i) now j).
      split; [by apply H3|]. apply Hin in Hs as (x & Hx & Hst). rewrite Hj in Hx. injection Hx as <-.
      apply stale_spec in Hst. split.
      * intros _ Hl. rewrite bool_decide_eq_false_2 by done. apply reclaimed_recovered.
      * intros [?|Hl]; [done|]. by rewrite bool_decide_eq_true_2.
    + exists j. split; [unfold out, RecoverStale; by rewrite H2|]. split; [|done].
      intros He. exfalso. apply Hs, Hin. exists j. by rewrite stale_spec.
  - intros i Hi. unfold out, RecoverStale. rewrite H2; [done|]. rewrite Hin.
    intros (x & Hx & _). congruence.
Qed.

(** The backoff delay before jitter is min(Base * 2^(attempts-1), Max):
    the doubling loop never wraps, for any attempt count, as long as base and
    cap are positive and below 2^62 nanoseconds (146 years). *)
Theorem backoff_delay_spec b attempts :
  0 < Base b < 2 ^ 62 -> 0 < Max b < 2 ^ 62 ->
  backoff_delay b attempts =
    Z.min (Base b * 2 ^ (Z.max 1 attempts - 1)) (Max b).
Proof.
  intros Hb Hm.
  assert (Hloop : forall n d, 0 < d < 2 ^ 62 ->
    Z.min (backoff_loop b n d) (Max b) = Z.min (d * 2 ^ Z.of_nat n) (Max b)).
  { induction n as [|n IH]; intros d Hd; simpl; [by rewrite Z.mul_1_r|].
    rewrite wrap64_id by (unfold in_int64, int64_min, int64_max, two63; lia).
    replace (d * 2 ^ Z.of_nat (Datatypes.S n)) with (d * 2 * 2 ^ Z.of_nat n)
      by (rewrite Nat2Z.inj_succ, Z.pow_succ_r by lia; ring).
    pose proof (Z.pow_pos_nonneg 2 (Z.of_nat n) ltac:(lia) ltac:(lia)) as Hp.
    destruct (Z.ltb_spec 0 (Max b)); [|lia]. simpl.
    destruct (Z.leb_spec (Max b) (d * 2)).
    - rewrite Z.min_id, Z.min_r; [done|]. nia.
    - apply IH. lia. }
  unfold backoff_delay.
  replace (if attempts <? 1 then 1 else attempts) with (Z.max 1 attempts)
    by (destruct (Z.ltb_spec attempts 1); lia).
  specialize (Hloop (Z.to_nat (Z.max 1 attempts - 1)) (Base b) Hb).
  rewrite Z2Nat.id in Hloop by lia. rewrite <- Hloop.
  destruct (Z.ltb_spec 0 (Max b)); [|lia]. simpl.
  destruct (Z.ltb_spec (Max b) (backoff_loop b (Z.to_nat (Z.max 1 attempts - 1)) (Base b))); lia.
Qed.

(** [withDefaults] gives a configuration the engine can run on: every
    field positive, every positive field of the caller kept, every other one
    the default, and applying it twice changes nothing. *)
Theorem withDefaults_total c :
  let d := withDefaults c in
  (0 < Concurrency d /\ 0 < PollInterval d /\ 0 < LeaseDuration d /\ 0 < HeartbeatInterval d /\
   0 < ReaperInterval d /\ 0 < Base (cfg_Backoff d) /\ 0 < Max (cfg_Backoff d) /\
   0 < ShutdownGracePeriod d) /\
  withDefaults d = d /\
  (forall (f : Config -> Z), f ∈ [Concurrency; PollInterval; LeaseDuration; HeartbeatInterval;
      ReaperInterval; (fun x => Base (cfg_Backoff x)); (fun x => Max (cfg_Backoff x));
      ShutdownGracePeriod] ->
     f d = if 0 <? f c then f c else f DefaultConfig).
Proof.
  assert (Hod : forall x y, 0 < y -> 0 < or_default x y).
  { intros x y Hy. unfold or_default. destruct (Z.leb_spec x 0); lia. }
  assert (Hid : forall x y, 0 < y -> or_default (or_default x y) y = or_default x y).
  { intros x y Hy. unfold or_default at 1. specialize (Hod x y Hy).
    destruct (Z.leb_spec (or_default x y) 0); [lia | done]. }
  assert (Hsel : forall x y, or_default x y = if 0 <? x then x else y).
  { intros x y. unfold or_default. destruct (Z.leb_spec x 0), (Z.ltb_spec 0 x); lia. }
  cbn zeta. split; [unfold withDefaults; simpl; repeat split; apply Hod; reflexivity|]. split.
  - unfold withDefaults. cbn -[or_default DefaultConfig]. by rewrite !Hid.
  - intros f Hf. repeat (apply elem_of_cons in Hf as [->|Hf]; [apply Hsel|]). by apply elem_of_nil in Hf.
Qed.

(** ** Error text *)

Lemma prefix_of_split n s :
  exists rest, s = prefix_of n s +:+ rest /\ String.length (prefix_of n s) = Nat.min n (String.length s).
Proof.
  revert s. induction n as [|n IH]; intros [|c s]; simpl; [by exists ""|by eexists|by exists ""|].
  destruct (IH s) as (rest & Hs & Hl). exists rest. rewrite str_app_cons. by rewrite <- Hs, Hl.
Qed.

Lemma back_off_spec s n :
  (back_off s n <= n)%nat /\
  (back_off s n = O \/ byte_at s (back_off s n) = None \/
     exists c, byte_at s (back_off s n) = Some c /\ RuneStart c = true) /\
  forall m, (back_off s n < m <= n)%nat -> exists c, byte_at s m = Some c /\ RuneStart c = false.
Proof.
  induction n as [|n (IH1 & IH2 & IH3)]; simpl; [split; [lia|]; split; [by left|lia]|].
  destruct (byte_at s (Datatypes.S n)) as [c|] eqn:E.
  - destruct (RuneStart c) eqn:Hc.
    + split; [lia|]. split; [right; right; by exists c | lia].
    + split; [lia|]. split; [done|]. intros m Hm. destruct (decide (m = Datatypes.S n)) as [->|Hne].
      * by exists c.
      * apply IH3. lia.
  - split; [lia|]. split; [right; by left | lia].
Qed.

Lemma byte_at_lt s n : byte_at s n = None -> (String.length s <= n)%nat.
Proof.
  revert n. induction s as [|c s IH]; intros [|n]; simpl; try done; [lia|].
  intros H%IH. lia.
Qed.

(** [truncateBytes] returns a prefix of at most [max] bytes: the whole
    string when it fits, and otherwise the longest prefix that does not cut a
    rune, that is, it is empty or the next byte starts a rune, and every
    longer cut within the bound falls inside one. *)
Theorem truncateBytes_longest s max :
  let r := truncateBytes s max in
  (exists rest, s = r +:+ rest) /\ (String.length r <= max)%nat /\
  ((String.length s <= max)%nat -> r = s) /\
  ((max < String.length s)%nat ->
     (r = "" \/ exists c, byte_at s (String.length r) = Some c /\ RuneStart c = true) /\
     forall m, (String.length r < m <= max)%nat ->
       exists c, byte_at s m = Some c /\ RuneStart c = false).
Proof.
  intros r. unfold r, truncateBytes. destruct (Nat.leb_spec (String.length s) max) as [Hle|Hlt].
  - split; [exists ""; by rewrite str_app_nil_r|]. split; [done|]. split; [done|lia].
  - destruct (back_off_spec s max) as (H1 & H2 & H3).
    destruct (prefix_of_split (back_off s max) s) as (rest & Hs & Hl).
    rewrite Nat.min_l in Hl by lia. rewrite Hl.
    split; [by exists rest|]. split; [lia|]. split; [lia|]. intros _. split; [|done].
    destruct H2 as [H2|[H2|H2]].
    + left. rewrite H2. by destruct s.
    + apply byte_at_lt in H2. lia.
    + by right.
Qed.

(** ** One undisturbed poll *)

(** One turn of a poller does what the lifecycle says: paused, or with
    nothing claimable, it changes nothing; otherwise exactly the claimed row
    ends completed when the handler succeeds, dead-lettered with the bounded
    error text when the error is permanent or the attempts are used up, and
    retrying after the backoff delay when they are not; a result the worker
    must discard leaves the row running for the reaper. *)
Theorem pollOnce_outcome {H} (r : Registry H) b lease jitter paused token worker now run t claimed t' :
  table_keyed t ->
  pollOnce r b lease jitter paused token worker now run t = (claimed, t') ->
  if claimed then
    exists j j', claim_query ∅ (kinds r) now t = Some j /\ t' = <[j_ID j := j']> t /\
      same_job (claimed_row lease token worker now j) j' /\
      match execute (lookup_kind (j_Kind j) r) (claimed_row lease token worker now j)
              (run (claimed_row lease token worker now j)) with
      | NoWrite => j_State j' = StateRunning
      | WriteComplete => j_State j' = StateCompleted /\ j_CompletedAt j' = Some now
      | WriteFail cause deadLetter =>
          j_LastError j' = Some (truncateBytes (Error cause) maxLastErrorBytes) /\
          (deadLetter = true <-> lookup_kind (j_Kind j) r = None \/ IsPermanent cause = true \/
             exists reg, lookup_kind (j_Kind j) r = Some reg /\ maxAttempts reg <= j_Attempts j + 1) /\
          if deadLetter then j_State j' = StateDeadLetter
          else j_State j' = StateRetrying /\
               j_AvailableAt j' = Add now (For b (j_Attempts j + 1) jitter)
      end
  else t' = t /\ (paused = true \/ claim_query ∅ (kinds r) now t = None).
Proof.
  intros Hk. unfold pollOnce. destruct paused; [intros [= <- <-]; auto|].
  unfold ClaimNext. destruct (claim_tx lease token ∅ worker (kinds r) now t) as [out t1] eqn:Hc.
  destruct (claim_tx_cases _ _ _ _ _ _ _ _ _ Hk Hc) as [(-> & -> & Hq)|(j & Hq & Hj & Hcl & -> & ->)].
  { intros [= <- <-]. auto. }
  unfold GetJob. rewrite lookup_insert_eq. cbn [fmap res_fmap]. intros [= <- <-]. set (j1 := claimed_row lease token worker now j).
  assert (Hfen : forall update, (fenced (j_ID j1) (token_of j1) update (<[j_ID j := j1]> t)).2 =
            <[j_ID j := update j1]> t).
  { intros update. unfold fenced. simpl. rewrite lookup_insert_eq.
    rewrite !bool_decide_eq_true_2 by done. simpl. by rewrite insert_insert_eq. }
  exists j. fold j1. change (j_Kind j1) with (j_Kind j).
  destruct (execute (lookup_kind (j_Kind j) r) j1 (run j1)) as [| |cause dl] eqn:Hex; simpl.
  - exists j1. conjuncts.
  - unfold finishSuccess, Complete. rewrite Hfen. eexists. split; [done|]. split; [reflexivity|].
    by unfold same_job.
  - unfold finishFailure, Fail_. rewrite Hfen. eexists. split; [done|]. split; [reflexivity|].
    split; [by unfold same_job|]. cbn [j_LastError j_State j_AvailableAt redactError].
    split; [done|]. split; [|by destruct dl].
    unfold execute in Hex. destruct (lookup_kind (j_Kind j) r) as [reg|].
    + destruct (leaseLost (run j1)), (parentDone (run j1)), (jobDone (run j1)); try done.
      destruct (runErr (run j1)) as [e|]; [|done]. injection Hex as <- <-.
      rewrite orb_true_iff, Z.leb_le. simpl. split.
      * intros [?|?]; [by right; left|right; right]. by exists reg.
      * intros [?|[?|(x & [= <-] & ?)]]; [done|by left|by right].
    + injection Hex as _ <-. split; [by left | done].
Qed.

(** ** A concrete history

    One import job with a budget of two: enqueued, claimed and read by a first
    worker, reclaimed by the reaper after its lease ran out, claimed and read
    by a second one.  Both workers still have what they read. *)
Definition demo_registry : Registry unit := {[ "import" := mkRegistration 2 tt ]}.
Definition demo_backoff : Backoff := cfg_Backoff DefaultConfig.
Definition demo_lease : Duration := LeaseDuration DefaultConfig.
Definition demo_delay (n : Z) : Duration := For demo_backoff n f64_zero.

Definition demo_t1 : jobs_table := {[ "j1" := queued_row "j1" "import" "{}" 2 0 0 ]}.
Definition demo_claim1 : Job :=
  claimed_row demo_lease "t1" "w1" 0 (queued_row "j1" "import" "{}" 2 0 0).
Definition demo_t2 : jobs_table := {[ "j1" := demo_claim1 ]}.
Definition demo_reclaimed : Job := reclaimed_row demo_delay "t2" (100 * Second) demo_claim1.
Definition demo_t3 : jobs_table := {[ "j1" := demo_reclaimed ]}.
Definition demo_claim2 : Job := claimed_row demo_lease "t3" "w2" (200 * Second) demo_reclaimed.
Definition demo_t4 : jobs_table := {[ "j1" := demo_claim2 ]}.

Definition demo_lease1 : claim := mkClaim "j1" (Add 0 demo_lease).
Definition demo_lease2 : claim := mkClaim "j1" (Add (200 * Second) demo_lease).
Definition demo_un1 : gmap string claim := <[ "t1" := demo_lease1 ]> ∅.
Definition demo_held1 : gmap string held := <[ "t1" := mkHeld demo_claim1 (read_in_time demo_lease1 []) ]> ∅.
Definition demo_toks1 : gset string := {[ "t1" ]} ∪ ∅.
Definition demo_toks2 : gset string := {[ "t2" ]} ∪ demo_toks1.
Definition demo_toks3 : gset string := {[ "t3" ]} ∪ demo_toks2.

Definition demo_s1 : jobs_system := mkSystem demo_t2 demo_un1 ∅ demo_toks1 [].
Definition demo_s2 : jobs_system := mkSystem demo_t2 (delete "t1" demo_un1) demo_held1 demo_toks1 [].
Definition demo_s3 : jobs_system :=
  mkSystem demo_t3 (delete "t1" demo_un1) demo_held1 demo_toks2 [100 * Second].
Definition demo_s4 : jobs_system :=
  mkSystem demo_t4 (delete "t3" (<[ "t3" := demo_lease2 ]> (delete "t1" demo_un1)))
    (<[ "t3" := mkHeld demo_claim2 (read_in_time demo_lease2 [100 * Second]) ]> demo_held1)
    demo_toks3 [100 * Second].

Abbreviation dstep := (jstep demo_registry demo_backoff demo_lease) (only parsing).

Lemma claim_singleton lease token worker kinds now j :
  claimable ∅ kinds now j = true ->
  claim_tx lease token ∅ worker kinds now {[ j_ID j := j ]} =
    (Some (j_ID j), {[ j_ID j := claimed_row lease token worker now j ]}).
Proof.
  intros Hc. unfold claim_tx, claim_query. rewrite map_to_list_singleton. simpl. rewrite Hc. simpl.
  by rewrite insert_singleton_eq.
Qed.

Lemma demo_reach1 : rtc dstep initial demo_s1.
Proof.
  eapply rtc_l; [|apply rtc_once].
  - eapply (js_enqueue _ _ _ "j1" 0 "import" (Ok "{}") ∅ demo_t1). vm_compute. reflexivity.
  - eapply (js_claim _ _ _ "t1" ∅ "w1" 0); [by apply (bool_decide_unpack _)|done|vm_compute; discriminate|].
    apply (claim_singleton _ _ _ _ _ (queued_row "j1" "import" "{}" 2 0 0)). reflexivity.
Qed.

Lemma demo_reach2 : rtc dstep initial demo_s2.
Proof. eapply rtc_r; [exact demo_reach1|]. by apply js_read. Qed.

(** What the reaper does to the row, whatever else there is. *)
Lemma demo_reclaim un hs :
  dstep (mkSystem demo_t2 un hs demo_toks1 []) (mkSystem demo_t3 un hs demo_toks2 [100 * Second]).
Proof.
  pose proof (js_reclaim demo_registry demo_backoff demo_lease demo_delay "t2" ∅ (100 * Second) "j1"
    demo_t2 un hs demo_toks1 []) as Hstep.
  assert (E : (reclaimOne demo_delay "t2" ∅ (100 * Second) "j1" demo_t2).2 = demo_t3)
    by (unfold reclaimOne, demo_t2; rewrite lookup_singleton_eq; apply insert_singleton_eq).
  rewrite E in Hstep. apply Hstep; [by apply (bool_decide_unpack _)|done].
Qed.

(** The second claim and its read. *)
Lemma demo_second un hs :
  rtc dstep (mkSystem demo_t3 un hs demo_toks2 [100 * Second])
    (mkSystem demo_t4 (delete "t3" (<[ "t3" := demo_lease2 ]> un))
       (<[ "t3" := mkHeld demo_claim2 (read_in_time demo_lease2 [100 * Second]) ]> hs)
       demo_toks3 [100 * Second]).
Proof.
  eapply rtc_l; [|apply rtc_once].
  - eapply (js_claim _ _ _ "t3" ∅ "w2" (200 * Second));
      [by apply (bool_decide_unpack _)|done|vm_compute; discriminate|].
    apply (claim_singleton _ _ _ _ _ demo_reclaimed). vm_compute. reflexivity.
  - apply js_read; [by rewrite lookup_insert_eq|reflexivity].
Qed.

Lemma demo_step3 : dstep demo_s2 demo_s3.
Proof. apply demo_reclaim. Qed.

Lemma demo_run34 : rtc dstep demo_s3 demo_s4.
Proof. apply demo_second. Qed.

Lemma demo_reach4 : rtc dstep initial demo_s4.
Proof. etransitivity; [exact demo_reach2|]. eapply rtc_l; [exact demo_step3 | exact demo_run34]. Qed.

Lemma demo_owner : owns demo_s4 demo_claim2.
Proof. exists demo_claim2. split; [vm_compute; reflexivity|]. split; reflexivity. Qed.

Lemma demo_in_time i : all_in_time i demo_s4.
Proof.
  intros k x Hx _. unfold demo_s4, sys_held, demo_held1 in Hx.
  apply lookup_insert_Some in Hx as [[_ <-]|[_ Hx]]; [vm_compute; reflexivity|].
  apply lookup_insert_Some in Hx as [[_ <-]|[_ Hx]]; [vm_compute; reflexivity|done].
Qed.

(** The case the theorems exclude does arise: when the first worker reads only
    after its lease was reclaimed and the job claimed again, both read the
    second claim's row and own the job, and the first one's completion is
    written. *)
Definition demo_late : jobs_system :=
  mkSystem demo_t4 (delete "t1" (delete "t3" (<[ "t3" := demo_lease2 ]> demo_un1)))
    (<[ "t1" := mkHeld demo_claim2 (read_in_time demo_lease1 [100 * Second]) ]>
       (<[ "t3" := mkHeld demo_claim2 (read_in_time demo_lease2 [100 * Second]) ]> ∅))
    demo_toks3 [100 * Second].
Lemma late_read_shares_lease :
  rtc dstep initial demo_late /\
  (exists x1 x2, sys_held demo_late !! "t1" = Some x1 /\ sys_held demo_late !! "t3" = Some x2 /\
     owns demo_late (h_job x1) /\ owns demo_late (h_job x2) /\ h_in_time x1 = false /\
     (Complete "j1" (token_of (h_job x1)) (201 * Second) (sys_rows demo_late)).1 = true).
Proof.
  split.
  - etransitivity; [exact demo_reach1|]. eapply rtc_l; [apply demo_reclaim|].
    eapply rtc_r; [apply demo_second|]. apply js_read; [by vm_compute|reflexivity].
  - exists (mkHeld demo_claim2 false), (mkHeld demo_claim2 true).
    assert (Ho : owns demo_late demo_claim2)
      by (exists demo_claim2; split; [vm_compute; reflexivity|split; reflexivity]).
    split; [vm_compute; reflexivity|]. split; [vm_compute; reflexivity|].
    split; [exact Ho|]. split; [exact Ho|]. split; [reflexivity|]. vm_compute. reflexivity.
Qed.

Lemma demo_keyed t : t = demo_t1 \/ t = demo_t4 -> table_keyed t.
Proof.
  intros [->| ->] i j Hj; unfold demo_t1, demo_t4 in Hj;
    apply lookup_singleton_Some in Hj as [<- <-]; reflexivity.
Qed.

Lemma one_owner_per_job_witness :
  owns demo_s4 demo_claim2 /\
  (forall k x, sys_held demo_s4 !! k = Some x -> j_ID (h_job x) = "j1" -> owns demo_s4 (h_job x) -> k = "t3").
Proof.
  split; [exact demo_owner|]. intros k x Hx Hid Hown.
  apply (one_owner_per_job demo_registry demo_backoff demo_lease demo_s4 "j1" k "t3" x
           (mkHeld demo_claim2 true) demo_reach4 (demo_in_time "j1") Hx);
    [vm_compute; reflexivity | exact Hid | reflexivity | exact Hown | exact demo_owner].
Defined.

Lemma lost_lease_is_fenced_witness :
  finish demo_backoff f64_zero (201 * Second) demo_claim1
    (execute (lookup_kind "import" demo_registry) demo_claim1 (mkRun false false false None)) demo_t4
  = demo_t4.
Proof.
  destruct (lost_lease_is_fenced demo_registry demo_backoff demo_lease demo_s3 demo_s4 "t1"
    (mkHeld demo_claim1 true) (201 * Second) (mkRun false false false None) f64_zero 0 0) as [H _].
  - eapply rtc_r; [exact demo_reach2 | exact demo_step3].
  - vm_compute. reflexivity.
  - exact demo_run34.
  - destruct H as (_ & _ & _ & H); [|exact H].
    intros (j & Hj & Hrun & _). vm_compute in Hj. injection Hj as <-. discriminate Hrun.
Defined.

Lemma attempts_bounded_witness :
  sys_rows demo_s4 !! "j1" = Some demo_claim2 /\ 0 <= j_Attempts demo_claim2 <= 2.
Proof.
  assert (E : sys_rows demo_s4 !! "j1" = Some demo_claim2) by (vm_compute; reflexivity).
  split; [exact E|].
  exact (proj1 (attempts_bounded demo_registry demo_backoff demo_lease demo_s4 "j1" demo_claim2
                  demo_reach4 E)).
Defined.

Lemma lifecycle_respected_witness :
  CanTransitionTo StateRunning StateRetrying = true /\
  (j_State demo_reclaimed = StateRunning \/
   CanTransitionTo (j_State demo_claim1) (j_State demo_reclaimed) = true \/
   (j_State demo_reclaimed = StateDeadLetter /\
    j_LastError demo_reclaimed = Some "cancelled_by_admin" /\
    CanTransitionTo (j_State demo_claim1) (j_State demo_reclaimed) = false)).
Proof.
  split; [reflexivity|].
  destruct (lifecycle_respected demo_registry demo_backoff demo_lease demo_s2 demo_s3 "j1" demo_claim1
              demo_reach2 demo_step3) as [_ H]; [vm_compute; reflexivity|].
  apply (H demo_reclaimed). vm_compute. reflexivity.
Defined.

Lemma ClaimNext_correct_witness :
  ClaimNext demo_lease "t1" ∅ "w1" ["import"] 0 (fun t => t) None None demo_t1 =
    (Ok (Some demo_claim1), demo_t2) /\
  exists j, demo_t1 !! j_ID j = Some j /\ j_ID j = "j1".
Proof.
  assert (E : ClaimNext demo_lease "t1" ∅ "w1" ["import"] 0 (fun t => t) None None demo_t1 =
    (Ok (Some demo_claim1), demo_t2)).
  { unfold ClaimNext.
    pose proof (claim_singleton demo_lease "t1" "w1" ["import"] 0 (queued_row "j1" "import" "{}" 2 0 0) eq_refl)
      as Hc.
    change (claim_tx demo_lease "t1" ∅ "w1" ["import"] 0 demo_t1 = (Some "j1", demo_t2)) in Hc.
    rewrite Hc. reflexivity. }
  split; [exact E|].
  destruct (ClaimNext_correct demo_lease "t1" ∅ "w1" ["import"] 0 (fun t => t) None None demo_t1 _ _
              (demo_keyed _ (or_introl eq_refl)) E)
    as [(e & H & _)|[(_ & H & _)|(j & j' & H1 & _)]]; [discriminate H|discriminate H|].
  exists j. split; [exact H1|]. unfold demo_t1 in H1. apply lookup_singleton_Some in H1 as [H1 _]. by symmetry.
Defined.

Lemma RecoverStale_correct_witness :
  let out := RecoverStale demo_delay (fun id => "fresh-" +:+ id) ∅ (300 * Second) demo_t4 in
  out.1 = 1 /\
  exists j', out.2 !! "j1" = Some j' /\ recovered demo_delay "fresh-j1" (300 * Second) demo_claim2 j' /\
    j_State j' = StateDeadLetter.
Proof.
  intros out.
  destruct (RecoverStale_correct demo_delay (fun id => "fresh-" +:+ id) ∅ (300 * Second) demo_t4
              (demo_keyed _ (or_intror eq_refl))) as (_ & H & _).
  split; [vm_compute; reflexivity|].
  destruct (H "j1" demo_claim2 eq_refl) as (j' & Hj' & Hrec & _).
  assert (recovered demo_delay "fresh-j1" (300 * Second) demo_claim2 j') as Hr.
  { apply Hrec; [apply stale_spec; vm_compute; reflexivity|set_solver]. }
  exists j'. split; [exact Hj'|]. split; [exact Hr|].
  apply Hr. vm_compute. discriminate.
Defined.

Lemma backoff_delay_spec_witness :
  backoff_delay demo_backoff 3 = 20 * Second /\
  backoff_delay demo_backoff 3 = Z.min (5 * Second * 2 ^ (Z.max 1 3 - 1)) (5 * Minute).
Proof.
  split; [vm_compute; reflexivity|].
  apply (backoff_delay_spec demo_backoff 3); vm_compute; split; (reflexivity || discriminate).
Defined.

Lemma pollOnce_outcome_witness :
  exists j j', pollOnce demo_registry demo_backoff demo_lease f64_zero false "t1" "w1" 0
                 (fun _ => mkRun false false false None) demo_t1 = (true, <[j_ID j := j']> demo_t1) /\
    same_job (claimed_row demo_lease "t1" "w1" 0 j) j' /\ j_Attempts j' = 1.
Proof.
  destruct (pollOnce demo_registry demo_backoff demo_lease f64_zero false "t1" "w1" 0
              (fun _ => mkRun false false false None) demo_t1) as [claimed t'] eqn:E.
  pose proof (pollOnce_outcome demo_registry demo_backoff demo_lease f64_zero false "t1" "w1" 0
                (fun _ => mkRun false false false None) demo_t1 claimed t'
                (demo_keyed _ (or_introl eq_refl)) E) as H.
  destruct claimed; [|exfalso; vm_compute in E; discriminate E].
  destruct H as (j & j' & Hq & -> & Hsame & _). exists j, j'.
  split; [reflexivity|]. split; [exact Hsame|].
  destruct Hsame as (_ & _ & _ & -> & _). vm_compute in Hq. injection Hq as <-. reflexivity.
Defined.
