(* ===== verification/Pairing.v ===== *)
(** * Device pairing (src/internal/domain/device_pairing.go,
      src/internal/pairing/code.go)

    The pairing code and its generator, the pairing session's state machine
    and the paired device.  A method that mutates its receiver is a
    computation of the state-and-error monad over the receiver: an error may
    leave a mutation behind (a stale session expires while its caller is
    refused). *)

From Stdlib Require Import Sorting.Sorted.
From S2P Require Import Prelude GoStrings Errors Catalog.

Local Open Scope string_scope.
Local Open Scope list_scope.
Local Open Scope Z_scope.

Definition ErrInvalidPairingCode : error := New "pairing code is malformed".
Definition ErrPairingExpired : error := New "pairing session has expired".
Definition ErrPairingWrongState : error :=
  New "pairing session is in the wrong state for this operation".
Definition ErrPairingCodeMismatch : error := New "pairing code does not match".
Definition ErrDeviceRevoked : error := New "paired device is revoked".
Definition ErrDeviceAlreadyRevoked : error := New "paired device is already revoked".

(** ** The code *)

Definition CrockfordAlphabet : string := "0123456789ABCDEFGHJKMNPQRSTVWXYZ".
Definition pairingCodeLen : Z := 8.

(** [strings.ContainsRune(CrockfordAlphabet, r)]. *)
Definition in_alphabet (r : Z) : bool := existsb (Z.eqb r) (runes CrockfordAlphabet).

(** The wrapped bytes; the zero value holds none. *)
Record PairingCode := mkPairingCode { code_b : string }.

#[export] Instance PairingCode_eq_dec : EqDecision PairingCode.
Proof. solve_decision. Defined.

Section codes.
Context `{CaseTables}.

Definition NewPairingCode (untrusted : string) : Result PairingCode :=
  let n := ToUpper (remove_char "-" (TrimSpace untrusted)) in
  if negb (len n =? pairingCodeLen) then
    Err (DomainError InvalidInput
      ("pairing code must be " +:+ itoa pairingCodeLen +:+ " characters")
      (Some ErrInvalidPairingCode))
  else if negb (forallb in_alphabet (runes n)) then
    Err (DomainError InvalidInput
      "pairing code must use the Crockford base32 alphabet (no I, L, O or U)"
      (Some ErrInvalidPairingCode))
  else Ok (mkPairingCode n).
End codes.

(** [subtle.ConstantTimeCompare] is 1 on equal contents and 0 otherwise. *)
Definition ConstantTimeCompare (x y : string) : Z := if String.eqb x y then 1 else 0.

Definition Equal (c other : PairingCode) : bool :=
  if negb (len (code_b c) =? pairingCodeLen) || negb (len (code_b other) =? pairingCodeLen)
  then false
  else ConstantTimeCompare (code_b c) (code_b other) =? 1.

Definition Normalized (c : PairingCode) : string := code_b c.

(** [b[:4]] and [b[4:]] of the eight bytes. *)
Definition Display (c : PairingCode) : string :=
  if negb (len (code_b c) =? pairingCodeLen) then ""
  else String.substring 0 4 (code_b c) +:+ "-" +:+
       String.substring 4 (String.length (code_b c) - 4) (code_b c).

Definition CodeString (c : PairingCode) : string := "[pairing code]".

(** ** The generator (internal/pairing/code.go) *)

Definition codeBytes : nat := 5.

(** [CrockfordAlphabet[v&0x1f]]. *)
Definition alphabet_at (v : Z) : ascii :=
  default "0"%char (String.list_ascii_of_string CrockfordAlphabet !! Z.to_nat (Z.land v 31)).

(** The five bytes packed big-endian into a [uint64]. *)
Definition pack40 (b : list Z) : Z :=
  let at_ i := default 0 (b !! i) in
  Z.lor (Z.lor (Z.lor (Z.lor (Z.shiftl (at_ 0%nat) 32) (Z.shiftl (at_ 1%nat) 24))
    (Z.shiftl (at_ 2%nat) 16)) (Z.shiftl (at_ 3%nat) 8)) (at_ 4%nat).

(** The loop for [i = n - 1] down to [0]: fills [out[i]] from the low bits. *)
Fixpoint crockford_loop (n : nat) (v : Z) (out : list ascii) : list ascii :=
  match n with
  | O => out
  | S n' => crockford_loop n' (Z.shiftr v 5) (alphabet_at v :: out)
  end.

Definition encodeCrockford40 (b : list Z) : string :=
  String.string_of_list_ascii (crockford_loop 8 (pack40 b) []).

(** [read] is what [crypto/rand] answers: the bytes, or its error. *)
Definition GeneratePairingCode `{CaseTables} (read : Result (list Z)) : Result PairingCode :=
  match read with
  | Ok b => NewPairingCode (encodeCrockford40 b)
  | Err err => Err (Errorf ("pairing code entropy: " +:+ Error err) err)
  | OutOfFuel => OutOfFuel
  end.

(** ** The session *)

Abbreviation PairingState := string (only parsing).
Definition PairingPending : PairingState := "pending".
Definition PairingVerified : PairingState := "verified".
Definition PairingConsumed : PairingState := "consumed".
Definition PairingExpired : PairingState := "expired".

Definition state_valid (s : PairingState) : bool :=
  existsb (String.eqb s) [PairingPending; PairingVerified; PairingConsumed; PairingExpired].

Definition maxPairingTTL : Duration := 5 * Minute.

Record PairingSession := mkPairingSession {
  ps_id : PairingSessionID;
  ps_initiatedBy : UserID;
  ps_code : PairingCode;
  ps_state : PairingState;
  ps_createdAt : Time;
  ps_expiresAt : Time;
  ps_deviceID : option DeviceID;
}.

#[export] Instance PairingSession_eq_dec : EqDecision PairingSession.
Proof. solve_decision. Defined.

Definition set_ps_state (st : PairingState) (s : PairingSession) : PairingSession :=
  mkPairingSession (ps_id s) (ps_initiatedBy s) (ps_code s) st (ps_createdAt s)
    (ps_expiresAt s) (ps_deviceID s).
Definition set_ps_deviceID (d : option DeviceID) (s : PairingSession) : PairingSession :=
  mkPairingSession (ps_id s) (ps_initiatedBy s) (ps_code s) (ps_state s) (ps_createdAt s)
    (ps_expiresAt s) d.

Definition NewPairingSession (id : PairingSessionID) (initiatedBy : UserID)
    (code : PairingCode) (ttl : Duration) (now : Time) : Result PairingSession :=
  if blank id then fails InvalidInput "pairing session ID cannot be empty"
  else if blank initiatedBy then
    fails InvalidInput "pairing session must record the initiating user"
  else if (ttl <=? 0) || (maxPairingTTL <? ttl) then
    fails InvalidInput
      ("pairing TTL must be within (0, " +:+ duration_string maxPairingTTL +:+ "]")
  else Ok (mkPairingSession id initiatedBy code PairingPending now (Add now ttl) None).

Definition RehydratePairingSession (id : PairingSessionID) (initiatedBy : UserID)
    (code : PairingCode) (state : PairingState) (createdAt expiresAt : Time)
    (deviceID : option DeviceID) : Result PairingSession :=
  let window := Sub expiresAt createdAt in
  if blank id || blank initiatedBy then
    fails Internal "persisted pairing session is missing an identifier"
  else if negb (len (code_b code) =? pairingCodeLen) then
    fails Internal "persisted pairing session has an invalid code"
  else if negb (state_valid state) then
    fails Internal ("persisted pairing session has an unknown state " +:+ quote state)
  else if (window <=? 0) || (maxPairingTTL <? window) then
    fails Internal
      ("persisted pairing session has an out-of-range TTL of " +:+ duration_string window)
  else if match deviceID with Some d => blank d | None => false end then
    fails Internal "persisted pairing session has a blank device ID"
  else
    let session :=
      mkPairingSession id initiatedBy code state createdAt expiresAt deviceID in
    if String.eqb state PairingPending then
      match deviceID with
      | Some _ => fails Internal "persisted pending pairing session has a device ID"
      | None => Ok session
      end
    else if String.eqb state PairingVerified || String.eqb state PairingConsumed then
      match deviceID with
      | None => fails Internal
          ("persisted " +:+ state +:+ " pairing session has no device ID")
      | Some _ => Ok session
      end
    else Ok session.

(** The methods of the session, each over its receiver. *)
Abbreviation sessionM := (stM PairingSession error) (only parsing).

Definition isExpired (now : Time) (s : PairingSession) : bool :=
  negb (Before now (ps_expiresAt s)).

Definition terminal (s : PairingSession) : bool :=
  String.eqb (ps_state s) PairingConsumed || String.eqb (ps_state s) PairingExpired.

Definition ExpireAt (now : Time) (s : PairingSession) : PairingSession :=
  if negb (String.eqb (ps_state s) PairingPending)
     && negb (String.eqb (ps_state s) PairingVerified) then s
  else if isExpired now s then set_ps_state PairingExpired s
  else s.

Definition wrong_state (st : PairingState) (verb : string) : error :=
  DomainError Conflict
    ("pairing session in state " +:+ quote st +:+ " cannot be " +:+ verb)
    (Some ErrPairingWrongState).

Definition checkAdvanceable (now : Time) (expected : PairingState) (verb expiredMsg : string)
    : sessionM unit := fun s =>
  if terminal s then (Err (wrong_state (ps_state s) verb), s)
  else if isExpired now s then
    (Err (DomainError Conflict expiredMsg (Some ErrPairingExpired)),
     set_ps_state PairingExpired s)
  else if negb (String.eqb (ps_state s) expected) then
    (Err (wrong_state (ps_state s) verb), s)
  else (Ok tt, s).

Definition Verify (now : Time) (submitted : PairingCode) (deviceID : DeviceID)
    : sessionM unit :=
  _ ← checkAdvanceable now PairingPending "verified" "pairing code not recognised";
  if blank deviceID then throw (mkErr Internal "Verify requires a non-empty device ID")
  else fun s =>
    if negb (Equal (ps_code s) submitted) then
      (Err (DomainError Conflict "pairing code not recognised" (Some ErrPairingCodeMismatch)), s)
    else (Ok tt, set_ps_state PairingVerified (set_ps_deviceID (Some deviceID) s)).

Definition Consume (now : Time) : sessionM unit :=
  _ ← checkAdvanceable now PairingVerified "consumed" "pairing session has expired";
  modify (set_ps_state PairingConsumed).

(** ** The paired device *)

Abbreviation DeviceClass := string (only parsing).
Definition DeviceClassPhone : DeviceClass := "phone".
Definition DeviceClassTablet : DeviceClass := "tablet".
Definition DeviceClassDesktop : DeviceClass := "desktop".
Definition DeviceClassTV : DeviceClass := "tv".
Definition DeviceClassUnknown : DeviceClass := "unknown".
Definition class_valid (c : DeviceClass) : bool :=
  existsb (String.eqb c)
    [DeviceClassPhone; DeviceClassTablet; DeviceClassDesktop; DeviceClassTV; DeviceClassUnknown].

Abbreviation EnrolledVia := string (only parsing).
Definition EnrolledViaPairingCode : EnrolledVia := "pairing_code".
Definition EnrolledViaPasswordLogin : EnrolledVia := "password_login".
Definition via_valid (v : EnrolledVia) : bool :=
  String.eqb v EnrolledViaPairingCode || String.eqb v EnrolledViaPasswordLogin.

Definition maxDeviceLabelRunes : Z := 100.

Record PairedDevice := mkPairedDevice {
  pd_id : DeviceID;
  pd_owner : UserID;
  pd_label : string;
  pd_deviceClass : DeviceClass;
  pd_enrolledVia : EnrolledVia;
  pd_createdAt : Time;
  pd_lastSeenAt : Time;
  pd_revokedAt : option Time;
  pd_syncCursor : Z;
  pd_lastSyncedAt : option Time;
}.

#[export] Instance PairedDevice_eq_dec : EqDecision PairedDevice.
Proof. solve_decision. Defined.

Definition NewPairedDevice (id : DeviceID) (owner : UserID) (label : string)
    (deviceClass : DeviceClass) (enrolledVia : EnrolledVia) (now : Time) : Result PairedDevice :=
  if blank id then fails InvalidInput "device ID cannot be empty"
  else if blank owner then fails InvalidInput "paired device must have an owner"
  else
    let label := TrimSpace label in
    if String.eqb label "" then fails InvalidInput "device label cannot be empty"
    else if maxDeviceLabelRunes <? rune_count label then
      fails InvalidInput
        ("device label cannot exceed " +:+ itoa maxDeviceLabelRunes +:+ " characters")
    else if negb (class_valid deviceClass) then
      fails InvalidInput ("unknown device class " +:+ quote deviceClass)
    else if negb (via_valid enrolledVia) then
      fails InvalidInput ("unknown enrolment method " +:+ quote enrolledVia)
    else Ok (mkPairedDevice id owner label deviceClass enrolledVia now now None 0 None).

Definition RehydratePairedDevice (id : DeviceID) (owner : UserID) (label : string)
    (deviceClass : DeviceClass) (enrolledVia : EnrolledVia) (createdAt lastSeenAt : Time)
    (revokedAt : option Time) (syncCursor : Z) (lastSyncedAt : option Time)
    : Result PairedDevice :=
  if blank id || blank owner then
    fails Internal "persisted paired device is missing an identifier"
  else if blank label || (maxDeviceLabelRunes <? rune_count label) then
    fails Internal "persisted paired device has an invalid label"
  else if negb (class_valid deviceClass) then
    fails Internal ("persisted paired device has an unknown class " +:+ quote deviceClass)
  else if negb (via_valid enrolledVia) then
    fails Internal
      ("persisted paired device has an unknown enrolment method " +:+ quote enrolledVia)
  else if syncCursor <? 0 then
    fails Internal "persisted paired device has a negative sync cursor"
  else Ok (mkPairedDevice id owner label deviceClass enrolledVia createdAt lastSeenAt revokedAt
             syncCursor lastSyncedAt).

Abbreviation deviceM := (stM PairedDevice error) (only parsing).

Definition Revoke (now : Time) : deviceM unit := fun d =>
  match pd_revokedAt d with
  | Some _ => (Err (DomainError Conflict "paired device is already revoked"
                      (Some ErrDeviceAlreadyRevoked)), d)
  | None =>
      (Ok tt, mkPairedDevice (pd_id d) (pd_owner d) (pd_label d) (pd_deviceClass d)
                (pd_enrolledVia d) (pd_createdAt d) (pd_lastSeenAt d) (Some now)
                (pd_syncCursor d) (pd_lastSyncedAt d))
  end.

Definition revoked_error : error :=
  DomainError Conflict "paired device is revoked" (Some ErrDeviceRevoked).

Definition Touch (now : Time) : deviceM unit := fun d =>
  match pd_revokedAt d with
  | Some _ => (Err revoked_error, d)
  | None =>
      if After now (pd_lastSeenAt d) then
        (Ok tt, mkPairedDevice (pd_id d) (pd_owner d) (pd_label d) (pd_deviceClass d)
                  (pd_enrolledVia d) (pd_createdAt d) now (pd_revokedAt d)
                  (pd_syncCursor d) (pd_lastSyncedAt d))
      else (Ok tt, d)
  end.

Definition AdvanceCursor (newCursor : Z) (at_ : Time) : deviceM unit := fun d =>
  match pd_revokedAt d with
  | Some _ => (Err revoked_error, d)
  | None =>
      if newCursor <=? pd_syncCursor d then
        (Err (mkErr InvalidInput
           ("new sync cursor " +:+ itoa newCursor +:+ " must be strictly greater than current "
            +:+ itoa (pd_syncCursor d))), d)
      else
        (Ok tt, mkPairedDevice (pd_id d) (pd_owner d) (pd_label d) (pd_deviceClass d)
                  (pd_enrolledVia d) (pd_createdAt d) (pd_lastSeenAt d) (pd_revokedAt d)
                  newCursor (Some at_))
  end.

(** ** Codes: what the constructor accepts *)

Definition code_ok (n : string) : bool :=
  (len n =? pairingCodeLen) && forallb in_alphabet (bytes n).

Lemma in_alphabet_cases (P : Z -> Prop) :
  Forall P (runes CrockfordAlphabet) -> forall r, in_alphabet r = true -> P r.
Proof.
  intros Hf r Hr. unfold in_alphabet in Hr. apply existsb_exists in Hr as (x & Hx & E).
  apply Z.eqb_eq in E as ->. apply list_elem_of_In in Hx.
  rewrite Forall_forall in Hf. by apply Hf.
Qed.

Lemma in_alphabet_facts `{CaseTables} r : in_alphabet r = true ->
  0 <= r < 128 /\ IsSpace r = false /\ r <> 45 /\ upper_rune r = r /\
  0 <= lower_rune r < 128 /\ IsSpace (lower_rune r) = false /\ lower_rune r <> 45 /\
  upper_rune (lower_rune r) = r.
Proof.
  revert r. apply in_alphabet_cases. change (runes CrockfordAlphabet) with
    [48;49;50;51;52;53;54;55;56;57;65;66;67;68;69;70;71;72;74;75;77;78;80;81;82;83;84;86;87;88;89;90].
  repeat (apply Forall_cons; split; [repeat split; (done || lia)|]). done.
Qed.

Section code_lemmas.
Context `{CaseTables}.

Definition normal (s : string) : string := ToUpper (remove_char "-" (TrimSpace s)).

Lemma code_ok_Forall n : code_ok n = true ->
  len n = pairingCodeLen /\ Forall (fun b => in_alphabet b = true) (bytes n).
Proof.
  unfold code_ok. rewrite andb_true_iff, forallb_forall. intros [Hl Ha].
  split; [lia|]. apply Forall_forall. intros b Hb%list_elem_of_In. by apply Ha.
Qed.

Lemma code_ok_ascii n : code_ok n = true -> is_ascii n = true.
Proof.
  intros [_ Hf]%code_ok_Forall. apply is_ascii_Forall.
  eapply Forall_impl; [exact Hf|]. intros b Hb%in_alphabet_facts. lia.
Qed.

Lemma NewPairingCode_spec s c :
  NewPairingCode s = Ok c <-> c = mkPairingCode (normal s) /\ code_ok (normal s) = true.
Proof.
  unfold NewPairingCode. fold (normal s). generalize (normal s) as n. intros n. unfold code_ok.
  destruct (len n =? pairingCodeLen) eqn:Hl; simpl; [|by split; [|intros [_ ?]]].
  enough (forallb in_alphabet (runes n) = forallb in_alphabet (bytes n)) as ->.
  { destruct (forallb in_alphabet (bytes n)); simpl; split; [by intros [=]|by intros [-> _]|done|].
    by intros [_ ?]. }
  destruct (is_ascii n) eqn:Ha; [by rewrite runes_ascii|].
  assert (forall l, Forall (fun r => r < 128) l \/ forallb in_alphabet l = false) as Hcase.
  { intros l. destruct (forallb in_alphabet l) eqn:E; [left|by right].
    rewrite forallb_forall in E. apply Forall_forall. intros r Hr%list_elem_of_In.
    apply E in Hr. apply in_alphabet_facts in Hr. lia. }
  destruct (Hcase (runes n)) as [Hr| ->]; [apply runes_low in Hr; congruence|].
  destruct (Hcase (bytes n)) as [Hb| ->]; [|done].
  apply is_ascii_Forall in Hb. congruence.
Qed.

(** An untrusted string made of code characters and hyphens, in either case,
    is normalised by dropping the hyphens and folding the case. *)
Lemma normal_bytes s :
  Forall (fun b => b = 45 \/ in_alphabet (upper_rune b) = true /\ 0 <= b < 128 /\ IsSpace b = false)
    (bytes s) ->
  bytes (normal s) = upper_rune <$> List.filter (fun b => negb (b =? 45)) (bytes s).
Proof.
  intros Hf. unfold normal.
  assert (is_ascii s = true) as Ha.
  { apply is_ascii_Forall. eapply Forall_impl; [exact Hf|]. simpl. intros; lia. }
  rewrite TrimSpace_id; [|done|].
  2:{ eapply Forall_impl; [exact Hf|]. simpl. intros b [->|(_ & _ & ?)]; done. }
  unfold ToUpper. rewrite map_runes_ascii; rewrite ?bytes_remove_char; [done|..].
  - apply is_ascii_Forall. rewrite bytes_remove_char. apply Forall_forall.
    intros b Hb. apply list_elem_of_In, filter_In in Hb as [Hb _].
    apply list_elem_of_In in Hb. rewrite is_ascii_Forall, Forall_forall in Ha. by apply Ha.
  - apply Forall_forall. intros b Hb. apply list_elem_of_In, filter_In in Hb as [Hb Hne].
    apply list_elem_of_In in Hb. rewrite Forall_forall in Hf. apply Hf in Hb as [->|(Hu & _)].
    + done.
    + apply in_alphabet_facts in Hu. lia.
Qed.

Lemma code_ok_NewPairingCode s n :
  code_ok n = true -> normal s = n -> NewPairingCode s = Ok (mkPairingCode n).
Proof. intros Hn <-. by apply NewPairingCode_spec. Qed.
End code_lemmas.

Lemma Display_bytes c :
  len (code_b c) = pairingCodeLen ->
  bytes (Display c) = take 4 (bytes (code_b c)) ++ 45 :: drop 4 (bytes (code_b c)).
Proof.
  destruct c as [n]. unfold Display, len, pairingCodeLen. simpl. intros Hl.
  do 8 (destruct n as [|? n]; [simpl in Hl; lia|]). destruct n; [|simpl in Hl; lia]. done.
Qed.

Lemma filter_hyphens l :
  Forall (fun b => in_alphabet b = true) l ->
  List.filter (fun b => negb (b =? 45)) l = l.
Proof.
  induction 1 as [|b l Hb _ IH]; simpl; [done|].
  destruct (Z.eqb_spec b 45) as [->|_]; [done|]. simpl. by rewrite IH.
Qed.

(** The bytes of a printed code are hyphens and code characters. *)
Lemma Display_code c b :
  code_ok (code_b c) = true -> b ∈ bytes (Display c) -> b = 45 \/ in_alphabet b = true.
Proof.
  intros [Hl Hf]%code_ok_Forall. rewrite Display_bytes by done. rewrite Forall_forall in Hf.
  rewrite elem_of_app, elem_of_cons. intros [Hb|[->|Hb]]; [right|by left|right]; apply Hf.
  - by eapply subseteq_take.
  - by eapply subseteq_drop.
Qed.

Section code_theorems.
Context `{CaseTables}.

Lemma normal_Normalized c : code_ok (code_b c) = true -> normal (code_b c) = code_b c.
Proof.
  intros Hc. apply code_ok_Forall in Hc as [_ Hf]. apply bytes_inj.
  rewrite normal_bytes.
  - rewrite filter_hyphens by done. rewrite <- (list_fmap_id (bytes _)) at 2.
    apply list_fmap_ext. intros i b Hb. apply (Forall_lookup_1 _ _ _ _ Hf) in Hb.
    apply in_alphabet_facts in Hb. simpl. tauto.
  - eapply Forall_impl; [exact Hf|]. simpl. intros b Hb. right.
    apply in_alphabet_facts in Hb as Hfacts. destruct Hfacts as (? & ? & _ & -> & _). done.
Qed.

(** What folds back to a printed code. *)
Lemma normal_Display f c :
  code_ok (code_b c) = true -> f 45 = 45 ->
  (forall b, in_alphabet b = true -> 0 <= f b < 128 /\ IsSpace (f b) = false /\ f b <> 45 /\
     upper_rune (f b) = b) ->
  normal (map_runes f (Display c)) = code_b c.
Proof.
  intros Hc Hh Hfold. apply bytes_inj.
  assert (bytes (map_runes f (Display c)) = f <$> bytes (Display c)) as Hb.
  { apply map_runes_ascii.
    - apply is_ascii_Forall, Forall_forall. intros b Hb.
      destruct (Display_code _ _ Hc Hb) as [->|Ha]; [done|]. apply in_alphabet_facts in Ha. lia.
    - apply Forall_forall. intros b Hb.
      destruct (Display_code _ _ Hc Hb) as [->|Ha]; [rewrite Hh; lia|]. apply Hfold in Ha. lia. }
  rewrite normal_bytes, Hb.
  - apply code_ok_Forall in Hc as [Hl Hf]. rewrite Display_bytes by done.
    rewrite <- (take_drop 4 (bytes (code_b c))) in Hf. apply Forall_app in Hf as [Hf1 Hf2].
    assert (forall l, Forall (fun b => in_alphabet b = true) l ->
      upper_rune <$> List.filter (fun b => negb (b =? 45)) (f <$> l) = l) as Hl'.
    { intros l. induction 1 as [|b l Ha _ IH]; [done|]. simpl.
      destruct (Hfold _ Ha) as (_ & _ & Hne & Hu).
      destruct (Z.eqb_spec (f b) 45); [done|]. simpl. rewrite Hu. f_equal. exact IH. }
    rewrite fmap_app, List.filter_app, fmap_app, (Hl' (take 4 _)) by done.
    cbn [fmap list_fmap List.filter].
    rewrite Hh. simpl. rewrite Hl' by done. apply take_drop.
  - rewrite Hb. apply Forall_fmap, Forall_forall. intros b Hb'. simpl.
    destruct (Display_code _ _ Hc Hb') as [->|Ha]; [by left|right].
    destruct (Hfold _ Ha) as (? & ? & _ & ->). done.
Qed.

(** Pairing codes round-trip.  Whatever untrusted string [NewPairingCode]
    accepts, the code it builds is eight characters of the Crockford alphabet;
    re-reading its normalised form (as the repository does after decrypting),
    its displayed form or the lower-case of it yields the same code; [Equal]
    then holds of that code and of no other, the zero value included. *)
Theorem pairing_code_roundtrip s c :
  NewPairingCode s = Ok c ->
  (len (Normalized c) = 8 /\
   Forall (fun b => b ∈ bytes CrockfordAlphabet) (bytes (Normalized c))) /\
  NewPairingCode (Normalized c) = Ok c /\
  NewPairingCode (Display c) = Ok c /\
  NewPairingCode (ToLower (Display c)) = Ok c /\
  (forall c', Equal c c' = true <-> c' = c) /\
  Equal (mkPairingCode "") (mkPairingCode "") = false.
Proof.
  intros [Hc Hok]%NewPairingCode_spec.
  assert (code_b c = normal s) as Hb by (by rewrite Hc). rewrite <- Hb in Hok.
  destruct (code_ok_Forall _ Hok) as [Hl Hf].
  assert (forall t, normal t = code_b c -> NewPairingCode t = Ok c) as Hre.
  { intros t Ht. destruct c. by apply code_ok_NewPairingCode. }
  conjuncts.
  - eapply Forall_impl; [exact Hf|]. simpl. apply in_alphabet_cases, Forall_forall. done.
  - by apply Hre, normal_Normalized.
  - apply Hre. rewrite <- (normal_Display id c); [|done|done|].
    + f_equal. apply bytes_inj. rewrite map_runes_ascii.
      * by rewrite list_fmap_id.
      * apply is_ascii_Forall, Forall_forall. intros b [->|Ha]%(Display_code _ _ Hok); [done|].
        apply in_alphabet_facts in Ha. lia.
      * apply Forall_forall. intros b [->|Ha]%(Display_code _ _ Hok); [done|].
        apply in_alphabet_facts in Ha. simpl. lia.
    + intros b Ha%in_alphabet_facts. simpl. tauto.
  - apply Hre, normal_Display; [done|done|]. intros b Ha%in_alphabet_facts. tauto.
  - intros c'. unfold Equal, ConstantTimeCompare. rewrite Hl. simpl.
    destruct (Z.eqb_spec (len (code_b c')) pairingCodeLen) as [Hl'|Hl']; simpl.
    + destruct (String.eqb_spec (code_b c) (code_b c')) as [E|E]; simpl.
      * split; [|done]. intros _. destruct c, c'. simpl in *. by subst.
      * split; [done|]. by intros ->.
    + split; [done|]. by intros ->.
Qed.
End code_theorems.

Lemma pairing_code_roundtrip_witness :
  NewPairingCode " abcd-2345 " = Ok (mkPairingCode "ABCD2345") /\
  NewPairingCode (Display (mkPairingCode "ABCD2345")) = Ok (mkPairingCode "ABCD2345").
Proof.
  assert (NewPairingCode " abcd-2345 " = Ok (mkPairingCode "ABCD2345")) as Hn by reflexivity.
  split; [exact Hn|].
  exact (proj1 (proj2 (proj2 (pairing_code_roundtrip _ _ Hn)))).
Defined.

(** ** The generator reaches every code exactly once *)

Lemma lor_sum n x y : 0 <= n -> x mod 2 ^ n = 0 -> 0 <= y < 2 ^ n -> Z.lor x y = x + y.
Proof.
  intros Hn Hx Hy. rewrite <- Z.add_lor_land. enough (Z.land x y = 0) by lia.
  apply Z.bits_inj'. intros k Hk. rewrite Z.land_spec, Z.bits_0.
  destruct (Z.lt_ge_cases k n) as [Hlt|Hge].
  - rewrite <- (Z.mod_pow2_bits_low x n k) by done. by rewrite Hx, Z.bits_0.
  - rewrite <- (Z.mod_small y (2 ^ n)) by done.
    by rewrite (Z.mod_pow2_bits_high y n k), andb_false_r by lia.
Qed.

Definition is_byte (b : Z) : Prop := 0 <= b < 256.

Lemma pack40_sum b0 b1 b2 b3 b4 :
  is_byte b0 -> is_byte b1 -> is_byte b2 -> is_byte b3 -> is_byte b4 ->
  pack40 [b0; b1; b2; b3; b4] =
  b0 * 4294967296 + b1 * 16777216 + b2 * 65536 + b3 * 256 + b4.
Proof.
  unfold is_byte, pack40. simpl. rewrite !Z.shiftl_mul_pow2 by lia.
  change (2 ^ 32) with 4294967296. change (2 ^ 24) with 16777216.
  change (2 ^ 16) with 65536. change (2 ^ 8) with 256. intros.
  rewrite (lor_sum 32 _ (b1 * _)), (lor_sum 24 _ (b2 * _)), (lor_sum 16 _ (b3 * _)),
    (lor_sum 8 _ b4); try lia; apply Z.mod_divide; try done.
  - by exists (b0 * 16777216 + b1 * 65536 + b2 * 256 + b3); lia.
  - by exists (b0 * 65536 + b1 * 256 + b2); lia.
  - by exists (b0 * 256 + b1); lia.
  - by exists b0.
Qed.

(** Base-32 digits, most significant first. *)
Fixpoint digits32 (n : nat) (v : Z) : list Z :=
  match n with
  | O => []
  | S n' => digits32 n' (v / 32) ++ [v mod 32]
  end.
Definition value32 (l : list Z) : Z := fold_left (fun a d => a * 32 + d) l 0.

Lemma value32_snoc l d : value32 (l ++ [d]) = value32 l * 32 + d.
Proof. unfold value32. by rewrite fold_left_app. Qed.

Lemma value32_digits32 n v : 0 <= v < 32 ^ Z.of_nat n -> value32 (digits32 n v) = v.
Proof.
  revert v. induction n as [|n IH]; intros v Hv; cbn [digits32].
  - simpl in Hv. unfold value32. simpl. lia.
  - rewrite Nat2Z.inj_succ, Z.pow_succ_r in Hv by lia.
    rewrite value32_snoc, IH; zmod_lia.
Qed.

Lemma digits32_length n v : length (digits32 n v) = n.
Proof. revert v. induction n; intros v; simpl; [done|]. rewrite length_app, IHn. simpl. lia. Qed.

Lemma digits32_value32 n l :
  length l = n -> Forall (fun d => 0 <= d < 32) l ->
  digits32 n (value32 l) = l /\ 0 <= value32 l < 32 ^ Z.of_nat n.
Proof.
  revert l. induction n as [|n IH]; intros l Hl Hf.
  - apply nil_length_inv in Hl as ->. by split.
  - destruct (exists_last (l := l)) as (k & d & ->); [by destruct l|].
    rewrite length_app in Hl. simpl in Hl. apply Forall_app in Hf as [Hk Hd].
    apply Forall_cons in Hd as [Hd _]. destruct (IH k) as [IH1 IH2]; [lia|done|].
    rewrite value32_snoc, Nat2Z.inj_succ, Z.pow_succ_r by lia. split; [|lia].
    cbn [digits32]. replace ((value32 k * 32 + d) / 32) with (value32 k) by zmod_lia.
    replace ((value32 k * 32 + d) mod 32) with d by zmod_lia. by rewrite IH1.
Qed.

(** The letter of a digit. *)
Definition letter (d : Z) : ascii :=
  default "0"%char (String.list_ascii_of_string CrockfordAlphabet !! Z.to_nat d).

Lemma crockford_loop_digits n v out :
  0 <= v -> crockford_loop n v out = (letter <$> digits32 n v) ++ out.
Proof.
  revert v out. induction n as [|n IH]; intros v out Hv; [done|]. cbn [crockford_loop digits32].
  rewrite IH by (apply Z.shiftr_nonneg; lia). rewrite fmap_app, <- app_assoc. simpl.
  rewrite Z.shiftr_div_pow2 by lia. change (2 ^ 5) with 32. do 3 f_equal.
  unfold alphabet_at, letter. do 4 f_equal. change 31 with (Z.ones 5).
  by rewrite Z.land_ones by lia.
Qed.

Lemma letter_inj d e : 0 <= d < 32 -> 0 <= e < 32 -> letter d = letter e -> d = e.
Proof.
  intros Hd He. unfold letter.
  assert (forall k, 0 <= k < 32 ->
    is_Some (String.list_ascii_of_string CrockfordAlphabet !! Z.to_nat k)) as Hs.
  { intros k Hk. apply lookup_lt_is_Some. change (length _) with 32%nat. lia. }
  destruct (Hs d Hd) as [x Hx], (Hs e He) as [y Hy]. rewrite Hx, Hy. simpl. intros ->.
  assert (NoDup (String.list_ascii_of_string CrockfordAlphabet)) as Hnd
    by by apply (bool_decide_unpack _).
  pose proof (NoDup_lookup _ _ _ _ Hnd Hx Hy). lia.
Qed.

Lemma letter_surj b :
  in_alphabet b = true -> exists d, 0 <= d < 32 /\ byte (letter d) = b.
Proof.
  revert b. apply in_alphabet_cases. apply Forall_forall. intros b Hb.
  change (runes CrockfordAlphabet) with ((fun i => byte (letter (Z.of_nat i))) <$> seq 0 32) in Hb.
  apply list_elem_of_fmap in Hb as (i & -> & Hi). apply elem_of_seq in Hi.
  exists (Z.of_nat i). split; [lia|done].
Qed.

Lemma letter_in_alphabet d : 0 <= d < 32 -> in_alphabet (byte (letter d)) = true.
Proof.
  intros Hd. assert (Forall (fun i => in_alphabet (byte (letter (Z.of_nat i))) = true) (seq 0 32))
    as Hf by (repeat constructor).
  rewrite Forall_forall in Hf. rewrite <- (Z2Nat.id d) by lia. apply Hf, elem_of_seq. lia.
Qed.

(** A [[codeBytes]byte]. *)
Definition byte_array (b : list Z) : Prop := length b = codeBytes /\ Forall is_byte b.

Lemma bytes_of_list l : bytes (String.string_of_list_ascii l) = byte <$> l.
Proof. induction l as [|c l IH]; [done|]. simpl. by rewrite IH. Qed.

Lemma byte_array_inv b : byte_array b -> exists b0 b1 b2 b3 b4,
  b = [b0; b1; b2; b3; b4] /\ is_byte b0 /\ is_byte b1 /\ is_byte b2 /\ is_byte b3 /\ is_byte b4.
Proof.
  intros [Hl Hf]. do 5 (destruct b as [|? b]; [done|]). destruct b; [|done].
  repeat (apply Forall_cons in Hf as [? Hf]). eauto 20.
Qed.

Lemma pack40_range b : byte_array b -> 0 <= pack40 b < 32 ^ Z.of_nat 8.
Proof.
  intros (b0 & b1 & b2 & b3 & b4 & -> & ? & ? & ? & ? & ?)%byte_array_inv.
  rewrite pack40_sum by done. unfold is_byte in *. change (32 ^ Z.of_nat 8) with 1099511627776. lia.
Qed.

Lemma pack40_inj b b' : byte_array b -> byte_array b' -> pack40 b = pack40 b' -> b = b'.
Proof.
  intros (b0 & b1 & b2 & b3 & b4 & -> & ? & ? & ? & ? & ?)%byte_array_inv
         (c0 & c1 & c2 & c3 & c4 & -> & ? & ? & ? & ? & ?)%byte_array_inv.
  rewrite !pack40_sum by done. unfold is_byte in *. intros E.
  assert (b0 = c0) by lia. assert (b1 = c1) by lia. assert (b2 = c2) by lia.
  assert (b3 = c3) by lia. assert (b4 = c4) by lia. congruence.
Qed.

Lemma pack40_surj v : 0 <= v < 32 ^ Z.of_nat 8 -> exists b, byte_array b /\ pack40 b = v.
Proof.
  change (32 ^ Z.of_nat 8) with 1099511627776. intros Hv.
  exists [v / 4294967296; v / 16777216 mod 256; v / 65536 mod 256; v / 256 mod 256; v mod 256].
  assert (is_byte (v / 4294967296)) by (unfold is_byte; zmod_lia).
  assert (forall k, is_byte (k mod 256)) as Hb by (intros k; unfold is_byte; zmod_lia).
  split; [split; [done|repeat (apply Forall_cons; split; [by auto|]); apply Forall_nil_2]|].
  rewrite pack40_sum by auto. zmod_lia.
Qed.

Lemma encode_bytes b : byte_array b ->
  bytes (encodeCrockford40 b) = (fun d => byte (letter d)) <$> digits32 8 (pack40 b).
Proof.
  intros Hb%pack40_range. unfold encodeCrockford40. rewrite bytes_of_list.
  rewrite crockford_loop_digits, app_nil_r by lia. by rewrite <- list_fmap_compose.
Qed.

Lemma digits32_range n v : Forall (fun d => 0 <= d < 32) (digits32 n v).
Proof.
  revert v. induction n; intros v; simpl; [done|]. apply Forall_app. split; [done|].
  constructor; [zmod_lia|done].
Qed.

Lemma encode_ok b : byte_array b -> code_ok (encodeCrockford40 b) = true.
Proof.
  intros Hb. unfold code_ok. apply andb_true_iff. split.
  - unfold len. rewrite <- bytes_length, encode_bytes by done.
    by rewrite length_fmap, digits32_length.
  - rewrite encode_bytes by done. apply forallb_forall. intros x Hx.
    apply list_elem_of_In, list_elem_of_fmap in Hx as (d & -> & Hd).
    pose proof (digits32_range 8 (pack40 b)) as Hr. rewrite Forall_forall in Hr.
    by apply letter_in_alphabet, Hr.
Qed.

Lemma letters_inj l l' :
  Forall (fun d => 0 <= d < 32) l -> Forall (fun d => 0 <= d < 32) l' ->
  (fun d => byte (letter d)) <$> l = (fun d => byte (letter d)) <$> l' -> l = l'.
Proof.
  intros Hl. revert l'. induction Hl as [|d l Hd _ IH]; intros [|d' l'] Hl' E; try done.
  apply Forall_cons in Hl' as [Hd' Hl']. injection E as E1 E2. f_equal; [|by apply IH].
  by apply letter_inj, byte_inj.
Qed.

Lemma letters_surj l : Forall (fun b => in_alphabet b = true) l ->
  exists ds, Forall (fun d => 0 <= d < 32) ds /\ l = (fun d => byte (letter d)) <$> ds.
Proof.
  induction 1 as [|b l Hb _ (ds & Hds & ->)]; [by exists []|].
  destruct (letter_surj b Hb) as (d & Hd & <-). exists (d :: ds). by split; [constructor|].
Qed.

(** The generator is a bijection between its forty random bits and the
    codes the constructor accepts.  Every five-byte answer of the random source
    gives a code, namely its eight Crockford digits; two different answers give
    two different codes; and every code anyone can type is the one some answer
    gives.  A uniform source thus yields a uniform code: no bit of the entropy
    is lost.  A failing source gives its error and no code. *)
Theorem GeneratePairingCode_bijective `{CaseTables} :
  (forall b, byte_array b ->
     GeneratePairingCode (Ok b) = Ok (mkPairingCode (encodeCrockford40 b))) /\
  (forall b b', byte_array b -> byte_array b' ->
     GeneratePairingCode (Ok b) = GeneratePairingCode (Ok b') -> b = b') /\
  (forall s c, NewPairingCode s = Ok c ->
     exists b, byte_array b /\ GeneratePairingCode (Ok b) = Ok c) /\
  (forall e, exists e', GeneratePairingCode (Err e) = Err e' /\ Unwrap e' = Some e).
Proof.
  assert (forall b, byte_array b ->
     GeneratePairingCode (Ok b) = Ok (mkPairingCode (encodeCrockford40 b))) as Hgen.
  { intros b Hb. simpl. apply code_ok_NewPairingCode; [by apply encode_ok|].
    apply (normal_Normalized (mkPairingCode (encodeCrockford40 b))). by apply encode_ok. }
  conjuncts.
  - intros b b' Hb Hb'. rewrite !Hgen by done. intros E.
    apply (f_equal (fun r => match r with Ok c => bytes (code_b c) | _ => [] end)) in E.
    cbn [code_b] in E. rewrite !encode_bytes in E by done.
    apply letters_inj in E; [|apply digits32_range..].
    apply (f_equal value32) in E. rewrite !value32_digits32 in E by (by apply pack40_range).
    by apply pack40_inj.
  - intros s c [-> Hok]%NewPairingCode_spec. apply code_ok_Forall in Hok as [Hl Hf].
    apply letters_surj in Hf as (ds & Hds & E).
    destruct (digits32_value32 8 ds) as [Hdv Hr]; [|done|].
    { apply (f_equal length) in E. rewrite length_fmap, bytes_length in E.
      unfold len, pairingCodeLen in Hl. lia. }
    destruct (pack40_surj _ Hr) as (b & Hb & Hp). exists b. split; [done|].
    rewrite Hgen by done. do 2 f_equal. apply bytes_inj.
    by rewrite encode_bytes, E, Hp, Hdv.
  - intros e. by eexists.
Qed.

(** ** The session's lifecycle *)

Inductive session_call :=
| CallExpireAt (now : Time)
| CallVerify (now : Time) (submitted : PairingCode) (deviceID : DeviceID)
| CallConsume (now : Time).

Definition call_session (c : session_call) : stM PairingSession error unit :=
  match c with
  | CallExpireAt now => modify (ExpireAt now)
  | CallVerify now submitted deviceID => Verify now submitted deviceID
  | CallConsume now => Consume now
  end.

(** A history of calls on one session: each call with what it answered. *)
Fixpoint run_session (cs : list session_call) (s : PairingSession)
    : list (session_call * Result unit) * PairingSession :=
  match cs with
  | [] => ([], s)
  | c :: cs' =>
      let '(r, s1) := call_session c s in
      let '(rs, s2) := run_session cs' s1 in
      ((c, r) :: rs, s2)
  end.

(** Rehydrating the session's own fields gives the session back. *)
Definition rehydrates (s : PairingSession) : Prop :=
  RehydratePairingSession (ps_id s) (ps_initiatedBy s) (ps_code s) (ps_state s)
    (ps_createdAt s) (ps_expiresAt s) (ps_deviceID s) = Ok s.

(** The lifecycle the documentation draws. *)
Inductive advances (s : PairingSession) : PairingSession -> Prop :=
| adv_verify d :
    ps_state s = PairingPending -> blank d = false ->
    advances s (set_ps_state PairingVerified (set_ps_deviceID (Some d) s))
| adv_consume :
    ps_state s = PairingVerified -> advances s (set_ps_state PairingConsumed s)
| adv_expire :
    ps_state s = PairingPending \/ ps_state s = PairingVerified ->
    advances s (set_ps_state PairingExpired s).

Definition is_verify (x : session_call * Result unit) : bool :=
  match x with (CallVerify _ _ _, Ok _) => true | _ => false end.
Definition is_consume (x : session_call * Result unit) : bool :=
  match x with (CallConsume _, Ok _) => true | _ => false end.

(** What a successful call must have presented to a session with code [c]
    that expires at [e]. *)
Definition presented (c : PairingCode) (e : Time) (x : session_call * Result unit) : Prop :=
  match x with
  | (CallVerify now submitted d, Ok _) => Equal c submitted = true /\ now < e /\ blank d = false
  | (CallConsume now, Ok _) => now < e
  | _ => True
  end.

Lemma rehydrates_inv s : rehydrates s <->
  blank (ps_id s) = false /\ blank (ps_initiatedBy s) = false /\
  len (code_b (ps_code s)) = pairingCodeLen /\
  0 < Sub (ps_expiresAt s) (ps_createdAt s) <= maxPairingTTL /\
  (forall d, ps_deviceID s = Some d -> blank d = false) /\
  (ps_state s = PairingPending /\ ps_deviceID s = None \/
   (ps_state s = PairingVerified \/ ps_state s = PairingConsumed) /\ is_Some (ps_deviceID s) \/
   ps_state s = PairingExpired).
Proof.
  destruct s as [id by_ c st cr ex dev]. unfold rehydrates, RehydratePairingSession, fails, state_valid.
  simpl. destruct (blank id), (blank by_); simpl; try (split; [done|naive_solver]).
  destruct (Z.eqb_spec (len (code_b c)) pairingCodeLen); simpl; [|split; [done|naive_solver]].
  destruct (Sub ex cr <=? 0) eqn:E1; bool_to_prop; simpl.
  { split; [by case_match|]. intros (_ & _ & _ & ? & _). lia. }
  destruct (maxPairingTTL <? Sub ex cr) eqn:E2; bool_to_prop; simpl.
  { split; [by case_match|]. intros (_ & _ & _ & ? & _). lia. }
  destruct dev as [d|]; simpl; [destruct (blank d) eqn:Hd|].
  { split; [by case_match|]. intros (_ & _ & _ & _ & Hb & _). specialize (Hb d eq_refl). congruence. }
  all: destruct (String.eqb_spec st PairingPending) as [->|]; simpl;
    [|destruct (String.eqb_spec st PairingVerified) as [->|]; simpl;
      [|destruct (String.eqb_spec st PairingConsumed) as [->|]; simpl;
        [|destruct (String.eqb_spec st PairingExpired) as [->|]; simpl]]].
  all: split; [intros; simplify_eq; conjuncts; try (by intros ? [= <-]); eauto 6|].
  all: intros (_ & _ & _ & _ & _ & [[? ?]|[[[?|?] [? ?]]| ?]]); done.
Qed.

Lemma checkAdvanceable_cases now expected verb msg s r s' :
  checkAdvanceable now expected verb msg s = (r, s') ->
  (r = Ok tt /\ s' = s /\ terminal s = false /\ now < ps_expiresAt s /\ ps_state s = expected) \/
  (r = Err (wrong_state (ps_state s) verb) /\ s' = s /\
   (terminal s = true \/ now < ps_expiresAt s /\ ps_state s <> expected)) \/
  (r = Err (DomainError Conflict msg (Some ErrPairingExpired)) /\ terminal s = false /\
   ps_expiresAt s <= now /\ s' = set_ps_state PairingExpired s).
Proof.
  unfold checkAdvanceable, isExpired, Before.
  destruct (terminal s) eqn:Ht; [intros [= <- <-]; auto 10|].
  destruct (Z.ltb_spec now (ps_expiresAt s)); simpl; [|intros [= <- <-]; auto 10].
  destruct (String.eqb_spec (ps_state s) expected); simpl; intros [= <- <-]; auto 10.
Qed.

Lemma call_session_cases c s r s' :
  call_session c s = (r, s') -> state_valid (ps_state s) = true ->
  (s' = s /\ is_verify (c, r) = false /\ is_consume (c, r) = false) \/
  (s' = set_ps_state PairingExpired s /\ terminal s = false /\
   is_verify (c, r) = false /\ is_consume (c, r) = false) \/
  (exists now sub d, c = CallVerify now sub d /\ r = Ok tt /\ presented (ps_code s) (ps_expiresAt s) (c, r) /\
     ps_state s = PairingPending /\
     s' = set_ps_state PairingVerified (set_ps_deviceID (Some d) s)) \/
  (exists now, c = CallConsume now /\ r = Ok tt /\ presented (ps_code s) (ps_expiresAt s) (c, r) /\
     ps_state s = PairingVerified /\ s' = set_ps_state PairingConsumed s).
Proof.
  intros H Hv. destruct c as [now|now sub d|now]; simpl in H.
  - unfold modify, ExpireAt in H. injection H as <- <-.
    destruct (String.eqb_spec (ps_state s) PairingPending) as [E|E], 
      (String.eqb_spec (ps_state s) PairingVerified) as [E'|E']; simpl; auto;
      destruct (isExpired now s); auto; right; left; unfold terminal;
      rewrite ?E, ?E'; auto.
  - unfold Verify in H. unfold mbind, stM_bind in H.
    destruct (checkAdvanceable _ _ _ _ s) as [r0 s0] eqn:Hc.
    apply checkAdvanceable_cases in Hc as [(-> & -> & Ht & Hlt & Hs)|[(-> & -> & _)|(-> & Ht & Hge & ->)]];
      [|injection H as <- <-; auto 10..].
    unfold throw in H. destruct (blank d) eqn:Hd; [injection H as <- <-; auto|].
    destruct (Equal (ps_code s) sub) eqn:He; simpl in H; injection H as <- <-; [|auto].
    right. right. left. exists now, sub, d. simpl. auto 10.
  - unfold Consume in H. unfold mbind, stM_bind in H.
    destruct (checkAdvanceable _ _ _ _ s) as [r0 s0] eqn:Hc.
    apply checkAdvanceable_cases in Hc as [(-> & -> & Ht & Hlt & Hs)|[(-> & -> & _)|(-> & Ht & Hge & ->)]];
      unfold modify in *; injection H as <- <-; [|auto 10..].
    right. right. right. exists now. simpl. auto 10.
Qed.

(** Two different states of one session. *)
Ltac clash :=
  match goal with
  | H : ps_state ?s = _, H' : ps_state ?s = _ |- _ => rewrite H in H'; discriminate H'
  end.

Definition identity (s : PairingSession) :=
  (ps_id s, ps_initiatedBy s, ps_code s, ps_createdAt s, ps_expiresAt s).
Definition enrolled (s : PairingSession) : nat :=
  match ps_deviceID s with Some _ => 1 | None => 0 end.
Definition spent (s : PairingSession) : nat :=
  if String.eqb (ps_state s) PairingConsumed then 1 else 0.
Definition count {A} (p : A -> bool) (l : list A) : nat := length (List.filter p l).

Lemma rehydrates_valid s : rehydrates s -> state_valid (ps_state s) = true.
Proof.
  intros (_ & _ & _ & _ & _ & [[-> _]|[[[->| ->] _]| ->]])%rehydrates_inv; done.
Qed.

(** One call: the session stays well formed, keeps its identity and either
    stays or takes a step of the lifecycle. *)
Lemma call_session_inv c s r s' :
  rehydrates s -> call_session c s = (r, s') ->
  rehydrates s' /\ identity s' = identity s /\ (s' = s \/ advances s s') /\
  presented (ps_code s) (ps_expiresAt s) (c, r) /\
  enrolled s' = ((if is_verify (c, r) then 1 else 0) + enrolled s)%nat /\
  spent s' = ((if is_consume (c, r) then 1 else 0) + spent s)%nat.
Proof.
  intros Hs Hcall. pose proof (rehydrates_valid s Hs) as Hv.
  pose proof (proj1 (rehydrates_inv s) Hs) as (Hid & Hby & Hl & Hw & Hd & Hst).
  unfold spent, enrolled.
  assert (forall r, is_verify (c, r) = false -> is_consume (c, r) = false ->
    presented (ps_code s) (ps_expiresAt s) (c, r)) as Hpres by (by destruct c, r0).
  destruct (call_session_cases _ _ _ _ Hcall Hv)
    as [(-> & Hnv & Hnc)|[(-> & Ht & Hnv & Hnc)|[(now & sub & d & -> & -> & Hp & Hpend & ->)
         |(now & -> & -> & Hp & Hver & ->)]]].
  - rewrite Hnv, Hnc. conjuncts; eauto.
  - rewrite Hnv, Hnc. unfold terminal in Ht. apply orb_false_iff in Ht as [Hc He].
    rewrite Hc. conjuncts; eauto.
    + apply rehydrates_inv. simpl. conjuncts; try lia; eauto 6.
    + right. constructor. apply String.eqb_neq in Hc, He.
      destruct Hst as [[-> _]|[[[->|?] _]|?]]; auto; contradiction.
  - simpl in Hp. destruct Hp as (He & Hlt & Hb).
    destruct Hst as [[_ Hn]|[[[E|E] _]|E]]; try clash. rewrite Hn, Hpend. simpl.
    conjuncts; [|by right; apply adv_verify].
    apply rehydrates_inv. simpl. conjuncts; try lia; [by intros ? [= <-]|]. right; left; eauto.
  - rewrite Hver. simpl. conjuncts; [|by right; apply adv_consume].
    apply rehydrates_inv. simpl. conjuncts; try lia.
    destruct Hst as [[E _]|[[_ Hx]|E]]; [clash| |clash]. right; left; eauto.
Qed.

Lemma run_session_inv cs s outs s' :
  rehydrates s -> run_session cs s = (outs, s') ->
  rehydrates s' /\ identity s' = identity s /\ rtc advances s s' /\
  Forall (presented (ps_code s) (ps_expiresAt s)) outs /\
  enrolled s' = (count is_verify outs + enrolled s)%nat /\
  spent s' = (count is_consume outs + spent s)%nat.
Proof.
  revert s outs. induction cs as [|c cs IH]; intros s outs Hs Hrun; simpl in Hrun.
  { injection Hrun as <- <-. conjuncts. }
  destruct (call_session c s) as [r s1] eqn:Hc. destruct (run_session cs s1) as [rs s2] eqn:Hr.
  injection Hrun as <- <-.
  destruct (call_session_inv _ _ _ _ Hs Hc) as (Hs1 & Hi1 & Ha1 & Hp1 & He1 & Hc1).
  destruct (IH _ _ Hs1 Hr) as (Hs2 & Hi2 & Ha2 & Hp2 & He2 & Hc2).
  unfold count in *. cbn [List.filter].
  assert (ps_code s1 = ps_code s /\ ps_expiresAt s1 = ps_expiresAt s) as [E1 E2]
    by (unfold identity in Hi1; by simplify_eq).
  rewrite E1, E2 in Hp2.
  conjuncts.
  - congruence.
  - destruct Ha1 as [->|Ha1]; [done|by eapply rtc_l].
  - by constructor.
  - rewrite He2, He1. destruct (is_verify (c, r)); simpl; lia.
  - rewrite Hc2, Hc1. destruct (is_consume (c, r)); simpl; lia.
Qed.

Lemma new_session_rehydrates id initiatedBy code ttl now s :
  NewPairingSession id initiatedBy code ttl now = Ok s -> len (code_b code) = pairingCodeLen ->
  s = mkPairingSession id initiatedBy code PairingPending now (Add now ttl) None /\
  0 < ttl <= maxPairingTTL /\ rehydrates s.
Proof.
  unfold NewPairingSession, fails. intros H Hl.
  destruct (blank id) eqn:Hid; [done|]. destruct (blank initiatedBy) eqn:Hby; [done|].
  destruct ((ttl <=? 0) || (maxPairingTTL <? ttl)) eqn:Ht; [done|]. injection H as <-.
  bool_to_prop. conjuncts. apply rehydrates_inv. simpl.
  assert (in_int64 ttl) by
    (unfold in_int64, int64_min, int64_max, two63, maxPairingTTL, Minute, Second in *; lia).
  rewrite Sub_Add by done. conjuncts. auto.
Qed.

Lemma terminal_absorbing c s :
  state_valid (ps_state s) = true -> terminal s = true ->
  (call_session c s).2 = s /\ is_verify (c, (call_session c s).1) = false /\
  is_consume (c, (call_session c s).1) = false.
Proof.
  intros Hv Ht. destruct (call_session c s) as [r s'] eqn:Hc. simpl.
  unfold terminal in Ht. apply orb_true_iff in Ht.
  destruct (call_session_cases _ _ _ _ Hc Hv)
    as [?|[(_ & Ht' & _)|[(now & sub & d & _ & _ & _ & E & _)|(now & _ & _ & _ & E & _)]]]; [done|..].
  - unfold terminal in Ht'. bool_to_prop. destruct Ht; congruence.
  - rewrite E in Ht. by destruct Ht.
  - rewrite E in Ht. by destruct Ht.
Qed.

(** The pairing session's lifecycle.  Whatever calls are made on a new
    session, in whatever order and at whatever times: the session can always be
    stored and rehydrated; its identity, code and expiry never change; its state
    moves only along pending, verified, consumed, with expiry from the first
    two, and stops in consumed or expired; [Verify] succeeds at most once and
    only with the right code before the expiry, [Consume] at most once, before
    the expiry, and exactly when the session ends up consumed, for which
    [Verify] must have succeeded. *)
Theorem pairing_session_lifecycle id initiatedBy code ttl now s0 calls outs s :
  NewPairingSession id initiatedBy code ttl now = Ok s0 ->
  len (code_b code) = pairingCodeLen ->
  run_session calls s0 = (outs, s) ->
  rehydrates s /\
  identity s = (id, initiatedBy, code, now, Add now ttl) /\
  rtc advances s0 s /\
  (terminal s = true -> forall more, (run_session more s).2 = s) /\
  Forall (presented code (Add now ttl)) outs /\
  count is_consume outs = spent s /\
  (count is_consume outs <= count is_verify outs <= 1)%nat.
Proof.
  intros Hn Hl Hrun. destruct (new_session_rehydrates _ _ _ _ _ _ Hn Hl) as (-> & _ & Hs0).
  destruct (run_session_inv _ _ _ _ Hs0 Hrun) as (Hs & Hi & Ha & Hp & He & Hc).
  unfold enrolled, spent in *. simpl in *. rewrite Nat.add_0_r in He, Hc. rewrite <- He, <- Hc.
  conjuncts.
  - pose proof (rehydrates_valid s Hs) as Hv. intros Ht more.
    induction more as [|c more IH]; [done|]. cbn [run_session].
    destruct (terminal_absorbing c s Hv Ht) as (E & _). destruct (call_session c s) as [r s1].
    simpl in E. subst s1. by destruct (run_session more s).
  - destruct (String.eqb_spec (ps_state s) PairingConsumed) as [E|]; [|lia].
    apply rehydrates_inv in Hs as (_ & _ & _ & _ & _ & [[? _]|[[_ [d ->]]|?]]); [clash|lia|clash].
  - destruct (ps_deviceID s); lia.
Qed.

Definition demo_code : PairingCode := mkPairingCode "ABCD2345".
Definition demo_session : PairingSession :=
  mkPairingSession "s1" "admin" demo_code PairingPending 0 (2 * Minute) None.

Lemma pairing_session_lifecycle_witness :
  let calls := [CallVerify 1 (mkPairingCode "ABCD2346") "d1"; CallVerify 2 demo_code "d1";
                CallConsume 3; CallVerify 4 demo_code "d2"; CallConsume 5] in
  NewPairingSession "s1" "admin" demo_code (2 * Minute) 0 = Ok demo_session /\
  rtc advances demo_session (run_session calls demo_session).2.
Proof.
  intros calls. split; [reflexivity|].
  exact (proj1 (proj2 (proj2 (pairing_session_lifecycle "s1" "admin" demo_code (2 * Minute) 0
    demo_session calls _ _ eq_refl eq_refl (surjective_pairing _))))).
Defined.

(** A guess before the expiry with another code than the session's. *)
Definition wrong_guess (s : PairingSession) (c : session_call) : Prop :=
  match c with
  | CallVerify now submitted d =>
      now < ps_expiresAt s /\ Equal (ps_code s) submitted = false /\ blank d = false
  | _ => False
  end.

(** What a caller can see of an answer. *)
Definition visible (r : Result unit) : option (Category * string) :=
  match r with Err e => Some (CategoryOf e, Error e) | _ => None end.

Lemma checkAdvanceable_ready now expected verb msg s :
  ps_state s = expected -> expected = PairingPending \/ expected = PairingVerified ->
  now < ps_expiresAt s -> checkAdvanceable now expected verb msg s = (Ok tt, s).
Proof.
  intros Hs He Hlt. unfold checkAdvanceable, terminal, isExpired, Before. rewrite Hs.
  replace (now <? ps_expiresAt s) with true by (symmetry; by apply Z.ltb_lt).
  by destruct He as [->| ->].
Qed.

Lemma Verify_pending now sub d s :
  ps_state s = PairingPending -> now < ps_expiresAt s -> blank d = false ->
  Verify now sub d s =
  if Equal (ps_code s) sub
  then (Ok tt, set_ps_state PairingVerified (set_ps_deviceID (Some d) s))
  else (Err (DomainError Conflict "pairing code not recognised" (Some ErrPairingCodeMismatch)), s).
Proof.
  intros Hs Hlt Hd. unfold Verify, mbind, stM_bind.
  rewrite checkAdvanceable_ready by auto. rewrite Hd. by destruct (Equal (ps_code s) sub).
Qed.

Lemma Verify_late now sub d s :
  rehydrates s -> ps_state s = PairingPending -> ps_expiresAt s <= now ->
  Verify now sub d s =
  (Err (DomainError Conflict "pairing code not recognised" (Some ErrPairingExpired)),
   set_ps_state PairingExpired s).
Proof.
  intros _ Hs Hge. unfold Verify, mbind, stM_bind, checkAdvanceable, terminal, isExpired, Before.
  rewrite Hs. by replace (now <? ps_expiresAt s) with false by (symmetry; by apply Z.ltb_ge).
Qed.

Lemma run_session_app cs cs' s :
  run_session (cs ++ cs') s =
  let '(rs, s1) := run_session cs s in
  let '(rs', s2) := run_session cs' s1 in (rs ++ rs', s2).
Proof.
  revert s. induction cs as [|c cs IH]; intros s; cbn [run_session app].
  { by destruct (run_session cs' s). }
  destruct (call_session c s) as [r s1]. rewrite IH.
  destruct (run_session cs s1) as [rs s2]. by destruct (run_session cs' s2).
Qed.

(** Wrong guesses neither burn a session nor reveal anything.  Any number
    of wrong codes submitted to a pending session before its expiry leaves it
    exactly as it was, so the right code still enrols the device and the session
    is consumed; and each wrong guess is answered with the category and message
    that the expired session gives, to right and wrong codes alike. *)
Theorem wrong_guesses_do_not_burn s guesses now submitted d :
  rehydrates s -> ps_state s = PairingPending ->
  Forall (wrong_guess s) guesses ->
  now < ps_expiresAt s -> Equal (ps_code s) submitted = true -> blank d = false ->
  let '(outs, s') := run_session (guesses ++ [CallVerify now submitted d; CallConsume now]) s in
  run_session guesses s = (take (length guesses) outs, s) /\
  s' = set_ps_state PairingConsumed (set_ps_deviceID (Some d) s) /\
  drop (length guesses) outs = [(CallVerify now submitted d, Ok tt); (CallConsume now, Ok tt)] /\
  (forall x, x ∈ take (length guesses) outs -> forall late any, ps_expiresAt s <= late ->
     visible x.2 = visible (Verify late any d s).1).
Proof.
  intros Hre Hs Hg Hlt Heq Hd.
  assert (exists outs, run_session guesses s = (outs, s) /\ length outs = length guesses /\
    Forall (fun x => visible x.2 = Some (Conflict, "pairing code not recognised")) outs)
    as (outs & Hrun & Hlen & Hvis).
  { induction Hg as [|c cs Hc _ (outs & Hrun & Hlen & Hvis)]; [by exists []|].
    destruct c as [?|t sub d'|?]; simpl in Hc; try done. destruct Hc as (Ht & He & Hd').
    cbn [run_session call_session]. rewrite Verify_pending, He, Hrun by done.
    eexists. split; [done|]. split; [simpl; by rewrite Hlen|]. by constructor. }
  rewrite run_session_app, Hrun. cbn [run_session call_session].
  rewrite Verify_pending, Heq by done. unfold Consume, mbind, stM_bind.
  rewrite checkAdvanceable_ready by (simpl; auto). unfold modify.
  rewrite take_app_length', drop_app_length' by done. conjuncts.
  intros x Hx late any Hlate. rewrite Verify_late by done.
  rewrite Forall_forall in Hvis. by apply Hvis.
Qed.

Lemma wrong_guesses_do_not_burn_witness :
  (run_session ([CallVerify 1 (mkPairingCode "ABCD2346") "d1"] ++
     [CallVerify 2 demo_code "d1"; CallConsume 2]) demo_session).2 =
  set_ps_state PairingConsumed (set_ps_deviceID (Some "d1") demo_session).
Proof.
  assert (H := wrong_guesses_do_not_burn demo_session
    [CallVerify 1 (mkPairingCode "ABCD2346") "d1"] 2 demo_code "d1" eq_refl eq_refl).
  destruct (run_session _ demo_session) as [outs s'] eqn:E.
  destruct H as (_ & Hs' & _); [|reflexivity..|exact Hs'].
  repeat constructor.
Defined.

(** ** The paired device over time *)

Inductive device_call :=
| CallTouch (now : Time)
| CallAdvance (newCursor : Z) (at_ : Time)
| CallRevoke (now : Time).

Definition call_device (c : device_call) : stM PairedDevice error unit :=
  match c with
  | CallTouch now => Touch now
  | CallAdvance newCursor at_ => AdvanceCursor newCursor at_
  | CallRevoke now => Revoke now
  end.

Fixpoint run_device (cs : list device_call) (d : PairedDevice)
    : list (device_call * Result unit) * PairedDevice :=
  match cs with
  | [] => ([], d)
  | c :: cs' =>
      let '(r, d1) := call_device c d in
      let '(rs, d2) := run_device cs' d1 in
      ((c, r) :: rs, d2)
  end.

Definition device_rehydrates (d : PairedDevice) : Prop :=
  RehydratePairedDevice (pd_id d) (pd_owner d) (pd_label d) (pd_deviceClass d)
    (pd_enrolledVia d) (pd_createdAt d) (pd_lastSeenAt d) (pd_revokedAt d) (pd_syncCursor d)
    (pd_lastSyncedAt d) = Ok d.

Definition device_identity (d : PairedDevice) :=
  (pd_id d, pd_owner d, pd_label d, pd_deviceClass d, pd_enrolledVia d, pd_createdAt d).

(** The cursors the successful advances of a history set, and the times of its
    successful touches. *)
Definition advanced (x : device_call * Result unit) : option Z :=
  match x with (CallAdvance n _, Ok _) => Some n | _ => None end.
Definition touched (x : device_call * Result unit) : option Time :=
  match x with (CallTouch t, Ok _) => Some t | _ => None end.

Lemma device_rehydrates_inv d : device_rehydrates d <->
  blank (pd_id d) = false /\ blank (pd_owner d) = false /\ blank (pd_label d) = false /\
  rune_count (pd_label d) <= maxDeviceLabelRunes /\ class_valid (pd_deviceClass d) = true /\
  via_valid (pd_enrolledVia d) = true /\ 0 <= pd_syncCursor d.
Proof.
  destruct d as [id owner label cls via cr seen rev cur syn]. unfold device_rehydrates,
    RehydratePairedDevice, fails. simpl.
  destruct (blank id), (blank owner), (blank label); simpl; try (split; [done|tauto || intuition congruence]).
  destruct (maxDeviceLabelRunes <? rune_count label) eqn:El; bool_to_prop;
    [split; [done|intros (_ & _ & _ & ? & _); lia]|].
  destruct (class_valid cls); simpl; [|split; [done|intuition congruence]].
  destruct (via_valid via); simpl; [|split; [done|intuition congruence]].
  destruct (cur <? 0) eqn:Ec; bool_to_prop; [split; [done|lia]|]. tauto.
Qed.

Lemma NewPairedDevice_rehydrates id owner label cls via now d :
  NewPairedDevice id owner label cls via now = Ok d ->
  device_rehydrates d /\ pd_label d = TrimSpace label /\ pd_createdAt d = now /\
  pd_lastSeenAt d = now /\ pd_revokedAt d = None /\ pd_syncCursor d = 0.
Proof.
  unfold NewPairedDevice, fails. intros H.
  destruct (blank id) eqn:Hid; [done|]. destruct (blank owner) eqn:Ho; [done|].
  destruct (String.eqb (TrimSpace label) "") eqn:Hl; [done|].
  destruct (maxDeviceLabelRunes <? rune_count (TrimSpace label)) eqn:Hr; [done|].
  destruct (class_valid cls) eqn:Hc; [|done]. destruct (via_valid via) eqn:Hv; [|done].
  injection H as <-. bool_to_prop. split; [|done]. apply device_rehydrates_inv. simpl.
  rewrite blank_TrimSpace. done.
Qed.

(** One call on a device. *)
Lemma call_device_cases c d r d' :
  call_device c d = (r, d') ->
  (is_Some (pd_revokedAt d) /\ d' = d /\ exists e, r = Err e /\ CategoryOf e = Conflict) \/
  (pd_revokedAt d = None /\
   match c with
   | CallTouch t => r = Ok tt /\ pd_lastSeenAt d' = Z.max (pd_lastSeenAt d) t /\
       pd_syncCursor d' = pd_syncCursor d /\ pd_revokedAt d' = None
   | CallAdvance n _ => pd_lastSeenAt d' = pd_lastSeenAt d /\ pd_revokedAt d' = None /\
       (pd_syncCursor d < n /\ r = Ok tt /\ pd_syncCursor d' = n \/
        n <= pd_syncCursor d /\ (exists e, r = Err e) /\ d' = d)
   | CallRevoke t => r = Ok tt /\ pd_lastSeenAt d' = pd_lastSeenAt d /\
       pd_syncCursor d' = pd_syncCursor d /\ pd_revokedAt d' = Some t
   end /\ device_identity d' = device_identity d).
Proof.
  destruct c as [t|n t|t]; simpl; unfold Touch, AdvanceCursor, Revoke, After.
  all: destruct (pd_revokedAt d) eqn:Hr; [intros [= <- <-]; left; eauto|].
  - destruct (Z.ltb_spec (pd_lastSeenAt d) t); intros [= <- <-]; right; simpl; conjuncts; lia.
  - destruct (Z.leb_spec n (pd_syncCursor d)); intros [= <- <-]; right; simpl; conjuncts; eauto.
  - intros [= <- <-]; right; simpl; conjuncts.
Qed.

(** A paired device only moves forward.  After any calls on a device in
    any order, its identity is unchanged and it can still be stored and
    rehydrated; the last-seen time is the latest of where it started and the
    successful touches, so a clock that runs backwards never moves it back; the
    cursors that successive syncs set strictly increase and the device holds the
    last of them; and a revocation is final: from then on the device is frozen
    and every call on it is refused. *)
Theorem paired_device_monotone d0 calls outs d :
  device_rehydrates d0 -> run_device calls d0 = (outs, d) ->
  device_rehydrates d /\ device_identity d = device_identity d0 /\
  pd_lastSeenAt d = fold_left Z.max (omap touched outs) (pd_lastSeenAt d0) /\
  StronglySorted Z.lt (pd_syncCursor d0 :: omap advanced outs) /\
  pd_syncCursor d = List.last (omap advanced outs) (pd_syncCursor d0) /\
  (is_Some (pd_revokedAt d0) -> d = d0) /\
  (is_Some (pd_revokedAt d) -> forall c, (call_device c d).2 = d /\
     exists e, (call_device c d).1 = Err e /\ CategoryOf e = Conflict).
Proof.
  intros Hd0 Hrun.
  assert (forall c d, is_Some (pd_revokedAt d) -> (call_device c d).2 = d /\
     exists e, (call_device c d).1 = Err e /\ CategoryOf e = Conflict) as Hfinal.
  { intros c x Hx. destruct (call_device c x) as [r x'] eqn:Hc.
    apply call_device_cases in Hc as [(_ & -> & e & -> & He)|(Hn & _)]; [eauto|].
    rewrite Hn in Hx. by destruct Hx. }
  enough (device_rehydrates d /\ device_identity d = device_identity d0 /\
    pd_lastSeenAt d = fold_left Z.max (omap touched outs) (pd_lastSeenAt d0) /\
    StronglySorted Z.lt (pd_syncCursor d0 :: omap advanced outs) /\
    pd_syncCursor d = List.last (omap advanced outs) (pd_syncCursor d0) /\
    (is_Some (pd_revokedAt d0) -> d = d0)) as (? & ? & ? & ? & ? & ?) by (conjuncts; auto).
  revert d0 outs Hd0 Hrun. induction calls as [|c cs IH]; intros d0 outs Hd0 Hrun; simpl in Hrun.
  { injection Hrun as <- <-. conjuncts. repeat constructor. }
  destruct (call_device c d0) as [r d1] eqn:Hc. destruct (run_device cs d1) as [rs d2] eqn:Hr.
  injection Hrun as <- <-. pose proof (call_device_cases _ _ _ _ Hc) as Hcase.
  assert (device_rehydrates d1 /\ device_identity d1 = device_identity d0) as [Hd1 Hi1].
  { destruct Hcase as [(_ & -> & _)|(_ & Hcur & Hi)]; [done|]. split; [|done].
    apply device_rehydrates_inv. apply device_rehydrates_inv in Hd0.
    unfold device_identity in Hi. injection Hi as -> -> -> -> -> _.
    destruct c; naive_solver lia. }
  destruct (IH _ _ Hd1 Hr) as (Hd2 & Hi2 & Hs2 & Hso2 & Hcu2 & Hrev2).
  split; [done|]. split; [congruence|].
  destruct Hcase as [(Hsome & -> & e & -> & _)|(Hnone & Hcur & _)].
  { assert (touched (c, Err e) = None /\ advanced (c, Err e) = None) as [Et Ea] by by destruct c.
    cbn [omap list_omap]. rewrite Et, Ea. conjuncts. }
  assert (is_Some (pd_revokedAt d0) -> d2 = d0) as Hrev by (rewrite Hnone; by intros []).
  destruct c as [t|n t|t].
  - destruct Hcur as (-> & Hs1 & Hc1 & _). cbn. rewrite Hc1 in Hso2, Hcu2.
    conjuncts. by rewrite Hs2, Hs1.
  - destruct Hcur as (Hs1 & _ & [(Hlt & -> & Hc1)|(Hle & [e ->] & ->)]); cbn; [|conjuncts].
    rewrite Hc1 in Hso2, Hcu2. rewrite Hs1 in Hs2. conjuncts.
    + constructor; [done|]. constructor; [done|].
      apply StronglySorted_inv in Hso2 as [_ Hf]. eapply Forall_impl; [exact Hf|]. simpl. lia.
    + rewrite Hcu2. symmetry. apply last_cons_default.
  - destruct Hcur as (-> & Hs1 & Hc1 & _). cbn. rewrite Hc1 in Hso2, Hcu2. rewrite Hs1 in Hs2.
    conjuncts.
Qed.

Definition demo_device : PairedDevice :=
  mkPairedDevice "d1" "u1" "Reader" DeviceClassTablet EnrolledViaPairingCode 10 10 None 0 None.

Lemma paired_device_monotone_witness :
  let calls := [CallTouch 30; CallTouch 20; CallAdvance 5 40; CallAdvance 5 41; CallAdvance 9 42;
                CallRevoke 50; CallTouch 60] in
  NewPairedDevice "d1" "u1" " Reader " DeviceClassTablet EnrolledViaPairingCode 10 = Ok demo_device /\
  pd_lastSeenAt (run_device calls demo_device).2 = 30 /\
  pd_syncCursor (run_device calls demo_device).2 = 9.
Proof.
  intros calls. split; [reflexivity|].
  destruct (paired_device_monotone demo_device calls _ _ eq_refl (surjective_pairing _))
    as (_ & _ & Hs & _ & Hc & _).
  split; [exact Hs|exact Hc].
Defined.

(** The long s (U+017F) upper-cases to an ASCII S, so it is read as one. *)
Lemma long_s_accepted :
  NewPairingCode "ABCD234ſ" = Ok (mkPairingCode "ABCD234S").
Proof. reflexivity. Qed.
