(* ===== verification/PairingStore.v ===== *)
(** * The pairing store (src/internal/persistence/postgres:
      pairing_session_repository.go, paired_device_repository.go,
      pairing_verify.go, enrolment_grant_jti and mfa_ticket_jti repositories,
      network_sweep.go)

    The tables of device pairing, with the constraints of their migrations,
    the statements of the repositories as functions of the tables, and the
    transaction that verifies a code and enrols a device. *)

From S2P Require Import Prelude GoStrings Errors Catalog Transactor Postgres Pairing.

Local Open Scope string_scope.
Local Open Scope list_scope.
Local Open Scope Z_scope.

(** ** The tables (migrations 00010 and 00011) *)

Record session_row := mkSessionRow {
  sr_initiated_by : string;
  sr_ciphertext : string;
  sr_index : string;
  sr_state : string;
  sr_created_at : Time;
  sr_expires_at : Time;
  sr_device_id : option string;
  sr_initiator_ip : option string;
}.

Record device_row := mkDeviceRow {
  dr_owner : option string;
  dr_label : string;
  dr_class : string;
  dr_via : string;
  dr_created_at : Time;
  dr_last_seen_at : Time;
  dr_revoked_at : option Time;
  dr_session : option string;
  dr_cursor : Z;
  dr_last_synced_at : option Time;
}.

#[export] Instance session_row_eq_dec : EqDecision session_row.
Proof. solve_decision. Defined.
#[export] Instance device_row_eq_dec : EqDecision device_row.
Proof. solve_decision. Defined.

Record pairing_db := mkPairingDb {
  sessions : gmap string session_row;
  devices : gmap string device_row;
  grant_jtis : gmap string Time;
  ticket_jtis : gmap string Time;
}.

Definition set_sessions (t : gmap string session_row) (db : pairing_db) : pairing_db :=
  mkPairingDb t (devices db) (grant_jtis db) (ticket_jtis db).
Definition set_devices (t : gmap string device_row) (db : pairing_db) : pairing_db :=
  mkPairingDb (sessions db) t (grant_jtis db) (ticket_jtis db).

Abbreviation dbM := (stM pairing_db error) (only parsing).

(** ** Pairing sessions (pairing_session_repository.go) *)

(** The authenticated cipher and the keyed hash the repository is built with,
    and what it relies on of them. *)
Class Crypto := {
  Seal : string -> string -> string;
  Open : string -> string -> option string;
  NonceSize : nat;
  hmac : string -> string;
  Open_Seal nonce plain : Open nonce (Seal nonce plain) = Some plain;
}.

(** What PostgreSQL answers outside the pairing tables: which users exist and
    how it reads an [inet]. *)
Record Server := mkServer {
  user_exists : string -> bool;
  inet : string -> option string;
}.

Section session_repository.
Context `{CaseTables} `{Crypto} (server : Server).

Definition CodeIndex (code : PairingCode) : string := hmac (Normalized code).

(** [nonce] is what [crypto/rand] answers. *)
Definition encryptCode (nonce : Result string) (code : PairingCode) : Result string :=
  match nonce with
  | Ok n => Ok (n +:+ Seal n (Normalized code))
  | Err err => Err (Errorf ("read nonce: " +:+ Error err) err)
  | OutOfFuel => OutOfFuel
  end.

Definition decryptCode (ciphertext : string) : Result PairingCode :=
  if Nat.ltb (String.length ciphertext) NonceSize then Err (New "ciphertext too short")
  else
    let nonce := String.substring 0 NonceSize ciphertext in
    let data := String.substring NonceSize (String.length ciphertext - NonceSize) ciphertext in
    match Open nonce data with
    | None => Err (New "cipher: message authentication failed")
    | Some plaintext => NewPairingCode plaintext
    end.

(** [INSERT .. ON CONFLICT (id) DO UPDATE SET state, expires_at, device_id]. *)
Definition session_upsert (id : string) (row : session_row) (ip : string) (db : pairing_db)
    : res pg_error (unit * pairing_db) :=
  match (if String.eqb ip "" then Some None else Some <$> inet server ip) with
  | None => Err invalid_text
  | Some addr =>
      if negb (state_valid (sr_state row)) then Err check_violation
      else match sessions db !! id with
      | Some old =>
          Ok (tt, set_sessions (<[id := mkSessionRow (sr_initiated_by old) (sr_ciphertext old)
            (sr_index old) (sr_state row) (sr_created_at old) (sr_expires_at row)
            (sr_device_id row) (sr_initiator_ip old)]> (sessions db)) db)
      | None =>
          match first_row (fun r => String.eqb (sr_index r) (sr_index row)) (sessions db) with
          | Some _ => Err unique_violation
          | None =>
              if negb (user_exists server (sr_initiated_by row)) then Err foreign_key_violation
              else Ok (tt, set_sessions (<[id := mkSessionRow (sr_initiated_by row)
                (sr_ciphertext row) (sr_index row) (sr_state row) (sr_created_at row)
                (sr_expires_at row) (sr_device_id row) addr]> (sessions db)) db)
          end
      end
  end.

Definition SaveWithInitiatorIP (nonce : Result string) (fault : option pg_error)
    (s : PairingSession) (ip : string) : dbM unit :=
  match encryptCode nonce (ps_code s) with
  | Err err => throw (DomainError Internal "failed to encrypt pairing code" (Some err))
  | OutOfFuel => fun db => (OutOfFuel, db)
  | Ok ciphertext =>
      exec fault (session_upsert (ps_id s)
        (mkSessionRow (ps_initiatedBy s) ciphertext (CodeIndex (ps_code s)) (ps_state s)
           (ps_createdAt s) (ps_expiresAt s) (ps_deviceID s) None) ip)
  end.

Definition SaveSession (nonce : Result string) (fault : option pg_error) (s : PairingSession)
    : dbM unit :=
  SaveWithInitiatorIP nonce fault s "".

Definition scanSession (row : option (string * session_row)) : Result PairingSession :=
  match row with
  | None => fails NotFound "pairing session not found"
  | Some (id, r) =>
      match decryptCode (sr_ciphertext r) with
      | Err err => Err (DomainError Internal "could not decrypt stored pairing code" (Some err))
      | OutOfFuel => OutOfFuel
      | Ok code =>
          RehydratePairingSession id (sr_initiated_by r) code (sr_state r) (sr_created_at r)
            (sr_expires_at r) (sr_device_id r)
      end
  end.

(** A query of the session table, [fault] being the driver's error. *)
Definition query_session (fault : option pg_error)
    (select : gmap string session_row -> option (string * session_row)) : dbM PairingSession :=
  reading (fun db =>
    match fault with
    | Some e => Err (TranslateError e)
    | None => scanSession (select (sessions db))
    end).

Definition FindSessionByID (fault : option pg_error) (id : PairingSessionID)
    : dbM PairingSession :=
  query_session fault (fun t => (fun r => (id, r)) <$> t !! id).

Definition FindByCodeIndex (fault : option pg_error) (codeIndex : string) : dbM PairingSession :=
  query_session fault (first_row (fun r => String.eqb (sr_index r) codeIndex)).

(** [WHERE code_index = $1 AND state = 'pending' AND expires_at > $2]. *)
Definition pending_match (codeIndex : string) (now : Time) (r : session_row) : bool :=
  String.eqb (sr_index r) codeIndex && String.eqb (sr_state r) PairingPending
  && (now <? sr_expires_at r).

(** [inTx]: whether the context carries a transaction. *)
Definition FindPendingByCodeIndexForUpdate (inTx : bool) (fault : option pg_error)
    (codeIndex : string) (now : Time) : dbM PairingSession :=
  if negb inTx then
    throw (mkErr Internal "FindPendingByCodeIndexForUpdate requires an active transaction")
  else query_session fault (first_row (pending_match codeIndex now)).

(** [DELETE FROM pairing_sessions WHERE id = $1]; the devices that referenced
    the session lose the reference ([ON DELETE SET NULL]). *)
Definition forget_sessions (gone : string -> bool) (t : gmap string device_row)
    : gmap string device_row :=
  (fun r =>
     match dr_session r with
     | Some sid =>
         if gone sid then
           mkDeviceRow (dr_owner r) (dr_label r) (dr_class r) (dr_via r) (dr_created_at r)
             (dr_last_seen_at r) (dr_revoked_at r) None (dr_cursor r) (dr_last_synced_at r)
         else r
     | None => r
     end) <$> t.

Definition DeleteSession (fault : option pg_error) (id : PairingSessionID) : dbM unit :=
  n ← exec fault (fun db =>
    match sessions db !! id with
    | Some _ => Ok (1, set_devices (forget_sessions (String.eqb id) (devices db))
                         (set_sessions (delete id (sessions db)) db))
    | None => Ok (0, db)
    end);
  if n =? 0 then throw (mkErr NotFound "pairing session not found") else mret tt.
End session_repository.

(** ** Paired devices (paired_device_repository.go) *)

(** [CHECK (length(trim(label)) > 0 AND length(label) <= 100)], the class and
    the enrolment method. *)
Definition device_check (r : device_row) : bool :=
  existsb (fun b => negb (b =? 32)) (bytes (dr_label r)) && (rune_count (dr_label r) <=? 100)
  && class_valid (dr_class r) && via_valid (dr_via r).

(** [paired_devices_pairing_session_uidx]: one device per pairing session. *)
Definition session_taken (sid : option string) (t : gmap string device_row) : bool :=
  match sid with
  | Some s => match first_row (fun r => bool_decide (dr_session r = Some s)) t with
              | Some _ => true
              | None => false
              end
  | None => false
  end.

Definition owner_known (server : Server) (owner : option string) : bool :=
  match owner with Some u => user_exists server u | None => true end.

Definition device_insert (server : Server) (id : string) (row : device_row) (db : pairing_db)
    : res pg_error (unit * pairing_db) :=
  if negb (device_check row) then Err check_violation
  else match devices db !! id with
  | Some _ => Err unique_violation
  | None =>
      if session_taken (dr_session row) (devices db) then Err unique_violation
      else if negb (owner_known server (dr_owner row)) then Err foreign_key_violation
      else if negb (match dr_session row with
                    | Some s => bool_decide (is_Some (sessions db !! s))
                    | None => true
                    end) then Err foreign_key_violation
      else Ok (tt, set_devices (<[id := row]> (devices db)) db)
  end.

(** [Save]: the upsert keeps the creation time and the session of a stored
    row. *)
Definition SaveDevice (server : Server) (fault : option pg_error) (d : PairedDevice) : dbM unit :=
  exec fault (fun db =>
    let row created sid :=
      mkDeviceRow (Some (pd_owner d)) (pd_label d) (pd_deviceClass d) (pd_enrolledVia d) created
        (pd_lastSeenAt d) (pd_revokedAt d) sid (pd_syncCursor d) (pd_lastSyncedAt d) in
    match devices db !! pd_id d with
    | None => device_insert server (pd_id d) (row (pd_createdAt d) None) db
    | Some old =>
        let new := row (dr_created_at old) (dr_session old) in
        if negb (device_check new) then Err check_violation
        else if negb (owner_known server (dr_owner new)) then Err foreign_key_violation
        else Ok (tt, set_devices (<[pd_id d := new]> (devices db)) db)
    end).

Definition default_label (label : string) (deviceClass : DeviceClass) : string :=
  let trimmed := TrimSpace label in
  if String.eqb trimmed "" then (if String.eqb deviceClass "" then "Device" else deviceClass)
  else trimmed.

Definition label_too_long : error :=
  mkErr InvalidInput "device label cannot exceed 100 characters".

Definition InsertProvisional (server : Server) (fault : option pg_error) (id : DeviceID)
    (label : string) (deviceClass : DeviceClass) (enrolledVia : EnrolledVia)
    (pairingSessionID : PairingSessionID) (now : Time) : dbM unit :=
  let trimmed := default_label label deviceClass in
  if 100 <? rune_count trimmed then throw label_too_long
  else exec fault (device_insert server id
         (mkDeviceRow None trimmed deviceClass enrolledVia now now None (Some pairingSessionID)
            0 None)).

(** An [UPDATE paired_devices] and the number of rows it affects. *)
Definition update_devices (fault : option pg_error) (p : string -> device_row -> bool)
    (f : device_row -> device_row) : dbM Z :=
  exec fault (fun db =>
    let '(n, t) := update_where p f (devices db) in Ok (n, set_devices t db)).

Definition active (r : device_row) : bool := bool_decide (dr_revoked_at r = None).

Definition set_dr_revoked (t : Time) (r : device_row) : device_row :=
  mkDeviceRow (dr_owner r) (dr_label r) (dr_class r) (dr_via r) (dr_created_at r)
    (dr_last_seen_at r) (Some t) (dr_session r) (dr_cursor r) (dr_last_synced_at r).
Definition set_dr_owner (o : string) (r : device_row) : device_row :=
  mkDeviceRow (Some o) (dr_label r) (dr_class r) (dr_via r) (dr_created_at r)
    (dr_last_seen_at r) (dr_revoked_at r) (dr_session r) (dr_cursor r) (dr_last_synced_at r).
Definition set_dr_cursor (n : Z) (t : Time) (r : device_row) : device_row :=
  mkDeviceRow (dr_owner r) (dr_label r) (dr_class r) (dr_via r) (dr_created_at r)
    (dr_last_seen_at r) (dr_revoked_at r) (dr_session r) n (Some t).
Definition set_dr_seen (t : Time) (r : device_row) : device_row :=
  mkDeviceRow (dr_owner r) (dr_label r) (dr_class r) (dr_via r) (dr_created_at r) t
    (dr_revoked_at r) (dr_session r) (dr_cursor r) (dr_last_synced_at r).

(** [WHERE pairing_session_id = $2 AND owner_id IS NULL AND revoked_at IS NULL]. *)
Definition provisional_of (sid : string) (r : device_row) : bool :=
  bool_decide (dr_session r = Some sid) && bool_decide (dr_owner r = None) && active r.

Definition AssignOwnerByPairingSession (server : Server) (fault : option pg_error)
    (sessionID : PairingSessionID) (owner : UserID) : dbM unit :=
  n ← exec fault (fun db =>
    let '(n, t) := update_where (fun _ => provisional_of sessionID) (set_dr_owner owner) (devices db) in
    if (0 <? n) && negb (user_exists server owner) then Err foreign_key_violation
    else Ok (n, set_devices t db));
  if n =? 0 then throw (mkErr NotFound "provisional paired device not found for session")
  else mret tt.

Definition RevokeDevice (fault : option pg_error) (id : DeviceID) (now : Time) : dbM unit :=
  n ← update_devices fault (fun k r => String.eqb k id && active r) (set_dr_revoked now);
  if n =? 0 then throw (mkErr NotFound "paired device not found or already revoked") else mret tt.

Definition RevokeByPairingSessionID (fault : option pg_error) (sessionID : PairingSessionID)
    (now : Time) : dbM unit :=
  n ← update_devices fault (fun _ r => bool_decide (dr_session r = Some sessionID) && active r)
        (set_dr_revoked now);
  if n =? 0 then
    throw (mkErr NotFound "paired device not found for session or already revoked")
  else mret tt.

Definition scanDevice (row : option (string * device_row)) : Result PairedDevice :=
  match row with
  | None => fails NotFound "paired device not found"
  | Some (id, r) =>
      match dr_owner r with
      | Some owner =>
          if String.eqb owner "" then
            fails NotFound "paired device is provisional (unassigned owner)"
          else RehydratePairedDevice id owner (dr_label r) (dr_class r) (dr_via r)
                 (dr_created_at r) (dr_last_seen_at r) (dr_revoked_at r) (dr_cursor r)
                 (dr_last_synced_at r)
      | None => fails NotFound "paired device is provisional (unassigned owner)"
      end
  end.

Definition query_device (fault : option pg_error)
    (select : gmap string device_row -> option (string * device_row)) : dbM PairedDevice :=
  reading (fun db =>
    match fault with
    | Some e => Err (TranslateError e)
    | None => scanDevice (select (devices db))
    end).

Definition FindDeviceByID (fault : option pg_error) (id : DeviceID) : dbM PairedDevice :=
  query_device fault (fun t => (fun r => (id, r)) <$> t !! id).

Definition FindByPairingSessionID (fault : option pg_error) (sid : PairingSessionID)
    : dbM PairedDevice :=
  query_device fault (first_row (fun r => bool_decide (dr_session r = Some sid))).

(** The second look at a device whose cursor was not advanced: it is missing or
    revoked, or its cursor is already as high. *)
Definition not_advanced (fault : option pg_error) (id : DeviceID) : dbM unit := fun db =>
  let gone := mkErr NotFound "paired device not found or already revoked" in
  match FindDeviceByID fault id db with
  | (Ok dev, _) => match pd_revokedAt dev with
                   | Some _ => (Err gone, db)
                   | None => (Ok tt, db)
                   end
  | (OutOfFuel, _) => (OutOfFuel, db)
  | (Err _, _) => (Err gone, db)
  end.

Definition AdvanceDeviceCursor (fault fault' : option pg_error) (id : DeviceID) (newCursor : Z)
    (now : Time) : dbM unit :=
  n ← update_devices fault
        (fun k r => String.eqb k id && active r && (dr_cursor r <? newCursor))
        (set_dr_cursor newCursor now);
  if n =? 0 then not_advanced fault' id else mret tt.

Definition UpdateLastSeen (fault : option pg_error) (id : DeviceID) (now : Time) : dbM unit :=
  n ← update_devices fault (fun k r => String.eqb k id && active r) (set_dr_seen now);
  if n =? 0 then throw (mkErr NotFound "paired device not found or already revoked") else mret tt.

(** [ORDER BY created_at DESC], stopping at the first row that does not
    scan. *)
Fixpoint insert_newest (x : string * device_row) (l : list (string * device_row))
    : list (string * device_row) :=
  match l with
  | [] => [x]
  | y :: l' => if dr_created_at y.2 <=? dr_created_at x.2 then x :: l else y :: insert_newest x l'
  end.
Fixpoint scan_devices (l : list (string * device_row)) : Result (list PairedDevice) :=
  match l with
  | [] => mret []
  | x :: l' =>
      d ← scanDevice (Some x);
      ds ← scan_devices l';
      mret (d :: ds)
  end.
Definition FindByOwner (fault : option pg_error) (owner : UserID) : dbM (list PairedDevice) :=
  reading (fun db =>
    match fault with
    | Some e => Err (TranslateError e)
    | None => scan_devices (fold_right insert_newest []
                (List.filter (fun x => bool_decide (dr_owner x.2 = Some owner))
                   (map_to_list (devices db))))
    end).

(** ** Verify and consume (pairing_verify.go)

    One fault per statement of the transaction. *)
Record Faults := mkFaults { on_find : option pg_error; on_save : option pg_error;
                            on_insert : option pg_error }.
Definition no_faults : Faults := mkFaults None None None.

(** A method of the session called on the local session [s]. *)
Definition on_session (m : stM PairingSession error unit) (s : PairingSession)
    : dbM PairingSession := fun db =>
  match m s with
  | (Ok _, s') => (Ok s', db)
  | (Err e, _) => (Err e, db)
  | (OutOfFuel, _) => (OutOfFuel, db)
  end.

Definition VerifyAndConsume `{CaseTables} `{Crypto} (server : Server) (tx : TxOutcome)
    (faults : Faults) (nonce : Result string) (code : PairingCode) (deviceID : DeviceID)
    (label : string) (deviceClass : DeviceClass) (now : Time) : dbM PairingSession :=
  if 100 <? rune_count (default_label label deviceClass) then throw label_too_long
  else InTx tx (
    session ← FindPendingByCodeIndexForUpdate true (on_find faults) (CodeIndex code) now;
    session ← on_session (Verify now code deviceID) session;
    session ← on_session (Consume now) session;
    _ ← SaveSession server nonce (on_save faults) session;
    _ ← InsertProvisional server (on_insert faults) deviceID label deviceClass
          EnrolledViaPairingCode (ps_id session) now;
    mret session).

(** ** Single-use tickets (enrolment_grant_repository.go,
       mfa_ticket_jti_repository.go) *)

(** [INSERT .. ON CONFLICT (jti) DO NOTHING] and whether it inserted. *)
Definition claim_jti (jti : string) (spentAt : Time) (t : gmap string Time)
    : bool * gmap string Time :=
  match t !! jti with
  | Some _ => (false, t)
  | None => (true, <[jti := spentAt]> t)
  end.

Definition ClaimGrant (fault : option pg_error) (jti : string) (spentAt : Time) : dbM bool :=
  exec fault (fun db =>
    let '(ok, t) := claim_jti jti spentAt (grant_jtis db) in
    Ok (ok, mkPairingDb (sessions db) (devices db) t (ticket_jtis db))).

Definition ClaimTicket (fault : option pg_error) (jti : string) (spentAt : Time) : dbM bool :=
  exec fault (fun db =>
    let '(ok, t) := claim_jti jti spentAt (ticket_jtis db) in
    Ok (ok, mkPairingDb (sessions db) (devices db) (grant_jtis db) t)).

(** ** The sweep (network_sweep.go) *)

Record SweepResults := mkSweepResults {
  ExpiredSessions : Z;
  DeletedSessions : Z;
  DeletedDevices : Z;
  DeletedGrantJTIs : Z;
  DeletedTicketJTIs : Z;
}.

Definition maxGrantTTL : Duration := 10 * Minute.

Definition expire_row (r : session_row) : session_row :=
  mkSessionRow (sr_initiated_by r) (sr_ciphertext r) (sr_index r) PairingExpired
    (sr_created_at r) (sr_expires_at r) (sr_device_id r) (sr_initiator_ip r).

Definition stale_session (now : Time) (r : session_row) : bool :=
  (String.eqb (sr_state r) PairingPending || String.eqb (sr_state r) PairingVerified)
  && (sr_expires_at r <=? now).

Definition terminal_session (cutoff : Time) (r : session_row) : bool :=
  (String.eqb (sr_state r) PairingExpired || String.eqb (sr_state r) PairingConsumed)
  && (sr_expires_at r <=? cutoff).

Definition abandoned_device (cutoff : Time) (r : device_row) : bool :=
  bool_decide (dr_owner r = None) && (dr_created_at r <=? cutoff).

Definition sweep_sessions (fault : option pg_error) (now : Time) : dbM Z :=
  exec fault (fun db =>
    let '(n, t) := update_where (fun _ => stale_session now) expire_row (sessions db) in
    Ok (n, set_sessions t db)).

Definition sweep_terminal (fault : option pg_error) (cutoff : Time) : dbM Z :=
  exec fault (fun db =>
    let '(n, t) := delete_where (terminal_session cutoff) (sessions db) in
    Ok (n, set_devices (forget_sessions (fun s => bool_decide (t !! s = None)) (devices db))
             (set_sessions t db))).

Definition sweep_devices (fault : option pg_error) (cutoff : Time) : dbM Z :=
  exec fault (fun db =>
    let '(n, t) := delete_where (abandoned_device cutoff) (devices db) in
    Ok (n, set_devices t db)).

Definition sweep_grants (fault : option pg_error) (cutoff : Time) : dbM Z :=
  exec fault (fun db =>
    let '(n, t) := delete_where (fun spent => spent <=? cutoff) (grant_jtis db) in
    Ok (n, mkPairingDb (sessions db) (devices db) t (ticket_jtis db))).

Definition sweep_tickets (fault : option pg_error) (cutoff : Time) : dbM Z :=
  exec fault (fun db =>
    let '(n, t) := delete_where (fun spent => spent <=? cutoff) (ticket_jtis db) in
    Ok (n, mkPairingDb (sessions db) (devices db) (grant_jtis db) t)).

(** The five statements are separate: a failure leaves the earlier ones
    done. *)
Definition SweepOnce (fault : nat -> option pg_error) (now : Time) : dbM SweepResults :=
  expired ← sweep_sessions (fault 1%nat) now;
  deleted ← sweep_terminal (fault 2%nat) (Add now (-24 * Hour));
  devs ← sweep_devices (fault 3%nat) (Add now (-1 * Hour));
  grants ← sweep_grants (fault 4%nat) (Add now (- maxGrantTTL - 1 * Hour));
  tickets ← sweep_tickets (fault 5%nat) (Add now (-1 * Hour));
  mret (mkSweepResults expired deleted devs grants tickets).
