(* ===== verification/PairingSafety.v ===== *)
(** * What the pairing store guarantees

    A pairing session survives storage; a code enrols exactly one device, all
    or nothing; and a stored device only moves forward. *)

From S2P Require Import Prelude GoStrings Errors Catalog Transactor Postgres Pairing PairingStore.

Local Open Scope string_scope.
Local Open Scope list_scope.
Local Open Scope Z_scope.

(** ** The encrypted code *)

Section with_crypto.
Context `{CaseTables} `{Crypto} (server : Server).

Lemma decrypt_encrypt n c ct :
  String.length n = NonceSize -> code_ok (code_b c) = true ->
  encryptCode (Ok n) c = Ok ct -> decryptCode ct = Ok c.
Proof.
  intros Hn Hc [= <-]. unfold decryptCode. rewrite str_length_app, Hn.
  rewrite (proj2 (Nat.ltb_ge _ _)) by lia. rewrite <- Hn. rewrite substring_prefix.
  replace (String.length n + String.length (Seal n (Normalized c)) - String.length n)%nat
    with (String.length (Seal n (Normalized c))) by lia.
  rewrite substring_suffix, Open_Seal. destruct c as [b].
  apply code_ok_NewPairingCode; [done|]. by apply (normal_Normalized (mkPairingCode b)).
Qed.

(** The unique constraint on [code_index]. *)
Definition unique_index (t : gmap string session_row) : Prop :=
  forall i j ri rj, t !! i = Some ri -> t !! j = Some rj -> sr_index ri = sr_index rj -> i = j.

Lemma scanSession_ok id r s :
  scanSession (Some (id, r)) = Ok s ->
  decryptCode (sr_ciphertext r) = Ok (ps_code s) /\ ps_id s = id /\
  ps_initiatedBy s = sr_initiated_by r /\ ps_state s = sr_state r /\
  ps_createdAt s = sr_created_at r /\ ps_expiresAt s = sr_expires_at r /\
  ps_deviceID s = sr_device_id r /\ rehydrates s.
Proof.
  unfold scanSession. destruct (decryptCode (sr_ciphertext r)) as [c|e|]; [|done..]. intros Hre.
  assert (s = mkPairingSession id (sr_initiated_by r) c (sr_state r) (sr_created_at r)
    (sr_expires_at r) (sr_device_id r)) as ->.
  { revert Hre. unfold RehydratePairingSession, fails. intros Hre. repeat (case_match; try done).
    all: by injection Hre as <-. }
  by conjuncts.
Qed.

(** The row of [s] once stored with ciphertext [ct]. *)
Definition row_of (ct : string) (s : PairingSession) : session_row :=
  mkSessionRow (ps_initiatedBy s) ct (CodeIndex (ps_code s)) (ps_state s) (ps_createdAt s)
    (ps_expiresAt s) (ps_deviceID s) None.

Lemma scan_row_of n ct s addr :
  String.length n = NonceSize -> encryptCode (Ok n) (ps_code s) = Ok ct ->
  code_ok (code_b (ps_code s)) = true -> rehydrates s ->
  scanSession (Some (ps_id s, mkSessionRow (ps_initiatedBy s) ct (CodeIndex (ps_code s))
    (ps_state s) (ps_createdAt s) (ps_expiresAt s) (ps_deviceID s) addr)) = Ok s.
Proof.
  intros Hn He Hc Hs. unfold scanSession. simpl. by rewrite (decrypt_encrypt _ _ _ Hn Hc He).
Qed.

Lemma find_pending_ok fault idx now db s db' :
  FindPendingByCodeIndexForUpdate true fault idx now db = (Ok s, db') <->
  fault = None /\ db' = db /\
  exists id r, first_row (pending_match idx now) (sessions db) = Some (id, r) /\
    scanSession (Some (id, r)) = Ok s.
Proof.
  unfold FindPendingByCodeIndexForUpdate, query_session. simpl. rewrite reading_ok.
  destruct fault; [by split; [intros [? _]|intros [? _]]|].
  destruct (first_row (pending_match idx now) (sessions db)) as [[id r]|] eqn:E.
  - split; [intros [Hs ->]; eauto 10|]. intros (_ & -> & id' & r' & [= <- <-] & Hs). done.
  - split; [by intros [Hs _]|]. by intros (_ & _ & id' & r' & ? & _).
Qed.

Lemma on_session_ok m s db s' db' :
  on_session m s db = (Ok s', db') <-> m s = (Ok tt, s') /\ db' = db.
Proof.
  unfold on_session. destruct (m s) as [[[]|e|] s1]; split; try (by intros [? ?]); try done.
  - by intros [= <- <-].
  - by intros [[= <-] ->].
Qed.

Lemma SaveSession_ok nonce fault s db db' :
  SaveSession server nonce fault s db = (Ok tt, db') <->
  fault = None /\ exists n ct, nonce = Ok n /\ encryptCode (Ok n) (ps_code s) = Ok ct /\
    session_upsert server (ps_id s) (row_of ct s) "" db = Ok (tt, db').
Proof.
  unfold SaveSession, SaveWithInitiatorIP. destruct nonce as [n|e|]; simpl.
  - rewrite exec_ok. unfold row_of. split; [intros [-> Hu]; eauto 10|].
    by intros (-> & n' & ct & [= <-] & [= <-] & Hu).
  - split; [done|]. by intros (_ & n & ct & ? & _).
  - split; [done|]. by intros (_ & n & ct & ? & _).
Qed.

Lemma upsert_existing id row old db db' :
  sessions db !! id = Some old -> state_valid (sr_state row) = true ->
  session_upsert server id row "" db = Ok (tt, db') <->
  db' = set_sessions (<[id := mkSessionRow (sr_initiated_by old) (sr_ciphertext old)
            (sr_index old) (sr_state row) (sr_created_at old) (sr_expires_at row)
            (sr_device_id row) (sr_initiator_ip old)]> (sessions db)) db.
Proof.
  intros Ho Hv. unfold session_upsert. simpl. rewrite Hv, Ho. simpl. split; [by intros [= <-]|by intros ->].
Qed.

Lemma device_insert_ok id row db db' :
  device_insert server id row db = Ok (tt, db') ->
  device_check row = true /\ devices db !! id = None /\
  db' = set_devices (<[id := row]> (devices db)) db.
Proof.
  unfold device_insert. intros Hi. destruct (device_check row); [|done]. simpl in Hi.
  destruct (devices db !! id) eqn:Hd; [done|].
  destruct (session_taken _ _); [done|]. destruct (owner_known _ _); [|done]. simpl in Hi.
  destruct (negb _); [done|]. by injection Hi as <-.
Qed.

Lemma InsertProvisional_ok fault id label cls via sid now db db' :
  InsertProvisional server fault id label cls via sid now db = (Ok tt, db') ->
  devices db !! id = None /\
  db' = set_devices (<[id := mkDeviceRow None (default_label label cls) cls via now now None
                       (Some sid) 0 None]> (devices db)) db.
Proof.
  unfold InsertProvisional. destruct (100 <? _); [done|].
  intros [_ (_ & ? & ->)%device_insert_ok]%exec_ok. done.
Qed.

(** The session between its verification and its consumption. *)
Lemma Verify_ok now c d s s' :
  Verify now c d s = (Ok tt, s') ->
  ps_state s = PairingPending /\ now < ps_expiresAt s /\ blank d = false /\
  Equal (ps_code s) c = true /\
  s' = set_ps_state PairingVerified (set_ps_deviceID (Some d) s).
Proof.
  unfold Verify. intros H1. apply stM_bind_ok in H1 as ([] & s1 & Hc & Hv).
  apply checkAdvanceable_cases in Hc as [(_ & -> & _ & Hlt & Hs)|[(? & _)|(? & _)]]; [|done..].
  destruct (blank d) eqn:Hb; [by unfold throw in Hv|].
  destruct (Equal (ps_code s) c) eqn:He; [|done]. simpl in Hv. by injection Hv as <-.
Qed.

Lemma Consume_ok now s s' :
  Consume now s = (Ok tt, s') ->
  ps_state s = PairingVerified /\ now < ps_expiresAt s /\ s' = set_ps_state PairingConsumed s.
Proof.
  unfold Consume. intros H1. apply stM_bind_ok in H1 as ([] & s1 & Hc & Hv).
  apply checkAdvanceable_cases in Hc as [(_ & -> & _ & Hlt & Hs)|[(? & _)|(? & _)]]; [|done..].
  unfold modify in Hv. by injection Hv as <-.
Qed.

Definition consumed_row (d : DeviceID) (r : session_row) : session_row :=
  mkSessionRow (sr_initiated_by r) (sr_ciphertext r) (sr_index r) PairingConsumed
    (sr_created_at r) (sr_expires_at r) (Some d) (sr_initiator_ip r).

Definition provisional_row (label : string) (cls : DeviceClass) (sid : string) (now : Time)
    : device_row :=
  mkDeviceRow None (default_label label cls) cls EnrolledViaPairingCode now now None (Some sid)
    0 None.

Lemma VerifyAndConsume_ok tx faults nonce c d label cls now db s db' :
  VerifyAndConsume server tx faults nonce c d label cls now db = (Ok s, db') ->
  exists id r s0,
    first_row (pending_match (CodeIndex c) now) (sessions db) = Some (id, r) /\
    scanSession (Some (id, r)) = Ok s0 /\ Equal (ps_code s0) c = true /\
    s = set_ps_state PairingConsumed (set_ps_deviceID (Some d) s0) /\
    devices db !! d = None /\
    db' = mkPairingDb (<[id := consumed_row d r]> (sessions db))
            (<[d := provisional_row label cls id now]> (devices db)) (grant_jtis db) (ticket_jtis db).
Proof.
  unfold VerifyAndConsume. destruct (100 <? _); [done|]. intros Hrun%InTx_ok. svc_inv Hrun.
  match goal with Hf : FindPendingByCodeIndexForUpdate _ _ _ _ _ = _ |- _ =>
    apply find_pending_ok in Hf as (_ & -> & id & r & Hrow & Hscan) end.
  repeat match goal with Ho : on_session _ _ _ = _ |- _ => apply on_session_ok in Ho as [Ho ->] end.
  match goal with Hv : Verify _ _ _ _ = _ |- _ => apply Verify_ok in Hv as (_ & _ & _ & He & ->) end.
  match goal with Hc : Consume _ _ = _ |- _ => apply Consume_ok in Hc as (_ & _ & ->) end.
  match goal with Hs : SaveSession _ _ _ _ _ = (Ok ?u, _) |- _ =>
    destruct u; apply SaveSession_ok in Hs as (_ & n & ct & _ & _ & Hup) end.
  match goal with Hi : InsertProvisional _ _ _ _ _ _ _ _ _ = (Ok ?u, _) |- _ =>
    destruct u; apply InsertProvisional_ok in Hi as [Hnew ->] end.
  destruct (scanSession_ok _ _ _ Hscan) as (_ & Hid & _ & _ & _ & Hex & _).
  apply first_row_Some in Hrow as Hr. destruct Hr as [Hr _]. simpl in Hup.
  rewrite Hid in Hup. eapply upsert_existing in Hup; [|exact Hr|done]. subst.
  eexists _, _, _. conjuncts. unfold consumed_row, provisional_row. simpl. by rewrite Hex.
Qed.
End with_crypto.

Lemma VerifyAndConsume_fail `{CaseTables} `{Crypto} server tx faults nonce c d label cls now db r db' :
  VerifyAndConsume server tx faults nonce c d label cls now db = (r, db') ->
  is_ok r = false -> db' = db.
Proof.
  unfold VerifyAndConsume. destruct (100 <? _); [by intros [= <- <-]|]. intros Hrun Hr.
  destruct r as [s|e|]; [done|by eapply InTx_err|by eapply InTx_fuel].
Qed.

(** C27: A pairing code enrols one device, all or nothing.  When
    [VerifyAndConsume] succeeds, the code was that of a stored session, pending
    and unexpired; afterwards that session, and no other row, is consumed by the
    device, and the device's row, which was not there, is inserted without an
    owner and tied to the session; and no later attempt with the same code, by
    any device at any time, succeeds.  When it does not succeed, for whichever
    reason (an unknown code, a statement or a commit that fails half way), the
    tables are exactly what they were. *)
Theorem VerifyAndConsume_single_use `{CaseTables} `{Crypto}
    server tx faults nonce code deviceID label deviceClass now db r db' :
  unique_index (sessions db) ->
  VerifyAndConsume server tx faults nonce code deviceID label deviceClass now db = (r, db') ->
  match r with
  | Ok s =>
      (exists row,
        sessions db !! ps_id s = Some row /\ sr_index row = CodeIndex code /\
        sr_state row = PairingPending /\ now < sr_expires_at row /\
        decryptCode (sr_ciphertext row) = Ok code /\
        ps_state s = PairingConsumed /\ ps_deviceID s = Some deviceID /\
        sessions db' = <[ps_id s := consumed_row deviceID row]> (sessions db)) /\
      devices db !! deviceID = None /\
      devices db' = <[deviceID := provisional_row label deviceClass (ps_id s) now]> (devices db) /\
      (forall tx' faults' nonce' d' label' cls' later,
         let '(r', db'') :=
           VerifyAndConsume server tx' faults' nonce' code d' label' cls' later db' in
         is_ok r' = false /\ db'' = db')
  | _ => db' = db
  end.
Proof.
  intros Hu Hrun. destruct r as [s|e|]; [|by eapply VerifyAndConsume_fail..].
  apply VerifyAndConsume_ok in Hrun as (id & row & s0 & Hrow & Hscan & He & -> & Hnew & ->).
  apply first_row_Some in Hrow as [Hrow Hm]. unfold pending_match in Hm. bool_to_prop.
  repeat match goal with E : String.eqb _ _ = true |- _ => apply String.eqb_eq in E end.
  destruct (scanSession_ok _ _ _ Hscan) as (Hdec & Hid & _). cbn [sessions devices].
  change (ps_id (set_ps_state PairingConsumed (set_ps_deviceID (Some deviceID) s0))) with (ps_id s0).
  rewrite Hid.
  assert (code = ps_code s0) as ->.
  { unfold Equal, ConstantTimeCompare in He. destruct (_ || _); [done|].
    destruct (String.eqb_spec (code_b (ps_code s0)) (code_b code)) as [E|]; [|done].
    destruct code, (ps_code s0). simpl in E. by subst. }
  conjuncts; [by exists row; conjuncts|].
  intros tx' faults' nonce' d' label' cls' later.
  destruct (VerifyAndConsume server tx' faults' nonce' _ d' label' cls' later _)
    as [r' db''] eqn:Hrun.
  assert (is_ok r' = false) as Hr'; [|split; [done|by eapply VerifyAndConsume_fail]].
  destruct r' as [s'|e|]; [|done..].
  apply VerifyAndConsume_ok in Hrun as (id' & row' & s0' & Hrow' & _).
  apply first_row_Some in Hrow' as [Hrow' Hm']. unfold pending_match in Hm'. bool_to_prop.
  repeat match goal with E : String.eqb _ _ = true |- _ => apply String.eqb_eq in E end.
  cbn [sessions] in Hrow'. destruct (decide (id' = id)) as [->|Hne].
  - rewrite lookup_insert_eq in Hrow'. injection Hrow' as <-. done.
  - rewrite lookup_insert_ne in Hrow' by done. exfalso. apply Hne. eapply Hu; [done..|congruence].
Qed.

(** ** A stored session is the session *)

Lemma drop_while_all {A} (p : A -> bool) l : Forall (fun x => p x = true) l -> drop_while p l = [].
Proof. induction 1 as [|x l Hx _ IH]; simpl; [done|]. by rewrite Hx. Qed.

(** What [TrimSpace] leaves of a non-blank string is not blank to SQL's
    [trim] either. *)
Lemma trimmed_not_spaces s :
  TrimSpace s <> "" -> existsb (fun b => negb (b =? 32)) (bytes (TrimSpace s)) = true.
Proof.
  intros Hne. destruct (existsb _ _) eqn:E; [done|]. exfalso. apply Hne.
  rewrite <- TrimSpace_idemp. revert E. generalize (TrimSpace s) as t. intros t E.
  assert (Forall (fun b => b = 32) (bytes t)) as Hf.
  { apply Forall_forall. intros b Hb. destruct (Z.eqb_spec b 32); [done|].
    enough (existsb (fun b => negb (b =? 32)) (bytes t) = true) by congruence.
    apply existsb_exists. exists b. split; [by apply list_elem_of_In|].
    by destruct (Z.eqb_spec b 32). }
  unfold TrimSpace. rewrite chunks_ascii.
  - rewrite drop_while_all; [done|]. unfold chunks_of_bytes. apply Forall_fmap.
    eapply Forall_impl; [exact Hf|]. by intros b ->.
  - apply is_ascii_Forall. eapply Forall_impl; [exact Hf|]. simpl. lia.
Qed.

Section stored.
Context `{CaseTables} `{Crypto} (server : Server).

(** Saving a session that is not there yet. *)
Lemma save_new n s db :
  String.length n = NonceSize ->
  sessions db !! ps_id s = None -> state_valid (ps_state s) = true ->
  (forall k r, sessions db !! k = Some r -> sr_index r <> CodeIndex (ps_code s)) ->
  user_exists server (ps_initiatedBy s) = true ->
  SaveSession server (Ok n) None s db =
  (Ok tt, set_sessions (<[ps_id s := row_of (n +:+ Seal n (Normalized (ps_code s))) s]>
            (sessions db)) db).
Proof.
  intros Hn Hnew Hv Hidx Hu. apply SaveSession_ok. split; [done|].
  eexists n, _. do 2 (split; [done|]). unfold session_upsert. simpl. rewrite Hv, Hnew. simpl.
  rewrite (proj2 (first_row_None _ _)).
  - by rewrite Hu.
  - intros k r Hk. simpl. apply String.eqb_neq. eauto.
Qed.

Lemma unique_insert t id row :
  unique_index t -> (forall k r, t !! k = Some r -> k <> id -> sr_index r <> sr_index row) ->
  unique_index (<[id := row]> t).
Proof.
  intros Hu Hne i j ri rj Hi Hj E.
  destruct (decide (i = id)) as [->|Hi'], (decide (j = id)) as [->|Hj']; [done|..];
    rewrite ?lookup_insert_eq in Hi; rewrite ?lookup_insert_eq in Hj;
    rewrite ?lookup_insert_ne in Hi by done; rewrite ?lookup_insert_ne in Hj by done.
  - injection Hi as <-. exfalso. by eapply Hne.
  - injection Hj as <-. exfalso. by eapply Hne.
  - by eapply Hu.
Qed.

Lemma provisional_row_check label cls sid now :
  class_valid cls = true -> rune_count (default_label label cls) <= 100 ->
  device_check (provisional_row label cls sid now) = true.
Proof.
  intros Hc Hl. unfold device_check, provisional_row, default_label in *. simpl in *.
  rewrite Hc. replace (rune_count _ <=? 100) with true by (symmetry; by apply Z.leb_le).
  destruct (String.eqb_spec (TrimSpace label) "") as [_|Hne].
  - unfold class_valid in Hc. simpl in Hc. repeat rewrite orb_true_iff in Hc.
    destruct (String.eqb_spec cls "") as [->|_]; [done|].
    repeat (destruct Hc as [Hc|Hc]; [apply String.eqb_eq in Hc as ->; done|]). done.
  - by rewrite trimmed_not_spaces.
Qed.

(** The transaction on a session that is stored, pending and unexpired. *)
Lemma VerifyAndConsume_run n s row d label cls now db :
  rehydrates s -> code_ok (code_b (ps_code s)) = true ->
  sessions db !! ps_id s = Some row ->
  first_row (pending_match (CodeIndex (ps_code s)) now) (sessions db) = Some (ps_id s, row) ->
  scanSession (Some (ps_id s, row)) = Ok s ->
  (forall k r, devices db !! k = Some r -> dr_session r <> Some (ps_id s)) ->
  ps_state s = PairingPending -> now < ps_expiresAt s -> blank d = false ->
  devices db !! d = None -> class_valid cls = true ->
  rune_count (default_label label cls) <= 100 ->
  VerifyAndConsume server tx_ok no_faults (Ok n) (ps_code s) d label cls now db =
  (Ok (set_ps_state PairingConsumed (set_ps_deviceID (Some d) s)),
   mkPairingDb (<[ps_id s := consumed_row d row]> (sessions db))
     (<[d := provisional_row label cls (ps_id s) now]> (devices db)) (grant_jtis db) (ticket_jtis db)).
Proof.
  intros Hs Hc Hrow Hfirst Hscan Hdev Hpend Hlt Hd Hfresh Hcls Hlab.
  set (s2 := set_ps_state PairingConsumed (set_ps_deviceID (Some d) s)).
  assert (Verify now (ps_code s) d s =
    (Ok tt, set_ps_state PairingVerified (set_ps_deviceID (Some d) s))) as HV.
  { rewrite Verify_pending by done. apply code_ok_Forall in Hc as [Hl _].
    unfold Equal, ConstantTimeCompare. by rewrite Hl, String.eqb_refl. }
  unfold VerifyAndConsume. replace (100 <? _) with false by (symmetry; by apply Z.ltb_ge).
  apply InTx_run. apply stM_bind_ok. exists s, db. split.
  { apply find_pending_ok. by conjuncts; eauto. }
  apply stM_bind_ok. eexists _, db. split; [by apply on_session_ok|].
  apply stM_bind_ok. exists s2, db. split.
  { apply on_session_ok. split; [|done]. unfold Consume, mbind, stM_bind.
    by rewrite checkAdvanceable_ready by (simpl; auto). }
  apply stM_bind_ok. eexists tt, _. split.
  { apply SaveSession_ok. split; [done|]. eexists n, _. do 2 (split; [done|]).
    simpl. eapply upsert_existing; [exact Hrow|done|]. reflexivity. }
  apply stM_bind_ok. eexists tt, _. split; [|apply mret_ok; split; reflexivity].
  unfold InsertProvisional. replace (100 <? _) with false by (symmetry; by apply Z.ltb_ge).
  apply exec_ok. split; [done|]. unfold device_insert.
  change (mkDeviceRow None (default_label label cls) cls EnrolledViaPairingCode now now None
    (Some (ps_id s2)) 0 None) with (provisional_row label cls (ps_id s) now).
  rewrite provisional_row_check by done. cbn -[first_row]. rewrite Hfresh.
  rewrite (proj2 (first_row_None _ _)).
  - rewrite lookup_insert_eq. cbn -[consumed_row]. do 4 f_equal. unfold consumed_row.
    destruct (scanSession_ok _ _ _ Hscan) as (_ & _ & _ & _ & _ & <- & _). done.
  - intros k r Hk. apply bool_decide_eq_false. by eapply Hdev.
Qed.

(** A stored session is the session, and its code enrols its device.
    Saving a new session writes its code only encrypted and under its blind
    index; reading it back by identifier or by index gives exactly the session;
    after any calls on it, saving it again and reading it back gives exactly
    the session they left.  While it is pending and unexpired,
    [VerifyAndConsume] with its code, a fresh device identifier, a known class
    and a label of at most a hundred characters succeeds, and what is stored
    afterwards is the consumed session. *)
Theorem pairing_session_stored n s db :
  rehydrates s -> code_ok (code_b (ps_code s)) = true -> String.length n = NonceSize ->
  unique_index (sessions db) -> sessions db !! ps_id s = None ->
  (forall k r, sessions db !! k = Some r -> sr_index r <> CodeIndex (ps_code s)) ->
  (forall k r, devices db !! k = Some r -> dr_session r <> Some (ps_id s)) ->
  user_exists server (ps_initiatedBy s) = true ->
  exists db1,
    SaveSession server (Ok n) None s db = (Ok tt, db1) /\
    unique_index (sessions db1) /\
    FindSessionByID None (ps_id s) db1 = (Ok s, db1) /\
    FindByCodeIndex None (CodeIndex (ps_code s)) db1 = (Ok s, db1) /\
    (forall calls n', exists db2,
       SaveSession server (Ok n') None (run_session calls s).2 db1 = (Ok tt, db2) /\
       FindSessionByID None (ps_id s) db2 = (Ok (run_session calls s).2, db2)) /\
    (forall deviceID label cls now,
       ps_state s = PairingPending -> now < ps_expiresAt s -> blank deviceID = false ->
       devices db !! deviceID = None -> class_valid cls = true ->
       rune_count (default_label label cls) <= 100 ->
       let s' := set_ps_state PairingConsumed (set_ps_deviceID (Some deviceID) s) in
       exists db2,
         VerifyAndConsume server tx_ok no_faults (Ok n) (ps_code s) deviceID label cls now db1 =
           (Ok s', db2) /\
         FindSessionByID None (ps_id s) db2 = (Ok s', db2)).
Proof.
  intros Hs Hc Hn Hu Hnew Hidx Hdev Husr. pose proof (rehydrates_valid s Hs) as Hv.
  set (ct := n +:+ Seal n (Normalized (ps_code s))).
  set (db1 := set_sessions (<[ps_id s := row_of ct s]> (sessions db)) db).
  assert (forall s' addr, rehydrates s' -> identity s' = identity s ->
    scanSession (Some (ps_id s, mkSessionRow (ps_initiatedBy s) ct (CodeIndex (ps_code s))
      (ps_state s') (ps_createdAt s) (ps_expiresAt s') (ps_deviceID s') addr)) = Ok s') as Hscan.
  { intros s' addr Hs' Hi. unfold identity in Hi. injection Hi as Hi1 Hi2 Hi3 Hi4 Hi5.
    rewrite <- Hi1, <- Hi2, <- Hi3, <- Hi4. apply (scan_row_of n); [done| |by rewrite Hi3|done].
    unfold ct. by rewrite <- Hi3. }
  assert (forall k' r', sessions db1 !! k' = Some r' ->
    String.eqb (sr_index r') (CodeIndex (ps_code s)) = true -> k' = ps_id s) as Honly.
  { intros k' r' Hk' He. destruct (decide (k' = ps_id s)) as [|Hne]; [done|]. cbn in Hk'.
    rewrite lookup_insert_ne in Hk' by done. apply String.eqb_eq in He.
    by apply Hidx in Hk'. }
  assert (forall s' row' db', sessions db' = <[ps_id s := row']> (sessions db1) ->
    scanSession (Some (ps_id s, row')) = Ok s' ->
    FindSessionByID None (ps_id s) db' = (Ok s', db')) as Hfind.
  { intros s' row' db' E Hsc. unfold FindSessionByID, query_session. apply reading_ok.
    by rewrite E, lookup_insert_eq. }
  exists db1. conjuncts.
  - by apply save_new.
  - apply unique_insert; [done|]. intros k r Hk _. simpl. by eapply Hidx.
  - apply (Hfind _ (row_of ct s)); [cbn; by rewrite insert_insert_eq|by apply Hscan].
  - unfold FindByCodeIndex, query_session. apply reading_ok.
    rewrite (first_row_unique _ _ (ps_id s) (row_of ct s)); [|apply lookup_insert_eq|
      apply String.eqb_refl|done]. split; [by apply Hscan|done].
  - intros calls n'. destruct (run_session calls s) as [outs s'] eqn:Hrun. simpl.
    destruct (run_session_inv _ _ _ _ Hs Hrun) as (Hs' & Hi & _). pose proof Hi as Hi'.
    unfold identity in Hi'. injection Hi' as Hi1 Hi2 Hi3 Hi4 Hi5.
    eexists. split.
    + apply SaveSession_ok. split; [done|]. eexists n', _. do 2 (split; [done|]).
      rewrite Hi1. eapply upsert_existing; [apply lookup_insert_eq|by apply rehydrates_valid|].
      reflexivity.
    + eapply Hfind; [reflexivity|]. simpl. by apply (Hscan s' None).
  - intros d label cls now Hpend Hlt Hd Hfresh Hcls Hlab. cbv zeta. eexists. split.
    + apply VerifyAndConsume_run with (row := row_of ct s); try done.
      * apply lookup_insert_eq.
      * apply first_row_unique; [apply lookup_insert_eq|..].
        -- unfold pending_match. simpl. rewrite String.eqb_refl, Hpend. simpl. by apply Z.ltb_lt.
        -- intros k' r' Hk' Hm. unfold pending_match in Hm. apply andb_true_iff in Hm as [Hm _].
           apply andb_true_iff in Hm as [Hm _]. eauto.
      * by apply Hscan.
    + eapply Hfind; [reflexivity|]. simpl.
      apply (Hscan (set_ps_state PairingConsumed (set_ps_deviceID (Some d) s)) None); [|done].
      apply rehydrates_inv. apply rehydrates_inv in Hs as (? & ? & ? & ? & ? & _). simpl.
      conjuncts; try lia; [by intros ? [= <-]|]. right; left; eauto.
Qed.
End stored.

(** ** Device rows over time *)

(** The statements that touch device rows on the paths of the program; the
    whole-row [SaveDevice] is on none of them. *)
Inductive network_op :=
| OpInsert (fault : option pg_error) (id : DeviceID) (label : string) (cls : DeviceClass)
    (via : EnrolledVia) (sid : PairingSessionID) (now : Time)
| OpAssign (fault : option pg_error) (sid : PairingSessionID) (owner : UserID)
| OpRevoke (fault : option pg_error) (id : DeviceID) (now : Time)
| OpRevokeSession (fault : option pg_error) (sid : PairingSessionID) (now : Time)
| OpAdvance (fault fault' : option pg_error) (id : DeviceID) (cursor : Z) (now : Time)
| OpSeen (fault : option pg_error) (id : DeviceID) (now : Time)
| OpDelete (fault : option pg_error) (sid : PairingSessionID)
| OpSweep (fault : nat -> option pg_error) (now : Time).

Definition run_op (server : Server) (op : network_op) (db : pairing_db) : pairing_db :=
  match op with
  | OpInsert f id label cls via sid now => (InsertProvisional server f id label cls via sid now db).2
  | OpAssign f sid owner => (AssignOwnerByPairingSession server f sid owner db).2
  | OpRevoke f id now => (RevokeDevice f id now db).2
  | OpRevokeSession f sid now => (RevokeByPairingSessionID f sid now db).2
  | OpAdvance f f' id cursor now => (AdvanceDeviceCursor f f' id cursor now db).2
  | OpSeen f id now => (UpdateLastSeen f id now db).2
  | OpDelete f sid => (DeleteSession f sid db).2
  | OpSweep f now => (SweepOnce f now db).2
  end.

(** [r'] is [r] some statements later. *)
Record row_le (r r' : device_row) : Prop := {
  le_owner : forall o, dr_owner r = Some o -> dr_owner r' = Some o;
  le_facts : dr_label r' = dr_label r /\ dr_class r' = dr_class r /\ dr_via r' = dr_via r /\
             dr_created_at r' = dr_created_at r;
  le_cursor : dr_cursor r <= dr_cursor r';
  le_revoked : forall t, dr_revoked_at r = Some t ->
    dr_revoked_at r' = Some t /\ dr_owner r' = dr_owner r /\ dr_cursor r' = dr_cursor r /\
    dr_last_seen_at r' = dr_last_seen_at r;
}.

#[export] Instance row_le_preorder : PreOrder row_le.
Proof.
  split.
  - intros r. split; [done|done|lia|done].
  - intros a b c [o1 f1 c1 v1] [o2 f2 c2 v2]. split; [by auto|intuition congruence|lia|].
    intros t Ht. destruct (v1 t Ht) as (Hb & ? & ? & ?). destruct (v2 t Hb) as (? & ? & ? & ?).
    intuition congruence.
Qed.

(** What every statement but the assignment of an owner may do to a row: keep
    it, advance it under the same owner or, when it has none, delete it. *)
Definition row_keep (r r' : device_row) : Prop := row_le r r' /\ dr_owner r' = dr_owner r.

#[export] Instance row_keep_preorder : PreOrder row_keep.
Proof.
  split; [by split|]. intros a b c [Hab Eab] [Hbc Ebc]. split; [by etrans|congruence].
Qed.

Definition row_step (r : device_row) (o : option device_row) : Prop :=
  match o with Some r' => row_keep r r' | None => dr_owner r = None end.

Lemma row_step_refl r : row_step r (Some r).
Proof. simpl. reflexivity. Qed.

Lemma exec_devices {A} fault (f : pairing_db -> res pg_error (A * pairing_db)) db id r :
  (forall a db', f db = Ok (a, db') -> row_step r (devices db' !! id)) ->
  devices db !! id = Some r -> row_step r (devices (exec fault f db).2 !! id).
Proof.
  intros Hf Hr. destruct (exec fault f db) as [res db'] eqn:E. simpl.
  destruct (is_ok res) eqn:Hok.
  - destruct res as [a|e|]; [|done..]. apply exec_ok in E as [_ E]. by eapply Hf.
  - apply exec_fail in E as ->; [|done]. rewrite Hr. apply row_step_refl.
Qed.

(** The login of a pairing session gives its device an owner. *)
Lemma assign_step server fault sid owner db id r :
  let m := exec fault (fun db =>
    let '(n, t) := update_where (fun _ => provisional_of sid) (set_dr_owner owner) (devices db) in
    if (0 <? n) && negb (user_exists server owner) then Err foreign_key_violation
    else Ok (n, set_devices t db)) in
  devices db !! id = Some r ->
  (exists f s o, OpAssign fault sid owner = OpAssign f s o /\ dr_session r = Some s /\
     dr_owner r = None /\ dr_revoked_at r = None /\
     devices (m db).2 !! id = Some (set_dr_owner o r)) \/
  row_step r (devices (m db).2 !! id).
Proof.
  intros m Hr. destruct (m db) as [res db'] eqn:E. simpl. destruct (is_ok res) eqn:Hok.
  2:{ right. apply exec_fail in E as ->; [|done]. rewrite Hr. apply row_step_refl. }
  destruct res as [n|e|]; [|done..]. apply exec_ok in E as [_ E].
  pose proof (update_where_lookup (fun _ => provisional_of sid) (set_dr_owner owner) (devices db) id) as Hl.
  destruct (update_where _ _ _) as [n0 t]. destruct (_ && _); [done|]. injection E as _ <-.
  simpl in *. rewrite Hl, Hr. simpl. destruct (provisional_of sid r) eqn:Hp; [|by right].
  left. unfold provisional_of, active in Hp. bool_to_prop. by eexists _, _, _.
Qed.

(** A statement followed by a decision that writes nothing. *)
Lemma bind_devices {A B} (m : stM pairing_db error A) (k : A -> stM pairing_db error B) db :
  (forall a db, (k a db).2 = db) -> ((m ≫= k) db).2 = (m db).2.
Proof.
  intros Hk. unfold mbind, stM_bind. destruct (m db) as [[a|e|] db']; [apply Hk|done..].
Qed.

Lemma update_devices_step fault p f db id r :
  (p id r = true -> row_keep r (f r)) ->
  devices db !! id = Some r -> row_step r (devices (update_devices fault p f db).2 !! id).
Proof.
  intros Hf Hr. apply exec_devices; [|done]. pose proof (update_where_lookup p f (devices db) id) as Hl.
  destruct (update_where p f (devices db)) as [n0 t]. intros n db' [= _ <-]. cbn [devices set_devices].
  simpl in Hl. rewrite Hl, Hr. simpl. destruct (p id r); [by apply Hf|reflexivity].
Qed.

Lemma active_keep r r' : active r = true -> dr_owner r' = dr_owner r ->
  dr_label r' = dr_label r -> dr_class r' = dr_class r -> dr_via r' = dr_via r ->
  dr_created_at r' = dr_created_at r -> dr_cursor r <= dr_cursor r' -> row_keep r r'.
Proof.
  unfold active. intros Ha Ho. bool_to_prop. split; [|done].
  split; [congruence|done|lia|]. intros t Ht. congruence.
Qed.

Lemma forget_le gone t id r :
  t !! id = Some r -> row_step r (forget_sessions gone t !! id).
Proof.
  intros Hr. unfold forget_sessions. rewrite lookup_fmap, Hr. simpl.
  destruct (dr_session r) as [sid|]; [|reflexivity]. destruct (gone sid); [|reflexivity].
  split; [|done]. split; simpl; try done; lia.
Qed.

(** A computation that only keeps, advances or drops the row at [id]. *)
Definition stable {A} (id : string) (m : stM pairing_db error A) : Prop := forall db,
  match devices db !! id with
  | Some r => row_step r (devices (m db).2 !! id)
  | None => devices (m db).2 !! id = None
  end.

Lemma ret_stable {A} id (a : A) : stable id (mret a).
Proof. intros db. simpl. destruct (devices db !! id); [apply row_step_refl|done]. Qed.

Lemma bind_stable {A B} id (m : stM pairing_db error A) (k : A -> stM pairing_db error B) :
  stable id m -> (forall a, stable id (k a)) -> stable id (m ≫= k).
Proof.
  intros Hm Hk db. specialize (Hm db). unfold mbind, stM_bind.
  destruct (m db) as [[a|e|] db1]; [|done..]. specialize (Hk a db1). simpl in *.
  destruct (devices db !! id) as [r|].
  - destruct (devices db1 !! id) as [r1|]; simpl in Hm.
    + destruct (devices (k a db1).2 !! id) as [r2|]; simpl in *; [by etrans|].
      destruct Hm as [_ <-]. done.
    + by rewrite Hk.
  - by rewrite Hm in Hk.
Qed.

Lemma exec_stable {A} id fault (f : pairing_db -> res pg_error (A * pairing_db)) :
  (forall db a db', f db = Ok (a, db') ->
     match devices db !! id with
     | Some r => row_step r (devices db' !! id)
     | None => devices db' !! id = None
     end) -> stable id (exec fault f).
Proof.
  intros Hf db. destruct (exec fault f db) as [res db'] eqn:E. simpl. destruct (is_ok res) eqn:Hok.
  - destruct res as [a|e|]; [|done..]. apply exec_ok in E as [_ E]. by eapply Hf.
  - apply exec_fail in E as ->; [|done]. destruct (devices db !! id); [apply row_step_refl|done].
Qed.

Lemma same_stable {A} id fault (f : pairing_db -> res pg_error (A * pairing_db)) :
  (forall db a db', f db = Ok (a, db') -> devices db' = devices db) -> stable id (exec fault f).
Proof.
  intros Hf. apply exec_stable. intros db a db' ->%Hf.
  destruct (devices db !! id); [apply row_step_refl|done].
Qed.

Lemma SweepOnce_stable id fault now : stable id (SweepOnce fault now).
Proof.
  unfold SweepOnce. apply bind_stable; [|intros ?; apply bind_stable;
    [|intros ?; apply bind_stable; [|intros ?; apply bind_stable;
      [|intros ?; apply bind_stable; [|intros ?; apply ret_stable]]]]].
  - apply same_stable. intros db x db'. destruct (update_where _ _ _). by intros [= _ <-].
  - apply exec_stable. intros db x db'. destruct (delete_where _ _) as [n t]. intros [= _ <-].
    simpl. destruct (devices db !! id) as [r|] eqn:Hr; [by apply forget_le|].
    unfold forget_sessions. by rewrite lookup_fmap, Hr.
  - apply exec_stable. intros db x db'.
    pose proof (delete_where_lookup (abandoned_device (Add now (-1 * Hour))) (devices db) id) as Hl.
    destruct (delete_where _ _) as [n t]. intros [= _ <-]. simpl in *.
    destruct (t !! id) as [r'|] eqn:E.
    + destruct (proj1 (Hl r') eq_refl) as [-> _]. apply row_step_refl.
    + destruct (devices db !! id) as [r|]; [|done]. simpl.
      destruct (abandoned_device (Add now (-1 * Hour)) r) eqn:Ha.
      * unfold abandoned_device in Ha. by bool_to_prop.
      * by pose proof (proj2 (Hl r) (conj eq_refl Ha)).
  - apply same_stable. intros db x db'. destruct (delete_where _ _). by intros [= _ <-].
  - apply same_stable. intros db x db'. destruct (delete_where _ _). by intros [= _ <-].
Qed.

Ltac keep := intros; bool_to_prop; apply active_keep; simpl; done || lia.

(** Each statement on one row. *)
Lemma run_op_step server op db id r :
  devices db !! id = Some r ->
  (exists fault sid owner, op = OpAssign fault sid owner /\ dr_session r = Some sid /\
     dr_owner r = None /\ dr_revoked_at r = None /\
     devices (run_op server op db) !! id = Some (set_dr_owner owner r)) \/
  row_step r (devices (run_op server op db) !! id).
Proof.
  intros Hr. destruct op as [f i label cls via sid now|f sid owner|f i now|f sid now
    |f f' i cursor now|f i now|f sid|f now]; simpl.
  2:{ unfold AssignOwnerByPairingSession. rewrite bind_devices by (intros n ?; by destruct (n =? 0)).
      by apply assign_step. }
  all: right.
  - unfold InsertProvisional. destruct (100 <? _); [simpl; rewrite Hr; apply row_step_refl|].
    apply exec_devices; [|done]. intros [] db' (_ & Hn & ->)%device_insert_ok. simpl.
    rewrite lookup_insert_ne by congruence. rewrite Hr. apply row_step_refl.
  - unfold RevokeDevice. rewrite bind_devices by (intros n ?; by destruct (n =? 0)).
    apply update_devices_step; [keep|done].
  - unfold RevokeByPairingSessionID. rewrite bind_devices by (intros n ?; by destruct (n =? 0)).
    apply update_devices_step; [keep|done].
  - unfold AdvanceDeviceCursor. rewrite bind_devices; [apply update_devices_step; [keep|done]|].
    intros n db1. destruct (n =? 0); [|done]. unfold not_advanced.
    destruct (FindDeviceByID f' i db1) as [[d|e|] ?]; [|done..]. by destruct (pd_revokedAt d).
  - unfold UpdateLastSeen. rewrite bind_devices by (intros n ?; by destruct (n =? 0)).
    apply update_devices_step; [keep|done].
  - unfold DeleteSession. rewrite bind_devices by (intros n ?; by destruct (n =? 0)).
    apply exec_devices; [|done]. intros n db'. destruct (sessions db !! sid); intros [= _ <-].
    + by apply forget_le.
    + rewrite Hr. apply row_step_refl.
  - pose proof (SweepOnce_stable id f now db) as Hs. by rewrite Hr in Hs.
Qed.

Lemma run_op_le server op db id r :
  devices db !! id = Some r ->
  match devices (run_op server op db) !! id with
  | Some r' => row_le r r'
  | None => dr_owner r = None
  end.
Proof.
  intros Hr. destruct (run_op_step server op db id r Hr)
    as [(f & sid & o & _ & _ & Hn & Hrev & ->)|Hs].
  - split; simpl; try done; try lia; intros; congruence.
  - unfold row_step, row_keep in Hs. by destruct (devices (run_op server op db) !! id); [apply Hs|].
Qed.

(** A device row only moves forward.  Whatever the program's statements do
    and whichever of them fail: a device that has an owner stays, with the same
    owner and description, its sync cursor never goes back, and once revoked it
    is frozen, cursor and last-seen time included; only a device without an
    owner is ever deleted; and an ownerless device gets its owner only from the
    login of its own pairing session, while it is not revoked. *)
Theorem device_rows_forward server ops db id r :
  devices db !! id = Some r ->
  (is_Some (dr_owner r) -> exists r',
     devices (fold_left (fun db op => run_op server op db) ops db) !! id = Some r' /\ row_le r r') /\
  (forall op, devices (run_op server op db) !! id = None -> dr_owner r = None) /\
  (forall op r', devices (run_op server op db) !! id = Some r' ->
     row_le r r' /\
     (dr_owner r' <> dr_owner r -> exists fault sid owner,
        op = OpAssign fault sid owner /\ dr_session r = Some sid /\ dr_owner r = None /\
        dr_revoked_at r = None /\ dr_owner r' = Some owner)).
Proof.
  intros Hr. conjuncts.
  - revert db r Hr. induction ops as [|op ops IH]; intros db r Hr Ho; [by exists r|].
    pose proof (run_op_le server op db id r Hr) as Hs. simpl.
    destruct (devices (run_op server op db) !! id) as [r1|] eqn:E1.
    + destruct Ho as [o Ho]. destruct (IH _ _ E1) as (r' & Hr' & Hle).
      { exists o. by apply (le_owner _ _ Hs). }
      exists r'. split; [done|by etrans].
    + rewrite Hs in Ho. by destruct Ho.
  - intros op E. pose proof (run_op_le server op db id r Hr) as Hs. by rewrite E in Hs.
  - intros op r' Hr'. pose proof (run_op_le server op db id r Hr) as Hle. rewrite Hr' in Hle.
    split; [done|]. intros Hne. destruct (run_op_step server op db id r Hr)
      as [(f & sid & o & -> & Hsid & Hn & Hrev & E)|Hs].
    + rewrite E in Hr'. injection Hr' as <-. by exists f, sid, o.
    + rewrite Hr' in Hs. simpl in Hs. by destruct Hs.
Qed.

(** ** Concrete runs *)

(** A transparent cipher, for evaluation only. *)
Definition plain_crypto : Crypto :=
  {| Seal _ p := p; Open _ d := Some d; NonceSize := 2; hmac m := m;
     Open_Seal _ _ := eq_refl |}.

Definition demo_server : Server := mkServer (String.eqb "admin") (fun s => Some s).
Definition empty_db : pairing_db := mkPairingDb ∅ ∅ ∅ ∅.
Definition demo_row : session_row :=
  mkSessionRow "admin" "nnABCD2345" "ABCD2345" PairingPending 0 (2 * Minute) None None.
Definition demo_db : pairing_db := mkPairingDb {["s1" := demo_row]} ∅ ∅ ∅.

Lemma demo_unique : unique_index (sessions demo_db).
Proof.
  intros i j ri rj Hi Hj _. cbn in Hi, Hj. unfold demo_db in *.
  apply lookup_singleton_Some in Hi as [<- _]. by apply lookup_singleton_Some in Hj as [<- _].
Qed.

Lemma VerifyAndConsume_single_use_witness :
  let run label := @VerifyAndConsume _ plain_crypto demo_server tx_ok no_faults (Ok "mm") demo_code
    "d1" label DeviceClassPhone 5 in
  is_ok (run "Phone" demo_db).1 = true /\
  is_ok (run "Phone" (run "Phone" demo_db).2).1 = false.
Proof.
  intros run. split; [vm_compute; reflexivity|].
  pose proof (@VerifyAndConsume_single_use _ plain_crypto demo_server tx_ok no_faults (Ok "mm")
    demo_code "d1" "Phone" DeviceClassPhone 5 demo_db _ _ demo_unique (surjective_pairing _)) as Hs.
  fold (run "Phone" demo_db) in Hs.
  assert (is_ok (run "Phone" demo_db).1 = true) as Hok by (vm_compute; reflexivity).
  destruct (run "Phone" demo_db) as [r db']. cbn [fst snd] in *.
  destruct r as [s|e|]; [|done..].
  destruct Hs as (_ & _ & _ & Hlater).
  specialize (Hlater tx_ok no_faults (Ok "mm") "d1" "Phone" DeviceClassPhone 5).
  simpl. unfold run. destruct (VerifyAndConsume _ _ _ _ _ _ _ _ _ db'). by destruct Hlater.
Defined.

Lemma pairing_session_stored_witness :
  exists db1, @SaveSession plain_crypto demo_server (Ok "nn") None demo_session empty_db = (Ok tt, db1) /\
    @FindSessionByID _ plain_crypto None "s1" db1 = (Ok demo_session, db1).
Proof.
  destruct (@pairing_session_stored _ plain_crypto demo_server "nn" demo_session empty_db)
    as (db1 & Hsave & _ & Hfind & _); try reflexivity.
  - by intros i j ri rj Hi.
  - by intros k r Hk.
  - by intros k r Hk.
  - by exists db1.
Defined.

Definition demo_device_row : device_row :=
  mkDeviceRow (Some "admin") "Phone" DeviceClassPhone EnrolledViaPairingCode 0 0 None (Some "s1") 3 None.
Definition demo_devices : pairing_db := mkPairingDb ∅ {["d1" := demo_device_row]} ∅ ∅.

Lemma device_rows_forward_witness :
  let ops := [OpAdvance None None "d1" 7 10; OpRevoke None "d1" 20; OpAdvance None None "d1" 9 30;
              OpSweep (fun _ => None) (1000 * Hour)] in
  exists r', devices (fold_left (fun db op => run_op demo_server op db) ops demo_devices) !! "d1"
    = Some r' /\ row_le demo_device_row r'.
Proof.
  intros ops.
  apply (proj1 (device_rows_forward demo_server ops demo_devices "d1" demo_device_row eq_refl)).
  by eexists.
Defined.
