(* ===== verification/Cfi.v ===== *)
(** * Positions and identifiers at the reading API's boundary
      (src/internal/reader/api/validate.go)

    The checks a reported position, device identifier, epoch and percentage
    pass before they reach the domain, and the order of positions. *)

From S2P Require Import Prelude GoStrings Regex Errors Floats.

Local Open Scope string_scope.
Local Open Scope list_scope.
Local Open Scope Z_scope.

Definition maxCFILength : Z := 1024.

(** [^[A-Za-z0-9/:.!~@,\[\]()^;=+*_\- ]*$] *)
Definition cfiBody : re :=
  RStar (RClass [upper_letters; lower_letters; digits;
    (47, 47); (58, 58); (46, 46); (33, 33); (126, 126); (64, 64); (44, 44);
    (91, 91); (93, 93); (40, 40); (41, 41); (94, 94); (59, 59); (61, 61); (43, 43);
    (42, 42); (95, 95); (45, 45); (32, 32)]).

(** The loop of [balanced] over the runes not yet read. *)
Fixpoint balanced_loop (rs : list Z) (round square : Z) : bool :=
  match rs with
  | [] => (round =? 0) && (square =? 0)
  | r :: rs' =>
      let round' := if r =? 40 then round + 1 else if r =? 41 then round - 1 else round in
      let square' := if r =? 91 then square + 1 else if r =? 93 then square - 1 else square in
      if (round' <? 0) || (square' <? 0) then false else balanced_loop rs' round' square'
  end.
Definition balanced (s : string) : bool := balanced_loop (runes s) 0 0.

(** [strings.HasSuffix]. *)
Definition HasSuffix (s p : string) : bool :=
  (String.length p <=? String.length s)%nat
  && String.eqb (String.substring (String.length s - String.length p) (String.length p) s) p.

Definition ValidateCFI (cfi : string) : Result unit :=
  if len cfi =? 0 then fails InvalidInput "position is empty"
  else if maxCFILength <? len cfi then
    fails InvalidInput "position is too long to be a valid CFI"
  else if negb (HasPrefix cfi "epubcfi(") || negb (HasSuffix cfi ")") then
    fails InvalidInput "position is not an epubcfi(...) value"
  else
    let inner := String.substring 8 (String.length cfi - 1 - 8) cfi in
    if negb (MatchString cfiBody inner) then
      fails InvalidInput "position contains characters the CFI grammar cannot produce"
    else if negb (balanced cfi) then
      fails InvalidInput "position has unbalanced brackets or parentheses"
    else Ok tt.

(** ** The order of positions *)

(** [cfiNum.FindAllString(s, -1)] for [\d+]: the maximal runs of digits.
    [run] is the run being read. *)
Fixpoint find_numbers (bs : list Z) (run : list Z) : list (list Z) :=
  match bs with
  | [] => match run with [] => [] | _ => [run] end
  | b :: bs' =>
      if between 48 b 57 then find_numbers bs' (run ++ [b])
      else match run with
        | [] => find_numbers bs' []
        | _ => run :: find_numbers bs' []
        end
  end.
Definition cfiNum_FindAllString (s : string) : list (list Z) := find_numbers (bytes s) [].

(** [n = n*10 + int64(r-'0')], wrapping. *)
Definition atoiPad (s : list Z) : Z :=
  fold_left (fun n r => wrap64 (n * 10 + (r - 48))) s 0.

(** The loop over both lists, then the comparison of their lengths. *)
Fixpoint compare_numbers (xs ys : list (list Z)) : Z :=
  match xs, ys with
  | x :: xs', y :: ys' =>
      if atoiPad x =? atoiPad y then compare_numbers xs' ys'
      else if atoiPad x <? atoiPad y then -1 else 1
  | [], _ :: _ => -1
  | _ :: _, [] => 1
  | [], [] => 0
  end.

Definition compareCFI (a b : string) : Z :=
  compare_numbers (cfiNum_FindAllString a) (cfiNum_FindAllString b).
Definition CFISortsBefore (a b : string) : bool := compareCFI a b <? 0.

(** ** Identifiers, epochs and percentages *)

Definition hex : re := RClass [digits; (97, 102); (65, 70)].

(** [^[0-9a-fA-F]{8}-[0-9a-fA-F]{4}-4[0-9a-fA-F]{3}-[89abAB][0-9a-fA-F]{3}-[0-9a-fA-F]{12}$] *)
Definition uuidV4 : re :=
  RCat (RTimes 8 hex) (RCat (RChar 45) (RCat (RTimes 4 hex) (RCat (RChar 45)
    (RCat (RChar 52) (RCat (RTimes 3 hex) (RCat (RChar 45)
      (RCat (RClass [(56, 56); (57, 57); (97, 97); (98, 98); (65, 65); (66, 66)])
        (RCat (RTimes 3 hex) (RCat (RChar 45) (RTimes 12 hex)))))))))).

Definition ValidateDeviceID (v : string) : Result unit :=
  if negb (MatchString uuidV4 (TrimSpace v)) then
    fails InvalidInput "X-Device-Id must be a version 4 UUID"
  else Ok tt.

Definition maxObservedEpoch : Z := Z.shiftl 1 40.

Definition ValidateObservedEpoch (epoch : Z) : Result unit :=
  if (epoch <? 0) || (maxObservedEpoch <? epoch) then
    fails InvalidInput "observedEpoch is out of range"
  else Ok tt.

Definition ValidatePercentage (p : float64) : Result unit :=
  if flt p f64_zero || fgt p f64_one then
    fails InvalidInput "percentage must be within [0.0, 1.0]"
  else Ok tt.

Example ValidateCFI_ok : ValidateCFI "epubcfi(/6/4[chap01]!/4/2:10)" = Ok tt.
Proof. vm_compute. reflexivity. Qed.
Example ValidateCFI_unbalanced : is_ok (ValidateCFI "epubcfi(/6/4])") = false.
Proof. vm_compute. reflexivity. Qed.
Example ValidateDeviceID_ok : ValidateDeviceID "3f2504e0-4f89-41d3-9a0c-0305e82c3301" = Ok tt.
Proof. vm_compute. reflexivity. Qed.
Example CFISortsBefore_numeric :
  CFISortsBefore "epubcfi(/6/4!/2:9)" "epubcfi(/6/4!/2:10)" = true.
Proof. vm_compute. reflexivity. Qed.
Example CFISortsBefore_wraps :
  CFISortsBefore "epubcfi(/9223372036854775808)" "epubcfi(/1)" = true.
Proof. vm_compute. reflexivity. Qed.
