(* ===== verification/Sync.v ===== *)
(** * Device synchronisation
      (src/internal/persistence/postgres/reading_sync_repository.go,
       src/internal/transport/http/device_sync.go)

    The delta a device pulls, with its gate, its row limit and its cursor; the
    two handlers over it; and the transactions that write the rows, as a step
    relation. *)

From S2P Require Import Prelude GoStrings Floats Errors Catalog Transactor Progress Postgres Pairing PairingStore Cfi.

Local Open Scope string_scope.
Local Open Scope list_scope.
Local Open Scope Z_scope.

(** ** The tables (reading_progress, bookmarks, highlights)

    What the delta queries read of a row: its owner, the transaction that
    wrote it ([xmin]), the sequence number the trigger gave the write, and the
    other columns. *)
Record sync_row (A : Type) := mkSyncRow {
  sy_user : option string;
  sy_library : option string;
  sy_xmin : Z;
  sy_sequence : Z;
  sy_cols : A;
}.
Arguments mkSyncRow {A} _ _ _ _ _.
Arguments sy_user {A} _.
Arguments sy_library {A} _.
Arguments sy_xmin {A} _.
Arguments sy_sequence {A} _.
Arguments sy_cols {A} _.

Record progress_cols := mkProgressCols {
  pc_id : string;
  pc_work_id : string;
  pc_percentage : float64;
  pc_epoch : Z;
  pc_position_edition_id : option string;
  pc_position_value : option string;
  pc_device_id : string;
  pc_observed_at : Time;
}.

Record bookmark_cols := mkBookmarkCols {
  bc_id : string;
  bc_edition_id : string;
  bc_position : string;
  bc_label : string;
  bc_created_at : Time;
}.

Record highlight_cols := mkHighlightCols {
  hc_id : string;
  hc_edition_id : string;
  hc_start_position : string;
  hc_end_position : string;
  hc_note : string;
  hc_category : string;
  hc_created_at : Time;
}.

(** What a transaction sees: the committed rows, and
    [pg_snapshot_xmin(pg_current_snapshot())], the lowest transaction still in
    flight. *)
Record snapshot := mkSnapshot {
  sn_progress : list (sync_row progress_cols);
  sn_bookmarks : list (sync_row bookmark_cols);
  sn_highlights : list (sync_row highlight_cols);
  sn_xmin : Z;
}.

(** ** The delta (reading_sync_repository.go) *)

Record SyncProgressItem := mkSyncProgressItem {
  spi_WorkID : WorkID;
  spi_Percentage : float64;
  spi_Epoch : Z;
  spi_PrecisePosition : option PrecisePosition;
  spi_DeviceID : DeviceID;
  spi_ObservedAt : Time;
  spi_SyncSequence : Z;
}.

Record SyncBookmarkItem := mkSyncBookmarkItem {
  sbi_ID : string;
  sbi_EditionID : string;
  sbi_Position : string;
  sbi_Label : string;
  sbi_CreatedAt : Time;
  sbi_SyncSequence : Z;
}.

Record SyncHighlightItem := mkSyncHighlightItem {
  shi_ID : string;
  shi_EditionID : string;
  shi_StartPosition : string;
  shi_EndPosition : string;
  shi_Note : string;
  shi_Category : string;
  shi_CreatedAt : Time;
  shi_SyncSequence : Z;
}.

Record ReadingSyncData := mkReadingSyncData {
  rsd_Cursor : Z;
  rsd_Progress : list SyncProgressItem;
  rsd_Bookmarks : list SyncBookmarkItem;
  rsd_Highlights : list SyncHighlightItem;
}.

Definition syncDeltaLimit : nat := Z.to_nat 500.

(** [WHERE user_id = $1 AND library_id = $2 AND sync_sequence > $3 AND xmin <
    pg_snapshot_xmin(..)]. *)
Definition in_delta {A} (userID libraryID : string) (since xmin : Z) (r : sync_row A) : bool :=
  bool_decide (sy_user r = Some userID) && bool_decide (sy_library r = Some libraryID)
  && (since <? sy_sequence r) && (sy_xmin r <? xmin).

(** [ORDER BY sync_sequence ASC]. *)
Fixpoint insert_seq {A} (r : sync_row A) (l : list (sync_row A)) : list (sync_row A) :=
  match l with
  | [] => [r]
  | x :: l' => if sy_sequence r <=? sy_sequence x then r :: l else x :: insert_seq r l'
  end.
Definition order_by_seq {A} (l : list (sync_row A)) : list (sync_row A) :=
  fold_right insert_seq [] l.

Definition delta_query {A} (userID libraryID : string) (since xmin : Z) (t : list (sync_row A))
    : list (sync_row A) :=
  take syncDeltaLimit (order_by_seq (List.filter (in_delta userID libraryID since xmin) t)).

(** A scanned row. *)
Definition progress_item (r : sync_row progress_cols) : SyncProgressItem :=
  let c := sy_cols r in
  let pos := match pc_position_edition_id c, pc_position_value c with
             | Some e, Some v => Some (mkPrecisePosition e v)
             | _, _ => None
             end in
  mkSyncProgressItem (pc_work_id c) (pc_percentage c) (pc_epoch c) pos (pc_device_id c)
    (pc_observed_at c) (sy_sequence r).

Definition bookmark_item (r : sync_row bookmark_cols) : SyncBookmarkItem :=
  let c := sy_cols r in
  mkSyncBookmarkItem (bc_id c) (bc_edition_id c) (bc_position c) (bc_label c) (bc_created_at c)
    (sy_sequence r).

Definition highlight_item (r : sync_row highlight_cols) : SyncHighlightItem :=
  let c := sy_cols r in
  mkSyncHighlightItem (hc_id c) (hc_edition_id c) (hc_start_position c) (hc_end_position c)
    (hc_note c) (hc_category c) (hc_created_at c) (sy_sequence r).

(** [if syncSeq > maxSeq { maxSeq = syncSeq }] over the rows. *)
Definition max_sequence (maxSeq : Z) (seqs : list Z) : Z :=
  fold_left (fun m s => if m <? s then s else m) seqs maxSeq.

(** [if n := len(l); n == syncDeltaLimit { cursor = min(cursor, l[n-1]) }]. *)
Definition cap_cursor (seqs : list Z) (cursor : Z) : Z :=
  if Nat.eqb (length seqs) syncDeltaLimit then Z.min cursor (List.last seqs 0) else cursor.

(** The three queries of a delta; [fault i] is the driver's error of the
    [i]th. *)
Definition read_deltas (fault : nat -> option pg_error) (userID : UserID) (libraryID : LibraryID)
    (since : Z) (sn : snapshot) : Result ReadingSyncData :=
  let query {A} i (t : list (sync_row A)) : Result (list (sync_row A)) :=
    match fault i with
    | Some e => Err (TranslateError e)
    | None => Ok (delta_query userID libraryID since (sn_xmin sn) t)
    end in
  progressRows ← query 1%nat (sn_progress sn);
  bookmarkRows ← query 2%nat (sn_bookmarks sn);
  highlightRows ← query 3%nat (sn_highlights sn);
  let ps := sy_sequence <$> progressRows in
  let bs := sy_sequence <$> bookmarkRows in
  let hs := sy_sequence <$> highlightRows in
  let maxSeq := max_sequence (max_sequence (max_sequence since ps) bs) hs in
  let cursor := cap_cursor hs (cap_cursor bs (cap_cursor ps maxSeq)) in
  mret (mkReadingSyncData cursor (progress_item <$> progressRows)
          (bookmark_item <$> bookmarkRows) (highlight_item <$> highlightRows)).

(** In the caller's transaction if there is one, and in a read-only one
    otherwise, whose begin and commit can fail. *)
Definition GetReadingSyncData (inTx : bool) (begin_fault commit_fault : option pg_error)
    (fault : nat -> option pg_error) (userID : UserID) (libraryID : LibraryID) (since : Z)
    (sn : snapshot) : Result ReadingSyncData :=
  if inTx then read_deltas fault userID libraryID since sn
  else match begin_fault with
  | Some e => Err (TranslateError e)
  | None =>
      data ← read_deltas fault userID libraryID since sn;
      match commit_fault with
      | Some e => Err (TranslateError e)
      | None => mret data
      end
  end.

(** ** The ceiling

    The relations of the database that have a [sync_sequence] column, by name,
    with that column. *)
Abbreviation relations := (gmap string (list Z)) (only parsing).

Definition undefined_table : pg_error := PgError "42P01".

(** [COALESCE((SELECT MAX(sync_sequence) FROM name), 0)]. *)
Definition max_of (rels : relations) (name : string) : res pg_error Z :=
  match rels !! name with
  | None => Err undefined_table
  | Some [] => Ok 0
  | Some (x :: l) => Ok (fold_left Z.max l x)
  end.

Definition GetSyncSequenceCeiling (fault : option pg_error) (rels : relations) : Result Z :=
  match fault with
  | Some e => Err (TranslateError e)
  | None =>
      match (p ← max_of rels "reading_progress";
             b ← max_of rels "reading_bookmarks";
             h ← max_of rels "reading_highlights";
             mret (Z.max (Z.max p b) h)) with
      | Ok v => Ok v
      | Err e => Err (TranslateError e)
      | OutOfFuel => OutOfFuel
      end
  end.

(** The relations the migrations create. *)
Definition migrated_relations (sn : snapshot) : relations :=
  {[ "reading_progress" := sy_sequence <$> sn_progress sn;
     "bookmarks" := sy_sequence <$> sn_bookmarks sn;
     "highlights" := sy_sequence <$> sn_highlights sn ]}.

Definition GetProgressSyncSequence (fault : option pg_error) (progressID : ReadingProgressID)
    (sn : snapshot) : Result Z :=
  match fault with
  | Some e => Err (TranslateError e)
  | None =>
      match List.find (fun r => String.eqb (pc_id (sy_cols r)) progressID) (sn_progress sn) with
      | Some r => Ok (sy_sequence r)
      | None => fails NotFound "reading progress not found"
      end
  end.

(** ** GET /sync/reading (device_sync.go, [SyncReadingHandler]) *)

(** [SyncStore], at the moment of the request. *)
Record SyncStore := mkSyncStore {
  ss_ceiling : Result Z;
  ss_data : UserID -> LibraryID -> Z -> Result ReadingSyncData;
}.

Definition postgres_sync_store (fault : nat -> option pg_error)
    (begin_fault commit_fault : option pg_error) (rels : relations) (sn : snapshot) : SyncStore :=
  mkSyncStore (GetSyncSequenceCeiling (fault 0%nat) rels)
    (fun u l since => GetReadingSyncData false begin_fault commit_fault fault u l since sn).

(** [strconv.ParseInt(s, 10, 64)]. *)
Definition ParseInt (s : string) : option Z :=
  let '(neg, ds) := match bytes s with
                    | 43 :: t => (false, t)
                    | 45 :: t => (true, t)
                    | t => (false, t)
                    end in
  match ds with
  | [] => None
  | _ =>
      if forallb (fun b => between 48 b 57) ds then
        let v := fold_left (fun n b => n * 10 + (b - 48)) ds 0 in
        let z := if neg then - v else v in
        if (int64_min <=? z) && (z <=? int64_max) then Some z else None
      else None
  end.

Definition parse_since (sinceStr : string) : option Z :=
  if String.eqb sinceStr "" then Some 0
  else match ParseInt sinceStr with
       | Some z => if z <? 0 then None else Some z
       | None => None
       end.

(** The response is the delta, or the category and message of an error; the
    state is the device table, whose cursor a delta with rows advances. *)
Definition SyncReadingHandler (store : SyncStore) (fault fault' : option pg_error)
    (user : option UserID) (activeLib : LibraryID) (device : option PairedDevice)
    (sinceStr : string) (now : Time) : stM pairing_db error ReadingSyncData := fun db =>
  match user, device with
  | None, _ => (fails Unauthorized "unauthorized", db)
  | _, None => (fails Unauthorized "unauthorized device", db)
  | Some userID, Some dev =>
      match parse_since sinceStr with
      | None => (fails InvalidInput "invalid since parameter", db)
      | Some since =>
          let since := if since <? pd_syncCursor dev then pd_syncCursor dev else since in
          match ss_ceiling store with
          | Ok ceiling =>
              let since := if ceiling <? since then ceiling else since in
              match ss_data store userID activeLib since with
              | Ok data =>
                  let hasUpdates :=
                    negb (Nat.eqb (length (rsd_Progress data)) 0)
                    || negb (Nat.eqb (length (rsd_Bookmarks data)) 0)
                    || negb (Nat.eqb (length (rsd_Highlights data)) 0) in
                  if hasUpdates && (pd_syncCursor dev <? rsd_Cursor data) then
                    (Ok data, (AdvanceDeviceCursor fault fault' (pd_id dev) (rsd_Cursor data) now db).2)
                  else (Ok data, db)
              | _ => (fails Internal "failed to fetch sync data", db)
              end
          | _ => (fails Internal "failed to check sync ceiling", db)
          end
      end
  end.

(** ** The middleware of the sync routes ([SyncMiddleware])

    What it decides before the handler runs: refuse, or let the request
    through with the device it validated. *)
Inductive admission :=
| Refused (e : error)
| Passed (device : option PairedDevice).

(** The zero [time.Time]: 1 January of year 1. *)
Definition IsZero (t : Time) : bool := t =? -62135596800 * Second.

Definition SyncMiddleware (find : DeviceID -> Result PairedDevice) (fault : option pg_error)
    (user : option UserID) (header : string) (isSyncRoute : bool) (now : Time) (db : pairing_db)
    : admission * pairing_db :=
  match user with
  | None => (Refused (mkErr Unauthorized "unauthorized"), db)
  | Some userID =>
      let devID := TrimSpace header in
      if String.eqb devID "" then
        if isSyncRoute then (Refused (mkErr InvalidInput "missing device identifier"), db)
        else (Passed None, db)
      else match find devID with
      | Err err =>
          if bool_decide (CategoryOf err = NotFound) then
            if isSyncRoute then (Refused (mkErr Unauthorized "unauthorized device"), db)
            else (Passed None, db)
          else (Refused (mkErr Internal "failed to lookup device"), db)
      | OutOfFuel => (Refused (mkErr Internal "failed to lookup device"), db)
      | Ok dev =>
          if negb (String.eqb (pd_owner dev) userID) then
            (Refused (mkErr Unauthorized "unauthorized device"), db)
          else match pd_revokedAt dev with
          | Some _ => (Refused (mkErr Unauthorized "device revoked"), db)
          | None =>
              let shouldUpdateDB :=
                IsZero (pd_lastSeenAt dev) || (60 * Second <=? Sub now (pd_lastSeenAt dev)) in
              let dev' := (Touch now dev).2 in
              (Passed (Some dev'),
               if shouldUpdateDB then (UpdateLastSeen fault (pd_id dev) now db).2 else db)
          end
      end
  end.

(** ** Revoking a device ([RevokeDeviceHandler])

    Someone else's device is answered as one that does not exist. *)
Definition RevokeDeviceHandler (find_fault fault : option pg_error) (user : option UserID)
    (id : DeviceID) (now : Time) : stM pairing_db error unit := fun db =>
  match user with
  | None => (fails Unauthorized "unauthorized", db)
  | Some userID =>
      if String.eqb id "" then (fails InvalidInput "missing device id", db)
      else match (FindDeviceByID find_fault id db).1 with
      | Ok dev =>
          if negb (String.eqb (pd_owner dev) userID) then
            (fails NotFound "paired device not found", db)
          else match pd_revokedAt dev with
          | Some _ => (fails Conflict "paired device is already revoked", db)
          | None => RevokeDevice fault id now db
          end
      | _ => (fails NotFound "paired device not found", db)
      end
  end.

(** ** POST /sync/progress ([SyncProgressHandler]) *)

Record SyncPrecisePosition := mkSyncPrecisePosition {
  spp_EditionID : string;
  spp_Value : string;
  spp_CFI : string;
}.

Record SyncProgressInput := mkSyncProgressInput {
  in_WorkID : string;
  in_Percentage : float64;
  in_ObservedEpoch : Z;
  in_Override : bool;
  in_PrecisePosition : option SyncPrecisePosition;
  in_DeviceID : string;
  in_ReportedAt : option Time;
}.

(** The tables the transaction works on: the caller's rows of reading_progress
    (the store is scoped to a user and a library), their sequence numbers, and
    the device's cursor.  A call may fail because it finds no row, or because
    the database refused one of its statements, which aborts the transaction:
    [SequenceAborts] and [AdvanceAborts] say when. *)
Class SyncTables (S : Type) `{ProgressStore S} := {
  ProgressSequence : ReadingProgressID -> S -> Result Z;
  AdvanceCursorInTx : DeviceID -> Z -> Time -> S -> Result unit * S;
  SequenceAborts : ReadingProgressID -> S -> bool;
  AdvanceAborts : DeviceID -> Z -> Time -> S -> bool;
}.

Class SyncTablesLaws (S : Type) `{SyncTables S} := {
  advance_keeps_progress id n t s :
    progress_rows (AdvanceCursorInTx id n t s).2 = progress_rows s;
}.

Definition position_of (p : option SyncPrecisePosition) : Result (option PrecisePosition) :=
  match p with
  | None => Ok None
  | Some p =>
      let cfi := if String.eqb (spp_Value p) "" then spp_CFI p else spp_Value p in
      _ ← ValidateCFI cfi;
      mret (Some (mkPrecisePosition (spp_EditionID p) cfi))
  end.

(** The client's time, unless it is more than a minute ahead or more than
    thirty days behind. *)
Definition report_time (reportedAt : option Time) (now : Time) : Time :=
  match reportedAt with
  | None => now
  | Some t =>
      if After t (Add now Minute) || Before t (Add now (-30 * 24 * Hour)) then now else t
  end.

Section SyncProgress.
Context {S : Type} `{SyncTables S}.

(** What the commit of an aborted transaction answers. *)
Definition commit_refused : error :=
  TranslateError (ConnError (New "commit unexpectedly resulted in rollback")).

(** After the write: the cursor moves over it only when nothing lies between.
    The errors of both calls are logged and dropped; one that aborted the
    transaction comes back when it is committed. *)
Definition advance_over_echo (dev : PairedDevice) (id : ReadingProgressID) (now : Time)
    : stM S error Z := fun s =>
  match ProgressSequence id s with
  | Ok seq =>
      if seq =? pd_syncCursor dev + 1 then
        if AdvanceAborts (pd_id dev) seq now s then (Err commit_refused, s)
        else match AdvanceCursorInTx (pd_id dev) seq now s with
        | (Ok _, s') => (Ok seq, s')
        | (_, s') => (Ok (pd_syncCursor dev), s')
        end
      else (Ok (pd_syncCursor dev), s)
  | _ => if SequenceAborts id s then (Err commit_refused, s) else (Ok (pd_syncCursor dev), s)
  end.

(** [if report.ObservedEpoch > current.Epoch() { .. }] *)
Definition clamp_epoch (report : ProgressReport) (current : ReadingProgress) : ProgressReport :=
  if rp_epoch current <? pr_ObservedEpoch report then
    mkProgressReport (pr_WorkID report) (pr_Percentage report) (rp_epoch current)
      (pr_PrecisePosition report) (pr_DeviceID report) (pr_ReportedAt report)
  else report.

Definition sync_progress_body (newID : ReadingProgressID) (dev : PairedDevice)
    (report : ProgressReport) (override : bool) (now : Time)
    : stM S error (ReadingProgress * ReconcileOutcome * Z) :=
  '(res, outcome) ← (fun s =>
    match FindByWorkForUpdate (pr_WorkID report) s with
    | Err err =>
        if bool_decide (CategoryOf err = NotFound) then
          let first := FirstProgress newID report in
          (_ ← writing (SaveProgress first);
           mret (first, ReconcileAdvanced)) s
        else (Err err, s)
    | OutOfFuel => (OutOfFuel, s)
    | Ok current =>
        if override then
          let next := OverrideProgress current (pr_Percentage report)
                        (pr_PrecisePosition report) (pr_DeviceID report)
                        (pr_ReportedAt report) in
          (_ ← writing (SaveProgress next);
           mret (next, ReconcileOverridden)) s
        else
          let r := ReconcileProgress current (clamp_epoch report current) in
          if bool_decide (Outcome r = ReconcileAdvanced) then
            (_ ← writing (SaveProgress (Progress r));
             mret (Progress r, Outcome r)) s
          else (Ok (Progress r, Outcome r), s)
    end : Result (ReadingProgress * ReconcileOutcome) * S);
  newCursor ← advance_over_echo dev (rp_id res) now;
  mret (res, outcome, newCursor).

(** [req] is the decoded body, or [None] when it is not valid JSON. *)
Definition SyncProgressHandler (tx : TxOutcome) (newID : ReadingProgressID)
    (workInLibrary : WorkID -> LibraryID -> Result bool)
    (findEdition : EditionID -> Result Edition)
    (user : option UserID) (activeLib : LibraryID) (device : option PairedDevice)
    (req : option SyncProgressInput) (now : Time)
    : stM S error (ReadingProgress * ReconcileOutcome * Z) :=
  match user, device, req with
  | None, _, _ => throw (mkErr Unauthorized "unauthorized")
  | _, None, _ => throw (mkErr Unauthorized "unauthorized device")
  | _, _, None => throw (mkErr InvalidInput "request body must be valid JSON")
  | Some _, Some dev, Some req =>
      let workID := in_WorkID req in
      if blank workID then throw (mkErr InvalidInput "workId is required")
      else
        _ ← reading (fun _ => ValidatePercentage (in_Percentage req));
        _ ← reading (fun _ => ValidateObservedEpoch (in_ObservedEpoch req));
        pos ← reading (fun _ => position_of (in_PrecisePosition req));
        match workInLibrary workID activeLib with
        | Ok true =>
            _ ← reading (fun _ => CheckPrecisePositionWork findEdition workID pos);
            if negb (String.eqb (in_DeviceID req) "")
               && negb (String.eqb (in_DeviceID req) (pd_id dev)) then
              throw (mkErr Unauthorized "deviceId does not match authenticated device")
            else
              let pct := match NewPercentage (in_Percentage req) with Ok p => p | _ => f64_zero end in
              let repTime := report_time (in_ReportedAt req) now in
              let report := mkProgressReport workID pct (in_ObservedEpoch req) pos
                              (pd_id dev) repTime in
              InTx tx (sync_progress_body newID dev report (in_Override req) now)
        | _ => throw (mkErr NotFound "work not found in your library")
        end
  end.
End SyncProgress.
