(* ===== verification/SyncSafety.v ===== *)
(** * What synchronisation guarantees

    One delta, the polling of a device through the middleware and the handler,
    devices polling while transactions write, and the two handlers. *)

From Stdlib Require Import Sorting.Sorted Sorting.Permutation.
From S2P Require Import Prelude GoStrings Floats Errors Catalog Transactor Progress Postgres Pairing PairingStore Cfi Sync.

Local Open Scope string_scope.
Local Open Scope list_scope.
Local Open Scope Z_scope.

(** ** One query *)

Section query.
Context {A : Type}.
Implicit Types (t l : list (sync_row A)) (r : sync_row A).

Definition seqs t : list Z := sy_sequence <$> t.
Definition seq_le r1 r2 : Prop := sy_sequence r1 <= sy_sequence r2.

(** The trigger draws every sequence number from one counter. *)
Definition unique_seq t : Prop :=
  forall r1 r2, r1 ∈ t -> r2 ∈ t -> sy_sequence r1 = sy_sequence r2 -> r1 = r2.

Lemma insert_seq_perm r l : Permutation (insert_seq r l) (r :: l).
Proof.
  induction l as [|x l IH]; simpl; [done|]. destruct (_ <=? _); [done|].
  rewrite IH. constructor.
Qed.

Lemma order_by_seq_perm t : Permutation (order_by_seq t) t.
Proof.
  induction t as [|r t IH]; simpl; [done|]. rewrite insert_seq_perm. by constructor.
Qed.

Lemma insert_seq_sorted r l : StronglySorted seq_le l -> StronglySorted seq_le (insert_seq r l).
Proof.
  induction 1 as [|x l Hl IH Hx]; simpl; [repeat constructor|].
  destruct (Z.leb_spec (sy_sequence r) (sy_sequence x)) as [Hle|Hlt].
  - constructor; [by constructor|]. constructor; [done|].
    eapply Forall_impl; [exact Hx|]. unfold seq_le. simpl. lia.
  - constructor; [done|]. rewrite Forall_forall in *. intros y Hy.
    rewrite insert_seq_perm in Hy. apply elem_of_cons in Hy as [->|Hy]; [unfold seq_le; lia|by apply Hx].
Qed.

Lemma order_by_seq_sorted t : StronglySorted seq_le (order_by_seq t).
Proof. induction t; simpl; [constructor|by apply insert_seq_sorted]. Qed.

(** What a sorted list cuts off lies after everything it keeps. *)
Lemma sorted_take_drop n l x y :
  StronglySorted seq_le l -> x ∈ take n l -> y ∈ drop n l -> sy_sequence x <= sy_sequence y.
Proof.
  revert n. induction l as [|z l IH]; intros [|n] Hs Hx Hy; simpl in *; try (by apply elem_of_nil in Hx).
  apply StronglySorted_inv in Hs as [Hs Hz]. apply elem_of_cons in Hx as [->|Hx].
  - rewrite Forall_forall in Hz. apply Hz. by eapply subseteq_drop.
  - by eapply IH.
Qed.

Context (u lib : string) (since xmin : Z).
Let query t := delta_query u lib since xmin t.

Lemma elem_of_query t r : r ∈ query t -> r ∈ t /\ in_delta u lib since xmin r = true.
Proof.
  unfold query, delta_query. intros Hr. apply subseteq_take in Hr.
  rewrite order_by_seq_perm in Hr. apply list_elem_of_In, filter_In in Hr as [Hr ?].
  split; [by apply list_elem_of_In|done].
Qed.

Lemma in_delta_spec r : in_delta u lib since xmin r = true <->
  sy_user r = Some u /\ sy_library r = Some lib /\ since < sy_sequence r /\ sy_xmin r < xmin.
Proof.
  unfold in_delta. rewrite !andb_true_iff, !bool_decide_eq_true, !Z.ltb_lt. tauto.
Qed.

Lemma last_elem (l : list Z) d : l <> [] -> List.last l d ∈ l.
Proof.
  intros Hl. destruct (exists_last Hl) as (k & x & ->). rewrite List.last_last. set_solver.
Qed.

(** Rows up to the capped cursor are in the delta. *)
Lemma query_complete t r c :
  unique_seq t -> r ∈ t -> in_delta u lib since xmin r = true ->
  sy_sequence r <= cap_cursor (seqs (query t)) c -> r ∈ query t.
Proof.
  intros Hnd Hr Hin Hle.
  set (l := order_by_seq (List.filter (in_delta u lib since xmin) t)).
  assert (r ∈ l) as Hl.
  { unfold l. rewrite order_by_seq_perm. apply list_elem_of_In, filter_In.
    split; [by apply list_elem_of_In|done]. }
  rewrite <- (take_drop syncDeltaLimit l) in Hl. change (query t) with (take syncDeltaLimit l).
  apply elem_of_app in Hl as [Hl|Hd]; [done|].
  assert (length (take syncDeltaLimit l) = syncDeltaLimit) as Hlen.
  { rewrite length_take. destruct (le_lt_dec (length l) syncDeltaLimit) as [Hle'|]; [|lia].
    rewrite drop_ge in Hd by done. by apply elem_of_nil in Hd. }
  unfold cap_cursor, query, delta_query, seqs in Hle. fold l in Hle.
  rewrite length_fmap, Hlen, Nat.eqb_refl in Hle.
  assert (List.last (sy_sequence <$> take syncDeltaLimit l) 0 ∈ sy_sequence <$> take syncDeltaLimit l)
    as Hlast.
  { apply last_elem. intros E. apply (f_equal length) in E. rewrite length_fmap, Hlen in E. done. }
  apply list_elem_of_fmap in Hlast as (x & Hx & Hxin). rewrite Hx in Hle.
  pose proof (sorted_take_drop _ _ _ _ (order_by_seq_sorted _) Hxin Hd) as Hxr.
  assert (x ∈ query t) as Hxq by done. apply elem_of_query in Hxq as [Hxt _].
  assert (r = x) as -> by (apply Hnd; [done..|lia]). done.
Qed.

Lemma query_since t s : s ∈ seqs (query t) -> since < s.
Proof.
  intros (r & -> & Hr)%list_elem_of_fmap. apply elem_of_query in Hr as [_ Hr].
  by apply in_delta_spec in Hr as (_ & _ & ? & _).
Qed.

(** The cap keeps the cursor among what was delivered. *)
Lemma cap_cursor_cases t c :
  cap_cursor (seqs (query t)) c = c \/ cap_cursor (seqs (query t)) c ∈ seqs (query t).
Proof.
  unfold cap_cursor. destruct (Nat.eqb_spec (length (seqs (query t))) syncDeltaLimit) as [E|]; [|by left].
  destruct (Z.min_spec c (List.last (seqs (query t)) 0)) as [[_ ->]|[_ ->]]; [by left|right].
  apply last_elem. intros E'. rewrite E' in E. done.
Qed.

Lemma cap_cursor_le t c : cap_cursor (seqs (query t)) c <= c.
Proof. unfold cap_cursor. destruct (Nat.eqb _ _); lia. Qed.
End query.

Lemma filter_length_mono {A} (p q : A -> bool) l :
  (forall x, x ∈ l -> p x = true -> q x = true) ->
  (length (List.filter p l) <= length (List.filter q l))%nat.
Proof.
  induction l as [|x l IH]; intros Hpq; simpl; [done|].
  assert (length (List.filter p l) <= length (List.filter q l))%nat by (apply IH; set_solver).
  specialize (Hpq x ltac:(set_solver)). destruct (p x), (q x); simpl; lia.
Qed.

Lemma filter_length_lt {A} (p q : A -> bool) l x :
  (forall x, x ∈ l -> p x = true -> q x = true) -> x ∈ l -> p x = false -> q x = true ->
  (length (List.filter p l) < length (List.filter q l))%nat.
Proof.
  intros Hpq (l1 & l2 & ->)%list_elem_of_split Hp Hq. rewrite !List.filter_app, !length_app.
  simpl. rewrite Hp, Hq. simpl.
  pose proof (filter_length_mono p q l1 ltac:(set_solver)).
  pose proof (filter_length_mono p q l2 ltac:(set_solver)). lia.
Qed.

(** ** One delta *)

Section delta.
Context (u lib : string) (sn : snapshot).

Definition delivered {A} (since : Z) (t : list (sync_row A)) : list Z :=
  seqs (delta_query u lib since (sn_xmin sn) t).
Definition all_delivered (since : Z) : list Z :=
  delivered since (sn_progress sn) ++ delivered since (sn_bookmarks sn)
  ++ delivered since (sn_highlights sn).
Definition cursor_after (since : Z) : Z :=
  cap_cursor (delivered since (sn_highlights sn))
    (cap_cursor (delivered since (sn_bookmarks sn))
       (cap_cursor (delivered since (sn_progress sn)) (max_sequence since (all_delivered since)))).

Lemma max_sequence_app m l k : max_sequence m (l ++ k) = max_sequence (max_sequence m l) k.
Proof. apply fold_left_app. Qed.

Lemma read_deltas_ok since : exists data,
  read_deltas (fun _ => None) u lib since sn = Ok data /\
  rsd_Cursor data = cursor_after since /\
  rsd_Progress data = progress_item <$> delta_query u lib since (sn_xmin sn) (sn_progress sn) /\
  rsd_Bookmarks data = bookmark_item <$> delta_query u lib since (sn_xmin sn) (sn_bookmarks sn) /\
  rsd_Highlights data = highlight_item <$> delta_query u lib since (sn_xmin sn) (sn_highlights sn).
Proof.
  eexists. split; [done|]. split; [|done]. unfold cursor_after, all_delivered.
  by rewrite !max_sequence_app.
Qed.

Lemma max_sequence_ge m l x : m <= max_sequence m l /\ (x ∈ l -> x <= max_sequence m l).
Proof.
  revert m. induction l as [|y l IH]; intros m.
  { split; [done|by intros ?%elem_of_nil]. }
  change (max_sequence m (y :: l)) with (max_sequence (if m <? y then y else m) l).
  destruct (IH (if m <? y then y else m)) as [H1 H2].
  destruct (Z.ltb_spec m y); (split; [lia|intros [->|?]%elem_of_cons; [lia|by apply H2]]).
Qed.

Lemma max_sequence_cases m l : max_sequence m l = m \/ max_sequence m l ∈ l.
Proof.
  revert m. induction l as [|y l IH]; intros m; [by left|].
  change (max_sequence m (y :: l)) with (max_sequence (if m <? y then y else m) l).
  destruct (IH (if m <? y then y else m)) as [->|]; [|right; set_solver].
  destruct (m <? y); [right; set_solver|by left].
Qed.

(** The rows a query of [since] can still bring, over the three tables. *)
Definition remaining (since : Z) : nat :=
  let n {A} (t : list (sync_row A)) := length (List.filter (in_delta u lib since (sn_xmin sn)) t) in
  (n (sn_progress sn) + n (sn_bookmarks sn) + n (sn_highlights sn))%nat.

Lemma cursor_after_le since :
  (exists c, cursor_after since <= cap_cursor (delivered since (sn_progress sn)) c) /\
  (exists c, cursor_after since <= cap_cursor (delivered since (sn_bookmarks sn)) c) /\
  (exists c, cursor_after since <= cap_cursor (delivered since (sn_highlights sn)) c).
Proof.
  unfold cursor_after. conjuncts; eexists; [|apply cap_cursor_le|done].
  etrans; apply cap_cursor_le.
Qed.

Lemma all_delivered_since since x : x ∈ all_delivered since -> since < x.
Proof. intros [|[|]%elem_of_app]%elem_of_app; by eapply query_since. Qed.

(** The cursor is one of the sequences delivered, unless nothing was. *)
Lemma cursor_after_cases since :
  (all_delivered since = [] /\ cursor_after since = since) \/
  cursor_after since ∈ all_delivered since.
Proof.
  assert (forall A (t : list (sync_row A)) c,
    delivered since t ⊆ all_delivered since ->
    c = max_sequence since (all_delivered since) \/ c ∈ all_delivered since ->
    let c' := cap_cursor (delivered since t) c in
    c' = max_sequence since (all_delivered since) \/ c' ∈ all_delivered since) as Hcap.
  { intros A t c Hsub Hc. unfold delivered in *. cbn zeta. destruct (cap_cursor_cases u lib since (sn_xmin sn) t c) as [->|?];
      [done|right; by apply Hsub]. }
  destruct (Hcap _ (sn_highlights sn) (cap_cursor (delivered since (sn_bookmarks sn))
    (cap_cursor (delivered since (sn_progress sn)) (max_sequence since (all_delivered since)))))
    as [E|]; [unfold all_delivered; set_solver| |fold (cursor_after since) in E|by right].
  { apply Hcap; [unfold all_delivered; set_solver|].
    apply Hcap; [unfold all_delivered; set_solver|by left]. }
  rewrite E. destruct (max_sequence_cases since (all_delivered since)) as [E'|]; [left|by right].
  split; [|done]. apply elem_of_nil_inv. intros x Hx.
  destruct (max_sequence_ge since (all_delivered since) x) as [_ Hge].
  specialize (Hge Hx). apply all_delivered_since in Hx. lia.
Qed.

Lemma remaining_le since c : since <= c -> (remaining c <= remaining since)%nat.
Proof.
  intros Hc. unfold remaining.
  repeat apply Nat.add_le_mono; apply filter_length_mono; intros r _ Hr;
    apply in_delta_spec in Hr as (? & ? & ? & ?); apply in_delta_spec; conjuncts; lia.
Qed.

Lemma delivered_elem {A} since (t : list (sync_row A)) x :
  x ∈ delivered since t -> exists r, r ∈ t /\ sy_sequence r = x /\
    in_delta u lib since (sn_xmin sn) r = true /\ in_delta u lib x (sn_xmin sn) r = false.
Proof.
  intros (r & -> & Hr)%list_elem_of_fmap. exists r. apply elem_of_query in Hr as [? Hr].
  conjuncts. apply not_true_is_false. intros (_ & _ & ? & _)%in_delta_spec. lia.
Qed.

Lemma filter_delta_lt {A} since c (t : list (sync_row A)) :
  c ∈ delivered since t ->
  (length (List.filter (in_delta u lib c (sn_xmin sn)) t)
   < length (List.filter (in_delta u lib since (sn_xmin sn)) t))%nat.
Proof.
  intros Hc. destruct (delivered_elem _ _ _ Hc) as (r & Hr & Hs & Hin & Hout).
  eapply filter_length_lt; [|done|done|done]. intros x _ Hx.
  apply in_delta_spec in Hx as (? & ? & ? & ?), Hin as (_ & _ & ? & _).
  apply in_delta_spec. conjuncts. lia.
Qed.

Lemma filter_delta_le {A} since c (t : list (sync_row A)) : since <= c ->
  (length (List.filter (in_delta u lib c (sn_xmin sn)) t)
   <= length (List.filter (in_delta u lib since (sn_xmin sn)) t))%nat.
Proof.
  intros Hc. apply filter_length_mono. intros r _ (? & ? & ? & ?)%in_delta_spec.
  apply in_delta_spec. conjuncts. lia.
Qed.

(** A delta that brings anything leaves less to bring. *)
Lemma remaining_lt since :
  cursor_after since ∈ all_delivered since -> (remaining (cursor_after since) < remaining since)%nat.
Proof.
  intros Hc. pose proof (all_delivered_since _ _ Hc).
  pose proof (filter_delta_le since (cursor_after since) (sn_progress sn) ltac:(lia)).
  pose proof (filter_delta_le since (cursor_after since) (sn_bookmarks sn) ltac:(lia)).
  pose proof (filter_delta_le since (cursor_after since) (sn_highlights sn) ltac:(lia)).
  unfold remaining.
  apply elem_of_app in Hc as [?%filter_delta_lt|[?%filter_delta_lt|?%filter_delta_lt]%elem_of_app]; lia.
Qed.
End delta.

(** ** Polling *)

Definition no_rows (data : ReadingSyncData) : bool :=
  match rsd_Progress data, rsd_Bookmarks data, rsd_Highlights data with
  | [], [], [] => true
  | _, _, _ => false
  end.

(** A device that asks again from the cursor it was given until a delta is
    empty; the deltas it received. *)
Fixpoint poll (fuel : nat) (u lib : string) (since : Z) (sn : snapshot)
    : Result (list ReadingSyncData) :=
  match fuel with
  | O => OutOfFuel
  | S fuel =>
      data ← read_deltas (fun _ => None) u lib since sn;
      if no_rows data then mret []
      else
        rest ← poll fuel u lib (rsd_Cursor data) sn;
        mret (data :: rest)
  end.

Definition snapshot_ok (sn : snapshot) : Prop :=
  unique_seq (sn_progress sn) /\ unique_seq (sn_bookmarks sn) /\ unique_seq (sn_highlights sn).

(** What a poll brought of one table. *)
Definition brings {A I} (u lib : string) (since xmin : Z) (t : list (sync_row A))
    (item : sync_row A -> I) (got : list I) : Prop :=
  forall i, i ∈ got <-> exists r, r ∈ t /\ in_delta u lib since xmin r = true /\ i = item r.

Lemma brings_step {A I} u lib since c c' xmin (t : list (sync_row A)) (item : sync_row A -> I) got :
  unique_seq t -> since <= c -> c <= cap_cursor (seqs (delta_query u lib since xmin t)) c' ->
  brings u lib c xmin t item got ->
  brings u lib since xmin t item ((item <$> delta_query u lib since xmin t) ++ got).
Proof.
  intros Hnd Hc Hcap Hgot i. rewrite elem_of_app, (Hgot i), list_elem_of_fmap. split.
  - intros [(r & -> & [? ?]%elem_of_query)|(r & Hr & Hin & ->)]; exists r; conjuncts.
    apply in_delta_spec in Hin as (? & ? & ? & ?). apply in_delta_spec. conjuncts. lia.
  - intros (r & Hr & Hin & ->). destruct (Z_le_gt_dec (sy_sequence r) c).
    + left. exists r. conjuncts. eapply query_complete; [done|done|done|]. etrans; [done|exact Hcap].
    + right. exists r. conjuncts. apply in_delta_spec in Hin as (? & ? & ? & ?).
      apply in_delta_spec. conjuncts. lia.
Qed.

Lemma brings_nil {A I} u lib since xmin (t : list (sync_row A)) (item : sync_row A -> I) :
  unique_seq t -> delta_query u lib since xmin t = [] -> brings u lib since xmin t item [].
Proof.
  intros Hnd Hq i. split; [by intros ?%elem_of_nil|]. intros (r & Hr & Hin & ->).
  exfalso. assert (r ∈ delta_query u lib since xmin t) as Hr'.
  { apply (query_complete _ _ _ _ _ _ (sy_sequence r)); [done..|]. by rewrite Hq. }
  rewrite Hq in Hr'. by apply elem_of_nil in Hr'.
Qed.

(** Whatever the rows and however many deltas of at most 500 rows of a table it
    takes, the loop ends and has delivered exactly the visible rows of its
    owner and library beyond the cursor it started from. *)
Lemma poll_deltas fuel u lib since sn :
  snapshot_ok sn -> (remaining u lib sn since < fuel)%nat ->
  exists ds, poll fuel u lib since sn = Ok ds /\
    brings u lib since (sn_xmin sn) (sn_progress sn) progress_item (mjoin (rsd_Progress <$> ds)) /\
    brings u lib since (sn_xmin sn) (sn_bookmarks sn) bookmark_item (mjoin (rsd_Bookmarks <$> ds)) /\
    brings u lib since (sn_xmin sn) (sn_highlights sn) highlight_item (mjoin (rsd_Highlights <$> ds)).
Proof.
  intros (Hp & Hb & Hh). revert since. induction fuel as [|fuel IH]; intros since Hf; [lia|].
  destruct (read_deltas_ok u lib sn since) as (data & E & Hcur & HP & HB & HH).
  cbn [poll]. rewrite E. cbn [mbind res_bind]. clear E.
  destruct (cursor_after_cases u lib sn since) as [[Hall Hc]|Hc].
  - apply app_eq_nil in Hall as [E1 [E2 E3]%app_eq_nil].
    apply fmap_nil_inv in E1, E2, E3. unfold no_rows. rewrite HP, HB, HH, E1, E2, E3. simpl.
    exists []. conjuncts; by apply brings_nil.
  - assert (no_rows data = false) as ->.
    { unfold no_rows. rewrite HP, HB, HH. unfold all_delivered, delivered, seqs in Hc.
      destruct (delta_query _ _ _ _ (sn_progress sn)), (delta_query _ _ _ _ (sn_bookmarks sn)),
        (delta_query _ _ _ _ (sn_highlights sn)); try done. by apply elem_of_nil in Hc. }
    rewrite Hcur. pose proof (remaining_lt _ _ _ _ Hc).
    pose proof (all_delivered_since _ _ _ _ _ Hc).
    destruct (IH (cursor_after u lib sn since)) as (ds & E & G1 & G2 & G3); [lia|].
    destruct (cursor_after_le u lib sn since) as ([c1 L1] & [c2 L2] & [c3 L3]).
    exists (data :: ds). rewrite E. split; [done|]. rewrite !fmap_cons. simpl. rewrite HP, HB, HH.
    conjuncts; (eapply brings_step; [done| |eassumption|done]); lia.
Qed.


(** ** Devices polling while transactions write *)

Inductive row_write :=
| WProgress (r : sync_row progress_cols)
| WBookmark (r : sync_row bookmark_cols)
| WHighlight (r : sync_row highlight_cols).

Definition write_xid (w : row_write) : Z :=
  match w with WProgress r => sy_xmin r | WBookmark r => sy_xmin r | WHighlight r => sy_xmin r end.
Definition write_sequence (w : row_write) : Z :=
  match w with
  | WProgress r => sy_sequence r
  | WBookmark r => sy_sequence r
  | WHighlight r => sy_sequence r
  end.

(** The committed rows, the writes of the transactions in flight, the counters
    that number transactions and rows, and one device: its cursor and the
    deltas it got. *)
Record world := mkWorld {
  w_progress : list (sync_row progress_cols);
  w_bookmarks : list (sync_row bookmark_cols);
  w_highlights : list (sync_row highlight_cols);
  w_open : list Z;
  w_pending : list row_write;
  w_next_xid : Z;
  w_next_sequence : Z;
  w_cursor : Z;
  w_got : list ReadingSyncData;
}.

(** [pg_snapshot_xmin(pg_current_snapshot())]. *)
Definition snapshot_xmin (s : world) : Z := fold_right Z.min (w_next_xid s) (w_open s).

Definition world_snapshot (s : world) : snapshot :=
  mkSnapshot (w_progress s) (w_bookmarks s) (w_highlights s) (snapshot_xmin s).

Definition writes (s : world) : list row_write :=
  (WProgress <$> w_progress s) ++ (WBookmark <$> w_bookmarks s)
  ++ (WHighlight <$> w_highlights s) ++ w_pending s.

(** The new version of a row replaces the old one. *)
Definition replace_row {A} (id : A -> string) (r : sync_row A) (t : list (sync_row A))
    : list (sync_row A) :=
  List.filter (fun x => negb (String.eqb (id (sy_cols x)) (id (sy_cols r)))) t ++ [r].

Definition apply_write (s : world) (w : row_write) : world :=
  let '(mkWorld p b h o pe nx ns c g) := s in
  match w with
  | WProgress r => mkWorld (replace_row pc_id r p) b h o pe nx ns c g
  | WBookmark r => mkWorld p (replace_row bc_id r b) h o pe nx ns c g
  | WHighlight r => mkWorld p b (replace_row hc_id r h) o pe nx ns c g
  end.

Definition leave (x : Z) (s : world) : world :=
  let '(mkWorld p b h o pe nx ns c g) := s in
  mkWorld p b h (List.filter (fun y => negb (y =? x)) o)
    (List.filter (fun w => negb (write_xid w =? x)) pe) nx ns c g.

Definition written_by (x : Z) (s : world) : list row_write :=
  List.filter (fun w => write_xid w =? x) (w_pending s).

Definition initial_world : world := mkWorld [] [] [] [] [] 100 1 0 [].

Section world.
Context (u lib : string).

(** [ordered]: a row is written only by a transaction at least as recent as
    those that wrote the rows there are. *)
Inductive world_step (ordered : bool) : world -> world -> Prop :=
| WBegin p b h o pe nx ns c g :
    world_step ordered (mkWorld p b h o pe nx ns c g) (mkWorld p b h (nx :: o) pe (nx + 1) ns c g)
| WWrite w p b h o pe nx ns c g :
    write_xid w ∈ o -> write_sequence w = ns ->
    (ordered = true ->
     forall w', w' ∈ writes (mkWorld p b h o pe nx ns c g) -> write_xid w' <= write_xid w) ->
    world_step ordered (mkWorld p b h o pe nx ns c g) (mkWorld p b h o (w :: pe) nx (ns + 1) c g)
| WCommit x s :
    x ∈ w_open s ->
    world_step ordered s (fold_left apply_write (rev (written_by x s)) (leave x s))
| WRollback x s : world_step ordered s (leave x s)
| WPull p b h o pe nx ns c g data :
    read_deltas (fun _ => None) u lib c (world_snapshot (mkWorld p b h o pe nx ns c g)) = Ok data ->
    world_step ordered (mkWorld p b h o pe nx ns c g)
      (mkWorld p b h o pe nx ns (rsd_Cursor data) (data :: g)).

Definition reachable_world (ordered : bool) : world -> Prop :=
  rtc (world_step ordered) initial_world.

(** A committed row of the device's owner and library at or before its cursor
    was delivered. *)
Definition caught_up {A I} (c : Z) (t : list (sync_row A)) (item : sync_row A -> I) (got : list I) : Prop :=
  forall r, r ∈ t -> sy_user r = Some u -> sy_library r = Some lib -> sy_sequence r <= c ->
  item r ∈ got.

Definition nothing_skipped (s : world) : Prop :=
  caught_up (w_cursor s) (w_progress s) progress_item (mjoin (rsd_Progress <$> w_got s)) /\
  caught_up (w_cursor s) (w_bookmarks s) bookmark_item (mjoin (rsd_Bookmarks <$> w_got s)) /\
  caught_up (w_cursor s) (w_highlights s) highlight_item (mjoin (rsd_Highlights <$> w_got s)).

Record world_inv (s : world) : Prop := {
  wi_bound w : w ∈ writes s -> write_sequence w < w_next_sequence s;
  wi_unique w w' : w ∈ writes s -> w' ∈ writes s -> write_sequence w = write_sequence w' -> w = w';
  wi_order w w' : w ∈ writes s -> w' ∈ writes s ->
    write_sequence w <= write_sequence w' -> write_xid w <= write_xid w';
  wi_pending w : w ∈ w_pending s -> write_xid w ∈ w_open s /\ w_cursor s < write_sequence w;
  wi_cursor : w_cursor s < w_next_sequence s;
  wi_skip : nothing_skipped s;
}.

Definition committed (s : world) (w : row_write) : Prop :=
  match w with
  | WProgress r => r ∈ w_progress s
  | WBookmark r => r ∈ w_bookmarks s
  | WHighlight r => r ∈ w_highlights s
  end.

Lemma elem_of_writes s w : w ∈ writes s <-> committed s w \/ w ∈ w_pending s.
Proof.
  unfold writes. rewrite !elem_of_app, !list_elem_of_fmap. destruct w; simpl; split.
  all: try (intros [(? & [= ->] & ?)|[(? & [= ->] & ?)|[(? & [= ->] & ?)|?]]]; by auto).
  all: intros [?|?]; eauto 6.
Qed.

Lemma elem_of_replace_row {A} (id : A -> string) (r x : sync_row A) t :
  x ∈ replace_row id r t -> x ∈ t \/ x = r.
Proof.
  intros [Hx|Hx]%elem_of_app; [|right; set_solver].
  left. by apply list_elem_of_In, filter_In in Hx as [Hx%list_elem_of_In _].
Qed.

Lemma apply_write_committed s w w' : committed (apply_write s w) w' -> committed s w' \/ w' = w.
Proof.
  destruct s, w, w'; simpl; auto; intros [|]%elem_of_replace_row; subst; auto.
Qed.

Lemma apply_writes_committed ws s w :
  committed (fold_left apply_write ws s) w -> committed s w \/ w ∈ ws.
Proof.
  revert s. induction ws as [|w0 ws IH]; intros s; simpl; [auto|].
  intros [H%apply_write_committed|]%IH; set_solver.
Qed.

Lemma apply_writes_frame ws s :
  let s' := fold_left apply_write ws s in
  w_open s' = w_open s /\ w_pending s' = w_pending s /\ w_next_sequence s' = w_next_sequence s /\
  w_cursor s' = w_cursor s /\ w_got s' = w_got s.
Proof.
  revert s. induction ws as [|w0 ws IH]; intros s; simpl; [done|].
  destruct (IH (apply_write s w0)) as (-> & -> & -> & -> & ->). by destruct s, w0.
Qed.

Lemma elem_of_leave x s w : w ∈ w_pending (leave x s) <-> w ∈ w_pending s /\ write_xid w <> x.
Proof.
  destruct s. simpl. by rewrite list_elem_of_In, filter_In, <- list_elem_of_In, negb_true_iff, Z.eqb_neq.
Qed.

Lemma elem_of_written_by x s w : w ∈ written_by x s <-> w ∈ w_pending s /\ write_xid w = x.
Proof.
  unfold written_by. by rewrite list_elem_of_In, filter_In, <- list_elem_of_In, Z.eqb_eq.
Qed.

Lemma leave_committed x s w : committed (leave x s) w <-> committed s w.
Proof. by destruct s, w. Qed.

Lemma leave_frame x s :
  w_next_sequence (leave x s) = w_next_sequence s /\ w_cursor (leave x s) = w_cursor s /\
  w_got (leave x s) = w_got s.
Proof. by destruct s. Qed.

Lemma leave_open x s y : y ∈ w_open s -> y <> x -> y ∈ w_open (leave x s).
Proof.
  destruct s. simpl. intros. apply list_elem_of_In, filter_In.
  rewrite negb_true_iff, Z.eqb_neq. split; [by apply list_elem_of_In|done].
Qed.

(** What a state that keeps the cursor, the counters and the deltas has to
    show to keep the invariant. *)
Lemma world_inv_sub s s' :
  world_inv s ->
  w_next_sequence s' = w_next_sequence s -> w_cursor s' = w_cursor s -> w_got s' = w_got s ->
  (forall w, committed s' w -> committed s w \/ w ∈ w_pending s) ->
  (forall w, w ∈ w_pending s' -> w ∈ w_pending s /\ write_xid w ∈ w_open s') ->
  world_inv s'.
Proof.
  intros [Hb Hu Ho Hp Hc (S1 & S2 & S3)] En Ec Eg Hcom Hpe.
  assert (forall w, w ∈ writes s' -> w ∈ writes s) as Hw.
  { intros w [?%Hcom|[? _]%Hpe]%elem_of_writes; apply elem_of_writes; auto. }
  split; rewrite ?En, ?Ec; auto.
  - intros w [H1 H2]%Hpe. split; [done|]. by apply Hp.
  - unfold nothing_skipped, caught_up in *. rewrite Ec, Eg. conjuncts; intros r Hr Hus Hl Hle.
    + destruct (Hcom (WProgress r) Hr) as [|[_ ?]%Hp]; [by apply S1|simpl in *; lia].
    + destruct (Hcom (WBookmark r) Hr) as [|[_ ?]%Hp]; [by apply S2|simpl in *; lia].
    + destruct (Hcom (WHighlight r) Hr) as [|[_ ?]%Hp]; [by apply S3|simpl in *; lia].
Qed.

Lemma leave_inv x s : world_inv s -> world_inv (leave x s).
Proof.
  intros Hs. destruct (leave_frame x s) as (E1 & E2 & E3).
  apply (world_inv_sub s); [done..| |].
  - intros w ?%leave_committed. auto.
  - intros w [Hw Hx]%elem_of_leave. split; [done|]. apply leave_open; [|done].
    by apply (wi_pending _ Hs).
Qed.

Lemma commit_inv x s :
  world_inv s -> world_inv (fold_left apply_write (rev (written_by x s)) (leave x s)).
Proof.
  intros Hs. destruct (leave_frame x s) as (E1 & E2 & E3).
  destruct (apply_writes_frame (rev (written_by x s)) (leave x s)) as (F1 & F2 & F3 & F4 & F5).
  apply (world_inv_sub s); [done|congruence..| |].
  - intros w [?%leave_committed|Hw]%apply_writes_committed; [auto|right].
    apply list_elem_of_In, in_rev, list_elem_of_In, elem_of_written_by in Hw. by destruct Hw.
  - rewrite F1, F2. intros w [Hw Hx]%elem_of_leave. split; [done|]. apply leave_open; [|done].
    by apply (wi_pending _ Hs).
Qed.

Lemma begin_inv p b h o pe nx ns c g :
  world_inv (mkWorld p b h o pe nx ns c g) -> world_inv (mkWorld p b h (nx :: o) pe (nx + 1) ns c g).
Proof.
  intros Hs. apply (world_inv_sub _ _ Hs); [done..| |]; simpl.
  - intros []; auto.
  - intros w Hw. split; [done|]. destruct (wi_pending _ Hs w Hw). set_solver.
Qed.

Lemma write_inv w p b h o pe nx ns c g :
  let s := mkWorld p b h o pe nx ns c g in
  world_inv s -> write_xid w ∈ o -> write_sequence w = ns ->
  (forall w', w' ∈ writes s -> write_xid w' <= write_xid w) ->
  world_inv (mkWorld p b h o (w :: pe) nx (ns + 1) c g).
Proof.
  intros s Hs Hx Hn Hord. set (s' := mkWorld _ _ _ _ _ _ _ _ _).
  assert (forall w', w' ∈ writes s' -> w' = w \/ w' ∈ writes s) as Hw.
  { intros w' Hw'. rewrite !elem_of_writes in *. simpl in Hw'.
    rewrite elem_of_cons in Hw'. destruct w'; simpl in *; tauto. }
  pose proof (wi_bound _ Hs) as Hb. pose proof (wi_cursor _ Hs) as Hc. simpl in Hb, Hc. split; simpl.
  - intros w' [->|H]%Hw; [lia|]. specialize (Hb _ H). lia.
  - intros w1 w2 [->|H1]%Hw [->|H2]%Hw E; [done| | |by apply (wi_unique _ Hs)].
    + specialize (Hb _ H2). lia.
    + specialize (Hb _ H1). lia.
  - intros w1 w2 [->|H1]%Hw [->|H2]%Hw E; [done| | |by apply (wi_order _ Hs)].
    + specialize (Hb _ H2). lia.
    + by apply Hord.
  - intros w' [->|H]%elem_of_cons; [by split; [|lia]|by apply (wi_pending _ Hs)].
  - lia.
  - exact (wi_skip _ Hs).
Qed.

Lemma snapshot_xmin_le s x : x ∈ w_open s -> snapshot_xmin s <= x.
Proof.
  unfold snapshot_xmin. induction (w_open s) as [|y l IH]; [by intros ?%elem_of_nil|].
  simpl. intros [->|?%IH]%elem_of_cons; lia.
Qed.

Lemma world_snapshot_ok s : world_inv s -> snapshot_ok (world_snapshot s).
Proof.
  intros Hs. unfold snapshot_ok, unique_seq. simpl. conjuncts; intros r1 r2 H1 H2 E.
  - assert (WProgress r1 = WProgress r2) by (apply (wi_unique _ Hs); try apply elem_of_writes; auto).
    congruence.
  - assert (WBookmark r1 = WBookmark r2) by (apply (wi_unique _ Hs); try apply elem_of_writes; auto).
    congruence.
  - assert (WHighlight r1 = WHighlight r2) by (apply (wi_unique _ Hs); try apply elem_of_writes; auto).
    congruence.
Qed.

Lemma delivered_committed s c x : x ∈ all_delivered u lib (world_snapshot s) c ->
  exists w, committed s w /\ write_sequence w = x /\ write_xid w < snapshot_xmin s.
Proof.
  intros [H|[H|H]%elem_of_app]%elem_of_app;
    apply delivered_elem in H as (r & Hr & Hx & Hin & _);
    apply in_delta_spec in Hin as (_ & _ & _ & ?).
  - by exists (WProgress r).
  - by exists (WBookmark r).
  - by exists (WHighlight r).
Qed.

(** A pull keeps a table caught up when every row its cursor passes is old
    enough for the snapshot. *)
Lemma caught_up_pull {A I} xmin c c' b (t : list (sync_row A)) (item : sync_row A -> I) got :
  unique_seq t ->
  c' <= cap_cursor (seqs (delta_query u lib c xmin t)) b ->
  (forall r, r ∈ t -> c < sy_sequence r <= c' -> sy_xmin r < xmin) ->
  caught_up c t item got ->
  caught_up c' t item ((item <$> delta_query u lib c xmin t) ++ got).
Proof.
  intros Hu Hcap Hx Hgot r Hr Hus Hl Hle. apply elem_of_app.
  destruct (Z_le_gt_dec (sy_sequence r) c); [right; by apply Hgot|left].
  apply list_elem_of_fmap. exists r. split; [done|]. eapply query_complete; [done..| |].
  - apply in_delta_spec. conjuncts; [lia|]. apply Hx; [done|lia].
  - etrans; [exact Hle|exact Hcap].
Qed.

Lemma pull_inv p b h o pe nx ns c g data :
  let s := mkWorld p b h o pe nx ns c g in
  read_deltas (fun _ => None) u lib c (world_snapshot s) = Ok data ->
  world_inv s -> world_inv (mkWorld p b h o pe nx ns (rsd_Cursor data) (data :: g)).
Proof.
  intros s Hd Hs. destruct (read_deltas_ok u lib (world_snapshot s) c) as (d & E & Hcur & HP & HB & HH).
  rewrite Hd in E. injection E as <-.
  assert (forall w, w ∈ writes s -> write_sequence w <= rsd_Cursor data -> c < write_sequence w ->
    write_xid w < snapshot_xmin s) as Hold.
  { intros w Hw Hle Hc. rewrite Hcur in Hle.
    destruct (cursor_after_cases u lib (world_snapshot s) c) as [[_ E]|Hin]; [lia|].
    apply delivered_committed in Hin as (w' & Hw' & Hs' & Hx').
    assert (write_xid w <= write_xid w'); [|lia].
    apply (wi_order _ Hs); [done|apply elem_of_writes; by left|lia]. }
  destruct (cursor_after_le u lib (world_snapshot s) c) as ([c1 L1] & [c2 L2] & [c3 L3]).
  destruct (world_snapshot_ok s Hs) as (U1 & U2 & U3). rewrite <- Hcur in *.
  split; try apply Hs; simpl.
  - intros w Hw. destruct (wi_pending _ Hs w Hw) as [Ho Hc]. split; [done|].
    apply Z.nle_gt. intros Hle. simpl in Hc.
    assert (write_xid w < snapshot_xmin s) by (apply Hold; [apply elem_of_writes; by right|done..]).
    apply snapshot_xmin_le in Ho. lia.
  - destruct (cursor_after_cases u lib (world_snapshot s) c) as [[_ E]|Hin].
    { rewrite Hcur, E. apply (wi_cursor _ Hs). }
    apply delivered_committed in Hin as (w' & Hw' & Hs' & _). rewrite Hcur, <- Hs'.
    apply (wi_bound _ Hs). apply elem_of_writes. by left.
  - destruct (wi_skip _ Hs) as (S1 & S2 & S3). unfold nothing_skipped. simpl. rewrite HP, HB, HH.
    conjuncts; (eapply caught_up_pull; [done|eassumption| |done]); intros r Hr [Hlt Hle].
    + by apply (Hold (WProgress r)); [apply elem_of_writes; left|..].
    + by apply (Hold (WBookmark r)); [apply elem_of_writes; left|..].
    + by apply (Hold (WHighlight r)); [apply elem_of_writes; left|..].
Qed.

Lemma ordered_inv s : reachable_world true s -> world_inv s.
Proof.
  apply (rtc_ind_r (fun s => world_inv s)).
  - split; simpl; try (by intros ? ?%elem_of_nil); try (by intros ? ? ?%elem_of_nil).
    + lia.
    + by unfold nothing_skipped, caught_up; conjuncts; intros ? ?%elem_of_nil.
  - intros s1 s2 _ Hstep Hs. destruct Hstep.
    + by apply begin_inv.
    + apply write_inv; auto.
    + by apply commit_inv.
    + by apply leave_inv.
    + by eapply pull_inv.
Qed.
End world.

Definition demo_row (id : string) (xid seq : Z) : sync_row progress_cols :=
  mkSyncRow (Some "ada") (Some "home") xid seq
    (mkProgressCols id id f64_zero 0 None None "phone" 0).

(** Transactions 100 and 101 are open; 101 writes first, 100 writes and
    commits, the device pulls, 101 commits. *)
Definition world_before_pull : world :=
  mkWorld [demo_row "w100" 100 2] [] [] [101] [WProgress (demo_row "w101" 101 1)] 102 3 0 [].
Definition world_skipped : world :=
  mkWorld [demo_row "w100" 100 2; demo_row "w101" 101 1] [] [] [] [] 102 3 2
    [mkReadingSyncData 2 [progress_item (demo_row "w100" 100 2)] [] []].

Lemma world_skipped_reachable : reachable_world "ada" "home" false world_skipped.
Proof.
  eapply rtc_l; [apply (WBegin _ _ _ [] [] [] [])|].
  eapply rtc_l; [apply (WBegin _ _ _ [] [] [] [100])|].
  eapply rtc_l; [apply (WWrite _ _ _ (WProgress (demo_row "w101" 101 1)) [] [] [] [101; 100]);
    [set_solver|done|done]|].
  eapply rtc_l; [apply (WWrite _ _ _ (WProgress (demo_row "w100" 100 2)) [] [] [] [101; 100]);
    [set_solver|done|done]|].
  eapply rtc_l; [apply (WCommit _ _ _ 100); set_solver|].
  eapply rtc_l; [apply (WPull _ _ _ (w_progress world_before_pull) [] [] [101]); by vm_compute|].
  eapply rtc_l; [apply (WCommit _ _ _ 101); set_solver|].
  by vm_compute.
Qed.

(** The gate of the delta queries needs the writers to be ordered.  The delta
    holds back the rows of transactions at or after the oldest one in flight,
    which is to keep a device from passing over a row still uncommitted.  It
    does as long as rows are written in the order of the transactions'
    numbers: whatever begins, writes, commits, rolls back and is pulled in
    whatever interleaving, every committed row at or before a device's cursor
    was delivered to it.  When a transaction numbered earlier draws its
    sequence number later, it does not: a device can be left with a cursor
    beyond a committed row that no pull, past or future, delivers. *)
Theorem sync_gate_needs_order :
  (forall u lib s, reachable_world u lib true s -> nothing_skipped u lib s) /\
  exists u lib s r, reachable_world u lib false s /\ w_open s = [] /\
    r ∈ w_progress s /\ sy_user r = Some u /\ sy_library r = Some lib /\
    (progress_item r ∉ mjoin (rsd_Progress <$> w_got s)) /\
    forall fuel, poll (S fuel) u lib (w_cursor s) (world_snapshot s) = Ok [].
Proof.
  split; [intros u lib s Hs; by apply wi_skip, ordered_inv|].
  exists "ada", "home", world_skipped, (demo_row "w101" 101 1).
  split; [apply world_skipped_reachable|]. conjuncts; [set_solver|].
  simpl. intros [H|H%elem_of_nil]%elem_of_cons; [|done]. by apply (f_equal spi_SyncSequence) in H.
Qed.

(** ** GET /sync/reading *)

(** A database that has the tables the ceiling's query names. *)
Definition queried_relations (sn : snapshot) : relations :=
  {[ "reading_progress" := seqs (sn_progress sn);
     "reading_bookmarks" := seqs (sn_bookmarks sn);
     "reading_highlights" := seqs (sn_highlights sn) ]}.

Lemma fold_max_ge l m : m <= fold_left Z.max l m /\ forall x, x ∈ l -> x <= fold_left Z.max l m.
Proof.
  revert m. induction l as [|y l IH]; intros m; simpl; [by split; [|intros ? ?%elem_of_nil]|].
  destruct (IH (Z.max m y)) as [H1 H2]. split; [lia|].
  intros x [->|Hx]%elem_of_cons; [lia|by apply H2].
Qed.

Lemma max_of_ge rels name l :
  rels !! name = Some l -> exists m, max_of rels name = Ok m /\ forall x, x ∈ l -> x <= m.
Proof.
  unfold max_of. intros ->. destruct l as [|x l]; eexists; (split; [done|]).
  - by intros ? ?%elem_of_nil.
  - destruct (fold_max_ge l x) as [H1 H2]. intros y [->|Hy]%elem_of_cons; [done|by apply H2].
Qed.

Lemma ceiling_ok sn : exists m,
  GetSyncSequenceCeiling None (queried_relations sn) = Ok m /\
  (forall x, x ∈ seqs (sn_progress sn) -> x <= m) /\
  (forall x, x ∈ seqs (sn_bookmarks sn) -> x <= m) /\
  (forall x, x ∈ seqs (sn_highlights sn) -> x <= m).
Proof.
  unfold GetSyncSequenceCeiling.
  destruct (max_of_ge (queried_relations sn) "reading_progress" (seqs (sn_progress sn)))
    as (p & -> & Hp); [done|].
  destruct (max_of_ge (queried_relations sn) "reading_bookmarks" (seqs (sn_bookmarks sn)))
    as (b & -> & Hb); [done|].
  destruct (max_of_ge (queried_relations sn) "reading_highlights" (seqs (sn_highlights sn)))
    as (h & -> & Hh); [done|].
  eexists. split; [done|]. conjuncts; intros x Hx.
  - specialize (Hp x Hx). lia.
  - specialize (Hb x Hx). lia.
  - specialize (Hh x Hx). lia.
Qed.

(** Nothing lies beyond the ceiling, so lowering the start to it loses
    nothing. *)
Lemma query_capped {A} u lib since m xmin (t : list (sync_row A)) :
  (forall x, x ∈ seqs t -> x <= m) ->
  delta_query u lib (if m <? since then m else since) xmin t = delta_query u lib since xmin t.
Proof.
  intros Hm. destruct (Z.ltb_spec m since); [|done]. unfold delta_query. do 2 f_equal.
  apply List.filter_ext_in. intros r Hr%list_elem_of_In.
  assert (sy_sequence r <= m) by (apply Hm, list_elem_of_fmap; eauto).
  unfold in_delta. by rewrite (proj2 (Z.ltb_ge m _)), (proj2 (Z.ltb_ge since _)) by lia.
Qed.

Lemma empty_lengths data :
  negb (Nat.eqb (length (rsd_Progress data)) 0) || negb (Nat.eqb (length (rsd_Bookmarks data)) 0)
  || negb (Nat.eqb (length (rsd_Highlights data)) 0) = negb (no_rows data).
Proof.
  unfold no_rows. by destruct (rsd_Progress data), (rsd_Bookmarks data), (rsd_Highlights data).
Qed.

(** A pull answers the rows beyond the later of the position asked for and
    the device's own cursor, and moves the device's cursor exactly when the
    response has rows and ends beyond it, provided the ceiling's query finds
    its tables.  It names two tables no migration creates: on the database the
    migrations make, every pull of every device is refused with an internal
    error and changes nothing. *)
Theorem SyncReadingHandler_outcome sn f f' u lib dev sinceStr since now db :
  parse_since sinceStr = Some since ->
  (forall fault begin_fault commit_fault,
    SyncReadingHandler (postgres_sync_store fault begin_fault commit_fault (migrated_relations sn) sn)
      f f' (Some u) lib (Some dev) sinceStr now db
    = (fails Internal "failed to check sync ceiling", db)) /\
  let from := Z.max since (pd_syncCursor dev) in
  exists data,
    SyncReadingHandler (postgres_sync_store (fun _ => None) None None (queried_relations sn) sn)
      f f' (Some u) lib (Some dev) sinceStr now db
    = (Ok data, if negb (no_rows data) && (pd_syncCursor dev <? rsd_Cursor data)
                then (AdvanceDeviceCursor f f' (pd_id dev) (rsd_Cursor data) now db).2 else db) /\
    rsd_Progress data = progress_item <$> delta_query u lib from (sn_xmin sn) (sn_progress sn) /\
    rsd_Bookmarks data = bookmark_item <$> delta_query u lib from (sn_xmin sn) (sn_bookmarks sn) /\
    rsd_Highlights data = highlight_item <$> delta_query u lib from (sn_xmin sn) (sn_highlights sn).
Proof.
  intros Hs. unfold SyncReadingHandler. rewrite Hs. split.
  - intros fault bf cf. simpl. unfold GetSyncSequenceCeiling. destruct (fault 0%nat); [done|].
    destruct (max_of_ge (migrated_relations sn) "reading_progress" (seqs (sn_progress sn)))
      as (p & -> & _); [done|].
    assert (max_of (migrated_relations sn) "reading_bookmarks" = Err undefined_table) as -> by done.
    done.
  - set (from := Z.max since (pd_syncCursor dev)). cbv zeta. destruct (ceiling_ok sn) as (m & Hm & Mp & Mb & Mh).
    assert ((if since <? pd_syncCursor dev then pd_syncCursor dev else since) = from) as ->.
    { subst from. destruct (Z.ltb_spec since (pd_syncCursor dev)); lia. }
    destruct (read_deltas_ok u lib sn (if m <? from then m else from)) as (data & E & _ & HP & HB & HH).
    rewrite query_capped in HP by done. rewrite query_capped in HB by done.
    rewrite query_capped in HH by done. exists data. split; [|done].
    cbn [ss_ceiling ss_data postgres_sync_store]. rewrite Hm. unfold GetReadingSyncData.
    rewrite E. cbn [mbind res_bind mret res_ret]. rewrite empty_lengths. by destruct (_ && _).
Qed.

(** ** A device that polls *)

(** The row of a device its owner [u] may synchronise. *)
Definition pollable (u id : string) (r : device_row) : Prop :=
  exists d, scanDevice (Some (id, r)) = Ok d /\ pd_id d = id /\ pd_owner d = u /\ pd_revokedAt d = None /\
    pd_syncCursor d = dr_cursor r.

Lemma pollable_owner u id r d :
  pollable u id r -> scanDevice (Some (id, r)) = Ok d ->
  pd_id d = id /\ pd_owner d = u /\ pd_revokedAt d = None /\ pd_syncCursor d = dr_cursor r.
Proof. intros (d' & E & ?) Hd. rewrite E in Hd. by injection Hd as <-. Qed.

Lemma pollable_active u id r : pollable u id r -> active r = true.
Proof.
  intros (d & E & _ & _ & Hr & _). unfold scanDevice in E. destruct (dr_owner r); [|done].
  destruct (String.eqb _ _); [done|]. unfold RehydratePairedDevice, fails in E.
  repeat (destruct (_ : bool) in E; [done|]). injection E as <-. by apply bool_decide_eq_true.
Qed.

Lemma pollable_cursor u id r : pollable u id r -> 0 <= dr_cursor r.
Proof.
  intros (d & E & _). unfold scanDevice in E. destruct (dr_owner r); [|done].
  destruct (String.eqb _ _); [done|]. unfold RehydratePairedDevice, fails in E.
  destruct (Z.ltb_spec (dr_cursor r) 0) as [_|]; [|done]. by repeat (destruct (_ : bool) in E; [done|]).
Qed.

(** What the sync routes change of a row. *)
Definition polled (r r' : device_row) : Prop :=
  dr_owner r' = dr_owner r /\ dr_label r' = dr_label r /\ dr_class r' = dr_class r /\ dr_via r' = dr_via r /\
  dr_created_at r' = dr_created_at r /\ dr_revoked_at r' = dr_revoked_at r /\ dr_cursor r <= dr_cursor r'.

Lemma polled_pollable u id r r' : pollable u id r -> polled r r' -> pollable u id r'.
Proof.
  intros (d & E & Hi & Ho & Hr & Hc) (Eo & El & Ec & Ev & Et & Er & Hle). unfold pollable, scanDevice in *.
  rewrite Eo. destruct (dr_owner r) as [owner|]; [|done]. destruct (String.eqb owner ""); [done|].
  unfold RehydratePairedDevice, fails in *. rewrite El, Ec, Ev, Et, Er.
  destruct (blank id || blank owner); [done|]. destruct (_ || _); [done|].
  destruct (negb (class_valid _)); [done|]. destruct (negb (via_valid _)); [done|].
  destruct (Z.ltb_spec (dr_cursor r) 0); [done|]. injection E as <-. cbn in *.
  destruct (Z.ltb_spec (dr_cursor r') 0); [lia|]. eexists. split; [done|]. by cbn.
Qed.

Lemma update_one id p f db r :
  devices db !! id = Some r -> p id r = true ->
  exists count db', update_devices None p f db = (Ok count, db') /\ (count =? 0) = false /\ devices db' !! id = Some (f r).
Proof.
  intros Hr Hp. pose proof (update_where_lookup p f (devices db) id) as Hl. rewrite Hr in Hl.
  cbn [fmap option_fmap option_map] in Hl. rewrite Hp in Hl. unfold update_devices, exec. destruct (update_where p f (devices db)) as [count t] eqn:E.
  eexists _, _. split; [done|]. split; [|exact Hl]. unfold update_where in E. injection E as <- _. apply Z.eqb_neq.
  intros Hz. assert (size (filter (fun kr => p kr.1 kr.2 = true) (devices db)) = 0%nat) as Hs by lia.
  apply map_size_empty_inv in Hs.
  assert (filter (fun kr => p kr.1 kr.2 = true) (devices db) !! id = Some r) as Hin by by apply map_lookup_filter_Some.
  by rewrite Hs in Hin.
Qed.

Section poll.
Context (store : SyncStore) (u lib id : string) (clock : nat -> Time).

(** The device asks without a position of its own, so that the server takes
    the cursor it keeps for the device, until a delta is empty: each request
    goes through the middleware, which loads the device anew, and the handler;
    the statements on the device's row do not fail. *)
Fixpoint sync_poll (fuel n : nat) : stM pairing_db error (list ReadingSyncData) := fun db =>
  match fuel with
  | O => (OutOfFuel, db)
  | Datatypes.S fuel =>
      match SyncMiddleware (fun i => (FindDeviceByID None i db).1) None (Some u) id true (clock n) db with
      | (Refused e, db) => (Err e, db)
      | (Passed device, db) =>
          (data ← SyncReadingHandler store None None (Some u) lib device "" (clock n);
           if no_rows data then mret []
           else
             rest ← sync_poll fuel (Datatypes.S n);
             mret (data :: rest)) db
      end
  end.

Lemma middleware_passes now db r :
  TrimSpace id = id -> id <> "" -> devices db !! id = Some r -> pollable u id r ->
  exists d db' r', SyncMiddleware (fun i => (FindDeviceByID None i db).1) None (Some u) id true now db
                   = (Passed (Some d), db') /\
    pd_id d = id /\ pd_syncCursor d = dr_cursor r /\ devices db' !! id = Some r' /\ pollable u id r' /\
    dr_cursor r' = dr_cursor r.
Proof.
  intros Ht Hne Hr Hp. pose proof Hp as (d0 & E & _). destruct (pollable_owner _ _ _ _ Hp E) as (Hi & Ho & Hv & Hc).
  unfold SyncMiddleware. rewrite Ht. destruct (String.eqb_spec id ""); [done|].
  unfold FindDeviceByID, query_device, reading. cbn [fst]. rewrite Hr. cbn [fmap option_fmap option_map]. rewrite E.
  rewrite Ho, String.eqb_refl. cbn [negb]. rewrite Hv.
  set (d := (Touch now d0).2). assert (pd_id d = id /\ pd_syncCursor d = dr_cursor r) as [Hid Hcd].
  { subst d. unfold Touch. rewrite Hv. by destruct (After _ _). }
  destruct (_ || _).
  - destruct (update_one id (fun k r => String.eqb k (pd_id d0) && active r) (set_dr_seen now) db r)
      as (count & db' & Hu & Hz & Hr'); [done|by rewrite Hi, String.eqb_refl, (pollable_active u id r)|].
    unfold UpdateLastSeen, mbind at 1, stM_bind at 1. rewrite Hu, Hz. exists d, db', (set_dr_seen now r). split_and!; try done. eapply polled_pollable; [exact Hp|].
    by repeat split.
  - by exists d, db, r.
Qed.

Lemma advance_run c now db r :
  devices db !! id = Some r -> pollable u id r -> dr_cursor r < c ->
  exists r', devices (AdvanceDeviceCursor None None id c now db).2 !! id = Some r' /\ pollable u id r' /\ dr_cursor r' = c.
Proof.
  intros Hr Hp Hc. unfold AdvanceDeviceCursor.
  destruct (update_one id (fun k r => String.eqb k id && active r && (dr_cursor r <? c)) (set_dr_cursor c now) db r)
    as (count & db' & Hu & Hz & Hr'); [done| |].
  { rewrite String.eqb_refl, (pollable_active _ _ _ Hp). by apply Z.ltb_lt. }
  exists (set_dr_cursor c now r). unfold mbind, stM_bind. rewrite Hu, Hz. split; [exact Hr'|]. split; [|done].
  eapply polled_pollable; [exact Hp|]. repeat split. cbn. lia.
Qed.
End poll.

(** A pull from the device's own cursor, where the ceiling's tables exist: the
    delta beyond it, and the cursor moved to its end when it has rows. *)
Lemma pull_delta sn u lib d now db :
  0 <= pd_syncCursor d ->
  exists data,
    SyncReadingHandler (postgres_sync_store (fun _ => None) None None (queried_relations sn) sn)
      None None (Some u) lib (Some d) "" now db
    = (Ok data, if no_rows data then db
                else (AdvanceDeviceCursor None None (pd_id d) (rsd_Cursor data) now db).2) /\
    exists delta, read_deltas (fun _ => None) u lib (pd_syncCursor d) sn = Ok delta /\
      no_rows delta = no_rows data /\ (no_rows data = false -> delta = data /\ pd_syncCursor d < rsd_Cursor data).
Proof.
  intros Hd. destruct (ceiling_ok sn) as (m & Hm & Mp & Mb & Mh).
  set (cur := pd_syncCursor d) in *. set (since := if m <? cur then m else cur).
  destruct (read_deltas_ok u lib sn since) as (data & E & _ & HP & HB & HH).
  destruct (read_deltas_ok u lib sn cur) as (delta & Ed & Hc & DP & DB & DH).
  assert (no_rows data = false -> delta = data /\ cur < rsd_Cursor data) as Hrows.
  { intros Hn. destruct (cursor_after_cases u lib sn cur) as [[Hall _]|Hin].
    - exfalso. apply app_eq_nil in Hall as [E1 [E2 E3]%app_eq_nil]. apply fmap_nil_inv in E1, E2, E3.
      subst since. rewrite query_capped in HP by done. rewrite query_capped in HB by done. rewrite query_capped in HH by done. unfold no_rows in Hn. by rewrite HP, HB, HH, E1, E2, E3 in Hn.
    - pose proof (all_delivered_since _ _ _ _ _ Hin) as Hlt. assert (cursor_after u lib sn cur <= m) as Hle.
      { apply elem_of_app in Hin as [(r & Hr & Hx & _)%delivered_elem|[(r & Hr & Hx & _)%delivered_elem|(r & Hr & Hx & _)%delivered_elem]%elem_of_app];
          rewrite <- Hx; [apply Mp|apply Mb|apply Mh]; apply list_elem_of_fmap; eauto. }
      subst since. rewrite (proj2 (Z.ltb_ge m cur)) in E by lia. rewrite E in Ed. injection Ed as <-. split; [done|]. lia. }
  exists data. split.
  - unfold SyncReadingHandler. fold cur. change (parse_since "") with (Some 0). cbn iota.
    assert ((if 0 <? cur then cur else 0) = cur) as -> by (destruct (Z.ltb_spec 0 cur); lia).
    cbn [ss_ceiling ss_data postgres_sync_store]. rewrite Hm. fold since. unfold GetReadingSyncData. rewrite E.
    cbn [mbind res_bind mret res_ret]. rewrite empty_lengths. destruct (no_rows data) eqn:En; [done|].
    destruct (Hrows eq_refl) as [_ Hlt]. by rewrite (proj2 (Z.ltb_lt _ _)).
  - exists delta. split; [done|]. split; [|done]. subst since. rewrite query_capped in HP by done. rewrite query_capped in HB by done. rewrite query_capped in HH by done.
    unfold no_rows. by rewrite HP, HB, HH, DP, DB, DH.
Qed.

(** The requests of a polling device bring the deltas of the loop over the
    queries, from the device's own cursor. *)
Lemma sync_poll_deltas sn u lib id clock fuel n db r :
  TrimSpace id = id -> id <> "" -> devices db !! id = Some r -> pollable u id r ->
  exists db', sync_poll (postgres_sync_store (fun _ => None) None None (queried_relations sn) sn) u lib id clock fuel n db
    = (poll fuel u lib (dr_cursor r) sn, db').
Proof.
  intros Ht Hne. revert n db r. induction fuel as [|fuel IH]; intros n db r Hr Hp; [by eexists|]. cbn [sync_poll poll].
  destruct (middleware_passes u id (clock n) db r Ht Hne Hr Hp) as (d & db1 & r1 & -> & Hid & Hcd & Hr1 & Hp1 & Hc1).
  assert (0 <= pd_syncCursor d) as Hpos.
  { rewrite Hcd. by eapply pollable_cursor. }
  destruct (pull_delta sn u lib d (clock n) db1 Hpos) as (data & Hrun & delta & Hd & Hn & Hrows).
  unfold mbind at 1, stM_bind at 1. rewrite Hrun, <- Hcd, Hd. cbn [mbind res_bind]. rewrite Hn.
  destruct (no_rows data) eqn:En; [by eexists|]. destruct (Hrows eq_refl) as [-> Hlt]. rewrite Hid, Hcd in *.
  destruct (advance_run u id (rsd_Cursor data) (clock n) db1 r1) as (r2 & Hr2 & Hp2 & Hc2); [done|done|by rewrite Hc1|].
  destruct (IH (Datatypes.S n) _ _ Hr2 Hp2) as [db' Hpoll]. rewrite Hc2 in Hpoll. exists db'.
  unfold mbind, stM_bind. rewrite Hpoll. by destruct (poll fuel u lib (rsd_Cursor data) sn).
Qed.

(** C29: a device that keeps polling is brought up to date, on a database that
    has the tables the ceiling's query names, while nothing is written: it asks
    [GET /sync/reading] again and again, each request through the middleware
    and the handler from the cursor the server keeps for the device; whatever
    the rows and however many deltas of at most 500 rows of a table it takes,
    the loop ends and has delivered exactly the visible rows of its owner and
    library beyond that cursor.  On the database the migrations make, whose
    tables of bookmarks and highlights have other names, the first request is
    refused with an internal error and the device gets nothing. *)
Theorem poll_delivers_all sn u lib id clock fuel db r :
  TrimSpace id = id -> id <> "" -> devices db !! id = Some r -> pollable u id r ->
  snapshot_ok sn -> (remaining u lib sn (dr_cursor r) < fuel)%nat ->
  (forall fault begin_fault commit_fault,
     (sync_poll (postgres_sync_store fault begin_fault commit_fault (migrated_relations sn) sn) u lib id clock fuel 0 db).1
     = fails Internal "failed to check sync ceiling") /\
  exists ds db',
    sync_poll (postgres_sync_store (fun _ => None) None None (queried_relations sn) sn) u lib id clock fuel 0 db
    = (Ok ds, db') /\
    brings u lib (dr_cursor r) (sn_xmin sn) (sn_progress sn) progress_item (mjoin (rsd_Progress <$> ds)) /\
    brings u lib (dr_cursor r) (sn_xmin sn) (sn_bookmarks sn) bookmark_item (mjoin (rsd_Bookmarks <$> ds)) /\
    brings u lib (dr_cursor r) (sn_xmin sn) (sn_highlights sn) highlight_item (mjoin (rsd_Highlights <$> ds)).
Proof.
  intros Ht Hne Hr Hp Hok Hf. split.
  - intros fault bf cf. destruct fuel as [|fuel]; [lia|]. cbn [sync_poll].
    destruct (middleware_passes u id (clock 0%nat) db r Ht Hne Hr Hp) as (d & db1 & r1 & -> & _).
    unfold mbind, stM_bind.
    destruct (SyncReadingHandler_outcome sn None None u lib d "" 0 (clock 0%nat) db1 eq_refl) as [Hrefused _].
    by rewrite Hrefused.
  - destruct (sync_poll_deltas sn u lib id clock fuel 0 db r Ht Hne Hr Hp) as [db' ->].
    destruct (poll_deltas fuel u lib (dr_cursor r) sn Hok Hf) as (ds & -> & H). by exists ds, db'.
Qed.


(** ** POST /sync/progress *)

Lemma clamp_epoch_neutral r c : ReconcileProgress c (clamp_epoch r c) = ReconcileProgress c r.
Proof.
  unfold clamp_epoch, ReconcileProgress. destruct (Z.ltb_spec (rp_epoch c) (pr_ObservedEpoch r)); [|done].
  simpl. rewrite Z.ltb_irrefl. by rewrite (proj2 (Z.ltb_ge _ _)) by lia.
Qed.

Section sync_progress.
Context {S : Type} `{SyncTablesLaws S}.

(** The body is [ReportProgress]'s, followed by the cursor. *)
Lemma sync_body_eq newID dev report override now s :
  sync_progress_body newID dev report override now s =
  ('(p, out) ← reconcile_and_persist newID report override;
   c ← advance_over_echo dev (rp_id p) now;
   mret (p, out, c)) s.
Proof.
  unfold sync_progress_body, reconcile_and_persist, mbind, stM_bind.
  destruct (FindByWorkForUpdate _ s) as [cur|e|]; [|done..].
  rewrite clamp_epoch_neutral. by destruct override.
Qed.

Lemma advance_over_echo_ok dev id now s c s' :
  advance_over_echo dev id now s = (Ok c, s') ->
  progress_rows s' = progress_rows s /\
  (c = pd_syncCursor dev \/
   c = pd_syncCursor dev + 1 /\ ProgressSequence id s = Ok c /\
   AdvanceCursorInTx (pd_id dev) c now s = (Ok tt, s')).
Proof.
  unfold advance_over_echo.
  destruct (ProgressSequence id s) as [q|e|]; [|destruct (SequenceAborts id s); naive_solver..].
  destruct (Z.eqb_spec q (pd_syncCursor dev + 1)) as [->|]; [|naive_solver].
  destruct (AdvanceAborts _ _ _ s); [done|].
  pose proof (advance_keeps_progress (pd_id dev) (pd_syncCursor dev + 1) now s) as Hk.
  destruct (AdvanceCursorInTx _ _ _ s) as [[[]|e|] s1] eqn:Ea; simpl in Hk; intros E;
    injection E as <- <-; (split; [exact Hk|auto]).
Qed.

Lemma report_time_bounds t now : now - 30 * 24 * Hour <= report_time t now <= now + Minute.
Proof.
  unfold report_time, After, Before, Add, Hour, Minute, Second. destruct t as [t|]; [|lia].
  destruct (_ || _) eqn:E; [lia|]. bool_to_prop. lia.
Qed.

(** C30: a progress push is [ReportProgress] under the authenticated device.  An
    accepted push comes from a signed-in user's device, about a work of the
    active library, and names no other device; what it does to the progress
    rows, and what it answers, is what [ReportProgress] does with the report
    it makes, whose device is the authenticated one, whose time lies between
    thirty days ago and a minute ahead and whose epoch it need not clamp; the
    cursor it answers is the device's, or one more when the write has exactly
    that sequence number.  A push refused or failed changes nothing. *)
Theorem SyncProgressHandler_refines tx newID workInLibrary findEdition user lib device req now s out s' :
  SyncProgressHandler tx newID workInLibrary findEdition user lib device req now s = (out, s') ->
  match out with
  | Ok (p, o, c) =>
      exists uid dev input pos s1,
        user = Some uid /\ device = Some dev /\ req = Some input /\
        workInLibrary (in_WorkID input) lib = Ok true /\
        (in_DeviceID input = "" \/ in_DeviceID input = pd_id dev) /\
        let report := mkProgressReport (in_WorkID input) (in_Percentage input)
                        (in_ObservedEpoch input) pos (pd_id dev)
                        (report_time (in_ReportedAt input) now) in
        now - 30 * 24 * Hour <= pr_ReportedAt report <= now + Minute /\
        0 <= pr_ObservedEpoch report <= maxObservedEpoch /\
        ReportProgress tx newID report (in_Override input) s = (Ok (p, o), s1) /\
        progress_rows s' = progress_rows s1 /\
        (c = pd_syncCursor dev \/
         c = pd_syncCursor dev + 1 /\ ProgressSequence (rp_id p) s1 = Ok c /\
         AdvanceCursorInTx (pd_id dev) c now s1 = (Ok tt, s'))
  | _ => s' = s
  end.
Proof.
  unfold SyncProgressHandler.
  destruct user as [uid|]; [|by intros [= <- <-]]. destruct device as [dev|]; [|by intros [= <- <-]].
  destruct req as [input|]; [|by intros [= <- <-]].
  destruct (blank _); [by intros [= <- <-]|]. unfold mbind, stM_bind, reading.
  destruct (ValidatePercentage _) as [[]|e|] eqn:Hp; [|by intros [= <- <-]..].
  destruct (ValidateObservedEpoch _) as [[]|e|] eqn:He; [|by intros [= <- <-]..].
  destruct (position_of _) as [pos|e|]; [|by intros [= <- <-]..].
  destruct (workInLibrary _ _) as [[]|e|] eqn:Hw; [|by intros [= <- <-]..].
  destruct (CheckPrecisePositionWork _ _ _) as [[]|e|]; [|by intros [= <- <-]..].
  destruct (_ && _) eqn:Hd; [by intros [= <- <-]|].
  assert (NewPercentage (in_Percentage input) = Ok (in_Percentage input)) as ->.
  { unfold ValidatePercentage in Hp. unfold NewPercentage. by destruct (_ || _). }
  intros Hrun. destruct out as [[[p o] c]|e|]; [|by apply InTx_err in Hrun|by apply InTx_fuel in Hrun].
  unfold ValidateObservedEpoch in He. destruct (_ || _) eqn:Hr in He; [done|]. bool_to_prop.
  exists uid, dev, input, pos. unfold ReportProgress.
  unfold InTx in Hrun |- *. destruct (begin_error tx); [done|]. rewrite sync_body_eq in Hrun.
  unfold mbind, stM_bind in Hrun.
  destruct (reconcile_and_persist _ _ _ s) as [[[p' o']|e|] s1]; [|done..].
  destruct (advance_over_echo dev (rp_id p') now s1) as [[c'|e|] s2] eqn:Ha; [|done..].
  simpl in Hrun. destruct (commit_error tx); [done|]. injection Hrun as <- <- <- <-.
  apply advance_over_echo_ok in Ha as [Hrows Hc]. exists s1. cbn zeta. conjuncts; [|apply report_time_bounds..].
  apply andb_false_iff in Hd as [Hd|Hd]; apply negb_false_iff, String.eqb_eq in Hd; auto.
Qed.
End sync_progress.

(** ** The theorems at work *)

Definition demo_snapshot : snapshot :=
  mkSnapshot [demo_row "w1" 100 4; demo_row "w2" 101 2] [] [] 102.

Lemma demo_snapshot_ok : snapshot_ok demo_snapshot.
Proof.
  unfold snapshot_ok, unique_seq. simpl. conjuncts.
  - intros r1 r2 H1 H2. rewrite !elem_of_cons, !elem_of_nil in H1, H2. naive_solver.
  - by intros r1 r2 ?%elem_of_nil.
  - by intros r1 r2 ?%elem_of_nil.
Qed.

Definition demo_device_row : device_row :=
  mkDeviceRow (Some "ada") "Tablet" DeviceClassTablet EnrolledViaPairingCode 0 0 None None 0 None.

Lemma poll_delivers_all_witness :
  let db := mkPairingDb ∅ {["tablet" := demo_device_row]} ∅ ∅ in
  snapshot_ok demo_snapshot /\
  exists ds db', sync_poll (postgres_sync_store (fun _ => None) None None (queried_relations demo_snapshot) demo_snapshot)
      "ada" "home" "tablet" (fun _ => 7) 5 0 db = (Ok ds, db') /\
    progress_item (demo_row "w2" 101 2) ∈ mjoin (rsd_Progress <$> ds).
Proof.
  intros db. split; [exact demo_snapshot_ok|].
  destruct (poll_delivers_all demo_snapshot "ada" "home" "tablet" (fun _ => 7) 5 db demo_device_row)
    as (_ & ds & db' & E & H & _).
  - vm_compute. reflexivity.
  - discriminate.
  - reflexivity.
  - eexists. split; [vm_compute; reflexivity|]. repeat split.
  - exact demo_snapshot_ok.
  - vm_compute. lia.
  - exists ds, db'. split; [exact E|]. apply H. exists (demo_row "w2" 101 2).
    split; [right; left|]. split; reflexivity.
Defined.

Definition demo_dev : PairedDevice :=
  mkPairedDevice "tablet" "ada" "Tablet" DeviceClassTablet EnrolledViaPairingCode 0 0 None 3 None.

Lemma SyncReadingHandler_outcome_witness :
  parse_since "2" = Some 2 /\
  exists data db, SyncReadingHandler
    (postgres_sync_store (fun _ => None) None None (queried_relations demo_snapshot) demo_snapshot)
    None None (Some "ada") "home" (Some demo_dev) "2" 0 (mkPairingDb ∅ ∅ ∅ ∅) = (Ok data, db) /\
    rsd_Progress data = [progress_item (demo_row "w1" 100 4)].
Proof.
  split; [reflexivity|].
  destruct (SyncReadingHandler_outcome demo_snapshot None None "ada" "home" demo_dev "2" 2 0
              (mkPairingDb ∅ ∅ ∅ ∅) eq_refl) as [_ (data & E & HP & _)].
  exists data. eexists. split; [exact E|]. rewrite HP. reflexivity.
Defined.

(** The tables in memory: the rows, the sequence number of each, the counter
    and the device's cursor. *)
Record mem_tables := mkMemTables {
  mt_rows : gmap ReadingProgressID ReadingProgress;
  mt_sequences : gmap ReadingProgressID Z;
  mt_next : Z;
  mt_cursor : Z;
}.

#[export] Instance mem_tables_store : ProgressStore mem_tables := {
  progress_rows := mt_rows;
  FindByWorkForUpdate w s := FindByWorkForUpdate w (mt_rows s);
  SaveProgress p s :=
    m ← SaveProgress p (mt_rows s);
    mret (mkMemTables m (<[rp_id p := mt_next s]> (mt_sequences s)) (mt_next s + 1) (mt_cursor s));
}.

#[export] Instance mem_tables_sync : SyncTables mem_tables := {
  ProgressSequence id s :=
    match mt_sequences s !! id with
    | Some q => Ok q
    | None => fails NotFound "reading progress not found"
    end;
  AdvanceCursorInTx id c now s :=
    (Ok tt, mkMemTables (mt_rows s) (mt_sequences s) (mt_next s) c);
  SequenceAborts _ _ := false;
  AdvanceAborts _ _ _ _ := false;
}.

#[export] Instance mem_tables_laws : SyncTablesLaws mem_tables.
Proof. by split. Qed.

Definition demo_push : SyncProgressInput :=
  mkSyncProgressInput "w9" f64_one 0 false None "" (Some Second).

Lemma SyncProgressHandler_refines_witness :
  exists p s', SyncProgressHandler tx_ok "p9" (fun _ _ => Ok true)
    (fun _ => fails NotFound "edition not found") (Some "ada") "home" (Some demo_dev)
    (Some demo_push) 0 (mkMemTables ∅ ∅ 4 3) = (Ok (p, ReconcileAdvanced, 4), s') /\
    rp_dev p = "tablet" /\ -30 * 24 * Hour <= Second <= Minute.
Proof.
  destruct (SyncProgressHandler tx_ok "p9" (fun _ _ => Ok true)
    (fun _ => fails NotFound "edition not found") (Some "ada") "home" (Some demo_dev)
    (Some demo_push) 0 (mkMemTables ∅ ∅ 4 3)) as [out s'] eqn:E.
  pose proof (SyncProgressHandler_refines _ _ _ _ _ _ _ _ _ _ _ _ E) as Hr.
  vm_compute in E. injection E as <- <-.
  destruct Hr as (uid & dev & input & pos & s1 & _ & _ & [= <-] & _ & _ & Ht & _).
  eexists. eexists. split; [reflexivity|]. split; [reflexivity|]. exact Ht.
Defined.
