(* ===== verification/Identity.v ===== *)
(** * Identities and libraries (src/internal/domain/auth.go,
      library_aggregate.go, network_settings.go)

    Users, their credentials, sessions, second factors and reset tokens;
    libraries, memberships and invitations: each type with its constructors
    and methods. *)

From S2P Require Import Prelude GoStrings Regex Errors Validate Catalog Pairing.

Local Open Scope string_scope.
Local Open Scope list_scope.
Local Open Scope Z_scope.

(** ** Roles *)

Abbreviation Role := string (only parsing).
Definition RoleAdmin : Role := "admin".
Definition RoleReader : Role := "reader".

Definition ParseRole (s : string) : Result Role :=
  if String.eqb s RoleAdmin then Ok RoleAdmin
  else if String.eqb s RoleReader then Ok RoleReader
  else fails InvalidInput ("invalid role: " +:+ s).

Definition role_valid (r : Role) : bool := String.eqb r RoleAdmin || String.eqb r RoleReader.

(** [^[a-zA-Z0-9_-]{3,50}$] *)
Definition validUsernameRegex : re :=
  RRange 3 47 (RClass [lower_letters; upper_letters; digits; (95, 95); (45, 45)]).

(** [^[a-zA-Z0-9.!#$%&'*+/=?^_`{|}~-]+@label(\.label)+$], a label being a
    letter or digit, or up to 63 letters, digits and inner hyphens. *)
Definition email_alnum : re := RClass [lower_letters; upper_letters; digits].
Definition email_label : re :=
  RCat email_alnum
    (ROpt (RCat (RRange 0 61 (RClass [lower_letters; upper_letters; digits; (45, 45)]))
             email_alnum)).
Definition email_local : re :=
  RClass [lower_letters; upper_letters; digits; (46, 46); (33, 33); (35, 35); (36, 36); (37, 37);
          (38, 38); (39, 39); (42, 42); (43, 43); (47, 47); (61, 61); (63, 63); (94, 94); (95, 95);
          (96, 96); (123, 126); (45, 45)].
Definition validEmailRegex : re :=
  RCat (RPlus email_local) (RCat (RChar 64)
    (RCat email_label (RPlus (RCat (RChar 46) email_label)))).

(** ** Users *)

Record User := mkUser {
  u_id : UserID;
  u_username : string;
  u_email : string;
  u_role : Role;
  u_createdAt : Time;
  u_updatedAt : Time;
}.

Section users.
Context `{CaseTables}.

Definition email_valid (email : string) : bool :=
  negb (255 <? len email) && MatchString validEmailRegex email.

Definition NewUser (id : UserID) (username email : string) (role : Role) (createdAt updatedAt : Time)
    : Result User :=
  if blank id then fails InvalidInput "user ID cannot be empty"
  else
    let username := TrimSpace username in
    if negb (MatchString validUsernameRegex username) then
      fails InvalidInput "username must be 3-50 alphanumeric characters or - _"
    else
      let email := TrimSpace (ToLower email) in
      if negb (email_valid email) then fails InvalidInput "invalid email address format"
      else if negb (role_valid role) then fails InvalidInput "invalid user role"
      else Ok (mkUser id username email role createdAt updatedAt).
End users.

Definition SetRole (r : Role) (now : Time) : stM User error unit := fun u =>
  if negb (role_valid r) then (fails InvalidInput "invalid user role", u)
  else (Ok tt, mkUser (u_id u) (u_username u) (u_email u) r (u_createdAt u) now).

Record UserCredentials := mkUserCredentials {
  uc_userID : UserID;
  uc_passwordHash : string;
  uc_updatedAt : Time;
}.

Definition NewUserCredentials (userID : UserID) (passwordHash : string) (updatedAt : Time)
    : Result UserCredentials :=
  if blank userID then fails InvalidInput "user ID cannot be empty"
  else if blank passwordHash then fails InvalidInput "password hash cannot be empty"
  else Ok (mkUserCredentials userID passwordHash updatedAt).

(** ** Sessions *)

Record RefreshToken := mkRefreshToken {
  rt_id : string;
  rt_userID : UserID;
  rt_tokenHash : string;
  rt_expiresAt : Time;
  rt_revokedAt : option Time;
  rt_createdAt : Time;
}.

Definition NewRefreshToken (id : string) (userID : UserID) (tokenHash : string)
    (expiresAt createdAt : Time) : Result RefreshToken :=
  if blank id then fails InvalidInput "refresh token ID cannot be empty"
  else if blank userID then fails InvalidInput "user ID cannot be empty"
  else if blank tokenHash then fails InvalidInput "token hash cannot be empty"
  else Ok (mkRefreshToken id userID tokenHash expiresAt None createdAt).

Definition RehydrateRefreshToken := mkRefreshToken.

Definition IsActive (now : Time) (r : RefreshToken) : bool :=
  bool_decide (rt_revokedAt r = None) && Before now (rt_expiresAt r).

Definition RevokeToken (now : Time) (r : RefreshToken) : RefreshToken :=
  mkRefreshToken (rt_id r) (rt_userID r) (rt_tokenHash r) (rt_expiresAt r) (Some now)
    (rt_createdAt r).

(** ** The second factor *)

Record TOTPSettings := mkTOTPSettings {
  ts_userID : UserID;
  ts_encryptedSecret : string;
  ts_recoveryCodeHashes : list string;
  ts_enabled : bool;
  ts_confirmedAt : option Time;
  ts_createdAt : Time;
}.

Definition NewTOTPSettings (userID : UserID) (encryptedSecret : string)
    (recoveryCodeHashes : list string) (enabled : bool) (confirmedAt : option Time)
    (createdAt : Time) : Result TOTPSettings :=
  if blank userID then fails InvalidInput "user ID cannot be empty"
  else if len encryptedSecret =? 0 then fails InvalidInput "encrypted secret cannot be empty"
  else Ok (mkTOTPSettings userID encryptedSecret recoveryCodeHashes enabled confirmedAt createdAt).

Definition Confirm (now : Time) (t : TOTPSettings) : TOTPSettings :=
  mkTOTPSettings (ts_userID t) (ts_encryptedSecret t) (ts_recoveryCodeHashes t) true (Some now)
    (ts_createdAt t).

Definition Disable (t : TOTPSettings) : TOTPSettings :=
  mkTOTPSettings (ts_userID t) (ts_encryptedSecret t) (ts_recoveryCodeHashes t) false None
    (ts_createdAt t).

(** ** Password resets *)

Record PasswordResetToken := mkPasswordResetToken {
  pr_id : string;
  pr_userID : UserID;
  pr_tokenHash : string;
  pr_expiresAt : Time;
  pr_usedAt : option Time;
  pr_createdAt : Time;
}.

Definition NewPasswordResetToken (id : string) (userID : UserID) (tokenHash : string)
    (expiresAt createdAt : Time) : Result PasswordResetToken :=
  if blank id then fails InvalidInput "password reset token ID cannot be empty"
  else if blank userID then fails InvalidInput "user ID cannot be empty"
  else if blank tokenHash then fails InvalidInput "token hash cannot be empty"
  else Ok (mkPasswordResetToken id userID tokenHash expiresAt None createdAt).

Definition RehydratePasswordResetToken := mkPasswordResetToken.

Definition reset_valid (now : Time) (p : PasswordResetToken) : bool :=
  bool_decide (pr_usedAt p = None) && Before now (pr_expiresAt p).

Definition mark_reset_used (now : Time) (p : PasswordResetToken) : PasswordResetToken :=
  mkPasswordResetToken (pr_id p) (pr_userID p) (pr_tokenHash p) (pr_expiresAt p) (Some now)
    (pr_createdAt p).

(** ** Libraries (library_aggregate.go) *)

Definition DefaultLibraryID : LibraryID := "00000000-0000-0000-0000-000000000001".

Record Library := mkLibrary {
  l_id : LibraryID;
  l_name : string;
  l_description : string;
  l_allowReaderUploads : bool;
  l_createdAt : Time;
  l_updatedAt : Time;
}.

Definition NewLibrary (id : LibraryID) (name description : string) (allowReaderUploads : bool)
    (createdAt updatedAt : Time) : Result Library :=
  if blank id then fails InvalidInput "library ID cannot be empty"
  else
    let name := TrimSpace name in
    if String.eqb name "" || (100 <? len name) then
      fails InvalidInput "library name must be between 1 and 100 characters"
    else if 2000 <? len description then
      fails InvalidInput "library description cannot exceed 2000 characters"
    else Ok (mkLibrary id name description allowReaderUploads createdAt updatedAt).

Definition Rename (newName : string) (now : Time) : stM Library error unit := fun l =>
  let newName := TrimSpace newName in
  if String.eqb newName "" || (100 <? len newName) then
    (fails InvalidInput "library name must be between 1 and 100 characters", l)
  else (Ok tt, mkLibrary (l_id l) newName (l_description l) (l_allowReaderUploads l) (l_createdAt l) now).

Definition SetDescription (desc : string) (now : Time) : stM Library error unit := fun l =>
  if 2000 <? len desc then
    (fails InvalidInput "library description cannot exceed 2000 characters", l)
  else (Ok tt, mkLibrary (l_id l) (l_name l) desc (l_allowReaderUploads l) (l_createdAt l) now).

Definition SetAllowReaderUploads (allow : bool) (now : Time) (l : Library) : Library :=
  mkLibrary (l_id l) (l_name l) (l_description l) allow (l_createdAt l) now.

Record LibraryMembership := mkLibraryMembership {
  lm_id : string;
  lm_libraryID : LibraryID;
  lm_userID : UserID;
  lm_role : Role;
  lm_createdAt : Time;
}.

Definition NewLibraryMembership (id : string) (libraryID : LibraryID) (userID : UserID) (role : Role)
    (createdAt : Time) : Result LibraryMembership :=
  if blank id then fails InvalidInput "membership ID cannot be empty"
  else if blank libraryID then fails InvalidInput "library ID cannot be empty"
  else if blank userID then fails InvalidInput "user ID cannot be empty"
  else if negb (role_valid role) then fails InvalidInput "invalid membership role"
  else Ok (mkLibraryMembership id libraryID userID role createdAt).

Definition set_member_role (r : Role) : stM LibraryMembership error unit := fun m =>
  if negb (role_valid r) then (fails InvalidInput "invalid membership role", m)
  else (Ok tt, mkLibraryMembership (lm_id m) (lm_libraryID m) (lm_userID m) r (lm_createdAt m)).

Record LibraryInvitation := mkLibraryInvitation {
  li_id : string;
  li_libraryID : LibraryID;
  li_email : string;
  li_role : Role;
  li_tokenHash : string;
  li_createdBy : UserID;
  li_expiresAt : Time;
  li_usedAt : option Time;
  li_createdAt : Time;
}.

Definition NewLibraryInvitation `{CaseTables} (id : string) (libraryID : LibraryID) (email : string)
    (role : Role) (tokenHash : string) (createdBy : UserID) (expiresAt createdAt : Time)
    : Result LibraryInvitation :=
  if blank id then fails InvalidInput "invitation ID cannot be empty"
  else if blank libraryID then fails InvalidInput "library ID cannot be empty"
  else
    let email := TrimSpace (ToLower email) in
    if negb (email_valid email) then fails InvalidInput "invalid email format"
    else if negb (role_valid role) then fails InvalidInput "invalid invitation role"
    else if blank tokenHash then fails InvalidInput "token hash cannot be empty"
    else if blank createdBy then fails InvalidInput "created by user ID cannot be empty"
    else Ok (mkLibraryInvitation id libraryID email role tokenHash createdBy expiresAt None createdAt).

Definition RehydrateLibraryInvitation := mkLibraryInvitation.

Definition invitation_valid (now : Time) (i : LibraryInvitation) : bool :=
  bool_decide (li_usedAt i = None) && Before now (li_expiresAt i).

Definition mark_invitation_used (now : Time) (i : LibraryInvitation) : LibraryInvitation :=
  mkLibraryInvitation (li_id i) (li_libraryID i) (li_email i) (li_role i) (li_tokenHash i)
    (li_createdBy i) (li_expiresAt i) (Some now) (li_createdAt i).

(** [NetworkSettings] (network_settings.go). *)
Record NetworkSettings := mkNetworkSettings {
  ns_HostName : string;
  ns_RememberDeviceDays : Z;
  ns_UpdatedAt : Time;
}.

Example NewUser_ok :
  NewUser (H:=ascii_tables) "u1" " ada_l " " Ada@Example.ORG " RoleReader 0 0
  = Ok (mkUser "u1" "ada_l" "ada@example.org" RoleReader 0 0).
Proof. vm_compute. reflexivity. Qed.
Example NewUser_bad_email :
  is_ok (NewUser (H:=ascii_tables) "u1" "ada" "ada@-example.org" RoleReader 0 0) = false.
Proof. vm_compute. reflexivity. Qed.
