(* ===== verification/Encoding.v ===== *)
(** * Text encodings the token code uses: hex, base64url, splitting

    [encoding/hex], [encoding/base64].RawURLEncoding and [strings.Split], as
    the Go standard library has them, with the round trips the tokens need. *)

From S2P Require Import Prelude GoStrings.

Local Open Scope string_scope.
Local Open Scope list_scope.
Local Open Scope Z_scope.

(** The string of a list of bytes. *)
Definition string_of (l : list Z) : string :=
  fold_right (fun b s => String (ascii_of_Z b) s) "" l.

Definition is_byte (b : Z) : Prop := 0 <= b < 256.

Lemma bytes_string_of l : Forall is_byte l -> bytes (string_of l) = l.
Proof. induction 1 as [|b l Hb _ IH]; simpl; [done|]. by rewrite byte_ascii_of_Z, IH. Qed.

Lemma string_of_bytes s : string_of (bytes s) = s.
Proof.
  apply bytes_inj. apply bytes_string_of. induction s as [|c s IH]; constructor; [apply byte_range|done].
Qed.

Lemma bytes_are_bytes s : Forall is_byte (bytes s).
Proof. induction s as [|c s IH]; constructor; [apply byte_range|done]. Qed.

(** ** Hexadecimal *)

Definition hex_digit (d : Z) : Z := if d <? 10 then 48 + d else 87 + d.
Definition hex_EncodeToString (b : string) : string :=
  string_of (flat_map (fun x => [hex_digit (x / 16); hex_digit (x mod 16)]) (bytes b)).

(** ** Base64, URL alphabet, no padding *)

Definition b64_char (v : Z) : Z :=
  if v <? 26 then 65 + v
  else if v <? 52 then 71 + v
  else if v <? 62 then v - 4
  else if v =? 62 then 45 else 95.

Definition b64_value (c : Z) : option Z :=
  if between 65 c 90 then Some (c - 65)
  else if between 97 c 122 then Some (c - 71)
  else if between 48 c 57 then Some (c + 4)
  else if c =? 45 then Some 62
  else if c =? 95 then Some 63
  else None.

Fixpoint b64_encode (l : list Z) : list Z :=
  match l with
  | a :: b :: c :: l' =>
      b64_char (a / 4) :: b64_char (a mod 4 * 16 + b / 16) :: b64_char (b mod 16 * 4 + c / 64)
      :: b64_char (c mod 64) :: b64_encode l'
  | [a; b] => [b64_char (a / 4); b64_char (a mod 4 * 16 + b / 16); b64_char (b mod 16 * 4)]
  | [a] => [b64_char (a / 4); b64_char (a mod 4 * 16)]
  | [] => []
  end.

(** The values of the characters, four at a time; a last group of one is
    corrupt, and the unused low bits of a shorter last group are dropped. *)
Fixpoint b64_join (l : list Z) : option (list Z) :=
  match l with
  | a :: b :: c :: d :: l' =>
      rest ← b64_join l';
      Some ((a * 4 + b / 16) :: (b mod 16 * 16 + c / 4) :: (c mod 4 * 64 + d) :: rest)
  | [a; b; c] => Some [a * 4 + b / 16; b mod 16 * 16 + c / 4]
  | [a; b] => Some [a * 4 + b / 16]
  | [_] => None
  | [] => Some []
  end.

(** Line breaks are skipped. *)
Definition b64_decode (l : list Z) : option (list Z) :=
  vs ← mapM b64_value (List.filter (fun c => negb ((c =? 10) || (c =? 13))) l);
  b64_join vs.

Definition RawURLEncode (s : string) : string := string_of (b64_encode (bytes s)).
Definition RawURLDecode (s : string) : option string := string_of <$> b64_decode (bytes s).

Definition b64_alphabet (c : Z) : bool :=
  between 65 c 90 || between 97 c 122 || between 48 c 57 || (c =? 45) || (c =? 95).

Lemma b64_char_spec v : 0 <= v < 64 ->
  b64_alphabet (b64_char v) = true /\ b64_value (b64_char v) = Some v.
Proof.
  intros Hv. assert (forallb (fun n => b64_alphabet (b64_char (Z.of_nat n)) &&
    bool_decide (b64_value (b64_char (Z.of_nat n)) = Some (Z.of_nat n))) (seq 0 64) = true) as H
    by (vm_compute; reflexivity).
  rewrite forallb_forall in H. specialize (H (Z.to_nat v)). rewrite Z2Nat.id in H by lia.
  assert (In (Z.to_nat v) (seq 0 64)) as Hin by (apply in_seq; lia).
  apply H, andb_true_iff in Hin as [? ?%bool_decide_eq_true]. done.
Qed.

(** The values a list of bytes is encoded to. *)
Fixpoint b64_values (l : list Z) : list Z :=
  match l with
  | a :: b :: c :: l' =>
      (a / 4) :: (a mod 4 * 16 + b / 16) :: (b mod 16 * 4 + c / 64) :: (c mod 64) :: b64_values l'
  | [a; b] => [a / 4; a mod 4 * 16 + b / 16; b mod 16 * 4]
  | [a] => [a / 4; a mod 4 * 16]
  | [] => []
  end.

(** Induction three bytes at a time. *)
Lemma list_ind3 (P : list Z -> Prop) :
  P [] -> (forall a, P [a]) -> (forall a b, P [a; b]) ->
  (forall a b c l, P l -> P (a :: b :: c :: l)) -> forall l, P l.
Proof.
  intros H0 H1 H2 H3 l. assert (P l /\ (forall a, P (a :: l)) /\ (forall a b, P (a :: b :: l))) as [? _]; [|done].
  induction l as [|x l (IH1 & IH2 & IH3)]; [auto|]. split; [auto|]. split; [auto|]. intros a b. by apply H3.
Qed.

Lemma b64_encode_values l : b64_encode l = b64_char <$> b64_values l.
Proof. induction l using list_ind3; simpl; try done. by rewrite IHl. Qed.

Ltac byte_cases :=
  repeat match goal with H : Forall is_byte (_ :: _) |- _ => apply Forall_cons in H as [? H] end;
  unfold is_byte in *.

Lemma b64_values_range l : Forall is_byte l -> Forall (fun v => 0 <= v < 64) (b64_values l).
Proof.
  induction l using list_ind3; intros Hl; byte_cases; simpl; repeat constructor; try zmod_lia.
  all: by apply IHl.
Qed.

Lemma b64_join_values l : Forall is_byte l -> b64_join (b64_values l) = Some l.
Proof.
  induction l as [|a|a b|a b c l IH] using list_ind3; intros Hl; byte_cases; simpl; [done|..].
  - do 2 f_equal. zmod_lia.
  - do 2 f_equal; [zmod_lia|]. f_equal. zmod_lia.
  - rewrite IH by done. simpl. do 2 f_equal; [zmod_lia|]. f_equal; [zmod_lia|]. f_equal. zmod_lia.
Qed.

Lemma mapM_cons {A B} (f : A -> option B) x l :
  mapM f (x :: l) = (y ← f x; k ← mapM f l; Some (y :: k)).
Proof. reflexivity. Qed.

Lemma filter_cons_eq {A} (f : A -> bool) x l :
  List.filter f (x :: l) = if f x then x :: List.filter f l else List.filter f l.
Proof. reflexivity. Qed.

Lemma b64_values_back vs : Forall (fun v => 0 <= v < 64) vs ->
  mapM b64_value (List.filter (fun c => negb ((c =? 10) || (c =? 13))) (b64_char <$> vs)) = Some vs.
Proof.
  induction 1 as [|v vs Hv _ IH]; [done|]. destruct (b64_char_spec v Hv) as [Ha Hd].
  assert (negb ((b64_char v =? 10) || (b64_char v =? 13)) = true) as E.
  { unfold b64_alphabet, between in Ha. apply negb_true_iff, orb_false_iff.
    rewrite !Z.eqb_neq. split; intros E; rewrite E in Ha; done. }
  by rewrite fmap_cons, filter_cons_eq, E, mapM_cons, Hd, IH.
Qed.

Lemma b64_roundtrip l : Forall is_byte l -> b64_decode (b64_encode l) = Some l.
Proof.
  intros Hl. unfold b64_decode. rewrite b64_encode_values, b64_values_back by by apply b64_values_range.
  by apply b64_join_values.
Qed.

Lemma b64_encode_alphabet l : Forall is_byte l -> Forall (fun c => b64_alphabet c = true) (b64_encode l).
Proof.
  intros Hl. rewrite b64_encode_values. apply Forall_fmap.
  eapply Forall_impl; [by apply b64_values_range|]. intros v Hv. by apply b64_char_spec.
Qed.

Lemma b64_alphabet_byte c : b64_alphabet c = true -> is_byte c.
Proof.
  unfold b64_alphabet, between, is_byte. rewrite !orb_true_iff, !andb_true_iff, !Z.leb_le, !Z.eqb_eq. lia.
Qed.

Lemma RawURL_roundtrip s : RawURLDecode (RawURLEncode s) = Some s.
Proof.
  unfold RawURLDecode, RawURLEncode. rewrite bytes_string_of.
  - rewrite b64_roundtrip by apply bytes_are_bytes. simpl. by rewrite string_of_bytes.
  - eapply Forall_impl; [apply b64_encode_alphabet, bytes_are_bytes|]. apply b64_alphabet_byte.
Qed.

(** ** [strings.Split] at a one-byte separator *)

Fixpoint Split (c : ascii) (s : string) : list string :=
  match s with
  | "" => [""]
  | String d s' =>
      match Split c s' with
      | [] => [""]
      | h :: t => if Ascii.eqb d c then "" :: h :: t else String d h :: t
      end
  end.

Lemma Split_none c s : contains_char c s = false -> Split c s = [s].
Proof.
  induction s as [|d s IH]; simpl; [done|]. intros [Hd Hs]%orb_false_iff. by rewrite IH, Hd.
Qed.

Lemma Split_cons c s : exists h t, Split c s = h :: t.
Proof.
  induction s as [|d s (h & t & IH)]; simpl; [eauto|]. rewrite IH. destruct (Ascii.eqb d c); eauto.
Qed.

Lemma Split_app c a s : contains_char c a = false -> Split c (a +:+ String c s) = a :: Split c s.
Proof.
  induction a as [|d a IH].
  - intros _. rewrite str_app_nil_l. simpl. rewrite Ascii.eqb_refl.
    destruct (Split_cons c s) as (h & t & ->). done.
  - cbn [contains_char]. intros [Hd Ha]%orb_false_iff. rewrite str_app_cons. cbn [Split].
    by rewrite IH, Hd.
Qed.

Lemma RawURLEncode_no_dot s : contains_char "." (RawURLEncode s) = false.
Proof.
  unfold RawURLEncode. pose proof (b64_encode_alphabet _ (bytes_are_bytes s)) as H.
  induction H as [|c l Hc _ IH]; [done|]. simpl. rewrite IH, orb_false_r.
  apply Ascii.eqb_neq. intros E. apply (f_equal byte) in E.
  rewrite byte_ascii_of_Z in E by by apply b64_alphabet_byte. by rewrite E in Hc.
Qed.

Example RawURLEncode_ex : RawURLEncode "light w" = "bGlnaHQgdw".
Proof. vm_compute. reflexivity. Qed.
Example hex_ex : hex_EncodeToString "Az" = "417a".
Proof. vm_compute. reflexivity. Qed.
