(* ===== verification/Paths.v ===== *)
(** * Slash-separated paths ([path], and [path/filepath] on a Unix system)

    [Clean], [Join], [Dir], [Base] and [Ext] as the Go standard library has
    them: the lexical processing of the elements between slashes. *)

From S2P Require Import Prelude GoStrings Encoding.

Local Open Scope string_scope.
Local Open Scope list_scope.

Definition join_with_slashes (l : list string) : string := String.concat "/" l.

(** The elements kept so far, the last one first.  Beyond the root there is
    nothing; above a relative path there is. *)
Definition clean_element (rooted : bool) (kept : list string) (e : string) : list string :=
  if String.eqb e "" || String.eqb e "." then kept
  else if String.eqb e ".." then
    match kept with
    | [] => if rooted then [] else [".."]
    | k :: kept' => if String.eqb k ".." then ".." :: kept else kept'
    end
  else e :: kept.
Definition clean_elements (rooted : bool) (l : list string) : list string :=
  rev (fold_left (clean_element rooted) l []).

Definition is_rooted (p : string) : bool := HasPrefix p "/".

Definition path_Clean (p : string) : string :=
  if String.eqb p "" then "."
  else
    let body := join_with_slashes (clean_elements (is_rooted p) (Split "/" p)) in
    if is_rooted p then "/" +:+ body else if String.eqb body "" then "." else body.

(** [path.Join]: empty elements are left out. *)
Definition path_Join (l : list string) : string :=
  match List.filter (fun e => negb (String.eqb e "")) l with
  | [] => ""
  | l => path_Clean (join_with_slashes l)
  end.

(** The bytes after the last slash, and those up to it. *)
Fixpoint after_slash (l acc : list ascii) : list ascii :=
  match l with
  | [] => acc
  | c :: l' => if Ascii.eqb c "/" then acc else after_slash l' (c :: acc)
  end.
Definition last_element (p : string) : string :=
  String.string_of_list_ascii (after_slash (rev (String.list_ascii_of_string p)) []).
Definition up_to_slash (p : string) : string :=
  String.substring 0 (String.length p - String.length (last_element p)) p.

Definition path_Dir (p : string) : string := path_Clean (up_to_slash p).

Definition trim_slashes (p : string) : string :=
  String.string_of_list_ascii
    (drop_while_end (fun c => Ascii.eqb c "/") (String.list_ascii_of_string p)).
Definition path_Base (p : string) : string :=
  if String.eqb p "" then "."
  else
    let b := last_element (trim_slashes p) in
    if String.eqb b "" then "/" else b.

(** The suffix of a string that starts at the last dot after the last slash,
    if there is one. *)
Fixpoint ext_from (l : list ascii) (acc : list ascii) : string :=
  match l with
  | [] => ""
  | c :: l' =>
      if Ascii.eqb c "/" then ""
      else if Ascii.eqb c "." then String.string_of_list_ascii (c :: acc)
      else ext_from l' (c :: acc)
  end.
Definition Ext (path : string) : string := ext_from (rev (String.list_ascii_of_string path)) [].

Example path_examples :
  path_Clean "a//b/./c/../d" = "a/b/d" /\ path_Clean "/../a/" = "/a" /\ path_Clean "../../a" = "../../a" /\
  path_Clean "a/.." = "." /\ path_Join ["OEBPS"; "../img/c.jpg"] = "img/c.jpg" /\ path_Dir "a/b" = "a" /\
  path_Dir "b" = "." /\ path_Dir "/b" = "/" /\ path_Base "a/b/" = "b" /\ path_Base "///" = "/" /\ Ext "a.b/c.TXT" = ".TXT".
Proof. by vm_compute. Qed.
