(* ===== verification/Patterns.v ===== *)
(** * Searching with regular expressions (regexp)

    The patterns of [Regex] are anchored at both ends.  Those that search in a
    text, capture groups and replace are run here the way [regexp] runs them:
    of the matches at the first position that has one, the one a backtracking
    matcher finds first.  Repetition is of a set of characters, which is all
    the code uses. *)

From S2P Require Import Prelude GoStrings.

Local Open Scope string_scope.
Local Open Scope list_scope.
Local Open Scope Z_scope.

Abbreviation chunk := (Z * string)%type (only parsing).

(** A set of runes: the ranges, or all others. *)
Inductive rset := In (ranges : list (Z * Z)) | Out (ranges : list (Z * Z)).
Definition in_ranges (ranges : list (Z * Z)) (r : Z) : bool := existsb (fun '(lo, hi) => between lo r hi) ranges.
Definition in_set (f : rset) (r : Z) : bool :=
  match f with In ranges => in_ranges ranges r | Out ranges => negb (in_ranges ranges r) end.

Inductive pat :=
| PEps
| PSet (f : rset)
| PSeq (p q : pat)
| PAlt (p q : pat)
| PStar (greedy : bool) (f : rset)
| PGroup (n : nat) (p : pat)
| PWordBoundary.

(** A position: the rune before it, the text after it, and the groups. *)
Record pos := mkPos { before : option Z; rest : list chunk; groups : list (nat * list chunk) }.

Definition is_word (r : option Z) : bool :=
  match r with
  | Some r => between 48 r 57 || between 65 r 90 || (r =? 95) || between 97 r 122
  | None => false
  end.

Definition step_over (c : chunk) (s : pos) (rest' : list chunk) : pos := mkPos (Some c.1) rest' (groups s).
Definition capture (n : nat) (s s' : pos) : pos :=
  mkPos (before s') (rest s') ((n, take (length (rest s) - length (rest s')) (rest s)) :: groups s').

Section run.
Context {R : Type}.

(** The repetitions of a set from a position on, in order of preference. *)
Fixpoint run_star (greedy : bool) (f : rset) (text : list chunk) (s : pos) (k : pos -> option R) : option R :=
  let more := match text with
              | c :: text' => if in_set f c.1 then run_star greedy f text' (step_over c s text') k else None
              | [] => None
              end in
  if greedy then match more with Some r => Some r | None => k s end
  else match k s with Some r => Some r | None => more end.

Fixpoint run (p : pat) (s : pos) (k : pos -> option R) : option R :=
  match p with
  | PEps => k s
  | PSet f =>
      match rest s with
      | c :: text => if in_set f c.1 then k (step_over c s text) else None
      | [] => None
      end
  | PSeq p q => run p s (fun s => run q s k)
  | PAlt p q => match run p s k with Some r => Some r | None => run q s k end
  | PStar greedy f => run_star greedy f (rest s) s k
  | PGroup n p => run p s (fun s' => k (capture n s s'))
  | PWordBoundary =>
      if xorb (is_word (before s)) (is_word (fst <$> head (rest s))) then k s else None
  end.
End run.

Definition match_at (p : pat) (b : option Z) (text : list chunk) : option pos := run p (mkPos b text []) Some.

(** The leftmost match: what comes before it, and the position after it. *)
Fixpoint find_from (p : pat) (b : option Z) (text : list chunk) : option (list chunk * pos) :=
  match match_at p b text with
  | Some s => Some ([], s)
  | None =>
      match text with
      | [] => None
      | c :: text' => '(skipped, s) ← find_from p (Some c.1) text'; Some (c :: skipped, s)
      end
  end.

(** [FindIndex]: where a match begins and ends, in bytes. *)
Definition FindIndex (p : pat) (s : string) : option (nat * nat) :=
  '(skipped, e) ← find_from p None (chunks s);
  let b := String.length (cat skipped) in
  Some (b, (String.length s - String.length (cat (rest e)))%nat).

Definition Match (p : pat) (s : string) : bool := match find_from p None (chunks s) with Some _ => true | None => false end.

Definition group (n : nat) (s : pos) : string :=
  match List.find (fun g => Nat.eqb g.1 n) (groups s) with Some g => cat g.2 | None => "" end.
(** [FindSubmatch]: the text of a group, empty when it takes no part. *)
Definition Submatch (p : pat) (n : nat) (s : string) : option string :=
  '(_, e) ← find_from p None (chunks s); Some (group n e).

(** The matches of a text one after the other, each with what comes before it,
    and what is left.  None of the code's patterns matches an empty text. *)
Fixpoint matches (fuel : nat) (p : pat) (b : option Z) (text : list chunk) : list (list chunk * pos * list chunk) * list chunk :=
  match fuel with
  | O => ([], text)
  | S fuel' =>
      match find_from p b text with
      | None => ([], text)
      | Some (skipped, e) =>
          let found := take (length text - length skipped - length (rest e)) (drop (length skipped) text) in
          let '(l, tail) := matches fuel' p (before e) (rest e) in
          ((skipped, e, found) :: l, tail)
      end
  end.
Definition find_all (p : pat) (s : string) : list (list chunk * pos * list chunk) * list chunk :=
  matches (String.length s) p None (chunks s).
(** [len(FindAll(s, -1))]. *)
Definition count_all (p : pat) (s : string) : Z := Z.of_nat (length (find_all p s).1).

(** [ReplaceAllFunc]. *)
Definition ReplaceAllFunc (p : pat) (f : string -> string) (s : string) : string :=
  let '(l, tail) := find_all p s in
  String.concat "" ((fun m => cat m.1.1 +:+ f (cat m.2)) <$> l) +:+ cat tail.

(** ** Writing patterns down

    Under the flag [i] a letter stands for its case variants, the long s and
    the Kelvin sign among them. *)
Definition case_variants (c : Z) : list (Z * Z) :=
  let both := [(c, c); (c - 32, c - 32)] in
  if between 97 c 122 then
    if c =? 115 then both ++ [(383, 383)] else if c =? 107 then both ++ [(8490, 8490)] else both
  else [(c, c)].
Fixpoint literal_i (s : string) : pat :=
  match s with
  | "" => PEps
  | String c "" => PSet (In (case_variants (byte c)))
  | String c s' => PSeq (PSet (In (case_variants (byte c)))) (literal_i s')
  end.
Definition letters_i : list (Z * Z) := [(97, 122); (65, 90); (383, 383); (8490, 8490)].
Definition white : list (Z * Z) := [(9, 10); (12, 13); (32, 32)].
Definition POpt (f : rset) : pat := PAlt (PSet f) PEps.
Definition PPlus (f : rset) : pat := PSeq (PSet f) (PStar true f).
Definition one (c : ascii) : list (Z * Z) := [(byte c, byte c)].
Definition pseq (l : list pat) : pat := foldr PSeq PEps l.

(** ** Matches are parts of the text *)

(** Positions further on in a text. *)
Definition later (s s' : pos) : Prop := exists l, rest s = l ++ rest s'.
#[export] Instance later_preorder : PreOrder later.
Proof.
  split; [by intros s; exists []|]. intros s1 s2 s3 [l1 H1] [l2 H2].
  exists (l1 ++ l2). by rewrite H1, H2, app_assoc.
Qed.

Lemma run_star_later {R} g f text s (k : pos -> option R) r :
  text = rest s -> run_star g f text s k = Some r -> exists s', later s s' /\ k s' = Some r.
Proof.
  revert s r. induction text as [|c text IH]; intros s r Ht.
  - cbn. destruct g; [|destruct (k s) eqn:E]; intros; exists s; (split; [reflexivity|congruence]).
  - cbn [run_star].
    assert (forall r, (if in_set f c.1 then run_star g f text (step_over c s text) k else None) = Some r ->
      exists s', later s s' /\ k s' = Some r) as Hmore.
    { intros r'. destruct (in_set f c.1); [|done]. intros Hr.
      destruct (IH (step_over c s text) _ eq_refl Hr) as (s' & Hl & Hk). exists s'. split; [|done]. etrans; [|exact Hl]. exists [c]. by rewrite <- Ht. }
    destruct g.
    + destruct (if in_set _ _ then _ else _) eqn:E; [|intros; exists s; split; [reflexivity|congruence]].
      intros [= ->]. by apply Hmore.
    + destruct (k s) eqn:E; [|apply Hmore]. intros [= ->]. exists s. split; [reflexivity|congruence].
Qed.

(** The least number of runes a match of a pattern takes. *)
Fixpoint min_len (p : pat) : nat :=
  match p with
  | PEps | PStar _ _ | PWordBoundary => 0
  | PSet _ => 1
  | PSeq p q => min_len p + min_len q
  | PAlt p q => Nat.min (min_len p) (min_len q)
  | PGroup _ p => min_len p
  end.

Lemma run_consumes {R} p : forall s (k : pos -> option R) r,
  run p s k = Some r -> exists s' l, rest s = l ++ rest s' /\ (min_len p <= length l)%nat /\ k s' = Some r.
Proof.
  induction p as [|f|p IHp q IHq|p IHp q IHq|g f|n p IHp|]; intros s k r; cbn [run min_len].
  - exists s, []. split_and!; [done|cbn; lia|done].
  - destruct (rest s) as [|c text] eqn:E; [done|]. destruct (in_set f c.1); [|done].
    intros Hk. exists (step_over c s text), [c]. split_and!; [done|cbn; lia|done].
  - intros (s1 & l1 & H1 & Hl1 & (s2 & l2 & H2 & Hl2 & Hk)%IHq)%IHp. exists s2, (l1 ++ l2).
    rewrite H1, H2, app_assoc, length_app. split_and!; [done|lia|done].
  - destruct (run p s k) eqn:E.
    + intros [= ->]. apply IHp in E as (s' & l & Hl & Hn & Hk). exists s', l. split_and!; [done|lia|done].
    + intros (s' & l & Hl & Hn & Hk)%IHq. exists s', l. split_and!; [done|lia|done].
  - intros (s' & [l Hl] & Hk)%run_star_later; [|done]. exists s', l. split_and!; [done|lia|done].
  - intros (s' & l & Hl & Hn & Hk)%IHp. by eexists (capture n s s'), l.
  - destruct (xorb _ _); [|done]. exists s, []. split_and!; [done|cbn; lia|done].
Qed.

Lemma find_from_split p b text skipped e :
  find_from p b text = Some (skipped, e) ->
  exists found, text = skipped ++ found ++ rest e /\ (min_len p <= length found)%nat.
Proof.
  revert b skipped. induction text as [|c text IH]; intros b skipped; cbn [find_from];
    (destruct (match_at p b _) as [s|] eqn:E;
      [intros [= <- <-]; apply run_consumes in E as (s' & l & Hl & Hn & [= ->]); by exists l|]); [done|].
  destruct (find_from p (Some c.1) text) as [[sk s]|] eqn:E'; [|done].
  intros [= <- <-]. apply IH in E' as (found & -> & Hn). by exists found.
Qed.

Lemma find_from_found p b text skipped e :
  find_from p b text = Some (skipped, e) ->
  text = skipped ++ take (length text - length skipped - length (rest e)) (drop (length skipped) text) ++ rest e.
Proof.
  intros (found & -> & _)%find_from_split. rewrite drop_app_length, !length_app.
  replace (length skipped + (length found + length (rest e)) - length skipped - length (rest e))%nat
    with (length found) by lia. by rewrite take_app_length.
Qed.

(** The matches and what lies between them make up the text. *)
Lemma matches_split fuel p b text :
  text = concat ((fun m => m.1.1 ++ m.2) <$> (matches fuel p b text).1) ++ (matches fuel p b text).2.
Proof.
  revert b text. induction fuel as [|fuel IH]; intros b text; cbn [matches]; [done|].
  destruct (find_from p b text) as [[skipped e]|] eqn:E; [|done].
  specialize (IH (before e) (rest e)). destruct (matches fuel p (before e) (rest e)) as [l tail].
  cbn in *. rewrite <- !app_assoc, <- IH. by apply (find_from_found p b).
Qed.

Lemma concat_empty_app l1 l2 : String.concat "" (l1 ++ l2) = String.concat "" l1 +:+ String.concat "" l2.
Proof.
  induction l1 as [|a l1 IH]; [done|]. cbn [app].
  assert (forall l, String.concat "" (a :: l) = a +:+ String.concat "" l) as Hc.
  { intros l. destruct l; cbn [String.concat]; [by rewrite str_app_nil_r | done]. }
  by rewrite !Hc, IH, str_app_assoc.
Qed.

(** Replacing every match by itself changes nothing. *)
Lemma ReplaceAllFunc_id p s : ReplaceAllFunc p (fun x => x) s = s.
Proof.
  unfold ReplaceAllFunc, find_all. pose proof (matches_split (String.length s) p None (chunks s)) as Hs.
  destruct (matches _ _ _ _) as [l tail]. cbn [fst snd] in *. 
  transitivity (cat (chunks s)); [|apply cat_chunks]. rewrite Hs, cat_app.
  f_equal. clear. induction l as [|m l IH]; [done|]. rewrite fmap_cons.
  change (?a :: ?b) with ([a] ++ b) at 1. rewrite concat_empty_app, IH. cbn. by rewrite !cat_app.
Qed.

Lemma chunks_nonempty s : Forall (fun c => c.2 <> "") (chunks s).
Proof.
  induction s as [|s r b t E IH] using decode_ind; [constructor|].
  rewrite chunks_unfold, E. constructor; [|done]. by apply decode_split in E as [_ ?].
Qed.

Lemma cat_length l : Forall (fun c => c.2 <> "") l -> (length l <= String.length (cat l))%nat.
Proof.
  induction 1 as [|[r b] l Hb _ IH]; [done|]. cbn [cat length]. rewrite str_length_app.
  destruct b; [done|]. cbn [String.length]. lia.
Qed.

(** The bounds of a match: it begins before it ends, and ends in the text. *)
Lemma FindIndex_bounds p s b e :
  FindIndex p s = Some (b, e) -> (b + min_len p <= e)%nat /\ (e <= String.length s)%nat.
Proof.
  unfold FindIndex. destruct (find_from p None (chunks s)) as [[skipped q]|] eqn:E; [|done].
  cbn. intros [= <- <-]. apply find_from_split in E as (found & Hs & Hn).
  pose proof (chunks_nonempty s) as Hne. rewrite Hs, !Forall_app in Hne. destruct Hne as (_ & Hf & _).
  apply cat_length in Hf. pose proof (cat_chunks s) as Hc. rewrite Hs, !cat_app in Hc.
  apply (f_equal String.length) in Hc. rewrite !str_length_app in Hc. lia.
Qed.

Example patterns_examples :
  FindIndex (PSeq (literal_i "<html") (PSeq PWordBoundary (PSeq (PStar true (Out (one ">"))) (PSet (In (one ">"))))))
    "a<HTML lang=en>b" = Some (1, 15)%nat /\
  Submatch (pseq [literal_i "url("; PGroup 1 (PStar false (Out (one ")"))); PSet (In (one ")"))]) 1 "x URL(a b) c)" = Some "a b" /\
  ReplaceAllFunc (literal_i "a") (fun x => x +:+ x) "banana" = "baanaanaa".
Proof. by vm_compute. Qed.
