(* ===== verification/Tokens.v ===== *)
(** * Signed tokens (src/internal/auth: hs256.go, jwt.go, enrolment_grant.go,
      reader_content_grant.go)

    The compact HS256 envelope and the four kinds of token that travel in it:
    access tokens, second-factor tickets, enrolment grants and reader-content
    grants, with what tells them apart. *)

From S2P Require Import Prelude GoStrings Errors Catalog Pairing Identity Encoding.

Local Open Scope string_scope.
Local Open Scope list_scope.
Local Open Scope Z_scope.

(** ** JSON objects

    What [json.Marshal] writes of a struct of strings, integers and lists of
    strings, and [json.Unmarshal] reads back: the fields in order, by their
    tags.  The text of an object is the standard library's; the code relies on
    it to read back what it wrote. *)
Inductive jvalue :=
| JString (s : string)
| JInt (z : Z)
| JStrings (l : list string).
Abbreviation object := (list (string * jvalue)) (only parsing).

Definition valid_utf8 (s : string) : bool :=
  forallb (fun c => negb ((c.1 =? 65533) && Nat.eqb (String.length c.2) 1)) (chunks s).
Definition jvalue_utf8 (v : jvalue) : bool :=
  match v with
  | JString s => valid_utf8 s
  | JInt _ => true
  | JStrings l => forallb valid_utf8 l
  end.
Definition object_utf8 (o : object) : bool := forallb (fun p => jvalue_utf8 p.2) o.

(** The hash and the JSON text the token code is built on. *)
Class TokenPrimitives := {
  hmacSHA256 : string -> string -> string;
  json_text : object -> string;
  json_parse : string -> option object;
  json_parse_text o : object_utf8 o = true -> json_parse (json_text o) = Some o;
}.

(** The last field of a name; an absent field is the zero value, one of
    another type an error. *)
Definition field (o : object) (k : string) : option jvalue :=
  snd <$> List.find (fun p => String.eqb p.1 k) (rev o).
Definition string_field (o : object) (k : string) : option string :=
  match field o k with
  | None => Some ""
  | Some (JString s) => Some s
  | Some _ => None
  end.
Definition int_field (o : object) (k : string) : option Z :=
  match field o k with
  | None => Some 0
  | Some (JInt z) => Some z
  | Some _ => None
  end.
Definition strings_field (o : object) (k : string) : option (list string) :=
  match field o k with
  | None => Some []
  | Some (JStrings l) => Some l
  | Some _ => None
  end.

(** [omitempty]. *)
Definition opt_string (k s : string) : object := if String.eqb s "" then [] else [(k, JString s)].
Definition opt_strings (k : string) (l : list string) : object :=
  match l with [] => [] | _ => [(k, JStrings l)] end.

(** ** The envelope (hs256.go) *)

Record jwtHeader := mkJwtHeader { h_Algorithm : string; h_Type : string }.

Definition header_object (h : jwtHeader) : object :=
  [("alg", JString (h_Algorithm h)); ("typ", JString (h_Type h))].
Definition object_header (o : object) : option jwtHeader :=
  alg ← string_field o "alg";
  typ ← string_field o "typ";
  Some (mkJwtHeader alg typ).

Section tokens.
Context `{TokenPrimitives}.

Definition hs256Sign (secret : string) (claims : object) : string :=
  let headerJSON := json_text (header_object (mkJwtHeader "HS256" "JWT")) in
  let claimsJSON := json_text claims in
  let signingInput := RawURLEncode headerJSON +:+ "." +:+ RawURLEncode claimsJSON in
  signingInput +:+ "." +:+ RawURLEncode (hmacSHA256 secret signingInput).

Definition hs256VerifiedClaims (secret token : string) : Result string :=
  match Split "." token with
  | [p0; p1; p2] =>
      match RawURLDecode p0 with
      | None => Err (New "auth: invalid header encoding")
      | Some headerJSON =>
          match json_parse headerJSON ≫= object_header with
          | None => Err (New "auth: invalid header JSON")
          | Some header =>
              if negb (String.eqb (h_Algorithm header) "HS256") then
                Err (New ("auth: unsupported algorithm " +:+ quote (h_Algorithm header)))
              else match RawURLDecode p2 with
              | None => Err (New "auth: invalid signature encoding")
              | Some sig =>
                  if negb (String.eqb sig (hmacSHA256 secret (p0 +:+ "." +:+ p1))) then
                    Err (New "auth: signature mismatch")
                  else match RawURLDecode p1 with
                  | None => Err (New "auth: invalid claims encoding")
                  | Some claimsJSON => Ok claimsJSON
                  end
              end
          end
      end
  | _ => Err (New "auth: invalid token format")
  end.

(** ** Access tokens and second-factor tickets (jwt.go) *)

Record Claims := mkClaims {
  c_Subject : UserID;
  c_Username : string;
  c_Role : string;
  c_Libraries : list LibraryID;
  c_JTI : string;
  c_IssuedAt : Z;
  c_ExpiresAt : Z;
  c_Issuer : string;
  c_Type : string;
}.

Definition claims_object (c : Claims) : object :=
  [("sub", JString (c_Subject c))] ++ opt_string "username" (c_Username c)
  ++ opt_string "role" (c_Role c) ++ opt_strings "libraries" (c_Libraries c)
  ++ opt_string "jti" (c_JTI c)
  ++ [("iat", JInt (c_IssuedAt c)); ("exp", JInt (c_ExpiresAt c)); ("iss", JString (c_Issuer c))]
  ++ opt_string "typ" (c_Type c).
Definition object_claims (o : object) : option Claims :=
  sub ← string_field o "sub";
  username ← string_field o "username";
  role ← string_field o "role";
  libraries ← strings_field o "libraries";
  jti ← string_field o "jti";
  iat ← int_field o "iat";
  exp ← int_field o "exp";
  iss ← string_field o "iss";
  typ ← string_field o "typ";
  Some (mkClaims sub username role libraries jti iat exp iss typ).

Definition TokenTypeAccess : string := "access".
Definition TokenTypeMFATicket : string := "mfa_ticket".

(** The two keys are derived from one secret; the ticket key falls back to the
    base secret when the derivation fails. *)
Record JWTSigner := mkJWTSigner {
  secret : string;
  mfaTicketSecret : string;
  issuer : string;
}.
Definition NewJWTSigner (hkdf : string -> option string) (secret issuer : string) : JWTSigner :=
  mkJWTSigner secret (match hkdf secret with Some k => k | None => secret end) issuer.

(** [newJTI] over what the random source answers. *)
Definition newJTI (rand : Result string) : Result string :=
  match rand with
  | Ok b => Ok (hex_EncodeToString b)
  | Err e => Err (Errorf ("auth/jwt: generate jti: " +:+ Error e) e)
  | OutOfFuel => OutOfFuel
  end.

Definition Sign (s : JWTSigner) (claims : Claims) : string :=
  let claims := if String.eqb (c_Issuer claims) "" then
                  mkClaims (c_Subject claims) (c_Username claims) (c_Role claims)
                    (c_Libraries claims) (c_JTI claims) (c_IssuedAt claims) (c_ExpiresAt claims)
                    (issuer s) (c_Type claims)
                else claims in
  hs256Sign (secret s) (claims_object claims).

(** The checks access tokens and tickets share after the signature. *)
Definition checked_claims (s : JWTSigner) (claimsJSON : string) (now : Time) : Result Claims :=
  match json_parse claimsJSON ≫= object_claims with
  | None => Err (New "auth/jwt: invalid claims JSON")
  | Some claims =>
      if c_ExpiresAt claims <=? Unix now then Err (New "auth/jwt: token expired")
      else if negb (String.eqb (issuer s) "") && negb (String.eqb (c_Issuer claims) (issuer s)) then
        Err (New ("auth/jwt: issuer mismatch, expected " +:+ issuer s))
      else Ok claims
  end.

Definition VerifyToken (s : JWTSigner) (tokenString : string) (now : Time) : Result Claims :=
  claimsJSON ← hs256VerifiedClaims (secret s) tokenString;
  checked_claims s claimsJSON now.

Definition VerifyAccessToken (s : JWTSigner) (tokenString : string) (now : Time) : Result Claims :=
  claims ← VerifyToken s tokenString now;
  if negb (String.eqb (c_Type claims) TokenTypeAccess) then
    Err (New ("auth/jwt: token type " +:+ quote (c_Type claims) +:+ " is not an access token"))
  else mret claims.

Definition ticket_claims (s : JWTSigner) (jti : string) (userID : UserID) (issuedAt expiresAt : Time)
    : Claims :=
  mkClaims userID "" "" [] jti (Unix issuedAt) (Unix expiresAt) (issuer s) TokenTypeMFATicket.

(** [issuedAt] is the clock at the call. *)
Definition SignMFATicket (s : JWTSigner) (rand : Result string) (issuedAt : Time) (userID : UserID)
    (expiresAt : Time) : Result string :=
  jti ← newJTI rand;
  mret (hs256Sign (mfaTicketSecret s) (claims_object (ticket_claims s jti userID issuedAt expiresAt))).

Definition VerifyMFATicket (s : JWTSigner) (ticketString : string) (now : Time)
    : Result (UserID * string) :=
  claimsJSON ← hs256VerifiedClaims (mfaTicketSecret s) ticketString;
  claims ← checked_claims s claimsJSON now;
  if negb (String.eqb (c_Type claims) TokenTypeMFATicket) then
    Err (New "auth/jwt: invalid token type for MFA ticket")
  else mret (c_Subject claims, c_JTI claims).

(** ** Enrolment grants (enrolment_grant.go) *)

Definition TokenTypeEnrolment : string := "enrol".
Definition EnrolmentGrantTTL : Duration := 10 * Minute.

Record EnrolmentClaims := mkEnrolmentClaims {
  ec_Type : string;
  ec_SessionID : PairingSessionID;
  ec_JTI : string;
  ec_IssuedAt : Z;
  ec_ExpiresAt : Z;
  ec_Issuer : string;
}.

Definition enrolment_object (c : EnrolmentClaims) : object :=
  [("typ", JString (ec_Type c)); ("sid", JString (ec_SessionID c)); ("jti", JString (ec_JTI c));
   ("iat", JInt (ec_IssuedAt c)); ("exp", JInt (ec_ExpiresAt c)); ("iss", JString (ec_Issuer c))].
Definition object_enrolment (o : object) : option EnrolmentClaims :=
  typ ← string_field o "typ";
  sid ← string_field o "sid";
  jti ← string_field o "jti";
  iat ← int_field o "iat";
  exp ← int_field o "exp";
  iss ← string_field o "iss";
  Some (mkEnrolmentClaims typ sid jti iat exp iss).

Record GrantSigner := mkGrantSigner { g_secret : string; g_issuer : string }.

Definition SignGrant (s : GrantSigner) (newID : string) (sessionID : PairingSessionID) (now : Time)
    : Result string :=
  if String.eqb sessionID "" then Err (New "auth: enrolment grant needs a pairing session ID")
  else Ok (hs256Sign (g_secret s) (enrolment_object
         (mkEnrolmentClaims TokenTypeEnrolment sessionID newID (Unix now)
            (Unix (Add now EnrolmentGrantTTL)) (g_issuer s)))).

Definition VerifyGrant (s : GrantSigner) (token : string) (now : Time) : Result EnrolmentClaims :=
  claimsJSON ← hs256VerifiedClaims (g_secret s) token;
  match json_parse claimsJSON ≫= object_enrolment with
  | None => Err (New "auth: malformed enrolment grant claims")
  | Some claims =>
      if negb (String.eqb (ec_Type claims) TokenTypeEnrolment) then
        Err (New ("auth: token type " +:+ quote (ec_Type claims) +:+ " is not an enrolment grant"))
      else if ec_ExpiresAt claims <=? Unix now then Err (New "auth: enrolment grant expired")
      else if negb (String.eqb (g_issuer s) "") && negb (String.eqb (ec_Issuer claims) (g_issuer s)) then
        Err (New "auth: enrolment grant issuer mismatch")
      else if String.eqb (ec_SessionID claims) "" || String.eqb (ec_JTI claims) "" then
        Err (New "auth: enrolment grant is missing a required claim")
      else Ok claims
  end.

(** ** Reader-content grants (reader_content_grant.go) *)

Definition TokenTypeReaderContent : string := "reader_content".
Definition ReaderContentGrantTTL : Duration := 15 * Minute.

Record ReaderContentClaims := mkReaderContentClaims {
  rc_Type : string;
  rc_Subject : UserID;
  rc_LibraryID : LibraryID;
  rc_EditionID : EditionID;
  rc_IssuedAt : Z;
  rc_ExpiresAt : Z;
  rc_Issuer : string;
}.

Definition reader_object (c : ReaderContentClaims) : object :=
  [("typ", JString (rc_Type c)); ("sub", JString (rc_Subject c)); ("lib", JString (rc_LibraryID c));
   ("ed", JString (rc_EditionID c)); ("iat", JInt (rc_IssuedAt c)); ("exp", JInt (rc_ExpiresAt c));
   ("iss", JString (rc_Issuer c))].
Definition object_reader (o : object) : option ReaderContentClaims :=
  typ ← string_field o "typ";
  sub ← string_field o "sub";
  lib ← string_field o "lib";
  ed ← string_field o "ed";
  iat ← int_field o "iat";
  exp ← int_field o "exp";
  iss ← string_field o "iss";
  Some (mkReaderContentClaims typ sub lib ed iat exp iss).

Definition SignReaderContent (s : GrantSigner) (userID : UserID) (libraryID : LibraryID)
    (editionID : EditionID) (now : Time) : Result (string * Time) :=
  if String.eqb userID "" || String.eqb libraryID "" || String.eqb editionID "" then
    Err (New "auth: reader content grant needs a user, library, and edition")
  else
    let expiresAt := Add now ReaderContentGrantTTL in
    Ok (hs256Sign (g_secret s) (reader_object
          (mkReaderContentClaims TokenTypeReaderContent userID libraryID editionID (Unix now)
             (Unix expiresAt) (g_issuer s))), expiresAt).

Definition VerifyReaderContent (s : GrantSigner) (token : string) (now : Time)
    : Result ReaderContentClaims :=
  claimsJSON ← hs256VerifiedClaims (g_secret s) token;
  match json_parse claimsJSON ≫= object_reader with
  | None => Err (New "auth: malformed reader content grant claims")
  | Some claims =>
      if negb (String.eqb (rc_Type claims) TokenTypeReaderContent) then
        Err (New ("auth: token type " +:+ quote (rc_Type claims) +:+ " is not a reader content grant"))
      else if rc_ExpiresAt claims <=? Unix now then Err (New "auth: reader content grant expired")
      else if negb (String.eqb (g_issuer s) "") && negb (String.eqb (rc_Issuer claims) (g_issuer s)) then
        Err (New "auth: reader content grant issuer mismatch")
      else if String.eqb (rc_Subject claims) "" || String.eqb (rc_LibraryID claims) ""
              || String.eqb (rc_EditionID claims) "" then
        Err (New "auth: reader content grant is missing a required claim")
      else Ok claims
  end.
End tokens.

(** * What the tokens guarantee *)

(** ** The envelope opens to what was sealed *)

Section envelope.
Context `{TokenPrimitives}.

Lemma split_token a b c :
  Split "." ((RawURLEncode a +:+ "." +:+ RawURLEncode b) +:+ "." +:+ RawURLEncode c)
  = [RawURLEncode a; RawURLEncode b; RawURLEncode c].
Proof.
  rewrite !str_app_assoc,  !(str_app_cons "." ""), !str_app_nil_l.
  rewrite !Split_app by apply RawURLEncode_no_dot. by rewrite Split_none by apply RawURLEncode_no_dot.
Qed.

Lemma verified_sealed k k' o :
  hs256VerifiedClaims k' (hs256Sign k o) = Ok (json_text o) \/
  hs256VerifiedClaims k' (hs256Sign k o) = Err (New "auth: signature mismatch").
Proof.
  unfold hs256VerifiedClaims, hs256Sign. cbv zeta. rewrite split_token.
  rewrite !RawURL_roundtrip, json_parse_text by done. cbn -[String.eqb hmacSHA256].
  destruct (String.eqb _ _); auto.
Qed.

Lemma verified_own k o : hs256VerifiedClaims k (hs256Sign k o) = Ok (json_text o).
Proof.
  unfold hs256VerifiedClaims, hs256Sign. cbv zeta. rewrite split_token.
  rewrite !RawURL_roundtrip, json_parse_text by done. cbn -[String.eqb hmacSHA256].
  by rewrite String.eqb_refl.
Qed.

Lemma verified_text k k' o json : hs256VerifiedClaims k' (hs256Sign k o) = Ok json -> json = json_text o.
Proof. destruct (verified_sealed k k' o) as [->| ->]; [by intros [= <-]|done]. Qed.
End envelope.

(** ** Structs survive their objects *)

Lemma claims_roundtrip c : object_claims (claims_object c) = Some c.
Proof.
  destruct c as [sub un ro libs jti iat exp iss typ]. unfold claims_object, opt_string, opt_strings. simpl.
  destruct (String.eqb_spec un ""), (String.eqb_spec ro ""), libs, (String.eqb_spec jti ""),
    (String.eqb_spec typ ""); subst; reflexivity.
Qed.

Lemma enrolment_roundtrip c : object_enrolment (enrolment_object c) = Some c.
Proof. by destruct c. Qed.

Lemma reader_roundtrip c : object_reader (reader_object c) = Some c.
Proof. by destruct c. Qed.

Local Ltac take_fields H :=
  repeat match type of H with
    | (_ ← ?x; _) = Some _ => destruct x eqn:?; [cbn [mbind option_bind] in H|done]
    end; injection H as <-.

Lemma claims_type o c : object_claims o = Some c -> string_field o "typ" = Some (c_Type c).
Proof. unfold object_claims. intros Ho. take_fields Ho. done. Qed.

Lemma enrolment_type o c : object_enrolment o = Some c -> string_field o "typ" = Some (ec_Type c).
Proof. unfold object_enrolment. intros Ho. take_fields Ho. done. Qed.

Lemma reader_type o c : object_reader o = Some c -> string_field o "typ" = Some (rc_Type c).
Proof. unfold object_reader. intros Ho. take_fields Ho. done. Qed.

(** ** Which token is good for what *)

Section purposes.
Context `{TokenPrimitives}.

Inductive purpose := ForAccess | ForMFATicket | ForEnrolment | ForReaderContent.

Definition purpose_type (p : purpose) : string :=
  match p with
  | ForAccess => TokenTypeAccess
  | ForMFATicket => TokenTypeMFATicket
  | ForEnrolment => TokenTypeEnrolment
  | ForReaderContent => TokenTypeReaderContent
  end.

(** A token some signer made, whatever its keys, for a purpose. *)
Inductive issued : purpose -> string -> Prop :=
| issued_access s c :
    c_Type c = TokenTypeAccess -> valid_utf8 (issuer s) = true -> object_utf8 (claims_object c) = true ->
    issued ForAccess (Sign s c)
| issued_ticket s rand issuedAt userID expiresAt token :
    (forall jti, newJTI rand = Ok jti ->
       object_utf8 (claims_object (ticket_claims s jti userID issuedAt expiresAt)) = true) ->
    SignMFATicket s rand issuedAt userID expiresAt = Ok token -> issued ForMFATicket token
| issued_enrolment s newID sessionID now token :
    valid_utf8 newID = true -> valid_utf8 sessionID = true -> valid_utf8 (g_issuer s) = true ->
    SignGrant s newID sessionID now = Ok token -> issued ForEnrolment token
| issued_reader s userID libraryID editionID now token expiresAt :
    valid_utf8 userID = true -> valid_utf8 libraryID = true -> valid_utf8 editionID = true ->
    valid_utf8 (g_issuer s) = true ->
    SignReaderContent s userID libraryID editionID now = Ok (token, expiresAt) ->
    issued ForReaderContent token.

(** A token some verifier, whatever its keys, takes for a purpose. *)
Definition accepted (p : purpose) (token : string) (now : Time) : Prop :=
  match p with
  | ForAccess => exists s c, VerifyAccessToken s token now = Ok c
  | ForMFATicket => exists s c, VerifyMFATicket s token now = Ok c
  | ForEnrolment => exists s c, VerifyGrant s token now = Ok c
  | ForReaderContent => exists s c, VerifyReaderContent s token now = Ok c
  end.

(** What a token carries. *)
Definition carries (token : string) (o : object) : Prop :=
  object_utf8 o = true /\ exists k, token = hs256Sign k o.

Lemma claims_utf8 c : object_utf8 (claims_object c) =
  valid_utf8 (c_Subject c) && valid_utf8 (c_Username c) && valid_utf8 (c_Role c)
  && forallb valid_utf8 (c_Libraries c) && valid_utf8 (c_JTI c) && valid_utf8 (c_Issuer c)
  && valid_utf8 (c_Type c).
Proof.
  destruct c as [sub un ro libs jti iat exp iss typ]. unfold claims_object, opt_string, opt_strings.
  simpl c_Subject. simpl c_Username. simpl c_Role. simpl c_Libraries. simpl c_JTI. simpl c_Issuer.
  simpl c_Type. simpl c_IssuedAt. simpl c_ExpiresAt.
  destruct (String.eqb_spec un ""), (String.eqb_spec ro ""), libs, (String.eqb_spec jti ""),
    (String.eqb_spec typ ""); subst; unfold object_utf8; cbn [app forallb snd jvalue_utf8];
    change (valid_utf8 "") with true; rewrite ?andb_true_r, ?andb_true_l, ?andb_assoc; done.
Qed.

Lemma issued_carries p token : issued p token ->
  exists o, carries token o /\ string_field o "typ" = Some (purpose_type p).
Proof.
  unfold carries. destruct 1 as [s c Ht Hi Hc|s rand t u e token Hu Hs|s id sid t token H1 H2 H3 Hs
    |s u l e t token x H1 H2 H3 H4 Hs].
  - unfold Sign. eexists. split; [split; [|by eexists]|].
    + destruct (String.eqb _ ""); [|done]. rewrite claims_utf8 in *. simpl.
      bool_to_prop. by rewrite !andb_true_iff.
    + erewrite claims_type by apply claims_roundtrip. destruct (String.eqb _ ""); simpl; by rewrite Ht.
  - unfold SignMFATicket in Hs. destruct (newJTI rand) as [jti|err|]; [|done..]. injection Hs as <-.
    eexists. split; [split; [by apply Hu|by eexists]|]. by erewrite claims_type by apply claims_roundtrip.
  - unfold SignGrant in Hs. destruct (String.eqb _ ""); [done|]. injection Hs as <-.
    eexists. split; [split; [|by eexists]|done]. unfold object_utf8. simpl. by rewrite H1, H2, H3.
  - unfold SignReaderContent in Hs. destruct (_ || _); [done|]. injection Hs as <- _.
    eexists. split; [split; [|by eexists]|done]. unfold object_utf8. simpl. by rewrite H1, H2, H3, H4.
Qed.

Lemma carried_text token o k json :
  carries token o -> hs256VerifiedClaims k token = Ok json -> json_parse json = Some o.
Proof. intros [Hu [k' ->]] ->%verified_text. by apply json_parse_text. Qed.

Lemma accepted_type q token o now :
  carries token o -> accepted q token now -> string_field o "typ" = Some (purpose_type q).
Proof.
  intros Hc. destruct q; intros (s & c & Hv).
  - unfold VerifyAccessToken, VerifyToken in Hv.
    destruct (hs256VerifiedClaims _ token) as [json|e|] eqn:E; [|done..]. simpl in Hv.
    unfold checked_claims in Hv. rewrite (carried_text _ _ _ _ Hc E) in Hv. simpl in Hv.
    destruct (object_claims o) as [c'|] eqn:Eo; [|done].
    destruct (_ <=? _); [done|]. destruct (_ && _); [done|]. simpl in Hv.
    destruct (String.eqb_spec (c_Type c') TokenTypeAccess) as [Et|]; [|done].
    rewrite (claims_type _ _ Eo). by rewrite Et.
  - unfold VerifyMFATicket in Hv.
    destruct (hs256VerifiedClaims _ token) as [json|e|] eqn:E; [|done..]. simpl in Hv.
    unfold checked_claims in Hv. rewrite (carried_text _ _ _ _ Hc E) in Hv. simpl in Hv.
    destruct (object_claims o) as [c'|] eqn:Eo; [|done].
    destruct (_ <=? _); [done|]. destruct (_ && _); [done|]. simpl in Hv.
    destruct (String.eqb_spec (c_Type c') TokenTypeMFATicket) as [Et|]; [|done].
    rewrite (claims_type _ _ Eo). by rewrite Et.
  - unfold VerifyGrant in Hv.
    destruct (hs256VerifiedClaims _ token) as [json|e|] eqn:E; [|done..]. simpl in Hv.
    rewrite (carried_text _ _ _ _ Hc E) in Hv. simpl in Hv.
    destruct (object_enrolment o) as [c'|] eqn:Eo; [|done].
    destruct (String.eqb_spec (ec_Type c') TokenTypeEnrolment) as [Et|]; [|done].
    rewrite (enrolment_type _ _ Eo). by rewrite Et.
  - unfold VerifyReaderContent in Hv.
    destruct (hs256VerifiedClaims _ token) as [json|e|] eqn:E; [|done..]. simpl in Hv.
    rewrite (carried_text _ _ _ _ Hc E) in Hv. simpl in Hv.
    destruct (object_reader o) as [c'|] eqn:Eo; [|done].
    destruct (String.eqb_spec (rc_Type c') TokenTypeReaderContent) as [Et|]; [|done].
    rewrite (reader_type _ _ Eo). by rewrite Et.
Qed.

(** C31: a token is good for one purpose only.  Whatever keys and issuers the
    signers and verifiers have, all equal included, a token issued as an
    access token, a second-factor ticket, an enrolment grant or a
    reader-content grant is accepted, if at all, only as what it was issued
    as: no token of one kind ever passes on another kind's path. *)
Theorem token_purpose_unique p q token now : issued p token -> accepted q token now -> p = q.
Proof.
  intros (o & Hc & Hp)%issued_carries Hq%(accepted_type _ _ _ _ Hc).
  rewrite Hp in Hq. injection Hq. destruct p, q; done.
Qed.
End purposes.

(** ** How long a token is good *)

Section lifetimes.
Context `{TokenPrimitives}.

Lemma checked_own s o c now :
  object_utf8 o = true -> object_claims o = Some c -> c_Issuer c = issuer s ->
  checked_claims s (json_text o) now =
    if c_ExpiresAt c <=? Unix now then Err (New "auth/jwt: token expired") else Ok c.
Proof.
  intros Hu Ho Hi. unfold checked_claims. rewrite json_parse_text by done. simpl. rewrite Ho, Hi.
  destruct (_ <=? _); [done|]. by rewrite String.eqb_refl, andb_false_r.
Qed.

Lemma VerifyGrant_own g jti sid issuedAt now token :
  valid_utf8 sid = true -> valid_utf8 jti = true -> valid_utf8 (g_issuer g) = true ->
  SignGrant g jti sid issuedAt = Ok token -> jti <> "" ->
  VerifyGrant g token now =
    if Unix (issuedAt + 10 * Minute) <=? Unix now then Err (New "auth: enrolment grant expired")
    else Ok (mkEnrolmentClaims TokenTypeEnrolment sid jti (Unix issuedAt)
               (Unix (issuedAt + 10 * Minute)) (g_issuer g)).
Proof.
  intros Hs Hj Hg. unfold SignGrant. destruct (String.eqb_spec sid ""); [done|]. intros [= <-] Hne.
  unfold VerifyGrant. rewrite verified_own. cbn [mbind res_bind]. rewrite json_parse_text.
  2: { unfold object_utf8. simpl. by repeat (apply andb_true_iff; split). }
  cbn [mbind option_bind]. rewrite enrolment_roundtrip. cbn -[String.eqb Unix Minute Z.mul].
  rewrite String.eqb_refl. unfold Add, EnrolmentGrantTTL. destruct (_ <=? _); [done|].
  rewrite String.eqb_refl, andb_false_r. by rewrite !(proj2 (String.eqb_neq _ _)).
Qed.

(** A token its own signer verifies says exactly what was signed, until
    the second it expires in and never after.  An access token gives back its
    claims; a ticket its user and its identifier, the hexadecimal form of the
    random bytes; an enrolment grant its session for ten minutes; a
    reader-content grant its user, library and edition for fifteen. *)
Theorem token_lifetimes s g c rand issuedAt userID expiresAt jti sid lib ed now token :
  c_Type c = TokenTypeAccess -> c_Issuer c = issuer s -> object_utf8 (claims_object c) = true ->
  object_utf8 (claims_object (ticket_claims s (hex_EncodeToString rand) userID issuedAt expiresAt)) = true ->
  forallb valid_utf8 [jti; sid; lib; ed; userID; g_issuer g] = true ->
  VerifyAccessToken s (Sign s c) now =
    (if c_ExpiresAt c <=? Unix now then Err (New "auth/jwt: token expired") else Ok c) /\
  (SignMFATicket s (Ok rand) issuedAt userID expiresAt = Ok token ->
   VerifyMFATicket s token now =
     if Unix expiresAt <=? Unix now then Err (New "auth/jwt: token expired")
     else Ok (userID, hex_EncodeToString rand)) /\
  (SignGrant g jti sid issuedAt = Ok token -> jti <> "" ->
   VerifyGrant g token now =
     if Unix (issuedAt + 10 * Minute) <=? Unix now then Err (New "auth: enrolment grant expired")
     else Ok (mkEnrolmentClaims TokenTypeEnrolment sid jti (Unix issuedAt)
                (Unix (issuedAt + 10 * Minute)) (g_issuer g))) /\
  (SignReaderContent g userID lib ed issuedAt = Ok (token, issuedAt + 15 * Minute) ->
   VerifyReaderContent g token now =
     if Unix (issuedAt + 15 * Minute) <=? Unix now then Err (New "auth: reader content grant expired")
     else Ok (mkReaderContentClaims TokenTypeReaderContent userID lib ed (Unix issuedAt)
                (Unix (issuedAt + 15 * Minute)) (g_issuer g))).
Proof.
  intros Ht Hi Hu Hu2 Hv. simpl in Hv. bool_to_prop. conjuncts.
  - unfold VerifyAccessToken, VerifyToken, Sign.
    assert ((if String.eqb (c_Issuer c) "" then _ else c) = c) as ->.
    { destruct (String.eqb _ ""); [|done]. rewrite <- Hi. by destruct c. }
    rewrite verified_own. cbn [mbind res_bind]. rewrite (checked_own s _ c) by (done || apply claims_roundtrip).
    destruct (_ <=? _); [done|]. cbn [mbind res_bind]. by rewrite Ht.
  - unfold SignMFATicket. intros [= <-]. unfold VerifyMFATicket. rewrite verified_own. cbn [mbind res_bind].
    erewrite checked_own by (done || apply claims_roundtrip). cbn [c_ExpiresAt ticket_claims].
    by destruct (_ <=? _).
  - by apply VerifyGrant_own.
  - unfold SignReaderContent. destruct (_ || _) eqn:E; [done|]. intros [= <-].
    unfold VerifyReaderContent. rewrite verified_own. cbn [mbind res_bind]. rewrite json_parse_text.
    2: { unfold object_utf8. simpl. by repeat (apply andb_true_iff; split). }
    cbn [mbind option_bind]. rewrite reader_roundtrip. cbn -[String.eqb Unix Minute Z.mul].
    rewrite String.eqb_refl. unfold Add, ReaderContentGrantTTL. destruct (_ <=? _); [done|].
    by rewrite String.eqb_refl, andb_false_r, E.
Qed.
End lifetimes.

(** ** Executable primitives, for the witnesses *)

#[export] Instance jvalue_eq_dec : EqDecision jvalue.
Proof. solve_decision. Defined.
#[export] Program Instance jvalue_countable : Countable jvalue :=
  inj_countable'
    (fun v => match v with JString s => inl s | JInt z => inr (inl z) | JStrings l => inr (inr l) end)
    (fun x => match x with inl s => JString s | inr (inl z) => JInt z | inr (inr l) => JStrings l end) _.
Next Obligation. by intros []. Qed.

Fixpoint positive_text (p : positive) : string :=
  match p with
  | xH => ""
  | xO p => String "0" (positive_text p)
  | xI p => String "1" (positive_text p)
  end.
Fixpoint text_positive (s : string) : option positive :=
  match s with
  | "" => Some xH
  | String c s => p ← text_positive s; Some (if Ascii.eqb c "0" then xO p else xI p)
  end.

Lemma text_positive_text p : text_positive (positive_text p) = Some p.
Proof. induction p as [p IH|p IH|]; simpl; try rewrite IH; done. Qed.

Definition demo_primitives : TokenPrimitives.
Proof.
  refine {| hmacSHA256 := fun k s => k +:+ s;
            json_text := fun o => positive_text (countable.encode o);
            json_parse := fun s => p ← text_positive s; countable.decode p |}.
  intros o _. rewrite text_positive_text. simpl. apply countable.decode_encode.
Defined.

Definition demo_signer : JWTSigner := mkJWTSigner "k" "k" "alx".
Definition demo_claims : Claims := mkClaims "u1" "ada" "reader" ["lib"] "j" 0 900 "alx" TokenTypeAccess.

Lemma token_purpose_unique_witness :
  exists token, @issued demo_primitives ForAccess token /\ ~ @accepted demo_primitives ForMFATicket token 0.
Proof.
  exists (@Sign demo_primitives demo_signer demo_claims).
  assert (@issued demo_primitives ForAccess (@Sign demo_primitives demo_signer demo_claims)) as Hi
    by (apply issued_access; reflexivity).
  split; [exact Hi|]. intros Ha.
  pose proof (@token_purpose_unique demo_primitives ForAccess ForMFATicket _ 0 Hi Ha). discriminate.
Defined.

Lemma token_lifetimes_witness :
  @VerifyAccessToken demo_primitives demo_signer (@Sign demo_primitives demo_signer demo_claims) (899 * Second)
    = Ok demo_claims.
Proof.
  destruct (@token_lifetimes demo_primitives demo_signer (mkGrantSigner "k" "alx") demo_claims
    "r" 0 "u1" 300 "j" "s" "lib" "ed" (899 * Second) "t") as (H & _);
    [reflexivity..|].
  rewrite H. reflexivity.
Defined.
