(* ===== verification/Utf8.v ===== *)
(** * Encoding runes back (unicode/utf8)

    Decoding a string yields only scalar values, and encoding scalar values
    and decoding them again is the identity: the strings the code builds rune
    by rune are valid UTF-8 whatever they were built from. *)

From S2P Require Import Prelude GoStrings Tokens.

Local Open Scope string_scope.
Local Open Scope list_scope.
Local Open Scope Z_scope.

(** Unicode scalar values. *)
Definition scalar (r : Z) : bool := between 0 r 55295 || between 57344 r 1114111.

Lemma between_spec lo x hi : between lo x hi = true <-> lo <= x <= hi.
Proof. unfold between. rewrite andb_true_iff, !Z.leb_le. lia. Qed.
Lemma between_in lo x hi : lo <= x <= hi -> between lo x hi = true.
Proof. apply between_spec. Qed.
Lemma between_out lo x hi : x < lo \/ hi < x -> between lo x hi = false.
Proof. intros H. apply not_true_iff_false. rewrite between_spec. lia. Qed.

Lemma scalar_spec r : scalar r = true <-> (0 <= r <= 55295 \/ 57344 <= r <= 1114111).
Proof. unfold scalar. by rewrite orb_true_iff, !between_spec. Qed.

Ltac ranges H :=
  unfold lead2, lead3, lead4, cont in H;
  repeat first [rewrite andb_true_iff in H | rewrite orb_true_iff in H
    | rewrite between_spec in H | rewrite Z.eqb_eq in H].

Lemma decode_scalar s r b t : decode s = Some (r, b, t) -> scalar r = true.
Proof.
  unfold decode. intros H. rewrite scalar_spec.
  destruct s as [|c0 s]; [done|]. pose proof (byte_range c0).
  repeat case_match; simplify_eq;
    repeat match goal with
    | E : lead2 _ _ = true |- _ => ranges E
    | E : _ && _ = true |- _ => ranges E
    | E : (_ <? _) = true |- _ => apply Z.ltb_lt in E
    end; unfold RuneError, rune2, rune3, rune4; lia.
Qed.

Lemma runes_scalar s : Forall (fun r => scalar r = true) (runes s).
Proof.
  induction s as [|s r b t E IH] using decode_ind; [constructor|].
  unfold runes in *. rewrite chunks_unfold, E. constructor; [by eapply decode_scalar | done].
Qed.

(** The bytes of a sequence, and what the lead byte tells. *)
Lemma decode1 c t : byte c < 128 -> decode (String c t) = Some (byte c, String c "", t).
Proof. intros H. unfold decode. by rewrite (proj2 (Z.ltb_lt _ _) H). Qed.
Lemma decode2 a b t :
  194 <= byte a <= 223 -> 128 <= byte b <= 191 ->
  decode (String a (String b t)) = Some (rune2 (byte a) (byte b), String a (String b ""), t).
Proof.
  intros Ha Hb. unfold decode. rewrite (proj2 (Z.ltb_ge (byte a) 128)) by lia.
  unfold lead2, cont. by rewrite !between_in by lia.
Qed.
Lemma decode3 a b c t :
  224 <= byte a <= 239 -> lead3 (byte a) (byte b) = true -> 128 <= byte c <= 191 ->
  decode (String a (String b (String c t)))
  = Some (rune3 (byte a) (byte b) (byte c), String a (String b (String c "")), t).
Proof.
  intros Ha Hb Hc. unfold decode. rewrite (proj2 (Z.ltb_ge (byte a) 128)) by lia.
  unfold lead2, cont. rewrite (between_out 194) by lia.
  by rewrite Hb, (between_in 128 (byte c)) by lia.
Qed.
Lemma decode4 a b c d t :
  240 <= byte a <= 244 -> lead4 (byte a) (byte b) = true -> 128 <= byte c <= 191 -> 128 <= byte d <= 191 ->
  decode (String a (String b (String c (String d t))))
  = Some (rune4 (byte a) (byte b) (byte c) (byte d), String a (String b (String c (String d ""))), t).
Proof.
  intros Ha Hb Hc Hd. unfold decode. rewrite (proj2 (Z.ltb_ge (byte a) 128)) by lia.
  unfold lead2, lead3, cont. rewrite (between_out 194), (between_out 225), (between_out 238) by lia.
  rewrite (proj2 (Z.eqb_neq (byte a) 224)), (proj2 (Z.eqb_neq (byte a) 237)) by lia. cbn.
  by rewrite Hb, !between_in by lia.
Qed.

Lemma decode_encode r t :
  scalar r = true -> decode (encode_rune r +:+ t) = Some (r, encode_rune r, t).
Proof.
  rewrite scalar_spec. intros Hr. unfold encode_rune.
  destruct (between 0 r 127) eqn:E1; [apply between_spec in E1|].
  { rewrite str_app_cons, decode1; rewrite byte_ascii_of_Z by lia; [done | lia]. }
  destruct (between 128 r 2047) eqn:E2; [apply between_spec in E2|].
  { rewrite !str_app_cons, decode2; rewrite !byte_ascii_of_Z by zmod_lia.
    - do 3 f_equal. unfold rune2. zmod_lia.
    - zmod_lia.
    - zmod_lia. }
  assert (2048 <= r) as Hlow.
  { destruct (decide (r <= 127)); [by rewrite between_in in E1 by lia|].
    destruct (decide (r <= 2047)); [by rewrite between_in in E2 by lia | lia]. }
  rewrite (between_out 55296), (between_in 0) by lia. cbn [negb orb].
  destruct (between 2048 r 65535) eqn:E3; [apply between_spec in E3|].
  - rewrite !str_app_cons, decode3; rewrite !byte_ascii_of_Z by zmod_lia.
    + do 3 f_equal. unfold rune3. zmod_lia.
    + zmod_lia.
    + unfold lead3, cont. rewrite !orb_true_iff, !andb_true_iff, !between_spec, !Z.eqb_eq. zmod_lia.
    + zmod_lia.
  - assert (65536 <= r).
    { destruct (decide (r <= 65535)); [by rewrite between_in in E3 by lia | lia]. }
    rewrite !str_app_cons, decode4; rewrite !byte_ascii_of_Z by zmod_lia.
    + do 3 f_equal. unfold rune4. zmod_lia.
    + zmod_lia.
    + unfold lead4, cont. rewrite !orb_true_iff, !andb_true_iff, !between_spec, !Z.eqb_eq. zmod_lia.
    + zmod_lia.
    + zmod_lia.
Qed.

(** [string(runes)] of a list of runes. *)
Definition string_of_runes (l : list Z) : string := cat ((fun r => (r, encode_rune r)) <$> l).

Lemma chunks_string_of_runes l :
  Forall (fun r => scalar r = true) l -> chunks (string_of_runes l) = (fun r => (r, encode_rune r)) <$> l.
Proof.
  unfold string_of_runes.
  induction 1 as [|r l Hr _ IH]; [done|]. cbn [fmap list_fmap cat].
  by rewrite chunks_unfold, decode_encode, IH.
Qed.

Lemma runes_string_of_runes l : Forall (fun r => scalar r = true) l -> runes (string_of_runes l) = l.
Proof.
  intros H. unfold runes. rewrite chunks_string_of_runes by done.
  rewrite <- list_fmap_compose. apply list_fmap_id.
Qed.

Lemma encode_rune_error r : scalar r = true -> (r =? 65533) && Nat.eqb (String.length (encode_rune r)) 1 = false.
Proof.
  intros _. destruct (Z.eqb_spec r 65533) as [->|]; reflexivity.
Qed.

(** A string whose runes are encoded as they decode is valid UTF-8. *)
Definition wellencoded (s : string) : Prop := chunks s = (fun r => (r, encode_rune r)) <$> runes s.

Lemma wellencoded_valid s : wellencoded s -> valid_utf8 s = true.
Proof.
  intros H. unfold valid_utf8. rewrite H. apply forallb_forall. intros c Hc.
  apply list_elem_of_In, list_elem_of_fmap in Hc as (r & -> & Hr).
  cbn [fst snd]. rewrite encode_rune_error; [done|].
  pose proof (runes_scalar s) as Hs. rewrite Forall_forall in Hs. by apply Hs.
Qed.

Lemma string_of_runes_encoded l :
  Forall (fun r => scalar r = true) l -> wellencoded (string_of_runes l).
Proof.
  intros H. unfold wellencoded. by rewrite runes_string_of_runes, chunks_string_of_runes.
Qed.

Lemma drop_while_fmap {A B} (f : A -> B) (p : B -> bool) l :
  drop_while p (f <$> l) = f <$> drop_while (fun x => p (f x)) l.
Proof. induction l as [|x l IH]; [done|]. cbn. by destruct (p (f x)). Qed.
Lemma drop_while_end_fmap {A B} (f : A -> B) (p : B -> bool) l :
  drop_while_end p (f <$> l) = f <$> drop_while_end (fun x => p (f x)) l.
Proof.
  unfold drop_while_end. change (f <$> l) with (map f l). rewrite <- (map_rev f l).
  change (map f (rev l)) with (f <$> rev l). rewrite drop_while_fmap. symmetry. apply (map_rev f).
Qed.

(** Trimming keeps the encoding, and keeps a part of the runes. *)
Lemma TrimSpace_runes s :
  runes (TrimSpace s) = drop_while_end IsSpace (drop_while IsSpace (runes s)).
Proof.
  unfold runes. rewrite chunks_TrimSpace.
  by rewrite drop_while_fmap, drop_while_end_fmap.
Qed.
Lemma TrimSpace_infix s : exists a b, runes s = a ++ runes (TrimSpace s) ++ b.
Proof. rewrite TrimSpace_runes. apply trim_infix. Qed.

Lemma TrimSpace_encoded s : wellencoded s -> wellencoded (TrimSpace s).
Proof.
  unfold wellencoded. intros H. rewrite TrimSpace_runes, chunks_TrimSpace, H.
  by rewrite drop_while_fmap, drop_while_end_fmap.
Qed.

Lemma string_of_own_runes s : wellencoded s -> string_of_runes (runes s) = s.
Proof. intros H. unfold string_of_runes. by rewrite <- H, cat_chunks. Qed.
