(* ===== verification/Totp.v ===== *)
(** * The second factor (src/internal/auth/totp.go)

    Time-based codes, recovery codes and the sealing of secrets, over the
    standard library's base32, SHA-1 MAC, SHA-256 and AES-GCM. *)

From S2P Require Import Prelude GoStrings Errors Encoding.

Local Open Scope string_scope.
Local Open Scope list_scope.
Local Open Scope Z_scope.

(** ** Base32 ([encoding/base32].StdEncoding), with and without padding *)

Definition b32_char (v : Z) : Z := if v <? 26 then 65 + v else 24 + v.
Definition b32_value (c : Z) : option Z :=
  if between 65 c 90 then Some (c - 65)
  else if between 50 c 55 then Some (c - 24)
  else None.

(** Whole groups of five bytes, eight characters each. *)
Fixpoint b32_encode (l : list Z) : list Z :=
  match l with
  | a :: b :: c :: d :: e :: l' =>
      b32_char (a / 8) :: b32_char (a mod 8 * 4 + b / 64) :: b32_char (b / 2 mod 32)
      :: b32_char (b mod 2 * 16 + c / 16) :: b32_char (c mod 16 * 2 + d / 128)
      :: b32_char (d / 4 mod 32) :: b32_char (d mod 4 * 8 + e / 32) :: b32_char (e mod 32)
      :: b32_encode l'
  | _ => []
  end.

(** The bytes of the values; a last group of one, three or six values gives
    none. *)
Fixpoint b32_join (l : list Z) : list Z :=
  match l with
  | a :: b :: c :: d :: e :: f :: g :: h :: l' =>
      (a * 8 + b / 4) :: (b mod 4 * 64 + c * 2 + d / 16) :: (d mod 16 * 16 + e / 2)
      :: (e mod 2 * 128 + f * 4 + g / 8) :: (g mod 8 * 32 + h) :: b32_join l'
  | [a; b; c; d; e; f; g] =>
      [a * 8 + b / 4; b mod 4 * 64 + c * 2 + d / 16; d mod 16 * 16 + e / 2; e mod 2 * 128 + f * 4 + g / 8]
  | [a; b; c; d; e] => [a * 8 + b / 4; b mod 4 * 64 + c * 2 + d / 16; d mod 16 * 16 + e / 2]
  | [a; b; c; d] => [a * 8 + b / 4; b mod 4 * 64 + c * 2 + d / 16]
  | [a; b] => [a * 8 + b / 4]
  | _ => []
  end.

Definition no_newlines (l : list Z) : list Z :=
  List.filter (fun c => negb ((c =? 10) || (c =? 13))) l.

Definition b32_decode_raw (l : list Z) : option (list Z) := b32_join <$> mapM b32_value (no_newlines l).

(** The leading characters before the first pad, and the rest from it on. *)
Fixpoint before_pad (l : list Z) : list Z * list Z :=
  match l with
  | [] => ([], [])
  | c :: l' => if c =? 61 then ([], l) else let '(a, b) := before_pad l' in (c :: a, b)
  end.

(** With padding: whole groups, the last one completed by one, three, four or
    six pads. *)
Definition b32_decode_padded (l : list Z) : option (list Z) :=
  let '(cs, pads) := before_pad (no_newlines l) in
  let j := (length cs mod 8)%nat in
  vs ← mapM b32_value cs;
  match pads with
  | [] => if Nat.eqb j 0 then Some (b32_join vs) else None
  | _ :: src =>
      if existsb (Nat.eqb j) [2; 4; 5; 7]%nat && Nat.ltb (length src) 8
         && negb (Nat.ltb (length src + j) 7)
         && forallb (fun c => c =? 61) (take (7 - j) src)
      then Some (b32_join vs) else None
  end.

(** The primitives of the engine. *)
Class TOTPPrimitives := {
  hmacSHA1 : string -> string -> string;
  hmacSHA1_length k m : String.length (hmacSHA1 k m) = 20%nat;
  Sum256 : string -> string;
  gcm_Seal : string -> string -> string -> string;
  gcm_Open : string -> string -> string -> option string;
  gcm_Open_Seal key nonce plain : gcm_Open key nonce (gcm_Seal key nonce plain) = Some plain;
}.

Definition sha256_hex `{TOTPPrimitives} (s : string) : string := hex_EncodeToString (Sum256 s).

(** ** The engine *)

Record TOTPEngine := mkTOTPEngine {
  e_issuer : string;
  e_timeStep : Duration;
  e_digits : Z;
}.
Definition NewTOTPEngine (issuer : string) : TOTPEngine := mkTOTPEngine issuer (30 * Second) 6.

Section totp.
Context `{CaseTables} `{TOTPPrimitives}.

(** [rand] is what the random source answers for twenty bytes. *)
Definition GenerateSecret (rand : Result string) : Result string :=
  match rand with
  | Ok b => Ok (string_of (b32_encode (bytes b)))
  | Err e => Err (Errorf ("auth/totp: generate secret failed: " +:+ Error e) e)
  | OutOfFuel => OutOfFuel
  end.

(** The counter as eight bytes, most significant first. *)
Fixpoint big_endian (n : nat) (v : Z) : list Z :=
  match n with O => [] | S n => big_endian n (v / 256) ++ [v mod 256] end.

(** [%06d] of a non-negative number. *)
Fixpoint decimal (n : nat) (z : Z) (acc : string) : string :=
  match n with O => acc | S n => decimal n (z / 10) (String (digit (z mod 10)) acc) end.
Definition sprintf_06d (z : Z) : string := if z <? 1000000 then decimal 6 z "" else itoa z.

Definition generateHOTP (secret : string) (counter : Z) : string :=
  let h := bytes (hmacSHA1 secret (string_of (big_endian 8 counter))) in
  let at_ i := List.nth (Z.to_nat i) h 0 in
  let offset := Z.land (List.nth (length h - 1) h 0) 15 in
  let binCode :=
    Z.lor (Z.lor (Z.lor (Z.shiftl (Z.land (at_ offset) 127) 24)
                        (Z.shiftl (Z.land (at_ (offset + 1)) 255) 16))
                 (Z.shiftl (Z.land (at_ (offset + 2)) 255) 8))
          (Z.land (at_ (offset + 3)) 255) in
  sprintf_06d (binCode mod 1000000).

Definition decode_error : error := New "auth/totp: decode base32 secret failed".

(** [base32] without padding, or else with it. *)
Definition decode_secret (secretBase32 : string) : Result string :=
  let s := bytes (ToUpper (TrimSpace secretBase32)) in
  match b32_decode_raw s with
  | Some l => Ok (string_of l)
  | None =>
      match b32_decode_padded s with
      | Some l => Ok (string_of l)
      | None => Err decode_error
      end
  end.

(** [uint64(t.Unix()) / uint64(timeStep.Seconds())]. *)
Definition counter_at (e : TOTPEngine) (t : Time) : Z :=
  (Unix t mod 2 ^ 64) / (e_timeStep e / Second).

Definition GenerateCode (e : TOTPEngine) (secretBase32 : string) (t : Time) : Result string :=
  secretBytes ← decode_secret secretBase32;
  mret (generateHOTP secretBytes (counter_at e t)).

Fixpoint validate_loop (e : TOTPEngine) (secretBase32 code : string) (t : Time) (offsets : list Z)
    : Result bool :=
  match offsets with
  | [] => Ok false
  | offset :: offsets' =>
      expectedCode ← GenerateCode e secretBase32 (Add t (offset * e_timeStep e));
      if String.eqb code expectedCode then mret true
      else validate_loop e secretBase32 code t offsets'
  end.

Definition ValidateCode (e : TOTPEngine) (secretBase32 code : string) (t : Time) : Result bool :=
  let code := TrimSpace code in
  if negb (len code =? e_digits e) then Ok false
  else validate_loop e secretBase32 code t [0; -1; 1].

(** ** Recovery codes *)

Definition recovery_charset : list Z := bytes "23456789ABCDEFGHJKLMNPQRSTUVWXYZ".

(** A code from eight random bytes, a hyphen after the fourth. *)
Definition recovery_code (b : string) : string :=
  let c x := List.nth (Z.to_nat (x mod Z.of_nat (length recovery_charset))) recovery_charset 0 in
  let cs := c <$> bytes b in
  string_of (take 4 cs ++ [45] ++ drop 4 cs).

(** [rands]: the answers of the random source, one per code. *)
Fixpoint GenerateRecoveryCodes (rands : list (Result string)) : Result (list string * list string) :=
  match rands with
  | [] => Ok ([], [])
  | Ok b :: rands' =>
      '(codes, hashes) ← GenerateRecoveryCodes rands';
      let code := recovery_code b in
      mret (code :: codes, sha256_hex code :: hashes)
  | Err e :: _ => Err (Errorf ("auth/totp: generate recovery code failed: " +:+ Error e) e)
  | OutOfFuel :: _ => OutOfFuel
  end.

(** The index of the first stored hash that matches, [None] for -1. *)
Fixpoint index_of (x : string) (l : list string) (i : nat) : option nat :=
  match l with
  | [] => None
  | y :: l' => if String.eqb x y then Some i else index_of x l' (S i)
  end.
Definition VerifyRecoveryCode (rawCode : string) (storedHashes : list string) : option nat :=
  index_of (sha256_hex (TrimSpace (ToUpper rawCode))) storedHashes 0.

(** [append(hashes[:i], hashes[i+1:]...)]. *)
Definition without_index (i : nat) (hashes : list string) : list string :=
  take i hashes ++ drop (S i) hashes.
End totp.

(** ** Sealed secrets

    The key is hashed down when it is not 32 bytes; the nonce travels before
    the ciphertext. *)
Section sealing.
Context `{TOTPPrimitives}.

Definition gcm_key (key : string) : string := if negb (len key =? 32) then Sum256 key else key.

Definition EncryptSecret (nonce : Result string) (plaintext key : string) : Result string :=
  match nonce with
  | Ok n => Ok (n +:+ gcm_Seal (gcm_key key) n plaintext)
  | Err e => Err (Errorf ("auth/crypto: generate nonce failed: " +:+ Error e) e)
  | OutOfFuel => OutOfFuel
  end.

Definition gcm_NonceSize : nat := 12.

Definition DecryptSecret (ciphertext key : string) : Result string :=
  if Nat.ltb (String.length ciphertext) gcm_NonceSize then Err (New "auth/crypto: ciphertext too short")
  else
    let nonce := String.substring 0 gcm_NonceSize ciphertext in
    let encrypted :=
      String.substring gcm_NonceSize (String.length ciphertext - gcm_NonceSize) ciphertext in
    match gcm_Open (gcm_key key) nonce encrypted with
    | None => Err (New "auth/crypto: decrypt failed")
    | Some plaintext => Ok plaintext
    end.
End sealing.

(** * What the second factor guarantees *)

(** ** Text that trimming and upper-casing leave alone *)

Section plain.
Context `{CaseTables}.

Definition plain (c : Z) : bool :=
  between 0 c 127 && negb (IsSpace c) && (upper_rune c =? c).

Lemma plain_TrimSpace l : forallb plain l = true -> TrimSpace (string_of l) = string_of l.
Proof.
  intros Hl. rewrite forallb_forall in Hl.
  assert (Forall is_byte l) as Hb.
  { apply List.Forall_forall. intros c Hc%Hl. unfold plain, between, is_byte in *. bool_to_prop. lia. }
  apply TrimSpace_id.
  - apply is_ascii_Forall. rewrite bytes_string_of by done. apply List.Forall_forall.
    intros c Hc%Hl. unfold plain, between in Hc. bool_to_prop. lia.
  - rewrite bytes_string_of by done. apply List.Forall_forall. intros c Hc%Hl.
    unfold plain in Hc. by bool_to_prop.
Qed.

Lemma plain_ToUpper l : forallb plain l = true -> ToUpper (string_of l) = string_of l.
Proof.
  intros Hl. rewrite forallb_forall in Hl.
  assert (Forall is_byte l) as Hb.
  { apply List.Forall_forall. intros c Hc%Hl. unfold plain, between, is_byte in *. bool_to_prop. lia. }
  apply ToUpper_id.
  - apply is_ascii_Forall. rewrite bytes_string_of by done. apply List.Forall_forall.
    intros c Hc%Hl. unfold plain, between in Hc. bool_to_prop. lia.
  - rewrite bytes_string_of by done. apply List.Forall_forall. intros c Hc%Hl.
    unfold plain in Hc. by bool_to_prop.
Qed.

(** ** Secrets survive their text *)

Lemma b32_char_spec v : 0 <= v < 32 ->
  b32_value (b32_char v) = Some v /\ negb ((b32_char v =? 10) || (b32_char v =? 13)) = true /\
  plain (b32_char v) = true.
Proof.
  intros Hv. assert (forallb (fun n => bool_decide (b32_value (b32_char (Z.of_nat n)) = Some (Z.of_nat n))
    && negb ((b32_char (Z.of_nat n) =? 10) || (b32_char (Z.of_nat n) =? 13))
    && plain (b32_char (Z.of_nat n))) (seq 0 32) = true) as Hall by (vm_compute; reflexivity).
  rewrite forallb_forall in Hall. specialize (Hall (Z.to_nat v)). rewrite Z2Nat.id in Hall by lia.
  assert (In (Z.to_nat v) (seq 0 32)) as Hin by (apply in_seq; lia).
  apply Hall, andb_true_iff in Hin as [[?%bool_decide_eq_true ?]%andb_true_iff ?]. done.
Qed.

Fixpoint b32_values (l : list Z) : list Z :=
  match l with
  | a :: b :: c :: d :: e :: l' =>
      (a / 8) :: (a mod 8 * 4 + b / 64) :: (b / 2 mod 32) :: (b mod 2 * 16 + c / 16)
      :: (c mod 16 * 2 + d / 128) :: (d / 4 mod 32) :: (d mod 4 * 8 + e / 32) :: (e mod 32)
      :: b32_values l'
  | _ => []
  end.

(** Lists of whole groups of five bytes. *)
Inductive fives : list Z -> Prop :=
| fives_nil : fives []
| fives_cons a b c d e l : Forall is_byte [a; b; c; d; e] -> fives l -> fives (a :: b :: c :: d :: e :: l).

Lemma fives_of l : Forall is_byte l -> (length l mod 5 = 0)%nat -> fives l.
Proof.
  remember (length l / 5)%nat as n eqn:En. revert l En. induction n as [|n IH]; intros l En Hl Hm.
  - destruct l; [constructor|]. pose proof (Nat.div_mod_eq (length (z :: l)) 5). simpl in *. lia.
  - pose proof (Nat.div_mod_eq (length l) 5).
    destruct l as [|a [|b [|c [|d [|e l]]]]]; try (simpl in *; lia).
    byte_cases. constructor; [repeat (apply List.Forall_cons; [unfold is_byte; lia|]); constructor|].
    apply IH; [|done|]; simpl length in *.
    + apply (Nat.div_unique _ _ _ 0); lia.
    + symmetry. apply (Nat.mod_unique _ _ n); lia.
Qed.

Lemma b32_values_spec l : fives l ->
  b32_encode l = b32_char <$> b32_values l /\ Forall (fun v => 0 <= v < 32) (b32_values l) /\
  b32_join (b32_values l) = l.
Proof.
  induction 1 as [|a b c d e l Hb _ (IH1 & IH2 & IH3)]; [by repeat constructor|]. byte_cases.
  split; [simpl; by rewrite IH1|]. split.
  - cbn [b32_values]. repeat (apply List.Forall_cons; [zmod_lia|]). done.
  - cbn [b32_values b32_join]. rewrite IH3. do 4 (f_equal; [zmod_lia|]). f_equal. zmod_lia.
Qed.

Lemma b32_values_back vs : Forall (fun v => 0 <= v < 32) vs ->
  mapM b32_value (no_newlines (b32_char <$> vs)) = Some vs /\ forallb plain (b32_char <$> vs) = true.
Proof.
  unfold no_newlines. induction 1 as [|v vs Hv _ [IH1 IH2]]; [done|].
  destruct (b32_char_spec v Hv) as (H1 & H2 & H3).
  rewrite fmap_cons, filter_cons_eq, H2, mapM_cons, H1, IH1. split; [done|].
  cbn [forallb]. by rewrite H3, IH2.
Qed.

Lemma secret_decodes b secret :
  (String.length b mod 5 = 0)%nat -> GenerateSecret (Ok b) = Ok secret -> decode_secret secret = Ok b.
Proof.
  intros Hb [= <-]. pose proof (fives_of (bytes b) (bytes_are_bytes b)) as Hf.
  rewrite bytes_length in Hf. destruct (b32_values_spec _ (Hf Hb)) as (He & Hr & Hj).
  destruct (b32_values_back _ Hr) as [Hm Hp]. rewrite He. unfold decode_secret.
  rewrite plain_TrimSpace, plain_ToUpper by done. rewrite bytes_string_of.
  - unfold b32_decode_raw. rewrite Hm. simpl. by rewrite Hj, string_of_bytes.
  - apply List.Forall_forall. rewrite forallb_forall in Hp. intros c Hc%Hp.
    unfold plain, between, is_byte in *. bool_to_prop. lia.
Qed.
End plain.

(** ** Six digits *)

Definition is_digit (b : Z) : bool := between 48 b 57.

Lemma decimal_digits n z acc : forallb is_digit (bytes acc) = true ->
  forallb is_digit (bytes (decimal n z acc)) = true /\
  String.length (decimal n z acc) = (n + String.length acc)%nat.
Proof.
  revert z acc. induction n as [|n IH]; intros z acc Hacc; [done|].
  destruct (IH (z / 10) (String (digit (z mod 10)) acc)) as [H1 H2].
  - cbn [bytes forallb]. rewrite Hacc, andb_true_r. unfold digit, is_digit, between.
    rewrite byte_ascii_of_Z by zmod_lia. apply andb_true_iff. rewrite !Z.leb_le. zmod_lia.
  - split; [exact H1|]. cbn [decimal]. rewrite H2. simpl. lia.
Qed.

Section engine.
Context `{CaseTables} `{TOTPPrimitives}.

Lemma digit_plain b : is_digit b = true -> plain b = true.
Proof.
  unfold is_digit, between. intros [H1%Z.leb_le H2%Z.leb_le]%andb_true_iff.
  assert (forallb (fun n => plain (Z.of_nat n)) (seq 48 10) = true) as Hall by (vm_compute; reflexivity).
  rewrite forallb_forall in Hall. specialize (Hall (Z.to_nat b)). rewrite Z2Nat.id in Hall by lia.
  apply Hall, in_seq. lia.
Qed.

(** The four bytes are read inside the MAC, and the code is six digits. *)
Lemma generateHOTP_digits secret counter :
  forallb is_digit (bytes (generateHOTP secret counter)) = true /\
  String.length (generateHOTP secret counter) = 6%nat /\
  let h := bytes (hmacSHA1 secret (string_of (big_endian 8 counter))) in
  Z.land (List.nth (length h - 1) h 0) 15 + 3 < Z.of_nat (length h).
Proof.
  unfold generateHOTP. cbv zeta. set (bin := Z.lor _ _). unfold sprintf_06d.
  assert (0 <= bin mod 1000000 < 1000000) by zmod_lia.
  rewrite (proj2 (Z.ltb_lt _ _)) by lia.
  destruct (decimal_digits 6 (bin mod 1000000) "") as [Hd Hl]; [done|]. conjuncts.
  rewrite bytes_length, hmacSHA1_length. simpl (20 - 1)%nat.
  change 15 with (Z.ones 4). rewrite Z.land_ones by lia.
  match goal with |- context [?x mod 2 ^ 4] => pose proof (Z.mod_pos_bound x (2 ^ 4)) end. lia.
Qed.

(** ** The window *)

Lemma validate_loop_spec e secret key code t offsets :
  decode_secret secret = Ok key ->
  exists b, validate_loop e secret code t offsets = Ok b /\
    (b = true <-> exists k, k ∈ offsets /\
       code = generateHOTP key (counter_at e (t + k * e_timeStep e))).
Proof.
  intros Hd. induction offsets as [|k ks (b & IH1 & IH2)]; simpl.
  - exists false. split; [done|]. split; [done|]. by intros (k & ?%elem_of_nil & _).
  - unfold GenerateCode. rewrite Hd. cbn [mbind res_bind mret res_ret]. unfold Add.
    destruct (String.eqb_spec code (generateHOTP key (counter_at e (t + k * e_timeStep e)))) as [->|Hne].
    + exists true. split; [done|]. split; [|done]. intros _. exists k. split; [set_solver|done].
    + exists b. split; [done|]. rewrite IH2. split; intros (k' & Hk & E); exists k'.
      * split; [set_solver|done].
      * split; [|done]. apply elem_of_cons in Hk as [->|]; done.
Qed.

Lemma counter_shift iss t k :
  0 <= t + k * (30 * Second) < 2 ^ 63 * Second -> 0 <= t ->
  counter_at (NewTOTPEngine iss) (t + k * (30 * Second)) = Unix t / 30 + k.
Proof.
  intros Ht Ht0. unfold counter_at, Unix, NewTOTPEngine, e_timeStep, Second in *.
  change (30 * 1000000000 / 1000000000) with 30.
  rewrite Z.mod_small by zmod_lia. zmod_lia.
Qed.

(** The code check accepts exactly the codes of the present step of
    thirty seconds and of the two around it, surrounding space aside; every
    accepted code is six decimal digits; and the code of any moment is
    accepted whenever the clocks are at most thirty seconds apart.  The check
    always answers on a secret the engine generated. *)
Theorem ValidateCode_window iss rand secret t :
  String.length rand = 20%nat -> GenerateSecret (Ok rand) = Ok secret ->
  30 * Second <= t < 2 ^ 62 * Second ->
  let e := NewTOTPEngine iss in
  (forall code, exists b, ValidateCode e secret code t = Ok b /\
    (b = true <-> exists k, -1 <= k <= 1 /\ TrimSpace code = generateHOTP rand (Unix t / 30 + k)) /\
    (b = true -> String.length (TrimSpace code) = 6%nat /\
                 forallb is_digit (bytes (TrimSpace code)) = true)) /\
  (forall t' code, Z.abs (t - t') <= 30 * Second -> 0 <= t' -> GenerateCode e secret t' = Ok code ->
    ValidateCode e secret code t = Ok true).
Proof.
  intros Hlen Hs Ht e.
  assert (decode_secret secret = Ok rand) as Hd by (eapply secret_decodes; [by rewrite Hlen|done]).
  assert (forall k, -1 <= k <= 1 -> counter_at e (t + k * e_timeStep e) = Unix t / 30 + k) as Hk.
  { intros k Hk. apply counter_shift; unfold Second in *; lia. }
  assert (forall code, exists b, ValidateCode e secret code t = Ok b /\
    (b = true <-> exists k, -1 <= k <= 1 /\ TrimSpace code = generateHOTP rand (Unix t / 30 + k))) as Hv.
  { intros code. unfold ValidateCode. simpl (e_digits e).
    destruct (Z.eqb_spec (len (TrimSpace code)) 6) as [|Hne]; cbn [negb].
    - destruct (validate_loop_spec e secret rand (TrimSpace code) t [0; -1; 1] Hd) as (b & -> & Hb).
      exists b. split; [done|]. rewrite Hb. split; intros (k & Hin & E); exists k.
      + assert (-1 <= k <= 1) by (rewrite !elem_of_cons, elem_of_nil in Hin; lia).
        split; [done|]. by rewrite <- Hk.
      + split; [|by rewrite Hk]. rewrite !elem_of_cons. lia.
    - exists false. split; [done|]. split; [done|]. intros (k & _ & E). exfalso. apply Hne.
      unfold len. rewrite E. by destruct (generateHOTP_digits rand (Unix t / 30 + k)) as (_ & -> & _). }
  split.
  - intros code. destruct (Hv code) as (b & -> & Hb). exists b. split; [done|]. split; [done|].
    intros (k & _ & ->)%Hb. by destruct (generateHOTP_digits rand (Unix t / 30 + k)) as (? & ? & _).
  - intros t' code Hab Ht' Hg. unfold GenerateCode in Hg. rewrite Hd in Hg. injection Hg as <-.
    assert (counter_at e t' = Unix t' / 30 + 0) as ->.
    { replace t' with (t' + 0 * (30 * Second)) at 1 by lia.
      apply counter_shift; unfold Second in *; lia. }
    set (c := generateHOTP rand _).
    assert (TrimSpace c = c) as Htrim.
    { rewrite <- (string_of_bytes c). apply plain_TrimSpace.
      destruct (generateHOTP_digits rand (Unix t' / 30 + 0)) as (Hdig & _). fold c in Hdig.
      rewrite forallb_forall in *. intros b Hb%Hdig. by apply digit_plain. }
    destruct (Hv c) as (b & -> & Hb). f_equal. apply Hb. rewrite Htrim.
    exists (Unix t' / 30 - Unix t / 30). split; [unfold Unix, Second in *; zmod_lia|].
    subst c. f_equal. lia.
Qed.
End engine.

(** ** Recovery codes *)

Section recovery.
Context `{CaseTables} `{TOTPPrimitives}.

Lemma index_of_spec x l i :
  match index_of x l i with
  | Some j => exists k, j = (i + k)%nat /\ l !! k = Some x
  | None => x ∉ l
  end.
Proof.
  revert i. induction l as [|y l IH]; intros i; simpl; [by intros ?%elem_of_nil|].
  destruct (String.eqb_spec x y) as [->|Hne]; [exists O; split; [lia|done]|].
  specialize (IH (S i)). destruct (index_of x l (S i)) as [j|].
  - destruct IH as (k & -> & Hk). exists (S k). split; [lia|done].
  - set_solver.
Qed.

Lemma index_of_NoDup x l k : NoDup l -> l !! k = Some x -> index_of x l 0 = Some k.
Proof.
  intros Hnd Hk. pose proof (index_of_spec x l 0) as Hs. destruct (index_of x l 0) as [j|].
  - destruct Hs as (k' & -> & Hk'). by rewrite (NoDup_lookup _ _ _ _ Hnd Hk Hk').
  - destruct Hs. by eapply list_elem_of_lookup_2.
Qed.

Lemma charset_plain x : plain (List.nth (Z.to_nat (x mod Z.of_nat (length recovery_charset))) recovery_charset 0) = true.
Proof.
  assert (forallb plain recovery_charset = true) as Hall by (vm_compute; reflexivity).
  rewrite forallb_forall in Hall. apply Hall, nth_In.
  pose proof (Z.mod_pos_bound x (Z.of_nat (length recovery_charset))).
  assert (0 < Z.of_nat (length recovery_charset)) by (vm_compute; reflexivity). lia.
Qed.

Lemma recovery_code_plain b : exists l, recovery_code b = string_of l /\ forallb plain l = true.
Proof.
  eexists. split; [reflexivity|]. apply forallb_forall. intros c.
  rewrite !in_app_iff. intros [Hc|[[<-|[]]|Hc]]; [|vm_compute; reflexivity|].
  - apply list_elem_of_In, subseteq_take, list_elem_of_fmap in Hc as (x & -> & _). apply charset_plain.
  - apply list_elem_of_In, subseteq_drop, list_elem_of_fmap in Hc as (x & -> & _). apply charset_plain.
Qed.

Lemma verify_generated b hashes :
  VerifyRecoveryCode (recovery_code b) hashes = index_of (sha256_hex (recovery_code b)) hashes 0.
Proof.
  destruct (recovery_code_plain b) as (l & E & Hl). unfold VerifyRecoveryCode.
  by rewrite E, plain_ToUpper, plain_TrimSpace.
Qed.

Lemma generated_codes rands codes hashes :
  GenerateRecoveryCodes (Ok <$> rands) = Ok (codes, hashes) ->
  codes = recovery_code <$> rands /\ hashes = sha256_hex <$> codes.
Proof.
  revert codes hashes. induction rands as [|b rands IH]; intros codes hashes; [by intros [= <- <-]|].
  rewrite fmap_cons. cbn [GenerateRecoveryCodes].
  destruct (GenerateRecoveryCodes (Ok <$> rands)) as [[cs hs]|e|]; [|done..].
  intros [= <- <-]. by destruct (IH _ _ eq_refl) as [-> ->].
Qed.

Lemma without_index_NoDup i (l : list string) : NoDup l -> NoDup (without_index i l).
Proof.
  intros Hl. unfold without_index. rewrite <- (take_drop i l) in Hl.
  apply NoDup_app in Hl as (H1 & H2 & H3). apply NoDup_app. split; [done|]. split.
  - intros x Hx Hin. apply (H2 x Hx). replace (S i) with (i + 1)%nat in Hin by lia.
    rewrite <- drop_drop in Hin. by apply subseteq_drop in Hin.
  - replace (S i) with (i + 1)%nat by lia. rewrite <- drop_drop.
    rewrite <- (take_drop 1 (drop i l)) in H3. by apply NoDup_app in H3 as (_ & _ & H3).
Qed.

Lemma elem_of_without_index i x y (l : list string) : NoDup l -> l !! i = Some y ->
  x ∈ without_index i l <-> x ∈ l /\ x <> y.
Proof.
  intros Hl Hi. unfold without_index. rewrite elem_of_app.
  pose proof (take_drop_middle l i y Hi) as E. rewrite <- E in Hl |- *.
  apply NoDup_app in Hl as (_ & H2 & [Hy _]%NoDup_cons).
  rewrite elem_of_app, elem_of_cons. rewrite E. split.
  - intros [Hx|Hx]; (split; [by auto|]); intros ->; [|done].
    apply (H2 y Hx). apply elem_of_cons. by left.
  - intros [[Hx|[->|Hx]] Hne]; auto. done.
Qed.

(** Each recovery code works once.  Of the codes the engine generates,
    as long as no two have the same hash, the [i]th is recognised as the
    [i]th; once its hash is taken out of the list, as a sign-in with it does,
    it is no longer recognised and every other code still is; and a secret
    sealed under a key comes back under that key. *)
Theorem recovery_codes_single_use rands codes hashes :
  GenerateRecoveryCodes (Ok <$> rands) = Ok (codes, hashes) -> NoDup hashes ->
  (forall i code, codes !! i = Some code ->
    VerifyRecoveryCode code hashes = Some i /\
    VerifyRecoveryCode code (without_index i hashes) = None /\
    forall j other, codes !! j = Some other -> j <> i ->
      is_Some (VerifyRecoveryCode other (without_index i hashes))) /\
  forall nonce secret key sealed, String.length nonce = gcm_NonceSize ->
    EncryptSecret (Ok nonce) secret key = Ok sealed -> DecryptSecret sealed key = Ok secret.
Proof.
  intros [-> ->]%generated_codes Hnd. split.
  - intros i code Hi. assert ((sha256_hex <$> (recovery_code <$> rands)) !! i = Some (sha256_hex code)) as Hh
      by (by rewrite list_lookup_fmap, Hi).
    rewrite list_lookup_fmap in Hi. destruct (rands !! i) as [b|] eqn:Eb; [|done]. injection Hi as <-.
    rewrite !verify_generated. conjuncts.
    + by apply index_of_NoDup.
    + pose proof (index_of_spec (sha256_hex (recovery_code b))
        (without_index i (sha256_hex <$> (recovery_code <$> rands))) 0) as Hs.
      destruct (index_of _ _ 0) as [j|]; [|done]. destruct Hs as (k & _ & Hk).
      apply list_elem_of_lookup_2, (elem_of_without_index _ _ _ _ Hnd Hh) in Hk as [_ ?]. done.
    + intros j other Hj Hji. assert ((sha256_hex <$> (recovery_code <$> rands)) !! j = Some (sha256_hex other)) as Hh'
        by (by rewrite list_lookup_fmap, Hj).
      rewrite list_lookup_fmap in Hj. destruct (rands !! j) as [b'|]; [|done]. injection Hj as <-.
      rewrite verify_generated.
      pose proof (index_of_spec (sha256_hex (recovery_code b'))
        (without_index i (sha256_hex <$> (recovery_code <$> rands))) 0) as Hs.
      destruct (index_of _ _ 0) as [k|]; [by eexists|]. destruct Hs.
      apply (elem_of_without_index _ _ _ _ Hnd Hh). split; [by eapply list_elem_of_lookup_2|].
      intros E. apply Hji. rewrite <- E in Hh. by apply (NoDup_lookup _ _ _ _ Hnd Hh' Hh).
  - intros nonce secret key sealed Hn [= <-]. unfold DecryptSecret. rewrite str_length_app, Hn.
    rewrite (proj2 (Nat.ltb_ge _ _)) by lia. rewrite <- Hn, substring_prefix, Nat.add_comm, Nat.add_sub.
    by rewrite substring_suffix, gcm_Open_Seal.
Qed.
End recovery.

(** ** Executable primitives, for the witnesses *)

Definition demo_totp : TOTPPrimitives.
Proof.
  refine {| hmacSHA1 := fun k m => string_of (take 20 (bytes (m +:+ k) ++ repeat 48 20));
            Sum256 := fun s => s;
            gcm_Seal := fun _ _ p => p;
            gcm_Open := fun _ _ c => Some c |}.
  - intros k m. rewrite <- bytes_length, bytes_string_of.
    + rewrite length_take, length_app, repeat_length. lia.
    + apply Forall_take, Forall_app. split; [apply bytes_are_bytes|]. repeat constructor; done.
  - done.
Defined.

Definition demo_rand : string := "01234567890123456789".

Lemma ValidateCode_window_witness :
  exists secret code, @GenerateSecret (Ok demo_rand) = Ok secret /\
    @GenerateCode ascii_tables demo_totp (NewTOTPEngine "alx") secret (1000 * Second) = Ok code /\
    @ValidateCode ascii_tables demo_totp (NewTOTPEngine "alx") secret code (1030 * Second) = Ok true.
Proof.
  destruct (@GenerateSecret (Ok demo_rand)) as [secret|e|] eqn:Es; [|discriminate..].
  destruct (@GenerateCode ascii_tables demo_totp (NewTOTPEngine "alx") secret (1000 * Second))
    as [code|e|] eqn:Ec.
  2,3: exfalso; injection Es as <-; vm_compute in Ec; discriminate Ec.
  exists secret, code. split; [reflexivity|]. split; [exact Ec|].
  destruct (@ValidateCode_window ascii_tables demo_totp "alx" demo_rand secret (1030 * Second)
              eq_refl Es) as [_ Hw]; [unfold Second; lia|].
  apply (Hw (1000 * Second)); [unfold Second; lia|unfold Second; lia|exact Ec].
Defined.

Lemma recovery_codes_single_use_witness :
  exists codes hashes, @GenerateRecoveryCodes demo_totp (Ok <$> ["abcdefgh"; "abcdefgi"]) = Ok (codes, hashes) /\
    @VerifyRecoveryCode ascii_tables demo_totp "3456-789A" (without_index 0 hashes) = None.
Proof.
  destruct (@GenerateRecoveryCodes demo_totp (Ok <$> ["abcdefgh"; "abcdefgi"])) as [[codes hashes]|e|] eqn:E;
    [|discriminate..].
  exists codes, hashes. split; [reflexivity|].
  assert (NoDup hashes) as Hnd.
  { vm_compute in E. injection E as <- <-. apply (bool_decide_unpack _). vm_compute. exact I. }
  destruct (@recovery_codes_single_use ascii_tables demo_totp _ _ _ E Hnd) as [H _].
  apply (H 0%nat). vm_compute in E. injection E as <- <-. vm_compute. reflexivity.
Defined.
