(* ===== verification/AuthStore.v ===== *)
(** * The identity store (src/internal/persistence/postgres:
      auth_repository.go, library_repository.go,
      network_settings_repository.go)

    The tables of users, credentials, sessions, second factors, password
    resets, libraries, memberships and invitations, with the constraints of
    migration 00009, and every statement of their repositories. *)

From S2P Require Import Prelude GoStrings Errors Catalog Transactor Postgres Pairing PairingStore Identity.

Local Open Scope string_scope.
Local Open Scope list_scope.
Local Open Scope Z_scope.

(** A row has the columns of the value it stores, so the value stands for it;
    the pairing tables are those of the device a sign-in may enrol. *)
Record auth_db := mkAuthDb {
  users : gmap string User;
  credentials : gmap string UserCredentials;
  refresh_tokens : gmap string RefreshToken;
  totp_settings : gmap string TOTPSettings;
  password_resets : gmap string PasswordResetToken;
  libraries : gmap string Library;
  memberships : gmap string LibraryMembership;
  invitations : gmap string LibraryInvitation;
  network_settings : option NetworkSettings;
  network : pairing_db;
}.

Definition set_users t db := mkAuthDb t (credentials db) (refresh_tokens db) (totp_settings db)
  (password_resets db) (libraries db) (memberships db) (invitations db) (network_settings db) (network db).
Definition set_credentials t db := mkAuthDb (users db) t (refresh_tokens db) (totp_settings db)
  (password_resets db) (libraries db) (memberships db) (invitations db) (network_settings db) (network db).
Definition set_refresh_tokens t db := mkAuthDb (users db) (credentials db) t (totp_settings db)
  (password_resets db) (libraries db) (memberships db) (invitations db) (network_settings db) (network db).
Definition set_totp_settings t db := mkAuthDb (users db) (credentials db) (refresh_tokens db) t
  (password_resets db) (libraries db) (memberships db) (invitations db) (network_settings db) (network db).
Definition set_password_resets t db := mkAuthDb (users db) (credentials db) (refresh_tokens db)
  (totp_settings db) t (libraries db) (memberships db) (invitations db) (network_settings db) (network db).
Definition set_libraries t db := mkAuthDb (users db) (credentials db) (refresh_tokens db)
  (totp_settings db) (password_resets db) t (memberships db) (invitations db) (network_settings db) (network db).
Definition set_memberships t db := mkAuthDb (users db) (credentials db) (refresh_tokens db)
  (totp_settings db) (password_resets db) (libraries db) t (invitations db) (network_settings db) (network db).
Definition set_invitations t db := mkAuthDb (users db) (credentials db) (refresh_tokens db)
  (totp_settings db) (password_resets db) (libraries db) (memberships db) t (network_settings db) (network db).
Definition set_network_settings t db := mkAuthDb (users db) (credentials db) (refresh_tokens db)
  (totp_settings db) (password_resets db) (libraries db) (memberships db) (invitations db) t (network db).
Definition set_network t db := mkAuthDb (users db) (credentials db) (refresh_tokens db)
  (totp_settings db) (password_resets db) (libraries db) (memberships db) (invitations db)
  (network_settings db) t.

Abbreviation authM := (stM auth_db error) (only parsing).

(** A foreign key to a user. *)
Definition known_user (id : UserID) (db : auth_db) : bool := bool_decide (is_Some (users db !! id)).

(** ** Users *)

Section store.
Context `{CaseTables}.

(** PostgreSQL's [LOWER]. *)
Context (LOWER : string -> string).

(** The constructor of a row's columns. *)
Definition scan_user (u : User) : Result User :=
  role ← ParseRole (u_role u);
  NewUser (u_id u) (u_username u) (u_email u) role (u_createdAt u) (u_updatedAt u).

Definition FindUserByID (fault : option pg_error) (id : UserID) : authM User :=
  u ← query_one fault "user not found" (fun db => users db !! id);
  reading (fun _ => scan_user u).

Definition FindUserByEmail (fault : option pg_error) (email : string) : authM User :=
  u ← query_one fault "user not found"
        (fun db => snd <$> first_row (fun u => String.eqb (LOWER (u_email u)) (LOWER email)) (users db));
  reading (fun _ => scan_user u).

Definition FindUserByUsername (fault : option pg_error) (username : string) : authM User :=
  u ← query_one fault "user not found"
        (fun db => snd <$> first_row (fun u => String.eqb (LOWER (u_username u)) (LOWER username)) (users db));
  reading (fun _ => scan_user u).

Definition CountUsers (fault : option pg_error) : authM Z :=
  exec fault (fun db => Ok (Z.of_nat (size (users db)), db)).

(** No other user has the name or the address. *)
Definition user_unique (id : UserID) (u : User) (t : gmap string User) : bool :=
  bool_decide (map_Forall (fun k r => k = id \/ (u_username r <> u_username u /\ u_email r <> u_email u)) t).

Definition SaveUser (fault : option pg_error) (u : User) : authM unit :=
  exec fault (fun db =>
    if negb (role_valid (u_role u)) then Err check_violation
    else if negb (user_unique (u_id u) u (users db)) then Err unique_violation
    else
      let row := match users db !! u_id u with
                 | None => u
                 | Some r => mkUser (u_id u) (u_username u) (u_email u) (u_role u) (u_createdAt r)
                               (u_updatedAt u)
                 end in
      Ok (tt, set_users (<[u_id u := row]> (users db)) db)).

(** ** Credentials *)

Definition FindCredentials (fault : option pg_error) (userID : UserID) : authM UserCredentials :=
  c ← query_one fault "credentials not found" (fun db => credentials db !! userID);
  reading (fun _ => NewUserCredentials userID (uc_passwordHash c) (uc_updatedAt c)).

Definition SaveCredentials (fault : option pg_error) (c : UserCredentials) : authM unit :=
  exec fault (fun db =>
    if negb (known_user (uc_userID c) db) then Err foreign_key_violation
    else Ok (tt, set_credentials (<[uc_userID c := c]> (credentials db)) db)).

(** ** Refresh tokens *)

Definition FindRefreshToken (fault : option pg_error) (hash : string) : authM RefreshToken :=
  query_one fault "refresh token not found"
    (fun db => snd <$> first_row (fun r => String.eqb (rt_tokenHash r) hash) (refresh_tokens db)).

(** An insert, or an update of [revoked_at]. *)
Definition SaveRefreshToken (fault : option pg_error) (rt : RefreshToken) : authM unit :=
  exec fault (fun db =>
    match refresh_tokens db !! rt_id rt with
    | Some r =>
        Ok (tt, set_refresh_tokens (<[rt_id rt := mkRefreshToken (rt_id r) (rt_userID r) (rt_tokenHash r)
              (rt_expiresAt r) (rt_revokedAt rt) (rt_createdAt r)]> (refresh_tokens db)) db)
    | None =>
        if bool_decide (map_Forall (fun _ r => rt_tokenHash r <> rt_tokenHash rt) (refresh_tokens db)) then
          if known_user (rt_userID rt) db then
            Ok (tt, set_refresh_tokens (<[rt_id rt := rt]> (refresh_tokens db)) db)
          else Err foreign_key_violation
        else Err unique_violation
    end).

Definition RevokeAllForUser (fault : option pg_error) (userID : UserID) (now : Time) : authM unit :=
  exec fault (fun db =>
    let t := (update_where
                (fun _ r => String.eqb (rt_userID r) userID && bool_decide (rt_revokedAt r = None))
                (RevokeToken now) (refresh_tokens db)).2 in
    Ok (tt, set_refresh_tokens t db)).

(** ** Second factors *)

Definition FindTOTP (fault : option pg_error) (userID : UserID) : authM TOTPSettings :=
  s ← query_one fault "MFA settings not found" (fun db => totp_settings db !! userID);
  reading (fun _ => NewTOTPSettings userID (ts_encryptedSecret s) (ts_recoveryCodeHashes s)
                      (ts_enabled s) (ts_confirmedAt s) (ts_createdAt s)).

Definition SaveTOTP (fault : option pg_error) (s : TOTPSettings) : authM unit :=
  exec fault (fun db =>
    match totp_settings db !! ts_userID s with
    | Some r =>
        Ok (tt, set_totp_settings (<[ts_userID s := mkTOTPSettings (ts_userID s) (ts_encryptedSecret s)
              (ts_recoveryCodeHashes s) (ts_enabled s) (ts_confirmedAt s) (ts_createdAt r)]>
              (totp_settings db)) db)
    | None =>
        if known_user (ts_userID s) db then
          Ok (tt, set_totp_settings (<[ts_userID s := s]> (totp_settings db)) db)
        else Err foreign_key_violation
    end).

Definition DeleteTOTP (fault : option pg_error) (userID : UserID) : authM unit :=
  exec fault (fun db => Ok (tt, set_totp_settings (delete userID (totp_settings db)) db)).

(** ** Password resets *)

Definition FindPasswordReset (fault : option pg_error) (hash : string) : authM PasswordResetToken :=
  query_one fault "password reset token not found"
    (fun db => snd <$> first_row (fun r => String.eqb (pr_tokenHash r) hash) (password_resets db)).

(** An insert, or an update of [used_at]. *)
Definition SavePasswordReset (fault : option pg_error) (p : PasswordResetToken) : authM unit :=
  exec fault (fun db =>
    match password_resets db !! pr_id p with
    | Some r =>
        Ok (tt, set_password_resets (<[pr_id p := mkPasswordResetToken (pr_id r) (pr_userID r)
              (pr_tokenHash r) (pr_expiresAt r) (pr_usedAt p) (pr_createdAt r)]> (password_resets db)) db)
    | None =>
        if bool_decide (map_Forall (fun _ r => pr_tokenHash r <> pr_tokenHash p) (password_resets db)) then
          if known_user (pr_userID p) db then
            Ok (tt, set_password_resets (<[pr_id p := p]> (password_resets db)) db)
          else Err foreign_key_violation
        else Err unique_violation
    end).

(** ** Libraries *)

Definition scan_library (l : Library) : Result Library :=
  NewLibrary (l_id l) (l_name l) (l_description l) (l_allowReaderUploads l) (l_createdAt l) (l_updatedAt l).

(** [ORDER BY name ASC]. *)
Definition by_name (l1 l2 : Library) : bool := String.leb (l_name l1) (l_name l2).

Definition FindLibraryByID (fault : option pg_error) (id : LibraryID) : authM Library :=
  l ← query_one fault "library not found" (fun db => libraries db !! id);
  reading (fun _ => scan_library l).

Definition FindAllLibraries (fault : option pg_error) : authM (list Library) :=
  rows ← exec fault (fun db => Ok (sort_by by_name (map_to_list (libraries db)).*2, db));
  reading (fun _ => scan_rows scan_library rows).

(** The join with the memberships of a user. *)
Definition FindLibrariesByUser (fault : option pg_error) (userID : UserID) : authM (list Library) :=
  rows ← exec fault (fun db =>
    Ok (sort_by by_name (omap (fun m => if String.eqb (lm_userID m) userID
                                        then libraries db !! lm_libraryID m else None)
                          (map_to_list (memberships db)).*2), db));
  reading (fun _ => scan_rows scan_library rows).

Definition SaveLibrary (fault : option pg_error) (l : Library) : authM unit :=
  exec fault (fun db =>
    let row := match libraries db !! l_id l with
               | None => l
               | Some r => mkLibrary (l_id l) (l_name l) (l_description l) (l_allowReaderUploads l)
                             (l_createdAt r) (l_updatedAt l)
               end in
    Ok (tt, set_libraries (<[l_id l := row]> (libraries db)) db)).

(** With the memberships and invitations that reference it ([ON DELETE
    CASCADE]); the catalogue's rows are outside these tables. *)
Definition DeleteLibrary (fault : option pg_error) (id : LibraryID) : authM unit :=
  exec fault (fun db =>
    Ok (tt, set_invitations (delete_where (fun i => String.eqb (li_libraryID i) id) (invitations db)).2
              (set_memberships (delete_where (fun m => String.eqb (lm_libraryID m) id) (memberships db)).2
                 (set_libraries (delete id (libraries db)) db)))).

(** ** Memberships *)

Definition scan_membership (m : LibraryMembership) : Result LibraryMembership :=
  role ← ParseRole (lm_role m);
  NewLibraryMembership (lm_id m) (lm_libraryID m) (lm_userID m) role (lm_createdAt m).

Definition membership_of (libraryID : LibraryID) (userID : UserID) (m : LibraryMembership) : bool :=
  String.eqb (lm_libraryID m) libraryID && String.eqb (lm_userID m) userID.

Definition FindMembership (fault : option pg_error) (libraryID : LibraryID) (userID : UserID)
    : authM LibraryMembership :=
  m ← query_one fault "membership not found"
        (fun db => snd <$> first_row (membership_of libraryID userID) (memberships db));
  reading (fun _ => scan_membership m).

(** [ORDER BY created_at ASC]. *)
Definition by_created (m1 m2 : LibraryMembership) : bool := lm_createdAt m1 <=? lm_createdAt m2.

Definition FindMembersByLibrary (fault : option pg_error) (libraryID : LibraryID)
    : authM (list LibraryMembership) :=
  rows ← exec fault (fun db =>
    Ok (sort_by by_created (List.filter (fun m => String.eqb (lm_libraryID m) libraryID)
                              (map_to_list (memberships db)).*2), db));
  reading (fun _ => scan_rows scan_membership rows).

Definition FindMembershipsByUser (fault : option pg_error) (userID : UserID)
    : authM (list LibraryMembership) :=
  rows ← exec fault (fun db =>
    Ok (sort_by by_created (List.filter (fun m => String.eqb (lm_userID m) userID)
                              (map_to_list (memberships db)).*2), db));
  reading (fun _ => scan_rows scan_membership rows).

(** [ON CONFLICT (library_id, user_id) DO UPDATE SET role]. *)
Definition SaveMembership (fault : option pg_error) (m : LibraryMembership) : authM unit :=
  exec fault (fun db =>
    if negb (role_valid (lm_role m)) then Err check_violation
    else match first_row (membership_of (lm_libraryID m) (lm_userID m)) (memberships db) with
    | Some (k, r) =>
        Ok (tt, set_memberships (<[k := mkLibraryMembership (lm_id r) (lm_libraryID r) (lm_userID r)
              (lm_role m) (lm_createdAt r)]> (memberships db)) db)
    | None =>
        if bool_decide (is_Some (memberships db !! lm_id m)) then Err unique_violation
        else if negb (known_user (lm_userID m) db)
                || negb (bool_decide (is_Some (libraries db !! lm_libraryID m))) then
          Err foreign_key_violation
        else Ok (tt, set_memberships (<[lm_id m := m]> (memberships db)) db)
    end).

Definition DeleteMembership (fault : option pg_error) (libraryID : LibraryID) (userID : UserID)
    : authM unit :=
  exec fault (fun db =>
    Ok (tt, set_memberships (delete_where (membership_of libraryID userID) (memberships db)).2 db)).

(** ** Invitations *)

Definition scan_invitation (i : LibraryInvitation) : Result LibraryInvitation :=
  role ← ParseRole (li_role i);
  mret (RehydrateLibraryInvitation (li_id i) (li_libraryID i) (li_email i) role (li_tokenHash i)
          (li_createdBy i) (li_expiresAt i) (li_usedAt i) (li_createdAt i)).

Definition FindInvitationByID (fault : option pg_error) (id : string) : authM LibraryInvitation :=
  i ← query_one fault "invitation not found" (fun db => invitations db !! id);
  reading (fun _ => scan_invitation i).

Definition FindInvitationByHash (fault : option pg_error) (hash : string) : authM LibraryInvitation :=
  i ← query_one fault "invitation not found"
        (fun db => snd <$> first_row (fun i => String.eqb (li_tokenHash i) hash) (invitations db));
  reading (fun _ => scan_invitation i).

(** [ORDER BY created_at DESC]. *)
Definition FindInvitationsByLibrary (fault : option pg_error) (libraryID : LibraryID)
    : authM (list LibraryInvitation) :=
  rows ← exec fault (fun db =>
    Ok (sort_by (fun i1 i2 => li_createdAt i2 <=? li_createdAt i1)
          (List.filter (fun i => String.eqb (li_libraryID i) libraryID)
             (map_to_list (invitations db)).*2), db));
  reading (fun _ => scan_rows scan_invitation rows).

(** An insert, or an update of [used_at]. *)
Definition SaveInvitation (fault : option pg_error) (i : LibraryInvitation) : authM unit :=
  exec fault (fun db =>
    if negb (role_valid (li_role i)) then Err check_violation
    else match invitations db !! li_id i with
    | Some r =>
        Ok (tt, set_invitations (<[li_id i := mkLibraryInvitation (li_id r) (li_libraryID r) (li_email r)
              (li_role r) (li_tokenHash r) (li_createdBy r) (li_expiresAt r) (li_usedAt i)
              (li_createdAt r)]> (invitations db)) db)
    | None =>
        if bool_decide (map_Forall (fun _ r => li_tokenHash r <> li_tokenHash i) (invitations db)) then
          if known_user (li_createdBy i) db && bool_decide (is_Some (libraries db !! li_libraryID i)) then
            Ok (tt, set_invitations (<[li_id i := i]> (invitations db)) db)
          else Err foreign_key_violation
        else Err unique_violation
    end).

Definition DeleteInvitation (fault : option pg_error) (id : string) : authM unit :=
  exec fault (fun db => Ok (tt, set_invitations (delete id (invitations db)) db)).

(** ** Network settings (network_settings_repository.go) *)

Definition GetNetworkSettings (fault : option pg_error) : authM NetworkSettings :=
  query_one fault "network settings not found" network_settings.

Definition UpsertNetworkSettings (fault : option pg_error) (s : option NetworkSettings) : authM unit :=
  match s with
  | None => throw (mkErr InvalidInput "network settings cannot be nil")
  | Some s =>
      exec fault (fun db =>
        if (1 <=? ns_RememberDeviceDays s) && (ns_RememberDeviceDays s <=? 90)
        then Ok (tt, set_network_settings (Some s) db)
        else Err check_violation)
  end.

(** ** The pairing tables, from here

    A statement of the pairing store, against the users of this one. *)
Definition on_network {A} (inet : string -> option string) (m : Server -> stM pairing_db error A)
    : authM A := fun db =>
  let server := mkServer (fun u => known_user u db) inet in
  let '(r, n) := m server (network db) in
  (r, set_network n db).
End store.
