(* ===== verification/AuthHandlers.v ===== *)
(** * Sign-in (src/internal/transport/http/auth_handlers.go)

    Each handler whole, as a computation on the identity store: the decoded
    body is an argument ([None] when it does not decode), as are the answers
    of the rate limiters, the random source, the identifier generator and the
    clock, and the driver's error of each statement, by its number in the
    handler. *)

From S2P Require Import Prelude GoStrings Errors Catalog Transactor Postgres Http Pairing PairingStore Identity Encoding Tokens Totp AuthStore.

Local Open Scope string_scope.
Local Open Scope list_scope.
Local Open Scope Z_scope.

(** ** Handlers and their parameters *)

Abbreviation handlerM := (stM auth_db http_error) (only parsing).

(** [auth.PasswordHasher]: the key derivation function is a parameter; what
    the handlers rely on is that the password hashed verifies. *)
Class PasswordHasher := {
  HashPassword : string -> string -> Result string;
  VerifyPassword : string -> string -> Result bool;
  verify_hashed salt password hash :
    HashPassword salt password = Ok hash -> VerifyPassword password hash = Ok true;
}.

Record UserSummaryWire := mkUserSummary {
  us_ID : string;
  us_Username : string;
  us_Email : string;
  us_Role : string;
}.

Inductive AuthResponse :=
| SignedIn (user : option UserSummaryWire) (accessToken refreshToken : string)
| MFARequired (mfaTicket : string).

(** What a handler is built with. *)
Record AuthConfig := mkAuthConfig {
  cfg_signer : JWTSigner;
  cfg_engine : TOTPEngine;
  cfg_masterKey : string;
  cfg_grantSigner : option GrantSigner;
  cfg_settings : bool;
  cfg_LOWER : string -> string;
  cfg_inet : string -> option string;
}.

(** What a call draws: the random bytes of tokens, the identifiers, and the
    clock. *)
Record Draws := mkDraws {
  d_rand : string;
  d_jti : Result string;
  d_newID : nat -> string;
  d_now : Time;
}.

Abbreviation Faults := (nat -> option pg_error) (only parsing).

Section handlers.
Context `{CaseTables} `{TokenPrimitives} `{TOTPPrimitives} `{PasswordHasher} (cfg : AuthConfig).

(** The raw token and the hash that is stored of it.  [crypto/rand.Read] does
    not fail. *)
Definition generateRandomToken (rand : string) : string * string :=
  let raw := hex_EncodeToString rand in (raw, sha256_hex raw).

(** ** Enrolment grants ([applyEnrolmentGrant])

    Every failure is logged and dropped. *)
Definition applyEnrolmentGrant (claim_fault assign_fault : option pg_error) (grant : string)
    (userID : UserID) (now : Time) : handlerM unit :=
  match cfg_grantSigner cfg with
  | None => mret tt
  | Some grantSigner =>
      if String.eqb grant "" then mret tt
      else match VerifyGrant grantSigner grant now with
      | Ok claims =>
          claimed ← attempt (on_network (cfg_inet cfg) (fun _ => ClaimGrant claim_fault (ec_JTI claims) now));
          match claimed with
          | Ok true =>
              dropping (on_network (cfg_inet cfg)
                (fun server => AssignOwnerByPairingSession server assign_fault (ec_SessionID claims) userID))
          | _ => mret tt
          end
      | _ => mret tt
      end
  end.

(** ** Tokens for a session *)

Definition access_claims (user : User) (role : Role) (libIDs : list LibraryID) (jti : string) (now : Time)
    : Claims :=
  mkClaims (u_id user) (u_username user) role libIDs jti (Unix now) (Unix (Add now (15 * Minute))) ""
    TokenTypeAccess.

Definition summary (user : User) : UserSummaryWire :=
  mkUserSummary (u_id user) (u_username user) (u_email user) (u_role user).

(** [mems, _ := memRepo.FindByUser(..)], and the default library when there
    are none. *)
Definition claimed_libraries (fault : option pg_error) (userID : UserID) : handlerM (list LibraryID) :=
  mems ← attempt (FindMembershipsByUser fault userID);
  let libIDs := match mems with Ok l => lm_libraryID <$> l | _ => [] end in
  mret (match libIDs with [] => [DefaultLibraryID] | _ => libIDs end).

Definition thirtyDays : Duration := 30 * 24 * Hour.

(** The time to live the settings give a session, if they are wired and
    readable and within bounds. *)
Definition refresh_ttl (fault : option pg_error) : handlerM Duration :=
  if cfg_settings cfg then
    settings ← attempt (GetNetworkSettings fault);
    mret (match settings with
          | Ok s => if (1 <=? ns_RememberDeviceDays s) && (ns_RememberDeviceDays s <=? 90)
                    then ns_RememberDeviceDays s * 24 * Hour else thirtyDays
          | _ => thirtyDays
          end)
  else mret thirtyDays.

(** A new refresh token for the user; whether it could be saved is dropped. *)
Definition issue_refresh (fault : option pg_error) (id : string) (userID : UserID) (rand : string)
    (ttl : Duration) (now : Time) : handlerM string :=
  let '(rawRT, hashRT) := generateRandomToken rand in
  rt ← surely (NewRefreshToken id userID hashRT (Add now ttl) now);
  _ ← dropping (SaveRefreshToken fault rt);
  mret rawRT.

(** ** First set-up *)

Definition SetupStatusHandler (fault : option pg_error) : handlerM bool :=
  count ← attempt (CountUsers fault);
  match count with
  | Ok n => mret (0 <? n)
  | Err e => throw (HTTPError (CategoryOf e) "failed to check setup status")
  | OutOfFuel => throw Panicked
  end.

Record Registration := mkRegistration {
  reg_Username : string;
  reg_Email : string;
  reg_Password : string;
}.

Definition bad_password (p : string) : bool := (len p <? 8) || (128 <? len p).

Definition SetupHandler (fault : Faults) (d : Draws) (salt : string) (req : option Registration)
    : handlerM AuthResponse :=
  count ← attempt (CountUsers (fault 0%nat));
  match count with
  | Err e => throw (HTTPError (CategoryOf e) "setup check failed")
  | OutOfFuel => throw Panicked
  | Ok n =>
      if 0 <? n then throw (HTTPError Conflict "system already initialized")
      else match req with
      | None => throw (HTTPError InvalidInput "malformed request payload")
      | Some req =>
          if bad_password (reg_Password req) then
            throw (HTTPError InvalidInput "password must be between 8 and 128 characters")
          else
            let now := d_now d in
            let userID := d_newID d 0%nat in
            match NewUser userID (reg_Username req) (reg_Email req) RoleAdmin now now with
            | Ok user =>
                match HashPassword salt (reg_Password req) with
                | Ok pwdHash =>
                    match NewUserCredentials userID pwdHash now with
                    | Ok creds =>
                        saved ← attempt (SaveUser (fault 1%nat) user);
                        match saved with
                        | Ok _ =>
                            saved ← attempt (SaveCredentials (fault 2%nat) creds);
                            match saved with
                            | Ok _ =>
                                mem ← surely (NewLibraryMembership (d_newID d 1%nat) DefaultLibraryID
                                                userID RoleAdmin now);
                                _ ← dropping (SaveMembership (fault 3%nat) mem);
                                rawRT ← issue_refresh (fault 4%nat) (d_newID d 2%nat) userID (d_rand d)
                                          thirtyDays now;
                                let accessToken := Sign (cfg_signer cfg)
                                  (access_claims user RoleAdmin [DefaultLibraryID] (d_newID d 3%nat) now) in
                                mret (SignedIn (Some (summary user)) accessToken rawRT)
                            | Err e => throw (HTTPError (CategoryOf e) "failed to save credentials")
                            | OutOfFuel => throw Panicked
                            end
                        | Err e => throw (HTTPError (CategoryOf e) "failed to create user")
                        | OutOfFuel => throw Panicked
                        end
                    | Err e => throw (domain_http e)
                    | OutOfFuel => throw Panicked
                    end
                | _ => throw (HTTPError Internal "failed to hash password")
                end
            | Err e => throw (domain_http e)
            | OutOfFuel => throw Panicked
            end
      end
  end.

(** ** Sign-in with a password *)

Record LoginRequest := mkLoginRequest {
  lr_EmailOrUsername : string;
  lr_Password : string;
  lr_EnrolmentGrant : string;
}.

Definition invalid_credentials : http_error := HTTPError Unauthorized "invalid credentials".

(** By address, or else by name. *)
Definition find_account (fault fault' : option pg_error) (name : string) : handlerM (Result User) :=
  user ← attempt (FindUserByEmail (cfg_LOWER cfg) fault name);
  match user with
  | Ok u => mret (Ok u)
  | _ => attempt (FindUserByUsername (cfg_LOWER cfg) fault' name)
  end.

(** The tokens of a completed sign-in. *)
Definition complete_login (fault : Faults) (d : Draws) (user : User) (grant : string)
    : handlerM AuthResponse :=
  let now := d_now d in
  _ ← applyEnrolmentGrant (fault 0%nat) (fault 1%nat) grant (u_id user) now;
  libIDs ← claimed_libraries (fault 2%nat) (u_id user);
  ttl ← refresh_ttl (fault 3%nat);
  rawRT ← issue_refresh (fault 4%nat) (d_newID d 0%nat) (u_id user) (d_rand d) ttl now;
  let accessToken := Sign (cfg_signer cfg)
    (access_claims user (u_role user) libIDs (d_newID d 1%nat) now) in
  mret (SignedIn (Some (summary user)) accessToken rawRT).

(** A failure to look up the second factor counts as not having one.  The
    check against a dummy hash for an unknown account changes nothing. *)
Definition LoginHandler (fault : Faults) (d : Draws) (allowed : bool) (req : option LoginRequest)
    : handlerM AuthResponse :=
  if negb allowed then throw (TooManyRequests "too many login attempts; wait before trying again")
  else match req with
  | None => throw (HTTPError InvalidInput "malformed request")
  | Some req =>
      user ← find_account (fault 0%nat) (fault 1%nat) (lr_EmailOrUsername req);
      match user with
      | Ok user =>
          creds ← attempt (FindCredentials (fault 2%nat) (u_id user));
          match creds with
          | Ok creds =>
              match VerifyPassword (lr_Password req) (uc_passwordHash creds) with
              | Ok true =>
                  totp ← attempt (FindTOTP (fault 3%nat) (u_id user));
                  let enabled := match totp with Ok s => ts_enabled s | _ => false end in
                  if enabled then
                    match SignMFATicket (cfg_signer cfg) (d_jti d) (d_now d) (u_id user)
                            (Add (d_now d) (5 * Minute)) with
                    | Ok mfaTicket => mret (MFARequired mfaTicket)
                    | _ => throw (HTTPError Internal "failed to issue MFA ticket")
                    end
                  else complete_login (fun i => fault (4 + i)%nat) d user (lr_EnrolmentGrant req)
              | _ => throw invalid_credentials
              end
          | _ => throw invalid_credentials
          end
      | _ => throw invalid_credentials
      end
  end.

(** ** Rotation of refresh tokens

    The read and the writes are separate statements, outside a transaction. *)
Definition read_refresh (fault fault' : option pg_error) (token : string) (now : Time)
    : handlerM (RefreshToken * User) :=
  rt ← attempt (FindRefreshToken fault (sha256_hex token));
  match rt with
  | Ok rt =>
      if negb (IsActive now rt) then
        throw (HTTPError Unauthorized "invalid or expired refresh token")
      else
        user ← attempt (FindUserByID fault' (rt_userID rt));
        match user with
        | Ok user => mret (rt, user)
        | _ => throw (HTTPError Unauthorized "user no longer exists")
        end
  | _ => throw (HTTPError Unauthorized "invalid or expired refresh token")
  end.

Definition rotate_refresh (fault : Faults) (d : Draws) (rt : RefreshToken) (user : User)
    : handlerM AuthResponse :=
  let now := d_now d in
  _ ← dropping (SaveRefreshToken (fault 0%nat) (RevokeToken now rt));
  ttl ← refresh_ttl (fault 1%nat);
  rawNewRT ← issue_refresh (fault 2%nat) (d_newID d 0%nat) (u_id user) (d_rand d) ttl now;
  libIDs ← claimed_libraries (fault 3%nat) (u_id user);
  let accessToken := Sign (cfg_signer cfg)
    (access_claims user (u_role user) libIDs (d_newID d 1%nat) now) in
  mret (SignedIn None accessToken rawNewRT).

Definition RefreshHandler (fault : Faults) (d : Draws) (allowed : bool) (req : option string)
    : handlerM AuthResponse :=
  if negb allowed then throw (TooManyRequests "rate limit exceeded")
  else match req with
  | None | Some "" => throw (HTTPError Unauthorized "invalid refresh token")
  | Some token =>
      '(rt, user) ← read_refresh (fault 0%nat) (fault 1%nat) token (d_now d);
      rotate_refresh (fun i => fault (2 + i)%nat) d rt user
  end.

Definition LogoutHandler (fault : Faults) (now : Time) (req : option string) : handlerM unit :=
  match req with
  | None | Some "" => mret tt
  | Some token =>
      rt ← attempt (FindRefreshToken (fault 0%nat) (sha256_hex token));
      match rt with
      | Ok rt => dropping (SaveRefreshToken (fault 1%nat) (RevokeToken now rt))
      | _ => mret tt
      end
  end.

(** ** Password resets *)

Definition PasswordResetRequestHandler (fault : Faults) (d : Draws) (allowed : bool) (email : string)
    : handlerM unit :=
  if negb allowed then throw (TooManyRequests "rate limit exceeded")
  else if String.eqb email "" then mret tt
  else
    user ← attempt (FindUserByEmail (cfg_LOWER cfg) (fault 0%nat) email);
    match user with
    | Ok user =>
        let '(_, hash) := generateRandomToken (d_rand d) in
        prt ← surely (NewPasswordResetToken (d_newID d 0%nat) (u_id user) hash
                        (Add (d_now d) (1 * Hour)) (d_now d));
        dropping (SavePasswordReset (fault 1%nat) prt)
    | _ => mret tt
    end.

Record ResetConfirmation := mkResetConfirmation {
  rc_Token : string;
  rc_NewPassword : string;
}.

Definition PasswordResetConfirmHandler (fault : Faults) (salt : string) (now : Time) (allowed : bool)
    (req : option ResetConfirmation) : handlerM unit :=
  if negb allowed then throw (TooManyRequests "rate limit exceeded")
  else match req with
  | None => throw (HTTPError InvalidInput "invalid request")
  | Some req =>
      if String.eqb (rc_Token req) "" then throw (HTTPError InvalidInput "invalid request")
      else if bad_password (rc_NewPassword req) then
        throw (HTTPError InvalidInput "password must be between 8 and 128 characters")
      else
        prt ← attempt (FindPasswordReset (fault 0%nat) (sha256_hex (rc_Token req)));
        match prt with
        | Ok prt =>
            if negb (reset_valid now prt) then
              throw (HTTPError Unauthorized "invalid or expired reset token")
            else match HashPassword salt (rc_NewPassword req) with
            | Ok newHash =>
                creds ← surely (NewUserCredentials (pr_userID prt) newHash now);
                saved ← attempt (SaveCredentials (fault 1%nat) creds);
                match saved with
                | Ok _ =>
                    _ ← dropping (SavePasswordReset (fault 2%nat) (mark_reset_used now prt));
                    dropping (RevokeAllForUser (fault 3%nat) (pr_userID prt) now)
                | _ => throw (HTTPError Internal "failed to save credentials")
                end
            | _ => throw (HTTPError Internal "failed to hash password")
            end
        | _ => throw (HTTPError Unauthorized "invalid or expired reset token")
        end
  end.

(** ** The second factor *)

(** [user] is the authenticated caller. *)
Definition password_matches (fault : option pg_error) (userID : UserID) (password : string)
    : handlerM unit :=
  creds ← attempt (FindCredentials fault userID);
  match creds with
  | Ok creds =>
      match VerifyPassword password (uc_passwordHash creds) with
      | Ok true => mret tt
      | _ => throw (HTTPError Unauthorized "invalid password")
      end
  | _ => throw (HTTPError Unauthorized "credentials not found")
  end.

(** [secretRand], [codeRands] and [nonce] are the random source's answers. *)
Definition TOTPSetupHandler (fault : Faults) (now : Time) (secretRand : Result string)
    (codeRands : list (Result string)) (nonce : Result string) (user : option UserID)
    (password : option string) : handlerM (string * list string) :=
  match user, password with
  | None, _ => throw (HTTPError Unauthorized "unauthorized")
  | _, None | _, Some "" => throw (HTTPError InvalidInput "password is required to change 2FA settings")
  | Some userID, Some password =>
      _ ← password_matches (fault 0%nat) userID password;
      match GenerateSecret secretRand with
      | Ok secret =>
          match GenerateRecoveryCodes codeRands with
          | Ok (codes, hashes) =>
              match EncryptSecret nonce secret (cfg_masterKey cfg) with
              | Ok encryptedSecret =>
                  match NewTOTPSettings userID encryptedSecret hashes false None now with
                  | Ok settings =>
                      saved ← attempt (SaveTOTP (fault 1%nat) settings);
                      match saved with
                      | Ok _ => mret (secret, codes)
                      | _ => throw (HTTPError Internal "failed to save MFA settings")
                      end
                  | Err e => throw (domain_http e)
                  | OutOfFuel => throw Panicked
                  end
              | _ => throw (HTTPError Internal "failed to encrypt secret")
              end
          | _ => throw (HTTPError Internal "failed to generate recovery codes")
          end
      | _ => throw (HTTPError Internal "failed to generate TOTP secret")
      end
  end.

Definition TOTPConfirmHandler (fault : Faults) (now : Time) (user : option UserID)
    (code : option string) : handlerM unit :=
  match user, code with
  | None, _ => throw (HTTPError Unauthorized "unauthorized")
  | _, None | _, Some "" => throw (HTTPError InvalidInput "missing code")
  | Some userID, Some code =>
      settings ← attempt (FindTOTP (fault 0%nat) userID);
      match settings with
      | Ok settings =>
          match DecryptSecret (ts_encryptedSecret settings) (cfg_masterKey cfg) with
          | Ok secret =>
              match ValidateCode (cfg_engine cfg) secret code now with
              | Ok true =>
                  saved ← attempt (SaveTOTP (fault 1%nat) (Confirm now settings));
                  match saved with
                  | Ok _ => mret tt
                  | _ => throw (HTTPError Internal "failed to activate MFA")
                  end
              | _ => throw (HTTPError InvalidInput "invalid TOTP verification code")
              end
          | _ => throw (HTTPError Internal "failed to decrypt secret")
          end
      | _ => throw (HTTPError NotFound "MFA setup not initiated")
      end
  end.

Record MFARequest := mkMFARequest {
  mr_MFATicket : string;
  mr_Code : string;
  mr_RecoveryCode : string;
  mr_EnrolmentGrant : string;
}.

(** The second factor itself: a code, or else a recovery code, whose hash is
    then taken out of the list. *)
Definition second_factor (fault : option pg_error) (now : Time) (userID : UserID)
    (settings : TOTPSettings) (req : MFARequest) : handlerM bool :=
  if negb (String.eqb (mr_Code req) "") then
    mret (match DecryptSecret (ts_encryptedSecret settings) (cfg_masterKey cfg) with
          | Ok secret =>
              match ValidateCode (cfg_engine cfg) secret (mr_Code req) now with
              | Ok valid => valid
              | _ => false
              end
          | _ => false
          end)
  else if negb (String.eqb (mr_RecoveryCode req) "") then
    match VerifyRecoveryCode (mr_RecoveryCode req) (ts_recoveryCodeHashes settings) with
    | Some i =>
        newSettings ← surely (NewTOTPSettings userID (ts_encryptedSecret settings)
          (without_index i (ts_recoveryCodeHashes settings)) true (ts_confirmedAt settings)
          (ts_createdAt settings));
        _ ← dropping (SaveTOTP fault newSettings);
        mret true
    | None => mret false
    end
  else mret false.

(** A ticket's single use; a ticket without an identifier has none to spend. *)
Definition spend_ticket (fault : option pg_error) (ticketJTI : string) (now : Time) : handlerM unit :=
  if String.eqb ticketJTI "" then mret tt
  else
    claimed ← attempt (on_network (cfg_inet cfg) (fun _ => ClaimTicket fault ticketJTI now));
    match claimed with
    | Ok true => mret tt
    | Ok false =>
        throw (HTTPError Unauthorized "this MFA ticket has already been used, sign in again")
    | _ => throw (HTTPError Unavailable "could not verify MFA ticket, try again")
    end.

(** The attempt a ticket stands for, once it is spent. *)
Definition attempt_factor (fault : Faults) (d : Draws) (userAllowed : bool) (userID : UserID)
    (req : MFARequest) : handlerM AuthResponse :=
  let now := d_now d in
  if negb userAllowed then
    throw (TooManyRequests "too many MFA attempts for this account; wait before trying again")
  else
    settings ← attempt (FindTOTP (fault 0%nat) userID);
    match settings with
    | Ok settings =>
        if negb (ts_enabled settings) then
          throw (HTTPError Unauthorized "MFA not enabled for user")
        else
          user ← attempt (FindUserByID (fault 1%nat) userID);
          match user with
          | Ok user =>
              verified ← second_factor (fault 2%nat) now userID settings req;
              if negb verified then
                throw (HTTPError Unauthorized "invalid MFA code or recovery code")
              else
                _ ← applyEnrolmentGrant (fault 3%nat) (fault 4%nat) (mr_EnrolmentGrant req)
                      (u_id user) now;
                libIDs ← claimed_libraries (fault 5%nat) (u_id user);
                rawRT ← issue_refresh (fault 6%nat) (d_newID d 0%nat) (u_id user) (d_rand d)
                          thirtyDays now;
                let accessToken := Sign (cfg_signer cfg)
                  (access_claims user (u_role user) libIDs (d_newID d 1%nat) now) in
                mret (SignedIn (Some (summary user)) accessToken rawRT)
          | _ => throw (HTTPError Unauthorized "user not found")
          end
    | _ => throw (HTTPError Unauthorized "MFA not enabled for user")
    end.

(** The limiter per user is consulted after the ticket is spent. *)
Definition TOTPVerifyHandler (fault : Faults) (d : Draws) (allowed userAllowed : bool)
    (req : option MFARequest) : handlerM AuthResponse :=
  if negb allowed then throw (TooManyRequests "too many MFA attempts; wait before trying again")
  else match req with
  | None => throw (HTTPError InvalidInput "missing MFA ticket")
  | Some req =>
      if String.eqb (mr_MFATicket req) "" then throw (HTTPError InvalidInput "missing MFA ticket")
      else match VerifyMFATicket (cfg_signer cfg) (mr_MFATicket req) (d_now d) with
      | Ok (userID, ticketJTI) =>
          _ ← spend_ticket (fault 0%nat) ticketJTI (d_now d);
          attempt_factor (fun i => fault (1 + i)%nat) d userAllowed userID req
      | _ => throw (HTTPError Unauthorized "invalid or expired MFA ticket")
      end
  end.

Definition TOTPDisableHandler (fault : Faults) (user : option UserID) (password : option string)
    : handlerM unit :=
  match user, password with
  | None, _ => throw (HTTPError Unauthorized "unauthorized")
  | _, None | _, Some "" => throw (HTTPError InvalidInput "password required to disable 2FA")
  | Some userID, Some password =>
      _ ← password_matches (fault 0%nat) userID password;
      deleted ← attempt (DeleteTOTP (fault 1%nat) userID);
      match deleted with
      | Ok _ => mret tt
      | _ => throw (HTTPError Internal "failed to delete MFA settings")
      end
  end.
End handlers.
