(* ===== verification/AuthSafety.v ===== *)
(** * What sign-in guarantees

    The second factor at sign-in, the life of a session, password resets and
    single-use tickets. *)

From S2P Require Import Prelude GoStrings Errors Catalog Transactor Postgres Http Pairing PairingStore Identity Encoding Tokens Totp AuthStore AuthHandlers.

Local Open Scope string_scope.
Local Open Scope list_scope.
Local Open Scope Z_scope.

(** ** Sessions

    What may happen to the rows of refresh tokens, those of the new
    identifiers [ids] aside: nothing, or the end of a session. *)
Definition ends_only (r r' : RefreshToken) : Prop :=
  rt_id r' = rt_id r /\ rt_userID r' = rt_userID r /\ rt_tokenHash r' = rt_tokenHash r /\
  rt_expiresAt r' = rt_expiresAt r /\ (rt_revokedAt r <> None -> rt_revokedAt r' <> None).

Definition tokens_wf (db : auth_db) : Prop :=
  (forall id r, refresh_tokens db !! id = Some r -> rt_id r = id) /\
  forall id id' r r', refresh_tokens db !! id = Some r -> refresh_tokens db !! id' = Some r' ->
    rt_tokenHash r = rt_tokenHash r' -> id = id'.

Definition session_le (ids : list string) (db db' : auth_db) : Prop :=
  (tokens_wf db -> tokens_wf db') /\
  forall id r, id ∉ ids -> refresh_tokens db !! id = Some r ->
    exists r', refresh_tokens db' !! id = Some r' /\ ends_only r r'.

#[export] Instance session_le_preorder ids : PreOrder (session_le ids).
Proof.
  split.
  - intros db. split; [done|]. intros id r _ Hr. exists r. by repeat split.
  - intros db1 db2 db3 [W1 H1] [W2 H2]. split; [auto|]. intros id r Hid Hr.
    destruct (H1 _ _ Hid Hr) as (r2 & Hr2 & E1 & E2 & E3 & E4 & E5).
    destruct (H2 _ _ Hid Hr2) as (r3 & Hr3 & F1 & F2 & F3 & F4 & F5).
    exists r3. split; [done|]. unfold ends_only. conjuncts; try congruence. auto.
Qed.

Section sessions.
Context (ids : list string).
Abbreviation keeps := (always (session_le ids)).

Lemma same_tokens db db' : refresh_tokens db' = refresh_tokens db -> session_le ids db db'.
Proof.
  intros E. split; unfold tokens_wf; rewrite E; [done|]. intros id r _ Hr. exists r. by repeat split.
Qed.

Lemma keeps_exec {A} fault (f : auth_db -> res pg_error (A * auth_db)) :
  (forall s a s', f s = Ok (a, s') -> refresh_tokens s' = refresh_tokens s) -> keeps (exec fault f).
Proof. intros Hf. apply always_exec; [typeclasses eauto|]. intros s a s' ?%Hf. by apply same_tokens. Qed.

Lemma keeps_pure {E A} (m : stM auth_db E A) : pure m -> keeps m.
Proof. intros Hm s. rewrite <- (Hm s). reflexivity. Qed.

Lemma keeps_network {A} inet (m : Server -> stM pairing_db error A) : keeps (on_network inet m).
Proof. intros s. unfold on_network. destruct (m _ _) as [r n]. by apply same_tokens. Qed.

(** Changing rows without touching identifiers and hashes. *)
Lemma wf_rows db db' :
  (forall k x, refresh_tokens db' !! k = Some x ->
     exists y, refresh_tokens db !! k = Some y /\ rt_id x = rt_id y /\ rt_tokenHash x = rt_tokenHash y) ->
  tokens_wf db -> tokens_wf db'.
Proof.
  intros Hrows [Hk Hu]. split.
  - intros k x (y & Hy & -> & _)%Hrows. by apply Hk.
  - intros k k' x x' (y & Hy & _ & ->)%Hrows (y' & Hy' & _ & ->)%Hrows. by apply Hu.
Qed.

Lemma wf_replaced db id r r' :
  refresh_tokens db !! id = Some r -> rt_id r' = rt_id r -> rt_tokenHash r' = rt_tokenHash r ->
  tokens_wf db -> tokens_wf (set_refresh_tokens (<[id := r']> (refresh_tokens db)) db).
Proof.
  intros Hr E1 E2. apply wf_rows. simpl. intros k x [[<- <-]|[_ Hx]]%lookup_insert_Some; eauto.
Qed.

(** Replacing a row by one of its futures. *)
Lemma replaced_row db id r r' :
  refresh_tokens db !! id = Some r -> ends_only r r' ->
  session_le ids db (set_refresh_tokens (<[id := r']> (refresh_tokens db)) db).
Proof.
  intros Hr He. split; [apply (wf_replaced _ _ r); [done|by apply He..]|].
  intros k x _ Hx. simpl. destruct (decide (k = id)) as [->|Hne].
  - exists r'. rewrite lookup_insert_eq. split; [done|]. by assert (x = r) as -> by congruence.
  - exists x. rewrite lookup_insert_ne by done. split; [done|]. by repeat split.
Qed.

(** A new row under a new identifier and a new hash. *)
Lemma added_row db r :
  refresh_tokens db !! rt_id r = None ->
  map_Forall (fun _ x => rt_tokenHash x <> rt_tokenHash r) (refresh_tokens db) ->
  session_le ids db (set_refresh_tokens (<[rt_id r := r]> (refresh_tokens db)) db).
Proof.
  intros Hr Hh. split.
  - intros [Hk Hu]. split; simpl.
    + intros k x [[<- <-]|[_ Hx]]%lookup_insert_Some; [done|by apply Hk].
    + intros k k' x x' [[<- <-]|[Hn Hx]]%lookup_insert_Some [[<- <-]|[Hn' Hx']]%lookup_insert_Some E; [done|..].
      * exfalso. by apply (Hh _ _ Hx').
      * exfalso. by apply (Hh _ _ Hx).
      * by eapply Hu.
  - intros k x _ Hx. simpl. exists x. rewrite lookup_insert_ne by congruence. split; [done|]. by repeat split.
Qed.

Lemma keeps_SaveRefreshToken fault rt :
  rt_revokedAt rt <> None \/ rt_id rt ∈ ids -> keeps (SaveRefreshToken fault rt).
Proof.
  intros Hrt. apply always_exec; [typeclasses eauto|]. intros s a s' E.
  destruct (refresh_tokens s !! rt_id rt) as [r|] eqn:Er.
  - injection E as _ <-. destruct Hrt as [Hrev|Hid].
    + apply (replaced_row _ _ r); [done|]. by repeat split.
    + split.
      * by apply (wf_replaced _ _ r).
      * intros k x Hk Hx. exists x. simpl. rewrite lookup_insert_ne by congruence. split; [done|]. by repeat split.
  - destruct (bool_decide _) eqn:Eh; [|done]. apply bool_decide_eq_true in Eh.
    destruct (known_user _ _); [|done]. injection E as _ <-. by apply added_row; auto.
Qed.

Lemma keeps_RevokeAllForUser fault u now : keeps (RevokeAllForUser fault u now).
Proof.
  apply always_exec; [typeclasses eauto|]. intros s a s' [= _ <-]. split.
  - apply wf_rows. simpl. intros id r. rewrite map_lookup_imap.
    destruct (refresh_tokens s !! id) as [x|] eqn:Ex; [|done]. simpl. intros [= <-].
    exists x. by destruct (_ && _).
  - intros id r _ Hr. simpl. rewrite map_lookup_imap, Hr. simpl. eexists. split; [done|].
    by destruct (_ && _).
Qed.

(** Case analysis in a statement that does not touch the sessions. *)
Local Ltac other_tables :=
  apply keeps_exec; intros ? ? ? E; repeat (case_match; [|try discriminate E]); repeat case_match;
  try discriminate E; by injection E as _ <-.

Local Ltac row_query :=
  apply always_bind; [typeclasses eauto|apply keeps_pure, query_one_pure|intros ?; apply always_reading; typeclasses eauto].

Section statements.
Context `{CaseTables} (LOWER : string -> string).

Lemma keeps_FindUserByID f id : keeps (FindUserByID f id). Proof. row_query. Qed.
Lemma keeps_FindUserByEmail f e : keeps (FindUserByEmail LOWER f e). Proof. row_query. Qed.
Lemma keeps_FindUserByUsername f e : keeps (FindUserByUsername LOWER f e). Proof. row_query. Qed.
Lemma keeps_FindCredentials f u : keeps (FindCredentials f u). Proof. row_query. Qed.
Lemma keeps_FindRefreshToken f h : keeps (FindRefreshToken f h). Proof. apply keeps_pure, query_one_pure. Qed.
Lemma keeps_FindTOTP f u : keeps (FindTOTP f u). Proof. row_query. Qed.
Lemma keeps_FindPasswordReset f h : keeps (FindPasswordReset f h). Proof. apply keeps_pure, query_one_pure. Qed.
Lemma keeps_GetNetworkSettings f : keeps (GetNetworkSettings f). Proof. apply keeps_pure, query_one_pure. Qed.
Lemma keeps_CountUsers f : keeps (CountUsers f). Proof. other_tables. Qed.
Lemma keeps_SaveUser f u : keeps (SaveUser f u). Proof. other_tables. Qed.
Lemma keeps_SaveCredentials f c : keeps (SaveCredentials f c). Proof. other_tables. Qed.
Lemma keeps_SaveTOTP f s : keeps (SaveTOTP f s). Proof. other_tables. Qed.
Lemma keeps_DeleteTOTP f u : keeps (DeleteTOTP f u). Proof. other_tables. Qed.
Lemma keeps_SavePasswordReset f p : keeps (SavePasswordReset f p). Proof. other_tables. Qed.
Lemma keeps_SaveMembership f m : keeps (SaveMembership f m). Proof. other_tables. Qed.
Lemma keeps_FindMembershipsByUser f u : keeps (FindMembershipsByUser f u).
Proof.
  apply always_bind; [typeclasses eauto|other_tables|intros ?; apply always_reading; typeclasses eauto].
Qed.
End statements.
End sessions.

#[export] Hint Resolve keeps_network keeps_SaveRefreshToken keeps_RevokeAllForUser keeps_FindUserByID
  keeps_FindUserByEmail keeps_FindUserByUsername keeps_FindCredentials keeps_FindRefreshToken keeps_FindTOTP
  keeps_FindPasswordReset keeps_GetNetworkSettings keeps_CountUsers keeps_SaveUser keeps_SaveCredentials
  keeps_SaveTOTP keeps_DeleteTOTP keeps_SavePasswordReset keeps_SaveMembership
  keeps_FindMembershipsByUser : always.

(** Follows the structure of a handler. *)
Ltac follow :=
  repeat first
    [ progress eauto with always typeclass_instances
    | apply always_bind; [typeclasses eauto| |intros ?]
    | case_match ].

Section handler_sessions.
Context `{CaseTables} `{TokenPrimitives} `{TOTPPrimitives} `{PasswordHasher} (cfg : AuthConfig).
Context (ids : list string).
Abbreviation keeps := (always (session_le ids)).

Lemma keeps_issue f id u rand ttl now : id ∈ ids -> keeps (issue_refresh f id u rand ttl now).
Proof.
  intros Hid. unfold issue_refresh, generateRandomToken. intros s.
  unfold mbind, stM_bind, surely. destruct (NewRefreshToken _ _ _ _ _) as [rt|e|] eqn:E; [|reflexivity..].
  apply (always_bind _ _ (fun _ => mret _)); [|intros; apply always_ret; typeclasses eauto].
  apply always_dropping, keeps_SaveRefreshToken. right. unfold NewRefreshToken in E.
  do 3 (destruct (blank _); [done|]). by injection E as <-.
Qed.

Lemma keeps_grant f f' g u now : keeps (applyEnrolmentGrant cfg f f' g u now).
Proof. unfold applyEnrolmentGrant. follow. Qed.

Lemma keeps_libraries f u : keeps (claimed_libraries f u).
Proof. unfold claimed_libraries. follow. Qed.

Lemma keeps_ttl f : keeps (refresh_ttl cfg f).
Proof. unfold refresh_ttl. follow. Qed.
Lemma keeps_revoke f now rt : keeps (SaveRefreshToken f (RevokeToken now rt)).
Proof. apply keeps_SaveRefreshToken. by left. Qed.
End handler_sessions.
#[export] Hint Resolve keeps_issue keeps_grant keeps_libraries keeps_ttl keeps_revoke : always.

Section all_handlers.
Context `{CaseTables} `{TokenPrimitives} `{TOTPPrimitives} `{PasswordHasher} (cfg : AuthConfig).
Context (ids : list string).
Abbreviation keeps := (always (session_le ids)).

Lemma keeps_Setup f d salt req : d_newID d 2%nat ∈ ids -> keeps (SetupHandler cfg f d salt req).
Proof. intros Hid. unfold SetupHandler. follow. Qed.

Lemma keeps_complete_login f d u g : d_newID d 0%nat ∈ ids -> keeps (complete_login cfg f d u g).
Proof. intros Hid. unfold complete_login. follow. Qed.
#[local] Hint Resolve keeps_complete_login : always.

Lemma keeps_find_account f f' n : keeps (find_account cfg f f' n).
Proof. unfold find_account. follow. Qed.
#[local] Hint Resolve keeps_find_account : always.

Lemma keeps_Login f d ok req : d_newID d 0%nat ∈ ids -> keeps (LoginHandler cfg f d ok req).
Proof. intros Hid. unfold LoginHandler. follow. Qed.

Lemma keeps_read_refresh f f' t now : keeps (read_refresh f f' t now).
Proof. unfold read_refresh. follow. Qed.
#[local] Hint Resolve keeps_read_refresh : always.

Lemma keeps_rotate f d rt u : d_newID d 0%nat ∈ ids -> keeps (rotate_refresh cfg f d rt u).
Proof. intros Hid. unfold rotate_refresh. follow. Qed.
#[local] Hint Resolve keeps_rotate : always.

Lemma keeps_Refresh f d ok req : d_newID d 0%nat ∈ ids -> keeps (RefreshHandler cfg f d ok req).
Proof. intros Hid. unfold RefreshHandler. follow. Qed.

Lemma keeps_Logout f now req : keeps (LogoutHandler f now req).
Proof. unfold LogoutHandler. follow. Qed.

Lemma keeps_ResetRequest f d ok e : keeps (PasswordResetRequestHandler cfg f d ok e).
Proof. unfold PasswordResetRequestHandler. follow. Qed.

Lemma keeps_ResetConfirm f salt now ok req : keeps (PasswordResetConfirmHandler f salt now ok req).
Proof. unfold PasswordResetConfirmHandler. follow. Qed.

Lemma keeps_password f u p : keeps (password_matches f u p).
Proof. unfold password_matches. follow. Qed.
#[local] Hint Resolve keeps_password : always.

Lemma keeps_TOTPSetup f now r rs n u p : keeps (TOTPSetupHandler cfg f now r rs n u p).
Proof. unfold TOTPSetupHandler. follow. Qed.

Lemma keeps_TOTPConfirm f now u c : keeps (TOTPConfirmHandler cfg f now u c).
Proof. unfold TOTPConfirmHandler. follow. Qed.

Lemma keeps_factor f now u s r : keeps (second_factor cfg f now u s r).
Proof. unfold second_factor. follow. Qed.
#[local] Hint Resolve keeps_factor : always.

Lemma keeps_spend f j now : keeps (spend_ticket cfg f j now).
Proof. unfold spend_ticket. follow. Qed.
Lemma keeps_attempt_factor f d b u req : d_newID d 0%nat ∈ ids -> keeps (attempt_factor cfg f d b u req).
Proof. intros Hid. unfold attempt_factor. cbv zeta. follow. Qed.
#[local] Hint Resolve keeps_spend keeps_attempt_factor : always.

Lemma keeps_TOTPVerify f d a b req : d_newID d 0%nat ∈ ids -> keeps (TOTPVerifyHandler cfg f d a b req).
Proof.
  intros Hid. unfold TOTPVerifyHandler. follow.
Qed.

Lemma keeps_TOTPDisable f u p : keeps (TOTPDisableHandler f u p).
Proof. unfold TOTPDisableHandler. follow. Qed.
End all_handlers.

(** ** Histories of calls *)

Section histories.
Context `{CaseTables} `{TokenPrimitives} `{TOTPPrimitives} `{PasswordHasher} (cfg : AuthConfig).

(** The handlers with everything they are called with. *)
Inductive auth_call :=
| CallSetup (f : Faults) (d : Draws) (salt : string) (req : option Registration)
| CallLogin (f : Faults) (d : Draws) (allowed : bool) (req : option LoginRequest)
| CallRefresh (f : Faults) (d : Draws) (allowed : bool) (req : option string)
| CallLogout (f : Faults) (now : Time) (req : option string)
| CallResetRequest (f : Faults) (d : Draws) (allowed : bool) (email : string)
| CallResetConfirm (f : Faults) (salt : string) (now : Time) (allowed : bool) (req : option ResetConfirmation)
| CallTOTPSetup (f : Faults) (now : Time) (secretRand : Result string) (codeRands : list (Result string))
    (nonce : Result string) (user : option UserID) (password : option string)
| CallTOTPConfirm (f : Faults) (now : Time) (user : option UserID) (code : option string)
| CallTOTPVerify (f : Faults) (d : Draws) (allowed userAllowed : bool) (req : option MFARequest)
| CallTOTPDisable (f : Faults) (user : option UserID) (password : option string).

Definition run_auth (c : auth_call) (db : auth_db) : auth_db :=
  match c with
  | CallSetup f d salt req => (SetupHandler cfg f d salt req db).2
  | CallLogin f d ok req => (LoginHandler cfg f d ok req db).2
  | CallRefresh f d ok req => (RefreshHandler cfg f d ok req db).2
  | CallLogout f now req => (LogoutHandler f now req db).2
  | CallResetRequest f d ok e => (PasswordResetRequestHandler cfg f d ok e db).2
  | CallResetConfirm f salt now ok req => (PasswordResetConfirmHandler f salt now ok req db).2
  | CallTOTPSetup f now r rs n u p => (TOTPSetupHandler cfg f now r rs n u p db).2
  | CallTOTPConfirm f now u c => (TOTPConfirmHandler cfg f now u c db).2
  | CallTOTPVerify f d a b req => (TOTPVerifyHandler cfg f d a b req db).2
  | CallTOTPDisable f u p => (TOTPDisableHandler f u p db).2
  end.

(** The identifier a call gives to the session it opens. *)
Definition session_ids (c : auth_call) : list string :=
  match c with
  | CallSetup _ d _ _ => [d_newID d 2%nat]
  | CallLogin _ d _ _ | CallRefresh _ d _ _ | CallTOTPVerify _ d _ _ _ => [d_newID d 0%nat]
  | _ => []
  end.

Lemma run_auth_keeps c db : session_le (session_ids c) db (run_auth c db).
Proof.
  destruct c; cbn [run_auth session_ids];
    [eapply keeps_Setup|eapply keeps_Login|eapply keeps_Refresh|eapply keeps_Logout|eapply keeps_ResetRequest
    |eapply keeps_ResetConfirm|eapply keeps_TOTPSetup|eapply keeps_TOTPConfirm|eapply keeps_TOTPVerify
    |eapply keeps_TOTPDisable]; set_solver.
Qed.

(** Each call draws an identifier no session has. *)
Fixpoint fresh_history (cs : list auth_call) (db : auth_db) : Prop :=
  match cs with
  | [] => True
  | c :: cs' => Forall (fun id => refresh_tokens db !! id = None) (session_ids c) /\
                fresh_history cs' (run_auth c db)
  end.

Definition run_history (cs : list auth_call) (db : auth_db) : auth_db :=
  fold_left (fun db c => run_auth c db) cs db.

Lemma history_keeps cs db : fresh_history cs db -> tokens_wf db ->
  tokens_wf (run_history cs db) /\
  forall id r, refresh_tokens db !! id = Some r ->
    exists r', refresh_tokens (run_history cs db) !! id = Some r' /\ ends_only r r'.
Proof.
  revert db. induction cs as [|c cs IH]; intros db Hf Hwf; simpl.
  { split; [done|]. intros id r Hr. exists r. by repeat split. }
  destruct Hf as [Hf Hfs]. destruct (run_auth_keeps c db) as [Hw Hk].
  destruct (IH _ Hfs (Hw Hwf)) as [IHw IHk]. split; [done|]. intros id r Hr.
  destruct (Hk id r) as (r1 & Hr1 & E1 & E2 & E3 & E4 & E5); [|done|].
  { intros Hin. rewrite Forall_forall in Hf. rewrite (Hf _ Hin) in Hr. done. }
  destruct (IHk _ _ Hr1) as (r2 & Hr2 & F1 & F2 & F3 & F4 & F5).
  exists r2. split; [done|]. unfold ends_only. conjuncts; try congruence. auto.
Qed.
End histories.

(** ** Sessions rotate *)

Section rotation.
Context `{CaseTables} `{TokenPrimitives} `{TOTPPrimitives} `{PasswordHasher} (cfg : AuthConfig).

Lemma find_refresh_ok fault hash db rt db' :
  FindRefreshToken fault hash db = (Ok rt, db') <->
  fault = None /\ db' = db /\
  exists id, first_row (fun r => String.eqb (rt_tokenHash r) hash) (refresh_tokens db) = Some (id, rt).
Proof.
  unfold FindRefreshToken. rewrite query_one_ok. split.
  - intros (-> & Hf & ->). conjuncts; [done..|].
    destruct (first_row _ _) as [[id r]|]; [|done]. injection Hf as ->. by exists id.
  - intros (-> & -> & id & ->). done.
Qed.

Lemma read_refresh_ok fault fault' token now db rt user db' :
  read_refresh fault fault' token now db = (Ok (rt, user), db') <->
  FindRefreshToken fault (sha256_hex token) db = (Ok rt, db) /\ IsActive now rt = true /\
  FindUserByID fault' (rt_userID rt) db = (Ok user, db) /\ db' = db.
Proof.
  assert (forall f u, pure (FindUserByID f u)) as Hpure.
  { intros f u. apply always_bind; [typeclasses eauto|apply query_one_pure|].
    intros; apply always_reading; typeclasses eauto. }
  unfold read_refresh, mbind, stM_bind, attempt.
  assert (db = (FindRefreshToken fault (sha256_hex token) db).2) as E1 by apply query_one_pure.
  destruct (FindRefreshToken _ _ db) as [[r|e|] s1]; simpl in E1; subst s1;
    [|split; [done|by intros ([=] & _)]..].
  destruct (IsActive now r) eqn:Ea; simpl.
  - pose proof (Hpure fault' (rt_userID r) db) as E2.
    destruct (FindUserByID fault' (rt_userID r) db) as [[u|e|] s2] eqn:Eu; simpl in E2; subst s2; split; try done.
    + by intros [= <- <- <-].
    + intros (Hr & _ & Hu & ->). injection Hr as <-. rewrite Eu in Hu. by injection Hu as ->.
    + intros (Hr & _ & Hu & _). injection Hr as <-. by rewrite Eu in Hu.
    + intros (Hr & _ & Hu & _). injection Hr as <-. by rewrite Eu in Hu.
  - split; [done|]. intros ([= ->] & Ha & _). congruence.
Qed.

(** A read that fails is the answer. *)
Lemma read_refresh_err fault fault' token now db :
  (forall rt, FindRefreshToken fault (sha256_hex token) db = (Ok rt, db) -> IsActive now rt = false) ->
  exists msg, read_refresh fault fault' token now db = (Err (HTTPError Unauthorized msg), db).
Proof.
  intros Hall. unfold read_refresh, mbind, stM_bind, attempt.
  assert (db = (FindRefreshToken fault (sha256_hex token) db).2) as E1 by apply query_one_pure.
  destruct (FindRefreshToken _ _ db) as [[r|e|] s1]; simpl in E1; subst s1; [|by eexists..].
  rewrite (Hall r eq_refl). by eexists.
Qed.

(** A session that has ended stays the one row of its hash, ended. *)
Lemma ended_refused fault token now db id r :
  tokens_wf db -> refresh_tokens db !! id = Some r -> rt_tokenHash r = sha256_hex token ->
  (rt_revokedAt r <> None \/ rt_expiresAt r <= now) ->
  forall rt, FindRefreshToken fault (sha256_hex token) db = (Ok rt, db) -> IsActive now rt = false.
Proof.
  intros [_ Hu] Hr Hh Hend rt (_ & _ & id' & [Hr' Hh']%first_row_Some)%find_refresh_ok.
  apply String.eqb_eq in Hh'. assert (id' = id) as -> by (eapply Hu; eauto; congruence).
  assert (rt = r) as -> by congruence. unfold IsActive, Before.
  destruct Hend as [Hr1|Hx]; [by rewrite bool_decide_false by done|].
  rewrite (proj2 (Z.ltb_ge _ _)) by done. apply andb_false_r.
Qed.

(** ** Resets *)

Lemma find_reset_ok fault hash db p db' :
  FindPasswordReset fault hash db = (Ok p, db') <->
  fault = None /\ db' = db /\
  exists id, first_row (fun r => String.eqb (pr_tokenHash r) hash) (password_resets db) = Some (id, p).
Proof.
  unfold FindPasswordReset. rewrite query_one_ok. split.
  - intros (-> & Hf & ->). conjuncts; [done..|].
    destruct (first_row _ _) as [[id r]|]; [|done]. injection Hf as ->. by exists id.
  - intros (-> & -> & id & ->). done.
Qed.

(** The state a reset leaves: the statements after the new password is saved
    may fail without its answer telling. *)
Lemma reset_confirm_ok f salt now allowed req db db' :
  PasswordResetConfirmHandler f salt now allowed req db = (Ok tt, db') ->
  exists r p hash creds,
    allowed = true /\ req = Some r /\
    FindPasswordReset (f 0%nat) (sha256_hex (rc_Token r)) db = (Ok p, db) /\
    reset_valid now p = true /\ HashPassword salt (rc_NewPassword r) = Ok hash /\
    NewUserCredentials (pr_userID p) hash now = Ok creds /\
    f 1%nat = None /\ known_user (pr_userID p) db = true /\
    db' = (RevokeAllForUser (f 3%nat) (pr_userID p) now
            (SavePasswordReset (f 2%nat) (mark_reset_used now p)
              (set_credentials (<[pr_userID p := creds]> (credentials db)) db)).2).2.
Proof.
  unfold PasswordResetConfirmHandler. intros Hrun. destruct allowed; [|done]. simpl in Hrun.
  destruct req as [r|]; [|done]. destruct (String.eqb _ _); [done|]. destruct (bad_password _); [done|].
  unfold mbind, stM_bind, attempt, surely, dropping in Hrun.
  assert (db = (FindPasswordReset (f 0%nat) (sha256_hex (rc_Token r)) db).2) as E1 by apply query_one_pure.
  destruct (FindPasswordReset _ _ db) as [[p|e|] s1] eqn:Ep; simpl in E1; subst s1; [|done..].
  destruct (reset_valid now p) eqn:Ev; [|done]. simpl in Hrun.
  destruct (HashPassword _ _) as [hash|e|] eqn:Eh; [|done..].
  destruct (NewUserCredentials _ _ _) as [creds|e|] eqn:Ec; [|done..].
  destruct (SaveCredentials _ _ _) as [[[]|e|] s2] eqn:Es; [|done..].
  injection Hrun as <-. apply exec_ok in Es as [Hf Es].
  assert (uc_userID creds = pr_userID p) as Eu.
  { unfold NewUserCredentials in Ec. do 2 (destruct (blank _); [done|]). by injection Ec as <-. }
  rewrite Eu in Es. destruct (known_user _ _) eqn:Ek; [|done]. injection Es as <-.
  exists r, p, hash, creds. by conjuncts.
Qed.

(** ** What ends a session *)

Definition ended (token : string) (db : auth_db) : Prop :=
  exists id r, refresh_tokens db !! id = Some r /\ rt_tokenHash r = sha256_hex token /\
    rt_revokedAt r <> None.

(** The session of [token] is ended by rotating it, by signing out, and by a
    reset of the user's password. *)
Inductive ends_session (token : string) (db : auth_db) : auth_db -> Prop :=
| ends_rotated f d allowed a db' :
    RefreshHandler cfg f d allowed (Some token) db = (Ok a, db') ->
    f 2%nat = None -> refresh_tokens db !! d_newID d 0%nat = None ->
    ends_session token db db'
| ends_logout f now rt db' :
    FindRefreshToken (f 0%nat) (sha256_hex token) db = (Ok rt, db) ->
    LogoutHandler f now (Some token) db = (Ok tt, db') -> token <> "" ->
    f 1%nat = None -> ends_session token db db'
| ends_reset f salt now allowed req rt p db' :
    FindRefreshToken None (sha256_hex token) db = (Ok rt, db) ->
    FindPasswordReset None (sha256_hex (rc_Token req)) db = (Ok p, db) -> pr_userID p = rt_userID rt ->
    PasswordResetConfirmHandler f salt now allowed (Some req) db = (Ok tt, db') ->
    f 3%nat = None -> ends_session token db db'.

Lemma save_revoked_ended token now db rt :
  tokens_wf db -> FindRefreshToken None (sha256_hex token) db = (Ok rt, db) ->
  refresh_tokens db !! rt_id rt = Some rt /\ rt_tokenHash rt = sha256_hex token /\
  ended token (SaveRefreshToken None (RevokeToken now rt) db).2.
Proof.
  intros [Hk _] (_ & _ & id & [Hr Hh]%first_row_Some)%find_refresh_ok. apply String.eqb_eq in Hh.
  rewrite (Hk _ _ Hr). conjuncts; [done..|]. exists id.
  unfold SaveRefreshToken, exec. simpl. rewrite (Hk _ _ Hr), Hr. simpl. rewrite lookup_insert_eq.
  eexists. by split.
Qed.

(** Rotation first saves the end of the old session. *)
Lemma rotate_after f d rt user db : exists rest,
  rotate_refresh cfg f d rt user db
  = rest (SaveRefreshToken (f 0%nat) (RevokeToken (d_now d) rt) db).2 /\
  always (session_le [d_newID d 0%nat]) rest.
Proof.
  exists (ttl ← refresh_ttl cfg (f 1%nat);
          rawNewRT ← issue_refresh (f 2%nat) (d_newID d 0%nat) (u_id user) (d_rand d) ttl (d_now d);
          libIDs ← claimed_libraries (f 3%nat) (u_id user);
          mret (SignedIn None (Sign (cfg_signer cfg)
            (access_claims user (u_role user) libIDs (d_newID d 1%nat) (d_now d))) rawNewRT)).
  assert (d_newID d 0%nat ∈ [d_newID d 0%nat]) by set_solver. split; [reflexivity|follow].
Qed.

Lemma ends_session_ended token db db' : tokens_wf db -> ends_session token db db' -> ended token db'.
Proof.
  intros Hwf. destruct 1 as [f d allowed a db' Hrun Hf Hfresh|f now rt db' Hfind Hrun Hne Hf|
    f salt now allowed req rt p db' Hfind Hreset Hu Hrun Hf].
  - destruct allowed; [|done]. destruct token as [|c token]; [done|]. set (t := String c token) in *.
    cbv beta iota delta [negb mbind stM_bind RefreshHandler t] in Hrun. fold t in Hrun.
    destruct (read_refresh _ _ _ _ _) as [[[rt user]|e|] s1] eqn:Er; [|done..].
    apply read_refresh_ok in Er as (Hfind & _ & _ & ->).
    assert (Hf0 : f 0%nat = None) by by apply find_refresh_ok in Hfind as [].
    rewrite Hf0 in Hfind. destruct (save_revoked_ended t (d_now d) db rt Hwf Hfind) as (Hrow & Hh & id & r & Hr & Hrh & Hrev).
    destruct (rotate_after (fun i => f (2 + i)%nat) d rt user db) as (rest & E & Hk).
    change (f (2 + 0)%nat) with (f 2%nat) in E. rewrite Hf in E. rewrite E in Hrun. destruct (Hk (SaveRefreshToken None (RevokeToken (d_now d) rt) db).2)
      as [_ Hle]. rewrite Hrun in Hle. simpl in Hle.
    destruct (Hle id r) as (r' & Hr' & _ & _ & Hh' & _ & Hrev'); [|done|].
    { intros ->%list_elem_of_singleton.
      assert (rt_id rt <> d_newID d 0%nat) by congruence.
      unfold SaveRefreshToken, exec in Hr. simpl in Hr. rewrite Hrow in Hr. simpl in Hr.
      rewrite lookup_insert_ne in Hr by done. congruence. }
    exists id, r'. split; [done|]. split; [congruence|auto].
  - unfold LogoutHandler in Hrun. destruct token as [|c token]; [done|]. set (t := String c token) in *.
    unfold mbind, stM_bind, attempt in Hrun. rewrite Hfind, Hf in Hrun.
    assert (Hf0 : f 0%nat = None) by by apply find_refresh_ok in Hfind as []. rewrite Hf0 in Hfind.
    injection Hrun as <-. by apply (save_revoked_ended t now db rt).
  - apply reset_confirm_ok in Hrun as (r & p' & hash & creds & _ & [= <-] & Hp' & _ & _ & _ & _ & _ & ->).
    assert (p' = p) as ->.
    { apply find_reset_ok in Hp' as (_ & _ & id & Hp'). apply find_reset_ok in Hreset as (_ & _ & id' & Hp).
      congruence. }
    rewrite Hf. set (s := (SavePasswordReset _ _ _).2).
    assert (refresh_tokens s = refresh_tokens db) as Es.
    { unfold s, SavePasswordReset, exec. destruct (f 2%nat); [done|]. simpl.
      repeat case_match; simplify_eq; done. }
    destruct (save_revoked_ended token now db rt Hwf Hfind) as (Hrow & Hh & _).
    exists (rt_id rt). unfold RevokeAllForUser, exec. simpl. rewrite map_lookup_imap, Es, Hrow. simpl.
    rewrite Hu, String.eqb_refl. simpl. eexists. split; [done|].
    case_bool_decide; simpl; done.
Qed.

Lemma ends_session_wf token db db' : tokens_wf db -> ends_session token db db' -> tokens_wf db'.
Proof.
  intros Hwf. destruct 1 as [f d allowed a db' Hrun _ _|f now rt db' _ Hrun _ _|
    f salt now allowed req rt p db' _ _ _ Hrun _].
  - destruct (run_auth_keeps cfg (CallRefresh f d allowed (Some token)) db) as [Hw _].
    cbn [run_auth] in Hw. rewrite Hrun in Hw. auto.
  - destruct (run_auth_keeps cfg (CallLogout f now (Some token)) db) as [Hw _].
    cbn [run_auth] in Hw. rewrite Hrun in Hw. auto.
  - destruct (run_auth_keeps cfg (CallResetConfirm f salt now allowed (Some req)) db) as [Hw _].
    cbn [run_auth] in Hw. rewrite Hrun in Hw. auto.
Qed.

(** C32: a session that has ended never comes back.  A refresh token is good
    for one rotation: once it is rotated, or its session signed out, or the
    user's password reset (and the statement that revokes it went through),
    then after any history of sign-in calls whatever, each drawing new
    session identifiers, with any database failures, the refresh handler
    refuses that token, whatever the clock and the limiter say, and changes
    nothing. *)
Theorem ended_session_refused token db db1 cs f d allowed :
  tokens_wf db -> ends_session token db db1 -> fresh_history cfg cs db1 ->
  exists e, RefreshHandler cfg f d allowed (Some token) (run_history cfg cs db1)
            = (Err e, run_history cfg cs db1).
Proof.
  intros Hwf Hends Hcs. pose proof (ends_session_wf _ _ _ Hwf Hends) as Hwf1.
  apply (ends_session_ended _ _ _ Hwf) in Hends as (id & r & Hr & Hh & Hrev).
  destruct (history_keeps cfg cs db1 Hcs Hwf1) as [Hwf2 Hk].
  destruct (Hk id r Hr) as (r' & Hr' & _ & _ & Hh' & _ & Hrev').
  destruct allowed; [|by eexists]. destruct token as [|c token]; [by eexists|]. set (t := String c token) in *.
  cbv beta iota delta [negb mbind stM_bind RefreshHandler t]. fold t.
  destruct (read_refresh_err (f 0%nat) (f 1%nat) t (d_now d) (run_history cfg cs db1)) as [msg ->];
    [|by eexists].
  eapply ended_refused; [done|exact Hr'|congruence|]. left. auto.
Qed.

(** ** Rotations that overlap *)

(** Whether a refresh token opens a session. *)
Definition opens (token : string) (now : Time) (db : auth_db) : Prop :=
  exists rt, FindRefreshToken None (sha256_hex token) db = (Ok rt, db) /\ IsActive now rt = true.

(** The identifier and the hash a rotation draws are new. *)
Definition fresh_draw (d : Draws) (db : auth_db) : Prop :=
  let hash := sha256_hex (hex_EncodeToString (d_rand d)) in
  blank (d_newID d 0%nat) = false /\ blank hash = false /\
  refresh_tokens db !! d_newID d 0%nat = None /\
  map_Forall (fun _ r => rt_tokenHash r <> hash) (refresh_tokens db).

Lemma refresh_ttl_run fault db : exists ttl, refresh_ttl cfg fault db = (Ok ttl, db) /\ 24 * Hour <= ttl.
Proof.
  unfold refresh_ttl. destruct (cfg_settings cfg); [|eexists; split; [reflexivity|done]].
  unfold mbind, stM_bind, attempt. assert (db = (GetNetworkSettings fault db).2) as E by apply query_one_pure.
  destruct (GetNetworkSettings fault db) as [r s]. simpl in E. subst s. eexists. split; [reflexivity|].
  destruct r as [s|e|]; [|done..]. destruct (_ && _) eqn:Eb; [|done]. bool_to_prop.
  unfold Hour, Minute, Second. lia.
Qed.

Lemma claimed_libraries_run fault u db : exists libs, claimed_libraries fault u db = (Ok libs, db).
Proof.
  unfold claimed_libraries, mbind, stM_bind, attempt.
  assert (pure (FindMembershipsByUser fault u)) as Hp.
  { apply always_bind; [typeclasses eauto| |intros; apply always_reading; typeclasses eauto].
    apply always_exec; [typeclasses eauto|]. by intros s a s' [= _ <-]. }
  pose proof (Hp db) as E. destruct (FindMembershipsByUser fault u db) as [r s]. simpl in E. subst s.
  by eexists.
Qed.

Lemma issue_run id u rand ttl now db :
  blank id = false -> blank u = false -> blank (sha256_hex (hex_EncodeToString rand)) = false ->
  known_user u db = true -> refresh_tokens db !! id = None ->
  map_Forall (fun _ r => rt_tokenHash r <> sha256_hex (hex_EncodeToString rand)) (refresh_tokens db) ->
  issue_refresh None id u rand ttl now db = (Ok (hex_EncodeToString rand), set_refresh_tokens
    (<[id := mkRefreshToken id u (sha256_hex (hex_EncodeToString rand)) (Add now ttl) None now]>
      (refresh_tokens db)) db).
Proof.
  intros Hb Hbu Hbh Hu Hid Hh. unfold issue_refresh, generateRandomToken, NewRefreshToken.
  rewrite Hb, Hbu, Hbh. unfold mbind, stM_bind, dropping, surely, SaveRefreshToken, exec. simpl.
  rewrite Hid, bool_decide_true by done. by rewrite Hu.
Qed.

(** The rotation of a session, without failures. *)
Lemma rotate_run d rt r user db :
  refresh_tokens db !! rt_id rt = Some r -> known_user (u_id user) db = true ->
  blank (u_id user) = false -> fresh_draw d db ->
  exists access ttl db', rotate_refresh cfg (fun _ => None) d rt user db
    = (Ok (SignedIn None access (hex_EncodeToString (d_rand d))), db') /\
    24 * Hour <= ttl /\ users db' = users db /\
    refresh_tokens db' = <[d_newID d 0%nat := mkRefreshToken (d_newID d 0%nat) (u_id user)
        (sha256_hex (hex_EncodeToString (d_rand d))) (Add (d_now d) ttl) None (d_now d)]>
      (<[rt_id rt := mkRefreshToken (rt_id r) (rt_userID r) (rt_tokenHash r) (rt_expiresAt r)
        (Some (d_now d)) (rt_createdAt r)]> (refresh_tokens db)).
Proof.
  intros Hr Hu Hbu (Hb & Hbh & Hid & Hh).
  set (t1 := <[rt_id rt := _]> (refresh_tokens db)). set (db1 := set_refresh_tokens t1 db).
  assert (SaveRefreshToken None (RevokeToken (d_now d) rt) db = (Ok tt, db1)) as E1.
  { unfold SaveRefreshToken, exec. simpl. by rewrite Hr. }
  destruct (refresh_ttl_run None db1) as (ttl & E2 & Httl).
  unshelve epose proof (issue_run (d_newID d 0%nat) (u_id user) (d_rand d) ttl (d_now d) db1 Hb Hbu Hbh Hu _ _) as E3.
  { simpl. unfold t1. by rewrite lookup_insert_ne by congruence. }
  { intros k x Hx. simpl in Hx. apply lookup_insert_Some in Hx as [[<- <-]|[_ Hx]]; [simpl|]; by eapply Hh. }
  edestruct (claimed_libraries_run None (u_id user)) as (libs & E4).
  unfold rotate_refresh. cbv zeta. cbv delta [mbind stM_bind dropping] beta.
  rewrite E1. cbv beta iota delta [snd]. rewrite E2. cbv beta iota. rewrite E3. cbv beta iota. rewrite E4.
  do 3 eexists. split; [reflexivity|]. by conjuncts.
Qed.

(** A row that is active opens its session. *)
Lemma row_opens token now db id r :
  tokens_wf db -> refresh_tokens db !! id = Some r -> rt_tokenHash r = sha256_hex token ->
  IsActive now r = true -> opens token now db.
Proof.
  intros [_ Hu] Hr Hh Ha. exists r. split; [|done]. apply find_refresh_ok. conjuncts; [done..|]. exists id.
  apply first_row_unique; [done|by apply String.eqb_eq|]. intros k x Hx ?%String.eqb_eq. eapply Hu; eauto.
  congruence.
Qed.

(** The rows a rotation leaves. *)
Section rotated.
Context (d : Draws) (rt r : RefreshToken) (user : User) (ttl : Duration) (db db' : auth_db).
Hypothesis (Hr : refresh_tokens db !! rt_id rt = Some r) (Hd : fresh_draw d db).
Hypothesis (Htable : refresh_tokens db' = <[d_newID d 0%nat := mkRefreshToken (d_newID d 0%nat) (u_id user)
    (sha256_hex (hex_EncodeToString (d_rand d))) (Add (d_now d) ttl) None (d_now d)]>
  (<[rt_id rt := mkRefreshToken (rt_id r) (rt_userID r) (rt_tokenHash r) (rt_expiresAt r)
    (Some (d_now d)) (rt_createdAt r)]> (refresh_tokens db))).

Lemma rotated_old : refresh_tokens db' !! rt_id rt = Some (RevokeToken (d_now d) r).
Proof.
  destruct Hd as (_ & _ & Hn & _). rewrite Htable, lookup_insert_ne by congruence. by rewrite lookup_insert_eq.
Qed.

Lemma rotated_other id x : id <> rt_id rt -> refresh_tokens db !! id = Some x -> refresh_tokens db' !! id = Some x.
Proof.
  intros Hne Hx. destruct Hd as (_ & _ & Hn & _). by rewrite Htable, !lookup_insert_ne by congruence.
Qed.

Lemma rotated_opens : tokens_wf db' -> 24 * Hour <= ttl -> opens (hex_EncodeToString (d_rand d)) (d_now d) db'.
Proof.
  intros Hwf Httl. eapply row_opens; [done|rewrite Htable; apply lookup_insert_eq|done|].
  unfold IsActive, Before, Add. simpl. apply Z.ltb_lt. unfold Hour, Minute, Second in Httl. lia.
Qed.

Lemma rotated_fresh d2 :
  fresh_draw d2 db -> d_newID d 0%nat <> d_newID d2 0%nat ->
  sha256_hex (hex_EncodeToString (d_rand d)) <> sha256_hex (hex_EncodeToString (d_rand d2)) ->
  fresh_draw d2 db'.
Proof.
  intros (Hb & Hbh & Hid & Hh) Hne Hnh. unfold fresh_draw. cbv zeta. conjuncts; [done..| |].
  - rewrite Htable, lookup_insert_ne, lookup_insert_ne by congruence. done.
  - rewrite Htable. intros k x [[<- <-]|[_ [[<- <-]|[_ Hx]]%lookup_insert_Some]]%lookup_insert_Some;
      [done|by apply (Hh _ _ Hr)|by apply (Hh _ _ Hx)].
Qed.
End rotated.

Lemma rotate_wf f d rt user db r db' :
  tokens_wf db -> rotate_refresh cfg f d rt user db = (r, db') -> tokens_wf db'.
Proof.
  intros Hwf R. assert (d_newID d 0%nat ∈ [d_newID d 0%nat]) as Hin by set_solver.
  destruct (keeps_rotate cfg _ f d rt user Hin db) as [Hw _]. rewrite R in Hw. auto.
Qed.

(** Overlapping rotations both succeed.  Reading the refresh token and
    revoking it are separate statements outside a transaction: when two calls
    with one token both read it before either writes, both answer with new
    tokens, and at the end two sessions are open where one was rotated. *)
Theorem overlapping_rotations token db rt user d1 d2 :
  tokens_wf db -> known_user (u_id user) db = true -> blank (u_id user) = false ->
  read_refresh None None token (d_now d1) db = (Ok (rt, user), db) -> d_now d2 = d_now d1 ->
  fresh_draw d1 db -> fresh_draw d2 db -> d_newID d1 0%nat <> d_newID d2 0%nat ->
  sha256_hex (hex_EncodeToString (d_rand d1)) <> sha256_hex (hex_EncodeToString (d_rand d2)) ->
  exists access1 access2 db1 db2,
    rotate_refresh cfg (fun _ => None) d1 rt user db
      = (Ok (SignedIn None access1 (hex_EncodeToString (d_rand d1))), db1) /\
    rotate_refresh cfg (fun _ => None) d2 rt user db1
      = (Ok (SignedIn None access2 (hex_EncodeToString (d_rand d2))), db2) /\
    opens (hex_EncodeToString (d_rand d1)) (d_now d1) db2 /\
    opens (hex_EncodeToString (d_rand d2)) (d_now d1) db2 /\
    ~ opens token (d_now d1) db2.
Proof.
  intros Hwf Hu Hbu Hread Et F1 F2 Hne Hnh. apply read_refresh_ok in Hread as (Hfind & _).
  destruct (save_revoked_ended token (d_now d1) db rt Hwf Hfind) as (Hrt & Hh & _).
  destruct (rotate_run d1 rt rt user db Hrt Hu Hbu F1) as (a1 & ttl1 & db1 & R1 & T1 & U1 & E1).
  pose proof (rotate_wf _ _ _ _ _ _ _ Hwf R1) as Hwf1.
  assert (refresh_tokens db1 !! rt_id rt = Some (RevokeToken (d_now d1) rt)) as Hrt1 by by eapply rotated_old.
  assert (fresh_draw d2 db1) as F2' by (eapply rotated_fresh; [exact Hrt|exact E1|exact F2|exact Hne|exact Hnh]).
  assert (known_user (u_id user) db1 = true) as Hu1 by (unfold known_user; by rewrite U1).
  destruct (rotate_run d2 rt _ user db1 Hrt1 Hu1 Hbu F2') as (a2 & ttl2 & db2 & R2 & T2 & U2 & E2).
  pose proof (rotate_wf _ _ _ _ _ _ _ Hwf1 R2) as Hwf2.
  exists a1, a2, db1, db2. conjuncts; [done..| | |].
  - assert (opens (hex_EncodeToString (d_rand d1)) (d_now d1) db1) as (x & Hx & Ha) by by eapply rotated_opens.
    apply find_refresh_ok in Hx as (_ & _ & id & [Hx Hxh]%first_row_Some). apply String.eqb_eq in Hxh.
    eapply row_opens; [done|eapply rotated_other; [..|exact Hx]|done|done]; try done.
    intros ->. rewrite Hrt1 in Hx. injection Hx as <-. done.
  - rewrite <- Et. by eapply rotated_opens.
  - intros (x & Hx & Ha). revert Ha.
    rewrite (ended_refused None token (d_now d1) db2 (rt_id rt) (RevokeToken (d_now d2) (RevokeToken (d_now d1) rt)));
      try done; [by eapply rotated_old|by left].
Qed.
End rotation.

(** ** The theorems at work *)

#[local] Existing Instance demo_primitives.
#[local] Existing Instance demo_totp.

Definition demo_hasher : PasswordHasher.
Proof.
  refine {| HashPassword := fun _ p => Ok ("argon" +:+ p);
            VerifyPassword := fun p h => Ok (String.eqb h ("argon" +:+ p)) |}.
  intros salt p h [= <-]. by rewrite String.eqb_refl.
Defined.
#[local] Existing Instance demo_hasher.

Definition demo_cfg : AuthConfig :=
  mkAuthConfig demo_signer (NewTOTPEngine "alx") "master" None true (fun s => s) Some.
Definition demo_draws (id rand : string) : Draws := mkDraws rand (Ok "0123456789abcdef") (fun _ => id) 0.

(** One user, signed in once, with a second factor and a reset pending. *)
Definition demo_secret : string := match GenerateSecret (Ok demo_rand) with Ok s => s | _ => "" end.
Definition demo_code : string :=
  match GenerateCode (NewTOTPEngine "alx") demo_secret 0 with Ok c => c | _ => "" end.
Definition demo_totp_row : TOTPSettings :=
  mkTOTPSettings "u1" (match EncryptSecret (Ok "0123456789ab") demo_secret "master" with Ok s => s | _ => "" end)
    [] true (Some 0) 0.
Definition demo_tables (totp : gmap string TOTPSettings) : auth_db :=
  mkAuthDb {["u1" := mkUser "u1" "ada" "ada@example.org" RoleReader 0 0]}
    {["u1" := mkUserCredentials "u1" "argonpassword" 0]}
    {["s1" := mkRefreshToken "s1" "u1" (sha256_hex "tok") Hour None 0]}
    totp {["p1" := mkPasswordResetToken "p1" "u1" (sha256_hex "reset") Hour None 0]}
    ∅ ∅ ∅ None (mkPairingDb ∅ ∅ ∅ ∅).

Definition signed_in {E} (r : res E AuthResponse) : bool :=
  match r with Ok (SignedIn _ _ _) => true | _ => false end.
Definition mfa_required {E} (r : res E AuthResponse) : bool :=
  match r with Ok (MFARequired _) => true | _ => false end.

Lemma demo_tokens_wf totp : tokens_wf (demo_tables totp).
Proof.
  split; simpl.
  - by intros id r [<- <-]%lookup_singleton_Some.
  - by intros id id' r r' [<- <-]%lookup_singleton_Some [<- <-]%lookup_singleton_Some.
Qed.

Lemma ended_session_refused_witness :
  exists a db1, RefreshHandler demo_cfg (fun _ => None) (demo_draws "s2" "r") true (Some "tok") (demo_tables ∅)
      = (Ok a, db1) /\
    exists e, RefreshHandler demo_cfg (fun _ => None) (demo_draws "s3" "r'") true (Some "tok") db1 = (Err e, db1).
Proof.
  assert (is_ok (RefreshHandler demo_cfg (fun _ => None) (demo_draws "s2" "r") true (Some "tok") (demo_tables ∅)).1
          = true) as Hok by (vm_compute; reflexivity).
  destruct (RefreshHandler demo_cfg (fun _ => None) (demo_draws "s2" "r") true (Some "tok") (demo_tables ∅))
    as [[a|e|] db1] eqn:E; [|discriminate Hok..].
  exists a, db1. split; [reflexivity|].
  apply (ended_session_refused demo_cfg "tok" (demo_tables ∅) db1 [] (fun _ => None) (demo_draws "s3" "r'") true).
  - apply demo_tokens_wf.
  - apply (ends_rotated demo_cfg "tok" _ (fun _ => None) (demo_draws "s2" "r") true a db1 E); reflexivity.
  - exact I.
Defined.

Lemma overlapping_rotations_witness :
  exists access1 access2 db1 db2,
    rotate_refresh demo_cfg (fun _ => None) (demo_draws "s2" "r")
      (mkRefreshToken "s1" "u1" (sha256_hex "tok") Hour None 0) (mkUser "u1" "ada" "ada@example.org" RoleReader 0 0)
      (demo_tables ∅) = (Ok (SignedIn None access1 "72"), db1) /\
    rotate_refresh demo_cfg (fun _ => None) (demo_draws "s3" "q")
      (mkRefreshToken "s1" "u1" (sha256_hex "tok") Hour None 0) (mkUser "u1" "ada" "ada@example.org" RoleReader 0 0)
      db1 = (Ok (SignedIn None access2 "71"), db2).
Proof.
  assert (forall id rand, id <> "s1" -> blank id = false ->
    sha256_hex (hex_EncodeToString rand) <> sha256_hex "tok" ->
    blank (sha256_hex (hex_EncodeToString rand)) = false -> fresh_draw (demo_draws id rand) (demo_tables ∅)) as Hd.
  { intros id rand Hid Hb Hne Hh. unfold fresh_draw. cbv zeta. conjuncts; [done..| |]; simpl.
    - by rewrite lookup_singleton_ne.
    - intros k r [<- <-]%lookup_singleton_Some. simpl. congruence. }
  assert (read_refresh None None "tok" 0 (demo_tables ∅)
    = (Ok (mkRefreshToken "s1" "u1" (sha256_hex "tok") Hour None 0,
           mkUser "u1" "ada" "ada@example.org" RoleReader 0 0), demo_tables ∅)) as Hread.
  { apply read_refresh_ok. by conjuncts. }
  destruct (fun Hu Hb => overlapping_rotations demo_cfg "tok" (demo_tables ∅) _ _
    (demo_draws "s2" "r") (demo_draws "s3" "q") (demo_tokens_wf ∅) Hu Hb Hread eq_refl)
    as (a1 & a2 & db1 & db2 & E1 & E2 & _); [reflexivity|reflexivity|apply Hd; done|apply Hd; done|done|done|].
  exists a1, a2, db1, db2. split; [exact E1|exact E2].
Defined.
