(* ===== verification/SignInSafety.v ===== *)
(** * What sign-in guarantees: passwords, second factors, resets

    What a completed sign-in has checked, what a password reset leaves, and
    that a second-factor ticket is good for one attempt. *)

From S2P Require Import Prelude GoStrings Errors Catalog Transactor Postgres Http Pairing PairingStore Identity Encoding Tokens Totp AuthStore AuthHandlers AuthSafety.

Local Open Scope string_scope.
Local Open Scope list_scope.
Local Open Scope Z_scope.

(** ** Queries leave the tables as they are *)

Section queries.
Context `{CaseTables} (LOWER : string -> string).

Lemma pure_query {A B} fault msg (f : auth_db -> option A) (g : A -> auth_db -> res error B) :
  pure (a ← query_one fault msg f; reading (g a)).
Proof.
  apply always_bind; [typeclasses eauto|apply query_one_pure|].
  intros; apply always_reading; typeclasses eauto.
Qed.

Lemma pure_FindUserByID f id : pure (FindUserByID f id). Proof. apply pure_query. Qed.
Lemma pure_FindUserByEmail f e : pure (FindUserByEmail LOWER f e). Proof. apply pure_query. Qed.
Lemma pure_FindUserByUsername f e : pure (FindUserByUsername LOWER f e). Proof. apply pure_query. Qed.
Lemma pure_FindCredentials f u : pure (FindCredentials f u). Proof. apply pure_query. Qed.
Lemma pure_FindTOTP f u : pure (FindTOTP f u). Proof. apply pure_query. Qed.
Lemma pure_FindPasswordReset f h : pure (FindPasswordReset f h). Proof. apply query_one_pure. Qed.
Lemma pure_FindRefreshToken f h : pure (FindRefreshToken f h). Proof. apply query_one_pure. Qed.
End queries.

#[export] Hint Resolve pure_FindUserByID pure_FindUserByEmail pure_FindUserByUsername pure_FindCredentials
  pure_FindTOTP pure_FindPasswordReset pure_FindRefreshToken : pure.

Section sign_in.
Context `{CaseTables} `{TokenPrimitives} `{TOTPPrimitives} `{PasswordHasher} (cfg : AuthConfig).

Lemma pure_find_account f f' n : pure (find_account cfg f f' n).
Proof.
  unfold find_account. apply pure_bind; [auto with pure|]. intros []; auto with pure.
Qed.

(** An account found is a user the constructor accepts. *)
Lemma scan_user_id (u u' : User) : scan_user u = Ok u' -> blank (u_id u') = false.
Proof.
  unfold scan_user, mbind. simpl. destruct (ParseRole _) as [role|e|]; [|done..]. simpl.
  unfold NewUser. destruct (blank (u_id u)) eqn:E; [done|]. cbv zeta.
  repeat (case_match; [done|]). by intros [= <-].
Qed.

Lemma query_scan fault msg (q : auth_db -> option User) db u s :
  (a ← query_one fault msg q; reading (fun _ => scan_user a)) db = (Ok u, s) -> blank (u_id u) = false.
Proof.
  unfold mbind at 1, stM_bind. destruct (query_one _ _ _ db) as [[a|e|] s1]; [|done..].
  unfold reading. intros [= Hs _]. by eapply scan_user_id.
Qed.

Lemma find_account_id f f' n db user s : find_account cfg f f' n db = (Ok (Ok user), s) -> blank (u_id user) = false.
Proof.
  unfold find_account. rewrite bind_attempt by auto with pure.
  destruct (FindUserByEmail _ _ _ db) as [r s1] eqn:E. cbn [fst].
  destruct r as [u|e|].
  - intros [= <- _]. by eapply query_scan.
  - intros E2%attempt_ok. by eapply query_scan.
  - intros E2%attempt_ok. by eapply query_scan.
Qed.

Lemma grant_run f f' g u now db : exists db', applyEnrolmentGrant cfg f f' g u now db = (Ok tt, db').
Proof.
  unfold applyEnrolmentGrant. destruct (cfg_grantSigner cfg); [|by eexists].
  destruct (String.eqb g ""); [by eexists|]. destruct (VerifyGrant _ _ _); [|by eexists..].
  unfold mbind, stM_bind, attempt. destruct (on_network _ _ _) as [r s]. destruct r as [[]|e|]; by eexists.
Qed.

Lemma issue_total f id u rand ttl now db :
  blank id = false -> blank u = false -> blank (sha256_hex (hex_EncodeToString rand)) = false ->
  exists db', issue_refresh f id u rand ttl now db = (Ok (hex_EncodeToString rand), db').
Proof.
  intros Hid Hu Hh. unfold issue_refresh, generateRandomToken, NewRefreshToken. rewrite Hid, Hu, Hh.
  by eexists.
Qed.

(** The rest of a sign-in always answers. *)
Lemma complete_login_run f d user grant db :
  blank (d_newID d 0%nat) = false -> blank (u_id user) = false ->
  blank (sha256_hex (hex_EncodeToString (d_rand d))) = false ->
  exists access db', complete_login cfg f d user grant db
    = (Ok (SignedIn (Some (summary user)) access (hex_EncodeToString (d_rand d))), db').
Proof.
  intros Hid Hu Hh. unfold complete_login. cbv zeta.
  destruct (grant_run (f 0%nat) (f 1%nat) grant (u_id user) (d_now d) db) as [s1 E1].
  destruct (claimed_libraries_run (f 2%nat) (u_id user) s1) as [libs E2].
  destruct (refresh_ttl_run cfg (f 3%nat) s1) as (ttl & E3 & _).
  destruct (issue_total (f 4%nat) (d_newID d 0%nat) (u_id user) (d_rand d) ttl (d_now d) s1 Hid Hu Hh)
    as [s2 E4].
  cbv delta [mbind stM_bind] beta. rewrite E1. cbv beta iota. rewrite E2. cbv beta iota. rewrite E3.
  cbv beta iota. rewrite E4. by do 2 eexists.
Qed.

(** What the handler found when it completes a sign-in. *)
Lemma LoginHandler_ok f d allowed req db a db' :
  LoginHandler cfg f d allowed (Some req) db = (Ok a, db') ->
  allowed = true /\ exists user creds,
    find_account cfg (f 0%nat) (f 1%nat) (lr_EmailOrUsername req) db = (Ok (Ok user), db) /\
    FindCredentials (f 2%nat) (u_id user) db = (Ok creds, db) /\
    VerifyPassword (lr_Password req) (uc_passwordHash creds) = Ok true /\
    let enabled := match (FindTOTP (f 3%nat) (u_id user) db).1 with Ok s => ts_enabled s | _ => false end in
    (enabled = true /\ db' = db /\ exists ticket,
       SignMFATicket (cfg_signer cfg) (d_jti d) (d_now d) (u_id user) (Add (d_now d) (5 * Minute)) = Ok ticket /\
       a = MFARequired ticket) \/
    (enabled = false /\
       complete_login cfg (fun i => f (4 + i)%nat) d user (lr_EnrolmentGrant req) db = (Ok a, db')).
Proof.
  unfold LoginHandler. destruct allowed; [|done]. cbn [negb].
  rewrite bind_pure by apply pure_find_account.
  pose proof (pure_run _ db (pure_find_account (f 0%nat) (f 1%nat) (lr_EmailOrUsername req))) as Hacc.
  destruct (find_account _ _ _ _ db).1 as [[user|e|]|e|]; [|done..].
  rewrite bind_attempt by auto with pure.
  pose proof (pure_run _ db (pure_FindCredentials (f 2%nat) (u_id user))) as Hcreds.
  destruct (FindCredentials _ _ db).1 as [creds|e|]; [|done..].
  destruct (VerifyPassword _ _) as [[]|e|] eqn:Hv; [|done..].
  rewrite bind_attempt by auto with pure. cbv zeta. intros Hrun. split; [done|].
  exists user, creds. conjuncts; [done..|].
  destruct (match (FindTOTP _ _ db).1 with Ok s => ts_enabled s | _ => false end); [left|right; done].
  destruct (SignMFATicket _ _ _ _ _) as [ticket|e|]; [|done..]. injection Hrun as <- <-. eauto.
Qed.

(** Where the handler asks for the second factor, a failure of the one query
    that looks it up lets the same request in with the password alone. *)
Lemma LoginHandler_fails_open f d allowed req db ticket db' e :
  LoginHandler cfg f d allowed (Some req) db = (Ok (MFARequired ticket), db') ->
  blank (d_newID d 0%nat) = false -> blank (sha256_hex (hex_EncodeToString (d_rand d))) = false ->
  exists u access refresh db2,
    LoginHandler cfg (fun i => if Nat.eqb i 3 then Some e else f i) d true (Some req) db
    = (Ok (SignedIn u access refresh), db2).
Proof.
  intros (-> & user & creds & Ha & Hc & Hv & Hcase)%LoginHandler_ok Hid Hh.
  destruct (complete_login_run (fun i => if Nat.eqb (4 + i) 3 then Some e else f (4 + i)%nat) d user
    (lr_EnrolmentGrant req) db Hid (find_account_id _ _ _ _ _ _ Ha) Hh) as (access & db2 & E).
  exists (Some (summary user)), access, (hex_EncodeToString (d_rand d)), db2.
  unfold LoginHandler. cbn [negb Nat.eqb].
  rewrite bind_pure by apply pure_find_account. rewrite Ha. cbn [fst].
  rewrite bind_attempt by auto with pure. rewrite Hc. cbn [fst]. rewrite Hv.
  rewrite bind_attempt by auto with pure. cbn [FindTOTP]. exact E.
Qed.

(** C33: no sign-in without the password, and the second factor is asked for
    as long as the store can be read.  When the sign-in handler answers with
    tokens or with a ticket, it found the account by the given address or
    name, found its credentials, and the password verifies against their
    hash.  Tokens mean that the account has no second factor switched on,
    unless the very query for it failed.  That exception is real: wherever
    the answer is a ticket, a failure of that one query turns it into
    tokens. *)
Theorem LoginHandler_second_factor f d allowed req db out db' :
  LoginHandler cfg f d allowed (Some req) db = (Ok out, db') ->
  exists user creds,
    find_account cfg (f 0%nat) (f 1%nat) (lr_EmailOrUsername req) db = (Ok (Ok user), db) /\
    FindCredentials (f 2%nat) (u_id user) db = (Ok creds, db) /\
    VerifyPassword (lr_Password req) (uc_passwordHash creds) = Ok true /\
    match out with
    | SignedIn _ _ _ =>
        f 3%nat = None -> forall s, FindTOTP None (u_id user) db = (Ok s, db) -> ts_enabled s = false
    | MFARequired _ =>
        blank (d_newID d 0%nat) = false -> blank (sha256_hex (hex_EncodeToString (d_rand d))) = false ->
        forall e, exists u access refresh db2,
          LoginHandler cfg (fun i => if Nat.eqb i 3 then Some e else f i) d true (Some req) db
          = (Ok (SignedIn u access refresh), db2)
    end.
Proof.
  intros Hrun. destruct (LoginHandler_ok _ _ _ _ _ _ _ Hrun) as (_ & user & creds & Ha & Hc & Hv & Hcase).
  exists user, creds. conjuncts. destruct out as [u a r|t].
  - intros Hf s Hs. rewrite Hf, Hs in Hcase. destruct Hcase as [(_ & _ & t & _ & ?)|[? _]]; done.
  - intros Hid Hh e. by eapply LoginHandler_fails_open.
Qed.
End sign_in.

(** ** Password resets *)

Section resets.
Context `{CaseTables} `{TokenPrimitives} `{TOTPPrimitives} `{PasswordHasher}.

(** The rows of reset tokens are keyed by their identifiers, and their hashes
    are unique (migration 00009). *)
Definition resets_wf (db : auth_db) : Prop :=
  (forall id p, password_resets db !! id = Some p -> pr_id p = id) /\
  forall id id' p p', password_resets db !! id = Some p -> password_resets db !! id' = Some p' ->
    pr_tokenHash p = pr_tokenHash p' -> id = id'.

Lemma reset_confirm_err f salt now allowed req db r db' :
  PasswordResetConfirmHandler f salt now allowed req db = (r, db') -> is_ok r = false -> db' = db.
Proof.
  unfold PasswordResetConfirmHandler. destruct allowed; [|by intros [= <- <-]]. cbn [negb].
  destruct req as [r0|]; [|by intros [= <- <-]]. do 2 (case_match; [by intros [= <- <-]|]).
  rewrite bind_attempt by auto with pure.
  destruct (FindPasswordReset _ _ db).1 as [p|e|]; [|by intros [= <- <-]..].
  case_match; [by intros [= <- <-]|]. destruct (HashPassword _ _) as [h|e|]; [|by intros [= <- <-]..].
  unfold mbind, stM_bind, surely, attempt, dropping.
  destruct (NewUserCredentials _ _ _) as [c|e|]; [|by intros [= <- <-]..].
  destruct (SaveCredentials _ _ _) as [[[]|e|] s] eqn:E; intros [= <- <-]; try done; by apply exec_fail in E.
Qed.

(** A reset token that cannot be used leaves the request refused. *)
Lemma reset_refused f salt now allowed req db :
  (forall p, FindPasswordReset (f 0%nat) (sha256_hex (rc_Token req)) db = (Ok p, db) ->
     reset_valid now p = false) ->
  exists e, PasswordResetConfirmHandler f salt now allowed (Some req) db = (Err e, db).
Proof.
  intros Hall. unfold PasswordResetConfirmHandler. destruct allowed; [|by eexists]. cbn [negb].
  do 2 (case_match; [by eexists|]). rewrite bind_attempt by auto with pure.
  pose proof (pure_run _ db (pure_FindPasswordReset (f 0%nat) (sha256_hex (rc_Token req)))) as E.
  destruct (FindPasswordReset _ _ db).1 as [p|e|]; [|by eexists..]. rewrite (Hall p E). by eexists.
Qed.

Lemma revoke_credentials f u now db : credentials (RevokeAllForUser f u now db).2 = credentials db.
Proof. unfold RevokeAllForUser, exec. by destruct f. Qed.
Lemma revoke_resets f u now db : password_resets (RevokeAllForUser f u now db).2 = password_resets db.
Proof. unfold RevokeAllForUser, exec. by destruct f. Qed.
Lemma save_reset_credentials f p db : credentials (SavePasswordReset f p db).2 = credentials db.
Proof. unfold SavePasswordReset, exec. destruct f; [done|]. repeat case_match; simplify_eq; done. Qed.

(** What a password reset does.  A request that fails changes nothing.
    One that succeeds had a valid token; the account's password is then the
    new one and nobody else's changed; if the token could be marked used, it
    is refused from then on, at any time and with any new password; if the
    sessions could be revoked, none of the user's is left.  The two "if"s
    are real: the handler drops those failures, and the token then stays as
    it was. *)
Theorem PasswordResetConfirm_effects f salt now allowed req db out db' :
  resets_wf db -> PasswordResetConfirmHandler f salt now allowed (Some req) db = (out, db') ->
  match out with
  | Ok _ =>
      exists p creds,
        FindPasswordReset None (sha256_hex (rc_Token req)) db = (Ok p, db) /\ reset_valid now p = true /\
        credentials db' = <[pr_userID p := creds]> (credentials db) /\
        VerifyPassword (rc_NewPassword req) (uc_passwordHash creds) = Ok true /\
        (f 2%nat = None -> forall f' salt' now' allowed' password', exists e,
           PasswordResetConfirmHandler f' salt' now' allowed'
             (Some (mkResetConfirmation (rc_Token req) password')) db' = (Err e, db')) /\
        (f 2%nat <> None -> password_resets db' = password_resets db) /\
        (f 3%nat = None -> forall id r, refresh_tokens db' !! id = Some r ->
           rt_userID r = pr_userID p -> rt_revokedAt r <> None)
  | _ => db' = db
  end.
Proof.
  intros [Hk Hu] Hrun. destruct out as [[]|e|]; [|by eapply reset_confirm_err..].
  apply reset_confirm_ok in Hrun as (r & p & hash & creds & _ & [= <-] & Hp & Hv & Hh & Hc & _ & _ & ->).
  assert (f 0%nat = None) as Hf0 by by apply find_reset_ok in Hp as []. rewrite Hf0 in Hp.
  set (db1 := set_credentials _ db). set (db2 := (SavePasswordReset _ _ db1).2).
  exists p, creds. conjuncts; [done..| | | | |].
  - rewrite revoke_credentials. apply save_reset_credentials.
  - apply (verify_hashed salt). unfold NewUserCredentials in Hc.
    do 2 (destruct (blank _); [done|]). by injection Hc as <-.
  - intros Hf2 f' salt' now' allowed' password'. apply reset_refused. cbn [rc_Token].
    intros q (_ & _ & id & [Hq Hqh]%first_row_Some)%find_reset_ok. apply String.eqb_eq in Hqh.
    apply find_reset_ok in Hp as (_ & _ & id' & [Hp Hph]%first_row_Some). apply String.eqb_eq in Hph.
    assert (pr_id p = id') as <- by eauto.
    rewrite revoke_resets in Hq. unfold db2 in Hq. rewrite Hf2 in Hq.
    unfold SavePasswordReset, exec in Hq. simpl in Hq. rewrite Hp in Hq. simpl in Hq.
    apply lookup_insert_Some in Hq as [[_ <-]|[Hne Hq]]; [by unfold reset_valid|].
    exfalso. apply Hne. eapply Hu; [exact Hp|exact Hq|congruence].
  - intros Hf2. rewrite revoke_resets. unfold db2, SavePasswordReset, exec. by destruct (f 2%nat).
  - intros Hf3 id r. rewrite Hf3. unfold RevokeAllForUser, exec. simpl. rewrite map_lookup_imap.
    destruct (refresh_tokens db2 !! id) as [x|]; [|done]. simpl. intros [= <-].
    case_bool_decide as Hx; [rewrite andb_true_r|by rewrite andb_false_r].
    destruct (String.eqb_spec (rt_userID x) (pr_userID p)); done.
Qed.
End resets.

(** ** Second-factor tickets *)

(** Spent tickets stay spent. *)
Definition tickets_le (db db' : auth_db) : Prop :=
  forall jti t, ticket_jtis (network db) !! jti = Some t -> ticket_jtis (network db') !! jti = Some t.

#[export] Instance tickets_le_preorder : PreOrder tickets_le.
Proof.
  split.
  - intros db j t Hj. exact Hj.
  - intros db1 db2 db3 H1 H2 j t Hj. auto.
Qed.

Section tickets.
Abbreviation keeps := (always tickets_le).

Lemma same_network db db' : network db' = network db -> tickets_le db db'.
Proof. unfold tickets_le. by intros ->. Qed.

Lemma tickets_exec {A} fault (f : auth_db -> res pg_error (A * auth_db)) :
  (forall s a s', f s = Ok (a, s') -> network s' = network s) -> keeps (exec fault f).
Proof. intros Hf. apply always_exec; [typeclasses eauto|]. intros s a s' ?%Hf. by apply same_network. Qed.

Lemma tickets_pure {E A} (m : stM auth_db E A) : pure m -> keeps m.
Proof. intros Hm s. rewrite <- (Hm s). reflexivity. Qed.

Lemma tickets_network {A} inet (m : Server -> stM pairing_db error A) :
  (forall server n, ticket_jtis (m server n).2 = ticket_jtis n) -> keeps (on_network inet m).
Proof.
  intros Hm s. unfold on_network. specialize (Hm (mkServer (fun u => known_user u s) inet) (network s)).
  destruct (m _ _) as [r n]. simpl in Hm. unfold tickets_le. simpl. by rewrite Hm.
Qed.

Lemma tickets_ClaimTicket inet f j now : keeps (on_network inet (fun _ => ClaimTicket f j now)).
Proof.
  intros s. unfold on_network, ClaimTicket, exec. destruct f; [by intros k t|]. unfold claim_jti.
  destruct (ticket_jtis (network s) !! j) as [t|] eqn:E; simpl; [by intros k t'|].
  intros k t Hk. simpl. rewrite lookup_insert_ne; [done|congruence].
Qed.

Lemma tickets_ClaimGrant inet f j now : keeps (on_network inet (fun _ => ClaimGrant f j now)).
Proof.
  apply tickets_network. intros server n. unfold ClaimGrant, exec. destruct f; [done|].
  by destruct (claim_jti _ _ _).
Qed.

Lemma tickets_Assign inet f s u : keeps (on_network inet (fun server => AssignOwnerByPairingSession server f s u)).
Proof.
  apply tickets_network. intros server n.
  unfold AssignOwnerByPairingSession, mbind, stM_bind, exec. destruct f; [done|].
  destruct (update_where _ _ _) as [k t]. destruct (_ && _); [done|]. by destruct (k =? 0).
Qed.

Local Ltac other_tables :=
  apply tickets_exec; intros ? ? ? E; repeat (case_match; [|try discriminate E]); repeat case_match;
  try discriminate E; by injection E as _ <-.

Lemma tickets_CountUsers f : keeps (CountUsers f). Proof. other_tables. Qed.
Lemma tickets_SaveUser f u : keeps (SaveUser f u). Proof. other_tables. Qed.
Lemma tickets_SaveCredentials f c : keeps (SaveCredentials f c). Proof. other_tables. Qed.
Lemma tickets_SaveRefreshToken f rt : keeps (SaveRefreshToken f rt). Proof. other_tables. Qed.
Lemma tickets_RevokeAllForUser f u now : keeps (RevokeAllForUser f u now). Proof. other_tables. Qed.
Lemma tickets_SaveTOTP f s : keeps (SaveTOTP f s). Proof. other_tables. Qed.
Lemma tickets_DeleteTOTP f u : keeps (DeleteTOTP f u). Proof. other_tables. Qed.
Lemma tickets_SavePasswordReset f p : keeps (SavePasswordReset f p). Proof. other_tables. Qed.
Lemma tickets_SaveMembership f m : keeps (SaveMembership f m). Proof. other_tables. Qed.
Lemma tickets_FindMembershipsByUser f u : keeps (FindMembershipsByUser f u).
Proof.
  apply always_bind; [typeclasses eauto|other_tables|intros ?; apply always_reading; typeclasses eauto].
Qed.
End tickets.

#[export] Hint Resolve tickets_pure tickets_ClaimTicket tickets_ClaimGrant tickets_Assign tickets_CountUsers
  tickets_SaveUser tickets_SaveCredentials tickets_SaveRefreshToken tickets_RevokeAllForUser tickets_SaveTOTP
  tickets_DeleteTOTP tickets_SavePasswordReset tickets_SaveMembership tickets_FindMembershipsByUser : always.

Section ticket_handlers.
Context `{CaseTables} `{TokenPrimitives} `{TOTPPrimitives} `{PasswordHasher} (cfg : AuthConfig).
Abbreviation keeps := (always tickets_le).

Lemma pure_GetNetworkSettings f : pure (GetNetworkSettings f). Proof. apply query_one_pure. Qed.
Lemma tickets_find f f' n : keeps (find_account cfg f f' n).
Proof. apply tickets_pure, pure_find_account. Qed.
Lemma tickets_ttl f : keeps (refresh_ttl cfg f).
Proof.
  intros s. destruct (refresh_ttl_run cfg f s) as (ttl & E & _). rewrite E. by intros j t.
Qed.
Lemma tickets_libraries f u : keeps (claimed_libraries f u).
Proof. intros s. destruct (claimed_libraries_run f u s) as (l & E). rewrite E. by intros j t. Qed.

Local Ltac walk :=
  repeat first
    [ progress eauto with always pure typeclass_instances
    | apply tickets_pure; solve [eauto with pure]
    | apply always_attempt; apply tickets_pure; solve [eauto with pure]
    | apply always_bind; [typeclasses eauto| |intros ?]
    | case_match ].

Lemma tickets_issue f id u rand ttl now : keeps (issue_refresh f id u rand ttl now).
Proof. unfold issue_refresh, generateRandomToken. walk. Qed.
Lemma tickets_grant f f' g u now : keeps (applyEnrolmentGrant cfg f f' g u now).
Proof. unfold applyEnrolmentGrant. walk. Qed.
#[local] Hint Resolve tickets_find tickets_ttl tickets_libraries tickets_issue tickets_grant : always.

Lemma tickets_complete f d u g : keeps (complete_login cfg f d u g).
Proof. unfold complete_login. walk. Qed.
Lemma tickets_rotate f d rt u : keeps (rotate_refresh cfg f d rt u).
Proof. unfold rotate_refresh. walk. Qed.
Lemma tickets_read f f' t now : keeps (read_refresh f f' t now).
Proof. unfold read_refresh. walk. Qed.
Lemma tickets_password f u p : keeps (password_matches f u p).
Proof. unfold password_matches. walk. Qed.
Lemma tickets_factor f now u s r : keeps (second_factor cfg f now u s r).
Proof. unfold second_factor. walk. Qed.
#[local] Hint Resolve tickets_complete tickets_rotate tickets_read tickets_password tickets_factor : always.
Lemma tickets_attempt f d b u r : keeps (attempt_factor cfg f d b u r).
Proof. unfold attempt_factor. cbv zeta. walk. Qed.
Lemma tickets_spend f j now : keeps (spend_ticket cfg f j now).
Proof. unfold spend_ticket. walk. Qed.
#[local] Hint Resolve tickets_attempt tickets_spend : always.

Lemma run_auth_tickets c db : tickets_le db (run_auth cfg c db).
Proof.
  destruct c; cbn [run_auth]; revert db;
    [change (keeps (SetupHandler cfg f d salt req)); unfold SetupHandler
    |change (keeps (LoginHandler cfg f d allowed req)); unfold LoginHandler
    |change (keeps (RefreshHandler cfg f d allowed req)); unfold RefreshHandler
    |change (keeps (LogoutHandler f now req)); unfold LogoutHandler
    |change (keeps (PasswordResetRequestHandler cfg f d allowed email)); unfold PasswordResetRequestHandler
    |change (keeps (PasswordResetConfirmHandler f salt now allowed req)); unfold PasswordResetConfirmHandler
    |change (keeps (TOTPSetupHandler cfg f now secretRand codeRands nonce user password));
     unfold TOTPSetupHandler
    |change (keeps (TOTPConfirmHandler cfg f now user code)); unfold TOTPConfirmHandler
    |change (keeps (TOTPVerifyHandler cfg f d allowed userAllowed req)); unfold TOTPVerifyHandler
    |change (keeps (TOTPDisableHandler f user password)); unfold TOTPDisableHandler]; walk.
Qed.

Lemma history_tickets cs db : tickets_le db (run_history cfg cs db).
Proof.
  revert db. induction cs as [|c cs IH]; intros db; [by intros j t|]. simpl.
  etrans; [apply (run_auth_tickets c)|apply IH].
Qed.

(** What a ticket says does not depend on when it is read. *)
Lemma ticket_time s token now now' r r' :
  VerifyMFATicket s token now = Ok r -> VerifyMFATicket s token now' = Ok r' -> r = r'.
Proof.
  unfold VerifyMFATicket, checked_claims. destruct (hs256VerifiedClaims _ _) as [json|e|]; [|done..]. simpl.
  destruct (json_parse json ≫= object_claims) as [c|]; [|done].
  destruct (c_ExpiresAt c <=? Unix now), (c_ExpiresAt c <=? Unix now'); try done.
  destruct (_ && _); [done|]. simpl. destruct (negb _); [done|]. intros [= <-] [= <-]. done.
Qed.

(** A spent ticket is refused before anything else is looked at. *)
Lemma spend_spent f jti now db t :
  ticket_jtis (network db) !! jti = Some t -> jti <> "" ->
  exists e, spend_ticket cfg f jti now db = (Err e, db).
Proof.
  intros Ht Hne. unfold spend_ticket. apply String.eqb_neq in Hne as ->.
  unfold mbind, stM_bind, attempt, on_network, ClaimTicket, exec, claim_jti.
  destruct f; [|simpl; rewrite Ht]; simpl; eexists; by destruct db as [? ? ? ? ? ? ? ? ? []].
Qed.

Lemma spent_refused f d allowed userAllowed req db now userID jti t :
  VerifyMFATicket (cfg_signer cfg) (mr_MFATicket req) now = Ok (userID, jti) -> jti <> "" ->
  ticket_jtis (network db) !! jti = Some t ->
  exists e, TOTPVerifyHandler cfg f d allowed userAllowed (Some req) db = (Err e, db).
Proof.
  intros Hv Hne Ht. unfold TOTPVerifyHandler. destruct allowed; [|by eexists]. cbn [negb].
  case_match; [by eexists|].
  destruct (VerifyMFATicket _ _ (d_now d)) as [[u j]|e|] eqn:E; [|by eexists..].
  pose proof (ticket_time _ _ _ _ _ _ Hv E) as [= <- <-].
  destruct (spend_spent (f 0%nat) jti (d_now d) db t Ht Hne) as [e He].
  unfold mbind, stM_bind. rewrite He. by eexists.
Qed.

(** Spending a ticket, with no failure. *)
Lemma spend_run jti now db :
  jti <> "" -> ticket_jtis (network db) !! jti = None ->
  exists db0, spend_ticket cfg None jti now db = (Ok tt, db0) /\
    ticket_jtis (network db0) !! jti = Some now /\ totp_settings db0 = totp_settings db.
Proof.
  intros Hne Ht. unfold spend_ticket. apply String.eqb_neq in Hne as ->.
  unfold mbind, stM_bind, attempt, on_network, ClaimTicket, exec, claim_jti. simpl. rewrite Ht. simpl.
  eexists. split; [reflexivity|]. simpl. by rewrite lookup_insert_eq.
Qed.

(** What an attempt that signs in has checked. *)
Lemma attempt_factor_ok f d b userID req db a db' :
  attempt_factor cfg f d b userID req db = (Ok a, db') ->
  exists settings, FindTOTP None userID db = (Ok settings, db) /\ ts_enabled settings = true /\
    if String.eqb (mr_Code req) "" then
      is_Some (VerifyRecoveryCode (mr_RecoveryCode req) (ts_recoveryCodeHashes settings))
    else exists secret, DecryptSecret (ts_encryptedSecret settings) (cfg_masterKey cfg) = Ok secret /\
           ValidateCode (cfg_engine cfg) secret (mr_Code req) (d_now d) = Ok true.
Proof.
  unfold attempt_factor. destruct b; [|done]. cbn [negb]. rewrite bind_attempt by auto with pure.
  pose proof (pure_run _ db (pure_FindTOTP (f 0%nat) userID)) as E.
  destruct (FindTOTP _ _ db).1 as [s|e|]; [|done..]. destruct (ts_enabled s) eqn:Hen; [|done]. cbn [negb].
  assert (f 0%nat = None) as Hf.
  { unfold FindTOTP, mbind at 1, stM_bind in E. destruct (query_one _ _ _ db) as [[x|e|] s1] eqn:Eq; [|done..].
    by apply query_one_ok in Eq as []. }
  rewrite Hf in E. rewrite bind_attempt by auto with pure.
  destruct (FindUserByID _ _ db).1 as [u|e|]; [|done..]. intros Hrun. exists s. conjuncts; [done..|].
  unfold mbind at 1, stM_bind at 1 in Hrun. unfold second_factor in Hrun.
  destruct (String.eqb (mr_Code req) "") eqn:Ec; cbn [negb] in Hrun.
  - destruct (String.eqb (mr_RecoveryCode req) ""); [done|]. cbn [negb] in Hrun.
    by destruct (VerifyRecoveryCode _ _).
  - destruct (DecryptSecret _ _) as [secret|e|]; [|done..]. exists secret. split; [done|].
    by destruct (ValidateCode _ _ _ _) as [[]|e|].
Qed.

(** C34: a second-factor ticket stands for one attempt.  Take any call whose
    ticket verifies and whose statement spending it goes through, however
    the call ends (limiter, wrong code, success).  If it signs the caller in,
    the ticket was not spent before, the account the ticket names has its
    second factor switched on, and the code was one of the present window or
    the recovery code one of the account's; and after any history of sign-in
    calls, any call with the same ticket is refused and changes nothing. *)
Theorem mfa_ticket_single_use f d userAllowed req db out db1 userID jti :
  VerifyMFATicket (cfg_signer cfg) (mr_MFATicket req) (d_now d) = Ok (userID, jti) -> jti <> "" ->
  mr_MFATicket req <> "" -> f 0%nat = None ->
  TOTPVerifyHandler cfg f d true userAllowed (Some req) db = (out, db1) ->
  (is_ok out = true ->
     ticket_jtis (network db) !! jti = None /\
     exists settings db0, FindTOTP None userID db0 = (Ok settings, db0) /\ totp_settings db0 = totp_settings db /\
       ts_enabled settings = true /\
       if String.eqb (mr_Code req) "" then
         is_Some (VerifyRecoveryCode (mr_RecoveryCode req) (ts_recoveryCodeHashes settings))
       else exists secret, DecryptSecret (ts_encryptedSecret settings) (cfg_masterKey cfg) = Ok secret /\
              ValidateCode (cfg_engine cfg) secret (mr_Code req) (d_now d) = Ok true) /\
  forall cs f' d' allowed userAllowed' req',
    mr_MFATicket req' = mr_MFATicket req ->
    exists e, TOTPVerifyHandler cfg f' d' allowed userAllowed' (Some req') (run_history cfg cs db1)
              = (Err e, run_history cfg cs db1).
Proof.
  intros Hv Hne Htk Hf Hrun. apply String.eqb_neq in Htk.
  destruct (ticket_jtis (network db) !! jti) as [t|] eqn:Hj.
  { destruct (spent_refused f d true userAllowed req db _ _ _ _ Hv Hne Hj) as [e He]. rewrite He in Hrun.
    injection Hrun as <- <-. split; [done|]. intros cs f' d' b b' req' Er.
    eapply spent_refused; [by rewrite Er|done|]. by apply history_tickets. }
  destruct (spend_run jti (d_now d) db Hne Hj) as (db0 & Hs & Hj0 & Ht0).
  unfold TOTPVerifyHandler in Hrun. rewrite Htk, Hv in Hrun. cbn [negb] in Hrun.
  rewrite Hf in Hrun. unfold mbind, stM_bind in Hrun. rewrite Hs in Hrun. split.
  - intros Hok. split; [done|]. destruct out as [a|e|]; [|done..].
    apply attempt_factor_ok in Hrun as (s & Hfind & Hchecks). by exists s, db0.
  - intros cs f' d' b b' req' Er. eapply spent_refused; [by rewrite Er|done|]. apply history_tickets.
    pose proof (tickets_attempt (fun i => f (1 + i)%nat) d userAllowed userID req db0 _ _ Hj0) as Hk.
    by rewrite Hrun in Hk.
Qed.
End ticket_handlers.

(** ** The theorems at work *)

#[local] Existing Instance demo_primitives.
#[local] Existing Instance demo_totp.
#[local] Existing Instance demo_hasher.

Lemma LoginHandler_second_factor_witness :
  exists ticket db', LoginHandler demo_cfg (fun _ => None) (demo_draws "s2" "r") true
      (Some (mkLoginRequest "ada" "password" "")) (demo_tables {["u1" := demo_totp_row]})
      = (Ok (MFARequired ticket), db') /\
    exists u access refresh db2, LoginHandler demo_cfg (fun i => if Nat.eqb i 3 then Some (PgError "57014") else None)
      (demo_draws "s2" "r") true (Some (mkLoginRequest "ada" "password" ""))
      (demo_tables {["u1" := demo_totp_row]}) = (Ok (SignedIn u access refresh), db2).
Proof.
  assert (mfa_required (LoginHandler demo_cfg (fun _ => None) (demo_draws "s2" "r") true
    (Some (mkLoginRequest "ada" "password" "")) (demo_tables {["u1" := demo_totp_row]})).1 = true) as Hok
    by (vm_compute; reflexivity).
  destruct (LoginHandler demo_cfg (fun _ => None) (demo_draws "s2" "r") true
    (Some (mkLoginRequest "ada" "password" "")) (demo_tables {["u1" := demo_totp_row]}))
    as [[[u a r|t]|e|] db'] eqn:E; [discriminate Hok| |discriminate Hok..].
  exists t, db'. split; [reflexivity|].
  destruct (LoginHandler_second_factor demo_cfg (fun _ => None) (demo_draws "s2" "r") _ _ _ _ _ E)
    as (user & creds & _ & _ & _ & Hopen).
  apply (Hopen eq_refl (eq_refl _) (PgError "57014")).
Defined.

Lemma PasswordResetConfirm_effects_witness :
  exists db', PasswordResetConfirmHandler (fun _ => None) "salt" 0 true
      (Some (mkResetConfirmation "reset" "correct horse")) (demo_tables ∅) = (Ok tt, db') /\
    exists e, PasswordResetConfirmHandler (fun _ => None) "salt" 0 true
      (Some (mkResetConfirmation "reset" "battery staple")) db' = (Err e, db').
Proof.
  assert (is_ok (PasswordResetConfirmHandler (fun _ => None) "salt" 0 true
      (Some (mkResetConfirmation "reset" "correct horse")) (demo_tables ∅)).1 = true) as Hok
    by (vm_compute; reflexivity).
  destruct (PasswordResetConfirmHandler (fun _ => None) "salt" 0 true
      (Some (mkResetConfirmation "reset" "correct horse")) (demo_tables ∅)) as [out db'] eqn:E.
  assert (resets_wf (demo_tables ∅)) as Hwf.
  { split; simpl.
    - by intros id p [<- <-]%lookup_singleton_Some.
    - by intros id id' p p' [<- <-]%lookup_singleton_Some [<- <-]%lookup_singleton_Some. }
  pose proof (PasswordResetConfirm_effects _ _ _ _ _ _ _ _ Hwf E) as Heff.
  destruct out as [[]|e|]; [|discriminate Hok..].
  exists db'. split; [reflexivity|]. destruct Heff as (p & creds & _ & _ & _ & _ & Hused & _).
  apply Hused. reflexivity.
Defined.

Definition demo_ticket : string :=
  match SignMFATicket demo_signer (Ok "0123456789abcdef") 0 "u1" (5 * Minute) with Ok t => t | _ => "" end.

Lemma mfa_ticket_single_use_witness :
  exists a db1, TOTPVerifyHandler demo_cfg (fun _ => None) (demo_draws "s2" "r") true true
      (Some (mkMFARequest demo_ticket demo_code "" "")) (demo_tables {["u1" := demo_totp_row]}) = (Ok a, db1) /\
    exists e, TOTPVerifyHandler demo_cfg (fun _ => None) (demo_draws "s3" "r'") true true
      (Some (mkMFARequest demo_ticket demo_code "" "")) db1 = (Err e, db1).
Proof.
  assert (is_ok (TOTPVerifyHandler demo_cfg (fun _ => None) (demo_draws "s2" "r") true true
      (Some (mkMFARequest demo_ticket demo_code "" "")) (demo_tables {["u1" := demo_totp_row]})).1 = true) as Hok
    by (vm_compute; reflexivity).
  destruct (TOTPVerifyHandler demo_cfg (fun _ => None) (demo_draws "s2" "r") true true
      (Some (mkMFARequest demo_ticket demo_code "" "")) (demo_tables {["u1" := demo_totp_row]}))
    as [[a|e|] db1] eqn:E; [|discriminate Hok..].
  exists a, db1. split; [reflexivity|].
  assert (VerifyMFATicket (cfg_signer demo_cfg) demo_ticket 0
          = Ok ("u1", hex_EncodeToString "0123456789abcdef")) as Hv by (vm_compute; reflexivity).
  assert (hex_EncodeToString "0123456789abcdef" <> "") as Hne by discriminate.
  assert (demo_ticket <> "") as Htk by (vm_compute; discriminate).
  destruct (mfa_ticket_single_use demo_cfg (fun _ => None) (demo_draws "s2" "r") true
    (mkMFARequest demo_ticket demo_code "" "") _ _ _ _ _ Hv Hne Htk eq_refl E) as [_ Hused].
  apply (Hused [] (fun _ => None) (demo_draws "s3" "r'") true true _ eq_refl).
Defined.
