(* ===== verification/Access.v ===== *)
(** * Access to libraries (src/internal/transport/http: auth_middleware.go,
      library_handlers.go; src/internal/auth/ratelimit.go)

    The middleware between a token and a handler, the handlers of libraries,
    members and invitations, and the limiter per address.  A request is the
    part of it the code reads; the handlers run on the identity store. *)

From S2P Require Import Prelude GoStrings Errors Catalog Transactor Postgres Http Pairing PairingStore Identity Encoding Tokens Totp AuthStore AuthHandlers.

Local Open Scope string_scope.
Local Open Scope list_scope.
Local Open Scope Z_scope.

(** ** Requests and their context (auth_middleware.go) *)

(** [strings.CutPrefix] and [strings.Cut] at a byte. *)
Fixpoint CutPrefix (s p : string) : option string :=
  match p, s with
  | "", _ => Some s
  | String c p', String d s' => if Ascii.eqb c d then CutPrefix s' p' else None
  | String _ _, "" => None
  end.
Fixpoint Cut (c : ascii) (s : string) : option (string * string) :=
  match s with
  | "" => None
  | String d s' =>
      if Ascii.eqb d c then Some ("", s')
      else '(before, after) ← Cut c s'; Some (String d before, after)
  end.

Record AuthenticatedUser := mkAuthenticatedUser {
  au_UserID : UserID;
  au_Username : string;
  au_Role : Role;
  au_Libraries : list LibraryID;
}.

Record request := mkRequest {
  r_path : string;
  r_method : string;
  r_authorization : string;
  r_libraryHeader : string;
  r_readerCookie : option string;
}.

(** The values the middleware puts in the context. *)
Record context := mkContext {
  ctx_user : option AuthenticatedUser;
  ctx_library : option LibraryID;
}.

Definition ActiveLibraryFromContext (ctx : context) : LibraryID :=
  match ctx_library ctx with
  | None | Some "" => DefaultLibraryID
  | Some libID => libID
  end.

Fixpoint libraryInClaims (libID : LibraryID) (claimed : list LibraryID) : bool :=
  match claimed with
  | [] => false
  | c :: claimed' => if String.eqb c libID then true else libraryInClaims libID claimed'
  end.

Definition publicAuthPaths : list string :=
  ["/api/v1/auth/setup/status"; "/api/v1/auth/setup"; "/api/v1/auth/login"; "/api/v1/auth/refresh";
   "/api/v1/auth/logout"; "/api/v1/auth/password-reset/request"; "/api/v1/auth/password-reset/confirm";
   "/api/v1/auth/mfa/totp/verify"; "/api/v1/network/pair/verify"].

Definition IsPublicPath (path : string) : bool :=
  if String.eqb path "/healthz" || String.eqb path "/readyz" then true
  else if existsb (String.eqb path) publicAuthPaths then true
  else negb (HasPrefix path "/api/v1/").

Definition readerEditionsPrefix : string := "/api/v1/library/editions/".

Definition readerContentEditionFromPath (path : string) : option EditionID :=
  rest ← CutPrefix path readerEditionsPrefix;
  '(id, tail) ← Cut "/" rest;
  if String.eqb id "" || negb (HasPrefix tail "reader/content/") then None else Some id.

(** A middleware passes a request on in a context, or answers it. *)
Inductive verdict :=
| Next (ctx : context)
| Refuse (e : http_error).

Definition not_a_member : http_error := Forbidden "you are not a member of that library".

Section middleware.
Context `{TokenPrimitives}.

Definition readerContentGrantContext (r : request) (grants : GrantSigner) (now : Time) : option context :=
  if negb (String.eqb (r_method r) "GET") && negb (String.eqb (r_method r) "HEAD") then None
  else
    editionID ← readerContentEditionFromPath (r_path r);
    match r_readerCookie r with
    | None | Some "" => None
    | Some cookie =>
        match VerifyReaderContent grants cookie now with
        | Ok claims =>
            if negb (String.eqb (rc_EditionID claims) editionID) then None
            else Some (mkContext (Some (mkAuthenticatedUser (rc_Subject claims) "" "" [rc_LibraryID claims]))
                         (Some (rc_LibraryID claims)))
        | _ => None
        end
    end.

(** [AuthMiddleware] is this one without grants. *)
Definition AuthMiddlewareWithReaderGrants (signer : JWTSigner) (grants : option GrantSigner)
    (now : Time) (ctx : context) (r : request) : verdict :=
  if IsPublicPath (r_path r) then Next ctx
  else
    let authHeader := r_authorization r in
    match (match grants with
           | Some g => if String.eqb authHeader "" then readerContentGrantContext r g now else None
           | None => None
           end) with
    | Some ctx => Next ctx
    | None =>
        match CutPrefix authHeader "Bearer " with
        | None => Refuse (HTTPError Unauthorized "missing or invalid authorization token")
        | Some tokenString =>
            match VerifyAccessToken signer tokenString now with
            | Ok claims =>
                let user := mkAuthenticatedUser (c_Subject claims) (c_Username claims) (c_Role claims)
                              (c_Libraries claims) in
                let activeLibID := r_libraryHeader r in
                if String.eqb activeLibID "" then
                  match c_Libraries claims with
                  | l :: _ => Next (mkContext (Some user) (Some l))
                  | [] =>
                      if String.eqb (r_path r) "/api/v1/libraries" && String.eqb (r_method r) "GET"
                      then Next (mkContext (Some user) (Some ""))
                      else Refuse not_a_member
                  end
                else if negb (libraryInClaims activeLibID (c_Libraries claims)) then Refuse not_a_member
                else Next (mkContext (Some user) (Some activeLibID))
            | _ => Refuse (HTTPError Unauthorized "invalid or expired token")
            end
        end
    end.

Definition AuthMiddleware (signer : JWTSigner) := AuthMiddlewareWithReaderGrants signer None.
End middleware.

Definition RequireRole (roles : list Role) (ctx : context) : verdict :=
  match ctx_user ctx with
  | None => Refuse (HTTPError Unauthorized "unauthorized")
  | Some user =>
      if existsb (String.eqb (au_Role user)) roles then Next ctx
      else Refuse (Forbidden "insufficient permissions for this resource")
  end.

(** ** Libraries (library_handlers.go) *)

Definition category_of (msg : string) (e : error) : http_error := HTTPError (CategoryOf e) msg.

Definition is_admin (user : AuthenticatedUser) : bool := String.eqb (au_Role user) RoleAdmin.

(** [RequireIngestPermission], which reads the active library. *)
Definition RequireIngestPermission (fault : option pg_error) (ctx : context) : handlerM context :=
  match ctx_user ctx with
  | None => throw (HTTPError Unauthorized "unauthorized")
  | Some user =>
      if is_admin user then mret ctx
      else
        lib ← attempt (FindLibraryByID fault (ActiveLibraryFromContext ctx));
        match lib with
        | Ok lib =>
            if negb (l_allowReaderUploads lib)
            then throw (Forbidden "reader uploads are disabled for this library") else mret ctx
        | _ => throw (Forbidden "reader uploads are disabled for this library")
        end
  end.

Section libraries.
Context `{CaseTables}.

Definition ListLibrariesHandler (fault : option pg_error) (user : option AuthenticatedUser)
    : handlerM (list Library) :=
  match user with
  | None => throw (HTTPError Unauthorized "unauthorized")
  | Some user =>
      or_fail (if is_admin user then FindAllLibraries fault else FindLibrariesByUser fault (au_UserID user))
        (category_of "failed to list libraries")
  end.

Record LibraryRequest := mkLibraryRequest {
  lq_Name : string;
  lq_Description : string;
  lq_AllowReaderUploads : bool;
}.

Definition CreateLibraryHandler (fault : Faults) (newID : nat -> string) (now : Time)
    (user : option AuthenticatedUser) (req : option LibraryRequest) : handlerM Library :=
  match user with
  | None => throw (Forbidden "only admins can create libraries")
  | Some user =>
      if negb (is_admin user) then throw (Forbidden "only admins can create libraries")
      else match req with
      | None => throw (HTTPError InvalidInput "malformed request")
      | Some req =>
          let libID := newID 0%nat in
          match NewLibrary libID (lq_Name req) (lq_Description req) (lq_AllowReaderUploads req) now now with
          | Err e => throw (domain_http e)
          | OutOfFuel => throw Panicked
          | Ok lib =>
              _ ← or_fail (SaveLibrary (fault 0%nat) lib) (category_of "failed to save library");
              mem ← surely (NewLibraryMembership (newID 1%nat) libID (au_UserID user) RoleAdmin now);
              _ ← dropping (SaveMembership (fault 1%nat) mem);
              mret lib
          end
      end
  end.

Definition callerIsLibraryMember (fault : option pg_error) (user : option AuthenticatedUser)
    (libID : LibraryID) : handlerM bool :=
  match user with
  | None => mret false
  | Some user =>
      if is_admin user || libraryInClaims libID (au_Libraries user) then mret true
      else
        m ← attempt (FindMembership fault libID (au_UserID user));
        mret (is_ok m)
  end.

Definition callerIsLibraryAdmin (fault : option pg_error) (user : option AuthenticatedUser)
    (libID : LibraryID) : handlerM bool :=
  match user with
  | None => mret false
  | Some user =>
      if is_admin user then mret true
      else
        m ← attempt (FindMembership fault libID (au_UserID user));
        mret (match m with Ok m => String.eqb (lm_role m) RoleAdmin | _ => false end)
  end.

Definition GetLibraryHandler (fault : Faults) (user : option AuthenticatedUser) (id : LibraryID)
    : handlerM Library :=
  member ← callerIsLibraryMember (fault 0%nat) user id;
  if negb member then throw (HTTPError NotFound "library not found")
  else or_fail (FindLibraryByID (fault 1%nat) id) (category_of "library not found").

Record LibraryPatch := mkLibraryPatch {
  lp_Name : option string;
  lp_Description : option string;
  lp_AllowReaderUploads : option bool;
}.

(** A method of the library called on the local one. *)
Definition on_library {S} (m : stM Library error unit) (lib : Library) : stM S http_error Library :=
  match m lib with
  | (Ok _, lib') => mret lib'
  | (Err e, _) => throw (domain_http e)
  | (OutOfFuel, _) => throw Panicked
  end.

Definition UpdateLibraryHandler (fault : Faults) (now : Time) (user : option AuthenticatedUser)
    (id : LibraryID) (req : option LibraryPatch) : handlerM Library :=
  match user with
  | None => throw (Forbidden "only admins can modify libraries")
  | Some user =>
      if negb (is_admin user) then throw (Forbidden "only admins can modify libraries")
      else
        lib ← or_fail (FindLibraryByID (fault 0%nat) id) (category_of "library not found");
        match req with
        | None => throw (HTTPError InvalidInput "malformed request")
        | Some req =>
            lib ← (match lp_Name req with
                   | Some name => on_library (Rename name now) lib
                   | None => mret lib
                   end);
            lib ← (match lp_Description req with
                   | Some desc => on_library (SetDescription desc now) lib
                   | None => mret lib
                   end);
            let lib := match lp_AllowReaderUploads req with
                       | Some allow => SetAllowReaderUploads allow now lib
                       | None => lib
                       end in
            _ ← or_fail (SaveLibrary (fault 1%nat) lib) (category_of "failed to update library");
            mret lib
        end
  end.

Definition DeleteLibraryHandler (fault : option pg_error) (user : option AuthenticatedUser)
    (id : LibraryID) : handlerM unit :=
  match user with
  | None => throw (Forbidden "only admins can delete libraries")
  | Some user =>
      if negb (is_admin user) then throw (Forbidden "only admins can delete libraries")
      else if String.eqb id DefaultLibraryID then
        throw (HTTPError InvalidInput "cannot delete default library")
      else or_fail (DeleteLibrary fault id) (category_of "failed to delete library")
  end.

(** ** Members and invitations *)

Record LibraryMemberWire := mkLibraryMemberWire {
  mw_ID : string;
  mw_UserID : UserID;
  mw_Username : string;
  mw_Email : string;
  mw_Role : Role;
  mw_CreatedAt : Time;
}.

(** A user that cannot be found is listed without name or address. *)
Fixpoint member_wires (fault : Faults) (mems : list LibraryMembership) : handlerM (list LibraryMemberWire) :=
  match mems with
  | [] => mret []
  | m :: mems' =>
      u ← attempt (FindUserByID (fault 0%nat) (lm_userID m));
      let '(username, email) := match u with Ok u => (u_username u, u_email u) | _ => ("", "") end in
      out ← member_wires (fun i => fault (1 + i)%nat) mems';
      mret (mkLibraryMemberWire (lm_id m) (lm_userID m) username email (lm_role m) (lm_createdAt m) :: out)
  end.

Definition ListMembersHandler (fault : Faults) (user : option AuthenticatedUser) (id : LibraryID)
    : handlerM (list LibraryMemberWire) :=
  admin ← callerIsLibraryAdmin (fault 0%nat) user id;
  if negb admin then throw (Forbidden "you must be an admin of that library")
  else
    mems ← or_fail (FindMembersByLibrary (fault 1%nat) id) (category_of "failed to list members");
    member_wires (fun i => fault (2 + i)%nat) mems.

Record InvitationRequest := mkInvitationRequest {
  iq_Email : string;
  iq_Role : string;
}.

Context `{TOTPPrimitives}.

(** The raw token and the day it expires. *)
Definition CreateInvitationHandler (fault : Faults) (newID rand : string) (now : Time)
    (user : option AuthenticatedUser) (libID : LibraryID) (req : option InvitationRequest)
    : handlerM (string * Time) :=
  match user with
  | None => throw (HTTPError Unauthorized "unauthorized")
  | Some u =>
      admin ← callerIsLibraryAdmin (fault 0%nat) user libID;
      if negb admin then throw (Forbidden "you must be an admin of that library to invite members")
      else match req with
      | None => throw (HTTPError InvalidInput "malformed request")
      | Some req =>
          let role := match ParseRole (iq_Role req) with Ok role => role | _ => RoleReader end in
          let '(rawToken, tokenHash) := generateRandomToken rand in
          match NewLibraryInvitation newID libID (iq_Email req) role tokenHash (au_UserID u)
                  (Add now (7 * 24 * Hour)) now with
          | Err e => throw (domain_http e)
          | OutOfFuel => throw Panicked
          | Ok inv =>
              _ ← or_fail (SaveInvitation (fault 1%nat) inv) (category_of "failed to save invitation");
              mret (rawToken, li_expiresAt inv)
          end
      end
  end.

Definition AcceptInvitationHandler (fault : Faults) (newID : string) (now : Time)
    (user : option AuthenticatedUser) (token : string) : handlerM (LibraryID * Role) :=
  match user with
  | None => throw (HTTPError Unauthorized "unauthorized")
  | Some user =>
      if String.eqb token "" then throw (HTTPError InvalidInput "missing invitation token")
      else
        inv ← attempt (FindInvitationByHash (fault 0%nat) (sha256_hex token));
        match inv with
        | Ok inv =>
            if negb (invitation_valid now inv) then
              throw (HTTPError NotFound "invalid or expired invitation token")
            else match NewLibraryMembership newID (li_libraryID inv) (au_UserID user) (li_role inv) now with
            | Err e => throw (domain_http e)
            | OutOfFuel => throw Panicked
            | Ok mem =>
                _ ← or_fail (SaveMembership (fault 1%nat) mem)
                      (category_of "failed to add library membership");
                _ ← dropping (SaveInvitation (fault 2%nat) (mark_invitation_used now inv));
                mret (li_libraryID inv, li_role inv)
            end
        | _ => throw (HTTPError NotFound "invalid or expired invitation token")
        end
  end.
End libraries.

(** ** The limiter per address (ratelimit.go)

    The token bucket of one address is the library's: its state, a new one,
    and its answer at an instant are parameters. *)
Class Limiter := {
  bucket : Type;
  NewLimiter : bucket;
  bucket_Allow : Time -> bucket -> bool * bucket;
}.

Section ratelimit.
Context `{Limiter}.

Record ipEntry := mkIpEntry { limiter : bucket; lastSeen : Time }.

Record IPRateLimiter := mkIPRateLimiter { ips : gmap string ipEntry; ttl : Duration }.
Definition NewIPRateLimiter (ttl : Duration) : IPRateLimiter := mkIPRateLimiter ∅ ttl.

(** The entry of an address seen for the first time is stored before its
    bucket is asked: the map holds a pointer to the same bucket. *)
Definition Allow (ip : string) (now : Time) (i : IPRateLimiter) : bool * IPRateLimiter :=
  let b := match ips i !! ip with Some entry => limiter entry | None => NewLimiter end in
  let '(ok, b') := bucket_Allow now b in
  (ok, mkIPRateLimiter (<[ip := mkIpEntry b' now]> (ips i)) (ttl i)).

Definition Cleanup (now : Time) (i : IPRateLimiter) : IPRateLimiter :=
  mkIPRateLimiter (filter (fun kv => Sub now (lastSeen kv.2) <= ttl i) (ips i)) (ttl i).

(** [StartEviction]'s interval. *)
Definition eviction_interval (i : IPRateLimiter) : Duration :=
  let interval := Z.quot (ttl i) 2 in
  if interval <? Minute then Minute else interval.

(** [PublicRateLimit]. *)
Definition PublicRateLimit (applies : string -> bool) (r_path ip : string) (now : Time)
    (i : IPRateLimiter) : bool * IPRateLimiter :=
  if applies r_path then Allow ip now i else (true, i).
Definition HealthProbePath (path : string) : bool := String.eqb path "/healthz" || String.eqb path "/readyz".
End ratelimit.
