(* ===== verification/AccessSafety.v ===== *)
(** * What access control guarantees

    Whom the middleware lets through and to which library, what a sign-in
    gives access to, where memberships come from, what an invitation does, and
    that the limiter keeps addresses apart. *)

From S2P Require Import Prelude GoStrings Errors Catalog Transactor Postgres Http Pairing PairingStore Identity Encoding Tokens Totp AuthStore AuthHandlers AuthSafety SignInSafety Access.

Local Open Scope string_scope.
Local Open Scope list_scope.
Local Open Scope Z_scope.

(** ** Paths and prefixes *)

Lemma CutPrefix_Some s p t : CutPrefix s p = Some t <-> s = p +:+ t.
Proof.
  revert s. induction p as [|c p IH]; intros s.
  - rewrite str_app_nil_l. destruct s; simpl; naive_solver.
  - rewrite str_app_cons. destruct s as [|d s]; simpl; [done|].
    destruct (Ascii.eqb_spec c d) as [->|Hne].
    + rewrite IH. split; [by intros ->|by intros [= ->]].
    + split; [done|]. by intros [= ->].
Qed.

Lemma HasPrefix_Some s p : HasPrefix s p = true -> exists t, s = p +:+ t.
Proof.
  unfold HasPrefix. revert s. induction p as [|c p IH]; intros s; [by exists s|].
  destruct s as [|d s]; simpl; [done|]. destruct (Ascii.ascii_dec c d) as [->|]; [|done].
  intros [t ->]%IH. by exists t.
Qed.

Lemma Cut_Some c s a b : Cut c s = Some (a, b) -> s = a +:+ String c b.
Proof.
  revert a. induction s as [|d s IH]; intros a; simpl; [done|].
  destruct (Ascii.eqb_spec d c) as [->|Hne]; [by intros [= <- <-]|].
  destruct (Cut c s) as [[x y]|]; [|done]. simpl. intros [= <- <-]. by rewrite (IH x).
Qed.

Lemma libraryInClaims_spec l claimed : libraryInClaims l claimed = true <-> l ∈ claimed.
Proof.
  induction claimed as [|c claimed IH]; simpl; [by rewrite elem_of_nil|].
  rewrite elem_of_cons. destruct (String.eqb_spec c l) as [->|Hne]; [naive_solver|].
  rewrite IH. naive_solver.
Qed.

Lemma edition_path path ed :
  readerContentEditionFromPath path = Some ed ->
  exists tail, path = readerEditionsPrefix +:+ ed +:+ "/reader/content/" +:+ tail.
Proof.
  unfold readerContentEditionFromPath. destruct (CutPrefix _ _) as [rest|] eqn:E; [|done].
  apply CutPrefix_Some in E as ->. cbn [mbind option_bind].
  destruct (Cut "/" rest) as [[id tail]|] eqn:E; [|done]. apply Cut_Some in E as ->. cbn [mbind option_bind].
  destruct (_ || negb _) eqn:Eb; [done|]. intros [= <-]. bool_to_prop.
  match goal with K : HasPrefix _ _ = true |- _ => apply HasPrefix_Some in K as [t ->] end.
  by exists t.
Qed.

(** ** Whom the middleware lets through *)

Section middleware.
Context `{TokenPrimitives}.

Lemma grant_context r g now ctx :
  readerContentGrantContext r g now = Some ctx ->
  (r_method r = "GET" \/ r_method r = "HEAD") /\
  exists cookie claims tail,
    r_readerCookie r = Some cookie /\ VerifyReaderContent g cookie now = Ok claims /\
    r_path r = readerEditionsPrefix +:+ rc_EditionID claims +:+ "/reader/content/" +:+ tail /\
    ctx = mkContext (Some (mkAuthenticatedUser (rc_Subject claims) "" "" [rc_LibraryID claims]))
            (Some (rc_LibraryID claims)).
Proof.
  unfold readerContentGrantContext. destruct (_ && _) eqn:Em; [done|].
  destruct (readerContentEditionFromPath _) as [ed|] eqn:Ep; [|done]. cbn [mbind option_bind].
  apply edition_path in Ep as [tail Ep].
  destruct (r_readerCookie r) as [[|c cookie]|]; [done| |done].
  destruct (VerifyReaderContent _ _ _) as [claims|e|] eqn:Ev; [|done..].
  destruct (String.eqb_spec (rc_EditionID claims) ed) as [He|]; [|done]. cbn [negb]. intros [= <-]. split.
  - apply andb_false_iff in Em as [Em|Em]; apply negb_false_iff, String.eqb_eq in Em; auto.
  - exists (String c cookie), claims, tail. rewrite He. by conjuncts.
Qed.

(** C35: whom the middleware lets through.  Outside the public paths, a request
    passed on carries a user and a library, by one of two ways.  Either its
    Authorization header is a bearer access token that verifies now, the user
    is the token's, and the library is one the token grants (but for listing
    the libraries with a token that grants none); and a token issued for
    another purpose never gets here.  Or it has no such header, is a GET or
    HEAD of an edition's reader content, and its cookie is a valid grant for
    that edition: then the user has no role and the one library of the
    grant. *)
Theorem middleware_admits signer grants now ctx0 r ctx :
  AuthMiddlewareWithReaderGrants signer grants now ctx0 r = Next ctx -> IsPublicPath (r_path r) = false ->
  exists user lib, ctx = mkContext (Some user) (Some lib) /\
    ((exists token claims,
        r_authorization r = "Bearer " +:+ token /\ VerifyAccessToken signer token now = Ok claims /\
        (forall p, issued p token -> p = ForAccess) /\
        user = mkAuthenticatedUser (c_Subject claims) (c_Username claims) (c_Role claims) (c_Libraries claims) /\
        (lib ∈ c_Libraries claims \/
         lib = "" /\ c_Libraries claims = [] /\ r_path r = "/api/v1/libraries" /\ r_method r = "GET")) \/
     (r_authorization r = "" /\ (r_method r = "GET" \/ r_method r = "HEAD") /\
      exists g cookie claims tail,
        grants = Some g /\ r_readerCookie r = Some cookie /\ VerifyReaderContent g cookie now = Ok claims /\
        r_path r = readerEditionsPrefix +:+ rc_EditionID claims +:+ "/reader/content/" +:+ tail /\
        lib = rc_LibraryID claims /\ user = mkAuthenticatedUser (rc_Subject claims) "" "" [lib])).
Proof.
  unfold AuthMiddlewareWithReaderGrants. intros Hrun Hp. rewrite Hp in Hrun. cbv zeta in Hrun.
  destruct (match grants with Some _ => _ | None => None end) as [c|] eqn:Eg.
  - injection Hrun as <-. destruct grants as [g|]; [|done].
    destruct (String.eqb_spec (r_authorization r) "") as [Ha|]; [|done].
    apply grant_context in Eg as (Hm & cookie & claims & tail & Hc & Hv & Hpath & ->).
    do 2 eexists. split; [reflexivity|]. right. conjuncts. exists g, cookie, claims, tail. by conjuncts.
  - destruct (CutPrefix _ _) as [token|] eqn:Et; [|done]. apply CutPrefix_Some in Et.
    destruct (VerifyAccessToken _ _ _) as [claims|e|] eqn:Ev; [|done..].
    assert (forall p, issued p token -> p = ForAccess) as Hpurpose.
    { intros p (o & Hc & Ho)%issued_carries.
      assert (accepted ForAccess token now) as Ha by by exists signer, claims.
      apply (accepted_type _ _ _ _ Hc) in Ha. rewrite Ho in Ha. injection Ha. by destruct p. }
    destruct (String.eqb_spec (r_libraryHeader r) "") as [Hh|Hh].
    + destruct (c_Libraries claims) as [|l ls] eqn:El.
      * destruct (_ && _) eqn:Eb; [|done]. injection Hrun as <-. do 2 eexists. split; [reflexivity|]. left.
        exists token, claims. bool_to_prop. rewrite El. conjuncts. right. conjuncts; by apply String.eqb_eq.
      * injection Hrun as <-. do 2 eexists. split; [reflexivity|]. left. exists token, claims. rewrite El.
        conjuncts. left. set_solver.
    + destruct (libraryInClaims _ _) eqn:El; [|done]. injection Hrun as <-.
      do 2 eexists. split; [reflexivity|]. left. exists token, claims. conjuncts. left.
      by apply libraryInClaims_spec.
Qed.
End middleware.

(** ** What a sign-in gives access to *)

Section signed_in.
Context `{CaseTables} `{TokenPrimitives} `{TOTPPrimitives} `{PasswordHasher} (cfg : AuthConfig).

(** The claims a signer without an issuer of its own puts under its name. *)
Definition with_issuer (i : string) (c : Claims) : Claims :=
  mkClaims (c_Subject c) (c_Username c) (c_Role c) (c_Libraries c) (c_JTI c) (c_IssuedAt c) (c_ExpiresAt c)
    i (c_Type c).

Lemma verify_signed s c now :
  c_Type c = TokenTypeAccess -> c_Issuer c = "" ->
  object_utf8 (claims_object (with_issuer (issuer s) c)) = true ->
  VerifyAccessToken s (Sign s c) now =
    if c_ExpiresAt c <=? Unix now then Err (New "auth/jwt: token expired")
    else Ok (with_issuer (issuer s) c).
Proof.
  intros Ht Hi Hu. unfold VerifyAccessToken, VerifyToken, Sign. rewrite Hi, String.eqb_refl, verified_own.
  fold (with_issuer (issuer s) c). cbn [mbind res_bind].
  rewrite (checked_own s _ (with_issuer (issuer s) c)) by (done || apply claims_roundtrip).
  cbn [with_issuer c_ExpiresAt]. destruct (_ <=? _); [done|]. cbn [mbind res_bind with_issuer c_Type].
  by rewrite Ht.
Qed.

(** The libraries the handlers put in a token. *)
Definition token_libraries (fault : option pg_error) (userID : UserID) (db : auth_db) : list LibraryID :=
  match (FindMembershipsByUser fault userID db).1 with
  | Ok (m :: ms) => lm_libraryID <$> (m :: ms)
  | _ => [DefaultLibraryID]
  end.

Lemma grant_memberships f f' g u now db db' :
  applyEnrolmentGrant cfg f f' g u now db = (Ok tt, db') -> memberships db' = memberships db.
Proof.
  unfold applyEnrolmentGrant. destruct (cfg_grantSigner cfg); [|by intros [= <-]].
  destruct (String.eqb g ""); [by intros [= <-]|]. destruct (VerifyGrant _ _ _) as [c|e|]; [|by intros [= <-]..].
  unfold mbind, stM_bind, attempt, dropping, on_network.
  destruct (ClaimGrant _ _ _ _) as [[[]|e|] n]; [|by intros [= <-]..].
  destruct (AssignOwnerByPairingSession _ _ _ _ _) as [x y]. by intros [= <-].
Qed.

Lemma token_libraries_some f u db : exists l ls, token_libraries f u db = l :: ls.
Proof. unfold token_libraries. destruct (FindMembershipsByUser _ _ db).1 as [[|m ms]|e|]; by do 2 eexists. Qed.

Lemma token_libraries_same f u db db' :
  memberships db' = memberships db -> token_libraries f u db' = token_libraries f u db.
Proof.
  intros E. unfold token_libraries, FindMembershipsByUser, mbind, stM_bind, exec. destruct f; [done|]. by rewrite E.
Qed.

Lemma pure_FindMembershipsByUser f u : pure (FindMembershipsByUser f u).
Proof.
  apply always_bind; [typeclasses eauto| |intros; apply always_reading; typeclasses eauto].
  apply always_exec; [typeclasses eauto|]. by intros s a s' [= _ <-].
Qed.

Lemma claimed_libraries_eq f u db : claimed_libraries f u db = (Ok (token_libraries f u db), db).
Proof.
  unfold claimed_libraries, token_libraries. rewrite bind_attempt by apply pure_FindMembershipsByUser.
  by destruct (FindMembershipsByUser f u db).1 as [[|m ms]|e|].
Qed.

Lemma complete_login_access f d user grant db u access refresh db' :
  complete_login cfg f d user grant db = (Ok (SignedIn u access refresh), db') ->
  access = Sign (cfg_signer cfg)
    (access_claims user (u_role user) (token_libraries (f 2%nat) (u_id user) db) (d_newID d 1%nat) (d_now d)).
Proof.
  unfold complete_login. cbv zeta.
  destruct (grant_run cfg (f 0%nat) (f 1%nat) grant (u_id user) (d_now d) db) as [s1 E1].
  destruct (refresh_ttl_run cfg (f 3%nat) s1) as (ttl & E3 & _).
  pose proof (grant_memberships _ _ _ _ _ _ _ E1) as Em.
  cbv delta [mbind stM_bind] beta. rewrite E1. cbv beta iota. rewrite claimed_libraries_eq. cbv beta iota.
  rewrite E3. cbv beta iota. destruct (issue_refresh _ _ _ _ _ _ s1) as [[raw|e|] s2]; [|done..].
  intros [= _ <- _ _]. by rewrite (token_libraries_same _ _ _ _ Em).
Qed.

(** What a sign-in gives access to.  The access token a sign-in answers
    with lets its bearer through for fifteen minutes, and not a second
    longer, as the account it was asked for; the active library is the one
    the request names if the account is a member of it (403 otherwise), and
    else the first the account is a member of.  An account with no
    membership, or whose memberships could not be read, is let into the
    default library all the same. *)
Theorem signed_in_access f d allowed req db u access refresh db' :
  LoginHandler cfg f d allowed (Some req) db = (Ok (SignedIn u access refresh), db') ->
  exists user,
    let libs := token_libraries (f 6%nat) (u_id user) db in
    find_account cfg (f 0%nat) (f 1%nat) (lr_EmailOrUsername req) db = (Ok (Ok user), db) /\
    forall now ctx r,
      object_utf8 (claims_object (with_issuer (issuer (cfg_signer cfg))
        (access_claims user (u_role user) libs (d_newID d 1%nat) (d_now d)))) = true ->
      r_authorization r = "Bearer " +:+ access -> IsPublicPath (r_path r) = false ->
      let through lib := Next (mkContext
        (Some (mkAuthenticatedUser (u_id user) (u_username user) (u_role user) libs)) (Some lib)) in
      AuthMiddleware (cfg_signer cfg) now ctx r =
        if Unix (d_now d + 15 * Minute) <=? Unix now
        then Refuse (HTTPError Unauthorized "invalid or expired token")
        else if String.eqb (r_libraryHeader r) "" then through (hd DefaultLibraryID libs)
        else if libraryInClaims (r_libraryHeader r) libs then through (r_libraryHeader r)
        else Refuse not_a_member.
Proof.
  intros (_ & user & creds & Ha & _ & _ & Hcase)%LoginHandler_ok. exists user. cbv zeta. split; [done|].
  destruct Hcase as [(_ & _ & t & _ & ?)|[_ Hrun]]; [done|].
  apply complete_login_access in Hrun as ->. change (f (4 + 2)%nat) with (f 6%nat).
  intros now ctx r Hu Hr Hp.
  unfold AuthMiddleware, AuthMiddlewareWithReaderGrants. rewrite Hp. cbv zeta.
  rewrite (proj2 (CutPrefix_Some _ _ _) Hr), verify_signed by done. cbn [c_ExpiresAt access_claims].
  unfold Add. destruct (_ <=? _); [done|]. cbn [with_issuer access_claims c_Subject c_Username c_Role c_Libraries].
  destruct (String.eqb (r_libraryHeader r) "").
  - by destruct (token_libraries_some (f 6%nat) (u_id user) db) as (l & ls & ->).
  - by destruct (libraryInClaims _ _).
Qed.
End signed_in.

(** ** Where memberships come from *)

Section provenance.
Context `{CaseTables} `{TOTPPrimitives}.

(** The calls that change libraries, with their callers. *)
Inductive lib_call :=
| CallCreate (f : Faults) (newID : nat -> string) (now : Time) (user : option AuthenticatedUser)
    (req : option LibraryRequest)
| CallUpdate (f : Faults) (now : Time) (user : option AuthenticatedUser) (id : LibraryID)
    (req : option LibraryPatch)
| CallDelete (f : option pg_error) (user : option AuthenticatedUser) (id : LibraryID)
| CallInvite (f : Faults) (newID rand : string) (now : Time) (user : option AuthenticatedUser)
    (libID : LibraryID) (req : option InvitationRequest)
| CallAccept (f : Faults) (newID : string) (now : Time) (user : option AuthenticatedUser) (token : string).

Definition run_lib (c : lib_call) (db : auth_db) : auth_db :=
  match c with
  | CallCreate f newID now user req => (CreateLibraryHandler f newID now user req db).2
  | CallUpdate f now user id req => (UpdateLibraryHandler f now user id req db).2
  | CallDelete f user id => (DeleteLibraryHandler f user id db).2
  | CallInvite f newID rand now user libID req => (CreateInvitationHandler f newID rand now user libID req db).2
  | CallAccept f newID now user token => (AcceptInvitationHandler f newID now user token db).2
  end.

Context (db0 : auth_db) (calls : list lib_call).

(** What a history of calls [calls] from [db0] entitles to: the memberships
    and invitations there were; a global administrator to administer the
    library they create; and whoever an administrator of the library invited
    to the role invited to. *)
Inductive entitled : LibraryID -> UserID -> Role -> Prop :=
| ent_before k m :
    memberships db0 !! k = Some m -> entitled (lm_libraryID m) (lm_userID m) (lm_role m)
| ent_created f newID now user req :
    In (CallCreate f newID now (Some user) req) calls -> is_admin user = true ->
    entitled (newID 0%nat) (au_UserID user) RoleAdmin
| ent_invited lib user role : invited lib role -> entitled lib user role
with invited : LibraryID -> Role -> Prop :=
| inv_before k i : invitations db0 !! k = Some i -> invited (li_libraryID i) (li_role i)
| inv_by f newID rand now user libID req role :
    In (CallInvite f newID rand now (Some user) libID (Some req)) calls ->
    is_admin user = true \/ entitled libID (au_UserID user) RoleAdmin ->
    role = iq_Role req \/ role = RoleReader ->
    invited libID role.

Definition provenance (db : auth_db) : Prop :=
  (forall k m, memberships db !! k = Some m -> entitled (lm_libraryID m) (lm_userID m) (lm_role m)) /\
  forall k i, invitations db !! k = Some i -> invited (li_libraryID i) (li_role i).

Definition keeps_provenance (db db' : auth_db) : Prop := provenance db -> provenance db'.

#[local] Instance keeps_provenance_preorder : PreOrder keeps_provenance.
Proof. split; [by intros db Hp|]. intros a b c H1 H2 Hp. auto. Qed.

Abbreviation keeps := (always keeps_provenance).

Lemma provenance_same db db' :
  memberships db' = memberships db -> invitations db' = invitations db -> keeps_provenance db db'.
Proof. unfold keeps_provenance, provenance. by intros -> ->. Qed.

Lemma provenance_pure {E A} (m : stM auth_db E A) : pure m -> keeps m.
Proof. intros Hm s. rewrite <- (Hm s). reflexivity. Qed.

Lemma keeps_or_fail {A} (m : stM auth_db error A) f : keeps m -> keeps (or_fail m f).
Proof.
  intros Hm. unfold or_fail. apply always_bind; [typeclasses eauto|by apply always_attempt|].
  intros []; [apply always_ret|apply always_throw|apply always_throw]; typeclasses eauto.
Qed.

Lemma keeps_SaveLibrary f l : keeps (SaveLibrary f l).
Proof.
  apply always_exec; [typeclasses eauto|]. intros s a s' [= _ <-]. by apply provenance_same.
Qed.

Lemma keeps_DeleteLibrary f id : keeps (DeleteLibrary f id).
Proof.
  apply always_exec; [typeclasses eauto|]. intros s a s' [= _ <-] [Hm Hi]. split; cbn -[delete_where].
  - intros k m [Hk _]%map_lookup_filter_Some. eauto.
  - intros k i [Hk _]%map_lookup_filter_Some. eauto.
Qed.

Lemma prov_SaveMembership f m :
  entitled (lm_libraryID m) (lm_userID m) (lm_role m) -> keeps (SaveMembership f m).
Proof.
  intros He. apply always_exec; [typeclasses eauto|]. intros s a s' E [Hm Hi].
  destruct (negb (role_valid _)); [done|].
  destruct (first_row _ _) as [[k r]|] eqn:Ef.
  - injection E as _ <-. apply first_row_Some in Ef as [Hr Hof]. unfold membership_of in Hof. bool_to_prop.
    repeat match goal with K : String.eqb _ _ = true |- _ => apply String.eqb_eq in K end.
    split; [|done]. simpl. intros k' x [[<- <-]|[_ Hx]]%lookup_insert_Some; [simpl|by eauto]. congruence.
  - do 2 (case_match; [done|]). injection E as _ <-. split; [|done]. simpl.
    intros k x [[<- <-]|[_ Hx]]%lookup_insert_Some; eauto.
Qed.

Lemma keeps_SaveInvitation f i :
  invited (li_libraryID i) (li_role i) -> keeps (SaveInvitation f i).
Proof.
  intros Hinv. apply always_exec; [typeclasses eauto|]. intros s a s' E [Hm Hi].
  destruct (negb (role_valid _)); [done|]. destruct (invitations s !! li_id i) as [r|] eqn:Er.
  - injection E as _ <-. split; [done|]. simpl.
    intros k x [[<- <-]|[_ Hx]]%lookup_insert_Some; [simpl|by eauto]. by eapply Hi.
  - do 2 (case_match; [|done]). injection E as _ <-. split; [done|]. simpl.
    intros k x [[<- <-]|[_ Hx]]%lookup_insert_Some; eauto.
Qed.

#[local] Hint Resolve keeps_or_fail keeps_SaveLibrary keeps_DeleteLibrary prov_SaveMembership : always.

Lemma keeps_on_library {S} (R : relation S) `{!PreOrder R} m lib : always R (on_library m lib).
Proof. intros s. unfold on_library. destruct (m lib) as [[]]; simpl; reflexivity. Qed.

Lemma keeps_Create f newID now user req :
  In (CallCreate f newID now user req) calls -> keeps (CreateLibraryHandler f newID now user req).
Proof.
  intros Hin. unfold CreateLibraryHandler. destruct user as [user|]; [|follow].
  destruct (is_admin user) eqn:Ea; cbn [negb]; [|follow]. destruct req as [req|]; [cbv zeta|follow].
  destruct (NewLibrary _ _ _ _ _ _) as [lib|e|]; [|follow..].
  apply always_bind; [typeclasses eauto|eauto with always|intros _].
  unfold surely, mbind at 1, stM_bind at 1. intros s.
  destruct (NewLibraryMembership _ _ _ _ _) as [mem|e|] eqn:Em; [|reflexivity..].
  apply (always_bind _ (dropping (SaveMembership (f 1%nat) mem)) (fun _ => mret lib)); [|intros _; apply always_ret; typeclasses eauto].
  apply always_dropping, prov_SaveMembership. unfold NewLibraryMembership in Em.
  repeat (case_match; [done|]). injection Em as <-. simpl. by eapply ent_created.
Qed.

Lemma keeps_Update f now user id req : keeps (UpdateLibraryHandler f now user id req).
Proof.
  unfold UpdateLibraryHandler. assert (forall f id, keeps (FindLibraryByID f id)) as Hf.
  { intros g i. apply provenance_pure, pure_query. }
  destruct user as [user|]; [|follow]. destruct (is_admin user); cbn [negb]; [|follow].
  apply always_bind; [typeclasses eauto|auto with always|intros lib]. destruct req as [req|]; [|follow].
  repeat (apply always_bind;
    [typeclasses eauto|case_match; [apply keeps_on_library; typeclasses eauto|follow]|intros ?]).
  follow.
Qed.

Lemma keeps_Delete f user id : keeps (DeleteLibraryHandler f user id).
Proof. unfold DeleteLibraryHandler. follow. Qed.

Lemma ParseRole_id r r' : ParseRole r = Ok r' -> r' = r.
Proof.
  unfold ParseRole. destruct (String.eqb_spec r RoleAdmin) as [->|]; [by intros [= <-]|].
  destruct (String.eqb_spec r RoleReader) as [->|]; [by intros [= <-]|done].
Qed.

(** A membership the store returns is a row's. *)
Lemma found_membership f lib u db m :
  (FindMembership f lib u db).1 = Ok m ->
  exists k r, memberships db !! k = Some r /\ lm_libraryID r = lib /\ lm_userID r = u /\ lm_role r = lm_role m.
Proof.
  unfold FindMembership, mbind at 1, stM_bind.
  destruct (query_one _ _ _ db) as [[r|e|] s] eqn:E; [|done..]. apply query_one_ok in E as (_ & Hf & ->).
  destruct (first_row _ _) as [[k x]|] eqn:Er; [|done]. injection Hf as ->.
  apply first_row_Some in Er as [Hk Hof]. unfold membership_of in Hof. bool_to_prop.
  repeat match goal with K : String.eqb _ _ = true |- _ => apply String.eqb_eq in K end.
  unfold reading, scan_membership. simpl. destruct (ParseRole _) as [role|e|] eqn:Ep; [|done..].
  apply ParseRole_id in Ep as ->. unfold NewLibraryMembership. simpl. repeat (case_match; [done|]).
  intros [= <-]. exists k, r. by conjuncts.
Qed.

(** An invitation the store returns is a row's. *)
Lemma found_invitation f hash db i :
  (FindInvitationByHash f hash db).1 = Ok i ->
  f = None /\ exists k, first_row (fun i => String.eqb (li_tokenHash i) hash) (invitations db) = Some (k, i).
Proof.
  unfold FindInvitationByHash, mbind at 1, stM_bind.
  destruct (query_one _ _ _ db) as [[r|e|] s] eqn:E; [|done..]. apply query_one_ok in E as (-> & Hf & ->).
  destruct (first_row _ _) as [[k x]|] eqn:Er; [|done]. injection Hf as ->.
  unfold reading, scan_invitation. simpl. destruct (ParseRole _) as [role|e|] eqn:Ep; [|done..].
  apply ParseRole_id in Ep as ->. intros [= <-]. split; [done|]. exists k. by destruct r.
Qed.

Lemma pure_FindMembership f lib u : pure (FindMembership f lib u).
Proof. apply pure_query. Qed.
Lemma pure_FindInvitationByHash f h : pure (FindInvitationByHash f h).
Proof. apply pure_query. Qed.

(** Who administers a library, of the callers of a history. *)
Lemma caller_admin f user lib db :
  provenance db -> callerIsLibraryAdmin f (Some user) lib db = (Ok true, db) ->
  is_admin user = true \/ entitled lib (au_UserID user) RoleAdmin.
Proof.
  intros [Hm _]. unfold callerIsLibraryAdmin. destruct (is_admin user); [by left|].
  rewrite bind_attempt by apply pure_FindMembership.
  destruct (FindMembership _ _ _ db).1 as [m|e|] eqn:Ef; [|done..]. intros [= Hr]. right.
  apply String.eqb_eq in Hr. apply found_membership in Ef as (k & r & Hk & <- & <- & Er).
  rewrite <- Hr, <- Er. by eapply Hm.
Qed.

Lemma pure_callerIsLibraryAdmin f user lib : pure (callerIsLibraryAdmin f user lib).
Proof.
  unfold callerIsLibraryAdmin. destruct user as [user|]; [|apply pure_ret].
  destruct (is_admin user); [apply pure_ret|].
  apply pure_bind; [apply pure_attempt, pure_FindMembership|intros; apply pure_ret].
Qed.

Lemma keeps_Invite f newID rand now user libID req :
  In (CallInvite f newID rand now user libID req) calls ->
  keeps (CreateInvitationHandler f newID rand now user libID req).
Proof.
  intros Hin s. unfold CreateInvitationHandler. destruct user as [user|]; [|reflexivity].
  rewrite bind_pure by apply pure_callerIsLibraryAdmin.
  pose proof (pure_run _ s (pure_callerIsLibraryAdmin (f 0%nat) (Some user) libID)) as Ec.
  destruct (callerIsLibraryAdmin _ _ _ s).1 as [[]|e|]; [|reflexivity..]. cbn [negb].
  destruct req as [req|]; [|reflexivity]. cbn [generateRandomToken].
  destruct (NewLibraryInvitation _ _ _ _ _ _ _ _) as [inv|e|] eqn:Ei; [|reflexivity..].
  intros Hp.
  assert (invited (li_libraryID inv) (li_role inv)) as Hinv.
  { unfold NewLibraryInvitation in Ei. repeat (case_match; [done|]). injection Ei as <-. simpl.
    eapply inv_by; [exact Hin|by eapply caller_admin|]. destruct (ParseRole (iq_Role req)) as [role|e|] eqn:Er; auto.
    left. by apply ParseRole_id. }
  match goal with |- provenance (?m s).2 => enough (keeps m) as Hk by exact (Hk s Hp) end.
  apply always_bind; [typeclasses eauto|by apply keeps_or_fail, keeps_SaveInvitation|].
  intros; apply always_ret; typeclasses eauto.
Qed.

Lemma keeps_Accept f newID now user token : keeps (AcceptInvitationHandler f newID now user token).
Proof.
  intros s Hp. unfold AcceptInvitationHandler. destruct user as [user|]; [|exact Hp].
  destruct (String.eqb token ""); [exact Hp|]. rewrite bind_attempt by apply pure_FindInvitationByHash.
  destruct (FindInvitationByHash _ _ s).1 as [inv|e|] eqn:Ef; [|exact Hp..].
  apply found_invitation in Ef as (_ & k & [Hk _]%first_row_Some).
  assert (invited (li_libraryID inv) (li_role inv)) as Hinv by by eapply Hp.
  destruct (invitation_valid now inv); [cbn [negb]|exact Hp].
  destruct (NewLibraryMembership _ _ _ _ _) as [mem|e|] eqn:Em; [|exact Hp..].
  assert (entitled (lm_libraryID mem) (lm_userID mem) (lm_role mem)) as He.
  { unfold NewLibraryMembership in Em. repeat (case_match; [done|]). injection Em as <-. simpl.
    by apply ent_invited. }
  match goal with |- provenance (?m s).2 => enough (keeps m) as Hk' by exact (Hk' s Hp) end.
  apply always_bind; [typeclasses eauto| |].
  - by apply keeps_or_fail, prov_SaveMembership.
  - intros _. apply always_bind; [typeclasses eauto| |intros; apply always_ret; typeclasses eauto].
    by apply always_dropping, keeps_SaveInvitation.
Qed.

Lemma run_lib_keeps c db : In c calls -> keeps_provenance db (run_lib c db).
Proof.
  intros Hin. destruct c; cbn [run_lib].
  - by apply keeps_Create.
  - apply keeps_Update.
  - apply keeps_Delete.
  - by apply keeps_Invite.
  - apply keeps_Accept.
Qed.
End provenance.

(** C36: where memberships come from.  After any history of calls that create,
    change and delete libraries, invite and accept, with any failures, each
    membership is one there was at the start, or the administrator's who
    created the library, or came by an invitation to that library and that
    role; and each invitation was there at the start or was sent by someone
    who was a global administrator, or an administrator of that very library
    by the same rule.  No chain of invitations starts from a reader. *)
Theorem membership_provenance `{CaseTables} `{TOTPPrimitives} db0 calls :
  provenance db0 calls (fold_left (fun db c => run_lib c db) calls db0).
Proof.
  assert (forall cs db, Forall (fun c => In c calls) cs -> provenance db0 calls db ->
    provenance db0 calls (fold_left (fun db c => run_lib c db) cs db)) as Hall.
  { induction cs as [|c cs IH]; intros db Hin Hp; simpl; [done|].
    apply Forall_cons in Hin as [Hc Hcs]. apply IH; [done|]. by eapply run_lib_keeps. }
  apply Hall; [by apply List.Forall_forall|]. split.
  - intros k m Hk. by eapply ent_before.
  - intros k i Hk. by eapply inv_before.
Qed.

(** ** What accepting an invitation does *)

Section accepting.
Context `{CaseTables} `{TOTPPrimitives}.

(** Invitations are keyed by their identifiers, and their hashes are unique. *)
Definition invitations_wf (db : auth_db) : Prop :=
  (forall id i, invitations db !! id = Some i -> li_id i = id) /\
  forall id id' i i', invitations db !! id = Some i -> invitations db !! id' = Some i' ->
    li_tokenHash i = li_tokenHash i' -> id = id'.

Lemma or_fail_ok {S A} (m : stM S error A) f s a s' : or_fail m f s = (Ok a, s') <-> m s = (Ok a, s').
Proof.
  unfold or_fail, mbind, stM_bind, attempt. destruct (m s) as [[b|e|] s1]; split; try done; by intros [= -> ->].
Qed.

Lemma or_fail_err {S A} (m : stM S error A) f s :
  (forall r s', m s = (r, s') -> is_ok r = false -> s' = s) ->
  forall r s', or_fail m f s = (r, s') -> is_ok r = false -> s' = s.
Proof.
  intros Hm r s'. unfold or_fail, mbind, stM_bind, attempt. specialize (Hm (m s).1 (m s).2).
  destruct (m s) as [[b|e|] s1]; intros [= <- <-]; try done; intros _; by apply Hm.
Qed.

(** A membership saved: one row, of its library and user, has its role. *)
Lemma SaveMembership_run f mem s s' :
  SaveMembership f mem s = (Ok tt, s') ->
  invitations s' = invitations s /\
  exists k row, memberships s' = <[k := row]> (memberships s) /\
    membership_of (lm_libraryID mem) (lm_userID mem) row = true /\ lm_role row = lm_role mem /\
    forall x, memberships s !! k = Some x -> membership_of (lm_libraryID mem) (lm_userID mem) x = true.
Proof.
  intros [_ E]%exec_ok. destruct (negb (role_valid _)); [done|].
  destruct (first_row _ _) as [[k r]|] eqn:Ef.
  - injection E as <-. apply first_row_Some in Ef as [Hr Hof]. split; [done|]. do 2 eexists.
    split; [reflexivity|]. conjuncts. intros x Hx. congruence.
  - case_bool_decide as Hn; [done|]. destruct (_ || _); [done|]. injection E as <-. split; [done|].
    do 2 eexists. split; [reflexivity|]. unfold membership_of. rewrite !String.eqb_refl. conjuncts.
    intros x Hx. exfalso. apply Hn. by eexists.
Qed.

Lemma save_invitation_memberships f i db : memberships (SaveInvitation f i db).2 = memberships db.
Proof. unfold SaveInvitation, exec. destruct f; [done|]. repeat case_match; simplify_eq; done. Qed.

Lemma accept_refused f newID now user token db :
  (forall i, (FindInvitationByHash (f 0%nat) (sha256_hex token) db).1 = Ok i -> invitation_valid now i = false) ->
  exists e, AcceptInvitationHandler f newID now (Some user) token db = (Err e, db).
Proof.
  intros Hall. unfold AcceptInvitationHandler. destruct (String.eqb token ""); [by eexists|].
  rewrite bind_attempt by apply pure_FindInvitationByHash.
  destruct (FindInvitationByHash _ _ db).1 as [i|e|]; [|by eexists..]. rewrite (Hall i eq_refl). by eexists.
Qed.

(** The run of a call that gets as far as saving the membership. *)
Lemma accept_run f newID now user token db out db' :
  AcceptInvitationHandler f newID now (Some user) token db = (out, db') ->
  if is_ok out then
    exists id inv mem s, first_row (fun i => String.eqb (li_tokenHash i) (sha256_hex token)) (invitations db) = Some (id, inv) /\
      invitation_valid now inv = true /\
      NewLibraryMembership newID (li_libraryID inv) (au_UserID user) (li_role inv) now = Ok mem /\
      SaveMembership (f 1%nat) mem db = (Ok tt, s) /\
      db' = (SaveInvitation (f 2%nat) (mark_invitation_used now inv) s).2 /\
      out = Ok (li_libraryID inv, li_role inv)
  else db' = db.
Proof.
  unfold AcceptInvitationHandler. destruct (String.eqb token ""); [by intros [= <- <-]|].
  rewrite bind_attempt by apply pure_FindInvitationByHash.
  destruct (FindInvitationByHash _ _ db).1 as [inv|e|] eqn:Ef; [|by intros [= <- <-]..].
  apply found_invitation in Ef as (_ & id & Hid).
  destruct (invitation_valid now inv) eqn:Ev; cbn [negb]; [|by intros [= <- <-]].
  destruct (NewLibraryMembership _ _ _ _ _) as [mem|e|] eqn:Em; [|by intros [= <- <-]..].
  unfold mbind at 1, stM_bind at 1. destruct (or_fail _ _ db) as [[[]|e|] s] eqn:Es.
  - apply or_fail_ok in Es. intros [= <- <-]. cbn [is_ok]. by exists id, inv, mem, s.
  - intros [= <- <-]. cbn [is_ok]. by eapply (or_fail_err _ _ _ (fun r s' => exec_fail _ _ _ r s')).
  - intros [= <- <-]. cbn [is_ok]. by eapply (or_fail_err _ _ _ (fun r s' => exec_fail _ _ _ r s')).
Qed.

(** What accepting an invitation does.  A call that fails changes nothing.
    One that succeeds had a valid invitation; the caller, whoever they are
    (the address invited is not compared), now has the invitation's role in
    its library, raised or lowered from what it was; nobody else's membership
    changes; and if the invitation could be marked used it is refused from
    then on to everyone, where the handler drops that failure and it then
    stays open. *)
Theorem AcceptInvitation_effects f newID now user token db out db' :
  invitations_wf db -> AcceptInvitationHandler f newID now (Some user) token db = (out, db') ->
  match out with
  | Ok (lib, role) =>
      (exists id inv, invitations db !! id = Some inv /\ li_tokenHash inv = sha256_hex token /\
         invitation_valid now inv = true /\ lib = li_libraryID inv /\ role = li_role inv) /\
      (exists k m, memberships db' !! k = Some m /\ membership_of lib (au_UserID user) m = true /\
         lm_role m = role) /\
      (forall k m, membership_of lib (au_UserID user) m = false ->
         memberships db' !! k = Some m <-> memberships db !! k = Some m) /\
      (f 2%nat = None -> forall f' newID' now' user', exists e,
         AcceptInvitationHandler f' newID' now' (Some user') token db' = (Err e, db')) /\
      (f 2%nat <> None -> invitations db' = invitations db)
  | _ => db' = db
  end.
Proof.
  intros [Hk Hu] Hrun%accept_run. destruct out as [[lib role]|e|]; cbn [is_ok] in Hrun; [|exact Hrun..].
  destruct Hrun as (id & inv & mem & s & Hrow & Hv & Hm & Hs & -> & [= -> ->]).
  apply first_row_Some in Hrow as [Hid Hh]. apply String.eqb_eq in Hh.
  assert (lm_libraryID mem = li_libraryID inv /\ lm_userID mem = au_UserID user /\ lm_role mem = li_role inv /\
    role_valid (li_role inv) = true) as (El & Eu & Er & Erv).
  { unfold NewLibraryMembership in Hm. repeat (case_match; [done|]). injection Hm as <-. conjuncts.
    by apply negb_false_iff. }
  apply SaveMembership_run in Hs as (Ei & k & row & Ems & Hof & Hrole & Hold).
  rewrite El, Eu in Hof, Hold. rewrite save_invitation_memberships, Ems. conjuncts.
  - by exists id, inv.
  - exists k, row. rewrite lookup_insert_eq. conjuncts. congruence.
  - intros k' m Hm'. rewrite lookup_insert_Some. split.
    + intros [[<- <-]|[_ Hx]]; [congruence|done].
    + intros Hx. right. split; [|done]. intros ->. rewrite (Hold _ Hx) in Hm'. done.
  - intros Hf f' newID' now' user'. apply accept_refused. intros i (_ & id' & [Hi Hih]%first_row_Some)%found_invitation.
    apply String.eqb_eq in Hih. rewrite Hf in Hi. unfold SaveInvitation, exec in Hi. simpl in Hi.
    rewrite Erv, Ei, (Hk _ _ Hid), Hid in Hi. simpl in Hi.
    apply lookup_insert_Some in Hi as [[_ <-]|[Hne Hi]]; [done|].
    exfalso. apply Hne. eapply Hu; [exact Hid|exact Hi|congruence].
  - intros Hf. rewrite <- Ei. unfold SaveInvitation, exec. by destruct (f 2%nat).
Qed.
End accepting.

(** ** The limiter keeps addresses apart *)

Section limiter.
Context `{Limiter}.

Inductive lim_event :=
| Asks (ip : string) (now : Time)
| Sweeps (now : Time).

(** The answers [who] gets in a run. *)
Fixpoint answers (who : string) (es : list lim_event) (i : IPRateLimiter) : list bool :=
  match es with
  | [] => []
  | Asks ip now :: es' =>
      let '(ok, i') := Allow ip now i in
      if String.eqb ip who then ok :: answers who es' i' else answers who es' i'
  | Sweeps now :: es' => answers who es' (Cleanup now i)
  end.

(** The bucket of one address on its own. *)
Fixpoint alone (who : string) (ttl : Duration) (es : list lim_event) (entry : option ipEntry) : list bool :=
  match es with
  | [] => []
  | Asks ip now :: es' =>
      if String.eqb ip who then
        let '(ok, b) := bucket_Allow now (match entry with Some e => limiter e | None => NewLimiter end) in
        ok :: alone who ttl es' (Some (mkIpEntry b now))
      else alone who ttl es' entry
  | Sweeps now :: es' =>
      alone who ttl es' (match entry with
                         | Some e => if Sub now (lastSeen e) <=? ttl then Some e else None
                         | None => None
                         end)
  end.

(** The limiter is one bucket per address.  However the calls of all
    addresses and the sweeps interleave, the answers one address gets are
    those of a bucket of its own, asked only by it and thrown away by the
    sweeps that find it unused for longer than the limit: a flood from
    elsewhere neither uses up nor refills it. *)
Theorem limiter_isolated who es i : answers who es i = alone who (ttl i) es (ips i !! who).
Proof.
  revert i. induction es as [|[ip now|now] es IH]; intros i; simpl; [done| |].
  - unfold Allow. destruct (bucket_Allow now _) as [ok b] eqn:Eb.
    destruct (String.eqb_spec ip who) as [->|Hne]; rewrite IH; simpl.
    + rewrite Eb, lookup_insert_eq. done.
    + by rewrite lookup_insert_ne.
  - rewrite IH. simpl. f_equal. rewrite map_lookup_filter. destruct (ips i !! who) as [e|]; [|done]. simpl.
    case_guard as Hg; destruct (Z.leb_spec (Sub now (lastSeen e)) (ttl i)); simpl in *; done || lia.
Qed.
End limiter.

(** ** The theorems at work *)

#[local] Existing Instance demo_primitives.
#[local] Existing Instance demo_totp.
#[local] Existing Instance demo_hasher.

Definition demo_request (access library : string) : request :=
  mkRequest "/api/v1/library/works" "GET" ("Bearer " +:+ access) library None.

Definition demo_bearer : request := demo_request (Sign demo_signer demo_claims) "lib".

Lemma bearer_header token library : r_authorization (demo_request token library) <> "".
Proof. discriminate. Qed.

Lemma middleware_admits_witness :
  exists user lib, AuthMiddlewareWithReaderGrants demo_signer None 0 (mkContext None None) demo_bearer
      = Next (mkContext (Some user) (Some lib)) /\
    exists token claims, r_authorization demo_bearer = "Bearer " +:+ token /\
      VerifyAccessToken demo_signer token 0 = Ok claims.
Proof.
  assert (match AuthMiddlewareWithReaderGrants demo_signer None 0 (mkContext None None) demo_bearer with
          | Next _ => true | Refuse _ => false end = true) as Hok by (vm_compute; reflexivity).
  assert (IsPublicPath (r_path demo_bearer) = false) as Hp by reflexivity.
  destruct (AuthMiddlewareWithReaderGrants demo_signer None 0 (mkContext None None) demo_bearer) as [ctx|e] eqn:E;
    [|discriminate Hok].
  destruct (middleware_admits demo_signer None 0 _ _ _ E Hp)
    as (user & lib & -> & [(token & claims & Ht & Hv & _)|(Ha & _)]); [|exfalso; exact (bearer_header _ _ Ha)].
  exists user, lib. split; [reflexivity|]. exists token, claims. split; [exact Ht|exact Hv].
Defined.

Lemma signed_in_access_witness :
  exists u access refresh db', LoginHandler demo_cfg (fun _ => None) (demo_draws "s2" "r") true
      (Some (mkLoginRequest "ada" "password" "")) (demo_tables ∅) = (Ok (SignedIn u access refresh), db') /\
    exists user, AuthMiddleware (cfg_signer demo_cfg) 0 (mkContext None None) (demo_request access "")
      = Next (mkContext (Some user) (Some DefaultLibraryID)).
Proof.
  assert (signed_in (LoginHandler demo_cfg (fun _ => None) (demo_draws "s2" "r") true
    (Some (mkLoginRequest "ada" "password" "")) (demo_tables ∅)).1 = true) as Hok by (vm_compute; reflexivity).
  destruct (LoginHandler demo_cfg (fun _ => None) (demo_draws "s2" "r") true
    (Some (mkLoginRequest "ada" "password" "")) (demo_tables ∅)) as [[[u a r|t]|e|] db'] eqn:E;
    [|discriminate Hok..].
  exists u, a, r, db'. split; [reflexivity|].
  destruct (signed_in_access _ _ _ _ _ _ _ _ _ _ E) as (user & Ha & Hthrough).
  assert ((find_account demo_cfg None None "ada" (demo_tables ∅)).1
          = Ok (Ok (mkUser "u1" "ada" "ada@example.org" RoleReader 0 0))) as Hu by (vm_compute; reflexivity).
  cbn [lr_EmailOrUsername] in Ha. rewrite Ha in Hu. injection Hu as ->.
  assert (token_libraries None "u1" (demo_tables ∅) = [DefaultLibraryID]) as Hl by (vm_compute; reflexivity).
  cbn [u_id] in Hthrough. rewrite Hl in Hthrough. eexists.
  rewrite (Hthrough 0 (mkContext None None) (demo_request a "")); [|vm_compute; reflexivity|reflexivity|reflexivity].
  reflexivity.
Defined.

Definition demo_invited : auth_db :=
  mkAuthDb {["u1" := mkUser "u1" "ada" "ada@example.org" RoleReader 0 0]} ∅ ∅ ∅ ∅
    {["lib" := mkLibrary "lib" "Books" "" false 0 0]} ∅
    {["i1" := mkLibraryInvitation "i1" "lib" "bob@example.org" RoleAdmin (sha256_hex "tok") "u0" Hour None 0]}
    None (mkPairingDb ∅ ∅ ∅ ∅).
Definition demo_caller : AuthenticatedUser := mkAuthenticatedUser "u1" "ada" RoleReader [].

Lemma AcceptInvitation_effects_witness :
  exists db', AcceptInvitationHandler (fun _ => None) "m1" 0 (Some demo_caller) "tok" demo_invited
      = (Ok ("lib", RoleAdmin), db') /\
    exists e, AcceptInvitationHandler (fun _ => None) "m2" 0 (Some demo_caller) "tok" db'
      = (Err e, db').
Proof.
  assert (is_ok (AcceptInvitationHandler (fun _ => None) "m1" 0 (Some demo_caller) "tok" demo_invited).1 = true) as Hok
    by (vm_compute; reflexivity).
  destruct (AcceptInvitationHandler (fun _ => None) "m1" 0 (Some demo_caller) "tok" demo_invited)
    as [out db'] eqn:E.
  assert (invitations_wf demo_invited) as Hwf.
  { split; simpl.
    - by intros id i [<- <-]%lookup_singleton_Some.
    - by intros id id' i i' [<- <-]%lookup_singleton_Some [<- <-]%lookup_singleton_Some. }
  pose proof (AcceptInvitation_effects (fun _ => None) "m1" 0 demo_caller "tok" _ _ _ Hwf E) as Heff.
  destruct out as [[lib role]|e|]; [|discriminate Hok..].
  destruct Heff as ((id & inv & Hid & _ & _ & -> & ->) & _ & _ & Hused & _).
  assert (inv = mkLibraryInvitation "i1" "lib" "bob@example.org" RoleAdmin (sha256_hex "tok") "u0" Hour None 0) as ->.
  { simpl in Hid. by apply lookup_singleton_Some in Hid as [_ <-]. }
  exists db'. split; [reflexivity|]. by apply Hused.
Defined.
