(* ===== verification/ReadingStore.v ===== *)
(** * The reading tables
      (src/internal/persistence/postgres: scope.go,
       reading_progress_repository.go, bookmark_repository.go,
       highlight_repository.go, reading_preferences_repository.go,
       reading_export_repository.go, library_entry_repository.go)

    Progress, bookmarks, highlights and preferences with their owners, and
    every statement of their repositories.  The rows are those the delta of a
    device reads, so they carry the sequence number that the trigger
    [set_sync_sequence] gives each write. *)

From S2P Require Import Prelude GoStrings Floats Errors Catalog Transactor Progress Postgres Http Pairing PairingStore Cfi Sync.

Local Open Scope string_scope.
Local Open Scope list_scope.
Local Open Scope Z_scope.

(** ** Tables *)

Record entry_row := mkEntryRow { en_library_id : LibraryID; en_entry : LibraryEntry }.

(** Each table maps its primary key to the row; of the editions, works and
    libraries only what the foreign keys and joins read. *)
Record reading_db := mkReadingDb {
  progress_table : gmap string (sync_row progress_cols);
  bookmarks : gmap string (sync_row bookmark_cols);
  highlights : gmap string (sync_row highlight_cols);
  preferences : gmap (string * string) (gmap string string);
  library_entries : gmap string entry_row;
  edition_works : gmap EditionID WorkID;
  known_works : gset WorkID;
  known_libraries : gset LibraryID;
}.

Definition set_progress t db := mkReadingDb t (bookmarks db) (highlights db) (preferences db)
  (library_entries db) (edition_works db) (known_works db) (known_libraries db).
Definition set_bookmarks t db := mkReadingDb (progress_table db) t (highlights db) (preferences db)
  (library_entries db) (edition_works db) (known_works db) (known_libraries db).
Definition set_highlights t db := mkReadingDb (progress_table db) (bookmarks db) t (preferences db)
  (library_entries db) (edition_works db) (known_works db) (known_libraries db).
Definition set_preferences t db := mkReadingDb (progress_table db) (bookmarks db) (highlights db) t
  (library_entries db) (edition_works db) (known_works db) (known_libraries db).
Definition set_entries t db := mkReadingDb (progress_table db) (bookmarks db) (highlights db)
  (preferences db) t (edition_works db) (known_works db) (known_libraries db).

Abbreviation readingM := (stM reading_db error) (only parsing).

(** What stamps a write: the transaction's number, and the numbers that
    [nextval('sync_seq')] answers to the trigger before an INSERT and to the
    trigger before an UPDATE.  An upsert that finds its row runs both. *)
Record stamp := mkStamp { st_xid : Z; st_insert : Z; st_update : Z }.

(** ** Owners (scope.go)

    An owner column is NULL for the empty identifier, and a scope compares
    the columns with the caller's ([IS NULL] for the empty one). *)
Definition owner_of (value : string) : option string :=
  if String.eqb value "" then None else Some value.

Definition owned_by {A} (userID : UserID) (r : sync_row A) : bool :=
  bool_decide (sy_user r = owner_of userID).

Definition in_scope {A} (userID : UserID) (libraryID : LibraryID) (r : sync_row A) : bool :=
  owned_by userID r && bool_decide (sy_library r = owner_of libraryID).

(** The row an INSERT writes, and the one an UPDATE of [r] writes. *)
Definition inserted {A} (st : stamp) (userID : UserID) (libraryID : LibraryID) (cols : A) : sync_row A :=
  mkSyncRow (owner_of userID) (owner_of libraryID) (st_xid st) (st_insert st) cols.
Definition updated {A} (st : stamp) (user library : option string) (cols : A) : sync_row A :=
  mkSyncRow user library (st_xid st) (st_update st) cols.

(** The foreign keys: to a library, when there is one, and to an edition. *)
Definition library_known (library : option string) (db : reading_db) : bool :=
  match library with
  | None => true
  | Some l => bool_decide (l ∈ known_libraries db)
  end.
Definition edition_known (e : EditionID) (db : reading_db) : bool :=
  bool_decide (is_Some (edition_works db !! e)).

(** ** Reading progress (reading_progress_repository.go) *)

Definition progress_of (id : string) (c : progress_cols) : ReadingProgress :=
  RehydrateReadingProgress id (pc_work_id c) (pc_percentage c) (pc_epoch c)
    (match pc_position_edition_id c, pc_position_value c with
     | Some e, Some v => Some (mkPrecisePosition e v)
     | _, _ => None
     end) (pc_device_id c) (pc_observed_at c).

Definition findByWork (fault : option pg_error) (userID : UserID) (libraryID : LibraryID)
    (workID : WorkID) : readingM ReadingProgress :=
  row ← query_one fault "reading progress not found" (fun db =>
    head (select (fun _ r => String.eqb (pc_work_id (sy_cols r)) workID && in_scope userID libraryID r)
            (progress_table db)));
  let '(id, r) := row in
  match NewPercentage (pc_percentage (sy_cols r)) with
  | Ok _ => mret (progress_of id (sy_cols r))
  | Err err => throw (TranslateError (ConnError err))
  | OutOfFuel => fun db => (OutOfFuel, db)
  end.

Definition FindByWorkAndUser := findByWork.

Definition progress_row_of (p : ReadingProgress) : progress_cols :=
  mkProgressCols (rp_id p) (rp_workID p) (rp_percentage p) (rp_epoch p)
    (pp_EditionID <$> rp_precisePosition p) (pp_Value <$> rp_precisePosition p)
    (rp_dev p) (rp_observedAt p).

(** The unique index on (COALESCE(user_id, ''), COALESCE(library_id, ''), work_id). *)
Definition index_key (r : sync_row progress_cols) : string * string * string :=
  (default "" (sy_user r), default "" (sy_library r), pc_work_id (sy_cols r)).

Definition progress_unique (id : string) (r : sync_row progress_cols) (db : reading_db) : bool :=
  bool_decide (map_Forall (fun k q => k <> id -> index_key q <> index_key r) (progress_table db)).

Definition progress_keys (r : sync_row progress_cols) (db : reading_db) : bool :=
  bool_decide (pc_work_id (sy_cols r) ∈ known_works db) && library_known (sy_library r) db &&
  match pc_position_edition_id (sy_cols r) with
  | None => true
  | Some e => edition_known e db
  end.

Definition SaveProgressForUser (fault : option pg_error) (st : stamp) (userID : UserID)
    (libraryID : LibraryID) (p : ReadingProgress) : readingM unit :=
  exec fault (fun db =>
    let row :=
      match progress_table db !! rp_id p with
      | None => inserted st userID libraryID (progress_row_of p)
      | Some _ => updated st (owner_of userID) (owner_of libraryID) (progress_row_of p)
      end in
    if negb (progress_unique (rp_id p) row db) then Err unique_violation
    else if negb (progress_keys row db) then Err foreign_key_violation
    else Ok (tt, set_progress (<[rp_id p := row]> (progress_table db)) db)).

(** The methods from before libraries and accounts: the empty scope. *)
Definition FindProgressByWork (fault : option pg_error) := findByWork fault "" "".
Definition SaveReadingProgress (fault : option pg_error) (st : stamp) := SaveProgressForUser fault st "" "".

(** [GetProgressSyncSequence] of the sync repository, on this table. *)
Definition ProgressSyncSequence (fault : option pg_error) (id : ReadingProgressID) : readingM Z :=
  query_one fault "reading progress not found" (fun db => sy_sequence <$> progress_table db !! id).

(** ** Bookmarks (bookmark_repository.go) *)

Definition bookmark_of (id : string) (c : bookmark_cols) : Bookmark :=
  NewBookmark id (bc_edition_id c) (bc_position c) (bc_label c) (bc_created_at c).

(** [ORDER BY created_at, id]. *)
Definition by_creation {A} (created : A -> Time) (x y : string * sync_row A) : bool :=
  let cx := created (sy_cols x.2) in let cy := created (sy_cols y.2) in
  (cx <? cy) || ((cx =? cy) && String.leb x.1 y.1).

Definition FindBookmarkByIDAndUser (fault : option pg_error) (userID : UserID) (id : BookmarkID)
    : readingM Bookmark :=
  r ← query_one fault "bookmark not found" (fun db =>
    r ← bookmarks db !! id; if owned_by userID r then Some r else None);
  mret (bookmark_of id (sy_cols r)).

Definition FindBookmarksByEditionAndUser (fault : option pg_error) (userID : UserID)
    (libraryID : LibraryID) (editionID : EditionID) : readingM (list Bookmark) :=
  rows ← exec fault (fun db =>
    Ok (sort_by (by_creation bc_created_at)
          (select (fun _ r => String.eqb (bc_edition_id (sy_cols r)) editionID && in_scope userID libraryID r)
             (bookmarks db)), db));
  mret ((fun kr => bookmark_of kr.1 (sy_cols kr.2)) <$> rows).

Definition bookmark_row_of (b : Bookmark) : bookmark_cols :=
  mkBookmarkCols (b_id b) (b_editionID b) (b_position b) (b_label b) (b_createdAt b).

Definition SaveBookmarkForUser (fault : option pg_error) (st : stamp) (userID : UserID)
    (libraryID : LibraryID) (b : Bookmark) : readingM unit :=
  exec fault (fun db =>
    let row :=
      match bookmarks db !! b_id b with
      | None => inserted st userID libraryID (bookmark_row_of b)
      | Some r => updated st (owner_of userID) (owner_of libraryID)
                    (mkBookmarkCols (b_id b) (b_editionID b) (b_position b) (b_label b)
                       (bc_created_at (sy_cols r)))
      end in
    if edition_known (b_editionID b) db && library_known (sy_library row) db
    then Ok (tt, set_bookmarks (<[b_id b := row]> (bookmarks db)) db)
    else Err foreign_key_violation).

Definition FindBookmarkByID (fault : option pg_error) (id : BookmarkID) : readingM Bookmark :=
  r ← query_one fault "bookmark not found" (fun db => bookmarks db !! id);
  mret (bookmark_of id (sy_cols r)).
Definition FindBookmarksByEdition (fault : option pg_error) := FindBookmarksByEditionAndUser fault "" "".
Definition SaveBookmark (fault : option pg_error) (st : stamp) := SaveBookmarkForUser fault st "" "".
Definition DeleteBookmarkByID (fault : option pg_error) (id : BookmarkID) : readingM unit :=
  exec fault (fun db => Ok (tt, set_bookmarks (delete id (bookmarks db)) db)).

Definition DeleteBookmarkAndUser (fault : option pg_error) (userID : UserID) (id : BookmarkID)
    : readingM unit :=
  affecting "bookmark not found" (exec fault (fun db =>
    match bookmarks db !! id with
    | Some r => if owned_by userID r then Ok (1, set_bookmarks (delete id (bookmarks db)) db)
                else Ok (0, db)
    | None => Ok (0, db)
    end)).

(** ** Highlights (highlight_repository.go) *)

Definition highlight_of (id : string) (c : highlight_cols) : Highlight :=
  NewHighlight id (hc_edition_id c) (hc_start_position c) (hc_end_position c) (hc_note c)
    (hc_category c) (hc_created_at c).

Definition FindHighlightByIDAndUser (fault : option pg_error) (userID : UserID) (id : HighlightID)
    : readingM Highlight :=
  r ← query_one fault "highlight not found" (fun db =>
    r ← highlights db !! id; if owned_by userID r then Some r else None);
  mret (highlight_of id (sy_cols r)).

Definition FindHighlightsByEditionAndUser (fault : option pg_error) (userID : UserID)
    (libraryID : LibraryID) (editionID : EditionID) : readingM (list Highlight) :=
  rows ← exec fault (fun db =>
    Ok (sort_by (by_creation hc_created_at)
          (select (fun _ r => String.eqb (hc_edition_id (sy_cols r)) editionID && in_scope userID libraryID r)
             (highlights db)), db));
  mret ((fun kr => highlight_of kr.1 (sy_cols kr.2)) <$> rows).

Definition highlight_row_of (h : Highlight) : highlight_cols :=
  mkHighlightCols (h_id h) (h_editionID h) (h_startPosition h) (h_endPosition h) (h_note h)
    (h_category h) (h_createdAt h).

Definition SaveHighlightForUser (fault : option pg_error) (st : stamp) (userID : UserID)
    (libraryID : LibraryID) (h : Highlight) : readingM unit :=
  exec fault (fun db =>
    let row :=
      match highlights db !! h_id h with
      | None => inserted st userID libraryID (highlight_row_of h)
      | Some r => updated st (owner_of userID) (owner_of libraryID)
                    (mkHighlightCols (h_id h) (h_editionID h) (h_startPosition h) (h_endPosition h)
                       (h_note h) (h_category h) (hc_created_at (sy_cols r)))
      end in
    if edition_known (h_editionID h) db && library_known (sy_library row) db
    then Ok (tt, set_highlights (<[h_id h := row]> (highlights db)) db)
    else Err foreign_key_violation).

Definition with_note (note category : string) (c : highlight_cols) : highlight_cols :=
  mkHighlightCols (hc_id c) (hc_edition_id c) (hc_start_position c) (hc_end_position c) note category
    (hc_created_at c).

Definition UpdateNoteCategoryAndUser (fault : option pg_error) (st : stamp) (userID : UserID)
    (id : HighlightID) (note category : string) : readingM unit :=
  affecting "highlight not found" (exec fault (fun db =>
    match highlights db !! id with
    | Some r =>
        if owned_by userID r then
          Ok (1, set_highlights (<[id := updated st (sy_user r) (sy_library r)
                                           (with_note note category (sy_cols r))]> (highlights db)) db)
        else Ok (0, db)
    | None => Ok (0, db)
    end)).

Definition DeleteHighlightAndUser (fault : option pg_error) (userID : UserID) (id : HighlightID)
    : readingM unit :=
  affecting "highlight not found" (exec fault (fun db =>
    match highlights db !! id with
    | Some r => if owned_by userID r then Ok (1, set_highlights (delete id (highlights db)) db)
                else Ok (0, db)
    | None => Ok (0, db)
    end)).

Definition FindHighlightByID (fault : option pg_error) (id : HighlightID) : readingM Highlight :=
  r ← query_one fault "highlight not found" (fun db => highlights db !! id);
  mret (highlight_of id (sy_cols r)).
Definition FindHighlightsByEdition (fault : option pg_error) := FindHighlightsByEditionAndUser fault "" "".
Definition SaveHighlight (fault : option pg_error) (st : stamp) := SaveHighlightForUser fault st "" "".
Definition DeleteHighlightByID (fault : option pg_error) (id : HighlightID) : readingM unit :=
  exec fault (fun db => Ok (tt, set_highlights (delete id (highlights db)) db)).

(** ** Preferences (reading_preferences_repository.go)

    The settings of a row are a JSON object of strings, whose encoding and
    decoding give the map back. *)

Definition FindPreferencesByUserAndDevice (fault : option pg_error) (userID : UserID)
    (deviceID : DeviceID) : readingM ReadingPreferences :=
  settings ← query_one fault "reading preferences not found"
    (fun db => preferences db !! (userID, deviceID));
  mret (map_fold set_preference (NewReadingPreferences deviceID) settings).

Definition SavePreferencesForUser (fault : option pg_error) (userID : UserID)
    (p : ReadingPreferences) : readingM unit :=
  exec fault (fun db =>
    Ok (tt, set_preferences (<[(userID, rp_deviceID p) := rp_settings p]> (preferences db)) db)).

Definition FindPreferencesByDevice (fault : option pg_error) := FindPreferencesByUserAndDevice fault "".
Definition SavePreferences (fault : option pg_error) := SavePreferencesForUser fault "".

(** ** Export (reading_export_repository.go) *)

Record ExportProgress := mkExportProgress {
  ep_WorkID : string;
  ep_Percentage : float64;
  ep_Epoch : Z;
  ep_PrecisePosEdID : option string;
  ep_PrecisePosCFI : option string;
  ep_ObservedAt : Time;
}.

Record ExportMark := mkExportMark {
  em_ID : string;
  em_EditionID : string;
  em_Kind : string;
  em_StartCFI : string;
  em_EndCFI : string;
  em_Label : string;
  em_Note : string;
  em_Category : string;
  em_CreatedAt : Time;
}.

Definition export_progress (c : progress_cols) : ExportProgress :=
  mkExportProgress (pc_work_id c) (pc_percentage c) (pc_epoch c) (pc_position_edition_id c)
    (pc_position_value c) (pc_observed_at c).

Definition by_work (p q : ExportProgress) : bool := String.leb (ep_WorkID p) (ep_WorkID q).

Definition ListProgress (fault : option pg_error) (userID : UserID) (libraryID : LibraryID)
    (workID : string) : readingM (list ExportProgress) :=
  exec fault (fun db =>
    Ok (sort_by by_work
          ((fun kr => export_progress (sy_cols kr.2)) <$>
             select (fun _ r => in_scope userID libraryID r
                       && (String.eqb workID "" || String.eqb (pc_work_id (sy_cols r)) workID))
               (progress_table db)), db)).

Definition bookmark_mark (kr : string * sync_row bookmark_cols) : ExportMark :=
  let c := sy_cols kr.2 in
  mkExportMark kr.1 (bc_edition_id c) "bookmark" (bc_position c) "" (bc_label c) "" ""
    (bc_created_at c).
Definition highlight_mark (kr : string * sync_row highlight_cols) : ExportMark :=
  let c := sy_cols kr.2 in
  mkExportMark kr.1 (hc_edition_id c) "highlight" (hc_start_position c) (hc_end_position c) ""
    (hc_note c) (hc_category c) (hc_created_at c).

(** [ORDER BY edition_id, created_at, id]. *)
Definition by_edition (m n : ExportMark) : bool :=
  if String.eqb (em_EditionID m) (em_EditionID n) then
    (em_CreatedAt m <? em_CreatedAt n)
    || ((em_CreatedAt m =? em_CreatedAt n) && String.leb (em_ID m) (em_ID n))
  else String.leb (em_EditionID m) (em_EditionID n).

(** [edition_id IN (SELECT id FROM editions WHERE work_id = ..)], for a work. *)
Definition on_work (workID : string) (db : reading_db) (editionID : EditionID) : bool :=
  String.eqb workID "" || bool_decide (edition_works db !! editionID = Some workID).

Definition ListMarks (fault : option pg_error) (userID : UserID) (libraryID : LibraryID)
    (workID : string) : readingM (list ExportMark) :=
  exec fault (fun db =>
    Ok (sort_by by_edition
          ((bookmark_mark <$>
              select (fun _ r => in_scope userID libraryID r && on_work workID db (bc_edition_id (sy_cols r)))
                (bookmarks db))
           ++ (highlight_mark <$>
              select (fun _ r => in_scope userID libraryID r && on_work workID db (hc_edition_id (sy_cols r)))
                (highlights db))), db)).

Definition WorkExists (fault : option pg_error) (workID : string) : readingM bool :=
  exec fault (fun db => Ok (bool_decide (workID ∈ known_works db), db)).

(** ** Library entries (library_entry_repository.go) *)

Definition FindEntryByEdition (fault : option pg_error) (editionID : EditionID) : readingM LibraryEntry :=
  query_one fault "library entry not found" (fun db =>
    (fun kr => NewLibraryEntry kr.1 editionID (le_addedAt (en_entry kr.2))) <$>
      head (select (fun _ r => String.eqb (le_editionID (en_entry r)) editionID) (library_entries db))).

Definition EditionInLibrary (fault : option pg_error) (editionID : EditionID) (libraryID : LibraryID)
    : readingM bool :=
  exec fault (fun db =>
    Ok (bool_decide (select (fun _ r => String.eqb (le_editionID (en_entry r)) editionID
                                        && String.eqb (en_library_id r) libraryID)
                       (library_entries db) <> []), db)).

Definition WorkInLibrary (fault : option pg_error) (workID : WorkID) (libraryID : LibraryID)
    : readingM bool :=
  exec fault (fun db =>
    Ok (bool_decide (select (fun _ r => bool_decide (edition_works db !! le_editionID (en_entry r) = Some workID)
                                        && String.eqb (en_library_id r) libraryID)
                       (library_entries db) <> []), db)).

(** The error of an [ON CONFLICT] that names no unique constraint. *)
Definition invalid_column_reference : pg_error := PgError "42P10".

Definition DefaultLibrary : LibraryID := "00000000-0000-0000-0000-000000000001".

(** Both statements of the repository's [Save]: the second runs when the
    first fails, and names the constraint on [edition_id] that migration 9
    dropped. *)
Definition SaveLibraryEntry (fault fault' : option pg_error) (e : LibraryEntry) : readingM unit :=
  let insert : readingM Z := exec fault (fun db =>
    if bool_decide (select (fun _ r => String.eqb (le_editionID (en_entry r)) (le_editionID e)
                                       && String.eqb (en_library_id r) DefaultLibrary)
                      (library_entries db) <> []) then Ok (0, db)
    else match library_entries db !! le_id e with
    | Some _ => Err unique_violation
    | None =>
        if library_known (Some DefaultLibrary) db && edition_known (le_editionID e) db
        then Ok (1, set_entries (<[le_id e := mkEntryRow DefaultLibrary e]> (library_entries db)) db)
        else Err foreign_key_violation
    end) in
  let fallback : readingM Z := exec fault' (fun _ => Err invalid_column_reference) in
  n ← (fun db => match insert db with
                 | (Ok n, db') => (Ok n, db')
                 | (_, db') => fallback db'
                 end);
  if n =? 0 then throw (mkErr Conflict "the requested change conflicts with an existing record")
  else mret tt.

Definition DeleteEntriesByEdition (fault : option pg_error) (editionID : EditionID) : readingM unit :=
  exec fault (fun db =>
    Ok (tt, set_entries (delete_where (fun r => String.eqb (le_editionID (en_entry r)) editionID)
                           (library_entries db)).2 db)).
