(* ===== verification/Reading.v ===== *)
(** * The reading API (src/internal/transport/http: reading.go,
      reading_export.go)

    Progress, bookmarks, highlights, preferences and the export, each handler
    whole, as a computation on the reading tables.  The context is the one the
    access middleware leaves; the decoded body is an argument ([None] when it
    does not decode), and so are the answers of the clock, of the identifier
    generator and of the repositories of editions and devices. *)

From S2P Require Import Prelude GoStrings Floats Errors Validate Catalog Transactor Progress Postgres Http Pairing PairingStore Cfi Sync Identity Encoding Tokens Totp AuthStore AuthHandlers Access ReadingStore.

Local Open Scope string_scope.
Local Open Scope list_scope.
Local Open Scope Z_scope.

(** ** Dependencies and the request's surroundings *)

(** The bundle of [PoolRef.GetReadingAPI]: which of its optional parts are
    there, and what the repositories outside the reading tables answer. *)
Record ReadingAPI := mkReadingAPI {
  ra_Editions : EditionID -> Result Edition;
  ra_Devices : option (DeviceID -> Result PairedDevice);
  ra_LibraryEntries : bool;
  ra_Export : bool;
}.

(** [fault i] is the driver's error of the handler's [i]th statement, [tx]
    what becomes of its transaction. *)
Record surroundings := mkSurroundings {
  su_fault : nat -> option pg_error;
  su_tx : TxOutcome;
  su_stamp : stamp;
  su_newID : string;
  su_now : Time;
}.

Abbreviation readingH := (stM reading_db http_error) (only parsing).

Definition not_ready : http_error := HTTPError Unavailable "the reading service is not ready yet".

Definition readingDeps (deps : option ReadingAPI) : readingH ReadingAPI :=
  match deps with Some d => mret d | None => throw not_ready end.

Definition readingScope (ctx : context) : readingH (UserID * LibraryID) :=
  match ctx_user ctx with
  | None => throw (HTTPError Unauthorized "authentication is required")
  | Some user =>
      if String.eqb (au_UserID user) "" then throw (HTTPError Unauthorized "authentication is required")
      else mret (au_UserID user, ActiveLibraryFromContext ctx)
  end.

Definition assertEditionInLibrary (deps : ReadingAPI) (fault : option pg_error)
    (editionID : EditionID) (libID : LibraryID) : readingH unit :=
  if negb (ra_LibraryEntries deps) then throw not_ready
  else
    ok ← or_domain (EditionInLibrary fault editionID libID);
    if (ok : bool) then mret tt else throw (HTTPError NotFound "no such edition in your library").

Definition assertWorkInLibrary (deps : ReadingAPI) (fault : option pg_error)
    (workID : WorkID) (libID : LibraryID) : readingH unit :=
  if negb (ra_LibraryEntries deps) then throw not_ready
  else
    ok ← or_domain (WorkInLibrary fault workID libID);
    if (ok : bool) then mret tt else throw (HTTPError NotFound "no such book in your library").

(** A repository that finds no device answers [NotFound], never a nil device. *)
Definition assertDeviceActive (deps : ReadingAPI) (header : string) (userID : UserID) : readingH unit :=
  let devID := TrimSpace header in
  match ra_Devices deps with
  | None => mret tt
  | Some find =>
      if String.eqb devID "" then mret tt
      else match find devID with
      | Err err =>
          if bool_decide (CategoryOf err = NotFound) then mret tt else throw (domain_http err)
      | OutOfFuel => throw Panicked
      | Ok dev =>
          if negb (String.eqb (pd_owner dev) userID) then
            throw (HTTPError Unauthorized "unauthorized device")
          else match pd_revokedAt dev with
          | Some _ => throw (HTTPError Unauthorized "device revoked")
          | None => mret tt
          end
      end
  end.

(** ** Progress *)

Record wirePrecisePosition := mkWirePosition { wp_EditionID : string; wp_CFI : string }.

Record wireReadingProgress := mkWireProgress {
  wr_Percentage : float64;
  wr_Epoch : Z;
  wr_PrecisePosition : option wirePrecisePosition;
  wr_ObservedAt : Time;
}.

Record wireProgressReport := mkWireReport {
  wq_Percentage : float64;
  wq_ObservedEpoch : Z;
  wq_PrecisePosition : option wirePrecisePosition;
  wq_Override : bool;
}.

Definition progressToWire (p : ReadingProgress) : wireReadingProgress :=
  mkWireProgress (rp_percentage p) (rp_epoch p)
    ((fun pos => mkWirePosition (pp_EditionID pos) (pp_Value pos)) <$> rp_precisePosition p)
    (rp_observedAt p).

Definition ReadingProgressGetHandler (deps : option ReadingAPI) (su : surroundings) (ctx : context)
    (workID : WorkID) : readingH (option wireReadingProgress) :=
  _ ← readingDeps deps;
  if String.eqb workID "" then bad_request "workId is required"
  else
    '(userID, libID) ← readingScope ctx;
    p ← attempt (FindByWorkAndUser (su_fault su 0%nat) userID libID workID);
    match p with
    | Ok p => mret (Some (progressToWire p))
    | Err err => if bool_decide (CategoryOf err = NotFound) then mret None else throw (domain_http err)
    | OutOfFuel => throw Panicked
    end.

(** [progressStore]: the repository scoped to a user and a library, as the
    reconcile transaction sees it. *)
Definition scoped_progress (userID : UserID) (libID : LibraryID) (db : reading_db)
    : gmap ReadingProgressID ReadingProgress :=
  map_imap (fun id r => if in_scope userID libID r then Some (progress_of id (sy_cols r)) else None)
    (progress_table db).

Definition stored {S A} (m : stM S error A) (s : S) : Result S :=
  match m s with
  | (Ok _, s') => Ok s'
  | (Err e, _) => Err e
  | (OutOfFuel, _) => OutOfFuel
  end.

Definition progressStore (find_fault save_fault : option pg_error) (st : stamp) (userID : UserID)
    (libID : LibraryID) : ProgressStore reading_db := {|
  progress_rows := scoped_progress userID libID;
  FindByWorkForUpdate workID db := (findByWork find_fault userID libID workID db).1;
  SaveProgress p db := stored (SaveProgressForUser save_fault st userID libID p) db;
|}.

(** The position of a request, checked against the work. *)
Definition reported_position (deps : ReadingAPI) (workID : WorkID) (pos : option wirePrecisePosition)
    : readingH (option PrecisePosition) :=
  match pos with
  | None => mret None
  | Some pos =>
      _ ← checked (ValidateCFI (wp_CFI pos));
      if String.eqb (wp_EditionID pos) "" then bad_request "precisePosition.editionId is required"
      else
        let pos := Some (mkPrecisePosition (wp_EditionID pos) (wp_CFI pos)) in
        _ ← checked (CheckPrecisePositionWork (ra_Editions deps) workID pos);
        mret pos
  end.

Definition ReadingProgressReportHandler (deps : option ReadingAPI) (su : surroundings) (ctx : context)
    (header : string) (workID : WorkID) (req : option wireProgressReport)
    : readingH (wireReadingProgress * ReconcileOutcome) :=
  deps ← readingDeps deps;
  if String.eqb workID "" then bad_request "workId is required"
  else
    '(userID, libID) ← readingScope ctx;
    _ ← assertWorkInLibrary deps (su_fault su 0%nat) workID libID;
    _ ← checked (ValidateDeviceID header);
    _ ← assertDeviceActive deps header userID;
    req ← body_of req;
    _ ← checked (ValidatePercentage (wq_Percentage req));
    _ ← checked (ValidateObservedEpoch (wq_ObservedEpoch req));
    pos ← reported_position deps workID (wq_PrecisePosition req);
    let pct := match NewPercentage (wq_Percentage req) with Ok p => p | _ => f64_zero end in
    let report := mkProgressReport workID pct (wq_ObservedEpoch req) pos header (su_now su) in
    let store := progressStore (su_fault su 1%nat) (su_fault su 2%nat) (su_stamp su) userID libID in
    '(result, outcome) ← or_domain (@ReportProgress _ store (su_tx su) (su_newID su) report (wq_Override req));
    mret (progressToWire result, outcome).

(** ** Bookmarks *)

Record wireBookmark := mkWireBookmark {
  wb_ID : string;
  wb_EditionID : string;
  wb_CFI : string;
  wb_Label : string;
  wb_CreatedAt : Time;
}.

Definition bookmarkToWire (b : Bookmark) : wireBookmark :=
  mkWireBookmark (b_id b) (b_editionID b) (b_position b) (b_label b) (b_createdAt b).

Definition ReadingBookmarksListHandler (deps : option ReadingAPI) (su : surroundings) (ctx : context)
    (editionID : EditionID) : readingH (list wireBookmark) :=
  _ ← readingDeps deps;
  '(userID, libID) ← readingScope ctx;
  list ← or_domain (FindBookmarksByEditionAndUser (su_fault su 0%nat) userID libID editionID);
  mret (bookmarkToWire <$> list).

(** [if s != "" { if err := ValidateBoundedText(..) .. }] *)
Definition bounded_or_empty (field s : string) (max : Z) : readingH unit :=
  if String.eqb s "" then mret tt
  else match ValidateBoundedText field s max with
  | Err err => bad_request (Error err)
  | _ => mret tt
  end.

Record BookmarkRequest := mkBookmarkRequest { bq_CFI : string; bq_Label : option string }.

Definition ReadingBookmarkCreateHandler (deps : option ReadingAPI) (su : surroundings) (ctx : context)
    (header : string) (editionID : EditionID) (req : option BookmarkRequest) : readingH wireBookmark :=
  deps ← readingDeps deps;
  if String.eqb editionID "" then bad_request "editionId is required"
  else
    '(userID, libID) ← readingScope ctx;
    _ ← assertDeviceActive deps header userID;
    _ ← assertEditionInLibrary deps (su_fault su 0%nat) editionID libID;
    req ← body_of req;
    _ ← checked (ValidateCFI (bq_CFI req));
    let label := default "" (bq_Label req) in
    _ ← bounded_or_empty "label" label 500;
    let b := NewBookmark (su_newID su) editionID (bq_CFI req) label (su_now su) in
    _ ← or_domain (SaveBookmarkForUser (su_fault su 1%nat) (su_stamp su) userID libID b);
    mret (bookmarkToWire b).

Definition ReadingBookmarkDeleteHandler (deps : option ReadingAPI) (su : surroundings) (ctx : context)
    (header : string) (id : BookmarkID) : readingH unit :=
  deps ← readingDeps deps;
  '(userID, _) ← readingScope ctx;
  _ ← assertDeviceActive deps header userID;
  or_domain (DeleteBookmarkAndUser (su_fault su 0%nat) userID id).

(** ** Highlights *)

Record wireHighlight := mkWireHighlight {
  wh_ID : string;
  wh_EditionID : string;
  wh_StartCFI : string;
  wh_EndCFI : string;
  wh_Note : string;
  wh_Category : string;
  wh_CreatedAt : Time;
}.

Definition highlightToWire (h : Highlight) : wireHighlight :=
  mkWireHighlight (h_id h) (h_editionID h) (h_startPosition h) (h_endPosition h) (h_note h)
    (h_category h) (h_createdAt h).

Definition ReadingHighlightsListHandler (deps : option ReadingAPI) (su : surroundings) (ctx : context)
    (editionID : EditionID) : readingH (list wireHighlight) :=
  _ ← readingDeps deps;
  '(userID, libID) ← readingScope ctx;
  list ← or_domain (FindHighlightsByEditionAndUser (su_fault su 0%nat) userID libID editionID);
  mret (highlightToWire <$> list).

Record HighlightRequest := mkHighlightRequest {
  hq_StartCFI : string;
  hq_EndCFI : string;
  hq_Note : option string;
  hq_Category : option string;
}.

Definition ReadingHighlightCreateHandler (deps : option ReadingAPI) (su : surroundings) (ctx : context)
    (header : string) (editionID : EditionID) (req : option HighlightRequest) : readingH wireHighlight :=
  deps ← readingDeps deps;
  if String.eqb editionID "" then bad_request "editionId is required"
  else
    '(userID, libID) ← readingScope ctx;
    _ ← assertDeviceActive deps header userID;
    _ ← assertEditionInLibrary deps (su_fault su 0%nat) editionID libID;
    req ← body_of req;
    _ ← checked (ValidateCFI (hq_StartCFI req));
    _ ← checked (ValidateCFI (hq_EndCFI req));
    if CFISortsBefore (hq_EndCFI req) (hq_StartCFI req) then
      bad_request "endCfi must not sort before startCfi"
    else
      let note := default "" (hq_Note req) in
      let category := default "" (hq_Category req) in
      _ ← bounded_or_empty "note" note 2000;
      _ ← bounded_or_empty "category" category 50;
      let h := NewHighlight (su_newID su) editionID (hq_StartCFI req) (hq_EndCFI req) note category
                 (su_now su) in
      _ ← or_domain (SaveHighlightForUser (su_fault su 1%nat) (su_stamp su) userID libID h);
      mret (highlightToWire h).

Record NoteRequest := mkNoteRequest { nq_Note : option string; nq_Category : option string }.

Definition ReadingHighlightPatchHandler (deps : option ReadingAPI) (su : surroundings) (ctx : context)
    (header : string) (id : HighlightID) (req : option NoteRequest) : readingH wireHighlight :=
  deps ← readingDeps deps;
  '(userID, _) ← readingScope ctx;
  _ ← assertDeviceActive deps header userID;
  existing ← or_domain (FindHighlightByIDAndUser (su_fault su 0%nat) userID id);
  req ← body_of req;
  let note := default (h_note existing) (nq_Note req) in
  let category := default (h_category existing) (nq_Category req) in
  _ ← bounded_or_empty "note" note 2000;
  _ ← bounded_or_empty "category" category 50;
  _ ← (if negb (String.eqb note (h_note existing)) || negb (String.eqb category (h_category existing))
       then or_domain (UpdateNoteCategoryAndUser (su_fault su 1%nat) (su_stamp su) userID id note category)
       else mret tt);
  mret (highlightToWire (NewHighlight (h_id existing) (h_editionID existing) (h_startPosition existing)
                           (h_endPosition existing) note category (h_createdAt existing))).

Definition ReadingHighlightDeleteHandler (deps : option ReadingAPI) (su : surroundings) (ctx : context)
    (header : string) (id : HighlightID) : readingH unit :=
  deps ← readingDeps deps;
  '(userID, _) ← readingScope ctx;
  _ ← assertDeviceActive deps header userID;
  or_domain (DeleteHighlightAndUser (su_fault su 0%nat) userID id).

(** ** Preferences *)

(** [strconv.ParseFloat(s, 64)], when it succeeds, and
    [strconv.FormatFloat(f, 'f', -1, 64)]. *)
Class FloatText := {
  parseFloat : string -> option float64;
  formatFloat : float64 -> string;
}.

Record wirePreferences := mkWirePreferences {
  wf_Font : string;
  wf_FontSize : float64;
  wf_LineSpacing : float64;
  wf_Theme : string;
  wf_LayoutMode : string;
  wf_ColumnWidth : string;
}.

(** A decimal with one digit after the point. *)
Definition tenths (n : Z) : float64 := SFdiv 53 1024 (f64_of_Z n) (f64_of_Z 10).

Definition defaultPreferences : wirePreferences :=
  mkWirePreferences "serif" (f64_of_Z 19) (tenths 15) "light" "paginated" "default".

Section preferences.
Context `{FloatText}.

Definition setting_or (s : gmap string string) (key dflt : string) : string := default dflt (s !! key).
Definition float_setting_or (s : gmap string string) (key : string) (dflt : float64) : float64 :=
  default dflt (v ← s !! key; parseFloat v).

Definition preferencesToWire (p : ReadingPreferences) : wirePreferences :=
  let out := defaultPreferences in
  let s := rp_settings p in
  mkWirePreferences (setting_or s "font" (wf_Font out))
    (float_setting_or s "fontSize" (wf_FontSize out))
    (float_setting_or s "lineSpacing" (wf_LineSpacing out))
    (setting_or s "theme" (wf_Theme out))
    (setting_or s "layoutMode" (wf_LayoutMode out))
    (setting_or s "columnWidth" (wf_ColumnWidth out)).

Definition one_of (s : string) (l : list string) : bool := existsb (String.eqb s) l.

Definition validatePreferences (p : wirePreferences) : Result unit :=
  match (if String.eqb (wf_Font p) "" then Ok tt else ValidateBoundedText "font" (wf_Font p) 60) with
  | Err err => fails InvalidInput (Error err)
  | _ =>
      if negb (one_of (wf_Theme p) ["light"; "sepia"; "dark"]) then
        fails InvalidInput "theme must be light, sepia, or dark"
      else if negb (one_of (wf_LayoutMode p) ["paginated"; "scroll"]) then
        fails InvalidInput "layoutMode must be paginated or scroll"
      else if negb (one_of (wf_ColumnWidth p) ["narrow"; "default"; "wide"]) then
        fails InvalidInput "columnWidth must be narrow, default, or wide"
      else if flt (wf_FontSize p) (f64_of_Z 12) || fgt (wf_FontSize p) (f64_of_Z 32) then
        fails InvalidInput "fontSize must be between 12 and 32"
      else if flt (wf_LineSpacing p) f64_one || fgt (wf_LineSpacing p) (tenths 25) then
        fails InvalidInput "lineSpacing must be between 1.0 and 2.5"
      else Ok tt
  end.

Definition ReadingPreferencesGetHandler (deps : option ReadingAPI) (su : surroundings) (ctx : context)
    (header : string) : readingH wirePreferences :=
  _ ← readingDeps deps;
  _ ← checked (ValidateDeviceID header);
  '(userID, _) ← readingScope ctx;
  p ← attempt (FindPreferencesByUserAndDevice (su_fault su 0%nat) userID header);
  match p with
  | Ok p => mret (preferencesToWire p)
  | Err err =>
      if bool_decide (CategoryOf err = NotFound) then mret defaultPreferences else throw (domain_http err)
  | OutOfFuel => throw Panicked
  end.

Definition preferences_of (deviceID : DeviceID) (req : wirePreferences) : ReadingPreferences :=
  set_preference "lineSpacing" (formatFloat (wf_LineSpacing req))
    (set_preference "fontSize" (formatFloat (wf_FontSize req))
      (set_preference "columnWidth" (wf_ColumnWidth req)
        (set_preference "layoutMode" (wf_LayoutMode req)
          (set_preference "theme" (wf_Theme req)
            (set_preference "font" (wf_Font req) (NewReadingPreferences deviceID)))))).

Definition ReadingPreferencesPutHandler (deps : option ReadingAPI) (su : surroundings) (ctx : context)
    (header : string) (req : option wirePreferences) : readingH wirePreferences :=
  deps ← readingDeps deps;
  _ ← checked (ValidateDeviceID header);
  '(userID, _) ← readingScope ctx;
  _ ← assertDeviceActive deps header userID;
  req ← body_of req;
  _ ← checked (validatePreferences req);
  let p := preferences_of header req in
  _ ← or_domain (SavePreferencesForUser (su_fault su 0%nat) userID p);
  mret (preferencesToWire p).
End preferences.

(** ** Export (reading_export.go) *)

Definition exportSchemaVersion : Z := 1.
Definition exportMaxBytes : Z := 25 * 1024 * 1024.

Record exportWork := mkExportWork { ew_WorkID : string; ew_Progress : wireReadingProgress }.

Record exportEdition := mkExportEdition {
  ee_EditionID : string;
  ee_Bookmarks : list wireBookmark;
  ee_Highlights : list wireHighlight;
}.

Record exportDoc := mkExportDoc {
  ed_SchemaVersion : Z;
  ed_ExportedAt : Time;
  ed_Works : list exportWork;
  ed_Editions : list exportEdition;
}.

Definition export_work (p : ExportProgress) : exportWork :=
  mkExportWork (ep_WorkID p)
    (mkWireProgress (ep_Percentage p) (ep_Epoch p)
       (match ep_PrecisePosEdID p, ep_PrecisePosCFI p with
        | Some e, Some c => Some (mkWirePosition e c)
        | _, _ => None
        end) (ep_ObservedAt p)).

Definition mark_bookmark (m : ExportMark) : wireBookmark :=
  mkWireBookmark (em_ID m) (em_EditionID m) (em_StartCFI m) (em_Label m) (em_CreatedAt m).
Definition mark_highlight (m : ExportMark) : wireHighlight :=
  mkWireHighlight (em_ID m) (em_EditionID m) (em_StartCFI m) (em_EndCFI m) (em_Note m) (em_Category m)
    (em_CreatedAt m).

(** The edition a mark goes to, with the mark. *)
Definition add_mark (m : ExportMark) (e : exportEdition) : exportEdition :=
  if String.eqb (em_Kind m) "bookmark" then
    mkExportEdition (ee_EditionID e) (ee_Bookmarks e ++ [mark_bookmark m]) (ee_Highlights e)
  else if String.eqb (em_Kind m) "highlight" then
    mkExportEdition (ee_EditionID e) (ee_Bookmarks e) (ee_Highlights e ++ [mark_highlight m])
  else e.

(** One turn of the loop over the marks: [byEdition] and [order]. *)
Definition group_mark (acc : gmap string exportEdition * list string) (m : ExportMark)
    : gmap string exportEdition * list string :=
  let '(byEdition, order) := acc in
  match byEdition !! em_EditionID m with
  | Some e => (<[em_EditionID m := add_mark m e]> byEdition, order)
  | None =>
      (<[em_EditionID m := add_mark m (mkExportEdition (em_EditionID m) [] [])]> byEdition,
       order ++ [em_EditionID m])
  end.

Definition buildExportDoc (exportedAt : Time) (progress : list ExportProgress) (marks : list ExportMark)
    : exportDoc :=
  let '(byEdition, order) := fold_left group_mark marks (∅, []) in
  mkExportDoc exportSchemaVersion exportedAt (export_work <$> progress)
    (omap (fun id => byEdition !! id) (sort_by String.leb order)).

Section export.
(** [json.Marshal] of the document. *)
Context (marshal : exportDoc -> option string).

(** [writeJSONCapped]. *)
Definition writeJSONCapped (body : exportDoc) (maxBytes : Z) : readingH string :=
  match marshal body with
  | None => throw (HTTPError Internal "could not assemble the export document")
  | Some raw =>
      if maxBytes <? len raw then
        throw (HTTPError Internal "the export is too large; retry with ?workId= to scope it")
      else mret raw
  end.

Definition ReadingExportHandler (deps : option ReadingAPI) (su : surroundings) (ctx : context)
    (workID : string) : readingH string :=
  deps ← readingDeps deps;
  if negb (ra_Export deps) then throw (HTTPError Unavailable "export is not available")
  else
    '(userID, libID) ← readingScope ctx;
    _ ← (if String.eqb workID "" then mret tt
         else match ValidateBoundedText "workId" workID 200 with
         | Err err => bad_request (Error err)
         | _ =>
             exists_ ← or_domain (WorkExists (su_fault su 0%nat) workID);
             if (exists_ : bool) then mret tt else throw (HTTPError NotFound "no work with that id")
         end);
    rawProgress ← or_domain (ListProgress (su_fault su 1%nat) userID libID workID);
    rawMarks ← or_domain (ListMarks (su_fault su 2%nat) userID libID workID);
    writeJSONCapped (buildExportDoc (su_now su) rawProgress rawMarks) exportMaxBytes.
End export.

(** ** The routes *)

Inductive reading_request :=
| GetProgress (workID : WorkID)
| PostProgress (workID : WorkID) (req : option wireProgressReport)
| ListBookmarks (editionID : EditionID)
| PostBookmark (editionID : EditionID) (req : option BookmarkRequest)
| DeleteBookmark (id : BookmarkID)
| ListHighlights (editionID : EditionID)
| PostHighlight (editionID : EditionID) (req : option HighlightRequest)
| PatchHighlight (id : HighlightID) (req : option NoteRequest)
| DeleteHighlight (id : HighlightID)
| GetPreferences
| PutPreferences (req : option wirePreferences)
| GetExport (workID : string).

Inductive reading_response :=
| ProgressBody (p : option wireReadingProgress)
| ReportBody (p : wireReadingProgress) (outcome : ReconcileOutcome)
| BookmarksBody (l : list wireBookmark)
| BookmarkBody (b : wireBookmark)
| HighlightsBody (l : list wireHighlight)
| HighlightBody (h : wireHighlight)
| PreferencesBody (p : wirePreferences)
| ExportBody (raw : string)
| NoContent.

Section serve.
Context `{FloatText} (marshal : exportDoc -> option string) (deps : option ReadingAPI).

Definition answer {A} (f : A -> reading_response) (m : readingH A) : readingH reading_response :=
  a ← m; mret (f a).

(** A request with its [X-Device-Id] header, in the context of the access
    middleware. *)
Definition serve_reading (su : surroundings) (ctx : context) (header : string) (r : reading_request)
    : readingH reading_response :=
  match r with
  | GetProgress w => answer ProgressBody (ReadingProgressGetHandler deps su ctx w)
  | PostProgress w req =>
      answer (fun po => ReportBody po.1 po.2) (ReadingProgressReportHandler deps su ctx header w req)
  | ListBookmarks e => answer BookmarksBody (ReadingBookmarksListHandler deps su ctx e)
  | PostBookmark e req => answer BookmarkBody (ReadingBookmarkCreateHandler deps su ctx header e req)
  | DeleteBookmark id => answer (fun _ => NoContent) (ReadingBookmarkDeleteHandler deps su ctx header id)
  | ListHighlights e => answer HighlightsBody (ReadingHighlightsListHandler deps su ctx e)
  | PostHighlight e req => answer HighlightBody (ReadingHighlightCreateHandler deps su ctx header e req)
  | PatchHighlight id req => answer HighlightBody (ReadingHighlightPatchHandler deps su ctx header id req)
  | DeleteHighlight id => answer (fun _ => NoContent) (ReadingHighlightDeleteHandler deps su ctx header id)
  | GetPreferences => answer PreferencesBody (ReadingPreferencesGetHandler deps su ctx header)
  | PutPreferences req => answer PreferencesBody (ReadingPreferencesPutHandler deps su ctx header req)
  | GetExport w => answer ExportBody (ReadingExportHandler marshal deps su ctx w)
  end.
End serve.
