(* ===== verification/ReadingPrivacy.v ===== *)
(** * Reading data is private to its owner

    A request of one account neither depends on nor changes what belongs to
    another: the answer is the same whatever the rows of the others are, and
    those rows are the same afterwards. *)

From S2P Require Import Prelude GoStrings Floats Errors Validate Catalog Transactor Progress Postgres Http Pairing PairingStore Cfi Sync Identity Encoding Tokens Totp AuthStore AuthHandlers Access ReadingStore Reading.

Local Open Scope string_scope.
Local Open Scope list_scope.
Local Open Scope Z_scope.

(** ** Whose rows *)

(** The rows of one account, and those of the others. *)
Definition mine {A} (u : UserID) (t : gmap string (sync_row A)) : gmap string (sync_row A) :=
  filter (fun kr => owned_by u kr.2 = true) t.
Definition theirs {A} (u : UserID) (t : gmap string (sync_row A)) : gmap string (sync_row A) :=
  filter (fun kr => owned_by u kr.2 = false) t.
Definition my_preferences (u : UserID) (t : gmap (string * string) (gmap string string)) :=
  filter (fun kr => kr.1.1 = u) t.
Definition their_preferences (u : UserID) (t : gmap (string * string) (gmap string string)) :=
  filter (fun kr => kr.1.1 <> u) t.

(** The identifier of a new row is not taken by somebody else. *)
Definition id_free (u : UserID) (id : string) (db : reading_db) : Prop :=
  theirs u (progress_table db) !! id = None /\ theirs u (bookmarks db) !! id = None /\
  theirs u (highlights db) !! id = None.

(** The catalogue and the library, which all accounts read. *)
Definition same_catalogue (db1 db2 : reading_db) : Prop :=
  library_entries db1 = library_entries db2 /\ edition_works db1 = edition_works db2 /\
  known_works db1 = known_works db2 /\ known_libraries db1 = known_libraries db2.

(** Two databases that the account cannot tell apart. *)
Definition same_view (u : UserID) (db1 db2 : reading_db) : Prop :=
  mine u (progress_table db1) = mine u (progress_table db2) /\
  mine u (bookmarks db1) = mine u (bookmarks db2) /\
  mine u (highlights db1) = mine u (highlights db2) /\
  my_preferences u (preferences db1) = my_preferences u (preferences db2) /\
  same_catalogue db1 db2.

(** Two databases that differ only in what the account owns. *)
Definition same_others (u : UserID) (db1 db2 : reading_db) : Prop :=
  theirs u (progress_table db1) = theirs u (progress_table db2) /\
  theirs u (bookmarks db1) = theirs u (bookmarks db2) /\
  theirs u (highlights db1) = theirs u (highlights db2) /\
  their_preferences u (preferences db1) = their_preferences u (preferences db2) /\
  same_catalogue db1 db2.

#[export] Instance same_view_equiv u : Equivalence (same_view u).
Proof.
  unfold same_view, same_catalogue. split.
  - intros db. done.
  - intros db1 db2 H. destruct_and! H. conjuncts; by symmetry.
  - intros db1 db2 db3 H1 H2. destruct_and! H1. destruct_and! H2. conjuncts; by etrans.
Qed.

#[export] Instance same_others_equiv u : Equivalence (same_others u).
Proof.
  unfold same_others, same_catalogue. split.
  - intros db. done.
  - intros db1 db2 H. destruct_and! H. conjuncts; by symmetry.
  - intros db1 db2 db3 H1 H2. destruct_and! H1. destruct_and! H2. conjuncts; by etrans.
Qed.

(** What an account's rows determine *)
Section tables.
Context {A : Type} (u : UserID).
Implicit Types (t : gmap string (sync_row A)) (r : sync_row A).

Lemma lookup_mine t k r : mine u t !! k = Some r <-> t !! k = Some r /\ owned_by u r = true.
Proof. apply map_lookup_filter_Some. Qed.
Lemma lookup_theirs t k r : theirs u t !! k = Some r <-> t !! k = Some r /\ owned_by u r = false.
Proof. apply map_lookup_filter_Some. Qed.

Lemma theirs_None t k :
  theirs u t !! k = None <-> forall r, t !! k = Some r -> owned_by u r = true.
Proof.
  unfold theirs. rewrite map_lookup_filter_None. split.
  - intros [H|H] r Hr; [congruence|]. specialize (H r Hr). simpl in H. by destruct (owned_by u r).
  - intros H. right. intros r Hr. simpl. by rewrite (H r Hr).
Qed.

(** A row of the account looks the same in both. *)
Lemma mine_lookup t1 t2 k :
  mine u t1 = mine u t2 ->
  (r ← t1 !! k; if owned_by u r then Some r else None) =
  (r ← t2 !! k; if owned_by u r then Some r else None).
Proof.
  assert (forall t, (r ← t !! k; if owned_by u r then Some r else None) = mine u t !! k) as E.
  { intros t. unfold mine. rewrite map_lookup_filter. destruct (t !! k) as [r|]; [|done]. simpl.
    by destruct (owned_by u r). }
  intros H. by rewrite !E, H.
Qed.

Lemma free_lookup t1 t2 k :
  mine u t1 = mine u t2 -> theirs u t1 !! k = None -> theirs u t2 !! k = None -> t1 !! k = t2 !! k.
Proof.
  intros H H1 H2. rewrite theirs_None in *.
  assert (forall t, (forall r, t !! k = Some r -> owned_by u r = true) -> t !! k = mine u t !! k) as E.
  { intros t Ht. unfold mine. rewrite map_lookup_filter. destruct (t !! k) as [r|]; [|done]. simpl.
    by rewrite (Ht r eq_refl). }
  by rewrite (E t1), (E t2), H.
Qed.

Lemma mine_insert t1 t2 k r :
  mine u t1 = mine u t2 -> owned_by u r = true -> mine u (<[k := r]> t1) = mine u (<[k := r]> t2).
Proof. intros H Hr. unfold mine in *. by rewrite !map_filter_insert_True, H. Qed.
Lemma mine_delete t1 t2 k :
  mine u t1 = mine u t2 -> mine u (delete k t1) = mine u (delete k t2).
Proof. intros H. unfold mine in *. by rewrite !map_filter_delete, H. Qed.

Lemma theirs_insert t k r :
  theirs u t !! k = None -> owned_by u r = true -> theirs u (<[k := r]> t) = theirs u t.
Proof.
  intros Hk Hr. unfold theirs in *. rewrite map_filter_insert_False by (simpl; by rewrite Hr).
  by rewrite map_filter_delete, delete_id.
Qed.
Lemma theirs_delete t k : theirs u t !! k = None -> theirs u (delete k t) = theirs u t.
Proof. intros Hk. unfold theirs in *. by rewrite map_filter_delete, delete_id. Qed.
Lemma owned_not_theirs t k r : t !! k = Some r -> owned_by u r = true -> theirs u t !! k = None.
Proof. intros Hk Hr. apply theirs_None. intros r' Hr'. congruence. Qed.

(** Conditions on the owner only see the account's rows. *)
Lemma select_mine p t1 t2 :
  mine u t1 = mine u t2 -> (forall k r, p k r = true -> owned_by u r = true) ->
  select p t1 = select p t2.
Proof.
  intros H Hp. rewrite (select_filter p (owned_by u) t1), (select_filter p (owned_by u) t2) by done.
  unfold mine in H. by rewrite H.
Qed.
End tables.

Lemma scope_owned {A} u l (r : sync_row A) : in_scope u l r = true -> owned_by u r = true.
Proof. unfold in_scope. by intros [? _]%andb_true_iff. Qed.

Lemma owned_inserted {A} st u l (c : A) : owned_by u (inserted st u l c) = true.
Proof. by apply bool_decide_eq_true. Qed.
Lemma owned_updated {A} st u l (c : A) : owned_by u (updated st (owner_of u) l c) = true.
Proof. by apply bool_decide_eq_true. Qed.

(** ** The statements *)

Section statements.
Context (u : UserID) (Hu : u <> "") (id : string).

(** Two stores between which a request of [u] that may create a row [id]
    cannot tell. *)
Definition view (db1 db2 : reading_db) : Prop :=
  same_view u db1 db2 /\ id_free u id db1 /\ id_free u id db2.

(** What a request of [u] may do to a store. *)
Definition confined (db db' : reading_db) : Prop :=
  id_free u id db -> same_others u db db' /\ id_free u id db'.

#[export] Instance confined_preorder : PreOrder confined.
Proof.
  split.
  - intros db H. by split.
  - intros db1 db2 db3 H1 H2 Hf. destruct (H1 Hf) as [Hs Hf']. destruct (H2 Hf') as [Hs' Hf''].
    split; [by etrans|done].
Qed.

Definition private {E A} (m : stM reading_db E A) : Prop := respects view m /\ always confined m.

Lemma private_ret {E A} (a : A) : private (mret a : stM reading_db E A).
Proof. split; [apply respects_ret|apply always_ret; typeclasses eauto]. Qed.
Lemma private_throw {E A} (e : E) : private (throw e : stM reading_db E A).
Proof. split; [apply respects_throw|apply always_throw; typeclasses eauto]. Qed.
Lemma private_bind {E A B} (m : stM reading_db E A) (f : A -> stM reading_db E B) :
  private m -> (forall a, private (f a)) -> private (m ≫= f).
Proof.
  intros [H1 H2] Hf. split; [apply respects_bind|apply always_bind]; try done; try typeclasses eauto;
    intros a; apply Hf.
Qed.
Lemma private_attempt {A} (m : readingM A) : private m -> private (attempt m).
Proof. intros [H1 H2]. split; [by apply respects_attempt|by apply always_attempt]. Qed.
Lemma private_or_domain {A} (m : readingM A) : private m -> private (or_domain m).
Proof.
  intros Hm. unfold or_domain, or_fail. apply private_bind; [by apply private_attempt|].
  intros []; [apply private_ret|apply private_throw..].
Qed.
Lemma private_constant {E A} (r : res E A) : private (reading (fun _ : reading_db => r)).
Proof. split; [by apply respects_reading|apply always_reading; typeclasses eauto]. Qed.

(** A statement: its effect is the same in both stores, and confined. *)
Lemma private_exec {A} fault (f : reading_db -> res pg_error (A * reading_db)) :
  (forall db1 db2, view db1 db2 ->
     match f db1, f db2 with
     | Ok (a1, db1'), Ok (a2, db2') => a1 = a2 /\ same_view u db1' db2'
     | Err e1, Err e2 => e1 = e2
     | OutOfFuel, OutOfFuel => True
     | _, _ => False
     end) ->
  (forall db a db', f db = Ok (a, db') -> confined db db') ->
  private (exec fault f).
Proof.
  intros H1 H2. split; [|apply always_exec; [typeclasses eauto|exact H2]].
  apply respects_exec. intros db1 db2 Hv. specialize (H1 _ _ Hv). destruct Hv as (_ & F1 & F2).
  destruct (f db1) as [[a1 db1']|e1|] eqn:E1, (f db2) as [[a2 db2']|e2|] eqn:E2; try done.
  destruct H1 as [-> Hs]. split; [done|]. split; [done|].
  split; [by apply (H2 _ _ _ E1)|by apply (H2 _ _ _ E2)].
Qed.

Lemma private_query {A} fault (f : reading_db -> A) :
  (forall db1 db2, same_view u db1 db2 -> f db1 = f db2) -> private (exec fault (fun db => Ok (f db, db))).
Proof.
  intros Hf. apply private_exec.
  - intros db1 db2 [Hv _]. auto.
  - by intros db a db' [= _ <-].
Qed.

Lemma private_query_one {A} fault msg (f : reading_db -> option A) :
  (forall db1 db2, same_view u db1 db2 -> f db1 = f db2) -> private (query_one fault msg f).
Proof.
  intros Hf. apply private_bind; [by apply private_query|].
  intros []; [apply private_ret|apply private_throw].
Qed.

Lemma private_affecting msg m : private m -> private (affecting msg m).
Proof. intros Hm. apply private_bind; [done|]. intros n. destruct (_ =? _); [apply private_throw|apply private_ret]. Qed.
End statements.

Create HintDb private.
#[export] Hint Resolve private_ret private_throw private_bind private_attempt private_or_domain
  private_constant private_affecting : private.

Section statements.
Context (u : UserID) (Hu : u <> "") (id : string).
Abbreviation private := (private u id).

Lemma private_findByWork f l w : private (findByWork f u l w).
Proof.
  apply private_bind.
  - apply private_query_one. intros db1 db2 (Hp & _). f_equal. apply (select_mine u); [done|].
    intros k r [_ ?]%andb_true_iff. by eapply scope_owned.
  - intros [k r]. destruct (NewPercentage _); [apply private_ret|apply private_throw|].
    split; [by intros db1 db2|]. intros db. reflexivity.
Qed.

(** The unique index compares the rows of one account. *)
Lemma unique_mine k r db :
  owned_by u r = true ->
  progress_unique k r db =
  bool_decide (map_Forall (fun k' q => k' <> k -> index_key q <> index_key r) (mine u (progress_table db))).
Proof.
  intros Hr. apply bool_decide_ext. split; intros H k' q.
  - intros [Hq _]%lookup_mine. by apply H.
  - intros Hq Hne E. refine (H k' q _ Hne E). apply lookup_mine. split; [done|].
    unfold owned_by in *. apply bool_decide_eq_true in Hr. apply bool_decide_eq_true.
    injection E as E _ _. rewrite Hr in E. unfold owner_of in *. apply String.eqb_neq in Hu. rewrite Hu in *.
    simpl in E. destruct (sy_user q); simpl in E; [by subst|]. by subst.
Qed.

(** A save under an identifier nobody else has. *)
Lemma keys_same r db1 db2 : same_catalogue db1 db2 -> progress_keys r db1 = progress_keys r db2.
Proof.
  intros (_ & Ee & Ew & El). unfold progress_keys, library_known, edition_known. by rewrite Ee, Ew, El.
Qed.

Definition free_progress (k : string) (db : reading_db) : Prop :=
  theirs u (progress_table db) !! k = None.

Lemma id_free_progress db t :
  theirs u t = theirs u (progress_table db) -> id_free u id db -> id_free u id (set_progress t db).
Proof. intros E (H1 & H2 & H3). unfold id_free. simpl. by rewrite E. Qed.

Lemma save_confined f st l p db :
  free_progress (rp_id p) db -> confined u id db (SaveProgressForUser f st u l p db).2.
Proof.
  intros Hf Hid. unfold SaveProgressForUser, exec. destruct f; [by split|].
  set (row := match progress_table db !! rp_id p with Some _ => _ | None => _ end).
  assert (owned_by u row = true) as Hrow.
  { unfold row. destruct (progress_table db !! rp_id p); [apply owned_updated|apply owned_inserted]. }
  destruct (negb (progress_unique _ _ _)); [by split|]. destruct (negb (progress_keys _ _)); [by split|].
  simpl. pose proof (theirs_insert u _ _ _ Hf Hrow) as E. split.
  - unfold same_others, same_catalogue. simpl. by rewrite E.
  - by apply id_free_progress.
Qed.

Lemma save_respects f st l p db1 db2 :
  view u id db1 db2 -> free_progress (rp_id p) db1 -> free_progress (rp_id p) db2 ->
  (SaveProgressForUser f st u l p db1).1 = (SaveProgressForUser f st u l p db2).1 /\
  view u id (SaveProgressForUser f st u l p db1).2 (SaveProgressForUser f st u l p db2).2.
Proof.
  intros Hv F1 F2. enough ((SaveProgressForUser f st u l p db1).1 = (SaveProgressForUser f st u l p db2).1 /\
    same_view u (SaveProgressForUser f st u l p db1).2 (SaveProgressForUser f st u l p db2).2) as [Hr Hs].
  { destruct Hv as (_ & I1 & I2). split; [done|]. split; [done|].
    split; [by apply (save_confined f st l p db1)|by apply (save_confined f st l p db2)]. }
  destruct Hv as ((Ep & Eb & Eh & Epr & Ec) & _ & _).
  unfold SaveProgressForUser, exec. destruct f; [done|].
  rewrite (free_lookup u (progress_table db1) (progress_table db2)) by done.
  set (row := match progress_table db2 !! rp_id p with Some _ => _ | None => _ end).
  assert (owned_by u row = true) as Hrow.
  { unfold row. destruct (progress_table db2 !! rp_id p); [apply owned_updated|apply owned_inserted]. }
  rewrite !unique_mine, Ep, (keys_same row db1 db2) by done.
  destruct (negb (bool_decide _)); [done|]. destruct (negb (progress_keys _ _)); [done|].
  simpl. split; [done|]. unfold same_view. simpl. by rewrite (mine_insert u _ (progress_table db2)).
Qed.

(** What the store answers with is a row of the account. *)
Lemma found_free f l w db p :
  (findByWork f u l w db).1 = Ok p -> free_progress (rp_id p) db.
Proof.
  unfold findByWork, query_one, mbind, stM_bind, exec. destruct f; [done|]. simpl.
  destruct (head _) as [[k r]|] eqn:E; simpl; [|done].
  destruct (NewPercentage _); simpl; [|done..]. intros [= <-]. simpl.
  apply head_Some_elem_of in E. apply elem_of_select in E as [Hk Hp]. simpl in *.
  apply andb_true_iff in Hp as [_ Hp]. by eapply owned_not_theirs, scope_owned.
Qed.

(** The writes of the reconcile transaction. *)
Lemma writing_stored {B} f st l p (b : B) db :
  ((_ ← writing (stored (SaveProgressForUser f st u l p)); mret b) : stM reading_db error B) db
  = ((_ ← SaveProgressForUser f st u l p; mret b) : stM reading_db error B) db.
Proof.
  unfold mbind, stM_bind, writing, stored, SaveProgressForUser, exec. destruct f; [done|].
  destruct (negb (progress_unique _ _ _)); [done|]. by destruct (negb (progress_keys _ _)).
Qed.

Lemma save_then {B} f st l p (b : B) db1 db2 (m := (_ ← SaveProgressForUser f st u l p; mret b) : stM reading_db error B) :
  view u id db1 db2 -> free_progress (rp_id p) db1 -> free_progress (rp_id p) db2 ->
  (m db1).1 = (m db2).1 /\ view u id (m db1).2 (m db2).2.
Proof.
  intros Hv F1 F2. destruct (save_respects f st l p db1 db2 Hv F1 F2) as [Hr Hv'].
  unfold m, mbind, stM_bind. destruct (SaveProgressForUser _ _ _ _ _ db1) as [r1 s1],
    (SaveProgressForUser _ _ _ _ _ db2) as [r2 s2]. simpl in *. subst. by destruct r2.
Qed.

Lemma save_then_confined {B} f st l p (b : B) db (m := (_ ← SaveProgressForUser f st u l p; mret b) : stM reading_db error B) :
  free_progress (rp_id p) db -> confined u id db (m db).2.
Proof.
  intros Hf. pose proof (save_confined f st l p db Hf) as H. unfold m, mbind, stM_bind.
  destruct (SaveProgressForUser _ _ _ _ _ db) as [[]]; done.
Qed.

Section report.
Context (ff fs : option pg_error) (st : stamp) (l : LibraryID) (report : ProgressReport) (override : bool).
#[local] Instance store : ProgressStore reading_db := progressStore ff fs st u l.
Abbreviation body := (reconcile_and_persist id report override).

(** The transaction's body: a read, then at most one save. *)
Lemma body_shape db :
  (exists r, body db = (r, db) /\
     forall db', (findByWork ff u l (pr_WorkID report) db').1 = (findByWork ff u l (pr_WorkID report) db).1 ->
       body db' = (r, db')) \/
  (exists p out, body db = ((_ ← SaveProgressForUser fs st u l p; mret (p, out)) : stM reading_db error _) db /\
     (forall db', (findByWork ff u l (pr_WorkID report) db').1 = (findByWork ff u l (pr_WorkID report) db).1 ->
       body db' = ((_ ← SaveProgressForUser fs st u l p; mret (p, out)) : stM reading_db error _) db') /\
     (rp_id p = id \/ exists q, (findByWork ff u l (pr_WorkID report) db).1 = Ok q /\ rp_id q = rp_id p)).
Proof.
  unfold reconcile_and_persist.
  change (FindByWorkForUpdate (pr_WorkID report)) with (fun db => (findByWork ff u l (pr_WorkID report) db).1).
  cbv beta. destruct (findByWork ff u l (pr_WorkID report) db).1 as [cur|e|] eqn:E.
  - destruct override.
    + right. set (next := OverrideProgress _ _ _ _ _). exists next, ReconcileOverridden.
      split; [apply writing_stored|]. split; [intros db' ->; apply writing_stored|].
      right. by exists cur.
    + set (r := ReconcileProgress cur report). destruct (bool_decide (Outcome r = ReconcileAdvanced)) eqn:Eo.
      * right. exists (Progress r), (Outcome r). split; [apply writing_stored|].
        split; [intros db' ->; fold r; rewrite Eo; apply writing_stored|].
        right. exists cur. split; [done|]. symmetry. apply reconcile_keeps.
      * left. eexists. split; [done|]. intros db' ->. fold r. by rewrite Eo.
  - destruct (bool_decide (CategoryOf e = NotFound)) eqn:Ec.
    + right. exists (FirstProgress id report), ReconcileAdvanced. split; [apply writing_stored|].
      split; [intros db' ->; rewrite Ec; apply writing_stored|]. by left.
    + left. eexists. split; [done|]. intros db' ->. by rewrite Ec.
  - left. eexists. split; [done|]. by intros db' ->.
Qed.

Lemma body_private : private body.
Proof.
  assert (forall db p, id_free u id db ->
    (rp_id p = id \/ exists q, (findByWork ff u l (pr_WorkID report) db).1 = Ok q /\ rp_id q = rp_id p) ->
    free_progress (rp_id p) db) as Hfree.
  { intros db p (Hf & _) [->|(q & Hq & <-)]; [done|by eapply found_free]. }
  destruct (private_findByWork ff l (pr_WorkID report)) as [Hfr _].
  split.
  - intros db1 db2 Hv. destruct (Hfr _ _ Hv) as [Hr _]. pose proof Hv as (_ & I1 & I2).
    destruct (body_shape db1) as [(r & E & Hsame)|(p & out & E & Hsame & Hp)]; rewrite E, (Hsame db2) by done.
    + done.
    + apply save_then; [done|by apply Hfree|]. apply Hfree; [done..|]. by rewrite <- Hr.
  - intros db Hid. destruct (body_shape db) as [(r & E & _)|(p & out & E & _ & Hp)]; rewrite E; [by split|].
    apply save_then_confined; [|done]. by apply Hfree.
Qed.

Lemma private_ReportProgress tx : private (ReportProgress tx id report override).
Proof.
  destruct body_private as [Hr Hc]. unfold ReportProgress. split.
  - intros db1 db2 Hv. destruct (Hr _ _ Hv) as [E Hv']. unfold InTx.
    destruct (begin_error tx); [done|]. destruct (body db1) as [r1 s1], (body db2) as [r2 s2].
    simpl in *. subst r2. destruct r1; [|done..]. by destruct (commit_error tx).
  - intros db. specialize (Hc db). unfold InTx. destruct (begin_error tx); [simpl; reflexivity|].
    destruct (body db) as [[] s1]; [|simpl; reflexivity..]. destruct (commit_error tx); [simpl; reflexivity|done].
Qed.
End report.

(** *** Bookmarks and highlights *)

Local Ltac view_of Hv :=
  let Ep := fresh "Ep" in let Eb := fresh "Eb" in let Eh := fresh "Eh" in let Er := fresh "Er" in
  let En := fresh "En" in let Ee := fresh "Ee" in let Ew := fresh "Ew" in let El := fresh "El" in
  destruct Hv as (Ep & Eb & Eh & Er & En & Ee & Ew & El).

(** The rows of the account that a condition selects, in an order. *)
Local Ltac mine_select :=
  match goal with
  | |- select _ _ = select _ _ =>
      apply (select_mine u); [done|]; intros ? ?; rewrite ?andb_true_iff; intros; destruct_and?;
      by eapply scope_owned
  end.

Lemma private_FindBookmark f b : private (FindBookmarkByIDAndUser f u b).
Proof.
  apply private_bind; [|intros; apply private_ret]. apply private_query_one. intros db1 db2 Hv.
  view_of Hv. by apply mine_lookup.
Qed.
Lemma private_FindHighlight f h : private (FindHighlightByIDAndUser f u h).
Proof.
  apply private_bind; [|intros; apply private_ret]. apply private_query_one. intros db1 db2 Hv.
  view_of Hv. by apply mine_lookup.
Qed.

Lemma private_ListBookmarks f l e : private (FindBookmarksByEditionAndUser f u l e).
Proof.
  apply private_bind; [|intros; apply private_ret]. apply private_query. intros db1 db2 Hv.
  view_of Hv. f_equal. mine_select.
Qed.
Lemma private_ListHighlights f l e : private (FindHighlightsByEditionAndUser f u l e).
Proof.
  apply private_bind; [|intros; apply private_ret]. apply private_query. intros db1 db2 Hv.
  view_of Hv. f_equal. mine_select.
Qed.

Lemma private_SaveBookmark f st l b : b_id b = id -> private (SaveBookmarkForUser f st u l b).
Proof.
  intros <-. apply private_exec.
  - intros db1 db2 (Hv & (_ & F1 & _) & (_ & F2 & _)). view_of Hv.
    rewrite (free_lookup u (bookmarks db1) (bookmarks db2)) by done.
    set (row := match bookmarks db2 !! b_id b with Some _ => _ | None => _ end).
    cbv zeta. unfold edition_known, library_known. rewrite Ee, El. destruct (_ && _); [|done].
    split; [done|]. unfold same_view. simpl. conjuncts. apply mine_insert; [done|].
    unfold row. case_match; (apply owned_updated || apply owned_inserted).
  - intros db a db'. set (row := match bookmarks db !! b_id b with Some _ => _ | None => _ end).
    intros E. cbv zeta in E. destruct (edition_known _ _ && _); [|discriminate E]. injection E as _ <-. intros (F1 & F2 & F3).
    assert (theirs u (<[b_id b := row]> (bookmarks db)) = theirs u (bookmarks db)) as Et.
    { apply theirs_insert; [done|]. unfold row. case_match; (apply owned_updated || apply owned_inserted). }
    unfold same_others, id_free. simpl. by rewrite Et.
Qed.

Lemma private_SaveHighlight f st l h : h_id h = id -> private (SaveHighlightForUser f st u l h).
Proof.
  intros <-. apply private_exec.
  - intros db1 db2 (Hv & (_ & _ & F1) & (_ & _ & F2)). view_of Hv.
    rewrite (free_lookup u (highlights db1) (highlights db2)) by done.
    set (row := match highlights db2 !! h_id h with Some _ => _ | None => _ end).
    cbv zeta. unfold edition_known, library_known. rewrite Ee, El. destruct (_ && _); [|done].
    split; [done|]. unfold same_view. simpl. conjuncts. apply mine_insert; [done|].
    unfold row. case_match; (apply owned_updated || apply owned_inserted).
  - intros db a db'. set (row := match highlights db !! h_id h with Some _ => _ | None => _ end).
    intros E. cbv zeta in E. destruct (edition_known _ _ && _); [|discriminate E]. injection E as _ <-. intros (F1 & F2 & F3).
    assert (theirs u (<[h_id h := row]> (highlights db)) = theirs u (highlights db)) as Et.
    { apply theirs_insert; [done|]. unfold row. case_match; (apply owned_updated || apply owned_inserted). }
    unfold same_others, id_free. simpl. by rewrite Et.
Qed.

Lemma private_DeleteBookmark f b : private (DeleteBookmarkAndUser f u b).
Proof.
  apply private_affecting, private_exec.
  - intros db1 db2 [Hv _]. view_of Hv. pose proof (mine_lookup u _ _ b Eb) as E.
    destruct (bookmarks db1 !! b) as [r1|], (bookmarks db2 !! b) as [r2|]; simpl in E;
      repeat match goal with |- context [owned_by u ?r] => destruct (owned_by u r) end;
      try discriminate E; split; try done; unfold same_view; simpl; conjuncts.
    by apply mine_delete.
  - intros db a db'. destruct (bookmarks db !! b) as [r|] eqn:E; [|by intros [= _ <-]].
    destruct (owned_by u r) eqn:Er; intros [= _ <-]; [|done]. intros (F1 & F2 & F3).
    pose proof (theirs_delete u _ _ (owned_not_theirs _ _ _ _ E Er)) as Ed.
    unfold same_others, id_free. simpl. by rewrite Ed.
Qed.

Lemma private_DeleteHighlight f h : private (DeleteHighlightAndUser f u h).
Proof.
  apply private_affecting, private_exec.
  - intros db1 db2 [Hv _]. view_of Hv. pose proof (mine_lookup u _ _ h Eh) as E.
    destruct (highlights db1 !! h) as [r1|], (highlights db2 !! h) as [r2|]; simpl in E;
      repeat match goal with |- context [owned_by u ?r] => destruct (owned_by u r) end;
      try discriminate E; split; try done; unfold same_view; simpl; conjuncts.
    by apply mine_delete.
  - intros db a db'. destruct (highlights db !! h) as [r|] eqn:E; [|by intros [= _ <-]].
    destruct (owned_by u r) eqn:Er; intros [= _ <-]; [|done]. intros (F1 & F2 & F3).
    pose proof (theirs_delete u _ _ (owned_not_theirs _ _ _ _ E Er)) as Ed.
    unfold same_others, id_free. simpl. by rewrite Ed.
Qed.

Lemma private_UpdateNote f st h n c : private (UpdateNoteCategoryAndUser f st u h n c).
Proof.
  apply private_affecting, private_exec.
  - intros db1 db2 [Hv _]. view_of Hv. pose proof (mine_lookup u _ _ h Eh) as E.
    destruct (highlights db1 !! h) as [r1|], (highlights db2 !! h) as [r2|]; simpl in E;
      repeat match goal with |- context [owned_by u ?r] => destruct (owned_by u r) eqn:? end;
      try discriminate E; split; try done; unfold same_view; simpl; conjuncts.
    injection E as ->. by apply mine_insert.
  - intros db a db'. destruct (highlights db !! h) as [r|] eqn:E; [|by intros [= _ <-]].
    destruct (owned_by u r) eqn:Er; intros [= _ <-]; [|done]. intros (F1 & F2 & F3).
    pose proof (theirs_insert u _ h (updated st (sy_user r) (sy_library r) (with_note n c (sy_cols r)))
                  (owned_not_theirs _ _ _ _ E Er) Er) as Ed.
    unfold same_others, id_free. simpl. by rewrite Ed.
Qed.

(** *** Preferences, export, library *)

Lemma private_FindPreferences f d : private (FindPreferencesByUserAndDevice f u d).
Proof.
  apply private_bind; [|intros; apply private_ret]. apply private_query_one. intros db1 db2 Hv.
  view_of Hv.
  assert (forall t : gmap (string * string) (gmap string string), t !! (u, d) = my_preferences u t !! (u, d)) as E.
  { intros t. unfold my_preferences. rewrite map_lookup_filter. destruct (t !! (u, d)); [|done].
    simpl. by rewrite option_guard_True. }
  by rewrite E, (E (preferences db2)), Er.
Qed.

Lemma private_SavePreferences f p : private (SavePreferencesForUser f u p).
Proof.
  apply private_exec.
  - intros db1 db2 [Hv _]. view_of Hv. split; [done|]. unfold same_view. simpl. conjuncts.
    unfold my_preferences in *. by rewrite !map_filter_insert_True, Er.
  - intros db a db' [= _ <-] F. split; [|done]. unfold same_others. simpl. conjuncts.
    unfold their_preferences. rewrite map_filter_insert_False by (simpl; auto).
    rewrite map_filter_delete, delete_id; [done|]. apply map_lookup_filter_None. right. intros r _. simpl. auto.
Qed.

Lemma private_ListProgress f l w : private (ListProgress f u l w).
Proof. apply private_query. intros db1 db2 Hv. view_of Hv. do 2 f_equal. mine_select. Qed.

Lemma private_ListMarks f l w : private (ListMarks f u l w).
Proof.
  apply private_query. intros db1 db2 Hv. view_of Hv. unfold on_work. rewrite Ee.
  do 3 f_equal; mine_select.
Qed.

Lemma private_WorkExists f w : private (WorkExists f w).
Proof. apply private_query. intros db1 db2 Hv. view_of Hv. by rewrite Ew. Qed.
Lemma private_EditionInLibrary f e l : private (EditionInLibrary f e l).
Proof. apply private_query. intros db1 db2 Hv. view_of Hv. by rewrite En. Qed.
Lemma private_WorkInLibrary f w l : private (WorkInLibrary f w l).
Proof. apply private_query. intros db1 db2 Hv. view_of Hv. by rewrite En, Ee. Qed.
End statements.

#[export] Hint Resolve private_findByWork private_FindBookmark private_FindHighlight private_ListBookmarks
  private_ListHighlights private_SaveBookmark private_SaveHighlight private_DeleteBookmark
  private_DeleteHighlight private_UpdateNote private_FindPreferences private_SavePreferences
  private_ListProgress private_ListMarks private_WorkExists private_EditionInLibrary private_WorkInLibrary
  private_ReportProgress : private.

(** ** The handlers *)

Section handlers.
Context `{FloatText} (marshal : exportDoc -> option string) (deps : option ReadingAPI).
Context (u : UserID) (Hu : u <> "") (su : surroundings).
Abbreviation private := (private u (su_newID su)).

Lemma private_checked {A} (r : Result A) : private (checked r).
Proof. unfold checked. auto with private. Qed.
Lemma private_bad_request {A} msg : private (bad_request (A := A) msg).
Proof. unfold bad_request. auto with private. Qed.
Lemma private_body_of {A} (req : option A) : private (body_of req).
Proof. destruct req; [apply private_ret|apply private_bad_request]. Qed.
Lemma private_bounded f s n : private (bounded_or_empty f s n).
Proof.
  unfold bounded_or_empty. destruct (String.eqb s ""); [apply private_ret|].
  destruct (ValidateBoundedText f s n); auto using private_bad_request with private.
Qed.
Lemma private_deps : private (readingDeps deps).
Proof. destruct deps; [apply private_ret|apply private_throw]. Qed.
#[local] Hint Resolve private_checked private_bad_request private_body_of private_bounded private_deps : private.

Lemma private_assert_edition d f e l : private (assertEditionInLibrary d f e l).
Proof.
  unfold assertEditionInLibrary. destruct (negb _); [auto with private|].
  apply private_bind; [auto with private|]. intros []; auto with private.
Qed.
Lemma private_assert_work d f w l : private (assertWorkInLibrary d f w l).
Proof.
  unfold assertWorkInLibrary. destruct (negb _); [auto with private|].
  apply private_bind; [auto with private|]. intros []; auto with private.
Qed.
Lemma private_assert_device d h : private (assertDeviceActive d h u).
Proof.
  unfold assertDeviceActive. destruct (ra_Devices d) as [find|]; [|auto with private].
  destruct (String.eqb _ _); [auto with private|].
  destruct (find _) as [dev|err|]; [|destruct (bool_decide _); auto with private|auto with private].
  destruct (negb _); [auto with private|]. destruct (pd_revokedAt dev); auto with private.
Qed.
Lemma private_position d w pos : private (reported_position d w pos).
Proof.
  destruct pos as [pos|]; [|apply private_ret]. apply private_bind; [auto with private|intros _].
  destruct (String.eqb _ _); [auto with private|]. apply private_bind; auto with private.
Qed.
#[local] Hint Resolve private_assert_edition private_assert_work private_assert_device private_position : private.

(** Step by step through a handler. *)
Local Ltac walk :=
  repeat first
    [ progress (intros; cbv zeta)
    | solve [eauto with private]
    | apply private_bind
    | match goal with
      | |- ReadingPrivacy.private _ _ (if ?b then _ else _) => destruct b
      | |- ReadingPrivacy.private _ _ (match ?x with _ => _ end) => destruct x
      end ].

Context (ctx : context) (user : AuthenticatedUser).
Context (Hctx : ctx_user ctx = Some user) (Huser : au_UserID user = u).

Lemma scope_run : readingScope ctx = mret (u, ActiveLibraryFromContext ctx).
Proof. unfold readingScope. rewrite Hctx, Huser. by apply String.eqb_neq in Hu as ->. Qed.

Lemma private_scoped {A} (f : UserID * LibraryID -> readingH A) :
  private (f (u, ActiveLibraryFromContext ctx)) -> private (readingScope ctx ≫= f).
Proof. rewrite scope_run. done. Qed.

Lemma private_get_progress w : private (ReadingProgressGetHandler deps su ctx w).
Proof.
  apply private_bind; [auto with private|intros _]. destruct (String.eqb w ""); [auto with private|].
  apply private_scoped. walk.
Qed.

Lemma private_post_progress h w req : private (ReadingProgressReportHandler deps su ctx h w req).
Proof.
  apply private_bind; [auto with private|intros d]. destruct (String.eqb w ""); [auto with private|].
  apply private_scoped. walk.
Qed.

Lemma private_list_bookmarks e : private (ReadingBookmarksListHandler deps su ctx e).
Proof. apply private_bind; [auto with private|intros _]. apply private_scoped. walk. Qed.
Lemma private_list_highlights e : private (ReadingHighlightsListHandler deps su ctx e).
Proof. apply private_bind; [auto with private|intros _]. apply private_scoped. walk. Qed.

Lemma private_post_bookmark h e req : private (ReadingBookmarkCreateHandler deps su ctx h e req).
Proof.
  apply private_bind; [auto with private|intros d]. destruct (String.eqb e ""); [auto with private|].
  apply private_scoped. walk.
Qed.
Lemma private_post_highlight h e req : private (ReadingHighlightCreateHandler deps su ctx h e req).
Proof.
  apply private_bind; [auto with private|intros d]. destruct (String.eqb e ""); [auto with private|].
  apply private_scoped. walk.
Qed.

Lemma private_delete_bookmark h b : private (ReadingBookmarkDeleteHandler deps su ctx h b).
Proof. apply private_bind; [auto with private|intros d]. apply private_scoped. walk. Qed.
Lemma private_delete_highlight h b : private (ReadingHighlightDeleteHandler deps su ctx h b).
Proof. apply private_bind; [auto with private|intros d]. apply private_scoped. walk. Qed.
Lemma private_patch_highlight h b req : private (ReadingHighlightPatchHandler deps su ctx h b req).
Proof. apply private_bind; [auto with private|intros d]. apply private_scoped. walk. Qed.

Lemma private_get_preferences h : private (ReadingPreferencesGetHandler deps su ctx h).
Proof.
  apply private_bind; [auto with private|intros _]. apply private_bind; [auto with private|intros _].
  apply private_scoped. walk.
Qed.
Lemma private_put_preferences h req : private (ReadingPreferencesPutHandler deps su ctx h req).
Proof.
  apply private_bind; [auto with private|intros d]. apply private_bind; [auto with private|intros _].
  apply private_scoped. walk.
Qed.

Lemma private_export w : private (ReadingExportHandler marshal deps su ctx w).
Proof.
  apply private_bind; [auto with private|intros d]. destruct (negb _); [auto with private|].
  apply private_scoped. unfold writeJSONCapped. walk.
Qed.

Lemma private_serve h r : private (serve_reading marshal deps su ctx h r).
Proof.
  destruct r; (apply private_bind; [|intros; apply private_ret]);
    eauto using private_get_progress, private_post_progress, private_list_bookmarks, private_list_highlights,
      private_post_bookmark, private_post_highlight, private_delete_bookmark, private_delete_highlight,
      private_patch_highlight, private_get_preferences, private_put_preferences, private_export.
Qed.
End handlers.

(** ** Requests without an account *)

(** Whose request it is: [None] when nobody is signed in. *)
Definition caller (ctx : context) : option UserID :=
  match ctx_user ctx with
  | None => None
  | Some user => if String.eqb (au_UserID user) "" then None else Some (au_UserID user)
  end.

Definition refuses {S E A} (m : stM S E A) : Prop := forall s, is_ok (m s).1 = false /\ (m s).2 = s.

Lemma refuses_throw {S E A} (e : E) : refuses (throw e : stM S E A).
Proof. by intros s. Qed.
Lemma refuses_first {S E A B} (m : stM S E A) (f : A -> stM S E B) : refuses m -> refuses (m ≫= f).
Proof.
  intros Hm s. specialize (Hm s) as [H1 H2]. unfold mbind, stM_bind.
  destruct (m s) as [[a|e|] s1]; simpl in *; by subst.
Qed.
Lemma refuses_then {S E A B} (m : stM S E A) (f : A -> stM S E B) :
  pure m -> (forall a, refuses (f a)) -> refuses (m ≫= f).
Proof.
  intros Hm Hf s. rewrite bind_pure by done. destruct (m s).1; [apply Hf|done..].
Qed.

Section anonymous.
Context `{FloatText} (marshal : exportDoc -> option string) (deps : option ReadingAPI).
Context (su : surroundings) (ctx : context) (Hctx : caller ctx = None).

Lemma refuses_scope : refuses (readingScope ctx).
Proof.
  unfold readingScope. revert Hctx. unfold caller. destruct (ctx_user ctx); [|intros; apply refuses_throw].
  destruct (String.eqb _ ""); [intros; apply refuses_throw|done].
Qed.

Lemma pure_deps : pure (readingDeps deps).
Proof. destruct deps; by intros s. Qed.
Lemma pure_checked {A} (r : Result A) : pure (checked (S := reading_db) r).
Proof. intros s. unfold checked, or_domain, or_fail, attempt, reading. by destruct r. Qed.

Lemma refuses_serve h r : refuses (serve_reading marshal deps su ctx h r).
Proof.
  pose proof refuses_scope.
  destruct r; apply refuses_first; (apply refuses_then; [apply pure_deps|intros]);
    repeat match goal with |- refuses (if ?b then _ else _) => destruct b end;
    first [ apply refuses_throw | by apply refuses_first
          | apply refuses_then; [apply pure_checked|intros; by apply refuses_first] ].
Qed.
End anonymous.

(** C3: a request of the reading API concerns one account.  Without an account
    it is refused and changes nothing.  With one, whatever the request, its
    answer and what becomes of the account's data are the same in any two
    stores that agree on that account's rows and on the catalogue, however
    they differ in the rows of others; and the others' progress, bookmarks,
    highlights and preferences are afterwards what they were.  Only the new
    identifier has to be one nobody else's row has. *)
Theorem reading_private `{FloatText} marshal deps su ctx header r :
  let serve := serve_reading marshal deps su ctx header r in
  match caller ctx with
  | None => forall db, is_ok (serve db).1 = false /\ (serve db).2 = db
  | Some u =>
      (forall db1 db2, same_view u db1 db2 ->
         id_free u (su_newID su) db1 -> id_free u (su_newID su) db2 ->
         (serve db1).1 = (serve db2).1 /\ same_view u (serve db1).2 (serve db2).2) /\
      (forall db, id_free u (su_newID su) db -> same_others u db (serve db).2)
  end.
Proof.
  intros serve. destruct (caller ctx) as [u|] eqn:E; [|by apply refuses_serve].
  assert (exists user, ctx_user ctx = Some user /\ au_UserID user = u /\ u <> "") as (user & Hc & Hid & Hu).
  { unfold caller in E. destruct (ctx_user ctx) as [user|]; [|done]. exists user.
    destruct (String.eqb_spec (au_UserID user) ""); [done|]. injection E as <-. done. }
  destruct (private_serve marshal deps u Hu su ctx user Hc Hid header r) as [H1 H2].
  split.
  - intros db1 db2 Hv F1 F2. destruct (H1 db1 db2) as [? [? _]]; [by split|]. done.
  - intros db Hf. by apply H2.
Qed.

(** ** An example *)

Definition demo_reading_row {A} (u : UserID) (seq : Z) (cols : A) : sync_row A :=
  mkSyncRow (Some u) (Some DefaultLibrary) 7 seq cols.

(** Alice has half-read a book and marked it; Bob has a highlight in it. *)
Definition demo_reading : reading_db :=
  mkReadingDb
    {[ "p1" := demo_reading_row "alice" 1 (mkProgressCols "p1" "w1" (tenths 5) 0 None None "phone" 10) ]}
    {[ "b1" := demo_reading_row "alice" 2 (mkBookmarkCols "b1" "e1" "epubcfi(/6/4!/4/2)" "start" 11) ]}
    {[ "h1" := demo_reading_row "alice" 3
         (mkHighlightCols "h1" "e1" "epubcfi(/6/4!/4/2)" "epubcfi(/6/4!/4/6)" "nice" "" 12);
       "h2" := demo_reading_row "bob" 4
         (mkHighlightCols "h2" "e1" "epubcfi(/6/4!/4/8)" "epubcfi(/6/4!/4/9)" "secret" "" 13) ]}
    ∅
    {[ "l1" := mkEntryRow DefaultLibrary (mkLibraryEntry "l1" "e1" 1) ]}
    {[ "e1" := "w1" ]} {[ "w1" ]} {[ DefaultLibrary ]}.

Definition demo_deps : option ReadingAPI :=
  Some (mkReadingAPI (fun id => if String.eqb id "e1"
                                then NewEdition "e1" "w1" (mkLanguage "en") None "" None []
                                else fails NotFound "edition not found") None true true).

Definition demo_surroundings (id : string) (now : Time) : surroundings :=
  mkSurroundings (fun _ => None) tx_ok (mkStamp 9 21 22) id now.

Definition signed_in_as (u : UserID) : context :=
  mkContext (Some (mkAuthenticatedUser u u "reader" [DefaultLibrary])) (Some DefaultLibrary).

(** Strings for the numbers the example uses. *)
#[export] Instance demo_floats : FloatText := {|
  parseFloat s := if String.eqb s "19" then Some (f64_of_Z 19)
                  else if String.eqb s "1.5" then Some (tenths 15) else None;
  formatFloat f := if decide (f = f64_of_Z 19) then "19" else "1.5";
|}.

(** The same store, in which Bob has written something else. *)
Definition demo_reading' : reading_db :=
  set_highlights (<["h2" := demo_reading_row "bob" 14
         (mkHighlightCols "h2" "e1" "epubcfi(/6/4!/4/8)" "epubcfi(/6/4!/4/9)" "rewritten" "x" 13)]>
       (highlights demo_reading)) demo_reading.

Lemma demo_same_view : same_view "alice" demo_reading demo_reading'.
Proof. unfold same_view, same_catalogue. conjuncts. Qed.

Lemma demo_free db : (db = demo_reading \/ db = demo_reading') -> id_free "alice" "new" db.
Proof. intros [->| ->]; repeat split; vm_compute; reflexivity. Qed.

Lemma reading_private_witness :
  let serve := serve_reading (fun _ => Some "{}") demo_deps (demo_surroundings "new" 50)
                 (signed_in_as "alice") "" (ListHighlights "e1") in
  (exists body, (serve demo_reading).1 = Ok (HighlightsBody [body]) /\
                (serve demo_reading').1 = Ok (HighlightsBody [body])) /\
  same_others "alice" demo_reading (serve demo_reading).2.
Proof.
  intros serve.
  destruct (reading_private (fun _ => Some "{}") demo_deps (demo_surroundings "new" 50)
              (signed_in_as "alice") "" (ListHighlights "e1")) as [H1 H2].
  destruct (H1 demo_reading demo_reading' demo_same_view
              (demo_free _ (or_introl eq_refl)) (demo_free _ (or_intror eq_refl))) as [E _].
  split; [|exact (H2 demo_reading (demo_free _ (or_introl eq_refl)))].
  eexists. split; [vm_compute; reflexivity|]. refine (eq_trans (eq_sym E) _). vm_compute. reflexivity.
Defined.
