(* ===== verification/ReadingSafety.v ===== *)
(** * What the reading API guarantees

    The stored position of a book only moves forward, whoever asks for what in
    between; marks stay where they were made and within their bounds; an
    export holds every row of its caller once; preferences read back. *)

From S2P Require Import Prelude GoStrings Floats Errors Validate Catalog Transactor Progress Postgres Http Pairing PairingStore Cfi Sync Identity Encoding Tokens Totp AuthStore AuthHandlers Access ReadingStore Reading ReadingPrivacy.

Local Open Scope string_scope.
Local Open Scope list_scope.
Local Open Scope Z_scope.

(** ** The scoped repository as a progress store *)

Lemma owner_of_inj u v : owner_of u = owner_of v -> u = v.
Proof. unfold owner_of. destruct (String.eqb_spec u ""), (String.eqb_spec v ""); congruence. Qed.
Lemma default_owner u : default "" (owner_of u) = u.
Proof. unfold owner_of. by destruct (String.eqb_spec u ""). Qed.

Lemma in_scope_spec {A} u l (r : sync_row A) :
  in_scope u l r = true <-> sy_user r = owner_of u /\ sy_library r = owner_of l.
Proof. unfold in_scope, owned_by. by rewrite andb_true_iff, !bool_decide_eq_true. Qed.

Lemma scopes_disjoint {A} u l u' l' (r : sync_row A) :
  in_scope u l r = true -> in_scope u' l' r = true -> u = u' /\ l = l'.
Proof.
  rewrite !in_scope_spec. intros [H1 H2] [H3 H4]. split; apply owner_of_inj; congruence.
Qed.

Lemma scoped_lookup u l db id p :
  scoped_progress u l db !! id = Some p <->
  exists r, progress_table db !! id = Some r /\ in_scope u l r = true /\ p = progress_of id (sy_cols r).
Proof.
  unfold scoped_progress. rewrite map_lookup_imap. destruct (progress_table db !! id) as [r|]; simpl.
  - destruct (in_scope u l r) eqn:E; split; try naive_solver. intros (? & [= <-] & ? & _). congruence.
  - naive_solver.
Qed.

Lemma progress_of_row p : progress_of (rp_id p) (progress_row_of p) = p.
Proof. by destruct p as [? ? ? ? [[]|] ? ?]. Qed.

(** What a successful save does to the table. *)
Lemma save_inv fs st u l p db s' :
  SaveProgressForUser fs st u l p db = (Ok tt, s') ->
  exists row, s' = set_progress (<[rp_id p := row]> (progress_table db)) db /\
    in_scope u l row = true /\ sy_cols row = progress_row_of p /\
    (forall k q, progress_table db !! k = Some q -> k <> rp_id p -> index_key q <> index_key row) /\
    sy_sequence row = match progress_table db !! rp_id p with None => st_insert st | Some _ => st_update st end.
Proof.
  unfold SaveProgressForUser. intros [-> H]%exec_ok. cbv zeta in H.
  set (row := match progress_table db !! rp_id p with None => _ | Some _ => _ end) in H. exists row.
  destruct (progress_unique _ _ _) eqn:Eu; [|done]. destruct (progress_keys _ _); [|done].
  simpl in H. injection H as <-. split; [done|].
  split; [apply in_scope_spec; unfold row; by case_match|].
  split; [unfold row; by case_match|].
  split; [|unfold row; by case_match].
  apply bool_decide_eq_true in Eu. intros k q Hq Hk. by apply (Eu k q).
Qed.

Lemma find_inv ff u l w db p :
  (findByWork ff u l w db).1 = Ok p -> scoped_progress u l db !! rp_id p = Some p /\ rp_workID p = w.
Proof.
  unfold findByWork, query_one, mbind, stM_bind, exec. destruct ff; [done|]. simpl.
  destruct (head _) as [[k r]|] eqn:E; simpl; [|done].
  destruct (NewPercentage _); simpl; [|done..]. intros [= <-]. simpl.
  apply head_Some_elem_of in E. apply elem_of_select in E as [Hk Hp]. simpl in *.
  apply andb_true_iff in Hp as [Hw%String.eqb_eq Hp]. split; [|done].
  apply scoped_lookup. by exists r.
Qed.

Lemma translated_not_found e : CategoryOf (TranslateError e) <> NotFound.
Proof. destruct e as [c|e]; simpl; [|done]. by destruct (String.eqb c "23505"). Qed.

Lemma find_none ff u l w db e :
  (findByWork ff u l w db).1 = Err e -> CategoryOf e = NotFound ->
  forall k r, progress_table db !! k = Some r -> in_scope u l r = true -> pc_work_id (sy_cols r) <> w.
Proof.
  unfold findByWork, query_one, mbind, stM_bind, exec. destruct ff as [f|]; simpl.
  { intros [= <-] H. by apply translated_not_found in H. }
  destruct (head _) as [[k r]|] eqn:E; simpl.
  - destruct (NewPercentage _) as [|e'|]; simpl; [done| |done]. intros [= <-] H.
    by apply (translated_not_found (ConnError e')) in H.
  - intros _ _ k r Hk Hr Hw. apply head_None in E. rewrite select_nil in E. specialize (E _ _ Hk).
    rewrite Hr, Hw, String.eqb_refl in E. done.
Qed.

(** The contract of [ProgressStore] holds of the repository behind the
    adapter, whoever else has rows in the table. *)
#[export] Instance progressStore_laws ff fs st u l :
  @ProgressStoreLaws reading_db (progressStore ff fs st u l).
Proof.
  split; simpl.
  - intros db w p H. by eapply find_inv.
  - intros db w e H He i p Hp. apply scoped_lookup in Hp as (r & Hr & Hs & ->). simpl.
    by eapply find_none.
  - intros db p s' H. unfold stored in H.
    destruct (SaveProgressForUser fs st u l p db) as [[[]|e|] s1] eqn:E; [|done..].
    injection H as <-. apply save_inv in E as (row & -> & Hs & Hc & Hu & _). split.
    + apply map_eq. intros k. apply option_eq. intros q. rewrite scoped_lookup. simpl.
      rewrite lookup_insert_Some. setoid_rewrite lookup_insert_Some. rewrite scoped_lookup. split.
      * intros (r & [[<- <-]|[Hk Hr]] & Hr' & ->); [left|right; eauto 10].
        split; [done|]. by rewrite Hc, progress_of_row.
      * intros [[<- <-]|[Hk (r & Hr & Hr' & ->)]]; [|eauto 10].
        exists row. split; [by left|]. split; [done|]. by rewrite Hc, progress_of_row.
    + intros i q Hq Hi Hw. apply scoped_lookup in Hq as (r & Hr & Hrs & ->). simpl in Hw.
      apply (Hu _ _ Hr Hi). apply in_scope_spec in Hrs as [E1 E2]. apply in_scope_spec in Hs as [E3 E4].
      unfold index_key. rewrite E1, E2, E3, E4, Hc, Hw. done.
Qed.

(** ** What each request does to the tables

    A relation that holds across the writes of a request holds across the
    request. *)

Definition bounded_text (field s : string) (max : Z) : Prop :=
  s = "" \/ ValidateBoundedText field s max = Ok tt.

Definition bookmark_checked (b : bookmark_cols) : Prop :=
  ValidateCFI (bc_position b) = Ok tt /\ bounded_text "label" (bc_label b) 500.
Definition note_checked (note category : string) : Prop :=
  bounded_text "note" note 2000 /\ bounded_text "category" category 50.
Definition highlight_checked (h : highlight_cols) : Prop :=
  ValidateCFI (hc_start_position h) = Ok tt /\ ValidateCFI (hc_end_position h) = Ok tt /\
  CFISortsBefore (hc_end_position h) (hc_start_position h) = false /\
  note_checked (hc_note h) (hc_category h).

Section requests.
Context `{FloatText} (marshal : exportDoc -> option string) (deps : option ReadingAPI).
Context (su : surroundings) (ctx : context) (header : string).
Context (R : reading_db -> reading_db -> Prop) `{!PreOrder R}.

Lemma checked_ok {A} (r : Result A) s a : (checked r (s : reading_db)).1 = Ok a -> r = Ok a.
Proof. unfold checked, or_domain, or_fail, attempt, reading, mbind, stM_bind. destruct r; simpl; congruence. Qed.

Lemma bounded_ok f s n db a : (bounded_or_empty f s n db).1 = Ok a -> bounded_text f s n.
Proof.
  unfold bounded_or_empty, bounded_text. destruct (String.eqb_spec s ""); [by left|].
  destruct (ValidateBoundedText f s n) as [[]|e|] eqn:E; simpl; try (intros; by right).
  exfalso. revert E. unfold ValidateBoundedText. repeat case_match; done.
Qed.

Lemma pure_bounded f s n : pure (bounded_or_empty f s n).
Proof. unfold bounded_or_empty. destruct (String.eqb _ _); [by intros ?|]. by destruct (ValidateBoundedText _ _ _); intros ?. Qed.
Lemma pure_body {A} (req : option A) : pure (body_of (S := reading_db) req).
Proof. destruct req; by intros ?. Qed.
Lemma pure_scope : pure (readingScope ctx).
Proof. unfold readingScope. destruct (ctx_user ctx); [|by intros ?]. by destruct (String.eqb _ _); intros ?. Qed.
Lemma pure_assert_device d u : pure (assertDeviceActive d header u).
Proof.
  unfold assertDeviceActive. destruct (ra_Devices d) as [f|]; [|by intros ?]. destruct (String.eqb _ _); [by intros ?|].
  destruct (f _) as [dev|err|]; [|by destruct (bool_decide _); intros ?|by intros ?].
  destruct (negb _); [by intros ?|]. by destruct (pd_revokedAt dev); intros ?.
Qed.
Lemma pure_exec {A} fault (f : reading_db -> A) : pure (exec fault (fun db => Ok (f db, db)) : readingM A).
Proof. intros db. unfold exec. by destruct fault. Qed.
Lemma pure_or_domain {A} (m : readingM A) : pure m -> pure (or_domain m).
Proof.
  intros Hm. unfold or_domain, or_fail. apply pure_bind; [by apply pure_attempt|]. intros []; by intros ?.
Qed.
Lemma pure_assert_edition d f e l : pure (assertEditionInLibrary d f e l).
Proof.
  unfold assertEditionInLibrary. destruct (negb _); [by intros ?|].
  apply pure_bind; [apply pure_or_domain, pure_exec|]. intros []; by intros ?.
Qed.
Lemma pure_assert_work d f w l : pure (assertWorkInLibrary d f w l).
Proof.
  unfold assertWorkInLibrary. destruct (negb _); [by intros ?|].
  apply pure_bind; [apply pure_or_domain, pure_exec|]. intros []; by intros ?.
Qed.
Lemma pure_findByWork f u l w : pure (findByWork f u l w).
Proof.
  apply pure_bind; [apply query_one_pure|]. intros [k r]. destruct (NewPercentage _); by intros ?.
Qed.
Lemma pure_find_row {A B} f msg (q : reading_db -> option A) (g : A -> B) :
  pure (r ← query_one f msg q; mret (g r) : readingM B).
Proof. apply pure_bind; [apply query_one_pure|]. intros; by intros ?. Qed.
Lemma pure_position d w pos : pure (reported_position d w pos).
Proof.
  destruct pos as [pos|]; [|by intros ?]. apply pure_bind; [apply pure_checked|intros _].
  destruct (String.eqb _ _); [by intros ?|]. apply pure_bind; [apply pure_checked|by intros ? ?].
Qed.

Lemma always_pure {E A} (m : stM reading_db E A) : pure m -> always R m.
Proof. intros Hm db. rewrite <- (Hm db). reflexivity. Qed.
Lemma always_or_domain {A} (m : readingM A) : always R m -> always R (or_domain m).
Proof.
  intros Hm. unfold or_domain, or_fail. apply always_bind; [typeclasses eauto|by apply always_attempt|].
  intros []; [apply always_ret|apply always_throw..]; typeclasses eauto.
Qed.
Lemma always_answer {A} (f : A -> reading_response) m : always R m -> always R (answer f m).
Proof. intros Hm. apply always_bind; [typeclasses eauto|done|]. intros. apply always_ret; typeclasses eauto. Qed.

Abbreviation id := (su_newID su).
Context (R_bookmark : forall f st u l b,
  b_id b = id -> bookmark_checked (bookmark_row_of b) -> always R (SaveBookmarkForUser f st u l b)).
Context (R_highlight : forall f st u l h,
  h_id h = id -> highlight_checked (highlight_row_of h) -> always R (SaveHighlightForUser f st u l h)).
Context (R_note : forall f st u h n c, note_checked n c -> always R (UpdateNoteCategoryAndUser f st u h n c)).
Context (R_delete_bookmark : forall f u b, always R (DeleteBookmarkAndUser f u b)).
Context (R_delete_highlight : forall f u h, always R (DeleteHighlightAndUser f u h)).
Context (R_preferences : forall f u p, always R (SavePreferencesForUser f u p)).

(** A step that only looks. *)
Local Ltac look L := apply (always_after R); [apply L|let K := fresh "K" in intros ? ? K].
Local Ltac last_write H :=
  match goal with |- R ?s ((?m ≫= ?f) ?s).2 =>
    apply (always_bind R m f); [apply always_or_domain, H|intros; apply always_ret; typeclasses eauto] end.
Local Ltac step L :=
  match goal with |- ?P ?s ((?m ≫= ?f) ?s).2 => apply (always_after P m f); [apply L|let K := fresh "K" in intros ? ? K] end.
Local Ltac stop :=
  match goal with |- R ?s (throw _ ?s).2 => reflexivity | |- R ?s (bad_request _ ?s).2 => reflexivity
                | |- R ?s ((mret _) ?s).2 => reflexivity end.

Lemma always_post_bookmark e req : always R (ReadingBookmarkCreateHandler deps su ctx header e req).
Proof.
  look pure_deps. case_match; [stop|]. step pure_scope. case_match. step pure_assert_device.
  step pure_assert_edition. step (pure_body (A := BookmarkRequest)). step (pure_checked (A := unit)).
  cbv zeta. step pure_bounded. last_write R_bookmark; [done|].
  split; simpl; [|by eapply bounded_ok]. match goal with K : (checked _ _).1 = Ok ?a |- _ => destruct a; by eapply checked_ok end.
Qed.

Lemma always_post_highlight e req : always R (ReadingHighlightCreateHandler deps su ctx header e req).
Proof.
  look pure_deps. case_match; [stop|]. step pure_scope. case_match. step pure_assert_device.
  step pure_assert_edition. step (pure_body (A := HighlightRequest)). step (pure_checked (A := unit)).
  step (pure_checked (A := unit)). destruct (CFISortsBefore _ _) eqn:Eo; [stop|].
  cbv zeta. step pure_bounded. step pure_bounded. last_write R_highlight; [done|].
  repeat split; simpl; try done; try (by eapply bounded_ok);
    match goal with K : (checked (ValidateCFI ?p) _).1 = Ok ?a |- ValidateCFI ?p = _ => destruct a; by eapply checked_ok end.
Qed.

Lemma always_patch_highlight h req : always R (ReadingHighlightPatchHandler deps su ctx header h req).
Proof.
  look pure_deps. step pure_scope. case_match. step pure_assert_device.
  match goal with |- R ?s ((?m ≫= ?f) ?s).2 => apply (always_after R m f);
    [apply pure_or_domain, pure_find_row|intros ? ? ?] end.
  step (pure_body (A := NoteRequest)). cbv zeta. step pure_bounded. step pure_bounded.
  match goal with |- R ?s ((?m ≫= ?f) ?s).2 => apply (always_bind R m f) end;
    [|intros; apply always_ret; typeclasses eauto].
  case_match; [|apply always_ret; typeclasses eauto].
  apply always_or_domain, R_note. split; by eapply bounded_ok.
Qed.

Lemma always_put_preferences req : always R (ReadingPreferencesPutHandler deps su ctx header req).
Proof.
  look pure_deps. step (pure_checked (A := unit)). step pure_scope. case_match. step pure_assert_device.
  step (pure_body (A := wirePreferences)). step (pure_checked (A := unit)). cbv zeta.
  last_write R_preferences.
Qed.

Lemma always_delete_bookmark b : always R (ReadingBookmarkDeleteHandler deps su ctx header b).
Proof.
  look pure_deps. step pure_scope. case_match. step pure_assert_device. apply always_or_domain, R_delete_bookmark.
Qed.
Lemma always_delete_highlight b : always R (ReadingHighlightDeleteHandler deps su ctx header b).
Proof.
  look pure_deps. step pure_scope. case_match. step pure_assert_device. apply always_or_domain, R_delete_highlight.
Qed.

(** The reads. *)
Lemma pure_get_progress w : pure (ReadingProgressGetHandler deps su ctx w).
Proof.
  apply pure_bind; [apply pure_deps|intros _]. case_match; [by intros ?|].
  apply pure_bind; [apply pure_scope|intros [u l]]. apply pure_bind; [apply pure_attempt, pure_findByWork|].
  intros [p|e|]; [by intros ?| |by intros ?]. by case_match; intros ?.
Qed.
Lemma pure_get_preferences : pure (ReadingPreferencesGetHandler deps su ctx header).
Proof.
  apply pure_bind; [apply pure_deps|intros _]. apply pure_bind; [apply pure_checked|intros _].
  apply pure_bind; [apply pure_scope|intros [u l]]. apply pure_bind; [apply pure_attempt, pure_find_row|].
  intros [p|e|]; [by intros ?| |by intros ?]. by case_match; intros ?.
Qed.
Lemma pure_list_bookmarks e : pure (ReadingBookmarksListHandler deps su ctx e).
Proof.
  apply pure_bind; [apply pure_deps|intros _]. apply pure_bind; [apply pure_scope|intros [u l]].
  apply pure_bind; [apply pure_or_domain|by intros ? ?]. apply pure_bind; [apply pure_exec|by intros ? ?].
Qed.
Lemma pure_list_highlights e : pure (ReadingHighlightsListHandler deps su ctx e).
Proof.
  apply pure_bind; [apply pure_deps|intros _]. apply pure_bind; [apply pure_scope|intros [u l]].
  apply pure_bind; [apply pure_or_domain|by intros ? ?]. apply pure_bind; [apply pure_exec|by intros ? ?].
Qed.
Lemma pure_export w : pure (ReadingExportHandler marshal deps su ctx w).
Proof.
  apply pure_bind; [apply pure_deps|intros d]. case_match; [by intros ?|].
  apply pure_bind; [apply pure_scope|intros [u l]]. apply pure_bind.
  - case_match; [by intros ?|]. destruct (ValidateBoundedText _ _ _); [|by intros ?|];
      (apply pure_bind; [apply pure_or_domain, pure_exec|]; intros []; by intros ?).
  - intros _. apply pure_bind; [apply pure_or_domain, pure_exec|intros ps].
    apply pure_bind; [apply pure_or_domain, pure_exec|intros ms].
    unfold writeJSONCapped. case_match; [|by intros ?]. by case_match; intros ?.
Qed.

(** Requests other than a report of progress. *)
Definition is_report (r : reading_request) : bool :=
  match r with PostProgress _ _ => true | _ => false end.

Lemma always_other r : is_report r = false -> always R (serve_reading marshal deps su ctx header r).
Proof.
  intros Hr. destruct r; try discriminate Hr; apply always_answer;
    auto using always_post_bookmark, always_post_highlight, always_patch_highlight,
      always_put_preferences, always_delete_bookmark, always_delete_highlight, always_pure,
      pure_get_progress, pure_get_preferences, pure_list_bookmarks, pure_list_highlights, pure_export.
Qed.

Context (R_post : forall ff fs st u l tx report o,
  always R (@ReportProgress _ (progressStore ff fs st u l) tx id report o)).

Lemma always_post_progress w req : always R (ReadingProgressReportHandler deps su ctx header w req).
Proof.
  look pure_deps. case_match; [stop|]. step pure_scope. case_match. step pure_assert_work. step (pure_checked (A := unit)).
  step pure_assert_device. step (pure_body (A := wireProgressReport)). step (pure_checked (A := unit)).
  step (pure_checked (A := unit)). step pure_position. cbv zeta.
  match goal with |- R ?s ((?m ≫= ?f) ?s).2 => apply (always_bind R m f) end;
    [apply always_or_domain, R_post|intros []; apply always_ret; typeclasses eauto].
Qed.

Lemma always_serve r : always R (serve_reading marshal deps su ctx header r).
Proof.
  destruct (is_report r) eqn:E; [|by apply always_other].
  destruct r; try discriminate E. apply always_answer, always_post_progress.
Qed.
End requests.

(** ** Positions move forward *)

Lemma scope_ok ctx s u l :
  (readingScope ctx s).1 = Ok (u, l) -> caller ctx = Some u /\ l = ActiveLibraryFromContext ctx.
Proof.
  unfold readingScope, caller. destruct (ctx_user ctx) as [user|]; [|done].
  destruct (String.eqb (au_UserID user) ""); [done|]. by intros [= <- <-].
Qed.

(** A request either leaves the table of positions alone or runs the reconcile
    transaction on the caller's rows. *)
Definition report_effect (ctx : context) (id : string) (db db' : reading_db) : Prop :=
  progress_table db' = progress_table db \/
  exists u ff fs st tx report o, caller ctx = Some u /\
    db' = (@ReportProgress _ (progressStore ff fs st u (ActiveLibraryFromContext ctx)) tx id report o db).2.

#[export] Instance report_effect_refl ctx id : Reflexive (report_effect ctx id).
Proof. intros db. by left. Qed.

Lemma after_last {S E A B} (m : stM S E A) (f : A -> B) s :
  ((a ← m; mret (f a)) s).2 = (m s).2.
Proof. unfold mbind, stM_bind. by destruct (m s) as [[]]. Qed.

Lemma or_domain_state {A} (m : readingM A) db : (or_domain m db).2 = (m db).2.
Proof. unfold or_domain, or_fail, mbind, stM_bind, attempt. by destruct (m db) as [[]]. Qed.

Local Ltac step_in P L :=
  match goal with |- _ ?s ((?m ≫= ?f) ?s).2 =>
    apply (always_after P m f); [apply L|let K := fresh "K" in intros ? ? K] end.

(** The statements on the other tables. *)
Definition same_progress (db db' : reading_db) : Prop := progress_table db' = progress_table db.
#[export] Instance same_progress_preorder : PreOrder same_progress.
Proof. unfold same_progress. split; [done|]. intros ? ? ? ? ?. by etrans. Qed.

Local Ltac elsewhere :=
  repeat first [ apply always_exec; [typeclasses eauto|]
               | apply always_bind; [typeclasses eauto| |intros ?; case_match; by intros ?] ];
  let E := fresh "E" in intros ? ? ? E; cbv zeta in E; repeat (case_match; try discriminate E); by injection E as _ <-.

Lemma progress_SaveBookmark f st u l b : always same_progress (SaveBookmarkForUser f st u l b).
Proof. elsewhere. Qed.
Lemma progress_SaveHighlight f st u l h : always same_progress (SaveHighlightForUser f st u l h).
Proof. elsewhere. Qed.
Lemma progress_UpdateNote f st u h n c : always same_progress (UpdateNoteCategoryAndUser f st u h n c).
Proof. elsewhere. Qed.
Lemma progress_DeleteBookmark f u b : always same_progress (DeleteBookmarkAndUser f u b).
Proof. elsewhere. Qed.
Lemma progress_DeleteHighlight f u h : always same_progress (DeleteHighlightAndUser f u h).
Proof. elsewhere. Qed.
Lemma progress_SavePreferences f u p : always same_progress (SavePreferencesForUser f u p).
Proof. elsewhere. Qed.

Lemma serve_progress `{FloatText} marshal deps su ctx header r db :
  report_effect ctx (su_newID su) db (serve_reading marshal deps su ctx header r db).2.
Proof.
  destruct (is_report r) eqn:Er.
  - destruct r; try discriminate Er. cbn [serve_reading]. unfold answer. rewrite after_last.
    set (P := report_effect ctx (su_newID su)).
    unfold ReadingProgressReportHandler. step_in P pure_deps. case_match; [by left|].
    step_in P pure_scope. case_match. step_in P pure_assert_work. step_in P (pure_checked (A := unit)).
    step_in P pure_assert_device. step_in P (pure_body (A := wireProgressReport)).
    step_in P (pure_checked (A := unit)). step_in P (pure_checked (A := unit)). step_in P pure_position. cbv zeta.
    match goal with |- context [(or_domain ?m ≫= ?f) ?s] =>
      replace ((or_domain m ≫= f) s).2 with (m s).2 end.
    + right. destruct (scope_ok _ _ _ _ K0) as [Hc ->]. unfold P. eauto 12.
    + rewrite <- or_domain_state. unfold mbind, stM_bind. by destruct (or_domain _ _) as [[[]|e|]].
  - left. exact (always_other marshal deps su ctx header same_progress
      (fun f st u l b _ _ => progress_SaveBookmark f st u l b)
      (fun f st u l h _ _ => progress_SaveHighlight f st u l h)
      (fun f st u h n c _ => progress_UpdateNote f st u h n c)
      progress_DeleteBookmark progress_DeleteHighlight progress_SavePreferences r Er db).
Qed.

(** The reconcile transaction writes at most one row, of its own scope. *)
Lemma report_table ff fs st u l tx id report o db :
  let db' := (@ReportProgress _ (progressStore ff fs st u l) tx id report o db).2 in
  db' = db \/
  exists k row, progress_table db' = <[k := row]> (progress_table db) /\ in_scope u l row = true /\
    (k = id \/ exists r, progress_table db !! k = Some r /\ in_scope u l r = true).
Proof.
  intros db'. destruct ((@ReportProgress _ (progressStore ff fs st u l) tx id report o) db) as [res db1] eqn:E.
  unfold db'. simpl. clear db'. destruct res as [a|e|]; [|left; by apply InTx_err in E|left; by apply InTx_fuel in E].
  apply InTx_ok in E. destruct (body_shape u id ff fs st l report o db) as [(r & Eb & _)|(p & out & Eb & _ & Hp)].
  - left. unfold store in Eb. rewrite E in Eb. congruence.
  - right. unfold store in Eb. rewrite E in Eb. symmetry in Eb. svc_inv Eb.
    match goal with K : SaveProgressForUser _ _ _ _ _ _ = (Ok ?x, _) |- _ => destruct x; apply save_inv in K as (row & -> & Hr & _) end.
    exists (rp_id p), row. split; [done|]. split; [done|].
    destruct Hp as [?|(q & Hq & <-)]; [by left|right].
    apply find_inv in Hq as [Hq _]. apply scoped_lookup in Hq as (r & ? & ? & _). by exists r.
Qed.

Lemma other_scope ff fs st u l tx id report o db u' l' :
  (u', l') <> (u, l) -> progress_table db !! id = None ->
  scoped_progress u' l' (@ReportProgress _ (progressStore ff fs st u l) tx id report o db).2
  = scoped_progress u' l' db.
Proof.
  intros Hne Hid. destruct (report_table ff fs st u l tx id report o db) as [->|(k & row & E & Hr & Hk)]; [done|].
  apply map_eq. intros i. apply option_eq. intros p. rewrite !scoped_lookup, E.
  setoid_rewrite lookup_insert_Some. split.
  - intros (r & [[<- <-]|[Hi Hi']] & Hs & ->); [|eauto 10].
    destruct (scopes_disjoint _ _ _ _ _ Hs Hr) as [-> ->]. done.
  - intros (r & Hi & Hs & ->). exists r. split; [|done]. right. split; [|done]. intros <-.
    destruct Hk as [->|(r' & Hr' & Hs')]; [congruence|]. assert (r' = r) as -> by congruence.
    destruct (scopes_disjoint _ _ _ _ _ Hs Hs') as [-> ->]. done.
Qed.

Lemma wf_any_store ff fs st ff' fs' st' u l db :
  @progress_wf _ (progressStore ff fs st u l) db -> @progress_wf _ (progressStore ff' fs' st' u l) db.
Proof. intros [H1 H2]. by split. Qed.

(** *** Histories *)

(** A request and what surrounds it; the repositories the API calls may
    answer differently each time. *)
Record reading_event := mkReadingEvent {
  ev_deps : option ReadingAPI;
  ev_su : surroundings;
  ev_ctx : context;
  ev_header : string;
  ev_request : reading_request;
}.

Section histories.
Context `{FloatText} (marshal : exportDoc -> option string).

Definition serve_event (db : reading_db) (e : reading_event) : reading_db :=
  (serve_reading marshal (ev_deps e) (ev_su e) (ev_ctx e) (ev_header e) (ev_request e) db).2.
Definition serve_all (db : reading_db) (es : list reading_event) : reading_db := fold_left serve_event es db.

Definition new_ids (es : list reading_event) : list string := (fun e => su_newID (ev_su e)) <$> es.

(** The positions of one account in one library. *)
Abbreviation scope u l := (progressStore None None (mkStamp 0 0 0) u l).

Lemma event_keys db e k r :
  progress_table (serve_event db e) !! k = Some r -> k <> su_newID (ev_su e) ->
  is_Some (progress_table db !! k).
Proof.
  intros Hk Hne. unfold serve_event in Hk.
  destruct (serve_progress marshal (ev_deps e) (ev_su e) (ev_ctx e) (ev_header e) (ev_request e) db)
    as [E|(u & ff & fs & st & tx & rep & o & _ & E)]; rewrite E in Hk; [by eexists|].
  destruct (report_table ff fs st u (ActiveLibraryFromContext (ev_ctx e)) tx (su_newID (ev_su e)) rep o db)
    as [E'|(k' & row & E' & _ & Hk')]; rewrite E' in Hk; [by eexists|].
  apply lookup_insert_Some in Hk as [[-> _]|[_ Hk]]; [|by eexists].
  destruct Hk' as [->|(r' & -> & _)]; [done|by eexists].
Qed.

Lemma event_forward db e u l k w p :
  @progress_wf _ (scope u l) db -> progress_table db !! su_newID (ev_su e) = None ->
  0 <= k < int64_max -> @epochs_within _ (scope u l) k db -> @work_row _ (scope u l) db w p ->
  @progress_wf _ (scope u l) (serve_event db e) /\
  @epochs_within _ (scope u l) (k + 1) (serve_event db e) /\
  exists p', @work_row _ (scope u l) (serve_event db e) w p' /\ rp_id p' = rp_id p /\ progress_le p p'.
Proof.
  intros Hwf Hid Hk Hep Hp.
  assert (forall db', scoped_progress u l db' = scoped_progress u l db ->
    @progress_wf _ (scope u l) db' /\ @epochs_within _ (scope u l) (k + 1) db' /\
    exists p', @work_row _ (scope u l) db' w p' /\ rp_id p' = rp_id p /\ progress_le p p') as Hsame.
  { intros db' E. conjuncts.
    - destruct Hwf as [H1 H2]. split; simpl in *; rewrite E; done.
    - intros i q Hq. simpl in Hq. rewrite E in Hq. specialize (Hep i q Hq). lia.
    - exists p. unfold work_row in *. simpl in *. rewrite E. by split. }
  unfold serve_event.
  destruct (serve_progress marshal (ev_deps e) (ev_su e) (ev_ctx e) (ev_header e) (ev_request e) db)
    as [E|(u' & ff & fs & st & tx & rep & o & _ & E)].
  { apply Hsame. unfold scoped_progress. by rewrite E. }
  rewrite E. clear E. set (l' := ActiveLibraryFromContext (ev_ctx e)). set (id := su_newID (ev_su e)) in *.
  destruct (decide ((u, l) = (u', l'))) as [[= -> ->]|Hne]; [|apply Hsame; by apply other_scope].
  clear Hsame. set (c := mkReportCall tx id rep o). set (L := progressStore_laws ff fs st u' l').
  assert (@progress_rows _ (progressStore ff fs st u' l') db !! id = None) as Hfresh.
  { simpl. apply eq_None_not_Some. intros [q (r & Hr & _)%scoped_lookup]. congruence. }
  apply (wf_any_store None None (mkStamp 0 0 0) ff fs st) in Hwf. conjuncts.
  - apply (wf_any_store ff fs st). exact (@run_call_wf _ _ L db c Hwf Hfresh).
  - exact (@run_call_epochs _ _ L db c k Hwf (proj1 Hk) (proj2 Hk) Hep).
  - exact (@run_call_le _ _ L db c k w p Hwf Hfresh (proj2 Hk) Hep Hp).
Qed.

(** C4: the canonical position of a book, of any account in any library, is
    never lost and never moves backwards in (epoch, percentage): over any
    history of requests of the reading API, by any accounts on any devices,
    reports, overrides, marks, exports, whatever fails along the way.  New
    identifiers have to be new, and the epoch below its 64-bit bound. *)
Theorem reading_progress_forward es db u l k w p :
  @progress_wf _ (scope u l) db ->
  NoDup (new_ids es) -> Forall (fun id => progress_table db !! id = None) (new_ids es) ->
  0 <= k -> @epochs_within _ (scope u l) k db -> k + Z.of_nat (length es) < int64_max ->
  @work_row _ (scope u l) db w p ->
  exists p', @work_row _ (scope u l) (serve_all db es) w p' /\ rp_id p' = rp_id p /\ progress_le p p'.
Proof.
  revert db k p. induction es as [|e es IH]; intros db k p Hwf Hnd Hf Hk Hep Hlen Hp.
  { exists p. split; [exact Hp|]. split; reflexivity. }
  simpl length in Hlen. apply NoDup_cons in Hnd as [Hnin Hnd]. apply Forall_cons in Hf as [Hid Hf].
  destruct (event_forward db e u l k w p) as (Hwf' & Hep' & q & Hq & Eq & Hle); [done|done|lia|done..|].
  destruct (IH (serve_event db e) (k + 1) q) as (p' & Hp' & Ep' & Hle'); [done|done| |lia|done|lia|done|].
  - rewrite Forall_forall in *. intros i Hi. specialize (Hf i Hi).
    destruct (progress_table (serve_event db e) !! i) as [r|] eqn:Er; [|done].
    apply event_keys in Er as [r' Hr']; [congruence|]. intros ->. done.
  - exists p'. split; [exact Hp'|]. split; [congruence|]. by etrans.
Qed.
End histories.

(** The demo's requests: Bob reports progress of his own, Alice moves back by
    an override and marks the page. *)
Definition demo_event (u : UserID) (id : string) (now : Time) (r : reading_request) : reading_event :=
  mkReadingEvent demo_deps (demo_surroundings id now) (signed_in_as u)
    "3f2504e0-4f89-41d3-9a0c-0305e82c3301" r.

Definition demo_history : list reading_event :=
  [demo_event "bob" "n1" 20 (PostProgress "w1" (Some (mkWireReport (tenths 9) 0 None false)));
   demo_event "alice" "n2" 30 (PostProgress "w1" (Some (mkWireReport (tenths 1) 0 None true)));
   demo_event "alice" "n3" 40 (PostHighlight "e1" (Some (mkHighlightRequest "epubcfi(/6/4!/4/2)"
     "epubcfi(/6/4!/4/8)" None (Some "idea"))))].

Lemma reading_progress_forward_witness :
  let db' := serve_all (fun _ => None) demo_reading demo_history in
  let canonical := progress_of "p1" (mkProgressCols "p1" "w1" (tenths 5) 0 None None "phone" 10) in
  exists p', scoped_progress "alice" DefaultLibrary db' !! "p1" = Some p' /\
    rp_epoch p' = 1 /\ progress_le canonical p'.
Proof.
  intros db' canonical.
  destruct (reading_progress_forward (fun _ => None) demo_history demo_reading "alice" DefaultLibrary 0 "w1"
              canonical) as (p' & [Hp' _] & Hid & Hle).
  - split.
    + intros i p Hp. apply scoped_lookup in Hp as (r & _ & _ & ->). reflexivity.
    + intros i j p q Hp Hq _. apply scoped_lookup in Hp as (r & Hr & _). apply scoped_lookup in Hq as (r' & Hr' & _).
      unfold demo_reading in Hr, Hr'. cbn [progress_table] in Hr, Hr'. apply lookup_singleton_Some in Hr as [<- _]. apply lookup_singleton_Some in Hr' as [<- _]. reflexivity.
  - apply (bool_decide_unpack _). vm_compute. exact I.
  - repeat constructor.
  - lia.
  - intros i p Hp. apply scoped_lookup in Hp as (r & Hr & _ & ->).
    unfold demo_reading in Hr. cbn [progress_table] in Hr. apply lookup_singleton_Some in Hr as [_ <-]. simpl. lia.
  - reflexivity.
  - split; reflexivity.
  - rewrite Hid in Hp'. exists p'. split; [exact Hp'|]. split; [|exact Hle].
    vm_compute in Hp'. injection Hp' as <-. reflexivity.
Defined.

(** ** Marks *)

Definition marks_wf (db : reading_db) : Prop :=
  map_Forall (fun _ r => bookmark_checked (sy_cols r)) (bookmarks db) /\
  map_Forall (fun _ r => highlight_checked (sy_cols r)) (highlights db).

(** The same highlight, whose note or category may have been edited. *)
Definition same_anchor (r r' : sync_row highlight_cols) : Prop :=
  sy_user r' = sy_user r /\ sy_library r' = sy_library r /\
  exists note category, sy_cols r' = with_note note category (sy_cols r).

#[export] Instance same_anchor_preorder : PreOrder same_anchor.
Proof.
  split.
  - intros [u l x s []]. split; [done|]. split; [done|]. by eexists _, _.
  - intros r1 r2 r3 (E1 & E2 & n & c & E3) (F1 & F2 & n' & c' & F3).
    split; [congruence|]. split; [congruence|]. exists n', c'. by rewrite F3, E3.
Qed.

(** From one store to a later one, the marks with the identifier [id] aside. *)
Record marks_kept (id : string) (db db' : reading_db) : Prop := {
  kept_wf : marks_wf db -> marks_wf db';
  kept_bookmark k r' : k <> id -> bookmarks db' !! k = Some r' -> bookmarks db !! k = Some r';
  kept_highlight k r' : k <> id -> highlights db' !! k = Some r' ->
    exists r, highlights db !! k = Some r /\ same_anchor r r';
}.

#[export] Instance marks_kept_preorder id : PreOrder (marks_kept id).
Proof.
  split.
  - intros db. split; [done..|]. intros k r _ Hr. exists r. by split.
  - intros db1 db2 db3 [W1 B1 H1] [W2 B2 H2]. split; [auto|eauto|]. intros k r' Hk Hr.
    destruct (H2 k r' Hk Hr) as (r2 & Hr2 & S2). destruct (H1 k r2 Hk Hr2) as (r1 & Hr1 & S1).
    exists r1. split; [done|by etrans].
Qed.

Section marks.
Context (id : string).

Lemma kept_same db db' :
  bookmarks db' = bookmarks db -> highlights db' = highlights db -> marks_kept id db db'.
Proof.
  intros E1 E2. split; unfold marks_wf; rewrite ?E1, ?E2; [done..|]. intros k r _ Hr. exists r. by split.
Qed.

Lemma kept_report ff fs st u l tx report o :
  always (marks_kept id) (@ReportProgress _ (progressStore ff fs st u l) tx id report o).
Proof.
  intros db. destruct (@ReportProgress _ (progressStore ff fs st u l) tx id report o db) as [res db1] eqn:E.
  simpl. destruct res as [a|e|]; [|apply InTx_err in E as ->; reflexivity|apply InTx_fuel in E as ->; reflexivity].
  apply InTx_ok in E. destruct (body_shape u id ff fs st l report o db) as [(r & Eb & _)|(p & out & Eb & _)];
    unfold store in Eb; rewrite E in Eb.
  - injection Eb as _ ->. reflexivity.
  - symmetry in Eb. svc_inv Eb.
    match goal with K : SaveProgressForUser _ _ _ _ _ _ = (Ok ?x, _) |- _ => destruct x; apply save_inv in K as (row & -> & _) end.
    by apply kept_same.
Qed.

Lemma kept_SaveBookmark f st u l b :
  b_id b = id -> bookmark_checked (bookmark_row_of b) -> always (marks_kept id) (SaveBookmarkForUser f st u l b).
Proof.
  intros <- Hb. apply always_exec; [typeclasses eauto|]. intros db a db' E. cbv zeta in E.
  destruct (edition_known _ _ && _); [|discriminate E]. injection E as _ <-. split.
  - intros [H1 H2]. split; [|done]. apply map_Forall_insert_2; [by case_match|done].
  - intros k r' Hk Hr. simpl in Hr. by rewrite lookup_insert_ne in Hr.
  - intros k r' _ Hr. exists r'. by split.
Qed.

Lemma kept_SaveHighlight f st u l h :
  h_id h = id -> highlight_checked (highlight_row_of h) -> always (marks_kept id) (SaveHighlightForUser f st u l h).
Proof.
  intros <- Hh. apply always_exec; [typeclasses eauto|]. intros db a db' E. cbv zeta in E.
  destruct (edition_known _ _ && _); [|discriminate E]. injection E as _ <-. split.
  - intros [H1 H2]. split; [done|]. apply map_Forall_insert_2; [by case_match|done].
  - done.
  - intros k r' Hk Hr. simpl in Hr. rewrite lookup_insert_ne in Hr by done. exists r'. by split.
Qed.

Lemma kept_affecting msg (m : readingM Z) : always (marks_kept id) m -> always (marks_kept id) (affecting msg m).
Proof. intros Hm. apply always_bind; [typeclasses eauto|done|]. intros n. by case_match; intros ?. Qed.

Lemma kept_UpdateNote f st u h n c :
  note_checked n c -> always (marks_kept id) (UpdateNoteCategoryAndUser f st u h n c).
Proof.
  intros Hn. apply kept_affecting, always_exec; [typeclasses eauto|]. intros db a db' E.
  destruct (highlights db !! h) as [r|] eqn:Er; [|by injection E as _ <-].
  destruct (owned_by u r); injection E as _ <-; [|done]. split.
  - intros [H1 H2]. split; [done|]. apply map_Forall_insert_2; [|done].
    destruct (H2 _ _ Er) as (? & ? & ? & _). done.
  - done.
  - cbn [highlights set_highlights]. intros k r' Hk [[<- <-]|[Hne Hr]]%lookup_insert_Some; [|exists r'; by split].
    exists r. split; [done|]. split; [done|]. split; [done|]. by exists n, c.
Qed.

Lemma kept_DeleteBookmark f u b : always (marks_kept id) (DeleteBookmarkAndUser f u b).
Proof.
  apply kept_affecting, always_exec; [typeclasses eauto|]. intros db a db' E.
  destruct (bookmarks db !! b) as [r|]; [|by injection E as _ <-].
  destruct (owned_by u r); injection E as _ <-; [|done]. split.
  - intros [H1 H2]. split; [by apply map_Forall_delete|done].
  - cbn [bookmarks set_bookmarks]. by intros k r' _ [_ ?]%lookup_delete_Some.
  - intros k r' _ Hr. exists r'. by split.
Qed.
Lemma kept_DeleteHighlight f u h : always (marks_kept id) (DeleteHighlightAndUser f u h).
Proof.
  apply kept_affecting, always_exec; [typeclasses eauto|]. intros db a db' E.
  destruct (highlights db !! h) as [r|]; [|by injection E as _ <-].
  destruct (owned_by u r); injection E as _ <-; [|done]. split.
  - intros [H1 H2]. split; [done|by apply map_Forall_delete].
  - done.
  - cbn [highlights set_highlights]. intros k r' _ [_ ?]%lookup_delete_Some. exists r'. by split.
Qed.
Lemma kept_SavePreferences f u p : always (marks_kept id) (SavePreferencesForUser f u p).
Proof. apply always_exec; [typeclasses eauto|]. intros db a db' [= _ <-]. by apply kept_same. Qed.
End marks.

Section marks_history.
Context `{FloatText} (marshal : exportDoc -> option string).

Lemma event_marks db e : marks_kept (su_newID (ev_su e)) db (serve_event marshal db e).
Proof.
  apply (always_serve marshal (ev_deps e) (ev_su e) (ev_ctx e) (ev_header e) (marks_kept (su_newID (ev_su e))));
    auto using kept_report, kept_SaveBookmark, kept_SaveHighlight, kept_UpdateNote, kept_DeleteBookmark,
      kept_DeleteHighlight, kept_SavePreferences.
Qed.

(** Over any history of requests, every stored mark stays within what the
    handlers check (positions are CFIs, a highlight does not end before it
    starts, notes, categories and labels are bounded); no mark appears but
    under the identifier of the request that makes it; a bookmark is never
    altered; and a highlight keeps its owner, library, edition, range and
    time for as long as it exists, only its note and category change. *)
Theorem marks_stay es db :
  (marks_wf db -> marks_wf (serve_all marshal db es)) /\
  (forall k r', k ∉ new_ids es -> bookmarks (serve_all marshal db es) !! k = Some r' ->
     bookmarks db !! k = Some r') /\
  (forall k r', k ∉ new_ids es -> highlights (serve_all marshal db es) !! k = Some r' ->
     exists r, highlights db !! k = Some r /\ same_anchor r r').
Proof.
  revert db. induction es as [|e es IH]; intros db.
  { split; [done|]. split; [done|]. intros k r' _ Hr. exists r'. by split. }
  destruct (IH (serve_event marshal db e)) as (W & B & H1). destruct (event_marks db e) as [W' B' H1'].
  split; [auto|]. split.
  - intros k r' [Hk Hks]%not_elem_of_cons Hr. eauto.
  - intros k r' [Hk Hks]%not_elem_of_cons Hr. destruct (H1 k r' Hks Hr) as (r2 & Hr2 & S2).
    destruct (H1' k r2 Hk Hr2) as (r1 & Hr1 & S1). exists r1. split; [done|by etrans].
Qed.
End marks_history.

Lemma marks_stay_witness :
  let db' := serve_all (fun _ => None) demo_reading demo_history in
  marks_wf db' /\ exists r, highlights db' !! "n3" = Some r /\ hc_category (sy_cols r) = "idea".
Proof.
  intros db'. destruct (marks_stay (fun _ => None) demo_history demo_reading) as (Hwf & _ & _). split.
  - apply Hwf. split; apply map_Forall_to_list; cbn -[ValidateCFI ValidateBoundedText CFISortsBefore];
      repeat constructor; cbn; try (left; reflexivity); try (right; vm_compute; reflexivity);
      vm_compute; reflexivity.
  - eexists. split; vm_compute; reflexivity.
Defined.
