(* ===== verification/ReadingSpec.v ===== *)
(** * Exports, preferences, notes and a device's own writes
      (src/internal/transport/http: reading_export.go, reading.go,
       device_sync.go [SyncProgressHandler] on the tables of
       src/internal/persistence/postgres, with the trigger of
       migrations/00011_phase14_device_sync.sql)

    The document of an export holds each of its caller's rows once; what is
    put into the preferences is what they read back as; a note's request
    writes only what it changes.  A push runs on the reading tables and on the
    device's row: its last step moves the device's cursor over the row just
    written when nothing can lie between. *)

From Stdlib Require Import Sorted.
From S2P Require Import Prelude GoStrings Errors Validate Catalog Transactor Postgres Http Floats Progress Pairing PairingStore Cfi Sync SyncSafety Identity Encoding Tokens Totp AuthStore AuthHandlers Access ReadingStore Reading ReadingPrivacy ReadingSafety.

Local Open Scope string_scope.
Local Open Scope list_scope.
Local Open Scope Z_scope.

(** ** The document *)

Definition marks_of_kind (kind id : string) (marks : list ExportMark) : list ExportMark :=
  List.filter (fun m => String.eqb (em_EditionID m) id && String.eqb (em_Kind m) kind) marks.

(** The entry of an edition: its marks in their order, by kind. *)
Definition edition_entry (marks : list ExportMark) (id : string) : exportEdition :=
  mkExportEdition id (mark_bookmark <$> marks_of_kind "bookmark" id marks)
    (mark_highlight <$> marks_of_kind "highlight" id marks).

Lemma marks_of_kind_snoc kind id marks m :
  marks_of_kind kind id (marks ++ [m]) =
  marks_of_kind kind id marks ++
    (if String.eqb (em_EditionID m) id && String.eqb (em_Kind m) kind then [m] else []).
Proof. unfold marks_of_kind. rewrite List.filter_app. simpl. by destruct (_ && _). Qed.

Lemma add_mark_entry marks m :
  add_mark m (edition_entry marks (em_EditionID m)) = edition_entry (marks ++ [m]) (em_EditionID m).
Proof.
  unfold edition_entry, add_mark. rewrite !marks_of_kind_snoc, String.eqb_refl. simpl.
  destruct (String.eqb_spec (em_Kind m) "bookmark") as [E|Hb].
  { by rewrite E, fmap_app, app_nil_r. }
  rewrite app_nil_r. destruct (String.eqb (em_Kind m) "highlight"); [by rewrite fmap_app|by rewrite app_nil_r].
Qed.

Lemma entry_other marks m id :
  id <> em_EditionID m -> edition_entry (marks ++ [m]) id = edition_entry marks id.
Proof.
  intros Hne. unfold edition_entry. rewrite !marks_of_kind_snoc.
  apply not_eq_sym, String.eqb_neq in Hne. by rewrite Hne, !app_nil_r.
Qed.

Lemma entry_none marks id : id ∉ em_EditionID <$> marks -> edition_entry marks id = mkExportEdition id [] [].
Proof.
  intros Hid. unfold edition_entry. replace (marks_of_kind "bookmark" id marks) with (@nil ExportMark);
    [replace (marks_of_kind "highlight" id marks) with (@nil ExportMark); [done|]|];
    symmetry; induction marks as [|m marks IH]; simpl; try done;
    rewrite fmap_cons, not_elem_of_cons in Hid; destruct Hid as [Hm Hid];
    apply not_eq_sym, String.eqb_neq in Hm; rewrite Hm; by apply IH.
Qed.

Lemma fmap_snoc {A B} (f : A -> B) l x : f <$> (l ++ [x]) = (f <$> l) ++ [f x].
Proof. by rewrite fmap_app. Qed.

(** The loop's invariant. *)
Definition grouped (marks : list ExportMark) (acc : gmap string exportEdition * list string) : Prop :=
  NoDup acc.2 /\ (forall id, id ∈ acc.2 <-> id ∈ em_EditionID <$> marks) /\
  forall id, acc.1 !! id = if decide (id ∈ acc.2) then Some (edition_entry marks id) else None.

Lemma group_mark_step marks acc m : grouped marks acc -> grouped (marks ++ [m]) (group_mark acc m).
Proof.
  destruct acc as [t order]. intros (Hnd & Hin & Ht). simpl in *. unfold group_mark.
  rewrite (Ht (em_EditionID m)). destruct (decide (em_EditionID m ∈ order)) as [Hm|Hm]; unfold grouped; simpl.
  - split; [done|]. split.
    + intros id. rewrite fmap_snoc, elem_of_app, list_elem_of_singleton, Hin. apply Hin in Hm. naive_solver.
    + intros id. destruct (decide (id = em_EditionID m)) as [->|Hne].
      * rewrite lookup_insert_eq, decide_True by done. by rewrite add_mark_entry.
      * rewrite lookup_insert_ne, Ht, entry_other by done. done.
  - split; [|split].
    + apply NoDup_app. split; [done|]. split; [|apply NoDup_singleton].
      intros id Hid ->%list_elem_of_singleton. done.
    + intros id. by rewrite fmap_snoc, !elem_of_app, !list_elem_of_singleton, Hin.
    + intros id. destruct (decide (id = em_EditionID m)) as [->|Hne].
      * rewrite lookup_insert_eq, decide_True by (apply elem_of_app; right; by apply list_elem_of_singleton).
        rewrite Hin in Hm. rewrite <- (entry_none marks) by done. by rewrite add_mark_entry.
      * rewrite lookup_insert_ne, Ht, entry_other by done.
        destruct (decide (id ∈ order)); [rewrite decide_True|rewrite decide_False]; try done;
          rewrite elem_of_app, list_elem_of_singleton; naive_solver.
Qed.

Lemma grouped_all marks : grouped marks (fold_left group_mark marks (∅, [])).
Proof.
  induction marks as [|m marks IH] using rev_ind.
  - split; [apply NoDup_nil_2|]. split; [done|]. intros id. simpl. by rewrite lookup_empty.
  - rewrite fold_left_app. by apply group_mark_step.
Qed.

(** The document of given rows: every position in its order, and the editions
    sorted, each with its marks in their order. *)
Lemma buildExportDoc_shape at_ progress marks :
  exists ids, buildExportDoc at_ progress marks =
    mkExportDoc exportSchemaVersion at_ (export_work <$> progress) (edition_entry marks <$> ids) /\
    NoDup ids /\ StronglySorted (fun x y => String.leb x y = true) ids /\
    (forall id, id ∈ ids <-> id ∈ em_EditionID <$> marks).
Proof.
  unfold buildExportDoc. pose proof (grouped_all marks) as Hg.
  destruct (fold_left group_mark marks (∅, [])) as [t order]. destruct Hg as (Hnd & Hin & Ht). simpl in *.
  exists (sort_by String.leb order). split; [|split; [by rewrite sort_by_perm|]].
  - f_equal. assert (Forall (fun id => t !! id = Some (edition_entry marks id)) (sort_by String.leb order)) as Hf.
    { apply Forall_forall. intros id. rewrite sort_by_perm. intros Hid. by rewrite Ht, decide_True. }
    induction Hf as [|id l E _ IH]; simpl; [done|]. rewrite E. f_equal. exact IH.
  - split; [apply sort_by_sorted; [apply String.leb_total|apply leb_trans]|].
    intros id. by rewrite sort_by_perm.
Qed.

(** *** Every row once *)

Lemma bind_app {A B} (f g : A -> list B) l :
  (l ≫= fun x => f x ++ g x) ≡ₚ (l ≫= f) ++ (l ≫= g).
Proof.
  induction l as [|x l IH]; simpl; [done|]. unfold mbind in IH. rewrite IH. solve_Permutation.
Qed.

Lemma bind_single {B} (e : string) (b : B) ids :
  NoDup ids -> e ∈ ids -> (ids ≫= fun id => if String.eqb e id then [b] else []) = [b].
Proof.
  assert (forall ids, e ∉ ids -> (ids ≫= fun id => if String.eqb e id then [b] else []) = []) as Hnone.
  { clear ids. intros ids. induction ids as [|id ids IH]; [done|]. rewrite not_elem_of_cons. intros [Hne Hin].
    rewrite bind_cons, (IH Hin). by apply String.eqb_neq in Hne as ->. }
  induction 1 as [|id ids Hid Hnd IH]; [by intros ?%elem_of_nil|]. rewrite bind_cons.
  destruct (String.eqb_spec e id) as [->|Hne]; intros Hin.
  - by rewrite Hnone.
  - apply elem_of_cons in Hin as [?|Hin]; [done|]. by rewrite IH.
Qed.

Lemma concat_kinds kind ids marks :
  NoDup ids -> (forall m, m ∈ marks -> em_EditionID m ∈ ids) ->
  (ids ≫= fun id => marks_of_kind kind id marks) ≡ₚ List.filter (fun m => String.eqb (em_Kind m) kind) marks.
Proof.
  intros Hnd. induction marks as [|m marks IH]; intros Hin.
  { clear. induction ids; [done|]. rewrite bind_cons. done. }
  rewrite (list_bind_ext _ (fun id => (if String.eqb (em_EditionID m) id then
      (if String.eqb (em_Kind m) kind then [m] else []) else []) ++ marks_of_kind kind id marks) ids ids); [|..|done].
  2:{ intros id. unfold marks_of_kind. simpl. by destruct (String.eqb (em_EditionID m) id), (String.eqb (em_Kind m) kind). }
  rewrite bind_app, IH by (intros m' Hm'; apply Hin; by right). simpl.
  destruct (String.eqb (em_Kind m) kind).
  - rewrite bind_single; [done..|]. apply Hin. by left.
  - replace (ids ≫= fun id => if String.eqb (em_EditionID m) id then [] else []) with (@nil ExportMark); [done|].
    clear. induction ids as [|id ids IH]; [done|]. rewrite bind_cons, <- IH. by destruct (String.eqb _ _).
Qed.

Lemma filter_perm {A} (p : A -> bool) l1 l2 : l1 ≡ₚ l2 -> List.filter p l1 ≡ₚ List.filter p l2.
Proof.
  induction 1; simpl; [done| | |by etrans]; repeat case_match; try (by constructor); try done.
Qed.

(** The rows an export of [workID] holds, or of everything for the empty one. *)
Definition exported_progress (u l workID : string) (db : reading_db) : list (string * sync_row progress_cols) :=
  select (fun _ r => in_scope u l r && (String.eqb workID "" || String.eqb (pc_work_id (sy_cols r)) workID))
    (progress_table db).
Definition exported_bookmarks (u l workID : string) (db : reading_db) : list (string * sync_row bookmark_cols) :=
  select (fun _ r => in_scope u l r && on_work workID db (bc_edition_id (sy_cols r))) (bookmarks db).
Definition exported_highlights (u l workID : string) (db : reading_db) : list (string * sync_row highlight_cols) :=
  select (fun _ r => in_scope u l r && on_work workID db (hc_edition_id (sy_cols r))) (highlights db).

(** A document with exactly those rows. *)
Record complete_export (u l workID : string) (db : reading_db) (doc : exportDoc) : Prop := {
  ce_version : ed_SchemaVersion doc = 1;
  ce_works : ed_Works doc ≡ₚ
    (fun kr => export_work (export_progress (sy_cols kr.2))) <$> exported_progress u l workID db;
  ce_bookmarks : ed_Editions doc ≫= ee_Bookmarks ≡ₚ
    (fun kr => bookmarkToWire (bookmark_of kr.1 (sy_cols kr.2))) <$> exported_bookmarks u l workID db;
  ce_highlights : ed_Editions doc ≫= ee_Highlights ≡ₚ
    (fun kr => highlightToWire (highlight_of kr.1 (sy_cols kr.2))) <$> exported_highlights u l workID db;
  ce_editions : NoDup (ee_EditionID <$> ed_Editions doc);
  ce_sorted : StronglySorted (fun x y => String.leb x y = true) (ee_EditionID <$> ed_Editions doc);
  ce_placed e : e ∈ ed_Editions doc ->
    Forall (fun b => wb_EditionID b = ee_EditionID e) (ee_Bookmarks e) /\
    Forall (fun h => wh_EditionID h = ee_EditionID e) (ee_Highlights e);
}.

Section marks_of_kinds.
Context (bs : list (string * sync_row bookmark_cols)) (hs : list (string * sync_row highlight_cols)).
Let marks := (bookmark_mark <$> bs) ++ (highlight_mark <$> hs).

Lemma kind_bookmark : List.filter (fun m => String.eqb (em_Kind m) "bookmark") marks = bookmark_mark <$> bs.
Proof.
  unfold marks. rewrite List.filter_app.
  replace (List.filter _ (highlight_mark <$> hs)) with (@nil ExportMark); [rewrite app_nil_r|].
  - induction bs as [|b bs' IH]; simpl; [done|]. f_equal. exact IH.
  - symmetry. induction hs as [|h hs' IH]; simpl; done.
Qed.
Lemma kind_highlight : List.filter (fun m => String.eqb (em_Kind m) "highlight") marks = highlight_mark <$> hs.
Proof.
  unfold marks. rewrite List.filter_app.
  replace (List.filter _ (bookmark_mark <$> bs)) with (@nil ExportMark).
  - simpl. induction hs as [|h hs' IH]; simpl; [done|]. f_equal. exact IH.
  - symmetry. induction bs as [|b bs' IH]; simpl; done.
Qed.
End marks_of_kinds.

Lemma kind_edition kind id marks m : m ∈ marks_of_kind kind id marks -> em_EditionID m = id.
Proof.
  unfold marks_of_kind. intros Hm. apply list_elem_of_In, filter_In in Hm as [_ Hm].
  by apply andb_true_iff in Hm as [?%String.eqb_eq _].
Qed.

Lemma built_complete u l workID db at_ :
  complete_export u l workID db
    (buildExportDoc at_
       (sort_by by_work ((fun kr => export_progress (sy_cols kr.2)) <$> exported_progress u l workID db))
       (sort_by by_edition ((bookmark_mark <$> exported_bookmarks u l workID db)
                            ++ (highlight_mark <$> exported_highlights u l workID db)))).
Proof.
  set (ps := sort_by by_work _). set (bs := exported_bookmarks u l workID db).
  set (hs := exported_highlights u l workID db). set (ms := sort_by by_edition _).
  assert (ms ≡ₚ (bookmark_mark <$> bs) ++ (highlight_mark <$> hs)) as Hms by apply sort_by_perm.
  destruct (buildExportDoc_shape at_ ps ms) as (ids & -> & Hnd & Hs & Hin).
  assert (forall m, m ∈ ms -> em_EditionID m ∈ ids) as Hcover.
  { intros m Hm. apply Hin. by apply list_elem_of_fmap_2. }
  assert (ee_EditionID <$> (edition_entry ms <$> ids) = ids) as Eids.
  { rewrite <- list_fmap_compose. rewrite <- (list_fmap_id ids) at 2. by apply list_fmap_ext. }
  split; simpl; rewrite ?Eids; try done.
  - unfold ps. rewrite sort_by_perm, <- list_fmap_compose. done.
  -
    transitivity (mark_bookmark <$> (ids ≫= fun id => marks_of_kind "bookmark" id ms)).
    { clear. induction ids as [|id ids IH]; simpl; [done|]. rewrite fmap_app. by f_equiv. }
    rewrite concat_kinds by done. rewrite (filter_perm _ _ _ Hms), kind_bookmark, <- list_fmap_compose. done.
  - transitivity (mark_highlight <$> (ids ≫= fun id => marks_of_kind "highlight" id ms)).
    { clear. induction ids as [|id ids IH]; simpl; [done|]. rewrite fmap_app. by f_equiv. }
    rewrite concat_kinds by done. rewrite (filter_perm _ _ _ Hms), kind_highlight, <- list_fmap_compose. done.
  - intros e (id & -> & _)%list_elem_of_fmap. simpl.
    split; apply Forall_fmap, Forall_forall; intros m Hm; by eapply kind_edition.
Qed.

(** C5: an export that answers is complete: it is the encoding, of at most 25
    MB, of a document that holds each progress, bookmark and highlight row of
    its caller in the active library (of the work asked for, which has to
    exist, if one is) exactly once and nothing else, whose editions are
    distinct and in order, each with its own marks; nothing is written. *)
Theorem ReadingExport_complete marshal deps su ctx workID db raw db' :
  ReadingExportHandler marshal deps su ctx workID db = (Ok raw, db') ->
  exists u doc, caller ctx = Some u /\ db' = db /\
    (workID = "" \/ workID ∈ known_works db) /\
    complete_export u (ActiveLibraryFromContext ctx) workID db doc /\
    ed_ExportedAt doc = su_now su /\
    marshal doc = Some raw /\ len raw <= exportMaxBytes.
Proof.
  intros H. pose proof (pure_export marshal deps su ctx workID db) as Hp. rewrite H in Hp. simpl in Hp. subst db'.
  unfold ReadingExportHandler in H. apply stM_bind_ok in H as (d & s0 & Hd & H).
  assert (s0 = db) as -> by (unfold readingDeps in Hd; destruct deps; by injection Hd).
  destruct (negb _); [done|]. apply stM_bind_ok in H as ([u l] & s1 & Hs & H).
  pose proof (pure_scope ctx db) as Hp. rewrite Hs in Hp. simpl in Hp. subst s1.
  assert ((readingScope ctx db).1 = Ok (u, l)) as Hc by by rewrite Hs. apply scope_ok in Hc as [Hc ->].
  apply stM_bind_ok in H as ([] & s2 & Hw & H).
  assert (s2 = db /\ (workID = "" \/ workID ∈ known_works db)) as [-> Hwork].
  { destruct (String.eqb_spec workID "") as [->|Hne]; [injection Hw as <-; auto|].
    destruct (ValidateBoundedText _ _ _); [|done|];
      apply stM_bind_ok in Hw as (ex & s3 & He & Hw); unfold or_domain, or_fail, WorkExists, exec in He;
      unfold mbind, stM_bind, attempt in He; destruct (su_fault su 0%nat); simpl in He; try done;
      injection He as <- <-; (destruct (bool_decide _) eqn:Eb; [|done]); injection Hw as <-;
      apply bool_decide_eq_true in Eb; auto. }
  apply stM_bind_ok in H as (ps & s3 & Hps & H). apply stM_bind_ok in H as (ms & s4 & Hms & H).
  unfold or_domain, or_fail, ListProgress, exec, mbind, stM_bind, attempt in Hps.
  destruct (su_fault su 1%nat); [done|]. simpl in Hps. injection Hps as <- <-.
  unfold or_domain, or_fail, ListMarks, exec, mbind, stM_bind, attempt in Hms.
  destruct (su_fault su 2%nat); [done|]. simpl in Hms. injection Hms as <- <-.
  unfold writeJSONCapped in H. destruct (marshal _) as [raw'|] eqn:Em; [|done].
  destruct (exportMaxBytes <? len raw') eqn:El; [done|]. injection H as ->. bool_to_prop.
  eexists u, _. split; [done|]. split; [done|]. split; [done|].
  split; [apply (built_complete u (ActiveLibraryFromContext ctx) workID db (su_now su))|].
  split; [|split; [exact Em|lia]].
  unfold buildExportDoc. by destruct (fold_left _ _ _).
Qed.

Lemma ReadingExport_complete_witness :
  exists u doc, caller (signed_in_as "alice") = Some u /\
    complete_export u DefaultLibrary "w1" demo_reading doc /\ length (ed_Works doc) = 1%nat.
Proof.
  destruct (ReadingExport_complete (fun _ => Some "document") demo_deps (demo_surroundings "x" 70)
              (signed_in_as "alice") "w1" demo_reading "document" demo_reading) as (u & doc & Hc & _ & _ & Hd & _).
  { vm_compute. reflexivity. }
  exists u, doc. split; [exact Hc|]. split; [exact Hd|].
  rewrite (ce_works _ _ _ _ _ Hd), length_fmap. injection Hc as <-. vm_compute. reflexivity.
Defined.

(** ** Preferences *)

Section preferences.
Context `{FT : FloatText}.

Lemma preferencesToWire_of dev req :
  parseFloat (formatFloat (wf_FontSize req)) = Some (wf_FontSize req) ->
  parseFloat (formatFloat (wf_LineSpacing req)) = Some (wf_LineSpacing req) ->
  preferencesToWire (preferences_of dev req) = req.
Proof.
  intros H1 H2. unfold preferencesToWire, preferences_of, setting_or, float_setting_or, set_preference.
  cbn [rp_settings rp_deviceID].
  repeat (rewrite lookup_insert_eq || rewrite lookup_insert_ne by done). simpl.
  rewrite H1, H2. by destruct req.
Qed.

(** A row of settings read back. *)
Lemma settings_read (dev : DeviceID) (s : gmap string string) :
  map_fold set_preference (NewReadingPreferences dev) s = mkReadingPreferences dev s.
Proof.
  apply (map_fold_weak_ind (fun p m => p = mkReadingPreferences dev m)); [done|].
  intros k v m p _ ->. done.
Qed.

Lemma pure_answer {A} (m : readingH A) db a db' : pure m -> m db = (Ok a, db') -> db' = db.
Proof. intros Hm E. specialize (Hm db). by rewrite E in Hm. Qed.

(** Preferences put by an account on a device are validated (the theme,
    layout and column are among those offered, the sizes within their ranges)
    and are what the account reads back on that device, by any later request,
    until it puts others; what other accounts, and other devices, have put
    stays.  The two numbers go through their shortest decimal, which
    [strconv] documents to parse to the same number. *)
Theorem preferences_read_back deps su ctx header req db p db' :
  ReadingPreferencesPutHandler deps su ctx header req db = (Ok p, db') ->
  (forall b, req = Some b ->
     parseFloat (formatFloat (wf_FontSize b)) = Some (wf_FontSize b) /\
     parseFloat (formatFloat (wf_LineSpacing b)) = Some (wf_LineSpacing b)) ->
  exists u, caller ctx = Some u /\ req = Some p /\ validatePreferences p = Ok tt /\
    (forall u' d, (u', d) <> (u, header) -> preferences db' !! (u', d) = preferences db !! (u', d)) /\
    (forall deps' su' ctx', caller ctx' = Some u -> su_fault su' 0%nat = None ->
       (ReadingPreferencesGetHandler (Some deps') su' ctx' header db').1 = Ok p).
Proof.
  intros H Hnum. unfold ReadingPreferencesPutHandler in H.
  apply stM_bind_ok in H as (d & s0 & Hd & H). apply (pure_answer _ _ _ _ (pure_deps deps)) in Hd as ->.
  apply stM_bind_ok in H as ([] & s0 & Hv & H). pose proof (pure_answer _ _ _ _ (pure_checked _) Hv). subst s0.
  apply stM_bind_ok in H as ([u l] & s0 & Hs & H). pose proof (pure_answer _ _ _ _ (pure_scope ctx) Hs). subst s0.
  apply stM_bind_ok in H as ([] & s0 & Ha & H). apply (pure_answer _ _ _ _ (pure_assert_device header d u)) in Ha as ->.
  apply stM_bind_ok in H as (b & s0 & Hb & H). pose proof (pure_answer _ _ _ _ (pure_body req) Hb). subst s0.
  apply stM_bind_ok in H as ([] & s0 & Hp & H). pose proof (pure_answer _ _ _ _ (pure_checked _) Hp). subst s0.
  destruct req as [b'|]; [|done]. injection Hb as ->. destruct (Hnum b eq_refl) as [Hf Hl].
  cbv zeta in H. rewrite preferencesToWire_of in H by done.
  apply stM_bind_ok in H as ([] & s0 & Hw & H). apply mret_ok in H as [<- <-].
  assert ((checked (validatePreferences b) db).1 = Ok tt) as Hvp by by rewrite Hp. apply checked_ok in Hvp.
  assert ((checked (ValidateDeviceID header) db).1 = Ok tt) as Hvd by by rewrite Hv. apply checked_ok in Hvd.
  assert ((readingScope ctx db).1 = Ok (u, l)) as Hc by by rewrite Hs. apply scope_ok in Hc as [Hc _].
  unfold or_domain, or_fail, SavePreferencesForUser, exec, mbind, stM_bind, attempt in Hw.
  destruct (su_fault su 0%nat); [done|]. simpl in Hw. injection Hw as <-.
  exists u. split; [done|]. split; [done|]. split; [done|]. split.
  - intros u' dv Hne. cbn [preferences set_preferences]. apply lookup_insert_ne. intros [= <- <-]. by apply Hne.
  - intros deps' su' ctx' Hc' Hf'. unfold ReadingPreferencesGetHandler. rewrite Hvd.
    assert (readingScope ctx' = mret (u, ActiveLibraryFromContext ctx')) as Es.
    { revert Hc'. unfold caller, readingScope. destruct (ctx_user ctx') as [user|]; [|done].
      destruct (String.eqb (au_UserID user) ""); [done|]. by intros [= <-]. }
    rewrite Es. set (db1 := set_preferences _ db).
    assert (FindPreferencesByUserAndDevice None u header db1 = (Ok (preferences_of header b), db1)) as Hfind.
    { unfold FindPreferencesByUserAndDevice, query_one, exec, mbind, stM_bind. unfold db1 at 1.
      cbn [preferences set_preferences]. rewrite lookup_insert_eq. cbn [mret stM_ret]. by rewrite settings_read. }
    unfold checked, or_domain, or_fail, attempt, reading, mbind, stM_bind.
    cbn [readingDeps mret stM_ret]. rewrite Hf', Hfind. cbn [mret stM_ret fst]. by rewrite preferencesToWire_of.
Qed.
End preferences.

Definition demo_device_header : string := "3f2504e0-4f89-41d3-9a0c-0305e82c3301".

Lemma preferences_read_back_witness :
  let wanted := mkWirePreferences "serif" (f64_of_Z 19) (tenths 15) "dark" "scroll" "wide" in
  exists db', ReadingPreferencesPutHandler demo_deps (demo_surroundings "x" 80) (signed_in_as "alice")
                demo_device_header (Some wanted) demo_reading = (Ok wanted, db') /\
    forall d, demo_deps = Some d ->
      (ReadingPreferencesGetHandler (Some d) (demo_surroundings "y" 90) (signed_in_as "alice")
         demo_device_header db').1 = Ok wanted.
Proof.
  intros wanted.
  destruct (ReadingPreferencesPutHandler demo_deps (demo_surroundings "x" 80) (signed_in_as "alice")
              demo_device_header (Some wanted) demo_reading) as [r db'] eqn:E.
  assert (is_ok r = true) as Hok by (change r with (r, db').1; rewrite <- E; vm_compute; reflexivity).
  destruct r as [p|e|]; [|discriminate Hok..].
  destruct (preferences_read_back _ _ _ _ _ _ _ _ E) as (u & Hu & Hreq & _ & _ & Hget).
  { intros b [= <-]. split; vm_compute; reflexivity. }
  injection Hreq as <-. exists db'. split; [reflexivity|]. intros d _. apply Hget; [|reflexivity].
  rewrite <- Hu. reflexivity.
Defined.

(** ** Notes on highlights *)

(** Editing a highlight's note concerns one row, which has to be the
    caller's: the answer is that highlight with what the request changes,
    checked against its bounds; when nothing changes nothing is written, so
    no other device is sent it again; otherwise that row alone is written,
    with its owner, its library, its range and its time, and a new sequence
    number.  A request that is refused or fails changes nothing. *)
Theorem ReadingHighlightPatch_spec deps su ctx header id req db r db' :
  ReadingHighlightPatchHandler deps su ctx header id req db = (r, db') ->
  match r with
  | Ok h =>
      exists u row body, caller ctx = Some u /\ highlights db !! id = Some row /\ owned_by u row = true /\
        req = Some body /\
        let note := default (hc_note (sy_cols row)) (nq_Note body) in
        let category := default (hc_category (sy_cols row)) (nq_Category body) in
        note_checked note category /\
        h = highlightToWire (highlight_of id (with_note note category (sy_cols row))) /\
        db' = (if decide (note = hc_note (sy_cols row) /\ category = hc_category (sy_cols row)) then db
               else set_highlights
                      (<[id := updated (su_stamp su) (sy_user row) (sy_library row)
                                 (with_note note category (sy_cols row))]> (highlights db)) db)
  | _ => db' = db
  end.
Proof.
  intros H. unfold ReadingHighlightPatchHandler in H.
  rewrite bind_pure in H by apply pure_deps. destruct (readingDeps deps db).1 as [d|e|]; [|by injection H as <- <-..].
  rewrite bind_pure in H by apply pure_scope.
  destruct (readingScope ctx db).1 as [[u l]|e|] eqn:Hs; [|by injection H as <- <-..]. apply scope_ok in Hs as [Hc _].
  rewrite bind_pure in H by apply pure_assert_device.
  destruct (assertDeviceActive d header u db).1 as [[]|e|]; [|by injection H as <- <-..].
  rewrite bind_pure in H by apply pure_or_domain, pure_find_row.
  destruct (or_domain _ db).1 as [ex|e|] eqn:Hf; [|by injection H as <- <-..].
  assert (exists row, highlights db !! id = Some row /\ owned_by u row = true /\ ex = highlight_of id (sy_cols row))
    as (row & Hrow & Hown & ->).
  { revert Hf. unfold or_domain, or_fail, FindHighlightByIDAndUser, query_one, exec, mbind, stM_bind, attempt.
    destruct (su_fault su 0%nat); [done|]. destruct (highlights db !! id) as [row|]; simpl; [|done].
    destruct (owned_by u row) eqn:Eo; simpl; [|done]. intros [= <-]. by exists row. }
  rewrite bind_pure in H by apply pure_body. destruct req as [body|]; [|by injection H as <- <-].
  cbn [body_of mret stM_ret fst] in H. cbv zeta in H.
  set (note := default _ (nq_Note body)) in H. set (category := default _ (nq_Category body)) in H.
  rewrite bind_pure in H by apply pure_bounded.
  destruct (bounded_or_empty "note" note 2000 db).1 as [[]|e|] eqn:Hn; [|by injection H as <- <-..].
  rewrite bind_pure in H by apply pure_bounded.
  destruct (bounded_or_empty "category" category 50 db).1 as [[]|e|] eqn:Hcat; [|by injection H as <- <-..].
  apply bounded_ok in Hn. apply bounded_ok in Hcat.
  change (h_note (highlight_of id (sy_cols row))) with (hc_note (sy_cols row)) in H.
  change (h_category (highlight_of id (sy_cols row))) with (hc_category (sy_cols row)) in H.
  assert (forall (b : bool), b = (negb (String.eqb note (hc_note (sy_cols row))) || negb (String.eqb category (hc_category (sy_cols row)))) ->
    b = negb (bool_decide (note = hc_note (sy_cols row) /\ category = hc_category (sy_cols row)))) as Hb.
  { intros b ->. destruct (String.eqb_spec note (hc_note (sy_cols row))), (String.eqb_spec category (hc_category (sy_cols row)));
      simpl; symmetry; [apply negb_false_iff|apply negb_true_iff..]; try (by apply bool_decide_eq_true);
      apply bool_decide_eq_false; tauto. }
  destruct (_ || _) eqn:Ec in H; symmetry in Ec; apply Hb in Ec.
  - symmetry in Ec. apply negb_true_iff, bool_decide_eq_false in Ec. revert H.
    unfold or_domain, or_fail, UpdateNoteCategoryAndUser, affecting, exec, mbind, stM_bind, attempt.
    destruct (su_fault su 1%nat); simpl; [by intros [= <- <-]|]. rewrite Hrow, Hown. simpl. intros [= <- <-].
    exists u, row, body. conjuncts. cbv zeta. rewrite decide_False by done. conjuncts.
  - symmetry in Ec. apply negb_false_iff, bool_decide_eq_true in Ec. injection H as <- <-.
    exists u, row, body. conjuncts. cbv zeta. rewrite decide_True by done. conjuncts.
Qed.

Lemma ReadingHighlightPatch_spec_witness :
  let su := demo_surroundings "x" 80 in
  exists h db', ReadingHighlightPatchHandler demo_deps su (signed_in_as "alice") "" "h1"
                  (Some (mkNoteRequest (Some "better") None)) demo_reading = (Ok h, db') /\
    wh_Note h = "better" /\ wh_StartCFI h = "epubcfi(/6/4!/4/2)" /\
    exists row, highlights db' !! "h1" = Some row /\ sy_sequence row = 22 /\ hc_note (sy_cols row) = "better".
Proof.
  intros su.
  destruct (ReadingHighlightPatchHandler demo_deps su (signed_in_as "alice") "" "h1"
              (Some (mkNoteRequest (Some "better") None)) demo_reading) as [r db'] eqn:E.
  assert (is_ok r = true) as Hok by (change r with (r, db').1; rewrite <- E; vm_compute; reflexivity).
  pose proof (ReadingHighlightPatch_spec _ _ _ _ _ _ _ _ _ E) as H.
  destruct r as [h|e|]; [|discriminate Hok..].
  destruct H as (u & row & body & _ & Hrow & _ & Hbody & H). injection Hbody as <-.
  change (highlights demo_reading !! "h1") with
    (Some (demo_reading_row "alice" 3 (mkHighlightCols "h1" "e1" "epubcfi(/6/4!/4/2)" "epubcfi(/6/4!/4/6)" "nice" "" 12)))
    in Hrow. injection Hrow as <-. destruct H as (_ & -> & ->).
  eexists _, _. split; [reflexivity|]. split; [reflexivity|]. split; [reflexivity|].
  eexists. split; [reflexivity|]. split; reflexivity.
Defined.

(** ** The transaction's tables *)

Section push.
(** The driver's errors of the transaction's statements, its stamp, and whose
    rows it works on. *)
Context (fault : nat -> option pg_error) (st : stamp) (u : UserID) (l : LibraryID).

#[export] Instance push_store : ProgressStore (reading_db * pairing_db) := {|
  progress_rows s := scoped_progress u l s.1;
  FindByWorkForUpdate workID s := (findByWork (fault 0%nat) u l workID s.1).1;
  SaveProgress p s :=
    db ← stored (SaveProgressForUser (fault 1%nat) st u l p) s.1;
    mret (db, s.2);
|}.

(** The statements of [AdvanceDeviceCursor]: the update, and the look at a row
    it did not find. *)
Definition advance_aborts (id : DeviceID) (newCursor : Z) (now : Time) (devs : pairing_db) : bool :=
  match update_devices (fault 3%nat) (fun k r => String.eqb k id && active r && (dr_cursor r <? newCursor))
          (set_dr_cursor newCursor now) devs with
  | (Ok n, _) => (n =? 0) && bool_decide (is_Some (fault 4%nat))
  | _ => true
  end.

#[export] Instance push_tables : SyncTables (reading_db * pairing_db) := {|
  ProgressSequence id s := (ProgressSyncSequence (fault 2%nat) id s.1).1;
  AdvanceCursorInTx id newCursor now s :=
    let '(r, devs) := AdvanceDeviceCursor (fault 3%nat) (fault 4%nat) id newCursor now s.2 in
    (r, (s.1, devs));
  SequenceAborts _ _ := bool_decide (is_Some (fault 2%nat));
  AdvanceAborts id newCursor now s := advance_aborts id newCursor now s.2;
|}.

#[export] Instance push_store_laws : ProgressStoreLaws (reading_db * pairing_db).
Proof.
  pose proof (progressStore_laws (fault 0%nat) (fault 1%nat) st u l) as [H1 H2 H3]. split; simpl in *.
  - intros s w p. apply H1.
  - intros s w e. apply H2.
  - intros s p s' E. unfold mbind in E. simpl in E.
    destruct (stored _ s.1) as [db|e|] eqn:Es; [|done..]. injection E as <-. by apply H3.
Qed.

#[export] Instance push_tables_laws : SyncTablesLaws (reading_db * pairing_db).
Proof. split. intros id n t s. simpl. by destruct (AdvanceDeviceCursor _ _ _ _ _ _). Qed.

(** ** The row a push leaves *)

(** What a successful save of the transaction leaves under the row's id. *)
Lemma saved_row p s s' :
  SaveProgress p s = Ok s' ->
  s'.2 = s.2 /\ exists row, progress_table s'.1 !! rp_id p = Some row /\
    sy_sequence row = match progress_table s.1 !! rp_id p with None => st_insert st | Some _ => st_update st end.
Proof.
  simpl. unfold stored. destruct (SaveProgressForUser _ _ _ _ _ _) as [[[]|e|] db] eqn:E; simpl; [|done..].
  intros [= <-]. apply save_inv in E as (row & -> & _ & _ & _ & Hs). split; [done|].
  exists row. simpl. by rewrite lookup_insert_eq.
Qed.

Lemma sequence_read id s row :
  progress_table s.1 !! id = Some row -> fault 2%nat = None -> ProgressSequence id s = Ok (sy_sequence row).
Proof. intros E Hf. simpl. unfold ProgressSyncSequence, query_one, exec, mbind, stM_bind. rewrite Hf, E. done. Qed.

Lemma sequence_value id s row q :
  progress_table s.1 !! id = Some row -> ProgressSequence id s = Ok q -> q = sy_sequence row.
Proof.
  intros E. destruct (fault 2%nat) eqn:Hf; [|rewrite (sequence_read _ _ row) by done; congruence].
  simpl. unfold ProgressSyncSequence, query_one, exec, mbind, stM_bind. by rewrite Hf.
Qed.

(** The write of a report that is not merely rejected or unchanged. *)
Lemma report_saves newID report o s p out s1 :
  reconcile_and_persist newID report o s = (Ok (p, out), s1) ->
  out = ReconcileAdvanced \/ out = ReconcileOverridden ->
  SaveProgress p s = Ok s1 /\
  rp_id p = match (findByWork (fault 0%nat) u l (pr_WorkID report) s.1).1 with Ok cur => rp_id cur | _ => newID end.
Proof.
  unfold reconcile_and_persist.
  change (FindByWorkForUpdate (pr_WorkID report) s) with (findByWork (fault 0%nat) u l (pr_WorkID report) s.1).1.
  destruct (findByWork _ _ _ _ _).1 as [cur|e|]; [| |done].
  - destruct o.
    + intros H _. svc_inv H. by simplify_eq.
    + destruct (bool_decide _) eqn:Eo.
      * intros H _. svc_inv H. simplify_eq. split; [done|]. apply reconcile_keeps.
      * apply bool_decide_eq_false in Eo. intros [= <- <- <-] Hout.
        exfalso. destruct Hout as [?|Hout]; [done|]. revert Hout. unfold ReconcileProgress. repeat case_match; done.
  - destruct (bool_decide _); [|done]. intros H _. svc_inv H. by simplify_eq.
Qed.

(** A push moves the device's cursor over its own write only when the
    write is the account's first of the book.  A later write is an upsert that
    finds its row, so the trigger draws two numbers of the sequence, one
    before the insertion and one before the update, and the row carries the
    second, at least two beyond the cursor: the comparison with the cursor's
    successor fails, the cursor and the device stay, and the next delta
    delivers the device its own write, even when nothing lies between.  Of a
    first write the row carries the first number, and the cursor moves over
    it exactly when that is the cursor's successor and the device's row can
    be updated. *)
Theorem push_echo newID dev report o now s p out c s' :
  sync_progress_body newID dev report o now s = (Ok (p, out, c), s') ->
  out = ReconcileAdvanced \/ out = ReconcileOverridden ->
  progress_table s.1 !! newID = None -> fault 2%nat = None ->
  pd_syncCursor dev < st_insert st < st_update st ->
  exists row, progress_table s'.1 !! rp_id p = Some row /\
  match (findByWork (fault 0%nat) u l (pr_WorkID report) s.1).1 with
  | Ok _ => sy_sequence row = st_update st /\ c = pd_syncCursor dev /\ s'.2 = s.2
  | _ =>
      sy_sequence row = st_insert st /\
      let advance := AdvanceDeviceCursor (fault 3%nat) (fault 4%nat) (pd_id dev) (st_insert st) now s.2 in
      if decide (st_insert st = pd_syncCursor dev + 1) then
        c = (if is_ok advance.1 then st_insert st else pd_syncCursor dev) /\ s'.2 = advance.2
      else c = pd_syncCursor dev /\ s'.2 = s.2
  end.
Proof.
  rewrite sync_body_eq. intros H Hout Hnew Hf Hst.
  apply stM_bind_ok in H as ([q out'] & s1 & Hr & H). apply stM_bind_ok in H as (c' & s2 & Ha & H).
  apply mret_ok in H as [[= -> -> ->] ->].
  destruct (report_saves _ _ _ _ _ _ _ Hr Hout) as [Hs Hid]. destruct (saved_row _ _ _ Hs) as (E2 & row & Hrow & Hseq).
  assert (progress_table s'.1 = progress_table s1.1) as Et.
  { unfold advance_over_echo in Ha.
    destruct (ProgressSequence _ _) as [z|e|]; [|destruct (SequenceAborts _ _); by simplify_eq..].
    destruct (z =? _); [|by injection Ha as _ <-]. destruct (AdvanceAborts _ _ _ _); [done|]. simpl in Ha.
    destruct (AdvanceDeviceCursor _ _ _ _ _ _) as [[[]|e|] devs]; by injection Ha as _ <-. }
  exists row. split; [by rewrite Et|].
  unfold advance_over_echo in Ha. rewrite (sequence_read _ _ _ Hrow Hf) in Ha. rewrite Hseq in *. clear Hseq.
  destruct (findByWork _ _ _ _ _).1 as [cur|e|] eqn:Ef; rewrite Hid in *.
  - apply find_inv in Ef as [Ef _]. apply scoped_lookup in Ef as (r & Er & _). rewrite Er in *.
    rewrite (proj2 (Z.eqb_neq _ _)) in Ha by lia. by injection Ha as <- <-.
  - rewrite Hnew in *. split; [done|]. cbv zeta. destruct (Z.eqb_spec (st_insert st) (pd_syncCursor dev + 1)).
    + rewrite decide_True by done. destruct (AdvanceAborts _ _ _ _); [done|]. simpl in Ha. rewrite E2 in Ha.
      destruct (AdvanceDeviceCursor _ _ _ _ _ _) as [[[]|e'|] devs]; by injection Ha as <- <-.
    + rewrite decide_False by done. by injection Ha as <- <-.
  - rewrite Hnew in *. split; [done|]. cbv zeta. destruct (Z.eqb_spec (st_insert st) (pd_syncCursor dev + 1)).
    + rewrite decide_True by done. destruct (AdvanceAborts _ _ _ _); [done|]. simpl in Ha. rewrite E2 in Ha.
      destruct (AdvanceDeviceCursor _ _ _ _ _ _) as [[[]|e'|] devs]; by injection Ha as <- <-.
    + rewrite decide_False by done. by injection Ha as <- <-.
Qed.
End push.

(** Alice's tablet has pulled everything up to 20, and nothing else is written:
    its push gets 21 and 22, and its cursor stays at 20. *)
Definition demo_tablet : PairedDevice :=
  mkPairedDevice "tablet" "alice" "Tablet" "tablet" "pairing" 0 0 None 20 None.

Definition demo_devices : pairing_db :=
  mkPairingDb ∅ {[ "tablet" := mkDeviceRow (Some "alice") "Tablet" "tablet" "pairing" 0 0 None None 20 None ]} ∅ ∅.

Lemma push_echo_witness :
  let st := mkStamp 9 21 22 in
  let report := mkProgressReport "w1" (tenths 7) 0 None "tablet" 60 in
  exists p s', @sync_progress_body _ _ (push_tables (fun _ => None) st "alice" DefaultLibrary) "n9" demo_tablet
                 report false 60 (demo_reading, demo_devices) = (Ok (p, ReconcileAdvanced, 20), s') /\
    exists row, progress_table s'.1 !! "p1" = Some row /\ sy_sequence row = 22 /\ s'.2 = demo_devices.
Proof.
  intros st report.
  destruct (@sync_progress_body _ _ (push_tables (fun _ => None) st "alice" DefaultLibrary) "n9" demo_tablet
              report false 60 (demo_reading, demo_devices)) as [r s'] eqn:E.
  assert (match r with Ok (p, out, _) => String.eqb (rp_id p) "p1" && bool_decide (out = ReconcileAdvanced)
          | _ => false end = true) as Hr.
  { change r with (r, s').1. rewrite <- E. vm_compute. reflexivity. }
  destruct r as [[[p out] c]|e|]; [|discriminate Hr..].
  apply andb_true_iff in Hr as [Hp Ho]. apply String.eqb_eq in Hp. apply bool_decide_eq_true in Ho. subst out.
  destruct (push_echo (fun _ => None) st "alice" DefaultLibrary "n9" demo_tablet report false 60
              (demo_reading, demo_devices) p ReconcileAdvanced c s' E (or_introl eq_refl) eq_refl eq_refl)
    as (row & Hrow & Hrest); [split; reflexivity|].
  assert (is_ok (findByWork None "alice" DefaultLibrary "w1" demo_reading).1 = true) as Hf by (vm_compute; reflexivity).
  cbn [fst] in Hrest. change (pr_WorkID report) with "w1" in Hrest.
  destruct (findByWork None "alice" DefaultLibrary "w1" demo_reading).1 as [cur|e|]; [|discriminate Hf..].
  destruct Hrest as (Hseq & -> & Hdev). rewrite Hp in Hrow.
  exists p, s'. split; [reflexivity|]. exists row. split; [exact Hrow|]. split; [exact Hseq | exact Hdev].
Defined.
