(* ===== verification/CatalogStore.v ===== *)
(** * The catalogue tables
      (src/internal/persistence/postgres: work_repository.go,
       author_repository.go, edition_repository.go, source_repository.go,
       source_offering_repository.go, sources.go)

    Works, authors, editions, sources and offerings in the tables of
    migrations 00002, 00005 and 00009, and the statements of their
    repositories; of the libraries only which there are.  The library_id
    columns of sources and offerings, which none of these statements names, are
    left out.
    A table with an identifier is a map; a table of children is the list of its
    rows in the order they were inserted.  A query without ORDER BY answers
    them in whatever order the database chooses: the loads take that order as
    their argument.  [Save] is one statement after another, any of which can
    fail: [faults] says which. *)

From S2P Require Import Prelude GoStrings Errors Validate Catalog Postgres Http.

Local Open Scope string_scope.
Local Open Scope list_scope.
Local Open Scope Z_scope.

(** ** Tables *)

Record work_cols := mkWorkCols {
  wc_title : string;
  wc_subtitle : string;
  wc_original_language : option string;
  wc_merged_into : option WorkID;
}.
Record author_cols := mkAuthorCols { ac_name : string; ac_merged_into : option AuthorID }.
Record edition_cols := mkEditionCols {
  ec_work_id : WorkID;
  ec_language : string;
  ec_isbn : option string;
  ec_publisher : string;
  ec_publication_year : option Z;
}.
Record source_cols := mkSourceCols {
  sc_label : string;
  sc_kind : string;
  sc_config_base_path : string;
  sc_config_base_url : string;
  sc_credential_ciphertext : option string;
  sc_credential_nonce : option string;
  sc_health_status : string;
  sc_health_detail : option string;
  sc_health_checked_at : option Time;
  sc_search_link_url : option string;
  sc_capabilities : SourceCapabilities;
  sc_created_at : Time;
}.
Record offering_cols := mkOfferingCols {
  oc_source_id : SourceID;
  oc_edition_id : EditionID;
  oc_reference_id : string;
  oc_format : string;
  oc_size_bytes : option Z;
  oc_observed_at : Time;
}.
Record library_entry_row := mkLibraryEntryRow {
  lr_id : LibraryEntryID;
  lr_edition_id : EditionID;
  lr_library_id : LibraryID;
  lr_added_at : Time;
}.
Record collection_cols := mkCollectionCols { cc_name : string; cc_library_id : LibraryID }.
Record member_row := mkMemberRow {
  mr_collection_id : CollectionID;
  mr_work_id : WorkID;
  mr_added_at : Time;
}.

Record catalog_db := mkCatalogDb {
  ct_works : gmap WorkID work_cols;
  ct_work_authors : list (WorkID * AuthorID);
  ct_work_subjects : list (WorkID * string);
  ct_work_external_references : list (WorkID * ExternalReference);
  ct_work_contains : list (WorkID * WorkID);
  ct_authors : gmap AuthorID author_cols;
  ct_author_external_references : list (AuthorID * ExternalReference);
  ct_editions : gmap EditionID edition_cols;
  ct_edition_external_references : list (EditionID * ExternalReference);
  ct_sources : gmap SourceID source_cols;
  ct_source_offerings : gmap SourceOfferingID offering_cols;
  ct_library_entries : list library_entry_row;
  ct_collections : gmap CollectionID collection_cols;
  ct_collection_members : list member_row;
  ct_libraries : gset LibraryID;
}.

Definition with_works t db := mkCatalogDb t (ct_work_authors db) (ct_work_subjects db) (ct_work_external_references db)
  (ct_work_contains db) (ct_authors db) (ct_author_external_references db) (ct_editions db)
  (ct_edition_external_references db) (ct_sources db) (ct_source_offerings db) (ct_library_entries
  db) (ct_collections db) (ct_collection_members db)
  (ct_libraries db).
Definition with_work_authors t db := mkCatalogDb (ct_works db) t (ct_work_subjects db) (ct_work_external_references db)
  (ct_work_contains db) (ct_authors db) (ct_author_external_references db) (ct_editions db)
  (ct_edition_external_references db) (ct_sources db) (ct_source_offerings db) (ct_library_entries
  db) (ct_collections db) (ct_collection_members db)
  (ct_libraries db).
Definition with_work_subjects t db := mkCatalogDb (ct_works db) (ct_work_authors db) t (ct_work_external_references db)
  (ct_work_contains db) (ct_authors db) (ct_author_external_references db) (ct_editions db)
  (ct_edition_external_references db) (ct_sources db) (ct_source_offerings db) (ct_library_entries
  db) (ct_collections db) (ct_collection_members db)
  (ct_libraries db).
Definition with_work_external_references t db := mkCatalogDb (ct_works db) (ct_work_authors db) (ct_work_subjects db) t (ct_work_contains db)
  (ct_authors db) (ct_author_external_references db) (ct_editions db)
  (ct_edition_external_references db) (ct_sources db) (ct_source_offerings db) (ct_library_entries
  db) (ct_collections db) (ct_collection_members db)
  (ct_libraries db).
Definition with_work_contains t db := mkCatalogDb (ct_works db) (ct_work_authors db) (ct_work_subjects db)
  (ct_work_external_references db) t (ct_authors db) (ct_author_external_references db)
  (ct_editions db) (ct_edition_external_references db) (ct_sources db) (ct_source_offerings db)
  (ct_library_entries db) (ct_collections db) (ct_collection_members db)
  (ct_libraries db).
Definition with_authors t db := mkCatalogDb (ct_works db) (ct_work_authors db) (ct_work_subjects db)
  (ct_work_external_references db) (ct_work_contains db) t (ct_author_external_references db)
  (ct_editions db) (ct_edition_external_references db) (ct_sources db) (ct_source_offerings db)
  (ct_library_entries db) (ct_collections db) (ct_collection_members db)
  (ct_libraries db).
Definition with_author_external_references t db := mkCatalogDb (ct_works db) (ct_work_authors db) (ct_work_subjects db)
  (ct_work_external_references db) (ct_work_contains db) (ct_authors db) t (ct_editions db)
  (ct_edition_external_references db) (ct_sources db) (ct_source_offerings db) (ct_library_entries
  db) (ct_collections db) (ct_collection_members db)
  (ct_libraries db).
Definition with_editions t db := mkCatalogDb (ct_works db) (ct_work_authors db) (ct_work_subjects db)
  (ct_work_external_references db) (ct_work_contains db) (ct_authors db)
  (ct_author_external_references db) t (ct_edition_external_references db) (ct_sources db)
  (ct_source_offerings db) (ct_library_entries db) (ct_collections db) (ct_collection_members db)
  (ct_libraries db).
Definition with_edition_external_references t db := mkCatalogDb (ct_works db) (ct_work_authors db) (ct_work_subjects db)
  (ct_work_external_references db) (ct_work_contains db) (ct_authors db)
  (ct_author_external_references db) (ct_editions db) t (ct_sources db) (ct_source_offerings db)
  (ct_library_entries db) (ct_collections db) (ct_collection_members db)
  (ct_libraries db).
Definition with_sources t db := mkCatalogDb (ct_works db) (ct_work_authors db) (ct_work_subjects db)
  (ct_work_external_references db) (ct_work_contains db) (ct_authors db)
  (ct_author_external_references db) (ct_editions db) (ct_edition_external_references db) t
  (ct_source_offerings db) (ct_library_entries db) (ct_collections db) (ct_collection_members db)
  (ct_libraries db).
Definition with_source_offerings t db := mkCatalogDb (ct_works db) (ct_work_authors db) (ct_work_subjects db)
  (ct_work_external_references db) (ct_work_contains db) (ct_authors db)
  (ct_author_external_references db) (ct_editions db) (ct_edition_external_references db)
  (ct_sources db) t (ct_library_entries db) (ct_collections db) (ct_collection_members db)
  (ct_libraries db).
Definition with_library_entries t db := mkCatalogDb (ct_works db) (ct_work_authors db) (ct_work_subjects db)
  (ct_work_external_references db) (ct_work_contains db) (ct_authors db)
  (ct_author_external_references db) (ct_editions db) (ct_edition_external_references db)
  (ct_sources db) (ct_source_offerings db) t (ct_collections db) (ct_collection_members db)
  (ct_libraries db).
Definition with_collections t db := mkCatalogDb (ct_works db) (ct_work_authors db) (ct_work_subjects db)
  (ct_work_external_references db) (ct_work_contains db) (ct_authors db)
  (ct_author_external_references db) (ct_editions db) (ct_edition_external_references db)
  (ct_sources db) (ct_source_offerings db) (ct_library_entries db) t (ct_collection_members db)
  (ct_libraries db).
Definition with_collection_members t db := mkCatalogDb (ct_works db) (ct_work_authors db) (ct_work_subjects db)
  (ct_work_external_references db) (ct_work_contains db) (ct_authors db)
  (ct_author_external_references db) (ct_editions db) (ct_edition_external_references db)
  (ct_sources db) (ct_source_offerings db) (ct_library_entries db) (ct_collections db) t (ct_libraries db).

Abbreviation catalogM := (stM catalog_db error) (only parsing).

(** A statement that writes: it fails, or it leaves new tables. *)
Definition execute_ {S} (fault : option pg_error) (f : S -> res pg_error S) : stM S error unit :=
  exec fault (fun db => db' ← f db; Ok (tt, db')).

(** ** Tables of children

    Rows of a parent's identifier and a value, both the primary key. *)
Section children.
Context {V : Type} `{EqDecision V}.

Definition children (k : string) (t : list (string * V)) : list V :=
  (List.filter (fun kv => String.eqb kv.1 k) t).*2.
Definition delete_children (k : string) (t : list (string * V)) : list (string * V) :=
  List.filter (fun kv => negb (String.eqb kv.1 k)) t.
Definition insert_child (k : string) (v : V) (t : list (string * V))
    : res pg_error (list (string * V)) :=
  if bool_decide (v ∈ children k t) then Err unique_violation else Ok (t ++ [(k, v)]).

(** The DELETE and the loop of INSERTs that replace the children of [k]; the
    statements are numbered from [n] on.  [known] is the foreign key of the
    values. *)
Context {S : Type} (get : S -> list (string * V)) (set : list (string * V) -> S -> S).
Context (known : V -> S -> bool).

Fixpoint insert_children (faults : nat -> option pg_error) (n : nat) (k : string) (l : list V)
    : stM S error unit :=
  match l with
  | [] => mret tt
  | v :: l' =>
      _ ← execute_ (faults n) (fun db =>
        if negb (known v db) then Err foreign_key_violation
        else t ← insert_child k v (get db); Ok (set t db));
      insert_children faults (Datatypes.S n) k l'
  end.

Definition replace_children (faults : nat -> option pg_error) (n : nat) (k : string) (l : list V)
    : stM S error unit :=
  _ ← execute_ (faults n) (fun db => Ok (set (delete_children k (get db)) db));
  insert_children faults (Datatypes.S n) k l.
End children.

(** The order of the rows of a query without ORDER BY, which PostgreSQL
    chooses and may change from one query to the next: [arrange order n] is
    what it makes of the rows of the [n]-th query of a load. *)
Record row_order := mkRowOrder {
  arrange : forall V : Type, nat -> list V -> list V;
  arrange_perm : forall V n (l : list V), arrange V n l ≡ₚ l;
}.
Arguments arrange _ {_} _ _.
Arguments arrange_perm _ {_} _ _.

(** The order of insertion, one of the orders there are. *)
Definition as_inserted : row_order := mkRowOrder (fun _ _ l => l) (fun _ _ _ => Permutation_refl _).

(** The values without a foreign key. *)
Definition unchecked {V S} (_ : V) (_ : S) : bool := true.

Definition work_known (i : WorkID) (db : catalog_db) : bool := bool_decide (is_Some (ct_works db !! i)).
Definition author_known (i : AuthorID) (db : catalog_db) : bool :=
  bool_decide (is_Some (ct_authors db !! i)).
Definition optionally_known (known : string -> catalog_db -> bool) (o : option string) (db : catalog_db)
    : bool :=
  match o with None => true | Some i => known i db end.

(** ** Works (work_repository.go) *)

(** What a row is rejected with when it does not scan into the domain. *)
Definition scanned {A} (r : Result A) : Result A :=
  match r with Err e => Err (TranslateError (ConnError e)) | _ => r end.

Definition scan_language (tag : option string) : Result (option Language) :=
  match tag with
  | None => Ok None
  | Some t => l ← scanned (NewLanguage t); Ok (Some l)
  end.

Fixpoint scan_subjects (l : list string) : Result (list Subject) :=
  match l with
  | [] => Ok []
  | v :: l' =>
      s ← scanned (NewSubject v);
      rest ← scan_subjects l';
      Ok (s :: rest)
  end.

Definition lift {A} (r : Result A) : catalogM A := reading (fun _ => r).

(** [load]: its five queries. *)
Definition load_work (order : row_order) (faults : nat -> option pg_error) (id : WorkID) : catalogM Work :=
  row ← query_one (faults 0%nat) "work not found" (fun db => ct_works db !! id);
  lang ← lift (scan_language (wc_original_language row));
  authors ← exec (faults 1%nat) (fun db => Ok (arrange order 1 (children id (ct_work_authors db)), db));
  values ← exec (faults 2%nat) (fun db => Ok (arrange order 2 (children id (ct_work_subjects db)), db));
  subjects ← lift (scan_subjects values);
  refs ← exec (faults 3%nat) (fun db => Ok (arrange order 3 (children id (ct_work_external_references db)), db));
  contains ← exec (faults 4%nat) (fun db => Ok (arrange order 4 (children id (ct_work_contains db)), db));
  mret (RehydrateWork id (wc_title row) (wc_subtitle row) authors subjects lang refs
          (wc_merged_into row) contains).

Definition FindWorkByID := load_work.

(** A loop of loads, the faults of each its own. *)
Fixpoint load_all {A} (load : (nat -> option pg_error) -> string -> catalogM A)
    (faults : nat -> nat -> option pg_error) (ids : list string) : catalogM (list A) :=
  match ids with
  | [] => mret []
  | i :: ids' =>
      a ← load (faults 0%nat) i;
      rest ← load_all load (fun n => faults (S n)) ids';
      mret (a :: rest)
  end.

Definition FindWorksMergedInto (order : row_order) (fault : option pg_error) (faults : nat -> nat -> option pg_error)
    (canonical : WorkID) : catalogM (list Work) :=
  ids ← exec fault (fun db =>
    Ok (arrange order 0 (select (fun _ r => bool_decide (wc_merged_into r = Some canonical)) (ct_works db)).*1,
        db));
  load_all (load_work order) faults ids.

Definition work_row (w : Work) : work_cols :=
  mkWorkCols (w_title w) (w_subtitle w) (lang_tag <$> w_originalLanguage w) (w_mergedInto w).

(** The upsert of the row of a work; [merged_into] references a work. *)
Definition upsert_work (w : Work) (db : catalog_db) : res pg_error catalog_db :=
  let works := <[w_id w := work_row w]> (ct_works db) in
  if negb (optionally_known work_known (w_mergedInto w) (with_works works db)) then
    Err foreign_key_violation
  else Ok (with_works works db).

(** [Save] of the work repository.  The statements after the upsert are the
    four replacements, in this order. *)
Definition SaveWorkRow (faults : nat -> option pg_error) (w : Work) : catalogM unit :=
  let n1 := 1%nat in
  let n2 := (n1 + 1 + length (w_authors w))%nat in
  let n3 := (n2 + 1 + length (w_subjects w))%nat in
  let n4 := (n3 + 1 + length (w_externalReferences w))%nat in
  _ ← execute_ (faults 0%nat) (upsert_work w);
  _ ← replace_children ct_work_authors with_work_authors unchecked faults n1 (w_id w) (w_authors w);
  _ ← replace_children ct_work_subjects with_work_subjects unchecked faults n2 (w_id w)
        (subject_value <$> w_subjects w);
  _ ← replace_children ct_work_external_references with_work_external_references unchecked faults n3
        (w_id w) (w_externalReferences w);
  replace_children ct_work_contains with_work_contains work_known faults n4 (w_id w) (w_contains w).

(** ** Authors (author_repository.go) *)

Definition FindAuthorByID (order : row_order) (faults : nat -> option pg_error) (id : AuthorID) : catalogM Author :=
  row ← query_one (faults 0%nat) "author not found" (fun db => ct_authors db !! id);
  refs ← exec (faults 1%nat) (fun db =>
    Ok (arrange order 1 (children id (ct_author_external_references db)), db));
  mret (RehydrateAuthor id (ac_name row) refs (ac_merged_into row)).

Definition upsert_author (a : Author) (db : catalog_db) : res pg_error catalog_db :=
  let authors := <[a_id a := mkAuthorCols (a_name a) (a_mergedInto a)]> (ct_authors db) in
  if negb (optionally_known author_known (a_mergedInto a) (with_authors authors db)) then
    Err foreign_key_violation
  else Ok (with_authors authors db).

Definition SaveAuthorRow (faults : nat -> option pg_error) (a : Author) : catalogM unit :=
  _ ← execute_ (faults 0%nat) (upsert_author a);
  replace_children ct_author_external_references with_author_external_references unchecked faults 1
    (a_id a) (a_externalReferences a).

(** ** Editions (edition_repository.go) *)

Definition FindEditionByID (order : row_order) (faults : nat -> option pg_error) (id : EditionID) : catalogM Edition :=
  row ← query_one (faults 0%nat) "edition not found" (fun db => ct_editions db !! id);
  lang ← lift (scanned (NewLanguage (ec_language row)));
  refs ← exec (faults 1%nat) (fun db =>
    Ok (arrange order 1 (children id (ct_edition_external_references db)), db));
  lift (scanned (NewEdition id (ec_work_id row) lang (ec_isbn row) (ec_publisher row)
                   (ec_publication_year row) refs)).

Definition FindEditionsByWork (order : row_order) (fault : option pg_error)
    (faults : nat -> nat -> option pg_error) (workID : WorkID) : catalogM (list Edition) :=
  ids ← exec fault (fun db =>
    Ok (arrange order 0 (select (fun _ r => String.eqb (ec_work_id r) workID) (ct_editions db)).*1, db));
  load_all (FindEditionByID order) faults ids.

(** An INTEGER column: the driver does not encode more than 32 bits. *)
Definition int4 (o : option Z) : bool :=
  match o with None => true | Some z => (- 2 ^ 31 <=? z) && (z <? 2 ^ 31) end.
Definition not_int4 : pg_error := ConnError (New "unable to encode into int4").

Definition upsert_edition (e : Edition) (db : catalog_db) : res pg_error catalog_db :=
  if negb (int4 (e_publicationYear e)) then Err not_int4
  else if negb (work_known (e_workID e) db) then Err foreign_key_violation
  else Ok (with_editions (<[e_id e := mkEditionCols (e_workID e) (lang_tag (e_language e)) (e_isbn e)
                                      (e_publisher e) (e_publicationYear e)]> (ct_editions db)) db).

Definition SaveEditionRow (faults : nat -> option pg_error) (e : Edition) : catalogM unit :=
  _ ← execute_ (faults 0%nat) (upsert_edition e);
  replace_children ct_edition_external_references with_edition_external_references unchecked faults 1
    (e_id e) (e_externalReferences e).

(** ** Sources (source_repository.go, sources.go) *)

(** The CHECK constraints of migration 00005. *)
Definition health_details : list string :=
  ["timeout"; "connection-refused"; "http-4xx"; "http-5xx"; "http-3xx-unsupported";
   "unparseable-response"; "path-not-found"; "path-not-readable"; "auth-rejected"].

Definition source_checks (r : source_cols) : bool :=
  bool_decide (sc_health_status r ∈ ["unknown"; "reachable"; "unreachable"]) &&
  match sc_health_detail r with None => true | Some d => bool_decide (d ∈ health_details) end &&
  (bool_decide (sc_credential_ciphertext r = None) || String.eqb (sc_kind r) "opds") &&
  Bool.eqb (bool_decide (sc_credential_ciphertext r = None)) (bool_decide (sc_credential_nonce r = None)).

Definition write_source (id : SourceID) (r : source_cols) (db : catalog_db) : res pg_error catalog_db :=
  if source_checks r then Ok (with_sources (<[id := r]> (ct_sources db)) db) else Err check_violation.

Definition FindSourceByID (fault : option pg_error) (id : SourceID) : catalogM Source :=
  r ← query_one fault "source not found" (fun db => ct_sources db !! id);
  lift (scanned (NewSource id (sc_label r) (sc_capabilities r) (sc_kind r))).

(** The upsert leaves the columns it does not name; [now] is the default of
    [created_at]. *)
Definition SaveSourceRow (fault : option pg_error) (now : Time) (s : Source) : catalogM unit :=
  execute_ fault (fun db =>
    write_source (s_id s)
      (match ct_sources db !! s_id s with
       | Some r => mkSourceCols (s_label s) (s_kind s) (sc_config_base_path r) (sc_config_base_url r)
                     (sc_credential_ciphertext r) (sc_credential_nonce r) (sc_health_status r)
                     (sc_health_detail r) (sc_health_checked_at r) (sc_search_link_url r)
                     (s_capabilities s) (sc_created_at r)
       | None => mkSourceCols (s_label s) (s_kind s) "" "" None None "unknown" None None None
                   (s_capabilities s) now
       end) db).

Definition DeleteSourceRow (fault : option pg_error) (id : SourceID) : catalogM unit :=
  execute_ fault (fun db =>
    if bool_decide (map_Forall (fun _ o => oc_source_id o <> id) (ct_source_offerings db))
    then Ok (with_sources (delete id (ct_sources db)) db)
    else Err foreign_key_violation).

(** The whole row, as the administration of sources reads and writes it. *)
Record SourceRecord := mkSourceRecord {
  sr_ID : string;
  sr_Label : string;
  sr_Kind : string;
  sr_ConfigBasePath : string;
  sr_ConfigBaseURL : string;
  sr_CredentialCiphertext : string;
  sr_CredentialNonce : string;
  sr_HealthStatus : string;
  sr_HealthDetail : string;
  sr_HealthCheckedAt : option Time;
  sr_SearchLinkURL : string;
  sr_Capabilities : SourceCapabilities;
  sr_CreatedAt : Time;
}.

Definition HasCredential (r : SourceRecord) : bool := negb (String.eqb (sr_CredentialCiphertext r) "").

(** [nilIfEmpty], [nullIfEmpty]: the empty value is NULL. *)
Definition nullIfEmpty (s : string) : option string := if String.eqb s "" then None else Some s.
Definition statusOrUnknown (s : string) : string := if String.eqb s "" then "unknown" else s.

(** The zero instant of Go, the first of January of year 1, in nanoseconds. *)
Definition zero_time : Time := -62135596800 * Second.
Definition orNow (now t : Time) : Time := if t =? zero_time then now else t.

Definition source_row (now : Time) (rec : SourceRecord) : source_cols :=
  mkSourceCols (sr_Label rec) (sr_Kind rec) (sr_ConfigBasePath rec) (sr_ConfigBaseURL rec)
    (nullIfEmpty (sr_CredentialCiphertext rec)) (nullIfEmpty (sr_CredentialNonce rec))
    (statusOrUnknown (sr_HealthStatus rec)) (nullIfEmpty (sr_HealthDetail rec)) (sr_HealthCheckedAt rec)
    (nullIfEmpty (sr_SearchLinkURL rec)) (sr_Capabilities rec) (orNow now (sr_CreatedAt rec)).

(** [scanSource]. *)
Definition source_record (id : string) (r : source_cols) : SourceRecord :=
  mkSourceRecord id (sc_label r) (sc_kind r) (sc_config_base_path r) (sc_config_base_url r)
    (default "" (sc_credential_ciphertext r)) (default "" (sc_credential_nonce r))
    (sc_health_status r) (default "" (sc_health_detail r)) (sc_health_checked_at r)
    (default "" (sc_search_link_url r)) (sc_capabilities r) (sc_created_at r).

Definition CreateSourceRecord (fault : option pg_error) (now : Time) (rec : SourceRecord) : catalogM unit :=
  execute_ fault (fun db =>
    if bool_decide (is_Some (ct_sources db !! sr_ID rec)) then Err unique_violation
    else write_source (sr_ID rec) (source_row now rec) db).

Definition GetSourceRecord (fault : option pg_error) (id : string) : catalogM SourceRecord :=
  r ← query_one fault "source not found" (fun db => ct_sources db !! id);
  mret (source_record id r).

(** [ORDER BY created_at, id]. *)
Definition by_age (x y : string * source_cols) : bool :=
  (sc_created_at x.2 <? sc_created_at y.2) ||
  ((sc_created_at x.2 =? sc_created_at y.2) && String.leb x.1 y.1).

Definition ListSourceRecords (fault : option pg_error) : catalogM (list SourceRecord) :=
  exec fault (fun db =>
    Ok ((fun kr => source_record kr.1 kr.2) <$> sort_by by_age (map_to_list (ct_sources db)), db)).

(** An UPDATE of one row by its identifier. *)
Definition update_source (fault : option pg_error) (id : string) (f : source_cols -> source_cols)
    : catalogM unit :=
  affecting "source not found" (exec fault (fun db =>
    match ct_sources db !! id with
    | None => Ok (0, db)
    | Some r => db' ← write_source id (f r) db; Ok (1, db')
    end)).

Definition UpdateSourceConfig (fault : option pg_error) (id label basePath baseURL : string)
    : catalogM unit :=
  update_source fault id (fun r =>
    mkSourceCols label (sc_kind r) basePath baseURL (sc_credential_ciphertext r) (sc_credential_nonce r)
      (sc_health_status r) (sc_health_detail r) (sc_health_checked_at r) (sc_search_link_url r)
      (sc_capabilities r) (sc_created_at r)).

Definition SetSourceCredential (fault : option pg_error) (id ciphertext nonce : string) : catalogM unit :=
  update_source fault id (fun r =>
    mkSourceCols (sc_label r) (sc_kind r) (sc_config_base_path r) (sc_config_base_url r)
      (nullIfEmpty ciphertext) (nullIfEmpty nonce)
      (sc_health_status r) (sc_health_detail r) (sc_health_checked_at r) (sc_search_link_url r)
      (sc_capabilities r) (sc_created_at r)).

Definition UpdateSourceHealth (fault : option pg_error) (id status detail : string) (checkedAt : Time)
    (caps : SourceCapabilities) (searchLinkURL : string) : catalogM unit :=
  update_source fault id (fun r =>
    mkSourceCols (sc_label r) (sc_kind r) (sc_config_base_path r) (sc_config_base_url r)
      (sc_credential_ciphertext r) (sc_credential_nonce r)
      (statusOrUnknown status) (nullIfEmpty detail) (Some checkedAt) (nullIfEmpty searchLinkURL)
      caps (sc_created_at r)).

Definition CountWithCredential (fault : option pg_error) : catalogM Z :=
  exec fault (fun db =>
    Ok (Z.of_nat (length (select (fun _ r => negb (bool_decide (sc_credential_ciphertext r = None)))
                            (ct_sources db))), db)).

(** ** Offerings (source_offering_repository.go) *)

Definition scan_offering (kr : string * offering_cols) : Result SourceOffering :=
  let '(id, r) := kr in
  ref ← scanned (NewFileReference (oc_reference_id r) (oc_format r) (oc_size_bytes r));
  mret (NewSourceOffering id (oc_source_id r) (oc_edition_id r) ref (oc_observed_at r)).

Definition FindOfferingByID (fault : option pg_error) (id : SourceOfferingID) : catalogM SourceOffering :=
  r ← query_one fault "source offering not found" (fun db => ct_source_offerings db !! id);
  lift (scan_offering (id, r)).

Definition FindOfferingsBySource (fault : option pg_error) (sourceID : SourceID)
    : catalogM (list SourceOffering) :=
  rows ← exec fault (fun db =>
    Ok (select (fun _ r => String.eqb (oc_source_id r) sourceID) (ct_source_offerings db), db));
  lift (scan_rows scan_offering rows).

(** [ORDER BY observed_at DESC, id]. *)
Definition by_recency (x y : string * offering_cols) : bool :=
  (oc_observed_at y.2 <? oc_observed_at x.2) ||
  ((oc_observed_at y.2 =? oc_observed_at x.2) && String.leb x.1 y.1).

Definition FindOfferingsByEdition (fault : option pg_error) (editionID : EditionID)
    : catalogM (list SourceOffering) :=
  rows ← exec fault (fun db =>
    Ok (sort_by by_recency
          (select (fun _ r => String.eqb (oc_edition_id r) editionID) (ct_source_offerings db)), db));
  lift (scan_rows scan_offering rows).

Definition offering_row (o : SourceOffering) : offering_cols :=
  mkOfferingCols (o_sourceID o) (o_editionID o) (ReferenceID (o_fileReference o))
    (Format (o_fileReference o)) (SizeBytes (o_fileReference o)) (o_observedAt o).
Definition offering_key (r : offering_cols) : SourceID * EditionID * string :=
  (oc_source_id r, oc_edition_id r, oc_format r).

(** The row of the same source, edition and format is the one updated. *)
Definition SaveOfferingRow (fault : option pg_error) (o : SourceOffering) : catalogM unit :=
  execute_ fault (fun db =>
    let row := offering_row o in
    match first_row (fun r => bool_decide (offering_key r = offering_key row)) (ct_source_offerings db) with
    | Some (i, _) => Ok (with_source_offerings (<[i := row]> (ct_source_offerings db)) db)
    | None =>
        if bool_decide (is_Some (ct_source_offerings db !! o_id o)) then Err unique_violation
        else if negb (bool_decide (is_Some (ct_sources db !! o_sourceID o))) ||
                negb (bool_decide (is_Some (ct_editions db !! o_editionID o)))
        then Err foreign_key_violation
        else Ok (with_source_offerings (<[o_id o := row]> (ct_source_offerings db)) db)
    end).

Definition DeleteOfferingRow (fault : option pg_error) (id : SourceOfferingID) : catalogM unit :=
  execute_ fault (fun db => Ok (with_source_offerings (delete id (ct_source_offerings db)) db)).
