(* ===== verification/CatalogLaws.v ===== *)
(** * What the catalogue tables promise
      (src/internal/persistence/postgres: work_repository.go,
       author_repository.go, edition_repository.go, source_repository.go,
       source_offering_repository.go, sources.go)

    When a save succeeds and what it leaves, that what was saved is found
    again, and that these repositories are the ones the services of the domain
    are proved against. *)

From S2P Require Import Prelude GoStrings Errors Validate Catalog Transactor MergeGraph WorkGraph Services Postgres Http CatalogStore.

Local Open Scope string_scope.
Local Open Scope list_scope.
Local Open Scope Z_scope.

Definition no_faults : nat -> option pg_error := fun _ => None.

(** ** Runs *)

Lemma execute_ok {S} fault (f : S -> res pg_error S) s s' :
  execute_ fault f s = (Ok tt, s') <-> fault = None /\ f s = Ok s'.
Proof.
  unfold execute_. rewrite exec_ok. unfold mbind, res_bind.
  destruct (f s) as [t|e|]; split; intros [? H]; simplify_eq; done.
Qed.

Lemma execute_unit {S} fault (f : S -> res pg_error S) s u s' :
  execute_ fault f s = (Ok u, s') <-> fault = None /\ f s = Ok s'.
Proof. destruct u. apply execute_ok. Qed.

Lemma lift_ok {A} (r : Result A) db a db' : lift r db = (Ok a, db') <-> r = Ok a /\ db' = db.
Proof. apply reading_ok. Qed.

#[export] Hint Rewrite @execute_unit @lift_ok @exec_ok @query_one_ok : svc.

(** ** Tables of children *)

Section children.
Context {V : Type} `{EqDecision V}.
Implicit Types (t : list (string * V)).

Lemma children_app k t1 t2 : children k (t1 ++ t2) = children k t1 ++ children k t2.
Proof. unfold children. by rewrite List.filter_app, fmap_app. Qed.

Lemma children_cons k i v t :
  children k ((i, v) :: t) = if String.eqb i k then v :: children k t else children k t.
Proof. unfold children. simpl. by destruct (String.eqb i k). Qed.

Lemma children_pairs k j (l : list V) :
  children k (pair j <$> l) = if String.eqb j k then l else [].
Proof.
  induction l as [|v l IH]; [by destruct (String.eqb j k)|].
  rewrite fmap_cons, children_cons, IH. by destruct (String.eqb j k).
Qed.

Lemma children_delete k j t :
  children k (delete_children j t) = if String.eqb j k then [] else children k t.
Proof.
  induction t as [|[i v] t IH]; [by destruct (String.eqb j k)|].
  unfold delete_children in *. cbn [List.filter fst]. rewrite children_cons.
  destruct (String.eqb_spec i j) as [->|Hj]; cbn [negb].
  - rewrite IH. by destruct (String.eqb j k).
  - rewrite children_cons, IH.
    destruct (String.eqb_spec i k) as [->|Hk]; [|done].
    by destruct (String.eqb_spec j k); [congruence|].
Qed.

Lemma elem_of_children k v t : v ∈ children k t <-> (k, v) ∈ t.
Proof.
  unfold children. rewrite list_elem_of_fmap. setoid_rewrite list_elem_of_In. setoid_rewrite filter_In.
  setoid_rewrite String.eqb_eq. split.
  - by intros ([i w] & -> & Hin & <-).
  - intros Hin. by exists (k, v).
Qed.

Context {S : Type} (get : S -> list (string * V)) (set : list (string * V) -> S -> S).
Context (known : V -> S -> bool).
Context (get_set : forall t s, get (set t s) = t) (set_set : forall t t' s, set t (set t' s) = set t s).
Context (known_set : forall v t s, known v (set t s) = known v s).

Definition quiet (faults : nat -> option pg_error) (n len : nat) : Prop :=
  forall i, (n <= i < n + len)%nat -> faults i = None.

Lemma quiet_S faults n len :
  quiet faults n (Datatypes.S len) <-> faults n = None /\ quiet faults (Datatypes.S n) len.
Proof.
  unfold quiet. split.
  - intros H. split; [apply H; lia|]. intros i Hi. apply H. lia.
  - intros [H0 H] i Hi. destruct (decide (i = n)) as [->|]; [done|]. apply H. lia.
Qed.

Lemma insert_children_ok faults n k l s s' :
  insert_children get set known faults n k l s = (Ok tt, s') <->
  quiet faults n (length l) /\ NoDup l /\ Forall (fun v => v ∉ children k (get s)) l /\
  Forall (fun v => known v s = true) l /\
  (l = [] /\ s' = s \/ l <> [] /\ s' = set (get s ++ (pair k <$> l)) s).
Proof.
  revert n s. induction l as [|v l IH]; intros n s.
  - simpl. split.
    + intros [= <-]. split; [intros i Hi; lia|]. split; [apply NoDup_nil; done|].
      split; [apply Forall_nil; done|]. split; [apply Forall_nil; done|by left].
    + intros (_ & _ & _ & _ & [[_ ->]|[[] _]]); done.
  - simpl insert_children. rewrite stM_bind_ok. setoid_rewrite execute_unit. setoid_rewrite IH.
    cbn [length]. rewrite quiet_S. setoid_rewrite Forall_cons. rewrite NoDup_cons. split.
    + intros ([] & s1 & [Hf Hs1] & Hq & Hnd & Hfresh & Hkn & Hend).
      destruct (known v s) eqn:Hv; [|done]. simpl in Hs1. unfold insert_child in Hs1.
      destruct (bool_decide_reflect (v ∈ children k (get s))) as [|Hn]; [done|]. injection Hs1 as <-.
      rewrite get_set in Hfresh, Hend. rewrite children_app in Hfresh.
      setoid_rewrite (children_pairs k k [v]) in Hfresh. rewrite String.eqb_refl in Hfresh.
      rewrite Forall_forall in Hfresh. setoid_rewrite elem_of_app in Hfresh.
      setoid_rewrite list_elem_of_singleton in Hfresh.
      split; [done|]. split; [split; [|done]|].
      { intros Hin. apply (Hfresh v Hin). by right. }
      split; [split; [done|]|].
      { apply Forall_forall. intros x Hx Hin. apply (Hfresh x Hx). by left. }
      split; [split; [done|]|].
      { eapply Forall_impl; [exact Hkn|]. intros x. cbn. by rewrite known_set. }
      right. split; [done|]. destruct Hend as [[-> ->]|[_ ->]]; [done|].
      rewrite set_set. simpl. by rewrite <- app_assoc.
    + intros ([Hf Hq] & [Hn Hnd] & [Hv Hfresh] & [Hk Hkn] & [[[=] _]|[_ ->]]).
      exists tt, (set (get s ++ [(k, v)]) s). split.
      { split; [done|]. rewrite Hk. simpl. unfold insert_child. by rewrite bool_decide_eq_false_2. }
      split; [done|]. split; [done|]. rewrite get_set. split.
      { rewrite Forall_forall in *. intros x Hx. rewrite children_app.
        setoid_rewrite (children_pairs k k [v]). rewrite String.eqb_refl.
        intros [Hin|Hin%list_elem_of_singleton]%elem_of_app; [by apply (Hfresh x)|by subst]. }
      split. { eapply Forall_impl; [exact Hkn|]. intros x. cbn. by rewrite known_set. }
      destruct l as [|y l]; [by left|]. right. split; [done|]. rewrite set_set. simpl.
      by rewrite <- app_assoc.
Qed.

(** A replacement succeeds exactly on distinct values that its foreign key
    knows, and leaves them as the children. *)
Lemma replace_children_ok faults n k l s s' :
  replace_children get set known faults n k l s = (Ok tt, s') <->
  quiet faults n (Datatypes.S (length l)) /\ NoDup l /\ Forall (fun v => known v s = true) l /\
  s' = set (delete_children k (get s) ++ (pair k <$> l)) s.
Proof.
  unfold replace_children. rewrite stM_bind_ok. setoid_rewrite execute_unit.
  setoid_rewrite insert_children_ok. rewrite quiet_S.
  assert (Hfresh : forall v, v ∉ children k (get (set (delete_children k (get s)) s))).
  { intros v. rewrite get_set, children_delete, String.eqb_refl. by apply not_elem_of_nil. }
  assert (Hl : forall s1, s1 = set (delete_children k (get s)) s ->
    (l = [] /\ s' = s1 \/ l <> [] /\ s' = set (get s1 ++ (pair k <$> l)) s1) <->
    s' = set (delete_children k (get s) ++ (pair k <$> l)) s).
  { intros s1 ->. rewrite get_set, set_set. destruct l as [|v l]; simpl.
    - rewrite app_nil_r. naive_solver.
    - naive_solver. }
  setoid_rewrite Forall_forall. split.
  - intros ([] & s1 & [Hf [= <-]] & Hq & Hnd & _ & Hkn & Hend). rewrite Hl in Hend by done.
    repeat split; try done. intros v Hv. rewrite <- (known_set v (delete_children k (get s))). by apply Hkn.
  - intros ([Hf Hq] & Hnd & Hkn & ->). eexists tt, _. split; [by split|].
    repeat split; try done; [intros v Hv; rewrite known_set; by apply Hkn|]. by apply Hl.
Qed.

(** Whatever happens, the children of the others stay. *)
Lemma replace_children_frame faults n k l s :
  forall j, j <> k ->
  children j (get (replace_children get set known faults n k l s).2) = children j (get s).
Proof.
  intros j Hj.
  assert (Hins : forall l n s, children j (get (insert_children get set known faults n k l s).2) =
                               children j (get s)).
  { clear l n s. induction l as [|v l IH]; intros n s; [done|]. simpl. unfold mbind, stM_bind.
    unfold execute_, exec. destruct (faults n); [done|]. destruct (known v s); [|done]. simpl.
    unfold insert_child. destruct (bool_decide _); [done|]. simpl. rewrite IH, get_set, children_app.
    setoid_rewrite (children_pairs j k [v]). destruct (String.eqb_spec k j); [by subst|].
    by rewrite app_nil_r. }
  unfold replace_children, mbind, stM_bind, execute_, exec. destruct (faults n); [done|]. simpl.
  rewrite Hins, get_set, children_delete. destruct (String.eqb_spec k j); [by subst|done].
Qed.
End children.

(** ** Works *)

(** A work as it is once made: its language and subjects passed their
    constructors, which nothing outside the domain can go around. *)
Definition storable_work (w : Work) : Prop :=
  match w_originalLanguage w with None => True | Some l => NewLanguage (lang_tag l) = Ok l end /\
  Forall (fun s => NewSubject (subject_value s) = Ok s) (w_subjects w).

(** What the tables say of a work: the answer of [load] when no query fails. *)
Definition work_at (db : catalog_db) (id : WorkID) : Result Work := (load_work as_inserted no_faults id db).1.

Definition work_of (db : catalog_db) (id : WorkID) (row : work_cols) : Result Work :=
  lang ← scan_language (wc_original_language row);
  subjects ← scan_subjects (children id (ct_work_subjects db));
  Ok (RehydrateWork id (wc_title row) (wc_subtitle row) (children id (ct_work_authors db)) subjects lang
        (children id (ct_work_external_references db)) (wc_merged_into row)
        (children id (ct_work_contains db))).

Lemma query_run {S A} (f : S -> A) (s : S) : exec None (fun db => Ok (f db, db)) s = (Ok (f s), s).
Proof. done. Qed.

Lemma work_at_row db id :
  work_at db id =
  match ct_works db !! id with
  | Some row => work_of db id row
  | None => fails NotFound "work not found"
  end.
Proof.
  unfold work_at, load_work, query_one, mret, stM_ret, mbind, stM_bind, exec, no_faults, lift, reading, throw.
  cbn [fst]. destruct (ct_works db !! id) as [row|]; [|done]. unfold work_of, mbind, res_bind.
  cbv beta. destruct (scan_language _); [|done..]. by destruct (scan_subjects _).
Qed.

Lemma load_work_ok faults id db w db' :
  load_work as_inserted faults id db = (Ok w, db') <-> quiet faults 0 5 /\ work_at db id = Ok w /\ db' = db.
Proof.
  rewrite work_at_row. rewrite !quiet_S. unfold quiet.
  unfold load_work, query_one, mret, stM_ret, mbind, stM_bind, exec, lift, reading, throw.
  destruct (faults 0%nat); [naive_solver|]. destruct (ct_works db !! id) as [row|]; [|naive_solver].
  unfold work_of, mbind, res_bind. cbv beta. destruct (scan_language _); [|naive_solver..].
  destruct (faults 1%nat); [naive_solver|]. cbn [fst]. destruct (faults 2%nat); [naive_solver|]. cbn [fst].
  destruct (scan_subjects _); [|naive_solver..]. destruct (faults 3%nat); [naive_solver|]. cbn [fst].
  destruct (faults 4%nat); [naive_solver|]. cbn. split.
  - intros [= <- <-]. split; [|done]. repeat (split; [done|]). intros i Hi. lia.
  - by intros (_ & [= <-] & ->).
Qed.

Lemma load_work_pure faults id : pure (load_work as_inserted faults id).
Proof.
  intros db. unfold load_work, query_one, mret, stM_ret, mbind, stM_bind, exec, lift, reading, throw.
  repeat (case_match; simplify_eq; try done).
Qed.

(** The tables after a save. *)
Definition saved_work (w : Work) (db : catalog_db) : catalog_db :=
  let replaced {V} (t : list (string * V)) (l : list V) := delete_children (w_id w) t ++ (pair (w_id w) <$> l) in
  with_work_contains (replaced (ct_work_contains db) (w_contains w))
  (with_work_external_references (replaced (ct_work_external_references db) (w_externalReferences w))
  (with_work_subjects (replaced (ct_work_subjects db) (subject_value <$> w_subjects w))
  (with_work_authors (replaced (ct_work_authors db) (w_authors w))
  (with_works (<[w_id w := work_row w]> (ct_works db)) db)))).

(** When a save may succeed: the work it is merged into and the works it
    contains are stored (it may be itself), and no list repeats a value. *)
Definition saveable (w : Work) (db : catalog_db) : Prop :=
  let stored i := i = w_id w \/ is_Some (ct_works db !! i) in
  (forall i, w_mergedInto w = Some i -> stored i) /\ Forall stored (w_contains w) /\
  NoDup (w_authors w) /\ NoDup (w_subjects w) /\ NoDup (w_externalReferences w) /\ NoDup (w_contains w).

Definition save_length (w : Work) : nat :=
  5 + length (w_authors w) + length (w_subjects w) + length (w_externalReferences w) + length (w_contains w).

Lemma quiet_app faults n l1 l2 : quiet faults n (l1 + l2) <-> quiet faults n l1 /\ quiet faults (n + l1) l2.
Proof.
  unfold quiet. split.
  - intros H. split; intros i Hi; apply H; lia.
  - intros [H1 H2] i Hi. destruct (decide (i < n + l1)%nat); [apply H1|apply H2]; lia.
Qed.

#[export] Instance subject_value_inj : Inj (=) (=) subject_value.
Proof. intros [s] [s']; simpl; congruence. Qed.

Lemma upsert_work_ok w db db' :
  upsert_work w db = Ok db' <->
  (forall i, w_mergedInto w = Some i -> i = w_id w \/ is_Some (ct_works db !! i)) /\
  db' = with_works (<[w_id w := work_row w]> (ct_works db)) db.
Proof.
  unfold upsert_work, optionally_known, work_known.
  assert (Hi : forall i, is_Some (<[w_id w := work_row w]> (ct_works db) !! i) <->
                         i = w_id w \/ is_Some (ct_works db !! i)).
  { intros i. rewrite lookup_insert_is_Some. destruct (decide (i = w_id w)); naive_solver. }
  destruct (w_mergedInto w) as [i|].
  - cbn [ct_works with_works]. destruct (bool_decide_reflect (is_Some (<[w_id w := work_row w]> (ct_works db) !! i))) as [H|H];
      rewrite Hi in H; cbn [negb]; naive_solver.
  - cbn [negb]. naive_solver.
Qed.

(** One replacement among the tables of the catalogue. *)
Lemma replaced_ok {V} `{EqDecision V} (get : catalog_db -> list (string * V)) set known faults n k l db u db' :
  (forall t s, get (set t s) = t) -> (forall t t' s, set t (set t' s) = set t s) ->
  (forall v t s, known v (set t s) = known v s) ->
  replace_children get set known faults n k l db = (Ok u, db') <->
  quiet faults n (Datatypes.S (length l)) /\ NoDup l /\ Forall (fun v => known v db = true) l /\
  db' = set (delete_children k (get db) ++ (pair k <$> l)) db.
Proof. intros H1 H2 H3. destruct u. by apply replace_children_ok. Qed.

Lemma Forall_unchecked {V S} (l : list V) (s : S) : Forall (fun v => unchecked v s = true) l.
Proof. by apply Forall_forall. Qed.

#[local] Opaque replace_children.

(** A save succeeds exactly when no statement fails and the work is saveable,
    and leaves the tables with its rows replaced. *)
Lemma SaveWorkRow_ok faults w db db' :
  SaveWorkRow faults w db = (Ok tt, db') <->
  quiet faults 0 (save_length w) /\ saveable w db /\ db' = saved_work w db.
Proof.
  assert (Hq : quiet faults 0 (save_length w) <->
    faults 0%nat = None /\ quiet faults 1 (S (length (w_authors w))) /\
    quiet faults (1 + 1 + length (w_authors w)) (S (length (w_subjects w))) /\
    quiet faults (1 + 1 + length (w_authors w) + 1 + length (w_subjects w))
      (S (length (w_externalReferences w))) /\
    quiet faults (1 + 1 + length (w_authors w) + 1 + length (w_subjects w) + 1 +
                  length (w_externalReferences w)) (S (length (w_contains w)))).
  { unfold save_length, quiet. split.
    - intros H. conjuncts; [apply H; lia|intros i Hi; apply H; lia..].
    - intros (H0 & H1 & H2 & H3 & H4) i Hi. destruct (decide (i = 0%nat)) as [->|]; [done|].
      destruct (decide (i < 2 + length (w_authors w))%nat); [apply H1; lia|].
      destruct (decide (i < 3 + length (w_authors w) + length (w_subjects w))%nat); [apply H2; lia|].
      destruct (decide (i < 4 + length (w_authors w) + length (w_subjects w) +
                         length (w_externalReferences w))%nat); [apply H3; lia|apply H4; lia]. }
  rewrite Hq. clear Hq. unfold SaveWorkRow, saveable.
  rewrite stM_bind_ok. setoid_rewrite stM_bind_ok. setoid_rewrite stM_bind_ok. setoid_rewrite stM_bind_ok.
  setoid_rewrite execute_unit. setoid_rewrite upsert_work_ok.
  assert (Hk : forall db1, ct_works db1 = <[w_id w := work_row w]> (ct_works db) ->
    Forall (fun v => work_known v db1 = true) (w_contains w) <->
    Forall (fun i => i = w_id w \/ is_Some (ct_works db !! i)) (w_contains w)).
  { intros db1 E. rewrite !Forall_forall. unfold work_known. rewrite E.
    setoid_rewrite bool_decide_eq_true. setoid_rewrite lookup_insert_is_Some. 
    split; intros H i Hi; specialize (H i Hi); destruct (decide (i = w_id w)); naive_solver. }
  split.
  - intros ([] & s1 & (Hf & Hm & ->) & [] & s2 & H2 & [] & s3 & H3 & [] & s4 & H4 & H5).
    apply replaced_ok in H2 as (Q2 & N2 & _ & ->); [|done..].
    apply replaced_ok in H3 as (Q3 & N3 & _ & ->); [|done..].
    apply replaced_ok in H4 as (Q4 & N4 & _ & ->); [|done..].
    apply replaced_ok in H5 as (Q5 & N5 & K5 & ->); [|done..].
    rewrite length_fmap in Q3. apply NoDup_fmap_1 in N3. rewrite Hk in K5 by done. done.
  - intros ((Hf & Q2 & Q3 & Q4 & Q5) & (Hm & Hc & N2 & N3 & N4 & N5) & ->).
    eexists tt, _. split; [done|].
    eexists tt, _. split; [apply replaced_ok; try done; conjuncts; apply Forall_unchecked|].
    eexists tt, _. split.
    { apply replaced_ok; try done. rewrite length_fmap. conjuncts; [|apply Forall_unchecked].
      by apply (NoDup_fmap_2 subject_value). }
    eexists tt, _. split; [apply replaced_ok; try done; conjuncts; apply Forall_unchecked|].
    apply replaced_ok; try done. conjuncts. by rewrite Hk.
Qed.

Lemma scan_subjects_stored l :
  Forall (fun s => NewSubject (subject_value s) = Ok s) l -> scan_subjects (subject_value <$> l) = Ok l.
Proof.
  induction 1 as [|s l Hs _ IH]; [done|]. rewrite fmap_cons. cbn [scan_subjects]. unfold mbind, res_bind.
  by rewrite Hs, IH.
Qed.

Lemma scan_subjects_ok l r :
  scan_subjects l = Ok r -> Forall (fun s => NewSubject (subject_value s) = Ok s) r.
Proof.
  revert r. induction l as [|v l IH]; intros r; [intros [= <-]; constructor|].
  cbn [scan_subjects]. unfold mbind, res_bind, scanned.
  destruct (NewSubject v) as [s| |] eqn:Hs; [|done..]. destruct (scan_subjects l) as [rest| |]; [|done..].
  intros [= <-]. constructor; [|by apply IH].
  pose proof Hs as Hs'. unfold NewSubject, mbind, res_bind in Hs'.
  destruct (ValidateBoundedText _ _ _); [|done..]. by injection Hs' as <-.
Qed.

(** What is read back is storable. *)
Lemma work_at_storable db id w : work_at db id = Ok w -> w_id w = id /\ storable_work w.
Proof.
  rewrite work_at_row. destruct (ct_works db !! id) as [row|]; [|done].
  unfold work_of, scan_language, mbind, res_bind, scanned.
  destruct (wc_original_language row) as [tag|].
  - destruct (NewLanguage tag) as [l| |] eqn:Hl; [|done..].
    destruct (scan_subjects _) as [subjects| |] eqn:Hs; [|done..]. intros [= <-].
    split; [done|]. split; [|by apply (scan_subjects_ok _ _ Hs)]. cbn.
    pose proof Hl as Hl'. unfold NewLanguage, mbind, res_bind in Hl'. case_match; [|done..]. by injection Hl' as <-.
  - destruct (scan_subjects _) as [subjects| |] eqn:Hs; [|done..]. intros [= <-].
    split; [done|]. split; [done|]. by apply (scan_subjects_ok _ _ Hs).
Qed.

(** The work a save leaves is the work, and the others are as they were. *)
Lemma work_at_saved w db i :
  storable_work w ->
  work_at (saved_work w db) i = if decide (i = w_id w) then Ok w else work_at db i.
Proof.
  intros [Hl Hs]. rewrite !work_at_row. unfold saved_work, work_of.
  cbn [ct_works ct_work_authors ct_work_subjects ct_work_external_references ct_work_contains
       with_works with_work_authors with_work_subjects with_work_external_references with_work_contains].
  rewrite !children_app, !children_delete, !children_pairs. destruct (decide (i = w_id w)) as [->|Hi].
  - rewrite lookup_insert_eq, String.eqb_refl. cbn [app]. rewrite scan_subjects_stored by done.
    unfold scan_language, work_row, scanned, mbind, res_bind. cbn [wc_original_language].
    destruct w as [wid ti su au sb [l|] re me co]; cbn in *; [by rewrite Hl|done].
  - rewrite lookup_insert_ne by done. destruct (String.eqb_spec (w_id w) i); [by subst|].
    by rewrite !app_nil_r.
Qed.

(** A save that fails leaves the other works as they were. *)
Lemma work_at_frame (db db' : catalog_db) i :
  ct_works db' !! i = ct_works db !! i ->
  children i (ct_work_authors db') = children i (ct_work_authors db) ->
  children i (ct_work_subjects db') = children i (ct_work_subjects db) ->
  children i (ct_work_external_references db') = children i (ct_work_external_references db) ->
  children i (ct_work_contains db') = children i (ct_work_contains db) ->
  work_at db' i = work_at db i.
Proof. intros E1 E2 E3 E4 E5. rewrite !work_at_row. unfold work_of. by rewrite E1, E2, E3, E4, E5. Qed.

Section frames.
Context (id : string).

(** Nothing but the work [id] changes. *)
Definition other_works_stay (db db' : catalog_db) : Prop :=
  forall i, i <> id -> work_at db' i = work_at db i.

#[export] Instance other_works_stay_preorder : PreOrder other_works_stay.
Proof.
  split; [by intros db i|]. intros d1 d2 d3 H1 H2 i Hi. by rewrite H2, H1.
Qed.

Lemma replace_stays {V} `{EqDecision V} (get : catalog_db -> list (string * V)) set known faults n l :
  (forall t s, get (set t s) = t) ->
  (forall db db', (forall j, j <> id -> children j (get db') = children j (get db)) ->
     set (get db') db = db' -> other_works_stay db db') ->
  (forall db, exists t, (replace_children get set known faults n id l db).2 = set t db) ->
  always other_works_stay (replace_children get set known faults n id l).
Proof.
  intros Hg Hstay Hset db. destruct (Hset db) as [t Ht]. apply Hstay.
  - intros j Hj. by apply replace_children_frame.
  - by rewrite Ht, Hg.
Qed.

#[local] Transparent replace_children.
Lemma replace_children_sets {V} `{EqDecision V} (get : catalog_db -> list (string * V)) set known faults n k l db :
  (forall s, set (get s) s = s) -> (forall t t' s, set t (set t' s) = set t s) ->
  exists t, (replace_children get set known faults n k l db).2 = set t db.
Proof.
  intros Hid Hss.
  assert (Hins : forall l n s, exists t, (insert_children get set known faults n k l s).2 = set t s).
  { clear l n. induction l as [|v l IH]; intros n s; [exists (get s); by rewrite Hid|].
    simpl. unfold mbind, stM_bind, execute_, exec.
    destruct (faults n); [by exists (get s); rewrite Hid|]. destruct (known v s); [|by exists (get s); rewrite Hid].
    simpl. destruct (insert_child k v (get s)) as [t|e|]; simpl; [|by exists (get s); rewrite Hid..].
    destruct (IH (S n) (set t s)) as [t' ->]. exists t'. by rewrite Hss. }
  unfold replace_children, mbind, stM_bind, execute_, exec.
  destruct (faults n); [by exists (get db); rewrite Hid|]. simpl.
  destruct (Hins l (S n) (set (delete_children k (get db)) db)) as [t ->]. exists t. by rewrite Hss.
Qed.
#[local] Opaque replace_children.
End frames.

Lemma SaveWorkRow_stays faults w : always (other_works_stay (w_id w)) (SaveWorkRow faults w).
Proof.
  assert (Hframe : forall db db' i, i <> w_id w -> ct_works db' !! i = ct_works db !! i ->
    children i (ct_work_authors db') = children i (ct_work_authors db) ->
    children i (ct_work_subjects db') = children i (ct_work_subjects db) ->
    children i (ct_work_external_references db') = children i (ct_work_external_references db) ->
    children i (ct_work_contains db') = children i (ct_work_contains db) ->
    work_at db' i = work_at db i) by (intros; by apply work_at_frame).
  unfold SaveWorkRow. apply always_bind; [typeclasses eauto| |intros _].
  { apply always_exec; [typeclasses eauto|]. intros db u db'. unfold mbind, res_bind, upsert_work.
    destruct (optionally_known _ _ _); [|done]. simpl. intros [= _ <-] i Hi.
    apply work_at_frame; [|done..]. by apply lookup_insert_ne. }
  repeat (apply always_bind; [typeclasses eauto| |intros _]);
    (apply replace_stays; [done| |intros db; by apply replace_children_sets; intros []]);
    intros db db' H <- i Hi; (apply work_at_frame; try done; by apply H).
Qed.

(** ** The works among themselves *)

Lemma load_all_ok {A} (load : (nat -> option pg_error) -> string -> catalogM A) (at_ : catalog_db -> string -> Result A)
    faults ids db l db' :
  (forall f id a d d', load f id d = (Ok a, d') -> at_ d id = Ok a /\ d' = d) ->
  load_all load faults ids db = (Ok l, db') -> Forall2 (fun id a => at_ db id = Ok a) ids l /\ db' = db.
Proof.
  intros Hload. revert faults l. induction ids as [|i ids IH]; intros faults l; cbn [load_all].
  - intros [= <- <-]. by split.
  - rewrite stM_bind_ok. intros (a & d1 & H1 & H2). apply Hload in H1 as [H1 ->].
    apply stM_bind_ok in H2 as (rest & d2 & H2 & [= <- <-]). apply IH in H2 as [H2 ->].
    by repeat constructor.
Qed.

(** The works of the tables, as far as they scan. *)
Definition works_of (db : catalog_db) : gmap WorkID Work :=
  map_imap (fun id _ => match work_at db id with Ok w => Some w | _ => None end) (ct_works db).

Lemma works_of_lookup db i w : works_of db !! i = Some w <-> work_at db i = Ok w.
Proof.
  unfold works_of. rewrite map_lookup_imap. destruct (ct_works db !! i) as [row|] eqn:E; simpl.
  - by destruct (work_at db i); split; intros; simplify_eq.
  - rewrite work_at_row, E. done.
Qed.

Lemma NewLanguage_fuel tag : NewLanguage tag <> OutOfFuel.
Proof. unfold NewLanguage, ValidateLanguageTag. by case_match. Qed.
Lemma NewSubject_fuel v : NewSubject v <> OutOfFuel.
Proof. unfold NewSubject, ValidateBoundedText. by repeat case_match. Qed.

Lemma scan_subjects_fuel l : scan_subjects l <> OutOfFuel.
Proof.
  induction l as [|v l IH]; [done|]. cbn [scan_subjects]. unfold scanned, mbind, res_bind.
  pose proof (NewSubject_fuel v). destruct (NewSubject v); [|done..]. by destruct (scan_subjects l).
Qed.

Lemma work_at_fuel db i : work_at db i <> OutOfFuel.
Proof.
  rewrite work_at_row. destruct (ct_works db !! i) as [row|]; [|done].
  unfold work_of, scan_language, scanned, mbind, res_bind.
  pose proof (scan_subjects_fuel (children i (ct_work_subjects db))).
  destruct (wc_original_language row) as [tag|].
  - pose proof (NewLanguage_fuel tag). destruct (NewLanguage tag); [|done..]. by destruct (scan_subjects _).
  - by destruct (scan_subjects _).
Qed.

Lemma load_work_run id db : load_work as_inserted no_faults id db = (work_at db id, db).
Proof. apply pure_run, load_work_pure. Qed.

Lemma FindWorksMergedInto_run canonical db :
  FindWorksMergedInto as_inserted None (fun _ => no_faults) canonical db =
  load_all (load_work as_inserted) (fun _ => no_faults)
    (select (fun _ r => bool_decide (wc_merged_into r = Some canonical)) (ct_works db)).*1 db.
Proof. done. Qed.

Lemma FindWorksMergedInto_ok fault faults canonical db l db' :
  FindWorksMergedInto as_inserted fault faults canonical db = (Ok l, db') ->
  NoDup (w_id <$> l) /\
  forall w, w ∈ l <-> works_of db !! w_id w = Some w /\ w_mergedInto w = Some canonical.
Proof.
  unfold FindWorksMergedInto. rewrite stM_bind_ok. intros (ids & d1 & [_ [= <- <-]]%exec_ok & H).
  apply (load_all_ok _ work_at) in H as [H _].
  2: { intros f id a d d' (_ & ? & ?)%load_work_ok. done. }
  pose proof (NoDup_select (fun _ r => bool_decide (wc_merged_into r = Some canonical)) (ct_works db)) as Hnd.
  set (ids := (select _ _).*1) in *.
  assert (Hids : forall i, i ∈ ids <-> exists row, ct_works db !! i = Some row /\ wc_merged_into row = Some canonical).
  { intros i. subst ids. rewrite list_elem_of_fmap. setoid_rewrite elem_of_select.
    setoid_rewrite bool_decide_eq_true. split; [intros ([j r] & -> & ?)|intros (r & ?)]; [by exists r|by exists (i, r)]. }
  assert (Hl : w_id <$> l = ids).
  { clear Hids Hnd. induction H as [|i w ids l Hw _ IH]; [done|]. rewrite fmap_cons, IH.
    by destruct (work_at_storable _ _ _ Hw) as [-> _]. }
  split; [by rewrite Hl|]. intros w. rewrite works_of_lookup.
  assert (Hmerged : forall i v, work_at db i = Ok v -> exists row, ct_works db !! i = Some row /\ w_mergedInto v = wc_merged_into row).
  { intros i v. rewrite work_at_row. destruct (ct_works db !! i) as [row|]; [|done].
    unfold work_of, mbind, res_bind. destruct (scan_language _); [|done..]. destruct (scan_subjects _); [|done..].
    intros [= <-]. by exists row. }
  split.
  - intros Hw. apply list_elem_of_lookup in Hw as [n Hn].
    destruct (Forall2_lookup_r _ _ _ _ _ H Hn) as (i & Hi & Hat).
    destruct (work_at_storable _ _ _ Hat) as [<- _]. split; [done|].
    apply list_elem_of_lookup_2, Hids in Hi as (row & Hrow & Hm).
    destruct (Hmerged _ _ Hat) as (row' & Hrow' & ->). congruence.
  - intros [Hat Hm]. destruct (Hmerged _ _ Hat) as (row & Hrow & Hm').
    assert (w_id w ∈ ids) as Hi by (apply Hids; exists row; split; congruence).
    apply list_elem_of_lookup in Hi as [n Hn]. destruct (Forall2_lookup_l _ _ _ _ _ H Hn) as (v & Hv & Hatv).
    apply list_elem_of_lookup_2 in Hv. congruence.
Qed.

(** The result of a run, as a service inside a transaction sees it: the tables
    after, or the error that rolls the transaction back. *)
Definition committed {S} (run : res error unit * S) : Result S :=
  match run with
  | (Ok _, s) => Ok s
  | (Err e, _) => Err e
  | (OutOfFuel, _) => OutOfFuel
  end.

(** The repository the services of the work graph are proved against, its rows
    read in the order of insertion. *)
#[export] Instance catalog_works : WorkRepository catalog_db := {
  works_view := works_of;
  FindWork i db := work_at db i;
  FindMergedInto i db := (FindWorksMergedInto as_inserted None (fun _ => no_faults) i db).1;
  SaveWork w db := committed (SaveWorkRow no_faults w db);
}.

Lemma replace_children_fuel {V S} `{EqDecision V} get set (known : V -> S -> bool) faults n k l s :
  (replace_children get set known faults n k l s).1 <> OutOfFuel.
Proof.
  assert (Hins : forall l n s, (insert_children get set known faults n k l s).1 <> OutOfFuel).
  { clear l n s. induction l as [|v l IH]; intros n s; [done|]. simpl. unfold mbind, stM_bind, execute_, exec.
    destruct (faults n); [done|]. unfold mbind, res_bind. destruct (known v s); [|done]. simpl.
    unfold insert_child. destruct (bool_decide _); [done|]. apply IH. }
  with_strategy transparent [replace_children] unfold replace_children.
  unfold mbind, stM_bind, execute_, exec. destruct (faults n); [done|]. apply Hins.
Qed.

Lemma bind_fuel {S E A B} (m : stM S E A) (f : A -> stM S E B) s :
  (m s).1 <> OutOfFuel -> (forall a s', (f a s').1 <> OutOfFuel) -> ((m ≫= f) s).1 <> OutOfFuel.
Proof. unfold mbind, stM_bind. intros Hm Hf. destruct (m s) as [[a|e|] s']; simpl in *; [apply Hf|done..]. Qed.

Lemma SaveWorkRow_fuel faults w db : (SaveWorkRow faults w db).1 <> OutOfFuel.
Proof.
  unfold SaveWorkRow. apply bind_fuel.
  - unfold execute_, exec. destruct (faults 0%nat); [done|]. unfold mbind, res_bind, upsert_work.
    by destruct (optionally_known _ _ _).
  - intros _ s1. repeat (apply bind_fuel; [apply replace_children_fuel|intros _ ?]).
    apply replace_children_fuel.
Qed.

Lemma saved_view w db db' :
  storable_work w -> SaveWorkRow no_faults w db = (Ok tt, db') ->
  works_of db' = <[w_id w := w]> (works_of db).
Proof.
  intros Hw (_ & _ & ->)%SaveWorkRow_ok. apply map_eq. intros i. apply option_eq. intros v.
  rewrite works_of_lookup, work_at_saved by done. destruct (decide (i = w_id w)) as [->|Hi].
  - rewrite lookup_insert_eq. naive_solver.
  - rewrite lookup_insert_ne by done. by rewrite works_of_lookup.
Qed.

#[export] Instance catalog_works_laws : WorkRepositoryLaws catalog_db.
Proof.
  refine (Build_WorkRepositoryLaws _ _ storable_work _ _ _ _ _ _ _ _ _ _); simpl.
  - intros db i w Hw%works_of_lookup. by apply (work_at_storable db).
  - intros db i w. by rewrite works_of_lookup.
  - intros db i l H. destruct (FindWorksMergedInto as_inserted None (fun _ => no_faults) i db) as [r db'] eqn:E.
    simpl in H. subst r. by apply FindWorksMergedInto_ok in E.
  - intros db i w Hw. by apply (work_at_storable db i).
  - by intros o w [Hl Hs].
  - by intros l w [Hl Hs].
  - intros db w db' Hw. unfold committed. destruct (SaveWorkRow no_faults w db) as [[[]|e|] d] eqn:E; [|done..].
    intros [= <-]. by apply saved_view.
  - apply work_at_fuel.
  - intros db i. rewrite FindWorksMergedInto_run. set (ids := (select _ (ct_works db)).*1). clearbody ids.
    induction ids as [|j ids IH]; [done|]. cbn [load_all].
    rewrite bind_pure by apply load_work_pure. rewrite load_work_run. cbn [fst].
    pose proof (work_at_fuel db j). destruct (work_at db j); [|done..].
    apply bind_fuel; [done|]. done.
  - intros db w. unfold committed. pose proof (SaveWorkRow_fuel no_faults w db).
    by destruct (SaveWorkRow no_faults w db) as [[[]|e|] d].
Qed.

(** ** Authors *)

Definition author_at (db : catalog_db) (id : AuthorID) : Result Author :=
  match ct_authors db !! id with
  | Some row => Ok (RehydrateAuthor id (ac_name row) (children id (ct_author_external_references db))
                      (ac_merged_into row))
  | None => fails NotFound "author not found"
  end.

Lemma FindAuthorByID_run id db : FindAuthorByID as_inserted no_faults id db = (author_at db id, db).
Proof.
  unfold FindAuthorByID, author_at, query_one, mret, stM_ret, mbind, stM_bind, exec, no_faults, throw.
  by destruct (ct_authors db !! id).
Qed.

Definition saved_author (a : Author) (db : catalog_db) : catalog_db :=
  with_author_external_references
    (delete_children (a_id a) (ct_author_external_references db) ++ (pair (a_id a) <$> a_externalReferences a))
    (with_authors (<[a_id a := mkAuthorCols (a_name a) (a_mergedInto a)]> (ct_authors db)) db).

Definition saveable_author (a : Author) (db : catalog_db) : Prop :=
  (forall i, a_mergedInto a = Some i -> i = a_id a \/ is_Some (ct_authors db !! i)) /\
  NoDup (a_externalReferences a).

Lemma upsert_author_ok a db db' :
  upsert_author a db = Ok db' <->
  (forall i, a_mergedInto a = Some i -> i = a_id a \/ is_Some (ct_authors db !! i)) /\
  db' = with_authors (<[a_id a := mkAuthorCols (a_name a) (a_mergedInto a)]> (ct_authors db)) db.
Proof.
  unfold upsert_author, optionally_known, author_known. destruct (a_mergedInto a) as [i|]; cbn [negb ct_authors with_authors].
  - destruct (bool_decide_reflect (is_Some (<[a_id a:=mkAuthorCols (a_name a) (Some i)]> (ct_authors db) !! i))) as [H|H];
      rewrite lookup_insert_is_Some in H; cbn [negb];
      destruct (decide (i = a_id a)); naive_solver.
  - naive_solver.
Qed.

Lemma SaveAuthorRow_ok faults a db db' :
  SaveAuthorRow faults a db = (Ok tt, db') <->
  quiet faults 0 (2 + length (a_externalReferences a)) /\ saveable_author a db /\ db' = saved_author a db.
Proof.
  unfold SaveAuthorRow, saveable_author. rewrite stM_bind_ok. setoid_rewrite execute_unit.
  setoid_rewrite upsert_author_ok. cbn [plus]. rewrite quiet_S. split.
  - intros ([] & s1 & (Hf & Hm & ->) & H). apply replaced_ok in H as (Q & N & _ & ->); done.
  - intros ([Hf Q] & (Hm & N) & ->). eexists tt, _. split; [done|].
    apply replaced_ok; try done. conjuncts. apply Forall_unchecked.
Qed.

Lemma author_at_saved a db i :
  author_at (saved_author a db) i = if decide (i = a_id a) then Ok a else author_at db i.
Proof.
  unfold author_at, saved_author. cbn [ct_authors ct_author_external_references with_authors with_author_external_references].
  rewrite children_app, children_delete, children_pairs. destruct (decide (i = a_id a)) as [->|Hi].
  - rewrite lookup_insert_eq, String.eqb_refl. by destruct a.
  - rewrite lookup_insert_ne by done. destruct (String.eqb_spec (a_id a) i); [by subst|]. by rewrite app_nil_r.
Qed.

Definition authors_of (db : catalog_db) : gmap AuthorID Author :=
  map_imap (fun id row => Some (RehydrateAuthor id (ac_name row) (children id (ct_author_external_references db))
                                  (ac_merged_into row))) (ct_authors db).

Lemma authors_of_lookup db i a : authors_of db !! i = Some a <-> author_at db i = Ok a.
Proof.
  unfold authors_of, author_at. rewrite map_lookup_imap.
  destruct (ct_authors db !! i); simpl; split; intros; simplify_eq; done.
Qed.

#[export] Instance catalog_authors : AuthorRepository catalog_db := {
  authors_view := authors_of;
  FindAuthor i db := (FindAuthorByID as_inserted no_faults i db).1;
  SaveAuthor a db := committed (SaveAuthorRow no_faults a db);
}.

#[export] Instance catalog_authors_laws : AuthorRepositoryLaws catalog_db.
Proof.
  split; simpl.
  - intros db i a. rewrite authors_of_lookup. unfold author_at. destruct (ct_authors db !! i); [|done].
    by intros [= <-].
  - intros db i a. by rewrite FindAuthorByID_run, authors_of_lookup.
  - intros db a db'. unfold committed. destruct (SaveAuthorRow no_faults a db) as [[[]|e|] d] eqn:E; [|done..].
    intros [= <-]. apply SaveAuthorRow_ok in E as (_ & _ & ->). apply map_eq. intros i. apply option_eq. intros b.
    rewrite authors_of_lookup, author_at_saved. destruct (decide (i = a_id a)) as [->|Hi].
    + rewrite lookup_insert_eq. naive_solver.
    + by rewrite lookup_insert_ne, authors_of_lookup.
  - intros db i. rewrite FindAuthorByID_run. unfold author_at. by destruct (ct_authors db !! i).
Qed.

(** ** Editions *)

(** An edition as its constructors make it. *)
Definition storable_edition (e : Edition) : Prop :=
  NewLanguage (lang_tag (e_language e)) = Ok (e_language e) /\
  NewEdition (e_id e) (e_workID e) (e_language e) (e_isbn e) (e_publisher e) (e_publicationYear e)
    (e_externalReferences e) = Ok e.

Definition edition_at (db : catalog_db) (id : EditionID) : Result Edition :=
  match ct_editions db !! id with
  | None => fails NotFound "edition not found"
  | Some row =>
      lang ← scanned (NewLanguage (ec_language row));
      scanned (NewEdition id (ec_work_id row) lang (ec_isbn row) (ec_publisher row) (ec_publication_year row)
                 (children id (ct_edition_external_references db)))
  end.

Lemma FindEditionByID_run id db : FindEditionByID as_inserted no_faults id db = (edition_at db id, db).
Proof.
  unfold FindEditionByID, edition_at, query_one, mret, stM_ret, mbind, stM_bind, res_bind, exec, no_faults, throw,
    lift, reading. cbv beta.
  destruct (ct_editions db !! id); [|done]. cbv beta. by destruct (scanned (NewLanguage _)).
Qed.

Definition edition_row (e : Edition) : edition_cols :=
  mkEditionCols (e_workID e) (lang_tag (e_language e)) (e_isbn e) (e_publisher e) (e_publicationYear e).

Definition saved_edition (e : Edition) (db : catalog_db) : catalog_db :=
  with_edition_external_references
    (delete_children (e_id e) (ct_edition_external_references db) ++ (pair (e_id e) <$> e_externalReferences e))
    (with_editions (<[e_id e := edition_row e]> (ct_editions db)) db).

Definition saveable_edition (e : Edition) (db : catalog_db) : Prop :=
  int4 (e_publicationYear e) = true /\ is_Some (ct_works db !! e_workID e) /\ NoDup (e_externalReferences e).

Lemma SaveEditionRow_ok faults e db db' :
  SaveEditionRow faults e db = (Ok tt, db') <->
  quiet faults 0 (2 + length (e_externalReferences e)) /\ saveable_edition e db /\ db' = saved_edition e db.
Proof.
  unfold SaveEditionRow, saveable_edition. rewrite stM_bind_ok. setoid_rewrite execute_unit.
  assert (Hup : forall db1, upsert_edition e db = Ok db1 <->
    int4 (e_publicationYear e) = true /\ is_Some (ct_works db !! e_workID e) /\
    db1 = with_editions (<[e_id e := edition_row e]> (ct_editions db)) db).
  { intros db1. unfold upsert_edition, work_known. destruct (int4 (e_publicationYear e)); simpl; [|naive_solver].
    destruct (bool_decide_reflect (is_Some (ct_works db !! e_workID e))); simpl; naive_solver. }
  setoid_rewrite Hup. cbn [plus]. rewrite quiet_S. split.
  - intros ([] & s1 & (Hf & Hy & Hw & ->) & H). apply replaced_ok in H as (Q & N & _ & ->); done.
  - intros ([Hf Q] & (Hy & Hw & N) & ->). eexists tt, _. split; [done|].
    apply replaced_ok; try done. conjuncts. apply Forall_unchecked.
Qed.

Lemma edition_at_saved e db i :
  storable_edition e ->
  edition_at (saved_edition e db) i = if decide (i = e_id e) then Ok e else edition_at db i.
Proof.
  intros [Hl He]. unfold edition_at, saved_edition.
  cbn [ct_editions ct_edition_external_references with_editions with_edition_external_references].
  rewrite children_app, children_delete, children_pairs. destruct (decide (i = e_id e)) as [->|Hi].
  - rewrite lookup_insert_eq, String.eqb_refl. unfold edition_row, scanned, mbind, res_bind. cbn [ec_language ec_work_id
      ec_isbn ec_publisher ec_publication_year app]. by rewrite Hl, He.
  - rewrite lookup_insert_ne by done. destruct (String.eqb_spec (e_id e) i); [by subst|]. by rewrite app_nil_r.
Qed.

(** ** Sources and offerings *)

Definition source_of (id : SourceID) (r : source_cols) : Result Source :=
  scanned (NewSource id (sc_label r) (sc_capabilities r) (sc_kind r)).

(** The rows that scan. *)
Definition scanning {R A} (scan : string -> R -> Result A) (t : gmap string R) : gmap string A :=
  map_imap (fun id r => match scan id r with Ok a => Some a | _ => None end) t.

Lemma scanning_lookup {R A} (scan : string -> R -> Result A) t i a :
  scanning scan t !! i = Some a <-> exists r, t !! i = Some r /\ scan i r = Ok a.
Proof.
  unfold scanning. rewrite map_lookup_imap. destruct (t !! i) as [r|]; simpl.
  - destruct (scan i r) eqn:E; (split; [intros [=]; subst; by exists r|]); intros (r' & [= <-] & H); congruence.
  - split; [done|]. by intros (r & [=] & _).
Qed.

Lemma scanning_delete {R A} (scan : string -> R -> Result A) t i :
  scanning scan (delete i t) = delete i (scanning scan t).
Proof.
  apply map_eq. intros j. apply option_eq. intros a. rewrite lookup_delete_Some, !scanning_lookup.
  setoid_rewrite lookup_delete_Some. naive_solver.
Qed.

Definition offerings_of_tables (db : catalog_db) : gmap SourceOfferingID SourceOffering :=
  scanning (fun id r => scan_offering (id, r)) (ct_source_offerings db).

#[export] Instance catalog_sources : SourceRepositories catalog_db := {
  source_view db := mkSourceStore (scanning source_of (ct_sources db)) (offerings_of_tables db);
  FindBySource i db := (FindOfferingsBySource None i db).1;
  DeleteOffering i db := committed (DeleteOfferingRow None i db);
  DeleteSource i db := committed (DeleteSourceRow None i db);
}.

Lemma scan_rows_ok {A B} (scan : A -> Result B) l r :
  scan_rows scan l = Ok r <-> Forall2 (fun a b => scan a = Ok b) l r.
Proof.
  revert r. induction l as [|a l IH]; intros r; cbn [scan_rows].
  - split; [by intros [= <-]|intros H; by inversion H].
  - unfold mbind, res_bind. destruct (scan a) as [b|e|] eqn:E.
    + destruct (scan_rows scan l) as [bs|e|]; (split; [intros H|intros H; inversion H as [|? b' ? r' Hb Hr]; subst]).
      * injection H as <-. constructor; [done|]. by apply IH.
      * rewrite E in Hb. injection Hb as <-. apply IH in Hr. by injection Hr as <-.
      * done.
      * by apply IH in Hr.
      * done.
      * by apply IH in Hr.
    + split; [done|]. intros H; inversion H; congruence.
    + split; [done|]. intros H; inversion H; congruence.
Qed.

Lemma scan_offering_ok i r o :
  scan_offering (i, r) = Ok o -> o_id o = i /\ offering_row o = r.
Proof.
  unfold scan_offering, scanned, mbind, res_bind, NewFileReference.
  destruct (String.eqb (TrimSpace (oc_reference_id r)) _); [done|].
  destruct (String.eqb (TrimSpace (oc_format r)) _); [done|]. intros [= <-]. by destruct r.
Qed.

Lemma FindOfferingsBySource_ok i db l :
  (FindOfferingsBySource None i db).1 = Ok l <->
  Forall2 (fun kr o => scan_offering kr = Ok o)
    (select (fun _ r => String.eqb (oc_source_id r) i) (ct_source_offerings db)) l.
Proof. apply scan_rows_ok. Qed.

#[export] Instance catalog_sources_laws : SourceRepositoriesLaws catalog_db.
Proof.
  split; cbn [source_view FindBySource DeleteOffering DeleteSource catalog_sources ss_sources ss_offerings].
  - intros db i l H%FindOfferingsBySource_ok.
    pose proof (NoDup_select (fun _ r => String.eqb (oc_source_id r) i) (ct_source_offerings db)) as Hnd.
    assert (Hids : o_id <$> l = (select (fun _ r => String.eqb (oc_source_id r) i) (ct_source_offerings db)).*1).
    { clear Hnd. induction H as [|[k r] o rows l Ho _ IH]; [done|]. rewrite !fmap_cons, IH.
      by destruct (scan_offering_ok _ _ _ Ho) as [-> _]. }
    split; [by rewrite Hids|]. intros o. unfold offerings_of_tables. rewrite scanning_lookup. split.
    + intros Ho. apply list_elem_of_lookup in Ho as [n Hn].
      destruct (Forall2_lookup_r _ _ _ _ _ H Hn) as ([k r] & Hk & Hat).
      apply list_elem_of_lookup_2, elem_of_select in Hk as [Hk Hs]. apply String.eqb_eq in Hs.
      destruct (scan_offering_ok _ _ _ Hat) as [<- Hr]. split; [by exists r|]. by rewrite <- Hr in Hs.
    + intros [(r & Hk & Hat) Hs]. destruct (scan_offering_ok _ _ _ Hat) as [_ Hr].
      assert ((o_id o, r) ∈ select (fun _ r => String.eqb (oc_source_id r) i) (ct_source_offerings db)) as Hin.
      { apply elem_of_select. split; [done|]. apply String.eqb_eq. by rewrite <- Hr. }
      apply list_elem_of_lookup in Hin as [n Hn]. destruct (Forall2_lookup_l _ _ _ _ _ H Hn) as (o' & Ho' & Hat').
      apply list_elem_of_lookup_2 in Ho'. congruence.
  - intros db i db' [= <-]. unfold offerings_of_tables. cbn. by rewrite scanning_delete.
  - intros db i db'. unfold committed, DeleteSourceRow, execute_, exec, mbind, res_bind.
    destruct (bool_decide _); [|done]. intros [= <-]. cbn. by rewrite scanning_delete.
Qed.

(** ** The orders of the rows

    The same work but for the order of its lists. *)
Record same_work (w v : Work) : Prop := {
  same_id : w_id v = w_id w;
  same_title : w_title v = w_title w;
  same_subtitle : w_subtitle v = w_subtitle w;
  same_language : w_originalLanguage v = w_originalLanguage w;
  same_mergedInto : w_mergedInto v = w_mergedInto w;
  same_authors : w_authors w ≡ₚ w_authors v;
  same_subjects : w_subjects w ≡ₚ w_subjects v;
  same_references : w_externalReferences w ≡ₚ w_externalReferences v;
  same_contains : w_contains w ≡ₚ w_contains v;
}.

#[export] Instance same_work_equivalence : Equivalence same_work.
Proof.
  split.
  - by intros w.
  - intros w v []. by split.
  - intros u v w [] []. split; by etrans.
Qed.

(** Both found, the same work; or both failed. *)
Definition found_alike : relation (Result Work) := fun r s =>
  match r, s with
  | Ok w, Ok v => same_work w v
  | Err _, Err _ | OutOfFuel, OutOfFuel => True
  | _, _ => False
  end.

#[export] Instance found_alike_equivalence : Equivalence found_alike.
Proof.
  split.
  - by intros [w|e|]; cbn.
  - by intros [w|e|] [v|e'|]; cbn.
  - intros [u|e|] [v|e'|] [w|e''|]; cbn; try done. by intros ? ?; etrans.
Qed.

Lemma scan_subjects_Ok l r :
  scan_subjects l = Ok r <-> Forall2 (fun v s => scanned (NewSubject v) = Ok s) l r.
Proof.
  revert r. induction l as [|v l IH]; intros r; cbn [scan_subjects].
  - split; [by intros [= <-]|intros H; by inversion H].
  - unfold mbind, res_bind. split.
    + intros H. destruct (scanned (NewSubject v)) as [s|e|] eqn:E; [|done..].
      destruct (scan_subjects l) as [rest|e|]; [|done..]. injection H as <-. constructor; [done|]. by apply IH.
    + intros H. inversion H as [|? s ? rest Hs Hr]; subst. rewrite Hs. apply IH in Hr. by rewrite Hr.
Qed.

Lemma scan_subjects_perm l l' :
  l ≡ₚ l' ->
  match scan_subjects l, scan_subjects l' with
  | Ok r, Ok r' => r ≡ₚ r'
  | Err _, Err _ => True
  | _, _ => False
  end.
Proof.
  intros Hp. pose proof (scan_subjects_fuel l). pose proof (scan_subjects_fuel l').
  assert (Htake : forall l l' r, l ≡ₚ l' -> scan_subjects l = Ok r ->
            exists r', scan_subjects l' = Ok r' /\ r ≡ₚ r').
  { clear. intros l l' r Hp Hr%scan_subjects_Ok. destruct (Permutation_Forall2 Hp Hr) as (r' & Hr' & Hl').
    exists r'. split; [by apply scan_subjects_Ok|done]. }
  destruct (scan_subjects l) as [r|e|] eqn:E; [|destruct (scan_subjects l') as [r'|e'|] eqn:E'; try done|done].
  - by destruct (Htake l l' r Hp E) as (r' & -> & ?).
  - destruct (Htake l' l r' (symmetry Hp) E') as (r & ? & _). congruence.
Qed.

(** Whatever the orders of its rows, what a load finds is the work the tables
    hold. *)
Lemma load_work_order order id db :
  found_alike (work_at db id) (load_work order no_faults id db).1 /\ (load_work order no_faults id db).2 = db.
Proof.
  rewrite work_at_row. unfold load_work, query_one, mret, stM_ret, mbind, stM_bind, exec, no_faults, lift, reading, throw.
  destruct (ct_works db !! id) as [row|]; [|done]. unfold work_of, mbind, res_bind. cbv beta.
  destruct (scan_language _) as [lang|e|]; [|done..]. cbn [fst snd].
  pose proof (scan_subjects_perm _ _ (symmetry (arrange_perm order 2 (children id (ct_work_subjects db))))) as Hs.
  destruct (scan_subjects (children _ _)) as [r|e|], (scan_subjects (arrange _ _ _)) as [r'|e'|]; try done.
  split; [|done]. by split; cbn; rewrite ?arrange_perm.
Qed.

(** ** Theorems *)

(** C9: saving a work and finding it again.  A save of a work succeeds exactly
    when no statement fails, the works it refers to are stored (or are itself)
    and none of its lists repeats a value.  Then, in whatever orders the
    database answers the four queries that have no ORDER BY, the work found
    under its identifier is that work: the same title, subtitle, language and
    merge, and the same authors, subjects, references and contents, each as
    often but not always in the order they were given in.  Whether the save
    succeeds or fails half way, every other work is found as before, again up
    to these orders. *)
Theorem SaveWork_roundtrip faults w db r db' :
  storable_work w -> SaveWorkRow faults w db = (r, db') ->
  (r = Ok tt <-> quiet faults 0 (save_length w) /\ saveable w db) /\
  (r = Ok tt -> forall order, exists found,
     load_work order no_faults (w_id w) db' = (Ok found, db') /\ same_work w found) /\
  (forall i before after, i <> w_id w ->
     found_alike (load_work before no_faults i db).1 (load_work after no_faults i db').1).
Proof.
  intros Hw H. split; [|split].
  - split.
    + intros ->. apply SaveWorkRow_ok in H. tauto.
    + intros [Hq Hs]. assert (SaveWorkRow faults w db = (Ok tt, saved_work w db)) as E by by apply SaveWorkRow_ok.
      congruence.
  - intros -> order. apply SaveWorkRow_ok in H as (_ & _ & ->).
    pose proof (load_work_order order (w_id w) (saved_work w db)) as [Ha Hs].
    rewrite work_at_saved, decide_True in Ha by done.
    destruct (load_work order _ _ _) as [[found|e|] d]; cbn in Ha, Hs; [|done..]. subst d. by exists found.
  - intros i before after Hi. pose proof (SaveWorkRow_stays faults w db i Hi) as Hst. rewrite H in Hst. cbn in Hst.
    pose proof (load_work_order before i db) as [Hb _]. pose proof (load_work_order after i db') as [Ha _].
    rewrite Hst in Ha. by etrans; [symmetry|].
Qed.

(** A source, edition and format have one offering. *)
Definition offerings_unique (db : catalog_db) : Prop := forall i j r s,
  ct_source_offerings db !! i = Some r -> ct_source_offerings db !! j = Some s ->
  offering_key r = offering_key s -> i = j.

(** An offering is its source, edition and format.  Saving an observation
    keeps at most one offering for each of these triples; the saved file
    reference and time are found under the identifier the triple was first
    seen with, which is the new offering's own only when the triple is new,
    and no other row changes. *)
Theorem SaveOffering_identity fault o db db' :
  offerings_unique db -> SaveOfferingRow fault o db = (Ok tt, db') ->
  offerings_unique db' /\
  exists id,
    ct_source_offerings db' = <[id := offering_row o]> (ct_source_offerings db) /\
    (forall j s, ct_source_offerings db' !! j = Some s -> offering_key s = offering_key (offering_row o) -> j = id) /\
    match ct_source_offerings db !! id with
    | Some r => offering_key r = offering_key (offering_row o)
    | None => id = o_id o /\
        forall j s, ct_source_offerings db !! j = Some s -> offering_key s <> offering_key (offering_row o)
    end.
Proof.
  intros Hu. unfold SaveOfferingRow. rewrite execute_ok. intros [_ H].
  assert (exists id, db' = with_source_offerings (<[id := offering_row o]> (ct_source_offerings db)) db /\
    match ct_source_offerings db !! id with
    | Some r => offering_key r = offering_key (offering_row o)
    | None => id = o_id o /\
        forall j s, ct_source_offerings db !! j = Some s -> offering_key s <> offering_key (offering_row o)
    end) as (id & -> & Hid).
  { destruct (first_row _ _) as [[i r]|] eqn:E.
    - apply first_row_Some in E as [Hi Hk%bool_decide_eq_true]. injection H as <-. exists i.
      by rewrite Hi.
    - rewrite first_row_None in E.
      destruct (bool_decide_reflect (is_Some (ct_source_offerings db !! o_id o))) as [|Hn]; [done|].
      destruct (_ || _); [done|]. injection H as <-. exists (o_id o).
      apply eq_None_not_Some in Hn. rewrite Hn. split; [done|]. split; [done|].
      intros j s Hj Hk. specialize (E j s Hj). by apply bool_decide_eq_false in E. }
  cbn [ct_source_offerings with_source_offerings].
  assert (Honly : forall j s, <[id := offering_row o]> (ct_source_offerings db) !! j = Some s ->
            offering_key s = offering_key (offering_row o) -> j = id).
  { intros j s [[<- _]|[Hj Hs]]%lookup_insert_Some Hk; [done|].
    destruct (ct_source_offerings db !! id) as [r|] eqn:Hr; [by eapply Hu; [exact Hs|exact Hr|congruence]|].
    by destruct (proj2 Hid _ _ Hs). }
  split; [|by exists id]. unfold offerings_unique. cbn [ct_source_offerings with_source_offerings].
  intros i j r s Hi Hj Hk. destruct (decide (j = id)) as [->|Hne].
  { rewrite lookup_insert_eq in Hj. injection Hj as <-. by eapply Honly. }
  destruct (decide (i = id)) as [->|Hne'].
  { rewrite lookup_insert_eq in Hi. injection Hi as <-. symmetry. by eapply Honly. }
  rewrite lookup_insert_ne in Hi, Hj by done. by eapply Hu.
Qed.

Lemma delete_offerings_run l at_ db :
  delete_offerings l at_ db =
  (Ok ((fun o => newPublic SourceOfferingRemoved (o_id o) at_) <$> l),
   with_source_offerings (foldr delete (ct_source_offerings db) (reverse (o_id <$> l))) db).
Proof.
  revert db. induction l as [|o l IH]; intros db; cbn [delete_offerings]; [by destruct db|].
  rewrite !fmap_cons, reverse_cons, foldr_app.
  unfold mbind, stM_bind, writing. cbn [DeleteOffering catalog_sources committed DeleteOfferingRow execute_ exec].
  unfold DeleteOfferingRow, committed, execute_, exec, mbind, res_bind. by rewrite IH.
Qed.

(** The removal of a source goes through.  When the offerings of a source
    can be read and nothing fails, the transaction succeeds: no foreign key
    stops it.  The source and all its offerings are gone, each offering is
    announced once, and every other source and offering is as it was. *)
Theorem RemoveSource_complete id at_ (db : catalog_db) offerings :
  FindBySource id db = Ok offerings ->
  exists db',
    RemoveSource tx_ok id at_ db =
      (Ok (newPublic SourceRemoved id at_,
           (fun o => newPublic SourceOfferingRemoved (o_id o) at_) <$> offerings), db') /\
    ct_sources db' = delete id (ct_sources db) /\
    (forall i r, ct_source_offerings db' !! i = Some r <->
                 ct_source_offerings db !! i = Some r /\ oc_source_id r <> id) /\
    (forall i r, ct_source_offerings db !! i = Some r -> oc_source_id r = id -> i ∈ o_id <$> offerings).
Proof.
  intros Hf. pose proof Hf as H%FindOfferingsBySource_ok.
  assert (Hids : o_id <$> offerings = (select (fun _ r => String.eqb (oc_source_id r) id) (ct_source_offerings db)).*1).
  { clear Hf. induction H as [|[k r] o rows l Ho _ IH]; [done|]. rewrite !fmap_cons, IH.
    by destruct (scan_offering_ok _ _ _ Ho) as [-> _]. }
  assert (Hin : forall i, i ∈ reverse (o_id <$> offerings) <->
     exists r, ct_source_offerings db !! i = Some r /\ oc_source_id r = id).
  { intros i. rewrite elem_of_reverse, Hids, list_elem_of_fmap. setoid_rewrite elem_of_select.
    setoid_rewrite String.eqb_eq. split; [intros ([j r] & -> & ?)|intros (r & ?)]; [by exists r|by exists (i, r)]. }
  set (offs := foldr delete (ct_source_offerings db) (reverse (o_id <$> offerings))).
  assert (Hoffs : forall i r, offs !! i = Some r <-> ct_source_offerings db !! i = Some r /\ oc_source_id r <> id).
  { intros i r. subst offs. destruct (decide (i ∈ reverse (o_id <$> offerings))) as [Hi|Hi].
    - rewrite lookup_foldr_delete by done. apply Hin in Hi as (r' & Hr' & Hs). split; [done|]. intros [Hr Hn]. congruence.
    - rewrite lookup_foldr_delete_not_elem_of by done. split; [|tauto]. intros Hr. split; [done|].
      intros Hs. apply Hi, Hin. by exists r. }
  exists (with_sources (delete id (ct_sources db)) (with_source_offerings offs db)).
  split; [|split; [done|split; [exact Hoffs|]]].
  - apply InTx_run. rewrite stM_bind_ok. exists offerings, db. split; [by rewrite reading_ok|].
    unfold mbind, stM_bind. rewrite delete_offerings_run. unfold writing.
    cbn [DeleteSource catalog_sources]. unfold DeleteSourceRow, committed, execute_, exec, mbind, res_bind.
    cbn [ct_source_offerings with_source_offerings]. fold offs. rewrite bool_decide_eq_true_2; [done|].
    intros i r Hr. by apply Hoffs in Hr as [_ ?].
  - intros i r Hi Hs. rewrite <- elem_of_reverse, Hin. by exists r.
Qed.

(** ** A catalogue *)

Definition demo_source : source_cols :=
  mkSourceCols "Shelf" "local" "/books" "" None None "reachable" None (Some 5) None
    (mkSourceCapabilities true false true) 1.

(** Two novels, one owned in the library "l1", the other only wanted there. *)
Definition demo_catalog : catalog_db :=
  mkCatalogDb
    {[ "w1" := mkWorkCols "Dune" "" (Some "en") None; "w2" := mkWorkCols "Solaris" "" (Some "pl") None ]}
    [("w1", "a1"); ("w2", "a2")] [("w1", "Ecology")] [] []
    {[ "a1" := mkAuthorCols "Frank Herbert" None; "a2" := mkAuthorCols "Stanislaw Lem" None ]} []
    {[ "e1" := mkEditionCols "w1" "en" None "Chilton" (Some 1965) ]} []
    {[ "s1" := demo_source ]}
    {[ "o1" := mkOfferingCols "s1" "e1" "dune.epub" "epub" (Some 700) 7 ]}
    [mkLibraryEntryRow "e1" "e1" "l1" 10]
    {[ "c1" := mkCollectionCols "To read" "l1"; "c2" := mkCollectionCols "Secret" "l2" ]}
    [mkMemberRow "c1" "w2" 20; mkMemberRow "c2" "w2" 30; mkMemberRow "c2" "w1" 40] {["l1"; "l2"]}.

Definition demo_anthology : Work :=
  mkWork "w3" "Two novels" "" ["a1"; "a2"] [mkSubject "Anthology"] (Some (mkLanguage "en"))
    [mkExternalReference "openlibrary" "OL1W"] None ["w1"; "w2"].

Lemma demo_anthology_storable : storable_work demo_anthology.
Proof. split; [reflexivity|]. repeat constructor. Qed.

(** The rows last to first. *)
Definition reversed : row_order := mkRowOrder (fun _ _ l => rev l) (fun _ _ l => Permutation_sym (Permutation_rev l)).

Lemma SaveWork_roundtrip_witness :
  exists db' found, SaveWorkRow no_faults demo_anthology demo_catalog = (Ok tt, db') /\
    load_work reversed no_faults "w3" db' = (Ok found, db') /\ same_work demo_anthology found.
Proof.
  destruct (SaveWorkRow no_faults demo_anthology demo_catalog) as [r db'] eqn:E.
  destruct (SaveWork_roundtrip no_faults demo_anthology demo_catalog r db' demo_anthology_storable E)
    as (_ & Hload & _).
  assert (r = Ok tt) as -> by (change r with (r, db').1; rewrite <- E; vm_compute; reflexivity).
  destruct (Hload eq_refl reversed) as (found & Hf & Hs). by exists db', found.
Defined.

Lemma demo_offerings_unique : offerings_unique demo_catalog.
Proof.
  intros i j r s Hi Hj _. cbn in Hi, Hj. apply lookup_singleton_Some in Hi as [<- _], Hj as [<- _]. done.
Qed.

Definition demo_observation : SourceOffering :=
  mkSourceOffering "o2" "s1" "e1" (mkFileReference "dune-2.epub" "epub" (Some 900)) 50.

Lemma SaveOffering_identity_witness :
  exists db', SaveOfferingRow None demo_observation demo_catalog = (Ok tt, db') /\ offerings_unique db' /\
    exists id, ct_source_offerings db' = <[id := offering_row demo_observation]> (ct_source_offerings demo_catalog).
Proof.
  destruct (SaveOfferingRow None demo_observation demo_catalog) as [r db'] eqn:E.
  assert (r = Ok tt) as -> by (change r with (r, db').1; rewrite <- E; vm_compute; reflexivity).
  destruct (SaveOffering_identity None demo_observation demo_catalog db' demo_offerings_unique E)
    as (Hu & id & Hid & _).
  exists db'. split; [reflexivity|]. split; [exact Hu|]. by exists id.
Defined.

Lemma RemoveSource_complete_witness :
  exists db', RemoveSource tx_ok "s1" 60 demo_catalog =
    (Ok (newPublic SourceRemoved "s1" 60, [newPublic SourceOfferingRemoved "o1" 60]), db') /\
    ct_sources db' = delete "s1" (ct_sources demo_catalog).
Proof.
  assert (FindBySource "s1" demo_catalog =
    Ok [mkSourceOffering "o1" "s1" "e1" (mkFileReference "dune.epub" "epub" (Some 700)) 7]) as E
    by (vm_compute; reflexivity).
  destruct (RemoveSource_complete "s1" 60 demo_catalog _ E) as (db' & Hrun & Hs & _).
  exists db'. split; [exact Hrun|exact Hs].
Defined.
