(* ===== verification/Library.v ===== *)
(** * The library: paging, works, and their handlers
      (src/internal/domain/library_query.go, collection_query.go,
       src/internal/persistence/postgres/work_repository.go,
       src/internal/transport/http/library.go)

    The cursors, the paged query of the works of a library, the detail of one
    work, and the two handlers.  The order of texts, the full-text search and
    the text of an instant are classes: the collation of the database, its
    search, and the layout RFC3339Nano. *)

From S2P Require Import Prelude GoStrings Errors Validate Catalog Postgres Http Encoding Tokens Identity Access CatalogStore.

Local Open Scope string_scope.
Local Open Scope list_scope.
Local Open Scope Z_scope.

Abbreviation catalogH := (stM catalog_db http_error) (only parsing).

(** ** What the database and the clock's package decide *)

(** The collation of text columns, [a <= b]. *)
Class Collation := text_le : string -> string -> bool.

(** A total order; the default collations compare equal only equal texts. *)
Class CollationLaws `{Collation} := {
  text_total a b : text_le a b = true \/ text_le b a = true;
  text_trans a b c : text_le a b = true -> text_le b c = true -> text_le a c = true;
  text_antisym a b : text_le a b = true -> text_le b a = true -> a = b;
}.
Definition text_lt `{Collation} (a b : string) : bool := negb (text_le b a).

(** [plainto_tsquery('simple', q)] against the vector of a title and subtitle,
    and against that of a name. *)
Class FullText := {
  work_matches : string -> string -> string -> bool;
  name_matches : string -> string -> bool;
}.

(** [t.Format(time.RFC3339Nano)] and [time.Parse(time.RFC3339Nano, s)]. *)
Class TimeText := {
  format_time : Time -> string;
  parse_time : string -> option Time;
}.

(** The instants of the years the layout has four digits for are read back,
    and their text has no NUL in it. *)
Class TimeTextLaws `{TimeText} := {
  four_digit_year : Time -> Prop;
  parse_format t : four_digit_year t -> parse_time (format_time t) = Some t;
  format_time_nul t : contains_char "000" (format_time t) = false;
  format_time_text t : format_time t <> "";
}.

(** ** The vocabulary (library_query.go, collection_query.go) *)

Abbreviation LibraryFilter := string (only parsing).
Definition FilterOwned : LibraryFilter := "owned".
Definition FilterWanted : LibraryFilter := "wanted".
Definition FilterAll : LibraryFilter := "all".

Abbreviation LibrarySort := string (only parsing).
Definition SortAddedAt : LibrarySort := "added_at".
Definition SortTitle : LibrarySort := "title".

Record LibraryQuery := mkLibraryQuery {
  lq_Cursor : string;
  lq_Limit : Z;
  lq_Q : string;
  lq_Filter : LibraryFilter;
  lq_Sort : LibrarySort;
  lq_LibraryID : LibraryID;
}.

Record CollectionRef := mkCollectionRef {
  cr_ID : CollectionID;
  cr_Name : string;
  cr_AddedAt : option Time;
}.

Record WorkSummary := mkWorkSummary {
  ws_ID : WorkID;
  ws_Title : string;
  ws_Subtitle : string;
  ws_Authors : list string;
  ws_IsOwned : bool;
  ws_Collections : list CollectionRef;
  ws_AddedAt : option Time;
}.

Record LibraryPage := mkLibraryPage { lp_Works : list WorkSummary; lp_NextCursor : string }.

Record OwnedEdition := mkOwnedEdition {
  oe_ID : EditionID;
  oe_Language : string;
  oe_ISBN : option string;
  oe_Publisher : string;
  oe_PublicationYear : option Z;
  oe_AddedAt : option Time;
  oe_Formats : list string;
}.

Record WorkDetail := mkWorkDetail {
  wd_ID : WorkID;
  wd_Title : string;
  wd_Subtitle : string;
  wd_Authors : list string;
  wd_Subjects : list string;
  wd_OriginalLanguage : option Language;
  wd_OwnedEditions : list OwnedEdition;
  wd_Collections : list CollectionRef;
}.

(** ** Cursors *)

Definition nul : ascii := "000".
Definition invalid_cursor {A} : Result A := fails InvalidInput "invalid cursor".

(** The two parts of a decoded cursor. *)
Definition cursor_parts (cursor : string) : Result (string * string) :=
  if String.eqb cursor "" then invalid_cursor
  else match RawURLDecode cursor with
       | None => invalid_cursor
       | Some b =>
           match Split nul b with
           | [p0; p1] => Ok (p0, p1)
           | _ => invalid_cursor
           end
       end.

Definition EncodeTitleCursor (title : string) (id : WorkID) : string :=
  RawURLEncode (title +:+ String nul id).

Definition DecodeTitleCursor (cursor : string) : Result (string * WorkID) :=
  '(title, id) ← cursor_parts cursor;
  if String.eqb id "" then invalid_cursor else Ok (title, id).

Section added_at_cursor.
Context `{TimeText}.

Definition EncodeAddedAtCursor (addedAt : Time) (id : WorkID) : string :=
  RawURLEncode (format_time addedAt +:+ String nul id).

Definition DecodeAddedAtCursor (cursor : string) : Result (Time * WorkID) :=
  '(at_, id) ← cursor_parts cursor;
  if String.eqb at_ "" || String.eqb id "" then invalid_cursor
  else match parse_time at_ with
       | None => invalid_cursor
       | Some t => Ok (t, id)
       end.
End added_at_cursor.

(** ** Sub-queries *)

Section queries.
Context `{Collation} `{FullText}.

(** [json_agg(a.name ORDER BY wa.author_id)] over the authors that are stored. *)
Definition author_names (db : catalog_db) (w : WorkID) : list string :=
  omap (fun i => ac_name <$> ct_authors db !! i) (sort_by text_le (children w (ct_work_authors db))).

(** The entries of the editions of a work, and its memberships, that a
    condition on the library admits. *)
Definition entries_of (lib_ok : LibraryID -> bool) (db : catalog_db) (w : WorkID)
    : list (library_entry_row * edition_cols) :=
  omap (fun le =>
    match ct_editions db !! lr_edition_id le with
    | Some e => if String.eqb (ec_work_id e) w && lib_ok (lr_library_id le) then Some (le, e) else None
    | None => None
    end) (ct_library_entries db).

Definition memberships_of (lib_ok : LibraryID -> bool) (db : catalog_db) (w : WorkID)
    : list (member_row * collection_cols) :=
  omap (fun cm =>
    match ct_collections db !! mr_collection_id cm with
    | Some c => if String.eqb (mr_work_id cm) w && lib_ok (cc_library_id c) then Some (cm, c) else None
    | None => None
    end) (ct_collection_members db).

(** [ORDER BY cm.added_at DESC]. *)
Definition collection_refs (l : list (member_row * collection_cols)) : list CollectionRef :=
  (fun mc => mkCollectionRef (mr_collection_id mc.1) (cc_name mc.2) (Some (mr_added_at mc.1))) <$>
  sort_by (fun x y => mr_added_at y.1 <=? mr_added_at x.1) l.

Definition nonempty {A} (l : list A) : bool := match l with [] => false | _ => true end.

(** [min] and [max] of a column: NULL of no rows. *)
Definition sql_min (l : list Time) : option Time :=
  match l with [] => None | t :: l' => Some (fold_left Z.min l' t) end.
Definition sql_max (l : list Time) : option Time :=
  match l with [] => None | t :: l' => Some (fold_left Z.max l' t) end.

(** ** The pool of a library's works ([work_pool]) *)

Record pool_row := mkPoolRow {
  p_id : WorkID;
  p_title : string;
  p_subtitle : string;
  p_is_owned : bool;
  p_effective_added_at : option Time;
}.

Definition admitted_by (filter : LibraryFilter) (owned wanted : bool) : bool :=
  (String.eqb filter "owned" && owned) ||
  (String.eqb filter "wanted" && (wanted && negb owned)) ||
  (String.eqb filter "all" && (owned || wanted)).

Definition found_by (q : string) (db : catalog_db) (w : WorkID) (row : work_cols) : bool :=
  String.eqb q "" || work_matches (wc_title row) (wc_subtitle row) q ||
  existsb (fun name => name_matches name q) (author_names db w).

Definition pool_of (filter : LibraryFilter) (q : string) (lib : LibraryID) (db : catalog_db)
    (wr : WorkID * work_cols) : option pool_row :=
  let '(w, row) := wr in
  let entries := entries_of (String.eqb lib) db w in
  let members := memberships_of (String.eqb lib) db w in
  if admitted_by filter (nonempty entries) (nonempty members) && found_by q db w row then
    Some (mkPoolRow w (wc_title row) (wc_subtitle row) (nonempty entries)
            (match sql_min ((fun le => lr_added_at le.1) <$> entries) with
             | Some t => Some t
             | None => sql_max ((fun mc => mr_added_at mc.1) <$> members)
             end))
  else None.

Definition work_pool (filter : LibraryFilter) (q : string) (lib : LibraryID) (db : catalog_db)
    : list pool_row :=
  omap (pool_of filter q lib db) (map_to_list (ct_works db)).

(** The two orders, [added_at DESC, id DESC] (a NULL first) and
    [title ASC, id ASC], and the two conditions of a cursor. *)
Definition added_before (a b : option Time) : bool :=
  match a, b with
  | None, Some _ => true
  | Some x, Some y => y <? x
  | _, None => false
  end.
Definition by_added_at (x y : pool_row) : bool :=
  added_before (p_effective_added_at x) (p_effective_added_at y) ||
  (bool_decide (p_effective_added_at x = p_effective_added_at y) && text_le (p_id y) (p_id x)).
Definition by_title (x y : pool_row) : bool :=
  text_lt (p_title x) (p_title y) || (String.eqb (p_title x) (p_title y) && text_le (p_id x) (p_id y)).

Definition after_added_at (t : Time) (id : WorkID) (p : pool_row) : bool :=
  match p_effective_added_at p with
  | Some a => (a <? t) || ((a =? t) && text_lt (p_id p) id)
  | None => false
  end.
Definition after_title (title : string) (id : WorkID) (p : pool_row) : bool :=
  text_lt title (p_title p) || (String.eqb (p_title p) title && text_lt id (p_id p)).

Definition summary_of (lib : LibraryID) (db : catalog_db) (p : pool_row) : WorkSummary :=
  mkWorkSummary (p_id p) (p_title p) (p_subtitle p) (author_names db (p_id p)) (p_is_owned p)
    (collection_refs (memberships_of (String.eqb lib) db (p_id p))) (p_effective_added_at p).

(** ** [QueryLibrary] *)

Context `{TimeText}.

(** The cursor of a query: the condition on the rows after it. *)
Definition cursor_condition (sort : LibrarySort) (cursor : string) : Result (pool_row -> bool) :=
  if String.eqb cursor "" then Ok (fun _ => true)
  else if String.eqb sort SortTitle then
    '(title, id) ← DecodeTitleCursor cursor; Ok (after_title title id)
  else
    '(t, id) ← DecodeAddedAtCursor cursor; Ok (after_added_at t id).

Definition next_cursor (sort : LibrarySort) (last : WorkSummary) : string :=
  if String.eqb sort SortTitle then EncodeTitleCursor (ws_Title last) (ws_ID last)
  else match ws_AddedAt last with
       | Some t => EncodeAddedAtCursor t (ws_ID last)
       | None => EncodeAddedAtCursor zero_time (ws_ID last)
       end.

Definition effective_limit (limit : Z) : Z :=
  if limit <=? 0 then 50 else if 100 <? limit then 100 else limit.
Definition or_default (value fallback : string) : string :=
  if String.eqb value "" then fallback else value.

Definition QueryLibrary (fault : option pg_error) (q : LibraryQuery) : catalogM LibraryPage :=
  let limit := Z.to_nat (effective_limit (lq_Limit q)) in
  let filter := or_default (lq_Filter q) FilterAll in
  let sort := or_default (lq_Sort q) SortAddedAt in
  condition ← lift (cursor_condition sort (lq_Cursor q));
  let lib := or_default (lq_LibraryID q) DefaultLibraryID in
  let le := if String.eqb sort SortTitle then by_title else by_added_at in
  fetched ← exec fault (fun db =>
    Ok (summary_of lib db <$>
          take (limit + 1) (sort_by le (List.filter condition (work_pool filter (lq_Q q) lib db))), db));
  let hasMore := Nat.ltb limit (length fetched) in
  let works := if hasMore then take limit fetched else fetched in
  mret (mkLibraryPage works
          (match hasMore, last works with
           | true, Some w => next_cursor sort w
           | _, _ => ""
           end)).

(** ** [FindWorkDetail] *)

Fixpoint dedup (l : list string) : list string :=
  match l with
  | [] => []
  | x :: l' => if bool_decide (x ∈ l') then dedup l' else x :: dedup l'
  end.

(** [json_agg(DISTINCT so.file_reference_format ORDER BY ..)]. *)
Definition formats_of (db : catalog_db) (e : EditionID) : list string :=
  sort_by text_le (dedup ((fun ko => oc_format ko.2) <$>
    select (fun _ o => String.eqb (oc_edition_id o) e) (ct_source_offerings db))).

(** [ORDER BY le.added_at DESC]. *)
Definition owned_editions (lib : LibraryID) (db : catalog_db) (w : WorkID) : list OwnedEdition :=
  (fun le => mkOwnedEdition (lr_edition_id le.1) (ec_language le.2) (ec_isbn le.2) (ec_publisher le.2)
               (ec_publication_year le.2) (Some (lr_added_at le.1)) (formats_of db (lr_edition_id le.1))) <$>
  sort_by (fun x y => lr_added_at y.1 <=? lr_added_at x.1) (entries_of (String.eqb lib) db w).

Definition in_library (lib : LibraryID) (db : catalog_db) (w : WorkID) : bool :=
  nonempty (entries_of (String.eqb lib) db w) || nonempty (memberships_of (String.eqb lib) db w).

Definition FindWorkDetail (fault : option pg_error) (id : WorkID) (libraryID : LibraryID)
    : catalogM WorkDetail :=
  let lib := or_default libraryID DefaultLibraryID in
  '(row, authors, subjects, editions, collections) ← query_one fault "work not found" (fun db =>
    row ← ct_works db !! id;
    if in_library lib db id then
      Some (row, author_names db id, sort_by text_le (children id (ct_work_subjects db)),
            owned_editions lib db id, collection_refs (memberships_of (String.eqb lib) db id))
    else None);
  lang ← lift (scan_language (wc_original_language row));
  mret (mkWorkDetail id (wc_title row) (wc_subtitle row) authors subjects lang editions collections).

(** ** Handlers (library.go) *)

Definition activeLibraryScoped (ctx : context) : catalogH LibraryID :=
  match ctx_user ctx with
  | None => throw (HTTPError Unauthorized "missing or invalid authorization token")
  | Some user =>
      let activeLib := ActiveLibraryFromContext ctx in
      if String.eqb activeLib "" || negb (libraryInClaims activeLib (au_Libraries user)) then
        throw not_a_member
      else mret activeLib
  end.

(** The query string's parameters; an absent one is empty. *)
Record library_request := mkLibraryRequest {
  lr_limit : string;
  lr_q : string;
  lr_filter : string;
  lr_sort : string;
  lr_cursor : string;
}.

Definition one_of (s fallback : string) (values : list string) (msg : string) : catalogH string :=
  if String.eqb s "" then mret fallback
  else if bool_decide (s ∈ values) then mret s
  else bad_request msg.

Record wireLibraryPage := mkWireLibraryPage {
  wl_Works : list WorkSummary;
  wl_NextCursor : option string;
}.

Definition parse_limit (limitStr : string) : catalogH Z :=
  if String.eqb limitStr "" then mret 50
  else
    let invalid := bad_request ("limit: invalid value " +:+ quote limitStr +:+
                                " — must be an integer between 1 and 100") in
    match Atoi limitStr with
    | None => invalid
    | Some parsedLimit => if (parsedLimit <? 1) || (100 <? parsedLimit) then invalid else mret parsedLimit
    end.

(** The page goes out field by field. *)
Definition LibraryHandler (fault : option pg_error) (ctx : context) (r : library_request)
    : catalogH wireLibraryPage :=
  activeLib ← activeLibraryScoped ctx;
  limit ← parse_limit (lr_limit r);
  let q := lr_q r in
  _ ← (if 200 <? rune_count q then bad_request "q: exceeds maximum length of 200 characters" else mret tt);
  filter ← one_of (lr_filter r) FilterAll [FilterOwned; FilterWanted; FilterAll]
             ("filter: unrecognized value " +:+ quote (lr_filter r) +:+ " — must be one of: owned, wanted, all");
  sort ← one_of (lr_sort r) SortAddedAt [SortAddedAt; SortTitle]
           ("sort: unrecognized value " +:+ quote (lr_sort r) +:+ " — must be one of: added_at, title");
  let cursor := lr_cursor r in
  _ ← (if String.eqb cursor "" then mret tt
       else if String.eqb sort SortTitle then
         if is_ok (DecodeTitleCursor cursor) then mret tt else bad_request "invalid cursor"
       else if is_ok (DecodeAddedAtCursor cursor) then mret tt else bad_request "invalid cursor");
  page ← or_domain (QueryLibrary fault (mkLibraryQuery cursor limit q filter sort activeLib));
  mret (mkWireLibraryPage (lp_Works page)
          (if String.eqb (lp_NextCursor page) "" then None else Some (lp_NextCursor page))).

(** The path of a request: what the router matched, or the rest of the path. *)
Definition path_id (prefix value path : string) : string :=
  if String.eqb value "" && HasPrefix path prefix then TrimPrefix path prefix else value.

(** An error of the repository, a missing row answered in the handler's words. *)
Definition or_missing {A} (msg : string) (m : catalogM A) : catalogH A :=
  or_fail m (fun err =>
    if bool_decide (CategoryOf err = NotFound) then HTTPError NotFound msg else domain_http err).

Definition valid_id (field id msg : string) : catalogH unit :=
  if is_ok (ValidateBoundedText field id 100) then mret tt else bad_request msg.

Definition WorkDetailHandler (fault : option pg_error) (ctx : context) (value path : string)
    : catalogH WorkDetail :=
  activeLib ← activeLibraryScoped ctx;
  let workID := path_id "/api/v1/works/" value path in
  _ ← valid_id "id" workID "id: not a valid work ID";
  or_missing "no work with that id" (FindWorkDetail fault workID activeLib).
End queries.
