(* ===== verification/LibrarySafety.v ===== *)
(** * Paging through a library
      (src/internal/domain/library_query.go,
       src/internal/persistence/postgres/work_repository.go,
       src/internal/transport/http/library.go)

    Cursors are read back, a client that follows them gets every work of the
    library once and in order, and what a member sees depends on nothing of
    the other libraries. *)

From S2P Require Import Prelude GoStrings Errors Validate Catalog Postgres Http Encoding Tokens Identity Access CatalogStore CatalogLaws Library.
From Stdlib Require Import Sorted.

Local Open Scope string_scope.
Local Open Scope list_scope.
Local Open Scope Z_scope.

(** ** Cursors *)

Lemma cursor_parts_encoded a b :
  contains_char nul a = false -> contains_char nul b = false -> a +:+ String nul b <> "" ->
  cursor_parts (RawURLEncode (a +:+ String nul b)) = Ok (a, b).
Proof.
  intros Ha Hb Hne. unfold cursor_parts. rewrite RawURL_roundtrip, Split_app, Split_none by done.
  destruct (String.eqb_spec (RawURLEncode (a +:+ String nul b)) "") as [E|]; [|done].
  pose proof (RawURL_roundtrip (a +:+ String nul b)) as H. rewrite E in H.
  cbn in H. congruence.
Qed.

Lemma str_app_nonempty a c b : a +:+ String c b <> "".
Proof. by destruct a. Qed.

Lemma title_cursor_roundtrip title id :
  contains_char nul title = false -> contains_char nul id = false -> id <> "" ->
  DecodeTitleCursor (EncodeTitleCursor title id) = Ok (title, id).
Proof.
  intros Ht Hi Hid. unfold DecodeTitleCursor, EncodeTitleCursor, mbind, res_bind.
  rewrite cursor_parts_encoded; [|done..|apply str_app_nonempty].
  by destruct (String.eqb_spec id "").
Qed.

Lemma added_at_cursor_roundtrip `{TimeTextLaws} t id :
  four_digit_year t -> contains_char nul id = false -> id <> "" ->
  DecodeAddedAtCursor (EncodeAddedAtCursor t id) = Ok (t, id).
Proof.
  intros Ht Hi Hid. unfold DecodeAddedAtCursor, EncodeAddedAtCursor, mbind, res_bind.
  rewrite cursor_parts_encoded; [|apply format_time_nul|done|apply str_app_nonempty].
  pose proof (format_time_text t). destruct (String.eqb_spec (format_time t) ""); [done|].
  destruct (String.eqb_spec id ""); [done|]. cbn [orb]. by rewrite parse_format.
Qed.

Lemma encoded_nonempty s : s <> "" -> RawURLEncode s <> "".
Proof. intros Hs E. pose proof (RawURL_roundtrip s) as H. rewrite E in H. cbn in H. congruence. Qed.

(** ** The pool *)

Section paging.
Context `{CL : CollationLaws} {FT : FullText}.

Lemma text_refl a : text_le a a = true.
Proof. by destruct (text_total a a). Qed.
Lemma text_lt_le a b : text_lt a b = true -> text_le a b = true.
Proof. unfold text_lt. destruct (text_total a b) as [E|E]; rewrite E; done. Qed.

Lemma NoDup_omap_id {A B} (f : A -> option B) (ida : A -> string) (idb : B -> string) l :
  (forall a b, f a = Some b -> idb b = ida a) -> NoDup (ida <$> l) -> NoDup (idb <$> omap f l).
Proof.
  intros Hf. induction l as [|a l IH]; [done|]. rewrite fmap_cons. intros [Ha Hl]%NoDup_cons.
  cbn [omap list_omap]. destruct (f a) as [b|] eqn:E; [|by apply IH]. rewrite fmap_cons. apply NoDup_cons.
  split; [|by apply IH]. intros (b' & Hb & Hb')%list_elem_of_fmap. apply Ha.
  apply list_elem_of_omap in Hb' as (a' & Ha' & E'). apply list_elem_of_fmap. exists a'. split; [|done].
  by rewrite <- (Hf _ _ E), <- (Hf _ _ E').
Qed.

Lemma pool_of_id filter q lib db wr p : pool_of filter q lib db wr = Some p -> p_id p = wr.1.
Proof. destruct wr as [w row]. unfold pool_of. case_match; [|done]. by intros [= <-]. Qed.

Lemma pool_ids filter q lib db : NoDup (p_id <$> work_pool filter q lib db).
Proof.
  unfold work_pool. apply (NoDup_omap_id _ fst); [apply pool_of_id|]. apply NoDup_fst_map_to_list.
Qed.

(** A work of the pool is owned or wanted, so it has a time it was added. *)
Lemma pool_added filter q lib db p :
  p ∈ work_pool filter q lib db -> is_Some (p_effective_added_at p).
Proof.
  unfold work_pool. intros ([w row] & _ & Hp)%list_elem_of_omap. unfold pool_of in Hp.
  destruct (admitted_by _ _ _ && _) eqn:E; [|done]. injection Hp as <-. cbn [p_effective_added_at].
  apply andb_prop in E as [E _]. unfold admitted_by in E.
  destruct (entries_of (String.eqb lib) db w) as [|le les], (memberships_of (String.eqb lib) db w) as [|mc mcs];
    cbn in *; try by eexists.
  by rewrite !andb_false_r in E.
Qed.

(** ** Orders *)

Lemma by_title_total x y : by_title x y = true \/ by_title y x = true.
Proof.
  unfold by_title, text_lt. destruct (text_le (p_title y) (p_title x)) eqn:E1; [|by left].
  destruct (text_le (p_title x) (p_title y)) eqn:E2; [|by right].
  rewrite (text_antisym _ _ E1 E2), String.eqb_refl. cbn [negb orb andb]. apply text_total.
Qed.

Lemma by_title_trans x y z : by_title x y = true -> by_title y z = true -> by_title x z = true.
Proof.
  unfold by_title, text_lt. rewrite !orb_true_iff, !andb_true_iff, !negb_true_iff, !String.eqb_eq.
  intros [H1|[E1 H1]] [H2|[E2 H2]].
  - left. destruct (text_le (p_title z) (p_title x)) eqn:E; [|done].
    destruct (text_total (p_title y) (p_title z)) as [Hyz|Hyz]; [|congruence].
    rewrite (text_trans _ _ _ Hyz E) in H1. done.
  - left. by rewrite <- E2.
  - left. by rewrite E1.
  - right. split; [congruence|by eapply text_trans].
Qed.

Lemma after_title_spec x y : after_title (p_title x) (p_id x) y = negb (by_title y x).
Proof.
  unfold after_title, by_title, text_lt.
  destruct (String.eqb_spec (p_title y) (p_title x)) as [E|E].
  - rewrite E, text_refl. cbn. done.
  - cbn [andb]. rewrite !orb_false_r. 
    destruct (text_le (p_title y) (p_title x)) eqn:E1, (text_le (p_title x) (p_title y)) eqn:E2; try done.
    + by destruct (E (text_antisym _ _ E1 E2)).
    + by destruct (text_total (p_title y) (p_title x)); congruence.
Qed.

Lemma by_title_id x y : by_title x y = true -> by_title y x = true -> p_id x = p_id y.
Proof.
  unfold by_title, text_lt. rewrite !orb_true_iff, !andb_true_iff, !negb_true_iff, !String.eqb_eq.
  intros [H1|[E1 H1]] [H2|[E2 H2]].
  - destruct (text_total (p_title x) (p_title y)); congruence.
  - rewrite E2, text_refl in H1. done.
  - rewrite E1, text_refl in H2. done.
  - by apply text_antisym.
Qed.

Lemma by_added_total x y : by_added_at x y = true \/ by_added_at y x = true.
Proof.
  unfold by_added_at, added_before.
  destruct (p_effective_added_at x) as [a|], (p_effective_added_at y) as [b|]; cbn; auto.
  - destruct (Z.ltb_spec b a), (Z.ltb_spec a b); cbn; auto. assert (a = b) as -> by lia.
    rewrite bool_decide_true by done. cbn. apply text_total.
  - rewrite bool_decide_true by done. cbn. apply text_total.
Qed.

Lemma by_added_trans x y z : by_added_at x y = true -> by_added_at y z = true -> by_added_at x z = true.
Proof.
  unfold by_added_at, added_before.
  destruct (p_effective_added_at x) as [a|], (p_effective_added_at y) as [b|], (p_effective_added_at z) as [c|];
    rewrite ?orb_true_iff, ?andb_true_iff, ?bool_decide_eq_true, ?Z.ltb_lt; try naive_solver.
  - intros [H1|[[= ->] H1]] [H2|[[= ->] H2]]; [left; lia|left; lia|left; lia|right].
    split; [done|by eapply text_trans].
  - intros [|[_ H1]] [|[_ H2]]; try done. right. split; [done|by eapply text_trans].
Qed.

Lemma by_added_id x y : by_added_at x y = true -> by_added_at y x = true -> p_id x = p_id y.
Proof.
  unfold by_added_at, added_before.
  destruct (p_effective_added_at x) as [a|], (p_effective_added_at y) as [b|];
    rewrite ?orb_true_iff, ?andb_true_iff, ?bool_decide_eq_true, ?Z.ltb_lt; try naive_solver.
  - intros [H1|[[= ->] H1]] [H2|[E H2]]; simplify_eq; try lia. by apply text_antisym.
  - intros [|[_ H1]] [|[_ H2]]; try done. by apply text_antisym.
Qed.

Lemma after_added_spec x y t :
  p_effective_added_at x = Some t -> is_Some (p_effective_added_at y) ->
  after_added_at t (p_id x) y = negb (by_added_at y x).
Proof.
  intros Hx [a Hy]. unfold after_added_at, by_added_at, added_before, text_lt. rewrite Hx, Hy.
  destruct (Z.ltb_spec a t), (Z.ltb_spec t a), (Z.eqb_spec a t); try lia; cbn [negb orb andb].
  - rewrite bool_decide_false by (intros [= ?]; lia). done.
  - subst. by rewrite bool_decide_true.
Qed.

(** ** Following the cursors *)

Context {TT : TimeText} {TTL : TimeTextLaws}.

(** Texts and instants that a cursor can carry: a text column holds no NUL, no
    identifier is empty, and the instants have years of four digits. *)
Definition cursor_safe (db : catalog_db) : Prop :=
  map_Forall (fun id row => id <> "" /\ contains_char nul id = false /\
                            contains_char nul (wc_title row) = false) (ct_works db) /\
  Forall (fun le => four_digit_year (lr_added_at le)) (ct_library_entries db) /\
  Forall (fun cm => four_digit_year (mr_added_at cm)) (ct_collection_members db).

Definition order_of (sort : LibrarySort) : pool_row -> pool_row -> bool :=
  if String.eqb sort SortTitle then by_title else by_added_at.

Lemma order_total sort x y : order_of sort x y = true \/ order_of sort y x = true.
Proof. unfold order_of. destruct (String.eqb _ _); [apply by_title_total|apply by_added_total]. Qed.
Lemma order_trans sort x y z :
  order_of sort x y = true -> order_of sort y z = true -> order_of sort x z = true.
Proof. unfold order_of. destruct (String.eqb _ _); [apply by_title_trans|apply by_added_trans]. Qed.
Lemma order_id sort x y : order_of sort x y = true -> order_of sort y x = true -> p_id x = p_id y.
Proof. unfold order_of. destruct (String.eqb _ _); [apply by_title_id|apply by_added_id]. Qed.

Lemma fold_min_elem l t : fold_left Z.min l t ∈ t :: l.
Proof.
  revert t. induction l as [|x l IH]; intros t; [by left|]. simpl. specialize (IH (Z.min t x)).
  apply elem_of_cons in IH as [->|IH]; [|by do 2 right].
  destruct (Z.min_spec t x) as [[_ ->]|[_ ->]]; [by left|by right; left].
Qed.
Lemma fold_max_elem l t : fold_left Z.max l t ∈ t :: l.
Proof.
  revert t. induction l as [|x l IH]; intros t; [by left|]. simpl. specialize (IH (Z.max t x)).
  apply elem_of_cons in IH as [->|IH]; [|by do 2 right].
  destruct (Z.max_spec t x) as [[_ ->]|[_ ->]]; [by right; left|by left].
Qed.

Lemma sql_min_elem l t : sql_min l = Some t -> t ∈ l.
Proof. destruct l as [|x l]; [done|]. intros [= <-]. apply fold_min_elem. Qed.
Lemma sql_max_elem l t : sql_max l = Some t -> t ∈ l.
Proof. destruct l as [|x l]; [done|]. intros [= <-]. apply fold_max_elem. Qed.

Lemma entries_of_elem ok db w le e :
  (le, e) ∈ entries_of ok db w ->
  le ∈ ct_library_entries db /\ ct_editions db !! lr_edition_id le = Some e /\ ec_work_id e = w /\
  ok (lr_library_id le) = true.
Proof.
  unfold entries_of. intros (le' & Hle & Hsel)%list_elem_of_omap.
  destruct (ct_editions db !! lr_edition_id le') as [e'|] eqn:He; [|done].
  destruct (String.eqb _ _ && _) eqn:E; [|done]. injection Hsel as <- <-.
  apply andb_prop in E as [E1%String.eqb_eq E2]. done.
Qed.
Lemma memberships_of_elem ok db w cm c :
  (cm, c) ∈ memberships_of ok db w ->
  cm ∈ ct_collection_members db /\ ct_collections db !! mr_collection_id cm = Some c /\
  mr_work_id cm = w /\ ok (cc_library_id c) = true.
Proof.
  unfold memberships_of. intros (cm' & Hcm & Hsel)%list_elem_of_omap.
  destruct (ct_collections db !! mr_collection_id cm') as [c'|] eqn:Hc; [|done].
  destruct (String.eqb _ _ && _) eqn:E; [|done]. injection Hsel as <- <-.
  apply andb_prop in E as [E1%String.eqb_eq E2]. done.
Qed.

(** What a row of the pool carries goes into a cursor. *)
Lemma pool_safe filter q lib db p :
  cursor_safe db -> p ∈ work_pool filter q lib db ->
  p_id p <> "" /\ contains_char nul (p_id p) = false /\ contains_char nul (p_title p) = false /\
  exists t, p_effective_added_at p = Some t /\ four_digit_year t.
Proof.
  intros (Hw & He & Hm) Hp. destruct (pool_added _ _ _ _ _ Hp) as [t Ht].
  unfold work_pool in Hp. apply list_elem_of_omap in Hp as ([w row] & Hrow & Hp).
  apply elem_of_map_to_list in Hrow. destruct (Hw _ _ Hrow) as (H1 & H2 & H3).
  unfold pool_of in Hp. case_match; [|done]. injection Hp as <-. cbn [p_id p_title p_effective_added_at] in *. conjuncts. exists t. split; [done|].
  rewrite Forall_forall in He. rewrite Forall_forall in Hm.
  destruct (sql_min _) as [t'|] eqn:Emin in Ht.
  - injection Ht as <-. apply sql_min_elem, list_elem_of_fmap in Emin as ([le e] & -> & Hin).
    apply He. by apply entries_of_elem in Hin as [? _].
  - apply sql_max_elem, list_elem_of_fmap in Ht as ([cm c] & -> & Hin).
    apply Hm. by apply memberships_of_elem in Hin as [? _].
Qed.

(** The cursor made from a row selects the rows that come after it. *)
Lemma next_cursor_condition filter q lib db sort p :
  cursor_safe db -> p ∈ work_pool filter q lib db ->
  next_cursor sort (summary_of lib db p) <> "" /\
  exists c, cursor_condition sort (next_cursor sort (summary_of lib db p)) = Ok c /\
    forall y, y ∈ work_pool filter q lib db -> c y = negb (order_of sort y p).
Proof.
  intros Hs Hp. destruct (pool_safe _ _ _ _ _ Hs Hp) as (H1 & H2 & H3 & t & Ht & H4).
  unfold next_cursor, cursor_condition, order_of, summary_of. cbn [ws_Title ws_ID ws_AddedAt]. rewrite Ht.
  destruct (String.eqb sort SortTitle).
  - assert (EncodeTitleCursor (p_title p) (p_id p) <> "") as Hne by (apply encoded_nonempty, str_app_nonempty).
    split; [done|]. apply String.eqb_neq in Hne. rewrite Hne, title_cursor_roundtrip by done.
    eexists. split; [reflexivity|]. intros y _. apply after_title_spec.
  - assert (EncodeAddedAtCursor t (p_id p) <> "") as Hne by (apply encoded_nonempty, str_app_nonempty).
    split; [done|]. apply String.eqb_neq in Hne. rewrite Hne, added_at_cursor_roundtrip by done.
    eexists. split; [reflexivity|]. intros y Hy. apply after_added_spec; [done|]. by eapply pool_added.
Qed.

(** The works a query is after, in its order. *)
Definition wanted_rows (q : LibraryQuery) (db : catalog_db) : list pool_row :=
  let sort := or_default (lq_Sort q) SortAddedAt in
  let lib := or_default (lq_LibraryID q) DefaultLibraryID in
  sort_by (order_of sort) (work_pool (or_default (lq_Filter q) FilterAll) (lq_Q q) lib db).

Definition summaries (q : LibraryQuery) (db : catalog_db) (l : list pool_row) : list WorkSummary :=
  summary_of (or_default (lq_LibraryID q) DefaultLibraryID) db <$> l.

Lemma wanted_rows_elem q db p :
  p ∈ wanted_rows q db <->
  p ∈ work_pool (or_default (lq_Filter q) FilterAll) (lq_Q q) (or_default (lq_LibraryID q) DefaultLibraryID) db.
Proof. unfold wanted_rows. by rewrite sort_by_perm. Qed.

Lemma wanted_rows_sorted q db :
  StronglySorted (fun x y => order_of (or_default (lq_Sort q) SortAddedAt) x y = true) (wanted_rows q db).
Proof. apply sort_by_sorted; [apply order_total|apply order_trans]. Qed.

Lemma wanted_rows_ids q db : NoDup (p_id <$> wanted_rows q db).
Proof. unfold wanted_rows. rewrite sort_by_perm. apply pool_ids. Qed.

(** The rows after a row of the list are the rest of the list. *)
Lemma rows_after q db l1 p l2 :
  wanted_rows q db = l1 ++ p :: l2 ->
  List.filter (fun y => negb (order_of (or_default (lq_Sort q) SortAddedAt) y p)) (wanted_rows q db) = l2.
Proof.
  intros E. pose proof (wanted_rows_sorted q db) as Hs. pose proof (wanted_rows_ids q db) as Hnd.
  rewrite E in *. apply filter_after; [apply order_total|done|]. intros y Hy.
  destruct (order_of _ y p) eqn:Hyp; [|done]. exfalso.
  assert (order_of (or_default (lq_Sort q) SortAddedAt) p y = true) as Hpy.
  { clear -Hs Hy. induction l1 as [|z l1 IH]; simpl in Hs; inversion Hs as [|? ? Hs' Hz]; subst; [|by apply IH].
    rewrite Forall_forall in Hz. by apply Hz. }
  pose proof (order_id _ _ _ Hyp Hpy) as Hid.
  rewrite fmap_app, fmap_cons in Hnd. apply NoDup_app in Hnd as (_ & _ & Hnd).
  apply NoDup_cons in Hnd as [Hnd _]. apply Hnd. rewrite <- Hid. apply list_elem_of_fmap. by exists y.
Qed.

Definition with_cursor (cursor : string) (q : LibraryQuery) : LibraryQuery :=
  mkLibraryQuery cursor (lq_Limit q) (lq_Q q) (lq_Filter q) (lq_Sort q) (lq_LibraryID q).

Definition page_size (q : LibraryQuery) : nat := Z.to_nat (effective_limit (lq_Limit q)).

Lemma page_size_pos q : (0 < page_size q <= 100)%nat.
Proof. unfold page_size, effective_limit. repeat case_match; lia. Qed.

Lemma filter_ext_elem {A} (p1 p2 : A -> bool) l :
  (forall x, x ∈ l -> p1 x = p2 x) -> List.filter p1 l = List.filter p2 l.
Proof.
  induction l as [|x l IH]; intros Hp; [done|]. simpl. rewrite (Hp x) by (by left).
  rewrite IH; [done|]. intros y Hy. apply Hp. by right.
Qed.

(** The page of a cursor that stands before [l2]. *)
Lemma QueryLibrary_page q db l1 l2 c :
  cursor_safe db -> wanted_rows q db = l1 ++ l2 ->
  cursor_condition (or_default (lq_Sort q) SortAddedAt) (lq_Cursor q) = Ok c ->
  List.filter c (wanted_rows q db) = l2 ->
  exists next,
    QueryLibrary None q db = (Ok (mkLibraryPage (summaries q db (take (page_size q) l2)) next), db) /\
    if Nat.ltb (page_size q) (length l2) then
      next <> "" /\
      exists c', cursor_condition (or_default (lq_Sort q) SortAddedAt) next = Ok c' /\
                 List.filter c' (wanted_rows q db) = drop (page_size q) l2
    else next = "".
Proof.
  intros Hs E Hc Hf. unfold QueryLibrary, lift, reading, mbind, stM_bind. rewrite Hc. cbn [exec].
  set (lib := or_default (lq_LibraryID q) DefaultLibraryID).
  set (pool := work_pool (or_default (lq_Filter q) FilterAll) (lq_Q q) lib db).
  set (sort := or_default (lq_Sort q) SortAddedAt) in *.
  assert (Hsorted : sort_by (if String.eqb sort SortTitle then by_title else by_added_at) (List.filter c pool) = l2).
  { change (if String.eqb sort SortTitle then by_title else by_added_at) with (order_of sort).
    rewrite sort_by_filter; [exact Hf|apply order_total|apply order_trans]. }
  unfold exec. rewrite Hsorted. fold (page_size q). rewrite length_fmap, length_take.
  assert (Hlt : Nat.ltb (page_size q) ((page_size q + 1) `min` length l2) = Nat.ltb (page_size q) (length l2)).
  { destruct (Nat.ltb_spec (page_size q) (length l2)), (Nat.ltb_spec (page_size q) ((page_size q + 1) `min` length l2)); lia. }
  rewrite Hlt. clear Hlt. destruct (Nat.ltb_spec (page_size q) (length l2)) as [Hlen|Hlen].
  - rewrite <- fmap_take, take_take. replace (page_size q `min` (page_size q + 1))%nat with (page_size q) by lia.
    pose proof (page_size_pos q) as Hpos.
    destruct (last (take (page_size q) l2)) as [p|] eqn:Hlast.
    2: { apply last_None in Hlast. apply (f_equal length) in Hlast. rewrite length_take in Hlast. simpl in Hlast. lia. }
    rewrite fmap_last, Hlast. cbn [fmap option_fmap option_map].
    apply last_Some in Hlast as [l2' Hl2'].
    assert (Hw : wanted_rows q db = (l1 ++ l2') ++ p :: drop (page_size q) l2).
    { rewrite E, <- app_assoc. f_equal. rewrite <- (take_drop (page_size q) l2) at 1. by rewrite Hl2', <- app_assoc. }
    assert (Hp : p ∈ pool).
    { apply wanted_rows_elem. rewrite Hw. apply elem_of_app. right. by left. }
    destruct (next_cursor_condition _ _ _ _ sort p Hs Hp) as (Hne & c' & Hc' & Hafter).
    eexists. split; [reflexivity|]. split; [exact Hne|]. exists c'. split; [exact Hc'|].
    rewrite <- (rows_after _ _ _ _ _ Hw). apply filter_ext_elem.
    intros y Hy%wanted_rows_elem. by apply Hafter.
  - eexists. split; [|reflexivity]. rewrite !take_ge by lia. done.
Qed.

(** A client that follows the cursors: the pages it gets. *)
Fixpoint read_pages (fuel : nat) (q : LibraryQuery) (db : catalog_db) : Result (list (list WorkSummary)) :=
  match fuel with
  | O => OutOfFuel
  | S fuel' =>
      page ← (QueryLibrary None q db).1;
      if String.eqb (lp_NextCursor page) "" then Ok [lp_Works page]
      else rest ← read_pages fuel' (with_cursor (lp_NextCursor page) q) db;
           Ok (lp_Works page :: rest)
  end.

Lemma read_pages_from fuel q db l1 l2 c :
  cursor_safe db -> wanted_rows q db = l1 ++ l2 ->
  cursor_condition (or_default (lq_Sort q) SortAddedAt) (lq_Cursor q) = Ok c ->
  List.filter c (wanted_rows q db) = l2 -> (length l2 < fuel)%nat ->
  exists pages, read_pages fuel q db = Ok pages /\ concat pages = summaries q db l2 /\
    Forall (fun p => length p <= page_size q)%nat pages /\
    Forall (fun p => length p = page_size q) (removelast pages).
Proof.
  revert q l1 l2 c. induction fuel as [|fuel IH]; intros q l1 l2 c Hs E Hc Hf Hfuel; [lia|].
  destruct (QueryLibrary_page q db l1 l2 c Hs E Hc Hf) as (next & Hrun & Hnext).
  cbn [read_pages]. rewrite Hrun. unfold mbind, res_bind. cbn [fst lp_NextCursor lp_Works].
  assert (Hlen : length (summaries q db (take (page_size q) l2)) = (page_size q `min` length l2)%nat).
  { unfold summaries. by rewrite length_fmap, length_take. }
  destruct (Nat.ltb_spec (page_size q) (length l2)) as [Hlt|Hge].
  - destruct Hnext as (Hne%String.eqb_neq & c' & Hc' & Hf'). rewrite Hne. pose proof (page_size_pos q) as Hpos.
    destruct (IH (with_cursor next q) (l1 ++ take (page_size q) l2) (drop (page_size q) l2) c' Hs)
      as (pages & Hpages & Hcat & Hshort & Hfull).
    + change (wanted_rows (with_cursor next q) db) with (wanted_rows q db). by rewrite E, <- app_assoc, take_drop.
    + exact Hc'.
    + exact Hf'.
    + rewrite length_drop. lia.
    + rewrite Hpages. eexists. split; [reflexivity|]. split; [|split].
      * simpl. rewrite Hcat. change (summaries (with_cursor next q) db) with (summaries q db).
        unfold summaries. by rewrite <- fmap_app, take_drop.
      * constructor; [lia|done].
      * destruct pages as [|p pages]; [constructor|]. change (removelast (?a :: p :: pages)) with (a :: removelast (p :: pages)).
        constructor; [lia|done].
  - subst next. cbn [String.eqb]. eexists. split; [reflexivity|]. simpl. rewrite app_nil_r, take_ge by lia.
    split; [done|]. split; [|constructor]. constructor; [rewrite take_ge in Hlen by lia; lia|constructor].
Qed.

(** Which works a query is after. *)
Definition wanted_work (q : LibraryQuery) (db : catalog_db) (w : WorkID) (row : work_cols) : Prop :=
  let lib := or_default (lq_LibraryID q) DefaultLibraryID in
  admitted_by (or_default (lq_Filter q) FilterAll) (nonempty (entries_of (String.eqb lib) db w))
    (nonempty (memberships_of (String.eqb lib) db w)) = true /\
  found_by (lq_Q q) db w row = true.

Lemma wanted_rows_work q db w :
  w ∈ p_id <$> wanted_rows q db <-> exists row, ct_works db !! w = Some row /\ wanted_work q db w row.
Proof.
  rewrite list_elem_of_fmap. setoid_rewrite wanted_rows_elem. unfold work_pool.
  setoid_rewrite list_elem_of_omap. unfold wanted_work. split.
  - intros (p & -> & [w' row] & Hrow & Hp). pose proof (pool_of_id _ _ _ _ _ _ Hp) as Hid. cbn in Hid. subst w'.
    apply elem_of_map_to_list in Hrow. exists row. split; [done|]. unfold pool_of in Hp.
    destruct (_ && _) eqn:E in Hp; [|done]. by apply andb_prop in E.
  - intros (row & Hrow & H1 & H2). eexists. split; [|exists (w, row); split].
    2: by apply elem_of_map_to_list.
    2: { unfold pool_of. rewrite H1, H2. reflexivity. }
    done.
Qed.

Lemma wanted_rows_length q db : (length (wanted_rows q db) <= size (ct_works db))%nat.
Proof.
  unfold wanted_rows. rewrite (Permutation_length (sort_by_perm _ _)). unfold work_pool.
  rewrite <- length_map_to_list. generalize (map_to_list (ct_works db)). intros l.
  induction l as [|wr l IH]; [done|]. cbn [omap list_omap]. case_match; simpl; lia.
Qed.

(** C7: following the cursors reads the whole library, once and in order.
    While the tables stay as they are, a client that starts without a cursor
    and follows each page's cursor reaches the last page, after at most one
    page more than there are works; the pages one after another list each
    work that the filter and the search admit exactly once, in the order asked
    for, and every page but the last is full. *)
Theorem library_pages_complete q db :
  cursor_safe db -> lq_Cursor q = "" ->
  exists pages rows,
    read_pages (S (size (ct_works db))) q db = Ok pages /\
    concat pages = summaries q db rows /\
    StronglySorted (fun x y => order_of (or_default (lq_Sort q) SortAddedAt) x y = true) rows /\
    NoDup (ws_ID <$> concat pages) /\
    (forall w, w ∈ ws_ID <$> concat pages <-> exists row, ct_works db !! w = Some row /\ wanted_work q db w row) /\
    Forall (fun p => length p <= page_size q)%nat pages /\
    Forall (fun p => length p = page_size q) (removelast pages).
Proof.
  intros Hs Hcur. pose proof (wanted_rows_length q db).
  destruct (read_pages_from (S (size (ct_works db))) q db [] (wanted_rows q db) (fun _ => true))
    as (pages & Hpages & Hcat & Hshort & Hfull); [done|done| | |lia|].
  - unfold cursor_condition. by rewrite Hcur.
  - generalize (wanted_rows q db). intros l. induction l as [|p l IH]; [done|]. simpl. by rewrite IH.
  - exists pages, (wanted_rows q db). rewrite Hcat.
    assert (ws_ID <$> summaries q db (wanted_rows q db) = p_id <$> wanted_rows q db) as ->.
    { unfold summaries. by rewrite <- list_fmap_compose. }
    split; [done|]. split; [done|]. split; [apply wanted_rows_sorted|]. split; [apply wanted_rows_ids|].
    split; [apply wanted_rows_work|done].
Qed.
End paging.

(** ** A library to page through *)

#[export] Instance byte_collation : Collation := String.leb.
#[export] Instance byte_collation_laws : CollationLaws.
Proof.
  split; [apply String.leb_total|intros a b c; apply leb_trans|intros a b; apply String.leb_antisym].
Qed.

(** Equality as search. *)
#[export] Instance equal_text : FullText := {
  work_matches title subtitle q := String.eqb title q || String.eqb subtitle q;
  name_matches name q := String.eqb name q;
}.

(** An instant in unary, with its sign. *)
Fixpoint ticks (n : nat) : string := match n with O => "" | S n' => String "1" (ticks n') end.
#[export] Instance unary_time : TimeText := {
  format_time t := if t <? 0 then String "-" (ticks (Z.to_nat (- t))) else String "+" (ticks (Z.to_nat t));
  parse_time s :=
    match s with
    | "" => None
    | String c s' =>
        if negb (String.eqb s' (ticks (String.length s'))) then None
        else if Ascii.eqb c "-" then Some (- Z.of_nat (String.length s'))
        else if Ascii.eqb c "+" then Some (Z.of_nat (String.length s')) else None
    end;
}.

Lemma ticks_length n : String.length (ticks n) = n.
Proof. induction n; simpl; congruence. Qed.
Lemma ticks_nul n : contains_char nul (ticks n) = false.
Proof. by induction n. Qed.

#[export] Instance unary_time_laws : TimeTextLaws.
Proof.
  refine (Build_TimeTextLaws _ (fun _ => True) _ _ _).
  - intros t _. unfold format_time, parse_time, unary_time.
    destruct (Z.ltb_spec t 0); rewrite ticks_length, String.eqb_refl; cbn; f_equal; lia.
  - intros t. unfold format_time, unary_time. destruct (t <? 0); apply ticks_nul.
  - intros t. unfold format_time, unary_time. by destruct (t <? 0).
Defined.

Lemma demo_catalog_safe : cursor_safe demo_catalog.
Proof.
  split; [|split].
  - apply map_Forall_insert_2; [done|]. apply map_Forall_singleton. done.
  - repeat constructor.
  - repeat constructor.
Qed.

Definition demo_query : LibraryQuery := mkLibraryQuery "" 1 "" "" "title" "l1".

Lemma library_pages_complete_witness :
  exists pages, read_pages 3 demo_query demo_catalog = Ok pages /\
    List.map (List.map ws_ID) pages = [["w1"]; ["w2"]] /\ NoDup (ws_ID <$> concat pages).
Proof.
  destruct (library_pages_complete demo_query demo_catalog demo_catalog_safe eq_refl)
    as (pages & rows & Hpages & _ & _ & Hnd & _).
  change (S (size (ct_works demo_catalog))) with 3%nat in Hpages.
  exists pages. split; [exact Hpages|]. split; [|exact Hnd].
  vm_compute in Hpages. injection Hpages as <-. reflexivity.
Defined.
