(* ===== verification/Collections.v ===== *)
(** * Collections
      (src/internal/domain/collection_service.go,
       src/internal/persistence/postgres/collection_repository.go,
       src/internal/transport/http/collections.go)

    The repository over the tables collections and collection_members, the
    service that goes through the aggregate, and the handlers that go through
    the statements of the repository. *)

From S2P Require Import Prelude GoStrings Errors Validate Catalog Postgres Http Encoding Tokens Identity Access CatalogStore Library.

Local Open Scope string_scope.
Local Open Scope list_scope.
Local Open Scope Z_scope.

(** ** The repository *)

(** [WHERE id = $1 AND library_id = $2]. *)
Definition collection_in (lib : LibraryID) (id : CollectionID) (db : catalog_db) : option collection_cols :=
  c ← ct_collections db !! id;
  if String.eqb (cc_library_id c) lib then Some c else None.

Definition members_in (id : CollectionID) (db : catalog_db) : list member_row :=
  List.filter (fun m => String.eqb (mr_collection_id m) id) (ct_collection_members db).

Definition is_member (id : CollectionID) (w : WorkID) (m : member_row) : bool :=
  String.eqb (mr_collection_id m) id && String.eqb (mr_work_id m) w.

(** The fold of [c.AddMember] over the rows. *)
Definition rehydrate_members (c : Collection) (rows : list member_row) : Collection :=
  fold_left (fun c m => add_member (mr_work_id m) (mr_added_at m) c) rows c.

Definition FindCollectionByID (faults : nat -> option pg_error) (lib : LibraryID) (id : CollectionID)
    : catalogM Collection :=
  row ← query_one (faults 0%nat) "collection not found" (collection_in lib id);
  c ← lift (scanned (NewCollection id (cc_name row)));
  rows ← exec (faults 1%nat) (fun db => Ok (members_in id db, db));
  mret (rehydrate_members c rows).

(** An INSERT INTO collection_members, and its ON CONFLICT DO NOTHING. *)
Definition insert_member (m : member_row) (db : catalog_db) : res pg_error catalog_db :=
  if existsb (is_member (mr_collection_id m) (mr_work_id m)) (ct_collection_members db) then
    Err unique_violation
  else if negb (bool_decide (is_Some (ct_collections db !! mr_collection_id m))) ||
          negb (work_known (mr_work_id m) db) then Err foreign_key_violation
  else Ok (with_collection_members (ct_collection_members db ++ [m]) db).
Definition insert_member_if_absent (m : member_row) (db : catalog_db) : res pg_error catalog_db :=
  if existsb (is_member (mr_collection_id m) (mr_work_id m)) (ct_collection_members db) then Ok db
  else insert_member m db.

Fixpoint insert_members (faults : nat -> option pg_error) (n : nat) (id : CollectionID)
    (l : list CollectionMember) : catalogM unit :=
  match l with
  | [] => mret tt
  | m :: l' =>
      _ ← execute_ (faults n) (insert_member (mkMemberRow id (cm_WorkID m) (cm_AddedAt m)));
      insert_members faults (S n) id l'
  end.

Definition delete_members (id : CollectionID) (db : catalog_db) : catalog_db :=
  with_collection_members
    (List.filter (fun m => negb (String.eqb (mr_collection_id m) id)) (ct_collection_members db)) db.

(** The upsert of a collection's row, which an identifier of another library
    leaves alone. *)
Definition upsert_collection (lib : LibraryID) (c : Collection) (db : catalog_db)
    : res pg_error (Z * catalog_db) :=
  match ct_collections db !! c_id c with
  | Some r =>
      if String.eqb (cc_library_id r) lib then
        Ok (1, with_collections (<[c_id c := mkCollectionCols (c_name c) lib]> (ct_collections db)) db)
      else Ok (0, db)
  | None =>
      if negb (bool_decide (lib ∈ ct_libraries db)) then Err foreign_key_violation
      else Ok (1, with_collections (<[c_id c := mkCollectionCols (c_name c) lib]> (ct_collections db)) db)
  end.

Definition SaveCollection (faults : nat -> option pg_error) (lib : LibraryID) (c : Collection)
    : catalogM unit :=
  _ ← affecting "collection not found" (exec (faults 0%nat) (upsert_collection lib c));
  _ ← execute_ (faults 1%nat) (fun db => Ok (delete_members (c_id c) db));
  insert_members faults 2 (c_id c) (c_members c).

Definition DeleteCollection (faults : nat -> option pg_error) (lib : LibraryID) (id : CollectionID)
    : catalogM unit :=
  _ ← execute_ (faults 0%nat) (fun db =>
    Ok (if bool_decide (is_Some (collection_in lib id db)) then delete_members id db else db));
  affecting "collection not found" (exec (faults 1%nat) (fun db =>
    match collection_in lib id db with
    | None => Ok (0, db)
    | Some _ =>
        if nonempty (members_in id db) then Err foreign_key_violation
        else Ok (1, with_collections (delete id (ct_collections db)) db)
    end)).

Record CollectionSummary := mkCollectionSummary {
  cs_ID : CollectionID;
  cs_Name : string;
  cs_WorkCount : Z;
}.

Record CollectionDetail := mkCollectionDetail {
  cd_ID : CollectionID;
  cd_Name : string;
  cd_Works : list WorkSummary;
}.

Section collection_queries.
Context `{Collation}.

Definition FindAllCollections (fault : option pg_error) (lib : LibraryID)
    : catalogM (list CollectionSummary) :=
  exec fault (fun db =>
    Ok ((fun kc => mkCollectionSummary kc.1 (cc_name kc.2) (Z.of_nat (length (members_in kc.1 db)))) <$>
        sort_by (fun x y => text_le (cc_name x.2) (cc_name y.2))
          (select (fun _ c => String.eqb (cc_library_id c) lib) (ct_collections db)), db)).

(** A member work of the detail: its ownership and its collections are looked
    up without a library. *)
Definition member_summary (db : catalog_db) (m : member_row) : option WorkSummary :=
  w ← ct_works db !! mr_work_id m;
  Some (mkWorkSummary (mr_work_id m) (wc_title w) (wc_subtitle w) (author_names db (mr_work_id m))
          (nonempty (entries_of (fun _ => true) db (mr_work_id m)))
          (collection_refs (memberships_of (fun _ => true) db (mr_work_id m)))
          (Some (mr_added_at m))).

Definition FindCollectionDetail (fault : option pg_error) (lib : LibraryID) (id : CollectionID)
    : catalogM CollectionDetail :=
  query_one fault "collection not found" (fun db =>
    c ← collection_in lib id db;
    Some (mkCollectionDetail id (cc_name c)
            (omap (member_summary db)
               (sort_by (fun x y => mr_added_at y <=? mr_added_at x) (members_in id db))))).

Definition AddCollectionMember (faults : nat -> option pg_error) (lib : LibraryID)
    (collectionID : CollectionID) (workID : WorkID) (addedAt : Time) : catalogM unit :=
  _ ← query_one (faults 0%nat) "collection not found" (collection_in lib collectionID);
  _ ← query_one (faults 1%nat) "work not found" (fun db => ct_works db !! workID);
  execute_ (faults 2%nat) (insert_member_if_absent (mkMemberRow collectionID workID addedAt)).

Definition RemoveCollectionMember (faults : nat -> option pg_error) (lib : LibraryID)
    (collectionID : CollectionID) (workID : WorkID) : catalogM unit :=
  _ ← query_one (faults 0%nat) "collection not found" (collection_in lib collectionID);
  affecting "no membership found for that work in this collection" (exec (faults 1%nat) (fun db =>
    Ok (Z.of_nat (length (List.filter (is_member collectionID workID) (ct_collection_members db))),
        with_collection_members
          (List.filter (fun m => negb (is_member collectionID workID m)) (ct_collection_members db)) db))).

Definition RenameCollection (fault : option pg_error) (lib : LibraryID) (id : CollectionID) (name : string)
    : catalogM unit :=
  _ ← lift (ValidateBoundedText "name" name 100);
  affecting "collection not found" (exec fault (fun db =>
    match collection_in lib id db with
    | None => Ok (0, db)
    | Some c => Ok (1, with_collections (<[id := mkCollectionCols name lib]> (ct_collections db)) db)
    end)).

(** ** The service (collection_service.go) *)

Definition CreateCollection (faults : nat -> option pg_error) (lib : LibraryID) (id : CollectionID)
    (name : string) (occurredAt : Time) : catalogM (Collection * SensitiveEvent) :=
  c ← lift (NewCollection id name);
  _ ← SaveCollection faults lib c;
  mret (c, newSensitive CollectionCreated id occurredAt).

Definition DeleteCollectionService := DeleteCollection.

(** [find] and [save] number the statements of the two calls. *)
Definition AddMember (find save : nat -> option pg_error) (lib : LibraryID) (collectionID : CollectionID)
    (workID : WorkID) (occurredAt : Time) : catalogM SensitiveEvent :=
  c ← FindCollectionByID find lib collectionID;
  _ ← SaveCollection save lib (add_member workID occurredAt c);
  mret (newSensitive CollectionMemberAdded collectionID occurredAt).

Definition RemoveMember (find save : nat -> option pg_error) (lib : LibraryID) (collectionID : CollectionID)
    (workID : WorkID) (occurredAt : Time) : catalogM SensitiveEvent :=
  c ← FindCollectionByID find lib collectionID;
  _ ← SaveCollection save lib (remove_member workID c);
  mret (newSensitive CollectionMemberRemoved collectionID occurredAt).

(** ** The handlers (collections.go) *)

Definition collections_prefix : string := "/api/v1/collections/".

(** The identifiers that the router matched, or that the path holds. *)
Definition extractCollectionID (value path : string) : string :=
  if negb (String.eqb value "") then value
  else if HasPrefix path collections_prefix then
    let trimmed := TrimPrefix path collections_prefix in
    match Cut "/" trimmed with Some (before, _) => before | None => trimmed end
  else "".

Definition extractCollectionAndWorkID (collID workID path : string) : string * string :=
  if negb (String.eqb collID "") && negb (String.eqb workID "") then (collID, workID)
  else if HasPrefix path collections_prefix then
    match Split "/" (TrimPrefix path collections_prefix) with
    | p0 :: p1 :: p2 :: _ => if String.eqb p1 "works" then (p0, p2) else (collID, workID)
    | _ => (collID, workID)
    end
  else (collID, workID).

Definition ListCollectionsHandler (fault : option pg_error) (ctx : context)
    : catalogH (list CollectionSummary) :=
  or_domain (FindAllCollections fault (ActiveLibraryFromContext ctx)).

(** A validation error answered as InvalidInput with its text. *)
Definition or_invalid {A} (r : Result A) : catalogH A :=
  or_fail (lift r) (fun err => HTTPError InvalidInput (Error err)).

Definition CreateCollectionHandler (faults : nat -> option pg_error) (newID : string) (ctx : context)
    (req : option string) : catalogH CollectionDetail :=
  name ← body_of req;
  _ ← or_invalid (ValidateBoundedText "name" name 100);
  c ← or_invalid (NewCollection newID name);
  _ ← or_domain (SaveCollection faults (ActiveLibraryFromContext ctx) c);
  mret (mkCollectionDetail (c_id c) (c_name c) []).

Definition collection_id (id : string) : catalogH unit := valid_id "id" id "id: not a valid collection ID".

Definition GetCollectionHandler (fault : option pg_error) (ctx : context) (value path : string)
    : catalogH CollectionDetail :=
  let collID := extractCollectionID value path in
  _ ← collection_id collID;
  or_missing "no collection with that id" (FindCollectionDetail fault (ActiveLibraryFromContext ctx) collID).

Definition RenameCollectionHandler (fault fault' : option pg_error) (ctx : context) (value path : string)
    (req : option string) : catalogH CollectionDetail :=
  let collID := extractCollectionID value path in
  _ ← collection_id collID;
  name ← body_of req;
  _ ← or_invalid (ValidateBoundedText "name" name 100);
  _ ← or_missing "no collection with that id"
        (RenameCollection fault (ActiveLibraryFromContext ctx) collID name);
  or_domain (FindCollectionDetail fault' (ActiveLibraryFromContext ctx) collID).

Definition DeleteCollectionHandler (faults : nat -> option pg_error) (ctx : context) (value path : string)
    : catalogH unit :=
  let collID := extractCollectionID value path in
  _ ← collection_id collID;
  or_missing "no collection with that id" (DeleteCollection faults (ActiveLibraryFromContext ctx) collID).

Definition AddWorkToCollectionHandler (faults : nat -> option pg_error) (fault : option pg_error)
    (now : Time) (ctx : context) (value path : string) (req : option string) : catalogH CollectionDetail :=
  let collID := extractCollectionID value path in
  _ ← collection_id collID;
  workID ← body_of req;
  _ ← (if String.eqb workID "" then bad_request "workId: missing required field" else mret tt);
  _ ← valid_id "workId" workID "workId: not a valid work ID";
  _ ← or_fail (AddCollectionMember faults (ActiveLibraryFromContext ctx) collID workID now) (fun err =>
        if bool_decide (CategoryOf err = NotFound) then
          HTTPError NotFound
            (if Contains (Error err) "work" then "no work with that id" else "no collection with that id")
        else domain_http err);
  or_domain (FindCollectionDetail fault (ActiveLibraryFromContext ctx) collID).

Definition RemoveWorkFromCollectionHandler (faults : nat -> option pg_error) (ctx : context)
    (value workValue path : string) : catalogH unit :=
  let '(collID, workID) := extractCollectionAndWorkID value workValue path in
  _ ← collection_id collID;
  _ ← valid_id "workId" workID "workId: not a valid work ID";
  or_fail (RemoveCollectionMember faults (ActiveLibraryFromContext ctx) collID workID) (fun err =>
    if bool_decide (CategoryOf err = NotFound) then
      HTTPError NotFound
        (if Contains (Error err) "membership"
         then "no membership found for that work in this collection"
         else "no collection with that id")
    else domain_http err).
End collection_queries.
