(* ===== verification/CollectionsSafety.v ===== *)
(** * Libraries kept apart
      (src/internal/persistence/postgres/collection_repository.go,
       work_repository.go, src/internal/transport/http/collections.go,
       library.go, src/internal/domain/collection_service.go)

    What the handlers of a library answer and write, seen from it and from the
    other libraries; and that the service's way through the aggregate does
    what the repository's statements do. *)

From S2P Require Import Prelude GoStrings Errors Validate Catalog Postgres Http Encoding Tokens Identity Access CatalogStore CatalogLaws Library LibrarySafety Collections.

Local Open Scope string_scope.
Local Open Scope list_scope.
Local Open Scope Z_scope.

(** ** What a library is *)

(** The members of a library's collections. *)
Definition lib_members (lib : LibraryID) (db : catalog_db) : list member_row :=
  List.filter (fun m => bool_decide (is_Some (collection_in lib (mr_collection_id m) db)))
    (ct_collection_members db).

(** Two catalogues that a library cannot tell apart: they have the same works,
    authors and editions, and this library's entries, collections and members.
    Their offerings may differ. *)
Record same_for (lib : LibraryID) (db1 db2 : catalog_db) : Prop := mkSameFor {
  sf_works : ct_works db1 = ct_works db2;
  sf_work_authors : ct_work_authors db1 = ct_work_authors db2;
  sf_work_subjects : ct_work_subjects db1 = ct_work_subjects db2;
  sf_authors : ct_authors db1 = ct_authors db2;
  sf_editions : ct_editions db1 = ct_editions db2;
  sf_libraries : ct_libraries db1 = ct_libraries db2;
  sf_entries : List.filter (fun le => String.eqb lib (lr_library_id le)) (ct_library_entries db1) =
               List.filter (fun le => String.eqb lib (lr_library_id le)) (ct_library_entries db2);
  sf_collections : forall id, collection_in lib id db1 = collection_in lib id db2;
  sf_members : lib_members lib db1 = lib_members lib db2;
}.

#[export] Instance same_for_equivalence lib : Equivalence (same_for lib).
Proof.
  split.
  - by intros db.
  - intros d1 d2 []. by split.
  - intros d1 d2 d3 [] []. split; congruence.
Qed.

Lemma collection_in_Some lib id db c :
  collection_in lib id db = Some c <-> ct_collections db !! id = Some c /\ cc_library_id c = lib.
Proof.
  unfold collection_in, mbind, option_bind. destruct (ct_collections db !! id) as [c'|]; [|naive_solver].
  destruct (String.eqb_spec (cc_library_id c') lib); naive_solver.
Qed.

(** ** Queries see their library *)

Lemma omap_filter {A B} (f g : A -> option B) (p : A -> bool) l :
  (forall x, p x = true -> f x = g x) -> (forall x, p x = false -> f x = None) ->
  omap f l = omap g (List.filter p l).
Proof.
  intros Ht Hf. induction l as [|x l IH]; [done|]. cbn [omap list_omap List.filter].
  destruct (p x) eqn:E.
  - cbn [omap list_omap]. rewrite (Ht _ E), IH. done.
  - by rewrite (Hf _ E), IH.
Qed.

Section apart.
Context (lib : LibraryID).

Lemma entries_of_same db1 db2 w :
  same_for lib db1 db2 -> entries_of (String.eqb lib) db1 w = entries_of (String.eqb lib) db2 w.
Proof.
  intros []. unfold entries_of. rewrite sf_editions0.
  set (f := fun le => _).
  assert (Hf : forall le, String.eqb lib (lr_library_id le) = false -> f le = None).
  { intros le Hle. subst f. cbv beta. (case_match; [|done]). by rewrite Hle, andb_false_r. }
  rewrite (omap_filter f f _ (ct_library_entries db1) (fun _ _ => eq_refl) Hf), sf_entries0.
  symmetry. by apply omap_filter.
Qed.

Lemma memberships_of_own db w :
  memberships_of (String.eqb lib) db w =
  omap (fun cm => match collection_in lib (mr_collection_id cm) db with
                  | Some c => if String.eqb (mr_work_id cm) w then Some (cm, c) else None
                  | None => None
                  end) (lib_members lib db).
Proof.
  unfold memberships_of, lib_members. apply omap_filter.
  - intros m [c Hc]%bool_decide_eq_true. rewrite Hc. apply collection_in_Some in Hc as [-> <-].
    by rewrite String.eqb_refl, andb_true_r.
  - intros m Hm%bool_decide_eq_false. destruct (ct_collections db !! mr_collection_id m) as [c|] eqn:E; [|done].
    destruct (String.eqb_spec lib (cc_library_id c)); [|by rewrite andb_false_r].
    destruct Hm. exists c. by apply collection_in_Some.
Qed.

Lemma memberships_of_same db1 db2 w :
  same_for lib db1 db2 -> memberships_of (String.eqb lib) db1 w = memberships_of (String.eqb lib) db2 w.
Proof.
  intros []. rewrite !memberships_of_own, sf_members0. 
  generalize (lib_members lib db2). intros l.
  induction l as [|m l IH]; [done|]. cbn [omap list_omap]. by rewrite sf_collections0, IH.
Qed.

Context `{Collation} `{FullText} `{TimeText}.

Lemma author_names_same db1 db2 w : same_for lib db1 db2 -> author_names db1 w = author_names db2 w.
Proof. intros []. unfold author_names. by rewrite sf_work_authors0, sf_authors0. Qed.

Lemma work_pool_same filter q db1 db2 :
  same_for lib db1 db2 -> work_pool filter q lib db1 = work_pool filter q lib db2.
Proof.
  intros Hs. unfold work_pool. rewrite (sf_works _ _ _ Hs).
  generalize (map_to_list (ct_works db2)). intros l. induction l as [|[w row] l IH]; [done|].
  cbn [omap list_omap]. rewrite IH. replace (pool_of filter q lib db1 (w, row)) with (pool_of filter q lib db2 (w, row)); [done|].
  unfold pool_of, found_by.
  by rewrite (entries_of_same _ _ _ Hs), (memberships_of_same _ _ _ Hs), (author_names_same _ _ _ Hs).
Qed.

Lemma summary_same db1 db2 p : same_for lib db1 db2 -> summary_of lib db1 p = summary_of lib db2 p.
Proof.
  intros Hs. unfold summary_of. by rewrite (memberships_of_same _ _ _ Hs), (author_names_same _ _ _ Hs).
Qed.

Lemma or_default_lib : lib <> "" -> or_default lib DefaultLibraryID = lib.
Proof. intros Hl. unfold or_default. by apply String.eqb_neq in Hl as ->. Qed.

Lemma respects_lift {A} (r : Result A) : respects (same_for lib) (lift r).
Proof. by apply respects_reading. Qed.

Lemma respects_QueryLibrary fault q :
  lib <> "" -> lq_LibraryID q = lib -> respects (same_for lib) (QueryLibrary fault q).
Proof.
  intros Hl Hq. unfold QueryLibrary. rewrite Hq, or_default_lib by done.
  apply respects_bind; [apply respects_lift|intros c]. apply respects_bind.
  - apply respects_query. intros s1 s2 Hs. rewrite (work_pool_same _ _ _ _ Hs).
    apply list_fmap_ext. intros _ p _. by apply summary_same.
  - intros ?. apply respects_ret.
Qed.

(** The detail of a work without the formats of its editions, which are those
    of the offerings of every library's sources. *)
Definition without_format (e : OwnedEdition) : OwnedEdition :=
  mkOwnedEdition (oe_ID e) (oe_Language e) (oe_ISBN e) (oe_Publisher e) (oe_PublicationYear e) (oe_AddedAt e) [].
Definition without_formats (d : WorkDetail) : WorkDetail :=
  mkWorkDetail (wd_ID d) (wd_Title d) (wd_Subtitle d) (wd_Authors d) (wd_Subjects d) (wd_OriginalLanguage d)
    (without_format <$> wd_OwnedEditions d) (wd_Collections d).

Lemma owned_editions_same db1 db2 w :
  same_for lib db1 db2 ->
  without_format <$> owned_editions lib db1 w = without_format <$> owned_editions lib db2 w.
Proof.
  intros Hs. unfold owned_editions. rewrite (entries_of_same _ _ _ Hs), <- !list_fmap_compose. done.
Qed.

Lemma FindWorkDetail_same fault id db1 db2 :
  lib <> "" -> same_for lib db1 db2 ->
  match (FindWorkDetail fault id lib db1).1, (FindWorkDetail fault id lib db2).1 with
  | Ok d1, Ok d2 => without_formats d1 = without_formats d2
  | Err e1, Err e2 => e1 = e2
  | OutOfFuel, OutOfFuel => True
  | _, _ => False
  end.
Proof.
  intros Hl Hs. unfold FindWorkDetail. rewrite or_default_lib by done.
  unfold query_one, exec, lift, reading, mbind, stM_bind, option_bind. destruct fault; [done|].
  unfold in_library. rewrite (sf_works _ _ _ Hs), (entries_of_same _ _ _ Hs), (memberships_of_same _ _ _ Hs),
    (author_names_same _ _ _ Hs), (sf_work_subjects _ _ _ Hs).
  destruct (ct_works db2 !! id) as [row|]; cbn; [|done]. destruct (_ || _); cbn; [|done].
  destruct (scan_language (wc_original_language row)); cbn; [|done..].
  unfold without_formats. cbn. by rewrite (owned_editions_same _ _ _ Hs).
Qed.
End apart.

(** ** Writes stay in their library *)

Section scoped.
Context (lib : LibraryID) (newID : CollectionID).

(** What the other libraries see is as it was, the offerings included. *)
Definition others_same (db db' : catalog_db) : Prop :=
  ct_source_offerings db = ct_source_offerings db' /\ forall l, l <> lib -> same_for l db db'.

#[export] Instance others_same_preorder : PreOrder others_same.
Proof.
  split; [by intros db; split; [done|intros l _]|].
  intros d1 d2 d3 [E1 H1] [E2 H2]. split; [congruence|]. intros l Hl. etrans; [by apply H1|by apply H2].
Qed.

(** The foreign key of the members. *)
Definition member_keys (db : catalog_db) : Prop :=
  forall m, m ∈ ct_collection_members db -> is_Some (ct_collections db !! mr_collection_id m).

(** The same for this library, and the identifier the next collection gets is
    taken in both or in neither. *)
Definition alike (s1 s2 : catalog_db) : Prop :=
  same_for lib s1 s2 /\ (ct_collections s1 !! newID = None <-> ct_collections s2 !! newID = None) /\
  member_keys s1 /\ member_keys s2.

Definition answer {E A B} (f : A -> B) (r : res E A) : res E B :=
  match r with Ok a => Ok (f a) | Err e => Err e | OutOfFuel => OutOfFuel end.

(** Alike catalogues get the same answer, as far as [f] shows it, and stay
    alike; the other libraries see nothing happen. *)
Definition scoped_at {E A B} (f : A -> B) (m : stM catalog_db E A) (s1 s2 : catalog_db) : Prop :=
  answer f (m s1).1 = answer f (m s2).1 /\ alike (m s1).2 (m s2).2 /\ others_same s1 (m s1).2.
Definition scoped_as {E A B} (f : A -> B) (m : stM catalog_db E A) : Prop :=
  forall s1 s2, alike s1 s2 -> scoped_at f m s1 s2.
Abbreviation scoped m := (scoped_as id m).

Lemma answer_id {E A} (r : res E A) : answer id r = r.
Proof. by destruct r. Qed.

Lemma scoped_still {E A B} (f : A -> B) (m : stM catalog_db E A) s1 s2 :
  alike s1 s2 -> (m s1).1 = (m s2).1 -> (m s1).2 = s1 -> (m s2).2 = s2 -> scoped_at f m s1 s2.
Proof. intros Hs Hr H1 H2. unfold scoped_at. rewrite Hr, H1, H2. split; [done|split; [exact Hs|reflexivity]]. Qed.

Lemma scoped_ret {E A B} (f : A -> B) (a : A) : scoped_as f (mret a : stM catalog_db E A).
Proof. intros s1 s2 Hs. by apply scoped_still. Qed.
Lemma scoped_throw {E A B} (f : A -> B) (e : E) : scoped_as f (throw e : stM catalog_db E A).
Proof. intros s1 s2 Hs. by apply scoped_still. Qed.

(** The rest of a computation, in the states its beginning leads to. *)
Lemma scoped_then {E A B C} (f : B -> C) (m : stM catalog_db E A) (k : A -> stM catalog_db E B) s1 s2 :
  scoped_at id m s1 s2 ->
  (forall a, (m s1).1 = Ok a -> alike (m s1).2 (m s2).2 -> scoped_at f (k a) (m s1).2 (m s2).2) ->
  scoped_at f (m ≫= k) s1 s2.
Proof.
  intros (Hr & Ha & Ho) Hk. rewrite !answer_id in Hr. unfold scoped_at, mbind, stM_bind in *.
  destruct (m s1) as [r1 s1'], (m s2) as [r2 s2']. cbn in *. subst r2.
  destruct r1 as [a|e|]; [|done..]. destruct (Hk a eq_refl Ha) as (? & ? & ?).
  split; [done|]. split; [done|]. by etrans.
Qed.

Lemma scoped_bind {E A B C} (f : B -> C) (m : stM catalog_db E A) (k : A -> stM catalog_db E B) :
  scoped m -> (forall a, scoped_as f (k a)) -> scoped_as f (m ≫= k).
Proof. intros Hm Hk s1 s2 Hs. apply scoped_then; [by apply Hm|]. intros a _ Ha. by apply Hk. Qed.

(** After a query, in the same states. *)
Lemma scoped_after {E A B C} (f : B -> C) (m : stM catalog_db E A) (k : A -> stM catalog_db E B) s1 s2 :
  pure m -> scoped m -> alike s1 s2 -> (forall a, (m s1).1 = Ok a -> scoped_at f (k a) s1 s2) ->
  scoped_at f (m ≫= k) s1 s2.
Proof.
  intros Hp Hm Hs Hk. apply scoped_then; [by apply Hm|]. intros a Ha _.
  rewrite <- (Hp s1), <- (Hp s2). by apply Hk.
Qed.

Lemma scoped_or_fail {A B} (f : A -> B) (m : catalogM A) g : scoped_as f m -> scoped_as f (or_fail m g).
Proof.
  intros Hm s1 s2 Hs. destruct (Hm _ _ Hs) as (Hr & Ha & Ho). unfold scoped_at.
  unfold or_fail, attempt, mbind, stM_bind. destruct (m s1) as [r1 s1'], (m s2) as [r2 s2'].
  destruct r1, r2; cbn in Hr |- *; try discriminate Hr;
    (split; [congruence|split; [exact Ha|exact Ho]]).
Qed.

Lemma scoped_respects {E A} (m : stM catalog_db E A) : respects (same_for lib) m -> pure m -> scoped m.
Proof.
  intros Hr Hp s1 s2 Hs. destruct (Hr _ _ (proj1 Hs)) as [Eq _]. apply scoped_still; [done..|by rewrite <- Hp|by rewrite <- Hp].
Qed.

Lemma scoped_lift {A} (r : Result A) : scoped (lift r).
Proof. apply scoped_respects; [apply respects_lift|by intros ?]. Qed.

Lemma pure_read {A} fault (f : catalog_db -> A) : pure (exec fault (fun db => Ok (f db, db))).
Proof. intros s. by destruct fault. Qed.

Lemma scoped_query {A} fault (f : catalog_db -> A) :
  (forall s1 s2, same_for lib s1 s2 -> f s1 = f s2) -> scoped (exec fault (fun db => Ok (f db, db))).
Proof. intros Hf. apply scoped_respects; [by apply respects_query|apply pure_read]. Qed.
Lemma scoped_query_one {A} fault msg (f : catalog_db -> option A) :
  (forall s1 s2, same_for lib s1 s2 -> f s1 = f s2) -> scoped (query_one fault msg f).
Proof. intros Hf. apply scoped_respects; [by apply respects_query_one|apply query_one_pure]. Qed.

(** What a statement does to alike tables. *)
Definition same_effect {A} (s1 : catalog_db) (r1 r2 : res pg_error (A * catalog_db)) : Prop :=
  match r1, r2 with
  | Ok (a1, s1'), Ok (a2, s2') => a1 = a2 /\ alike s1' s2' /\ others_same s1 s1'
  | Err e1, Err e2 => e1 = e2
  | OutOfFuel, OutOfFuel => True
  | _, _ => False
  end.

Lemma scoped_exec {A} fault (f : catalog_db -> res pg_error (A * catalog_db)) s1 s2 :
  alike s1 s2 -> same_effect s1 (f s1) (f s2) -> scoped_at id (exec fault f) s1 s2.
Proof.
  intros Hs Hf. unfold exec, scoped_at. destruct fault; [split; [done|split; [exact Hs|reflexivity]]|].
  destruct (f s1) as [[a1 s1']|e1|], (f s2) as [[a2 s2']|e2|]; cbn in *; try done.
  - by destruct Hf as (-> & ? & ?).
  - subst. split; [done|split; [exact Hs|reflexivity]].
Qed.

Lemma scoped_affecting msg (m : catalogM Z) s1 s2 :
  scoped_at id m s1 s2 -> scoped_at id (affecting msg m) s1 s2.
Proof.
  intros Hm. apply scoped_then; [done|]. intros n _ Ha. case_match; [by apply scoped_throw|by apply scoped_ret].
Qed.

(** *** Writes to the two tables *)

(** Collections and members of this library are replaced together. *)
Definition with_shelf (c : gmap CollectionID collection_cols) (m : list member_row) (db : catalog_db) : catalog_db :=
  with_collections c (with_collection_members m db).

Lemma with_shelf_id db : with_shelf (ct_collections db) (ct_collection_members db) db = db.
Proof. by destruct db. Qed.

(** The other libraries see the same when their rows are the same. *)
Lemma others_shelf c m db :
  (forall i r, cc_library_id r <> lib -> c !! i = Some r <-> ct_collections db !! i = Some r) ->
  (forall l, l <> lib ->
     List.filter (fun m => bool_decide (is_Some (collection_in l (mr_collection_id m) db))) m =
     lib_members l db) ->
  others_same db (with_shelf c m db).
Proof.
  intros Hc Hm. split; [done|]. intros l Hl.
  assert (Hin : forall i, collection_in l i db = collection_in l i (with_shelf c m db)).
  { intros i. apply option_eq. intros r. rewrite !collection_in_Some. cbn.
    split; intros [Hi <-]; (split; [|done]); by apply Hc. }
  split; try done. unfold lib_members at 2. cbn [ct_collection_members with_shelf with_collections with_collection_members].
  rewrite <- Hm by done. apply filter_ext_elem. intros x _. by rewrite Hin.
Qed.

(** This library sees the same when its rows are the same. *)
Lemma alike_shelf c1 m1 c2 m2 s1 s2 :
  alike s1 s2 ->
  (forall i r, cc_library_id r = lib -> c1 !! i = Some r <-> c2 !! i = Some r) ->
  (c1 !! newID = None <-> c2 !! newID = None) ->
  (forall m, m ∈ m1 -> is_Some (c1 !! mr_collection_id m)) ->
  (forall m, m ∈ m2 -> is_Some (c2 !! mr_collection_id m)) ->
  lib_members lib (with_shelf c1 m1 s1) = lib_members lib (with_shelf c2 m2 s2) ->
  alike (with_shelf c1 m1 s1) (with_shelf c2 m2 s2).
Proof.
  intros ([] & _ & _) Hc Hn Hk1 Hk2 Hm. split; [|done]. split; try done.
  intros i. apply option_eq. intros r. rewrite !collection_in_Some. cbn.
  split; intros [Hi <-]; (split; [|done]); by apply Hc.
Qed.

Definition owns (id : CollectionID) (db : catalog_db) : Prop := is_Some (collection_in lib id db).

Lemma owns_alike id s1 s2 : alike s1 s2 -> owns id s1 <-> owns id s2.
Proof. intros [[] _]. unfold owns. by rewrite sf_collections0. Qed.

Lemma alike_lookup s1 s2 i r :
  alike s1 s2 -> cc_library_id r = lib -> ct_collections s1 !! i = Some r <-> ct_collections s2 !! i = Some r.
Proof.
  intros [[] _] Hr. pose proof (sf_collections0 i) as E.
  assert (forall db, collection_in lib i db = Some r <-> ct_collections db !! i = Some r) as H
    by (intros db; rewrite collection_in_Some; tauto).
  by rewrite <- !H, E.
Qed.

Lemma owned_row id db : owns id db -> exists r, ct_collections db !! id = Some r /\ cc_library_id r = lib.
Proof. intros [r Hr]. exists r. by apply collection_in_Some. Qed.

(** A condition on a library's members and what it selects of all of them. *)
Lemma filter_own p db :
  (forall m, p m = true -> owns (mr_collection_id m) db) ->
  List.filter p (ct_collection_members db) = List.filter p (lib_members lib db).
Proof.
  intros Hp. unfold lib_members. induction (ct_collection_members db) as [|m l IH]; [done|]. simpl.
  destruct (p m) eqn:E.
  - rewrite bool_decide_eq_true_2 by (by apply Hp). simpl. by rewrite E, IH.
  - case_match; simpl; [by rewrite E|done].
Qed.

Lemma filter_comm {A} (p q : A -> bool) l : List.filter p (List.filter q l) = List.filter q (List.filter p l).
Proof. induction l as [|x l IH]; [done|]. simpl. destruct (q x) eqn:Eq, (p x) eqn:Ep; simpl; rewrite ?Eq, ?Ep, ?IH; done. Qed.

Lemma filter_app_b {A} (p : A -> bool) l k : List.filter p (l ++ k) = List.filter p l ++ List.filter p k.
Proof. apply List.filter_app. Qed.

Lemma existsb_filter {A} (p : A -> bool) l : existsb p l = nonempty (List.filter p l).
Proof. induction l as [|x l IH]; [done|]. simpl. by destruct (p x). Qed.

(** The row of a collection of this library, or of the new one. *)
Lemma write_collection id c s1 s2 :
  alike s1 s2 -> cc_library_id c = lib ->
  owns id s1 \/ (id = newID /\ ct_collections s1 !! id = None) ->
  alike (with_collections (<[id := c]> (ct_collections s1)) s1) (with_collections (<[id := c]> (ct_collections s2)) s2) /\
  others_same s1 (with_collections (<[id := c]> (ct_collections s1)) s1).
Proof.
  intros Hs Hc Hid.
  assert (Hshelf : forall db, with_collections (<[id := c]> (ct_collections db)) db =
            with_shelf (<[id := c]> (ct_collections db)) (ct_collection_members db) db) by (by intros []).
  assert (Hid2 : owns id s2 \/ (id = newID /\ ct_collections s2 !! id = None)).
  { destruct Hid as [Hid|[-> Hn]]; [left; by rewrite <- (owns_alike _ s1)|right].
    split; [done|]. by apply (proj1 (proj2 Hs)). }
  assert (Hown : forall db, member_keys db -> owns id db \/ (id = newID /\ ct_collections db !! id = None) ->
            lib_members lib (with_shelf (<[id := c]> (ct_collections db)) (ct_collection_members db) db) =
            lib_members lib db).
  { intros db Hk Hi. unfold lib_members. apply filter_ext_elem. intros m Hm.
    apply bool_decide_ext. unfold is_Some. setoid_rewrite collection_in_Some.
    cbn [ct_collections with_shelf with_collections]. specialize (Hk m Hm).
    destruct (decide (mr_collection_id m = id)) as [E|E].
    - rewrite E in *. rewrite lookup_insert_eq. destruct Hi as [(r & Hr & Hl)%owned_row|[_ Hn]].
      + rewrite Hr. naive_solver.
      + rewrite Hn in Hk. by destruct Hk.
    - by setoid_rewrite lookup_insert_ne; [|done]. }
  rewrite !Hshelf. destruct Hs as (Hsame & Hn & Hk1 & Hk2). split.
  - apply alike_shelf; [done| | | | |].
    + intros i r Hr. destruct (decide (i = id)) as [->|]; [by rewrite !lookup_insert_eq|].
      rewrite !lookup_insert_ne by done. by apply alike_lookup.
    + destruct (decide (newID = id)) as [->|]; [by rewrite !lookup_insert_eq|by rewrite !lookup_insert_ne].
    + intros m Hm. apply lookup_insert_is_Some'. right. by apply Hk1.
    + intros m Hm. apply lookup_insert_is_Some'. right. by apply Hk2.
    + rewrite !Hown by done. by destruct Hsame.
  - apply others_shelf; [|done]. intros i r Hr. destruct (decide (i = id)) as [->|]; [|by rewrite lookup_insert_ne].
    rewrite lookup_insert_eq. destruct Hid as [(r' & Hr' & Hl)%owned_row|[_ Hnone]]; split; intros; simplify_eq; done.
Qed.

(** Members of a collection of this library are added or removed. *)
Lemma write_members id m1 m2 s1 s2 :
  alike s1 s2 -> owns id s1 ->
  (forall m, m ∈ m1 -> mr_collection_id m = id \/ m ∈ ct_collection_members s1) ->
  (forall m, m ∈ m2 -> mr_collection_id m = id \/ m ∈ ct_collection_members s2) ->
  List.filter (fun m => negb (String.eqb (mr_collection_id m) id)) m1 =
    List.filter (fun m => negb (String.eqb (mr_collection_id m) id)) (ct_collection_members s1) ->
  lib_members lib (with_collection_members m1 s1) = lib_members lib (with_collection_members m2 s2) ->
  alike (with_collection_members m1 s1) (with_collection_members m2 s2) /\
  others_same s1 (with_collection_members m1 s1).
Proof.
  intros Hs Hid H1 H2 Hrest Hlib.
  assert (Hshelf : forall m db, with_collection_members m db = with_shelf (ct_collections db) m db) by (by intros m []).
  rewrite !Hshelf in *. pose proof Hs as (Hsame & Hn & Hk1 & Hk2). split.
  - pose proof Hid as Hid2. rewrite (owns_alike _ _ _ Hs) in Hid2.
    apply alike_shelf; [done| |done| | |done].
    + intros i r Hr. by apply alike_lookup.
    + intros m Hm. destruct (H1 m Hm) as [->|Hin]; [|by apply Hk1].
      apply owned_row in Hid as (r & -> & _). by eexists.
    + intros m Hm. destruct (H2 m Hm) as [->|Hin]; [|by apply Hk2].
      apply owned_row in Hid2 as (r & -> & _). by eexists.
  - apply others_shelf; [done|]. intros l Hl. unfold lib_members.
    assert (Hnot : forall m, bool_decide (is_Some (collection_in l (mr_collection_id m) s1)) = true ->
              negb (String.eqb (mr_collection_id m) id) = true).
    { intros m [r Hr]%bool_decide_eq_true. apply collection_in_Some in Hr as [Hr Hlr].
      destruct (String.eqb_spec (mr_collection_id m) id) as [E|]; [|done].
      apply owned_row in Hid as (r' & Hr' & Hlr'). congruence. }
    assert (Hsub : forall k, List.filter (fun m => bool_decide (is_Some (collection_in l (mr_collection_id m) s1))) k =
              List.filter (fun m => bool_decide (is_Some (collection_in l (mr_collection_id m) s1)))
                (List.filter (fun m => negb (String.eqb (mr_collection_id m) id)) k)).
    { intros k. induction k as [|m k IH]; [done|]. cbn [List.filter].
      destruct (bool_decide _) eqn:E.
      - rewrite (Hnot _ E). cbn [List.filter]. by rewrite E, IH.
      - destruct (negb _); cbn [List.filter]; [by rewrite E|done]. }
    by rewrite (Hsub m1), Hrest, <- Hsub.
Qed.

(** *** The statements of the repository *)

Lemma members_in_same id s1 s2 : alike s1 s2 -> owns id s1 -> members_in id s1 = members_in id s2.
Proof.
  intros Hs Hid. pose proof Hid as Hid2. rewrite (owns_alike _ _ _ Hs) in Hid2. unfold members_in.
  rewrite !filter_own by (intros m Hm; apply String.eqb_eq in Hm as ->; done). by destruct Hs as [[] _]; f_equal.
Qed.

Lemma lib_members_alike s1 s2 : alike s1 s2 -> lib_members lib s1 = lib_members lib s2.
Proof. by intros [[] _]. Qed.

Lemma lib_members_with m db :
  lib_members lib (with_collection_members m db) =
  List.filter (fun m => bool_decide (owns (mr_collection_id m) db)) m.
Proof. done. Qed.

Lemma scoped_delete_members id fault s1 s2 :
  alike s1 s2 -> owns id s1 ->
  scoped_at Datatypes.id (execute_ fault (fun db => Ok (delete_members id db))) s1 s2.
Proof.
  intros Hs Hid. apply scoped_exec; [done|]. cbn. split; [done|].
  apply (write_members id); [done|done|..].
  - intros m Hm. right. apply list_elem_of_In, filter_In in Hm as [Hm _]. by apply list_elem_of_In.
  - intros m Hm. right. apply list_elem_of_In, filter_In in Hm as [Hm _]. by apply list_elem_of_In.
  - unfold delete_members. generalize (ct_collection_members s1). intros l.
    induction l as [|m l IH]; [done|]. cbn [List.filter]. destruct (negb _) eqn:E; [|done].
    cbn [List.filter]. by rewrite E, IH.
  - unfold lib_members. cbn [ct_collection_members with_collection_members collection_in ct_collections].
    rewrite !(filter_comm _ (fun m => negb (String.eqb (mr_collection_id m) id))). f_equal.
    exact (lib_members_alike s1 s2 Hs).
Qed.

Lemma is_member_same id w s1 s2 :
  alike s1 s2 -> owns id s1 ->
  List.filter (is_member id w) (ct_collection_members s1) = List.filter (is_member id w) (ct_collection_members s2).
Proof.
  intros Hs Hid. pose proof Hid as Hid2. rewrite (owns_alike _ _ _ Hs) in Hid2.
  assert (H : forall db, owns id db -> List.filter (is_member id w) (ct_collection_members db) =
                         List.filter (is_member id w) (lib_members lib db)).
  { intros db Hdb. apply filter_own. intros m Hm. apply andb_prop in Hm as [Hm%String.eqb_eq _]. by rewrite Hm. }
  rewrite !H by done. by rewrite (lib_members_alike s1 s2).
Qed.

Lemma filter_others_app id m l :
  mr_collection_id m = id ->
  List.filter (fun m => negb (String.eqb (mr_collection_id m) id)) (l ++ [m]) =
  List.filter (fun m => negb (String.eqb (mr_collection_id m) id)) l.
Proof. intros E. rewrite filter_app_b. simpl. by rewrite E, String.eqb_refl, app_nil_r. Qed.

Lemma same_insert m s1 s2 :
  alike s1 s2 -> owns (mr_collection_id m) s1 ->
  same_effect s1 (db' ← insert_member m s1; Ok (tt, db')) (db' ← insert_member m s2; Ok (tt, db')).
Proof.
  intros Hs Hid. pose proof Hid as Hid2. rewrite (owns_alike _ _ _ Hs) in Hid2. unfold insert_member.
  rewrite !existsb_filter, (is_member_same _ _ s1 s2) by done.
  destruct (nonempty _); [done|].
  destruct (owned_row _ _ Hid) as (r1 & E1 & _). destruct (owned_row _ _ Hid2) as (r2 & E2 & _).
  rewrite E1, E2, !bool_decide_eq_true_2 by done. cbn [negb orb].
  unfold work_known. assert (ct_works s1 = ct_works s2) as -> by (by destruct Hs as [[] _]).
  destruct (negb (bool_decide _)); [done|]. cbn. split; [done|].
  apply (write_members (mr_collection_id m)); [done|done|..].
  - intros x [Hx|Hx%list_elem_of_singleton]%elem_of_app; [by right|left; by subst].
  - intros x [Hx|Hx%list_elem_of_singleton]%elem_of_app; [by right|left; by subst].
  - by apply filter_others_app.
  - rewrite !lib_members_with, !filter_app_b. f_equal; [exact (lib_members_alike s1 s2 Hs)|]. simpl.
    by rewrite !bool_decide_eq_true_2.
Qed.

Lemma scoped_insert_members faults n id l s1 s2 :
  alike s1 s2 -> owns id s1 -> scoped_at Datatypes.id (insert_members faults n id l) s1 s2.
Proof.
  revert n s1 s2. induction l as [|m l IH]; intros n s1 s2 Hs Hid; [by apply scoped_ret|].
  cbn [insert_members]. apply scoped_then.
  - apply scoped_exec; [done|]. by apply same_insert.
  - intros [] Hok Ha. apply IH; [done|]. unfold execute_, exec in *.
    destruct (faults n); [done|]. unfold mbind, res_bind, insert_member in *. cbn [mr_collection_id mr_work_id] in *.
    destruct (existsb _ _); [done|]. destruct (_ || _); [done|]. exact Hid.
Qed.

Lemma scoped_FindAll `{Collation} fault : scoped (FindAllCollections fault lib).
Proof.
  intros s1 s2 Hs. apply scoped_still; [done| |by destruct fault|by destruct fault].
  unfold FindAllCollections, exec. destruct fault; [done|]. cbn. f_equal.
  assert (Hsel : select (fun _ c => String.eqb (cc_library_id c) lib) (ct_collections s1) =
                 select (fun _ c => String.eqb (cc_library_id c) lib) (ct_collections s2)).
  { unfold select. f_equal. apply map_eq. intros i. apply option_eq. intros r.
    rewrite !map_lookup_filter_Some. cbn. rewrite String.eqb_eq.
    split; intros [Hi Hl]; (split; [|done]); by apply (alike_lookup s1 s2). }
  rewrite Hsel. apply list_fmap_ext. intros n [i r] Hir%list_elem_of_lookup_2.
  rewrite sort_by_perm, elem_of_select in Hir. cbn in *. destruct Hir as [Hi Hl%String.eqb_eq].
  rewrite (members_in_same i s1 s2); [done|done|]. exists r. apply collection_in_Some. split; [|done].
  by apply (alike_lookup s1 s2).
Qed.

(** The detail of a collection, without what it looks up in every library. *)
Definition without_holdings (w : WorkSummary) : WorkSummary :=
  mkWorkSummary (ws_ID w) (ws_Title w) (ws_Subtitle w) (ws_Authors w) false [] (ws_AddedAt w).
Definition in_this_library (d : CollectionDetail) : CollectionDetail :=
  mkCollectionDetail (cd_ID d) (cd_Name d) (without_holdings <$> cd_Works d).

Lemma omap_answer {A B C} (f1 f2 : A -> option B) (g : B -> C) (l : list A) :
  (forall x, g <$> f1 x = g <$> f2 x) -> g <$> omap f1 l = g <$> omap f2 l.
Proof.
  intros Hf. induction l as [|x l IH]; [done|]. cbn [omap list_omap]. specialize (Hf x).
  destruct (f1 x), (f2 x); simplify_eq/=; congruence.
Qed.

Lemma scoped_FindDetail `{Collation} fault id : scoped_as in_this_library (FindCollectionDetail fault lib id).
Proof.
  intros s1 s2 Hs. pose proof Hs as [Hsame _].
  assert (Hp : pure (FindCollectionDetail fault lib id)) by apply query_one_pure.
  unfold scoped_at. rewrite <- (Hp s1), <- (Hp s2). split; [|done].
  unfold FindCollectionDetail, query_one, exec, mbind, stM_bind, option_bind. destruct fault; [done|]. cbn [fst].
  rewrite <- (sf_collections _ _ _ Hsame). destruct (collection_in lib id s1) as [c|] eqn:E; [|done].
  cbn. unfold in_this_library. cbn. do 2 f_equal.
  rewrite (members_in_same id s1 s2) by (done || by exists c). apply omap_answer. intros m.
  unfold member_summary, mbind, option_bind. rewrite (sf_works _ _ _ Hsame).
  destruct (ct_works s2 !! mr_work_id m) as [w|]; [|done]. cbn. unfold without_holdings. cbn.
  by rewrite (author_names_same lib s1 s2).
Qed.

Lemma scoped_upsert fault c s1 s2 :
  alike s1 s2 -> c_id c = newID -> scoped_at id (exec fault (upsert_collection lib c)) s1 s2.
Proof.
  intros Hs Hc. apply scoped_exec; [done|]. unfold upsert_collection. rewrite Hc.
  destruct (ct_collections s1 !! newID) as [r1|] eqn:E1.
  - destruct (ct_collections s2 !! newID) as [r2|] eqn:E2.
    2: { apply (proj1 (proj2 Hs)) in E2. congruence. }
    destruct (String.eqb_spec (cc_library_id r1) lib) as [L1|L1].
    + pose proof (proj1 (alike_lookup _ _ _ _ Hs L1) E1) as E2'. rewrite E2 in E2'. injection E2' as ->.
      rewrite L1, String.eqb_refl. cbn. split; [done|]. apply write_collection; [done|done|].
      left. exists r1. by apply collection_in_Some.
    + destruct (String.eqb_spec (cc_library_id r2) lib) as [L2|L2].
      { pose proof (proj2 (alike_lookup _ _ _ _ Hs L2) E2). congruence. }
      cbn. done.
  - destruct (ct_collections s2 !! newID) as [r2|] eqn:E2.
    { apply (proj1 (proj2 Hs)) in E1. congruence. }
    assert (ct_libraries s1 = ct_libraries s2) as -> by (by destruct Hs as [[] _]).
    destruct (negb (bool_decide _)); [done|]. cbn. split; [done|]. apply write_collection; [done|done|by right].
Qed.

Lemma upsert_owns c db n db' : upsert_collection lib c db = Ok (n, db') -> n <> 0 -> owns (c_id c) db'.
Proof.
  unfold upsert_collection, owns. intros H Hn.
  assert (db' = with_collections (<[c_id c := mkCollectionCols (c_name c) lib]> (ct_collections db)) db) as ->
    by (repeat case_match; simplify_eq; done).
  exists (mkCollectionCols (c_name c) lib). apply collection_in_Some. cbn. by rewrite lookup_insert_eq.
Qed.

Lemma affecting_ok {S} msg (m : stM S error Z) s a :
  (affecting msg m s).1 = Ok a -> exists n, (m s).1 = Ok n /\ n <> 0 /\ (affecting msg m s).2 = (m s).2.
Proof.
  unfold affecting, mbind, stM_bind. destruct (m s) as [[n|e|] s']; [|done..].
  destruct (Z.eqb_spec n 0); [done|]. intros _. by exists n.
Qed.

Lemma scoped_SaveCollection faults c : c_id c = newID -> scoped (SaveCollection faults lib c).
Proof.
  intros Hc s1 s2 Hs. unfold SaveCollection. apply scoped_then.
  - apply scoped_affecting. by apply scoped_upsert.
  - intros u Hu Ha. assert (Hown : owns (c_id c) (affecting "collection not found"
        (exec (faults 0%nat) (upsert_collection lib c)) s1).2).
    { apply affecting_ok in Hu as (n & Hn & Hne & E). rewrite E. unfold exec in *.
      destruct (faults 0%nat); [done|]. destruct (upsert_collection lib c s1) as [[n' db']|e|] eqn:Eu; [|done..].
      cbn in *. injection Hn as ->. by eapply upsert_owns. }
    apply scoped_then; [by apply scoped_delete_members|]. intros [] _ Ha'.
    apply scoped_insert_members; [done|]. unfold execute_, exec. by destruct (faults 1%nat).
Qed.

Lemma scoped_Delete faults id : scoped (DeleteCollection faults lib id).
Proof.
  intros s1 s2 Hs. unfold DeleteCollection. apply scoped_then.
  - destruct (collection_in lib id s1) as [r|] eqn:E1.
    + assert (Hid : owns id s1) by (by exists r).
      apply scoped_exec; [done|]. pose proof Hid as Hid2. rewrite (owns_alike _ _ _ Hs) in Hid2.
      unfold mbind, res_bind. rewrite !bool_decide_eq_true_2 by done.
      pose proof (scoped_delete_members id None s1 s2 Hs Hid) as (_ & Ha & Ho). done.
    + apply scoped_exec; [done|]. rewrite <- (sf_collections _ _ _ (proj1 Hs)), E1. cbn. done.
  - intros [] _ Ha. generalize dependent Ha.
    generalize (execute_ (faults 0%nat) (fun db => Ok (if bool_decide (is_Some (collection_in lib id db)) then delete_members id db else db)) s1).2.
    generalize (execute_ (faults 0%nat) (fun db => Ok (if bool_decide (is_Some (collection_in lib id db)) then delete_members id db else db)) s2).2.
    clear s1 s2 Hs. intros s2 s1 Hs. apply scoped_affecting, scoped_exec; [done|].
    rewrite <- (sf_collections _ _ _ (proj1 Hs)). destruct (collection_in lib id s1) as [r|] eqn:E1; [|done].
    assert (Hid : owns id s1) by (by exists r).
    rewrite <- (members_in_same id s1 s2) by done.
    destruct (members_in id s1) as [|m l] eqn:Em; [|done]. cbn. split; [done|].
    assert (Hshelf : forall db, with_collections (delete id (ct_collections db)) db =
              with_shelf (delete id (ct_collections db)) (ct_collection_members db) db) by (by intros []).
    pose proof (members_in_same id s1 s2 Hs Hid) as Em2. rewrite Em in Em2. symmetry in Em2.
    assert (Hnone : forall db, members_in id db = [] -> forall m, m ∈ ct_collection_members db -> mr_collection_id m <> id).
    { intros db Hdb m Hm E. assert (Hin : m ∈ members_in id db).
      { apply list_elem_of_In, filter_In. split; [by apply list_elem_of_In|by apply String.eqb_eq]. }
      rewrite Hdb in Hin. by apply elem_of_nil in Hin. }
    rewrite !Hshelf. pose proof Hs as (Hsame & Hn & Hk1 & Hk2). split.
    + assert (Hlib : forall db, members_in id db = [] ->
        lib_members lib (with_shelf (delete id (ct_collections db)) (ct_collection_members db) db) = lib_members lib db).
      { intros db Hdb. unfold lib_members. apply filter_ext_elem. intros m Hm. apply bool_decide_ext.
        unfold is_Some. setoid_rewrite collection_in_Some. cbn. specialize (Hnone db Hdb m Hm).
        by setoid_rewrite lookup_delete_ne; [|done]. }
      apply alike_shelf; [done| | | | |].
      * intros i r' Hr'. rewrite !lookup_delete_Some. by rewrite (alike_lookup s1 s2).
      * rewrite !lookup_delete_None. tauto.
      * intros m Hm. rewrite lookup_delete_ne by (apply not_eq_sym; by apply (Hnone s1)). by apply Hk1.
      * intros m Hm. rewrite lookup_delete_ne by (apply not_eq_sym; by apply (Hnone s2)). by apply Hk2.
      * rewrite !Hlib by done. by apply lib_members_alike.
    + apply others_shelf; [|done]. intros i r' Hr'. rewrite lookup_delete_Some. split; [tauto|].
      intros Hi. split; [|done]. intros <-. apply collection_in_Some in E1 as [E1 Hl]. congruence.
Qed.

Lemma collection_in_same id s1 s2 : same_for lib s1 s2 -> collection_in lib id s1 = collection_in lib id s2.
Proof. by intros []. Qed.

Lemma query_own {A} fault msg (f : catalog_db -> option A) s a :
  (query_one fault msg f s).1 = Ok a -> f s = Some a.
Proof. intros H. unfold query_one, exec, mbind, stM_bind in H. destruct fault; [done|]. cbn in H. destruct (f s); [|done]. by injection H as ->. Qed.

Lemma scoped_AddMember faults cid w t : scoped (AddCollectionMember faults lib cid w t).
Proof.
  intros s1 s2 Hs. unfold AddCollectionMember. apply scoped_after; [apply query_one_pure| |done|].
  { apply scoped_query_one. intros. by apply collection_in_same. }
  intros c Hc%query_own. apply scoped_after; [apply query_one_pure| |done|].
  { apply scoped_query_one. by intros d1 d2 []; congruence. }
  intros row _. apply scoped_exec; [done|]. assert (Hid : owns cid s1) by (by exists c).
  pose proof (same_insert (mkMemberRow cid w t) s1 s2 Hs Hid) as Hins. unfold insert_member_if_absent.
  rewrite !existsb_filter, <- (is_member_same _ _ s1 s2) by done. cbn [mr_collection_id mr_work_id].
  destruct (nonempty _); [|done]. cbn. done.
Qed.

Lemma scoped_RemoveMember faults cid w : scoped (RemoveCollectionMember faults lib cid w).
Proof.
  intros s1 s2 Hs. unfold RemoveCollectionMember. apply scoped_after; [apply query_one_pure| |done|].
  { apply scoped_query_one. intros. by apply collection_in_same. }
  intros c Hc%query_own. assert (Hid : owns cid s1) by (by exists c).
  apply scoped_affecting, scoped_exec; [done|]. cbn.
  rewrite (is_member_same _ _ s1 s2) by done. split; [done|].
  assert (Hin : forall (p : member_row -> bool) l m, m ∈ List.filter p l -> m ∈ l).
  { intros p l m Hm. apply list_elem_of_In, filter_In in Hm as [Hm _]. by apply list_elem_of_In. }
  apply (write_members cid); [done|done|..].
  - intros m Hm. right. by eapply Hin.
  - intros m Hm. right. by eapply Hin.
  - generalize (ct_collection_members s1). intros l. induction l as [|m l IH]; [done|]. cbn [List.filter].
    unfold is_member at 1. destruct (String.eqb (mr_collection_id m) cid) eqn:E; cbn [negb andb].
    + destruct (negb _); cbn [List.filter]; rewrite ?E; done.
    + cbn [List.filter]. rewrite E. cbn. by f_equal.
  - rewrite !lib_members_with, !(filter_comm _ (fun m => negb (is_member cid w m))). f_equal.
    exact (lib_members_alike s1 s2 Hs).
Qed.

Lemma scoped_Rename fault cid name : scoped (RenameCollection fault lib cid name).
Proof.
  intros s1 s2 Hs. unfold RenameCollection. apply scoped_after; [by intros ?|apply scoped_lift|done|].
  intros _ _. apply scoped_affecting, scoped_exec; [done|].
  rewrite <- (sf_collections _ _ _ (proj1 Hs)). destruct (collection_in lib cid s1) as [c|] eqn:E; [|done].
  cbn. split; [done|]. apply write_collection; [done|done|]. left. by exists c.
Qed.
End scoped.

(** ** The handlers *)

Create HintDb scoped.

(** The requests of a library's catalogue, with what the router matched. *)
Inductive catalog_request :=
| GetLibrary (r : library_request)
| GetWork (value path : string)
| GetCollections
| PostCollection (body : option string)
| GetCollection (value path : string)
| PatchCollection (value path : string) (body : option string)
| DelCollection (value path : string)
| PostCollectionWork (value path : string) (body : option string)
| DelCollectionWork (value workValue path : string).

Inductive catalog_response :=
| LibraryResponse (p : wireLibraryPage)
| WorkResponse (d : WorkDetail)
| CollectionsResponse (l : list CollectionSummary)
| CollectionResponse (d : CollectionDetail)
| NoContent.

(** What a request meets: the driver's errors, the identifier drawn, the time. *)
Record catalog_weather := mkCatalogWeather {
  cw_faults : nat -> option pg_error;
  cw_fault : option pg_error;
  cw_newID : CollectionID;
  cw_now : Time;
}.

Section serving.
Context `{Collation} `{FullText} `{TimeText}.

Definition serve_catalog (cw : catalog_weather) (ctx : context) (req : catalog_request)
    : catalogH catalog_response :=
  match req with
  | GetLibrary r => p ← LibraryHandler (cw_fault cw) ctx r; mret (LibraryResponse p)
  | GetWork value path => d ← WorkDetailHandler (cw_fault cw) ctx value path; mret (WorkResponse d)
  | GetCollections => l ← ListCollectionsHandler (cw_fault cw) ctx; mret (CollectionsResponse l)
  | PostCollection body =>
      d ← CreateCollectionHandler (cw_faults cw) (cw_newID cw) ctx body; mret (CollectionResponse d)
  | GetCollection value path => d ← GetCollectionHandler (cw_fault cw) ctx value path; mret (CollectionResponse d)
  | PatchCollection value path body =>
      d ← RenameCollectionHandler (cw_faults cw 0%nat) (cw_fault cw) ctx value path body; mret (CollectionResponse d)
  | DelCollection value path => _ ← DeleteCollectionHandler (cw_faults cw) ctx value path; mret NoContent
  | PostCollectionWork value path body =>
      d ← AddWorkToCollectionHandler (cw_faults cw) (cw_fault cw) (cw_now cw) ctx value path body;
      mret (CollectionResponse d)
  | DelCollectionWork value workValue path =>
      _ ← RemoveWorkFromCollectionHandler (cw_faults cw) ctx value workValue path; mret NoContent
  end.

(** A response without what is looked up in every library: the formats of a
    work's editions, and the ownership and the collections of the works inside
    a collection. *)
Definition own_response (r : catalog_response) : catalog_response :=
  match r with
  | CollectionResponse d => CollectionResponse (in_this_library d)
  | WorkResponse d => WorkResponse (without_formats d)
  | _ => r
  end.

Section handlers.
Context (cw : catalog_weather) (ctx : context).
Let lib := ActiveLibraryFromContext ctx.
Abbreviation scoped_to f m := (scoped_as lib (cw_newID cw) f m).

Lemma active_nonempty : lib <> "".
Proof. unfold lib, ActiveLibraryFromContext. by destruct (ctx_library ctx) as [[|c l]|]. Qed.

Lemma scoped_body {A} (req : option A) : scoped_to id (body_of req : catalogH A).
Proof. destruct req; [apply scoped_ret|apply scoped_throw]. Qed.
Lemma scoped_valid_id field i msg : scoped_to id (valid_id field i msg).
Proof. unfold valid_id. destruct (is_ok _); [apply scoped_ret|apply scoped_throw]. Qed.
Lemma scoped_or_invalid {A} (r : Result A) : scoped_to id (or_invalid r).
Proof. apply scoped_or_fail, scoped_lift. Qed.

(** The last step of a handler, in the response. *)
Lemma scoped_map {E A B C D} (f : A -> C) (g : A -> B) (h : B -> D) (m : stM catalog_db E A) :
  (forall a a', f a = f a' -> h (g a) = h (g a')) -> scoped_to f m -> scoped_to h (a ← m; mret (g a)).
Proof.
  intros Hf Hm s1 s2 Hs. destruct (Hm s1 s2 Hs) as (Hr & Ha & Ho). unfold scoped_at, mbind, stM_bind.
  destruct (m s1) as [[a1|e1|] s1'], (m s2) as [[a2|e2|] s2']; cbn in *; try done.
  - split; [|done]. f_equal. apply Hf. congruence.
  - split; [congruence|done].
Qed.

Hint Resolve scoped_ret scoped_throw scoped_body scoped_valid_id scoped_or_invalid scoped_or_fail scoped_lift
  scoped_FindAll scoped_FindDetail scoped_Delete scoped_AddMember scoped_RemoveMember scoped_Rename : scoped.

Lemma scoped_if {E A B} (f : A -> B) (b : bool) (m1 m2 : stM catalog_db E A) :
  scoped_to f m1 -> scoped_to f m2 -> scoped_to f (if b then m1 else m2).
Proof. by destruct b. Qed.
Hint Resolve scoped_if : scoped.

Ltac scoped_steps := repeat first [ apply scoped_bind; [by auto 6 with scoped|intros ?] | by auto 6 with scoped ].

Lemma active_scope s a : (activeLibraryScoped ctx s).1 = Ok a -> a = lib.
Proof.
  unfold activeLibraryScoped. destruct (ctx_user ctx); [|done]. destruct (_ || _); [done|]. by intros [= <-].
Qed.
Lemma active_still : pure (activeLibraryScoped ctx).
Proof.
  intros s. unfold activeLibraryScoped. destruct (ctx_user ctx); [|done]. by destruct (_ || _).
Qed.
Lemma scoped_active : scoped_to id (activeLibraryScoped ctx).
Proof.
  apply scoped_respects; [|apply active_still]. intros s1 s2 Hs. unfold activeLibraryScoped.
  destruct (ctx_user ctx); [|done]. by destruct (_ || _).
Qed.

Lemma pure_QueryLibrary fault q : pure (QueryLibrary fault q).
Proof.
  unfold QueryLibrary. apply pure_bind; [by intros ?|intros c]. apply pure_bind; [|intros ?; apply pure_ret].
  intros s. by destruct fault.
Qed.
Lemma pure_FindWorkDetail fault i l : pure (FindWorkDetail fault i l).
Proof.
  unfold FindWorkDetail. apply pure_bind; [apply query_one_pure|]. intros [[[[row a] s] e] c].
  apply pure_bind; [by intros ?|intros ?; apply pure_ret].
Qed.

Lemma scoped_Query fault q : lq_LibraryID q = lib -> scoped_to id (QueryLibrary fault q).
Proof.
  intros Hq. apply scoped_respects; [|apply pure_QueryLibrary].
  apply respects_QueryLibrary; [apply active_nonempty|done].
Qed.
Lemma scoped_Detail fault i : scoped_to without_formats (FindWorkDetail fault i lib).
Proof.
  intros s1 s2 Hs. pose proof (FindWorkDetail_same lib fault i s1 s2 active_nonempty (proj1 Hs)) as Hd.
  unfold scoped_at. rewrite <- (pure_FindWorkDetail fault i lib s1), <- (pure_FindWorkDetail fault i lib s2).
  split; [|split; [exact Hs|reflexivity]]. revert Hd.
  generalize (FindWorkDetail fault i lib s1).1 (FindWorkDetail fault i lib s2).1.
  intros [] []; cbn; intros Hd; congruence || done.
Qed.

Lemma scoped_one_of s fb vs msg : scoped_to id (one_of s fb vs msg).
Proof. unfold one_of, bad_request. auto with scoped. Qed.
Lemma scoped_parse_limit s : scoped_to id (parse_limit s).
Proof. unfold parse_limit, bad_request. destruct (Atoi s); auto with scoped. Qed.
Hint Resolve scoped_one_of scoped_parse_limit : scoped.

Lemma scoped_LibraryHandler fault r : scoped_to id (LibraryHandler fault ctx r).
Proof.
  intros s1 s2 Hs. unfold LibraryHandler. apply scoped_after; [apply active_still|apply scoped_active|done|].
  intros l ->%active_scope. refine ((_ : scoped_to id _) s1 s2 Hs). unfold bad_request, or_domain.
  cbv zeta. scoped_steps. apply scoped_bind; [by apply scoped_or_fail, scoped_Query|intros ?]. apply scoped_ret.
Qed.

Lemma scoped_WorkDetailHandler fault value path : scoped_to without_formats (WorkDetailHandler fault ctx value path).
Proof.
  intros s1 s2 Hs. unfold WorkDetailHandler. apply scoped_after; [apply active_still|apply scoped_active|done|].
  intros l ->%active_scope. cbv zeta. apply scoped_then; [by apply scoped_valid_id|]. intros _ _ Ha.
  apply scoped_or_fail; [apply scoped_Detail|done].
Qed.

Lemma scoped_Create faults body : scoped_to in_this_library (CreateCollectionHandler faults (cw_newID cw) ctx body).
Proof.
  unfold CreateCollectionHandler. apply scoped_bind; [apply scoped_body|intros name].
  apply scoped_bind; [apply scoped_or_invalid|intros _]. intros s1 s2 Hs.
  apply scoped_then; [by apply scoped_or_invalid|]. intros c Hc Ha.
  apply scoped_then; [|intros ? _ Ha'; by apply scoped_ret].
  apply scoped_or_fail; [|done]. apply scoped_SaveCollection.
  unfold or_invalid, or_fail, attempt, lift, reading, mbind, stM_bind in Hc. cbn in Hc.
  unfold NewCollection, mbind, res_bind in Hc. destruct (ValidateBoundedText _ _ _); [|done..].
  cbn in Hc. by injection Hc as <-.
Qed.

Lemma scoped_serve req : scoped_to own_response (serve_catalog cw ctx req).
Proof.
  destruct req; cbn [serve_catalog].
  - apply (scoped_map id); [by unfold id; intros ? ? ->|]. apply scoped_LibraryHandler.
  - apply (scoped_map without_formats); [by intros ? ? Hd; cbn; rewrite Hd|]. apply scoped_WorkDetailHandler.
  - apply (scoped_map id); [by unfold id; intros ? ? ->|]. unfold ListCollectionsHandler, or_domain. auto with scoped.
  - apply (scoped_map in_this_library); [by intros ? ? Hd; cbn; rewrite Hd|]. apply scoped_Create.
  - apply (scoped_map in_this_library); [by intros ? ? Hd; cbn; rewrite Hd|]. unfold GetCollectionHandler, collection_id, or_missing. scoped_steps.
  - apply (scoped_map in_this_library); [by intros ? ? Hd; cbn; rewrite Hd|]. unfold RenameCollectionHandler, collection_id, or_missing, or_domain.
    scoped_steps.
  - apply (scoped_map id); [done|]. unfold DeleteCollectionHandler, collection_id, or_missing. scoped_steps.
  - apply (scoped_map in_this_library); [by intros ? ? Hd; cbn; rewrite Hd|].
    unfold AddWorkToCollectionHandler, collection_id, or_domain, bad_request. scoped_steps.
  - apply (scoped_map id); [done|]. unfold RemoveWorkFromCollectionHandler, collection_id.
    destruct (extractCollectionAndWorkID _ _ _). scoped_steps.
Qed.
End handlers.
End serving.

(** ** Theorems *)

(** C8: libraries are kept apart, but for what the code looks up in all of
    them.  Two catalogues with the same works, authors and editions and, of
    the caller's library, the same entries, collections and members, answer
    every request of the library and collection API alike and stay alike,
    whatever the other libraries hold, except in three fields: the formats of
    the editions in the detail of a work, which are those of any library's
    offerings, and, inside the detail of a collection, the ownership of its
    works and the collections they are in.  And no request changes an offering
    or anything another library sees. *)
Theorem catalogue_private `{Collation} `{FullText} `{TimeText} cw ctx req db1 db2 :
  alike (ActiveLibraryFromContext ctx) (cw_newID cw) db1 db2 ->
  answer own_response (serve_catalog cw ctx req db1).1 = answer own_response (serve_catalog cw ctx req db2).1 /\
  alike (ActiveLibraryFromContext ctx) (cw_newID cw) (serve_catalog cw ctx req db1).2 (serve_catalog cw ctx req db2).2 /\
  ct_source_offerings (serve_catalog cw ctx req db1).2 = ct_source_offerings db1 /\
  forall l, l <> ActiveLibraryFromContext ctx -> same_for l db1 (serve_catalog cw ctx req db1).2.
Proof.
  intros Hs0. destruct (scoped_serve cw ctx req db1 db2 Hs0) as (Ha & Hs & Ho & Hl). split; [exact Ha|]. split; [exact Hs|].
  split; [by symmetry|exact Hl].
Qed.

(** ** Two catalogues that differ in another library *)

Definition demo_weather : catalog_weather := mkCatalogWeather no_faults None "c9" 100.
Definition demo_member (lib : LibraryID) : context :=
  mkContext (Some (mkAuthenticatedUser "u1" "ada" "member" [lib])) (Some lib).

(** The catalogue without the library "l2". *)
Definition demo_other : catalog_db :=
  with_shelf {[ "c1" := mkCollectionCols "To read" "l1" ]} [mkMemberRow "c1" "w2" 20] demo_catalog.

Lemma demo_alike : alike "l1" "c9" demo_catalog demo_other.
Proof.
  split; [|split; [|split]].
  - split; try reflexivity. intros i. unfold collection_in, demo_other, demo_catalog, with_shelf. cbn.
    destruct (decide (i = "c2")) as [->|H2]; [reflexivity|].
    destruct (decide (i = "c1")) as [->|H1]; [reflexivity|].
    rewrite lookup_singleton_ne by congruence. rewrite lookup_insert_ne by congruence.
    by rewrite lookup_singleton_ne by congruence.
  - by split.
  - intros m Hm. cbn in Hm. rewrite !elem_of_cons in Hm.
    destruct Hm as [->|[->|[->|Hm]]]; [by eexists..|by apply elem_of_nil in Hm].
  - intros m Hm. cbn in Hm. apply list_elem_of_singleton in Hm as ->. by eexists.
Qed.

Lemma catalogue_private_witness :
  answer own_response (serve_catalog demo_weather (demo_member "l1") (PostCollectionWork "c1" "" (Some "w1")) demo_catalog).1 =
  answer own_response (serve_catalog demo_weather (demo_member "l1") (PostCollectionWork "c1" "" (Some "w1")) demo_other).1 /\
  is_ok (serve_catalog demo_weather (demo_member "l1") (PostCollectionWork "c1" "" (Some "w1")) demo_catalog).1 = true.
Proof.
  split; [|vm_compute; reflexivity].
  exact (proj1 (catalogue_private demo_weather (demo_member "l1") (PostCollectionWork "c1" "" (Some "w1")) _ _ demo_alike)).
Defined.
