(* ===== verification/CollectionsSpec.v ===== *)
(** * What collections hold
      (src/internal/domain/collection_service.go,
       src/internal/persistence/postgres/collection_repository.go,
       src/internal/transport/http/collections.go)

    The service, which loads a collection, changes it and saves it whole, and
    the repository's own statements do the same to the tables; and what the
    detail of a collection tells of other libraries. *)

From S2P Require Import Prelude GoStrings Errors Validate Catalog Postgres Http Encoding Tokens Identity Access CatalogStore CatalogLaws Library LibrarySafety Collections CollectionsSafety.

Local Open Scope string_scope.
Local Open Scope list_scope.
Local Open Scope Z_scope.

(** ** Keys

    The primary key and the foreign keys of collection_members. *)
Definition member_key (m : member_row) : CollectionID * WorkID := (mr_collection_id m, mr_work_id m).

Definition members_keyed (db : catalog_db) : Prop :=
  NoDup (member_key <$> ct_collection_members db) /\ member_keys db /\
  forall m, m ∈ ct_collection_members db -> is_Some (ct_works db !! mr_work_id m).

Definition as_member (m : member_row) : CollectionMember := mkCollectionMember (mr_work_id m) (mr_added_at m).
Definition as_row (id : CollectionID) (m : CollectionMember) : member_row :=
  mkMemberRow id (cm_WorkID m) (cm_AddedAt m).

(** ** Loading *)

Lemma rehydrate_fresh rows c :
  NoDup ((cm_WorkID <$> c_members c) ++ (mr_work_id <$> rows)) ->
  rehydrate_members c rows = mkCollection (c_id c) (c_name c) (c_members c ++ (as_member <$> rows)).
Proof.
  revert c. induction rows as [|m rows IH]; intros c Hnd.
  - cbn. rewrite app_nil_r. by destruct c.
  - unfold rehydrate_members in *. cbn [fold_left]. rewrite IH.
    + unfold add_member. destruct (existsb _ _) eqn:E; cbn.
      * apply has_member_spec in E. apply NoDup_app in Hnd as (_ & Hn & _). destruct (Hn _ E). by left.
      * by rewrite <- app_assoc.
    + unfold add_member. destruct (existsb _ _) eqn:E; cbn.
      * apply has_member_spec in E. apply NoDup_app in Hnd as (_ & Hn & _). destruct (Hn _ E). by left.
      * rewrite fmap_app, <- app_assoc. exact Hnd.
Qed.

Lemma members_in_elem id m db : m ∈ members_in id db <-> m ∈ ct_collection_members db /\ mr_collection_id m = id.
Proof.
  unfold members_in. by rewrite list_elem_of_In, filter_In, <- list_elem_of_In, String.eqb_eq.
Qed.

Lemma members_in_works id db : members_keyed db -> NoDup (mr_work_id <$> members_in id db).
Proof.
  intros [Hnd _]. unfold members_in. apply (NoDup_fmap_filter member_key (fun m => String.eqb (mr_collection_id m) id)) in Hnd.
  assert (Hall : Forall (fun m => mr_collection_id m = id)
            (List.filter (fun m => String.eqb (mr_collection_id m) id) (ct_collection_members db))).
  { apply Forall_forall. intros m Hm. by apply (members_in_elem id) in Hm as [_ ?]. }
  revert Hnd Hall. generalize (List.filter (fun m => String.eqb (mr_collection_id m) id) (ct_collection_members db)).
  intros l. induction l as [|m l IH]; intros Hnd Hall; [constructor|].
  rewrite fmap_cons in *. apply NoDup_cons in Hnd as [Hm Hnd]. apply Forall_cons in Hall as [Hid Hall].
  apply NoDup_cons. split; [|by apply IH]. intros (m' & Hw & Hm')%list_elem_of_fmap. apply Hm.
  apply list_elem_of_fmap. exists m'. split; [|done]. rewrite Forall_forall in Hall.
  unfold member_key. by rewrite Hid, (Hall _ Hm'), Hw.
Qed.

(** What a collection of a library is, from its rows. *)
Definition collection_of (id : CollectionID) (name : string) (db : catalog_db) : Collection :=
  mkCollection id name (as_member <$> members_in id db).

Lemma FindCollectionByID_run lib id c db :
  members_keyed db -> collection_in lib id db = Some c -> ValidateBoundedText "name" (cc_name c) 100 = Ok tt ->
  FindCollectionByID no_faults lib id db = (Ok (collection_of id (cc_name c) db), db).
Proof.
  intros Hk Hc Hn. unfold FindCollectionByID. rewrite bind_pure by apply query_one_pure.
  replace (query_one (no_faults 0%nat) "collection not found" (collection_in lib id) db).1 with (Ok c : res error _).
  2: { unfold query_one, exec, no_faults, mbind, stM_bind. cbn. by rewrite Hc. }
  assert (NewCollection id (cc_name c) = Ok (mkCollection id (cc_name c) [])) as E.
  { unfold NewCollection, maxCollectionNameLength, mbind, res_bind. by rewrite Hn. }
  unfold lift, reading, mbind, stM_bind, scanned. rewrite E. cbn. unfold mret, stM_ret.
  rewrite rehydrate_fresh by (cbn; by apply members_in_works). done.
Qed.

(** ** Saving *)

Lemma existsb_members id w l :
  existsb (is_member id w) l = true <-> exists m, m ∈ l /\ mr_collection_id m = id /\ mr_work_id m = w.
Proof.
  rewrite existsb_exists. setoid_rewrite <- list_elem_of_In. unfold is_member.
  setoid_rewrite andb_true_iff. by setoid_rewrite String.eqb_eq.
Qed.

Lemma insert_members_run n id l db :
  NoDup (cm_WorkID <$> l) -> is_Some (ct_collections db !! id) ->
  (forall m, m ∈ l -> is_Some (ct_works db !! cm_WorkID m)) ->
  (forall m, m ∈ ct_collection_members db -> mr_collection_id m = id -> mr_work_id m ∉ cm_WorkID <$> l) ->
  insert_members no_faults n id l db =
  (Ok tt, with_collection_members (ct_collection_members db ++ (as_row id <$> l)) db).
Proof.
  intros Hnd Hid. revert n db Hid. induction l as [|m l IH]; intros n db Hid Hw Hfresh.
  - cbn. rewrite app_nil_r. by destruct db.
  - rewrite fmap_cons in *. apply NoDup_cons in Hnd as [Hm Hnd]. cbn [insert_members].
    unfold mbind, stM_bind, execute_, exec, no_faults. cbn [mr_collection_id mr_work_id].
    assert (Hins : insert_member (mkMemberRow id (cm_WorkID m) (cm_AddedAt m)) db =
              Ok (with_collection_members (ct_collection_members db ++ [as_row id m]) db)).
    { unfold insert_member. cbn [mr_collection_id mr_work_id].
      destruct (existsb _ _) eqn:E.
      { apply existsb_members in E as (m' & Hm' & Hc & Hw'). destruct (Hfresh m' Hm' Hc). rewrite Hw'. by left. }
      unfold work_known. rewrite !bool_decide_eq_true_2; [done| |done]. apply Hw. by left. }
    unfold mbind, res_bind. rewrite Hins.
    fold no_faults. rewrite IH; [|done|done|..].
    + cbn [ct_collection_members with_collection_members]. by rewrite <- app_assoc.
    + intros m' Hm'. apply Hw. by right.
    + cbn [ct_collection_members with_collection_members]. intros m' [Hm'|Hm'%list_elem_of_singleton]%elem_of_app Hc.
      * intros Hin. apply (Hfresh m' Hm' Hc). by right.
      * subst m'. exact Hm.
Qed.

(** The members of all collections after the collection [id] is saved. *)
Definition saved_members (id : CollectionID) (l : list CollectionMember) (db : catalog_db) : list member_row :=
  List.filter (fun m => negb (String.eqb (mr_collection_id m) id)) (ct_collection_members db) ++ (as_row id <$> l).

Lemma SaveCollection_run lib id c l db :
  collection_in lib id db = Some c -> NoDup (cm_WorkID <$> l) ->
  (forall m, m ∈ l -> is_Some (ct_works db !! cm_WorkID m)) ->
  SaveCollection no_faults lib (mkCollection id (cc_name c) l) db =
  (Ok tt, with_collection_members (saved_members id l db) db).
Proof.
  intros Hc Hnd Hw. pose proof Hc as [Hrow Hl]%collection_in_Some.
  unfold SaveCollection, affecting, mbind, stM_bind, execute_, exec, no_faults. cbn [c_id c_name c_members].
  unfold upsert_collection. cbn [c_id c_name]. rewrite Hrow, Hl, String.eqb_refl. cbn [Z.eqb].
  assert (Hsame : with_collections (<[id := mkCollectionCols (cc_name c) lib]> (ct_collections db)) db = db).
  { rewrite insert_id; [by destruct db|]. rewrite Hrow, <- Hl. by destruct c. }
  rewrite Hsame. fold no_faults. change (1 =? 0) with false. cbv iota. unfold mret, stM_ret, mbind, res_bind.
  rewrite insert_members_run; [done|done|by exists c|done|].
  unfold delete_members. cbn [ct_collection_members with_collection_members]. intros m Hm E.
  apply list_elem_of_In, filter_In in Hm as [_ Hm]. rewrite E, String.eqb_refl in Hm. done.
Qed.

Lemma members_in_app id l k db :
  members_in id (with_collection_members (l ++ k) db) =
  members_in id (with_collection_members l db) ++ members_in id (with_collection_members k db).
Proof. unfold members_in. cbn. apply List.filter_app. Qed.

Lemma members_in_saved j id l db :
  members_in j (with_collection_members (saved_members id l db) db) =
  if String.eqb j id then as_row id <$> l else members_in j db.
Proof.
  unfold saved_members. rewrite members_in_app. unfold members_in. cbn [ct_collection_members with_collection_members].
  rewrite filter_comm.
  assert (Hrows : List.filter (fun m => String.eqb (mr_collection_id m) j) (as_row id <$> l) =
                  if String.eqb j id then as_row id <$> l else []).
  { induction l as [|m l IH]; [by destruct (String.eqb j id)|]. rewrite fmap_cons. cbn [List.filter mr_collection_id as_row].
    rewrite (String.eqb_sym id j), IH. by destruct (String.eqb j id). }
  rewrite Hrows. destruct (String.eqb_spec j id) as [->|Hj].
  - replace (List.filter _ (List.filter _ _)) with ([] : list member_row); [done|].
    induction (ct_collection_members db) as [|m k IH]; [done|]. cbn [List.filter].
    destruct (String.eqb (mr_collection_id m) id) eqn:E; [|done]. cbn [List.filter]. by rewrite E.
  - rewrite app_nil_r. induction (ct_collection_members db) as [|m k IH]; [done|]. cbn [List.filter].
    destruct (String.eqb_spec (mr_collection_id m) j) as [E|E]; [|done]. cbn [List.filter].
    destruct (String.eqb_spec (mr_collection_id m) id) as [E'|E']; [congruence|]. cbn. by rewrite IH.
Qed.

Lemma as_row_member id db : as_row id <$> (as_member <$> members_in id db) = members_in id db.
Proof.
  rewrite <- list_fmap_compose. assert (Forall (fun m => mr_collection_id m = id) (members_in id db)) as Hall.
  { apply Forall_forall. intros m Hm. by apply members_in_elem in Hm as [_ ?]. }
  induction Hall as [|m l Hm _ IH]; [done|]. rewrite fmap_cons, IH. f_equal. destruct m. cbn in *. by subst.
Qed.

Lemma add_member_works w t c x :
  x ∈ c_members (add_member w t c) -> cm_WorkID x = w \/ x ∈ c_members c.
Proof.
  unfold add_member. destruct (existsb _ _); cbn; [by right|].
  intros [Hm|Hm%list_elem_of_singleton]%elem_of_app; [by right|left; by subst].
Qed.

Lemma collection_of_works id name db m :
  members_keyed db -> m ∈ c_members (collection_of id name db) -> is_Some (ct_works db !! cm_WorkID m).
Proof.
  intros (_ & _ & Hw). cbn. intros (r & -> & Hr)%list_elem_of_fmap. apply members_in_elem in Hr as [Hr _].
  by apply Hw in Hr.
Qed.

Lemma collection_of_unique id name db : members_keyed db -> members_unique (collection_of id name db).
Proof.
  intros Hk. unfold members_unique. cbn. rewrite <- list_fmap_compose. by apply members_in_works.
Qed.

Lemma has_member_rows id name w db :
  existsb (fun m => String.eqb (cm_WorkID m) w) (c_members (collection_of id name db)) =
  existsb (is_member id w) (ct_collection_members db).
Proof.
  apply eq_iff_eq_true. rewrite has_member_spec, existsb_members. cbn. rewrite <- list_fmap_compose, list_elem_of_fmap.
  setoid_rewrite members_in_elem. naive_solver.
Qed.

Lemma members_in_with j l db db' :
  ct_collection_members db = l -> members_in j (with_collection_members l db') = members_in j db.
Proof. intros <-. done. Qed.

(** The repository's insertion, when nothing fails. *)
Lemma AddCollectionMember_run lib id w t c db :
  collection_in lib id db = Some c -> is_Some (ct_works db !! w) ->
  AddCollectionMember no_faults lib id w t db =
  (Ok tt, with_collection_members
            (if existsb (is_member id w) (ct_collection_members db) then ct_collection_members db
             else ct_collection_members db ++ [mkMemberRow id w t]) db).
Proof.
  intros Hc [row Hw]. unfold AddCollectionMember, query_one, execute_, exec, no_faults, mbind, stM_bind. cbn.
  rewrite Hc. cbn. rewrite Hw. cbn. unfold insert_member_if_absent, insert_member, work_known, mbind, res_bind.
  cbn [mr_collection_id mr_work_id].
  destruct (existsb _ _) eqn:E; [by destruct db|]. apply collection_in_Some in Hc as [Hc _].
  rewrite !bool_decide_eq_true_2 by (rewrite ?Hc, ?Hw; eauto). done.
Qed.

Lemma RemoveCollectionMember_run lib id w c db :
  collection_in lib id db = Some c ->
  RemoveCollectionMember no_faults lib id w db =
  (if existsb (is_member id w) (ct_collection_members db) then Ok tt
   else fails NotFound "no membership found for that work in this collection",
   with_collection_members (List.filter (fun m => negb (is_member id w m)) (ct_collection_members db)) db).
Proof.
  intros Hc. unfold RemoveCollectionMember, affecting, query_one, exec, no_faults, mbind, stM_bind. cbn.
  rewrite Hc. cbn. rewrite existsb_filter. by destruct (List.filter (is_member id w) (ct_collection_members db)).
Qed.

(** The two ways of changing a collection agree.  On tables whose keys
    hold, the service, which loads the collection, changes the aggregate and
    saves it whole, and the repository's own statement leave the same members,
    in the same order and with the same times, in every collection, and touch
    nothing else; adding a member again keeps its first time.  They differ on
    one thing: removing a work that is no member is a success of the service
    and NotFound of the repository. *)
Theorem member_changes_agree lib id w t c db :
  members_keyed db -> collection_in lib id db = Some c ->
  ValidateBoundedText "name" (cc_name c) 100 = Ok tt -> is_Some (ct_works db !! w) ->
  (exists m1 m2,
    AddMember no_faults no_faults lib id w t db =
      (Ok (newSensitive CollectionMemberAdded id t), with_collection_members m1 db) /\
    AddCollectionMember no_faults lib id w t db = (Ok tt, with_collection_members m2 db) /\
    forall j, members_in j (with_collection_members m1 db) = members_in j (with_collection_members m2 db)) /\
  (exists m1 m2,
    RemoveMember no_faults no_faults lib id w t db =
      (Ok (newSensitive CollectionMemberRemoved id t), with_collection_members m1 db) /\
    RemoveCollectionMember no_faults lib id w db =
      (if existsb (is_member id w) (ct_collection_members db) then Ok tt
       else fails NotFound "no membership found for that work in this collection",
       with_collection_members m2 db) /\
    forall j, members_in j (with_collection_members m1 db) = members_in j (with_collection_members m2 db)).
Proof.
  intros Hk Hc Hn Hw. pose proof (collection_of_unique id (cc_name c) db Hk) as Hu. split.
  - exists (saved_members id (c_members (add_member w t (collection_of id (cc_name c) db))) db).
    eexists. split; [|split; [by apply (AddCollectionMember_run lib id w t c)|]].
    + unfold AddMember, mbind, stM_bind. rewrite (FindCollectionByID_run lib id c) by done.
      assert (add_member w t (collection_of id (cc_name c) db) =
              mkCollection id (cc_name c) (c_members (add_member w t (collection_of id (cc_name c) db)))) as E
        by (unfold add_member; by destruct (existsb _ _)).
      rewrite E at 1. rewrite SaveCollection_run with (c := c); [done|done|by apply add_member_unique|].
      intros m [->|Hm]%add_member_works; [done|]. by eapply collection_of_works.
    + intros j. rewrite members_in_saved. unfold add_member. rewrite has_member_rows.
      destruct (existsb _ _).
      * destruct (String.eqb_spec j id) as [->|]; [|done]. etrans; [apply as_row_member|reflexivity].
      * cbn [c_members]. rewrite fmap_app, members_in_app.
        destruct (String.eqb_spec j id) as [->|Hj].
        -- f_equal; [etrans; [apply as_row_member|reflexivity]|]. unfold members_in. cbn. by rewrite String.eqb_refl.
        -- unfold members_in at 3. cbn. destruct (String.eqb_spec id j); [by subst|]. by rewrite app_nil_r.
  - exists (saved_members id (c_members (remove_member w (collection_of id (cc_name c) db))) db).
    eexists. split; [|split; [by apply (RemoveCollectionMember_run lib id w c)|]].
    + unfold RemoveMember, mbind, stM_bind. rewrite (FindCollectionByID_run lib id c) by done.
      change (remove_member w (collection_of id (cc_name c) db)) with
        (mkCollection id (cc_name c) (c_members (remove_member w (collection_of id (cc_name c) db)))) at 1.
      rewrite SaveCollection_run with (c := c); [done|done|by apply (remove_member_unique w)|].
      intros m Hm. apply (collection_of_works id (cc_name c) db m Hk). cbn in *.
      apply list_elem_of_In, filter_In in Hm as [Hm _]. by apply list_elem_of_In.
    + intros j. rewrite members_in_saved. unfold members_in. cbn [ct_collection_members with_collection_members].
      rewrite filter_comm. destruct (String.eqb_spec j id) as [->|Hj].
      * cbn [c_members remove_member collection_of]. rewrite <- as_row_member at 1. 
        assert (H : forall l, Forall (fun m => mr_collection_id m = id) l ->
          as_row id <$> List.filter (fun m => negb (String.eqb (cm_WorkID m) w)) (as_member <$> l) =
          List.filter (fun m => negb (is_member id w m)) l).
        { intros l Hl. induction Hl as [|m l Hm _ IH]; [done|]. rewrite fmap_cons. cbn [List.filter].
          unfold is_member at 1. rewrite Hm, String.eqb_refl. cbn [andb cm_WorkID as_member].
          destruct (String.eqb (mr_work_id m) w); cbn [negb]; [done|]. rewrite fmap_cons, IH. f_equal.
          destruct m. cbn in *. by subst. }
        rewrite as_row_member. apply H. apply Forall_forall. intros m Hm. by apply (members_in_elem id) in Hm as [_ ?].
      * symmetry. generalize (ct_collection_members db). intros l. induction l as [|m l IH]; [done|].
        cbn [List.filter]. destruct (String.eqb_spec (mr_collection_id m) j) as [E|E]; [|done].
        cbn [List.filter]. unfold is_member at 1. destruct (String.eqb_spec (mr_collection_id m) id); [congruence|].
        cbn. by rewrite IH.
Qed.

(** ** What a detail tells *)

Lemma elem_of_collection_refs l r :
  r ∈ collection_refs l <->
  exists mc, mc ∈ l /\ r = mkCollectionRef (mr_collection_id mc.1) (cc_name mc.2) (Some (mr_added_at mc.1)).
Proof.
  unfold collection_refs. rewrite list_elem_of_fmap. setoid_rewrite sort_by_perm. naive_solver.
Qed.

Lemma elem_of_memberships lib_ok db w m c :
  (m, c) ∈ memberships_of lib_ok db w <->
  m ∈ ct_collection_members db /\ ct_collections db !! mr_collection_id m = Some c /\ mr_work_id m = w /\
  lib_ok (cc_library_id c) = true.
Proof.
  split; [apply memberships_of_elem|]. intros (Hm & Hc & Hw & Hl). unfold memberships_of.
  apply list_elem_of_omap. exists m. split; [done|]. by rewrite Hc, Hw, String.eqb_refl, Hl.
Qed.

Lemma entries_nonempty lib_ok db w :
  nonempty (entries_of lib_ok db w) = true <->
  exists le e, le ∈ ct_library_entries db /\ ct_editions db !! lr_edition_id le = Some e /\ ec_work_id e = w /\
    lib_ok (lr_library_id le) = true.
Proof.
  split.
  - destruct (entries_of lib_ok db w) as [|[le e] l] eqn:E; [done|]. intros _. exists le, e.
    apply (entries_of_elem lib_ok). rewrite E. by left.
  - intros (le & e & Hle & He & Hw & Hl).
    assert ((le, e) ∈ entries_of lib_ok db w) as Hin.
    { unfold entries_of. apply list_elem_of_omap. exists le. split; [done|]. by rewrite He, Hw, String.eqb_refl, Hl. }
    destruct (entries_of lib_ok db w); [by apply elem_of_nil in Hin|done].
Qed.

(** The detail of a collection reaches into every library.  A member of
    the collection's library gets its members, each with its title, authors
    and time; but the mark that a work is owned is set when any library holds
    an edition of it, and the collections listed beside it are those of all
    libraries, with their identifiers and names. *)
Theorem GetCollection_across_libraries `{Collation} ctx value path db d db' :
  GetCollectionHandler None ctx value path db = (Ok d, db') ->
  db' = db /\
  exists c, collection_in (ActiveLibraryFromContext ctx) (cd_ID d) db = Some c /\ cd_Name d = cc_name c /\
  forall s, s ∈ cd_Works d ->
    (exists m, m ∈ members_in (cd_ID d) db /\ mr_work_id m = ws_ID s /\ ws_AddedAt s = Some (mr_added_at m)) /\
    (ws_IsOwned s = true <->
     exists le e, le ∈ ct_library_entries db /\ ct_editions db !! lr_edition_id le = Some e /\
       ec_work_id e = ws_ID s) /\
    (forall r, r ∈ ws_Collections s <->
     exists m cc, m ∈ ct_collection_members db /\ mr_work_id m = ws_ID s /\
       ct_collections db !! mr_collection_id m = Some cc /\
       r = mkCollectionRef (mr_collection_id m) (cc_name cc) (Some (mr_added_at m))).
Proof.
  unfold GetCollectionHandler, collection_id, valid_id, or_missing, or_fail. intros Hrun.
  destruct (is_ok _); [|done]. cbn [mbind stM_bind] in Hrun. unfold mret, stM_ret in Hrun.
  apply stM_bind_ok in Hrun as ([] & s1 & [= <-] & Hrun).
  apply stM_bind_ok in Hrun as (r & s2 & Hf%attempt_ok & Hrun).
  destruct r as [d1|e|]; [|done..]. injection Hrun as -> ->.
  apply query_one_ok in Hf as (_ & Hf & ->). split; [done|].
  unfold mbind, option_bind in Hf. destruct (collection_in _ _ db) as [c|] eqn:Ec; [|done].
  injection Hf as <-. exists c. cbn [cd_ID cd_Name cd_Works]. split; [done|]. split; [done|].
  intros s (m & Hm & Hs)%list_elem_of_omap. rewrite sort_by_perm in Hm.
  unfold member_summary, mbind, option_bind in Hs. destruct (ct_works db !! mr_work_id m) as [w|]; [|done].
  injection Hs as <-. cbn. split; [by exists m|]. split.
  - rewrite entries_nonempty. naive_solver.
  - intros r. rewrite elem_of_collection_refs. split.
    + intros ([m' cc] & Hin & ->). apply elem_of_memberships in Hin as (? & ? & ? & _). by exists m', cc.
    + intros (m' & cc & Hm' & Hw & Hcc & ->). exists (m', cc). split; [|done]. by apply elem_of_memberships.
Qed.

(** ** Runs *)

Lemma demo_members_keyed : members_keyed demo_catalog.
Proof.
  split; [|split].
  - apply NoDup_cons. split; [|apply NoDup_cons; split; [|apply NoDup_singleton]];
      cbn; rewrite ?elem_of_cons, ?elem_of_nil; unfold member_key; cbn; intros Hx; intuition congruence.
  - intros m Hm. cbn in Hm. rewrite !elem_of_cons in Hm.
    destruct Hm as [->|[->|[->|Hm]]]; [by eexists..|by apply elem_of_nil in Hm].
  - intros m Hm. cbn in Hm. rewrite !elem_of_cons in Hm.
    destruct Hm as [->|[->|[->|Hm]]]; [by eexists..|by apply elem_of_nil in Hm].
Qed.

Lemma member_changes_agree_witness :
  exists m1 m2,
    AddMember no_faults no_faults "l1" "c1" "w1" 70 demo_catalog =
      (Ok (newSensitive CollectionMemberAdded "c1" 70), with_collection_members m1 demo_catalog) /\
    AddCollectionMember no_faults "l1" "c1" "w1" 70 demo_catalog = (Ok tt, with_collection_members m2 demo_catalog) /\
    members_in "c1" (with_collection_members m1 demo_catalog) =
      [mkMemberRow "c1" "w2" 20; mkMemberRow "c1" "w1" 70].
Proof.
  destruct (member_changes_agree "l1" "c1" "w1" 70 (mkCollectionCols "To read" "l1") demo_catalog
              demo_members_keyed eq_refl eq_refl ltac:(by eexists)) as [(m1 & m2 & H1 & H2 & Hm) _].
  exists m1, m2. split; [exact H1|]. split; [exact H2|]. rewrite Hm.
  assert (Hdb : (AddCollectionMember no_faults "l1" "c1" "w1" 70 demo_catalog).2 = with_collection_members m2 demo_catalog)
    by (rewrite H2; reflexivity).
  rewrite <- Hdb. vm_compute. reflexivity.
Defined.

Lemma GetCollection_across_libraries_witness :
  exists d, GetCollectionHandler None (demo_member "l1") "c1" "" demo_catalog = (Ok d, demo_catalog) /\
    List.map ws_Collections (cd_Works d) =
      [[mkCollectionRef "c2" "Secret" (Some 30); mkCollectionRef "c1" "To read" (Some 20)]] /\
    exists c, collection_in "l1" (cd_ID d) demo_catalog = Some c.
Proof.
  destruct (GetCollectionHandler None (demo_member "l1") "c1" "" demo_catalog) as [[d|e|] db'] eqn:E.
  2-3: vm_compute in E; discriminate E.
  destruct (GetCollection_across_libraries _ _ _ _ _ _ E) as (-> & c & Hc & _).
  exists d. split; [reflexivity|]. split; [|by exists c].
  vm_compute in E. injection E as <-. reflexivity.
Defined.
