(* ===== verification/Network.v ===== *)
(** * Sharing on the network (src/internal/transport/http/network.go)

    The handlers that pair devices and keep the network settings.  They run
    on the identity store, with the pairing tables in it. *)

From S2P Require Import Prelude GoStrings Regex Errors Catalog Transactor Postgres Http Pairing PairingStore Identity Tokens AuthStore AuthHandlers Access.

Local Open Scope string_scope.
Local Open Scope list_scope.
Local Open Scope Z_scope.

(** ** Requests *)

(** What the handlers read of a request's head. *)
Record head := mkHead {
  hd_ContentLength : Z;
  hd_ContentType : string;
  hd_UserAgent : string;
}.

Definition not_found {A} : handlerM A := throw (HTTPError NotFound "pairing session not found").
Definition malformed_body : http_error :=
  HTTPError InvalidInput "malformed request body or body too large".

(** The caller has to be an administrator. *)
Definition require_admin (user : option AuthenticatedUser) : handlerM AuthenticatedUser :=
  match user with
  | None => throw (HTTPError Unauthorized "unauthorized")
  | Some user =>
      if negb (is_admin user) then throw (Forbidden "insufficient permissions for this resource")
      else mret user
  end.

Section network.
Context `{CaseTables} `{Crypto} `{TokenPrimitives}.

Definition checkJSONContentType (r : head) : bool :=
  if hd_ContentLength r =? 0 then true
  else HasPrefix (ToLower (hd_ContentType r)) "application/json".

Definition require_json (r : head) : handlerM unit :=
  if negb (checkJSONContentType r)
  then throw (UnsupportedMediaType "Content-Type must be application/json") else mret tt.

(** What the server is configured with. *)
Record sharing := mkSharing {
  sh_secret : string;
  sh_address : string;
  sh_scheme : string;
  sh_hostName : string;
  sh_grants : GrantSigner;
  sh_inet : string -> option string;
}.

Definition scheme_of (cfg : sharing) : string :=
  if String.eqb (sh_scheme cfg) "" then "http" else sh_scheme cfg.

Definition connect_payload (cfg : sharing) (display : string) : string :=
  scheme_of cfg +:+ "://" +:+ sh_address cfg +:+ "/connect?c=" +:+ display.

(** ** Starting to pair *)

Record InitiatePairingResponse := mkInitiatePairingResponse {
  ip_PairingID : string;
  ip_Code : string;
  ip_Payload : string;
  ip_Address : string;
  ip_ExpiresAt : Time;
}.

(** The secret of the body, which may be empty. *)
Definition submitted_secret (req : body string) : handlerM string :=
  match req with
  | Decoded secret => mret secret
  | EmptyBody => mret ""
  | Malformed => throw malformed_body
  end.

Definition check_secret (cfg : sharing) (secret : string) : handlerM unit :=
  if negb (String.eqb (sh_secret cfg) "") && negb (ConstantTimeCompare secret (sh_secret cfg) =? 1)
  then throw (Forbidden "invalid pairing secret") else mret tt.

(** [codeGen], [newID], [nonce] and [now] are what the generators and the clock
    answer, [ip] is [clientIP(r)]. *)
Definition InitiatePairingHandler (cfg : sharing) (codeGen : Result PairingCode) (newID : string)
    (nonce : Result string) (now : Time) (fault : option pg_error) (ip : string)
    (user : option AuthenticatedUser) (r : head) (req : body string) : handlerM InitiatePairingResponse :=
  user ← require_admin user;
  _ ← require_json r;
  secret ← submitted_secret req;
  _ ← check_secret cfg secret;
  code ← or_fail (reading (fun _ => codeGen))
           (fun _ => HTTPError Internal "failed to generate pairing code");
  session ← or_fail (reading (fun _ => NewPairingSession newID (au_UserID user) code (5 * Minute) now))
              (fun _ => HTTPError Internal "failed to create pairing session");
  _ ← or_fail (on_network (sh_inet cfg) (fun server => SaveWithInitiatorIP server nonce fault session ip))
        (category_of "failed to save pairing session");
  mret (mkInitiatePairingResponse newID (Display code) (connect_payload cfg (Display code))
          (sh_address cfg) (ps_expiresAt session)).

(** ** Verifying a code *)

Record VerifyPairingRequest := mkVerifyPairingRequest {
  vp_Code : string;
  vp_Label : string;
}.

Record VerifyPairingResponse := mkVerifyPairingResponse {
  vp_EnrolmentGrant : string;
  vp_Address : string;
  vp_HostName : string;
}.

Definition mentions (ua : string) (words : list string) : bool := existsb (Contains ua) words.

Definition parseDeviceClass (userAgent : string) : DeviceClass :=
  let ua := ToLower userAgent in
  if mentions ua ["tv"; "smart-tv"; "crkey"; "googletv"; "appletv"] then DeviceClassTV
  else if mentions ua ["ipad"; "tablet"] || (Contains ua "android" && negb (Contains ua "mobile")) then
    DeviceClassTablet
  else if mentions ua ["mobile"; "iphone"; "android"] then DeviceClassPhone
  else if mentions ua ["windows"; "macintosh"; "linux"; "x11"] then DeviceClassDesktop
  else DeviceClassUnknown.

Definition genericPairingNotFoundMsg : string := "pairing code not recognised".

Definition VerifyPairingHandler (cfg : sharing) (deviceID grantID : string) (nonce : Result string)
    (now : Time) (tx : TxOutcome) (faults : PairingStore.Faults) (r : head)
    (req : option VerifyPairingRequest) : handlerM VerifyPairingResponse :=
  _ ← require_json r;
  req ← match req with Some req => mret req | None => throw malformed_body end;
  code ← or_fail (reading (fun _ => NewPairingCode (vp_Code req)))
           (fun _ => HTTPError InvalidInput
                       "malformed pairing code: must be 8 Crockford base32 characters");
  let deviceClass := parseDeviceClass (hd_UserAgent r) in
  let label := default_label (vp_Label req) deviceClass in
  session ← or_fail (on_network (sh_inet cfg) (fun server =>
                VerifyAndConsume server tx faults nonce code deviceID label deviceClass now))
              (fun _ => HTTPError NotFound genericPairingNotFoundMsg);
  grant ← or_fail (reading (fun _ => SignGrant (sh_grants cfg) grantID (ps_id session) now))
            (fun _ => HTTPError Internal "failed to issue enrolment grant");
  mret (mkVerifyPairingResponse grant (sh_address cfg) (sh_hostName cfg)).

(** ** The administrator's view of a session *)

Record PairingQRResponse := mkPairingQRResponse {
  qr_Payload : string;
  qr_Address : string;
  qr_Code : string;
  qr_ExpiresAt : Time;
  qr_State : string;
}.

(** The session of the path, for the administrator who started it. *)
Definition own_session (cfg : sharing) (fault : option pg_error) (user : AuthenticatedUser)
    (sessionID : PairingSessionID) : handlerM PairingSession :=
  if String.eqb sessionID "" then not_found
  else
    session ← or_fail (on_network (sh_inet cfg) (fun _ => FindSessionByID fault sessionID))
                (fun _ => HTTPError NotFound "pairing session not found");
    if negb (String.eqb (ps_initiatedBy session) (au_UserID user)) then not_found else mret session.

Definition qr_response (cfg : sharing) (session : PairingSession) : PairingQRResponse :=
  let code := if terminal session then "" else Display (ps_code session) in
  mkPairingQRResponse (if terminal session then "" else connect_payload cfg code) (sh_address cfg) code
    (ps_expiresAt session) (ps_state session).

Definition PairingQRHandler (cfg : sharing) (fault : option pg_error) (user : option AuthenticatedUser)
    (sessionID : PairingSessionID) : handlerM PairingQRResponse :=
  user ← require_admin user;
  session ← own_session cfg fault user sessionID;
  mret (qr_response cfg session).

(** The two calls whose error is dropped. *)
Definition end_session (cfg : sharing) (nonce : Result string) (fault : option pg_error) (now : Time)
    (sessionID : PairingSessionID) (session : PairingSession) : handlerM unit :=
  if String.eqb (ps_state session) PairingConsumed then
    dropping (on_network (sh_inet cfg) (fun _ => RevokeByPairingSessionID fault sessionID now))
  else if String.eqb (ps_state session) PairingPending || String.eqb (ps_state session) PairingVerified then
    dropping (on_network (sh_inet cfg) (fun server =>
                SaveSession server nonce fault (ExpireAt (ps_expiresAt session) session)))
  else mret tt.

Definition DeletePairingHandler (cfg : sharing) (nonce : Result string) (fault : nat -> option pg_error)
    (now : Time) (user : option AuthenticatedUser) (sessionID : PairingSessionID) : handlerM unit :=
  user ← require_admin user;
  session ← own_session cfg (fault 0%nat) user sessionID;
  end_session cfg nonce (fault 1%nat) now sessionID session.

(** ** The status *)

Record NetworkAddress := mkNetworkAddress { na_Scope : string; na_URL : string }.

Record NetworkInfo := mkNetworkInfo {
  ni_Reachability : string;
  ni_TLSMode : string;
  ni_BindAddress : string;
  ni_ACMEDomain : string;
  ni_HostName : string;
  ni_HostnameVerified : bool;
  ni_Addresses : list NetworkAddress;
}.

Record NetworkStatusReader := mkNetworkStatusReader {
  st_Reachability : string;
  st_TLSMode : string;
  st_AuthRequired : bool;
  st_Address : string;
}.

Record NetworkStatusAdmin := mkNetworkStatusAdmin {
  st_Reader : NetworkStatusReader;
  st_Addresses : list NetworkAddress;
  st_HostName : string;
  st_HostnameVerified : bool;
  st_ACMEDomain : string;
}.

(** [url_host] is the host of a URL that parses. *)
Definition matched_address (url_host : string -> option string) (info : NetworkInfo) (host : string)
    : string :=
  match List.find (fun a => bool_decide (url_host (na_URL a) = Some host)) (ni_Addresses info) with
  | Some a => if String.eqb (na_URL a) "" then
                match ni_Addresses info with
                | b :: _ => na_URL b
                | [] => ""
                end
              else na_URL a
  | None =>
      match ni_Addresses info with
      | a :: _ => na_URL a
      | [] => (if negb (String.eqb (ni_TLSMode info) "none") then "https" else "http") +:+ "://"
              +:+ ni_BindAddress info
      end
  end.

Definition NetworkStatusHandler (url_host : string -> option string) (info : NetworkInfo)
    (host : string) (user : option AuthenticatedUser)
    : handlerM (NetworkStatusReader + NetworkStatusAdmin) :=
  match user with
  | None => throw (HTTPError Unauthorized "unauthorized")
  | Some user =>
      let status := mkNetworkStatusReader (ni_Reachability info) (ni_TLSMode info) true
                      (matched_address url_host info host) in
      mret (if is_admin user then
              inr (mkNetworkStatusAdmin status (ni_Addresses info) (ni_HostName info)
                     (ni_HostnameVerified info)
                     (if String.eqb (ni_TLSMode info) "acme" then ni_ACMEDomain info else ""))
            else inl status)
  end.

(** ** The settings *)

(** [dnsLabelRegex]. *)
Definition dns_edge : re := RClass [lower_letters; digits].
Definition dnsLabelRegex : re :=
  RCat dns_edge (ROpt (RCat (RStar (RClass [lower_letters; digits; (45, 45)])) dns_edge)).

Definition TrimSuffix (s suffix : string) : string :=
  let n := (String.length s - String.length suffix)%nat in
  if Nat.leb (String.length suffix) (String.length s) &&
     String.eqb (String.substring n (String.length suffix) s) suffix
  then String.substring 0 n s else s.

Definition isValidHostName (host : string) : bool :=
  let label := TrimSuffix host ".local" in
  if (len label <? 1) || (63 <? len label) then false else MatchString dnsLabelRegex label.

Definition defaultNetworkSettings (now : Time) : NetworkSettings :=
  mkNetworkSettings "alexandryn.local" 30 now.

(** The saved settings, the defaults when there are none. *)
Definition current_settings (fault : option pg_error) (now : Time) : handlerM NetworkSettings :=
  r ← attempt (GetNetworkSettings fault);
  match r with
  | Ok s => mret s
  | Err e =>
      if bool_decide (CategoryOf e = NotFound) then mret (defaultNetworkSettings now)
      else throw (HTTPError (CategoryOf e) "failed to read network settings")
  | OutOfFuel => throw Panicked
  end.

Definition GetNetworkSettingsHandler (fault : option pg_error) (now : Time)
    (user : option AuthenticatedUser) : handlerM NetworkSettings :=
  _ ← require_admin user;
  current_settings fault now.

(** A value of the body as [json.Unmarshal] sees it. *)
Inductive raw_message := RawString (s : string) | RawInt (n : Z) | RawNull | RawOther.

Definition raw_string (v : raw_message) : option string :=
  match v with RawString s => Some s | RawNull => Some "" | _ => None end.
Definition raw_int (v : raw_message) : option Z :=
  match v with
  | RawInt n => if (- 2 ^ 63 <=? n) && (n <? 2 ^ 63) then Some n else None
  | RawNull => Some 0
  | _ => None
  end.

(** The allowlist: the error a key is refused with. *)
Definition one_of_keys (key : string) (l : list string) : bool := existsb (String.eqb key) l.
Definition refused_key (key : string) : option string :=
  if one_of_keys key ["hostName"; "rememberDeviceDays"] then None
  else if String.eqb key "bindAddress" then
    Some "changes to the bind address require editing the config file and restarting"
  else if one_of_keys key ["tlsCertFile"; "tlsKeyFile"; "tlsMode"] then
    Some "changes to TLS configuration require editing the config file and restarting"
  else if one_of_keys key ["acmeDomain"; "acmeEmail"] then
    Some "changes to ACME domain require editing the config file and restarting"
  else if String.eqb key "authRequired" then Some "authentication cannot be disabled"
  else Some ("unrecognised settings key " +:+ quote key).

(** The body's object, in the order the runtime iterates over it. *)
Abbreviation raw_map := (list (string * raw_message)) (only parsing).

Fixpoint check_keys (rawMap : raw_map) : handlerM unit :=
  match rawMap with
  | [] => mret tt
  | (key, _) :: rest =>
      match refused_key key with
      | Some msg => bad_request msg
      | None => check_keys rest
      end
  end.

Definition raw_value (key : string) (rawMap : raw_map) : option raw_message :=
  snd <$> List.find (fun kv => String.eqb kv.1 key) rawMap.

Definition set_host_name (h : string) (s : NetworkSettings) : NetworkSettings :=
  mkNetworkSettings h (ns_RememberDeviceDays s) (ns_UpdatedAt s).
Definition set_remember_days (n : Z) (s : NetworkSettings) : NetworkSettings :=
  mkNetworkSettings (ns_HostName s) n (ns_UpdatedAt s).
Definition set_settings_updated (t : Time) (s : NetworkSettings) : NetworkSettings :=
  mkNetworkSettings (ns_HostName s) (ns_RememberDeviceDays s) t.

Definition patch_host_name (rawMap : raw_map) (existing : NetworkSettings) : handlerM NetworkSettings :=
  match raw_value "hostName" rawMap with
  | None => mret existing
  | Some v =>
      let refused := bad_request "invalid hostName: must be 1..63 lowercase alphanumeric characters or hyphens with optional .local suffix" in
      match raw_string v with
      | Some h => if negb (isValidHostName h) then refused else mret (set_host_name h existing)
      | None => refused
      end
  end.

Definition patch_remember_days (rawMap : raw_map) (existing : NetworkSettings) : handlerM NetworkSettings :=
  match raw_value "rememberDeviceDays" rawMap with
  | None => mret existing
  | Some v =>
      let refused := bad_request "rememberDeviceDays must be an integer between 1 and 90" in
      match raw_int v with
      | Some days => if (days <? 1) || (90 <? days) then refused else mret (set_remember_days days existing)
      | None => refused
      end
  end.

Definition UpdateNetworkSettingsHandler (fault : nat -> option pg_error) (now : Time)
    (user : option AuthenticatedUser) (r : head) (req : option raw_map) : handlerM NetworkSettings :=
  _ ← require_admin user;
  _ ← require_json r;
  rawMap ← match req with Some m => mret m | None => throw malformed_body end;
  _ ← check_keys rawMap;
  existing ← current_settings (fault 0%nat) now;
  existing ← patch_host_name rawMap existing;
  existing ← patch_remember_days rawMap existing;
  let existing := set_settings_updated now existing in
  _ ← or_fail (UpsertNetworkSettings (fault 1%nat) (Some existing))
        (category_of "failed to save network settings");
  mret existing.
End network.

(** ** Examples *)

Example host_names : isValidHostName <$> ["alexandryn.local"; "a"; "-a"; "a-"; "a--b.local"; ".local"; "A"]
  = [true; true; false; false; true; false; false].
Proof. vm_compute. reflexivity. Qed.
Example device_classes : parseDeviceClass (H := ascii_tables) <$>
    ["Mozilla/5.0 (iPhone; CPU) Mobile"; "Mozilla/5.0 (Linux; Android 14; SM-X200)"; "Mozilla/5.0 (X11; Linux x86_64)";
     "Mozilla/5.0 (Linux; Android 14; Pixel) Mobile"; "Mozilla/5.0 (Web0S; SmartTV)"; "curl"]
  = [DeviceClassPhone; DeviceClassTablet; DeviceClassDesktop; DeviceClassPhone; DeviceClassTV;
     DeviceClassUnknown].
Proof. vm_compute. reflexivity. Qed.
