(* ===== verification/NetworkSafety.v ===== *)
(** * What sharing on the network guarantees *)

From S2P Require Import Prelude GoStrings Regex Errors Catalog Transactor Postgres Http Pairing PairingStore PairingSafety Identity Encoding Tokens AuthStore AuthHandlers Access Network.

Local Open Scope string_scope.
Local Open Scope list_scope.
Local Open Scope Z_scope.

(** ** Runs *)

Lemma on_network_run {A} inet (m : Server -> stM pairing_db error A) db :
  on_network inet m db =
  ((m (mkServer (fun u => known_user u db) inet) (network db)).1,
   set_network (m (mkServer (fun u => known_user u db) inet) (network db)).2 db).
Proof. unfold on_network. by destruct (m _ _). Qed.

Lemma or_fail_run {S A} (m : stM S error A) f s :
  or_fail m f s =
  match m s with
  | (Ok a, s') => (Ok a, s')
  | (Err e, s') => (Err (f e), s')
  | (OutOfFuel, s') => (Err Panicked, s')
  end.
Proof. unfold or_fail, attempt, mbind, stM_bind. by destruct (m s) as [[a|e|] s']. Qed.

Lemma set_network_id db : set_network (network db) db = db.
Proof. by destruct db. Qed.

Lemma require_admin_run user (db : auth_db) :
  require_admin user db =
  match user with
  | None => (Err (HTTPError Unauthorized "unauthorized"), db)
  | Some u => if is_admin u then (Ok u, db)
              else (Err (Forbidden "insufficient permissions for this resource"), db)
  end.
Proof. unfold require_admin. destruct user as [u|]; [|done]. by destruct (is_admin u). Qed.

Section network_safety.
Context `{CaseTables} `{Crypto} `{TokenPrimitives}.

Lemma FindSessionByID_run fault id (n : pairing_db) :
  FindSessionByID fault id n =
  (match fault with
   | Some e => Err (TranslateError e)
   | None => scanSession ((fun r => (id, r)) <$> sessions n !! id)
   end, n).
Proof. reflexivity. Qed.

Lemma scanSession_total id r : scanSession (Some (id, r)) <> OutOfFuel.
Proof.
  unfold scanSession, decryptCode, NewPairingCode, RehydratePairingSession, fails.
  repeat case_match; try done; simplify_eq.
Qed.

(** The session of an administrator, if there is one by that name. *)
Definition owned_session (user : AuthenticatedUser) (id : PairingSessionID) (n : pairing_db)
    : option PairingSession :=
  if String.eqb id "" then None else
  match sessions n !! id with
  | None => None
  | Some r =>
      match scanSession (Some (id, r)) with
      | Ok s => if String.eqb (sr_initiated_by r) (au_UserID user) then Some s else None
      | _ => None
      end
  end.

Lemma own_session_run cfg fault user id db :
  own_session cfg fault user id db =
  (match fault, owned_session user id (network db) with
   | None, Some s => Ok s
   | _, _ => Err (HTTPError NotFound "pairing session not found")
   end, db).
Proof.
  unfold own_session, owned_session. destruct (String.eqb id ""); [by destruct fault|].
  unfold mbind at 1, stM_bind. rewrite or_fail_run, on_network_run. cbv beta.
  rewrite FindSessionByID_run. cbn [fst snd]. rewrite set_network_id.
  destruct fault as [e|]; [done|]. destruct (sessions (network db) !! id) as [r|]; [|done].
  cbn [fmap option_fmap option_map].
  destruct (scanSession (Some (id, r))) as [s|e|] eqn:Hs; [|done|by apply scanSession_total in Hs].
  apply scanSession_ok in Hs as (_ & _ & -> & _).
  by destruct (String.eqb (sr_initiated_by r) (au_UserID user)).
Qed.

Lemma owned_session_Some user id n s :
  owned_session user id n = Some s <->
  id <> "" /\ exists r, sessions n !! id = Some r /\ scanSession (Some (id, r)) = Ok s /\
    sr_initiated_by r = au_UserID user.
Proof.
  unfold owned_session. destruct (String.eqb_spec id "") as [->|Hid]; [by split; [|intros [? _]]|].
  destruct (sessions n !! id) as [r|]; [|by split; [|intros (_ & ? & ? & _)]].
  destruct (scanSession (Some (id, r))) as [s0|e|] eqn:Hs.
  2,3: split; [done|intros (_ & r' & Hr & Hs' & _)]; simplify_eq; congruence.
  destruct (String.eqb_spec (sr_initiated_by r) (au_UserID user)) as [E|E].
  - split; [intros [= ->]; split; [done|by exists r]|]. intros (_ & r' & [= <-] & Hs' & _). congruence.
  - split; [done|]. intros (_ & r' & [= <-] & _ & E'). done.
Qed.

(** ** A session belongs to the administrator who started it *)

Definition own_rows (uid : UserID) (n : pairing_db) : gmap string session_row :=
  filter (fun kr => sr_initiated_by kr.2 = uid) (sessions n).

Lemma own_rows_lookup uid n id r :
  own_rows uid n !! id = Some r <-> sessions n !! id = Some r /\ sr_initiated_by r = uid.
Proof. unfold own_rows. by rewrite map_lookup_filter_Some. Qed.

Lemma owned_session_own u id n1 n2 :
  own_rows (au_UserID u) n1 = own_rows (au_UserID u) n2 -> owned_session u id n1 = owned_session u id n2.
Proof.
  intros E. apply option_eq. intros s. rewrite !owned_session_Some.
  enough (forall r, sessions n1 !! id = Some r /\ sr_initiated_by r = au_UserID u <->
                    sessions n2 !! id = Some r /\ sr_initiated_by r = au_UserID u) as He by naive_solver.
  intros r. by rewrite <- !own_rows_lookup, E.
Qed.

(** Whether the caller started the session. *)
Definition user_owns (user : option AuthenticatedUser) (r : session_row) : bool :=
  match user with Some u => String.eqb (sr_initiated_by r) (au_UserID u) | None => false end.

(** What ending a session writes. *)
Definition ended (nonce : Result string) (fault : option pg_error) (now : Time)
    (id : PairingSessionID) (s : PairingSession) (n : pairing_db) : pairing_db :=
  match fault with
  | Some _ => n
  | None =>
      if String.eqb (ps_state s) PairingConsumed then
        set_devices (update_where (fun _ r => bool_decide (dr_session r = Some id) && active r)
                       (set_dr_revoked now) (devices n)).2 n
      else if is_ok nonce && negb (terminal s) then
        set_sessions (alter (fun r => mkSessionRow (sr_initiated_by r) (sr_ciphertext r) (sr_index r)
          PairingExpired (sr_created_at r) (sr_expires_at r) (sr_device_id r) (sr_initiator_ip r)) id
          (sessions n)) n
      else n
  end.

Lemma set_devices_id n : set_devices (devices n) n = n.
Proof. by destruct n. Qed.

Lemma RevokeByPairingSessionID_state fault id now n s :
  ps_state s = PairingConsumed ->
  (RevokeByPairingSessionID fault id now n).2 = ended (Ok "") fault now id s n.
Proof.
  intros Hc. unfold RevokeByPairingSessionID, update_devices, ended, mbind, stM_bind, exec.
  rewrite Hc. destruct fault; [done|]. simpl. by destruct (_ =? 0).
Qed.

Lemma ExpireAt_expires s :
  ps_state s = PairingPending \/ ps_state s = PairingVerified ->
  ExpireAt (ps_expiresAt s) s = set_ps_state PairingExpired s.
Proof.
  intros Hs. unfold ExpireAt, isExpired, Before. rewrite Z.ltb_irrefl. by destruct Hs as [->| ->].
Qed.

Lemma SaveSession_expired server nonce fault now id s r n :
  sessions n !! id = Some r -> scanSession (Some (id, r)) = Ok s ->
  ps_state s = PairingPending \/ ps_state s = PairingVerified ->
  (SaveSession server nonce fault (ExpireAt (ps_expiresAt s) s) n).2 = ended nonce fault now id s n.
Proof.
  intros Hr Hs Hp. rewrite ExpireAt_expires by done. apply scanSession_ok in Hs as (_ & <- & Hi & Hst & Hc & He & Hd & _).
  unfold SaveSession, SaveWithInitiatorIP, ended.
  assert (String.eqb (ps_state s) PairingConsumed = false) as -> by (by destruct Hp as [->| ->]).
  assert (terminal s = false) as -> by (unfold terminal; by destruct Hp as [->| ->]).
  destruct nonce as [nn|e|]; simpl; [|by destruct fault..]. unfold exec. destruct fault; [done|].
  unfold session_upsert. simpl. rewrite Hr. simpl. f_equal. rewrite He, Hd.
  apply map_eq. intros k. destruct (decide (k = ps_id s)) as [->|Hne].
  - by rewrite lookup_insert_eq, lookup_alter_eq, Hr.
  - by rewrite lookup_insert_ne, lookup_alter_ne.
Qed.

Lemma DeletePairing_run cfg nonce fault now user id db :
  DeletePairingHandler cfg nonce fault now user id db =
  match user with
  | None => (Err (HTTPError Unauthorized "unauthorized"), db)
  | Some u =>
      if is_admin u then
        match fault 0%nat, owned_session u id (network db) with
        | None, Some s => (Ok tt, set_network (ended nonce (fault 1%nat) now id s (network db)) db)
        | _, _ => (Err (HTTPError NotFound "pairing session not found"), db)
        end
      else (Err (Forbidden "insufficient permissions for this resource"), db)
  end.
Proof.
  unfold DeletePairingHandler. unfold mbind at 1, stM_bind. rewrite require_admin_run.
  destruct user as [u|]; [|done]. destruct (is_admin u); [|done].
  unfold mbind at 1, stM_bind. rewrite own_session_run.
  destruct (fault 0%nat); [done|]. destruct (owned_session u id (network db)) as [s|] eqn:Hs; [|done].
  apply owned_session_Some in Hs as (_ & r & Hr & Hs & _). unfold end_session.
  destruct (String.eqb_spec (ps_state s) PairingConsumed) as [E|E].
  { unfold dropping. rewrite on_network_run. simpl. f_equal. f_equal.
    rewrite (RevokeByPairingSessionID_state _ _ _ _ s) by done. unfold ended. by rewrite E. }
  assert (ps_state s = PairingPending \/ ps_state s = PairingVerified \/ ps_state s = PairingExpired) as Hst.
  { apply scanSession_ok in Hs as (_ & _ & _ & _ & _ & _ & _ & Hv%rehydrates_valid).
    unfold state_valid in Hv. simpl in Hv. rewrite !orb_true_iff, !String.eqb_eq in Hv.
    destruct Hv as [?|[?|[?|[?|?]]]]; auto; congruence. }
  destruct (_ || _) eqn:E'.
  - assert (ps_state s = PairingPending \/ ps_state s = PairingVerified) as Hp.
    { by rewrite orb_true_iff, !String.eqb_eq in E'. }
    unfold dropping. rewrite on_network_run. simpl. f_equal. f_equal. by eapply SaveSession_expired.
  - rewrite orb_false_iff, !String.eqb_neq in E'. destruct Hst as [?|[?|Hst]]; [tauto..|].
    simpl. f_equal. unfold ended, terminal. rewrite Hst. simpl. rewrite andb_false_r.
    destruct (fault 1%nat); by rewrite set_network_id.
Qed.

Lemma PairingQR_run cfg fault user id db :
  PairingQRHandler cfg fault user id db =
  (match user with
   | None => Err (HTTPError Unauthorized "unauthorized")
   | Some u =>
       if is_admin u then
         match fault, owned_session u id (network db) with
         | None, Some s => Ok (qr_response cfg s)
         | _, _ => Err (HTTPError NotFound "pairing session not found")
         end
       else Err (Forbidden "insufficient permissions for this resource")
   end, db).
Proof.
  unfold PairingQRHandler. unfold mbind at 1, stM_bind. rewrite require_admin_run.
  destruct user as [u|]; [|done]. destruct (is_admin u); [|done].
  unfold mbind, stM_bind. rewrite own_session_run. destruct fault; [done|]. by destruct (owned_session _ _ _).
Qed.

(** A pairing session concerns the administrator who started it.  What
    the status and the deletion of a session answer depends, for whoever
    asks, on the sessions that caller started alone: a session of another
    administrator answers as one that does not exist.  And a deletion leaves
    the sessions other administrators started, and the devices paired
    through them, as they are. *)
Theorem pairing_sessions_private cfg nonce faults now user id db1 db2 :
  (forall u, user = Some u ->
     own_rows (au_UserID u) (network db1) = own_rows (au_UserID u) (network db2)) ->
  let after := (DeletePairingHandler cfg nonce faults now user id db1).2 in
  (PairingQRHandler cfg (faults 0%nat) user id db1).1 = (PairingQRHandler cfg (faults 0%nat) user id db2).1 /\
  (DeletePairingHandler cfg nonce faults now user id db1).1 =
    (DeletePairingHandler cfg nonce faults now user id db2).1 /\
  (forall k r, sessions (network db1) !! k = Some r -> user_owns user r = false ->
     sessions (network after) !! k = Some r) /\
  (forall k d, devices (network db1) !! k = Some d ->
     (forall sid r, dr_session d = Some sid -> sessions (network db1) !! sid = Some r ->
        user_owns user r = false) ->
     devices (network after) !! k = Some d).
Proof.
  intros Hown after. subst after. rewrite !PairingQR_run, !DeletePairing_run.
  destruct user as [u|]; [|by conjuncts]. specialize (Hown u eq_refl).
  rewrite <- (owned_session_own u id (network db1) (network db2)) by done.
  destruct (is_admin u); [|by conjuncts]. destruct (faults 0%nat); [by conjuncts|].
  destruct (owned_session u id (network db1)) as [s|] eqn:Hs; [|by conjuncts].
  apply owned_session_Some in Hs as (_ & row & Hrow & _ & Hi). cbn [fst snd]. conjuncts.
  - intros k r Hk Hne. cbn [network set_network]. unfold ended. destruct (faults 1%nat); [done|].
    destruct (String.eqb _ _); [done|]. destruct (_ && _); [|done]. cbn [sessions set_sessions].
    rewrite lookup_alter_ne; [done|]. intros ->. simplify_eq. unfold user_owns in Hne.
    by rewrite Hi, String.eqb_refl in Hne.
  - intros k d Hk Hd. cbn [network set_network]. unfold ended. destruct (faults 1%nat); [done|].
    destruct (String.eqb _ _); [|by destruct (_ && _)]. cbn [devices set_devices].
    rewrite update_where_lookup, Hk. simpl. destruct (bool_decide_reflect (dr_session d = Some id)) as [E|]; [|done].
    specialize (Hd _ _ E Hrow). unfold user_owns in Hd. by rewrite Hi, String.eqb_refl in Hd.
Qed.

(** The answer to a deletion does not say whether it happened.  For the
    administrator who started the session the answer is success whatever the
    statement that ends the session met.  If it met no fault, no code enrols a
    device through the session any more and no device paired through a
    consumed one is left active; if it met one, nothing has changed. *)
Theorem DeletePairing_outcome cfg nonce faults now u id db r db' :
  is_admin u = true -> faults 0%nat = None ->
  DeletePairingHandler cfg nonce faults now (Some u) id db = (r, db') ->
  match owned_session u id (network db) with
  | None => r = Err (HTTPError NotFound "pairing session not found") /\ db' = db
  | Some s =>
      r = Ok tt /\
      (faults 1%nat <> None -> db' = db) /\
      (faults 1%nat = None -> is_ok nonce = true ->
       (forall server tx fs n' code d label cls later s' n'',
          VerifyAndConsume server tx fs n' code d label cls later (network db') = (Ok s', n'') ->
          ps_id s' <> id) /\
       (ps_state s = PairingConsumed -> forall k d, devices (network db') !! k = Some d ->
          dr_session d = Some id -> dr_revoked_at d <> None))
  end.
Proof.
  intros Ha Hf. rewrite DeletePairing_run, Ha, Hf. intros Hrun.
  destruct (owned_session u id (network db)) as [s|] eqn:Hs; [|by injection Hrun as <- <-].
  injection Hrun as <- <-. apply owned_session_Some in Hs as (_ & row & Hrow & Hs & _).
  apply scanSession_ok in Hs as Hsc. destruct Hsc as (_ & _ & _ & Hst & _ & _ & _ & Hre).
  unfold ended. destruct (faults 1%nat) as [e|]; (split; [done|]); (split; [|intros ? Hn; try done]).
  { intros _. apply set_network_id. }
  { done. }
  cbn [network set_network]. split.
  - intros server tx fs n' code d label cls later s' n'' Hv Hid.
    apply VerifyAndConsume_ok in Hv as (id' & r & s0 & Hfirst & Hsc & _ & -> & _).
    apply first_row_Some in Hfirst as [Hr' Hm]. apply scanSession_ok in Hsc as (_ & Hid' & _).
    cbn in Hid. rewrite <- Hid', Hid in Hr'. revert Hr'. unfold pending_match in Hm. bool_to_prop.
    destruct (String.eqb_spec (ps_state s) PairingConsumed) as [E|E].
    + cbn [sessions set_devices]. rewrite Hrow. intros [= ->]. rewrite Hst in E.
      match goal with K : String.eqb _ PairingPending = true |- _ => rewrite E in K; done end.
    + rewrite Hn. destruct (terminal s) eqn:Ht; simpl.
      * rewrite Hrow. intros [= ->]. unfold terminal in Ht. rewrite Hst in Ht.
        match goal with K : String.eqb _ PairingPending = true |- _ => apply String.eqb_eq in K; by rewrite K in Ht end.
      * rewrite lookup_alter_eq, Hrow. intros [= <-].
        match goal with K : String.eqb _ PairingPending = true |- _ => done end.
  - intros ->. cbn -[update_where]. intros k d. rewrite update_where_lookup.
    destruct (devices (network db) !! k) as [d0|]; [|done]. simpl. intros [= <-].
    destruct (bool_decide_reflect (dr_session d0 = Some id)) as [E|E]; simpl; [|done].
    unfold active. destruct (bool_decide_reflect (dr_revoked_at d0 = None)) as [E'|E']; simpl; [done|done].
Qed.

(** ** The settings *)

Definition settings_ok (s : NetworkSettings) : Prop :=
  isValidHostName (ns_HostName s) = true /\ 1 <= ns_RememberDeviceDays s <= 90.

Definition keys_allowed (m : list (string * raw_message)) : bool :=
  forallb (fun kv => bool_decide (refused_key kv.1 = None)) m.

Lemma check_keys_run m db :
  exists msg, check_keys m db =
    (if keys_allowed m then Ok tt else Err (HTTPError InvalidInput msg), db).
Proof.
  induction m as [|[k v] m IH]; simpl; [by exists ""|].
  destruct (refused_key k) as [msg|]; [by exists msg|exact IH].
Qed.

Lemma keys_allowed_perm m m' : m ≡ₚ m' -> keys_allowed m = keys_allowed m'.
Proof.
  unfold keys_allowed. induction 1 as [|x l l' _ IH|x y l|l1 l2 l3 _ IH1 _ IH2]; simpl; [done|by rewrite IH| |].
  - by rewrite !andb_assoc, (andb_comm (bool_decide _)).
  - by rewrite IH1.
Qed.

Lemma raw_value_perm key (m m' : list (string * raw_message)) :
  NoDup m.*1 -> m ≡ₚ m' -> raw_value key m = raw_value key m'.
Proof.
  intros Hd E. revert Hd. unfold raw_value.
  induction E as [|[k v] l l' E IH|[k v] [k' v'] l|l1 l2 l3 E1 IH1 E2 IH2]; intros Hd; [done|..].
  - simpl. apply NoDup_cons in Hd as [_ Hd]. destruct (String.eqb k key); [done|by apply IH].
  - simpl. destruct (String.eqb_spec k key) as [->|], (String.eqb_spec k' key) as [->|]; try done.
    apply NoDup_cons in Hd as [Hd _]. simpl in Hd. set_solver.
  - rewrite IH1 by done. apply IH2. by rewrite <- E1.
Qed.

Definition patched_host (m : list (string * raw_message)) (s : NetworkSettings) : option NetworkSettings :=
  match raw_value "hostName" m with
  | None => Some s
  | Some v => match raw_string v with
              | Some h => if isValidHostName h then Some (set_host_name h s) else None
              | None => None
              end
  end.
Definition patched_days (m : list (string * raw_message)) (s : NetworkSettings) : option NetworkSettings :=
  match raw_value "rememberDeviceDays" m with
  | None => Some s
  | Some v => match raw_int v with
              | Some n => if (n <? 1) || (90 <? n) then None else Some (set_remember_days n s)
              | None => None
              end
  end.

Lemma patch_host_name_run m s db :
  exists e, patch_host_name m s db = (match patched_host m s with Some s' => Ok s' | None => Err e end, db).
Proof.
  unfold patch_host_name, patched_host, bad_request, throw. eexists.
  destruct (raw_value _ m) as [v|]; [|done]. destruct (raw_string v) as [h|]; [|reflexivity].
  by destruct (isValidHostName h).
Qed.
Lemma patch_remember_days_run m s db :
  exists e, patch_remember_days m s db = (match patched_days m s with Some s' => Ok s' | None => Err e end, db).
Proof.
  unfold patch_remember_days, patched_days, bad_request, throw. eexists.
  destruct (raw_value _ m) as [v|]; [|done]. destruct (raw_int v) as [n|]; [|reflexivity].
  by destruct (_ || _).
Qed.

Lemma patched_ok m s s1 s2 :
  settings_ok s -> patched_host m s = Some s1 -> patched_days m s1 = Some s2 -> settings_ok s2.
Proof.
  unfold patched_host, patched_days, settings_ok. intros [Hh Hd] Hs1 Hs2.
  assert (isValidHostName (ns_HostName s1) = true /\ 1 <= ns_RememberDeviceDays s1 <= 90) as [Hh1 Hd1].
  { destruct (raw_value "hostName" m) as [v|]; [|by injection Hs1 as <-]. destruct (raw_string v) as [h|]; [|done].
    destruct (isValidHostName h) eqn:E; [|done]. by injection Hs1 as <-. }
  destruct (raw_value "rememberDeviceDays" m) as [v|]; [|by injection Hs2 as <-].
  destruct (raw_int v) as [n|]; [|done]. destruct (_ || _) eqn:E; [done|]. injection Hs2 as <-.
  bool_to_prop. simpl. split; [done|]. lia.
Qed.

Lemma current_settings_run fault now db :
  exists r, current_settings fault now db = (r, db) /\
    forall s, r = Ok s -> s = default (defaultNetworkSettings now) (network_settings db).
Proof.
  unfold current_settings. unfold mbind, stM_bind, attempt.
  rewrite (pure_run (GetNetworkSettings fault) db) by apply query_one_pure.
  destruct (GetNetworkSettings fault db) as [[s|e|] db'] eqn:E; simpl.
  - eexists. split; [done|]. intros ? [= <-]. apply query_one_ok in E as (_ & -> & _). done.
  - revert E. unfold GetNetworkSettings, query_one, mbind, stM_bind, exec. destruct fault as [pe|].
    + intros [= <- <-]. case_bool_decide as Hc; [|by eexists].
      eexists. split; [done|]. intros ? [= <-]. unfold pg_err, TranslateError in Hc.
      revert Hc. repeat case_match; try done.
    + simpl. destruct (network_settings db); [done|]. intros [= <- <-]. simpl.
      eexists. split; [done|]. by intros ? [= <-].
  - eexists. split; [done|]. done.
Qed.

Definition admits_update (user : option AuthenticatedUser) (r : head) : bool :=
  match user with Some u => is_admin u && checkJSONContentType r | None => false end.

(** The settings an update ends in, when it succeeds. *)
Definition accepted (fault : nat -> option pg_error) (now : Time) (user : option AuthenticatedUser)
    (r : head) (m : list (string * raw_message)) (db : auth_db) : option NetworkSettings :=
  if admits_update user r && keys_allowed m then
    match (current_settings (fault 0%nat) now db).1 with
    | Ok s0 =>
        match patched_host m s0 with
        | Some s1 =>
            match patched_days m s1, fault 1%nat with
            | Some s2, None =>
                if (1 <=? ns_RememberDeviceDays s2) && (ns_RememberDeviceDays s2 <=? 90)
                then Some (set_settings_updated now s2) else None
            | _, _ => None
            end
        | None => None
        end
    | _ => None
    end
  else None.

Lemma Update_run fault now user r m db :
  exists res, UpdateNetworkSettingsHandler fault now user r (Some m) db =
    (res, match accepted fault now user r m db with
          | Some s => set_network_settings (Some s) db
          | None => db
          end) /\
    match accepted fault now user r m db with
    | Some s => res = Ok s
    | None => is_ok res = false
    end.
Proof.
  unfold UpdateNetworkSettingsHandler, accepted, admits_update. unfold mbind at 1, stM_bind.
  rewrite require_admin_run. destruct user as [u|]; [|by eexists]. destruct (is_admin u); [|by eexists].
  unfold mbind at 1, stM_bind, require_json. destruct (checkJSONContentType r); [|by eexists].
  cbn [negb andb]. unfold mret at 1, stM_ret. unfold mbind at 1, stM_bind. unfold mret at 1, stM_ret.
  unfold mbind at 1, stM_bind. destruct (check_keys_run m db) as [msg ->].
  destruct (keys_allowed m); [|by eexists]. unfold mbind at 1, stM_bind.
  destruct (current_settings_run (fault 0%nat) now db) as (c & -> & _). cbn [fst].
  destruct c as [s0|e|]; [|by eexists..]. unfold mbind at 1, stM_bind.
  destruct (patch_host_name_run m s0 db) as [e ->]. destruct (patched_host m s0) as [s1|]; [|by eexists].
  unfold mbind at 1, stM_bind. destruct (patch_remember_days_run m s1 db) as [e' ->].
  destruct (patched_days m s1) as [s2|]; [|by eexists]. cbv zeta.
  unfold mbind at 1, stM_bind. rewrite or_fail_run. unfold UpsertNetworkSettings, exec.
  destruct (fault 1%nat); [by eexists|]. cbn [ns_RememberDeviceDays set_settings_updated].
  destruct (_ && _); by eexists.
Qed.

(** What an update of the network settings does.  Whichever order the
    runtime walks over the keys of the body in, the update succeeds or not
    alike and stores the same; refused, it stores nothing.  Successful, it
    was an administrator's, it named no key but the two it may change, it
    stores what it answers, and a setting it does not name keeps its value.
    Settings that were valid stay valid: a host name of the DNS label syntax
    and between one and ninety days. *)
Theorem network_settings_update fault now user r m m' db :
  NoDup m.*1 -> m ≡ₚ m' -> (forall s, network_settings db = Some s -> settings_ok s) ->
  let run l := UpdateNetworkSettingsHandler fault now user r (Some l) db in
  let before := default (defaultNetworkSettings now) (network_settings db) in
  is_ok (run m').1 = is_ok (run m).1 /\ (run m').2 = (run m).2 /\
  (forall s, network_settings (run m).2 = Some s -> settings_ok s) /\
  (is_ok (run m).1 = false -> (run m).2 = db) /\
  (forall s, (run m).1 = Ok s ->
     (exists u, user = Some u /\ is_admin u = true) /\
     (forall kv, kv ∈ m -> kv.1 = "hostName" \/ kv.1 = "rememberDeviceDays") /\
     network_settings (run m).2 = Some s /\ ns_UpdatedAt s = now /\
     (raw_value "hostName" m = None -> ns_HostName s = ns_HostName before) /\
     (raw_value "rememberDeviceDays" m = None -> ns_RememberDeviceDays s = ns_RememberDeviceDays before)).
Proof.
  intros Hd Hp Hv run before.
  destruct (Update_run fault now user r m db) as (res & Hrun & Hres).
  destruct (Update_run fault now user r m' db) as (res' & Hrun' & Hres').
  assert (accepted fault now user r m' db = accepted fault now user r m db) as E.
  { unfold accepted, patched_host, patched_days. rewrite <- (keys_allowed_perm m m') by done.
    by rewrite <- !(raw_value_perm _ m m') by done. }
  rewrite E in Hrun', Hres'. fold (run m) in Hrun. fold (run m') in Hrun'. rewrite Hrun, Hrun'. cbn [fst snd].
  destruct (accepted fault now user r m db) as [s|] eqn:Ha.
  2: { rewrite Hres, Hres'. conjuncts. intros s ->. done. }
  subst res res'. revert Ha. unfold accepted.
  destruct (admits_update user r) eqn:Hu; [|done]. destruct (keys_allowed m) eqn:Hk; [|done]. cbn [andb].
  destruct (current_settings_run (fault 0%nat) now db) as (c & -> & Hc). cbn [fst].
  destruct c as [s0|e|]; [|done..]. specialize (Hc s0 eq_refl). fold before in Hc.
  destruct (patched_host m s0) as [s1|] eqn:H1'; [|done].
  destruct (patched_days m s1) as [s2|] eqn:H2'; [|done]. destruct (fault 1%nat); [done|].
  destruct ((1 <=? ns_RememberDeviceDays s2) && _); [|done]. intros [= <-].
  assert (settings_ok s0) as Hs0.
  { subst s0 before. destruct (network_settings db); [by apply Hv|]. split; [by vm_compute|simpl; lia]. }
  pose proof (patched_ok _ _ _ _ Hs0 H1' H2') as Hs2. conjuncts.
  - intros ? [= <-]. exact Hs2.
  - intros ? [= <-]. conjuncts.
    + unfold admits_update in Hu. destruct user as [u|]; [|done]. apply andb_true_iff in Hu as [Hu _]. by exists u.
    + intros kv Hin%list_elem_of_In. unfold keys_allowed in Hk. rewrite forallb_forall in Hk.
      apply Hk in Hin. apply bool_decide_eq_true in Hin. unfold refused_key, one_of_keys in Hin. simpl in Hin.
      destruct (String.eqb_spec kv.1 "hostName"); [by left|].
      destruct (String.eqb_spec kv.1 "rememberDeviceDays"); [by right|]. simpl in Hin.
      repeat (destruct (String.eqb _ _); [done|]; simpl in Hin). done.
    + intros Hn. unfold patched_host in H1'. rewrite Hn in H1'. injection H1' as <-.
      unfold patched_days in H2'. subst before. rewrite <- Hc. simpl.
      repeat case_match; simplify_eq; done.
    + intros Hn. unfold patched_days in H2'. rewrite Hn in H2'. injection H2' as <-.
      unfold patched_host in H1'. subst before. rewrite <- Hc. simpl. repeat case_match; simplify_eq; done.
Qed.

(** ** Pairing by code *)

Lemma parseDeviceClass_valid ua : class_valid (parseDeviceClass ua) = true.
Proof. unfold parseDeviceClass. by repeat case_match. Qed.

Lemma default_label_idemp label cls :
  class_valid cls = true -> default_label (default_label label cls) cls = default_label label cls.
Proof.
  intros Hc. unfold default_label at 2 3. destruct (String.eqb_spec (TrimSpace label) "") as [E|E].
  - unfold class_valid in Hc. simpl in Hc. rewrite !orb_true_iff, !String.eqb_eq in Hc.
    destruct Hc as [->|[->|[->|[->|[->|?]]]]]; done.
  - unfold default_label. rewrite TrimSpace_idemp. by destruct (String.eqb_spec (TrimSpace label) "").
Qed.

(** The row of a new session. *)
Definition new_row (n : string) (s : PairingSession) (addr : option string) : session_row :=
  mkSessionRow (ps_initiatedBy s) (n +:+ Seal n (Normalized (ps_code s))) (CodeIndex (ps_code s))
    (ps_state s) (ps_createdAt s) (ps_expiresAt s) (ps_deviceID s) addr.

(** What the pairing tables have to be like for a session to be new. *)
Record fresh_session (id : PairingSessionID) (c : PairingCode) (n : pairing_db) : Prop := {
  fs_id : sessions n !! id = None;
  fs_index k r : sessions n !! k = Some r -> sr_index r <> CodeIndex c;
  fs_devices k d : devices n !! k = Some d -> dr_session d <> Some id;
}.

Lemma SaveWithInitiatorIP_new server n s ip addr db :
  (ip = "" /\ addr = None \/ ip <> "" /\ exists a, inet server ip = Some a /\ addr = Some a) ->
  fresh_session (ps_id s) (ps_code s) db -> state_valid (ps_state s) = true ->
  user_exists server (ps_initiatedBy s) = true ->
  SaveWithInitiatorIP server (Ok n) None s ip db =
  (Ok tt, set_sessions (<[ps_id s := new_row n s addr]> (sessions db)) db).
Proof.
  intros Hip [Hid Hidx _] Hv Hu. unfold SaveWithInitiatorIP, encryptCode. apply exec_ok. split; [done|].
  unfold session_upsert. assert (first_row (fun r => String.eqb (sr_index r) (CodeIndex (ps_code s))) (sessions db) = None) as Hf.
  { apply first_row_None. intros k r Hk. apply String.eqb_neq. by eapply Hidx. }
  cbn [sr_state sr_index sr_initiated_by sr_ciphertext sr_created_at sr_expires_at sr_device_id].
  destruct Hip as [[-> ->]|(Hne & a & Ha & ->)].
  - cbn [String.eqb]. rewrite Hv, Hid. cbn [negb]. by rewrite Hf, Hu.
  - rewrite (proj2 (String.eqb_neq _ _)) by done. rewrite Ha. cbn [fmap option_fmap option_map].
    rewrite Hv, Hid. cbn [negb]. by rewrite Hf, Hu.
Qed.

Lemma InitiatePairing_run cfg c newID n now ip addr u r secret db :
  is_admin u = true -> checkJSONContentType r = true ->
  (sh_secret cfg <> "" -> secret = sh_secret cfg) ->
  blank newID = false -> blank (au_UserID u) = false ->
  (ip = "" /\ addr = None \/ ip <> "" /\ exists a, sh_inet cfg ip = Some a /\ addr = Some a) ->
  fresh_session newID c (network db) -> known_user (au_UserID u) db = true ->
  let s := mkPairingSession newID (au_UserID u) c PairingPending now (now + 5 * Minute) None in
  InitiatePairingHandler cfg (Ok c) newID (Ok n) now None ip (Some u) r (Decoded secret) db =
  (Ok (mkInitiatePairingResponse newID (Display c) (connect_payload cfg (Display c)) (sh_address cfg)
         (now + 5 * Minute)),
   set_network (set_sessions (<[newID := new_row n s addr]> (sessions (network db))) (network db)) db).
Proof.
  intros Ha Hj Hsec Hid Hu Hip Hf Hk s. unfold InitiatePairingHandler. unfold mbind at 1, stM_bind.
  rewrite require_admin_run, Ha. unfold mbind at 1, stM_bind, require_json. rewrite Hj.
  cbn [negb]. unfold mret at 1, stM_ret. unfold mbind at 1, stM_bind, submitted_secret.
  unfold mret at 1, stM_ret. unfold mbind at 1, stM_bind, check_secret.
  assert (negb (String.eqb (sh_secret cfg) "") && negb (ConstantTimeCompare secret (sh_secret cfg) =? 1) = false) as ->.
  { destruct (String.eqb_spec (sh_secret cfg) "") as [E|E]; [done|]. rewrite (Hsec E).
    unfold ConstantTimeCompare. by rewrite String.eqb_refl. }
  unfold mret at 1, stM_ret. unfold mbind at 1, stM_bind. rewrite or_fail_run. cbn [reading].
  unfold reading. cbv beta iota. unfold mbind at 1, stM_bind. rewrite or_fail_run.
  assert (NewPairingSession newID (au_UserID u) c (5 * Minute) now = Ok s) as ->.
  { unfold NewPairingSession. by rewrite Hid, Hu. }
  cbv beta iota. unfold mbind at 1, stM_bind. rewrite or_fail_run, on_network_run. cbv beta.
  rewrite (SaveWithInitiatorIP_new _ n s ip addr) by done. reflexivity.
Qed.

Lemma VerifyPairing_run cfg deviceID grantID nonce now tx faults r text label c db :
  checkJSONContentType r = true -> NewPairingCode text = Ok c ->
  let cls := parseDeviceClass (hd_UserAgent r) in
  let server := mkServer (fun u => known_user u db) (sh_inet cfg) in
  VerifyPairingHandler cfg deviceID grantID nonce now tx faults r
    (Some (mkVerifyPairingRequest text label)) db =
  match VerifyAndConsume server tx faults nonce c deviceID (default_label label cls) cls now (network db) with
  | (Ok s, n) =>
      (match SignGrant (sh_grants cfg) grantID (ps_id s) now with
       | Ok grant => Ok (mkVerifyPairingResponse grant (sh_address cfg) (sh_hostName cfg))
       | Err _ => Err (HTTPError Internal "failed to issue enrolment grant")
       | OutOfFuel => Err Panicked
       end, set_network n db)
  | (Err _, n) => (Err (HTTPError NotFound genericPairingNotFoundMsg), set_network n db)
  | (OutOfFuel, n) => (Err Panicked, set_network n db)
  end.
Proof.
  intros Hj Hc cls server. unfold VerifyPairingHandler. unfold mbind at 1, stM_bind, require_json. rewrite Hj.
  cbn [negb]. unfold mret at 1, stM_ret. unfold mbind at 1, stM_bind. unfold mret at 1, stM_ret.
  unfold mbind at 1, stM_bind. rewrite or_fail_run. unfold reading at 1. cbn [vp_Code vp_Label]. rewrite Hc.
  cbv beta iota zeta. unfold mbind at 1, stM_bind. rewrite or_fail_run, on_network_run. fold cls server.
  cbv beta. destruct (VerifyAndConsume server _ _ _ _ _ _ _ _ (network db)) as [[s|e|] n]; cbn [fst snd]; [|done..].
  unfold mbind at 1, stM_bind. rewrite or_fail_run. unfold reading.
  by destruct (SignGrant (sh_grants cfg) grantID (ps_id s) now).
Qed.

Lemma VerifyAndConsume_none server tx faults nonce c d label cls now db :
  first_row (pending_match (CodeIndex c) now) (sessions db) = None ->
  exists e, VerifyAndConsume server tx faults nonce c d label cls now db = (Err e, db).
Proof.
  intros Hn. unfold VerifyAndConsume. destruct (100 <? _); [by eexists|].
  unfold InTx. destruct (begin_error tx); [by eexists|].
  unfold mbind at 1, stM_bind, FindPendingByCodeIndexForUpdate, query_session, reading. cbn [negb].
  destruct (on_find faults); [by eexists|]. rewrite Hn. by eexists.
Qed.

(** C28: a device pairs by the code the administrator reads out.  An
    administrator starts to pair and the answer shows a code; whoever sends
    that code within five minutes, in whatever letter case and with or
    without the hyphen, is answered an enrolment grant, which verifies for
    ten minutes as that of the session started, and enrols one device without
    an owner; whoever sends the code after that, whatever faults the attempt
    meets, is answered that it is not recognised, and changes nothing. *)
Theorem pairing_by_code cfg c newID n now ip addr u r secret db
    deviceID grantID n' now' r' text label :
  is_admin u = true -> checkJSONContentType r = true ->
  (sh_secret cfg <> "" -> secret = sh_secret cfg) ->
  blank newID = false -> blank (au_UserID u) = false ->
  (ip = "" /\ addr = None \/ ip <> "" /\ exists a, sh_inet cfg ip = Some a /\ addr = Some a) ->
  fresh_session newID c (network db) -> known_user (au_UserID u) db = true ->
  code_ok (code_b c) = true -> String.length n = NonceSize -> forallb valid_utf8 [newID; grantID; g_issuer (sh_grants cfg)] = true ->
  checkJSONContentType r' = true -> NewPairingCode text = Ok c -> now' < now + 5 * Minute ->
  blank deviceID = false -> devices (network db) !! deviceID = None -> grantID <> "" ->
  rune_count (default_label label (parseDeviceClass (hd_UserAgent r'))) <= 100 ->
  exists resp db1 grant db2,
    InitiatePairingHandler cfg (Ok c) newID (Ok n) now None ip (Some u) r (Decoded secret) db = (Ok resp, db1) /\
    NewPairingCode (ip_Code resp) = Ok c /\ NewPairingCode (ToLower (ip_Code resp)) = Ok c /\
    VerifyPairingHandler cfg deviceID grantID (Ok n') now' tx_ok no_faults r'
      (Some (mkVerifyPairingRequest text label)) db1 =
      (Ok (mkVerifyPairingResponse grant (sh_address cfg) (sh_hostName cfg)), db2) /\
    (forall later, VerifyGrant (sh_grants cfg) grant later =
       if Unix (now' + 10 * Minute) <=? Unix later then Err (New "auth: enrolment grant expired")
       else Ok (mkEnrolmentClaims TokenTypeEnrolment newID grantID (Unix now') (Unix (now' + 10 * Minute))
                  (g_issuer (sh_grants cfg)))) /\
    devices (network db2) = <[deviceID := provisional_row label (parseDeviceClass (hd_UserAgent r'))
                                newID now']> (devices (network db)) /\
    (forall deviceID' grantID' nonce later tx faults label' r'',
       checkJSONContentType r'' = true ->
       VerifyPairingHandler cfg deviceID' grantID' nonce later tx faults r''
         (Some (mkVerifyPairingRequest text label')) db2 =
       (Err (HTTPError NotFound genericPairingNotFoundMsg), db2)).
Proof.
  intros Ha Hj Hsec Hid Hu Hip Hf Hk Hc Hn Hutf Hj' Htext Hlt Hd Hfresh Hg Hlab.
  pose proof (InitiatePairing_run cfg c newID n now ip addr u r secret db Ha Hj Hsec Hid Hu Hip Hf Hk) as Hinit.
  cbv zeta in Hinit. set (s := mkPairingSession newID (au_UserID u) c PairingPending now (now + 5 * Minute) None) in *.
  set (row := new_row n s addr) in *.
  set (n1 := set_sessions (<[newID := row]> (sessions (network db))) (network db)) in *.
  destruct (new_session_rehydrates newID (au_UserID u) c (5 * Minute) now s) as (_ & _ & Hre).
  { unfold NewPairingSession. by rewrite Hid, Hu. }
  { by apply code_ok_Forall in Hc as [Hl _]. }
  assert (scanSession (Some (newID, row)) = Ok s) as Hscan by (by apply (scan_row_of n)).
  assert (forall k r0, sessions n1 !! k = Some r0 -> sr_index r0 = CodeIndex c -> k = newID) as Honly.
  { intros k r0 Hk0 E. destruct (decide (k = newID)) as [|Hne]; [done|]. cbn in Hk0.
    rewrite lookup_insert_ne in Hk0 by done. by apply (fs_index _ _ _ Hf) in Hk0. }
  pose proof (parseDeviceClass_valid (hd_UserAgent r')) as Hcls.
  set (cls := parseDeviceClass (hd_UserAgent r')) in *.
  pose proof (VerifyAndConsume_run (mkServer (fun u => known_user u (set_network n1 db)) (sh_inet cfg)) n' s row deviceID
    (default_label label cls) cls now' n1) as Hver.
  rewrite (default_label_idemp label cls Hcls) in Hver. specialize (Hver Hre Hc).
  assert (sessions n1 !! newID = Some row) as Hrow by apply lookup_insert_eq.
  specialize (Hver Hrow). ospecialize (Hver _ Hscan).
  { apply first_row_unique; [done| |].
    - unfold pending_match. simpl. rewrite String.eqb_refl. simpl. by apply Z.ltb_lt.
    - intros k r0 Hk0 Hm. unfold pending_match in Hm. bool_to_prop.
      eapply Honly; [done|]. by apply String.eqb_eq. }
  specialize (Hver (fs_devices _ _ _ Hf) eq_refl Hlt Hd Hfresh Hcls Hlab).
  pose proof (VerifyPairing_run cfg deviceID grantID (Ok n') now' tx_ok no_faults r' text label c
    (set_network n1 db) Hj' Htext) as Hrun. cbv zeta in Hrun. fold cls in Hrun. cbn [network set_network] in Hrun.
  change (ps_code s) with c in Hver. rewrite Hver in Hrun. cbv beta iota in Hrun.
  change (ps_id (set_ps_state PairingConsumed (set_ps_deviceID (Some deviceID) s))) with newID in Hrun.
  assert (newID <> "") as Hne by (by intros ->).
  destruct (SignGrant (sh_grants cfg) grantID newID now') as [grant|e|] eqn:Hsign;
    [|revert Hsign; unfold SignGrant; destruct (String.eqb_spec newID ""); done..].
  simpl in Hutf. bool_to_prop.
  destruct (pairing_code_roundtrip text c Htext) as (_ & _ & Hdisp & Hlow & _).
  eexists _, _, grant, _. split; [exact Hinit|]. split; [exact Hdisp|]. split; [exact Hlow|].
  split; [exact Hrun|]. split; [|split].
  - intros later. by apply VerifyGrant_own.
  - cbn [network set_network devices]. unfold provisional_row. by rewrite default_label_idemp.
  - intros d2 g2 nonce later tx faults label' r'' Hj''.
    rewrite (VerifyPairing_run _ _ _ _ _ _ _ _ _ _ c) by done. cbv zeta. cbn [network set_network].
    edestruct VerifyAndConsume_none as [e ->]; [|done].
    apply first_row_None. cbn [sessions]. intros k r0 Hk0. destruct (decide (k = newID)) as [->|Hk'].
    + rewrite lookup_insert_eq in Hk0. injection Hk0 as <-. unfold pending_match. simpl. by rewrite andb_false_r.
    + rewrite lookup_insert_ne in Hk0 by done. unfold pending_match.
      destruct (String.eqb_spec (sr_index r0) (CodeIndex c)) as [E|]; [|done]. by apply (Honly k) in E.
Qed.
End network_safety.

(** ** Concrete runs *)

Definition demo_admin : AuthenticatedUser := mkAuthenticatedUser "admin" "admin" RoleAdmin [].
Definition demo_sharing : sharing :=
  mkSharing "" "192.168.1.4:8080" "" "alexandryn.local" (mkGrantSigner "k" "alx") (fun s => Some s).
Definition demo_head : head := mkHead 20 "application/json" "Mozilla/5.0 (iPhone) Mobile".
Definition sharing_db (n : pairing_db) : auth_db :=
  mkAuthDb {["admin" := mkUser "admin" "admin" "a@example.org" RoleAdmin 0 0]} ∅ ∅ ∅ ∅ ∅ ∅ ∅ None n.

Lemma pairing_sessions_private_witness :
  (@PairingQRHandler ascii_tables plain_crypto demo_sharing None (Some demo_admin) "s2" (sharing_db demo_db)).1 =
  Err (HTTPError NotFound "pairing session not found").
Proof.
  pose (n := mkPairingDb {["s1" := demo_row; "s2" := mkSessionRow "other" "nnABCD2346" "ABCD2346" PairingPending 0
    (2 * Minute) None None]} ∅ ∅ ∅).
  destruct (@pairing_sessions_private ascii_tables plain_crypto demo_sharing (Ok "nn") (fun _ => None) 5
    (Some demo_admin) "s2" (sharing_db demo_db) (sharing_db n)) as [E _].
  - intros u [= <-]. apply map_eq. intros k. apply option_eq. intros r. rewrite !own_rows_lookup.
    unfold n, demo_db. cbn [network sharing_db sessions].
    destruct (decide (k = "s1")) as [->|Hk]; [by rewrite lookup_insert_eq, lookup_singleton_eq|].
    rewrite lookup_insert_ne, lookup_singleton_ne by done.
    destruct (decide (k = "s2")) as [->|Hk2].
    + rewrite lookup_singleton_eq. split; [by intros [[=] _]|]. by intros [[= <-] ?].
    + rewrite lookup_singleton_ne by done. done.
  - rewrite E. vm_compute. reflexivity.
Defined.

Lemma DeletePairing_outcome_witness :
  (@DeletePairingHandler ascii_tables plain_crypto demo_sharing (Ok "nn") (fun _ => None) 5 (Some demo_admin) "s1"
    (sharing_db demo_db)).1 = Ok tt.
Proof.
  pose proof (@DeletePairing_outcome ascii_tables plain_crypto demo_sharing (Ok "nn") (fun _ => None) 5 demo_admin
    "s1" (sharing_db demo_db) _ _ eq_refl eq_refl (surjective_pairing _)) as Ho.
  destruct (owned_session demo_admin "s1" (network (sharing_db demo_db))) as [s|] eqn:E;
    [by destruct Ho|vm_compute in E; discriminate].
Defined.

Lemma network_settings_update_witness :
  is_ok (@UpdateNetworkSettingsHandler ascii_tables (fun _ => None) 5 (Some demo_admin) demo_head
    (Some [("rememberDeviceDays", RawInt 7); ("hostName", RawString "shelf.local")]) (sharing_db demo_db)).1 = true.
Proof.
  edestruct (@network_settings_update ascii_tables (fun _ => None) 5 (Some demo_admin) demo_head
    [("hostName", RawString "shelf.local"); ("rememberDeviceDays", RawInt 7)]
    [("rememberDeviceDays", RawInt 7); ("hostName", RawString "shelf.local")] (sharing_db demo_db)) as [E _].
  - repeat constructor; set_solver.
  - constructor.
  - intros s [=].
  - cbv zeta in E. rewrite E. vm_compute. reflexivity.
Defined.

Lemma pairing_by_code_witness :
  exists resp db1, @InitiatePairingHandler ascii_tables plain_crypto demo_sharing (Ok demo_code) "s1" (Ok "nn") 0 None
    "10.0.0.7" (Some demo_admin) demo_head (Decoded "") (sharing_db empty_db) = (Ok resp, db1) /\
    NewPairingCode (H := ascii_tables) (ip_Code resp) = Ok demo_code.
Proof.
  destruct (@pairing_by_code ascii_tables plain_crypto demo_primitives demo_sharing demo_code "s1" "nn" 0 "10.0.0.7"
    (Some "10.0.0.7") demo_admin demo_head "" (sharing_db empty_db) "d1" "g1" "mm" 60 demo_head "abcd-2345" "Phone") as (resp & db1 & _ & _ & Hi & Hc & _); try reflexivity; try done.
  - right. split; [done|]. by exists "10.0.0.7".
  - by exists resp, db1.
Defined.
