(* ===== verification/Sources.v ===== *)
(** * Source adapters: what they share (src/internal/adapters/sources:
      sources.go, config.go, credential.go, cursor.go, concurrency.go,
      dial.go, origin.go)

    The vocabulary of providers, the checks of their configuration, the
    credential, the signed cursor, the cap on outbound requests, the addresses
    that may be dialled and the origins that may be fetched. *)

From S2P Require Import Prelude GoStrings Errors Catalog Encoding Tokens Net.

Local Open Scope string_scope.
Local Open Scope list_scope.
Local Open Scope Z_scope.

(** ** The standard library

    [net/url]: what the code reads of a parsed URL, the resolution of a
    reference and the escaping of a query. *)
Record url := mkUrl {
  u_Scheme : string;
  u_Host : string;
  u_Hostname : string;
  u_Port : string;
  u_Path : string;
  (** The user and the password of the authority, if it names one. *)
  u_User : option (string * string);
}.

Class Urls := {
  url_Parse : string -> option url;
  (** [base.ResolveReference(ref).String()], of two texts that parse. *)
  url_Resolve : string -> string -> string;
  url_QueryEscape : string -> string;
}.

(** [strings.EqualFold] compares runes up to simple case folding; the table
    beyond ASCII is a parameter. *)
Class FoldTable := fold_other : Z -> Z.

Definition fold_rune `{FoldTable} (r : Z) : Z :=
  if between 65 r 90 then r + 32 else if r <? 128 then r else fold_other r.
Definition EqualFold `{FoldTable} (s t : string) : bool :=
  bool_decide (fold_rune <$> runes s = fold_rune <$> runes t).

(** ** The vocabulary (sources.go) *)

Abbreviation Kind := string (only parsing).
Definition KindLocalFolder : Kind := "local-folder".
Definition KindOPDS : Kind := "opds".
Definition ValidKind (s : string) : bool := String.eqb s KindLocalFolder || String.eqb s KindOPDS.

Definition HealthUnknown : string := "unknown".
Definition HealthReachable : string := "reachable".
Definition HealthUnreachable : string := "unreachable".

Definition DetailTimeout : string := "timeout".
Definition DetailConnectionRefused : string := "connection-refused".
Definition DetailHTTP4xx : string := "http-4xx".
Definition DetailHTTP5xx : string := "http-5xx".
Definition DetailHTTP3xxUnsupported : string := "http-3xx-unsupported".
Definition DetailUnparseable : string := "unparseable-response".
Definition DetailPathNotFound : string := "path-not-found".
Definition DetailPathNotReadable : string := "path-not-readable".
Definition DetailAuthRejected : string := "auth-rejected".

Record SourceCandidate := mkSourceCandidate {
  ca_Title : string;
  ca_Author : option string;
  ca_FileReference : FileReference;
  ca_CoverURL : option string;
}.

Record CandidatePage := mkCandidatePage {
  pg_Items : list SourceCandidate;
  pg_NextCursor : option string;
}.

Record ProbeResult := mkProbeResult {
  pr_Status : string;
  pr_Detail : string;
  pr_Capabilities : SourceCapabilities;
  pr_SearchLinkURL : string;
}.

Definition no_capabilities : SourceCapabilities := mkSourceCapabilities false false false.
Definition unreachable (detail : string) : ProbeResult :=
  mkProbeResult HealthUnreachable detail no_capabilities "".

Definition DefaultLimit : Z := 20.
Definition MaxLimit : Z := 50.
Definition MaxQueryLen : Z := 200.
Definition ClampLimit (limit : Z) : Z :=
  if (limit <? 1) || (MaxLimit <? limit) then DefaultLimit else limit.

(** ** The configuration (config.go) *)

Definition maxPathLen : Z := 4096.
Definition maxBaseURLLen : Z := 2048.

Definition isASCIILetter (b : Z) : bool := between 97 b 122 || between 65 b 90.

(** [\ ] is 92, [/] is 47, [:] is 58. *)
Definition isAbsolutePath (p : string) : bool :=
  match bytes p with
  | 47 :: _ => true
  | 92 :: 92 :: _ => true
  | c :: 58 :: s :: _ => isASCIILetter c && ((s =? 92) || (s =? 47))
  | _ => false
  end.

Definition ValidateLocalFolderPath (basePath : string) : Result unit :=
  if String.eqb (TrimSpace basePath) "" then fails InvalidInput "config.basePath must not be empty"
  else if maxPathLen <? len basePath then fails InvalidInput "config.basePath is too long"
  else if existsb (fun r => (r =? 0) || ((r <? 32) && negb (r =? 9))) (runes basePath) then
    fails InvalidInput "config.basePath contains a control character"
  else if negb (isAbsolutePath basePath) then
    fails InvalidInput "config.basePath must be an absolute path"
  else Ok tt.

Definition ValidateOPDSBaseURL `{Urls} (baseURL : string) : Result unit :=
  if String.eqb (TrimSpace baseURL) "" then fails InvalidInput "config.baseUrl must not be empty"
  else if maxBaseURLLen <? len baseURL then fails InvalidInput "config.baseUrl is too long"
  else match url_Parse baseURL with
  | None => fails InvalidInput "config.baseUrl is not a valid URL"
  | Some u =>
      if negb (String.eqb (u_Scheme u) "http") && negb (String.eqb (u_Scheme u) "https") then
        fails InvalidInput "config.baseUrl must be an http or https URL"
      else if String.eqb (u_Host u) "" then fails InvalidInput "config.baseUrl must include a host"
      else Ok tt
  end.

Definition IsHTTPS `{Urls} (baseURL : string) : bool :=
  match url_Parse baseURL with Some u => String.eqb (u_Scheme u) "https" | None => false end.

(** ** The credential (credential.go) *)

Definition credentialPlaceholder : string := "[redacted]".
Definition maxCredentialUsernameLen : Z := 255.
Definition maxCredentialPasswordLen : Z := 1024.

Record Credential := mkCredential { cr_username : string; cr_password : string }.

#[export] Instance Credential_eq_dec : EqDecision Credential.
Proof. solve_decision. Defined.

Definition hasControlChar (s : string) : bool := existsb IsControl (runes s).

Definition NewCredential (username password : string) : Result Credential :=
  if String.eqb (TrimSpace username) "" then fails InvalidInput "credential username must not be empty"
  else if String.eqb (TrimSpace password) "" then fails InvalidInput "credential password must not be empty"
  else if maxCredentialUsernameLen <? rune_count username then
    fails InvalidInput "credential username is too long"
  else if maxCredentialPasswordLen <? rune_count password then
    fails InvalidInput "credential password is too long"
  else if hasControlChar username || hasControlChar password then
    fails InvalidInput "credential contains a control character"
  else Ok (mkCredential username password).

Definition zero_credential : Credential := mkCredential "" "".
Definition IsZero (c : Credential) : bool := String.eqb (cr_username c) "" && String.eqb (cr_password c) "".
Definition Reveal (c : Credential) : string * string := (cr_username c, cr_password c).
Definition CredentialString (c : Credential) : string := credentialPlaceholder.
Definition CredentialJSON (c : Credential) : string := dquote +:+ credentialPlaceholder +:+ dquote.

(** ** The cursor (cursor.go) *)

Record Cursor := mkCursor { cu_SourceID : string; cu_Kind : Kind; cu_Position : string }.

#[export] Instance Cursor_eq_dec : EqDecision Cursor.
Proof. solve_decision. Defined.

Definition cursor_object (c : Cursor) : object :=
  [("s", JString (cu_SourceID c)); ("k", JString (cu_Kind c)); ("p", JString (cu_Position c))].
Definition object_cursor (o : object) : option Cursor :=
  s ← string_field o "s";
  k ← string_field o "k";
  p ← string_field o "p";
  Some (mkCursor s k p).

Definition cursorMACLen : nat := 32.
Definition cursor_invalid {A} : Result A := fails InvalidInput "cursor is invalid".

Section cursors.
Context `{TokenPrimitives}.

Definition EncodeCursor (key : string) (c : Cursor) : string :=
  let payload := json_text (cursor_object c) in
  RawURLEncode (hmacSHA256 key payload +:+ payload).

Definition DecodeCursor (key token wantSourceID : string) : Result Cursor :=
  match RawURLDecode token with
  | None => cursor_invalid
  | Some raw =>
      if Nat.ltb (String.length raw) (cursorMACLen + 1) then cursor_invalid
      else
        let gotMAC := String.substring 0 cursorMACLen raw in
        let payload := String.substring cursorMACLen (String.length raw - cursorMACLen) raw in
        if negb (String.eqb gotMAC (hmacSHA256 key payload)) then cursor_invalid
        else match json_parse payload ≫= object_cursor with
        | None => cursor_invalid
        | Some c =>
            if negb (String.eqb (cu_SourceID c) wantSourceID) then cursor_invalid
            else if negb (String.eqb (cu_Kind c) KindLocalFolder) && negb (String.eqb (cu_Kind c) KindOPDS)
            then cursor_invalid else Ok c
        end
  end.
End cursors.

(** ** Origins (origin.go) *)

Section origins.
Context `{Urls} `{FoldTable}.

Record originParts := mkOriginParts { or_scheme : string; or_host : string; or_port : string }.

Definition parseAbsoluteHTTP (raw : string) : option originParts :=
  match url_Parse (TrimSpace raw) with
  | None => None
  | Some u =>
      if negb (String.eqb (u_Scheme u) "http") && negb (String.eqb (u_Scheme u) "https") then None
      else if String.eqb (u_Hostname u) "" then None
      else
        let port := if String.eqb (u_Port u) "" then
                      (if String.eqb (u_Scheme u) "https" then "443" else "80")
                    else u_Port u in
        Some (mkOriginParts (u_Scheme u) (u_Hostname u) port)
  end.

Definition SameOrigin (configured candidate : string) : bool :=
  match parseAbsoluteHTTP configured, parseAbsoluteHTTP candidate with
  | Some c, Some o =>
      String.eqb (or_scheme c) (or_scheme o) && EqualFold (or_host c) (or_host o) &&
      String.eqb (or_port c) (or_port o)
  | _, _ => false
  end.

(** The position of a catalogue cursor, before it is fetched. *)
Definition ForOPDSPosition (baseURL : string) (c : Cursor) : Result string :=
  if negb (String.eqb (cu_Kind c) KindOPDS) then
    Err (New ("cursor kind " +:+ quote (cu_Kind c) +:+ " is not opds"))
  else if String.eqb (cu_Position c) "" then Ok ""
  else if negb (SameOrigin baseURL (cu_Position c)) then
    fails InvalidInput "cursor points off-origin"
  else Ok (cu_Position c).
End origins.

(** ** The cap on outbound requests (concurrency.go) *)

Definition DefaultOutboundLimit : Z := 50.

Record Semaphore := mkSemaphore { slots : Z; held : Z }.

Definition NewSemaphore (n : Z) : Semaphore :=
  mkSemaphore (if n <=? 0 then DefaultOutboundLimit else n) 0.
Definition TryAcquire (s : Semaphore) : bool * Semaphore :=
  if held s <? slots s then (true, mkSemaphore (slots s) (held s + 1)) else (false, s).
Definition Release (s : Semaphore) : Semaphore :=
  if 0 <? held s then mkSemaphore (slots s) (held s - 1) else s.
Definition InFlight (s : Semaphore) : Z := held s.

(** ** Addresses (dial.go)

    A [net.IP] is its bytes, four or sixteen of them; the predicates are those
    of [net]. *)
Definition IP := list Z.

Definition To4 (ip : IP) : option IP :=
  match length ip with
  | 4%nat => Some ip
  | 16%nat => if forallb (Z.eqb 0) (take 10 ip) && bool_decide (take 2 (drop 10 ip) = [255; 255])
              then Some (drop 12 ip) else None
  | _ => None
  end.
Definition byte_at (ip : IP) (i : nat) : Z := default 0 (ip !! i).
Definition is16 (ip : IP) : bool := Nat.eqb (length ip) 16.

Definition IsUnspecified (ip : IP) : bool :=
  match To4 ip with
  | Some v4 => forallb (Z.eqb 0) v4
  | None => is16 ip && forallb (Z.eqb 0) ip
  end.
Definition IsLoopback (ip : IP) : bool :=
  match To4 ip with
  | Some v4 => byte_at v4 0 =? 127
  | None => is16 ip && forallb (Z.eqb 0) (take 15 ip) && (byte_at ip 15 =? 1)
  end.
Definition IsPrivate (ip : IP) : bool :=
  match To4 ip with
  | Some v4 =>
      (byte_at v4 0 =? 10) ||
      ((byte_at v4 0 =? 172) && (Z.land (byte_at v4 1) 240 =? 16)) ||
      ((byte_at v4 0 =? 192) && (byte_at v4 1 =? 168))
  | None => is16 ip && (Z.land (byte_at ip 0) 254 =? 252)
  end.
Definition IsMulticast (ip : IP) : bool :=
  match To4 ip with
  | Some v4 => Z.land (byte_at v4 0) 240 =? 224
  | None => is16 ip && (byte_at ip 0 =? 255)
  end.
Definition IsInterfaceLocalMulticast (ip : IP) : bool :=
  is16 ip && (byte_at ip 0 =? 255) && (Z.land (byte_at ip 1) 15 =? 1).
Definition IsLinkLocalMulticast (ip : IP) : bool :=
  match To4 ip with
  | Some v4 => (byte_at v4 0 =? 224) && (byte_at v4 1 =? 0) && (byte_at v4 2 =? 0)
  | None => is16 ip && (byte_at ip 0 =? 255) && (Z.land (byte_at ip 1) 15 =? 2)
  end.
Definition IsLinkLocalUnicast (ip : IP) : bool :=
  match To4 ip with
  | Some v4 => (byte_at v4 0 =? 169) && (byte_at v4 1 =? 254)
  | None => is16 ip && (byte_at ip 0 =? 254) && (Z.land (byte_at ip 1) 192 =? 128)
  end.

(** [cgnatPrefix.Contains(addr.Unmap())]. *)
Definition cgnat (ip : IP) : bool :=
  match To4 ip with
  | Some v4 => (byte_at v4 0 =? 100) && (Z.land (byte_at v4 1) 192 =? 64)
  | None => false
  end.

(** [None] is the nil address. *)
Definition IsBlockedDialIP (ip : option IP) (allowPrivate : bool) : bool :=
  match ip with
  | None => true
  | Some ip =>
      if IsUnspecified ip || IsLinkLocalUnicast ip || IsLinkLocalMulticast ip || IsMulticast ip ||
         IsInterfaceLocalMulticast ip then true
      else if cgnat ip then true
      else if negb allowPrivate && (IsLoopback ip || IsPrivate ip) then true
      else false
  end.

(** [net.ParseIP]. *)
Class Addresses := ParseIP : string -> option IP.

Section dial.
Context `{Urls} `{Addresses}.

Definition RejectBlockedLiteralHost (baseURL : string) (allowPrivate : bool) : Result unit :=
  match url_Parse baseURL with
  | None => Ok tt
  | Some u =>
      match ParseIP (u_Hostname u) with
      | None => Ok tt
      | Some ip =>
          if IsBlockedDialIP (Some ip) allowPrivate then
            fails InvalidInput "config.baseUrl points at a non-public address; set SOURCE_ALLOW_PRIVATE_ADDRESSES to allow a source on this machine or your LAN"
          else Ok tt
      end
  end.

Definition BlockedAddressError (addr : string) : error :=
  New ("address " +:+ addr +:+ " is not a permitted source address").

(** The [Control] hook of [GuardedTransport]'s dialer, on the address about to
    be dialled. *)
Definition dial_control (allowPrivate : bool) (address : string) : Result unit :=
  match SplitHostPort address with
  | Err _ | OutOfFuel => Err (BlockedAddressError address)
  | Ok (host, _) =>
      match ParseIP host with
      | None => Err (BlockedAddressError host)
      | Some ip => if IsBlockedDialIP (Some ip) allowPrivate then Err (BlockedAddressError host) else Ok tt
      end
  end.
End dial.
