(* ===== verification/SourceProviders.v ===== *)
(** * Source providers (src/internal/adapters/sources/local and
      src/internal/adapters/sources/opds)

    The local folder over a file system, and the OPDS catalogue over the
    network and the decoders of its feeds.  A provider of a catalogue is a
    computation that records the requests it makes. *)

From S2P Require Import Prelude GoStrings Errors Validate Catalog Postgres Encoding Tokens Paths Sources.

Local Open Scope string_scope.
Local Open Scope list_scope.
Local Open Scope Z_scope.

(** ** Paths ([path/filepath] on a Unix system) *)

(** [Join] of a cleaned directory and a plain name. *)
Definition Join (dir name : string) : string :=
  if String.eqb dir "/" then "/" +:+ name else dir +:+ "/" +:+ name.

(** The elements of a cleaned path, and [Rel] on two of them. *)
Definition elements (path : string) : list string :=
  List.filter (fun e => negb (String.eqb e "")) (Split "/" path).
Fixpoint strip_common (l k : list string) : list string * list string :=
  match l, k with
  | x :: l', y :: k' => if String.eqb x y then strip_common l' k' else (l, k)
  | _, _ => (l, k)
  end.
Definition join_elements (l : list string) : string := String.concat "/" l.
Definition Rel (base target : string) : option string :=
  if negb (Bool.eqb (HasPrefix base "/") (HasPrefix target "/")) then None
  else
    let '(up, down) := strip_common (elements base) (elements target) in
    match List.map (fun _ => "..") up ++ down with
    | [] => Some "."
    | l => Some (join_elements l)
    end.

(** ** The local folder (local.go) *)

Inductive file_mode := RegularFile | Directory | OtherFile.

(** What the operating system answers: [os.Stat] tells a missing permission
    from the other errors. *)
Inductive stat_result :=
| StatOk (mode : file_mode) (size : Z)
| StatPermission
| StatError.

Class FileSystem := {
  EvalSymlinks : string -> option string;
  ReadDirNames : string -> option (list string);
  Stat : string -> stat_result;
  (** Opening a directory and reading its first entry, [io.EOF] aside. *)
  DirReadable : string -> bool;
  OpenFile : string -> option string;
}.

Definition supportedExtensions : list (string * string) :=
  [(".epub", "EPUB"); (".pdf", "PDF"); (".mobi", "MOBI"); (".azw3", "AZW3"); (".cbz", "CBZ");
   (".cbr", "CBR"); (".fb2", "FB2"); (".djvu", "DJVU")].
Definition lookup_string (k : string) (l : list (string * string)) : option string :=
  snd <$> List.find (fun p => String.eqb p.1 k) l.

Section local_provider.
Context `{CaseTables} `{TokenPrimitives} `{FileSystem}.

Record LocalProvider := mkLocalProvider {
  lp_sourceID : string;
  lp_basePath : string;
  lp_key : string;
}.

Definition NewLocal (sourceID basePath key : string) : Result LocalProvider :=
  _ ← ValidateLocalFolderPath basePath;
  mret (mkLocalProvider sourceID basePath key).

Definition LocalProbe (p : LocalProvider) : ProbeResult :=
  match Stat (lp_basePath p) with
  | StatPermission => unreachable DetailPathNotReadable
  | StatError => unreachable DetailPathNotFound
  | StatOk Directory _ =>
      if DirReadable (lp_basePath p)
      then mkProbeResult HealthReachable "" (mkSourceCapabilities true false true) ""
      else unreachable DetailPathNotReadable
  | StatOk _ _ => unreachable DetailPathNotFound
  end.

Definition format_of (name : string) : option string := lookup_string (ToLower (Ext name)) supportedExtensions.
Definition isSupported (name : string) : bool := bool_decide (is_Some (format_of name)).

Definition path_shaped (name : string) : bool :=
  String.eqb name "" || String.eqb name "." || String.eqb name ".." || contains_char "/" name.

Definition withinRoot (root real : string) : bool :=
  if String.eqb real root then true
  else match Rel root real with
  | None => false
  | Some rel => negb (String.eqb rel "..") && negb (HasPrefix rel "../")
  end.

(** [strings.ReplaceAll(base, "_", " ")]. *)
Definition underscores_to_spaces (s : string) : string :=
  String.string_of_list_ascii
    (List.map (fun c => if Ascii.eqb c "_" then " "%char else c) (String.list_ascii_of_string s)).
Definition titleFromFilename (name : string) : string :=
  let base := String.substring 0 (String.length name - String.length (Ext name)) name in
  let base := TrimSpace (underscores_to_spaces base) in
  if String.eqb base "" then name else base.

Definition candidateFor (realBase name : string) : option SourceCandidate :=
  if path_shaped name then None
  else match EvalSymlinks (Join realBase name) with
  | None => None
  | Some real =>
      if negb (withinRoot realBase real) then None
      else match Stat real with
      | StatOk RegularFile size =>
          match NewFileReference name (default "" (format_of name)) (Some size) with
          | Ok ref => Some (mkSourceCandidate (titleFromFilename name) None ref None)
          | _ => None
          end
      | _ => None
      end
  end.

(** The loop over the sorted names: the items, the last name taken, whether
    the page was cut. *)
Fixpoint list_loop (realBase after : string) (limit : nat) (names : list string)
    (items : list SourceCandidate) (lastName : string) : list SourceCandidate * string * bool :=
  match names with
  | [] => (items, lastName, false)
  | name :: names' =>
      if negb (String.eqb after "") && String.leb name after then
        list_loop realBase after limit names' items lastName
      else if negb (isSupported name) then list_loop realBase after limit names' items lastName
      else match candidateFor realBase name with
      | None => list_loop realBase after limit names' items lastName
      | Some cand =>
          if Nat.eqb (length items) limit then (items, lastName, true)
          else list_loop realBase after limit names' (items ++ [cand]) name
      end
  end.

Definition unavailable {A} : Result A := fails Unavailable "source is unavailable right now".

(** The name a cursor resumes after. *)
Definition resume_after (p : LocalProvider) (cursor : string) : Result string :=
  if String.eqb cursor "" then Ok ""
  else
    c ← DecodeCursor (lp_key p) cursor (lp_sourceID p);
    if negb (String.eqb (cu_Kind c) KindLocalFolder) then cursor_invalid else Ok (cu_Position c).

Definition LocalList (p : LocalProvider) (cursor : string) (limit : Z) : Result CandidatePage :=
  let limit := Z.to_nat (ClampLimit limit) in
  after ← resume_after p cursor;
  match EvalSymlinks (lp_basePath p) with
  | None => unavailable
  | Some realBase =>
      match ReadDirNames realBase with
      | None => unavailable
      | Some entries =>
          let '(items, lastName, truncated) :=
            list_loop realBase after limit (sort_by String.leb entries) [] "" in
          Ok (mkCandidatePage items
                (if truncated && negb (String.eqb lastName "") then
                   Some (EncodeCursor (lp_key p) (mkCursor (lp_sourceID p) KindLocalFolder lastName))
                 else None))
      end
  end.

Definition LocalSearch : Result CandidatePage := fails Conflict "this source does not support search".

Definition file_missing {A} : Result A := fails NotFound "file not found in this source".

(** The bytes behind a reference. *)
Definition LocalResolve (p : LocalProvider) (ref : FileReference) : Result string :=
  let name := ReferenceID ref in
  if path_shaped name then fails InvalidInput "file reference is not valid for this source"
  else if negb (isSupported name) then file_missing
  else match EvalSymlinks (lp_basePath p) with
  | None => unavailable
  | Some realBase =>
      match EvalSymlinks (Join realBase name) with
      | None => file_missing
      | Some real =>
          if negb (withinRoot realBase real) then file_missing
          else match Stat real with
          | StatOk RegularFile _ => match OpenFile real with Some f => Ok f | None => unavailable end
          | _ => file_missing
          end
      end
  end.
End local_provider.

(** ** The feeds of a catalogue (feed.go, atom.go, json.go, opensearch.go) *)

Definition maxEntriesPerPage : nat := Z.to_nat 2000.
Definition maxCandidateTitleLen : Z := 512.
Definition maxXMLDepth : Z := 40.

Record rawEntry := mkRawEntry {
  re_id : string;
  re_title : string;
  re_author : string;
  re_acqHref : string;
  re_acqType : string;
  re_coverHref : string;
}.

Record parsedFeed := mkParsedFeed {
  pf_entries : list rawEntry;
  pf_nextHref : string;
  pf_searchHref : string;
  pf_searchIsDescriptionDoc : bool;
}.

Record atomLink := mkAtomLink { al_Rel : string; al_Href : string; al_Type : string }.
Record atomEntry := mkAtomEntry {
  ae_ID : string;
  ae_Title : string;
  ae_Authors : list string;
  ae_Links : list atomLink;
}.

(** What the loop over [encoding/xml]'s tokens sees: an entry with what
    [DecodeElement] makes of it, other elements, and an error. *)
Inductive xml_event :=
| XmlEntry (e : option atomEntry)
| XmlStart (local : string) (attrs : list (string * string))
| XmlEnd
| XmlOther
| XmlError.

(** A JSON value under [rel], and a contributor, whose array is read for its
    first element. *)
Inductive json_rel := RelString (s : string) | RelArray (l : list (option string)) | RelOther.
Inductive json_contributor :=
| ContribString (s : string)
| ContribObject (name : string)
| ContribArray (first : json_contributor)
| ContribOther.

Record opds2Link := mkOpds2Link { ol_Rel : json_rel; ol_Href : string; ol_Type : string }.
Record opds2Pub := mkOpds2Pub {
  op_Title : string;
  op_Author : json_contributor;
  op_Links : list opds2Link;
  op_Images : list opds2Link;
}.
Record opds2Feed := mkOpds2Feed { of_Links : list opds2Link; of_Publications : list opds2Pub }.

(** The decoders of the standard library, on the shapes the code declares. *)
Class Decoders := {
  xml_events : string -> list xml_event;
  json_feed : string -> option opds2Feed;
  opensearch_urls : string -> option (list (string * string));
}.

Definition parse_error : error := New "opds: response is not a parseable feed".
Definition errMalformedFeed {A} : Result A := Err parse_error.

Section feeds.
Context `{CaseTables} `{FoldTable}.

Definition first_of (old new : string) : string := if String.eqb old "" then new else old.

Fixpoint attrLink (attrs : list (string * string)) (l : atomLink) : atomLink :=
  match attrs with
  | [] => l
  | (name, v) :: attrs' =>
      attrLink attrs'
        (if String.eqb name "rel" then mkAtomLink v (al_Href l) (al_Type l)
         else if String.eqb name "href" then mkAtomLink (al_Rel l) v (al_Type l)
         else if String.eqb name "type" then mkAtomLink (al_Rel l) (al_Href l) v
         else l)
  end.

Definition applyFeedLink (pf : parsedFeed) (l : atomLink) : parsedFeed :=
  if EqualFold (al_Rel l) "next" then
    mkParsedFeed (pf_entries pf) (first_of (pf_nextHref pf) (al_Href l)) (pf_searchHref pf)
      (pf_searchIsDescriptionDoc pf)
  else if EqualFold (al_Rel l) "search" then
    if String.eqb (pf_searchHref pf) ""
    then mkParsedFeed (pf_entries pf) (pf_nextHref pf) (al_Href l) true else pf
  else pf.

Definition entry_link (r : rawEntry) (l : atomLink) : rawEntry :=
  if HasPrefix (al_Rel l) "http://opds-spec.org/acquisition" then
    if String.eqb (re_acqHref r) ""
    then mkRawEntry (re_id r) (re_title r) (re_author r) (al_Href l) (al_Type l) (re_coverHref r) else r
  else if String.eqb (al_Rel l) "http://opds-spec.org/image" || String.eqb (al_Rel l) "http://opds-spec.org/cover"
          || (String.eqb (al_Rel l) "http://opds-spec.org/image/thumbnail" && String.eqb (re_coverHref r) "") then
    mkRawEntry (re_id r) (re_title r) (re_author r) (re_acqHref r) (re_acqType r)
      (first_of (re_coverHref r) (al_Href l))
  else r.

Definition atomEntryToRaw (e : atomEntry) : rawEntry :=
  fold_left entry_link (ae_Links e)
    (mkRawEntry (TrimSpace (ae_ID e)) (TrimSpace (ae_Title e))
       (match ae_Authors e with a :: _ => TrimSpace a | [] => "" end) "" "" "").

Definition add_entry (e : rawEntry) (pf : parsedFeed) : parsedFeed :=
  mkParsedFeed (pf_entries pf ++ [e]) (pf_nextHref pf) (pf_searchHref pf) (pf_searchIsDescriptionDoc pf).

(** The token loop, with the depth of the element it is in. *)
Fixpoint atom_loop (evs : list xml_event) (depth : Z) (sawFeed : bool) (pf : parsedFeed)
    : Result parsedFeed :=
  match evs with
  | [] => if sawFeed then Ok pf else errMalformedFeed
  | XmlError :: _ => errMalformedFeed
  | XmlEntry e :: evs' =>
      if maxXMLDepth <? depth + 1 then errMalformedFeed
      else if Nat.leb maxEntriesPerPage (length (pf_entries pf)) then errMalformedFeed
      else match e with
      | None => errMalformedFeed
      | Some e => atom_loop evs' depth sawFeed (add_entry (atomEntryToRaw e) pf)
      end
  | XmlStart name attrs :: evs' =>
      let depth := depth + 1 in
      if maxXMLDepth <? depth then errMalformedFeed
      else if String.eqb name "feed" then atom_loop evs' depth true pf
      else if String.eqb name "link" && (depth <=? 2) then
        atom_loop evs' depth sawFeed (applyFeedLink pf (attrLink attrs (mkAtomLink "" "" "")))
      else atom_loop evs' depth sawFeed pf
  | XmlEnd :: evs' =>
      let depth := depth - 1 in
      if depth <? 0 then errMalformedFeed else atom_loop evs' depth sawFeed pf
  | XmlOther :: evs' => atom_loop evs' depth sawFeed pf
  end.

Definition empty_feed : parsedFeed := mkParsedFeed [] "" "" false.

Context `{Decoders}.

Definition parseAtom (body : string) : Result parsedFeed := atom_loop (xml_events body) 0 false empty_feed.

(** [safeCharsetReader]: which declared encodings the decoder reads on with. *)
Definition safeCharset (charset : string) : bool :=
  existsb (String.eqb (ToLower (TrimSpace charset))) [""; "utf-8"; "utf8"; "us-ascii"; "ascii"].

Definition relStrings (rel : json_rel) : list string :=
  match rel with
  | RelString s => [s]
  | RelArray l => omap Datatypes.id l
  | RelOther => []
  end.
Definition linkHasRel (l : opds2Link) (want : string) : bool :=
  existsb (fun r => String.eqb r want || EqualFold r want) (relStrings (ol_Rel l)).
Definition hasRel (links : list opds2Link) (want : string) : bool :=
  existsb (fun l => linkHasRel l want) links.
Definition isAcquisitionRel (rel : json_rel) : bool :=
  existsb (fun r => String.eqb r "http://opds-spec.org/acquisition" ||
                    HasPrefix r "http://opds-spec.org/acquisition/") (relStrings rel).

(** [UnmarshalJSON] of a contributor: the name it ends up with. *)
Fixpoint contributor_name (c : json_contributor) : string :=
  match c with
  | ContribString s => s
  | ContribObject name => name
  | ContribArray first => contributor_name first
  | ContribOther => ""
  end.

Definition pub_link (r : rawEntry) (l : opds2Link) : rawEntry :=
  if isAcquisitionRel (ol_Rel l) && String.eqb (re_acqHref r) ""
  then mkRawEntry (re_id r) (re_title r) (re_author r) (ol_Href l) (ol_Type l) (re_coverHref r) else r.

Definition pubToRaw (p : opds2Pub) : rawEntry :=
  let r := fold_left pub_link (op_Links p)
             (mkRawEntry "" (TrimSpace (op_Title p)) (TrimSpace (contributor_name (op_Author p))) "" "" "") in
  match op_Images p with
  | i :: _ => mkRawEntry (re_id r) (re_title r) (re_author r) (re_acqHref r) (re_acqType r) (ol_Href i)
  | [] => r
  end.

Definition feed_link (pf : parsedFeed) (l : opds2Link) : parsedFeed :=
  let pf := if linkHasRel l "next" && String.eqb (pf_nextHref pf) ""
            then mkParsedFeed (pf_entries pf) (ol_Href l) (pf_searchHref pf) (pf_searchIsDescriptionDoc pf)
            else pf in
  if linkHasRel l "search" && String.eqb (pf_searchHref pf) ""
  then mkParsedFeed (pf_entries pf) (pf_nextHref pf) (ol_Href l) (pf_searchIsDescriptionDoc pf) else pf.

Definition parseOPDS2 (body : string) : Result parsedFeed :=
  match json_feed body with
  | None => errMalformedFeed
  | Some f =>
      if negb (hasRel (of_Links f) "self") then errMalformedFeed
      else
        let pf := fold_left feed_link (of_Links f) empty_feed in
        if Nat.ltb maxEntriesPerPage (length (of_Publications f)) then errMalformedFeed
        else Ok (mkParsedFeed (pubToRaw <$> of_Publications f) (pf_nextHref pf) (pf_searchHref pf)
                   (pf_searchIsDescriptionDoc pf))
  end.

(** The bytes of white space are 32, 9, 13 and 10; the byte-order mark is
    239 187 191 and [<] is 60. *)
Definition looksLikeXML (body : string) : bool :=
  let l := match bytes body with
           | 239 :: 187 :: 191 :: l => l
           | l => l
           end in
  match drop_while (fun b => existsb (Z.eqb b) [32; 9; 13; 10]) l with
  | 60 :: _ => true
  | _ => false
  end.

Definition parseFeed (body : string) : Result parsedFeed :=
  if looksLikeXML body then parseAtom body else parseOPDS2 body.

Fixpoint best_template (urls : list (string * string)) (fallback : string) : string :=
  match urls with
  | [] => fallback
  | (type, template) :: urls' =>
      if negb (Contains template "{searchTerms}") then best_template urls' fallback
      else
        let t := ToLower type in
        if Contains t "opds" || Contains t "atom" then template
        else best_template urls' (first_of fallback template)
  end.
Definition parseOpenSearchTemplate (body : string) : string :=
  match opensearch_urls body with Some urls => best_template urls "" | None => "" end.
End feeds.

Definition mediaTypeFormat : list (string * string) :=
  [("application/epub+zip", "EPUB"); ("application/pdf", "PDF");
   ("application/x-mobipocket-ebook", "MOBI"); ("application/vnd.amazon.ebook", "AZW3");
   ("application/vnd.comicbook+zip", "CBZ"); ("application/vnd.comicbook-rar", "CBR");
   ("application/x-cbr", "CBR"); ("application/x-cbz", "CBZ"); ("text/fb2+xml", "FB2");
   ("application/x-fictionbook+xml", "FB2"); ("image/vnd.djvu", "DJVU")].
Definition extFormat : list (string * string) := supportedExtensions.

Section catalogue.
Context `{CaseTables} `{FoldTable} `{Urls} `{TokenPrimitives}.

(** [mt[:i]] at the first [;]. *)
Definition before_semicolon (s : string) : option string :=
  match String.index 0 ";" s with Some i => Some (String.substring 0 i s) | None => None end.

Definition formatFor (mediaType href : string) : string :=
  let mt := ToLower (TrimSpace mediaType) in
  let mt := match before_semicolon mt with Some m => TrimSpace m | None => mt end in
  match lookup_string mt mediaTypeFormat with
  | Some f => f
  | None =>
      match url_Parse href with
      | Some u => default "" (lookup_string (ToLower (Ext (u_Path u))) extFormat)
      | None => ""
      end
  end.

Definition resolveSameOrigin (baseURL href : string) : string :=
  let href := TrimSpace href in
  if String.eqb href "" then ""
  else match url_Parse baseURL, url_Parse href with
  | Some _, Some _ =>
      let resolved := url_Resolve baseURL href in
      if negb (SameOrigin baseURL resolved) then "" else resolved
  | _, _ => ""
  end.

Definition non_empty (s : string) : option string := if String.eqb s "" then None else Some s.

Definition candidateFromEntry (e : rawEntry) (baseURL : string) : option SourceCandidate :=
  let title := TrimSpace (re_title e) in
  if negb (is_ok (ValidateBoundedText "title" title maxCandidateTitleLen)) then None
  else if String.eqb (re_acqHref e) "" then None
  else
    let format := formatFor (re_acqType e) (re_acqHref e) in
    if String.eqb format "" then None
    else match NewFileReference (re_acqHref e) format None with
    | Ok ref =>
        let author := TrimSpace (re_author e) in
        Some (mkSourceCandidate title
                (if negb (String.eqb author "") && is_ok (ValidateBoundedText "author" author maxCandidateTitleLen)
                 then Some author else None)
                ref (non_empty (resolveSameOrigin baseURL (re_coverHref e))))
    | _ => None
    end.

(** The loop of [normalise]: an entry whose key was seen is dropped. *)
Fixpoint normalise_loop (baseURL : string) (entries : list rawEntry) (seen : list string)
    : list SourceCandidate :=
  match entries with
  | [] => []
  | e :: entries' =>
      let key := first_of (re_id e) (re_acqHref e) in
      if negb (String.eqb key "") && bool_decide (key ∈ seen) then normalise_loop baseURL entries' seen
      else
        let seen := if negb (String.eqb key "") then key :: seen else seen in
        match candidateFromEntry e baseURL with
        | None => normalise_loop baseURL entries' seen
        | Some c => c :: normalise_loop baseURL entries' seen
        end
  end.

Definition normalise (pf : parsedFeed) (baseURL key sourceID : string) : CandidatePage :=
  mkCandidatePage (normalise_loop baseURL (pf_entries pf) [])
    ((fun next => EncodeCursor key (mkCursor sourceID KindOPDS next)) <$>
       non_empty (resolveSameOrigin baseURL (pf_nextHref pf))).

Definition expandSearchTemplate (template q : string) : string :=
  let esc := url_QueryEscape q in
  if Contains template "{searchTerms}" then ReplaceAll template "{searchTerms}" esc
  else if Contains template "{?query}" then ReplaceAll template "{?query}" ("?query=" +:+ esc)
  else if Contains template "{query}" then ReplaceAll template "{query}" esc
  else
    let sep := if Contains template "?" then "&" else "?" in
    template +:+ sep +:+ "q=" +:+ esc.
End catalogue.

(** ** The client (client.go) *)

Definition maxResponseBytes : Z := 5 * 2 ^ 20.

Record fetchError := mkFetchError { fe_detail : string; fe_msg : string }.

(** The error of [http.Client.Do], as far as it is looked at. *)
Record transport_error := mkTransportError {
  te_timeout : bool;
  te_deadline : bool;
  te_dial : option bool;
  te_canceled : bool;
}.

Definition classifyTransportError (err : transport_error) : fetchError :=
  if te_timeout err then mkFetchError DetailTimeout "source timed out"
  else if te_deadline err then mkFetchError DetailTimeout "source timed out"
  else if bool_decide (te_dial err = Some true) then
    mkFetchError DetailConnectionRefused "could not connect to the source"
  else if te_canceled err then mkFetchError DetailTimeout "request cancelled"
  else mkFetchError DetailConnectionRefused "could not reach the source".

(** What comes of a request: it cannot be built, the transport fails, or there
    is a response, whose body may fail to be read. *)
Inductive exchange :=
| BadRequest
| TransportFailed (err : transport_error)
| Response (status : Z) (body : option string).

(** A request on the wire: its address and the credential it carries. *)
Record outbound := mkOutbound { ob_url : string; ob_auth : option Credential }.

(** The network, the requests made so far and the semaphore. *)
Record wire := mkWire { sent : list outbound; semaphore : option Semaphore }.
Class Network := exchange_with : outbound -> exchange.

Abbreviation opdsM := (stM wire fetchError) (only parsing).

Record httpClient := mkHttpClient { hc_cred : Credential; hc_hasAuth : bool }.

Section client.
Context `{Urls} `{Network}.

Definition auth_of (c : httpClient) : option Credential :=
  if hc_hasAuth c && negb (IsZero (hc_cred c)) then Some (hc_cred c) else None.

(** The [Authorization] of a request: the client's credential, or else, as
    net/http has it, the user and password its URL names. *)
Definition basic_auth (c : httpClient) (u : url) : option Credential :=
  match auth_of c with
  | Some cred => Some cred
  | None => (fun user => mkCredential user.1 user.2) <$> u_User u
  end.

(** What [get] makes of the exchange. *)
Definition read_response (x : exchange) : res fetchError string :=
  match x with
  | BadRequest => Err (mkFetchError DetailUnparseable "could not build request")
  | TransportFailed err => Err (classifyTransportError err)
  | Response status body =>
      if (300 <=? status) && (status <? 400) then
        Err (mkFetchError DetailHTTP3xxUnsupported "source responded with an unsupported redirect")
      else if (status =? 401) || (status =? 403) then
        Err (mkFetchError DetailAuthRejected "source rejected the credential")
      else if (400 <=? status) && (status <? 500) then
        Err (mkFetchError DetailHTTP4xx "source returned a client error")
      else if 500 <=? status then Err (mkFetchError DetailHTTP5xx "source returned a server error")
      else match body with
      | None => Err (mkFetchError DetailUnparseable "could not read the response body")
      | Some b => if maxResponseBytes <? len b
                  then Err (mkFetchError DetailUnparseable "response exceeded the size limit") else Ok b
      end
  end.

(** The slot a request holds is released when it is done. *)
Definition get (c : httpClient) (rawURL : string) : opdsM string := fun w =>
  let acquired := match semaphore w with
                  | None => Some None
                  | Some s => let '(ok, s') := TryAcquire s in if ok then Some (Some s') else None
                  end in
  match acquired with
  | None => (Err (mkFetchError DetailTimeout "outbound concurrency cap reached"), w)
  | Some sem =>
      let '(x, reached) :=
        match url_Parse rawURL with
        | None => (BadRequest, [])
        | Some u =>
            let req := mkOutbound rawURL (basic_auth c u) in
            let x := exchange_with req in
            (x, match x with BadRequest => [] | _ => [req] end)
        end in
      (read_response x, mkWire (sent w ++ reached) (Release <$> sem))
  end.
End client.

(** ** The provider of a catalogue (provider.go) *)

Section opds_provider.
Context `{CaseTables} `{FoldTable} `{Urls} `{TokenPrimitives} `{Decoders} `{Network}.

Record OPDSProvider := mkOPDSProvider {
  od_sourceID : string;
  od_baseURL : string;
  od_client : httpClient;
  od_key : string;
  od_searchTemplate : string;
}.

Definition fetch_failed : error := DomainError Unavailable "source is unavailable right now" None.
Definition unreadable : error := DomainError Unavailable "source returned an unreadable response" None.

(** A call that maps a failed fetch to a domain error ([asDomain]). *)
Definition fetched (m : opdsM string) : stM wire error string := fun w =>
  match m w with
  | (Ok b, w') => (Ok b, w')
  | (Err _, w') => (Err fetch_failed, w')
  | (OutOfFuel, w') => (OutOfFuel, w')
  end.

Definition detectSearch (p : OPDSProvider) (pf : parsedFeed) : stM wire fetchError string :=
  if String.eqb (pf_searchHref pf) "" then mret ""
  else
    let resolved := resolveSameOrigin (od_baseURL p) (pf_searchHref pf) in
    if String.eqb resolved "" then mret ""
    else if negb (pf_searchIsDescriptionDoc pf) then mret resolved
    else fun w =>
      match get (od_client p) resolved w with
      | (Ok body, w') =>
          let template := parseOpenSearchTemplate body in
          (Ok (if String.eqb template "" then "" else resolveSameOrigin (od_baseURL p) template), w')
      | (_, w') => (Ok "", w')
      end.

Definition OPDSProbe (p : OPDSProvider) : wire -> ProbeResult * wire := fun w =>
  match get (od_client p) (od_baseURL p) w with
  | (Err ferr, w1) => (unreachable (fe_detail ferr), w1)
  | (OutOfFuel, w1) => (unreachable DetailUnparseable, w1)
  | (Ok body, w1) =>
      match parseFeed body with
      | Ok pf =>
          let '(r, w2) := detectSearch p pf w1 in
          let searchURL := match r with Ok s => s | _ => "" end in
          (mkProbeResult HealthReachable ""
             (mkSourceCapabilities true (negb (String.eqb searchURL "")) true) searchURL, w2)
      | _ => (unreachable DetailUnparseable, w1)
      end
  end.

(** The page a cursor names, [None] for the empty page. *)
Definition resume_url (p : OPDSProvider) (first cursor : string) : Result (option string) :=
  if String.eqb cursor "" then Ok (Some first)
  else
    c ← DecodeCursor (od_key p) cursor (od_sourceID p);
    pos ← ForOPDSPosition (od_baseURL p) c;
    mret (if String.eqb pos "" then None else Some pos).

Definition feed_page (p : OPDSProvider) (fetchURL : string) : stM wire error CandidatePage :=
  body ← fetched (get (od_client p) fetchURL);
  match parseFeed body with
  | Ok pf => mret (normalise pf (od_baseURL p) (od_key p) (od_sourceID p))
  | _ => throw unreadable
  end.

Definition OPDSList (p : OPDSProvider) (cursor : string) : stM wire error CandidatePage :=
  fetchURL ← reading (fun _ => resume_url p (od_baseURL p) cursor);
  match fetchURL with
  | None => mret (mkCandidatePage [] None)
  | Some u => feed_page p u
  end.

Definition OPDSSearch (p : OPDSProvider) (q cursor : string) : stM wire error CandidatePage :=
  if String.eqb (od_searchTemplate p) "" then
    throw (DomainError Conflict "this source does not support search" None)
  else
    fetchURL ← reading (fun _ => resume_url p (expandSearchTemplate (od_searchTemplate p) q) cursor);
    match fetchURL with
    | None => mret (mkCandidatePage [] None)
    | Some u => if negb (SameOrigin (od_baseURL p) u) then throw fetch_failed else feed_page p u
    end.

Definition OPDSResolve (p : OPDSProvider) (ref : FileReference) : stM wire error string :=
  let target := resolveSameOrigin (od_baseURL p) (ReferenceID ref) in
  if String.eqb target "" then throw (DomainError InvalidInput "file reference is not valid for this source" None)
  else fetched (get (od_client p) target).
End opds_provider.
