(* ===== verification/SourceHandlers.v ===== *)
(** * The administration of sources (src/internal/transport/http/sources.go,
      src/internal/adapters/crypto/crypto.go)

    The handlers that create, change, probe, browse and search sources, over
    the tables of the catalogue, the network and the file system. *)

From S2P Require Import Prelude GoStrings Errors Validate Catalog Transactor Postgres Http PairingStore Encoding Tokens Paths Access Services CatalogStore CatalogLaws Library Sources SourceProviders.

Local Open Scope string_scope.
Local Open Scope list_scope.
Local Open Scope Z_scope.

(** ** Encryption at rest (crypto.go) *)

Section encryption.
Context `{Crypto}.

(** [rand] is what [crypto/rand] answers for the nonce. *)
Definition Encrypt (rand : Result string) (plaintext : string) : Result (string * string) :=
  match rand with
  | Ok nonce => Ok (Seal nonce plaintext, nonce)
  | Err err => Err (Errorf ("crypto: read nonce: " +:+ Error err) err)
  | OutOfFuel => OutOfFuel
  end.

Definition ErrDecrypt : error := New "crypto: credential could not be decrypted".
Definition Decrypt (ciphertext nonce : string) : Result string :=
  if negb (Nat.eqb (String.length nonce) NonceSize) then Err ErrDecrypt
  else match Open nonce ciphertext with Some plaintext => Ok plaintext | None => Err ErrDecrypt end.
End encryption.

(** ** What the handlers share *)

(** The tables and the network. *)
Record world := mkWorld { wd_db : catalog_db; wd_wire : wire }.
Abbreviation sourceH := (stM world http_error) (only parsing).

Definition on_catalog {A} (m : stM catalog_db error A) : stM world error A := fun w =>
  let '(r, db) := m (wd_db w) in (r, mkWorld db (wd_wire w)).
Definition on_wire {A} (m : stM wire error A) : stM world error A := fun w =>
  let '(r, n) := m (wd_wire w) in (r, mkWorld (wd_db w) n).

(** What the pool holds once the key file was read. *)
Record SourceCrypto := mkSourceCrypto { sc_Encryptor : bool; sc_Codec : option string }.
Definition no_crypto : SourceCrypto := mkSourceCrypto false None.

(** What the server was started with. *)
Record source_config := mkSourceConfig {
  cfg_crypto : option SourceCrypto;
  cfg_allowPrivate : bool;
  cfg_removal : bool;
}.
Definition crypto_of (cfg : source_config) : SourceCrypto := default no_crypto (cfg_crypto cfg).
Definition key_of (cfg : source_config) : string := default "" (sc_Codec (crypto_of cfg)).

Record wireSourceConfig := mkWireSourceConfig { wc_BasePath : option string; wc_BaseURL : option string }.
Record wireSourceHealth := mkWireSourceHealth {
  wh_Status : string;
  wh_CheckedAt : option Time;
  wh_Detail : option string;
}.
Record wireSource := mkWireSource {
  wr_ID : string;
  wr_Label : string;
  wr_Kind : string;
  wr_Config : wireSourceConfig;
  wr_HasCredential : bool;
  wr_Health : wireSourceHealth;
  wr_Capabilities : SourceCapabilities;
}.
Record credentialInput := mkCredentialInput { ci_Username : string; ci_Password : string }.
Record wireSourceCreate := mkWireSourceCreate {
  cq_Label : string;
  cq_Kind : string;
  cq_Config : wireSourceConfig;
  cq_Credential : option credentialInput;
}.
Record wireSourceUpdate := mkWireSourceUpdate {
  uq_Label : option string;
  uq_Config : option wireSourceConfig;
  uq_Credential : option credentialInput;
}.

Definition mapSourceToWire (rec : SourceRecord) : wireSource :=
  mkWireSource (sr_ID rec) (sr_Label rec) (sr_Kind rec)
    (if String.eqb (sr_Kind rec) KindLocalFolder then mkWireSourceConfig (Some (sr_ConfigBasePath rec)) None
     else if String.eqb (sr_Kind rec) KindOPDS then mkWireSourceConfig None (Some (sr_ConfigBaseURL rec))
     else mkWireSourceConfig None None)
    (HasCredential rec)
    (mkWireSourceHealth (sr_HealthStatus rec) (sr_HealthCheckedAt rec) (non_empty (sr_HealthDetail rec)))
    (sr_Capabilities rec).

(** The identifier the router matched, or else the next segment of the path. *)
Definition extractSourceID (value path : string) : string :=
  if negb (String.eqb value "") then value
  else match CutPrefix path "/api/v1/sources/" with
  | Some trimmed => match Cut "/" trimmed with Some (id, _) => id | None => trimmed end
  | None => ""
  end.

Definition parseLimit (limitStr : string) : Result Z :=
  if String.eqb limitStr "" then Ok DefaultLimit
  else match Atoi limitStr with
  | Some l => if (l <? 1) || (MaxLimit <? l)
              then fails InvalidInput "limit: must be an integer between 1 and 50" else Ok l
  | None => fails InvalidInput "limit: must be an integer between 1 and 50"
  end.

Definition invalid {A} (msg : string) : sourceH A := throw (HTTPError InvalidInput msg).
Definition source_unavailable {A} : sourceH A :=
  throw (HTTPError Unavailable "source is unavailable right now").

(** A check whose error is answered as invalid input in its own words. *)
Definition or_invalid {A} (r : Result A) : sourceH A :=
  or_fail (reading (fun _ => r)) (fun e => HTTPError InvalidInput (Error e)).

Definition valid_source_id (sourceID : string) : sourceH unit :=
  if is_ok (ValidateBoundedText "id" sourceID 100) then mret tt else invalid "id: not a valid source ID".

Section handlers.
Context `{CaseTables} `{FoldTable} `{Urls} `{Addresses} `{TokenPrimitives} `{Crypto} `{Decoders} `{Network}
  `{FileSystem}.

Inductive provider := PLocal (p : LocalProvider) | POPDS (p : OPDSProvider).

Definition Probe (p : provider) : sourceH ProbeResult :=
  match p with
  | PLocal p => mret (LocalProbe p)
  | POPDS p => fun w => let '(r, n) := OPDSProbe p (wd_wire w) in (Ok r, mkWorld (wd_db w) n)
  end.
Definition ListPage (p : provider) (cursor : string) (limit : Z) : stM world error CandidatePage :=
  match p with
  | PLocal p => reading (fun _ => LocalList p cursor limit)
  | POPDS p => on_wire (OPDSList p cursor)
  end.
Definition SearchPage (p : provider) (q cursor : string) : stM world error CandidatePage :=
  match p with
  | PLocal p => reading (fun _ => LocalSearch)
  | POPDS p => on_wire (OPDSSearch p q cursor)
  end.

Definition new_opds (sourceID baseURL template : string) (cred : Credential) (hasCred : bool)
    (cfg : source_config) : provider :=
  POPDS (mkOPDSProvider sourceID baseURL (mkHttpClient cred hasCred) (key_of cfg) template).

(** [json.Marshal] and [json.Unmarshal] of a credential. *)
Definition credential_object (c : Credential) : object :=
  [("username", JString (cr_username c)); ("password", JString (cr_password c))].
Definition object_credential (o : object) : option credentialInput :=
  u ← string_field o "username";
  p ← string_field o "password";
  Some (mkCredentialInput u p).

(** The stored credential, if it can be read back. *)
Definition stored_credential (rec : SourceRecord) : option Credential :=
  match Decrypt (sr_CredentialCiphertext rec) (sr_CredentialNonce rec) with
  | Ok pt =>
      match json_parse pt ≫= object_credential with
      | Some c => match NewCredential (ci_Username c) (ci_Password c) with Ok c => Some c | _ => None end
      | None => None
      end
  | _ => None
  end.

Definition encrypt_credential (cfg : source_config) (rand : Result string) (c : Credential)
    : sourceH (string * string) :=
  if negb (sc_Encryptor (crypto_of cfg)) then throw (HTTPError Unavailable "crypto service not ready")
  else or_fail (reading (fun _ => Encrypt rand (json_text (credential_object c))))
         (fun _ => HTTPError Internal "failed to encrypt credential").

(** ** Creating a source *)

Definition local_config (c : wireSourceConfig) : sourceH string :=
  match wc_BasePath c with
  | None => invalid "config.basePath must not be empty"
  | Some basePath => _ ← or_invalid (ValidateLocalFolderPath basePath); mret basePath
  end.

Definition opds_config (cfg : source_config) (c : wireSourceConfig) : sourceH string :=
  match wc_BaseURL c with
  | None => invalid "config.baseUrl must not be empty"
  | Some baseURL =>
      _ ← or_invalid (ValidateOPDSBaseURL baseURL);
      _ ← or_invalid (RejectBlockedLiteralHost baseURL (cfg_allowPrivate cfg));
      mret baseURL
  end.

Definition no_credential {A} : sourceH A := invalid "credential: not supported for local-folder sources".

(** The configuration and the credential of a request, by the source's kind. *)
Definition create_config (cfg : source_config) (req : wireSourceCreate)
    : sourceH (string * string * Credential) :=
  if String.eqb (cq_Kind req) KindLocalFolder then
    basePath ← local_config (cq_Config req);
    match cq_Credential req with
    | Some _ => no_credential
    | None => mret (basePath, "", zero_credential)
    end
  else
    baseURL ← opds_config cfg (cq_Config req);
    match cq_Credential req with
    | Some c => cred ← or_invalid (NewCredential (ci_Username c) (ci_Password c)); mret ("", baseURL, cred)
    | None => mret ("", baseURL, zero_credential)
    end.

Definition new_record (sourceID : string) (req : wireSourceCreate) (basePath baseURL : string)
    (sealed : string * string) (probe : ProbeResult) (now : Time) : SourceRecord :=
  mkSourceRecord sourceID (cq_Label req) (cq_Kind req) basePath baseURL sealed.1 sealed.2
    (pr_Status probe) (pr_Detail probe) (Some now) (pr_SearchLinkURL probe) (pr_Capabilities probe) now.

(** [sourceID], [rand] and [now] are what the generators and the clock
    answer. *)
Definition CreateSourceHandler (cfg : source_config) (sourceID : string) (rand : Result string) (now : Time)
    (fault : option pg_error) (req : option wireSourceCreate) : sourceH wireSource :=
  req ← body_of req;
  _ ← or_invalid (ValidateBoundedText "label" (cq_Label req) 100);
  _ ← (if negb (ValidKind (cq_Kind req)) then invalid "kind: must be one of local-folder, opds" else mret tt);
  '(basePath, baseURL, cred) ← create_config cfg req;
  let hasCred := bool_decide (is_Some (cq_Credential req)) in
  prov ← (if String.eqb (cq_Kind req) KindLocalFolder
          then p ← or_invalid (NewLocal sourceID basePath (key_of cfg)); mret (PLocal p)
          else mret (new_opds sourceID baseURL "" cred hasCred cfg));
  probe ← Probe prov;
  sealed ← (if hasCred then encrypt_credential cfg rand cred else mret ("", ""));
  let rec := new_record sourceID req basePath baseURL sealed probe now in
  _ ← or_domain (on_catalog (CreateSourceRecord fault now rec));
  mret (mapSourceToWire rec).

(** ** Reading sources *)

Definition ListSourcesHandler (fault : option pg_error) : sourceH (list wireSource) :=
  recs ← or_domain (on_catalog (ListSourceRecords fault));
  mret (mapSourceToWire <$> recs).

Definition GetSourceHandler (fault : option pg_error) (sourceID : string) : sourceH wireSource :=
  _ ← valid_source_id sourceID;
  rec ← or_domain (on_catalog (GetSourceRecord fault sourceID));
  mret (mapSourceToWire rec).

(** ** Changing a source *)

(** The new configuration: that of the request, by the source's kind, or the
    stored one. *)
Definition update_config (cfg : source_config) (rec : SourceRecord) (req : wireSourceUpdate)
    : sourceH (string * string) :=
  match uq_Config req with
  | None => mret (sr_ConfigBasePath rec, sr_ConfigBaseURL rec)
  | Some c =>
      if String.eqb (sr_Kind rec) KindLocalFolder then
        basePath ← local_config c; mret (basePath, sr_ConfigBaseURL rec)
      else if String.eqb (sr_Kind rec) KindOPDS then
        baseURL ← opds_config cfg c; mret (sr_ConfigBasePath rec, baseURL)
      else mret (sr_ConfigBasePath rec, sr_ConfigBaseURL rec)
  end.

(** The credential the probe uses: the new one, once stored, or the stored one
    if it can be read. *)
Definition update_credential (cfg : source_config) (rand : Result string) (fault : option pg_error)
    (sourceID : string) (rec : SourceRecord) (req : wireSourceUpdate) : sourceH (Credential * bool) :=
  match uq_Credential req with
  | Some c =>
      if String.eqb (sr_Kind rec) KindLocalFolder then no_credential
      else
        cred ← or_invalid (NewCredential (ci_Username c) (ci_Password c));
        sealed ← encrypt_credential cfg rand cred;
        _ ← or_domain (on_catalog (SetSourceCredential fault sourceID sealed.1 sealed.2));
        mret (cred, true)
  | None =>
      if String.eqb (sr_Kind rec) KindOPDS && HasCredential rec && sc_Encryptor (crypto_of cfg) then
        mret (default zero_credential (stored_credential rec), HasCredential rec)
      else mret (zero_credential, HasCredential rec)
  end.

Definition record_health (fault : option pg_error) (now : Time) (sourceID : string) (probe : ProbeResult)
    : sourceH unit :=
  or_domain (on_catalog (UpdateSourceHealth fault sourceID (pr_Status probe) (pr_Detail probe) now
    (pr_Capabilities probe) (pr_SearchLinkURL probe))).

(** The configuration is written before the credential is looked at. *)
Definition UpdateSourceHandler (cfg : source_config) (rand : Result string) (now : Time)
    (fault : nat -> option pg_error) (sourceID : string) (req : option wireSourceUpdate)
    : sourceH wireSource :=
  _ ← valid_source_id sourceID;
  rec ← or_domain (on_catalog (GetSourceRecord (fault 0%nat) sourceID));
  req ← body_of req;
  newLabel ← match uq_Label req with
             | Some label => _ ← or_invalid (ValidateBoundedText "label" label 100); mret label
             | None => mret (sr_Label rec)
             end;
  '(newBasePath, newBaseURL) ← update_config cfg rec req;
  _ ← or_domain (on_catalog (UpdateSourceConfig (fault 1%nat) sourceID newLabel newBasePath newBaseURL));
  '(cred, hasCred) ← update_credential cfg rand (fault 2%nat) sourceID rec req;
  prov ← (if String.eqb (sr_Kind rec) KindLocalFolder
          then p ← or_invalid (NewLocal sourceID newBasePath (key_of cfg)); mret (PLocal p)
          else mret (new_opds sourceID newBaseURL (sr_SearchLinkURL rec) cred hasCred cfg));
  probe ← Probe prov;
  _ ← record_health (fault 3%nat) now sourceID probe;
  updatedRec ← or_domain (on_catalog (GetSourceRecord (fault 4%nat) sourceID));
  mret (mapSourceToWire updatedRec).

(** ** Deleting a source *)

Definition DeleteSourceHandler (cfg : source_config) (fault : option pg_error) (tx : TxOutcome) (now : Time)
    (sourceID : string) : sourceH unit :=
  _ ← valid_source_id sourceID;
  _ ← or_domain (on_catalog (GetSourceRecord fault sourceID));
  _ ← (if negb (cfg_removal cfg) then throw (HTTPError Unavailable "database not ready") else mret tt);
  _ ← or_domain (on_catalog (RemoveSource tx sourceID now));
  mret tt.

(** ** Probing a source *)

Definition probe_local (cfg : source_config) (rec : SourceRecord) : sourceH ProbeResult :=
  match NewLocal (sr_ID rec) (sr_ConfigBasePath rec) (key_of cfg) with
  | Ok p => Probe (PLocal p)
  | _ => mret (unreachable DetailPathNotFound)
  end.

Definition probe_opds (cfg : source_config) (rec : SourceRecord) : sourceH ProbeResult :=
  let hasCred := HasCredential rec in
  let cred := if hasCred then
                (if sc_Encryptor (crypto_of cfg) then stored_credential rec else None)
              else Some zero_credential in
  match cred with
  | None => mret (unreachable DetailAuthRejected)
  | Some cred => Probe (new_opds (sr_ID rec) (sr_ConfigBaseURL rec) (sr_SearchLinkURL rec) cred hasCred cfg)
  end.

Definition HealthCheckSourceHandler (cfg : source_config) (now : Time) (fault : nat -> option pg_error)
    (sourceID : string) : sourceH wireSourceHealth :=
  _ ← valid_source_id sourceID;
  rec ← or_domain (on_catalog (GetSourceRecord (fault 0%nat) sourceID));
  probe ← (if String.eqb (sr_Kind rec) KindLocalFolder then probe_local cfg rec
           else if String.eqb (sr_Kind rec) KindOPDS then probe_opds cfg rec
           else invalid "unsupported source kind");
  _ ← record_health (fault 1%nat) now sourceID probe;
  mret (mkWireSourceHealth (pr_Status probe) (Some now) (non_empty (pr_Detail probe))).

(** ** Browsing and searching *)

(** The provider of a stored source. *)
Definition stored_provider (cfg : source_config) (rec : SourceRecord) : sourceH provider :=
  match sc_Codec (crypto_of cfg) with
  | None => source_unavailable
  | Some key =>
      if String.eqb (sr_Kind rec) KindLocalFolder then
        match NewLocal (sr_ID rec) (sr_ConfigBasePath rec) key with
        | Ok p => mret (PLocal p)
        | _ => source_unavailable
        end
      else if String.eqb (sr_Kind rec) KindOPDS then
        if HasCredential rec then
          match (if sc_Encryptor (crypto_of cfg) then stored_credential rec else None) with
          | Some cred =>
              mret (new_opds (sr_ID rec) (sr_ConfigBaseURL rec) (sr_SearchLinkURL rec) cred true cfg)
          | None => source_unavailable
          end
        else mret (new_opds (sr_ID rec) (sr_ConfigBaseURL rec) (sr_SearchLinkURL rec) zero_credential false cfg)
      else invalid "unsupported source kind"
  end.

Definition BrowseSourceHandler (cfg : source_config) (fault : option pg_error)
    (sourceID limit cursor : string) : sourceH CandidatePage :=
  _ ← valid_source_id sourceID;
  limit ← or_invalid (parseLimit limit);
  rec ← or_domain (on_catalog (GetSourceRecord fault sourceID));
  prov ← stored_provider cfg rec;
  or_domain (ListPage prov cursor limit).

Definition check_query (q : string) : sourceH unit :=
  if String.eqb (TrimSpace q) "" then invalid "q: search query must be non-empty"
  else if MaxQueryLen <? rune_count q then invalid "q: search query is too long"
  else if hasControlChar q then invalid "q: search query contains control characters"
  else mret tt.

Definition SearchSourceHandler (cfg : source_config) (fault : option pg_error)
    (sourceID q limit cursor : string) : sourceH CandidatePage :=
  _ ← valid_source_id sourceID;
  _ ← check_query q;
  limit ← or_invalid (parseLimit limit);
  rec ← or_domain (on_catalog (GetSourceRecord fault sourceID));
  _ ← (if negb (CanSearch (sr_Capabilities rec))
       then throw (HTTPError Conflict "this source does not support search") else mret tt);
  prov ← stored_provider cfg rec;
  or_domain (SearchPage prov q cursor).
End handlers.
