(* ===== verification/SourceSafety.v ===== *)
(** * What the source adapters guarantee *)

From Stdlib Require Import Sorting.Sorted.
From S2P Require Import Prelude GoStrings Errors Validate Catalog Transactor Postgres Http PairingStore Encoding Tokens Paths Access Services CatalogStore CatalogLaws Library Sources SourceProviders SourceHandlers.

Local Open Scope string_scope.
Local Open Scope list_scope.
Local Open Scope Z_scope.

(** ** Addresses *)

(** An IPv4 address in its IPv4-mapped form. *)
Definition mapped (v4 : IP) : IP := [0; 0; 0; 0; 0; 0; 0; 0; 0; 0; 255; 255] ++ v4.

Lemma To4_mapped v4 : length v4 = 4%nat -> To4 (mapped v4) = Some v4 /\ To4 v4 = Some v4.
Proof.
  intros Hl. destruct v4 as [|a [|b [|c [|d [|e v4]]]]]; try done.
Qed.

(** ** Cursors *)

Section cursors.
Context `{TokenPrimitives}.

(** What the code relies on of HMAC-SHA256: thirty-two bytes. *)
Definition mac_length : Prop := forall k m, String.length (hmacSHA256 k m) = cursorMACLen.

Lemma DecodeCursor_Encode key c :
  mac_length -> object_utf8 (cursor_object c) = true -> json_text (cursor_object c) <> "" ->
  cu_Kind c = KindLocalFolder \/ cu_Kind c = KindOPDS ->
  DecodeCursor key (EncodeCursor key c) (cu_SourceID c) = Ok c.
Proof.
  intros Hl Hu Hne Hk. unfold DecodeCursor, EncodeCursor. cbv zeta. rewrite RawURL_roundtrip.
  set (payload := json_text (cursor_object c)) in *. set (mac := hmacSHA256 key payload).
  assert (String.length mac = cursorMACLen) as Hm by apply Hl.
  assert (1 <= String.length payload)%nat as Hp by (destruct payload; simpl; [done|lia]).
  rewrite str_length_app. rewrite (proj2 (Nat.ltb_ge _ _)) by lia.
  rewrite <- Hm, substring_prefix.
  replace (String.length mac + String.length payload - String.length mac)%nat with (String.length payload) by lia.
  rewrite substring_suffix. fold mac. rewrite String.eqb_refl. cbn [negb].
  unfold payload. rewrite json_parse_text by done. cbn [mbind option_bind].
  destruct c as [s k p]. cbn in Hk |- *. rewrite String.eqb_refl. cbn.
  destruct Hk as [->| ->]; done.
Qed.

(** A cursor stands for the source it was made for. *)
Lemma DecodeCursor_source key token want c :
  DecodeCursor key token want = Ok c -> cu_SourceID c = want.
Proof.
  unfold DecodeCursor, cursor_invalid, fails. destruct (RawURLDecode token) as [raw|]; [|done].
  destruct (Nat.ltb _ _); [done|]. cbv zeta. destruct (negb _); [done|].
  destruct (json_parse _ ≫= object_cursor) as [c'|]; [|done].
  destruct (String.eqb_spec (cu_SourceID c') want); [|done]. cbn [negb].
  destruct (_ && _); [done|]. by intros [= <-].
Qed.
End cursors.

(** ** The pages of a local folder *)

Lemma omap_cons {A B} (f : A -> option B) x l :
  omap f (x :: l) = match f x with Some y => y :: omap f l | None => omap f l end.
Proof. reflexivity. Qed.

Section local.
Context `{CaseTables} `{TokenPrimitives} `{FileSystem}.

(** The candidate of a name, if it has one. *)
Definition surfaced (realBase name : string) : option SourceCandidate :=
  if isSupported name then candidateFor realBase name else None.

Lemma candidateFor_reference realBase name c :
  candidateFor realBase name = Some c -> ReferenceID (ca_FileReference c) = name.
Proof.
  unfold candidateFor. destruct (path_shaped name); [done|].
  destruct (EvalSymlinks _) as [real|]; [|done]. destruct (negb _); [done|].
  destruct (Stat real) as [[] size| |]; try done.
  destruct (NewFileReference name _ _) as [ref|e|] eqn:Hr; try done. intros [= <-]. cbn.
  unfold NewFileReference, fails in Hr. repeat case_match; simplify_eq. done.
Qed.

(** The names that have a candidate. *)
Definition shown (realBase : string) (names : list string) : list string :=
  List.filter (fun n => bool_decide (is_Some (surfaced realBase n))) names.

Lemma shown_cons realBase n names :
  shown realBase (n :: names) =
  match surfaced realBase n with Some _ => n :: shown realBase names | None => shown realBase names end.
Proof. unfold shown. simpl. destruct (surfaced realBase n); simpl; done. Qed.

Lemma omap_shown realBase names :
  omap (surfaced realBase) (shown realBase names) = omap (surfaced realBase) names.
Proof.
  induction names as [|n names IH]; [done|]. rewrite shown_cons.
  rewrite omap_cons. destruct (surfaced realBase n) as [c|] eqn:E; [|done]. by rewrite omap_cons, E, IH.
Qed.

(** Past the names the cursor skips, the loop takes the next names shown. *)
Lemma list_loop_spec realBase after limit names items last :
  (length items <= limit)%nat ->
  (forall n, n ∈ names -> negb (String.eqb after "") && String.leb n after = false) ->
  let room := (limit - length items)%nat in
  let next := take room (shown realBase names) in
  list_loop realBase after limit names items last =
  (items ++ omap (surfaced realBase) next, List.last next last,
   Nat.ltb room (length (shown realBase names))).
Proof.
  revert items last. induction names as [|n names IH]; intros items last Hlen Ha; cbv zeta.
  { simpl. by rewrite take_nil, app_nil_r. }
  cbn [list_loop]. rewrite Ha by left. rewrite shown_cons.
  assert (forall n', n' ∈ names -> negb (String.eqb after "") && String.leb n' after = false) as Ha'
    by (intros; apply Ha; by right).
  destruct (surfaced realBase n) as [c|] eqn:E; unfold surfaced in E.
  2: { destruct (isSupported n); cbn [negb]; [rewrite E|]; by rewrite IH. }
  destruct (isSupported n) eqn:Hs; [|done]. cbn [negb]. rewrite E.
  destruct (Nat.eqb_spec (length items) limit) as [El|El].
  - replace (limit - length items)%nat with O by lia. cbn [take omap list_omap List.last length].
    by rewrite app_nil_r.
  - rewrite IH by (rewrite ?length_app; simpl; try lia; done). rewrite length_app. simpl length.
    replace (limit - length items)%nat with (S (limit - (length items + 1)))%nat by lia.
    cbn [take]. rewrite omap_cons. unfold surfaced at 2. rewrite Hs, E, <- app_assoc. cbn [app].
    by rewrite last_cons_default.
Qed.

(** ** Following the cursors *)

(** The pages a client reads when it follows the cursors. *)
Fixpoint local_pages (fuel : nat) (p : LocalProvider) (limit : Z) (cursor : string)
    : Result (list (list SourceCandidate)) :=
  match fuel with
  | O => OutOfFuel
  | S fuel' =>
      page ← LocalList p cursor limit;
      match pg_NextCursor page with
      | None => Ok [pg_Items page]
      | Some next => rest ← local_pages fuel' p limit next; Ok (pg_Items page :: rest)
      end
  end.

Definition string_lt (a b : string) : bool := String.leb a b && negb (String.eqb a b).

Lemma leb_antisym a b : String.leb a b = true -> String.leb b a = true -> a = b.
Proof.
  unfold String.leb. rewrite (String.compare_antisym b a).
  destruct (String.compare a b) eqn:E; simpl; try done. by apply String.compare_eq_iff in E.
Qed.

Lemma leb_total a b : String.leb a b = true \/ String.leb b a = true.
Proof. unfold String.leb. rewrite (String.compare_antisym b a). destruct (String.compare a b); auto. Qed.

Lemma sorted_around {A} (R : A -> A -> Prop) l1 x l2 :
  StronglySorted R (l1 ++ x :: l2) -> (forall a, a ∈ l1 -> R a x) /\ (forall b, b ∈ l2 -> R x b).
Proof.
  induction l1 as [|y l1 IH]; simpl; intros [Hs Hf]%StronglySorted_inv; rewrite Forall_forall in Hf.
  - split; [by intros a ?%elem_of_nil|done].
  - destruct (IH Hs) as [H1' H2']. split; [|done]. intros a [->|Ha]%elem_of_cons; [|by apply H1'].
    apply Hf, elem_of_app. right. by left.
Qed.

(** In a sorted list without repetition the names after [x] are those beyond
    it. *)
Lemma skip_through l1 x l2 n :
  StronglySorted (fun a b => String.leb a b = true) (l1 ++ x :: l2) -> NoDup (l1 ++ x :: l2) ->
  (n ∈ l1 ++ [x] -> String.leb n x = true) /\ (n ∈ l2 -> String.leb n x = false).
Proof.
  intros Hs Hd. apply sorted_around in Hs as [Hx Hf]. split.
  - rewrite elem_of_app, list_elem_of_singleton. intros [Hn| ->]; [by apply Hx|apply leb_refl].
  - intros Hn. destruct (String.leb n x) eqn:E; [|done]. exfalso.
    pose proof (leb_antisym _ _ E (Hf _ Hn)) as ->. apply NoDup_app in Hd as (_ & _ & Hd).
    apply NoDup_cons in Hd as [Hd _]. done.
Qed.

Lemma list_loop_skip realBase after limit l1 l2 items last :
  after <> "" -> (forall n, n ∈ l1 -> String.leb n after = true) ->
  list_loop realBase after limit (l1 ++ l2) items last = list_loop realBase after limit l2 items last.
Proof.
  intros Ha. rewrite <- (String.eqb_neq after "") in Ha.
  induction l1 as [|n l1 IH]; intros Hn; [done|]. cbn [app list_loop]. rewrite Ha, Hn by left. cbn [negb andb].
  apply IH. intros m Hm. apply Hn. by right.
Qed.

Lemma take_filter_split {A} (f : A -> bool) n l d :
  (n < length (List.filter f l))%nat -> (0 < n)%nat ->
  exists m1 x m2, l = m1 ++ x :: m2 /\ f x = true /\ List.last (take n (List.filter f l)) d = x /\
    take n (List.filter f l) = List.filter f (m1 ++ [x]) /\ drop n (List.filter f l) = List.filter f m2.
Proof.
  revert n d. induction l as [|y l IH]; intros n d Hn Hpos; [simpl in Hn; lia|].
  simpl in Hn |- *. destruct (f y) eqn:Hy; simpl in Hn |- *.
  - destruct n as [|n]; [lia|]. simpl. destruct (decide (n = 0%nat)) as [->|Hne].
    + exists [], y, l. simpl. rewrite Hy, take_0. done.
    + destruct (IH n y) as (m1 & x & m2 & -> & Hx & Hl & Ht & Hd); [lia..|].
      set (rest := m1 ++ x :: m2) in *.
      assert (List.last (y :: take n (List.filter f rest)) d = x) as Hl' by (by rewrite last_cons_default).
      exists (y :: m1), x, m2. split; [done|]. split; [done|]. split; [exact Hl'|]. cbn [app List.filter].
      rewrite Hy, Ht. by split.
  - destruct (IH n d) as (m1 & x & m2 & -> & Hx & Hl & Ht & Hd); [lia..|].
    exists (y :: m1), x, m2. simpl. rewrite Hy. by conjuncts.
Qed.

Record folder (p : LocalProvider) (realBase : string) (entries : list string) : Prop := {
  fo_base : EvalSymlinks (lp_basePath p) = Some realBase;
  fo_entries : ReadDirNames realBase = Some entries;
  fo_once : NoDup entries;
  fo_names n : n ∈ entries -> valid_utf8 n = true;
  fo_source : valid_utf8 (lp_sourceID p) = true;
}.

(** What a cursor stands for: the names taken so far. *)
Definition cursor_at (p : LocalProvider) (taken : list string) (cursor : string) : Prop :=
  cursor = "" /\ taken = [] \/
  exists l x, taken = l ++ [x] /\ x <> "" /\ cursor <> "" /\ resume_after p cursor = Ok x.

Lemma page_at p realBase entries limit cursor l1 l2 :
  folder p realBase entries -> sort_by String.leb entries = l1 ++ l2 -> cursor_at p l1 cursor ->
  let n := Z.to_nat (ClampLimit limit) in
  let next := take n (shown realBase l2) in
  LocalList p cursor limit =
  Ok (mkCandidatePage (omap (surfaced realBase) next)
        (if Nat.ltb n (length (shown realBase l2)) && negb (String.eqb (List.last next "") "")
         then Some (EncodeCursor (lp_key p) (mkCursor (lp_sourceID p) KindLocalFolder (List.last next ""))) else None)).
Proof.
  intros Hf E Hc n next. unfold LocalList. fold n.
  assert (exists after, resume_after p cursor = Ok after /\
    list_loop realBase after n (l1 ++ l2) [] "" = list_loop realBase after n l2 [] "" /\
    forall m, m ∈ l2 -> negb (String.eqb after "") && String.leb m after = false) as (after & -> & Hskip & Hl2).
  { destruct Hc as [[-> ->]|(l & x & -> & Hx & Hne & Hr)]; [by exists ""|]. exists x. split; [done|].
    assert (forall m, (m ∈ l ++ [x] -> String.leb m x = true) /\ (m ∈ l2 -> String.leb m x = false)) as Hs.
    { intros m. apply skip_through; rewrite <- (app_assoc l [x] l2) in E; cbn [app] in E; rewrite <- E.
      - apply sort_by_sorted; [apply leb_total|apply leb_trans].
      - rewrite sort_by_perm. apply (fo_once _ _ _ Hf). }
    split; [apply list_loop_skip; [done|]; intros m Hm; by apply Hs|].
    intros m Hm. destruct (Hs m) as [_ ->]; [by rewrite andb_false_r|done]. }
  cbn [mbind res_bind]. rewrite (fo_base _ _ _ Hf), (fo_entries _ _ _ Hf), E, Hskip.
  rewrite list_loop_spec; [|simpl; lia|done]. cbv zeta. cbn [length]. rewrite Nat.sub_0_r. reflexivity.
Qed.

(** What the cursors rely on: the length of the hash, and that the text of an
    object is not empty. *)
Record cursor_text : Prop := {
  ct_mac : mac_length;
  ct_text o : o <> [] -> json_text o <> "";
}.

Lemma surfaced_nonempty realBase : surfaced realBase "" = None.
Proof. unfold surfaced, candidateFor. by destruct (isSupported ""). Qed.

Lemma next_cursor_at p realBase entries taken x :
  cursor_text -> folder p realBase entries -> x ∈ entries -> x <> "" ->
  cursor_at p (taken ++ [x]) (EncodeCursor (lp_key p) (mkCursor (lp_sourceID p) KindLocalFolder x)).
Proof.
  intros [Hm Ht] Hf Hin Hx. right. exists taken, x. split; [done|]. split; [done|].
  pose proof (DecodeCursor_Encode (lp_key p) (mkCursor (lp_sourceID p) KindLocalFolder x) Hm) as Hd.
  assert (DecodeCursor (lp_key p) (EncodeCursor (lp_key p) (mkCursor (lp_sourceID p) KindLocalFolder x))
            (lp_sourceID p) = Ok (mkCursor (lp_sourceID p) KindLocalFolder x)) as Hdec.
  { apply Hd; [|by apply Ht|by left]. unfold object_utf8. simpl.
    by rewrite (fo_source _ _ _ Hf), (fo_names _ _ _ Hf x Hin). }
  assert (EncodeCursor (lp_key p) (mkCursor (lp_sourceID p) KindLocalFolder x) <> "") as Hne.
  { intros E. rewrite E in Hdec. by vm_compute in Hdec. }
  split; [done|]. unfold resume_after. by rewrite (proj2 (String.eqb_neq _ _) Hne), Hdec.
Qed.

Lemma ClampLimit_pos limit : 1 <= ClampLimit limit <= MaxLimit.
Proof.
  unfold ClampLimit, MaxLimit, DefaultLimit. destruct ((limit <? 1) || (50 <? limit)) eqn:E; [lia|]. bool_to_prop. lia.
Qed.

Lemma local_pages_from p realBase entries limit fuel : cursor_text -> folder p realBase entries ->
  let n := Z.to_nat (ClampLimit limit) in
  forall cursor l1 l2,
  sort_by String.leb entries = l1 ++ l2 -> cursor_at p l1 cursor -> (length (shown realBase l2) < fuel)%nat ->
  exists pages, local_pages fuel p limit cursor = Ok pages /\
    concat pages = omap (surfaced realBase) l2 /\
    Forall (fun page => length page <= n)%nat pages /\
    Forall (fun page => length page = n) (removelast pages).
Proof.
  intros Hc Hf n. induction fuel as [|fuel IH]; intros cursor l1 l2 E Hat Hfuel; [lia|].
  cbn [local_pages]. rewrite (page_at p realBase entries limit cursor l1 l2 Hf E Hat). fold n.
  assert (0 < n)%nat as Hn by (pose proof (ClampLimit_pos limit); unfold n; lia).
  assert (forall l, (forall m, m ∈ l -> is_Some (surfaced realBase m)) -> length (omap (surfaced realBase) l) = length l) as Hlen.
  { induction l as [|m l IHl]; intros Hs; [done|]. rewrite omap_cons. destruct (Hs m) as [c ->]; [by left|].
    simpl. f_equal. apply IHl. intros k Hk. apply Hs. by right. }
  assert (forall k, length (omap (surfaced realBase) (take k (shown realBase l2))) = (k `min` length (shown realBase l2))%nat) as Hpage.
  { intros k. rewrite Hlen; [apply length_take|]. intros m Hm%elem_of_take. destruct Hm as (j & Hj & _).
    apply list_elem_of_lookup_2, list_elem_of_In, filter_In in Hj as [_ Hj]. by apply bool_decide_eq_true in Hj. }
  destruct (Nat.ltb_spec n (length (shown realBase l2))) as [Hlt|Hge].
  - destruct (take_filter_split _ n l2 "" Hlt Hn) as (m1 & x & m2 & El & Hx & Hlast & Ht & Hd).
    fold (shown realBase l2) in Hlast, Ht, Hd. rewrite Hlast.
    assert (x <> "") as Hxne.
    { intros ->. rewrite bool_decide_eq_true, surfaced_nonempty in Hx. by destruct Hx. }
    rewrite (proj2 (String.eqb_neq _ _) Hxne). cbn [andb negb mbind res_bind pg_NextCursor pg_Items].
    assert (x ∈ entries) as Hin.
    { rewrite <- (sort_by_perm String.leb entries), E, El. rewrite !elem_of_app. right. right. by left. }
    destruct (IH (EncodeCursor (lp_key p) (mkCursor (lp_sourceID p) KindLocalFolder x)) ((l1 ++ m1) ++ [x]) m2)
      as (pages & -> & Hcat & Hshort & Hfull).
    + rewrite E, El, <- !app_assoc. done.
    + by eapply next_cursor_at.
    + change (length (shown realBase m2) < fuel)%nat. unfold shown. rewrite <- Hd, length_drop. lia.
    + cbn [mbind res_bind]. eexists. split; [reflexivity|]. split; [|split].
      * simpl. rewrite Hcat, Ht. fold (shown realBase (m1 ++ [x])). rewrite omap_shown, El, omap_app, omap_app.
        rewrite (omap_cons _ x m2), <- app_assoc. f_equal. rewrite omap_cons.
        by destruct (surfaced realBase x).
      * constructor; [rewrite Hpage; lia|done].
      * destruct pages as [|q pages]; [constructor|].
        change (removelast (?a :: q :: pages)) with (a :: removelast (q :: pages)).
        constructor; [rewrite Hpage; lia|done].
  - cbn [andb mbind res_bind pg_NextCursor pg_Items]. eexists. split; [reflexivity|]. simpl.
    rewrite app_nil_r, take_ge by lia. split; [apply omap_shown|]. split; [|constructor].
    constructor; [|constructor]. pose proof (Hpage n) as Hp. rewrite take_ge in Hp by lia. lia.
Qed.

(** Following the cursors of a local folder shows every book in it once.
    From the first page, with the same page size, the client reaches the last
    page after at most as many pages as the folder has entries, and one more;
    what it has read, in the byte order of the file names, is the candidate
    of every entry that has one: a book of a known extension whose path, once
    its links are resolved, is a regular file within the folder.  No page is
    longer than asked for and only the last may be shorter. *)
Theorem local_pages_complete p realBase entries limit :
  cursor_text -> folder p realBase entries ->
  exists pages, local_pages (S (length entries)) p limit "" = Ok pages /\
    concat pages = omap (surfaced realBase) (sort_by String.leb entries) /\
    StronglySorted (fun a b => String.leb a b = true)
      ((fun c => ReferenceID (ca_FileReference c)) <$> concat pages) /\
    NoDup ((fun c => ReferenceID (ca_FileReference c)) <$> concat pages) /\
    (forall name c, name ∈ entries -> surfaced realBase name = Some c -> c ∈ concat pages) /\
    Forall (fun page => length page <= Z.to_nat (ClampLimit limit))%nat pages /\
    Forall (fun page => length page = Z.to_nat (ClampLimit limit)) (removelast pages).
Proof.
  intros Hc Hf. destruct (local_pages_from p realBase entries limit (S (length entries)) Hc Hf "" []
    (sort_by String.leb entries)) as (pages & Hp & Hcat & Hshort & Hfull); [done|by left| |].
  { unfold shown. pose proof (List.filter_length_le (fun n => bool_decide (is_Some (surfaced realBase n)))
      (sort_by String.leb entries)) as Hl.
    pose proof (Permutation_length (sort_by_perm String.leb entries)). lia. }
  exists pages. rewrite Hcat.
  assert ((fun c => ReferenceID (ca_FileReference c)) <$> omap (surfaced realBase) (sort_by String.leb entries) =
    shown realBase (sort_by String.leb entries)) as Hids.
  { generalize (sort_by String.leb entries) as l. induction l as [|n l IHl]; [done|].
    rewrite omap_cons, shown_cons. destruct (surfaced realBase n) as [c|] eqn:Es; [|done].
    rewrite fmap_cons, IHl. f_equal. unfold surfaced in Es. destruct (isSupported n); [|done].
    by eapply candidateFor_reference. }
  rewrite Hids. conjuncts.
  - unfold shown. rewrite <- sort_by_filter; [apply sort_by_sorted|..]; try apply leb_total; try apply leb_trans.
  - unfold shown. apply NoDup_ListNoDup, List.NoDup_filter, NoDup_ListNoDup. rewrite sort_by_perm. apply (fo_once _ _ _ Hf).
  - intros name c Hin Hs. apply list_elem_of_omap. exists name. split; [|done]. by rewrite sort_by_perm.
Qed.

(** ** Confinement *)

(** A resolved path is the root or lies beneath it. *)
Definition beneath (root real : string) : Prop :=
  real = root \/ HasPrefix root "/" = HasPrefix real "/" /\ exists rest, elements real = elements root ++ rest.

Lemma strip_common_spec l k up down :
  strip_common l k = (up, down) -> exists c, l = c ++ up /\ k = c ++ down.
Proof.
  revert k. induction l as [|x l IH]; intros k; simpl; [intros [= <- <-]; by exists []|].
  destruct k as [|y k]; [intros [= <- <-]; by exists []|].
  destruct (String.eqb_spec x y) as [->|]; [|intros [= <- <-]; by exists []].
  intros (c & -> & ->)%IH. by exists (y :: c).
Qed.

Lemma join_up l : join_elements (".." :: l) = ".." \/ HasPrefix (join_elements (".." :: l)) "../" = true.
Proof. destruct l as [|x l]; [by left|right]. apply (prefix_app "../"). Qed.

Lemma withinRoot_beneath root real : withinRoot root real = true -> beneath root real.
Proof.
  unfold withinRoot, beneath. destruct (String.eqb_spec real root) as [->|_]; [by left|]. right.
  revert H2. unfold Rel. destruct (Bool.eqb _ _) eqn:Eb; [|done]. apply eqb_prop in Eb.
  cbn [negb]. destruct (strip_common _ _) as [up down] eqn:Es.
  apply strip_common_spec in Es as (c & Hr & Ht). destruct up as [|u up].
  - intros _. split; [done|]. exists down. by rewrite Ht, Hr, app_nil_r.
  - cbn [List.map app]. intros Hw. exfalso.
    destruct (join_up (List.map (fun _ => "..") up ++ down)) as [E|E]; rewrite E in Hw; [done|].
    by rewrite andb_false_r in Hw.
Qed.

(** A file a name leads to: a book, regular, within the folder. *)
Definition leads_to (realBase name real : string) : Prop :=
  path_shaped name = false /\ isSupported name = true /\
  EvalSymlinks (Join realBase name) = Some real /\ withinRoot realBase real = true /\
  beneath realBase real /\
  exists size, Stat real = StatOk RegularFile size.

Lemma list_loop_items realBase after limit names items last c :
  c ∈ (list_loop realBase after limit names items last).1.1 ->
  c ∈ items \/ exists n, n ∈ names /\ surfaced realBase n = Some c.
Proof.
  revert items last. induction names as [|n names IH]; intros items last; simpl; [by left|].
  assert (forall items' last', c ∈ (list_loop realBase after limit names items' last').1.1 ->
    c ∈ items' \/ exists m, m ∈ n :: names /\ surfaced realBase m = Some c) as IH'.
  { intros items' last' [?|(m & Hm & Hs)]%IH; [by left|right]. exists m. split; [by right|done]. }
  destruct (_ && _); [apply IH'|]. destruct (isSupported n) eqn:Hn; cbn [negb]; [|apply IH'].
  destruct (candidateFor realBase n) as [d|] eqn:Hd; [|apply IH'].
  destruct (Nat.eqb _ _); [by left|]. intros [[Hc| ->%list_elem_of_singleton]%elem_of_app|Hm]%IH'; [by left| |by right].
  right. exists n. split; [by left|]. unfold surfaced. by rewrite Hn.
Qed.

Lemma surfaced_leads realBase name c :
  surfaced realBase name = Some c ->
  ReferenceID (ca_FileReference c) = name /\ exists real, leads_to realBase name real.
Proof.
  unfold surfaced. destruct (isSupported name) eqn:Hs; [|done]. intros Hc.
  split; [by eapply candidateFor_reference|]. revert Hc. unfold candidateFor.
  destruct (path_shaped name) eqn:Hp; [done|]. destruct (EvalSymlinks _) as [real|] eqn:He; [|done].
  destruct (withinRoot realBase real) eqn:Hw; [|done]. cbn [negb].
  destruct (Stat real) as [[] size| |] eqn:Hst; try done. intros _. exists real.
  unfold leads_to. conjuncts; [by apply withinRoot_beneath|by exists size].
Qed.

(** C20: a local folder shows and opens nothing outside itself.  Whatever the
    file system holds and whatever cursor, size or reference is sent, each
    candidate listed names a book whose path, links resolved, is a regular
    file at or beneath the resolved folder, and resolving its reference opens
    that very file; and whatever reference is resolved, the bytes are those
    of such a file. *)
Theorem local_confined p :
  (forall cursor limit page c, LocalList p cursor limit = Ok page -> c ∈ pg_Items page ->
     exists realBase real, EvalSymlinks (lp_basePath p) = Some realBase /\
       leads_to realBase (ReferenceID (ca_FileReference c)) real /\
       LocalResolve p (ca_FileReference c) = match OpenFile real with Some f => Ok f | None => unavailable end) /\
  (forall ref f, LocalResolve p ref = Ok f ->
     exists realBase real, EvalSymlinks (lp_basePath p) = Some realBase /\
       leads_to realBase (ReferenceID ref) real /\ OpenFile real = Some f).
Proof.
  split.
  - intros cursor limit page c. unfold LocalList. destruct (resume_after p cursor) as [after|e|]; [|done..].
    cbn [mbind res_bind]. destruct (EvalSymlinks (lp_basePath p)) as [realBase|] eqn:Hb; [|done].
    destruct (ReadDirNames realBase) as [entries|]; [|done].
    destruct (list_loop _ _ _ _ _ _) as [[items last] cut] eqn:El. intros [= <-] Hc. cbn [pg_Items] in Hc.
    assert (c ∈ (list_loop realBase after (Z.to_nat (ClampLimit limit)) (sort_by String.leb entries) [] "").1.1) as Hc'
      by (by rewrite El).
    apply list_loop_items in Hc' as [?%elem_of_nil|(n & _ & Hs)]; [done|].
    apply surfaced_leads in Hs as (Hid & real & Hl). exists realBase, real. rewrite Hid. split; [done|]. split; [done|].
    destruct Hl as (Hp & Hn & He & Hw & _ & size & Hst). unfold LocalResolve. cbv zeta.
    by rewrite Hid, Hp, Hn, Hb, He, Hw, Hst.
  - intros ref f. unfold LocalResolve. cbv zeta. destruct (path_shaped _) eqn:Hp; [done|].
    destruct (isSupported _) eqn:Hn; [|done]. cbn [negb]. destruct (EvalSymlinks (lp_basePath p)) as [realBase|] eqn:Hb; [|done].
    destruct (EvalSymlinks (Join _ _)) as [real|] eqn:He; [|done]. destruct (withinRoot realBase real) eqn:Hw; [|done].
    cbn [negb]. destruct (Stat real) as [[] size| |] eqn:Hst; try done.
    destruct (OpenFile real) as [g|] eqn:Ho; [|done]. intros [= ->]. exists realBase, real. conjuncts.
    unfold leads_to. conjuncts; [by apply withinRoot_beneath|by exists size].
Qed.
End local.

(** ** The requests of a catalogue *)

Section requests.
Context `{CaseTables} `{FoldTable} `{Urls} `{TokenPrimitives} `{Decoders} `{Network}.

Definition sem_ok (w : wire) : Prop := match semaphore w with Some s => 0 <= held s | None => True end.

(** Two web addresses of the same origin: the same scheme, hosts that differ
    at most in their case, and the same port, which is that of the scheme where
    none is given.  Spaces around an address do not count. *)
Definition port_of (u : url) : string :=
  if decide (u_Port u = "") then if decide (u_Scheme u = "https") then "443" else "80" else u_Port u.

Record same_site (u v : url) : Prop := {
  site_web : u_Scheme u = "http" \/ u_Scheme u = "https";
  site_scheme : u_Scheme v = u_Scheme u;
  site_named : u_Hostname u <> "";
  site_host : Forall2 (fun r r' => fold_rune r = fold_rune r') (runes (u_Hostname u)) (runes (u_Hostname v));
  site_port : port_of v = port_of u;
}.
Definition same_origin (base candidate : string) : Prop :=
  exists u v, url_Parse (TrimSpace base) = Some u /\ url_Parse (TrimSpace candidate) = Some v /\ same_site u v.

(** What a request carries for a credential: that one; without one, the user
    and password its own address names, if it names any. *)
Definition carries (auth : option Credential) (o : outbound) : Prop :=
  match auth with
  | Some cred => ob_auth o = Some cred
  | None => exists u, url_Parse (ob_url o) = Some u /\
      ob_auth o = match u_User u with Some (user, password) => Some (mkCredential user password) | None => None end
  end.

(** What a request may be: to the catalogue's address or another of the same
    origin, with the given credential. *)
Definition permitted (base : string) (auth : option Credential) (o : outbound) : Prop :=
  (ob_url o = base \/ same_origin base (ob_url o)) /\ carries auth o.

Lemma parseAbsoluteHTTP_Some raw o :
  parseAbsoluteHTTP raw = Some o <->
  exists u, url_Parse (TrimSpace raw) = Some u /\ (u_Scheme u = "http" \/ u_Scheme u = "https") /\
    u_Hostname u <> "" /\ o = mkOriginParts (u_Scheme u) (u_Hostname u) (port_of u).
Proof.
  unfold parseAbsoluteHTTP. destruct (url_Parse (TrimSpace raw)) as [u|].
  2: { split; [done|]. by intros (u & ? & _). }
  assert ((if String.eqb (u_Port u) "" then if String.eqb (u_Scheme u) "https" then "443" else "80" else u_Port u) =
    port_of u) as Hport.
  { unfold port_of. by destruct (String.eqb_spec (u_Port u) ""), (String.eqb_spec (u_Scheme u) "https"),
      (decide (u_Port u = "")), (decide (u_Scheme u = "https")). }
  cbv zeta. rewrite Hport. clear Hport.
  destruct (String.eqb_spec (u_Scheme u) "http"), (String.eqb_spec (u_Scheme u) "https"),
    (String.eqb_spec (u_Hostname u) ""); cbn;
    (split; [try done; intros [= <-]; exists u; tauto|intros (v & [= <-] & Hs & Hn & ->); tauto]).
Qed.

Lemma SameOrigin_sound base candidate : SameOrigin base candidate = true -> same_origin base candidate.
Proof.
  unfold SameOrigin, same_origin. destruct (parseAbsoluteHTTP base) as [c|] eqn:Hc; [|done].
  destruct (parseAbsoluteHTTP candidate) as [o|] eqn:Ho; [|done].
  apply parseAbsoluteHTTP_Some in Hc as (u & Hu & Hw & Hn & ->), Ho as (v & Hv & _ & _ & ->). cbn.
  rewrite !andb_true_iff, !String.eqb_eq. unfold EqualFold. rewrite bool_decide_eq_true. intros [[Hs Hh] Hp].
  exists u, v. split_and!; try done. split; try done. by apply list_eq_Forall2, Forall2_fmap_1 in Hh.
Qed.

(** A run adds permitted requests and gives back the slots it takes. *)
Definition confined (base : string) (auth : option Credential) (w w' : wire) : Prop :=
  (exists l, sent w' = sent w ++ l /\ Forall (permitted base auth) l) /\
  (sem_ok w -> semaphore w' = semaphore w).

#[export] Instance confined_preorder base auth : PreOrder (confined base auth).
Proof.
  split.
  - intros w. split; [|done]. exists []. by rewrite app_nil_r.
  - intros w1 w2 w3 [(l & Hw2 & Hl) H1'] [(k & Hk & Hk') H2']. split.
    + exists (l ++ k). rewrite Hk, Hw2, app_assoc. split; [done|]. by apply Forall_app.
    + intros Hs. pose proof (H1' Hs) as E. rewrite H2'; [done|]. unfold sem_ok. by rewrite E.
Qed.

Lemma basic_auth_carries c u rawURL :
  url_Parse rawURL = Some u -> carries (auth_of c) (mkOutbound rawURL (basic_auth c u)).
Proof.
  intros Hu. unfold carries, basic_auth. destruct (auth_of c); [done|]. exists u. split; [done|]. cbn.
  by destruct (u_User u) as [[]|].
Qed.

Lemma get_confined base c u :
  u = base \/ SameOrigin base u = true -> always (confined base (auth_of c)) (get c u).
Proof.
  intros Hu w. unfold get.
  assert (forall sem, (sem_ok w -> Release <$> sem = semaphore w) -> forall reached,
    Forall (permitted base (auth_of c)) reached ->
    confined base (auth_of c) w (mkWire (sent w ++ reached) (Release <$> sem))) as Hgo.
  { intros sem Hs reached Hr. split; [|exact Hs]. by exists reached. }
  assert (forall sem, (sem_ok w -> Release <$> sem = semaphore w) ->
    confined base (auth_of c) w
      ((let '(x, reached) := match url_Parse u with
          | None => (BadRequest, [])
          | Some a => let req := mkOutbound u (basic_auth c a) in let x := exchange_with req in
                      (x, match x with BadRequest => [] | _ => [req] end)
          end in
        (read_response x, mkWire (sent w ++ reached) (Release <$> sem))).2)) as Hrun.
  { intros sem Hs. destruct (url_Parse u) as [a|] eqn:Ha; [|by apply Hgo]. cbv zeta.
    assert (permitted base (auth_of c) (mkOutbound u (basic_auth c a))) as Hp.
    { split; [|by apply basic_auth_carries]. destruct Hu as [->|Hs']; [by left|right; by apply SameOrigin_sound]. }
    apply Hgo; [done|]. destruct (exchange_with _); [by apply Forall_nil|by apply Forall_singleton..]. }
  clear Hgo. unfold sem_ok in Hrun. destruct (semaphore w) as [s|] eqn:Es.
  - unfold TryAcquire. destruct (Z.ltb_spec (held s) (slots s)); [|reflexivity]. apply (Hrun (Some _)).
    intros Hs. cbn. unfold Release. cbn. rewrite (proj2 (Z.ltb_lt _ _)) by lia.
    destruct s as [n h]. simpl. do 2 f_equal. lia.
  - by apply (Hrun None).
Qed.

Lemma fetched_confined base c u :
  u = base \/ SameOrigin base u = true -> always (confined base (auth_of c)) (fetched (get c u)).
Proof. intros Hu w. pose proof (get_confined base c u Hu w) as Hg. unfold fetched. by destruct (get c u w) as [[b|e|] w']. Qed.

Lemma resolveSameOrigin_origin base href :
  resolveSameOrigin base href <> "" -> SameOrigin base (resolveSameOrigin base href) = true.
Proof.
  unfold resolveSameOrigin. cbv zeta. destruct (String.eqb _ _); [done|].
  destruct (url_Parse base); [|done]. destruct (url_Parse _); [|done].
  by destruct (SameOrigin base (url_Resolve base _)) eqn:E.
Qed.

Lemma resume_url_origin p first cursor u :
  resume_url p first cursor = Ok (Some u) -> u = first \/ SameOrigin (od_baseURL p) u = true.
Proof.
  unfold resume_url. destruct (String.eqb cursor ""); [intros [= <-]; by left|].
  destruct (DecodeCursor _ _ _) as [c|e|]; [|done..]. cbn [mbind res_bind]. unfold ForOPDSPosition, fails.
  destruct (negb (String.eqb (cu_Kind c) KindOPDS)); [done|].
  destruct (String.eqb (cu_Position c) "") eqn:E; [done|].
  destruct (SameOrigin (od_baseURL p) (cu_Position c)) eqn:Es; [|done]. cbn. rewrite E. intros [= <-]. by right.
Qed.

Definition client_of (p : OPDSProvider) : option Credential := auth_of (od_client p).

Lemma feed_page_confined p u :
  u = od_baseURL p \/ SameOrigin (od_baseURL p) u = true ->
  always (confined (od_baseURL p) (client_of p)) (feed_page p u).
Proof.
  intros Hu. unfold feed_page. apply always_bind; [apply _|by apply fetched_confined|].
  intros body. destruct (parseFeed body); [apply always_ret; apply _|apply always_throw; apply _..].
Qed.

Lemma OPDSList_confined p cursor : always (confined (od_baseURL p) (client_of p)) (OPDSList p cursor).
Proof.
  unfold OPDSList. apply always_after; [apply _|by intros w|].
  intros [u|] w Hr; [|reflexivity]. cbn in Hr. apply resume_url_origin in Hr. by apply feed_page_confined.
Qed.

Lemma OPDSSearch_confined p q cursor : always (confined (od_baseURL p) (client_of p)) (OPDSSearch p q cursor).
Proof.
  unfold OPDSSearch. destruct (String.eqb _ _); [apply always_throw; apply _|].
  apply always_after; [apply _|by intros w|]. intros [u|] w Hr; [|reflexivity].
  destruct (SameOrigin (od_baseURL p) u) eqn:E; cbn [negb]; [|reflexivity]. apply feed_page_confined. by right.
Qed.

Lemma OPDSResolve_confined p ref : always (confined (od_baseURL p) (client_of p)) (OPDSResolve p ref).
Proof.
  unfold OPDSResolve. cbv zeta. destruct (String.eqb_spec (resolveSameOrigin (od_baseURL p) (ReferenceID ref)) "") as [E|E].
  - apply always_throw. apply _.
  - apply fetched_confined. right. by apply resolveSameOrigin_origin.
Qed.

Lemma detectSearch_confined p pf : always (confined (od_baseURL p) (client_of p)) (detectSearch p pf).
Proof.
  unfold detectSearch. destruct (String.eqb _ _); [apply always_ret; apply _|]. cbv zeta.
  destruct (String.eqb_spec (resolveSameOrigin (od_baseURL p) (pf_searchHref pf)) "") as [E|E]; [apply always_ret; apply _|].
  destruct (negb _); [apply always_ret; apply _|]. intros w.
  pose proof (get_confined (od_baseURL p) (od_client p) (resolveSameOrigin (od_baseURL p) (pf_searchHref pf))
    (or_intror (resolveSameOrigin_origin _ _ E)) w) as Hg.
  destruct (get _ _ w) as [[b|e|] w']; exact Hg.
Qed.

Lemma OPDSProbe_confined p w : confined (od_baseURL p) (client_of p) w (OPDSProbe p w).2.
Proof.
  unfold OPDSProbe. pose proof (get_confined (od_baseURL p) (od_client p) (od_baseURL p) (or_introl eq_refl) w) as Hg.
  destruct (get _ _ w) as [[body|e|] w1]; [|exact Hg..]. destruct (parseFeed body) as [pf|e|]; [|exact Hg..].
  pose proof (detectSearch_confined p pf w1) as Hd. destruct (detectSearch p pf w1) as [r w2]. cbn in *. by etrans.
Qed.
End requests.

(** ** The requests of the handlers *)

Section handlers.
Context `{CaseTables} `{FoldTable} `{Urls} `{Addresses} `{TokenPrimitives} `{Crypto} `{Decoders} `{Network}
  `{FileSystem}.

Definition same_wire (w w' : world) : Prop := wd_wire w' = wd_wire w.
#[export] Instance same_wire_preorder : PreOrder same_wire.
Proof. split; [done|]. intros w1 w2 w3 H1' H2'. unfold same_wire in *. by rewrite H2'. Qed.

Lemma on_catalog_wire {A} (m : stM catalog_db error A) : always same_wire (on_catalog m).
Proof. intros w. unfold on_catalog. by destruct (m (wd_db w)). Qed.
Lemma or_domain_wire {A} (m : stM world error A) : always same_wire m -> always same_wire (or_domain m).
Proof.
  intros Hm. unfold or_domain, or_fail. apply always_bind; [apply _|by apply always_attempt|].
  intros [a|e|]; [apply always_ret|apply always_throw..]; apply _.
Qed.
Lemma record_health_wire fault now id probe : always same_wire (record_health fault now id probe).
Proof. apply or_domain_wire, on_catalog_wire. Qed.

Lemma on_catalog_pure {A} (m : stM catalog_db error A) : pure m -> pure (on_catalog m).
Proof.
  intros Hm [db w]. specialize (Hm db). unfold on_catalog. cbn [wd_db wd_wire].
  destruct (m db) as [r db']. cbn in *. by subst.
Qed.
Lemma or_fail_pure {S A} (m : stM S error A) f : pure m -> pure (or_fail m f).
Proof.
  intros Hm. unfold or_fail. apply pure_bind; [by apply pure_attempt|]. by intros [a|e|] s.
Qed.

Lemma GetSourceRecord_pure fault id : pure (GetSourceRecord fault id).
Proof. unfold GetSourceRecord. apply pure_bind; [apply query_one_pure|]. intros r. apply pure_ret. Qed.

Lemma get_record_pure fault id : pure (or_domain (on_catalog (GetSourceRecord fault id))).
Proof. apply or_fail_pure, on_catalog_pure, GetSourceRecord_pure. Qed.

Lemma get_record_ok fault id w rec :
  (or_domain (on_catalog (GetSourceRecord fault id)) w).1 = Ok rec ->
  exists row, ct_sources (wd_db w) !! id = Some row /\ rec = source_record id row.
Proof.
  unfold or_domain, or_fail, attempt, on_catalog, GetSourceRecord, mbind, stM_bind.
  destruct (query_one _ _ _ (wd_db w)) as [[row|e|] db'] eqn:E; cbn; [|done..].
  apply query_one_ok in E as (_ & Hr & _). intros [= <-]. by exists row.
Qed.

(** What a handler may send for a stored source: requests to its own origin,
    with its own credential or only what the address itself names. *)
Definition own_request (id : string) (db : catalog_db) (o : outbound) : Prop :=
  exists row, ct_sources db !! id = Some row /\
    (permitted (sc_config_base_url row) None o \/
     permitted (sc_config_base_url row) (stored_credential (source_record id row)) o).

Definition own_requests (id : string) (w w' : world) : Prop :=
  (exists l, sent (wd_wire w') = sent (wd_wire w) ++ l /\ Forall (own_request id (wd_db w)) l) /\
  (sem_ok (wd_wire w) -> semaphore (wd_wire w') = semaphore (wd_wire w)).

#[export] Instance own_requests_refl id : Reflexive (own_requests id).
Proof. intros w. split; [|done]. exists []. by rewrite app_nil_r. Qed.

Lemma same_wire_own id w w' : same_wire w w' -> own_requests id w w'.
Proof. unfold same_wire, own_requests. intros ->. split; [|done]. exists []. by rewrite app_nil_r. Qed.

(** Requests first, then calls that send nothing. *)
Lemma own_then {A B} id (m : sourceH A) (f : A -> sourceH B) w :
  own_requests id w (m w).2 -> (forall a, always same_wire (f a)) -> own_requests id w ((m ≫= f) w).2.
Proof.
  intros Hm Hf. unfold mbind, stM_bind. destruct (m w) as [[a|e|] w1]; [|exact Hm..].
  specialize (Hf a w1). unfold same_wire in Hf. unfold own_requests in *. by rewrite Hf.
Qed.

Lemma confined_own id w w' row auth :
  ct_sources (wd_db w) !! id = Some row ->
  auth = None \/ auth = stored_credential (source_record id row) ->
  confined (sc_config_base_url row) auth (wd_wire w) (wd_wire w') -> own_requests id w w'.
Proof.
  intros Hr Ha [(l & Hl & Hf) Hs]. split; [|done]. exists l. split; [done|].
  eapply Forall_impl; [exact Hf|]. intros o Ho. exists row. split; [done|].
  destruct Ha as [->| ->]; auto.
Qed.

Lemma auth_of_cases cred has : auth_of (mkHttpClient cred has) = None \/ has = true /\ auth_of (mkHttpClient cred has) = Some cred.
Proof. unfold auth_of. simpl. destruct has; [|by left]. simpl. destruct (IsZero cred); auto. Qed.

(** The providers a stored source is given. *)
Definition own_provider (id : string) (row : source_cols) (prov : provider) : Prop :=
  match prov with
  | PLocal _ => True
  | POPDS p => od_baseURL p = sc_config_base_url row /\
               (client_of p = None \/ client_of p = stored_credential (source_record id row))
  end.

Lemma new_opds_own id row cfg template cred has :
  (has = true -> stored_credential (source_record id row) = Some cred) ->
  own_provider id row (new_opds id (sc_config_base_url row) template cred has cfg).
Proof.
  intros Hc. split; [done|]. unfold client_of. cbn.
  destruct (auth_of_cases cred has) as [->|[Ht ->]]; [by left|right]. by rewrite Hc.
Qed.

Lemma stored_provider_own cfg id row w prov w' :
  stored_provider cfg (source_record id row) w = (Ok prov, w') -> w' = w /\ own_provider id row prov.
Proof.
  unfold stored_provider, source_unavailable, invalid, throw. destruct (sc_Codec _) as [key|]; [|done].
  destruct (String.eqb _ KindLocalFolder).
  { destruct (NewLocal _ _ _); [|done..]. by intros [= <- <-]. }
  destruct (String.eqb _ KindOPDS); [|done]. destruct (HasCredential _).
  - destruct (sc_Encryptor _); [|done]. destruct (stored_credential _) as [cred|] eqn:Ec; [|done].
    intros [= <- <-]. split; [done|]. by apply new_opds_own.
  - intros [= <- <-]. split; [done|]. by apply new_opds_own.
Qed.

Lemma ListPage_own id row prov cursor limit w :
  ct_sources (wd_db w) !! id = Some row -> own_provider id row prov ->
  own_requests id w (ListPage prov cursor limit w).2.
Proof.
  intros Hr Hp. destruct prov as [p|p]; [reflexivity|]. destruct Hp as [Hb Ha].
  unfold ListPage, on_wire. pose proof (OPDSList_confined p cursor (wd_wire w)) as Hc. rewrite Hb in Hc.
  destruct (OPDSList p cursor (wd_wire w)) as [r n]. by eapply confined_own.
Qed.
Lemma SearchPage_own id row prov q cursor w :
  ct_sources (wd_db w) !! id = Some row -> own_provider id row prov ->
  own_requests id w (SearchPage prov q cursor w).2.
Proof.
  intros Hr Hp. destruct prov as [p|p]; [reflexivity|]. destruct Hp as [Hb Ha].
  unfold SearchPage, on_wire. pose proof (OPDSSearch_confined p q cursor (wd_wire w)) as Hc. rewrite Hb in Hc.
  destruct (OPDSSearch p q cursor (wd_wire w)) as [r n]. by eapply confined_own.
Qed.
Lemma Probe_own id row prov w :
  ct_sources (wd_db w) !! id = Some row -> own_provider id row prov -> own_requests id w (Probe prov w).2.
Proof.
  intros Hr Hp. destruct prov as [p|p]; [reflexivity|]. destruct Hp as [Hb Ha].
  unfold Probe. pose proof (OPDSProbe_confined p (wd_wire w)) as Hc. rewrite Hb in Hc.
  destruct (OPDSProbe p (wd_wire w)) as [r n]. by eapply confined_own.
Qed.

Lemma or_domain_own {A} id (m : stM world error A) w :
  own_requests id w (m w).2 -> own_requests id w (or_domain m w).2.
Proof.
  unfold or_domain, or_fail, attempt, mbind, stM_bind. by destruct (m w) as [[a|e|] w'].
Qed.

Lemma valid_source_id_pure id : pure (valid_source_id id).
Proof. unfold valid_source_id. by destruct (is_ok _). Qed.
Lemma or_invalid_pure {A} (r : Result A) : pure (or_invalid r).
Proof. by apply or_fail_pure. Qed.
Lemma check_query_pure q : pure (check_query q).
Proof. unfold check_query, invalid. intros w. by repeat case_match. Qed.
Lemma stored_provider_pure cfg rec : pure (stored_provider cfg rec).
Proof. unfold stored_provider, source_unavailable, invalid. intros w. by repeat case_match. Qed.

Lemma probe_local_own id row cfg w :
  ct_sources (wd_db w) !! id = Some row -> own_requests id w (probe_local cfg (source_record id row) w).2.
Proof. intros Hr. unfold probe_local. destruct (NewLocal _ _ _); reflexivity. Qed.
Lemma probe_opds_own id row cfg w :
  ct_sources (wd_db w) !! id = Some row -> own_requests id w (probe_opds cfg (source_record id row) w).2.
Proof.
  intros Hr. unfold probe_opds. destruct (HasCredential _) eqn:Hh.
  - destruct (sc_Encryptor _); [|reflexivity].
    destruct (stored_credential _) as [cred|] eqn:Ec; [|reflexivity].
    eapply Probe_own; [exact Hr|]. by apply new_opds_own.
  - eapply Probe_own; [exact Hr|]. by apply new_opds_own.
Qed.

(** C19: what the server says to a source.  Whatever the tables, the network
    and the feeds hold, every request that browsing, searching or checking a
    source makes goes to the address the source is configured with or to one
    of the same scheme, host and port.  It carries the source's own stored
    credential; when the provider was given none, it carries the user and
    password named in the address that is fetched, if it names any, which
    nothing refuses and net/http sends.  A request's slot is given back.
    Listing the sources, reading one and deleting one make no request. *)
Theorem source_requests_confined cfg now fault faults tx id q limit cursor :
  always (own_requests id) (BrowseSourceHandler cfg fault id limit cursor) /\
  always (own_requests id) (SearchSourceHandler cfg fault id q limit cursor) /\
  always (own_requests id) (HealthCheckSourceHandler cfg now faults id) /\
  always same_wire (ListSourcesHandler fault) /\
  always same_wire (GetSourceHandler fault id) /\
  always same_wire (DeleteSourceHandler cfg fault tx now id).
Proof.
  split; [|split; [|split; [|split; [|split]]]].
  - unfold BrowseSourceHandler.
    apply always_after; [apply _|apply valid_source_id_pure|intros _ w1 _].
    revert w1. apply always_after; [apply _|apply or_invalid_pure|intros lim w1 _].
    revert w1. apply always_after; [apply _|apply get_record_pure|intros rec w1 Hrec].
    apply get_record_ok in Hrec as (row & Hr & ->).
    rewrite bind_pure by apply stored_provider_pure.
    destruct (stored_provider cfg (source_record id row) w1) as [[prov|e|] w2] eqn:Hp; cbn [fst snd]; [|reflexivity..].
    apply stored_provider_own in Hp as [-> Hp]. by eapply or_domain_own, ListPage_own.
  - unfold SearchSourceHandler.
    apply always_after; [apply _|apply valid_source_id_pure|intros _ w1 _].
    revert w1. apply always_after; [apply _|apply check_query_pure|intros _ w1 _].
    revert w1. apply always_after; [apply _|apply or_invalid_pure|intros lim w1 _].
    revert w1. apply always_after; [apply _|apply get_record_pure|intros rec w1 Hrec].
    apply get_record_ok in Hrec as (row & Hr & ->). destruct (negb _); [reflexivity|].
    change (own_requests id w1 ((stored_provider cfg (source_record id row) ≫=
      fun prov => or_domain (SearchPage prov q cursor)) w1).2).
    rewrite bind_pure by apply stored_provider_pure.
    destruct (stored_provider cfg (source_record id row) w1) as [[prov|e|] w2] eqn:Hp; cbn [fst snd]; [|reflexivity..].
    apply stored_provider_own in Hp as [-> Hp]. by eapply or_domain_own, SearchPage_own.
  - unfold HealthCheckSourceHandler.
    apply always_after; [apply _|apply valid_source_id_pure|intros _ w1 _].
    revert w1. apply always_after; [apply _|apply get_record_pure|intros rec w1 Hrec].
    apply get_record_ok in Hrec as (row & Hr & ->). apply own_then.
    + destruct (String.eqb _ KindLocalFolder); [by apply probe_local_own|].
      destruct (String.eqb _ KindOPDS); [by apply probe_opds_own|reflexivity].
    + intros probe. apply always_bind; [apply _|apply record_health_wire|]. intros _. apply always_ret. apply _.
  - unfold ListSourcesHandler. apply always_bind; [apply _|apply or_domain_wire, on_catalog_wire|].
    intros l. apply always_ret. apply _.
  - unfold GetSourceHandler. apply always_after; [apply _|apply valid_source_id_pure|intros _ w1 _].
    revert w1. apply always_bind; [apply _|apply or_domain_wire, on_catalog_wire|]. intros rec. apply always_ret. apply _.
  - unfold DeleteSourceHandler. apply always_after; [apply _|apply valid_source_id_pure|intros _ w1 _].
    revert w1. apply always_bind; [apply _|apply or_domain_wire, on_catalog_wire|]. intros _.
    apply always_bind; [apply _|destruct (negb _); [apply always_throw|apply always_ret]; apply _|]. intros _.
    apply always_bind; [apply _|apply or_domain_wire, on_catalog_wire|]. intros _. apply always_ret. apply _.
Qed.

(** ** What a change does, in its order *)

(** The row with another address. *)
Definition moved (url : string) (row : source_cols) : source_cols :=
  mkSourceCols (sc_label row) (sc_kind row) (sc_config_base_path row) url (sc_credential_ciphertext row)
    (sc_credential_nonce row) (sc_health_status row) (sc_health_detail row) (sc_health_checked_at row)
    (sc_search_link_url row) (sc_capabilities row) (sc_created_at row).

Definition move_to (url : string) (cred : option credentialInput) : wireSourceUpdate :=
  mkWireSourceUpdate None (Some (mkWireSourceConfig None (Some url))) cred.

Lemma or_domain_run {A} (m : stM world error A) w :
  or_domain m w = match m w with
                  | (Ok a, w') => (Ok a, w')
                  | (Err e, w') => (Err (domain_http e), w')
                  | (OutOfFuel, w') => (Err Panicked, w')
                  end.
Proof. unfold or_domain, or_fail, attempt, mbind, stM_bind. by destruct (m w) as [[a|e|] w']. Qed.
Lemma or_invalid_ok {A} (r : Result A) a w : r = Ok a -> or_invalid r w = (Ok a, w).
Proof. by intros ->. Qed.

Lemma run_bind {S E A B} (m : stM S E A) (f : A -> stM S E B) s a s' :
  m s = (Ok a, s') -> (m ≫= f) s = f a s'.
Proof. intros Hm. unfold mbind, stM_bind. by rewrite Hm. Qed.

Lemma bind_ext {S E A B} (m : stM S E A) (f g : A -> stM S E B) s :
  (forall a s', f a s' = g a s') -> (m ≫= f) s = (m ≫= g) s.
Proof. intros Hfg. unfold mbind, stM_bind. destruct (m s) as [[a|e|] s']; auto. Qed.

(** The run of a change of address, up to the credential. *)
Lemma UpdateSource_moves cfg rand now faults id row url cred db n :
  is_ok (ValidateBoundedText "id" id 100) = true -> (forall k, faults k = None) ->
  ct_sources db !! id = Some row -> sc_kind row = KindOPDS -> source_checks row = true ->
  ValidateOPDSBaseURL url = Ok tt -> RejectBlockedLiteralHost url (cfg_allowPrivate cfg) = Ok tt ->
  let rec := source_record id row in
  let db1 := with_sources (<[id := moved url row]> (ct_sources db)) db in
  UpdateSourceHandler cfg rand now faults id (Some (move_to url cred)) (mkWorld db n) =
  ('(cred, hasCred) ← update_credential cfg rand None id rec (move_to url cred);
   probe ← Probe (new_opds id url (sr_SearchLinkURL rec) cred hasCred cfg);
   _ ← record_health None now id probe;
   updatedRec ← or_domain (on_catalog (GetSourceRecord None id));
   mret (mapSourceToWire updatedRec)) (mkWorld db1 n).
Proof.
  intros Hid Hf Hr Hk Hc Hv Hb rec db1. unfold UpdateSourceHandler.
  erewrite run_bind by (unfold valid_source_id; rewrite Hid; reflexivity).
  assert (or_domain (on_catalog (GetSourceRecord (faults 0%nat) id)) (mkWorld db n) = (Ok rec, mkWorld db n)) as Hget.
  { rewrite or_domain_run, Hf. unfold on_catalog, GetSourceRecord, query_one, exec, mbind, stM_bind. cbn.
    by rewrite Hr. }
  rewrite (run_bind _ _ _ _ _ Hget). erewrite run_bind by reflexivity. erewrite run_bind by reflexivity.
  assert (String.eqb (sr_Kind rec) KindLocalFolder = false /\ String.eqb (sr_Kind rec) KindOPDS = true) as [Hk1 Hk2]
    by (cbn; by rewrite Hk).
  assert (update_config cfg rec (move_to url cred) (mkWorld db n) = (Ok (sr_ConfigBasePath rec, url), mkWorld db n)) as Hcfg.
  { unfold update_config. cbn [uq_Config move_to]. rewrite Hk1, Hk2.
    assert (opds_config cfg (mkWireSourceConfig None (Some url)) (mkWorld db n) = (Ok url, mkWorld db n)) as Ho.
    { unfold opds_config. cbn [wc_BaseURL]. rewrite (run_bind _ _ _ _ _ (or_invalid_ok _ _ _ Hv)).
      rewrite (run_bind _ _ _ _ _ (or_invalid_ok _ _ _ Hb)). reflexivity. }
    by rewrite (run_bind _ _ _ _ _ Ho). }
  rewrite (run_bind _ _ _ _ _ Hcfg). cbv beta iota. rewrite !Hf.
  assert (or_domain (on_catalog (UpdateSourceConfig None id (sr_Label rec) (sr_ConfigBasePath rec) url)) (mkWorld db n)
    = (Ok tt, mkWorld db1 n)) as Hup.
  { rewrite or_domain_run. unfold on_catalog, UpdateSourceConfig, update_source, affecting, exec, mbind, stM_bind.
    cbn [wd_db wd_wire]. rewrite Hr. unfold write_source.
    change (source_checks (mkSourceCols (sr_Label rec) (sc_kind row) (sr_ConfigBasePath rec) url _ _ _ _ _ _ _ _))
      with (source_checks row). by rewrite Hc. }
  rewrite (run_bind _ _ _ _ _ Hup). apply bind_ext. intros [c h] w1. by rewrite Hk1.
Qed.

Lemma NewCredential_not_zero u p c : NewCredential u p = Ok c -> IsZero c = false.
Proof.
  unfold NewCredential, fails. destruct (String.eqb_spec (TrimSpace u) "") as [|Hu]; [done|].
  repeat (destruct (_ : bool); [done|]). intros [= <-]. unfold IsZero. simpl.
  destruct (String.eqb_spec u "") as [->|]; [by vm_compute in Hu|done].
Qed.
Lemma stored_credential_not_zero rec c : stored_credential rec = Some c -> IsZero c = false.
Proof.
  unfold stored_credential. destruct (Decrypt _ _) as [pt|e|]; [|done..].
  destruct (json_parse pt ≫= object_credential) as [ci|]; [|done].
  destruct (NewCredential _ _) as [c'|e|] eqn:E; try done. intros [= <-]. by eapply NewCredential_not_zero.
Qed.

(** The first request of a probe. *)
Lemma OPDSProbe_first p w u cred :
  semaphore w = None -> url_Parse (od_baseURL p) = Some u -> client_of p = Some cred ->
  exchange_with (mkOutbound (od_baseURL p) (Some cred)) <> BadRequest ->
  exists l, sent (OPDSProbe p w).2 = sent w ++ mkOutbound (od_baseURL p) (Some cred) :: l.
Proof.
  intros Hs Hu Hc Hx. unfold OPDSProbe. assert (get (od_client p) (od_baseURL p) w =
    (read_response (exchange_with (mkOutbound (od_baseURL p) (Some cred))),
     mkWire (sent w ++ [mkOutbound (od_baseURL p) (Some cred)]) None)) as ->.
  { unfold get. rewrite Hs, Hu. unfold basic_auth. change (auth_of (od_client p)) with (client_of p). rewrite Hc.
    cbn. by destruct (exchange_with _). }
  destruct (read_response _) as [body|e|]; [|by exists []..]. destruct (parseFeed body) as [pf|e|]; [|by exists []..].
  destruct (detectSearch_confined p pf (mkWire (sent w ++ [mkOutbound (od_baseURL p) (Some cred)]) None))
    as [(l & Hl & _) _].
  destruct (detectSearch p pf _) as [r w2]. cbn in Hl |- *. exists l. by rewrite Hl, <- app_assoc.
Qed.

Lemma ValidateOPDSBaseURL_parses url : ValidateOPDSBaseURL url = Ok tt -> exists u, url_Parse url = Some u.
Proof.
  unfold ValidateOPDSBaseURL, fails. destruct (url_Parse url) as [u|]; [by exists u|]. by repeat case_match.
Qed.

(** A change of a source's address takes effect before its credential is
    looked at.  When a request changes the address of a catalogue and its new
    credential is refused, the answer is that refusal and the address has
    changed all the same.  When it brings no credential, the one stored for
    the old address is sent to the new one, whatever its origin. *)
Theorem UpdateSource_order cfg rand now faults id row url db n :
  is_ok (ValidateBoundedText "id" id 100) = true -> (forall k, faults k = None) ->
  ct_sources db !! id = Some row -> sc_kind row = KindOPDS -> source_checks row = true ->
  ValidateOPDSBaseURL url = Ok tt -> RejectBlockedLiteralHost url (cfg_allowPrivate cfg) = Ok tt ->
  let db1 := with_sources (<[id := moved url row]> (ct_sources db)) db in
  (forall c e, NewCredential (ci_Username c) (ci_Password c) = Err e ->
     UpdateSourceHandler cfg rand now faults id (Some (move_to url (Some c))) (mkWorld db n) =
     (Err (HTTPError InvalidInput (Error e)), mkWorld db1 n)) /\
  (forall cred, HasCredential (source_record id row) = true -> sc_Encryptor (crypto_of cfg) = true ->
     stored_credential (source_record id row) = Some cred ->
     semaphore n = None -> exchange_with (mkOutbound url (Some cred)) <> BadRequest ->
     exists l, sent (wd_wire (UpdateSourceHandler cfg rand now faults id (Some (move_to url None)) (mkWorld db n)).2) =
       sent n ++ mkOutbound url (Some cred) :: l).
Proof.
  intros Hid Hf Hr Hk Hc Hv Hb db1. split.
  - intros c e He. rewrite (UpdateSource_moves _ _ _ _ _ row) by done. cbv zeta.
    unfold mbind at 1, stM_bind at 1. unfold update_credential. cbn [uq_Credential move_to].
    assert (String.eqb (sr_Kind (source_record id row)) KindLocalFolder = false) as -> by (cbn; by rewrite Hk).
    unfold mbind at 1, stM_bind at 1. unfold or_invalid at 1. unfold or_fail, reading, attempt, mbind at 1, stM_bind at 1.
    rewrite He. reflexivity.
  - intros cred Hh He Hs Hsem Hx. rewrite (UpdateSource_moves _ _ _ _ _ row) by done. cbv zeta. fold db1.
    assert (update_credential cfg rand None id (source_record id row) (move_to url None) (mkWorld db1 n)
      = (Ok (cred, true), mkWorld db1 n)) as Hcred.
    { unfold update_credential. cbn [uq_Credential move_to].
      assert (String.eqb (sr_Kind (source_record id row)) KindOPDS = true) as -> by (cbn; by rewrite Hk).
      rewrite Hh, He, Hs. reflexivity. }
    rewrite (run_bind _ _ _ _ _ Hcred). cbv beta iota.
    set (p := mkOPDSProvider id url (mkHttpClient cred true) (key_of cfg) (sr_SearchLinkURL (source_record id row))).
    assert (client_of p = Some cred) as Hcl.
    { unfold client_of, auth_of. cbn. by rewrite (stored_credential_not_zero _ _ Hs). }
    destruct (ValidateOPDSBaseURL_parses _ Hv) as [u Hu].
    destruct (OPDSProbe_first p n u cred Hsem Hu Hcl Hx) as [l Hl]. exists l. transitivity (sent (OPDSProbe p n).2); [|exact Hl].
    change (new_opds _ _ _ _ _ _) with (POPDS p).
    assert (Probe (POPDS p) (mkWorld db1 n) = (Ok (OPDSProbe p n).1, mkWorld db1 (OPDSProbe p n).2)) as Hp.
    { unfold Probe. cbn [wd_wire wd_db]. by destruct (OPDSProbe p n). }
    rewrite (run_bind _ _ _ _ _ Hp).
    assert (always same_wire (_ ← record_health None now id (OPDSProbe p n).1;
      updatedRec ← or_domain (on_catalog (GetSourceRecord None id)); mret (mapSourceToWire updatedRec))) as Hw.
    { apply always_bind; [apply _|apply record_health_wire|]. intros _.
      apply always_bind; [apply _|apply or_domain_wire, on_catalog_wire|]. intros rec. apply always_ret. apply _. }
    by rewrite (Hw (mkWorld db1 (OPDSProbe p n).2)).
Qed.
End handlers.
