(* ===== verification/SourceDemo.v ===== *)
(** * Sources on concrete inputs

    The addresses that may be dialled, in closed form, and the runs that show
    the guarantees of the source adapters on a concrete folder, network and
    set of tables. *)

From S2P Require Import Prelude GoStrings Errors Validate Catalog Transactor Postgres Http PairingStore PairingSafety Encoding Tokens Paths Net Access Services CatalogStore CatalogLaws Library Sources SourceProviders SourceHandlers SourceSafety.

Local Open Scope string_scope.
Local Open Scope list_scope.
Local Open Scope Z_scope.

(** ** Addresses *)

Lemma all_bytes (p : Z -> bool) :
  forallb p (Z.of_nat <$> seq 0 256) = true -> forall a, 0 <= a < 256 -> p a = true.
Proof.
  rewrite forallb_forall. intros Hp a Ha. apply Hp, list_elem_of_In, list_elem_of_fmap.
  exists (Z.to_nat a). split; [lia|]. apply elem_of_seq. lia.
Qed.

Lemma land_range m v lo hi :
  forallb (fun a => Bool.eqb (Z.land a m =? v) ((lo <=? a) && (a <=? hi))) (Z.of_nat <$> seq 0 256) = true ->
  forall a, 0 <= a < 256 -> (Z.land a m =? v) = (lo <=? a) && (a <=? hi).
Proof. intros Hp a Ha. by apply eqb_prop, (all_bytes _ Hp). Qed.

Lemma if_true_orb (x y : bool) : (if x then true else y) = x || y.
Proof. by destruct x. Qed.

(** What an IPv4 address is refused for, whatever the operator allows, and
    what it is refused for unless he allows private addresses. *)
Definition never_dialled (a b c d : Z) : Prop :=
  a = 0 /\ b = 0 /\ c = 0 /\ d = 0 \/ a = 169 /\ b = 254 \/ 224 <= a <= 239 \/ a = 100 /\ 64 <= b <= 127.
Definition private_network (a b : Z) : Prop :=
  a = 127 \/ a = 10 \/ a = 172 /\ 16 <= b <= 31 \/ a = 192 /\ b = 168.

(** Which addresses a source may be dialled at.  An IPv4 address is
    refused exactly when it is the unspecified one, link-local (the cloud's
    metadata service), multicast or carrier-grade NAT, or, unless private
    addresses are allowed, loopback or private; its IPv4-mapped IPv6 form is
    refused alike; and the dialer connects to no address but one it parses
    and does not refuse. *)
Theorem dialled_addresses `{Addresses} allowPrivate a b c d :
  0 <= a < 256 -> 0 <= b < 256 -> 0 <= c < 256 -> 0 <= d < 256 ->
  (IsBlockedDialIP (Some [a; b; c; d]) allowPrivate = true <->
   never_dialled a b c d \/ allowPrivate = false /\ private_network a b) /\
  IsBlockedDialIP (Some (mapped [a; b; c; d])) allowPrivate = IsBlockedDialIP (Some [a; b; c; d]) allowPrivate /\
  (forall address, dial_control allowPrivate address = Ok tt ->
     exists host port ip, SplitHostPort address = Ok (host, port) /\ ParseIP host = Some ip /\
       IsBlockedDialIP (Some ip) allowPrivate = false).
Proof.
  intros Ha Hb Hc Hd. split; [|split].
  - unfold IsBlockedDialIP, IsUnspecified, IsLinkLocalUnicast, IsLinkLocalMulticast, IsMulticast,
      IsInterfaceLocalMulticast, IsLoopback, IsPrivate, cgnat, is16. cbn [To4 length byte_at forallb Nat.eqb andb].
    unfold byte_at. cbn [lookup list_lookup default from_option Datatypes.id].
    rewrite (land_range 240 224 224 239), (land_range 240 16 16 31), (land_range 192 64 64 127) by
      (done || vm_compute; reflexivity).
    unfold never_dialled, private_network.
    assert (a = 224 -> 224 <= a /\ a <= 239) by lia. rewrite !(Z.eqb_sym 0), !if_true_orb, !orb_false_r, !andb_true_r.
    rewrite !orb_true_iff, !andb_true_iff, !orb_true_iff, !andb_true_iff, !Z.eqb_eq, !Z.leb_le, negb_true_iff. tauto.
  - unfold IsBlockedDialIP, IsUnspecified, IsLinkLocalUnicast, IsLinkLocalMulticast, IsMulticast, IsLoopback, IsPrivate,
      cgnat. destruct (To4_mapped [a; b; c; d]) as [-> ->]; [done|]. cbn [IsInterfaceLocalMulticast mapped].
    unfold IsInterfaceLocalMulticast, is16. cbn. by rewrite !orb_false_r.
  - intros address. unfold dial_control. destruct (SplitHostPort address) as [[host port]| |]; [|done|done].
    destruct (ParseIP host) as [ip|] eqn:Hp; [|done]. destruct (IsBlockedDialIP (Some ip) allowPrivate) eqn:E; [done|].
    intros _. by exists host, port, ip.
Qed.

(** The metadata service of a cloud is out of reach. *)
#[local] Instance demo_addresses : Addresses :=
  fun host => if String.eqb host "169.254.169.254" then Some (mapped [169; 254; 169; 254]) else Some [93; 184; 216; 34].

Lemma dialled_addresses_witness :
  dial_control true "169.254.169.254:80" = Err (BlockedAddressError "169.254.169.254") /\
  dial_control false "example.org:80" = Ok tt /\
  IsBlockedDialIP (Some (mapped [169; 254; 169; 254])) true = true.
Proof.
  split; [reflexivity|]. split; [reflexivity|].
  destruct (dialled_addresses true 169 254 169 254) as (Hb & -> & _); [lia..|].
  apply Hb. left. right. left. lia.
Defined.

(** ** A folder *)

(** A hash of thirty-two bytes and a readable text. *)
#[local] Instance demo_cursors : TokenPrimitives.
Proof.
  refine {| hmacSHA256 := fun _ _ => "0123456789abcdef0123456789abcdef";
            json_text := fun o => String "{" (positive_text (countable.encode o));
            json_parse := fun s => match s with
                                   | String _ s => p ← text_positive s; countable.decode p
                                   | "" => None
                                   end |}.
  intros o _. rewrite text_positive_text. simpl. apply countable.decode_encode.
Defined.

Lemma demo_cursor_text : cursor_text.
Proof. by constructor. Qed.

(** Two books, a text and a link that leads out of the folder. *)
Definition demo_entries : list string := ["notes.txt"; "b_two.pdf"; "out.epub"; "a.epub"].
#[local] Instance demo_folder : FileSystem :=
  {| EvalSymlinks path := if String.eqb path "/books/out.epub" then Some "/etc/x.epub" else Some path;
     ReadDirNames path := if String.eqb path "/books" then Some demo_entries else None;
     Stat path := if String.eqb path "/books" then StatOk Directory 0 else StatOk RegularFile 7;
     DirReadable path := true;
     OpenFile path := Some "book" |}.

Definition demo_local : LocalProvider := mkLocalProvider "s1" "/books" "key".

Lemma demo_local_folder : folder demo_local "/books" demo_entries.
Proof.
  split; try reflexivity.
  - apply (bool_decide_unpack _). vm_compute. exact I.
  - intros n Hn. repeat (apply elem_of_cons in Hn as [->|Hn]; [reflexivity|]). by apply elem_of_nil in Hn.
Qed.

#[local] Existing Instance ascii_tables.

(** One book a page: the link that leads out and the text are passed over. *)
Lemma local_pages_complete_witness :
  exists pages, local_pages 5 demo_local 1 "" = Ok pages /\
    List.map (List.map ca_Title) pages = [["a"]; ["b two"]].
Proof.
  destruct (local_pages_complete demo_local "/books" demo_entries 1 demo_cursor_text demo_local_folder)
    as (pages & Hp & _).
  exists pages. split; [exact Hp|].
  assert (match local_pages 5 demo_local 1 "" with Ok l => List.map (List.map ca_Title) l | _ => [] end
    = [["a"]; ["b two"]]) as E by (vm_compute; reflexivity).
  cbn [length demo_entries] in Hp. by rewrite Hp in E.
Defined.

(** ** A catalogue *)

#[local] Instance demo_urls : Urls :=
  {| url_Parse s := h ← CutPrefix s "http://"; Some (mkUrl "http" h h "" "" None);
     url_Resolve _ ref := ref;
     url_QueryEscape q := q |}.
#[local] Instance demo_fold : FoldTable := fun r => r.
#[local] Instance demo_decoders : Decoders :=
  {| xml_events _ := []; json_feed _ := None; opensearch_urls _ := None |}.
#[local] Instance demo_network : Network := fun _ => Response 401 None.
#[local] Existing Instance plain_crypto.

Definition demo_credential : Credential := mkCredential "ada" "secret".
Definition demo_opds : source_cols :=
  mkSourceCols "Feed" KindOPDS "" "http://old" (Some (json_text (credential_object demo_credential))) (Some "nn")
    "reachable" None (Some 5) None no_capabilities 0.
Definition demo_sources : catalog_db := with_sources {["s2" := demo_opds]} demo_catalog.
Definition demo_config : source_config := mkSourceConfig (Some (mkSourceCrypto true (Some "key"))) false true.

Lemma UpdateSource_order_witness :
  let run cred := UpdateSourceHandler demo_config (Ok "nn") 9 (fun _ => None) "s2" (Some (move_to "http://new" cred))
    (mkWorld demo_sources (mkWire [] None)) in
  (exists e, (run (Some (mkCredentialInput "" "x"))).1 = Err e) /\
  sc_config_base_url <$> ct_sources (wd_db (run (Some (mkCredentialInput "" "x"))).2) !! "s2" = Some "http://new" /\
  exists l, sent (wd_wire (run None).2) = mkOutbound "http://new" (Some demo_credential) :: l.
Proof.
  intros run.
  destruct (UpdateSource_order demo_config (Ok "nn") 9 (fun _ => None) "s2" demo_opds "http://new" demo_sources
    (mkWire [] None)) as [Hrefused Hsent]; [try reflexivity..|].
  unfold run. rewrite (Hrefused (mkCredentialInput "" "x") (DomainError InvalidInput "credential username must not be empty" None))
    by reflexivity.
  split; [by eexists|]. split; [by vm_compute|]. apply (Hsent demo_credential); [reflexivity..|discriminate].
Defined.
