(* ===== verification/ReaderCache.v ===== *)
(** * The cache of open books (src/internal/reader/content/cache.go)

    The entries are objects that the table of entries, the handles and the
    waiting requests share, so the model has a store of them; what is done
    under the mutex is one step.  Go ranges over a map in an unspecified
    order: the order is an argument of every step that does.  The second half
    says what the cache guarantees in every interleaving of its steps. *)

From S2P Require Import Prelude Errors Catalog.

Local Open Scope string_scope.
Local Open Scope list_scope.
Local Open Scope Z_scope.

Definition defaultMaxOpen : nat := 5.
Definition defaultIdleTTL : Duration := 10 * Minute.

Abbreviation address := nat (only parsing).

Record cacheEntry := mkCacheEntry {
  ce_lastUsed : Time;
  ce_refs : Z;
  ce_evict : bool;
}.

(** [c_inflight] and [c_calls] are the loads under way and what became of
    each: [None] until it is done, then its error if it has one.  [c_cleaned]
    lists the entries whose cleanup was run, as often as it was. *)
Record Cache := mkCache {
  c_maxOpen : nat;
  c_idleTTL : Duration;
  c_entries : gmap EditionID address;
  c_inflight : gmap EditionID address;
  c_heap : gmap address cacheEntry;
  c_calls : gmap address (option (option error));
  c_cleaned : list address;
  c_next : address;
}.

Definition newCache (maxOpen : nat) (idleTTL : Duration) : Cache :=
  mkCache maxOpen idleTTL ∅ ∅ ∅ ∅ [] 0%nat.
Definition NewCache : Cache := newCache defaultMaxOpen defaultIdleTTL.

Definition set_entries t c :=
  mkCache (c_maxOpen c) (c_idleTTL c) t (c_inflight c) (c_heap c) (c_calls c) (c_cleaned c) (c_next c).
Definition set_inflight t c :=
  mkCache (c_maxOpen c) (c_idleTTL c) (c_entries c) t (c_heap c) (c_calls c) (c_cleaned c) (c_next c).
Definition set_heap t c :=
  mkCache (c_maxOpen c) (c_idleTTL c) (c_entries c) (c_inflight c) t (c_calls c) (c_cleaned c) (c_next c).
Definition set_call a r c :=
  mkCache (c_maxOpen c) (c_idleTTL c) (c_entries c) (c_inflight c) (c_heap c) (<[a := r]> (c_calls c))
    (c_cleaned c) (c_next c).
Definition allocated c :=
  mkCache (c_maxOpen c) (c_idleTTL c) (c_entries c) (c_inflight c) (c_heap c) (c_calls c) (c_cleaned c)
    (S (c_next c)).

(** [delete(c.entries, id)] and the entry's cleanup. *)
Definition drop_entry (id : EditionID) (a : address) (c : Cache) : Cache :=
  mkCache (c_maxOpen c) (c_idleTTL c) (delete id (c_entries c)) (c_inflight c) (c_heap c) (c_calls c)
    (c_cleaned c ++ [a]) (c_next c).

(** The order in which a range visits the entries. *)
Definition order := gmap EditionID address -> list (EditionID * address).
Definition is_order (o : order) : Prop := forall m, Permutation (o m) (map_to_list m).

(** ** Eviction *)

Definition idle (now : Time) (c : Cache) (e : cacheEntry) : bool :=
  (ce_refs e =? 0) && (c_idleTTL c <=? Sub now (ce_lastUsed e)).

Definition sweep_entry (now : Time) (c : Cache) (ia : EditionID * address) : Cache :=
  match c_heap c !! ia.2 with
  | Some e => if idle now c e then drop_entry ia.1 ia.2 c else c
  | None => c
  end.
Definition sweepLocked (o : order) (now : Time) (c : Cache) : Cache :=
  fold_left (sweep_entry now) (o (c_entries c)) c.

(** The least recently used of the entries that [ok] admits, the first one of
    those used at the same instant. *)
Definition pick (ok : cacheEntry -> bool) (heap : gmap address cacheEntry)
    (best : option (EditionID * address * Time)) (ia : EditionID * address)
    : option (EditionID * address * Time) :=
  match heap !! ia.2 with
  | Some e =>
      if ok e then
        match best with
        | None => Some (ia, ce_lastUsed e)
        | Some (_, t) => if ce_lastUsed e <? t then Some (ia, ce_lastUsed e) else best
        end
      else best
  | None => best
  end.
Definition lru (ok : cacheEntry -> bool) (o : order) (c : Cache) : option (EditionID * address) :=
  fst <$> fold_left (pick ok (c_heap c)) (o (c_entries c)) None.

Definition free_entry (e : cacheEntry) : bool := negb (ce_evict e || negb (ce_refs e =? 0)).
Definition unmarked_entry (e : cacheEntry) : bool := negb (ce_evict e).

Definition mark_evict (e : cacheEntry) : cacheEntry := mkCacheEntry (ce_lastUsed e) (ce_refs e) true.

Fixpoint evict_loop (fuel : nat) (o : order) (c : Cache) : Cache :=
  match fuel with
  | O => c
  | S fuel' =>
      if Nat.leb (size (c_entries c)) (c_maxOpen c) then c
      else match lru free_entry o c with
      | Some (id, a) => evict_loop fuel' o (drop_entry id a c)
      | None =>
          match lru unmarked_entry o c with
          | Some (_, a) => set_heap (alter mark_evict a (c_heap c)) c
          | None => c
          end
      end
  end.
(** Each turn but the last removes an entry. *)
Definition evictLRULocked (o : order) (c : Cache) : Cache := evict_loop (S (size (c_entries c))) o c.

(** ** Acquire *)

Inductive lookup_result := Hit (a : address) | Wait (call : address) | Load (call : address).

Definition use (now : Time) (d : Z) (e : cacheEntry) : cacheEntry :=
  mkCacheEntry now (ce_refs e + d) (ce_evict e).

(** Up to the first [Unlock]; the clock is read by the sweep and again for the
    entry. *)
Definition acquire_lookup (o : order) (now now' : Time) (id : EditionID) (c : Cache)
    : lookup_result * Cache :=
  let c := sweepLocked o now c in
  match c_entries c !! id with
  | Some a => (Hit a, set_heap (alter (use now' 1) a (c_heap c)) c)
  | None =>
      match c_inflight c !! id with
      | Some call => (Wait call, c)
      | None =>
          let call := c_next c in
          (Load call, allocated (set_call call None (set_inflight (<[id := call]> (c_inflight c)) c)))
      end
  end.

(** A new entry, with one handle. *)
Definition insert_entry (now : Time) (id : EditionID) (c : Cache) : Cache :=
  let a := c_next c in
  set_entries (<[id := a]> (c_entries c))
    (allocated (set_heap (<[a := mkCacheEntry now 1 false]> (c_heap c)) c)).

(** From the loader's answer on. *)
Definition acquire_loaded (o : order) (now : Time) (id : EditionID) (call : address)
    (loaded : Result unit) (c : Cache) : Result address * Cache :=
  let c := set_inflight (delete id (c_inflight c)) c in
  match loaded with
  | Err err => (Err err, set_call call (Some (Some err)) c)
  | OutOfFuel => (OutOfFuel, c)
  | Ok _ =>
      (Ok (c_next c), set_call call (Some None) (evictLRULocked o (insert_entry now id c)))
  end.

(** The body of a handle's [release], which runs once. *)
Definition Release (now : Time) (id : EditionID) (a : address) (c : Cache) : Cache :=
  let c := set_heap (alter (use now (-1)) a (c_heap c)) c in
  match c_heap c !! a with
  | Some e => if (ce_refs e =? 0) && ce_evict e then drop_entry id a c else c
  | None => c
  end.

Definition Sweep := sweepLocked.

Definition Close (o : order) (c : Cache) : Cache :=
  fold_left (fun c ia => drop_entry ia.1 ia.2 c) (o (c_entries c)) c.

(** ** The requests over the cache

    A request is looking up, waits for another one's load, loads, or holds a
    handle. *)
Inductive request :=
| Waiting (id : EditionID) (call : address)
| Loading (id : EditionID) (call : address)
| Holding (id : EditionID) (a : address).

Abbreviation requests := (gmap nat request) (only parsing).

Definition after_lookup (id : EditionID) (r : lookup_result) : request :=
  match r with
  | Hit a => Holding id a
  | Wait call => Waiting id call
  | Load call => Loading id call
  end.

(** One critical section of one request, in any order. *)
Inductive cstep : Cache * requests -> Cache * requests -> Prop :=
| step_acquire o now now' t id c c' r T :
    is_order o -> T !! t = None -> acquire_lookup o now now' id c = (r, c') ->
    cstep (c, T) (c', <[t := after_lookup id r]> T)
| step_retry o now now' t id call c c' r T :
    is_order o -> T !! t = Some (Waiting id call) -> c_calls c !! call = Some (Some None) ->
    acquire_lookup o now now' id c = (r, c') ->
    cstep (c, T) (c', <[t := after_lookup id r]> T)
| step_wait_failed t id call err c T :
    T !! t = Some (Waiting id call) -> c_calls c !! call = Some (Some (Some err)) ->
    cstep (c, T) (c, delete t T)
| step_wait_cancelled t id call c T :
    T !! t = Some (Waiting id call) -> cstep (c, T) (c, delete t T)
| step_loaded o now t id call a c c' T :
    is_order o -> T !! t = Some (Loading id call) ->
    acquire_loaded o now id call (Ok tt) c = (Ok a, c') ->
    cstep (c, T) (c', <[t := Holding id a]> T)
| step_load_failed o now t id call err c c' T :
    is_order o -> T !! t = Some (Loading id call) ->
    acquire_loaded o now id call (Err err) c = (Err err, c') ->
    cstep (c, T) (c', delete t T)
| step_release now t id a c T :
    T !! t = Some (Holding id a) -> cstep (c, T) (Release now id a c, delete t T)
| step_sweep o now c T :
    is_order o -> cstep (c, T) (Sweep o now c, T).

Definition cache_reachable (maxOpen : nat) (idleTTL : Duration) : Cache * requests -> Prop :=
  rtc cstep (newCache maxOpen idleTTL, ∅).

(** The handles out. *)
Definition handle_of (g : request) : option (EditionID * address) :=
  match g with Holding id a => Some (id, a) | _ => None end.
Definition handles (T : requests) : list (EditionID * address) :=
  omap (fun tg => handle_of tg.2) (map_to_list T).

(** The number of handles on an entry. *)
Definition held (a : address) (H : list (EditionID * address)) : nat :=
  length (List.filter (fun h => Nat.eqb h.2 a) H).

#[local] Arguments held : simpl never.

Lemma held_cons a h H : held a (h :: H) = ((if Nat.eqb h.2 a then 1 else 0) + held a H)%nat.
Proof. unfold held. simpl. by destruct (Nat.eqb h.2 a). Qed.

Lemma held_perm a H H' : Permutation H H' -> held a H = held a H'.
Proof. induction 1; rewrite ?held_cons; try lia. Qed.

Lemma held_in id a H : (id, a) ∈ H -> (0 < held a H)%nat.
Proof.
  induction H as [|h H IH]; [by intros ?%elem_of_nil|]. rewrite held_cons.
  intros [<-|Hin]%elem_of_cons; simpl; [rewrite Nat.eqb_refl|specialize (IH Hin)]; lia.
Qed.

Lemma held_some a H : held a H <> 0%nat -> exists id, (id, a) ∈ H.
Proof.
  induction H as [|[i x] H IH]; [done|]. rewrite held_cons. cbn. destruct (Nat.eqb_spec x a) as [->|].
  - intros _. exists i. by left.
  - intros Hn. destruct IH as [id Hin]; [lia|]. exists id. by right.
Qed.

(** The invariant of the entries, against the handles that are out.  [x] is
    the entry a release is working on. *)
Record cache_inv_but (x : option address) (c : Cache) (H : list (EditionID * address)) : Prop := {
  ci_entries id a : c_entries c !! id = Some a -> is_Some (c_heap c !! a) /\ a ∉ c_cleaned c;
  ci_inj id id' a : c_entries c !! id = Some a -> c_entries c !! id' = Some a -> id = id';
  ci_all a : is_Some (c_heap c !! a) -> a ∈ c_cleaned c \/ exists id, c_entries c !! id = Some a;
  ci_next a : is_Some (c_heap c !! a) -> (a < c_next c)%nat;
  ci_once : NoDup (c_cleaned c);
  ci_cleaned a : a ∈ c_cleaned c -> is_Some (c_heap c !! a);
  ci_refs a e : c_heap c !! a = Some e -> ce_refs e = Z.of_nat (held a H);
  ci_held id a : (id, a) ∈ H -> c_entries c !! id = Some a;
  ci_marked a e : c_heap c !! a = Some e -> a ∉ c_cleaned c -> ce_evict e = true -> x <> Some a -> 0 < ce_refs e;
}.
Abbreviation cache_inv := (cache_inv_but None).

Lemma cache_inv_perm c H H' : Permutation H H' -> cache_inv c H -> cache_inv c H'.
Proof.
  intros Hp []. split; try done.
  - intros a e He. rewrite <- (held_perm a H H') by done. eauto.
  - intros id a. rewrite <- Hp. eauto.
Qed.

(** The entries not marked for eviction. *)
Definition unmarked (c : Cache) : gmap EditionID address :=
  filter (fun ia => ce_evict <$> c_heap c !! ia.2 = Some false) (c_entries c).

Lemma unmarked_lookup c id a :
  unmarked c !! id = Some a <-> c_entries c !! id = Some a /\ ce_evict <$> c_heap c !! a = Some false.
Proof. unfold unmarked. by rewrite map_lookup_filter_Some. Qed.

Lemma unmarked_entries c : (size (unmarked c) <= size (c_entries c))%nat.
Proof. apply map_subseteq_size, map_filter_subseteq. Qed.

Lemma unmarked_le c c' :
  (forall id a, unmarked c' !! id = Some a -> unmarked c !! id = Some a) ->
  (size (unmarked c') <= size (unmarked c))%nat.
Proof. intros Hle. apply map_subseteq_size, map_subseteq_spec. intros id a. apply Hle. Qed.

(** ** Dropping entries *)

(** Entries are dropped and nothing else changes. *)
Record shrunk (c c' : Cache) : Prop := {
  sh_entries : c_entries c' ⊆ c_entries c;
  sh_heap : c_heap c' = c_heap c;
  sh_inflight : c_inflight c' = c_inflight c;
  sh_calls : c_calls c' = c_calls c;
  sh_next : c_next c' = c_next c;
  sh_max : c_maxOpen c' = c_maxOpen c;
  sh_ttl : c_idleTTL c' = c_idleTTL c;
}.

#[export] Instance shrunk_preorder : PreOrder shrunk.
Proof.
  split; [by intros c; split|]. intros c1 c2 c3 [] []. split; try congruence. by etrans.
Qed.

Lemma drop_shrunk id a c : shrunk c (drop_entry id a c).
Proof. split; try done. apply delete_subseteq. Qed.

Lemma shrunk_unmarked c c' : shrunk c c' -> (size (unmarked c') <= size (unmarked c))%nat.
Proof.
  intros [He Hh]. apply unmarked_le. intros id a. rewrite !unmarked_lookup, Hh. intros [Hid ?].
  split; [|done]. by eapply lookup_weaken.
Qed.

Lemma drop_inv x id a c H :
  cache_inv_but x c H -> x = None \/ x = Some a -> c_entries c !! id = Some a -> held a H = 0%nat -> cache_inv (drop_entry id a c) H.
Proof.
  intros [] Hx Hid Hz. split; cbn; try done.
  - intros id' a' [Hne Hid']%lookup_delete_Some. destruct (ci_entries0 _ _ Hid') as [Hh Hc]. split; [done|].
    rewrite elem_of_app, list_elem_of_singleton. intros [?| ->]; [done|]. apply Hne. by eapply ci_inj0.
  - intros i1 i2 a' [_ H1]%lookup_delete_Some [_ H2]%lookup_delete_Some. by eapply ci_inj0.
  - intros a' Ha. destruct (ci_all0 _ Ha) as [Hc|[id' Hid']].
    + left. apply elem_of_app. by left.
    + destruct (decide (id' = id)) as [->|Hne].
      * rewrite Hid in Hid'. injection Hid' as ->. left. apply elem_of_app. right. by left.
      * right. exists id'. by rewrite lookup_delete_ne.
  - apply NoDup_app. split; [done|]. split; [|apply NoDup_singleton].
    intros a' Ha' ->%list_elem_of_singleton. by destruct (ci_entries0 _ _ Hid).
  - intros a' [Ha'| ->%list_elem_of_singleton]%elem_of_app; [by apply ci_cleaned0|by apply (ci_entries0 id)].
  - intros id' a' Hin. rewrite lookup_delete_ne; [by apply ci_held0|]. intros <-.
    pose proof (ci_held0 _ _ Hin) as E. rewrite Hid in E. injection E as ->. apply held_in in Hin. lia.
  - intros a' e He Hc Hev _. rewrite elem_of_app, list_elem_of_singleton in Hc.
    apply (ci_marked0 a'); [done|tauto|done|]. destruct Hx as [->| ->]; [done|]. intros [= ->]. tauto.
Qed.

Lemma held_zero c H a e : cache_inv c H -> c_heap c !! a = Some e -> ce_refs e = 0 -> held a H = 0%nat.
Proof. intros Hi He Hz. apply (ci_refs _ _ _ Hi) in He. lia. Qed.

(** ** The idle sweep *)

Lemma sweep_fold now H l c :
  NoDup l.*1 -> (forall id a, (id, a) ∈ l -> c_entries c !! id = Some a) -> cache_inv c H ->
  let c' := fold_left (sweep_entry now) l c in
  cache_inv c' H /\ shrunk c c' /\
  forall id a, c_entries c' !! id = Some a <->
    c_entries c !! id = Some a /\
    ~ ((id, a) ∈ l /\ exists e, c_heap c !! a = Some e /\ idle now c e = true).
Proof.
  revert c. induction l as [|[id a] l IH]; intros c Hd Hl Hi; cbv zeta; cbn [fold_left].
  { split; [done|]. split; [done|]. intros id a. split; [|tauto]. intros Hid. split; [done|].
    intros [?%elem_of_nil _]. done. }
  apply NoDup_cons in Hd as [Hnew Hd]. unfold sweep_entry at 2 4 6. cbn [fst snd].
  assert (c_entries c !! id = Some a) as Hid by (apply Hl; by left).
  destruct (ci_entries _ _ _ Hi _ _ Hid) as [[e He] _]. rewrite He. destruct (idle now c e) eqn:E.
  - assert (cache_inv (drop_entry id a c) H) as Hi'.
    { apply (drop_inv None); [done|by left|done|]. eapply held_zero; [done..|]. unfold idle in E. bool_to_prop. lia. }
    destruct (IH (drop_entry id a c)) as (H1' & H2' & H3'); [done| |done|].
    { intros id' a' Hin. cbn. rewrite lookup_delete_ne; [apply Hl; by right|]. intros <-.
      by apply Hnew, (list_elem_of_fmap_2 fst _ (id, a')). }
    split; [done|]. split; [etrans; [apply drop_shrunk|done]|]. intros id' a'. rewrite H3'. cbn.
    rewrite lookup_delete_Some, elem_of_cons. change (idle now (drop_entry id a c)) with (idle now c). split.
    + intros [[Hne Hid'] Hno]. split; [done|]. intros [[[= -> ->]|Hin] Hx]; [done|]. by apply Hno.
    + intros [Hid' Hno]. split; [split; [|done]|].
      * intros <-. rewrite Hid in Hid'. injection Hid' as <-. apply Hno. split; [by left|by exists e].
      * intros [Hin Hx]. apply Hno. split; [by right|done].
  - destruct (IH c) as (H1' & H2' & H3'); [done| |done|]; [intros; apply Hl; by right|].
    split; [done|]. split; [done|]. intros id' a'. rewrite H3'. split.
    + intros [Hid' Hno]. split; [done|]. intros [[[= -> ->]|Hin]%elem_of_cons (e' & He' & Hx)]; [congruence|].
      apply Hno. split; [done|by exists e'].
    + intros [Hid' Hno]. split; [done|]. intros [Hin Hx]. apply Hno. split; [by right|done].
Qed.

Lemma order_spec o m id (a : address) : is_order o -> (id, a) ∈ o m <-> m !! id = Some a.
Proof. intros Ho. rewrite (Ho m). apply elem_of_map_to_list. Qed.
Lemma order_once o (m : gmap EditionID address) : is_order o -> NoDup (o m).*1.
Proof. intros Ho. rewrite (Ho m). apply NoDup_fst_map_to_list. Qed.

Lemma sweepLocked_spec o now c H :
  is_order o -> cache_inv c H ->
  let c' := sweepLocked o now c in
  cache_inv c' H /\ shrunk c c' /\
  forall id a, c_entries c' !! id = Some a <->
    c_entries c !! id = Some a /\ ~ exists e, c_heap c !! a = Some e /\ idle now c e = true.
Proof.
  intros Ho Hi. destruct (sweep_fold now H (o (c_entries c)) c) as (H1' & H2' & H3').
  - by apply order_once.
  - intros id a. by rewrite order_spec.
  - done.
  - split; [done|]. split; [done|]. intros id a. unfold sweepLocked. rewrite H3', order_spec by done. tauto.
Qed.

(** ** Eviction *)

Section picking.
Variables (ok : cacheEntry -> bool) (heap : gmap address cacheEntry).

(** The entry [ia] of a list is one [ok] admits, used at [t]. *)
Definition admitted (ia : EditionID * address) (t : Time) : Prop :=
  exists e, heap !! ia.2 = Some e /\ ok e = true /\ ce_lastUsed e = t.

Lemma pick_fold l best :
  match fold_left (pick ok heap) l best with
  | Some (ia, t) =>
      (Some (ia, t) = best \/ ia ∈ l /\ admitted ia t) /\
      (forall ia' t', (Some (ia', t') = best \/ ia' ∈ l /\ admitted ia' t') -> t <= t')
  | None => best = None /\ forall ia t, ia ∈ l -> ~ admitted ia t
  end.
Proof.
  revert best. induction l as [|ia l IH]; intros best; cbn [fold_left].
  { destruct best as [[ia t]|]; [|by split; [|intros ia t ?%elem_of_nil]]. split; [by left|].
    intros ia' t' [[= -> ->]|[?%elem_of_nil _]]; [lia|done]. }
  specialize (IH (pick ok heap best ia)). destruct (fold_left _ l _) as [[ia' t]|] eqn:Ef.
  - destruct IH as [Hin Hmin]. unfold pick in Hin, Hmin. split.
    + destruct Hin as [Hb|[Hin Ha]]; [|right; split; [by right|done]].
      destruct (heap !! ia.2) as [e|] eqn:He; [|by left]. destruct (ok e) eqn:Hok; [|by left].
      destruct best as [[ib tb]|].
      * destruct (Z.ltb_spec (ce_lastUsed e) tb); [|by left]. injection Hb as -> ->. right.
        split; [by left|by exists e].
      * injection Hb as -> ->. right. split; [by left|by exists e].
    + intros ib tb Hb. destruct (heap !! ia.2) as [e|] eqn:He.
      2: { apply (Hmin ib). destruct Hb as [Hb|[[->|Hin']%elem_of_cons Ha]]; [by left| |by right].
           destruct Ha as (e & He' & _). congruence. }
      destruct (ok e) eqn:Hok.
      2: { apply (Hmin ib). destruct Hb as [Hb|[[->|Hin']%elem_of_cons Ha]]; [by left| |by right].
           destruct Ha as (e' & He' & Hok' & _). congruence. }
      assert (t <= ce_lastUsed e /\ (forall ix tx, Some (ix, tx) = best -> t <= tx)) as [Hle Hbest].
      { destruct best as [[ix tx]|].
        - destruct (Z.ltb_spec (ce_lastUsed e) tx) as [Hlt|Hge].
          + assert (t <= ce_lastUsed e) by (apply (Hmin ia); by left).
            split; [done|]. intros iy ty [= -> ->]. lia.
          + assert (t <= tx) by (apply (Hmin ix); by left). split; [lia|]. by intros iy ty [= -> ->].
        - split; [apply (Hmin ia); by left|done]. }
      destruct Hb as [Hb|[[->|Hin']%elem_of_cons Ha]]; [by eapply Hbest| |apply (Hmin ib); by right].
      destruct Ha as (e' & He' & _ & <-). rewrite He in He'. by injection He' as <-.
  - destruct IH as [Hb Hno]. unfold pick in Hb. destruct (heap !! ia.2) as [e|] eqn:He.
    + destruct (ok e) eqn:Hok.
      * destruct best as [[ib tb]|]; [destruct (ce_lastUsed e <? tb)|]; done.
      * split; [done|]. intros ib t [->|Hin]%elem_of_cons; [|by apply Hno].
        intros (e' & He' & Hok' & _). congruence.
    + split; [done|]. intros ib t [->|Hin]%elem_of_cons; [|by apply Hno]. intros (e' & He' & _). congruence.
Qed.
End picking.

(** The entry chosen is one of those [ok] admits, none of which was used
    earlier. *)
Lemma lru_spec ok o c :
  is_order o ->
  match lru ok o c with
  | Some (id, a) =>
      c_entries c !! id = Some a /\
      exists e, c_heap c !! a = Some e /\ ok e = true /\
        forall id' a' e', c_entries c !! id' = Some a' -> c_heap c !! a' = Some e' -> ok e' = true ->
          ce_lastUsed e <= ce_lastUsed e'
  | None => forall id a e, c_entries c !! id = Some a -> c_heap c !! a = Some e -> ok e = false
  end.
Proof.
  intros Ho. unfold lru. pose proof (pick_fold ok (c_heap c) (o (c_entries c)) None) as Hp.
  destruct (fold_left _ _ _) as [[[id a] t]|]; cbn.
  - destruct Hp as [[?|[Hin (e & He & Hok & <-)]] Hmin]; [done|]. apply order_spec in Hin; [|done].
    split; [done|]. exists e. split; [done|]. split; [done|]. intros id' a' e' Hid' He' Hok'.
    apply (Hmin (id', a')). right. split; [by apply order_spec|by exists e'].
  - destruct Hp as [_ Hno]. intros id a e Hid He. destruct (ok e) eqn:Hok; [|done]. exfalso.
    apply (Hno (id, a) (ce_lastUsed e)); [by apply order_spec|by exists e].
Qed.

Lemma free_entry_refs e : free_entry e = true -> ce_refs e = 0 /\ ce_evict e = false.
Proof. unfold free_entry. intros Hf. bool_to_prop. done. Qed.

(** Marking takes one entry out of the unmarked ones. *)
Lemma unmarked_mark id a e c :
  c_entries c !! id = Some a -> c_heap c !! a = Some e -> ce_evict e = false ->
  (S (size (unmarked (set_heap (alter mark_evict a (c_heap c)) c))) <= size (unmarked c))%nat.
Proof.
  intros Hid He Hm. set (c' := set_heap _ c).
  assert (unmarked c' ⊆ delete id (unmarked c)) as Hs.
  { apply map_subseteq_spec. intros id' a'. rewrite lookup_delete_Some, !unmarked_lookup. cbn.
    intros [Hid' Hev]. destruct (decide (a' = a)) as [->|Hne].
    - rewrite lookup_alter_eq, He in Hev. done.
    - rewrite lookup_alter_ne in Hev by done. split; [|done]. intros <-. congruence. }
  apply map_subseteq_size in Hs. assert (unmarked c !! id = Some a) as Hu by (apply unmarked_lookup; by rewrite He, <- Hm).
  rewrite (map_size_delete_Some id) in Hs by (by exists a).
  assert (size (unmarked c) <> 0%nat) by (apply map_size_ne_0_lookup; by exists id, a). lia.
Qed.

Lemma mark_inv a e c H :
  cache_inv c H -> c_heap c !! a = Some e -> ce_refs e <> 0 ->
  cache_inv (set_heap (alter mark_evict a (c_heap c)) c) H.
Proof.
  intros [] He Hr. split; cbn; try done.
  - intros id a' Hid. rewrite lookup_alter_is_Some. eauto.
  - intros a'. rewrite lookup_alter_is_Some. eauto.
  - intros a'. rewrite lookup_alter_is_Some. eauto.
  - intros a'. rewrite lookup_alter_is_Some. eauto.
  - intros a' e'. rewrite lookup_alter_Some. intros [(-> & e1 & He1 & ->)|[_ ?]]; cbn; eauto.
  - intros a' e'. rewrite lookup_alter_Some. intros [(-> & e1 & He1 & ->)|[_ ?]] Hc Hm _; cbn; [|eauto].
    pose proof (ci_refs0 _ _ He1). simplify_eq. lia.
Qed.

(** The loop ends with at most [maxOpen] unmarked entries, and what it drops
    was not in use. *)
Lemma evict_loop_spec o fuel c H :
  is_order o -> cache_inv c H ->
  (size (c_entries c) < fuel)%nat -> (size (unmarked c) <= S (c_maxOpen c))%nat ->
  let c' := evict_loop fuel o c in
  cache_inv c' H /\ (size (unmarked c') <= c_maxOpen c)%nat /\
  c_entries c' ⊆ c_entries c /\ c_inflight c' = c_inflight c /\ c_calls c' = c_calls c /\
  c_next c' = c_next c /\ c_maxOpen c' = c_maxOpen c /\ c_idleTTL c' = c_idleTTL c.
Proof.
  intros Ho. revert c. induction fuel as [|fuel IH]; intros c Hi Hf Hu; cbv zeta; cbn [evict_loop]; [lia|].
  destruct (Nat.leb_spec (size (c_entries c)) (c_maxOpen c)) as [Hle|Hgt].
  { pose proof (unmarked_entries c). split; [done|]. split; [lia|]. by conjuncts. }
  pose proof (lru_spec free_entry o c Ho) as Hfree. destruct (lru free_entry o c) as [[id a]|].
  - destruct Hfree as (Hid & e & He & [Hz _]%free_entry_refs & _).
    assert (cache_inv (drop_entry id a c) H) as Hi' by (apply (drop_inv None); [done|by left|done|]; by eapply held_zero).
    pose proof (shrunk_unmarked _ _ (drop_shrunk id a c)) as Hsz.
    assert (size (c_entries c) <> 0%nat) by (apply map_size_ne_0_lookup; by exists id, a).
    destruct (IH (drop_entry id a c)) as (H1' & H2' & H3' & H4' & H5' & H6' & H7' & H8'); [done| |cbn in *; lia|].
    { cbn. rewrite map_size_delete_Some by (by exists a). lia. }
    conjuncts; try done. etrans; [done|]. apply delete_subseteq.
  - pose proof (lru_spec unmarked_entry o c Ho) as Hun. destruct (lru unmarked_entry o c) as [[id a]|].
    + destruct Hun as (Hid & e & He & Hm & _). apply negb_true_iff in Hm.
      assert (ce_refs e <> 0) as Hr.
      { intros Hz. specialize (Hfree _ _ _ Hid He). unfold free_entry in Hfree. by rewrite Hm, Hz in Hfree. }
      pose proof (unmarked_mark _ _ _ _ Hid He Hm). split; [by eapply mark_inv|]. split; [lia|]. by conjuncts.
    + assert (unmarked c = ∅) as ->.
      { apply map_empty. intros id. apply eq_None_not_Some. intros [a [Hid Hm]%unmarked_lookup].
        destruct (c_heap c !! a) as [e|] eqn:He; [|done]. injection Hm as Hm. specialize (Hun _ _ _ Hid He).
        unfold unmarked_entry in Hun. by rewrite Hm in Hun. }
      rewrite map_size_empty. split; [done|]. split; [lia|]. by conjuncts.
Qed.

(** ** Lookups, loads and releases *)

Lemma use_inv x now d a e c H H' :
  cache_inv c H -> c_heap c !! a = Some e ->
  (forall a', Z.of_nat (held a' H') = Z.of_nat (held a' H) + (if Nat.eqb a' a then d else 0)) ->
  (forall id a', (id, a') ∈ H' -> c_entries c !! id = Some a') ->
  (ce_evict e = true -> a ∉ c_cleaned c -> x <> Some a -> 0 < ce_refs e + d) ->
  cache_inv_but x (set_heap (alter (use now d) a (c_heap c)) c) H'.
Proof.
  intros [] He Hd Hh Hm. split; cbn; try done.
  - intros id a' Hid. rewrite lookup_alter_is_Some. eauto.
  - intros a'. rewrite lookup_alter_is_Some. eauto.
  - intros a'. rewrite lookup_alter_is_Some. eauto.
  - intros a'. rewrite lookup_alter_is_Some. eauto.
  - intros a' e'. rewrite Hd, lookup_alter_Some.
    intros [(-> & e1 & He1 & ->)|[Hne He1]]; cbn; rewrite (ci_refs0 _ _ He1).
    + by rewrite Nat.eqb_refl.
    + apply not_eq_sym, Nat.eqb_neq in Hne. rewrite Hne. lia.
  - intros a' e'. rewrite lookup_alter_Some. intros [(-> & e1 & He1 & ->)|[_ ?]] Hc Hev Hx; cbn; [|by eapply ci_marked0].
    simplify_eq. by apply Hm.
Qed.

Lemma use_unmarked now d a c :
  unmarked (set_heap (alter (use now d) a (c_heap c)) c) = unmarked c.
Proof.
  apply map_eq. intros id. apply option_eq. intros a'. rewrite !unmarked_lookup. cbn.
  destruct (decide (a' = a)) as [->|Hne]; [|by rewrite lookup_alter_ne].
  rewrite lookup_alter_eq. by destruct (c_heap c !! a).
Qed.

(** What the loads under way and their calls are does not matter to the
    entries. *)
Lemma bookkeeping_inv c c' H :
  cache_inv c H -> c_entries c' = c_entries c -> c_heap c' = c_heap c -> c_cleaned c' = c_cleaned c ->
  (c_next c <= c_next c')%nat -> cache_inv c' H.
Proof.
  intros [] He Hh Hc Hn. split; rewrite ?He, ?Hh, ?Hc; try done. intros a Ha. specialize (ci_next0 _ Ha). lia.
Qed.
Lemma bookkeeping_unmarked c c' :
  c_entries c' = c_entries c -> c_heap c' = c_heap c -> unmarked c' = unmarked c.
Proof. intros He Hh. unfold unmarked. by rewrite He, Hh. Qed.

Lemma acquire_lookup_spec o now now' id c r c' H :
  is_order o -> cache_inv c H -> acquire_lookup o now now' id c = (r, c') ->
  (size (unmarked c') <= size (unmarked c))%nat /\ c_maxOpen c' = c_maxOpen c /\
  c_entries c' ⊆ c_entries c /\
  match r with
  | Hit a => cache_inv c' ((id, a) :: H) /\ c_inflight c' = c_inflight c
  | Wait call => cache_inv c' H /\ c_inflight c' = c_inflight c /\ c_inflight c !! id = Some call
  | Load call => cache_inv c' H /\ c_inflight c' = <[id := call]> (c_inflight c) /\
      c_inflight c !! id = None /\ c_entries c' !! id = None
  end.
Proof.
  intros Ho Hi. unfold acquire_lookup. destruct (sweepLocked_spec o now c H Ho Hi) as (Hi1 & Hs & _).
  set (c1 := sweepLocked o now c) in *. pose proof (shrunk_unmarked _ _ Hs) as Hu. pose proof (sh_entries _ _ Hs) as He.
  pose proof (sh_max _ _ Hs) as Hm. pose proof (sh_inflight _ _ Hs) as Hfl.
  destruct (c_entries c1 !! id) as [a|] eqn:Hid.
  - intros [= <- <-]. rewrite use_unmarked. split; [done|]. split; [done|]. split; [done|]. split; [|done].
    destruct (ci_entries _ _ _ Hi1 _ _ Hid) as [[e Hh] _]. apply (use_inv _ _ _ _ e _ H); try done.
    + intros a'. rewrite held_cons. cbn. rewrite (Nat.eqb_sym a a'). destruct (Nat.eqb a' a); lia.
    + intros id' a' [[= -> ->]|Hin]%elem_of_cons; [done|]. by apply (ci_held _ _ _ Hi1).
    + intros Hev Hc _. assert (0 < ce_refs e) by (by apply (ci_marked _ _ _ Hi1 a)). lia.
  - rewrite Hfl. destruct (c_inflight c !! id) as [call|] eqn:Hcall; intros [= <- <-].
    + by conjuncts.
    + rewrite (bookkeeping_unmarked c1) by done. split; [done|]. split; [done|]. split; [done|].
      split; [by apply (bookkeeping_inv c1); try done; cbn; lia|]. by conjuncts.
Qed.

Lemma insert_entry_inv now id c H :
  cache_inv c H -> c_entries c !! id = None ->
  let c' := insert_entry now id c in
  cache_inv c' ((id, c_next c) :: H) /\ (size (unmarked c') <= S (size (unmarked c)))%nat.
Proof.
  intros Hi Hid c1. set (a := c_next c) in *. set (e := mkCacheEntry now 1 false).
  assert (c_heap c !! a = None) as Hfresh.
  { apply eq_None_not_Some. intros Ha. apply (ci_next _ _ _ Hi) in Ha. unfold a in Ha. lia. }
  assert (forall id' a', c_entries c !! id' = Some a' -> a' <> a) as Hother.
  { intros id' a' Hid' ->. apply (ci_entries _ _ _ Hi) in Hid' as [[? ?] _]. congruence. }
  assert (held a H = 0%nat) as Hzero.
  { destruct (held a H) as [|n] eqn:E; [done|]. destruct (held_some a H) as [id' Hin]; [lia|].
    apply (ci_held _ _ _ Hi) in Hin. by apply Hother in Hin. }
  split.
  { destruct Hi. split; cbn; fold a e.
    - intros id' a'. rewrite lookup_insert_Some. intros [[<- <-]|[Hne Hid']].
      + rewrite lookup_insert_eq. split; [by eexists|]. intros Ha. apply ci_cleaned0 in Ha as [? ?]. congruence.
      + rewrite lookup_insert_ne by (intros <-; by eapply Hother). eauto.
    - intros i1 i2 a'. rewrite !lookup_insert_Some. intros [[<- <-]|[? Hi1]] [[<- E]|[? Hi2]]; try done.
      + by apply Hother in Hi2.
      + subst. by apply Hother in Hi1.
      + by eapply ci_inj0.
    - intros a'. rewrite lookup_insert_is_Some. intros [<-|[Hne Ha]].
      + right. exists id. by rewrite lookup_insert_eq.
      + destruct (ci_all0 _ Ha) as [?|[id' Hid']]; [by left|]. right. exists id'.
        rewrite lookup_insert_ne; [done|]. congruence.
    - intros a'. rewrite lookup_insert_is_Some. intros [<-|[Hne Ha]]; [unfold a; lia|]. apply ci_next0 in Ha. lia.
    - done.
    - intros a' Ha. rewrite lookup_insert_is_Some. destruct (decide (a = a')); [by left|]. right. eauto.
    - intros a' e'. rewrite held_cons, lookup_insert_Some. cbn. intros [[<- <-]|[Hne He]].
      + by rewrite Nat.eqb_refl, Hzero.
      + apply Nat.eqb_neq in Hne. rewrite Hne. eauto.
    - intros id' a' [[= -> ->]|Hin]%elem_of_cons; [by rewrite lookup_insert_eq|].
      rewrite lookup_insert_ne; [by apply ci_held0|]. intros <-. apply ci_held0 in Hin. congruence.
    - intros a' e'. rewrite lookup_insert_Some. intros [[<- <-]|[Hne He]]; [done|]. eauto. }
  assert (unmarked c1 ⊆ <[id := a]> (unmarked c)) as Hs.
  { apply map_subseteq_spec. intros id' a'. rewrite unmarked_lookup. cbn. fold a e.
    rewrite !lookup_insert_Some, unmarked_lookup.
    intros [[[<- <-]|[Hne Hid']] Hm]; [by left|]. right. split; [done|]. split; [done|].
    rewrite lookup_insert_ne in Hm by (intros <-; by eapply Hother). done. }
  apply map_subseteq_size in Hs. rewrite map_size_insert in Hs. destruct (unmarked c !! id); cbn in Hs; lia.
Qed.

Lemma acquire_loaded_spec o now id call c a c' H :
  is_order o -> cache_inv c H -> (size (unmarked c) <= c_maxOpen c)%nat -> c_entries c !! id = None ->
  acquire_loaded o now id call (Ok tt) c = (Ok a, c') ->
  cache_inv c' ((id, a) :: H) /\ (size (unmarked c') <= c_maxOpen c)%nat /\ c_maxOpen c' = c_maxOpen c /\
  c_inflight c' = delete id (c_inflight c) /\ c_entries c' ⊆ <[id := a]> (c_entries c).
Proof.
  intros Ho Hi Hu Hid. unfold acquire_loaded. intros [= <- <-].
  set (c0 := set_inflight _ c). assert (cache_inv c0 H) as Hi0 by (by apply (bookkeeping_inv c)).
  destruct (insert_entry_inv now id c0 H Hi0 Hid) as [Hi1 Hu1]. set (c1 := insert_entry now id c0) in *.
  rewrite (bookkeeping_unmarked c c0) in Hu1 by done.
  destruct (evict_loop_spec o (S (size (c_entries c1))) c1 _ Ho Hi1) as (H1' & H2' & H3' & H4' & H5' & H6' & H7' & _);
    [lia|cbn in *; lia|]. fold (evictLRULocked o c1) in *.
  rewrite (bookkeeping_unmarked (evictLRULocked o c1)) by done.
  split; [by apply (bookkeeping_inv (evictLRULocked o c1))|]. by conjuncts.
Qed.

Lemma Release_spec now id a c H :
  cache_inv c ((id, a) :: H) ->
  let c' := Release now id a c in
  cache_inv c' H /\ (size (unmarked c') <= size (unmarked c))%nat /\ c_maxOpen c' = c_maxOpen c /\
  c_inflight c' = c_inflight c /\ c_entries c' ⊆ c_entries c.
Proof.
  intros Hi c'. unfold c', Release. clear c'.
  assert (c_entries c !! id = Some a) as Hid by (apply (ci_held _ _ _ Hi); by left).
  destruct (ci_entries _ _ _ Hi _ _ Hid) as [[e He] Hc].
  set (c1 := set_heap _ c). assert (c_heap c1 !! a = Some (use now (-1) e)) as He1
    by (unfold c1; cbn; by rewrite lookup_alter_eq, He). rewrite He1.
  assert (unmarked c1 = unmarked c) as Hu1 by apply use_unmarked.
  pose proof (ci_refs _ _ _ Hi _ _ He) as Hr. rewrite held_cons in Hr. cbn [snd] in Hr. rewrite Nat.eqb_refl in Hr.
  destruct ((ce_refs (use now (-1) e) =? 0) && ce_evict (use now (-1) e)) eqn:E.
  - apply andb_true_iff in E as [Hz%Z.eqb_eq Hev]. cbn in Hz, Hev.
    assert (held a H = 0%nat) as Hzero by lia.
    assert (cache_inv_but (Some a) c1 H) as Hi1.
    { apply (use_inv _ _ _ _ e _ ((id, a) :: H)); try done; [|intros; apply (ci_held _ _ _ Hi); by right].
      intros a'. rewrite held_cons. cbn. rewrite (Nat.eqb_sym a a'). destruct (Nat.eqb a' a); lia. }
    split; [by apply (drop_inv (Some a)); [|right|..]|]. split; [|by conjuncts; apply delete_subseteq].
    rewrite <- Hu1. apply shrunk_unmarked, drop_shrunk.
  - split; [|by rewrite Hu1; conjuncts].
    apply (use_inv _ _ _ _ e _ ((id, a) :: H)); try done; [|intros; apply (ci_held _ _ _ Hi); by right|].
    + intros a'. rewrite held_cons. cbn. rewrite (Nat.eqb_sym a a'). destruct (Nat.eqb a' a); lia.
    + intros Hev _ _. cbn in E. rewrite Hev, andb_true_r in E. apply Z.eqb_neq in E. lia.
Qed.

(** ** The requests *)

Definition its_handle (g : request) : list (EditionID * address) := option_list (handle_of g).

Lemma handles_insert t g T :
  Permutation (handles (<[t := g]> T)) (its_handle g ++ handles (delete t T)).
Proof.
  unfold handles, its_handle. rewrite <- insert_delete_eq, map_to_list_insert by apply lookup_delete_eq.
  cbn. by destruct (handle_of g).
Qed.
Lemma handles_lookup t g T :
  T !! t = Some g -> Permutation (handles T) (its_handle g ++ handles (delete t T)).
Proof. intros Ht. rewrite <- handles_insert. by rewrite insert_id. Qed.

Lemma handles_elem id a T : (id, a) ∈ handles T <-> exists t, T !! t = Some (Holding id a).
Proof.
  unfold handles. rewrite list_elem_of_omap. split.
  - intros ([t g] & Hin & Hg). apply elem_of_map_to_list in Hin. exists t. destruct g; simplify_eq/=; done.
  - intros [t Ht]. exists (t, Holding id a). split; [by apply elem_of_map_to_list|done].
Qed.

Record cache_ok (c : Cache) (T : requests) : Prop := {
  ok_inv : cache_inv c (handles T);
  ok_bound : (size (unmarked c) <= c_maxOpen c)%nat;
  ok_loading t id call : T !! t = Some (Loading id call) -> c_inflight c !! id = Some call;
  ok_loader id call : c_inflight c !! id = Some call -> exists t, T !! t = Some (Loading id call);
  ok_one t t' id call call' :
    T !! t = Some (Loading id call) -> T !! t' = Some (Loading id call') -> t = t';
  ok_absent id call : c_inflight c !! id = Some call -> c_entries c !! id = None;
}.

Lemma absent_weaken (m m' : gmap EditionID address) id : m' ⊆ m -> m !! id = None -> m' !! id = None.
Proof. intros Hs Hn. by eapply lookup_weaken_None. Qed.

(** A request that was not loading and does not begin to leaves the loads
    alone. *)
Lemma ok_same_loads c c' t og T T' :
  cache_ok c T -> T !! t = og -> (forall id call, og <> Some (Loading id call)) ->
  (forall t', t' <> t -> T' !! t' = T !! t') -> (forall id call, T' !! t <> Some (Loading id call)) ->
  c_inflight c' = c_inflight c -> c_entries c' ⊆ c_entries c ->
  cache_inv c' (handles T') -> (size (unmarked c') <= c_maxOpen c')%nat -> cache_ok c' T'.
Proof.
  intros [] Ht Hng Hoth Hnew Hfl He Hi Hu. split; try done.
  - intros t' id call Ht'. rewrite Hfl. destruct (decide (t' = t)) as [->|Hne]; [by apply Hnew in Ht'|].
    rewrite Hoth in Ht' by done. eauto.
  - intros id call. rewrite Hfl. intros [t' Ht']%ok_loader0. exists t'. rewrite Hoth; [done|].
    intros ->. rewrite Ht in Ht'. by apply Hng in Ht'.
  - intros t1 t2 id k1 k2 H1 H2.
    destruct (decide (t1 = t)) as [->|Hn1]; [by apply Hnew in H1|].
    destruct (decide (t2 = t)) as [->|Hn2]; [by apply Hnew in H2|].
    rewrite Hoth in H1, H2 by done. eauto.
  - intros id call. rewrite Hfl. intros Hc. eapply absent_weaken; eauto.
Qed.

Lemma acquire_lookup_ok o now now' t og id c r c' T :
  cache_ok c T -> is_order o -> T !! t = og -> handles (delete t T) ≡ₚ handles T ->
  (forall id call, og <> Some (Loading id call)) ->
  acquire_lookup o now now' id c = (r, c') -> cache_ok c' (<[t := after_lookup id r]> T).
Proof.
  intros Hok Ho Ht Hh Hng Hr. destruct (acquire_lookup_spec _ _ _ _ _ _ _ _ Ho (ok_inv _ _ Hok) Hr)
    as (Hu & Hm & He & Hres). pose proof (ok_bound _ _ Hok) as Hb.
  assert (forall t', t' <> t -> <[t := after_lookup id r]> T !! t' = T !! t') as Hoth
    by (intros t' Hne; by rewrite lookup_insert_ne).
  destruct r as [a|call|call]; cbn [after_lookup] in *.
  - destruct Hres as [Hi Hfl]. eapply (ok_same_loads c c' t og); try done.
    + intros id' k. by rewrite lookup_insert_eq.
    + eapply cache_inv_perm; [|exact Hi]. rewrite handles_insert. cbn. by rewrite Hh.
    + rewrite Hm. lia.
  - destruct Hres as (Hi & Hfl & _). eapply (ok_same_loads c c' t og); try done.
    + intros id' k. by rewrite lookup_insert_eq.
    + eapply cache_inv_perm; [|exact Hi]. rewrite handles_insert. cbn. by rewrite Hh.
    + rewrite Hm. lia.
  - destruct Hres as (Hi & Hfl & Hnone & Hid). destruct Hok. split.
    + eapply cache_inv_perm; [|exact Hi]. rewrite handles_insert. cbn. by rewrite Hh.
    + rewrite Hm. lia.
    + intros t' id' k. rewrite Hfl. destruct (decide (t' = t)) as [->|Hne].
      * rewrite lookup_insert_eq. intros [= -> ->]. by rewrite lookup_insert_eq.
      * rewrite lookup_insert_ne by done. intros Ht'%ok_loading0. rewrite lookup_insert_ne; [done|]. congruence.
    + intros id' k. rewrite Hfl, lookup_insert_Some. intros [[<- <-]|[Hne Hk]].
      * exists t. by rewrite lookup_insert_eq.
      * destruct (ok_loader0 _ _ Hk) as [t' Ht']. exists t'. rewrite lookup_insert_ne; [done|].
        intros <-. rewrite Ht in Ht'. by apply Hng in Ht'.
    + intros t1 t2 id' k1 k2. rewrite !lookup_insert_Some.
      intros [[<- [= -> ->]]|[? H1]] [[<- E]|[? H2]]; try done.
      * apply ok_loading0 in H2. congruence.
      * injection E as -> ->. apply ok_loading0 in H1. congruence.
      * eauto.
    + intros id' k. rewrite Hfl, lookup_insert_Some. intros [[<- <-]|[Hne Hk]]; [done|].
      eapply absent_weaken; eauto.
Qed.

Lemma request_gone t g T : T !! t = Some g -> its_handle g = [] -> handles (delete t T) ≡ₚ handles T.
Proof. intros Ht Hg. by rewrite (handles_lookup t g T Ht), Hg. Qed.

(** The end of a load: its request is no longer loading, and nobody else
    loads that book. *)
Lemma ok_load_done c c' t id call T T' :
  cache_ok c T -> T !! t = Some (Loading id call) ->
  (forall t', t' <> t -> T' !! t' = T !! t') -> (forall id' k, T' !! t <> Some (Loading id' k)) ->
  c_inflight c' = delete id (c_inflight c) ->
  (forall id', id' <> id -> c_entries c !! id' = None -> c_entries c' !! id' = None) ->
  cache_inv c' (handles T') -> (size (unmarked c') <= c_maxOpen c')%nat -> cache_ok c' T'.
Proof.
  intros [] Ht Hoth Hnew Hfl He Hi Hu. split; try done.
  - intros t' id' k Ht'. destruct (decide (t' = t)) as [->|Hne]; [by apply Hnew in Ht'|].
    rewrite Hoth in Ht' by done. rewrite Hfl, lookup_delete_ne; [eauto|]. intros <-. apply Hne. by eapply ok_one0.
  - intros id' k. rewrite Hfl, lookup_delete_Some. intros [Hne Hk]. destruct (ok_loader0 _ _ Hk) as [t' Ht'].
    exists t'. rewrite Hoth; [done|]. intros ->. congruence.
  - intros t1 t2 id' k1 k2 H1 H2.
    destruct (decide (t1 = t)) as [->|Hn1]; [by apply Hnew in H1|].
    destruct (decide (t2 = t)) as [->|Hn2]; [by apply Hnew in H2|].
    rewrite Hoth in H1, H2 by done. eauto.
  - intros id' k. rewrite Hfl, lookup_delete_Some. intros [Hne Hk]. apply He; eauto.
Qed.

Lemma cstep_ok c T c' T' : cstep (c, T) (c', T') -> cache_ok c T -> cache_ok c' T'.
Proof.
  intros Hs Hok. inversion Hs; subst; clear Hs.
  - eapply acquire_lookup_ok; try done. by rewrite delete_id.
  - eapply acquire_lookup_ok; try done. by eapply request_gone.
  - eapply (ok_same_loads c' c' t (Some (Waiting id call)) T); try done.
    + intros t' Hne. by rewrite lookup_delete_ne.
    + intros. by rewrite lookup_delete_eq.
    + eapply cache_inv_perm; [symmetry; by eapply request_gone|apply (ok_inv _ _ Hok)].
    + apply (ok_bound _ _ Hok).
  - eapply (ok_same_loads c' c' t (Some (Waiting id call)) T); try done.
    + intros t' Hne. by rewrite lookup_delete_ne.
    + intros. by rewrite lookup_delete_eq.
    + eapply cache_inv_perm; [symmetry; by eapply request_gone|apply (ok_inv _ _ Hok)].
    + apply (ok_bound _ _ Hok).
  - match goal with Hl : _ !! _ = Some (Loading _ _) |- _ => rename Hl into Ht end.
    pose proof (ok_loading _ _ Hok _ _ _ Ht) as Hcall. pose proof (ok_absent _ _ Hok _ _ Hcall) as Hid.
    destruct (acquire_loaded_spec o now id call c a c' (handles T)) as (Hi & Hu & Hm & Hfl & He);
      [done|apply (ok_inv _ _ Hok)|apply (ok_bound _ _ Hok)|done..|].
    eapply (ok_load_done c c' t id call T); try done.
    + intros t' Hne. by rewrite lookup_insert_ne.
    + intros. by rewrite lookup_insert_eq.
    + intros id' Hne Hn. eapply absent_weaken; [exact He|]. by rewrite lookup_insert_ne.
    + eapply cache_inv_perm; [|exact Hi]. rewrite handles_insert. cbn. by rewrite (request_gone t _ T Ht).
    + by rewrite Hm.
  - match goal with Hl : acquire_loaded _ _ _ _ _ _ = _ |- _ => injection Hl as <- end.
    eapply (ok_load_done c _ t id call T); try done.
    + intros t' Hne. by rewrite lookup_delete_ne.
    + intros. by rewrite lookup_delete_eq.
    + eapply cache_inv_perm; [symmetry; by eapply request_gone|].
      by apply (bookkeeping_inv c); [apply (ok_inv _ _ Hok)|..].
    + rewrite (bookkeeping_unmarked c) by done. apply (ok_bound _ _ Hok).
  - destruct (Release_spec now id a c (handles (delete t T))) as (Hi & Hu & Hm & Hfl & He).
    { eapply cache_inv_perm; [|apply (ok_inv _ _ Hok)]. by rewrite (handles_lookup t (Holding id a) T). }
    eapply (ok_same_loads c _ t (Some (Holding id a)) T); try done.
    + intros t' Hne. by rewrite lookup_delete_ne.
    + intros. by rewrite lookup_delete_eq.
    + rewrite Hm. etrans; [exact Hu|apply (ok_bound _ _ Hok)].
  - destruct (sweepLocked_spec o now c (handles T')) as (Hi & Hsh & _); [done|apply (ok_inv _ _ Hok)|].
    pose proof (shrunk_unmarked _ _ Hsh). destruct Hok, Hsh. split; try done.
    + unfold Sweep. rewrite sh_max0. lia.
    + intros t id call. unfold Sweep. rewrite sh_inflight0. eauto.
    + intros id call. unfold Sweep. rewrite sh_inflight0. eauto.
    + intros id call. unfold Sweep. rewrite sh_inflight0. intros Hc. eapply absent_weaken; eauto.
Qed.

(** ** Reachable caches *)

Lemma sweep_max now l c :
  c_maxOpen (fold_left (sweep_entry now) l c) = c_maxOpen c /\ c_idleTTL (fold_left (sweep_entry now) l c) = c_idleTTL c.
Proof.
  revert c. induction l as [|ia l IH]; intros c; cbn [fold_left]; [done|].
  destruct (IH (sweep_entry now c ia)) as [-> ->]. unfold sweep_entry.
  destruct (c_heap c !! ia.2); [|done]. by destruct (idle _ _ _).
Qed.
Lemma evict_max o fuel c :
  c_maxOpen (evict_loop fuel o c) = c_maxOpen c /\ c_idleTTL (evict_loop fuel o c) = c_idleTTL c.
Proof.
  revert c. induction fuel as [|fuel IH]; intros c; cbn [evict_loop]; [done|].
  destruct (Nat.leb _ _); [done|]. destruct (lru _ _ c) as [[id a]|]; [apply (IH (drop_entry id a c))|].
  by destruct (lru _ _ c) as [[id a]|].
Qed.
Lemma lookup_max o now now' id c :
  c_maxOpen (acquire_lookup o now now' id c).2 = c_maxOpen c /\
  c_idleTTL (acquire_lookup o now now' id c).2 = c_idleTTL c.
Proof.
  unfold acquire_lookup. rewrite <- (proj1 (sweep_max now (o (c_entries c)) c)), <- (proj2 (sweep_max now (o (c_entries c)) c)).
  fold (sweepLocked o now c). destruct (c_entries _ !! id); [done|]. by destruct (c_inflight _ !! id).
Qed.

Lemma cstep_max c T c' T' :
  cstep (c, T) (c', T') -> c_maxOpen c' = c_maxOpen c /\ c_idleTTL c' = c_idleTTL c.
Proof.
  intros Hs. inversion Hs; subst; clear Hs; try done.
  1, 2: match goal with Hr : acquire_lookup ?o ?n ?n' ?i _ = _ |- _ =>
          pose proof (lookup_max o n n' i c) as Hm; by rewrite Hr in Hm end.
  - match goal with Hl : acquire_loaded _ _ _ _ _ _ = _ |- _ => unfold acquire_loaded in Hl; injection Hl as _ <- end.
    exact (evict_max o _ _).
  - match goal with Hl : acquire_loaded _ _ _ _ _ _ = _ |- _ => by injection Hl as <- end.
  - unfold Release. destruct (c_heap _ !! a) as [e|]; [|done]. by destruct (_ && _).
  - apply sweep_max.
Qed.

Lemma reachable_ok maxOpen idleTTL c T :
  cache_reachable maxOpen idleTTL (c, T) -> cache_ok c T /\ c_maxOpen c = maxOpen /\ c_idleTTL c = idleTTL.
Proof.
  intros Hr. assert (forall x y, rtc cstep x y -> cache_ok x.1 x.2 ->
    cache_ok y.1 y.2 /\ c_maxOpen y.1 = c_maxOpen x.1 /\ c_idleTTL y.1 = c_idleTTL x.1) as Hsteps.
  { induction 1 as [|[c1 T1] [c2 T2] z Hs _ IH]; intros Hok; [done|].
    destruct IH as (Hok' & Hm & Ht); [by eapply cstep_ok|]. destruct (cstep_max _ _ _ _ Hs). cbn in *.
    split; [done|]. split; congruence. }
  apply Hsteps in Hr; [done|]. cbn. split; cbn; try done.
  - split; cbn; try done; try (intros; by simplify_map_eq).
    + constructor.
    + intros a Ha. by apply elem_of_nil in Ha.
    + intros id a. unfold handles. rewrite map_to_list_empty. intros Ha. by apply elem_of_nil in Ha.
  - unfold unmarked. cbn. rewrite map_filter_empty, map_size_empty. lia.
Qed.

(** The entries beyond the unmarked ones are in use. *)
Lemma entries_bounded c T :
  cache_ok c T -> (size (c_entries c) <= c_maxOpen c + length (handles T))%nat.
Proof.
  intros [Hi Hu _ _ _ _]. set (P := fun ia : EditionID * address => ce_evict <$> c_heap c !! ia.2 = Some false).
  rewrite <- (map_filter_union_complement P (c_entries c)), map_size_disj_union
    by apply map_disjoint_filter_complement.
  apply Nat.add_le_mono; [done|]. rewrite <- length_map_to_list. apply submseteq_length, NoDup_submseteq.
  { apply NoDup_map_to_list. }
  intros [id a]. rewrite elem_of_map_to_list, map_lookup_filter_Some. intros [Hid Hm].
  destruct (ci_entries _ _ _ Hi _ _ Hid) as [[e He] Hc]. unfold P in Hm. cbn in Hm. rewrite He in Hm.
  assert (ce_evict e = true) as Hev by (apply not_false_iff_true; intros E; apply Hm; cbn; by rewrite E).
  assert (0 < ce_refs e) as Hr by (by apply (ci_marked _ _ _ Hi a)). rewrite (ci_refs _ _ _ Hi _ _ He) in Hr.
  destruct (held_some a (handles T)) as [id' Hin]; [lia|]. pose proof (ci_held _ _ _ Hi _ _ Hin) as Hid'.
  by rewrite (ci_inj _ _ _ Hi _ _ _ Hid Hid').
Qed.

(** C13: an open book in use stays open, and open books are neither lost nor
    closed twice.  Whatever requests, sweeps and failed loads interleave, with
    whatever clock and whatever order Go ranges over a map in: a handle's
    archive is the one the cache has for that book, and has not been cleaned
    up; every archive ever loaded is either cleaned up, once, or still in the
    cache; an entry's count is the number of its handles; no two requests
    load the same book at once, and none loads a book that is open; and the
    cache never holds more than [maxOpen] books beside those in use. *)
Theorem open_books_safe maxOpen idleTTL c T :
  cache_reachable maxOpen idleTTL (c, T) ->
  (forall t id a, T !! t = Some (Holding id a) -> c_entries c !! id = Some a /\ a ∉ c_cleaned c) /\
  NoDup (c_cleaned c) /\
  (forall a, is_Some (c_heap c !! a) -> a ∉ c_cleaned c <-> exists id, c_entries c !! id = Some a) /\
  (forall id a e, c_entries c !! id = Some a -> c_heap c !! a = Some e ->
     ce_refs e = Z.of_nat (held a (handles T))) /\
  (forall t t' id call call', T !! t = Some (Loading id call) -> T !! t' = Some (Loading id call') ->
     t = t' /\ c_entries c !! id = None) /\
  (size (c_entries c) <= maxOpen + length (handles T))%nat.
Proof.
  intros (Hok & Hm & _)%reachable_ok. pose proof (ok_inv _ _ Hok) as Hi. conjuncts.
  - intros t id a Ht. assert (c_entries c !! id = Some a) as Hid
      by (apply (ci_held _ _ _ Hi), handles_elem; by exists t).
    split; [done|]. by apply (ci_entries _ _ _ Hi id).
  - apply (ci_once _ _ _ Hi).
  - intros a Ha. split.
    + intros Hc. by destruct (ci_all _ _ _ Hi a Ha).
    + intros [id Hid]. by apply (ci_entries _ _ _ Hi id).
  - intros id a e _ He. by apply (ci_refs _ _ _ Hi).
  - intros t t' id call call' Ht Ht'. split; [by eapply (ok_one _ _ Hok)|].
    eapply (ok_absent _ _ Hok), (ok_loading _ _ Hok _ _ _ Ht).
  - rewrite <- Hm. by apply entries_bounded.
Qed.

(** ** Which books are closed *)

Lemma evict_subset o fuel c : c_entries (evict_loop fuel o c) ⊆ c_entries c.
Proof.
  revert c. induction fuel as [|fuel IH]; intros c; cbn [evict_loop]; [done|].
  destruct (Nat.leb _ _); [done|]. destruct (lru _ _ c) as [[id a]|].
  - etrans; [apply (IH (drop_entry id a c))|]. apply delete_subseteq.
  - by destruct (lru _ _ c) as [[id a]|].
Qed.

Lemma evict_loop_lru o fuel c H id a e :
  is_order o -> cache_inv c H -> c_entries c !! id = Some a -> c_heap c !! a = Some e ->
  c_entries (evict_loop fuel o c) !! id = None ->
  ce_refs e = 0 /\
  forall id' a' e', c_entries (evict_loop fuel o c) !! id' = Some a' -> c_heap c !! a' = Some e' ->
    free_entry e' = true -> ce_lastUsed e <= ce_lastUsed e'.
Proof.
  intros Ho. revert c. induction fuel as [|fuel IH]; intros c Hi Hid He; cbn [evict_loop]; [congruence|].
  destruct (Nat.leb _ _); [congruence|]. pose proof (lru_spec free_entry o c Ho) as Hl.
  destruct (lru free_entry o c) as [[id0 a0]|].
  - destruct Hl as (Hid0 & e0 & He0 & Hfree & Hmin). pose proof (free_entry_refs _ Hfree) as [Hz _].
    destruct (decide (id0 = id)) as [->|Hne].
    + simplify_eq. intros _. split; [done|]. intros id' a' e' Hid' He' Hf'. eapply (Hmin id'); [|done..].
      pose proof (lookup_weaken _ _ _ _ Hid' (evict_subset o fuel (drop_entry id a c))) as Hx.
      cbn in Hx. by apply lookup_delete_Some in Hx as [_ Hx].
    + intros Hgone. apply (IH (drop_entry id0 a0 c)); [|by cbn; rewrite lookup_delete_ne|done..].
      apply (drop_inv None); [done|by left|done|by eapply held_zero].
  - destruct (lru unmarked_entry o c) as [[id1 a1]|]; cbn; congruence.
Qed.

(** Which books are closed to make room.  A sweep closes exactly the books
    nobody has a handle on and nobody used for the time allowed; so once all
    handles are back, a sweep that late closes every book.  A load that takes
    the cache over its size hands out the new book and closes only books that
    are not in use, the least recently used ones: no book it leaves closable
    was used before one it closes. *)
Theorem books_closed maxOpen idleTTL c T o now :
  cache_reachable maxOpen idleTTL (c, T) -> is_order o ->
  (forall id a e, c_entries c !! id = Some a -> c_heap c !! a = Some e ->
     (c_entries (Sweep o now c) !! id = None <-> ce_refs e = 0 /\ idleTTL <= Sub now (ce_lastUsed e))) /\
  (T = ∅ -> (forall a e, c_heap c !! a = Some e -> idleTTL <= Sub now (ce_lastUsed e)) ->
     c_entries (Sweep o now c) = ∅) /\
  (forall t id call a c', T !! t = Some (Loading id call) ->
     acquire_loaded o now id call (Ok tt) c = (Ok a, c') ->
     c_entries c' !! id = Some a /\
     forall id1 a1 e1, c_entries c !! id1 = Some a1 -> c_heap c !! a1 = Some e1 -> c_entries c' !! id1 = None ->
       ce_refs e1 = 0 /\
       forall id2 a2 e2, c_entries c' !! id2 = Some a2 -> c_heap c !! a2 = Some e2 -> ce_refs e2 = 0 ->
         ce_lastUsed e1 <= ce_lastUsed e2).
Proof.
  intros (Hok & _ & Httl)%reachable_ok Ho. pose proof (ok_inv _ _ Hok) as Hi.
  destruct (sweepLocked_spec o now c _ Ho Hi) as (_ & Hsh & Hsw). fold (Sweep o now c) in *.
  assert (forall id a e, c_entries c !! id = Some a -> c_heap c !! a = Some e ->
     (c_entries (Sweep o now c) !! id = None <-> ce_refs e = 0 /\ idleTTL <= Sub now (ce_lastUsed e))) as Hswept.
  { intros id a e Hid He. transitivity (idle now c e = true).
    - split.
      + intros Hn. apply not_false_iff_true. intros Hx. enough (c_entries (Sweep o now c) !! id = Some a) by congruence.
        apply Hsw. split; [done|]. intros (e' & He' & Hx'). congruence.
      + intros Hx. apply eq_None_not_Some. intros [a' Ha']. apply Hsw in Ha' as [Ha' Hno].
        simplify_eq. apply Hno. by exists e.
    - unfold idle. rewrite andb_true_iff, Z.eqb_eq, Z.leb_le, Httl. done. }
  split; [done|]. split.
  - intros -> Hold. apply map_empty. intros id. destruct (c_entries c !! id) as [a|] eqn:Hid.
    + destruct (ci_entries _ _ _ Hi _ _ Hid) as [[e He] _]. apply (Hswept id a e); [done..|].
      split; [|by apply (Hold a)]. rewrite (ci_refs _ _ _ Hi _ _ He). unfold handles. by rewrite map_to_list_empty.
    + eapply absent_weaken; [apply (sh_entries _ _ Hsh)|done].
  - intros t id call a c' Ht Hl. pose proof (ok_absent _ _ Hok _ _ (ok_loading _ _ Hok _ _ _ Ht)) as Hid.
    destruct (acquire_loaded_spec _ _ _ _ _ _ _ _ Ho Hi (ok_bound _ _ Hok) Hid Hl) as (Hi' & _).
    split; [apply (ci_held _ _ _ Hi'); by left|]. intros id1 a1 e1 Hid1 He1 Hgone.
    unfold acquire_loaded in Hl. injection Hl as <- <-. revert Hgone.
    set (c0 := set_inflight _ c). assert (cache_inv c0 (handles T)) as Hi0 by (by apply (bookkeeping_inv c)).
    destruct (insert_entry_inv now id c0 _ Hi0 Hid) as [Hi1 _]. unfold evictLRULocked.
    set (fuel := S _). intros Hgone.
    assert (forall i x, c_entries c !! i = Some x -> c_entries (insert_entry now id c0) !! i = Some x) as Hent.
    { intros i x Hix. cbn. rewrite lookup_insert_ne; [done|]. congruence. }
    assert (forall x y, c_heap c !! x = Some y -> c_heap (insert_entry now id c0) !! x = Some y) as Hheap.
    { intros x y Hxy. cbn. rewrite lookup_insert_ne; [done|]. intros <-.
      assert (c_next c < c_next c)%nat; [|lia]. by apply (ci_next _ _ _ Hi); exists y. }
    destruct (evict_loop_lru o fuel _ _ id1 a1 e1 Ho Hi1 (Hent _ _ Hid1) (Hheap _ _ He1) Hgone) as [Hz Hmin].
    split; [done|]. intros id2 a2 e2 Hid2 He2 Hz2. apply (Hmin id2 a2); [done|by apply Hheap|].
    unfold free_entry. rewrite Hz2, orb_false_r. apply negb_true_iff, not_true_iff_false. intros Hev.
    pose proof (lookup_weaken _ _ _ _ Hid2 (evict_subset o fuel _)) as Hx.
    destruct (ci_entries _ _ _ Hi1 _ _ Hx) as [_ Hc].
    assert (0 < ce_refs e2); [|lia]. by apply (ci_marked _ _ _ Hi1 a2); [apply Hheap|..].
Qed.

(** ** A run: two requests over a cache with room for one book *)

Definition map_order : order := map_to_list.
Lemma map_order_ok : is_order map_order.
Proof. by intros m. Qed.

Definition run0 : Cache := newCache 1 10.
Definition run1 : Cache := (acquire_lookup map_order 0 0 "e1" run0).2.
Definition run2 : Cache := (acquire_loaded map_order 1 "e1" 0 (Ok tt) run1).2.
Definition run3 : Cache := (acquire_lookup map_order 2 2 "e2" run2).2.
Definition run4 : Cache := (acquire_loaded map_order 3 "e2" 2 (Ok tt) run3).2.
Definition run5 : Cache := Release 4 "e1" 1 run4.
Definition run6 : Cache := Release 5 "e2" 3 run5.

Lemma runs_to {A B} (p : A * B) a : p.1 = a -> p = (a, p.2).
Proof. destruct p. by intros <-. Qed.

Definition loading1 : requests := <[1%nat := Loading "e1" 0%nat]> ∅.
Definition holding1 : requests := <[1%nat := Holding "e1" 1%nat]> loading1.
Definition loading2 : requests := <[2%nat := Loading "e2" 2%nat]> holding1.
Definition two_handles : requests := <[2%nat := Holding "e2" 3%nat]> loading2.

Lemma demo_loading : cache_reachable 1 10 (run3, loading2).
Proof.
  eapply rtc_l; [apply (step_acquire map_order 0 0 1 "e1" run0 run1 (Load 0)); [apply map_order_ok|done|by apply runs_to]|].
  eapply rtc_l; [apply (step_loaded map_order 1 1 "e1" 0 1 run1 run2); [apply map_order_ok|done|by apply runs_to]|].
  apply rtc_once, (step_acquire map_order 2 2 2 "e2" run2 run3 (Load 2)); [apply map_order_ok|done|].
  apply runs_to. vm_compute. reflexivity.
Qed.
Lemma demo_reachable : cache_reachable 1 10 (run5, delete 1%nat two_handles).
Proof.
  eapply rtc_r; [eapply rtc_r; [apply demo_loading|]|].
  - apply (step_loaded map_order 3 2 "e2" 2 3 run3 run4); [apply map_order_ok|done|].
    apply runs_to. vm_compute. reflexivity.
  - by apply (step_release 4 1 "e1" 1).
Qed.

(** The first book is marked while both are in use, and closed with its last
    handle; the second is still open. *)
Lemma open_books_safe_witness :
  size (c_entries run4) = 2%nat /\ c_cleaned run4 = [] /\ c_cleaned run5 = [1%nat] /\
  c_entries run5 !! "e2" = Some 3%nat /\ 3%nat ∉ c_cleaned run5.
Proof.
  split; [reflexivity|]. split; [reflexivity|]. split; [reflexivity|].
  destruct (open_books_safe 1 10 run5 (delete 1%nat two_handles) demo_reachable) as (Hh & _).
  apply (Hh 2%nat). reflexivity.
Defined.

(** With both back, a sweep ten units later closes the second too. *)
Lemma books_closed_witness :
  ce_refs <$> c_heap run6 !! 3%nat = Some 0 /\ c_entries run6 !! "e2" = Some 3%nat /\
  c_entries (Sweep map_order 15 run6) = ∅.
Proof.
  split; [reflexivity|]. split; [reflexivity|].
  assert (cache_reachable 1 10 (run6, ∅)) as Hr.
  { eapply rtc_r; [apply demo_reachable|].
    replace ∅ with (delete 2%nat (delete 1%nat two_handles)) by reflexivity.
    by eapply (step_release 5 2 "e2" 3). }
  destruct (books_closed 1 10 run6 ∅ map_order 15 Hr map_order_ok) as (_ & Hall & _).
  apply Hall; [reflexivity|].
  apply (bool_decide_unpack (map_Forall (fun _ e => 10 <= Sub 15 (ce_lastUsed e)) (c_heap run6))).
  vm_compute. exact I.
Defined.
