(* ===== verification/Extract.v ===== *)
(** * Reading book files (src/internal/importer/extract)

    Spooling a stream to a temporary file, recognising its format by content
    and extracting the metadata of EPUB, CBZ and PDF files.  The archives and
    the decoders of XML, of PDF and of media types are parameters; a panic in
    one of them, which the code turns into [ErrMalformed], is its failure. *)

From S2P Require Import Prelude GoStrings Errors Validate Catalog Postgres Encoding Tokens Utf8 Floats Jobs Paths Sources.

Local Open Scope string_scope.
Local Open Scope list_scope.
Local Open Scope Z_scope.

(** ** Formats, errors and bounds (types.go) *)

Abbreviation Format := string (only parsing).
Definition FormatEPUB : Format := "epub".
Definition FormatPDF : Format := "pdf".
Definition FormatCBZ : Format := "cbz".
Definition FormatUnknown : Format := "unknown".

Definition ErrOversized : error := New "file or decompressed content exceeds size limit".
Definition ErrTooManyEntries : error := New "zip archive exceeds 10,000 entry limit".
Definition ErrMalformed : error := New "malformed or unparseable container".
Definition ErrNoTitle : error := New "file contains no title metadata".

Definition MaxRawSpoolBytes : Z := 250 * 1024 * 1024.
Definition MaxDecompressedReadBytes : Z := 200 * 1024 * 1024.
Definition MaxZipEntryCount : nat := Z.to_nat 10000.
Definition MaxCoverBytes : Z := 10 * 1024 * 1024.
Definition MaxTextLength : nat := 255.
Definition MaxDescriptionLength : nat := Z.to_nat 10000.

Record ExtractedMetadata := mkExtractedMetadata {
  em_Title : string;
  em_Authors : list string;
  em_ISBN : option string;
  em_Language : option string;
  em_Publisher : option string;
  em_Description : option string;
  em_CoverBytes : string;
  em_Format : Format;
}.

Definition kept_rune (r : Z) : bool := negb (IsControl r) || (r =? 10) || (r =? 13) || (r =? 9).

Definition sanitizeField (s : string) (maxLen : nat) : string :=
  let res := TrimSpace (string_of_runes (List.filter kept_rune (runes s))) in
  let rs := runes res in
  let res := if Nat.ltb maxLen (length rs) then string_of_runes (take maxLen rs) else res in
  TrimSpace res.

Definition nonempty_field (s : string) : option string := if String.eqb s "" then None else Some s.

Definition NewExtractedMetadata (rawTitle : string) (rawAuthors : list string)
    (rawISBN rawLanguage rawPublisher rawDescription : option string) (coverBytes : string) (format : Format)
    : Result ExtractedMetadata :=
  let title := TrimSpace rawTitle in
  if String.eqb title "" then Err ErrNoTitle
  else
    let title := sanitizeField title MaxTextLength in
    if String.eqb title "" then Err ErrNoTitle
    else Ok (mkExtractedMetadata title
      (List.filter (fun a => negb (String.eqb a ""))
         ((fun a => sanitizeField (TrimSpace a) MaxTextLength) <$> rawAuthors))
      (raw ← rawISBN; let clean := TrimSpace raw in if is_ok (ValidateISBN clean) then Some clean else None)
      (raw ← rawLanguage; let clean := TrimSpace raw in if is_ok (ValidateLanguageTag clean) then Some clean else None)
      (raw ← rawPublisher; nonempty_field (sanitizeField (TrimSpace raw) MaxTextLength))
      (raw ← rawDescription; nonempty_field (sanitizeField (TrimSpace raw) MaxDescriptionLength))
      (if (0 <? len coverBytes) && (len coverBytes <=? MaxCoverBytes) then coverBytes else "")
      format).

(** ** Spooling (materialize.go)

    What one read of the stream brings: whether the context was cancelled
    before it, the bytes, whether writing them fails, and what the reader says
    beside them. *)
Inductive read_end := ReadMore | ReadEOF | ReadFailed (e : error).
Record read_step := mkReadStep {
  rd_cancelled : option error;
  rd_data : string;
  rd_write : option error;
  rd_end : read_end;
}.

(** What the operating system answers around the loop. *)
Record spool := mkSpool {
  sp_cancelled : option error;
  sp_create : option error;
  sp_seek : option error;
}.

Fixpoint materialize_loop (stream : list read_step) (total : Z) (spooled : string) : Result string :=
  match stream with
  | [] => OutOfFuel
  | r :: stream' =>
      match rd_cancelled r with
      | Some e => Err e
      | None =>
          let n := len (rd_data r) in
          let total := total + n in
          if (0 <? n) && (MaxRawSpoolBytes <? total) then Err ErrOversized
          else match (if 0 <? n then rd_write r else None) with
          | Some e => Err (Errorf ("writing to import temp file: " +:+ Error e) e)
          | None =>
              let spooled := spooled +:+ rd_data r in
              match rd_end r with
              | ReadMore => materialize_loop stream' total spooled
              | ReadEOF => Ok spooled
              | ReadFailed e => Err (Errorf ("reading source stream: " +:+ Error e) e)
              end
          end
      end
  end.

(** The temporary files there are.  [cleanup] closes and removes one. *)
Abbreviation tempM := (stM nat error) (only parsing).
Definition create_temp (e : option error) : tempM unit := fun files =>
  match e with
  | Some e => (Err (Errorf ("creating temp file for import spooling: " +:+ Error e) e), files)
  | None => (Ok tt, S files)
  end.
Definition cleanup : nat -> nat := Nat.pred.

Definition spool_stream (sp : spool) (stream : list read_step) : tempM string := fun files =>
  match materialize_loop stream 0 "" with
  | Ok s =>
      match sp_seek sp with
      | Some e => (Err (Errorf ("seeking to start of import temp file: " +:+ Error e) e), cleanup files)
      | None => (Ok s, files)
      end
  | Err e => (Err e, cleanup files)
  | OutOfFuel => (OutOfFuel, files)
  end.

(** The spooled bytes; the file stays until the caller's cleanup. *)
Definition Materialize (sp : spool) (stream : list read_step) : tempM string :=
  match sp_cancelled sp with
  | Some e => throw e
  | None => _ ← create_temp (sp_create sp); spool_stream sp stream
  end.

(** ** Archives *)

(** An entry of a zip archive: its data is what reading it yields, then an
    error if it has one. *)
Record zip_entry := mkZipEntry {
  ze_Name : string;
  ze_IsDir : bool;
  ze_open : option error;
  ze_data : string;
  ze_error : option error;
}.

Record comicInfo := mkComicInfo {
  ci_Title : string;
  ci_Series : string;
  ci_Number : string;
  ci_Writer : string;
  ci_Publisher : string;
  ci_Summary : string;
  ci_Notes : string;
}.

Record opf_identifier := mkOpfIdentifier { oi_Scheme : string; oi_Value : string }.
Record opf_item := mkOpfItem { it_ID : string; it_Href : string; it_Properties : string }.
Record opfPackage := mkOpfPackage {
  opf_Titles : list string;
  opf_Creators : list string;
  opf_Descriptions : list string;
  opf_Publishers : list string;
  opf_Languages : list string;
  opf_Identifiers : list opf_identifier;
  opf_Meta : list (string * string);
  opf_Items : list opf_item;
}.

Record pdfInfo := mkPdfInfo {
  pi_Title : string;
  pi_Author : string;
  pi_Subject : string;
  pi_Keywords : list string;
}.

Class Containers := {
  zip_entries : string -> option (list zip_entry);
  DetectContentType : string -> string;
  xml_container : string -> option (list string);
  xml_opf : string -> option opfPackage;
  xml_comic : string -> option comicInfo;
  pdf_info : string -> option pdfInfo;
}.

(** [readEntry]: the state is the number of bytes read from the archive. *)
Definition readEntry (maxBytes : Z) (entry : zip_entry) : stM Z error string := fun bytesRead =>
  match ze_open entry with
  | Some e => (Err e, bytesRead)
  | None =>
      if maxBytes <? len (ze_data entry) then (Err ErrOversized, bytesRead)
      else match ze_error entry with
      | Some e => (Err e, bytesRead)
      | None =>
          let bytesRead := bytesRead + len (ze_data entry) in
          if MaxDecompressedReadBytes <? bytesRead then (Err ErrOversized, bytesRead)
          else (Ok (ze_data entry), bytesRead)
      end
  end.

Section containers.
Context `{CaseTables} `{FoldTable} `{Containers}.

(** ** Formats by content (detect.go) *)

Definition isImageContentType (ct : string) : bool :=
  HasPrefix ct "image/jpeg" || HasPrefix ct "image/png" || HasPrefix ct "image/gif" || HasPrefix ct "image/webp".

(** [ReadAt] of [n] bytes at an offset. *)
Definition read_at (f : string) (n off : nat) : option string :=
  if Nat.leb (off + n) (String.length f) then Some (String.substring off n f) else None.
Definition uint16_at (header : string) (i : nat) : Z :=
  let b j := default 0 (bytes header !! j) in b i + 256 * b (S i).

Definition epub_marker : string := "application/epub+zip".
Definition local_signature : list Z := [80; 75; 3; 4].

(** The first local header of an EPUB: an uncompressed entry "mimetype" with
    the type in it. *)
Definition epub_header (f : string) : bool :=
  match read_at f 30 0 with
  | None => false
  | Some h =>
      bool_decide (take 4 (bytes h) = local_signature) &&
      (uint16_at h 8 =? 0) && (uint16_at h 26 =? 8) &&
      bool_decide (read_at f 8 30 = Some "mimetype") &&
      bool_decide (read_at f (String.length epub_marker) (38 + Z.to_nat (uint16_at h 28)) = Some epub_marker)
  end.

(** An entry of a resource fork or a dotfile. *)
Definition hidden_entry (name : string) : bool := HasPrefix name "__MACOSX/" || HasPrefix (path_Base name) ".".

(** The first 512 bytes of an entry are those of an image. *)
Definition sniffs_as_image (entry : zip_entry) : bool :=
  match ze_open entry with
  | Some _ => false
  | None =>
      let buf := String.substring 0 512 (ze_data entry) in
      negb (String.eqb buf "") && isImageContentType (DetectContentType buf)
  end.

Definition content_entry (entry : zip_entry) : bool := negb (hidden_entry (ze_Name entry)) && negb (ze_IsDir entry).

(** [stat] is the error of [Stat], if it has one. *)
Definition DetectFormat (stat : option error) (f : string) : Result Format :=
  match stat with
  | Some e => Err e
  | None =>
      if len f <? 4 then Ok FormatUnknown
      else if bool_decide (read_at f 5 0 = Some "%PDF-") then Ok FormatPDF
      else if epub_header f then Ok FormatEPUB
      else match zip_entries f with
      | None => Ok FormatUnknown
      | Some entries =>
          if Nat.ltb MaxZipEntryCount (length entries) then Err ErrTooManyEntries
          else
            let content := List.filter content_entry entries in
            let images := List.filter sniffs_as_image content in
            let total := Z.of_nat (length content) in
            if (0 <? total) && flt (f64_ratio 1 2) (f64_ratio (Z.of_nat (length images)) total)
            then Ok FormatCBZ else Ok FormatUnknown
      end
  end.

(** ** EPUB (epub.go) *)

(** The last entry of a name; names that are not UTF-8 are left out. *)
Definition entry_named (entries : list zip_entry) (name : string) : option zip_entry :=
  if valid_utf8 name then List.find (fun e => String.eqb (ze_Name e) name) (rev entries) else None.

(** [errorsIs]: the same error, or its text in another's. *)
Definition errorsIs (err target : error) : bool := Contains (Error err) (Error target).

Definition read_package (entry : zip_entry) (maxBytes : Z) : stM Z error string := fun n =>
  match readEntry maxBytes entry n with
  | (Err e, n) => (Err (if errorsIs e ErrOversized then ErrOversized else ErrMalformed), n)
  | r => r
  end.

Definition urn_isbn (val : string) : string :=
  TrimSpace (TrimPrefix (TrimPrefix val "urn:isbn:") "URN:ISBN:").
Definition isbn_of (isbn : option string) (ident : opf_identifier) : option string :=
  let val := TrimSpace (oi_Value ident) in
  if String.eqb (ToUpper (oi_Scheme ident)) "ISBN" || HasPrefix (ToLower val) "urn:isbn:" then
    match isbn with
    | None => nonempty_field (urn_isbn val)
    | Some _ => isbn
    end
  else
    let digits := len (remove_char "-" val) in
    match isbn with
    | None => if (digits =? 10) || (digits =? 13) then Some val else None
    | Some _ => isbn
    end.

(** The first value, if it is not blank. *)
Definition first_field (l : list string) : option string :=
  match l with
  | v :: _ => nonempty_field (TrimSpace v)
  | [] => None
  end.

(** EPUB 3 marks the cover among the manifest's items, EPUB 2 names the item
    in a meta element. *)
Definition cover_href (opf : opfPackage) : string :=
  match List.find (fun it => Contains (it_Properties it) "cover-image") (opf_Items opf) with
  | Some it => it_Href it
  | None => ""
  end.
Definition cover_item (opf : opfPackage) : string :=
  match List.find (fun m => EqualFold m.1 "cover") (opf_Meta opf) with
  | None => ""
  | Some m =>
      if String.eqb m.2 "" then ""
      else match List.find (fun it => String.eqb (it_ID it) m.2) (opf_Items opf) with
      | Some it => it_Href it
      | None => ""
      end
  end.

Definition epub_cover (entries : list zip_entry) (opfPath : string) (opf : opfPackage) : stM Z error string :=
  let coverHref := if String.eqb (cover_href opf) "" then cover_item opf else cover_href opf in
  if String.eqb coverHref "" then mret ""
  else match entry_named entries (path_Join [path_Dir opfPath; coverHref]) with
  | None => mret ""
  | Some e => fun n => match readEntry MaxCoverBytes e n with (Ok b, n) => (Ok b, n) | (_, n) => (Ok "", n) end
  end.

Definition opf_entry (entries : list zip_entry) (opfPath : string) : option zip_entry :=
  match entry_named entries opfPath with
  | Some e => Some e
  | None => entry_named entries (path_Clean opfPath)
  end.

Definition epub_metadata (opf : opfPackage) (cover : string) : Result ExtractedMetadata :=
  NewExtractedMetadata
    (match opf_Titles opf with t :: _ => t | [] => "" end)
    (List.filter (fun c => negb (String.eqb (TrimSpace c) "")) (opf_Creators opf))
    (fold_left isbn_of (opf_Identifiers opf) None)
    (first_field (opf_Languages opf)) (first_field (opf_Publishers opf)) (first_field (opf_Descriptions opf))
    cover FormatEPUB.

Definition malformed {A} : stM Z error A := throw ErrMalformed.

Definition extract_epub (entries : list zip_entry) : stM Z error ExtractedMetadata :=
  match entry_named entries "META-INF/container.xml" with
  | None => malformed
  | Some containerEntry =>
      containerBytes ← read_package containerEntry (1 * 1024 * 1024);
      match xml_container containerBytes with
      | Some (fullPath :: _) =>
          let opfPath := TrimSpace fullPath in
          if String.eqb opfPath "" then malformed
          else match opf_entry entries opfPath with
          | None => malformed
          | Some opfEntry =>
              opfBytes ← read_package opfEntry (5 * 1024 * 1024);
              match xml_opf opfBytes with
              | None => malformed
              | Some opf =>
                  cover ← epub_cover entries opfPath opf;
                  reading (fun _ => epub_metadata opf cover)
              end
          end
      | _ => malformed
      end
  end.

(** An archive is opened, unless it has too many entries. *)
Definition open_archive {A} (stat : option error) (f : string) (body : list zip_entry -> stM Z error A) : Result A :=
  match stat with
  | Some e => Err e
  | None =>
      match zip_entries f with
      | None => Err ErrMalformed
      | Some entries =>
          if Nat.ltb MaxZipEntryCount (length entries) then Err ErrTooManyEntries else (body entries 0).1
      end
  end.

Definition ExtractEPUB (stat : option error) (f : string) : Result ExtractedMetadata :=
  open_archive stat f extract_epub.

(** ** Comic archives (cbz.go) *)

Definition comic_entry (entry : zip_entry) : bool := content_entry entry && valid_utf8 (ze_Name entry).
Definition is_comic_info (entry : zip_entry) : bool := EqualFold (path_Base (ze_Name entry)) "comicinfo.xml".

Definition split_names (sep : ascii) (s : string) : list string :=
  List.filter (fun a => negb (String.eqb a "")) (TrimSpace <$> Split sep s).

Record comic_fields := mkComicFields {
  cf_title : string;
  cf_authors : list string;
  cf_publisher : option string;
  cf_description : option string;
}.
Definition no_fields : comic_fields := mkComicFields "" [] None None.

Definition comic_info_fields (ci : comicInfo) : comic_fields :=
  let title := TrimSpace (ci_Title ci) in
  let series := TrimSpace (ci_Series ci) in
  let number := TrimSpace (ci_Number ci) in
  mkComicFields
    (if String.eqb title "" && negb (String.eqb series "")
     then (if String.eqb number "" then series else series +:+ " #" +:+ number) else title)
    (if String.eqb (TrimSpace (ci_Writer ci)) "" then [] else split_names "," (ci_Writer ci))
    (nonempty_field (TrimSpace (ci_Publisher ci)))
    (match nonempty_field (TrimSpace (ci_Summary ci)) with
     | Some d => Some d
     | None => nonempty_field (TrimSpace (ci_Notes ci))
     end).

(** A reading that fails is as if there were nothing. *)
Definition read_or_nothing (maxBytes : Z) (entry : option zip_entry) : stM Z error (option string) := fun n =>
  match entry with
  | None => (Ok None, n)
  | Some e => match readEntry maxBytes e n with (Ok b, n) => (Ok (Some b), n) | (_, n) => (Ok None, n) end
  end.

Definition entry_leb (a b : zip_entry) : bool := String.leb (ze_Name a) (ze_Name b).

Definition extract_cbz (entries : list zip_entry) : stM Z error ExtractedMetadata :=
  let entries := List.filter comic_entry entries in
  let comicInfoEntry := List.find is_comic_info (rev entries) in
  let imageEntries := List.filter sniffs_as_image (List.filter (fun e => negb (is_comic_info e)) entries) in
  infoBytes ← read_or_nothing (5 * 1024 * 1024) comicInfoEntry;
  let fields := match infoBytes ≫= xml_comic with Some ci => comic_info_fields ci | None => no_fields end in
  cover ← read_or_nothing MaxCoverBytes (head (sort_by entry_leb imageEntries));
  reading (fun _ => NewExtractedMetadata (cf_title fields) (cf_authors fields) None None
    (cf_publisher fields) (cf_description fields) (default "" cover) FormatCBZ).

Definition ExtractCBZ (stat : option error) (f : string) : Result ExtractedMetadata :=
  open_archive stat f extract_cbz.

(** ** PDF (pdf.go) *)

Definition pdf_metadata (info : pdfInfo) : Result ExtractedMetadata :=
  NewExtractedMetadata (pi_Title info)
    (if String.eqb (TrimSpace (pi_Author info)) "" then []
     else flat_map (split_names ",") (Split ";" (pi_Author info)))
    None None None
    (match nonempty_field (TrimSpace (pi_Subject info)) with
     | Some d => Some d
     | None => match pi_Keywords info with
               | [] => None
               | keywords => nonempty_field (TrimSpace (String.concat ", " keywords))
               end
     end) "" FormatPDF.

Definition ExtractPDF (cancelled : option error) (f : string) : Result ExtractedMetadata :=
  match cancelled with
  | Some e => Err e
  | None => match pdf_info f with Some info => pdf_metadata info | None => Err ErrMalformed end
  end.

(** ** By format (extract.go) *)

(** The context is looked at here, and again by [ExtractPDF]. *)
Definition Extract (cancelled cancelled' stat : option error) (format : Format) (f : string)
    : Result ExtractedMetadata :=
  match cancelled with
  | Some e => Err e
  | None =>
      if String.eqb format FormatEPUB then ExtractEPUB stat f
      else if String.eqb format FormatCBZ then ExtractCBZ stat f
      else if String.eqb format FormatPDF then ExtractPDF cancelled' f
      else Err (Errorf (Error ErrMalformed +:+ ": unsupported format " +:+ quote format) ErrMalformed)
  end.
End containers.
