(* ===== verification/ExtractSafety.v ===== *)
(** * What extraction promises (src/internal/importer/extract)

    Metadata is clean whatever the book says, and spooling is bounded and
    leaves no file behind when it fails. *)

From S2P Require Import Prelude GoStrings Errors Validate Catalog Postgres Encoding Tokens Utf8 Floats Jobs Paths Sources Extract.

Local Open Scope string_scope.
Local Open Scope list_scope.
Local Open Scope Z_scope.

(** ** Trimmed lists of runes *)

Definition trim (l : list Z) : list Z := drop_while_end IsSpace (drop_while IsSpace l).

Lemma drop_while_end_nil {A} (p : A -> bool) l : drop_while p l = [] <-> Forall (fun x => p x = true) l.
Proof.
  induction l as [|x l IH]; cbn [drop_while]; [by split|].
  rewrite Forall_cons. destruct (p x) eqn:E; [|split; [done | by intros [? _]]].
  rewrite IH. naive_solver.
Qed.

Lemma trim_nil l : trim l = [] <-> Forall (fun r => IsSpace r = true) l.
Proof.
  unfold trim, drop_while_end. rewrite <- drop_while_end_nil. split; [|by intros ->].
  intros H. pose proof (drop_while_head IsSpace l) as Hh.
  destruct (drop_while IsSpace l) as [|x m]; [done|]. exfalso.
  apply (f_equal (@rev Z)) in H. rewrite rev_involutive in H. cbn [rev] in H.
  rewrite drop_while_snoc in H by done. by destruct (drop_while IsSpace (rev m)).
Qed.

Lemma trim_Forall (P : Z -> Prop) l : Forall P l -> Forall P (trim l).
Proof.
  destruct (trim_infix IsSpace l) as (a & b & Hl). fold (trim l) in Hl. rewrite Hl at 1.
  rewrite !Forall_app. tauto.
Qed.

Lemma drop_while_back {A} (P : A -> Prop) p l :
  (forall x, p x = true -> P x) -> Forall P (drop_while p l) -> Forall P l.
Proof.
  intros Hp. induction l as [|x l IH]; [done|]. cbn [drop_while].
  destruct (p x) eqn:E; [|done]. intros H. constructor; [by apply Hp | by apply IH].
Qed.
Lemma trim_back (P : Z -> Prop) l :
  (forall r, IsSpace r = true -> P r) -> Forall P (trim l) -> Forall P l.
Proof.
  intros Hp H%Forall_rev. unfold trim, drop_while_end in H. rewrite rev_involutive in H.
  apply drop_while_back in H; [|done]. apply Forall_rev in H. rewrite rev_involutive in H.
  by apply drop_while_back in H.
Qed.

Lemma trim_length l : (length (trim l) <= length l)%nat.
Proof.
  destruct (trim_infix IsSpace l) as (a & b & Hl). fold (trim l) in Hl. rewrite Hl at 2.
  rewrite !length_app. lia.
Qed.

(** ** Cleaned fields *)

Lemma sanitizeField_runes s n :
  wellencoded (sanitizeField s n) /\
  runes (sanitizeField s n) = trim (take n (trim (List.filter kept_rune (runes s)))).
Proof.
  unfold sanitizeField. set (l := List.filter kept_rune (runes s)).
  assert (Forall (fun r => scalar r = true) l) as Hl.
  { apply Forall_forall. intros r Hr. apply list_elem_of_In, filter_In in Hr as [Hr _].
    pose proof (runes_scalar s) as Hs. rewrite Forall_forall in Hs.
    by apply Hs, list_elem_of_In. }
  set (res := TrimSpace (string_of_runes l)).
  assert (wellencoded res) as Hres by by apply TrimSpace_encoded, string_of_runes_encoded.
  assert (runes res = trim l) as Hr.
  { unfold res. by rewrite TrimSpace_runes, runes_string_of_runes. }
  assert (Forall (fun r => scalar r = true) (take n (trim l))) as Ht by by apply Forall_take, trim_Forall.
  destruct (Nat.ltb_spec n (length (runes res))) as [_|Hn].
  - rewrite TrimSpace_runes, Hr, runes_string_of_runes by done. split; [|done].
    by apply TrimSpace_encoded, string_of_runes_encoded.
  - split; [by apply TrimSpace_encoded|]. rewrite TrimSpace_runes, Hr, take_ge; [done|]. by rewrite <- Hr.
Qed.

(** A field of clean metadata. *)
Record clean (n : nat) (s : string) : Prop := {
  clean_nonempty : s <> "";
  clean_encoded : wellencoded s;
  clean_trimmed : TrimSpace s = s;
  clean_short : (length (runes s) <= n)%nat;
  clean_kept : Forall (fun r => kept_rune r = true) (runes s);
}.

Lemma runes_nil s : runes s = [] -> s = "".
Proof.
  unfold runes. rewrite chunks_unfold. destruct (decode s) as [[[r b] t]|] eqn:E; [done|].
  intros _. by apply decode_none.
Qed.

Lemma sanitizeField_clean s n : sanitizeField s n <> "" -> clean n (sanitizeField s n).
Proof.
  intros Hne. destruct (sanitizeField_runes s n) as [He Hr]. constructor; [done|done|..].
  - apply TrimSpace_idemp.
  - rewrite Hr. etransitivity; [apply trim_length|]. rewrite length_take. lia.
  - rewrite Hr. apply trim_Forall, Forall_take, trim_Forall, Forall_forall.
    intros r Hin. by apply list_elem_of_In, filter_In in Hin as [_ Hin].
Qed.

Lemma clean_sanitizeField n s : clean n s -> sanitizeField s n = s.
Proof.
  intros [Hne He Ht Hn Hk]. destruct (sanitizeField_runes s n) as [He' Hr].
  assert (trim (runes s) = runes s) as Htr by (unfold trim; by rewrite <- TrimSpace_runes, Ht).
  assert (List.filter kept_rune (runes s) = runes s) as Hf.
  { clear -Hk. induction Hk as [|r l Hr _ IH]; [done|]. cbn. by rewrite Hr, IH. }
  rewrite Hf, Htr, take_ge, Htr in Hr by done.
  transitivity (string_of_runes (runes (sanitizeField s n))); [by rewrite string_of_own_runes|].
  by rewrite Hr, string_of_own_runes.
Qed.

(** A rune that leaves no trace at the ends of a field. *)
Definition blank_rune (r : Z) : bool := IsSpace r || negb (kept_rune r).

Lemma sanitizeField_blank s n :
  n <> 0%nat -> sanitizeField s n = "" <-> Forall (fun r => blank_rune r = true) (runes s).
Proof.
  intros Hn. destruct (sanitizeField_runes s n) as [_ Hr].
  set (l := List.filter kept_rune (runes s)) in *.
  transitivity (Forall (fun r => IsSpace r = true) l).
  - split.
    + intros Hs. rewrite Hs in Hr. symmetry in Hr. apply trim_nil in Hr.
      apply trim_nil. pose proof (drop_while_head IsSpace l) as Hh.
      unfold trim in *. destruct (drop_while IsSpace l) as [|x m]; [done|].
      rewrite drop_while_end_cons in Hr by done. destruct n; [done|]. cbn [take] in Hr.
      apply Forall_cons in Hr as [Hr _]. by rewrite Hr in Hh.
    + intros Hl%trim_nil. apply runes_nil. by rewrite Hr, Hl, take_nil.
  - unfold l. clear. induction (runes s) as [|r l IH]; [done|]. cbn.
    rewrite (Forall_cons _ r l). unfold blank_rune at 1.
    destruct (kept_rune r); cbn; [rewrite Forall_cons, IH, orb_false_r | rewrite IH, orb_true_r]; tauto.
Qed.

Lemma sanitizeField_TrimSpace_blank s n :
  n <> 0%nat -> sanitizeField (TrimSpace s) n = "" <-> Forall (fun r => blank_rune r = true) (runes s).
Proof.
  intros Hn. rewrite sanitizeField_blank by done. rewrite TrimSpace_runes. fold (trim (runes s)).
  split; [|apply trim_Forall]. apply trim_back. intros r Hr. unfold blank_rune. by rewrite Hr.
Qed.

Lemma TrimSpace_empty_blank s : TrimSpace s = "" -> Forall (fun r => blank_rune r = true) (runes s).
Proof.
  intros H. apply (trim_back _ (runes s)).
  - intros r Hr. unfold blank_rune. by rewrite Hr.
  - unfold trim. by rewrite <- TrimSpace_runes, H.
Qed.

(** ** Metadata *)

Section metadata.
Context `{CaseTables} `{FoldTable} `{Containers}.

Record clean_metadata (m : ExtractedMetadata) : Prop := {
  cm_title : clean MaxTextLength (em_Title m);
  cm_authors : Forall (clean MaxTextLength) (em_Authors m);
  cm_isbn : from_option (fun s => TrimSpace s = s /\ is_ok (ValidateISBN s) = true) True (em_ISBN m);
  cm_language : from_option (fun s => TrimSpace s = s /\ is_ok (ValidateLanguageTag s) = true) True (em_Language m);
  cm_publisher : from_option (clean MaxTextLength) True (em_Publisher m);
  cm_description : from_option (clean MaxDescriptionLength) True (em_Description m);
  cm_cover : len (em_CoverBytes m) <= MaxCoverBytes;
}.

Lemma nonempty_clean n s : from_option (clean n) True (nonempty_field (sanitizeField s n)).
Proof.
  unfold nonempty_field. destruct (String.eqb_spec (sanitizeField s n) ""); [done|].
  by apply sanitizeField_clean.
Qed.

Lemma valid_field (valid : string -> bool) (raw : option string) :
  from_option (fun s => TrimSpace s = s /\ valid s = true) True
    (raw ← raw; if valid (TrimSpace raw) then Some (TrimSpace raw) else None).
Proof.
  destruct raw as [s|]; [|done]. cbn. destruct (valid (TrimSpace s)) eqn:E; [|done].
  split; [apply TrimSpace_idemp | done].
Qed.
Lemma valid_field_again (valid : string -> bool) (o : option string) :
  from_option (fun s => TrimSpace s = s /\ valid s = true) True o ->
  (raw ← o; if valid (TrimSpace raw) then Some (TrimSpace raw) else None) = o.
Proof. destruct o as [s|]; [|done]. cbn. by intros [-> ->]. Qed.

Lemma metadata_result title authors isbn language publisher description cover format :
  match NewExtractedMetadata title authors isbn language publisher description cover format with
  | Ok m => clean_metadata m /\ em_Format m = format
  | Err e => e = ErrNoTitle /\ Forall (fun r => blank_rune r = true) (runes title)
  | OutOfFuel => False
  end.
Proof.
  unfold NewExtractedMetadata. destruct (String.eqb_spec (TrimSpace title) "") as [E|_].
  { split; [done | by apply TrimSpace_empty_blank]. }
  destruct (String.eqb_spec (sanitizeField (TrimSpace title) MaxTextLength) "") as [E|E].
  { split; [done|]. by apply sanitizeField_TrimSpace_blank in E. }
  split; [|done]. constructor; cbn.
  - by apply sanitizeField_clean.
  - apply Forall_forall. intros a Ha. apply list_elem_of_In, filter_In in Ha as [Ha Hne].
    apply list_elem_of_In, list_elem_of_fmap in Ha as (b & -> & _).
    apply sanitizeField_clean. by apply negb_true_iff, String.eqb_neq in Hne.
  - apply (valid_field (fun s => is_ok (ValidateISBN s))).
  - apply (valid_field (fun s => is_ok (ValidateLanguageTag s))).
  - destruct publisher; [apply nonempty_clean | done].
  - destruct description; [apply nonempty_clean | done].
  - case_match eqn:E'; [|done]. bool_to_prop. lia.
Qed.

(** Clean metadata is left as it is. *)
Lemma clean_again n s : clean n s -> sanitizeField (TrimSpace s) n = s.
Proof. intros Hc. rewrite (clean_trimmed _ _ Hc). by apply clean_sanitizeField. Qed.

Lemma clean_authors_again l :
  Forall (clean MaxTextLength) l ->
  List.filter (fun a => negb (String.eqb a "")) ((fun a => sanitizeField (TrimSpace a) MaxTextLength) <$> l) = l.
Proof.
  induction 1 as [|a l Ha _ IH]; [done|]. rewrite fmap_cons. cbn [List.filter].
  rewrite (clean_again _ _ Ha). destruct (String.eqb_spec a "") as [->|]; [by destruct Ha|].
  cbn [negb]. by f_equal.
Qed.

Lemma clean_field_again n o :
  from_option (clean n) True o -> (raw ← o; nonempty_field (sanitizeField (TrimSpace raw) n)) = o.
Proof.
  destruct o as [s|]; [|done]. intros Hc. change (clean n s) in Hc.
  change (nonempty_field (sanitizeField (TrimSpace s) n) = Some s). rewrite (clean_again _ _ Hc).
  unfold nonempty_field. destruct (String.eqb_spec s "") as [->|]; [by destruct Hc | done].
Qed.

Lemma metadata_again m :
  clean_metadata m ->
  NewExtractedMetadata (em_Title m) (em_Authors m) (em_ISBN m) (em_Language m) (em_Publisher m)
    (em_Description m) (em_CoverBytes m) (em_Format m) = Ok m.
Proof.
  intros [Ht Ha Hi Hl Hp Hd Hc]. unfold NewExtractedMetadata.
  rewrite (clean_trimmed _ _ Ht), (clean_sanitizeField _ _ Ht), (clean_authors_again _ Ha).
  destruct (String.eqb_spec (em_Title m) "") as [E|_]; [by destruct Ht|].
  rewrite (clean_field_again _ _ Hp), (clean_field_again _ _ Hd).
  rewrite (valid_field_again (fun s => is_ok (ValidateISBN s)) _ Hi).
  rewrite (valid_field_again (fun s => is_ok (ValidateLanguageTag s)) _ Hl).
  destruct m as [t a i l p d c f]. cbn in *. do 2 f_equal.
  destruct c as [|x c]; [done|]. rewrite (proj2 (Z.leb_le _ _) Hc).
  by replace (0 <? len (String x c)) with true by (symmetry; apply Z.ltb_lt; rewrite len_cons; unfold len; lia).
Qed.

(** ** Whole extractions *)

(** What the extraction of a format may answer. *)
Definition extraction_error (e : error) : Prop :=
  e = ErrNoTitle \/ e = ErrMalformed \/ e = ErrOversized \/ e = ErrTooManyEntries.
Definition extraction_result (format : Format) (r : Result ExtractedMetadata) : Prop :=
  match r with
  | Ok m => clean_metadata m /\ em_Format m = format
  | Err e => extraction_error e
  | OutOfFuel => False
  end.

Lemma metadata_extraction title authors isbn language publisher description cover format :
  extraction_result format (NewExtractedMetadata title authors isbn language publisher description cover format).
Proof.
  pose proof (metadata_result title authors isbn language publisher description cover format) as Hr.
  unfold extraction_result, extraction_error.
  destruct (NewExtractedMetadata _ _ _ _ _ _ _ _); [done | naive_solver | done].
Qed.

(** A reading that counts at most [k] more bytes. *)
Definition counts {A} (m : stM Z error A) (k : Z) (post : res error A -> Prop) : Prop :=
  forall n, post (m n).1 /\ n <= (m n).2 <= n + k.

Lemma counts_bind {A B} (m : stM Z error A) (f : A -> stM Z error B) j k P Q :
  counts m j P -> 0 <= k -> (forall a, P (Ok a) -> counts (f a) k Q) ->
  (forall e, P (Err e) -> Q (Err e)) -> (P OutOfFuel -> Q OutOfFuel) ->
  counts (a ← m; f a) (j + k) Q.
Proof.
  intros Hm Hk Hf He Ho n. specialize (Hm n) as [HP Hn]. unfold mbind, stM_bind.
  destruct (m n) as [[a|e|] n']; cbn in *; [|split; [auto | lia]..].
  specialize (Hf a HP n') as [HQ Hn']. split; [done | lia].
Qed.

Lemma counts_pure {A} (r : res error A) (Q : res error A -> Prop) :
  Q r -> counts (fun n => (r, n)) 0 Q.
Proof. intros HQ n. cbn. split; [done | lia]. Qed.

Lemma readEntry_count maxBytes e n :
  let r := readEntry maxBytes e n in
  n <= r.2 <= n + Z.max 0 maxBytes /\ match r.1 with OutOfFuel => False | _ => True end.
Proof.
  unfold readEntry. assert (0 <= len (ze_data e)) by (unfold len; lia).
  destruct (ze_open e); cbn; [split; [lia|done]|].
  destruct (Z.ltb_spec maxBytes (len (ze_data e))); cbn; [split; [lia|done]|].
  destruct (ze_error e); cbn; [split; [lia|done]|].
  destruct (_ <? _); cbn; (split; [lia|done]).
Qed.

Lemma read_package_counts e maxBytes :
  0 <= maxBytes ->
  counts (read_package e maxBytes) maxBytes
    (fun r => match r with Ok _ => True | Err e => extraction_error e | OutOfFuel => False end).
Proof.
  intros Hm n. pose proof (readEntry_count maxBytes e n) as Hr. unfold read_package.
  destruct (readEntry maxBytes e n) as [[b|e'|] n']; cbn in *; (split; [|lia]); [done| |tauto].
  unfold extraction_error. destruct (errorsIs e' ErrOversized); tauto.
Qed.

Definition succeeds {A} (r : res error A) : Prop := match r with Ok _ => True | _ => False end.

Lemma swallowed_counts maxBytes e :
  0 <= maxBytes ->
  counts (fun n => match readEntry maxBytes e n with (Ok b, n) => (Ok b, n) | (_, n) => (Ok "", n) end)
    maxBytes succeeds.
Proof.
  intros Hm n. pose proof (readEntry_count maxBytes e n) as Hr.
  destruct (readEntry maxBytes e n) as [[b|e'|] n']; cbn in *; (split; [exact I|lia]).
Qed.
Lemma nothing_counts {A} (a : A) k : 0 <= k -> counts (mret a : stM Z error A) k succeeds.
Proof. intros Hk n. unfold mret, stM_ret. cbn. split; [exact I|lia]. Qed.

Lemma epub_cover_counts entries opfPath opf :
  counts (epub_cover entries opfPath opf) MaxCoverBytes succeeds.
Proof.
  unfold epub_cover. destruct (String.eqb _ ""); [by apply nothing_counts|].
  destruct (entry_named _ _) as [e|]; [by apply swallowed_counts | by apply nothing_counts].
Qed.

Lemma read_or_nothing_counts maxBytes entry :
  0 <= maxBytes -> counts (read_or_nothing maxBytes entry) maxBytes succeeds.
Proof.
  intros Hm n. unfold read_or_nothing. destruct entry as [e|]; [|cbn; split; [exact I|lia]].
  pose proof (readEntry_count maxBytes e n) as Hr.
  destruct (readEntry maxBytes e n) as [[b|e'|] n']; cbn in *; (split; [exact I|lia]).
Qed.

Lemma malformed_counts k : 0 <= k -> counts malformed k (extraction_result FormatEPUB).
Proof. intros Hk n. unfold malformed, throw, extraction_error. cbn. unfold extraction_error. split; [tauto | lia]. Qed.

Definition mebibyte : Z := 1024 * 1024.

Lemma extract_epub_counts entries :
  counts (extract_epub entries) (16 * mebibyte) (extraction_result FormatEPUB).
Proof.
  unfold extract_epub. destruct (entry_named _ _) as [e|]; [|by apply malformed_counts].
  apply (counts_bind _ _ (1 * mebibyte) (15 * mebibyte) _ _ (read_package_counts e (1 * mebibyte) ltac:(done)));
    [done| |done..].
  intros b _. destruct (xml_container b) as [[|fullPath l]|]; [by apply malformed_counts| |by apply malformed_counts].
  cbv zeta. destruct (String.eqb _ ""); [by apply malformed_counts|].
  destruct (opf_entry _ _) as [e'|]; [|by apply malformed_counts].
  apply (counts_bind _ _ (5 * mebibyte) (10 * mebibyte) _ _ (read_package_counts e' (5 * mebibyte) ltac:(done)));
    [done| |done..].
  intros b' _. destruct (xml_opf b') as [opf|]; [|by apply malformed_counts].
  apply (counts_bind _ _ (10 * mebibyte) 0 _ _ (epub_cover_counts entries _ opf)); [done| |done..].
  intros cover _. apply counts_pure, metadata_extraction.
Qed.

Lemma extract_cbz_counts entries :
  counts (extract_cbz entries) (15 * mebibyte) (extraction_result FormatCBZ).
Proof.
  unfold extract_cbz.
  apply (counts_bind _ _ (5 * mebibyte) (10 * mebibyte) _ _ (read_or_nothing_counts (5 * mebibyte) _ ltac:(done)));
    [done| |done..].
  intros b _.
  apply (counts_bind _ _ (10 * mebibyte) 0 _ _ (read_or_nothing_counts MaxCoverBytes _ ltac:(done))); [done| |done..].
  intros cover _. apply counts_pure, metadata_extraction.
Qed.

Lemma open_archive_result stat f body format k :
  (forall entries, counts (body entries) k (extraction_result format)) ->
  match open_archive stat f body with
  | Err e => stat = Some e \/ extraction_error e
  | r => extraction_result format r
  end.
Proof.
  intros Hb. unfold open_archive. destruct stat as [e|]; [by left|].
  destruct (zip_entries f) as [entries|]; [|right; unfold extraction_error; tauto].
  destruct (Nat.ltb _ _); [right; unfold extraction_error; tauto|].
  destruct (Hb entries 0) as [Hr _]. destruct (body entries 0).1; [done | by right | done].
Qed.

(** C14: whatever a book file holds, extraction ends, and the metadata it
    yields is clean: a title that is not blank, and every text field trimmed,
    within its length, valid UTF-8 and without control characters but line
    breaks and tabs; identifiers that pass validation; a cover within its
    bound; and making the record of it again changes nothing.  The failures
    are the context's, the file system's, an unknown format, or one of the
    package's errors. *)
Theorem Extract_clean cancelled cancelled' stat format f :
  match Extract cancelled cancelled' stat format f with
  | Ok m =>
      clean_metadata m /\ em_Format m = format /\
      NewExtractedMetadata (em_Title m) (em_Authors m) (em_ISBN m) (em_Language m) (em_Publisher m)
        (em_Description m) (em_CoverBytes m) (em_Format m) = Ok m
  | Err e =>
      cancelled = Some e \/ cancelled' = Some e \/ stat = Some e \/ extraction_error e \/
      (e = Errorf (Error ErrMalformed +:+ ": unsupported format " +:+ quote format) ErrMalformed /\
       format ∉ [FormatEPUB; FormatCBZ; FormatPDF])
  | OutOfFuel => False
  end.
Proof.
  unfold Extract. destruct cancelled as [e|]; [by left|].
  pose proof (open_archive_result stat f extract_epub FormatEPUB _ extract_epub_counts) as He.
  pose proof (open_archive_result stat f extract_cbz FormatCBZ _ extract_cbz_counts) as Hc.
  fold (ExtractEPUB stat f) in He. fold (ExtractCBZ stat f) in Hc.
  destruct (String.eqb_spec format FormatEPUB) as [->|H1'].
  { destruct (ExtractEPUB stat f); cbn in He; [|tauto|done].
    destruct He as [Hm Hf]. split_and!; [done|done|by apply metadata_again]. }
  destruct (String.eqb_spec format FormatCBZ) as [->|H2'].
  { destruct (ExtractCBZ stat f); cbn in Hc; [|tauto|done].
    destruct Hc as [Hm Hf]. split_and!; [done|done|by apply metadata_again]. }
  destruct (String.eqb_spec format FormatPDF) as [->|H3'].
  - unfold ExtractPDF. destruct cancelled' as [e|]; [tauto|].
    destruct (pdf_info f) as [info|]; [|unfold extraction_error; tauto]. unfold pdf_metadata.
    match goal with |- context [NewExtractedMetadata ?a ?b ?c ?d ?e ?g ?h ?i] =>
      pose proof (metadata_extraction a b c d e g h i) as Hr; destruct (NewExtractedMetadata a b c d e g h i) end;
      cbn in Hr; [|tauto|done].
    destruct Hr as [Hm Hf]. split_and!; [done|done|by apply metadata_again].
  - do 4 right. split; [done|]. rewrite !not_elem_of_cons. repeat split; try done. apply not_elem_of_nil.
Qed.
End metadata.

(** ** Spooling *)

(** What a stream brings up to its end. *)
Definition stream_ends (stream : list read_step) (s : string) : Prop :=
  exists l r rest,
    stream = l ++ r :: rest /\ Forall (fun r => rd_end r = ReadMore) l /\ rd_end r = ReadEOF /\
    s = String.concat "" (rd_data <$> l) +:+ rd_data r.

Lemma concat_cons a l : String.concat "" (a :: l) = a +:+ String.concat "" l.
Proof. destruct l; cbn [String.concat]; [by rewrite str_app_nil_r | done]. Qed.

Lemma materialize_loop_result stream : forall total spooled,
  total <= MaxRawSpoolBytes -> total = len spooled ->
  match materialize_loop stream total spooled with
  | Ok s => len s <= MaxRawSpoolBytes /\ exists s', s = spooled +:+ s' /\ stream_ends stream s'
  | Err _ => True
  | OutOfFuel =>
      Forall (fun r => rd_end r = ReadMore) stream /\
      total + len (String.concat "" (rd_data <$> stream)) <= MaxRawSpoolBytes
  end.
Proof.
  induction stream as [|r stream IH]; intros total spooled Ht Htotal; cbn [materialize_loop].
  { split; [done|]. change (total + 0 <= MaxRawSpoolBytes). lia. }
  destruct (rd_cancelled r); [done|]. assert (0 <= len (rd_data r)) by (unfold len; lia).
  destruct ((0 <? len (rd_data r)) && _) eqn:E; [done|].
  assert (total + len (rd_data r) <= MaxRawSpoolBytes) as Hn.
  { apply andb_false_iff in E as [E|E]; [apply Z.ltb_ge in E; lia | by apply Z.ltb_ge in E]. }
  destruct (if 0 <? len (rd_data r) then rd_write r else None); [done|]. destruct (rd_end r) eqn:Er; [| |done].
  - specialize (IH (total + len (rd_data r)) (spooled +:+ rd_data r) Hn ltac:(rewrite len_app; lia)).
    destruct (materialize_loop stream _ _); [|done|].
    + destruct IH as (Hl & s' & -> & l & r' & rest & -> & Hm & He & ->). split; [done|].
      exists (rd_data r +:+ (String.concat "" (rd_data <$> l) +:+ rd_data r')).
      split; [by rewrite !str_app_assoc|]. exists (r :: l), r', rest.
      split_and!; [done | by constructor | done |]. rewrite fmap_cons, concat_cons. by rewrite !str_app_assoc.
    + destruct IH as [Hm Hl]. split; [by constructor|]. rewrite fmap_cons, concat_cons, len_app. lia.
  - rewrite len_app. split; [lia|]. exists (rd_data r). split; [done|]. exists [], r, stream.
    by split_and!.
Qed.

(** Spooling yields exactly the bytes the stream has, and only within 250
    MiB; each failure removes the temporary file again; and it does not end
    only while the stream does not, which after 250 MiB it must. *)
Theorem Materialize_spooled sp stream files :
  match Materialize sp stream files with
  | (Ok s, files') => files' = S files /\ len s <= MaxRawSpoolBytes /\ stream_ends stream s
  | (Err _, files') => files' = files
  | (OutOfFuel, _) =>
      Forall (fun r => rd_end r = ReadMore) stream /\
      len (String.concat "" (rd_data <$> stream)) <= MaxRawSpoolBytes
  end.
Proof.
  unfold Materialize. destruct (sp_cancelled sp); [done|].
  unfold mbind, stM_bind, create_temp. destruct (sp_create sp); [done|]. unfold spool_stream.
  pose proof (materialize_loop_result stream 0 "" ltac:(done) eq_refl) as Hl.
  destruct (materialize_loop stream 0 "") as [s|e|]; [|done|exact Hl].
  destruct (sp_seek sp); [done|]. destruct Hl as (Hn & s' & Hs & He). rewrite str_app_nil_l in Hs.
  subst s'. by split_and!.
Qed.
