(* ===== verification/ReaderHtml.v ===== *)
(** * Sanitising book markup (src/internal/reader/content/sanitize.go)

    The pass over the HTML tokens that lifts style sheets out and drops inline
    SVG but a cover, the scan of style sheets, and the document put together
    again.  The HTML tokenizer and the allow-list policy are third-party
    libraries and SHA-256 is the platform's: they are the class
    [HtmlLibraries].  The second half says what the pass lets through. *)

From S2P Require Import Prelude GoStrings Regex Errors Encoding Patterns.

Local Open Scope string_scope.
Local Open Scope list_scope.
Local Open Scope Z_scope.

Record SanitizeReport := mkSanitizeReport {
  ScriptsStripped : Z;
  ExternalRefsStripped : Z;
  SVGStripped : Z;
  StyleAttrsStripped : Z;
  StyleHash : string;
}.

Definition StrippedSomething (r : SanitizeReport) : bool :=
  0 <? ScriptsStripped r + ExternalRefsStripped r + SVGStripped r + StyleAttrsStripped r.

(** ** The patterns *)

Definition apostrophe : ascii := "039".
Definition double_quote : ascii := "034".
Definition quotes : list (Z * Z) := one double_quote ++ one apostrophe.
Definition spaces : pat := PStar true (In white).

Definition reScriptTag : pat := pseq [literal_i "<script"; PSet (In (white ++ one ">"))].
Definition reEventAttr : pat :=
  pseq [PSet (In white); literal_i "on"; PPlus (In letters_i); spaces; PSet (In (one "="))].
Definition reStyleAttr : pat := pseq [PSet (In white); literal_i "style"; spaces; PSet (In (one "="))].
Definition scheme_chars : list (Z * Z) := letters_i ++ [digits] ++ one "+" ++ one "." ++ one "-".
Definition reExternalHREF : pat :=
  pseq [PWordBoundary; PAlt (literal_i "href") (literal_i "src"); spaces; PSet (In (one "=")); spaces;
    POpt (In quotes); spaces;
    PAlt (pseq [PSet (In letters_i); PStar true (In scheme_chars); PSet (In (one ":"))]) PEps;
    literal_i "//"].

(** [url(...)], the target a group. *)
Definition css_url (n : nat) : pat :=
  pseq [literal_i "url("; spaces; POpt (In quotes); PGroup n (PStar false (Out (quotes ++ one ")")));
    POpt (In quotes); spaces; PSet (In (one ")"))].
Definition reCSSURL : pat := css_url 1.
Definition reCSSImport : pat :=
  pseq [literal_i "@import"; PPlus (In white);
    PAlt (css_url 1) (pseq [PSet (In quotes); PGroup 2 (PStar true (Out quotes)); PSet (In quotes)]);
    spaces; POpt (In (one ";"))].

(** The runes outside some ranges, which ascend. *)
Fixpoint outside (lo : Z) (ranges : list (Z * Z)) : list (Z * Z) :=
  match ranges with
  | [] => [(lo, 1114111)]
  | (a, b) :: ranges' => (lo, a - 1) :: outside (b + 1) ranges'
  end.
Definition any_rune : re := RClass [(0, 1114111)].
Definition reScheme : re :=
  RCat (RClass [lower_letters; upper_letters])
    (RCat (RStar (RClass [lower_letters; upper_letters; digits; (43, 43); (46, 46); (45, 45)]))
      (RCat (RChar 58) (RStar any_rune))).

(** [\x00-\x20\x7f\x{85}\p{Z}]. *)
Definition separators : list (Z * Z) :=
  [(160, 160); (5760, 5760); (8192, 8202); (8232, 8233); (8239, 8239); (8287, 8287); (12288, 12288)].
Definition refLead : re :=
  RClass (outside 0 ([(0, 32); (47, 47); (58, 58); (92, 92); (127, 127); (133, 133)] ++ separators)).
Definition refSecond : re :=
  RClass (outside 0 ([(0, 32); (47, 47); (92, 92); (127, 127); (133, 133)] ++ separators)).
Definition not_white : re := RClass (outside 0 white).
Definition relative_path : re :=
  RCat (RAlt refLead (RCat (RChar 47) refSecond)) (RStar (RClass (outside 0 [(58, 58)]))).
Definition fragment : re := RCat (RChar 35) (RStar not_white).
Fixpoint letters_of (s : string) : re :=
  match s with
  | "" => REps
  | String c s' => RCat (RClass (case_variants (byte c))) (letters_of s')
  end.
Definition data_uri : re := RCat (letters_of "data:") (RPlus not_white).
Definition reRelativeOnly : re := RAlt relative_path fragment.
Definition reRelativeOrData : re := RAlt data_uri (RAlt relative_path fragment).

Definition reRootOpen : pat :=
  pseq [literal_i "<html"; PWordBoundary; PStar true (Out (one ">")); PSet (In (one ">"))].
Definition reHeadOpen : pat :=
  pseq [literal_i "<head"; PWordBoundary; PStar true (Out (one ">")); PSet (In (one ">"))].

(** ** Strings *)

(** [html.EscapeString]. *)
Definition escape_char (c : ascii) : string :=
  if Ascii.eqb c "&" then "&amp;" else if Ascii.eqb c apostrophe then "&#39;" else if Ascii.eqb c "<" then "&lt;"
  else if Ascii.eqb c ">" then "&gt;" else if Ascii.eqb c double_quote then "&#34;" else String c "".
Fixpoint EscapeString (s : string) : string :=
  match s with
  | "" => ""
  | String c s' => escape_char c +:+ EscapeString s'
  end.

(** [strings.Fields]. *)
Fixpoint fields (l : list chunk) (word : string) : list string :=
  match l with
  | [] => if String.eqb word "" then [] else [word]
  | c :: l' => if IsSpace c.1 then (if String.eqb word "" then fields l' "" else word :: fields l' "")
               else fields l' (word +:+ c.2)
  end.
Definition Fields (s : string) : list string := fields (chunks s) "".

(** [base64.StdEncoding]. *)
Definition std_char (c : Z) : Z := if c =? 45 then 43 else if c =? 95 then 47 else c.
Definition StdEncode (s : string) : string :=
  string_of (std_char <$> b64_encode (bytes s)) +:+
  match (String.length s mod 3)%nat with 1%nat => "==" | 2%nat => "=" | _ => "" end.

(** ** Tokens *)

Inductive TokenType := TextToken | StartTagToken | EndTagToken | SelfClosingTagToken | CommentToken | DoctypeToken.

(** A token of [html.Tokenizer]: its bytes, its lower-case name if it is a
    tag, its attributes and its decoded text. *)
Record token := mkToken {
  tk_type : TokenType;
  tk_raw : string;
  tk_name : string;
  tk_attrs : list (string * string);
  tk_text : string;
}.

Class HtmlLibraries := {
  html_tokens : string -> list token;
  html_policy : string -> string;
  sha256 : string -> string;
}.

Definition is_start (t : token) : bool := match tk_type t with StartTagToken => true | _ => false end.
Definition is_end (t : token) : bool := match tk_type t with EndTagToken => true | _ => false end.
Definition is_self_closing (t : token) : bool := match tk_type t with SelfClosingTagToken => true | _ => false end.
Definition is_text (t : token) : bool := match tk_type t with TextToken => true | _ => false end.

Definition svgLocal (name : string) : string := TrimPrefix name "svg:".
Definition svg_tag (t : token) : string := svgLocal (tk_name t).

Definition stripCDATAMarkers (b : string) : string := ReplaceAll (ReplaceAll b "<![CDATA[" "") "]]>" "".

(** ** SVG covers *)

Record svgCover := mkSvgCover {
  sc_depth : Z;
  sc_skip : string;
  sc_skipN : Z;
  sc_images : Z;
  sc_attrs : list (string * string);
  sc_title : string;
  sc_notCover : bool;
}.
Definition new_cover : svgCover := mkSvgCover 1 "" 0 0 [] "" false.
Definition not_cover (c : svgCover) : svgCover :=
  mkSvgCover (sc_depth c) (sc_skip c) (sc_skipN c) (sc_images c) (sc_attrs c) (sc_title c) true.
Definition set_depth (d : Z) (c : svgCover) : svgCover :=
  mkSvgCover d (sc_skip c) (sc_skipN c) (sc_images c) (sc_attrs c) (sc_title c) (sc_notCover c).
Definition set_skip (skip : string) (n : Z) (c : svgCover) : svgCover :=
  mkSvgCover (sc_depth c) skip n (sc_images c) (sc_attrs c) (sc_title c) (sc_notCover c).
Definition add_title (s : string) (c : svgCover) : svgCover :=
  mkSvgCover (sc_depth c) (sc_skip c) (sc_skipN c) (sc_images c) (sc_attrs c) (sc_title c +:+ s) (sc_notCover c).
(** Of the first image only the attributes are read. *)
Definition add_image (attrs : list (string * string)) (c : svgCover) : svgCover :=
  let images := sc_images c + 1 in
  mkSvgCover (sc_depth c) (sc_skip c) (sc_skipN c) images
    (if images =? 1 then sc_attrs c ++ attrs else sc_attrs c) (sc_title c) (sc_notCover c).

Definition feed_skipped (t : token) (c : svgCover) : svgCover :=
  if is_start t && String.eqb (svg_tag t) (sc_skip c) then set_skip (sc_skip c) (sc_skipN c + 1) c
  else if is_end t && String.eqb (svg_tag t) (sc_skip c) then
    let n := sc_skipN c - 1 in set_skip (if n =? 0 then "" else sc_skip c) n c
  else if is_text t && String.eqb (sc_skip c) "title" && (sc_skipN c =? 1) then add_title (tk_text t) c
  else c.

Definition feed_tag (t : token) (c : svgCover) : svgCover :=
  let tag := svg_tag t in
  if String.eqb tag "svg" then
    let c := not_cover c in if is_start t then set_depth (sc_depth c + 1) c else c
  else if String.eqb tag "image" then add_image (tk_attrs t) c
  else if String.eqb tag "g" then c
  else if String.eqb tag "title" || String.eqb tag "desc" || String.eqb tag "metadata" then
    if is_start t then set_skip tag 1 c else c
  else not_cover c.

(** Whether the outermost [</svg>] has just closed. *)
Definition feed (t : token) (c : svgCover) : bool * svgCover :=
  if negb (String.eqb (sc_skip c) "") then (false, feed_skipped t c)
  else match tk_type t with
  | StartTagToken | SelfClosingTagToken => (false, feed_tag t c)
  | EndTagToken =>
      if String.eqb (svg_tag t) "svg" then
        let c := set_depth (sc_depth c - 1) c in (sc_depth c =? 0, c)
      else (false, c)
  | TextToken => (false, if String.eqb (TrimSpace (tk_raw t)) "" then c else not_cover c)
  | _ => (false, c)
  end.

Fixpoint image_ref (attrs : list (string * string)) (xlinkHref : option string) : option string :=
  match attrs with
  | [] => xlinkHref
  | (k, v) :: attrs' =>
      if String.eqb k "href" then Some v
      else if String.eqb k "xlink:href" then
        image_ref attrs' (match xlinkHref with None => Some v | Some _ => xlinkHref end)
      else image_ref attrs' xlinkHref
  end.
Definition svgImageRef (attrs : list (string * string)) : option string := image_ref attrs None.

Definition svgCoverClass : string := "alx-svg-cover".
Definition quoted (s : string) : string := String double_quote s +:+ String double_quote "".
Definition contains_markup (s : string) : bool :=
  contains_char double_quote s || contains_char "<" s || contains_char ">" s.

Definition img (c : svgCover) : option string :=
  if sc_notCover c || negb (sc_images c =? 1) then None
  else match svgImageRef (sc_attrs c) with
  | None => None
  | Some src =>
      if contains_markup src then None
      else
        let src := ReplaceAll src " " "%20" in
        if negb (MatchString reRelativeOrData src) then None
        else
          let alt := String.concat " " (Fields (stripCDATAMarkers (sc_title c))) in
          Some ("<img src=" +:+ quoted (EscapeString src) +:+ " alt=" +:+ quoted (EscapeString alt) +:+
                " class=" +:+ quoted svgCoverClass +:+ "/>")
  end.

(** ** The pass over the tokens *)

(** The state of [prepassFrom]'s loop. *)
Record prepass_state := mkPrepass {
  ps_out : string;
  ps_css : string;
  ps_stripped : Z;
  ps_svg : option svgCover;
  ps_svgRaw : string;
  ps_inStyle : bool;
}.
Definition put_out (s : string) (p : prepass_state) : prepass_state :=
  mkPrepass (ps_out p +:+ s) (ps_css p) (ps_stripped p) (ps_svg p) (ps_svgRaw p) (ps_inStyle p).
Definition put_css (s : string) (p : prepass_state) : prepass_state :=
  mkPrepass (ps_out p) (ps_css p +:+ s) (ps_stripped p) (ps_svg p) (ps_svgRaw p) (ps_inStyle p).
Definition strip_svg (p : prepass_state) : prepass_state :=
  mkPrepass (ps_out p) (ps_css p) (ps_stripped p + 1) (ps_svg p) (ps_svgRaw p) (ps_inStyle p).
Definition set_svg (svg : option svgCover) (raw : string) (p : prepass_state) : prepass_state :=
  mkPrepass (ps_out p) (ps_css p) (ps_stripped p) svg raw (ps_inStyle p).
Definition set_inStyle (b : bool) (p : prepass_state) : prepass_state :=
  mkPrepass (ps_out p) (ps_css p) (ps_stripped p) (ps_svg p) (ps_svgRaw p) b.

Definition prepass_token (captureSVG : bool) (p : prepass_state) (t : token) : prepass_state :=
  match ps_svg p with
  | Some svg =>
      let svgRaw := ps_svgRaw p +:+ tk_raw t in
      let '(closed, svg) := feed t svg in
      if closed then
        set_svg None "" (match img svg with Some i => put_out i p | None => strip_svg p end)
      else set_svg (Some svg) svgRaw p
  | None =>
      let name := tk_name t in
      let tag := svg_tag t in
      if ps_inStyle p then
        if is_end t && String.eqb name "style" then put_css (String "010" "") (set_inStyle false p)
        else if is_text t then put_css (tk_raw t) p
        else p
      else if String.eqb name "style" && is_start t then set_inStyle true p
      else if String.eqb name "style" && (is_self_closing t || is_end t) then p
      else if String.eqb tag "svg" && (is_self_closing t || is_end t || negb captureSVG) then
        if is_end t then p else strip_svg p
      else if String.eqb tag "svg" && is_start t then set_svg (Some new_cover) (ps_svgRaw p) p
      else put_out (tk_raw t) p
  end.

Record prepassResult := mkPrepassResult { pr_out : string; pr_css : string; pr_svgStripped : Z }.

Section sanitize.
Context `{HtmlLibraries} `{CaseTables}.

Definition scan (captureSVG : bool) (raw : string) : prepass_state :=
  fold_left (prepass_token captureSVG) (html_tokens raw) (mkPrepass "" "" 0 None "" false).

(** What followed an [<svg>] never closed is gone over again without looking
    for one: that second pass ends outside any. *)
Definition prepassFrom (raw : string) (captureSVG : bool) : prepassResult :=
  let p := scan captureSVG raw in
  match ps_svg p with
  | None => mkPrepassResult (ps_out p) (ps_css p) (ps_stripped p)
  | Some _ =>
      let rest := scan false (ps_svgRaw p) in
      mkPrepassResult (ps_out p +:+ ps_out rest) (ps_css p +:+ ps_css rest) (ps_stripped p + 1 + ps_stripped rest)
  end.

Definition prepass (raw : string) : prepassResult :=
  let res := prepassFrom raw true in
  mkPrepassResult (pr_out res) (stripCDATAMarkers (pr_css res)) (pr_svgStripped res).

(** ** Style sheets *)

Definition schemeDisallowed (url : string) : bool :=
  let url := TrimSpace url in
  if String.eqb url "" then false
  else if HasPrefix (ToLower url) "data:" then false
  else if HasPrefix url "//" then true
  else MatchString reScheme url.

Definition import_target (stmt : string) : string :=
  let url := TrimSpace (default "" (Submatch reCSSImport 1 stmt)) in
  if String.eqb url "" then TrimSpace (default "" (Submatch reCSSImport 2 stmt)) else url.
Definition url_target (tok : string) : string := TrimSpace (default "" (Submatch reCSSURL 1 tok)).

Definition disallowed (p : pat) (target : string -> string) (s : string) : Z :=
  Z.of_nat (length (List.filter (fun m => schemeDisallowed (target (cat m.2))) (find_all p s).1)).

Definition no_report : SanitizeReport := mkSanitizeReport 0 0 0 0 "".

Definition SanitizeCSS (raw : string) : string * SanitizeReport :=
  let out := ReplaceAllFunc reCSSImport (fun stmt => if schemeDisallowed (import_target stmt) then "" else stmt) raw in
  let out' := ReplaceAllFunc reCSSURL (fun tok => if schemeDisallowed (url_target tok) then "url()" else tok) out in
  (out', mkSanitizeReport 0 (disallowed reCSSImport import_target raw + disallowed reCSSURL url_target out) 0 0 "").

(** ** Documents *)

Definition xhtmlNamespace : string := "http://www.w3.org/1999/xhtml".
Definition epubNamespace : string := "http://www.idpf.org/2007/ops".
Definition ns : string := " xmlns=" +:+ quoted xhtmlNamespace +:+ " xmlns:epub=" +:+ quoted epubNamespace.

Definition drop_bytes (n : nat) (s : string) : string := String.substring n (String.length s - n) s.
Definition take_bytes (n : nat) (s : string) : string := String.substring 0 n s.

Definition finishXHTML (doc style : string) : string :=
  match FindIndex reRootOpen doc with
  | None => "<html" +:+ ns +:+ "><head>" +:+ style +:+ "</head><body>" +:+ doc +:+ "</body></html>"
  | Some (root0, root1) =>
      let at_ := match FindIndex reHeadOpen (drop_bytes root1 doc) with
                 | Some (_, head1) => (root1 + head1)%nat
                 | None => root1
                 end in
      take_bytes (root0 + 5) doc +:+ ns +:+ take_bytes (at_ - (root0 + 5)) (drop_bytes (root0 + 5) doc) +:+
      style +:+ drop_bytes at_ doc
  end.

(** The style sheet as the XML parser will see it. *)
Definition style_text (css : string) : string :=
  ReplaceAll (ReplaceAll css (String "013" (String "010" "")) (String "010" "")) (String "013" "") (String "010" "").

Definition SanitizeHTML (raw : string) : string * SanitizeReport :=
  let scripts := count_all reScriptTag raw + count_all reEventAttr raw in
  let styles := count_all reStyleAttr raw in
  let external := count_all reExternalHREF raw in
  let pre := prepass raw in
  if 0 <? len (pr_css pre) then
    let '(safe, cssRep) := SanitizeCSS (pr_css pre) in
    let text := style_text safe in
    (finishXHTML (html_policy (pr_out pre)) ("<style>" +:+ EscapeString text +:+ "</style>" +:+ String "010" ""),
     mkSanitizeReport scripts (external + ExternalRefsStripped cssRep) (pr_svgStripped pre) styles
       ("sha256-" +:+ StdEncode (sha256 text)))
  else
    (finishXHTML (html_policy (pr_out pre)) "", mkSanitizeReport scripts external (pr_svgStripped pre) styles "").
End sanitize.

(** ** Escaped text *)

(** What an XML parser makes of the references [EscapeString] writes. *)
Definition entities : list (string * ascii) :=
  [("&amp;", "&"%char); ("&#39;", apostrophe); ("&lt;", "<"%char); ("&gt;", ">"%char); ("&#34;", double_quote)].
Definition entity (s : string) : option (string * ascii) := List.find (fun e => String.prefix e.1 s) entities.
Fixpoint xml_decode (skip : nat) (s : string) : string :=
  match s with
  | "" => ""
  | String c s' =>
      match skip with
      | S skip' => xml_decode skip' s'
      | O => match entity s with
             | Some (e, d) => String d (xml_decode (String.length e - 1) s')
             | None => String c (xml_decode 0 s')
             end
      end
  end.

Lemma prefix_self e s : String.prefix e (e +:+ s) = true.
Proof. apply prefix_app. Qed.

Lemma xml_decode_skip a s : xml_decode (String.length a) (a +:+ s) = xml_decode 0 s.
Proof. induction a as [|c a IH]; [done|]. apply IH. Qed.

Lemma xml_decode_ref e d s : (e, d) ∈ entities -> xml_decode 0 (e +:+ s) = String d (xml_decode 0 s).
Proof.
  intros H. assert (entity (e +:+ s) = Some (e, d)) as He.
  { unfold entities in H. rewrite !elem_of_cons in H.
    destruct_or! H; [injection H as -> ->..|by apply elem_of_nil in H]; unfold entity, entities;
      cbn [List.find fst]; rewrite ?prefix_self; reflexivity. }
  destruct e as [|c e].
  { unfold entities in H. rewrite !elem_of_cons in H. destruct_or! H; [done..|]. by apply elem_of_nil in H. }
  rewrite str_app_cons in *. cbn [xml_decode]. rewrite He. cbn [String.length].
  rewrite Nat.sub_succ, Nat.sub_0_r. by rewrite xml_decode_skip.
Qed.

Lemma xml_decode_EscapeString s : xml_decode 0 (EscapeString s) = s.
Proof.
  induction s as [|c s IH]; [done|]. cbn [EscapeString]. unfold escape_char.
  destruct (Ascii.eqb_spec c "&") as [->|Hamp]; [rewrite (xml_decode_ref _ "&"); [by rewrite IH | by vm_compute; left]|].
  destruct (Ascii.eqb_spec c apostrophe) as [->|_]; [rewrite (xml_decode_ref _ apostrophe); [by rewrite IH|]|].
  { right. left. }
  destruct (Ascii.eqb_spec c "<") as [->|_]; [rewrite (xml_decode_ref _ "<"); [by rewrite IH|]|].
  { right. right. left. }
  destruct (Ascii.eqb_spec c ">") as [->|_]; [rewrite (xml_decode_ref _ ">"); [by rewrite IH|]|].
  { right. right. right. left. }
  destruct (Ascii.eqb_spec c double_quote) as [->|_]; [rewrite (xml_decode_ref _ double_quote); [by rewrite IH|]|].
  { right. right. right. right. left. }
  rewrite str_app_cons, str_app_nil_l. cbn [xml_decode].
  assert (entity (String c (EscapeString s)) = None) as ->; [|by rewrite IH].
  unfold entity, entities. cbn [List.find String.prefix fst].
  by destruct (ascii_dec "&" c).
Qed.

Lemma contains_char_app c s t : contains_char c (s +:+ t) = contains_char c s || contains_char c t.
Proof.
  induction s as [|d s IH]; [done|]. rewrite str_app_cons. cbn [contains_char].
  rewrite IH. by destruct (Ascii.eqb _ _).
Qed.

(** Escaped text holds no tag and ends no attribute. *)
Lemma EscapeString_text s c :
  c = "<"%char \/ c = ">"%char \/ c = double_quote \/ c = apostrophe -> contains_char c (EscapeString s) = false.
Proof.
  intros Hc. induction s as [|d s IH]; [done|]. cbn [EscapeString]. rewrite contains_char_app, IH, orb_false_r.
  unfold escape_char.
  destruct (Ascii.eqb_spec d "&"); [naive_solver|]. destruct (Ascii.eqb_spec d apostrophe); [naive_solver|].
  destruct (Ascii.eqb_spec d "<"); [naive_solver|]. destruct (Ascii.eqb_spec d ">"); [naive_solver|].
  destruct (Ascii.eqb_spec d double_quote); [naive_solver|]. cbn [contains_char].
  destruct (Ascii.eqb_spec d c); [naive_solver | done].
Qed.

Lemma replace_char_gone c new s :
  contains_char c new = false -> contains_char c (ReplaceAll s (String c "") new) = false.
Proof.
  intros Hn. unfold ReplaceAll. induction s as [|d s IH]; [done|]. cbn [replace_skipping String.prefix].
  destruct (ascii_dec c d) as [->|Hne].
  - assert (String.prefix "" s = true) as -> by (by destruct s). cbn [String.length Nat.sub].
    by rewrite contains_char_app, Hn, IH.
  - cbn [contains_char]. rewrite IH. destruct (Ascii.eqb_spec d c); congruence || done.
Qed.

(** ** References that stay *)

(** A URL as a browser's parser takes it: without controls and spaces at its
    ends and without tabs and line breaks. *)
Definition c0_or_space (r : Z) : bool := between 0 r 32.
Definition url_input (l : list Z) : list Z :=
  List.filter (fun r => negb ((r =? 9) || (r =? 10) || (r =? 13)))
    (drop_while_end c0_or_space (drop_while c0_or_space l)).

Definition is_alpha (r : Z) : bool := between 97 r 122 || between 65 r 90.
Fixpoint scheme_rest (l : list Z) : bool :=
  match l with
  | [] => false
  | r :: l' => (r =? 58) || ((is_alpha r || between 48 r 57 || (r =? 43) || (r =? 45) || (r =? 46)) && scheme_rest l')
  end.
Definition has_scheme (l : list Z) : bool := match l with r :: l' => is_alpha r && scheme_rest l' | [] => false end.
Definition is_slash (r : Z) : bool := (r =? 47) || (r =? 92).
Definition has_authority (l : list Z) : bool := match l with r :: r' :: _ => is_slash r && is_slash r' | _ => false end.

Lemma scheme_rest_colon l : scheme_rest l = true -> 58 ∈ l.
Proof.
  induction l as [|r l IH]; [done|]. cbn [scheme_rest]. rewrite orb_true_iff, andb_true_iff, Z.eqb_eq.
  intros [->|[_ H]]; [by left | right; by apply IH].
Qed.

Lemma url_input_cons r l :
  c0_or_space r = false ->
  url_input (r :: l) = r :: List.filter (fun r => negb ((r =? 9) || (r =? 10) || (r =? 13))) (drop_while_end c0_or_space l).
Proof.
  intros Hr. unfold url_input. cbn [drop_while]. rewrite Hr, drop_while_end_cons by done. cbn [List.filter].
  unfold c0_or_space, between in Hr. destruct (Z.eqb_spec r 9), (Z.eqb_spec r 10), (Z.eqb_spec r 13); subst; done.
Qed.

Lemma drop_while_end_part {A} (p : A -> bool) l x : x ∈ drop_while_end p l -> x ∈ l.
Proof. destruct (drop_while_end_prefix p l) as [k Hk]. rewrite Hk at 2. intros. apply elem_of_app. by left. Qed.

Ltac class_bounds H :=
  cbn in H; repeat rewrite orb_true_iff in H; unfold between in H;
  repeat rewrite andb_true_iff in H; repeat rewrite Z.leb_le in H.

Lemma refLead_rune r l : lang refLead l -> l = [r] -> 33 <= r /\ is_slash r = false /\ r <> 58.
Proof.
  intros H ->. inversion H as [|ranges x Hx| | | | |]; subst. unfold is_slash.
  class_bounds Hx. rewrite orb_false_iff, !Z.eqb_neq. lia.
Qed.
Lemma refSecond_rune r l : lang refSecond l -> l = [r] -> 33 <= r /\ is_slash r = false.
Proof.
  intros H ->. inversion H as [|ranges x Hx| | | | |]; subst. unfold is_slash.
  class_bounds Hx. rewrite orb_false_iff, !Z.eqb_neq. lia.
Qed.
Lemma lang_class_one ranges l : lang (RClass ranges) l -> exists r, l = [r] /\ in_class ranges r = true.
Proof. inversion 1; subst. eauto. Qed.

Lemma star_class_Forall ranges (P : Z -> Prop) l :
  (forall r, in_class ranges r = true -> P r) -> lang (RStar (RClass ranges)) l -> Forall P l.
Proof.
  intros HP. remember (RStar (RClass ranges)) as q eqn:Hq. induction 1; try done; simplify_eq.
  apply Forall_app. split; [|auto]. match goal with H : lang (RClass _) _ |- _ => apply lang_class_one in H as (r & -> & Hr) end.
  constructor; [by apply HP | constructor].
Qed.

(** How a relative reference begins. *)
Inductive relative_start : list Z -> Prop :=
| start_name r l : 33 <= r -> is_slash r = false -> Forall (fun r => r <> 58) (r :: l) -> relative_start (r :: l)
| start_slash r l : 33 <= r -> is_slash r = false -> relative_start (47 :: r :: l)
| start_fragment l : relative_start (35 :: l).

Lemma relative_path_start l : lang relative_path l -> relative_start l.
Proof.
  unfold relative_path. rewrite lang_cat_inv. intros (a & b & -> & Ha & Hb).
  apply (star_class_Forall _ (fun r => r <> 58)) in Hb; [|intros r Hr; class_bounds Hr; lia].
  rewrite lang_alt_inv, lang_cat_inv in Ha. destruct Ha as [Ha|(a1 & a2 & -> & H1 & H2)].
  - pose proof Ha as (r & -> & _)%lang_class_one. apply (refLead_rune r) in Ha as (? & ? & ?); [|done].
    apply start_name; [done..|]. by constructor.
  - apply lang_class_one in H1 as (x & -> & Hx). class_bounds Hx. assert (x = 47) as -> by lia.
    pose proof H2 as (r & -> & _)%lang_class_one. apply (refSecond_rune r) in H2 as [??]; [|done].
    by constructor.
Qed.

Lemma fragment_start l : lang fragment l -> relative_start l.
Proof.
  unfold fragment. rewrite lang_cat_inv. intros (a & b & -> & Ha & _).
  apply lang_class_one in Ha as (x & -> & Hx). class_bounds Hx. assert (x = 35) as -> by lia. apply start_fragment.
Qed.

Lemma reRelativeOnly_start s : MatchString reRelativeOnly s = true -> relative_start (runes s).
Proof.
  unfold MatchString. rewrite re_match_lang. unfold reRelativeOnly. rewrite lang_alt_inv.
  intros [?|?]; [by apply relative_path_start | by apply fragment_start].
Qed.

Lemma at_start r : 33 <= r -> c0_or_space r = false.
Proof. intros H. apply not_true_iff_false. unfold c0_or_space. intros Hb. unfold between in Hb. bool_to_prop. lia. Qed.

Definition stays (l : list Z) : Prop := has_scheme (url_input l) = false /\ has_authority (url_input l) = false.

Lemma prefix_stays l l' : relative_start l -> l' `prefix_of` l -> stays l'.
Proof.
  intros Hs [k Hk]. destruct l' as [|x l']; [done|]. cbn in Hk. unfold stays.
  destruct Hs as [r l Hr Hn Hc|r l Hr Hn|l]; injection Hk as <- Hk.
  - rewrite url_input_cons by (by apply at_start). cbn [has_scheme has_authority]. rewrite Hn. split.
    + apply andb_false_iff. right. apply not_true_iff_false. intros [Hin _]%scheme_rest_colon%list_elem_of_In%filter_In.
      apply list_elem_of_In, drop_while_end_part in Hin. rewrite Forall_forall in Hc. apply (Hc 58); [|done].
      right. rewrite Hk. apply elem_of_app. by left.
    + by case_match.
  - rewrite url_input_cons by done. cbn [has_scheme]. split; [done|]. cbn [has_authority].
    destruct l' as [|y l']; [done|]. cbn in Hk. injection Hk as <- Hk.
    rewrite drop_while_end_cons by (by apply at_start). cbn [List.filter].
    destruct (Z.eqb_spec r 9), (Z.eqb_spec r 10), (Z.eqb_spec r 13); try lia. cbn. by rewrite Hn.
  - rewrite url_input_cons by done. cbn [has_scheme has_authority]. split; [done|]. by case_match.
Qed.

(** A reference the policy keeps on a link cannot leave the book: as a
    browser reads it, whatever controls, spaces, tabs or line breaks it
    drops, and however much of the end is trimmed, it names no scheme and no
    host.  On images and style sheets a data URI is kept as well. *)
Theorem relative_reference_stays s l :
  MatchString reRelativeOrData s = true -> l `prefix_of` runes s ->
  (MatchString data_uri s = true /\ MatchString reRelativeOnly s = false) \/ stays l.
Proof.
  intros Hm Hl. destruct (MatchString reRelativeOnly s) eqn:E.
  - right. by eapply prefix_stays; [apply reRelativeOnly_start|].
  - left. split; [|done]. revert Hm E. unfold MatchString, reRelativeOrData, reRelativeOnly.
    intros [Hd|Hr]%re_match_lang%lang_alt_inv E; [by apply re_match_lang|].
    apply re_match_lang in Hr. congruence.
Qed.

Lemma relative_reference_stays_witness : stays (runes "../images/cover.jpg").
Proof.
  destruct (relative_reference_stays "../images/cover.jpg" (runes "../images/cover.jpg")) as [[_ H]|H];
    [by vm_compute | done | by vm_compute in H | done].
Defined.

(** A data URL, its scheme in either case. *)
Definition ascii_lower (r : Z) : Z := if between 65 r 90 then r + 32 else r.
Definition is_data (l : list Z) : Prop := exists l', l = take 5 l ++ l' /\ ascii_lower <$> take 5 l = runes "data:".

Ltac letter_bounds H :=
  match type of H with in_class ?c _ = true => let v := eval vm_compute in c in change c with v in H end;
  class_bounds H.

Lemma data_uri_is_data s : MatchString data_uri s = true -> is_data (runes s).
Proof.
  unfold MatchString. rewrite re_match_lang. unfold data_uri. rewrite lang_cat_inv. intros (a & b & -> & Ha & _).
  cbn [letters_of] in Ha. repeat rewrite lang_cat_inv in Ha.
  destruct Ha as (l1 & r1 & -> & (x1 & -> & H1)%lang_class_one & Ha).
  rewrite lang_cat_inv in Ha. destruct Ha as (l2 & r2 & -> & (x2 & -> & H2)%lang_class_one & Ha).
  rewrite lang_cat_inv in Ha. destruct Ha as (l3 & r3 & -> & (x3 & -> & H3)%lang_class_one & Ha).
  rewrite lang_cat_inv in Ha. destruct Ha as (l4 & r4 & -> & (x4 & -> & H4)%lang_class_one & Ha).
  rewrite lang_cat_inv in Ha. destruct Ha as (l5 & r5 & -> & (x5 & -> & H5)%lang_class_one & Ha).
  inversion Ha; subst. exists b. cbn [app take]. rewrite take_0. split; [done|].
  letter_bounds H1. letter_bounds H2. letter_bounds H3. letter_bounds H4. letter_bounds H5.
  assert (Hlow : forall x y, x = y \/ x = y - 32 -> 97 <= y <= 122 -> ascii_lower x = y).
  { intros x y Hx Hy. unfold ascii_lower, between. destruct (Z.leb_spec 65 x), (Z.leb_spec x 90); cbn [andb]; lia. }
  assert (x5 = 58) as -> by lia. cbn [fmap list_fmap].
  rewrite (Hlow x1 100), (Hlow x2 97), (Hlow x3 116), (Hlow x4 97) by lia. done.
Qed.

(** ** The pass over the tokens *)

(** A piece of its output: a token copied, or a cover. *)
Inductive piece := Copied (t : token) | Cover (c : svgCover) (s : string).
Definition piece_text (p : piece) : string := match p with Copied t => tk_raw t | Cover _ s => s end.

Definition plain_token (t : token) : Prop :=
  svg_tag t <> "svg" \/ ~ (is_start t = true \/ is_end t = true \/ is_self_closing t = true).
Definition no_style (t : token) : Prop :=
  tk_name t <> "style" \/ ~ (is_start t = true \/ is_end t = true \/ is_self_closing t = true).
Definition piece_ok (tokens : list token) (p : piece) : Prop :=
  match p with
  | Copied t => t ∈ tokens /\ plain_token t /\ no_style t
  | Cover c s => img c = Some s
  end.

Lemma img_ok c s : img c = Some s ->
  exists src alt,
    s = "<img src=" +:+ quoted (EscapeString src) +:+ " alt=" +:+ quoted (EscapeString alt) +:+
        " class=" +:+ quoted svgCoverClass +:+ "/>" /\
    MatchString reRelativeOrData src = true.
Proof.
  unfold img. destruct (_ || _); [done|]. destruct (svgImageRef _) as [src|]; [|done].
  destruct (contains_markup src); [done|]. cbv zeta.
  destruct (MatchString reRelativeOrData _) eqn:E; [|done]. cbn [negb]. intros [= <-]. eauto.
Qed.

Definition raws (l : list token) : string := String.concat "" (tk_raw <$> l).
Definition pieces_text (l : list piece) : string := String.concat "" (piece_text <$> l).

Lemma pieces_snoc l p : pieces_text (l ++ [p]) = pieces_text l +:+ piece_text p.
Proof. unfold pieces_text. rewrite fmap_app. apply concat_empty_app. Qed.
Lemma raws_snoc l t : raws (l ++ [t]) = raws l +:+ tk_raw t.
Proof. unfold raws. rewrite fmap_app. apply concat_empty_app. Qed.

(** The state of the pass, after the tokens [done]. *)
Record prepass_inv (tokens seen : list token) (p : prepass_state) : Prop := {
  pi_out : exists l, ps_out p = pieces_text l /\ Forall (piece_ok tokens) l;
  pi_raw : exists l, l `suffix_of` seen /\ ps_svgRaw p = raws l;
  pi_none : ps_svg p = None -> ps_svgRaw p = "";
}.

Lemma kept_piece tokens l p s :
  Forall (piece_ok tokens) l -> ps_out p = pieces_text l -> piece_ok tokens s ->
  exists l', ps_out p +:+ piece_text s = pieces_text l' /\ Forall (piece_ok tokens) l'.
Proof.
  intros Hl Hp Hs. exists (l ++ [s]). rewrite pieces_snoc, Hp. split; [done|].
  apply Forall_app. split; [done | by constructor].
Qed.

Lemma raw_none (l : list token) : exists l', l' `suffix_of` l /\ "" = raws l'.
Proof. exists []. split; [apply suffix_nil | done]. Qed.

Lemma copied_ok capture tokens t :
  t ∈ tokens ->
  String.eqb (tk_name t) "style" && is_start t = false ->
  String.eqb (tk_name t) "style" && (is_self_closing t || is_end t) = false ->
  String.eqb (svg_tag t) "svg" && (is_self_closing t || is_end t || negb capture) = false ->
  String.eqb (svg_tag t) "svg" && is_start t = false -> piece_ok tokens (Copied t).
Proof.
  intros Hin H1 H2 H3 H4. cbn. unfold plain_token, no_style. split_and!; [done|..].
  - destruct (String.eqb_spec (svg_tag t) "svg"); [right | by left]. cbn in *. rewrite !orb_false_iff in H3.
    intros [?|[?|?]]; destruct_and!; congruence.
  - destruct (String.eqb_spec (tk_name t) "style"); [right | by left]. cbn in *. rewrite !orb_false_iff in H2.
    intros [?|[?|?]]; destruct_and!; congruence.
Qed.

Lemma prepass_token_inv capture tokens seen p t :
  t ∈ tokens -> prepass_inv tokens seen p -> prepass_inv tokens (seen ++ [t]) (prepass_token capture p t).
Proof.
  intros Hin [(l & Hl & Hok) (rs & [k Hsuf] & Hrs) Hnone]. unfold prepass_token.
  destruct (ps_svg p) as [svg|] eqn:Esvg.
  - destruct (feed t svg) as [closed svg'] eqn:Ef. destruct closed.
    + destruct (img svg') as [i|] eqn:Ei; split; cbn; eauto using raw_none.
      by eapply (kept_piece _ _ _ (Cover svg' i)).
    + split; cbn; [eauto| |done]. exists (rs ++ [t]). split; [|by rewrite raws_snoc, Hrs].
      exists k. by rewrite Hsuf, app_assoc.
  - specialize (Hnone eq_refl). rewrite Hnone in Hrs.
    assert (forall q, ps_out q = ps_out p -> ps_svgRaw q = "" -> prepass_inv tokens (seen ++ [t]) q) as Hsame.
    { intros q Ho Hr. split; [rewrite Ho; eauto | rewrite Hr; apply raw_none | done]. }
    repeat match goal with |- prepass_inv _ _ (if ?b then _ else _) => destruct b eqn:? end; try (by apply Hsame).
    split; cbn; [|rewrite Hnone; apply raw_none|done]. eapply (kept_piece _ _ _ (Copied t)); [done..|].
    by eapply copied_ok.
Qed.

Lemma prepass_fold_inv capture tokens l : forall seen p,
  (forall t, t ∈ l -> t ∈ tokens) -> prepass_inv tokens seen p ->
  prepass_inv tokens (seen ++ l) (fold_left (prepass_token capture) l p).
Proof.
  induction l as [|t l IH]; intros seen p Hin Hp; cbn [fold_left]; [by rewrite app_nil_r|].
  replace (seen ++ t :: l) with ((seen ++ [t]) ++ l) by by rewrite <- app_assoc.
  apply IH; [intros; apply Hin; by right|]. apply prepass_token_inv; [apply Hin; by left | done].
Qed.

(** Without looking for SVG, none is ever open. *)
Lemma no_capture_none l : forall p, ps_svg p = None -> ps_svg (fold_left (prepass_token false) l p) = None.
Proof.
  induction l as [|t l IH]; intros p Hp; cbn [fold_left]; [done|]. apply IH. unfold prepass_token. rewrite Hp.
  rewrite orb_true_r, andb_true_r.
  repeat match goal with |- context [if ?b then _ else _] => destruct b eqn:? end; done || congruence.
Qed.

Lemma piece_ok_more tokens tokens' p : (forall t, t ∈ tokens -> t ∈ tokens') -> piece_ok tokens p -> piece_ok tokens' p.
Proof. intros Hs. destruct p; cbn; naive_solver. Qed.

(** Tokens the pass copies whatever happens before. *)
Definition untouched (t : token) : Prop := tk_name t <> "style" /\ svg_tag t <> "svg".

Lemma untouched_copied capture l : forall p,
  Forall untouched l -> ps_svg p = None -> ps_inStyle p = false ->
  fold_left (prepass_token capture) l p = put_out (raws l) p.
Proof.
  induction l as [|t l IH]; intros p Hl Hs Hi; cbn [fold_left].
  - unfold put_out. rewrite str_app_nil_r. by destruct p.
  - apply Forall_cons in Hl as [[Hn Ht] Hl].
    assert (prepass_token capture p t = put_out (tk_raw t) p) as ->.
    { unfold prepass_token. rewrite Hs, Hi. destruct (String.eqb_spec (tk_name t) "style"); [done|].
      by destruct (String.eqb_spec (svg_tag t) "svg"). }
    rewrite IH by done. unfold put_out. cbn. f_equal. rewrite str_app_assoc. f_equal.
    symmetry. apply (concat_empty_app [tk_raw t] (tk_raw <$> l)).
Qed.

Section prepass.
Context `{HtmlLibraries} `{CaseTables}.

Lemma scan_inv capture raw : prepass_inv (html_tokens raw) (html_tokens raw) (scan capture raw).
Proof.
  apply (prepass_fold_inv capture _ _ []); [done|].
  split; [by exists [] | apply raw_none | done].
Qed.

(** C12: what the pass over the tokens lets through to the policy: tokens
    copied as they are, none of them a tag of a style sheet or of an SVG
    element, and covers, each an image with its attributes escaped and a
    reference that is a data URL or, as a browser reads it, names no scheme
    and no host; a document with neither passes unchanged. *)
Theorem prepass_pieces raw :
  (exists l pieces, l `suffix_of` html_tokens raw /\
     pr_out (prepass raw) = pieces_text pieces /\
     Forall (piece_ok (html_tokens raw ++ html_tokens (raws l))) pieces /\
     forall c s, Cover c s ∈ pieces -> exists src alt,
       s = "<img src=" +:+ quoted (EscapeString src) +:+ " alt=" +:+ quoted (EscapeString alt) +:+
           " class=" +:+ quoted svgCoverClass +:+ "/>" /\ (is_data (runes src) \/ stays (runes src))) /\
  (Forall untouched (html_tokens raw) ->
   prepass raw = mkPrepassResult (raws (html_tokens raw)) "" 0).
Proof.
  split.
  - assert (exists l pieces, l `suffix_of` html_tokens raw /\ pr_out (prepass raw) = pieces_text pieces /\
      Forall (piece_ok (html_tokens raw ++ html_tokens (raws l))) pieces) as (l & pieces & Hl & Hp & Hok).
    { destruct (scan_inv true raw) as [(ps & Hps & Hok) (l & Hl & Hraw) _].
      unfold prepass, prepassFrom. cbn [pr_out]. destruct (ps_svg (scan true raw)) as [svg|] eqn:E; cbn [pr_out].
      - destruct (scan_inv false (ps_svgRaw (scan true raw))) as [(ps' & Hps' & Hok') _ _].
        exists l, (ps ++ ps'). rewrite Hps, Hps'. split; [done|]. unfold pieces_text.
        rewrite fmap_app, concat_empty_app. split; [done|]. rewrite <- Hraw.
        apply Forall_app. split; (eapply Forall_impl; [eassumption|]; intros ?; apply piece_ok_more; intros;
          apply elem_of_app; tauto).
      - exists [], ps. split; [apply suffix_nil|]. split; [done|]. eapply Forall_impl; [exact Hok|].
        intros ?. apply piece_ok_more. intros; apply elem_of_app; tauto. }
    exists l, pieces. split_and!; try done. intros c s Hin. rewrite Forall_forall in Hok.
    apply Hok in Hin. cbn in Hin. apply img_ok in Hin as (src & alt & -> & Hm). exists src, alt. split; [done|].
    destruct (relative_reference_stays src (runes src) Hm) as [[Hd _]|Hst]; [done|left; by apply data_uri_is_data|by right].
  - intros Hu. unfold prepass, prepassFrom, scan. by rewrite untouched_copied by done.
Qed.
End prepass.

(** ** The document *)

Lemma take_drop_bytes n s : take_bytes n s +:+ drop_bytes n s = s.
Proof.
  unfold take_bytes, drop_bytes. revert n. induction s as [|c s IH]; intros [|n]; cbn [String.substring String.length Nat.sub].
  - done.
  - done.
  - rewrite str_app_nil_l. f_equal. apply substring_all.
  - rewrite str_app_cons. f_equal. apply IH.
Qed.

Lemma drop_drop_bytes m n s : drop_bytes m (drop_bytes n s) = drop_bytes (n + m) s.
Proof.
  unfold drop_bytes. revert n. induction s as [|c s IH]; intros [|n].
  - by destruct m.
  - by destruct m.
  - rewrite Nat.sub_0_r, substring_all. done.
  - cbn [String.substring String.length Nat.sub Nat.add]. rewrite IH. done.
Qed.

(** What is put into a document: the name spaces and a block, in a root of
    its own if it has none. *)
Lemma finishXHTML_split doc block :
  (exists a b c, doc = a +:+ (b +:+ c) /\ finishXHTML doc block = a +:+ ns +:+ b +:+ block +:+ c) \/
  (FindIndex reRootOpen doc = None /\
   finishXHTML doc block = "<html" +:+ ns +:+ "><head>" +:+ block +:+ "</head><body>" +:+ doc +:+ "</body></html>").
Proof.
  unfold finishXHTML. destruct (FindIndex reRootOpen doc) as [[root0 root1]|] eqn:E; [left | by right].
  apply FindIndex_bounds in E as [Hr _]. change (min_len reRootOpen) with 6%nat in Hr. cbv zeta.
  set (at_ := match FindIndex reHeadOpen (drop_bytes root1 doc) with Some (_, head1) => (root1 + head1)%nat | None => root1 end).
  assert (root0 + 5 <= at_)%nat as Hat.
  { subst at_. destruct (FindIndex reHeadOpen _) as [[? ?]|]; lia. }
  exists (take_bytes (root0 + 5) doc), (take_bytes (at_ - (root0 + 5)) (drop_bytes (root0 + 5) doc)), (drop_bytes at_ doc).
  split; [|done]. rewrite <- (take_drop_bytes (root0 + 5) doc) at 1. f_equal.
  rewrite <- (take_drop_bytes (at_ - (root0 + 5)) (drop_bytes (root0 + 5) doc)) at 1. f_equal.
  rewrite drop_drop_bytes. f_equal. lia.
Qed.

Definition carriage_return : ascii := "013".

Lemma style_text_no_cr css : contains_char carriage_return (style_text css) = false.
Proof. by apply replace_char_gone. Qed.

(** The style sheet of a document: none, or one element whose text is what
    its hash is of. *)
Definition style_block `{HtmlLibraries} (block hash : string) : Prop :=
  (block = "" /\ hash = "") \/
  exists text,
    block = "<style>" +:+ EscapeString text +:+ "</style>" +:+ String "010" "" /\
    contains_char "<" (EscapeString text) = false /\ contains_char ">" (EscapeString text) = false /\
    contains_char carriage_return text = false /\ xml_decode 0 (EscapeString text) = text /\
    hash = "sha256-" +:+ StdEncode (sha256 text).

Section document.
Context `{HtmlLibraries} `{CaseTables}.

(** The document a book's chapter becomes is the policy's output over the
    tokens let through, with nothing added but the name spaces, a root if it
    had none, and at most one style sheet; the style sheet cannot hold a tag
    whatever the book wrote in it, has no line end the XML parser would
    change, and decodes to the very text whose hash the response admits. *)
Theorem SanitizeHTML_document raw :
  let doc := html_policy (pr_out (prepass raw)) in
  let '(out, rep) := SanitizeHTML raw in
  exists block, style_block block (StyleHash rep) /\
    ((exists a b c, doc = a +:+ (b +:+ c) /\ out = a +:+ ns +:+ b +:+ block +:+ c) \/
     (FindIndex reRootOpen doc = None /\
      out = "<html" +:+ ns +:+ "><head>" +:+ block +:+ "</head><body>" +:+ doc +:+ "</body></html>")).
Proof.
  cbv zeta. unfold SanitizeHTML. destruct (0 <? len (pr_css (prepass raw))).
  - destruct (SanitizeCSS (pr_css (prepass raw))) as [safe rep]. cbv zeta. cbn [StyleHash].
    eexists. split; [|apply finishXHTML_split]. right. exists (style_text safe).
    split_and!; try done; [apply EscapeString_text; tauto | apply EscapeString_text; tauto |
      apply style_text_no_cr | apply xml_decode_EscapeString].
  - cbv zeta. cbn [StyleHash]. exists "". split; [by left | apply finishXHTML_split].
Qed.
End document.

(** What the scan of style sheets leaves in, though its target is another
    site's: a quoted target with the other quote in it, and an import written
    without a space. *)
Definition in_quotes (s : string) : string := quoted s.
Example SanitizeCSS_misses :
  (SanitizeCSS ("a{background:url(" +:+ in_quotes "http://example.org/x'y.png" +:+ ")}")).1
    = "a{background:url(" +:+ in_quotes "http://example.org/x'y.png" +:+ ")}" /\
  (SanitizeCSS ("@import" +:+ in_quotes "http://example.org/x.css" +:+ ";")).1
    = "@import" +:+ in_quotes "http://example.org/x.css" +:+ ";" /\
  (SanitizeCSS ("@import " +:+ in_quotes "http://example.org/x.css" +:+ ";")).1 = "".
Proof. by vm_compute. Qed.
