(* ===== verification/ReaderContent.v ===== *)
(** * Serving the inside of a book (src/internal/reader/content, reader_content.go)

    Opening a book's archive from its sources, looking an entry up, deciding
    how it is served, and the two handlers: the content of a book and the
    grant that lets a frame fetch it.  The decoders of character sets and of
    XML are third-party or of the platform: the class [TextDecoders]. *)

From S2P Require Import Prelude GoStrings Regex Errors Catalog Transactor Postgres Http Pairing Identity Encoding Paths Patterns Tokens Access ReadingStore Reading Jobs Sources Extract ReaderHtml.

Local Open Scope string_scope.
Local Open Scope list_scope.
Local Open Scope Z_scope.

(** ** Resolving a book (resolver.go) *)

(** The repositories and sources a resolver is built from. *)
Record Resolver := mkResolver {
  rs_ownership : EditionID -> Result LibraryEntry;
  rs_offerings : EditionID -> Result (list SourceOffering);
  rs_sources : string -> FileReference -> Result (option (list read_step));
}.

(** What the system answers while a stream is spooled and opened. *)
Record opening := mkOpening { op_spool : spool; op_stat : option error }.

(** The first offering whose source answers. *)
Fixpoint first_stream (r : Resolver) (offs : list SourceOffering) : option (list read_step) :=
  match offs with
  | [] => None
  | off :: offs' =>
      match rs_sources r (o_sourceID off) (o_fileReference off) with
      | Ok (Some s) => Some s
      | _ => first_stream r offs'
      end
  end.

Definition DeadlineExceeded : error := New "context deadline exceeded".
Definition unavailable (msg : string) : error := mkErr Unavailable msg.

Fixpoint domain_error (e : error) : option error :=
  match e with
  | DomainError _ _ _ => Some e
  | PermanentError e' | Errorf _ e' => domain_error e'
  | New _ => None
  end.

Definition materializeError (err : error) : error :=
  if Is err (Error ErrOversized) then unavailable "this book's file is too large to open"
  else if Is err (Error ErrMalformed) then unavailable "this book's file could not be read"
  else if Is err (Error DeadlineExceeded) then unavailable "reading this book's file timed out"
  else match domain_error err with
  | Some derr => derr
  | None => unavailable "this book's source isn't reachable right now"
  end.

Section resolve.
Context `{Containers}.

(** The archive's entries; the spooled file is the caller's to clean up. *)
Definition open_spooled (op : opening) (data : string) : tempM (list zip_entry) := fun files =>
  match op_stat op with
  | Some _ => (Err (unavailable "could not read the materialised book file"), cleanup files)
  | None =>
      match zip_entries data with
      | None => (Err (unavailable "this book's file is not a readable EPUB archive"), cleanup files)
      | Some entries =>
          if Nat.ltb MaxZipEntryCount (length entries)
          then (Err (unavailable "this book's file has too many entries to open safely"), cleanup files)
          else (Ok entries, files)
      end
  end.

Definition materialized (op : opening) (stream : list read_step) : tempM string := fun files =>
  match Materialize (op_spool op) stream files with
  | (Err e, files) => (Err (materializeError e), files)
  | r => r
  end.

Definition LoadBook (r : Resolver) (op : opening) (editionID : EditionID) : tempM (list zip_entry) :=
  _ ← reading (fun _ => rs_ownership r editionID);
  offs ← reading (fun _ => rs_offerings r editionID);
  match offs with
  | [] => throw (unavailable "no source offering for this edition")
  | _ =>
      match first_stream r offs with
      | None => throw (unavailable "this book's source isn't reachable right now")
      | Some stream => data ← materialized op stream; open_spooled op data
      end
  end.
End resolve.

(** ** Entries (dispatch.go) *)

Inductive EntryKind := KindHTML | KindCSS | KindBinary | KindXML.

Definition invalid_path (msg : string) : Result unit := fails InvalidInput msg.

Definition ValidateResourcePath (p : string) : Result unit :=
  if String.eqb p "" then invalid_path "resource path is empty"
  else if HasPrefix p "/" || Contains p "\" then invalid_path "resource path must be relative"
  else if existsb (fun seg => String.eqb seg "..") (Split "/" p) then
    invalid_path "resource path must not traverse upward"
  else if negb (String.eqb (path_Clean p) p) then invalid_path "resource path is not in canonical form"
  else Ok tt.

Definition FindEntry (entries : list zip_entry) (p : string) : Result zip_entry :=
  match List.find (fun f => String.eqb (ze_Name f) p) entries with
  | Some f => Ok f
  | None => fails NotFound "no such resource in this book"
  end.

Definition unreadable_resource : error := unavailable "this resource could not be read from the book".
Definition ReadEntry (f : zip_entry) : Result string :=
  match ze_open f with
  | Some _ => Err unreadable_resource
  | None =>
      if MaxDecompressedReadBytes <? len (ze_data f) then Err (unavailable "this resource is too large to serve")
      else match ze_error f with
      | Some _ => Err unreadable_resource
      | None => Ok (ze_data f)
      end
  end.

Definition htmlContentType : string := "application/xhtml+xml; charset=utf-8".
Definition errSVGRefused : error := mkErr InvalidInput "SVG resources are not served".
Definition errUnservable : error := mkErr InvalidInput "this resource type cannot be served".

Definition nsXHTML : string := "http://www.w3.org/1999/xhtml".
Definition nsSVG : string := "http://www.w3.org/2000/svg".
Definition nsMathML : string := "http://www.w3.org/1998/Math/MathML".
Definition nsXSLT : string := "http://www.w3.org/1999/XSL/Transform".

(** A token of [xml.Decoder]. *)
Inductive xml_token :=
| XDirective (text : string)
| XProcInst (target : string)
| XStart (space local : string)
| XOther.

(** [xml_decode_tokens] is the tokens up to the end or to the first syntax
    error, and whether there was one. *)
Class TextDecoders := {
  utf16_decode : string -> option string;
  charset_decode : string -> string -> option string;
  xml_decode_tokens : string -> list xml_token * bool;
}.

Definition quote_class : pat := PSet (In quotes).
Definition encoding_name : list (Z * Z) := [upper_letters; lower_letters; digits; (46, 46); (95, 95); (58, 58); (45, 45)].
Fixpoint literal (s : string) : pat :=
  match s with
  | "" => PEps
  | String c s' => PSeq (PSet (In (one c))) (literal s')
  end.
(** [^\s*<\?xml[^>]*?\sencoding\s*=\s*["']([A-Za-z0-9._:-]+)["']], from the
    start of the text on. *)
Definition reXMLEncoding : pat :=
  pseq [spaces; literal "<?xml"; PStar false (Out (one ">")); PSet (In white); literal "encoding"; spaces;
    PSet (In (one "=")); spaces; quote_class; PGroup 1 (PPlus (In encoding_name)); quote_class].
Definition declared_encoding (data : string) : option string :=
  group 1 <$> match_at reXMLEncoding None (chunks data).

Definition utf16_mark (data : string) : bool :=
  let b := take 2 (bytes data) in bool_decide (b = [255; 254]) || bool_decide (b = [254; 255]).

(** A font by its sniffed type, or by its name when nothing is sniffed. *)
Definition font_ext (ext : string) : bool :=
  String.eqb ext ".woff" || String.eqb ext ".woff2" || String.eqb ext ".ttf" || String.eqb ext ".otf".
Definition isFontType (base ext : string) : bool :=
  if HasPrefix base "font/" || String.eqb base "application/font-woff" || String.eqb base "application/vnd.ms-fontobject"
  then true
  else if font_ext ext then String.eqb base "application/octet-stream" || HasPrefix base "font/"
  else false.
Definition fontMIME (ext base : string) : string :=
  if String.eqb ext ".woff2" then "font/woff2" else if String.eqb ext ".woff" then "font/woff"
  else if String.eqb ext ".ttf" then "font/ttf" else if String.eqb ext ".otf" then "font/otf" else base.

Definition xml_ext (ext : string) : bool := String.eqb ext ".xml" || String.eqb ext ".opf" || String.eqb ext ".ncx".
Definition html_ext (ext : string) : bool := String.eqb ext ".xhtml" || String.eqb ext ".html" || String.eqb ext ".htm".

(** The loop over an XML entry's tokens: [root] until the first element. *)
Fixpoint classify_tokens (tokens : list xml_token) (failed root : bool) : Result (EntryKind * string) :=
  match tokens with
  | [] =>
      if failed || root then Err errUnservable else Ok (KindXML, "application/xml; charset=utf-8")
  | XDirective t :: tokens' =>
      if contains_char "[" t then Err errUnservable else classify_tokens tokens' failed root
  | XProcInst target :: tokens' =>
      if String.eqb target "xml-stylesheet" then Err errUnservable else classify_tokens tokens' failed root
  | XStart space _ :: tokens' =>
      if String.eqb space nsXHTML then
        if root then Ok (KindHTML, htmlContentType) else Err errUnservable
      else if String.eqb space nsSVG then Err errSVGRefused
      else if String.eqb space nsMathML || String.eqb space nsXSLT then Err errUnservable
      else classify_tokens tokens' failed false
  | XOther :: tokens' => classify_tokens tokens' failed root
  end.

Section classify.
Context `{CaseTables} `{FoldTable} `{Containers} `{TextDecoders}.

Definition NormalizeXML (data : string) : Result string :=
  let decoded :=
    if utf16_mark data then utf16_decode data
    else match declared_encoding data with
    | None => Some data
    | Some label => if EqualFold label "utf-8" then Some data else charset_decode label data
    end in
  match decoded with Some out => Ok out | None => Err errUnservable end.

Definition classifyXML (data : string) : Result (EntryKind * string) :=
  norm ← NormalizeXML data;
  let '(tokens, failed) := xml_decode_tokens norm in classify_tokens tokens failed true.

Definition sniffed (data : string) : string :=
  ToLower (TrimSpace (hd "" (Split ";" (DetectContentType data)))).

Definition Classify (entryName data : string) : Result (EntryKind * string) :=
  let base := sniffed data in
  let ext := ToLower (Ext entryName) in
  if String.eqb base "text/html" || html_ext ext then Ok (KindHTML, htmlContentType)
  else if String.eqb ext ".css" && HasPrefix base "text/" then Ok (KindCSS, "text/css; charset=utf-8")
  else if String.eqb base "image/svg+xml" || String.eqb ext ".svg" then Err errSVGRefused
  else if String.eqb base "text/xml" || String.eqb base "application/xml" || (xml_ext ext && HasPrefix base "text/")
  then classifyXML data
  else if HasPrefix base "image/" then Ok (KindBinary, base)
  else if isFontType base ext then Ok (KindBinary, fontMIME ext base)
  else Err errUnservable.
End classify.

(** ** The handlers (reader_content.go) *)

Definition readerContentCSP : string :=
  "default-src 'self'; script-src 'none'; object-src 'none'; frame-ancestors 'self'".
Definition readerContentXMLCSP : string := readerContentCSP +:+ "; sandbox".

(** The headers that depend on the entry, and the body; the others are the
    same for every entry. *)
Record content_response := mkContentResponse {
  cr_contentType : string;
  cr_csp : string;
  cr_body : string;
}.

Definition reader_not_ready : http_error := HTTPError Unavailable "the reader is not ready yet".
Definition authentication_required : http_error := HTTPError Unauthorized "authentication is required".
Definition edition_required (editionID : string) : bool := String.eqb editionID "" || contains_char "/" editionID.

Definition acquire_error (err : error) : http_error :=
  if Is err (Error DeadlineExceeded) then HTTPError Unavailable "reading this book timed out" else domain_http err.

Section handlers.
Context `{CaseTables} `{FoldTable} `{Containers} `{TextDecoders} `{HtmlLibraries}.

(** The body of an entry, with the policy it is served under. *)
Definition serve_entry (name data : string) : Result content_response :=
  '(kind, contentType) ← Classify name data;
  match kind with
  | KindHTML =>
      let '(body, report) := SanitizeHTML data in
      Ok (mkContentResponse contentType
            (if String.eqb (StyleHash report) "" then readerContentCSP
             else readerContentCSP +:+ "; style-src 'self' '" +:+ StyleHash report +:+ "'") body)
  | KindCSS => Ok (mkContentResponse contentType readerContentCSP (SanitizeCSS data).1)
  | KindXML => body ← NormalizeXML data; Ok (mkContentResponse contentType readerContentXMLCSP body)
  | KindBinary => Ok (mkContentResponse contentType readerContentCSP data)
  end.

(** [cache] is what acquiring a book answers; the handle is released when the
    handler ends. *)
Definition ReaderContentHandler (cache : option (EditionID -> Result (list zip_entry))) (deps : option ReadingAPI)
    (fault : option pg_error) (ctx : context) (editionID : EditionID) (resourcePath : string)
    : readingH content_response :=
  match cache with
  | None => throw reader_not_ready
  | Some acquire =>
      if edition_required editionID then bad_request "editionId is required"
      else
        _ ← checked (ValidateResourcePath resourcePath);
        match deps with
        | None => throw reader_not_ready
        | Some deps =>
            match ctx_user ctx with
            | None => throw authentication_required
            | Some _ =>
                _ ← assertEditionInLibrary deps fault editionID (ActiveLibraryFromContext ctx);
                entries ← or_fail (reading (fun _ => acquire editionID)) acquire_error;
                entry ← checked (FindEntry entries resourcePath);
                data ← checked (ReadEntry entry);
                checked (serve_entry (ze_Name entry) data)
            end
        end
  end.

Definition ReaderContentCookieName : string := "alx_rc".
Definition readerContentCookiePath (editionID : EditionID) : string :=
  readerEditionsPrefix +:+ editionID +:+ "/reader/content/".

Record grant_cookie := mkGrantCookie {
  gc_Value : string;
  gc_Path : string;
  gc_Expires : Time;
  gc_MaxAge : Z;
  gc_Secure : bool;
}.
End handlers.

Section session.
Context `{TokenPrimitives}.

(** [secure] is whether the request came over HTTPS; the cookie is HTTP-only
    and strictly same-site. *)
Definition ReaderSessionHandler (grants : option GrantSigner) (deps : option ReadingAPI) (fault : option pg_error)
    (ctx : context) (now : Time) (secure : bool) (editionID : EditionID) : readingH grant_cookie :=
  if edition_required editionID then bad_request "editionId is required"
  else match ctx_user ctx with
  | None => throw authentication_required
  | Some user =>
      match grants with
      | None => throw reader_not_ready
      | Some grants =>
          match deps with
          | None => throw reader_not_ready
          | Some deps =>
              let libraryID := ActiveLibraryFromContext ctx in
              _ ← assertEditionInLibrary deps fault editionID libraryID;
              match SignReaderContent grants (au_UserID user) libraryID editionID now with
              | Ok (token, expiresAt) =>
                  mret (mkGrantCookie token (readerContentCookiePath editionID) expiresAt
                          (ReaderContentGrantTTL / Second) secure)
              | _ => throw (HTTPError Internal "unexpected error")
              end
          end
      end
  end.
End session.
