(* ===== verification/ReaderContentSafety.v ===== *)
(** * What the reader's content route guarantees *)

From S2P Require Import Prelude GoStrings Regex Errors Catalog Transactor Postgres Http Pairing Identity Encoding Paths Patterns Tokens Access AccessSafety ReadingStore Reading ReadingPrivacy ReadingSafety Jobs Sources Extract ExtractSafety ReaderHtml ReaderContent.

Local Open Scope string_scope.
Local Open Scope list_scope.
Local Open Scope Z_scope.

(** ** Paths and entries *)

(** A path under which nothing outside the book can be meant. *)
Record inside (p : string) : Prop := {
  in_nonempty : p <> "";
  in_relative : HasPrefix p "/" = false;
  in_no_backslash : Contains p "\" = false;
  in_no_parent : ".." ∉ Split "/" p;
  in_canonical : path_Clean p = p;
}.

Lemma ValidateResourcePath_ok p : ValidateResourcePath p = Ok tt <-> inside p.
Proof.
  unfold ValidateResourcePath, invalid_path, fails.
  destruct (String.eqb_spec p "") as [->|Hne]; [split; [done | by intros []]|].
  destruct (HasPrefix p "/") eqn:E1; [split; [done | intros []; congruence]|].
  destruct (Contains p "\") eqn:E2; [split; [done | intros []; congruence]|]. cbn [orb].
  destruct (existsb _ _) eqn:E3.
  - split; [done|]. intros [_ _ _ Hp _]. apply existsb_exists in E3 as (x & Hx & ->%String.eqb_eq).
    by apply list_elem_of_In in Hx.
  - destruct (String.eqb_spec (path_Clean p) p) as [Hc|Hc]; cbn [negb]; [|split; [done | by intros []]].
    split; [|done]. intros _. split; try done. intros Hin. apply not_true_iff_false in E3. apply E3.
    apply existsb_exists. exists "..". split; [by apply list_elem_of_In | done].
Qed.

Lemma FindEntry_ok entries p e : FindEntry entries p = Ok e -> e ∈ entries /\ ze_Name e = p.
Proof.
  unfold FindEntry. destruct (List.find _ _) as [f|] eqn:E; [|done]. intros [= <-].
  apply find_some in E as [Hin ?%String.eqb_eq]. by rewrite list_elem_of_In.
Qed.

Lemma ReadEntry_ok e d : ReadEntry e = Ok d -> d = ze_data e /\ len d <= MaxDecompressedReadBytes /\ ze_open e = None /\ ze_error e = None.
Proof.
  unfold ReadEntry. destruct (ze_open e); [done|]. destruct (Z.ltb_spec MaxDecompressedReadBytes (len (ze_data e))); [done|].
  destruct (ze_error e); [done|]. intros [= <-]. done.
Qed.

(** ** What is served raw *)

(** XML that a browser would render nothing live of. *)
Definition structural (t : xml_token) : Prop :=
  match t with
  | XDirective text => contains_char "[" text = false
  | XProcInst target => target <> "xml-stylesheet"
  | XStart space _ => space ∉ [nsXHTML; nsSVG; nsMathML; nsXSLT]
  | XOther => True
  end.

Lemma classify_tokens_xml tokens failed root ct :
  classify_tokens tokens failed root = Ok (KindXML, ct) ->
  failed = false /\ Forall structural tokens /\ ct = "application/xml; charset=utf-8" /\
  (root = true -> exists space local, XStart space local ∈ tokens).
Proof.
  revert root. induction tokens as [|t tokens IH]; intros root; cbn [classify_tokens].
  - destruct failed, root; cbn; try done. by intros [= <-].
  - assert (forall root', classify_tokens tokens failed root' = Ok (KindXML, ct) -> structural t ->
      (root = true -> root' = true \/ exists space local, t = XStart space local) ->
      failed = false /\ Forall structural (t :: tokens) /\ ct = "application/xml; charset=utf-8" /\
      (root = true -> exists space local, XStart space local ∈ t :: tokens)) as Hstep.
    { intros root' (-> & Hf & -> & Hr)%IH Ht Hroot. split_and!; try done; [by constructor|].
      intros [Hr'|(sp & lo & ->)]%Hroot; [|exists sp, lo; by left].
      destruct (Hr Hr') as (sp & lo & Hin). exists sp, lo. by right. }
    destruct t as [text|target|space local|]; cbn [structural] in *.
    + destruct (contains_char "[" text); [done|]. intros H. apply (Hstep root); auto.
    + destruct (String.eqb_spec target "xml-stylesheet"); [done|]. intros H. apply (Hstep root); auto.
    + destruct (String.eqb_spec space nsXHTML); [by destruct root|].
      destruct (String.eqb_spec space nsSVG); [done|].
      destruct (String.eqb_spec space nsMathML); [done|].
      destruct (String.eqb_spec space nsXSLT); [done|]. cbn [orb]. intros H. apply (Hstep false); [done| |eauto].
      rewrite !not_elem_of_cons. repeat split; try done. apply not_elem_of_nil.
    + intros H. apply (Hstep root); auto.
Qed.

Lemma classify_tokens_kind tokens failed root k ct :
  classify_tokens tokens failed root = Ok (k, ct) -> (k = KindHTML /\ ct = htmlContentType) \/ k = KindXML.
Proof.
  revert root. induction tokens as [|t tokens IH]; intros root; cbn [classify_tokens].
  - destruct (failed || root); [done|]. intros [= <- _]. by right.
  - destruct t; repeat case_match; try done; try apply IH. intros [= <- <-]. by left.
Qed.

(** ** The checks of the store *)

Lemma checked_run {A} (r : Result A) (db : reading_db) : (checked r db).1 = match r with Ok a => Ok a | Err e => Err (domain_http e) | OutOfFuel => Err Panicked end.
Proof. by destruct r. Qed.

Lemma assert_edition_ok deps fault ed lib db u :
  (assertEditionInLibrary deps fault ed lib db).1 = Ok u ->
  exists id e, library_entries db !! id = Some e /\ le_editionID (en_entry e) = ed /\ en_library_id e = lib.
Proof.
  unfold assertEditionInLibrary. destruct (negb _); [done|].
  unfold or_domain, or_fail, attempt, EditionInLibrary, exec, mbind, stM_bind. destruct fault; [done|]. cbn.
  case_bool_decide as Hsel; [|done]. intros _.
  destruct (select _ (library_entries db)) as [|[id e] l] eqn:E; [done|].
  assert ((id, e) ∈ select (fun _ r => String.eqb (le_editionID (en_entry r)) ed && String.eqb (en_library_id r) lib)
    (library_entries db)) as Hin by (rewrite E; by left).
  unfold select in Hin. apply elem_of_map_to_list, map_lookup_filter_Some in Hin as [Hl Hp]. cbn in Hp.
  apply andb_true_iff in Hp as [H1%String.eqb_eq H2%String.eqb_eq]. eauto.
Qed.

Lemma pure_acquire {A} (r : Result A) f : pure (or_fail (reading (fun _ : reading_db => r)) f).
Proof. intros db. by destruct r. Qed.
Lemma acquire_run {A} (r : Result A) f (db : reading_db) a :
  (or_fail (reading (fun _ : reading_db => r)) f db).1 = Ok a -> r = Ok a.
Proof. by destruct r; intros [= ->]. Qed.

Section content.
Context `{CaseTables} `{FoldTable} `{Containers} `{TextDecoders} `{HtmlLibraries}.

(** How an entry is served: through a sanitiser, as structural XML, or raw if
    it is an image that is not SVG or a font. *)
Inductive served (name data : string) : content_response -> Prop :=
| served_html :
    served name data (mkContentResponse htmlContentType
      (if String.eqb (StyleHash (SanitizeHTML data).2) "" then readerContentCSP
       else readerContentCSP +:+ "; style-src 'self' '" +:+ StyleHash (SanitizeHTML data).2 +:+ "'")
      (SanitizeHTML data).1)
| served_css : served name data (mkContentResponse "text/css; charset=utf-8" readerContentCSP (SanitizeCSS data).1)
| served_xml body tokens :
    NormalizeXML data = Ok body -> xml_decode_tokens body = (tokens, false) -> Forall structural tokens ->
    (exists space local, XStart space local ∈ tokens) ->
    served name data (mkContentResponse "application/xml; charset=utf-8" readerContentXMLCSP body)
| served_image :
    HasPrefix (sniffed data) "image/" = true -> sniffed data <> "image/svg+xml" -> ToLower (Ext name) <> ".svg" ->
    html_ext (ToLower (Ext name)) = false ->
    served name data (mkContentResponse (sniffed data) readerContentCSP data)
| served_font :
    isFontType (sniffed data) (ToLower (Ext name)) = true -> sniffed data <> "text/html" ->
    html_ext (ToLower (Ext name)) = false ->
    served name data (mkContentResponse (fontMIME (ToLower (Ext name)) (sniffed data)) readerContentCSP data).

Lemma serve_html name data ct r :
  ct = htmlContentType ->
  (let '(body, report) := SanitizeHTML data in
   Ok (mkContentResponse ct
         (if String.eqb (StyleHash report) "" then readerContentCSP
          else readerContentCSP +:+ "; style-src 'self' '" +:+ StyleHash report +:+ "'") body) : Result content_response) = Ok r ->
  served name data r.
Proof.
  intros ->. pose proof (served_html name data) as Hs. destruct (SanitizeHTML data) as [body report].
  by intros [= <-].
Qed.

Lemma serve_entry_ok name data r : serve_entry name data = Ok r -> served name data r.
Proof.
  unfold serve_entry, Classify.
  destruct (String.eqb_spec (sniffed data) "text/html") as [|Hh]; [by apply serve_html|].
  destruct (html_ext (ToLower (Ext name))) eqn:Ee; [by apply serve_html|]. cbn [orb].
  destruct (_ && HasPrefix _ "text/"); [intros [= <-]; constructor|].
  destruct (String.eqb_spec (sniffed data) "image/svg+xml") as [|Hs]; [done|].
  destruct (String.eqb_spec (ToLower (Ext name)) ".svg") as [|Hs']; [done|]. cbn [orb].
  destruct (_ || _).
  - unfold classifyXML. destruct (NormalizeXML data) as [body|e|] eqn:En; cbn [mbind res_bind]; [|done..].
    destruct (xml_decode_tokens body) as [tokens failed] eqn:Et.
    destruct (classify_tokens tokens failed true) as [[k ct]|e|] eqn:Ec; [|done..].
    pose proof Ec as [[-> ->]| ->]%classify_tokens_kind; [by apply serve_html|].
    apply classify_tokens_xml in Ec as (-> & Hf & -> & Hr). intros [= <-]. by eapply served_xml; eauto.
  - destruct (HasPrefix (sniffed data) "image/") eqn:Ei; [intros [= <-]; by apply served_image|].
    destruct (isFontType _ _) eqn:Ef; [intros [= <-]; by apply served_font | done].
Qed.

(** C10: what the content route gives out.  A success is for a signed-in
    account, of an edition the active library has an entry for, under a path
    that means nothing outside the book, and is the entry of that very name,
    within 200 MiB: sanitised when it is markup or a style sheet, structural
    when it is XML, and raw only when it is an image that is not SVG, or a
    font.  And whatever happens, the store is as it was. *)
Theorem ReaderContentHandler_serves cache deps fault ctx editionID p db :
  match ReaderContentHandler cache deps fault ctx editionID p db with
  | (Ok r, db') =>
      db' = db /\ inside p /\ is_Some (ctx_user ctx) /\
      (exists id e, library_entries db !! id = Some e /\ le_editionID (en_entry e) = editionID /\
         en_library_id e = ActiveLibraryFromContext ctx) /\
      exists acquire entries entry,
        cache = Some acquire /\ acquire editionID = Ok entries /\ entry ∈ entries /\ ze_Name entry = p /\
        len (ze_data entry) <= MaxDecompressedReadBytes /\ served p (ze_data entry) r
  | (_, db') => db' = db
  end.
Proof.
  unfold ReaderContentHandler. destruct cache as [acquire|]; [|done].
  destruct (edition_required editionID); [done|].
  rewrite bind_pure by apply pure_checked. destruct (checked _ db).1 as [[]| |] eqn:Ep; [|done..].
  apply checked_ok, ValidateResourcePath_ok in Ep. destruct deps as [deps|]; [|done].
  destruct (ctx_user ctx) as [user|] eqn:Eu; [|done].
  rewrite bind_pure by apply pure_assert_edition.
  destruct (assertEditionInLibrary _ _ _ _ db).1 as [u| |] eqn:Ea; [|done..].
  apply assert_edition_ok in Ea.
  rewrite bind_pure by apply pure_acquire. destruct (or_fail _ _ db).1 as [entries| |] eqn:Ec; [|done..].
  apply acquire_run in Ec.
  rewrite bind_pure by apply pure_checked. destruct (checked _ db).1 as [entry| |] eqn:Ef; [|done..].
  apply checked_ok, FindEntry_ok in Ef as [Hin Hname].
  rewrite bind_pure by apply pure_checked. destruct (checked (ReadEntry _) db).1 as [data| |] eqn:Er; [|done..].
  apply checked_ok, ReadEntry_ok in Er as (-> & Hlen & _).
  pose proof (pure_checked (serve_entry (ze_Name entry) (ze_data entry)) db) as Hdb.
  destruct (checked (serve_entry (ze_Name entry) (ze_data entry)) db) as [[r| |] db'] eqn:Es; cbn in Hdb; [|done..].
  apply (f_equal fst), checked_ok, serve_entry_ok in Es. rewrite Hname in Es. subst db'.
  split_and!; try done. by exists acquire, entries, entry.
Qed.
End content.

(** ** The grant *)

Lemma CutPrefix_app p s : CutPrefix (p +:+ s) p = Some s.
Proof. by apply CutPrefix_Some. Qed.

Lemma Cut_app c a b : contains_char c a = false -> Cut c (a +:+ String c b) = Some (a, b).
Proof.
  induction a as [|d a IH]; [intros _; rewrite str_app_nil_l; cbn; by rewrite Ascii.eqb_refl|].
  cbn [contains_char]. intros [Hd Ha]%orb_false_iff. rewrite str_app_cons. cbn [Cut]. by rewrite Hd, IH.
Qed.

Lemma content_path_edition ed tail :
  edition_required ed = false -> readerContentEditionFromPath (readerContentCookiePath ed +:+ tail) = Some ed.
Proof.
  unfold edition_required. intros [Hne Hc]%orb_false_iff.
  unfold readerContentEditionFromPath, readerContentCookiePath. rewrite !str_app_assoc, CutPrefix_app.
  cbn [mbind option_bind]. change ("/reader/content/" +:+ tail) with (String "/" ("reader/content/" +:+ tail)).
  rewrite Cut_app by done. cbn [mbind option_bind]. rewrite Hne.
  by rewrite (prefix_app "reader/content/" tail).
Qed.

Lemma content_path_private ed tail : IsPublicPath (readerContentCookiePath ed +:+ tail) = false.
Proof. reflexivity. Qed.

Section grant.
Context `{TokenPrimitives}.

Lemma reader_content_own g userID lib ed issuedAt now token x :
  forallb valid_utf8 [lib; ed; userID; g_issuer g] = true ->
  SignReaderContent g userID lib ed issuedAt = Ok (token, x) ->
  VerifyReaderContent g token now =
    if Unix (issuedAt + 15 * Minute) <=? Unix now then Err (New "auth: reader content grant expired")
    else Ok (mkReaderContentClaims TokenTypeReaderContent userID lib ed (Unix issuedAt)
               (Unix (issuedAt + 15 * Minute)) (g_issuer g)).
Proof.
  intros Hv. simpl in Hv. bool_to_prop. unfold SignReaderContent. destruct (_ || _) eqn:E; [done|]. intros [= <- _].
  unfold VerifyReaderContent. rewrite verified_own. cbn [mbind res_bind]. rewrite json_parse_text.
  2: { unfold object_utf8. simpl. by repeat (apply andb_true_iff; split). }
  cbn [mbind option_bind]. rewrite reader_roundtrip. cbn -[String.eqb Unix Minute Z.mul].
  rewrite String.eqb_refl. unfold Add, ReaderContentGrantTTL. destruct (_ <=? _); [done|].
  by rewrite String.eqb_refl, andb_false_r, E.
Qed.

Lemma hs256Sign_nonempty k o : hs256Sign k o <> "".
Proof. unfold hs256Sign. cbv zeta. by intros [_ [=]]%str_app_nil_inv. Qed.

(** A run of [ReaderSessionHandler] that answers a cookie. *)
Lemma session_cookie grants deps fault ctx now secure ed db c db' :
  ReaderSessionHandler grants deps fault ctx now secure ed db = (Ok c, db') ->
  db' = db /\ edition_required ed = false /\
  exists user g d, ctx_user ctx = Some user /\ grants = Some g /\ deps = Some d /\
    (assertEditionInLibrary d fault ed (ActiveLibraryFromContext ctx) db).1 = Ok tt /\
    gc_Path c = readerContentCookiePath ed /\
    SignReaderContent g (au_UserID user) (ActiveLibraryFromContext ctx) ed now = Ok (gc_Value c, gc_Expires c).
Proof.
  unfold ReaderSessionHandler. destruct (edition_required ed); [done|].
  destruct (ctx_user ctx) as [user|]; [|done]. destruct grants as [g|]; [|done]. destruct deps as [d|]; [|done].
  cbv zeta. rewrite bind_pure by apply pure_assert_edition.
  destruct (assertEditionInLibrary _ _ _ _ db).1 as [[]| |] eqn:Ea; [|done..].
  destruct (SignReaderContent _ _ _ _ _) as [[token x]| |] eqn:Es; [|done..].
  intros [= <- <-]. split_and!; try done. by exists user, g, d.
Qed.

(** C11: the grant a reader asks for opens the book it asked for and no other.
    With the cookie of a session and no Authorization header, a GET of the
    edition's content passes the middleware as the same account in the same
    library, which the store already showed to have the book, until the second
    the grant runs out in; and a request for anything else that is not public
    is refused. *)
Theorem ReaderSession_opens_book signer g deps fault ctx now secure ed db c db' user :
  ReaderSessionHandler (Some g) deps fault ctx now secure ed db = (Ok c, db') -> ctx_user ctx = Some user ->
  forallb valid_utf8 [ActiveLibraryFromContext ctx; ed; au_UserID user; g_issuer g] = true ->
  (forall r ctx0 now' tail,
     r_method r = "GET" -> r_authorization r = "" -> r_readerCookie r = Some (gc_Value c) ->
     r_path r = gc_Path c +:+ tail -> Unix now' < Unix (gc_Expires c) ->
     exists ctx', AuthMiddlewareWithReaderGrants signer (Some g) now' ctx0 r = Next ctx' /\
       (exists user', ctx_user ctx' = Some user' /\ au_UserID user' = au_UserID user) /\
       ActiveLibraryFromContext ctx' = ActiveLibraryFromContext ctx /\
       exists d, deps = Some d /\ (assertEditionInLibrary d fault ed (ActiveLibraryFromContext ctx') db).1 = Ok tt) /\
  (forall r ctx0 now',
     r_authorization r = "" -> r_readerCookie r = Some (gc_Value c) -> IsPublicPath (r_path r) = false ->
     readerContentEditionFromPath (r_path r) <> Some ed \/ Unix (gc_Expires c) <= Unix now' ->
     AuthMiddlewareWithReaderGrants signer (Some g) now' ctx0 r =
       Refuse (HTTPError Unauthorized "missing or invalid authorization token")).
Proof.
  intros Hrun Hu Hv. apply session_cookie in Hrun as (-> & Hed & user' & g' & d & Hu' & [= <-] & -> & Ha & Hpath & Hs).
  assert (user' = user) as -> by congruence.
  set (lib := ActiveLibraryFromContext ctx) in *.
  assert (lib <> "" /\ gc_Expires c = now + 15 * Minute) as [Hlib Hx].
  { unfold SignReaderContent in Hs. destruct (_ || _) eqn:E; [done|]. injection Hs as _ <-. split; [|done].
    intros Hl. rewrite Hl in E. by destruct (String.eqb (au_UserID user) ""). }
  assert (forall now', VerifyReaderContent g (gc_Value c) now' =
    if Unix (gc_Expires c) <=? Unix now' then Err (New "auth: reader content grant expired")
    else Ok (mkReaderContentClaims TokenTypeReaderContent (au_UserID user) lib ed (Unix now)
               (Unix (now + 15 * Minute)) (g_issuer g))) as Hver.
  { intros now'. rewrite Hx in *. by eapply reader_content_own. }
  assert (gc_Value c <> "") as Hval.
  { intros E. rewrite E in Hs. unfold SignReaderContent in Hs. destruct (_ || _); [done|]. injection Hs as Hs _.
    by apply hs256Sign_nonempty in Hs. }
  split.
  - intros r ctx0 now' tail Hm Hauth Hck Hp Ht. rewrite Hpath in Hp. unfold AuthMiddlewareWithReaderGrants.
    rewrite Hp, content_path_private, Hauth. cbn [String.eqb]. unfold readerContentGrantContext.
    rewrite Hm, Hp, content_path_edition by done. cbn [String.eqb negb andb mbind option_bind].
    replace (String.eqb "GET" "GET") with true by done. cbn [negb andb]. rewrite Hck.
    destruct (gc_Value c) as [|a v] eqn:Ev; [done|]. rewrite <- Ev in *. rewrite Hver.
    rewrite (proj2 (Z.leb_gt _ _) Ht). cbn [rc_EditionID]. rewrite String.eqb_refl. cbn [negb].
    eexists. split; [reflexivity|]. cbn [ctx_user rc_Subject]. split; [by eexists|].
    assert (ActiveLibraryFromContext (mkContext (Some (mkAuthenticatedUser (au_UserID user) "" "" [lib])) (Some lib)) = lib) as Hl.
    { unfold ActiveLibraryFromContext. cbn. by destruct lib. }
    cbn [rc_LibraryID]. rewrite Hl. split; [done|]. by exists d.
  - intros r ctx0 now' Hauth Hck Hpub Hno. unfold AuthMiddlewareWithReaderGrants. rewrite Hpub, Hauth.
    replace (String.eqb "" "") with true by done.
    assert (readerContentGrantContext r g now' = None) as ->; [|done].
    unfold readerContentGrantContext. destruct (_ && _); [done|].
    destruct (readerContentEditionFromPath (r_path r)) as [ed'|]; [|done]. cbn [mbind option_bind]. rewrite Hck.
    destruct (gc_Value c) as [|a v] eqn:Ev; [done|]. rewrite <- Ev in *. rewrite Hver.
    destruct (Z.leb_spec (Unix (gc_Expires c)) (Unix now')); [done|]. cbn [rc_EditionID].
    destruct (String.eqb_spec ed ed') as [->|]; [|done]. destruct Hno; [congruence | lia].
Qed.
End grant.

(** ** Opening a book *)

Section opening.
Context `{Containers}.

(** Opening a book leaves exactly one spooled file when it succeeds, whose
    cleaning up is the cache's, and none when it fails; a success is of an
    edition some library owns, from the stream of one of its offerings whose
    source answered, and of an archive of at most ten thousand entries; each
    failure is the repositories' or a domain error, never a bare one. *)
Theorem LoadBook_outcome r op editionID files :
  match LoadBook r op editionID files with
  | (Ok entries, files') =>
      files' = S files /\ (length entries <= MaxZipEntryCount)%nat /\
      (exists e, rs_ownership r editionID = Ok e) /\
      exists offs off stream data,
        rs_offerings r editionID = Ok offs /\ off ∈ offs /\
        rs_sources r (o_sourceID off) (o_fileReference off) = Ok (Some stream) /\
        stream_ends stream data /\ len data <= MaxRawSpoolBytes /\ zip_entries data = Some entries
  | (Err e, files') =>
      files' = files /\
      (rs_ownership r editionID = Err e \/ rs_offerings r editionID = Err e \/ domain_error e = Some e)
  | (OutOfFuel, _) =>
      rs_ownership r editionID = OutOfFuel \/ rs_offerings r editionID = OutOfFuel \/
      exists stream, Forall (fun s => rd_end s = ReadMore) stream /\
        len (String.concat "" (rd_data <$> stream)) <= MaxRawSpoolBytes
  end.
Proof.
  unfold LoadBook. unfold mbind at 1, stM_bind at 1, reading at 1.
  destruct (rs_ownership r editionID) as [e|e|] eqn:Eo; [|by auto..].
  unfold mbind at 1, stM_bind at 1, reading at 1.
  destruct (rs_offerings r editionID) as [offs|e'|] eqn:Ef; [|by auto..].
  destruct offs as [|o offs]; [cbn; auto|].
  destruct (first_stream r (o :: offs)) as [stream|] eqn:Es; [|cbn; auto].
  assert (exists off, off ∈ o :: offs /\ rs_sources r (o_sourceID off) (o_fileReference off) = Ok (Some stream))
    as (off & Hoff & Hstream).
  { revert Es. generalize (o :: offs). induction l as [|x l IH]; cbn [first_stream]; [done|].
    destruct (rs_sources r (o_sourceID x) (o_fileReference x)) as [[s|]| |] eqn:E;
      [intros [= ->]; exists x; split; [by left | done] | | |];
      intros (off & Hin & Hs)%IH; exists off; (split; [by right | done]). }
  unfold mbind, stM_bind, materialized.
  pose proof (Materialize_spooled (op_spool op) stream files) as Hm.
  destruct (Materialize (op_spool op) stream files) as [[data|err|] files']; cbn in *.
  - destruct Hm as (-> & Hlen & Hend). unfold open_spooled. destruct (op_stat op); [cbn; auto|].
    destruct (zip_entries data) as [entries|] eqn:Ez; [|cbn; auto].
    destruct (Nat.ltb_spec MaxZipEntryCount (length entries)); [cbn; auto|].
    split_and!; [done|done|eauto|]. exists (o :: offs), off, stream, data. by split_and!.
  - split; [done|]. right; right. unfold materializeError. repeat (destruct (Is err _); [done|]).
    destruct (domain_error err) as [derr|] eqn:Ed; [|done].
    clear -Ed. induction err; cbn in Ed |- *; try done; auto. by injection Ed as <-.
  - right; right. by exists stream.
Qed.
End opening.

(** ** A grant at work *)

#[local] Existing Instance demo_primitives.

Definition demo_reader : context :=
  mkContext (Some (mkAuthenticatedUser "u1" "ada" "reader" ["lib"])) (Some "lib").
Definition demo_api : ReadingAPI := mkReadingAPI (fun _ => Err (New "none")) None true false.
Definition demo_owned : reading_db :=
  mkReadingDb ∅ ∅ ∅ ∅ {["le" := mkEntryRow "lib" (mkLibraryEntry "le" "e1" 0)]} ∅ ∅ ∅.

Lemma ReaderSession_opens_book_witness :
  let g := mkGrantSigner "k" "alx" in
  let c := match (ReaderSessionHandler (Some g) (Some demo_api) None demo_reader 0 true "e1" demo_owned).1 with
           | Ok c => c | _ => mkGrantCookie "" "" 0 0 false end in
  exists ctx', AuthMiddlewareWithReaderGrants demo_signer (Some g) Minute (mkContext None None)
      (mkRequest (gc_Path c +:+ "OEBPS/chapter1.xhtml") "GET" "" "" (Some (gc_Value c))) = Next ctx' /\
    ActiveLibraryFromContext ctx' = "lib".
Proof.
  intros g c.
  destruct (ReaderSession_opens_book demo_signer g (Some demo_api) None demo_reader 0 true "e1" demo_owned c demo_owned
    (mkAuthenticatedUser "u1" "ada" "reader" ["lib"])) as [Hok _];
    [by vm_compute | done | by vm_compute |].
  destruct (Hok (mkRequest (gc_Path c +:+ "OEBPS/chapter1.xhtml") "GET" "" "" (Some (gc_Value c))) (mkContext None None)
    Minute "OEBPS/chapter1.xhtml") as (ctx' & Hn & _ & Hl & _); [done..|by vm_compute|].
  exists ctx'. split; [exact Hn | exact Hl].
Defined.
