(* ===== verification/OpenLibrary.v ===== *)
(** * Open Library (src/internal/adapters/openlibrary)

    What its answers are normalised into, and the client: the limiter every
    request waits for, one request, and the three lookups made of requests.
    The decoding of JSON, the network and the bucket of tokens are classes. *)

From S2P Require Import Prelude GoStrings Regex Floats Errors Validate Net Sources.

Local Open Scope string_scope.
Local Open Scope list_scope.
Local Open Scope Z_scope.

(** ** The vocabulary (types.go) *)

Record NormalisedAuthor := mkNormalisedAuthor {
  na_OpenLibraryAuthorKey : option string;
  na_Name : string;
}.
Record NormalisedSearchResult := mkNormalisedSearchResult {
  nr_OpenLibraryWorkKey : string;
  nr_Title : string;
  nr_Authors : list NormalisedAuthor;
  nr_FirstPublishYear : option Z;
  nr_CoverURL : option string;
  nr_EditionCount : Z;
}.
Record NormalisedSearchResponse := mkNormalisedSearchResponse {
  ns_Items : list NormalisedSearchResult;
  ns_Total : Z;
  ns_Limit : Z;
  ns_Offset : Z;
}.
Record NormalisedWork := mkNormalisedWork {
  nw_Title : string;
  nw_Subtitle : string;
  nw_Description : string;
  nw_Subjects : list string;
  nw_Authors : list NormalisedAuthor;
  nw_CoverURL : option string;
}.
Record NormalisedEdition := mkNormalisedEdition {
  ne_Title : string;
  ne_Publisher : string;
  ne_PublishDate : string;
  ne_Language : string;
  ne_OpenLibraryEditionKey : string;
  ne_CoverURL : option string;
}.
Record DiscoverWorkDetail := mkDiscoverWorkDetail {
  dw_Work : NormalisedWork;
  dw_Editions : list NormalisedEdition;
}.

(** ** Decoded documents

    A value as [json.Unmarshal] leaves it in an [any]; the keys of an object
    are distinct, as those of a Go map are. *)
#[local] Set Warnings "-register-all".
Inductive json :=
| JsonNull
| JsonBool (b : bool)
| JsonNumber (f : float64)
| JsonString (s : string)
| JsonArray (l : list json)
| JsonObject (fields : list (string * json)).

Abbreviation document := (list (string * json)) (only parsing).

Definition field (doc : document) (k : string) : option json :=
  snd <$> List.find (fun kv => String.eqb kv.1 k) doc.
(** [doc[k].(string)], the zero value when it is not one. *)
Definition string_at (doc : document) (k : string) : string :=
  match field doc k with Some (JsonString s) => s | _ => "" end.
Definition array_at (doc : document) (k : string) : option (list json) :=
  match field doc k with Some (JsonArray l) => Some l | _ => None end.
Definition strings_of (l : list json) : list string :=
  omap (fun v => match v with JsonString s => Some s | _ => None end) l.

(** The bodies decoded into the structs that ask for them; [float_other] is
    the conversion to [int64] of a [float64] beyond its range, which Go leaves
    to the platform. *)
Class OpenLibraryJSON := {
  search_json : string -> option (Z * list document);
  work_json : string -> option document;
  author_keys_json : string -> option (list (string * string));
  author_json : string -> option string;
  editions_json : string -> option (list document);
  float_other : float64 -> Z;
}.

(** The integer part. *)
Definition f64_trunc (x : float64) : Z :=
  match x with
  | S754_finite s m e =>
      let v := if 0 <=? e then Zpos m * 2 ^ e else Zpos m / 2 ^ (- e) in
      if s then - v else v
  | _ => 0
  end.

(** ** Normalisation (normalizer.go) *)

Definition ol_key (kind : Z) : re :=
  RCat (RString [79; 76]) (RCat (RPlus (RClass [digits])) (RChar kind)).
Definition openLibraryWorkIDRegex : re := ol_key 87.
Definition openLibraryAuthorIDRegex : re := ol_key 65.
Definition openLibraryEditionIDRegex : re := ol_key 77.

Definition IsValidWorkKey (id : string) : bool := MatchString openLibraryWorkIDRegex id.

Definition CleanKey (raw : string) : string :=
  TrimPrefix (TrimPrefix (TrimPrefix (TrimPrefix (TrimSpace raw) "/works/") "/books/") "/authors/") "/languages/".

Definition containsDisallowedControlChars (s : string) : bool :=
  existsb (fun r => IsControl r && negb (r =? 10) && negb (r =? 13) && negb (r =? 9)) (runes s).

Definition validateTitle (raw : string) : option string :=
  let trimmed := TrimSpace raw in
  if String.eqb trimmed "" || (500 <? rune_count trimmed) || containsDisallowedControlChars trimmed
  then None else Some trimmed.

Definition validateSubtitle (raw : string) : string :=
  let trimmed := TrimSpace raw in
  if (500 <? rune_count trimmed) || containsDisallowedControlChars trimmed then "" else trimmed.

Definition extractDescription (raw : option json) : string :=
  let text := match raw with
              | Some (JsonString v) => v
              | Some (JsonObject v) => string_at v "value"
              | _ => ""
              end in
  let trimmed := TrimSpace text in
  if (100000 <? rune_count trimmed) || containsDisallowedControlChars trimmed then "" else trimmed.

(** The loop over the subjects, those kept so far first. *)
Fixpoint subjects_loop (l : list json) (subjects : list string) : list string :=
  match l with
  | [] => subjects
  | JsonString str :: l' =>
      let trimmed := TrimSpace str in
      if String.eqb trimmed "" || (100 <? rune_count trimmed) || containsDisallowedControlChars trimmed
      then subjects_loop l' subjects
      else if bool_decide (trimmed ∈ subjects) then subjects_loop l' subjects
      else subjects_loop l' (subjects ++ [trimmed])
  | _ :: l' => subjects_loop l' subjects
  end.
Definition validateSubjects (raw : option json) : list string :=
  match raw with Some (JsonArray l) => subjects_loop l [] | _ => [] end.

Definition validateLanguage (raw : string) : string :=
  let trimmed := TrimSpace (CleanKey raw) in
  if is_ok (ValidateLanguageTag trimmed) then trimmed else "".

Section normalise.
Context `{OpenLibraryJSON}.

Definition int_of_float (x : float64) : Z :=
  let t := f64_trunc x in if bool_decide (in_int64 t) then t else float_other x.

Definition formatCoverURL (coverID : option json) : option string :=
  let num := match coverID with
             | Some (JsonNumber v) => int_of_float v
             | Some (JsonString v) => default 0 (Atoi v)
             | _ => 0
             end in
  if num <=? 0 then None else Some ("/api/v1/discover/covers/" +:+ itoa num).

(** The author at position [i] of the two lists. *)
Definition author_at (names keys : list string) (i : nat) : option NormalisedAuthor :=
  let name := match names !! i with Some n => TrimSpace n | None => "" end in
  if String.eqb name "" || containsDisallowedControlChars name then None
  else
    let key := k ← keys !! i;
               let k := CleanKey k in
               if MatchString openLibraryAuthorIDRegex k then Some k else None in
    Some (mkNormalisedAuthor key name).
Definition search_authors (doc : document) : list NormalisedAuthor :=
  let names := strings_of (default [] (array_at doc "author_name")) in
  let keys := strings_of (default [] (array_at doc "author_key")) in
  omap (author_at names keys) (seq 0 (Nat.max (length names) (length keys))).

Definition positive_year (doc : document) : option Z :=
  match field doc "first_publish_year" with
  | Some (JsonNumber yr) => if fgt yr f64_zero then Some (int_of_float yr) else None
  | _ => None
  end.
Definition edition_count (doc : document) : Z :=
  match field doc "edition_count" with
  | Some (JsonNumber ed) => if fge ed f64_zero then int_of_float ed else 0
  | _ => 0
  end.

(** The loop over the documents; a key counts as seen before its title is
    looked at. *)
Fixpoint search_loop (docs : list document) (seenKeys : list string) : list NormalisedSearchResult :=
  match docs with
  | [] => []
  | doc :: docs' =>
      let workKey := CleanKey (string_at doc "key") in
      if negb (IsValidWorkKey workKey) then search_loop docs' seenKeys
      else if bool_decide (workKey ∈ seenKeys) then search_loop docs' seenKeys
      else
        let rest := search_loop docs' (workKey :: seenKeys) in
        match validateTitle (string_at doc "title") with
        | None => rest
        | Some title =>
            mkNormalisedSearchResult workKey title (search_authors doc) (positive_year doc)
              (formatCoverURL (field doc "cover_i")) (edition_count doc) :: rest
        end
  end.

Definition NormaliseSearchResponse (body : string) (limit offset : Z) : Result NormalisedSearchResponse :=
  match search_json body with
  | None => fails Unavailable "failed to parse Open Library search response"
  | Some (numFound, docs) => Ok (mkNormalisedSearchResponse (search_loop docs []) numFound limit offset)
  end.

Definition first_cover (doc : document) : option string :=
  match array_at doc "covers" with Some (c :: _) => formatCoverURL (Some c) | _ => None end.

Definition NormaliseWork (body : string) : Result NormalisedWork :=
  match work_json body with
  | None => fails Unavailable "failed to parse Open Library work response"
  | Some raw =>
      match validateTitle (string_at raw "title") with
      | None => fails Internal "upstream Open Library work record is missing a valid title"
      | Some title =>
          Ok (mkNormalisedWork title (validateSubtitle (string_at raw "subtitle"))
                (extractDescription (field raw "description")) (validateSubjects (field raw "subjects")) []
                (first_cover raw))
      end
  end.

Fixpoint author_keys_loop (authors : list (string * string)) (keys : list string) : list string :=
  match authors with
  | [] => keys
  | (a_key, author_key) :: authors' =>
      let key := CleanKey (if String.eqb author_key "" then a_key else author_key) in
      if negb (MatchString openLibraryAuthorIDRegex key) then author_keys_loop authors' keys
      else if bool_decide (key ∈ keys) then author_keys_loop authors' keys
      else author_keys_loop authors' (keys ++ [key])
  end.
Definition ExtractAuthorKeys (body : string) : list string :=
  match author_keys_json body with None => [] | Some authors => author_keys_loop authors [] end.

Definition NormaliseAuthor (key body : string) : Result NormalisedAuthor :=
  match author_json body with
  | None => fails Unavailable "failed to parse author response"
  | Some raw =>
      let name := TrimSpace raw in
      if String.eqb name "" || containsDisallowedControlChars name
      then fails Unavailable "invalid author name"
      else Ok (mkNormalisedAuthor (Some (CleanKey key)) name)
  end.

(** A text of an entry, or nothing when it is too long or not clean. *)
Definition bounded_text (raw : string) (maxLen : Z) : string :=
  let p := TrimSpace raw in
  if negb (containsDisallowedControlChars p) && (rune_count p <=? maxLen) then p else "".

Definition edition_language (entry : document) : string :=
  match array_at entry "languages" with
  | Some (JsonObject lmap :: _) =>
      match field lmap "key" with Some (JsonString lkey) => validateLanguage lkey | _ => "" end
  | _ => ""
  end.

Definition normalise_edition (entry : document) : option NormalisedEdition :=
  let editionKey := CleanKey (string_at entry "key") in
  if negb (MatchString openLibraryEditionIDRegex editionKey) then None
  else
    title ← validateTitle (string_at entry "title");
    let publisher := match array_at entry "publishers" with
                     | Some (JsonString p :: _) => bounded_text p 200
                     | _ => ""
                     end in
    let publishDate := match field entry "publish_date" with
                       | Some (JsonString pd) => bounded_text pd 100
                       | _ => ""
                       end in
    Some (mkNormalisedEdition title publisher publishDate (edition_language entry) editionKey
            (first_cover entry)).

(** The loop stops at fifty editions. *)
Fixpoint editions_loop (entries : list document) (editions : list NormalisedEdition)
    : list NormalisedEdition :=
  match entries with
  | [] => editions
  | entry :: entries' =>
      if Nat.leb 50 (length editions) then editions
      else match normalise_edition entry with
      | None => editions_loop entries' editions
      | Some e => editions_loop entries' (editions ++ [e])
      end
  end.
Definition NormaliseEditions (body : string) : Result (list NormalisedEdition) :=
  match editions_json body with
  | None => fails Unavailable "failed to parse Open Library editions response"
  | Some entries => Ok (editions_loop entries [])
  end.
End normalise.

(** ** Addresses (dial.go) *)

Definition maxRedirectHops : Z := 5.

Definition blockedResolvedIP (ip : option IP) : bool :=
  match ip with
  | None => true
  | Some ip =>
      if IsLoopback ip || IsPrivate ip || IsUnspecified ip || IsLinkLocalUnicast ip ||
         IsLinkLocalMulticast ip || IsMulticast ip || IsInterfaceLocalMulticast ip then true
      else if cgnat ip then true
      else false
  end.

(** Of the requests a redirect was followed through. *)
Definition capRedirects (via : Z) : Result unit :=
  if maxRedirectHops <=? via
  then Err (New ("openlibrary: stopped after " +:+ itoa maxRedirectHops +:+ " redirects")) else Ok tt.

(** The [Control] hook of [guardedTransport]'s dialer, on the address about to
    be dialled. *)
Definition blockedAddressError (addr : string) : error :=
  New ("openlibrary: refusing to connect to non-public address " +:+ addr).
Definition ol_dial_control `{Addresses} (address : string) : Result unit :=
  match SplitHostPort address with
  | Err _ | OutOfFuel => Err (blockedAddressError address)
  | Ok (host, _) =>
      match ParseIP host with
      | None => Err (blockedAddressError host)
      | Some ip => if blockedResolvedIP (Some ip) then Err (blockedAddressError host) else Ok tt
      end
  end.

(** ** The client (client.go, ratelimit.go) *)

Definition defaultOpenLibraryBaseURL : string := "https://openlibrary.org".
Definition defaultCoversBaseURL : string := "https://covers.openlibrary.org".
Definition maxMetadataResponseBytes : Z := 5 * 1024 * 1024.
Definition maxCoverResponseBytes : Z := 10 * 1024 * 1024.

(** What comes of a request: it cannot be built, it fails, or there is a
    response, whose body yields [data] and may then fail. *)
Inductive ol_answer :=
| OLUnbuilt (msg : string)
| OLFailed
| OLResponse (status : Z) (contentType data : string) (fails : bool).

(** [grants] says whether the bucket has a token within the time a request
    waits for one, after the requests made so far. *)
Class OpenLibraryServer := {
  grants : list string -> bool;
  answers : string -> ol_answer;
}.

(** The requests made and those that wait. *)
Record ol_wire := mkOlWire { ol_requests : list string; ol_activeWaiters : Z }.

Record OLClient := mkOLClient {
  oc_baseURL : string;
  oc_coversBaseURL : string;
  oc_waiterCap : Z;
}.

(** [strings.TrimRight(url, "/")]. *)
Fixpoint drop_slashes (l : list ascii) : list ascii :=
  match l with c :: l' => if Ascii.eqb c "/" then drop_slashes l' else l | [] => [] end.
Definition trim_slashes (url : string) : string :=
  String.string_of_list_ascii (rev (drop_slashes (rev (String.list_ascii_of_string url)))).

Definition NewClient (baseURL covers : string) (waiterCap : Z) : OLClient :=
  mkOLClient (trim_slashes (if String.eqb baseURL "" then defaultOpenLibraryBaseURL else baseURL))
    (if String.eqb covers "" then defaultCoversBaseURL else trim_slashes covers) waiterCap.

Section client.
Context `{OpenLibraryJSON} `{OpenLibraryServer} `{Urls}.
Abbreviation olM := (stM ol_wire error) (only parsing).

(** The count of those that wait is the same after as before. *)
Definition Wait (waiterCap : Z) : olM unit := fun w =>
  let current := ol_activeWaiters w + 1 in
  if waiterCap <? current then
    (fails Unavailable "Open Library rate limit queue is full, try again shortly", w)
  else if negb (grants (ol_requests w)) then
    (fails Unavailable "Open Library is busy, request timed out waiting for rate limit token", w)
  else (Ok tt, w).

Definition send (url : string) : olM ol_answer := fun w =>
  (Ok (answers url), mkOlWire (ol_requests w ++ [url]) (ol_activeWaiters w)).

Definition doRequest (c : OLClient) (reqURL : string) (maxBytes : Z) : olM (string * string) :=
  _ ← Wait (oc_waiterCap c);
  match answers reqURL with
  | OLUnbuilt msg => throw (mkErr Internal ("failed to create request: " +:+ msg))
  | _ =>
      resp ← send reqURL;
      match resp with
      | OLResponse status contentType data failing =>
          if negb (status =? 200) then
            if status =? 404 then throw (mkErr NotFound "resource not found on Open Library")
            else throw (mkErr Unavailable ("Open Library returned HTTP " +:+ itoa status))
          else if maxBytes <? len data then
            throw (mkErr Unavailable "Open Library response exceeded maximum size limit")
          else if failing then throw (mkErr Unavailable "failed to read Open Library response body")
          else mret (data, contentType)
      | _ => throw (mkErr Unavailable "Open Library request failed or timed out")
      end
  end.

Definition search_fields : string :=
  "key,title,author_name,author_key,first_publish_year,cover_i,edition_count,language".

(** [params.Encode]: the parameters by their names. *)
Definition search_url (c : OLClient) (q : string) (limit offset : Z) : string :=
  oc_baseURL c +:+ "/search.json?" +:+ "fields=" +:+ url_QueryEscape search_fields +:+
  "&limit=" +:+ url_QueryEscape (itoa limit) +:+ "&offset=" +:+ url_QueryEscape (itoa offset) +:+
  "&q=" +:+ url_QueryEscape q.

Definition Search (c : OLClient) (q : string) (limit offset : Z) : olM NormalisedSearchResponse :=
  let q := TrimSpace q in
  if String.eqb q "" || (200 <? rune_count q) then
    throw (mkErr InvalidInput "q: must be non-empty and <= 200 characters")
  else
    let limit := if (limit <? 1) || (50 <? limit) then 20 else limit in
    let offset := if offset <? 0 then 0 else offset in
    '(body, _) ← doRequest c (search_url c q limit offset) maxMetadataResponseBytes;
    reading (fun _ => NormaliseSearchResponse body limit offset).

(** A request whose failure counts for nothing. *)
Definition try_request {A} (m : olM A) : olM (option A) := fun w =>
  match m w with (Ok a, w') => (Ok (Some a), w') | (_, w') => (Ok None, w') end.

Definition fetch_editions (c : OLClient) (id : string) : olM (list NormalisedEdition) :=
  r ← try_request (doRequest c (oc_baseURL c +:+ "/works/" +:+ id +:+ "/editions.json?limit=50")
                     maxMetadataResponseBytes);
  match r with
  | Some (body, _) => match NormaliseEditions body with Ok eds => mret eds | _ => mret [] end
  | None => mret []
  end.

Fixpoint fetch_authors (c : OLClient) (keys : list string) : olM (list NormalisedAuthor) :=
  match keys with
  | [] => mret []
  | aKey :: keys' =>
      r ← try_request (doRequest c (oc_baseURL c +:+ "/authors/" +:+ aKey +:+ ".json") maxMetadataResponseBytes);
      rest ← fetch_authors c keys';
      match r with
      | Some (body, _) => match NormaliseAuthor aKey body with Ok a => mret (a :: rest) | _ => mret rest end
      | None => mret rest
      end
  end.

Definition set_authors (authors : list NormalisedAuthor) (w : NormalisedWork) : NormalisedWork :=
  mkNormalisedWork (nw_Title w) (nw_Subtitle w) (nw_Description w) (nw_Subjects w) authors (nw_CoverURL w).

Definition GetWork (c : OLClient) (openLibraryID : string) : olM DiscoverWorkDetail :=
  let id := CleanKey openLibraryID in
  if negb (IsValidWorkKey id) then
    throw (mkErr InvalidInput ("invalid Open Library work key: " +:+ quote id))
  else
    '(workBody, _) ← doRequest c (oc_baseURL c +:+ "/works/" +:+ id +:+ ".json") maxMetadataResponseBytes;
    work ← reading (fun _ => NormaliseWork workBody);
    editions ← fetch_editions c id;
    authors ← fetch_authors c (take 20 (ExtractAuthorKeys workBody));
    mret (mkDiscoverWorkDetail (set_authors authors work) editions).

Definition FetchCover (c : OLClient) (coverID : Z) : olM (string * string) :=
  if coverID <=? 0 then throw (mkErr InvalidInput "coverId must be a positive integer")
  else doRequest c (oc_coversBaseURL c +:+ "/b/id/" +:+ itoa coverID +:+ "-M.jpg?default=false")
         maxCoverResponseBytes.
End client.
