(* ===== verification/MetadataCache.v ===== *)
(** * The caches of Open Library (src/internal/persistence/postgres:
      metadata_cache_repository.go, cover_cache_repository.go)

    Works, authors and editions in the tables of migration 00004, and covers
    in a table and a directory.  The repositories hide the errors of their
    statements behind messages of their own; which statements fail is an
    argument. *)

From S2P Require Import Prelude GoStrings Errors Transactor Postgres Encoding Paths Sources OpenLibrary.

Local Open Scope string_scope.
Local Open Scope list_scope.
Local Open Scope Z_scope.

(** ** Works, authors and editions (metadata_cache_repository.go) *)

Definition MetadataCacheTTL : Duration := 30 * 24 * Hour.

Record metadata_work_row := mkMetadataWorkRow {
  mw_title : string;
  mw_subtitle : string;
  mw_description : string;
  mw_subjects : list string;
  mw_cover_url : option string;
  mw_fetched_at : Time;
}.
Record metadata_author_row := mkMetadataAuthorRow { ma_name : string; ma_fetched_at : Time }.
Record metadata_edition_row := mkMetadataEditionRow {
  me_work_key : string;
  me_title : string;
  me_publisher : string;
  me_publish_date : string;
  me_language : string;
  me_cover_url : option string;
  me_fetched_at : Time;
}.
Record author_link := mkAuthorLink { lk_work_key : string; lk_author_key : string; lk_position : Z }.

Record metadata_db := mkMetadataDb {
  md_works : gmap string metadata_work_row;
  md_authors : gmap string metadata_author_row;
  md_work_authors : list author_link;
  md_editions : gmap string metadata_edition_row;
}.
Abbreviation metadataM := (stM metadata_db error) (only parsing).

(** A statement whose failure is reported as [msg]. *)
Definition stating {S A} (fault : bool) (msg : string) (f : S -> A * S) : stM S error A := fun db =>
  if fault then (fails Internal msg, db) else let '(a, db') := f db in (Ok a, db').
Definition state_write {S} (fault : bool) (msg : string) (f : S -> S) : stM S error unit :=
  stating fault msg (fun db => (tt, f db)).

Definition stale (now fetchedAt : Time) : bool := MetadataCacheTTL <? Sub now fetchedAt.

(** [ORDER BY fetched_at ASC] and [ORDER BY mwa.position ASC]. *)
Definition by_fetched (x y : string * metadata_edition_row) : bool :=
  me_fetched_at x.2 <=? me_fetched_at y.2.
Definition by_position (x y : Z * NormalisedAuthor) : bool := x.1 <=? y.1.

Definition cached_edition (kr : string * metadata_edition_row) : NormalisedEdition :=
  mkNormalisedEdition (me_title kr.2) (me_publisher kr.2) (me_publish_date kr.2) (me_language kr.2) kr.1
    (me_cover_url kr.2).
Definition cached_editions (key : string) (db : metadata_db) : list NormalisedEdition :=
  cached_edition <$> sort_by by_fetched (select (fun _ r => String.eqb (me_work_key r) key) (md_editions db)).

(** The join of the links of a work with the authors. *)
Definition linked_author (key : string) (db : metadata_db) (l : author_link) : option (Z * NormalisedAuthor) :=
  if String.eqb (lk_work_key l) key then
    r ← md_authors db !! lk_author_key l;
    Some (lk_position l, mkNormalisedAuthor (Some (lk_author_key l)) (ma_name r))
  else None.
Definition cached_authors (key : string) (db : metadata_db) : list NormalisedAuthor :=
  (sort_by by_position (omap (linked_author key db) (md_work_authors db))).*2.

(** [None] is a miss. *)
Definition GetCachedWork (faults : nat -> bool) (now : Time) (key : string)
    : metadataM (option DiscoverWorkDetail) :=
  let key := CleanKey key in
  if negb (IsValidWorkKey key) then throw (mkErr InvalidInput "invalid work key")
  else
    row ← stating (faults 0%nat) "failed to query metadata cache" (fun db => (md_works db !! key, db));
    match row with
    | None => mret None
    | Some r =>
        if stale now (mw_fetched_at r) then mret None
        else
          editions ← stating (faults 1%nat) "failed to query metadata editions"
                       (fun db => (cached_editions key db, db));
          authors ← stating (faults 2%nat) "failed to query metadata authors"
                      (fun db => (cached_authors key db, db));
          mret (Some (mkDiscoverWorkDetail
            (mkNormalisedWork (mw_title r) (mw_subtitle r) (mw_description r) (mw_subjects r) authors
               (mw_cover_url r)) editions))
    end.

Definition GetCachedAuthor (fault : bool) (now : Time) (key : string) : metadataM (option NormalisedAuthor) :=
  let key := CleanKey key in
  if String.eqb key "" then mret None
  else
    row ← stating fault "failed to query metadata author" (fun db => (md_authors db !! key, db));
    match row with
    | None => mret None
    | Some r => if stale now (ma_fetched_at r) then mret None
                else mret (Some (mkNormalisedAuthor (Some key) (ma_name r)))
    end.

(** *** The statements of a save *)

Definition upsert_metadata_work (key : string) (w : NormalisedWork) (now : Time) (db : metadata_db) : metadata_db :=
  mkMetadataDb
    (<[key := mkMetadataWorkRow (nw_Title w) (nw_Subtitle w) (nw_Description w) (nw_Subjects w)
                (nw_CoverURL w) now]> (md_works db))
    (md_authors db) (md_work_authors db) (md_editions db).
Definition clear_work_authors (key : string) (db : metadata_db) : metadata_db :=
  mkMetadataDb (md_works db) (md_authors db)
    (List.filter (fun l => negb (String.eqb (lk_work_key l) key)) (md_work_authors db)) (md_editions db).
Definition upsert_metadata_author (key name : string) (now : Time) (db : metadata_db) : metadata_db :=
  mkMetadataDb (md_works db) (<[key := mkMetadataAuthorRow name now]> (md_authors db))
    (md_work_authors db) (md_editions db).

Definition same_link (key akey : string) (l : author_link) : bool :=
  String.eqb (lk_work_key l) key && String.eqb (lk_author_key l) akey.
Definition upsert_link (key akey : string) (pos : Z) (l : list author_link) : list author_link :=
  if existsb (same_link key akey) l
  then (fun k => if same_link key akey k then mkAuthorLink key akey pos else k) <$> l
  else l ++ [mkAuthorLink key akey pos].
Definition link_author (key akey : string) (pos : Z) (db : metadata_db) : metadata_db :=
  mkMetadataDb (md_works db) (md_authors db) (upsert_link key akey pos (md_work_authors db)) (md_editions db).
Definition clear_work_editions (key : string) (db : metadata_db) : metadata_db :=
  mkMetadataDb (md_works db) (md_authors db) (md_work_authors db)
    (delete_where (fun r => String.eqb (me_work_key r) key) (md_editions db)).2.
Definition upsert_metadata_edition (edKey key : string) (ed : NormalisedEdition) (now : Time)
    (db : metadata_db) : metadata_db :=
  mkMetadataDb (md_works db) (md_authors db) (md_work_authors db)
    (<[edKey := mkMetadataEditionRow key (ne_Title ed) (ne_Publisher ed) (ne_PublishDate ed) (ne_Language ed)
                  (ne_CoverURL ed) now]> (md_editions db)).

(** The key an author is stored under, if any. *)
Definition author_row_key (a : NormalisedAuthor) : option string :=
  if String.eqb (TrimSpace (na_Name a)) "" then None
  else match na_OpenLibraryAuthorKey a with
  | None => None
  | Some k => if String.eqb k "" then None
              else let key := CleanKey k in if String.eqb key "" then None else Some key
  end.

Fixpoint save_authors (faults : nat -> bool) (n : nat) (now : Time) (key : string) (pos : Z)
    (authors : list NormalisedAuthor) : metadataM unit :=
  match authors with
  | [] => mret tt
  | a :: authors' =>
      match author_row_key a with
      | None => save_authors faults n now key (pos + 1) authors'
      | Some akey =>
          _ ← state_write (faults n) "failed to upsert metadata author"
                (upsert_metadata_author akey (na_Name a) now);
          _ ← state_write (faults (S n)) "failed to insert metadata work author link"
                (link_author key akey pos);
          save_authors faults (S (S n)) now key (pos + 1) authors'
      end
  end.

Fixpoint save_editions (faults : nat -> bool) (n : nat) (now : Time) (key : string)
    (editions : list NormalisedEdition) : metadataM unit :=
  match editions with
  | [] => mret tt
  | ed :: editions' =>
      let edKey := CleanKey (ne_OpenLibraryEditionKey ed) in
      if String.eqb edKey "" then save_editions faults n now key editions'
      else
        _ ← state_write (faults n) "failed to upsert metadata edition"
              (upsert_metadata_edition edKey key ed now);
        save_editions faults (S n) now key editions'
  end.

(** The outcome of the transaction's own calls. *)
Definition cache_tx (begins commits : bool) : TxOutcome :=
  mkTxOutcome (if begins then None else Some (mkErr Internal "failed to begin transaction"))
    (if commits then None else Some (mkErr Internal "failed to commit metadata transaction")).

(** [faults] tells of the authors' statements, [faults'] of the others. *)
Definition SaveCachedWork (begins commits : bool) (faults faults' : nat -> bool) (now : Time)
    (workKey : string) (detail : option DiscoverWorkDetail) : metadataM unit :=
  let workKey := CleanKey workKey in
  if negb (IsValidWorkKey workKey) then throw (mkErr InvalidInput "invalid work key")
  else match detail with
  | None => mret tt
  | Some detail =>
      InTx (cache_tx begins commits) (
        _ ← state_write (faults' 0%nat) "failed to upsert metadata work"
              (upsert_metadata_work workKey (dw_Work detail) now);
        _ ← state_write (faults' 1%nat) "failed to clear existing work authors" (clear_work_authors workKey);
        _ ← save_authors faults 0 now workKey 0 (nw_Authors (dw_Work detail));
        _ ← state_write (faults' 2%nat) "failed to clear existing work editions" (clear_work_editions workKey);
        save_editions faults' 3 now workKey (dw_Editions detail))
  end.

Definition SaveCachedAuthor (fault : bool) (now : Time) (author : option NormalisedAuthor) : metadataM unit :=
  match author with
  | None => mret tt
  | Some a =>
      match author_row_key a with
      | None => mret tt
      | Some key => state_write fault "failed to upsert metadata author"
                      (upsert_metadata_author key (TrimSpace (na_Name a)) now)
      end
  end.

(** ** Covers (cover_cache_repository.go) *)

Definition DefaultCoverCacheMaxBytes : Z := 500 * 1024 * 1024.

Record cover_row := mkCoverRow {
  cr_file_path : string;
  cr_byte_size : Z;
  cr_content_type : string;
  cr_is_missing : bool;
  cr_fetched_at : Time;
  cr_accessed_at : Time;
}.

(** The table and the files. *)
Record cover_store := mkCoverStore {
  cv_rows : gmap Z cover_row;
  cv_files : gmap string string;
}.
Abbreviation coverM := (stM cover_store error) (only parsing).

Definition with_cover_rows t st := mkCoverStore t (cv_files st).
Definition with_cover_files t st := mkCoverStore (cv_rows st) t.

(** The repository: its directory and its bound. *)
Record CoverCache := mkCoverCache { cc_coversDir : string; cc_maxBytes : Z }.

Definition NewCoverCacheRepository (coversDir : string) (maxBytes : Z) : Result CoverCache :=
  if String.eqb coversDir "" then Err (New "coversDir cannot be empty")
  else Ok (mkCoverCache coversDir (if maxBytes <=? 0 then DefaultCoverCacheMaxBytes else maxBytes)).

Definition positive_cover {A} (coverID : Z) (m : coverM A) : coverM A :=
  if coverID <=? 0 then throw (mkErr InvalidInput "cover ID must be a positive integer") else m.

(** What a lookup of a cover finds. *)
Inductive cover_lookup := CoverMiss | CoverMissing | CoverHit (filePath contentType : string).

Definition or_jpeg (contentType : string) : string :=
  if String.eqb contentType "" then "image/jpeg" else contentType.

Definition touch (coverID : Z) (now : Time) (st : cover_store) : cover_store :=
  with_cover_rows (alter (fun r => mkCoverRow (cr_file_path r) (cr_byte_size r) (cr_content_type r)
                                     (cr_is_missing r) (cr_fetched_at r) now) coverID (cv_rows st)) st.

(** A statement whose error is dropped. *)
Definition try_write {S} (fault : bool) (f : S -> S) : stM S error unit := fun st =>
  (Ok tt, if fault then st else f st).

Definition GetCover (faults : nat -> bool) (now : Time) (coverID : Z) : coverM cover_lookup :=
  positive_cover coverID (
    row ← stating (faults 0%nat) "failed to query cover cache" (fun st => (cv_rows st !! coverID, st));
    match row with
    | None => mret CoverMiss
    | Some r =>
        if cr_is_missing r then mret CoverMissing
        else
          present ← reading (fun st => Ok (bool_decide (is_Some (cv_files st !! cr_file_path r))));
          if negb present then mret CoverMiss
          else
            _ ← try_write (faults 1%nat) (touch coverID now);
            mret (CoverHit (cr_file_path r) (or_jpeg (cr_content_type r)))
    end).

(** *** Eviction *)

(** [COALESCE(SUM(byte_size), 0)] over the covers that are not missing. *)
Definition total_bytes (rows : gmap Z cover_row) : Z :=
  foldr (fun kr n => (if cr_is_missing kr.2 then 0 else cr_byte_size kr.2) + n) 0 (map_to_list rows).

(** [ORDER BY accessed_at ASC]. *)
Definition by_access (x y : Z * cover_row) : bool := cr_accessed_at x.2 <=? cr_accessed_at y.2.
Definition eviction_order (rows : gmap Z cover_row) : list (Z * cover_row) :=
  sort_by by_access (List.filter (fun kr => negb (cr_is_missing kr.2)) (map_to_list rows)).

Fixpoint to_evict (maxBytes total : Z) (l : list (Z * cover_row)) : list (Z * cover_row) :=
  match l with
  | [] => []
  | c :: l' => if maxBytes <? total then c :: to_evict maxBytes (total - cr_byte_size c.2) l' else []
  end.

(** Removing a cover: the file system and the statement may each fail. *)
Definition evict (stuck : string -> bool) (fault : Z -> bool) (st : cover_store) (c : Z * cover_row)
    : cover_store :=
  let path := cr_file_path c.2 in
  let st := if stuck path then st else with_cover_files (delete path (cv_files st)) st in
  if fault c.1 then st else with_cover_rows (delete c.1 (cv_rows st)) st.

(** Which of the calls of an eviction fail: the two queries, the removals of
    files, the deletions of rows. *)
Record evict_faults := mkEvictFaults {
  ef_total : bool;
  ef_list : bool;
  ef_remove : string -> bool;
  ef_delete : Z -> bool;
}.
Definition no_evict_faults : evict_faults := mkEvictFaults false false (fun _ => false) (fun _ => false).

Definition evictIfNeeded (ef : evict_faults) (maxBytes : Z) (st : cover_store) : cover_store :=
  let totalBytes := total_bytes (cv_rows st) in
  if ef_total ef || (totalBytes <=? maxBytes) then st
  else if ef_list ef then st
  else fold_left (evict (ef_remove ef) (ef_delete ef))
         (to_evict maxBytes totalBytes (eviction_order (cv_rows st))) st.

(** *** Saving a cover *)

(** What the operating system makes of the new file: [Some part] is a write
    that fails after [part] of it, or, with [None] there, before creating it. *)
Record save_faults := mkSaveFaults {
  sf_write : option (option string);
  sf_rename : bool;
  sf_insert : bool;
  sf_evict : evict_faults;
}.
Definition no_save_faults : save_faults := mkSaveFaults None false false no_evict_faults.

Definition cover_path (dir : string) (coverID : Z) : string := path_Join [dir; itoa coverID +:+ ".jpg"].
Definition tmp_path (dir : string) (coverID : Z) (randBytes : string) : string :=
  path_Join [dir; "tmp_" +:+ itoa coverID +:+ "_" +:+ hex_EncodeToString randBytes +:+ ".tmp"].

Definition write_cover (coverID : Z) (r : cover_row) (st : cover_store) : cover_store :=
  with_cover_rows (<[coverID := r]> (cv_rows st)) st.

Section covers.
(** [image.DecodeConfig] recognises the bytes. *)
Context (is_image : string -> bool).

Definition SaveCover (c : CoverCache) (sf : save_faults) (randBytes : string) (now : Time) (coverID : Z)
    (contentType data : string) : coverM string :=
  positive_cover coverID (
    if String.eqb data "" then throw (mkErr InvalidInput "cover data is empty")
    else if negb (is_image data) then
      throw (mkErr Unavailable "invalid image format received from upstream")
    else
      let finalPath := cover_path (cc_coversDir c) coverID in
      let tmpPath := tmp_path (cc_coversDir c) coverID randBytes in
      match sf_write sf with
      | Some part =>
          _ ← modify (fun st => match part with
                                | Some part => with_cover_files (<[tmpPath := part]> (cv_files st)) st
                                | None => st
                                end);
          throw (mkErr Internal "failed to write cover file")
      | None =>
          _ ← modify (fun st => with_cover_files (<[tmpPath := data]> (cv_files st)) st);
          if sf_rename sf then
            _ ← modify (fun st => with_cover_files (delete tmpPath (cv_files st)) st);
            throw (mkErr Internal "failed to commit cover file")
          else
            _ ← modify (fun st => with_cover_files (<[finalPath := data]> (delete tmpPath (cv_files st))) st);
            _ ← try_write (sf_insert sf)
                  (write_cover coverID (mkCoverRow finalPath (len data) (or_jpeg contentType) false now now));
            _ ← modify (evictIfNeeded (sf_evict sf) (cc_maxBytes c));
            mret finalPath
      end).
End covers.

Definition MarkMissing (fault : bool) (now : Time) (coverID : Z) : coverM unit :=
  positive_cover coverID (
    state_write fault "failed to mark cover as missing"
      (write_cover coverID (mkCoverRow "" 0 "" true now now))).
