(* ===== verification/Discover.v ===== *)
(** * Looking books up (src/internal/transport/http/discover.go)

    The handlers of searches, works and covers of Open Library, over its
    client and the caches. *)

From S2P Require Import Prelude GoStrings Errors Postgres Http Sources OpenLibrary MetadataCache ReaderContent.

Local Open Scope string_scope.
Local Open Scope list_scope.
Local Open Scope Z_scope.

(** What the handlers work on. *)
Record discover_state := mkDiscoverState {
  ds_metadata : metadata_db;
  ds_covers : cover_store;
  ds_wire : ol_wire;
}.
Abbreviation discoverH := (stM discover_state http_error) (only parsing).

Definition on_metadata {A} (m : stM metadata_db error A) : stM discover_state error A := fun s =>
  let '(r, db) := m (ds_metadata s) in (r, mkDiscoverState db (ds_covers s) (ds_wire s)).
Definition on_covers {A} (m : stM cover_store error A) : stM discover_state error A := fun s =>
  let '(r, st) := m (ds_covers s) in (r, mkDiscoverState (ds_metadata s) st (ds_wire s)).
Definition on_client {A} (m : stM ol_wire error A) : stM discover_state error A := fun s =>
  let '(r, w) := m (ds_wire s) in (r, mkDiscoverState (ds_metadata s) (ds_covers s) w).

(** The domain error in the chain, or else [Unavailable] with [fallback]. *)
Definition discover_error (fallback : string) (e : error) : http_error :=
  match domain_error e with
  | Some (DomainError c m _) => HTTPError c m
  | _ => HTTPError Unavailable fallback
  end.

Definition discover_invalid {A} (msg : string) : discoverH A := throw (HTTPError InvalidInput msg).

(** [strconv.Atoi] of a parameter, when it is given. *)
Definition optional_int (s : string) (default_ : Z) (admitted : Z -> bool) (msg : string) : discoverH Z :=
  if String.eqb s "" then mret default_
  else match Atoi s with
  | Some n => if admitted n then mret n else discover_invalid msg
  | None => discover_invalid msg
  end.

Section handlers.
Context `{OpenLibraryJSON} `{OpenLibraryServer} `{Urls}.

Definition DiscoverSearchHandler (c : OLClient) (q limitStr offsetStr : string)
    : discoverH NormalisedSearchResponse :=
  let q := TrimSpace q in
  _ ← (if String.eqb q "" then discover_invalid "q: search query must be non-empty"
       else if 200 <? rune_count q then discover_invalid "q: search query exceeds maximum length of 200 characters"
       else if containsDisallowedControlChars q then
         discover_invalid "q: search query contains disallowed control characters"
       else mret tt);
  limit ← optional_int limitStr 20 (fun n => (1 <=? n) && (n <=? 50))
            ("limit: invalid value " +:+ quote limitStr +:+ " — must be an integer between 1 and 50");
  offset ← optional_int offsetStr 0 (fun n => 0 <=? n)
             ("offset: invalid value " +:+ quote offsetStr +:+ " — must be a non-negative integer");
  or_fail (on_client (Search c q limit offset)) (discover_error "failed to perform search").

(** Whether the answer came from the cache. *)
Inductive cache_header := CacheHit | CacheMiss.

(** [begins], [commits] and the faults are those of the cache; [now], [now']
    are its clock at the lookup and at the write.  [cached] says whether the
    server has a cache. *)
Definition DiscoverWorkDetailHandler (c : OLClient) (cached : bool) (now now' : Time) (reads : nat -> bool)
    (begins commits : bool) (faults faults' : nat -> bool) (rawID : string)
    : discoverH (DiscoverWorkDetail * cache_header) :=
  let openLibraryID := CleanKey rawID in
  if negb (IsValidWorkKey openLibraryID) then
    discover_invalid ("openLibraryId: " +:+ quote rawID +:+
      " is not a valid Open Library work ID (must match ^OL[0-9]+W$)")
  else
    hit ← (if cached then attempt (on_metadata (GetCachedWork reads now openLibraryID)) else mret (Ok None));
    match hit with
    | Ok (Some detail) => mret (detail, CacheHit)
    | _ =>
        detail ← or_fail (on_client (GetWork c openLibraryID)) (discover_error "failed to fetch work details");
        _ ← (if cached then
               dropping (on_metadata (SaveCachedWork begins commits faults faults' now' openLibraryID (Some detail)))
             else mret tt);
        mret (detail, CacheMiss)
    end.

(** The cover of a response; its body is [None] when the file named is not
    there, which [http.ServeFile] answers with a plain 404. *)
Record cover_response := mkCoverResponse {
  cv_contentType : string;
  cv_header : cache_header;
  cv_body : option string;
}.

Definition serve_file (contentType path : string) (header : cache_header) : discoverH cover_response := fun s =>
  (Ok (mkCoverResponse contentType header (cv_files (ds_covers s) !! path)), s).

Context (is_image : string -> bool).

Definition store_cover (cache : option CoverCache) (sf : save_faults) (randBytes : string) (now : Time)
    (coverID : Z) (contentType data : string) : discoverH cover_response :=
  saved ← match cache with
          | Some cc => attempt (on_covers (SaveCover is_image cc sf randBytes now coverID contentType data))
          | None => mret (Ok "")
          end;
  match saved with
  | Ok path => if String.eqb path "" then mret (mkCoverResponse contentType CacheMiss (Some data))
               else serve_file contentType path CacheMiss
  | _ => mret (mkCoverResponse contentType CacheMiss (Some data))
  end.

Definition cover_not_found (e : error) : bool :=
  match domain_error e with Some (DomainError c _ _) => bool_decide (c = NotFound) | _ => false end.

Definition DiscoverCoverHandler (c : OLClient) (cache : option CoverCache) (now now' : Time)
    (reads : nat -> bool) (marks : bool) (sf : save_faults) (randBytes coverIDStr : string)
    : discoverH cover_response :=
  match Atoi coverIDStr with
  | Some coverID =>
      if coverID <=? 0 then
        discover_invalid ("coverId: invalid value " +:+ quote coverIDStr +:+ " — must be a positive integer")
      else
        hit ← match cache with
              | Some _ => attempt (on_covers (GetCover reads now coverID))
              | None => mret (Ok CoverMiss)
              end;
        match hit with
        | Ok CoverMissing => throw (HTTPError NotFound "cover not found")
        | Ok (CoverHit path contentType) => serve_file (or_jpeg contentType) path CacheHit
        | _ =>
            r ← attempt (on_client (FetchCover c coverID));
            match r with
            | Ok (data, contentType) =>
                store_cover cache sf randBytes now' coverID (or_jpeg contentType) data
            | Err e =>
                _ ← (if cover_not_found e && bool_decide (is_Some cache)
                     then dropping (on_covers (MarkMissing marks now' coverID)) else mret tt);
                throw (discover_error "failed to fetch cover image" e)
            | OutOfFuel => throw Panicked
            end
        end
  | None => discover_invalid ("coverId: invalid value " +:+ quote coverIDStr +:+ " — must be a positive integer")
  end.
End handlers.
