(* ===== verification/OpenLibrarySafety.v ===== *)
(** * What looking books up guarantees
      (src/internal/adapters/openlibrary,
       src/internal/persistence/postgres/metadata_cache_repository.go,
       cover_cache_repository.go, src/internal/transport/http/discover.go)

    What is let through of an answer, how many requests a lookup makes, what
    the caches hold and hand back, and what their failures do to a request. *)

From stdpp Require Import sorting.
From S2P Require Import Prelude GoStrings Regex Floats Errors Postgres Transactor Http Sources OpenLibrary MetadataCache ReaderContent Discover.
From Stdlib Require Import Sorted.

Local Open Scope string_scope.
Local Open Scope list_scope.
Local Open Scope Z_scope.

(** ** Addresses *)

(** The addresses a request to Open Library is kept from are those that a
    source is kept from when private addresses are not allowed. *)
Theorem blocked_addresses_agree (ip : option IP) : blockedResolvedIP ip = IsBlockedDialIP ip false.
Proof.
  destruct ip as [ip|]; [|done]. unfold blockedResolvedIP, IsBlockedDialIP.
  destruct (IsLoopback ip), (IsPrivate ip), (IsUnspecified ip), (IsLinkLocalUnicast ip), (IsLinkLocalMulticast ip),
    (IsMulticast ip), (IsInterfaceLocalMulticast ip), (cgnat ip); done.
Qed.

(** ** What is let through of an answer *)

(** A text as the normaliser leaves it. *)
Definition clean_title (s : string) : Prop :=
  s <> "" /\ rune_count s <= 500 /\ containsDisallowedControlChars s = false.

Lemma validateTitle_clean raw s : validateTitle raw = Some s -> clean_title s.
Proof.
  unfold validateTitle, clean_title. destruct (String.eqb_spec (TrimSpace raw) ""); [done|].
  destruct (500 <? rune_count _) eqn:E; [done|]. destruct (containsDisallowedControlChars _) eqn:E'; [done|].
  intros [= <-]. apply Z.ltb_ge in E. done.
Qed.

Section answers.
Context `{OpenLibraryJSON}.

Definition clean_author (a : NormalisedAuthor) : Prop :=
  na_Name a <> "" /\ containsDisallowedControlChars (na_Name a) = false /\
  forall k, na_OpenLibraryAuthorKey a = Some k -> MatchString openLibraryAuthorIDRegex k = true.
Definition clean_result (r : NormalisedSearchResult) : Prop :=
  IsValidWorkKey (nr_OpenLibraryWorkKey r) = true /\ clean_title (nr_Title r) /\
  Forall clean_author (nr_Authors r).

Lemma author_at_clean names keys i a : author_at names keys i = Some a -> clean_author a.
Proof.
  unfold author_at, clean_author.
  set (name := match names !! i with Some n => TrimSpace n | None => "" end).
  destruct (String.eqb_spec name ""); [done|]. destruct (containsDisallowedControlChars name) eqn:E; [done|].
  cbn. intros [= <-]. cbn. split; [done|]. split; [done|]. intros k. destruct (keys !! i) as [raw|]; [|done].
  cbn. destruct (MatchString openLibraryAuthorIDRegex (CleanKey raw)) eqn:M; [|done]. by intros [= <-].
Qed.

Lemma search_loop_fresh docs seen :
  Forall (fun r => nr_OpenLibraryWorkKey r ∉ seen) (search_loop docs seen) /\
  NoDup (nr_OpenLibraryWorkKey <$> search_loop docs seen) /\ Forall clean_result (search_loop docs seen).
Proof.
  revert seen. induction docs as [|doc docs IH]; intros seen.
  { split; [constructor|]. split; constructor. }
  cbn [search_loop]. destruct (IsValidWorkKey _) eqn:Hv; [|apply IH]. cbn [negb].
  destruct (bool_decide_reflect (CleanKey (string_at doc "key") ∈ seen)) as [|Hs]; [apply IH|].
  destruct (IH (CleanKey (string_at doc "key") :: seen)) as (Hf & Hn & Hc).
  assert (Hf' : Forall (fun r => nr_OpenLibraryWorkKey r ∉ seen)
                  (search_loop docs (CleanKey (string_at doc "key") :: seen))).
  { eapply Forall_impl; [exact Hf|]. intros r Hr Hin. apply Hr. by right. }
  destruct (validateTitle _) as [title|] eqn:Ht; [|done]. split; [by constructor|]. split.
  - cbn. constructor; [|done]. intros (r & E & Hr)%list_elem_of_fmap. rewrite Forall_forall in Hf.
    apply (Hf r Hr). rewrite <- E. by left.
  - constructor; [|done]. split; [done|]. split; [by eapply validateTitle_clean|].
    cbn. apply Forall_forall. intros a (i & _ & Ha)%list_elem_of_omap. by eapply author_at_clean.
Qed.
End answers.

(** Whatever Open Library answers to a search, the results have distinct
    and well-formed work keys, titles that are neither empty nor long and hold
    no control characters, and authors with a name and no malformed key. *)
Theorem search_results_clean `{OpenLibraryJSON} body limit offset r :
  NormaliseSearchResponse body limit offset = Ok r ->
  NoDup (nr_OpenLibraryWorkKey <$> ns_Items r) /\ Forall clean_result (ns_Items r).
Proof.
  unfold NormaliseSearchResponse. destruct (search_json body) as [[n docs]|]; [|done]. intros [= <-]. cbn.
  by destruct (search_loop_fresh docs []) as (_ & ? & ?).
Qed.

(** ** Requests *)

Section requests.
Context `{OpenLibraryJSON} `{OpenLibraryServer} `{Urls}.

(** At most [n] requests, all to [base], and nobody left waiting. *)
Definition requests_to (base : string) (n : nat) (w w' : ol_wire) : Prop :=
  exists l, ol_requests w' = ol_requests w ++ l /\ (length l <= n)%nat /\
    Forall (fun u => HasPrefix u base = true) l /\ ol_activeWaiters w' = ol_activeWaiters w.

Lemma requests_none base n w : requests_to base n w w.
Proof. exists []. rewrite app_nil_r. split; [done|]. split; [cbn; lia|]. by split; [constructor|]. Qed.

Lemma requests_more base n m w1 w2 w3 :
  requests_to base n w1 w2 -> requests_to base m w2 w3 -> requests_to base (n + m) w1 w3.
Proof.
  intros (l1 & E1 & N1 & F1 & A1) (l2 & E2 & N2 & F2 & A2). exists (l1 ++ l2).
  rewrite E2, E1, app_assoc. split; [done|]. rewrite length_app. split; [lia|].
  split; [by apply Forall_app|congruence].
Qed.

Lemma doRequest_requests c url maxBytes base w :
  HasPrefix url base = true -> requests_to base 1 w (doRequest c url maxBytes w).2.
Proof.
  intros Hp. unfold doRequest, mbind, stM_bind, Wait, send, throw, mret, stM_ret.
  destruct (_ <? _); [apply requests_none|]. destruct (negb _); [apply requests_none|].
  assert (Hsent : forall r : res error (string * string),
    requests_to base 1 w (r, mkOlWire (ol_requests w ++ [url]) (ol_activeWaiters w)).2).
  { intros r. exists [url]. cbn. repeat split; [lia|]. by constructor. }
  destruct (answers url); [apply requests_none|apply Hsent|].
  repeat case_match; apply Hsent.
Qed.

Lemma try_request_run {A} (m : stM ol_wire error A) w : exists r, try_request m w = (Ok r, (m w).2).
Proof. unfold try_request. destruct (m w) as [[a|e|] w']; by eexists. Qed.

Lemma fetch_authors_requests c keys w :
  exists l w', fetch_authors c keys w = (Ok l, w') /\ requests_to (oc_baseURL c) (length keys) w w'.
Proof.
  revert w. induction keys as [|k keys IH]; intros w; [eexists [], w; split; [done|apply requests_none]|].
  cbn [fetch_authors]. unfold mbind, stM_bind.
  set (url := oc_baseURL c +:+ "/authors/" +:+ k +:+ ".json").
  destruct (try_request_run (doRequest c url maxMetadataResponseBytes) w) as [r ->]. cbn iota.
  destruct (IH (doRequest c url maxMetadataResponseBytes w).2) as (l & w' & -> & Hw').
  assert (Hreq : requests_to (oc_baseURL c) (length (k :: keys)) w w').
  { apply (requests_more _ 1 (length keys) _ (doRequest c url maxMetadataResponseBytes w).2); [|done].
    apply doRequest_requests, prefix_app. }
  destruct r as [[body ct]|]; [destruct (NormaliseAuthor k body)|]; eexists _, w'; split; done.
Qed.

Lemma fetch_editions_requests c id w :
  exists l w', fetch_editions c id w = (Ok l, w') /\ requests_to (oc_baseURL c) 1 w w'.
Proof.
  unfold fetch_editions, mbind, stM_bind.
  set (url := oc_baseURL c +:+ "/works/" +:+ id +:+ "/editions.json?limit=50").
  destruct (try_request_run (doRequest c url maxMetadataResponseBytes) w) as [r ->]. cbn iota.
  assert (Hreq := doRequest_requests c url maxMetadataResponseBytes (oc_baseURL c) w (prefix_app _ _)).
  destruct r as [[body ct]|]; [destruct (NormaliseEditions body)|]; eexists _, _; split; done.
Qed.
End requests.

(** Looking a work up makes at most twenty-two requests, all to the server
    it was configured with, and leaves no one waiting, whatever that server
    and the limiter answer. *)
Theorem GetWork_requests `{OpenLibraryJSON} `{OpenLibraryServer} c id w :
  requests_to (oc_baseURL c) 22 w (GetWork c id w).2.
Proof.
  unfold GetWork. destruct (IsValidWorkKey (CleanKey id)); [|apply requests_none]. cbn [negb].
  unfold mbind, stM_bind. set (url := oc_baseURL c +:+ "/works/" +:+ CleanKey id +:+ ".json").
  assert (Hreq := doRequest_requests c url maxMetadataResponseBytes (oc_baseURL c) w (prefix_app _ _)).
  assert (Hle : forall w', requests_to (oc_baseURL c) 1 w w' -> requests_to (oc_baseURL c) 22 w w').
  { intros w' (l & ? & ? & ?). exists l. split; [done|]. split; [lia|done]. }
  destruct (doRequest c url maxMetadataResponseBytes w) as [[[body ct]|e|] w1]; [|by apply Hle..].
  cbn [snd] in Hreq. unfold reading. destruct (NormaliseWork body) as [work| |]; [|by apply Hle..].
  destruct (fetch_editions_requests c (CleanKey id) w1) as (eds & w2 & -> & Hw2).
  destruct (fetch_authors_requests c (take 20 (ExtractAuthorKeys body)) w2) as (authors & w3 & -> & Hw3).
  cbn [snd mret stM_ret]. assert (Hlen : (length (take 20 (ExtractAuthorKeys body)) <= 20)%nat)
    by (rewrite length_take; lia).
  destruct (requests_more _ _ _ _ _ _ Hreq (requests_more _ _ _ _ _ _ Hw2 Hw3)) as (l & E & N & F & A).
  exists l. split; [done|]. split; [lia|done].
Qed.

(** ** What a lookup of a work answers *)

Section lookups.
Context `{OpenLibraryJSON} `{OpenLibraryServer} `{Urls}.

Lemma GetCachedWork_pure faults now key : pure (GetCachedWork faults now key).
Proof.
  intros db. unfold GetCachedWork, mbind, stM_bind, stating, throw, mret, stM_ret.
  repeat (case_match; simplify_eq; try done).
Qed.

Lemma doRequest_returns c url maxBytes w : (doRequest c url maxBytes w).1 <> OutOfFuel.
Proof.
  unfold doRequest, mbind, stM_bind, Wait, send, throw, mret, stM_ret. repeat (case_match; simplify_eq; try done).
Qed.

Lemma GetWork_returns c id w : (GetWork c id w).1 <> OutOfFuel.
Proof.
  unfold GetWork, mbind, stM_bind, reading. destruct (negb _); [done|].
  set (url := oc_baseURL c +:+ _). pose proof (doRequest_returns c url maxMetadataResponseBytes w) as Hr.
  destruct (doRequest c url maxMetadataResponseBytes w) as [[[body ct]|e|] w1]; [|done|done].
  unfold NormaliseWork. destruct (work_json body) as [raw|]; [|done]. destruct (validateTitle _); [|done].
  destruct (fetch_editions_requests c (CleanKey id) w1) as (eds & w2 & -> & _).
  by destruct (fetch_authors_requests c (take 20 (ExtractAuthorKeys body)) w2) as (authors & w3 & -> & _).
Qed.

(** A cached work is at most thirty days old. *)
Lemma GetCachedWork_fresh faults now key db d db' :
  GetCachedWork faults now key db = (Ok (Some d), db') ->
  exists row, md_works db !! CleanKey key = Some row /\ Sub now (mw_fetched_at row) <= MetadataCacheTTL /\
    nw_Title (dw_Work d) = mw_title row.
Proof.
  unfold GetCachedWork, mbind, stM_bind, stating, throw, mret, stM_ret.
  destruct (IsValidWorkKey (CleanKey key)); [|done]. cbn [negb]. destruct (faults 0%nat); [done|].
  destruct (md_works db !! CleanKey key) as [row|]; [|done].
  destruct (stale now (mw_fetched_at row)) eqn:Es; [done|]. destruct (faults 1%nat); [done|].
  destruct (faults 2%nat); [done|]. intros [= <- <-]. exists row. split; [done|]. split; [|done].
  by apply Z.ltb_ge in Es.
Qed.

Lemma on_metadata_pure {A} (m : stM metadata_db error A) : pure m -> pure (on_metadata m).
Proof.
  intros Hm s. unfold on_metadata. specialize (Hm (ds_metadata s)). destruct (m (ds_metadata s)) as [r db].
  cbn [snd] in *. subst. by destruct s.
Qed.
Lemma on_metadata_answer {A} (m : stM metadata_db error A) s : (on_metadata m s).1 = (m (ds_metadata s)).1.
Proof. unfold on_metadata. by destruct (m (ds_metadata s)). Qed.

(** The part of the handler beyond the cache. *)
Lemma lookup_miss c begins commits faults faults' now' id s :
  let rest : stM discover_state http_error _ :=
    detail ← or_fail (on_client (GetWork c id)) (discover_error "failed to fetch work details");
    _ ← dropping (on_metadata (SaveCachedWork begins commits faults faults' now' id (Some detail)));
    mret (detail, CacheMiss) in
  match GetWork c id (ds_wire s) with
  | (Ok d, w) => exists md, rest s = (Ok (d, CacheMiss), mkDiscoverState md (ds_covers s) w)
  | (Err e, w) => rest s = (Err (discover_error "failed to fetch work details" e),
                            mkDiscoverState (ds_metadata s) (ds_covers s) w)
  | (OutOfFuel, w) => False
  end.
Proof.
  intros rest. unfold rest, or_fail, attempt, on_client, mbind, stM_bind.
  pose proof (GetWork_returns c id (ds_wire s)) as Hr.
  destruct (GetWork c id (ds_wire s)) as [[d|e|] w]; [|done|done]. cbn. unfold dropping, on_metadata. cbn.
  destruct (SaveCachedWork begins commits faults faults' now' id (Some d) (ds_metadata s)) as [r md]. cbn.
  by exists md.
Qed.
End lookups.

(** A lookup of a work is answered from the cache exactly when the cache
    has it and can be read, and what it answers then is at most thirty days
    old; else it is answered with what Open Library says, whatever becomes of
    the cache's statements. *)
Theorem work_lookup `{OpenLibraryJSON} `{OpenLibraryServer}
    c now now' reads begins commits faults faults' rawID s :
  let id := CleanKey rawID in
  let handler := DiscoverWorkDetailHandler c true now now' reads begins commits faults faults' rawID in
  IsValidWorkKey id = true ->
  (exists d row, GetCachedWork reads now id (ds_metadata s) = (Ok (Some d), ds_metadata s) /\
     md_works (ds_metadata s) !! CleanKey id = Some row /\ Sub now (mw_fetched_at row) <= MetadataCacheTTL /\
     handler s = (Ok (d, CacheHit), s)) \/
  (forall d, (GetCachedWork reads now id (ds_metadata s)).1 <> Ok (Some d)) /\
  match GetWork c id (ds_wire s) with
  | (Ok d, w) => exists md, handler s = (Ok (d, CacheMiss), mkDiscoverState md (ds_covers s) w)
  | (Err e, w) => handler s = (Err (discover_error "failed to fetch work details" e),
                               mkDiscoverState (ds_metadata s) (ds_covers s) w)
  | (OutOfFuel, w) => False
  end.
Proof.
  intros id handler Hv. unfold handler, DiscoverWorkDetailHandler. fold id. rewrite Hv. cbn [negb].
  rewrite bind_attempt by apply on_metadata_pure, GetCachedWork_pure.
  rewrite on_metadata_answer. pose proof (lookup_miss c begins commits faults faults' now' id s) as Hmiss.
  destruct (GetCachedWork reads now id (ds_metadata s)) as [r db] eqn:E. cbn [fst].
  destruct r as [[d|]|e|]; [left|right; split; [intros d; discriminate|exact Hmiss]..].
  destruct (GetCachedWork_fresh _ _ _ _ _ _ E) as (row & Hrow & Hage & _). exists d, row.
  assert (Hp := GetCachedWork_pure reads now id (ds_metadata s)). rewrite E in Hp. cbn [snd] in Hp. subst db.
  split; [reflexivity|]. split; [exact Hrow|]. split; [exact Hage|reflexivity].
Qed.

(** ** What the cache keeps of a work

    Of the authors, those with a name and a key, and of those with the same key
    the last; of the editions those with a key, and again the last of each. *)

Definition no_fault : nat -> bool := fun _ => false.

(** With the position each is stored at. *)
Fixpoint kept_from (pos : Z) (authors : list NormalisedAuthor) : list (Z * NormalisedAuthor) :=
  match authors with
  | [] => []
  | a :: authors' =>
      match author_row_key a with
      | Some k =>
          if bool_decide (k ∈ omap author_row_key authors') then kept_from (pos + 1) authors'
          else (pos, mkNormalisedAuthor (Some k) (na_Name a)) :: kept_from (pos + 1) authors'
      | None => kept_from (pos + 1) authors'
      end
  end.
Definition kept_authors (authors : list NormalisedAuthor) : list NormalisedAuthor := (kept_from 0 authors).*2.

Definition edition_row_key (ed : NormalisedEdition) : option string :=
  let k := CleanKey (ne_OpenLibraryEditionKey ed) in if String.eqb k "" then None else Some k.
Definition rekeyed (k : string) (ed : NormalisedEdition) : NormalisedEdition :=
  mkNormalisedEdition (ne_Title ed) (ne_Publisher ed) (ne_PublishDate ed) (ne_Language ed) k (ne_CoverURL ed).
Fixpoint kept_editions (eds : list NormalisedEdition) : list NormalisedEdition :=
  match eds with
  | [] => []
  | ed :: eds' =>
      match edition_row_key ed with
      | Some k => if bool_decide (k ∈ omap edition_row_key eds') then kept_editions eds'
                  else rekeyed k ed :: kept_editions eds'
      | None => kept_editions eds'
      end
  end.

Lemma kept_from_key pos l p a :
  (p, a) ∈ kept_from pos l ->
  pos <= p /\ exists k name, a = mkNormalisedAuthor (Some k) name /\ k ∈ omap author_row_key l.
Proof.
  revert pos. induction l as [|b l IH]; intros pos Hin; [by apply elem_of_nil in Hin|].
  assert (Hrest : (p, a) ∈ kept_from (pos + 1) l ->
    pos <= p /\ exists k name, a = mkNormalisedAuthor (Some k) name /\ k ∈ omap author_row_key (b :: l)).
  { intros (Hp & k & name & -> & Hk)%IH. split; [lia|]. exists k, name. split; [done|]. cbn.
    destruct (author_row_key b); [by right|done]. }
  cbn [kept_from] in Hin. destruct (author_row_key b) as [k|] eqn:E; [|by apply Hrest].
  case_bool_decide; [by apply Hrest|]. apply elem_of_cons in Hin as [[= -> ->]|Hin]; [|by apply Hrest].
  split; [lia|]. exists k, (na_Name b). split; [done|]. cbn. rewrite E. by left.
Qed.

Lemma kept_from_sorted pos l :
  StronglySorted (fun x y => by_position x y = true) (kept_from pos l) /\ NoDup (kept_from pos l).*1.
Proof.
  revert pos. induction l as [|b l IH]; intros pos; cbn; [split; constructor|].
  destruct (author_row_key b); [|apply IH]. case_bool_decide; [apply IH|]. destruct (IH (pos + 1)) as [Hs Hn].
  split; [constructor; [done|] | constructor; [|done]].
  - apply Forall_forall. intros [p a] [Hp _]%kept_from_key. unfold by_position. cbn. lia.
  - intros ([p a] & Hp & [Hle _]%kept_from_key)%list_elem_of_fmap. cbn in Hp. lia.
Qed.

Section saving.
Context (now : Time) (key : string).

(** *** Editions *)

Definition edition_row (ed : NormalisedEdition) : metadata_edition_row :=
  mkMetadataEditionRow key (ne_Title ed) (ne_Publisher ed) (ne_PublishDate ed) (ne_Language ed)
    (ne_CoverURL ed) now.
Definition put_edition (ed : NormalisedEdition) (t : gmap string metadata_edition_row) :=
  match edition_row_key ed with Some k => <[k := edition_row ed]> t | None => t end.
Definition put_editions (eds : list NormalisedEdition) (t : gmap string metadata_edition_row) :=
  fold_left (fun t ed => put_edition ed t) eds t.

Lemma save_editions_run n eds db :
  save_editions no_fault n now key eds db =
  (Ok tt, mkMetadataDb (md_works db) (md_authors db) (md_work_authors db) (put_editions eds (md_editions db))).
Proof.
  revert n db. induction eds as [|ed eds IH]; intros n db; [by destruct db|].
  cbn [save_editions put_editions fold_left]. unfold put_edition, edition_row_key. cbv zeta.
  destruct (String.eqb (CleanKey (ne_OpenLibraryEditionKey ed)) ""); [by rewrite IH|].
  unfold mbind, stM_bind, state_write, stating. cbn. by rewrite IH.
Qed.

Lemma kept_editions_keys eds :
  NoDup (ne_OpenLibraryEditionKey <$> kept_editions eds) /\
  forall k, k ∈ ne_OpenLibraryEditionKey <$> kept_editions eds <-> k ∈ omap edition_row_key eds.
Proof.
  induction eds as [|ed eds [IHn IHk]]; cbn; [split; [constructor|done]|].
  destruct (edition_row_key ed) as [k|]; [|done]. case_bool_decide as Hk.
  - split; [done|]. intros k'. rewrite IHk, elem_of_cons. naive_solver.
  - cbn. split; [constructor; [by rewrite IHk|done]|]. intros k'. by rewrite !elem_of_cons, IHk.
Qed.

Lemma put_editions_lookup eds t k r :
  put_editions eds t !! k = Some r <->
  (exists ed, ed ∈ kept_editions eds /\ ne_OpenLibraryEditionKey ed = k /\ r = edition_row ed) \/
  (k ∉ omap edition_row_key eds) /\ t !! k = Some r.
Proof.
  revert t. induction eds as [|ed eds IH]; intros t.
  { cbn. split; [right; split; [by apply not_elem_of_nil|done]|].
    intros [(ed & Hin & _)|[_ ?]]; [by apply elem_of_nil in Hin|done]. }
  cbn [put_editions fold_left]. change (fold_left _ eds ?t') with (put_editions eds t').
  rewrite IH. cbn [kept_editions omap list_omap]. unfold put_edition.
  destruct (edition_row_key ed) as [k0|] eqn:E; [|done]. rewrite lookup_insert_Some.
  change (list_omap _ _ edition_row_key eds) with (omap edition_row_key eds).
  case_bool_decide as Hk.
  - rewrite not_elem_of_cons. naive_solver.
  - setoid_rewrite elem_of_cons. split.
    + intros [(e & ? & ? & ?)|[Hn [[<- <-]|[Hne Hl]]]].
      * left. exists e. auto.
      * left. exists (rekeyed k0 ed). auto.
      * right. split; [|done]. intros [->|]; done.
    + intros [(e & [->|Hin] & <- & ->)|[Hn Hl]].
      * right. auto.
      * left. eauto.
      * right. split; [naive_solver|]. right. split; [naive_solver|done].
Qed.

Lemma cached_editions_run eds works authors links_ t :
  map_Forall (fun _ r => me_work_key r <> key) t ->
  cached_editions key (mkMetadataDb works authors links_ (put_editions eds t)) ≡ₚ kept_editions eds.
Proof.
  intros Ht. unfold cached_editions. cbn [md_editions]. rewrite sort_by_perm.
  destruct (kept_editions_keys eds) as [Hn _].
  assert (E : select (fun _ r => String.eqb (me_work_key r) key) (put_editions eds t) ≡ₚ
              (fun ed => (ne_OpenLibraryEditionKey ed, edition_row ed)) <$> kept_editions eds).
  { apply NoDup_Permutation.
    - apply (NoDup_fmap_1 fst), NoDup_select.
    - apply (NoDup_fmap_1 fst). by rewrite <- list_fmap_compose.
    - intros [k r]. rewrite elem_of_select. cbn [fst snd]. rewrite put_editions_lookup. split.
      + intros [[(ed & Hin & <- & ->)|[_ Hl]] Hw]; [apply list_elem_of_fmap; by exists ed|].
        apply String.eqb_eq in Hw. by destruct (Ht k r Hl).
      + intros (ed & [= -> ->] & Hin)%list_elem_of_fmap. split; [left; by exists ed|]. apply String.eqb_refl. }
  rewrite E, <- list_fmap_compose. clear. induction (kept_editions eds) as [|[] l IH]; [done|]. cbn. by rewrite IH.
Qed.

(** *** Authors *)

Definition put_author (a : NormalisedAuthor) (t : gmap string metadata_author_row) :=
  match author_row_key a with Some k => <[k := mkMetadataAuthorRow (na_Name a) now]> t | None => t end.
Definition put_authors (l : list NormalisedAuthor) (t : gmap string metadata_author_row) :=
  fold_left (fun t a => put_author a t) l t.
Fixpoint put_links (pos : Z) (l : list NormalisedAuthor) (t : list author_link) : list author_link :=
  match l with
  | [] => t
  | a :: l' => put_links (pos + 1) l'
                 (match author_row_key a with Some k => upsert_link key k pos t | None => t end)
  end.

Lemma save_authors_run n pos l db :
  save_authors no_fault n now key pos l db =
  (Ok tt, mkMetadataDb (md_works db) (put_authors l (md_authors db)) (put_links pos l (md_work_authors db))
            (md_editions db)).
Proof.
  revert n pos db. induction l as [|a l IH]; intros n pos db; [by destruct db|].
  cbn [save_authors put_authors fold_left put_links]. unfold put_author.
  destruct (author_row_key a) as [k|]; [|by rewrite IH].
  unfold mbind, stM_bind, state_write, stating. cbn. by rewrite IH.
Qed.

Lemma put_authors_other l t k : k ∉ omap author_row_key l -> put_authors l t !! k = t !! k.
Proof.
  revert t. induction l as [|a l IH]; intros t Hk; [done|]. cbn [put_authors fold_left].
  change (fold_left _ l ?t') with (put_authors l t'). cbn [omap list_omap] in Hk. unfold put_author.
  destruct (author_row_key a) as [k0|]; [|by apply IH]. apply not_elem_of_cons in Hk as [Hne Hk].
  rewrite IH by done. by rewrite lookup_insert_ne.
Qed.

Lemma put_authors_kept pos l t p k name :
  (p, mkNormalisedAuthor (Some k) name) ∈ kept_from pos l ->
  put_authors l t !! k = Some (mkMetadataAuthorRow name now).
Proof.
  revert pos t. induction l as [|a l IH]; intros pos t Hin; [by apply elem_of_nil in Hin|].
  cbn [put_authors fold_left]. change (fold_left _ l ?t') with (put_authors l t'). cbn [kept_from] in Hin.
  unfold put_author. destruct (author_row_key a) as [k0|]; [|by eapply IH].
  case_bool_decide as Hk; [by eapply IH|]. apply elem_of_cons in Hin as [[= -> -> ->]|Hin]; [|by eapply IH].
  rewrite put_authors_other by done. apply lookup_insert_eq.
Qed.

Lemma same_link_true k x : same_link key k x = true <-> lk_work_key x = key /\ lk_author_key x = k.
Proof. unfold same_link. rewrite andb_true_iff. by rewrite !String.eqb_eq. Qed.

Lemma elem_of_upsert_link k pos t x :
  x ∈ upsert_link key k pos t <-> x = mkAuthorLink key k pos \/ same_link key k x = false /\ x ∈ t.
Proof.
  unfold upsert_link. destruct (existsb (same_link key k) t) eqn:E.
  - apply existsb_exists in E as (y & Hy%list_elem_of_In & Hs). rewrite list_elem_of_fmap. split.
    + intros (z & -> & Hz). destruct (same_link key k z) eqn:Ez; auto.
    + intros [->|[Hx Hin]]; [exists y|exists x]; by rewrite ?Hs, ?Hx.
  - rewrite elem_of_app, list_elem_of_singleton. split; [|tauto]. intros [Hin|]; [right|by left]. split; [|done].
    apply not_true_iff_false. intros Hs. apply not_true_iff_false in E. apply E, existsb_exists.
    exists x. by rewrite <- list_elem_of_In.
Qed.

Lemma elem_of_put_links pos l t x :
  lk_work_key x = key ->
  (x ∈ put_links pos l t) <->
  (exists name, (lk_position x, mkNormalisedAuthor (Some (lk_author_key x)) name) ∈ kept_from pos l) \/
  (lk_author_key x ∉ omap author_row_key l /\ x ∈ t).
Proof.
  intros Hx. revert pos t. induction l as [|a l IH]; intros pos t.
  { cbn. setoid_rewrite elem_of_nil. naive_solver. }
  cbn [put_links kept_from omap list_omap]. rewrite IH. destruct (author_row_key a) as [k|]; [|done].
  rewrite elem_of_upsert_link, not_elem_of_cons.
  assert (Hs : same_link key k x = false <-> lk_author_key x <> k).
  { rewrite <- not_true_iff_false, same_link_true. naive_solver. }
  rewrite Hs. change (list_omap _ _ author_row_key l) with (omap author_row_key l).
  case_bool_decide as Hk.
  - split; [|naive_solver]. intros [?|[Hn [->|?]]]; [by left|done|naive_solver].
  - setoid_rewrite elem_of_cons. split.
    + intros [[name ?]|[Hn [->|[??]]]]; [left; eauto| |right; naive_solver].
      left. exists (na_Name a). by left.
    + intros [[name [[= Hp Hk' Hname]|?]]|[[??]?]]; [|left; eauto|right; naive_solver].
      right. split; [by rewrite Hk'|]. left. destruct x; cbn in *. congruence.
Qed.

(** The authors a work is linked to. *)
Definition own_links (t : list author_link) : list author_link :=
  List.filter (fun x => String.eqb (lk_work_key x) key) t.

Lemma upsert_link_own k pos t : NoDup (lk_author_key <$> own_links t) -> NoDup (lk_author_key <$> own_links (upsert_link key k pos t)).
Proof.
  unfold upsert_link. destruct (existsb (same_link key k) t) eqn:E; intros Hn.
  - assert (lk_author_key <$> own_links ((fun x => if same_link key k x then mkAuthorLink key k pos else x) <$> t) =
            lk_author_key <$> own_links t) as ->; [|done]. clear.
    induction t as [|x t IH]; [done|]. cbn. destruct (same_link key k x) eqn:Es; cbn.
    + apply same_link_true in Es as [-> <-]. rewrite String.eqb_refl. cbn. by f_equal.
    + destruct (String.eqb (lk_work_key x) key); cbn; [by f_equal|done].
  - unfold own_links. rewrite List.filter_app, fmap_app. cbn. rewrite String.eqb_refl. cbn.
    apply NoDup_app. split; [done|]. split; [|apply NoDup_singleton].
    intros y (x & -> & [Hin Hw%String.eqb_eq]%list_elem_of_In%filter_In)%list_elem_of_fmap Hy%list_elem_of_singleton.
    apply not_true_iff_false in E. apply E, existsb_exists. exists x. split; [done|]. by apply same_link_true.
Qed.

Lemma put_links_own pos l t : NoDup (lk_author_key <$> own_links t) -> NoDup (lk_author_key <$> own_links (put_links pos l t)).
Proof.
  revert pos t. induction l as [|a l IH]; intros pos t Hn; [done|]. cbn [put_links]. apply IH.
  destruct (author_row_key a); [by apply upsert_link_own|done].
Qed.

Lemma elem_of_linked db (t : list author_link) p a :
  (p, a) ∈ omap (linked_author key db) t <->
  exists x r, x ∈ t /\ lk_work_key x = key /\ md_authors db !! lk_author_key x = Some r /\ p = lk_position x /\
    a = mkNormalisedAuthor (Some (lk_author_key x)) (ma_name r).
Proof.
  rewrite list_elem_of_omap. unfold linked_author. split.
  - intros (x & Hx & Ha). destruct (String.eqb_spec (lk_work_key x) key); [|done].
    destruct (md_authors db !! lk_author_key x) as [r|] eqn:Er; [|done]. injection Ha as <- <-. by exists x, r.
  - intros (x & r & Hx & Hk & Hr & -> & ->). exists x. split; [done|]. by rewrite Hk, String.eqb_refl, Hr.
Qed.

Lemma NoDup_linked db (t : list author_link) : NoDup (lk_author_key <$> own_links t) -> NoDup (omap (linked_author key db) t).
Proof.
  induction t as [|x t IH]; intros Hn; [constructor|]. cbn [omap list_omap].
  change (list_omap _ _ (linked_author key db) t) with (omap (linked_author key db) t).
  cbn in Hn. unfold linked_author at 1. destruct (String.eqb_spec (lk_work_key x) key) as [Hx|Hx]; [|by apply IH].
  cbn in Hn. apply NoDup_cons in Hn as [Hnot Hn]. destruct (md_authors db !! lk_author_key x) as [r|]; [|by apply IH].
  cbn. constructor; [|by apply IH]. intros (y & r' & Hy & Hk & _ & _ & [= E _])%elem_of_linked. apply Hnot.
  apply list_elem_of_fmap. exists y. split; [done|]. apply list_elem_of_In, filter_In. split; [by apply list_elem_of_In|].
  by apply String.eqb_eq.
Qed.

(** The authors of a work, once linked, are found in their order. *)
Lemma cached_authors_run l works authors editions t :
  Forall (fun x => lk_work_key x <> key) t ->
  cached_authors key (mkMetadataDb works (put_authors l authors) (put_links 0 l t) editions) = kept_authors l.
Proof.
  intros Ht. unfold cached_authors, kept_authors. cbn [md_work_authors]. f_equal. set (db := mkMetadataDb _ _ _ _).
  destruct (kept_from_sorted 0 l) as [Hs Hn].
  assert (Hp : sort_by by_position (omap (linked_author key db) (put_links 0 l t)) ≡ₚ kept_from 0 l).
  { rewrite sort_by_perm. apply NoDup_Permutation.
    - apply NoDup_linked, put_links_own. replace (own_links t) with (@nil author_link); [constructor|].
      induction Ht as [|x t Hx _ IH]; [done|]. cbn. by destruct (String.eqb_spec (lk_work_key x) key).
    - by apply (NoDup_fmap_1 fst).
    - intros [p a]. rewrite elem_of_linked. split.
      + intros (x & r & Hx & Hk & Hr & -> & ->). apply elem_of_put_links in Hx; [|done].
        destruct Hx as [[name Hin]|[_ Hin]]; [|rewrite Forall_forall in Ht; by destruct (Ht x Hin)].
        cbn [md_authors db] in Hr. rewrite (put_authors_kept _ _ _ _ _ _ Hin) in Hr. by injection Hr as <-.
      + intros Hin. destruct (kept_from_key _ _ _ _ Hin) as (_ & k & name & -> & _).
        exists (mkAuthorLink key k p), (mkMetadataAuthorRow name now). split_and!; try done.
        * apply elem_of_put_links; [done|]. left. by exists name.
        * by eapply put_authors_kept. }
  apply (StronglySorted_unique_strong (fun x y => by_position x y = true)); [|apply sort_by_sorted|exact Hs|exact Hp].
  - intros [p1 a1] [p2 a2] H1 H2 Hle Hge. unfold by_position in Hle, Hge. cbn in Hle, Hge. assert (p1 = p2) as -> by lia.
    rewrite Hp in H1. apply (elem_of_list_to_map_1 (M := gmap Z)) in H1, H2; try done. congruence.
  - intros [p1 a1] [p2 a2]. unfold by_position. cbn. destruct (Z.le_ge_cases p1 p2); [left|right]; lia.
  - intros [p1 a1] [p2 a2] [p3 a3]. unfold by_position. cbn. lia.
Qed.
End saving.

(** *** What leaves a cached work alone *)

(** The operations on the cache, with what fails of each. *)
Inductive cache_call :=
| CallSaveWork (begins commits : bool) (faults faults' : nat -> bool) (now : Time) (id : string)
    (detail : option DiscoverWorkDetail)
| CallSaveAuthor (fault : bool) (now : Time) (author : option NormalisedAuthor)
| CallGetWork (faults : nat -> bool) (now : Time) (id : string)
| CallGetAuthor (fault : bool) (now : Time) (id : string).

Definition cache_step (c : cache_call) (db : metadata_db) : metadata_db :=
  match c with
  | CallSaveWork begins commits faults faults' now id d => (SaveCachedWork begins commits faults faults' now id d db).2
  | CallSaveAuthor fault now a => (SaveCachedAuthor fault now a db).2
  | CallGetWork faults now id => (GetCachedWork faults now id db).2
  | CallGetAuthor fault now id => (GetCachedAuthor fault now id db).2
  end.
Definition cache_history (l : list cache_call) (db : metadata_db) : metadata_db := fold_left (fun db c => cache_step c db) l db.

Definition author_keys (d : DiscoverWorkDetail) : list string := omap author_row_key (nw_Authors (dw_Work d)).
Definition edition_keys (d : DiscoverWorkDetail) : list string := omap edition_row_key (dw_Editions d).

(** A call that stores neither the work nor an author or an edition of it: the
    rows of authors and editions are shared by all works. *)
Definition leaves_alone (id : string) (d : DiscoverWorkDetail) (c : cache_call) : Prop :=
  match c with
  | CallSaveWork _ _ _ _ _ id' (Some d') =>
      CleanKey id' <> CleanKey id /\ author_keys d' ## author_keys d /\ edition_keys d' ## edition_keys d
  | CallSaveAuthor _ _ (Some a) => forall k, author_row_key a = Some k -> k ∉ author_keys d
  | _ => True
  end.

Section frame.
Context (key : string) (authors editions : list string).

(** What a lookup of the work reads is the same in both. *)
Record same_entry (db db' : metadata_db) : Prop := {
  se_work : md_works db' !! key = md_works db !! key;
  se_authors : forall k, k ∈ authors -> md_authors db' !! k = md_authors db !! k;
  se_links : own_links key (md_work_authors db') = own_links key (md_work_authors db);
  se_editions : forall k r, me_work_key r = key -> md_editions db' !! k = Some r <-> md_editions db !! k = Some r;
}.
Definition entry_within (db : metadata_db) : Prop :=
  (forall x, x ∈ own_links key (md_work_authors db) -> lk_author_key x ∈ authors) /\
  (forall k r, md_editions db !! k = Some r -> me_work_key r = key -> k ∈ editions).

#[local] Instance same_entry_preorder : PreOrder same_entry.
Proof.
  split; [by split|]. intros a b c [Hw Ha Hl He] [Hw' Ha' Hl' He']. split; [congruence| |congruence|].
  - intros k Hk. by rewrite Ha', Ha.
  - intros k r Hr. by rewrite He', He.
Qed.

Lemma within_kept db db' : entry_within db -> same_entry db db' -> entry_within db'.
Proof.
  intros [Hl He] [_ _ El Ee]. split; [by rewrite El|]. intros k r Hk Hr. eapply He; [|done]. by apply Ee.
Qed.

(** Runs that leave the entry alone. *)
Definition frames {A} (m : metadataM A) : Prop := forall db, entry_within db -> same_entry db (m db).2.

Lemma frames_bind {A B} (m : metadataM A) (f : A -> metadataM B) :
  frames m -> (forall a, frames (f a)) -> frames (m ≫= f).
Proof.
  intros Hm Hf db Hdb. specialize (Hm db Hdb). unfold mbind, stM_bind.
  destruct (m db) as [[a|e|] db1]; cbn [snd] in *; [|done..].
  etrans; [exact Hm|]. apply Hf. by eapply within_kept.
Qed.
Lemma frames_write fault msg f :
  (forall db, entry_within db -> same_entry db (f db)) -> frames (state_write fault msg f).
Proof. intros Hf db Hdb. unfold state_write, stating. by destruct fault; [|apply Hf]. Qed.
Lemma frames_ret {A} (a : A) : frames (mret a).
Proof. by intros db _. Qed.
Lemma frames_InTx {A} tx (m : metadataM A) : frames m -> frames (InTx tx m).
Proof.
  intros Hm db Hdb. specialize (Hm db Hdb). unfold InTx. destruct (begin_error tx); [done|].
  destruct (m db) as [[a|e|] db1]; [|done..]. by destruct (commit_error tx).
Qed.

Lemma frames_author k name now fault msg :
  k ∉ authors -> frames (state_write fault msg (upsert_metadata_author k name now)).
Proof.
  intros Hk. apply frames_write. intros db _. split; try done. cbn. intros k' Hk'. apply lookup_insert_ne. congruence.
Qed.

Lemma own_links_filter k t :
  k <> key -> own_links key (List.filter (fun l => negb (String.eqb (lk_work_key l) k)) t) = own_links key t.
Proof.
  intros Hk. unfold own_links. induction t as [|x t IH]; [done|]. cbn.
  destruct (String.eqb_spec (lk_work_key x) k) as [Hx|]; cbn; [|by rewrite IH].
  rewrite IH. by destruct (String.eqb_spec (lk_work_key x) key); [congruence|].
Qed.

Lemma own_links_upsert k akey pos t :
  k <> key -> own_links key (upsert_link k akey pos t) = own_links key t.
Proof.
  intros Hk. unfold upsert_link. destruct (existsb _ t).
  - induction t as [|x t IH]; [done|]. unfold own_links in *. cbn. destruct (same_link k akey x) eqn:Es; cbn; rewrite IH; [|done].
    apply same_link_true in Es as [Hx _]. by destruct (String.eqb_spec k key), (String.eqb_spec (lk_work_key x) key); [congruence..|].
  - unfold own_links. rewrite List.filter_app. cbn. destruct (String.eqb_spec k key); [done|]. apply app_nil_r.
Qed.

Lemma save_authors_frames faults n now k pos l :
  k <> key -> (forall a, a ∈ omap author_row_key l -> a ∉ authors) -> frames (save_authors faults n now k pos l).
Proof.
  intros Hk. revert n pos. induction l as [|a l IH]; intros n pos Hl; cbn [save_authors]; [apply frames_ret|].
  cbn [omap list_omap] in Hl. destruct (author_row_key a) as [akey|]; [|by apply IH].
  apply frames_bind; [apply frames_author, Hl; by left|]. intros _.
  apply frames_bind; [|intros _; apply IH; intros; apply Hl; by right].
  apply frames_write. intros db _. split; try done. cbn. by apply own_links_upsert.
Qed.

Lemma save_editions_frames faults n now k l :
  k <> key -> (forall e, e ∈ omap edition_row_key l -> e ∉ editions) -> frames (save_editions faults n now k l).
Proof.
  intros Hk. revert n. induction l as [|e l IH]; intros n Hl; cbn [save_editions]; [apply frames_ret|].
  cbn [omap list_omap] in Hl. unfold edition_row_key at 1 in Hl. cbv zeta in *.
  destruct (String.eqb (CleanKey (ne_OpenLibraryEditionKey e)) ""); [by apply IH|].
  apply frames_bind; [|intros _; apply IH; intros; apply Hl; by right].
  set (ekey := CleanKey _) in *. assert (Hnot : ekey ∉ editions) by (apply Hl; by left).
  apply frames_write. intros db [_ Hin]. split; try done. cbn. intros k' r Hr.
  destruct (decide (k' = ekey)) as [->|Hne]; [|by rewrite lookup_insert_ne]. rewrite lookup_insert_eq. split.
  - intros [= <-]. cbn in Hr. done.
  - intros Hl'. by destruct Hnot; eapply Hin.
Qed.

Lemma clear_frames fault msg k : k <> key -> frames (state_write fault msg (clear_work_authors k)).
Proof. intros Hk. apply frames_write. intros db _. split; try done. cbn. by apply own_links_filter. Qed.
End frame.
#[export] Existing Instance same_entry_preorder.

Lemma cache_step_frames id d c :
  leaves_alone id d c -> forall db, entry_within (CleanKey id) (author_keys d) (edition_keys d) db ->
  same_entry (CleanKey id) (author_keys d) db (cache_step c db).
Proof.
  destruct c as [begins commits faults faults' now id' d'|fault now a|faults now id'|fault now id']; cbn [leaves_alone cache_step].
  - destruct d' as [d'|].
    2: { intros _ db _. unfold SaveCachedWork. by destruct (IsValidWorkKey _). }
    intros (Hk & Ha & He). fold (frames (CleanKey id) (author_keys d) (edition_keys d)
      (SaveCachedWork begins commits faults faults' now id' (Some d'))).
    unfold SaveCachedWork. destruct (IsValidWorkKey _); [|by intros db _]. cbn [negb].
    apply frames_InTx, frames_bind; [|intros _; apply frames_bind; [by apply clear_frames|intros _; apply frames_bind;
      [|intros _; apply frames_bind; [|intros _]]]].
    + apply frames_write. intros db _. split; try done. cbn. by apply lookup_insert_ne.
    + apply save_authors_frames; [done|]. intros a Hin Hin'. by apply (Ha a).
    + apply frames_write. intros db _. split; try done. cbn. intros k r Hr. rewrite map_lookup_filter_Some. cbn.
      destruct (String.eqb_spec (me_work_key r) (CleanKey id')); [congruence|tauto].
    + apply save_editions_frames; [done|]. intros e Hin Hin'. by apply (He e).
  - intros Ha db Hdb. unfold SaveCachedAuthor. destruct a as [a|]; [|done].
    destruct (author_row_key a) as [k|]; [|done].
    apply (frames_author (CleanKey id) (author_keys d) (edition_keys d)); [by apply Ha|done].
  - intros _ db _. unfold GetCachedWork, mbind, stM_bind, stating. destruct (IsValidWorkKey _); [|done]. cbn [negb].
    repeat case_match; simplify_eq; done.
  - intros _ db _. unfold GetCachedAuthor, mbind, stM_bind, stating. repeat case_match; simplify_eq; done.
Qed.

Lemma cache_history_frames id d l db :
  Forall (leaves_alone id d) l -> entry_within (CleanKey id) (author_keys d) (edition_keys d) db ->
  same_entry (CleanKey id) (author_keys d) db (cache_history l db).
Proof.
  intros Hl. revert db. induction Hl as [|c l Hc _ IH]; intros db Hdb; [done|]. cbn.
  pose proof (cache_step_frames id d c Hc db Hdb) as Hs. etrans; [exact Hs|]. apply IH. by eapply within_kept.
Qed.

(** What is found does not depend on anything else. *)
Lemma cached_authors_same key authors editions db db' :
  entry_within key authors editions db -> same_entry key authors db db' -> cached_authors key db' = cached_authors key db.
Proof.
  intros [Hin _] [_ Ha Hl _]. unfold cached_authors. f_equal. f_equal.
  assert (Hown : forall d t, omap (linked_author key d) t = omap (linked_author key d) (own_links key t)).
  { clear. intros d t. induction t as [|x t IH]; [done|]. unfold own_links in *. cbn.
    unfold linked_author at 1. destruct (String.eqb (lk_work_key x) key) eqn:E; cbn.
    - unfold linked_author at 3. rewrite E. by rewrite IH.
    - done. }
  rewrite (Hown db'), (Hown db), Hl. clear Hl Hown. induction (own_links key (md_work_authors db)) as [|x t IH]; [done|]. cbn.
  rewrite IH by (intros; apply Hin; by right). unfold linked_author. by rewrite Ha by (apply Hin; by left).
Qed.

Lemma cached_editions_same key authors db db' :
  same_entry key authors db db' -> cached_editions key db' ≡ₚ cached_editions key db.
Proof.
  intros [_ _ _ He]. unfold cached_editions. apply fmap_Permutation. rewrite !sort_by_perm.
  apply NoDup_Permutation; [apply (NoDup_fmap_1 fst), NoDup_select..|]. intros [k r]. rewrite !elem_of_select. cbn.
  rewrite String.eqb_eq. split; intros [Hk Hr]; (split; [by apply (He k r Hr)|done]).
Qed.

Lemma bind_write {S A} fault msg f (k : unit -> stM S error A) s :
  fault = false -> (state_write fault msg f ≫= k) s = k tt (f s).
Proof. by intros ->. Qed.
Lemma bind_read {S A B} fault msg (f : S -> A) (k : A -> stM S error B) s :
  fault = false -> (stating fault msg (fun db => (f db, db)) ≫= k) s = k (f s) s.
Proof. by intros ->. Qed.
Lemma bind_run {S E A B} (m : stM S E A) (k : A -> stM S E B) s a s' :
  m s = (Ok a, s') -> (m ≫= k) s = k a s'.
Proof. intros Hm. unfold mbind, stM_bind. by rewrite Hm. Qed.

(** The entry of a work just stored. *)
Lemma saved_entry now id d db saved :
  SaveCachedWork true true no_fault no_fault now id (Some d) db = (Ok tt, saved) ->
  IsValidWorkKey (CleanKey id) = true /\
  md_works saved !! CleanKey id =
    Some (mkMetadataWorkRow (nw_Title (dw_Work d)) (nw_Subtitle (dw_Work d)) (nw_Description (dw_Work d))
            (nw_Subjects (dw_Work d)) (nw_CoverURL (dw_Work d)) now) /\
  cached_authors (CleanKey id) saved = kept_authors (nw_Authors (dw_Work d)) /\
  cached_editions (CleanKey id) saved ≡ₚ kept_editions (dw_Editions d) /\
  entry_within (CleanKey id) (author_keys d) (edition_keys d) saved.
Proof.
  intros Hsave. unfold SaveCachedWork in Hsave.
  destruct (IsValidWorkKey (CleanKey id)) eqn:Hv; [|done]. cbn [negb] in *. set (key := CleanKey id) in *.
  apply InTx_ok in Hsave. rewrite !bind_write in Hsave by reflexivity.
  erewrite bind_run in Hsave by apply save_authors_run.
  rewrite bind_write, save_editions_run in Hsave by done. injection Hsave as <-. cbn -[delete_where].
  assert (Hlinks : Forall (fun x => lk_work_key x <> key)
            (List.filter (fun l => negb (String.eqb (lk_work_key l) key)) (md_work_authors db))).
  { apply Forall_forall. intros x [_ Hx]%list_elem_of_In%filter_In. by destruct (String.eqb_spec (lk_work_key x) key). }
  assert (Heds : map_Forall (fun _ r => me_work_key r <> key)
            (delete_where (fun r => String.eqb (me_work_key r) key) (md_editions db)).2).
  { intros k r [_ Hk]%delete_where_lookup. by destruct (String.eqb_spec (me_work_key r) key). }
  split; [done|]. split; [apply lookup_insert_eq|]. split; [by apply cached_authors_run|].
  split; [by apply cached_editions_run|]. split; cbn [md_work_authors md_editions].
  - intros x [Hx Hk%String.eqb_eq]%list_elem_of_In%filter_In. apply list_elem_of_In in Hx.
    apply elem_of_put_links in Hx; [|done].
    destruct Hx as [[name (_ & k & n & [= -> _] & Hin)%kept_from_key]|[_ Hx]]; [done|].
    rewrite Forall_forall in Hlinks. by destruct (Hlinks x Hx).
  - intros k r Hk Hr. apply put_editions_lookup in Hk as [(ed & Hin & <- & _)|[_ Hk]]; [|by destruct (Heds k r Hk)].
    apply kept_editions_keys. apply list_elem_of_fmap. by exists ed.
Qed.

(** C18: a work that was stored in the cache is found there for thirty days, and
    after that it is not found, whatever else the cache is asked to do in the
    meantime, as long as nothing stores the work again nor an author or an
    edition with the key of one of its own, whose rows all works share.  What is
    found has the texts, the subjects and the cover it was stored with; its
    authors in their order, but without those that have no name or no key and
    with the last of those that have the same key; and in some order its
    editions, but without those that have no key and again with the last of
    each.  The calls in between may fail anywhere; those of the save and of the
    lookup do not. *)
Theorem cached_work_read_back now now' id d db saved between :
  SaveCachedWork true true no_fault no_fault now id (Some d) db = (Ok tt, saved) ->
  Forall (leaves_alone id d) between ->
  let later := cache_history between saved in
  exists d',
    GetCachedWork no_fault now' id later =
      (Ok (if Sub now' now <=? MetadataCacheTTL then Some d' else None), later) /\
    dw_Work d' = set_authors (kept_authors (nw_Authors (dw_Work d))) (dw_Work d) /\
    dw_Editions d' ≡ₚ kept_editions (dw_Editions d).
Proof.
  intros Hsave Hb later. destruct (saved_entry now id d db saved Hsave) as (Hv & Hw & Ha & He & Hin).
  pose proof (cache_history_frames id d between saved Hb Hin) as Hs. fold later in Hs.
  exists (mkDiscoverWorkDetail (set_authors (cached_authors (CleanKey id) later) (dw_Work d)) (cached_editions (CleanKey id) later)).
  split; [|split].
  - unfold GetCachedWork. rewrite Hv. cbn [negb]. rewrite bind_read by done.
    rewrite (se_work _ _ _ _ Hs), Hw. unfold stale. cbn [mw_fetched_at]. rewrite Z.ltb_antisym.
    destruct (Sub now' now <=? MetadataCacheTTL); [|reflexivity]. cbn [negb]. by rewrite !bind_read.
  - cbn [dw_Work]. by rewrite (cached_authors_same _ _ _ _ _ Hin Hs), Ha.
  - cbn [dw_Editions]. by rewrite (cached_editions_same _ _ _ _ Hs).
Qed.

(** ** The bound on covers *)

Definition bytes_of (kr : Z * cover_row) : Z := if cr_is_missing kr.2 then 0 else cr_byte_size kr.2.
Definition sum_bytes (l : list (Z * cover_row)) : Z := foldr (fun kr n => bytes_of kr + n) 0 l.

Lemma sum_bytes_app l k : sum_bytes (l ++ k) = sum_bytes l + sum_bytes k.
Proof. induction l as [|x l IH]; [done|]. cbn. unfold sum_bytes in *. lia. Qed.
Lemma sum_bytes_perm l k : l ≡ₚ k -> sum_bytes l = sum_bytes k.
Proof. induction 1; cbn; unfold sum_bytes in *; lia. Qed.
Lemma sum_bytes_present l :
  sum_bytes (List.filter (fun kr => negb (cr_is_missing kr.2)) l) = sum_bytes l.
Proof.
  unfold sum_bytes. induction l as [|x l IH]; [done|]. cbn. unfold bytes_of at 2.
  destruct (cr_is_missing x.2) eqn:E; cbn; [lia|]. unfold bytes_of at 1. rewrite E. lia.
Qed.
Lemma total_bytes_delete id r rows :
  rows !! id = Some r -> total_bytes (delete id rows) = total_bytes rows - bytes_of (id, r).
Proof.
  intros Hr. unfold total_bytes.
  change (sum_bytes (map_to_list (delete id rows)) = sum_bytes (map_to_list rows) - bytes_of (id, r)).
  rewrite <- (sum_bytes_perm _ _ (map_to_list_delete rows id r Hr)). cbn. unfold sum_bytes. lia.
Qed.

(** What is picked for eviction: the first covers of the order, and no more
    than it takes. *)
Lemma to_evict_spec maxBytes total l :
  Forall (fun kr => cr_is_missing kr.2 = false) l ->
  exists kept, l = to_evict maxBytes total l ++ kept /\
    (kept = [] \/ total - sum_bytes (to_evict maxBytes total l) <= maxBytes) /\
    (total <= maxBytes -> to_evict maxBytes total l = []).
Proof.
  intros Hl. revert total. induction Hl as [|c l Hc Hl IH]; intros total; [exists []; auto|].
  cbn [to_evict]. destruct (Z.ltb_spec maxBytes total) as [Hlt|Hle].
  - destruct (IH (total - cr_byte_size c.2)) as (kept & E & Hk & _). exists kept. split; [cbn; by f_equal|].
    split; [|lia]. destruct Hk as [->|Hk]; [by left|right]. cbn. unfold bytes_of at 1. rewrite Hc.
    unfold sum_bytes in *. lia.
  - exists (c :: l). split; [done|]. split; [right; cbn; lia|done].
Qed.

(** The store after an eviction none of whose calls fails. *)
Definition evicted_rows (l : list (Z * cover_row)) (rows : gmap Z cover_row) : gmap Z cover_row :=
  fold_left (fun t c => delete c.1 t) l rows.

Lemma evict_rows l st :
  cv_rows (fold_left (evict (fun _ => false) (fun _ => false)) l st) = evicted_rows l (cv_rows st).
Proof. revert st. induction l as [|c l IH]; intros st; [done|]. cbn. by rewrite IH. Qed.

Lemma evicted_rows_lookup l rows id : evicted_rows l rows !! id = if decide (id ∈ l.*1) then None else rows !! id.
Proof.
  revert rows. induction l as [|c l IH]; intros rows; [done|]. cbn [evicted_rows fold_left].
  change (fold_left _ l ?t) with (evicted_rows l t). rewrite IH. cbn [fmap list_fmap].
  destruct (decide (id ∈ l.*1)) as [Hin|Hout], (decide (id ∈ c.1 :: l.*1)) as [Hin'|Hout']; try done.
  - destruct Hout'. by right.
  - apply elem_of_cons in Hin' as [->|]; [|done]. apply lookup_delete_eq.
  - rewrite not_elem_of_cons in Hout'. rewrite lookup_delete_ne; [done|]. intros E. by destruct Hout' as [[] _].
Qed.

Lemma evicted_rows_total l rows :
  NoDup l.*1 -> Forall (fun kr => rows !! kr.1 = Some kr.2) l ->
  total_bytes (evicted_rows l rows) = total_bytes rows - sum_bytes l.
Proof.
  revert rows. induction l as [|[id r] l IH]; intros rows Hn Hl; [cbn; lia|].
  apply NoDup_cons in Hn as [Hid Hn]. apply Forall_cons in Hl as [Hr Hl]. cbn [fst snd] in *.
  cbn [evicted_rows fold_left]. change (fold_left _ l ?t) with (evicted_rows l t). rewrite IH; [|done|].
  - rewrite (total_bytes_delete _ r) by done. cbn. unfold sum_bytes. lia.
  - rewrite Forall_forall in *. intros kr Hin. rewrite lookup_delete_ne; [by apply Hl|]. intros Ek.
    apply Hid. cbn in Ek. rewrite Ek. apply list_elem_of_fmap. by exists kr.
Qed.

Lemma eviction_order_spec rows :
  NoDup (eviction_order rows).*1 /\
  (forall kr, kr ∈ eviction_order rows <-> rows !! kr.1 = Some kr.2 /\ cr_is_missing kr.2 = false) /\
  StronglySorted (fun x y => by_access x y = true) (eviction_order rows) /\
  sum_bytes (eviction_order rows) = total_bytes rows.
Proof.
  unfold eviction_order. set (present := fun kr : Z * cover_row => negb (cr_is_missing kr.2)).
  assert (Hp := sort_by_perm by_access (List.filter present (map_to_list rows))). split; [|split; [|split]].
  - rewrite Hp. apply (sublist_NoDup _ (map_to_list rows).*1); [apply NoDup_fst_map_to_list|]. apply fmap_sublist.
    clear. induction (map_to_list rows) as [|x l IH]; [constructor|]. cbn.
    destruct (present x); [by apply sublist_skip|by apply sublist_cons].
  - intros [id r]. rewrite Hp, list_elem_of_In, filter_In, <- list_elem_of_In, elem_of_map_to_list.
    unfold present. by rewrite negb_true_iff.
  - apply sort_by_sorted; unfold by_access; intros; [destruct (Z.le_ge_cases (cr_accessed_at x.2) (cr_accessed_at y.2)); lia|lia].
  - rewrite (sum_bytes_perm _ _ Hp). apply sum_bytes_present.
Qed.

(** After a cover was saved the covers on record take no more bytes than
    the cache allows; none was dropped if they fitted anyway, nothing else
    changed, and what was dropped had not been asked for since anything that
    is kept. *)
Theorem cover_cache_bounded is_image c randBytes now coverID contentType data st path st' :
  0 < cc_maxBytes c ->
  SaveCover is_image c no_save_faults randBytes now coverID contentType data st = (Ok path, st') ->
  let saved := <[coverID := mkCoverRow path (len data) (or_jpeg contentType) false now now]> (cv_rows st) in
  total_bytes (cv_rows st') <= cc_maxBytes c /\
  (total_bytes saved <= cc_maxBytes c -> cv_rows st' = saved) /\
  (forall id r, cv_rows st' !! id = Some r -> saved !! id = Some r) /\
  (forall id r id' r', saved !! id = Some r -> cv_rows st' !! id = None ->
     cv_rows st' !! id' = Some r' -> cr_is_missing r' = false -> cr_accessed_at r <= cr_accessed_at r').
Proof.
  intros Hmax Hsave saved.
  assert (E : cv_rows st' = cv_rows (evictIfNeeded no_evict_faults (cc_maxBytes c) (mkCoverStore saved (cv_files st')))).
  { unfold SaveCover, positive_cover in Hsave. destruct (coverID <=? 0); [done|].
    destruct (String.eqb data ""); [done|]. destruct (is_image data); [|done]. cbn -[evictIfNeeded] in Hsave.
    injection Hsave as <- <-. unfold evictIfNeeded. cbn. unfold saved. destruct (_ <=? _); [done|].
    by rewrite !evict_rows. }
  rewrite E. clear E Hsave. unfold evictIfNeeded. cbn [no_evict_faults ef_total ef_list ef_remove ef_delete cv_rows orb].
  destruct (Z.leb_spec (total_bytes saved) (cc_maxBytes c)) as [Hfit|Hover]; cbn iota.
  { cbn. split; [done|]. split; [done|]. split; [done|]. intros id r id' r' Hr Hn. congruence. }
  rewrite evict_rows. cbn [cv_rows]. destruct (eviction_order_spec saved) as (Hn & Hin & Hsort & Hsum).
  destruct (to_evict_spec (cc_maxBytes c) (total_bytes saved) (eviction_order saved)) as (kept & Hk & Hend & _).
  { apply Forall_forall. intros kr Hkr. by apply Hin in Hkr as [_ ?]. }
  set (gone := to_evict _ _ _) in *. rewrite Hk in Hn, Hsort, Hsum. setoid_rewrite Hk in Hin.
  rewrite fmap_app in Hn. apply NoDup_app in Hn as (Hng & Hdisj & _). rewrite sum_bytes_app in Hsum.
  split; [|split; [lia|split]].
  - rewrite evicted_rows_total; [|done|].
    + destruct Hend as [->|Hend]; [cbn in Hsum; lia|done].
    + apply Forall_forall. intros kr Hkr. apply Hin. apply elem_of_app. by left.
  - intros id r. rewrite evicted_rows_lookup. by destruct (decide _).
  - intros id r id' r' Hr Hgone Hkept Hm. rewrite evicted_rows_lookup in Hgone, Hkept.
    destruct (decide (id ∈ gone.*1)) as [Hg|]; [|congruence]. destruct (decide (id' ∈ gone.*1)) as [|Hg']; [done|].
    apply list_elem_of_fmap in Hg as ([id1 r1] & -> & Hg). cbn [fst] in *.
    assert (Hr1 : saved !! id1 = Some r1) by (apply (Hin (id1, r1)), elem_of_app; by left).
    rewrite Hr in Hr1. injection Hr1 as <-.
    assert (Hkin : (id', r') ∈ kept).
    { assert (H' : (id', r') ∈ gone ++ kept) by (by apply Hin). apply elem_of_app in H' as [H'|]; [|done].
      exfalso. apply Hg'. apply list_elem_of_fmap. by exists (id', r'). }
    apply (StronglySorted_app_1_elem_of _ _ _ (id1, r) (id', r')) in Hsort; [|done|done].
    by apply Z.leb_le in Hsort.
Qed.

(** ** On concrete inputs *)

Definition demo_documents : OpenLibraryJSON := {|
  search_json body := Some (3, [
    [("key", JsonString "/works/OL1W"); ("title", JsonString " Emma ");
     ("author_name", JsonArray [JsonString "Jane Austen"; JsonString ""]);
     ("author_key", JsonArray [JsonString "OL2A"]); ("first_publish_year", JsonNumber (f64_of_Z 1815))];
    [("key", JsonString "/works/OL1W"); ("title", JsonString "Emma again")];
    [("key", JsonString "/books/OL1M"); ("title", JsonString "Not a work")]]);
  work_json body := Some [("title", JsonString "Emma")];
  author_keys_json body := None;
  author_json body := None;
  editions_json body := None;
  float_other _ := 0;
|}.

Lemma search_results_clean_witness :
  let r := @NormaliseSearchResponse demo_documents "{}" 20 0 in
  (nr_Title <$> ns_Items (match r with Ok r => r | _ => mkNormalisedSearchResponse [] 0 0 0 end)) = ["Emma"] /\
  match r with
  | Ok r => NoDup (nr_OpenLibraryWorkKey <$> ns_Items r) /\ Forall clean_result (ns_Items r)
  | _ => False
  end.
Proof.
  intros r. split; [reflexivity|].
  exact (@search_results_clean demo_documents "{}" 20 0 _ eq_refl).
Defined.

(** A server that answers and a bucket that never runs out. *)
Definition demo_server : OpenLibraryServer := {|
  grants _ := true;
  answers url := OLResponse 200 "application/json" "{}" false;
|}.
Definition demo_client : OLClient := NewClient "http://ol/" "" 50.
Definition empty_metadata : metadata_db := mkMetadataDb ∅ ∅ [] ∅.
Definition demo_state : discover_state :=
  mkDiscoverState empty_metadata (mkCoverStore ∅ ∅) (mkOlWire [] 0).

Lemma work_lookup_witness :
  let handler := @DiscoverWorkDetailHandler demo_documents demo_server demo_client true 0 0 no_fault true true
                   no_fault no_fault "/works/OL1W" in
  ol_requests (ds_wire (handler demo_state).2) = ["http://ol/works/OL1W.json"; "http://ol/works/OL1W/editions.json?limit=50"] /\
  ((exists d row, GetCachedWork no_fault 0 (CleanKey "/works/OL1W") (ds_metadata demo_state) =
                    (Ok (Some d), ds_metadata demo_state) /\
      md_works (ds_metadata demo_state) !! CleanKey (CleanKey "/works/OL1W") = Some row /\
      Sub 0 (mw_fetched_at row) <= MetadataCacheTTL /\ handler demo_state = (Ok (d, CacheHit), demo_state)) \/
   (forall d, (GetCachedWork no_fault 0 (CleanKey "/works/OL1W") (ds_metadata demo_state)).1 <> Ok (Some d)) /\
   match @GetWork demo_documents demo_server demo_client (CleanKey "/works/OL1W") (ds_wire demo_state) with
   | (Ok d, w) => exists md, handler demo_state = (Ok (d, CacheMiss), mkDiscoverState md (ds_covers demo_state) w)
   | (Err e, w) => handler demo_state = (Err (discover_error "failed to fetch work details" e),
                                mkDiscoverState (ds_metadata demo_state) (ds_covers demo_state) w)
   | (OutOfFuel, w) => False
   end).
Proof.
  intros handler. split; [vm_compute; reflexivity|].
  exact (@work_lookup demo_documents demo_server demo_client 0 0 no_fault true true no_fault no_fault
           "/works/OL1W" demo_state eq_refl).
Defined.

Definition demo_detail : DiscoverWorkDetail :=
  mkDiscoverWorkDetail
    (mkNormalisedWork "Emma" "" "" ["Fiction"] [mkNormalisedAuthor (Some "OL2A") "J. Austen"; mkNormalisedAuthor None "Anonymous";
       mkNormalisedAuthor (Some "OL2A") "Jane Austen"] None)
    [mkNormalisedEdition "Emma" "Murray" "1815" "en" "OL3M" None].

(** In between another work is stored, one of its statements failing. *)
Definition demo_between : list cache_call :=
  [CallGetWork no_fault 6 "OL1W";
   CallSaveWork true true no_fault (fun n => Nat.eqb n 2) 6 "OL9W" (Some (mkDiscoverWorkDetail
     (mkNormalisedWork "Persuasion" "" "" [] [mkNormalisedAuthor (Some "OL8A") "J. A."] None) []));
   CallSaveAuthor false 6 (Some (mkNormalisedAuthor None "Anonymous"))].

Lemma cached_work_read_back_witness :
  let saved := (SaveCachedWork true true no_fault no_fault 5 "OL1W" (Some demo_detail) empty_metadata).2 in
  let later := cache_history demo_between saved in
  kept_authors (nw_Authors (dw_Work demo_detail)) = [mkNormalisedAuthor (Some "OL2A") "Jane Austen"] /\
  exists d', GetCachedWork no_fault 7 "OL1W" later =
      (Ok (if Sub 7 5 <=? MetadataCacheTTL then Some d' else None), later) /\
    dw_Work d' = set_authors (kept_authors (nw_Authors (dw_Work demo_detail))) (dw_Work demo_detail) /\
    dw_Editions d' ≡ₚ kept_editions (dw_Editions demo_detail).
Proof.
  intros saved later. split; [reflexivity|].
  apply (cached_work_read_back 5 7 "OL1W" demo_detail empty_metadata saved demo_between); [reflexivity|].
  repeat constructor; try done; vm_compute; set_solver.
Defined.

Definition demo_covers : cover_store :=
  mkCoverStore {[ 1 := mkCoverRow "covers/1.jpg" 8 "image/jpeg" false 1 1 ]} {[ "covers/1.jpg" := "12345678" ]}.

Lemma cover_cache_bounded_witness :
  let c := mkCoverCache "covers" 10 in
  let st' := (SaveCover (fun _ => true) c no_save_faults "r" 9 2 "" "123456" demo_covers).2 in
  let saved := <[2 := mkCoverRow "covers/2.jpg" 6 "image/jpeg" false 9 9]> (cv_rows demo_covers) in
  cv_rows st' !! 1 = None /\ total_bytes (cv_rows st') <= 10 /\
  (forall id r, cv_rows st' !! id = Some r -> saved !! id = Some r).
Proof.
  intros c st' saved. split; [reflexivity|].
  destruct (cover_cache_bounded (fun _ => true) c "r" 9 2 "" "123456" demo_covers "covers/2.jpg" st')
    as (H1 & _ & H3 & _); [reflexivity|reflexivity|]. split; [exact H1|exact H3].
Defined.
