(* ===== verification/ImportStore.v ===== *)
(** * The tables of the import pipeline
      (src/internal/persistence/postgres: import_candidate_repository.go,
       library_entry_repository.go, transactor.go)

    The candidates of migration 00007 beside the catalogue and the jobs, the
    statements of their repository, and the library's entries as the service
    of the domain uses them.  A transaction that a statement failed in refuses
    the statements after it. *)

From S2P Require Import Prelude GoStrings Errors Catalog Transactor Services Jobs Postgres Http Identity CatalogStore.

Local Open Scope string_scope.
Local Open Scope list_scope.
Local Open Scope Z_scope.

(** ** Tables *)

(** The statuses of a candidate. *)
Definition StatusQueued : string := "queued".
Definition StatusPending : string := "pending".
Definition StatusAutoImported : string := "auto_imported".
Definition StatusConfirmed : string := "confirmed".
Definition StatusRejected : string := "rejected".
Definition StatusFailed : string := "failed".

Definition ValidImportCandidateStatus (s : string) : bool :=
  bool_decide (s ∈ [StatusQueued; StatusPending; StatusAutoImported; StatusConfirmed; StatusRejected; StatusFailed]).

Record ImportCandidateRecord := mkImportCandidateRecord {
  ic_ID : string;
  ic_SourceID : string;
  ic_FileReference : FileReference;
  ic_Status : string;
  ic_ExtractedMetadata : string;
  ic_MatchCandidates : string;
  ic_JobID : option string;
  ic_LastError : option string;
  ic_CreatedAt : Time;
  ic_UpdatedAt : Time;
}.

(** The object in the column file_reference; no row this code writes has the
    key "referenceId" that the lookup of a file also admits. *)
Record fileReferenceJSON := mkFileReferenceJSON {
  fj_ID : string;
  fj_Format : string;
  fj_SizeBytes : option Z;
}.

Record candidate_cols := mkCandidateCols {
  cn_source_id : string;
  cn_file_reference : fileReferenceJSON;
  cn_status : string;
  cn_extracted_metadata : option string;
  cn_match_candidates : option string;
  cn_job_id : option string;
  cn_last_error : option string;
  cn_created_at : Time;
  cn_updated_at : Time;
}.

(** [im_source_libraries] is the column sources.library_id where it is not the
    default library, which is what every statement that creates a source
    leaves in it. *)
Record import_db := mkImportDb {
  im_catalog : catalog_db;
  im_source_libraries : gmap SourceID LibraryID;
  im_candidates : gmap string candidate_cols;
  im_jobs : gmap ID Job;
}.
Abbreviation importM := (stM import_db error) (only parsing).

Definition with_catalog t db := mkImportDb t (im_source_libraries db) (im_candidates db) (im_jobs db).
Definition with_candidates t db := mkImportDb (im_catalog db) (im_source_libraries db) t (im_jobs db).
Definition with_jobs t db := mkImportDb (im_catalog db) (im_source_libraries db) (im_candidates db) t.

Definition source_library (id : SourceID) (db : import_db) : LibraryID :=
  default DefaultLibraryID (im_source_libraries db !! id).

(** A statement of the catalogue. *)
Definition on_import_catalog {A} (m : stM catalog_db error A) : importM A := fun db =>
  let '(r, c) := m (im_catalog db) in (r, with_catalog c db).

(** ** Candidates (import_candidate_repository.go) *)

(** What a jsonb column keeps of a text and gives back; [None] when it is not
    JSON. *)
Class Jsonb := jsonb_text : string -> option string.

Section candidates.
Context `{Jsonb}.

Definition jsonb_cell (text : string) : res pg_error (option string) :=
  match nullIfEmpty text with
  | None => Ok None
  | Some t => match jsonb_text t with Some t' => Ok (Some t') | None => Err invalid_text end
  end.

(** [scanImportCandidate]. *)
Definition scan_candidate (kr : string * candidate_cols) : Result ImportCandidateRecord :=
  let '(id, r) := kr in
  let ref := cn_file_reference r in
  match NewFileReference (fj_ID ref) (fj_Format ref) (fj_SizeBytes ref) with
  | Ok f =>
      Ok (mkImportCandidateRecord id (cn_source_id r) f (cn_status r) (default "" (cn_extracted_metadata r))
            (default "" (cn_match_candidates r)) (cn_job_id r) (cn_last_error r) (cn_created_at r) (cn_updated_at r))
  | Err e => Err (TranslateError (ConnError (Errorf ("building file reference: " +:+ Error e) e)))
  | OutOfFuel => OutOfFuel
  end.

Definition insert_candidate (now : Time) (rec : ImportCandidateRecord) (db : import_db) : res pg_error import_db :=
  extracted ← jsonb_cell (ic_ExtractedMetadata rec);
  matched ← jsonb_cell (ic_MatchCandidates rec);
  if negb (ValidImportCandidateStatus (ic_Status rec)) then Err check_violation
  else if bool_decide (is_Some (im_candidates db !! ic_ID rec)) then Err unique_violation
  else if negb (bool_decide (is_Some (ct_sources (im_catalog db) !! ic_SourceID rec))) then Err foreign_key_violation
  else
    let ref := ic_FileReference rec in
    Ok (with_candidates (<[ic_ID rec := mkCandidateCols (ic_SourceID rec)
          (mkFileReferenceJSON (ReferenceID ref) (Format ref) (SizeBytes ref)) (ic_Status rec) extracted matched
          (ic_JobID rec) (ic_LastError rec) (orNow now (ic_CreatedAt rec)) (orNow now (ic_UpdatedAt rec))]>
          (im_candidates db)) db).

Definition CreateCandidate (fault : option pg_error) (now : Time) (rec : ImportCandidateRecord) : importM unit :=
  execute_ fault (insert_candidate now rec).

Definition candidate_missing : string := "import candidate not found".

Definition GetCandidate (fault : option pg_error) (id : string) : importM ImportCandidateRecord :=
  row ← query_one fault candidate_missing (fun db => im_candidates db !! id);
  reading (fun _ => scan_candidate (id, row)).

(** The candidate of a source of the library: the join of a candidate with its
    source. *)
Definition in_library_row (libraryID : LibraryID) (db : import_db) (r : candidate_cols) : bool :=
  bool_decide (is_Some (ct_sources (im_catalog db) !! cn_source_id r)) &&
  String.eqb (source_library (cn_source_id r) db) libraryID.

Definition GetInLibrary (fault : option pg_error) (libraryID : LibraryID) (id : string)
    : importM ImportCandidateRecord :=
  row ← query_one fault candidate_missing (fun db =>
    r ← im_candidates db !! id;
    if in_library_row libraryID db r then Some r else None);
  reading (fun _ => scan_candidate (id, row)).

(** [ORDER BY created_at, id]. *)
Definition by_creation (x y : string * candidate_cols) : bool :=
  (cn_created_at x.2 <? cn_created_at y.2) ||
  ((cn_created_at x.2 =? cn_created_at y.2) && String.leb x.1 y.1).

(** A filter that is absent or empty admits everything. *)
Definition admits (filter : option string) (value : string) : bool :=
  match filter with None | Some "" => true | Some f => String.eqb value f end.

Definition candidates_where (admitted : candidate_cols -> bool) (sourceID status : option string)
    (db : import_db) : list (string * candidate_cols) :=
  sort_by by_creation
    (select (fun _ r => admitted r && admits sourceID (cn_source_id r) && admits status (cn_status r))
       (im_candidates db)).

Definition ListInLibrary (fault : option pg_error) (libraryID : LibraryID) (sourceID status : option string)
    : importM (list ImportCandidateRecord) :=
  rows ← exec fault (fun db => Ok (candidates_where (in_library_row libraryID db) sourceID status db, db));
  reading (fun _ => scan_rows scan_candidate rows).

Definition ListCandidates (fault : option pg_error) (sourceID status : option string)
    : importM (list ImportCandidateRecord) :=
  rows ← exec fault (fun db => Ok (candidates_where (fun _ => true) sourceID status db, db));
  reading (fun _ => scan_rows scan_candidate rows).

(** An UPDATE of one candidate, whose new row the checks see. *)
Definition update_candidate (fault : option pg_error) (id : string)
    (f : candidate_cols -> res pg_error candidate_cols) : importM unit :=
  affecting candidate_missing (exec fault (fun db =>
    match im_candidates db !! id with
    | None => Ok (0, db)
    | Some r =>
        r' ← f r;
        if ValidImportCandidateStatus (cn_status r')
        then Ok (1, with_candidates (<[id := r']> (im_candidates db)) db) else Err check_violation
    end)).

Definition UpdateStatus (fault : option pg_error) (id status : string) (now : Time) : importM unit :=
  update_candidate fault id (fun r =>
    Ok (mkCandidateCols (cn_source_id r) (cn_file_reference r) status (cn_extracted_metadata r)
          (cn_match_candidates r) (cn_job_id r) (cn_last_error r) (cn_created_at r) now)).

Definition UpdateExtractedAndMatches (fault : option pg_error) (id status extracted matched : string) (now : Time)
    : importM unit :=
  update_candidate fault id (fun r =>
    extracted ← jsonb_cell extracted;
    matched ← jsonb_cell matched;
    Ok (mkCandidateCols (cn_source_id r) (cn_file_reference r) status extracted matched
          (cn_job_id r) (cn_last_error r) (cn_created_at r) now)).

Definition UpdateFailed (fault : option pg_error) (id lastError : string) (now : Time) : importM unit :=
  update_candidate fault id (fun r =>
    Ok (mkCandidateCols (cn_source_id r) (cn_file_reference r) StatusFailed (cn_extracted_metadata r)
          (cn_match_candidates r) (cn_job_id r) (Some lastError) (cn_created_at r) now)).

Definition ExistsBySourceAndFileRefID (fault : option pg_error) (sourceID fileRefID : string) : importM bool :=
  exec fault (fun db =>
    Ok (bool_decide (select (fun _ r => String.eqb (cn_source_id r) sourceID &&
                                        String.eqb (fj_ID (cn_file_reference r)) fileRefID)
                       (im_candidates db) <> []), db)).
End candidates.

(** An edition of the library with an ISBN. *)
Record ExistingEditionHit := mkExistingEditionHit {
  eh_EditionID : string;
  eh_WorkID : string;
  eh_Title : string;
  eh_Author : string;
  eh_CoverURL : option string;
  eh_ISBN : string;
}.

(** The query orders by [wa.ordering], and the table work_authors has no such
    column (migration 00002): PostgreSQL refuses the statement. *)
Definition undefined_column : pg_error := PgError "42703".
Definition FindOwnedByISBN (fault : option pg_error) (isbn : string) : importM (list ExistingEditionHit) :=
  exec fault (fun _ => Err undefined_column).

(** ** Entries of the library (library_entry_repository.go) *)

Definition entry_of (r : library_entry_row) : LibraryEntry :=
  NewLibraryEntry (lr_id r) (lr_edition_id r) (lr_added_at r).

Definition FindEntry (fault : option pg_error) (editionID : EditionID) (db : catalog_db) : Result LibraryEntry :=
  (query_one fault "library entry not found" (fun db =>
     entry_of <$> head (List.filter (fun r => String.eqb (lr_edition_id r) editionID) (ct_library_entries db))) db).1.

(** The INSERT into the default library; [false] when the edition is in it. *)
Definition insert_entry (e : LibraryEntry) (db : catalog_db) : res pg_error (bool * catalog_db) :=
  let entries := ct_library_entries db in
  if existsb (fun r => String.eqb (lr_library_id r) DefaultLibraryID && String.eqb (lr_edition_id r) (le_editionID e))
       entries
  then Ok (false, db)
  else if existsb (fun r => String.eqb (lr_id r) (le_id e)) entries then Err unique_violation
  else if negb (bool_decide (is_Some (ct_editions db !! le_editionID e))) ||
          negb (bool_decide (DefaultLibraryID ∈ ct_libraries db))
  then Err foreign_key_violation
  else Ok (true, with_library_entries
             (entries ++ [mkLibraryEntryRow (le_id e) (le_editionID e) DefaultLibraryID (le_addedAt e)]) db).

(** The second attempt names a conflict target, edition_id alone, that has had
    no unique constraint since migration 00009: PostgreSQL refuses it. *)
Definition no_conflict_target : pg_error := PgError "42P10".
Definition SaveEntryRow (fault fault' : option pg_error) (e : LibraryEntry) (db : catalog_db) : Result catalog_db :=
  match (match fault with Some f => Err f | None => insert_entry e db end) with
  | Ok (true, db') => Ok db'
  | Ok (false, _) => fails Conflict "the requested change conflicts with an existing record"
  | Err _ => Err (TranslateError (default no_conflict_target fault'))
  | OutOfFuel => OutOfFuel
  end.

Definition DeleteEntryRow (fault : option pg_error) (editionID : EditionID) (db : catalog_db) : Result catalog_db :=
  match fault with
  | Some f => Err (TranslateError f)
  | None => Ok (with_library_entries
                  (List.filter (fun r => negb (String.eqb (lr_edition_id r) editionID)) (ct_library_entries db)) db)
  end.

(** The repository the library's service is given. *)
Definition entries_repository (find save save' delete_ : option pg_error) : LibraryEntryRepository catalog_db := {|
  entries_view db := list_to_map ((fun r => (lr_edition_id r, entry_of r)) <$> ct_library_entries db);
  FindByEdition i db := FindEntry find i db;
  SaveEntry e db := SaveEntryRow save save' e db;
  DeleteByEdition i db := DeleteEntryRow delete_ i db;
|}.

(** [LibraryService.AddEntry] over the tables; the faults of its statements
    are numbered from [0]: two queries for the edition, one for the entry, two
    insertions. *)
Definition AddEntryRow (faults : nat -> option pg_error) (editionID : EditionID) (addedAt : Time)
    : stM catalog_db error (LibraryEntry * option SensitiveEvent) := fun db =>
  @AddEntry _ (entries_repository (faults 2%nat) (faults 3%nat) (faults 4%nat) None)
    (fun i => (FindEditionByID as_inserted faults i db).1) editionID addedAt db.

(** ** A transaction that a failed statement aborts *)

(** What is pending, and whether a statement was refused by the server. *)
Definition import_tx : Type := import_db * bool.
Definition in_failed_transaction : pg_error := PgError "25P02".

(** The error of a statement the server refused carries its SQLSTATE. *)
Definition refused (e : error) : bool :=
  match e with DomainError _ _ (Some (New m)) => HasPrefix m "SQLSTATE " | _ => false end.

(** A call of a repository inside the transaction. *)
Definition in_tx {A} (m : importM A) : stM import_tx error A := fun '(db, aborted) =>
  if aborted : bool then (Err (TranslateError in_failed_transaction), (db, true))
  else
    match m db with
    | (Ok a, db') => (Ok a, (db', false))
    | (Err e, db') => (Err e, (db', refused e))
    | (OutOfFuel, db') => (OutOfFuel, (db', false))
    end.

(** [Transactor.InTx]; [body] starts with a transaction nothing failed in. *)
Definition ImportTx {A} (tx : TxOutcome) (body : stM import_tx error A) : importM A :=
  InTx tx (fun db => let '(r, (db', _)) := body (db, false) in (r, db')).
