(* ===== verification/Importer.v ===== *)
(** * Importing books (src/internal/importer: matching.go, service.go)

    How a file's metadata is matched against the library and Open Library, and
    what is written when a candidate is attached to an edition, made into a
    new work, or rejected. *)

From S2P Require Import Prelude GoStrings Errors Validate Catalog Transactor Postgres Http Encoding Patterns Identity Services CatalogStore CatalogLaws OpenLibrary Extract ImportStore.

Local Open Scope string_scope.
Local Open Scope list_scope.
Local Open Scope Z_scope.

(** ** Matching (matching.go) *)

Definition MatchCandidateTypeExistingEdition : string := "existing_edition".
Definition MatchCandidateTypeOpenLibraryWork : string := "open_library_work".

Abbreviation MatchConfidence := string (only parsing).
Definition MatchConfidenceExact : MatchConfidence := "exact".
Definition MatchConfidenceHigh : MatchConfidence := "high".
Definition MatchConfidenceMedium : MatchConfidence := "medium".
Definition MatchConfidenceLow : MatchConfidence := "low".

Record MatchCandidate := mkMatchCandidate {
  mc_Type : string;
  mc_Confidence : MatchConfidence;
  mc_Title : string;
  mc_Author : option string;
  mc_CoverURL : option string;
  mc_EditionID : option string;
  mc_OpenLibraryWorkKey : option string;
}.

(** [whitespaceRegex]. *)
Definition whitespace : pat := PPlus (In white).

Section matching.
Context `{CaseTables}.

Definition normalizeText (s : string) : string :=
  TrimSpace (ReplaceAllFunc whitespace (fun _ => " ") (ToLower s)).

Definition has_paren (s : string) : bool := Contains s "(".
Definition before_paren (s : string) : string := hd "" (Split "(" s).

(** An author of the metadata against one of the result. *)
Definition same_author (metaAuthor : string) (itemA : NormalisedAuthor) : bool :=
  let normMetaA := normalizeText metaAuthor in
  let normItemA := normalizeText (na_Name itemA) in
  negb (String.eqb normMetaA "") &&
  (String.eqb normMetaA normItemA || Contains normItemA normMetaA || Contains normMetaA normItemA).
Definition author_matches (meta : ExtractedMetadata) (item : NormalisedSearchResult) : bool :=
  existsb (fun a => existsb (same_author a) (nr_Authors item)) (em_Authors meta).

Definition ScoreOpenLibraryResult (meta : ExtractedMetadata) (item : NormalisedSearchResult) : MatchConfidence :=
  let metaTitle := normalizeText (em_Title meta) in
  let itemTitle := normalizeText (nr_Title item) in
  let hasParenDiff := negb (Bool.eqb (has_paren (em_Title meta)) (has_paren (nr_Title item))) in
  if String.eqb metaTitle itemTitle then
    if author_matches meta item then
      if hasParenDiff then MatchConfidenceMedium else MatchConfidenceHigh
    else MatchConfidenceMedium
  else
    let baseMeta := normalizeText (before_paren (em_Title meta)) in
    let baseItem := normalizeText (before_paren (nr_Title item)) in
    if negb (String.eqb baseMeta "") && String.eqb baseMeta baseItem
    then MatchConfidenceMedium else MatchConfidenceLow.

Definition existing_match (hit : ExistingEditionHit) : MatchCandidate :=
  mkMatchCandidate MatchCandidateTypeExistingEdition MatchConfidenceExact (eh_Title hit)
    (nullIfEmpty (eh_Author hit)) (eh_CoverURL hit) (Some (eh_EditionID hit)) None.
Definition open_library_match (meta : ExtractedMetadata) (item : NormalisedSearchResult) : MatchCandidate :=
  mkMatchCandidate MatchCandidateTypeOpenLibraryWork (ScoreOpenLibraryResult meta item) (nr_Title item)
    (na_Name <$> head (nr_Authors item)) (nr_CoverURL item) None (Some (nr_OpenLibraryWorkKey item)).

Definition match_query (meta : ExtractedMetadata) : string :=
  match em_Authors meta with
  | a :: _ => em_Title meta +:+ " " +:+ a
  | [] => em_Title meta
  end.

(** A call whose failure counts for nothing. *)
Definition or_none {S A} (m : stM S error A) : stM S error (option A) := fun s =>
  match m s with (Ok a, s') => (Ok (Some a), s') | (_, s') => (Ok None, s') end.

(** A matcher over the finder of the library's editions and the search of Open
    Library, either of which may be missing. *)
Section matcher.
Context {W : Type}.
Record Matcher := mkMatcher {
  mt_library : option (string -> stM W error (list ExistingEditionHit));
  mt_openLibrary : option (string -> Z -> Z -> stM W error NormalisedSearchResponse);
}.

Definition library_hits (m : Matcher) (meta : ExtractedMetadata) : stM W error (list ExistingEditionHit) :=
  match em_ISBN meta, mt_library m with
  | Some isbn, Some find =>
      if String.eqb isbn "" then mret []
      else hits ← or_none (find isbn); mret (default [] hits)
  | _, _ => mret []
  end.
Definition open_library_hits (m : Matcher) (meta : ExtractedMetadata) : stM W error (list NormalisedSearchResult) :=
  match mt_openLibrary m with
  | Some search =>
      if String.eqb (em_Title meta) "" then mret []
      else r ← or_none (search (match_query meta) 5 0); mret (default [] (ns_Items <$> r))
  | None => mret []
  end.

Definition Match (m : Matcher) (meta : ExtractedMetadata) : stM W error (list MatchCandidate * bool) :=
  hits ← library_hits m meta;
  items ← open_library_hits m meta;
  mret ((existing_match <$> hits) ++ (open_library_match meta <$> items), Nat.eqb (length hits) 1).
End matcher.
End matching.
Arguments Matcher : clear implicits.

(** ** The service (service.go) *)

(** The faults of a call are numbered by its statements; [ids] are the
    identifiers the generator hands out. *)
Abbreviation faults_of := (nat -> option pg_error) (only parsing).

Abbreviation txM := (stM import_tx error) (only parsing).

(** The last three steps of every import: the offering, the entry, the
    candidate's status. *)
Definition attach (f_offering : option pg_error) (f_entry : faults_of) (f_status : option pg_error)
    (candidateID sourceID offeringID : string) (editionID : EditionID) (ref : FileReference) (status : string)
    (now : Time) : txM unit :=
  let offering := NewSourceOffering offeringID sourceID editionID ref now in
  _ ← in_tx (on_import_catalog (SaveOfferingRow f_offering offering));
  _ ← in_tx (on_import_catalog (AddEntryRow f_entry editionID now));
  in_tx (UpdateStatus f_status candidateID status now).

Definition AutoImport (tx : TxOutcome) (f_offering : option pg_error) (f_entry : faults_of)
    (f_status : option pg_error) (newID candidateID sourceID editionID : string) (fileRef : FileReference)
    (verifiedFormat : Format) (now : Time) : importM unit :=
  match NewFileReference (ReferenceID fileRef) verifiedFormat (SizeBytes fileRef) with
  | Err err => throw (Errorf ("building verified file reference: " +:+ Error err) err)
  | OutOfFuel => fun db => (OutOfFuel, db)
  | Ok vRef =>
      ImportTx tx (attach f_offering f_entry f_status candidateID sourceID newID editionID vRef
                     StatusAutoImported now)
  end.

(** The candidate, if it is pending. *)
Definition pending_candidate (f_get : option pg_error) (candidateID : string) : importM ImportCandidateRecord :=
  cand ← GetCandidate f_get candidateID;
  if negb (String.eqb (ic_Status cand) StatusPending)
  then throw (mkErr Conflict ("candidate " +:+ candidateID +:+ " is not in pending status"))
  else mret cand.

Definition ConfirmAttachExisting (tx : TxOutcome) (f_get f_offering : option pg_error) (f_entry : faults_of)
    (f_status : option pg_error) (newID candidateID : string) (editionID : EditionID) (now : Time) : importM unit :=
  cand ← pending_candidate f_get candidateID;
  ImportTx tx (attach f_offering f_entry f_status candidateID (ic_SourceID cand) newID editionID
                 (ic_FileReference cand) StatusConfirmed now).

(** The faults of making a new work: of each author's statements, of the
    work's, of the edition's, and of the attachment's. *)
Record create_faults := mkCreateFaults {
  cf_author : nat -> faults_of;
  cf_work : faults_of;
  cf_edition : faults_of;
  cf_offering : option pg_error;
  cf_entry : faults_of;
  cf_status : option pg_error;
}.
Definition no_create_faults : create_faults :=
  mkCreateFaults (fun _ => no_faults) no_faults no_faults None no_faults None.

(** The loop over the authors' names: one whose name is refused, or that does
    not save, is left out.  The [i]-th name takes the [i]-th identifier. *)
Fixpoint save_new_authors (faults : nat -> faults_of) (ids : nat -> string) (i : nat) (names : list string)
    : txM (list AuthorID) :=
  match names with
  | [] => mret []
  | aName :: names' =>
      saved ← match NewAuthor (ids i) aName [] with
              | Ok author => or_none (in_tx (on_import_catalog (SaveAuthorRow (faults i) author)))
              | _ => mret None
              end;
      rest ← save_new_authors faults ids (S i) names';
      mret (match saved with Some _ => ids i :: rest | None => rest end)
  end.

(** [domain.NewLanguage], falling back on the language so far. *)
Definition language_or (tag : string) (lang : Language) : Language :=
  match NewLanguage tag with Ok l => l | _ => lang end.
Definition language_of (meta : ExtractedMetadata) : Language :=
  let lang := mkLanguage "en" in
  match em_Language meta with
  | Some tag => if String.eqb tag "" then lang else language_or tag lang
  | None => lang
  end.

(** The work, its edition and their attachment, from what was decided before. *)
Definition create_work (f : create_faults) (ids : nat -> string) (cand : ImportCandidateRecord)
    (candidateID : string) (names : list string) (title subtitle : string) (refs : list ExternalReference)
    (lang : Language) (isbn : option string) (publisher : string) (now : Time) : txM unit :=
  authorIDs ← save_new_authors (cf_author f) ids 0 names;
  let workID := ids (length names) in
  work ← reading (fun _ => NewWork workID title subtitle authorIDs [] None refs);
  _ ← in_tx (on_import_catalog (SaveWorkRow (cf_work f) work));
  let editionID := ids (length names + 1)%nat in
  edition ← reading (fun _ => NewEdition editionID workID lang isbn publisher None []);
  _ ← in_tx (on_import_catalog (SaveEditionRow (cf_edition f) edition));
  attach (cf_offering f) (cf_entry f) (cf_status f) candidateID (ic_SourceID cand) (ids (length names + 2)%nat)
    editionID (ic_FileReference cand) StatusConfirmed now.

Definition ConfirmCreateNew (tx : TxOutcome) (f_get : option pg_error) (f : create_faults) (ids : nat -> string)
    (candidateID : string) (meta : ExtractedMetadata) (now : Time) : importM unit :=
  cand ← pending_candidate f_get candidateID;
  ImportTx tx (create_work f ids cand candidateID (em_Authors meta) (em_Title meta) "" [] (language_of meta)
                 (em_ISBN meta) (default "" (em_Publisher meta)) now).

(** What Open Library says goes before what the file says. *)
Definition ol_author_names (meta : ExtractedMetadata) (olDetail : option DiscoverWorkDetail) : list string :=
  match olDetail with
  | Some d => match nw_Authors (dw_Work d) with
              | [] => em_Authors meta
              | authors => na_Name <$> authors
              end
  | None => em_Authors meta
  end.
Definition ol_title (meta : ExtractedMetadata) (olDetail : option DiscoverWorkDetail) : string * string :=
  match olDetail with
  | Some d => if String.eqb (nw_Title (dw_Work d)) "" then (em_Title meta, "")
              else (nw_Title (dw_Work d), nw_Subtitle (dw_Work d))
  | None => (em_Title meta, "")
  end.
Definition ol_first_edition (olDetail : option DiscoverWorkDetail) : option NormalisedEdition :=
  d ← olDetail; head (dw_Editions d).
Definition ol_language (meta : ExtractedMetadata) (olDetail : option DiscoverWorkDetail) : Language :=
  let lang := language_of meta in
  match ol_first_edition olDetail with
  | Some ed => if String.eqb (ne_Language ed) "" then lang else language_or (ne_Language ed) lang
  | None => lang
  end.
Definition ol_publisher (meta : ExtractedMetadata) (olDetail : option DiscoverWorkDetail) : string :=
  let pub := default "" (em_Publisher meta) in
  match ol_first_edition olDetail with
  | Some ed => if String.eqb (ne_Publisher ed) "" then pub else ne_Publisher ed
  | None => pub
  end.
Definition ol_references (openLibraryWorkKey : string) : list ExternalReference :=
  if String.eqb openLibraryWorkKey "" then [] else [mkExternalReference "openlibrary" openLibraryWorkKey].

Definition ConfirmOpenLibraryMatch (tx : TxOutcome) (f_get : option pg_error) (f : create_faults)
    (ids : nat -> string) (candidateID openLibraryWorkKey : string) (meta : ExtractedMetadata)
    (olDetail : option DiscoverWorkDetail) (now : Time) : importM unit :=
  cand ← pending_candidate f_get candidateID;
  ImportTx tx (create_work f ids cand candidateID (ol_author_names meta olDetail) (ol_title meta olDetail).1
                 (ol_title meta olDetail).2 (ol_references openLibraryWorkKey) (ol_language meta olDetail)
                 (em_ISBN meta) (ol_publisher meta olDetail) now).

Definition Reject (f_get f_status : option pg_error) (candidateID : string) (now : Time) : importM unit :=
  _ ← pending_candidate f_get candidateID;
  UpdateStatus f_status candidateID StatusRejected now.
