(* ===== verification/ImportJob.v ===== *)
(** * Discovering and reading files (src/internal/importer: job.go,
      discovery.go; src/internal/transport/http/import_ref.go)

    The providers of stored sources, the job that reads a file and matches it,
    and the run over a source's files that enqueues one job for each.  The
    JSON texts of payloads and metadata are a class. *)

From S2P Require Import Prelude GoStrings Errors Validate Catalog Transactor Postgres Http Jobs PairingStore Tokens Identity Paths CatalogStore CatalogLaws Sources SourceProviders SourceHandlers OpenLibrary Extract ImportStore Importer.

Local Open Scope string_scope.
Local Open Scope list_scope.
Local Open Scope Z_scope.

Record ImportJobPayload := mkImportJobPayload {
  ip_CandidateID : string;
  ip_SourceID : string;
  ip_FileReference : FileReference;
}.

(** [json.Marshal] and [json.Unmarshal] of what the pipeline stores; decoding
    metadata that does not decode leaves what it had read. *)
Class ImportJSON := {
  payload_json : ImportJobPayload -> Result string;
  parse_payload : string -> Result ImportJobPayload;
  metadata_json : ExtractedMetadata -> Result string;
  matches_json : list MatchCandidate -> Result string;
  parse_metadata : string -> ExtractedMetadata * option error;
}.

(** What the pipeline works on: the tables, the requests made to sources and
    to Open Library, the temporary files there are, and the progress that was
    reported. *)
Record import_world := mkImportWorld {
  iw_db : import_db;
  iw_sources : wire;
  iw_openlibrary : ol_wire;
  iw_files : nat;
  iw_progress : list Z;
}.
Abbreviation worldM := (stM import_world error) (only parsing).

Definition on_db {A} (m : stM import_db error A) : worldM A := fun w =>
  let '(r, db) := m (iw_db w) in
  (r, mkImportWorld db (iw_sources w) (iw_openlibrary w) (iw_files w) (iw_progress w)).
Definition on_source {A} (m : stM wire error A) : worldM A := fun w =>
  let '(r, n) := m (iw_sources w) in
  (r, mkImportWorld (iw_db w) n (iw_openlibrary w) (iw_files w) (iw_progress w)).
Definition on_openlibrary {A} (m : stM ol_wire error A) : worldM A := fun w =>
  let '(r, n) := m (iw_openlibrary w) in
  (r, mkImportWorld (iw_db w) (iw_sources w) n (iw_files w) (iw_progress w)).
Definition on_files {A} (m : stM nat error A) : worldM A := fun w =>
  let '(r, n) := m (iw_files w) in
  (r, mkImportWorld (iw_db w) (iw_sources w) (iw_openlibrary w) n (iw_progress w)).
Definition report (n : Z) : worldM unit := fun w =>
  (Ok tt, mkImportWorld (iw_db w) (iw_sources w) (iw_openlibrary w) (iw_files w) (iw_progress w ++ [n])).

(** A call whose error is looked at, one whose error is dropped, and one after
    which the temporary file is closed and removed. *)
Definition outcome {A} (m : worldM A) : worldM (Result A) := fun w => let '(r, w') := m w in (Ok r, w').
Definition dropped {A} (m : worldM A) : worldM unit := fun w => (Ok tt, (m w).2).
Definition with_cleanup {A} (m : worldM A) : worldM A := fun w =>
  let '(r, w') := m w in
  (r, mkImportWorld (iw_db w') (iw_sources w') (iw_openlibrary w') (cleanup (iw_files w')) (iw_progress w')).

Section pipeline.
Context `{CaseTables} `{FoldTable} `{Urls} `{Addresses} `{TokenPrimitives} `{Crypto} `{Decoders} `{Network}
  `{FileSystem} `{Containers} `{OpenLibraryJSON} `{OpenLibraryServer} `{Jsonb} `{ImportJSON}.
(** What the registry of the job queue holds for a kind. *)
Context {Handler : Type}.

(** ** Providers of stored sources (import_ref.go) *)

(** A credential that cannot be read back is left out. *)
Definition resolver_credential (cfg : source_config) (rec : SourceRecord) : Credential :=
  if HasCredential rec && sc_Encryptor (crypto_of cfg) then default zero_credential (stored_credential rec)
  else zero_credential.

Definition ProviderFor (cfg : source_config) (fault : option pg_error) (sourceID : string) : worldM provider :=
  rec ← on_db (on_import_catalog (GetSourceRecord fault sourceID));
  match sc_Codec (crypto_of cfg) with
  | None => throw (mkErr Unavailable "source crypto not ready")
  | Some key =>
      if String.eqb (sr_Kind rec) KindLocalFolder then
        p ← reading (fun _ => NewLocal sourceID (sr_ConfigBasePath rec) key); mret (PLocal p)
      else if String.eqb (sr_Kind rec) KindOPDS then
        mret (new_opds sourceID (sr_ConfigBaseURL rec) (sr_SearchLinkURL rec) (resolver_credential cfg rec)
                (HasCredential rec) cfg)
      else throw (mkErr InvalidInput ("unsupported source kind " +:+ quote (sr_Kind rec)))
  end.

Definition ResolveSource (cfg : source_config) (fault : option pg_error) (sourceID : string) (ref : FileReference)
    : worldM string :=
  p ← ProviderFor cfg fault sourceID;
  match p with
  | PLocal p => reading (fun _ => LocalResolve p ref)
  | POPDS p => on_source (OPDSResolve p ref)
  end.

Definition ListSource (cfg : source_config) (fault : option pg_error) (sourceID cursor : string) (limit : Z)
    : worldM CandidatePage :=
  p ← ProviderFor cfg fault sourceID;
  match p with
  | PLocal p => reading (fun _ => LocalList p cursor limit)
  | POPDS p => on_source (OPDSList p cursor)
  end.

Definition GetSourceForImport (fault : option pg_error) (sourceID : string) : worldM Source :=
  on_db (on_import_catalog (FindSourceByID fault sourceID)).

Definition EnqueueImportJob (registry : Registry Handler) (newID : string) (now : Time) (payload : ImportJobPayload)
    : worldM string :=
  on_db (fun db =>
    match QueueEnqueue registry newID now "import" (payload_json payload) (im_jobs db) with
    | Ok (jobID, t) => (Ok jobID, with_jobs t db)
    | Err e => (Err e, db)
    | OutOfFuel => (OutOfFuel, db)
    end).

(** ** The job (job.go) *)

(** What a run of the job meets: how the stream of a file arrives, what the
    system answers while it is spooled and opened, the faults of its
    statements, the identifier of an offering, the transaction's outcome. *)
Record job_env := mkJobEnv {
  je_source_fault : option pg_error;
  je_reads : string -> list read_step;
  je_spool : spool;
  je_stat : option error;
  je_cancelled : option error;
  je_cancelled' : option error;
  je_stat' : option error;
  je_failed : option pg_error;
  je_tx : TxOutcome;
  je_offering : option pg_error;
  je_entry : nat -> option pg_error;
  je_status : option pg_error;
  je_newID : string;
}.

(** The candidate is marked as failed; then the job ends with [err]. *)
Definition fail_candidate {A} (env : job_env) (candidateID reason : string) (now : Time) (err : error) : worldM A :=
  _ ← dropped (on_db (UpdateFailed (je_failed env) candidateID reason now));
  throw err.

Definition permanent_extraction (err : error) : bool :=
  Is err (Error ErrNoTitle) || Is err (Error ErrMalformed) || Is err (Error ErrOversized) ||
  Is err (Error ErrTooManyEntries).

(** [fmt.Errorf("...: %w", err)] around what a call answers. *)
Definition wrapping {A} (msg : string) (m : worldM A) : worldM A := fun w =>
  match m w with
  | (Err e, w') => (Err (Errorf (msg +:+ Error e) e), w')
  | r => r
  end.

(** The last part: the file is attached at once, or kept for a decision. *)
Definition settle (env : job_env) (svc : bool) (payload : ImportJobPayload) (format : Format)
    (meta : ExtractedMetadata) (matched : list MatchCandidate) (autoAccept : bool) (now : Time) : worldM unit :=
  let keep :=
    metaJSON ← wrapping "marshalling extracted metadata: " (reading (fun _ => metadata_json meta));
    matchJSON ← wrapping "marshalling match candidates: " (reading (fun _ => matches_json matched));
    wrapping "updating candidate: "
      (on_db (UpdateExtractedAndMatches (je_status env) (ip_CandidateID payload) StatusPending metaJSON matchJSON now)) in
  match matched with
  | [m] =>
      match mc_EditionID m with
      | Some editionID =>
          if autoAccept && svc then
            r ← outcome (on_db (AutoImport (je_tx env) (je_offering env) (je_entry env) (je_status env)
                                  (je_newID env) (ip_CandidateID payload) (ip_SourceID payload) editionID
                                  (ip_FileReference payload) format now));
            match r with
            | Err err => fail_candidate env (ip_CandidateID payload)
                           ("auto-importing candidate: " +:+ Error err) now err
            | OutOfFuel => fun w => (OutOfFuel, w)
            | Ok _ => mret tt
            end
          else keep
      | None => keep
      end
  | _ => keep
  end.

(** What is done with the spooled file. *)
Definition process_file (env : job_env) (matcher : Matcher import_world) (svc : bool)
    (payload : ImportJobPayload) (f : string) (now : Time) : worldM unit :=
  let failed {A} reason err : worldM A := fail_candidate env (ip_CandidateID payload) reason now err in
  _ ← report 40;
  match DetectFormat (je_stat env) f with
  | Err err => failed ("detecting format: " +:+ Error err) (PermanentError err)
  | OutOfFuel => fun w => (OutOfFuel, w)
  | Ok format =>
      if String.eqb format FormatUnknown then
        failed "unknown or unsupported file format" (PermanentError (New "unknown or unsupported file format"))
      else
        match Extract (je_cancelled env) (je_cancelled' env) (je_stat' env) format f with
        | Err err => failed ("extracting metadata: " +:+ Error err)
                       (if permanent_extraction err then PermanentError err else err)
        | OutOfFuel => fun w => (OutOfFuel, w)
        | Ok meta =>
            _ ← report 70;
            r ← outcome (Match matcher meta);
            match r with
            | Err err => failed ("matching records: " +:+ Error err) err
            | OutOfFuel => fun w => (OutOfFuel, w)
            | Ok (matched, autoAccept) =>
                _ ← report 90;
                _ ← settle env svc payload format meta matched autoAccept now;
                report 100
            end
        end
  end.

Definition ImportJob (cfg : source_config) (env : job_env) (matcher : Matcher import_world) (svc : bool)
    (now : Time) (rawPayload : string) : worldM unit :=
  match parse_payload rawPayload with
  | Err err => throw (PermanentError (Errorf ("invalid import job payload: " +:+ Error err) err))
  | OutOfFuel => fun w => (OutOfFuel, w)
  | Ok payload =>
      let failed {A} reason err : worldM A := fail_candidate env (ip_CandidateID payload) reason now err in
      _ ← report 10;
      stream ← outcome (ResolveSource cfg (je_source_fault env) (ip_SourceID payload) (ip_FileReference payload));
      match stream with
      | Err err => failed ("resolving source file: " +:+ Error err)
                     (PermanentError (Errorf ("resolving source file: " +:+ Error err) err))
      | OutOfFuel => fun w => (OutOfFuel, w)
      | Ok content =>
          tmpFile ← outcome (on_files (Materialize (je_spool env) (je_reads env content)));
          match tmpFile with
          | Err err => failed ("spooling source file: " +:+ Error err)
                         (if Is err (Error ErrOversized) then PermanentError err else err)
          | OutOfFuel => fun w => (OutOfFuel, w)
          | Ok f => with_cleanup (process_file env matcher svc payload f now)
          end
      end
  end.

(** The matcher the server starts the job with. *)
Definition server_matcher (c : OLClient) (fault : option pg_error) : Matcher import_world :=
  mkMatcher (Some (fun isbn => on_db (FindOwnedByISBN fault isbn)))
    (Some (fun q limit offset => on_openlibrary (Search c q limit offset))).

(** ** Discovery (discovery.go) *)

Record DiscoverResult := mkDiscoverResult {
  dr_DiscoveredCount : Z;
  dr_SkippedCount : Z;
  dr_JobIDs : list string;
}.

(** What a run over a source meets: the faults of its statements and what the
    generators hand out, by the position of a file among those listed. *)
Record discover_env := mkDiscoverEnv {
  de_exists : nat -> option pg_error;
  de_create : nat -> option pg_error;
  de_candID : nat -> string;
  de_jobID : nat -> string;
  de_jobNow : nat -> Time;
  de_source : nat -> option pg_error;
  de_cancelled : nat -> option error;
}.

(** One file: [None] when there is a candidate for it already. *)
Definition discover_file (env : discover_env) (registry : Registry Handler) (sourceID : string) (now : Time) (i : nat)
    (ref : FileReference) : worldM (option string) :=
  exists_ ← wrapping "checking candidate existence: "
              (on_db (ExistsBySourceAndFileRefID (de_exists env i) sourceID (ReferenceID ref)));
  if exists_ : bool then mret None
  else
    let candID := de_candID env i in
    jobID ← wrapping "enqueuing import job: "
              (EnqueueImportJob registry (de_jobID env i) (de_jobNow env i) (mkImportJobPayload candID sourceID ref));
    let rec := mkImportCandidateRecord candID sourceID ref StatusQueued "" "" (Some jobID) None now now in
    _ ← wrapping "persisting candidate record: " (on_db (CreateCandidate (de_create env i) now rec));
    mret (Some jobID).

Definition counted (res : DiscoverResult) (jobID : option string) : DiscoverResult :=
  match jobID with
  | None => mkDiscoverResult (dr_DiscoveredCount res) (dr_SkippedCount res + 1) (dr_JobIDs res)
  | Some id => mkDiscoverResult (dr_DiscoveredCount res + 1) (dr_SkippedCount res) (dr_JobIDs res ++ [id])
  end.

Fixpoint discover_items (env : discover_env) (registry : Registry Handler) (sourceID : string) (now : Time) (i : nat)
    (items : list SourceCandidate) (res : DiscoverResult) : worldM DiscoverResult :=
  match items with
  | [] => mret res
  | item :: items' =>
      jobID ← discover_file env registry sourceID now i (ca_FileReference item);
      discover_items env registry sourceID now (S i) items' (counted res jobID)
  end.

(** The pages of the source; [n] numbers them. *)
Fixpoint discover_pages (fuel : nat) (cfg : source_config) (env : discover_env) (registry : Registry Handler)
    (sourceID : string) (now : Time) (n i : nat) (cursor : string) (res : DiscoverResult) : worldM DiscoverResult :=
  match fuel with
  | O => fun w => (OutOfFuel, w)
  | S fuel' =>
      match de_cancelled env n with
      | Some e => throw e
      | None =>
          page ← wrapping "listing items from source: " (ListSource cfg (de_source env (S n)) sourceID cursor MaxLimit);
          res ← discover_items env registry sourceID now i (pg_Items page) res;
          match pg_NextCursor page with
          | None | Some "" => mret res
          | Some next =>
              discover_pages fuel' cfg env registry sourceID now (S n) (i + length (pg_Items page)) next res
          end
      end
  end.

Definition Discover (fuel : nat) (cfg : source_config) (env : discover_env) (registry : Registry Handler)
    (sourceID : string) (now : Time) : worldM DiscoverResult :=
  src ← GetSourceForImport (de_source env 0%nat) sourceID;
  if negb (CanList (s_capabilities src)) then throw (mkErr InvalidInput "source does not support listing")
  else discover_pages fuel cfg env registry sourceID now 0 0 "" (mkDiscoverResult 0 0 []).
End pipeline.
