(* ===== verification/ImportHandlers.v ===== *)
(** * The handlers of the import pipeline (src/internal/transport/http/import.go)

    Starting a discovery, listing candidates, confirming and rejecting them,
    and the cover found in a file. *)

From S2P Require Import Prelude GoStrings Errors Validate Catalog Transactor Postgres Http Jobs PairingStore Encoding Tokens Identity Paths Access CatalogStore CatalogLaws Library Sources SourceProviders SourceHandlers Extract ReaderContent OpenLibrary ImportStore Importer ImportJob.

Local Open Scope string_scope.
Local Open Scope list_scope.
Local Open Scope Z_scope.

Abbreviation importH := (stM import_world http_error) (only parsing).

Record FileRefWireDTO := mkFileRefWireDTO { fw_ID : string; fw_Format : string; fw_SizeBytes : option Z }.
Record ImportCandidateWireDTO := mkImportCandidateWireDTO {
  iq_ID : string;
  iq_SourceID : string;
  iq_FileReference : FileRefWireDTO;
  iq_Status : string;
  iq_ExtractedMetadata : option string;
  iq_MatchCandidates : option string;
  iq_JobID : option string;
  iq_LastError : option string;
  iq_CreatedAt : string;
  iq_UpdatedAt : string;
}.

(** The metadata a user gives instead of the file's. *)
Record ExtractedMetaBody := mkExtractedMetaBody {
  mb_Title : string;
  mb_Authors : list string;
  mb_ISBN : option string;
  mb_Language : option string;
  mb_Publisher : option string;
  mb_Description : option string;
}.
Record ImportConfirmRequestBody := mkImportConfirmRequestBody {
  cb_Action : string;
  cb_EditionID : option string;
  cb_OpenLibraryWorkKey : option string;
  cb_Metadata : option ExtractedMetaBody;
}.

(** ** Covers

    [base64.StdEncoding.DecodeString]: line breaks are skipped, and the padding
    makes the length a multiple of four. *)
Definition std_value (c : Z) : option Z :=
  if c =? 43 then Some 62 else if c =? 47 then Some 63
  else if (c =? 45) || (c =? 95) then None else b64_value c.
Fixpoint drop_padding (n : nat) (l : list Z) : list Z :=
  match n, l with
  | S n', c :: l' => if c =? 61 then drop_padding n' l' else l
  | _, _ => l
  end.
Definition StdDecode (s : string) : option string :=
  let l := List.filter (fun c => negb ((c =? 10) || (c =? 13))) (bytes s) in
  if negb (Nat.eqb (length l mod 4) 0) then None
  else
    values ← mapM std_value (rev (drop_padding 2 (rev l)));
    string_of <$> b64_join values.

(** The two shapes the cover's bytes are decoded from: bytes of the stored
    metadata, or else a text. *)
Class CoverJSON := {
  cover_bytes : string -> option string;
  cover_text : string -> option string;
}.

Definition after_comma (s : string) : string :=
  if HasPrefix s "data:" then match Cut "," s with Some (_, t) => t | None => s end else s.
Definition stored_cover `{CoverJSON} (metadata : string) : string :=
  match cover_bytes metadata with
  | Some (String _ _ as data) => data
  | _ =>
      match cover_text metadata with
      | Some (String _ _ as text) => default "" (StdDecode (after_comma (TrimSpace text)))
      | _ => ""
      end
  end.

Definition raster_types : list string := ["image/jpeg"; "image/png"; "image/webp"; "image/gif"].

Section handlers.
Context `{CaseTables} `{FoldTable} `{Urls} `{Addresses} `{TokenPrimitives} `{PairingStore.Crypto} `{Decoders}
  `{SourceProviders.Network} `{FileSystem} `{Containers} `{OpenLibraryJSON} `{OpenLibraryServer} `{Jsonb}
  `{ImportJSON} `{TimeText} `{CoverJSON}.
Context {Handler : Type}.

Definition toCandidateWireDTO (rec : ImportCandidateRecord) : ImportCandidateWireDTO :=
  let ref := ic_FileReference rec in
  mkImportCandidateWireDTO (ic_ID rec) (ic_SourceID rec)
    (mkFileRefWireDTO (ReferenceID ref) (Catalog.Format ref) (SizeBytes ref)) (ic_Status rec)
    (nullIfEmpty (ic_ExtractedMetadata rec)) (nullIfEmpty (ic_MatchCandidates rec)) (ic_JobID rec)
    (ic_LastError rec) (format_time (ic_CreatedAt rec)) (format_time (ic_UpdatedAt rec)).

Definition import_invalid {A} (msg : string) : importH A := throw (HTTPError InvalidInput msg).
Definition malformed_body {A B} (body : option A) (k : A -> importH B) : importH B :=
  match body with Some a => k a | None => import_invalid "malformed request body" end.

(** ** Discovery *)

Definition discover_failure (err : error) : http_error :=
  match CategoryOf err with
  | NotFound => HTTPError NotFound "source not found"
  | InvalidInput => HTTPError InvalidInput (Error err)
  | _ => HTTPError Internal "could not start discovery for that source"
  end.

Definition ImportDiscoverHandler (fuel : nat) (cfg : source_config) (env : discover_env)
    (registry : Registry Handler) (now : Time) (body : option string) : importH DiscoverResult :=
  malformed_body body (fun raw =>
    let sourceID := TrimSpace raw in
    if String.eqb sourceID "" then import_invalid "sourceId is required"
    else or_fail (Discover fuel cfg env registry sourceID now) discover_failure).

(** ** Listing *)

Definition trimmed_filter (param : string) : option string := nullIfEmpty (TrimSpace param).

Definition ImportCandidatesListHandler (fault : option pg_error) (ctx : context) (sourceIDParam statusParam : string)
    : importH (list ImportCandidateWireDTO) :=
  let status := trimmed_filter statusParam in
  _ ← match status with
      | Some st => if ValidImportCandidateStatus st then mret tt
                   else import_invalid ("invalid status filter " +:+ quote st)
      | None => mret tt
      end;
  list ← or_domain (on_db (ListInLibrary fault (ActiveLibraryFromContext ctx) (trimmed_filter sourceIDParam) status));
  mret (toCandidateWireDTO <$> list).

(** ** Confirming *)

(** What a confirmation meets: the faults of its reads and of the service's
    statements, the transaction's outcome, and the identifiers handed out. *)
Record confirm_env := mkConfirmEnv {
  ce_read : nat -> option pg_error;
  ce_tx : TxOutcome;
  ce_create : create_faults;
  ce_ids : nat -> string;
}.

Definition candidate_id_required : string := "candidate id is required".
Definition in_active_library (fault : option pg_error) (ctx : context) (candidateID : string)
    : importH ImportCandidateRecord :=
  or_domain (on_db (GetInLibrary fault (ActiveLibraryFromContext ctx) candidateID)).

(** The metadata of a new work: the user's, or else the file's. *)
Definition create_metadata (cand : ImportCandidateRecord) (override : option ExtractedMetaBody)
    : importH ExtractedMetadata :=
  match override with
  | Some m =>
      or_fail (reading (fun _ => NewExtractedMetadata (mb_Title m) (mb_Authors m) (mb_ISBN m) (mb_Language m)
                 (mb_Publisher m) (mb_Description m) "" (Catalog.Format (ic_FileReference cand))))
        (fun err => HTTPError InvalidInput ("invalid metadata override: " +:+ Error err))
  | None =>
      if negb (String.eqb (ic_ExtractedMetadata cand) "") then
        match parse_metadata (ic_ExtractedMetadata cand) with
        | (meta, None) => mret meta
        | (_, Some _) => throw (HTTPError Internal "failed to parse candidate extracted metadata")
        end
      else import_invalid "candidate has no extracted metadata to create work"
  end.

Definition attach_existing (env : confirm_env) (candidateID : string) (body : ImportConfirmRequestBody)
    (now : Time) : importH unit :=
  let id := TrimSpace (default "" (cb_EditionID body)) in
  if String.eqb id "" then import_invalid "editionId is required for attach_existing"
  else or_domain (on_db (ConfirmAttachExisting (ce_tx env) (ce_read env 1%nat) (cf_offering (ce_create env))
         (cf_entry (ce_create env)) (cf_status (ce_create env)) (ce_ids env 0%nat) candidateID id now)).

(** [olClient] is the server's client of Open Library, if it has one. *)
Definition use_open_library_match (env : confirm_env) (olClient : option OLClient) (ctx : context)
    (candidateID : string) (body : ImportConfirmRequestBody) (now : Time) : importH unit :=
  let workKey := TrimSpace (default "" (cb_OpenLibraryWorkKey body)) in
  if String.eqb workKey "" then import_invalid "openLibraryWorkKey is required for use_open_library_match"
  else
    cand ← in_active_library (ce_read env 2%nat) ctx candidateID;
    let no_metadata := mkExtractedMetadata "" [] None None None None "" "" in
    let meta := if String.eqb (ic_ExtractedMetadata cand) "" then no_metadata
                else (parse_metadata (ic_ExtractedMetadata cand)).1 in
    detail ← match olClient with
             | Some c => attempt (on_openlibrary (GetWork c workKey))
             | None => mret (Err (New ""))
             end;
    let olDetail := match detail with Ok d => Some d | _ => None end in
    or_domain (on_db (ConfirmOpenLibraryMatch (ce_tx env) (ce_read env 1%nat) (ce_create env) (ce_ids env)
                        candidateID workKey meta olDetail now)).

Definition create_new (env : confirm_env) (ctx : context) (candidateID : string)
    (body : ImportConfirmRequestBody) (now : Time) : importH unit :=
  cand ← in_active_library (ce_read env 2%nat) ctx candidateID;
  meta ← create_metadata cand (cb_Metadata body);
  or_domain (on_db (ConfirmCreateNew (ce_tx env) (ce_read env 1%nat) (ce_create env) (ce_ids env) candidateID
                      meta now)).

Definition confirm_action (env : confirm_env) (olClient : option OLClient) (ctx : context) (candidateID : string)
    (body : ImportConfirmRequestBody) (now : Time) : importH unit :=
  if String.eqb (cb_Action body) "attach_existing" then attach_existing env candidateID body now
  else if String.eqb (cb_Action body) "use_open_library_match" then
    use_open_library_match env olClient ctx candidateID body now
  else if String.eqb (cb_Action body) "create_new" then create_new env ctx candidateID body now
  else import_invalid ("unknown action " +:+ quote (cb_Action body)).

Definition ImportCandidateConfirmHandler (env : confirm_env) (olClient : option OLClient) (ctx : context)
    (candidateID : string) (now : Time) (body : option ImportConfirmRequestBody) : importH ImportCandidateWireDTO :=
  if String.eqb candidateID "" then import_invalid candidate_id_required
  else
    _ ← in_active_library (ce_read env 0%nat) ctx candidateID;
    malformed_body body (fun body =>
      _ ← confirm_action env olClient ctx candidateID body now;
      updated ← in_active_library (ce_read env 3%nat) ctx candidateID;
      mret (toCandidateWireDTO updated)).

Definition ImportCandidateRejectHandler (env : confirm_env) (ctx : context) (candidateID : string) (now : Time)
    : importH ImportCandidateWireDTO :=
  if String.eqb candidateID "" then import_invalid candidate_id_required
  else
    _ ← in_active_library (ce_read env 0%nat) ctx candidateID;
    _ ← or_domain (on_db (Reject (ce_read env 1%nat) (cf_status (ce_create env)) candidateID now));
    updated ← in_active_library (ce_read env 3%nat) ctx candidateID;
    mret (toCandidateWireDTO updated).

(** ** Covers *)

Definition no_cover {A} : importH A := throw (HTTPError NotFound "cover not found").

(** The type and the bytes of the cover. *)
Definition ImportCandidateCoverHandler (fault : option pg_error) (ctx : context) (candidateID : string)
    : importH (string * string) :=
  if String.eqb candidateID "" then import_invalid candidate_id_required
  else
    cand ← in_active_library fault ctx candidateID;
    if String.eqb (ic_ExtractedMetadata cand) "" then no_cover
    else
      let coverData := stored_cover (ic_ExtractedMetadata cand) in
      if String.eqb coverData "" then no_cover
      else
        let base := sniffed coverData in
        if negb (bool_decide (base ∈ raster_types)) then no_cover
        else mret (base, coverData).
End handlers.
