(* ===== verification/ImporterSafety.v ===== *)
(** * What the import pipeline guarantees
      (src/internal/importer, src/internal/transport/http/import.go,
       src/internal/persistence/postgres/import_candidate_repository.go)

    A confirmation is all or nothing, candidates stay with their library, a
    run of the job changes its own candidate and leaves no file, and a second
    discovery finds nothing new.  The library's matches are never found. *)

From S2P Require Import Prelude GoStrings Errors Validate Catalog Transactor Services Postgres Http Jobs PairingStore Tokens Identity Paths Access CatalogStore CatalogLaws Library Sources SourceProviders SourceHandlers Extract OpenLibrary ImportStore Importer ImportJob ImportHandlers.

Local Open Scope string_scope.
Local Open Scope list_scope.
Local Open Scope Z_scope.

(** ** Runs *)

Lemma on_import_catalog_ok {A} (m : stM catalog_db error A) db a db' :
  on_import_catalog m db = (Ok a, db') <-> exists c, m (im_catalog db) = (Ok a, c) /\ db' = with_catalog c db.
Proof.
  unfold on_import_catalog. destruct (m (im_catalog db)) as [r c]. split.
  - intros [= -> <-]. by exists c.
  - intros (c' & [= -> ->] & ->). done.
Qed.

Lemma in_tx_ok {A} (m : stM import_db error A) db aborted a s' :
  in_tx m (db, aborted) = (Ok a, s') <->
  aborted = false /\ exists db', m db = (Ok a, db') /\ s' = (db', false).
Proof.
  unfold in_tx. destruct aborted; [naive_solver|]. destruct (m db) as [[b|e|] db1]; naive_solver.
Qed.

Lemma ImportTx_ok {A} tx (body : stM import_tx error A) db a db' :
  ImportTx tx body db = (Ok a, db') -> exists aborted, body (db, false) = (Ok a, (db', aborted)).
Proof.
  unfold ImportTx. intros H%InTx_ok. destruct (body (db, false)) as [r [db1 aborted]]. injection H as -> ->.
  by exists aborted.
Qed.

Lemma ImportTx_failed {A} tx (body : stM import_tx error A) db :
  is_ok (ImportTx tx body db).1 = false -> (ImportTx tx body db).2 = db.
Proof.
  unfold ImportTx. destruct (InTx tx _ db) as [[a|e|] db'] eqn:E; [done|intros _..].
  - by apply InTx_err in E.
  - by apply InTx_fuel in E.
Qed.

Lemma update_candidate_ok fault id f db u db' :
  update_candidate fault id f db = (Ok u, db') <->
  fault = None /\ exists r r', im_candidates db !! id = Some r /\ f r = Ok r' /\
    ValidImportCandidateStatus (cn_status r') = true /\
    db' = with_candidates (<[id := r']> (im_candidates db)) db.
Proof.
  unfold update_candidate, affecting. rewrite stM_bind_ok. setoid_rewrite exec_ok. split.
  - intros (n & s1 & [-> H] & Hn). destruct (im_candidates db !! id) as [r|].
    + unfold mbind, res_bind in H. destruct (f r) as [r'| |] eqn:Hf; [|done..].
      destruct (ValidImportCandidateStatus (cn_status r')) eqn:Hv; [|done]. injection H as <- <-.
      cbn in Hn. injection Hn as <-. split; [done|]. by exists r, r'.
    + injection H as <- <-. done.
  - intros [-> (r & r' & Hr & Hf & Hv & ->)]. exists 1, (with_candidates (<[id:=r']> (im_candidates db)) db).
    destruct u. rewrite Hr. unfold mbind, res_bind. rewrite Hf, Hv. done.
Qed.

Lemma GetCandidate_pure f id : pure (GetCandidate f id).
Proof. apply pure_bind; [apply query_one_pure|]. by intros r s. Qed.
Lemma pending_candidate_pure f id : pure (pending_candidate f id).
Proof. apply pure_bind; [apply GetCandidate_pure|]. intros cand s. by destruct (negb _). Qed.
Lemma GetInLibrary_pure f lib id : pure (GetInLibrary f lib id).
Proof. apply pure_bind; [apply query_one_pure|]. by intros r s. Qed.

(** A row under a new status. *)
Definition with_status (status : string) (now : Time) (r : candidate_cols) : candidate_cols :=
  mkCandidateCols (cn_source_id r) (cn_file_reference r) status (cn_extracted_metadata r)
    (cn_match_candidates r) (cn_job_id r) (cn_last_error r) (cn_created_at r) now.

Lemma UpdateStatus_ok fault id status now db u db' :
  UpdateStatus fault id status now db = (Ok u, db') ->
  exists r, im_candidates db !! id = Some r /\
    db' = with_candidates (<[id := with_status status now r]> (im_candidates db)) db.
Proof.
  unfold UpdateStatus. rewrite update_candidate_ok. intros (_ & r & r' & Hr & [= <-] & _ & ->). by exists r.
Qed.

Lemma pending_candidate_ok f id db cand db' :
  pending_candidate f id db = (Ok cand, db') ->
  db' = db /\ exists r, im_candidates db !! id = Some r /\ cn_status r = StatusPending /\
    ic_SourceID cand = cn_source_id r /\
    ReferenceID (ic_FileReference cand) = fj_ID (cn_file_reference r) /\
    Catalog.Format (ic_FileReference cand) = fj_Format (cn_file_reference r) /\
    SizeBytes (ic_FileReference cand) = fj_SizeBytes (cn_file_reference r).
Proof.
  unfold pending_candidate, GetCandidate. rewrite !stM_bind_ok. intros (c & s1 & (r & s2 & Hq & Hs)%stM_bind_ok & H).
  apply query_one_ok in Hq as (_ & Hr & ->). apply reading_ok in Hs as [Hs ->].
  destruct (String.eqb_spec (ic_Status c) StatusPending) as [E|]; [|done]. injection H as -> <-. split; [done|].
  exists r. split; [done|]. unfold scan_candidate in Hs.
  destruct (NewFileReference _ _ _) as [ref| |] eqn:En; [|done..]. injection Hs as <-. cbn in *. split; [done|].
  split; [done|]. unfold NewFileReference in En. destruct (String.eqb _ ""); [done|]. destruct (String.eqb _ ""); [done|].
  injection En as <-. done.
Qed.

(** ** Attaching a file to an edition *)

Lemma SaveOfferingRow_writes fault o c u c' :
  SaveOfferingRow fault o c = (Ok u, c') ->
  exists id, c' = with_source_offerings (<[id := offering_row o]> (ct_source_offerings c)) c.
Proof.
  unfold SaveOfferingRow. rewrite execute_unit. intros [_ H]. destruct (first_row _ _) as [[i r]|].
  - injection H as <-. by exists i.
  - destruct (bool_decide _); [done|]. destruct (_ || _); [done|]. injection H as <-. by eexists.
Qed.

Lemma with_library_entries_same c : with_library_entries (ct_library_entries c) c = c.
Proof. by destruct c. Qed.

Lemma FindEntryRow_ok fault i c e :
  FindEntry fault i c = Ok e -> exists r, r ∈ ct_library_entries c /\ lr_edition_id r = i /\ e = entry_of r.
Proof.
  unfold FindEntry, query_one, mbind, stM_bind, exec. destruct fault; [done|]. cbn.
  destruct (head _) as [r|] eqn:E; [|done]. cbn. intros [= <-]. exists r.
  apply head_Some_elem_of in E. apply list_elem_of_In, filter_In in E as [E ->%String.eqb_eq].
  by rewrite list_elem_of_In.
Qed.

Lemma SaveEntryRow_ok fault fault' e c c' :
  SaveEntryRow fault fault' e c = Ok c' ->
  c' = with_library_entries (ct_library_entries c ++
         [mkLibraryEntryRow (le_id e) (le_editionID e) DefaultLibraryID (le_addedAt e)]) c.
Proof.
  unfold SaveEntryRow, insert_entry. destruct fault; [done|]. destruct (existsb _ _); [done|].
  destruct (existsb _ _); [done|]. destruct (_ || _); [done|]. by intros [= <-].
Qed.

(** An entry of the edition is there afterwards, and none is lost. *)
Lemma AddEntryRow_ok faults ed now c r c' :
  AddEntryRow faults ed now c = (Ok r, c') ->
  exists t, c' = with_library_entries t c /\ (exists le, le ∈ t /\ lr_edition_id le = ed) /\
    (t = ct_library_entries c \/ t = ct_library_entries c ++ [mkLibraryEntryRow ed ed DefaultLibraryID now]).
Proof.
  unfold AddEntryRow, AddEntry. cbn [FindByEdition SaveEntry entries_repository].
  destruct (FindEditionByID as_inserted faults ed c).1 as [e| |]; [|done..].
  destruct (FindEntry (faults 2%nat) ed c) as [existing|err|] eqn:Ef; [| |done].
  - intros [= <- <-]. exists (ct_library_entries c). rewrite with_library_entries_same.
    destruct (FindEntryRow_ok _ _ _ _ Ef) as (le & ? & ? & _). split; [done|]. split; [by exists le|by left].
  - destruct (negb _); [done|]. rewrite stM_bind_ok. intros ([] & c1 & Hw%writing_ok & [= <- <-]).
    apply SaveEntryRow_ok in Hw. cbn in Hw. eexists. split; [exact Hw|]. split; [|by right].
    eexists. split; [apply elem_of_app; right; by left|done].
Qed.

Lemma attach_ok fo fe fs candidateID sourceID offeringID ed ref status now db aborted u db' aborted' :
  attach fo fe fs candidateID sourceID offeringID ed ref status now (db, aborted) = (Ok u, (db', aborted')) ->
  aborted = false /\ aborted' = false /\
  exists r oid t, im_candidates db !! candidateID = Some r /\
    db' = with_candidates (<[candidateID := with_status status now r]> (im_candidates db))
            (with_catalog (with_library_entries t
               (with_source_offerings (<[oid := offering_row (NewSourceOffering offeringID sourceID ed ref now)]>
                  (ct_source_offerings (im_catalog db))) (im_catalog db))) db) /\
    (exists le, le ∈ t /\ lr_edition_id le = ed) /\
    (t = ct_library_entries (im_catalog db) \/
     t = ct_library_entries (im_catalog db) ++ [mkLibraryEntryRow ed ed DefaultLibraryID now]).
Proof.
  unfold attach. rewrite stM_bind_ok. intros ([] & s1 & H1 & H2).
  apply in_tx_ok in H1 as (-> & db1 & H1 & ->). apply on_import_catalog_ok in H1 as (c1 & H1 & ->).
  apply SaveOfferingRow_writes in H1 as (oid & ->).
  rewrite stM_bind_ok in H2. destruct H2 as (e & s2 & H2 & H3).
  apply in_tx_ok in H2 as (_ & db2 & H2 & ->). apply on_import_catalog_ok in H2 as (c2 & H2 & ->).
  apply AddEntryRow_ok in H2 as (t & -> & Hin & Ht).
  apply in_tx_ok in H3 as (_ & db3 & H3 & [= <- <-]). apply UpdateStatus_ok in H3 as (r & Hr & ->).
  split; [done|]. split; [done|]. exists r, oid, t. done.
Qed.

(** ** New authors *)

(** Only authors were written, and none was lost. *)
Definition authors_grow (c c' : catalog_db) : Prop :=
  exists t t', c' = with_author_external_references t (with_authors t' c) /\
    forall a, is_Some (ct_authors c !! a) -> is_Some (t' !! a).

Lemma authors_grow_refl c : authors_grow c c.
Proof. exists (ct_author_external_references c), (ct_authors c). by destruct c. Qed.
Lemma authors_grow_trans c1 c2 c3 : authors_grow c1 c2 -> authors_grow c2 c3 -> authors_grow c1 c3.
Proof.
  intros (t1 & t1' & -> & H1) (t2 & t2' & -> & H2). exists t2, t2'. split; [done|]. intros a Ha. by apply H2, H1.
Qed.

Lemma SaveAuthorRow_grows faults a c : authors_grow c (SaveAuthorRow faults a c).2.
Proof.
  unfold SaveAuthorRow, mbind, stM_bind. destruct (execute_ (faults 0%nat) (upsert_author a) c) as [[[]|e|] c1] eqn:E.
  - apply execute_ok in E as [_ (_ & ->)%upsert_author_ok].
    destruct (replace_children_sets ct_author_external_references with_author_external_references unchecked faults 1
                (a_id a) (a_externalReferences a)
                (with_authors (<[a_id a := mkAuthorCols (a_name a) (a_mergedInto a)]> (ct_authors c)) c))
      as [t ->]; [by intros []|done|]. exists t. eexists. split; [done|]. intros i Hi.
    destruct (decide (i = a_id a)) as [->|Hne]; [rewrite lookup_insert_eq; by eexists|by rewrite lookup_insert_ne].
  - assert (c1 = c) as -> by (by eapply exec_fail). apply authors_grow_refl.
  - assert (c1 = c) as -> by (by eapply exec_fail). apply authors_grow_refl.
Qed.

Lemma save_new_authors_ok faults ids i names db aborted l db' aborted' :
  save_new_authors faults ids i names (db, aborted) = (Ok l, (db', aborted')) ->
  exists c', db' = with_catalog c' db /\ authors_grow (im_catalog db) c' /\
    l `sublist_of` (ids <$> seq i (length names)) /\ Forall (fun a => is_Some (ct_authors c' !! a)) l.
Proof.
  revert i db aborted l db' aborted'. induction names as [|name names IH]; intros i db aborted l db' aborted'.
  { intros [= <- <- <-]. exists (im_catalog db). split; [by destruct db|]. split; [apply authors_grow_refl|].
    split; constructor. }
  cbn [save_new_authors]. rewrite stM_bind_ok. intros (saved & [db1 ab1] & H1 & H2).
  assert (Hstep : exists c1, db1 = with_catalog c1 db /\ authors_grow (im_catalog db) c1 /\
    (saved <> None -> is_Some (ct_authors c1 !! ids i))).
  { destruct (NewAuthor (ids i) name []) as [author|e|] eqn:Ea.
    - assert (Hid : a_id author = ids i).
      { unfold NewAuthor, mbind, res_bind in Ea. destruct (ValidateBoundedText _ _ _); [|done..].
        by injection Ea as <-. }
      unfold or_none, in_tx in H1. destruct aborted.
      { injection H1 as <- <- _. exists (im_catalog db). split; [by destruct db|]. split; [apply authors_grow_refl|done]. }
      unfold on_import_catalog in H1. pose proof (SaveAuthorRow_grows (faults i) author (im_catalog db)) as Hg.
      destruct (SaveAuthorRow (faults i) author (im_catalog db)) as [r c1] eqn:Es. cbn [snd] in Hg.
      exists c1. destruct r as [[]|e|]; injection H1 as <- <- <-; (split; [done|]); (split; [done|]); [|done..].
      intros _. apply SaveAuthorRow_ok in Es as (_ & _ & ->). cbn. rewrite Hid, lookup_insert_eq. by eexists.
    - injection H1 as <- <- <-. exists (im_catalog db). split; [by destruct db|]. split; [apply authors_grow_refl|done].
    - injection H1 as <- <- <-. exists (im_catalog db). split; [by destruct db|]. split; [apply authors_grow_refl|done]. }
  destruct Hstep as (c1 & -> & Hg1 & Hsaved). rewrite stM_bind_ok in H2. destruct H2 as (rest & [db2 ab2] & H2 & H3).
  apply IH in H2 as (c2 & -> & Hg2 & Hsub & Hall). injection H3 as <- <- <-. exists c2. split; [done|].
  split; [by eapply authors_grow_trans|]. cbn [length seq]. rewrite fmap_cons.
  destruct saved as [u|]; [|split; [by apply sublist_cons|done]]. split; [by apply sublist_skip|].
  constructor; [|done]. destruct Hg2 as (t & t' & -> & Hgrow). cbn. apply Hgrow. by apply Hsaved.
Qed.

(** ** A new book

    What a confirmation that made a work leaves in the tables: the work and
    its authors, an edition of it, an offering of the candidate's file for
    that edition, an entry of it in the library, and the candidate confirmed;
    nothing else of these tables changed. *)
Definition imported (ids : nat -> string) (candidateID : string) (names : list string) (title subtitle : string)
    (refs : list ExternalReference) (lang : Language) (isbn : option string) (publisher : string) (now : Time)
    (db db' : import_db) : Prop :=
  let c := im_catalog db in
  let c' := im_catalog db' in
  let workID := ids (length names) in
  let editionID := ids (length names + 1)%nat in
  exists row,
    im_candidates db !! candidateID = Some row /\ cn_status row = StatusPending /\
    im_candidates db' = <[candidateID := with_status StatusConfirmed now row]> (im_candidates db) /\
    (exists w, work_at c' workID = Ok w /\ w_title w = title /\ w_subtitle w = subtitle /\
       w_externalReferences w = refs /\ w_authors w `sublist_of` (ids <$> seq 0 (length names)) /\
       Forall (fun a => is_Some (ct_authors c' !! a)) (w_authors w)) /\
    (forall i, i <> workID -> work_at c' i = work_at c i) /\
    ct_editions c' = <[editionID := mkEditionCols workID (lang_tag lang) isbn publisher None]> (ct_editions c) /\
    (exists id o, ct_source_offerings c' = <[id := o]> (ct_source_offerings c) /\
       oc_source_id o = cn_source_id row /\ oc_edition_id o = editionID /\
       oc_reference_id o = fj_ID (cn_file_reference row) /\ oc_format o = fj_Format (cn_file_reference row) /\
       oc_size_bytes o = fj_SizeBytes (cn_file_reference row)) /\
    (exists le, le ∈ ct_library_entries c' /\ lr_edition_id le = editionID) /\
    ct_sources c' = ct_sources c /\ im_source_libraries db' = im_source_libraries db /\ im_jobs db' = im_jobs db.

Lemma NewWork_ok id title subtitle authors refs w :
  NewWork id title subtitle authors [] None refs = Ok w ->
  w = mkWork id title subtitle authors [] None refs None [].
Proof.
  unfold NewWork, mbind, res_bind. destruct (ValidateBoundedText _ _ _); [|done..].
  destruct (ValidateOptionalText _ _ _); [|done..]. by intros [= <-].
Qed.
Lemma NewEdition_ok id work lang isbn publisher e :
  NewEdition id work lang isbn publisher None [] = Ok e -> e = mkEdition id work lang isbn publisher None [].
Proof.
  unfold NewEdition, mbind, res_bind. destruct (match isbn with Some i => ValidateISBN i | None => Ok tt end); [|done..].
  destruct (ValidateOptionalText _ _ _); [|done..]. by intros [= <-].
Qed.

Lemma works_after_import w e offerings entries t t' c : storable_work w -> forall i,
  work_at (with_library_entries entries (with_source_offerings offerings (saved_edition e
    (saved_work w (with_author_external_references t (with_authors t' c)))))) i =
  if decide (i = w_id w) then Ok w else work_at c i.
Proof.
  intros Hw i. etrans; [by apply (work_at_frame (saved_work w (with_author_external_references t (with_authors t' c))))|].
  rewrite work_at_saved by exact Hw. destruct (decide _); [done|]. by apply work_at_frame.
Qed.

Lemma create_work_imported f ids cand candidateID names title subtitle refs lang isbn publisher now db aborted u db' aborted' row :
  im_candidates db !! candidateID = Some row -> cn_status row = StatusPending ->
  ic_SourceID cand = cn_source_id row ->
  ReferenceID (ic_FileReference cand) = fj_ID (cn_file_reference row) ->
  Catalog.Format (ic_FileReference cand) = fj_Format (cn_file_reference row) ->
  SizeBytes (ic_FileReference cand) = fj_SizeBytes (cn_file_reference row) ->
  create_work f ids cand candidateID names title subtitle refs lang isbn publisher now (db, aborted) =
    (Ok u, (db', aborted')) ->
  imported ids candidateID names title subtitle refs lang isbn publisher now db db'.
Proof.
  intros Hrow Hst Hsrc Href Hfmt Hsize. unfold create_work. rewrite stM_bind_ok.
  intros (authors & [db1 ab1] & H1 & H2). apply save_new_authors_ok in H1 as (c1 & -> & (t & t' & -> & Hg) & Hsub & Hall).
  rewrite stM_bind_ok in H2. destruct H2 as (w & s2 & H2 & H3). apply reading_ok in H2 as [Hw%NewWork_ok ->]. subst w.
  rewrite stM_bind_ok in H3. destruct H3 as ([] & s3 & H3 & H4). apply in_tx_ok in H3 as (-> & db3 & H3 & ->).
  apply on_import_catalog_ok in H3 as (c3 & H3 & ->). apply SaveWorkRow_ok in H3 as (_ & _ & ->).
  rewrite stM_bind_ok in H4. destruct H4 as (e & s4 & H4 & H5). apply reading_ok in H4 as [He%NewEdition_ok ->]. subst e.
  rewrite stM_bind_ok in H5. destruct H5 as ([] & s5 & H5 & H6). apply in_tx_ok in H5 as (_ & db5 & H5 & ->).
  apply on_import_catalog_ok in H5 as (c5 & H5 & ->). apply SaveEditionRow_ok in H5 as (_ & _ & ->).
  apply attach_ok in H6 as (_ & _ & r & oid & te & Hr & -> & Hle & _).
  set (w := mkWork (ids (length names)) title subtitle authors [] None refs None []) in *.
  set (c1 := with_author_external_references t (with_authors t' (im_catalog db))) in *.
  assert (r = row) as -> by (cbn in Hr; congruence).
  assert (Hworks := works_after_import w (mkEdition (ids (length names + 1)%nat) (ids (length names)) lang isbn publisher None [])
    (<[oid := offering_row (NewSourceOffering (ids (length names + 2)%nat) (ic_SourceID cand) (ids (length names + 1)%nat)
        (ic_FileReference cand) now)]> (ct_source_offerings (im_catalog db))) te t t' (im_catalog db)
    (conj I (Forall_nil_2 _))).
  exists row. split; [done|]. split; [done|]. split; [done|]. split.
  { exists w. split; [etrans; [apply Hworks|by apply decide_True]|]. subst w. cbn [w_title w_subtitle w_externalReferences w_authors].
    split; [reflexivity|]. split; [reflexivity|]. split; [reflexivity|]. split; [exact Hsub|exact Hall]. }
  split; [intros i Hi; cbn [with_candidates im_catalog]; rewrite Hworks; by rewrite decide_False|].
  split; [done|]. split; [eexists oid, _; by split|]. split; [exact Hle|]. done.
Qed.

(** A candidate as its row says. *)
Definition reads_row (cand : ImportCandidateRecord) (row : candidate_cols) : Prop :=
  ic_SourceID cand = cn_source_id row /\
  ReferenceID (ic_FileReference cand) = fj_ID (cn_file_reference row) /\
  Catalog.Format (ic_FileReference cand) = fj_Format (cn_file_reference row) /\
  SizeBytes (ic_FileReference cand) = fj_SizeBytes (cn_file_reference row).

(** A confirmation: what a transaction on a pending candidate does, or nothing. *)
Lemma confirmation f_get candidateID tx body (db : import_db) (P : import_db -> Prop) :
  (forall cand row u db' aborted, im_candidates db !! candidateID = Some row -> cn_status row = StatusPending ->
     reads_row cand row -> body cand (db, false) = (Ok u, (db', aborted)) -> P db') ->
  match (cand ← pending_candidate f_get candidateID; ImportTx tx (body cand)) db with
  | (Ok tt, db') => P db'
  | (_, db') => db' = db
  end.
Proof.
  intros HP. unfold mbind, stM_bind. pose proof (pending_candidate_pure f_get candidateID db) as Hpure.
  destruct (pending_candidate f_get candidateID db) as [[cand|e|] db1] eqn:Ep; cbn [snd] in Hpure; [|done..].
  apply pending_candidate_ok in Ep as (-> & row & Hrow & Hst & Hreads).
  pose proof (ImportTx_failed tx (body cand) db) as Hf.
  destruct (ImportTx tx (body cand) db) as [[[]|e|] db'] eqn:Et; [|by apply Hf..].
  apply ImportTx_ok in Et as (aborted & Et). by eapply HP.
Qed.

Lemma ConfirmCreateNew_all tx f_get f ids candidateID meta now db :
  match ConfirmCreateNew tx f_get f ids candidateID meta now db with
  | (Ok tt, db') =>
      imported ids candidateID (em_Authors meta) (em_Title meta) "" [] (language_of meta) (em_ISBN meta)
        (default "" (em_Publisher meta)) now db db'
  | (_, db') => db' = db
  end.
Proof.
  unfold ConfirmCreateNew. apply confirmation. intros cand row u db' aborted Hrow Hst (H1 & H2 & H3 & H4) Hrun.
  by eapply create_work_imported.
Qed.

(** C15: a confirmation that makes a new work either does all of it - the
    candidate, which was pending, is confirmed, and the work with its stored
    authors, an edition of it, an offering of the candidate's file and an
    entry in the library are there - or leaves the tables as they were,
    whatever statement fails, and though a failed author is passed over. *)
Theorem ConfirmCreateNew_outcome tx f_get f ids candidateID meta now db :
  match ConfirmCreateNew tx f_get f ids candidateID meta now db with
  | (Ok tt, db') =>
      imported ids candidateID (em_Authors meta) (em_Title meta) "" [] (language_of meta) (em_ISBN meta)
        (default "" (em_Publisher meta)) now db db'
  | (_, db') => db' = db
  end.
Proof. apply ConfirmCreateNew_all. Qed.

(** The same of a match with Open Library, whose title, authors, language and
    publisher go before those of the file. *)
Theorem ConfirmOpenLibraryMatch_outcome tx f_get f ids candidateID key meta detail now db :
  match ConfirmOpenLibraryMatch tx f_get f ids candidateID key meta detail now db with
  | (Ok tt, db') =>
      imported ids candidateID (ol_author_names meta detail) (ol_title meta detail).1 (ol_title meta detail).2
        (ol_references key) (ol_language meta detail) (em_ISBN meta) (ol_publisher meta detail) now db db'
  | (_, db') => db' = db
  end.
Proof.
  unfold ConfirmOpenLibraryMatch. apply confirmation. intros cand row u db' aborted Hrow Hst (H1 & H2 & H3 & H4) Hrun.
  by eapply create_work_imported.
Qed.

(** ** Candidates and their libraries *)

(** No candidate but [id] changes. *)
Definition only_candidate (id : string) (db db' : import_db) : Prop :=
  forall j, j <> id -> im_candidates db' !! j = im_candidates db !! j.
#[export] Instance only_candidate_preorder id : PreOrder (only_candidate id).
Proof. split; [by intros db j|]. intros d1 d2 d3 H1 H2 j Hj. by rewrite H2, H1. Qed.

Lemma update_candidate_only fault id f : always (only_candidate id) (update_candidate fault id f).
Proof.
  intros db j Hj. destruct (update_candidate fault id f db) as [r db'] eqn:E. cbn [snd].
  destruct r as [u|e|].
  - apply update_candidate_ok in E as (_ & r & r' & _ & _ & _ & ->). cbn. by rewrite lookup_insert_ne.
  - assert (db' = db) as ->; [|done]. revert E. unfold update_candidate, affecting, mbind, stM_bind, exec.
    destruct fault; [by intros [= _ <-]|]. destruct (im_candidates db !! id) as [r|]; [|by intros [= _ <-]].
    cbn. destruct (f r) as [r'|e'|]; cbn; [|by intros [= _ <-]..].
    destruct (ValidImportCandidateStatus _); [done|by intros [= _ <-]].
  - assert (db' = db) as ->; [|done]. revert E. unfold update_candidate, affecting, mbind, stM_bind, exec.
    destruct fault; [by intros [= _ <-]|]. destruct (im_candidates db !! id) as [r|]; [|done].
    cbn. destruct (f r) as [r'|e'|]; cbn; [|done|by intros [= <-]].
    destruct (ValidImportCandidateStatus _); done.
Qed.

Lemma confirmation_only f_get candidateID tx body :
  (forall cand db u db' aborted, body cand (db, false) = (Ok u, (db', aborted)) -> only_candidate candidateID db db') ->
  always (only_candidate candidateID)
    (cand ← pending_candidate f_get candidateID; ImportTx tx (body cand) : stM import_db error unit).
Proof.
  intros Hb db. pose proof (confirmation f_get candidateID tx body db (only_candidate candidateID db)) as H.
  assert (HP : forall cand row u db' aborted, im_candidates db !! candidateID = Some row ->
    cn_status row = StatusPending -> reads_row cand row -> body cand (db, false) = (Ok u, (db', aborted)) ->
    only_candidate candidateID db db') by (intros cand row u d aborted _ _ _; apply Hb).
  specialize (H HP). destruct ((cand ← pending_candidate f_get candidateID; ImportTx tx (body cand)) db) as [[[]|e|] db'].
  - exact H.
  - cbn. rewrite H. reflexivity.
  - cbn. rewrite H. reflexivity.
Qed.

Lemma attach_only fo fe fs candidateID sourceID offeringID ed ref status now db u db' aborted' :
  attach fo fe fs candidateID sourceID offeringID ed ref status now (db, false) = (Ok u, (db', aborted')) ->
  only_candidate candidateID db db'.
Proof.
  intros (_ & _ & r & oid & t & _ & -> & _)%attach_ok j Hj. cbn. by rewrite lookup_insert_ne.
Qed.

Lemma ConfirmAttachExisting_only tx fg fo fe fs newID id ed now :
  always (only_candidate id) (ConfirmAttachExisting tx fg fo fe fs newID id ed now).
Proof. apply confirmation_only. intros cand db u db' aborted. apply attach_only. Qed.

Lemma ConfirmCreateNew_only tx fg f ids id meta now :
  always (only_candidate id) (ConfirmCreateNew tx fg f ids id meta now).
Proof.
  intros db. pose proof (ConfirmCreateNew_all tx fg f ids id meta now db) as H.
  destruct (ConfirmCreateNew tx fg f ids id meta now db) as [[[]|e|] db']; cbn; [|rewrite H; reflexivity..].
  destruct H as (row & _ & _ & H & _). intros j Hj. by rewrite H, lookup_insert_ne.
Qed.

Lemma ConfirmOpenLibraryMatch_only tx fg f ids id key meta detail now :
  always (only_candidate id) (ConfirmOpenLibraryMatch tx fg f ids id key meta detail now).
Proof.
  intros db. pose proof (ConfirmOpenLibraryMatch_outcome tx fg f ids id key meta detail now db) as H.
  destruct (ConfirmOpenLibraryMatch tx fg f ids id key meta detail now db) as [[[]|e|] db']; cbn; [|rewrite H; reflexivity..].
  destruct H as (row & _ & _ & H & _). intros j Hj. by rewrite H, lookup_insert_ne.
Qed.

Lemma Reject_only fg fs id now : always (only_candidate id) (Reject fg fs id now).
Proof.
  apply always_bind; [typeclasses eauto| |].
  - intros db. rewrite <- (pending_candidate_pure fg id db). reflexivity.
  - intros _. apply update_candidate_only.
Qed.

Section handlers.
Context `{CaseTables} `{FoldTable} `{Urls} `{Addresses} `{TokenPrimitives} `{PairingStore.Crypto} `{Decoders}
  `{SourceProviders.Network} `{FileSystem} `{Containers} `{OpenLibraryJSON} `{OpenLibraryServer} `{Jsonb}
  `{ImportJSON} `{TimeText} `{CoverJSON}.

Definition only_candidate_of (id : string) (w w' : import_world) : Prop := only_candidate id (iw_db w) (iw_db w').
#[export] Instance only_candidate_of_preorder id : PreOrder (only_candidate_of id).
Proof. split; [by intros w j|]. intros w1 w2 w3 H1' H2' j Hj. by rewrite H2', H1'. Qed.

Lemma on_db_only {A} id (m : stM import_db error A) :
  always (only_candidate id) m -> always (only_candidate_of id) (on_db m).
Proof. intros Hm w. unfold on_db. specialize (Hm (iw_db w)). by destruct (m (iw_db w)). Qed.
Lemma on_db_pure {A} (m : stM import_db error A) : pure m -> pure (on_db m).
Proof.
  intros Hm w. unfold on_db. specialize (Hm (iw_db w)). destruct (m (iw_db w)) as [r db]. cbn in *. subst.
  by destruct w.
Qed.
Lemma pure_or_domain_import {A} (m : stM import_world error A) : pure m -> pure (or_domain m).
Proof. intros Hm. apply pure_bind; [by apply pure_attempt|]. by intros [a|e|] w. Qed.
Lemma in_active_library_pure fault ctx id : pure (in_active_library fault ctx id).
Proof. apply pure_or_domain_import, on_db_pure, GetInLibrary_pure. Qed.
Lemma pure_only {A} id (m : importH A) : pure m -> always (only_candidate_of id) m.
Proof. intros Hm w. rewrite <- (Hm w). reflexivity. Qed.
Lemma or_domain_only {A} id (m : stM import_world error A) :
  always (only_candidate_of id) m -> always (only_candidate_of id) (or_domain m).
Proof.
  intros Hm. apply always_bind; [typeclasses eauto|by apply always_attempt|]. intros [a|e|] w; by intros j.
Qed.

Lemma confirm_action_only env ol ctx id body now : always (only_candidate_of id) (confirm_action env ol ctx id body now).
Proof.
  assert (Hthrow : forall A e, always (only_candidate_of id) (throw e : importH A)) by (by intros A e w j).
  unfold confirm_action, attach_existing, use_open_library_match, create_new.
  destruct (String.eqb _ "attach_existing").
  { destruct (String.eqb _ ""); [apply Hthrow|]. apply or_domain_only, on_db_only, ConfirmAttachExisting_only. }
  destruct (String.eqb _ "use_open_library_match").
  { destruct (String.eqb _ ""); [apply Hthrow|].
    apply always_bind; [typeclasses eauto|apply pure_only, in_active_library_pure|intros cand].
    apply always_bind; [typeclasses eauto| |intros detail; apply or_domain_only, on_db_only, ConfirmOpenLibraryMatch_only].
    destruct ol as [c|]; [|by intros w j]. apply always_attempt. intros w. unfold on_openlibrary.
    destruct (GetWork c _ _). by intros j. }
  destruct (String.eqb _ "create_new"); [|apply Hthrow].
  apply always_bind; [typeclasses eauto|apply pure_only, in_active_library_pure|intros cand].
  apply always_bind; [typeclasses eauto| |intros meta; apply or_domain_only, on_db_only, ConfirmCreateNew_only].
  apply pure_only. intros w. unfold create_metadata, or_fail, mbind, stM_bind, attempt, reading, throw, mret, stM_ret.
  repeat (case_match; simplify_eq; try done).
Qed.

(** There is no such candidate, or its source is another library's. *)
Definition foreign (lib : LibraryID) (w : import_world) (id : string) : Prop :=
  forall r, im_candidates (iw_db w) !! id = Some r -> source_library (cn_source_id r) (iw_db w) <> lib.

Lemma foreign_row lib w r : source_library (cn_source_id r) (iw_db w) <> lib -> in_library_row lib (iw_db w) r = false.
Proof. intros Hne. unfold in_library_row. by rewrite (proj2 (String.eqb_neq _ _) Hne), andb_false_r. Qed.
Lemma own_row lib w r : in_library_row lib (iw_db w) r = true -> source_library (cn_source_id r) (iw_db w) = lib.
Proof. unfold in_library_row. by intros [_ ?%String.eqb_eq]%andb_true_iff. Qed.

Lemma in_active_library_hidden fault ctx id w :
  (forall r, im_candidates (iw_db w) !! id = Some r ->
     in_library_row (ActiveLibraryFromContext ctx) (iw_db w) r = false) ->
  exists e, in_active_library fault ctx id w = (Err e, w) /\
    (fault = None -> e = HTTPError NotFound candidate_missing).
Proof.
  intros Hf. unfold in_active_library, or_domain, or_fail, attempt, on_db, GetInLibrary, query_one, mbind, stM_bind, exec.
  destruct fault as [f|]; [destruct w; by eexists|]. cbn [option_bind mbind].
  destruct (im_candidates (iw_db w) !! id) as [r|] eqn:Hr; [cbn [mbind option_bind]; rewrite (Hf r eq_refl)|];
    cbn; destruct w; by eexists.
Qed.

Lemma in_active_library_foreign fault ctx id w :
  foreign (ActiveLibraryFromContext ctx) w id ->
  exists e, in_active_library fault ctx id w = (Err e, w) /\
    (fault = None -> e = HTTPError NotFound candidate_missing).
Proof. intros Hf. apply in_active_library_hidden. intros r Hr. by apply foreign_row, Hf. Qed.

Lemma in_active_library_ok fault ctx id w rec w' :
  in_active_library fault ctx id w = (Ok rec, w') ->
  exists r, im_candidates (iw_db w) !! id = Some r /\
    in_library_row (ActiveLibraryFromContext ctx) (iw_db w) r = true.
Proof.
  intros E. destruct (im_candidates (iw_db w) !! id) as [r|] eqn:Hr;
    [destruct (in_library_row (ActiveLibraryFromContext ctx) (iw_db w) r) eqn:Hin; [by exists r|]|];
    destruct (in_active_library_hidden fault ctx id w) as (e & E' & _); try congruence;
    intros r'; rewrite Hr; congruence.
Qed.

(** A handler that looks the candidate up before anything else. *)
Lemma guarded_handler {A} fault ctx id (k : ImportCandidateRecord -> importH A) :
  (forall cand, always (only_candidate_of id) (k cand)) ->
  forall w, (foreign (ActiveLibraryFromContext ctx) w id ->
      exists e, (cand ← in_active_library fault ctx id; k cand) w = (Err e, w) /\
        (fault = None -> e = HTTPError NotFound candidate_missing)) /\
    forall j, foreign (ActiveLibraryFromContext ctx) w j ->
      im_candidates (iw_db ((cand ← in_active_library fault ctx id; k cand) w).2) !! j =
      im_candidates (iw_db w) !! j.
Proof.
  intros Hk w. split.
  - intros Hf. destruct (in_active_library_foreign fault ctx id w Hf) as (e & E & He).
    exists e. split; [|done]. unfold mbind, stM_bind. by rewrite E.
  - intros j Hj. rewrite bind_pure by apply in_active_library_pure.
    destruct (in_active_library fault ctx id w) as [[cand|e|] w'] eqn:E; [|done..]. cbn [fst].
    destruct (decide (j = id)) as [->|Hne]; [|by apply Hk].
    destruct (in_active_library_ok _ _ _ _ _ _ E) as (r & Hr & Hin). by destruct (Hj r Hr (own_row _ _ _ Hin)).
Qed.

(** What confirming and rejecting do once the candidate is known to be the
    library's. *)
Definition confirm_rest env ol ctx id now (body : option ImportConfirmRequestBody) : importH ImportCandidateWireDTO :=
  malformed_body body (fun body =>
    _ ← confirm_action env ol ctx id body now;
    updated ← in_active_library (ce_read env 3%nat) ctx id;
    mret (toCandidateWireDTO updated)).
Definition reject_rest env ctx id now : importH ImportCandidateWireDTO :=
  _ ← or_domain (on_db (Reject (ce_read env 1%nat) (cf_status (ce_create env)) id now));
  updated ← in_active_library (ce_read env 3%nat) ctx id;
  mret (toCandidateWireDTO updated).

Lemma answer_only env ctx id :
  always (only_candidate_of id) (updated ← in_active_library (ce_read env 3%nat) ctx id;
                                 mret (toCandidateWireDTO updated) : importH _).
Proof.
  apply always_bind; [typeclasses eauto|apply pure_only, in_active_library_pure|]. intros u w. reflexivity.
Qed.
Lemma confirm_rest_only env ol ctx id now body : always (only_candidate_of id) (confirm_rest env ol ctx id now body).
Proof.
  destruct body as [body|]; [|intros w; reflexivity]. cbn [confirm_rest malformed_body].
  apply always_bind; [typeclasses eauto|apply confirm_action_only|intros _; apply answer_only].
Qed.
Lemma reject_rest_only env ctx id now : always (only_candidate_of id) (reject_rest env ctx id now).
Proof.
  apply always_bind; [typeclasses eauto|apply or_domain_only, on_db_only, Reject_only|intros _; apply answer_only].
Qed.
Lemma confirm_handler_eq env ol ctx id now body w : id <> "" ->
  ImportCandidateConfirmHandler env ol ctx id now body w =
  (cand ← in_active_library (ce_read env 0%nat) ctx id; (fun _ => confirm_rest env ol ctx id now body) cand) w.
Proof. intros Hid. unfold ImportCandidateConfirmHandler. by destruct (String.eqb_spec id ""). Qed.
Lemma reject_handler_eq env ctx id now w : id <> "" ->
  ImportCandidateRejectHandler env ctx id now w =
  (cand ← in_active_library (ce_read env 0%nat) ctx id; (fun _ => reject_rest env ctx id now) cand) w.
Proof. intros Hid. unfold ImportCandidateRejectHandler. by destruct (String.eqb_spec id ""). Qed.
Lemma cover_foreign fault ctx id w : id <> "" -> fault = None -> foreign (ActiveLibraryFromContext ctx) w id ->
  ImportCandidateCoverHandler fault ctx id w = (Err (HTTPError NotFound candidate_missing), w).
Proof.
  intros Hid Hfault Hf. unfold ImportCandidateCoverHandler. destruct (String.eqb_spec id ""); [done|].
  unfold mbind, stM_bind. destruct (in_active_library_foreign fault ctx id w Hf) as (e & -> & He). by rewrite (He Hfault).
Qed.
Lemma cover_pure fault ctx id : pure (ImportCandidateCoverHandler fault ctx id).
Proof.
  unfold ImportCandidateCoverHandler. destruct (String.eqb id ""); [by intros w|].
  apply pure_bind; [apply in_active_library_pure|]. intros cand w. repeat (case_match; try done).
Qed.
End handlers.

(** C16: a candidate of another library is hidden: confirming it, rejecting it
    and asking for its cover are answered as if it did not exist and do
    nothing; and whatever a member of one library asks for, the candidates of
    the others stay as they are. *)
Theorem candidates_kept_apart `{CaseTables} `{FoldTable} `{TokenPrimitives} `{Containers} `{OpenLibraryJSON}
    `{OpenLibraryServer} `{Jsonb} `{ImportJSON} `{TimeText} `{CoverJSON} env ol ctx id now body fault w :
  let lib := ActiveLibraryFromContext ctx in
  let confirm := ImportCandidateConfirmHandler env ol ctx id now body in
  let reject := ImportCandidateRejectHandler env ctx id now in
  let cover := ImportCandidateCoverHandler fault ctx id in
  id <> "" ->
  (foreign lib w id -> ce_read env 0%nat = None -> fault = None ->
     confirm w = (Err (HTTPError NotFound candidate_missing), w) /\
     reject w = (Err (HTTPError NotFound candidate_missing), w) /\
     cover w = (Err (HTTPError NotFound candidate_missing), w)) /\
  forall j, foreign lib w j ->
    im_candidates (iw_db (confirm w).2) !! j = im_candidates (iw_db w) !! j /\
    im_candidates (iw_db (reject w).2) !! j = im_candidates (iw_db w) !! j /\
    (cover w).2 = w.
Proof.
  intros lib confirm reject cover Hid.
  unfold confirm, reject. rewrite confirm_handler_eq, reject_handler_eq by exact Hid.
  assert (Hv : (cover w).2 = w) by (symmetry; apply cover_pure).
  pose proof (guarded_handler (ce_read env 0%nat) ctx id (fun _ => confirm_rest env ol ctx id now body)
                (fun _ => confirm_rest_only env ol ctx id now body) w) as [Hc Hcj].
  pose proof (guarded_handler (ce_read env 0%nat) ctx id (fun _ => reject_rest env ctx id now)
                (fun _ => reject_rest_only env ctx id now) w) as [Hr Hrj].
  split.
  - intros Hf Hread Hfault.
    destruct (Hc Hf) as (e & Ec & He), (Hr Hf) as (e' & Er & He'). rewrite (He Hread) in Ec. rewrite (He' Hread) in Er.
    split; [exact Ec|]. split; [exact Er|]. by apply cover_foreign.
  - intros j Hj. split; [exact (Hcj j Hj)|]. split; [exact (Hrj j Hj)|exact Hv].
Qed.
