(* ===== verification/ImportJobSafety.v ===== *)
(** * What the import job and discovery guarantee
      (src/internal/importer/job.go, discovery.go)

    A run of the job ends, leaves no temporary file, and decides its own
    candidate and nothing else; since the library's finder always fails, it
    never imports a file by itself.  A discovery gives every file of the
    source a candidate, so that a second one finds nothing new. *)

From S2P Require Import Prelude GoStrings Errors Validate Catalog Transactor Services Postgres Http Jobs PairingStore Tokens Identity Paths Access CatalogStore CatalogLaws Library Sources SourceProviders SourceHandlers SourceSafety Extract ExtractSafety OpenLibrary OpenLibrarySafety ImportStore Importer ImportJob ImporterSafety.

Local Open Scope string_scope.
Local Open Scope list_scope.
Local Open Scope Z_scope.

Section job.
Context `{CaseTables} `{FoldTable} `{Urls} `{Addresses} `{TokenPrimitives} `{PairingStore.Crypto} `{Decoders}
  `{SourceProviders.Network} `{FileSystem} `{Containers} `{OpenLibraryJSON} `{OpenLibraryServer} `{Jsonb}
  `{ImportJSON}.

(** ** Steps that leave the tables and the files *)

Definition still (w w' : import_world) : Prop := iw_db w' = iw_db w /\ iw_files w' = iw_files w.
#[export] Instance still_preorder : PreOrder still.
Proof. split; [by intros w|]. intros w1 w2 w3 [E1 F1] [E2 F2]. split; congruence. Qed.

(** A computation that ends, and leaves them. *)
Definition calm {A} (m : worldM A) : Prop := forall w, still w (m w).2 /\ (m w).1 <> OutOfFuel.

Lemma calm_bind {A B} (m : worldM A) (f : A -> worldM B) : calm m -> (forall a, calm (f a)) -> calm (m ≫= f).
Proof.
  intros Hm Hf w. destruct (Hm w) as [Hs Hr]. unfold mbind, stM_bind. destruct (m w) as [[a|e|] w1]; cbn in *; [|done..].
  destruct (Hf a w1) as [Hs1 Hr1]. split; [by etrans|done].
Qed.
Lemma calm_on_db {A} (m : stM import_db error A) : pure m -> (forall db, (m db).1 <> OutOfFuel) -> calm (on_db m).
Proof.
  intros Hp Hr w. unfold on_db. specialize (Hp (iw_db w)). specialize (Hr (iw_db w)).
  destruct (m (iw_db w)) as [r db]. cbn in *. by subst.
Qed.
Lemma calm_answer {A} (r : Result A) : r <> OutOfFuel -> calm (reading (fun _ => r)).
Proof. intros Hr w. by split. Qed.
Lemma calm_throw {A} e : calm (throw e : worldM A).
Proof. intros w. by split. Qed.
Lemma calm_ret {A} (a : A) : calm (mret a).
Proof. intros w. by split. Qed.

Lemma ProviderFor_calm cfg fault sourceID : calm (ProviderFor cfg fault sourceID).
Proof.
  apply calm_bind.
  - apply calm_on_db.
    + intros db. unfold on_import_catalog, GetSourceRecord, query_one, mbind, stM_bind, exec. destruct db, fault; [done|].
      cbn. by destruct (_ !! _).
    + intros db. unfold on_import_catalog, GetSourceRecord, query_one, mbind, stM_bind, exec. destruct fault; [done|].
      cbn. by destruct (_ !! _).
  - intros rec. destruct (sc_Codec _); [|apply calm_throw]. destruct (String.eqb _ KindLocalFolder).
    + apply calm_bind; [|intros p; apply calm_ret]. apply calm_answer. unfold NewLocal, ValidateLocalFolderPath.
      repeat case_match; done.
    + destruct (String.eqb _ KindOPDS); [apply calm_ret|apply calm_throw].
Qed.

Lemma ResolveSource_calm cfg fault sourceID ref : calm (ResolveSource cfg fault sourceID ref).
Proof.
  apply calm_bind; [apply ProviderFor_calm|]. intros [p|p].
  - apply calm_answer. unfold LocalResolve, unavailable, file_missing, fails. repeat case_match; done.
  - intros w. unfold on_source, OPDSResolve. destruct (String.eqb _ ""); [by destruct w|].
    unfold fetched, get. repeat (case_match; simplify_eq; try done).
    all: unfold read_response in *; repeat (case_match; simplify_eq; try done).
Qed.

(** ** Matching without the library *)

Lemma Search_returns c q limit offset w : (Search c q limit offset w).1 <> OutOfFuel.
Proof.
  unfold Search. cbv zeta. destruct (_ || _); [done|]. unfold mbind, stM_bind. set (url := search_url _ _ _ _).
  pose proof (doRequest_returns c url maxMetadataResponseBytes w) as Hr.
  destruct (doRequest c url maxMetadataResponseBytes w) as [[[body ct]|e|] w1]; [|done|done].
  unfold reading, NormaliseSearchResponse. cbv zeta. cbn [fst]. repeat case_match; done.
Qed.

(** The finder fails, whatever it is asked: only Open Library's matches are
    left, and there is nothing to import by itself. *)
Lemma Match_server c fault meta w :
  exists items w', Match (server_matcher c fault) meta w = (Ok (open_library_match meta <$> items, false), w') /\
    still w w'.
Proof.
  assert (Hlib : library_hits (server_matcher c fault) meta w = (Ok [], w)).
  { unfold library_hits. destruct (em_ISBN meta) as [isbn|]; [|done]. cbn [mt_library server_matcher].
    destruct (String.eqb isbn ""); [done|]. unfold or_none, mbind, stM_bind, on_db, FindOwnedByISBN, exec.
    destruct w, fault; done. }
  assert (Hol : exists items w', open_library_hits (server_matcher c fault) meta w = (Ok items, w') /\ still w w').
  { unfold open_library_hits. cbn [mt_openLibrary server_matcher]. destruct (String.eqb _ ""); [by exists [], w|].
    unfold or_none, mbind, stM_bind, on_openlibrary. destruct (Search c _ 5 0 _) as [[r|e|] n]; by eexists _, _. }
  destruct Hol as (items & w' & Hol & Hs). exists items, w'. split; [|done].
  unfold Match, mbind, stM_bind. rewrite Hlib, Hol. done.
Qed.

(** ** How a run ends *)

Definition failed_row (reason : string) (now : Time) (r : candidate_cols) : candidate_cols :=
  mkCandidateCols (cn_source_id r) (cn_file_reference r) StatusFailed (cn_extracted_metadata r)
    (cn_match_candidates r) (cn_job_id r) (Some reason) (cn_created_at r) now.
Definition pending_row (extracted matched : option string) (now : Time) (r : candidate_cols) : candidate_cols :=
  mkCandidateCols (cn_source_id r) (cn_file_reference r) StatusPending extracted matched (cn_job_id r)
    (cn_last_error r) (cn_created_at r) now.
Definition with_candidate_row (id : string) (r : candidate_cols) (db : import_db) : import_db :=
  with_candidates (<[id := r]> (im_candidates db)) db.

(** No file is left; on success the candidate waits for a decision, on failure
    it is marked as failed or as it was; nothing else changed. *)
Definition job_result (id : string) (now : Time) (w : import_world) (r : Result unit) (w' : import_world) : Prop :=
  iw_files w' = iw_files w /\
  match r with
  | Ok _ => exists row extracted matched, im_candidates (iw_db w) !! id = Some row /\
      iw_db w' = with_candidate_row id (pending_row extracted matched now row) (iw_db w)
  | Err _ => iw_db w' = iw_db w \/
      exists row reason, im_candidates (iw_db w) !! id = Some row /\
        iw_db w' = with_candidate_row id (failed_row reason now row) (iw_db w)
  | OutOfFuel => False
  end.

Lemma job_result_after id now w w1 r w' :
  still w w1 -> job_result id now w1 r w' -> job_result id now w r w'.
Proof. intros [E F] [Hf Hr]. split; [congruence|]. by rewrite E in Hr. Qed.

Lemma job_failed env id reason now err w :
  let '(r, w') := fail_candidate (A := unit) env id reason now err w in job_result id now w r w'.
Proof.
  unfold fail_candidate, mbind, stM_bind, dropped, throw. cbn [fst]. unfold on_db, UpdateFailed.
  destruct (update_candidate _ _ _ (iw_db w)) as [r db'] eqn:E. split; [done|]. cbn [iw_db].
  destruct r as [u|e|].
  - right. apply update_candidate_ok in E as (_ & row & r' & Hrow & [= <-] & _ & ->). by exists row, reason.
  - left. revert E. unfold update_candidate, affecting, mbind, stM_bind, exec. destruct (je_failed env); [by intros [= _ <-]|].
    destruct (im_candidates (iw_db w) !! id); cbn; by intros [= _ <-].
  - left. revert E. unfold update_candidate, affecting, mbind, stM_bind, exec. destruct (je_failed env); [by intros [= _ <-]|].
    destruct (im_candidates (iw_db w) !! id); cbn; by intros [= _ <-].
Qed.

Lemma jsonb_cell_returns text : jsonb_cell text <> OutOfFuel.
Proof. unfold jsonb_cell. repeat case_match; done. Qed.

Lemma job_kept fault id extracted matched now w :
  let '(r, w') := on_db (UpdateExtractedAndMatches fault id StatusPending extracted matched now) w in
  job_result id now w r w'.
Proof.
  unfold on_db. destruct (UpdateExtractedAndMatches _ _ _ _ _ _ (iw_db w)) as [r db'] eqn:E. split; [done|]. cbn [iw_db].
  unfold UpdateExtractedAndMatches in E. destruct r as [u|e|].
  - apply update_candidate_ok in E as (_ & row & r' & Hrow & Hf & _ & ->). unfold mbind, res_bind in Hf.
    destruct (jsonb_cell extracted) as [x| |]; [|done..]. destruct (jsonb_cell matched) as [y| |]; [|done..].
    injection Hf as <-. by exists row, x, y.
  - left. revert E. unfold update_candidate, affecting, mbind, stM_bind, exec, res_bind. destruct fault; [by intros [= _ <-]|].
    destruct (im_candidates (iw_db w) !! id); [|by intros [= _ <-]]. cbn.
    destruct (jsonb_cell extracted); [|by intros [= _ <-]|done]. destruct (jsonb_cell matched); [|by intros [= _ <-]|done].
    by intros [= _ <-].
  - revert E. unfold update_candidate, affecting, mbind, stM_bind, exec, res_bind. destruct fault; [done|].
    destruct (im_candidates (iw_db w) !! id); [|done]. cbn.
    pose proof (jsonb_cell_returns extracted). pose proof (jsonb_cell_returns matched).
    destruct (jsonb_cell extracted); [|done|done]. by destruct (jsonb_cell matched).
Qed.

(** What a run relies on: texts are made of metadata and matches. *)
Context (Hmeta : forall m, metadata_json m <> OutOfFuel) (Hmatches : forall l, matches_json l <> OutOfFuel).

Lemma job_wrapped id now w msg (m : worldM unit) :
  (let '(r, w') := m w in job_result id now w r w') ->
  let '(r, w') := wrapping msg m w in job_result id now w r w'.
Proof. unfold wrapping. by destruct (m w) as [[[]|e|] w1]. Qed.

Lemma settle_result env svc payload format meta items now w :
  let '(r, w') := settle env svc payload format meta (open_library_match meta <$> items) false now w in
  job_result (ip_CandidateID payload) now w r w'.
Proof.
  assert (Hkeep : forall l, let '(r, w') :=
      (metaJSON ← wrapping "marshalling extracted metadata: " (reading (fun _ => metadata_json meta));
       matchJSON ← wrapping "marshalling match candidates: " (reading (fun _ => matches_json l));
       wrapping "updating candidate: "
         (on_db (UpdateExtractedAndMatches (je_status env) (ip_CandidateID payload) StatusPending metaJSON matchJSON now))) w in
    job_result (ip_CandidateID payload) now w r w').
  { intros l. unfold mbind, stM_bind. unfold wrapping at 1 2. unfold reading. specialize (Hmeta meta). specialize (Hmatches l).
    destruct (metadata_json meta) as [x| |]; [|by split; [|left]|done].
    destruct (matches_json l) as [y| |]; [|by split; [|left]|done]. apply job_wrapped, job_kept. }
  unfold settle. destruct items as [|i [|]]; apply Hkeep.
Qed.

Lemma report_still n : calm (report n).
Proof. intros w. by split. Qed.

(** A step, then the rest of the run. *)
Lemma job_step {A} id now w (m : worldM A) (f : A -> worldM unit) :
  calm m -> (forall a w1, let '(r, w') := f a w1 in job_result id now w1 r w') ->
  let '(r, w') := (m ≫= f) w in job_result id now w r w'.
Proof.
  intros Hm Hf. destruct (Hm w) as [Hs Hr]. unfold mbind, stM_bind. destruct (m w) as [[a|e|] w1]; cbn in *; [| |done].
  - specialize (Hf a w1). destruct (f a w1) as [r w']. by eapply job_result_after.
  - destruct Hs as [E F]. split; [done|]. by left.
Qed.

Lemma job_step_to {A} id now w (m : worldM A) (f : A -> worldM unit) a w1 :
  m w = (Ok a, w1) -> still w w1 -> (let '(r, w') := f a w1 in job_result id now w1 r w') ->
  let '(r, w') := (m ≫= f) w in job_result id now w r w'.
Proof.
  intros Hm Hs Hf. unfold mbind, stM_bind. rewrite Hm. destruct (f a w1) as [r w']. by eapply job_result_after.
Qed.

(** Nothing is undone by a report at the end. *)
Lemma job_then_report id now w (m : worldM unit) n :
  (let '(r, w') := m w in job_result id now w r w') ->
  let '(r, w') := (_ ← m; report n) w in job_result id now w r w'.
Proof. unfold mbind, stM_bind. by destruct (m w) as [[[]|e|] w1]. Qed.

Lemma process_file_result env c fault svc payload f now w :
  let '(r, w') := process_file env (server_matcher c fault) svc payload f now w in
  job_result (ip_CandidateID payload) now w r w'.
Proof.
  unfold process_file. apply job_step; [apply report_still|]. intros _ w1.
  assert (Hd : DetectFormat (je_stat env) f <> OutOfFuel) by (unfold DetectFormat; repeat case_match; done).
  destruct (DetectFormat (je_stat env) f) as [format|e|]; [|apply job_failed|done].
  destruct (String.eqb format FormatUnknown); [apply job_failed|].
  pose proof (Extract_clean (je_cancelled env) (je_cancelled' env) (je_stat' env) format f) as He.
  destruct (Extract _ _ _ _ _) as [meta|e|]; [|apply job_failed|done]. clear He.
  apply job_step; [apply report_still|]. intros _ w2.
  destruct (Match_server c fault meta w2) as (items & w3 & Hm & Hs).
  eapply job_step_to; [unfold outcome; rewrite Hm; reflexivity|exact Hs|].
  apply job_step; [apply report_still|]. intros _ w4. apply job_then_report, settle_result.
Qed.

Lemma Materialize_files sp stream files :
  Exists (fun r => rd_end r <> ReadMore) stream ->
  match Materialize sp stream files with
  | (Ok s, files') => files' = S files
  | (Err _, files') => files' = files
  | (OutOfFuel, _) => False
  end.
Proof.
  intros Hend. pose proof (Materialize_spooled sp stream files) as Hm.
  destruct (Materialize sp stream files) as [[s|e|] n]; [tauto|done|]. destruct Hm as [Hm _].
  apply Exists_exists in Hend as (r & Hr & Hne). rewrite Forall_forall in Hm. by apply Hne, Hm.
Qed.

Lemma job_run cfg env c fault svc now raw payload w :
  (forall content, Exists (fun r => rd_end r <> ReadMore) (je_reads env content)) ->
  parse_payload raw = Ok payload ->
  let '(r, w') := ImportJob cfg env (server_matcher c fault) svc now raw w in
  job_result (ip_CandidateID payload) now w r w'.
Proof.
  intros Hends Hp. unfold ImportJob. rewrite Hp. apply job_step; [apply report_still|]. intros _ w1.
  destruct (ResolveSource_calm cfg (je_source_fault env) (ip_SourceID payload) (ip_FileReference payload) w1) as [Hs Hr].
  destruct (ResolveSource cfg _ _ _ w1) as [r w2] eqn:Er. cbn [fst snd] in *.
  eapply job_step_to; [unfold outcome; rewrite Er; reflexivity|exact Hs|]. clear Er Hs.
  destruct r as [content|e|]; [|apply job_failed|done]. clear Hr.
  pose proof (Materialize_files (je_spool env) (je_reads env content) (iw_files w2) (Hends content)) as Hm.
  unfold outcome, on_files, mbind, stM_bind.
  destruct (Materialize _ _ _) as [[f|e|] n]; [|subst n|done].
  - subst n. unfold with_cleanup.
    pose proof (process_file_result env c fault svc payload f now
      (mkImportWorld (iw_db w2) (iw_sources w2) (iw_openlibrary w2) (S (iw_files w2)) (iw_progress w2))) as Hf.
    destruct (process_file _ _ _ _ _ _ _) as [r w3]. destruct Hf as [Hf Hr]. split; [|exact Hr].
    cbn in *. by rewrite Hf.
  - pose proof (job_failed env (ip_CandidateID payload) ("spooling source file: " +:+ Error e) now
      (if Is e (Error ErrOversized) then PermanentError e else e)
      (mkImportWorld (iw_db w2) (iw_sources w2) (iw_openlibrary w2) (iw_files w2) (iw_progress w2))) as Hf.
    exact Hf.
Qed.
End job.

(** C17: a run of the job as the server starts it always ends; it leaves as
    many temporary files as there were and the catalogue as it was - it never
    imports a file by itself, for the library's finder always fails - and of
    the candidates it changes its own only: one it succeeds for waits for a
    decision, one it fails for is marked as failed or left alone. *)
Theorem ImportJob_run `{CaseTables} `{FoldTable} `{Urls} `{Addresses} `{TokenPrimitives} `{PairingStore.Crypto}
    `{Decoders} `{SourceProviders.Network} `{FileSystem} `{Containers} `{OpenLibraryJSON} `{OpenLibraryServer}
    `{Jsonb} `{ImportJSON} cfg env c fault svc now raw w :
  parse_payload raw <> OutOfFuel ->
  (forall m, metadata_json m <> OutOfFuel) -> (forall l, matches_json l <> OutOfFuel) ->
  (forall content, Exists (fun r => rd_end r <> ReadMore) (je_reads env content)) ->
  let '(r, w') := ImportJob cfg env (server_matcher c fault) svc now raw w in
  r <> OutOfFuel /\ iw_files w' = iw_files w /\ im_catalog (iw_db w') = im_catalog (iw_db w) /\
  match parse_payload raw with
  | Ok payload => job_result (ip_CandidateID payload) now w r w'
  | _ => is_ok r = false /\ w' = w
  end.
Proof.
  intros Hp Hm Hl Hends. destruct (parse_payload raw) as [payload|e|] eqn:E; [|unfold ImportJob; by rewrite E|done].
  pose proof (job_run Hm Hl cfg env c fault svc now raw payload w Hends E) as Hj.
  destruct (ImportJob _ _ _ _ _ _ _) as [r w']. split; [by destruct r, Hj as [_ ?]|]. split; [by apply Hj|].
  split; [|exact Hj]. destruct Hj as [_ Hj], r as [u|err|]; [| |done].
  - by destruct Hj as (row & x & y & _ & ->).
  - by destruct Hj as [->|(row & reason & _ & ->)].
Qed.

(** ** Discovery *)

Section discovery.
Context `{CaseTables} `{FoldTable} `{Urls} `{Addresses} `{TokenPrimitives} `{PairingStore.Crypto} `{Decoders}
  `{SourceProviders.Network} `{FileSystem} `{Jsonb} `{ImportJSON}.
Context {Handler : Type}.

(** A file of a source that has a candidate. *)
Definition known (sourceID : string) (w : import_world) (fileRefID : string) : Prop :=
  exists id r, im_candidates (iw_db w) !! id = Some r /\ cn_source_id r = sourceID /\
    fj_ID (cn_file_reference r) = fileRefID.

(** What a discovery does: candidates are added, each queued with its job and
    for a file of the source; the catalogue stays. *)
Definition discovered (sourceID : string) (jobIDs : list string) (w w' : import_world) : Prop :=
  im_catalog (iw_db w') = im_catalog (iw_db w) /\
  im_candidates (iw_db w) ⊆ im_candidates (iw_db w') /\
  (forall j, is_Some (im_jobs (iw_db w) !! j) -> is_Some (im_jobs (iw_db w') !! j)) /\
  forall id r, im_candidates (iw_db w') !! id = Some r -> im_candidates (iw_db w) !! id = None ->
    cn_source_id r = sourceID /\ cn_status r = StatusQueued /\
    exists j, cn_job_id r = Some j /\ j ∈ jobIDs /\ is_Some (im_jobs (iw_db w') !! j).

Lemma discovered_same sourceID w w' : iw_db w' = iw_db w -> discovered sourceID [] w w'.
Proof. intros E. unfold discovered. rewrite E. split_and!; [done..|]. congruence. Qed.

Lemma discovered_trans sourceID l1 l2 w1 w2 w3 :
  discovered sourceID l1 w1 w2 -> discovered sourceID l2 w2 w3 -> discovered sourceID (l1 ++ l2) w1 w3.
Proof.
  intros (C1 & S1 & J1 & N1) (C2 & S2 & J2 & N2). split; [congruence|]. split; [by etrans|]. split; [auto|].
  intros id r Hr Hn. destruct (im_candidates (iw_db w2) !! id) as [r2|] eqn:E.
  - assert (r2 = r) as -> by (apply (lookup_weaken _ _ _ _ E) in S2; congruence).
    destruct (N1 id r E Hn) as (? & ? & j & ? & ? & ?). split; [done|]. split; [done|]. exists j.
    split; [done|]. split; [apply elem_of_app; by left|auto].
  - destruct (N2 id r Hr E) as (? & ? & j & ? & ? & ?). split; [done|]. split; [done|]. exists j.
    split; [done|]. split; [apply elem_of_app; by right|done].
Qed.

Lemma known_mono sourceID w w' ref :
  im_candidates (iw_db w) ⊆ im_candidates (iw_db w') -> known sourceID w ref -> known sourceID w' ref.
Proof. intros Hs (id & r & Hr & ? & ?). exists id, r. split; [by eapply lookup_weaken|done]. Qed.

Lemma exists_known fault sourceID ref w b w' :
  on_db (ExistsBySourceAndFileRefID fault sourceID ref) w = (Ok b, w') ->
  fault = None /\ w' = w /\ (b = true <-> known sourceID w ref).
Proof.
  unfold on_db. destruct (ExistsBySourceAndFileRefID _ _ _ _) as [r db'] eqn:E. intros [= -> <-].
  unfold ExistsBySourceAndFileRefID in E. rewrite exec_ok in E. destruct E as [-> [= <- <-]].
  split; [done|]. split; [by destruct w|]. rewrite bool_decide_eq_true. unfold known. split.
  - intros Hn. destruct (select _ _) as [|[id r] l] eqn:E; [done|]. exists id, r.
    assert (Hin : (id, r) ∈ select (fun _ r => String.eqb (cn_source_id r) sourceID &&
      String.eqb (fj_ID (cn_file_reference r)) ref) (im_candidates (iw_db w))) by (rewrite E; by left).
    apply elem_of_select in Hin as [Hr [?%String.eqb_eq ?%String.eqb_eq]%andb_true_iff]. done.
  - intros (id & r & Hr & <- & <-) Hn. rewrite select_nil in Hn. specialize (Hn id r Hr). by rewrite !String.eqb_refl in Hn.
Qed.

Lemma wrapping_ok {A} msg (m : worldM A) w a w' : wrapping msg m w = (Ok a, w') <-> m w = (Ok a, w').
Proof. unfold wrapping. destruct (m w) as [[b|e|] w1]; naive_solver. Qed.

Lemma discover_file_ok env (registry : Registry Handler) sourceID now i ref w o w' :
  discover_file env registry sourceID now i ref w = (Ok o, w') ->
  iw_sources w' = iw_sources w /\ known sourceID w' (ReferenceID ref) /\
  discovered sourceID (match o with Some j => [j] | None => [] end) w w'.
Proof.
  unfold discover_file. rewrite stM_bind_ok. intros (b & w1 & Hb & Hk). apply wrapping_ok, exists_known in Hb as (_ & -> & Hb).
  destruct b; [injection Hk as <- <-; split; [done|]; split; [by apply Hb|by apply discovered_same]|].
  rewrite stM_bind_ok in Hk. destruct Hk as (j & w2 & Hq%wrapping_ok & Hk).
  rewrite stM_bind_ok in Hk. destruct Hk as ([] & w3 & Hc%wrapping_ok & [= <- <-]).
  unfold EnqueueImportJob, on_db in Hq.
  destruct (QueueEnqueue _ _ _ _ _ _) as [[j' t]| |] eqn:Eq; [|done..]. injection Hq as -> <-.
  unfold QueueEnqueue in Eq. destruct (lookup_kind _ _) as [reg|]; [|done].
  destruct (payload_json _) as [raw| |]; [|done..]. unfold mbind, res_bind, Enqueue, insert_row in Eq.
  cbn [j_ID queued_row nj_ID] in Eq. destruct (im_jobs (iw_db w) !! de_jobID env i) eqn:Ej; [done|].
  destruct (_ <? 1); [done|]. injection Eq as <- <-.
  unfold on_db in Hc. destruct (CreateCandidate _ _ _ _) as [r db3] eqn:Ec. injection Hc as -> <-.
  unfold CreateCandidate in Ec. apply execute_unit in Ec as [_ Hi]. unfold insert_candidate in Hi.
  cbn [ic_ExtractedMetadata ic_MatchCandidates ic_Status ic_ID ic_SourceID ic_FileReference ic_JobID ic_CreatedAt ic_UpdatedAt] in Hi.
  unfold mbind, res_bind, jsonb_cell in Hi. cbn [nullIfEmpty] in Hi.
  destruct (negb _); [done|]. destruct (bool_decide _) eqn:Ef in Hi; [done|]. destruct (negb _); [done|].
  injection Hi as <-. apply bool_decide_eq_false in Ef. cbn in Ef. apply eq_None_not_Some in Ef.
  split; [done|]. split.
  - eexists (de_candID env i), _. split; [apply lookup_insert_eq|]. done.
  - split; [done|]. split; [by apply insert_subseteq|]. split.
    + intros j Hj. cbn. destruct (decide (j = de_jobID env i)) as [->|]; [rewrite lookup_insert_eq; by eexists|].
      by rewrite lookup_insert_ne.
    + intros id r. cbn. destruct (decide (id = de_candID env i)) as [->|]; [|by rewrite lookup_insert_ne; [congruence|]].
      rewrite lookup_insert_eq. intros [= <-] _. cbn. split; [done|]. split; [done|]. eexists. split; [done|].
      split; [by left|]. rewrite lookup_insert_eq. by eexists.
Qed.

Definition total (res : DiscoverResult) : Z := dr_DiscoveredCount res + dr_SkippedCount res.

(** The files of a page, and the jobs made for them. *)
Lemma discover_items_ok env (registry : Registry Handler) sourceID now items : forall i res w res' w',
  discover_items env registry sourceID now i items res w = (Ok res', w') ->
  iw_sources w' = iw_sources w /\ Forall (fun c => known sourceID w' (ReferenceID (ca_FileReference c))) items /\
  total res' = total res + Z.of_nat (length items) /\
  exists l, dr_JobIDs res' = dr_JobIDs res ++ l /\ dr_DiscoveredCount res' = dr_DiscoveredCount res + Z.of_nat (length l) /\
    discovered sourceID l w w'.
Proof.
  induction items as [|item items IH]; intros i res w res' w'; cbn [discover_items].
  - intros [= <- <-]. split; [done|]. split; [done|]. split; [cbn; lia|]. exists []. rewrite app_nil_r.
    split; [done|]. split; [cbn; lia|]. by apply discovered_same.
  - rewrite stM_bind_ok. intros (o & w1 & Hf & Hrest). apply discover_file_ok in Hf as (Hs & Hk & Hd).
    apply IH in Hrest as (Hs' & Hall & Ht & l & Hj & Hn & Hd'). split; [congruence|]. split.
    { constructor; [|exact Hall]. eapply known_mono; [|exact Hk]. by apply Hd'. }
    split; [rewrite Ht; unfold total; destruct o; cbn [counted dr_DiscoveredCount dr_SkippedCount length]; lia|].
    destruct o as [j|]; cbn [counted dr_JobIDs dr_DiscoveredCount] in Hj, Hn.
    + exists (j :: l). rewrite Hj, <- app_assoc. split; [done|]. split; [cbn [length]; lia|].
      exact (discovered_trans sourceID [j] l _ _ _ Hd Hd').
    + exists l. split; [done|]. split; [done|]. exact (discovered_trans sourceID [] l _ _ _ Hd Hd').
Qed.

Definition skipping (res : DiscoverResult) (n : Z) : DiscoverResult :=
  mkDiscoverResult (dr_DiscoveredCount res) (dr_SkippedCount res + n) (dr_JobIDs res).

Lemma discover_items_again env (registry : Registry Handler) sourceID now items w :
  (forall i, de_exists env i = None) ->
  Forall (fun c => known sourceID w (ReferenceID (ca_FileReference c))) items -> forall i res,
  discover_items env registry sourceID now i items res w = (Ok (skipping res (Z.of_nat (length items))), w).
Proof.
  intros Henv. induction 1 as [|item items Hk _ IH]; intros i res; cbn [discover_items].
  - unfold skipping. rewrite Z.add_0_r. by destruct res.
  - assert (Hf : discover_file env registry sourceID now i (ca_FileReference item) w = (Ok None, w)).
    { unfold discover_file, mbind at 1, stM_bind at 1, wrapping at 1. rewrite Henv.
      destruct (on_db (ExistsBySourceAndFileRefID None sourceID _) w) as [r w'] eqn:E.
      destruct r as [b|e|]; [|unfold on_db, ExistsBySourceAndFileRefID, exec in E; by injection E..].
      apply exists_known in E as (_ & -> & Hb). by rewrite (proj2 Hb Hk). }
    unfold mbind, stM_bind. rewrite Hf, IH. unfold skipping, counted. cbn [dr_DiscoveredCount dr_SkippedCount dr_JobIDs length].
    do 3 f_equal. lia.
Qed.

(** ** The pages of a source *)

Definition same_listing (w1 w2 : import_world) : Prop :=
  im_catalog (iw_db w1) = im_catalog (iw_db w2) /\ semaphore (iw_sources w1) = semaphore (iw_sources w2).

Lemma ProviderFor_ok cfg fault sourceID w p w' :
  ProviderFor cfg fault sourceID w = (Ok p, w') -> fault = None /\ w' = w.
Proof.
  unfold ProviderFor. rewrite stM_bind_ok. intros (rec & w1 & Hg & Hk).
  assert (fault = None /\ w1 = w) as [-> ->].
  { unfold on_db, on_import_catalog, GetSourceRecord, query_one, mbind, stM_bind, exec in Hg.
    destruct fault; [done|]. cbn in Hg. destruct (ct_sources _ !! _); [|done]. injection Hg as _ <-. by destruct w as [[]]. }
  split; [done|]. destruct (sc_Codec _); [|done]. destruct (String.eqb _ KindLocalFolder).
  - rewrite stM_bind_ok in Hk. destruct Hk as (q & w2 & [_ ->]%reading_ok & [= _ <-]). done.
  - destruct (String.eqb _ KindOPDS); [by injection Hk as _ <-|done].
Qed.

Lemma ProviderFor_listing cfg sourceID w1 w2 :
  same_listing w1 w2 -> (ProviderFor cfg None sourceID w1).1 = (ProviderFor cfg None sourceID w2).1.
Proof.
  intros [Hc _]. unfold ProviderFor, mbind, stM_bind, on_db, on_import_catalog, GetSourceRecord, query_one, mbind, stM_bind, exec.
  cbn. rewrite Hc. destruct (ct_sources _ !! _); [|done]. cbn. unfold mret, stM_ret, throw, reading.
  repeat case_match; simplify_eq; done.
Qed.

Lemma get_listing c url n1 n2 :
  semaphore n1 = semaphore n2 -> (get c url n1).1 = (get c url n2).1.
Proof. intros E. unfold get. rewrite E. by repeat case_match. Qed.

Lemma OPDSList_listing p cursor n1 n2 :
  semaphore n1 = semaphore n2 -> (OPDSList p cursor n1).1 = (OPDSList p cursor n2).1.
Proof.
  intros E. unfold OPDSList, mbind, stM_bind, reading. destruct (resume_url _ _ _) as [[u|]| |]; [|done..].
  unfold feed_page, mbind, stM_bind, fetched. pose proof (get_listing (od_client p) u n1 n2 E) as Hg.
  destruct (get _ u n1) as [r1 m1], (get _ u n2) as [r2 m2]. cbn in Hg. subst r2. destruct r1; [|done..].
  by destruct (parseFeed _).
Qed.

(** Listing a page leaves the tables and gives its slot back. *)
Lemma ListSource_keeps cfg fault sourceID cursor limit w page w' :
  ListSource cfg fault sourceID cursor limit w = (Ok page, w') -> sem_ok (iw_sources w) ->
  fault = None /\ iw_db w' = iw_db w /\ semaphore (iw_sources w') = semaphore (iw_sources w).
Proof.
  unfold ListSource. rewrite stM_bind_ok. intros (p & w1 & Hp & Hk) Hsem. apply ProviderFor_ok in Hp as [-> ->].
  split; [done|]. destruct p as [p|p].
  - apply reading_ok in Hk as [_ ->]. done.
  - unfold on_source in Hk. pose proof (OPDSList_confined p cursor (iw_sources w)) as [_ Hs].
    destruct (OPDSList p cursor _) as [r n]. injection Hk as -> <-. split; [done|]. by apply Hs.
Qed.

Lemma ListSource_listing cfg sourceID cursor limit w1 w2 :
  same_listing w1 w2 -> (ListSource cfg None sourceID cursor limit w1).1 = (ListSource cfg None sourceID cursor limit w2).1.
Proof.
  intros Hl. unfold ListSource, mbind, stM_bind. pose proof (ProviderFor_listing cfg sourceID w1 w2 Hl) as Hp.
  destruct (ProviderFor cfg None sourceID w1) as [r1 v1] eqn:E1, (ProviderFor cfg None sourceID w2) as [r2 v2] eqn:E2.
  cbn [fst] in Hp. subst r2. destruct r1 as [p|e|]; [|done..].
  apply ProviderFor_ok in E1 as [_ ->], E2 as [_ ->]. destruct p as [p|p]; [done|].
  unfold on_source. pose proof (OPDSList_listing p cursor _ _ (proj2 Hl)) as Ho.
  destruct (OPDSList p cursor (iw_sources w1)), (OPDSList p cursor (iw_sources w2)). exact Ho.
Qed.

Lemma page_again cfg sourceID cursor w page w1 wb :
  ListSource cfg None sourceID cursor MaxLimit w = (Ok page, w1) -> same_listing w wb -> sem_ok (iw_sources wb) ->
  exists wb1, ListSource cfg None sourceID cursor MaxLimit wb = (Ok page, wb1) /\ iw_db wb1 = iw_db wb /\
    semaphore (iw_sources wb1) = semaphore (iw_sources wb).
Proof.
  intros Hl Hsame Hsem. pose proof (ListSource_listing cfg sourceID cursor MaxLimit _ _ Hsame) as Hl2.
  rewrite Hl in Hl2. cbn [fst] in Hl2. destruct (ListSource cfg None sourceID cursor MaxLimit wb) as [r wb1] eqn:E.
  cbn [fst] in Hl2. subst r. destruct (ListSource_keeps _ _ _ _ _ _ _ _ E Hsem) as (_ & ? & ?). by exists wb1.
Qed.

(** A run that nothing interrupts and whose lookups do not fail. *)
Definition untroubled (env : discover_env) : Prop :=
  (forall i, de_exists env i = None) /\ (forall i, de_source env i = None) /\ (forall i, de_cancelled env i = None).

(** What a later run over the same pages does: pass every file over. *)
Definition passes_over (run : DiscoverResult -> worldM DiscoverResult) (w w' : import_world) (files : Z) : Prop :=
  forall res wb, same_listing w wb -> sem_ok (iw_sources wb) -> im_candidates (iw_db w') ⊆ im_candidates (iw_db wb) ->
  exists wb', run res wb = (Ok (skipping res files), wb') /\ iw_db wb' = iw_db wb.

Lemma skipping_skipping res n m : skipping (skipping res n) m = skipping res (n + m).
Proof. unfold skipping. cbn. f_equal. lia. Qed.

Lemma page_passed cfg (registry : Registry Handler) sourceID cursor env' now' n' i' w page w1 w2 wb res
    (next : CandidatePage -> DiscoverResult -> worldM DiscoverResult) :
  ListSource cfg None sourceID cursor MaxLimit w = (Ok page, w1) ->
  Forall (fun c => known sourceID w2 (ReferenceID (ca_FileReference c))) (pg_Items page) ->
  untroubled env' -> same_listing w wb -> sem_ok (iw_sources wb) -> im_candidates (iw_db w2) ⊆ im_candidates (iw_db wb) ->
  im_catalog (iw_db w2) = im_catalog (iw_db w) -> semaphore (iw_sources w2) = semaphore (iw_sources w) ->
  exists wb1, same_listing w2 wb1 /\ sem_ok (iw_sources wb1) /\ iw_db wb1 = iw_db wb /\
    (page ← wrapping "listing items from source: " (ListSource cfg (de_source env' (S n')) sourceID cursor MaxLimit);
     res ← discover_items env' registry sourceID now' i' (pg_Items page) res;
     next page res) wb = next page (skipping res (Z.of_nat (length (pg_Items page)))) wb1.
Proof.
  intros Hl Hall (He & Hs & _) Hsame Hsem Hsub Hcat Hsem2.
  destruct (page_again _ _ _ _ _ _ _ Hl Hsame Hsem) as (wb1 & Hl1 & Hdb & Hsem1). exists wb1.
  split; [destruct Hsame; split; [rewrite Hdb|]; congruence|]. split; [unfold sem_ok in *; by rewrite Hsem1|]. split; [done|].
  assert (Hk : Forall (fun c => known sourceID wb1 (ReferenceID (ca_FileReference c))) (pg_Items page)).
  { eapply Forall_impl; [exact Hall|]. intros c. apply known_mono. by rewrite Hdb. }
  unfold mbind, stM_bind, wrapping at 1. rewrite Hs, Hl1, discover_items_again by done. done.
Qed.

Lemma discover_pages_run cfg (registry : Registry Handler) sourceID fuel : forall env now n i cursor res w res' w',
  discover_pages fuel cfg env registry sourceID now n i cursor res w = (Ok res', w') -> sem_ok (iw_sources w) ->
  semaphore (iw_sources w') = semaphore (iw_sources w) /\
  (exists l, dr_JobIDs res' = dr_JobIDs res ++ l /\ dr_DiscoveredCount res' = dr_DiscoveredCount res + Z.of_nat (length l) /\
     discovered sourceID l w w') /\
  forall env' now' n' i', untroubled env' ->
    passes_over (discover_pages fuel cfg env' registry sourceID now' n' i' cursor) w w' (total res' - total res).
Proof.
  induction fuel as [|fuel IH]; intros env now n i cursor res w res' w'; cbn [discover_pages]; [done|].
  destruct (de_cancelled env n); [done|]. rewrite stM_bind_ok. intros (page & w1 & Hl%wrapping_ok & Hk) Hsem.
  destruct (ListSource_keeps _ _ _ _ _ _ _ _ Hl Hsem) as (Hfault & Hdb1 & Hsem1). rewrite Hfault in Hl.
  rewrite stM_bind_ok in Hk. destruct Hk as (res1 & w2 & Hi & Hk).
  apply discover_items_ok in Hi as (Hsrc & Hall & Htot & l & Hj & Hn & Hd).
  assert (Hd' : discovered sourceID l w w2) by (exact (discovered_trans sourceID [] l _ _ _ (discovered_same sourceID _ _ Hdb1) Hd)).
  assert (Hsem2 : semaphore (iw_sources w2) = semaphore (iw_sources w)) by congruence.
  destruct (pg_NextCursor page) as [next|] eqn:Enext; [destruct next as [|ch next]|].
  1, 3: injection Hk as <- <-; split; [exact Hsem2|]; split; [by exists l|]; intros env' now' n' i' Henv res2 wb Hsame Hsemb Hsub;
    destruct (page_passed cfg registry sourceID cursor env' now' n' i' w page w1 w2 wb res2
      (fun page res => match pg_NextCursor page with
                       | None | Some "" => mret res
                       | Some next => discover_pages fuel cfg env' registry sourceID now' (S n')
                                        (i' + length (pg_Items page)) next res
                       end) Hl Hall Henv Hsame Hsemb Hsub) as (wb1 & _ & _ & Hdb & Hrun); [apply Hd'|done|];
    exists wb1; cbn [discover_pages]; destruct Henv as (_ & _ & ->); rewrite Hrun, Enext, Htot; split; [|exact Hdb];
    unfold mret, stM_ret; do 3 f_equal; lia.
  apply IH in Hk as (Hsem3 & (l' & Hj' & Hn' & Hd3) & Hagain); [|unfold sem_ok in *; by rewrite Hsem2].
  split; [congruence|]. split.
  { exists (l ++ l'). rewrite Hj', Hj, app_assoc, length_app. split; [done|]. split; [lia|].
    exact (discovered_trans sourceID l l' _ _ _ Hd' Hd3). }
  intros env' now' n' i' Henv res2 wb Hsame Hsemb Hsub.
  destruct (page_passed cfg registry sourceID cursor env' now' n' i' w page w1 w2 wb res2
      (fun page res => match pg_NextCursor page with
                       | None | Some "" => mret res
                       | Some next => discover_pages fuel cfg env' registry sourceID now' (S n')
                                        (i' + length (pg_Items page)) next res
                       end) Hl Hall Henv Hsame Hsemb) as (wb1 & Hsame1 & Hsemb1 & Hdb & Hrun);
    [etrans; [apply Hd3|exact Hsub]|apply Hd'|done|].
  destruct (Hagain env' now' (S n') (i' + length (pg_Items page))%nat Henv
    (skipping res2 (Z.of_nat (length (pg_Items page)))) wb1 Hsame1 Hsemb1) as (wb2 & Hrun2 & Hdb2); [by rewrite Hdb|].
  exists wb2. split; [|congruence]. cbn [discover_pages]. destruct Henv as (_ & _ & ->). rewrite Hrun, Enext, Hrun2, skipping_skipping, Htot.
  do 3 f_equal. lia.
Qed.

Lemma Discover_run fuel cfg env (registry : Registry Handler) sourceID now w res w' :
  Discover fuel cfg env registry sourceID now w = (Ok res, w') -> sem_ok (iw_sources w) ->
  discovered sourceID (dr_JobIDs res) w w' /\ dr_DiscoveredCount res = Z.of_nat (length (dr_JobIDs res)) /\
  forall env' now', untroubled env' ->
    exists w2, Discover fuel cfg env' registry sourceID now' w' =
      (Ok (mkDiscoverResult 0 (dr_DiscoveredCount res + dr_SkippedCount res) []), w2) /\ iw_db w2 = iw_db w'.
Proof.
  unfold Discover, GetSourceForImport. rewrite stM_bind_ok. intros (src & w1 & Hs & Hk) Hsem.
  assert (Hread : forall fault v a v', on_db (on_import_catalog (FindSourceByID fault sourceID)) v = (Ok a, v') ->
    v' = v /\ forall u, im_catalog (iw_db u) = im_catalog (iw_db v) ->
      on_db (on_import_catalog (FindSourceByID None sourceID)) u = (Ok a, u)).
  { intros fault v a v'. unfold on_db, on_import_catalog, FindSourceByID, query_one, mbind, stM_bind, exec.
    destruct fault; [done|]. cbn. destruct (ct_sources (im_catalog (iw_db v)) !! sourceID) as [r|] eqn:E; [|done]. cbn.
    unfold lift, reading. destruct (scanned _) as [src0|e0|] eqn:Es; cbn; [|intros [=]..]. intros [= -> <-]. split; [by destruct v as [[]]|].
    intros u Eu. rewrite Eu, E. cbn. rewrite Es. rewrite <- Eu. destruct u as [[] ? ? ? ?]; reflexivity. }
  apply Hread in Hs as [-> Hread']. destruct (negb _) eqn:Ecap; [done|].
  apply discover_pages_run in Hk as (Hsem' & (l & Hj & Hn & Hd) & Hagain); [|exact Hsem]. cbn [app dr_JobIDs dr_DiscoveredCount] in Hj, Hn.
  split; [by rewrite Hj|]. split; [rewrite Hj; lia|]. intros env' now' Henv.
  destruct (Hagain env' now' 0%nat 0%nat Henv (mkDiscoverResult 0 0 []) w') as (w2 & Hrun & Hdb).
  - split; [symmetry; apply Hd|done].
  - unfold sem_ok in *. by rewrite Hsem'.
  - done.
  - exists w2. split; [|exact Hdb]. unfold mbind, stM_bind. destruct Henv as (_ & -> & _). rewrite Hread' by apply Hd.
    rewrite Ecap, Hrun. unfold skipping, total. cbn. do 3 f_equal. lia.
Qed.
End discovery.

(** A discovery that answers gave every candidate it added a job of its
    own and kept the others; run again over the same source, whatever the
    clock and the generators say, it
    passes every file over, enqueues nothing and changes no table. *)
Theorem Discover_once `{CaseTables} `{FoldTable} `{Urls} `{Addresses} `{TokenPrimitives} `{PairingStore.Crypto}
    `{Decoders} `{SourceProviders.Network} `{FileSystem} `{Jsonb} `{ImportJSON} {Handler} fuel cfg env
    (registry : Registry Handler) sourceID now w res w' :
  Discover fuel cfg env registry sourceID now w = (Ok res, w') -> sem_ok (iw_sources w) ->
  discovered sourceID (dr_JobIDs res) w w' /\ dr_DiscoveredCount res = Z.of_nat (length (dr_JobIDs res)) /\
  forall env' now', untroubled env' ->
    exists w2, Discover fuel cfg env' registry sourceID now' w' =
      (Ok (mkDiscoverResult 0 (dr_DiscoveredCount res + dr_SkippedCount res) []), w2) /\ iw_db w2 = iw_db w'.
Proof. apply Discover_run. Qed.
