(* ===== verification/ImportDemo.v ===== *)
(** * The import pipeline on concrete inputs
      (src/internal/importer, src/internal/transport/http/import.go)

    A folder with two books, the job of one of them, and a member of another
    library who asks for its candidate. *)

From S2P Require Import Prelude GoStrings Errors Validate Catalog Transactor Services Postgres Http Jobs PairingStore PairingSafety Encoding Tokens Identity Paths Access CatalogStore CatalogLaws Library LibrarySafety CollectionsSafety Sources SourceProviders SourceHandlers SourceSafety SourceDemo Extract OpenLibrary OpenLibrarySafety ImportStore Importer ImportJob ImportHandlers ImporterSafety ImportJobSafety.

Local Open Scope string_scope.
Local Open Scope list_scope.
Local Open Scope Z_scope.

#[local] Existing Instance ascii_tables.
#[local] Existing Instance demo_fold.
#[local] Existing Instance demo_urls.
#[local] Existing Instance demo_addresses.
#[local] Existing Instance demo_cursors.
#[local] Existing Instance plain_crypto.
#[local] Existing Instance demo_decoders.
#[local] Existing Instance demo_network.
#[local] Existing Instance demo_documents.
#[local] Existing Instance demo_server.
#[local] Existing Instance unary_time.

(** Any text is JSON, a payload is the reference of its file, and the stored
    metadata is never read back. *)
#[local] Instance any_json : Jsonb := Some.
#[local] Instance demo_import_json : ImportJSON := {|
  payload_json p := Ok (ReferenceID (ip_FileReference p));
  parse_payload s := Ok (mkImportJobPayload "c1" "s9" (mkFileReference s "cbz" None));
  metadata_json m := Ok (em_Title m);
  matches_json l := Ok (itoa (Z.of_nat (length l)));
  parse_metadata _ := (mkExtractedMetadata "" [] None None None None "" "", Some (New "none"));
|}.
#[local] Instance no_covers : CoverJSON := {| cover_bytes _ := None; cover_text _ := None |}.

(** Every archive holds two pages and a title. *)
#[local] Instance demo_containers : Containers := {|
  zip_entries _ := Some [mkZipEntry "ComicInfo.xml" false None "<x/>" None; mkZipEntry "1.png" false None "png" None;
    mkZipEntry "2.png" false None "png" None];
  DetectContentType s := if String.eqb s "png" then "image/png" else "text/xml";
  xml_container _ := None;
  xml_opf _ := None;
  xml_comic _ := Some (mkComicInfo "Maus" "" "" "Art Spiegelman" "" "" "");
  pdf_info _ := None;
|}.

(** A folder with two books. *)
#[local] Instance demo_shelf : FileSystem :=
  {| EvalSymlinks path := Some path;
     ReadDirNames path := Some ["b.cbz"; "a.cbz"];
     Stat path := if String.eqb path "/books" then StatOk Directory 0 else StatOk RegularFile 7;
     DirReadable path := true;
     OpenFile path := Some "PK archive" |}.

Definition demo_shelf_row : source_cols :=
  mkSourceCols "Shelf" KindLocalFolder "/books" "" None None "reachable" None (Some 5) None
    (mkSourceCapabilities true false true) 1.
Definition demo_candidate : candidate_cols :=
  mkCandidateCols "s9" (mkFileReferenceJSON "a.cbz" "cbz" None) StatusQueued None None (Some "j0") None 3 3.
Definition demo_import : import_db :=
  mkImportDb (with_sources {["s9" := demo_shelf_row]} demo_catalog) ∅ {["c1" := demo_candidate]} ∅.
Definition demo_world : import_world := mkImportWorld demo_import (mkWire [] None) (mkOlWire [] 0) 0 [].

(** ** The job *)

Definition one_read (s : string) : list read_step := [mkReadStep None s None ReadEOF].
Definition demo_job : job_env :=
  mkJobEnv None one_read (mkSpool None None None) None None None None None tx_ok None no_faults None "o9".

Lemma demo_reads_end content : Exists (fun r => rd_end r <> ReadMore) (je_reads demo_job content).
Proof. by left. Qed.

Lemma ImportJob_run_witness :
  let run := ImportJob demo_config demo_job (server_matcher demo_client None) true 9 "a.cbz" demo_world in
  run.1 = Ok tt /\ cn_status <$> im_candidates (iw_db run.2) !! "c1" = Some StatusPending /\
  iw_progress run.2 = [10; 40; 70; 90; 100] /\
  (run.1 <> OutOfFuel /\ iw_files run.2 = 0%nat /\ im_catalog (iw_db run.2) = im_catalog demo_import).
Proof.
  intros run. split; [vm_compute; reflexivity|]. split; [vm_compute; reflexivity|]. split; [vm_compute; reflexivity|].
  assert (Hr := ImportJob_run demo_config demo_job demo_client None true 9 "a.cbz" demo_world).
  specialize (Hr ltac:(intros [=]) ltac:(intros m [=]) ltac:(intros l [=]) demo_reads_end).
  fold run in Hr. destruct run as [r w']. destruct Hr as (H1 & H2 & H3 & _). split; [exact H1|]. split; [exact H2|exact H3].
Defined.

(** ** Discovery *)

Definition demo_discovery (prefix : string) : discover_env :=
  mkDiscoverEnv (fun _ => None) (fun _ => None) (fun i => prefix +:+ itoa (Z.of_nat i))
    (fun i => prefix +:+ "j" +:+ itoa (Z.of_nat i)) (fun _ => 5) (fun _ => None) (fun _ => None).
Definition demo_registry : Registry unit := {["import" := mkRegistration 3 tt]}.

(** The first book has a candidate already: one is discovered, then none. *)
Lemma Discover_once_witness :
  let run := Discover 3 demo_config (demo_discovery "x") demo_registry "s9" 9 demo_world in
  run.1 = Ok (mkDiscoverResult 1 1 ["xj1"]) /\
  exists w2, Discover 3 demo_config (demo_discovery "y") demo_registry "s9" 20 run.2 =
    (Ok (mkDiscoverResult 0 2 []), w2) /\ iw_db w2 = iw_db run.2.
Proof.
  intros run. assert (E : run.1 = Ok (mkDiscoverResult 1 1 ["xj1"])) by (vm_compute; reflexivity). split; [exact E|].
  destruct (Discover_once 3 demo_config (demo_discovery "x") demo_registry "s9" 9 demo_world
    (mkDiscoverResult 1 1 ["xj1"]) run.2) as (_ & _ & Hagain).
  - rewrite <- E. unfold run. apply surjective_pairing.
  - exact I.
  - apply (Hagain (demo_discovery "y") 20). split; [by intros i|]. split; by intros i.
Defined.

(** ** Libraries kept apart *)

(** The source is the library "l2"'s; a member of "l1" asks. *)
Definition foreign_world : import_world :=
  mkImportWorld (mkImportDb (im_catalog demo_import) {["s9" := "l2"]} (im_candidates demo_import) ∅)
    (mkWire [] None) (mkOlWire [] 0) 0 [].
Definition demo_confirmation : confirm_env :=
  mkConfirmEnv (fun _ => None) tx_ok no_create_faults (fun i => "n" +:+ itoa (Z.of_nat i)).
Definition create_new_body : ImportConfirmRequestBody :=
  mkImportConfirmRequestBody "create_new" None None
    (Some (mkExtractedMetaBody "Maus" ["Art Spiegelman"; ""] None None None None)).

Lemma candidates_kept_apart_witness :
  ImportCandidateConfirmHandler demo_confirmation None (demo_member "l1") "c1" 9 (Some create_new_body) foreign_world =
    (Err (HTTPError NotFound candidate_missing), foreign_world) /\
  ImportCandidateRejectHandler demo_confirmation (demo_member "l1") "c1" 9 foreign_world =
    (Err (HTTPError NotFound candidate_missing), foreign_world) /\
  ImportCandidateCoverHandler None (demo_member "l1") "c1" foreign_world =
    (Err (HTTPError NotFound candidate_missing), foreign_world).
Proof.
  destruct (candidates_kept_apart demo_confirmation None (demo_member "l1") "c1" 9 (Some create_new_body) None foreign_world
    ltac:(intros [=])) as [Hf _].
  apply Hf; [|reflexivity..]. intros r Hr. injection Hr as <-. intros [=].
Defined.

(** ** A new book *)

(** The same candidate, once its job is done, in the default library: the
    member confirms it as a new work.  The second author has no name and is
    left out. *)
Definition default_catalog : catalog_db :=
  mkCatalogDb ∅ [] [] [] [] ∅ [] ∅ [] {["s9" := demo_shelf_row]} ∅ [] ∅ [] {[DefaultLibraryID]}.
Definition pending_import : import_db :=
  mkImportDb default_catalog ∅
    {["c1" := mkCandidateCols "s9" (mkFileReferenceJSON "a.cbz" "cbz" None) StatusPending (Some "Maus") None (Some "j0") None 3 4]} ∅.

Example new_book :
  let run := ConfirmCreateNew tx_ok None no_create_faults (fun i => "n" +:+ itoa (Z.of_nat i)) "c1"
    (mkExtractedMetadata "Maus" ["Art Spiegelman"; ""] None None None None "" "cbz") 9 pending_import in
  run.1 = Ok tt /\ cn_status <$> im_candidates run.2 !! "c1" = Some StatusConfirmed /\
  work_at (im_catalog run.2) "n2" = Ok (mkWork "n2" "Maus" "" ["n0"] [] None [] None []) /\
  ct_library_entries (im_catalog run.2) = [mkLibraryEntryRow "n3" "n3" DefaultLibraryID 9].
Proof. vm_compute. split_and!; reflexivity. Qed.
