(* ===== verification/Config.v ===== *)
(** * The configuration (src/internal/config: config.go, bindaddress.go)

    Every key with its category, its parser and its default; loading them from
    the environment, a file and the defaults; and the checks of the address to
    bind and of its certificate.  What the environment, the file system and
    the clock answer are arguments; TOML, X.509 and the details of a URL are
    classes. *)

From Stdlib Require Import SpecFloat.
From S2P Require Import Prelude GoStrings Errors Floats Encoding Paths Net Sources.

Local Open Scope string_scope.
Local Open Scope list_scope.
Local Open Scope Z_scope.

(** ** Numbers, booleans and durations (strconv, time) *)

(** [strconv.Atoi] and [strconv.ParseInt(_, 10, 64)] with the errors they
    give. *)
Definition is_digit (c : Z) : bool := between 48 c 57.
Definition well_formed_int (s : string) : bool :=
  match bytes s with
  | [] => false
  | c :: l =>
      let digits := if (c =? 45) || (c =? 43) then l else c :: l in
      match digits with [] => false | _ => forallb is_digit digits end
  end.
Definition parse_int (fn s : string) : Result Z :=
  match Atoi s with
  | Some n => Ok n
  | None =>
      Err (New ("strconv." +:+ fn +:+ ": parsing " +:+ quote s +:+ ": " +:+
                (if well_formed_int s then "value out of range" else "invalid syntax")))
  end.

(** [strconv.ParseBool]. *)
Definition ParseBool (s : string) : option bool :=
  if existsb (String.eqb s) ["1"; "t"; "T"; "true"; "TRUE"; "True"] then Some true
  else if existsb (String.eqb s) ["0"; "f"; "F"; "false"; "FALSE"; "False"] then Some false
  else None.

(** [time.quote]. *)
Definition time_quote (s : string) : string :=
  let hex d := ascii_of_Z (hex_digit d) in
  let one c :=
    let b := byte c in
    if (b <? 32) || (128 <=? b) then "\x" +:+ String (hex (b / 16)) (String (hex (b mod 16)) "")
    else if (b =? 34) || (b =? 92) then String "\" (String c "")
    else String c "" in
  dquote +:+ foldr (fun c out => one c +:+ out) "" (chars s) +:+ dquote.

(** The characters up to one that fails the test, and the rest. *)
Fixpoint span (f : Z -> bool) (l : list Z) : list Z * list Z :=
  match l with
  | [] => ([], [])
  | c :: l' => if f c then let '(a, b) := span f l' in (c :: a, b) else ([], l)
  end.

(** [leadingInt] of the digits read: [None] when they pass [1<<63]. *)
Fixpoint leadingInt (x : Z) (digits : list Z) : option Z :=
  match digits with
  | [] => Some x
  | c :: l =>
      if two63 / 10 <? x then None
      else let x := 10 * x + (c - 48) in if two63 <? x then None else leadingInt x l
  end.

(** [leadingFraction] of the digits read: the digits that fit and the power of
    ten they are out of. *)
Fixpoint leadingFraction (x : Z) (scale : float64) (digits : list Z) : Z * float64 :=
  match digits with
  | [] => (x, scale)
  | c :: l =>
      if (two63 - 1) / 10 <? x then (x, scale)
      else
        let y := 10 * x + (c - 48) in
        if two63 <? y then (x, scale)
        else leadingFraction y (SFmul 53 1024 scale (f64_of_Z 10)) l
  end.

(** The conversion of a float that is not negative to [uint64]. *)
Definition uint64_of (x : float64) : Z :=
  match x with
  | S754_finite false m e => if 0 <=? e then Z.shiftl (Z.pos m) e else Z.shiftr (Z.pos m) (- e)
  | _ => 0
  end.

(** [unitMap], by the bytes of the unit: the two signs of micro are U+00B5 and
    U+03BC. *)
Definition unit_of (u : list Z) : option Z :=
  if bool_decide (u = bytes "ns") then Some 1
  else if bool_decide (u = bytes "us") || bool_decide (u = [194; 181; 115]) || bool_decide (u = [206; 188; 115])
    then Some 1000
  else if bool_decide (u = bytes "ms") then Some 1000000
  else if bool_decide (u = bytes "s") then Some 1000000000
  else if bool_decide (u = bytes "m") then Some 60000000000
  else if bool_decide (u = bytes "h") then Some 3600000000000
  else None.

(** The digits after a point, if there is one. *)
Definition fraction_digits (l : list Z) : list Z * list Z :=
  match l with c :: l' => if c =? 46 then span is_digit l' else ([], l) | [] => ([], []) end.
Definition invalid_duration {A} (orig : string) : Result A :=
  Err (New ("time: invalid duration " +:+ time_quote orig)).

(** One number with its unit, added to the sum so far, a [uint64], and what is
    left of the text. *)
Definition duration_turn (orig : string) (d : Z) (l : list Z) : Result (Z * list Z) :=
  let number c := (c =? 46) || is_digit c in
  if negb (match l with c :: _ => number c | [] => false end) then invalid_duration orig
  else
    let '(int, l) := span is_digit l in
    match leadingInt 0 int with
    | None => invalid_duration orig
    | Some v =>
        let '(frac, l) := fraction_digits l in
        let '(f, scale) := leadingFraction 0 f64_one frac in
        if bool_decide (int = []) && bool_decide (frac = []) then invalid_duration orig
        else
          let '(u, l) := span (fun c => negb (number c)) l in
          if bool_decide (u = []) then Err (New ("time: missing unit in duration " +:+ time_quote orig))
          else
            match unit_of u with
            | None => Err (New ("time: unknown unit " +:+ time_quote (string_of u) +:+
                                " in duration " +:+ time_quote orig))
            | Some unit =>
                if two63 / unit <? v then invalid_duration orig
                else
                  let v := v * unit in
                  let v := if 0 <? f
                           then v + uint64_of (SFmul 53 1024 (f64_of_Z f) (SFdiv 53 1024 (f64_of_Z unit) scale))
                           else v in
                  if two63 <? v then invalid_duration orig
                  else
                    let d := (d + v) mod (2 * two63) in
                    if two63 <? d then invalid_duration orig else Ok (d, l)
            end
    end.

(** Each turn consumes at least one byte. *)
Fixpoint duration_loop (fuel : nat) (orig : string) (d : Z) (l : list Z) : Result Z :=
  match l with
  | [] => Ok d
  | _ =>
      match fuel with
      | O => OutOfFuel
      | S fuel => '(d, l) ← duration_turn orig d l; duration_loop fuel orig d l
      end
  end.

Definition ParseDuration (s : string) : Result Duration :=
  let '(neg, l) :=
    match bytes s with
    | c :: l => if c =? 45 then (true, l) else if c =? 43 then (false, l) else (false, c :: l)
    | [] => (false, [])
    end in
  if bool_decide (l = [48]) then Ok 0
  else if bool_decide (l = []) then invalid_duration s
  else
    d ← duration_loop (length l) s 0 l;
    if (neg : bool) then Ok (wrap64 (- d)) else if two63 - 1 <? d then invalid_duration s else Ok d.

Example ParseDuration_1h30 : ParseDuration "1h30.5m" = Ok (90 * 60000000000 + 30000000000).
Proof. vm_compute. reflexivity. Qed.
Example ParseDuration_bad : ParseDuration "10" = Err (New ("time: missing unit in duration " +:+ dquote +:+ "10" +:+ dquote)).
Proof. vm_compute. reflexivity. Qed.

(** ** The keys (config.go)

    A field of [Config] is named by its key, and a configuration is the value
    of every key beside what the checks of the address leave.  Go's [apply]
    asserts the dynamic type of the value its key's [parse] or the table of
    defaults gives; here the type of a value depends on its key. *)
Inductive key :=
| DATABASE_URL | LOG_LEVEL | SHUTDOWN_GRACE_PERIOD | DB_POOL_MAX_CONNS | HTTP_MAX_BODY_BYTES
| HTTP_READ_TIMEOUT | HTTP_WRITE_TIMEOUT | HTTP_IDLE_TIMEOUT | OPEN_LIBRARY_USER_AGENT | BIND_ADDRESS
| TLS_CERT_FILE | TLS_KEY_FILE | SOURCE_ALLOW_PRIVATE_ADDRESSES | DESKTOP_PARENT_PID | ACME_ENABLED
| ACME_DOMAIN | ACME_EMAIL | ACME_CACHE_DIR | CORS_ALLOWED_ORIGINS | TRUSTED_PROXY_CIDRS
| DEVICE_PAIRING_SECRET.
#[export] Instance key_eq_dec : EqDecision key.
Proof. solve_decision. Defined.

Definition key_name (k : key) : string :=
  match k with
  | DATABASE_URL => "DATABASE_URL"
  | LOG_LEVEL => "LOG_LEVEL"
  | SHUTDOWN_GRACE_PERIOD => "SHUTDOWN_GRACE_PERIOD"
  | DB_POOL_MAX_CONNS => "DB_POOL_MAX_CONNS"
  | HTTP_MAX_BODY_BYTES => "HTTP_MAX_BODY_BYTES"
  | HTTP_READ_TIMEOUT => "HTTP_READ_TIMEOUT"
  | HTTP_WRITE_TIMEOUT => "HTTP_WRITE_TIMEOUT"
  | HTTP_IDLE_TIMEOUT => "HTTP_IDLE_TIMEOUT"
  | OPEN_LIBRARY_USER_AGENT => "OPEN_LIBRARY_USER_AGENT"
  | BIND_ADDRESS => "BIND_ADDRESS"
  | TLS_CERT_FILE => "TLS_CERT_FILE"
  | TLS_KEY_FILE => "TLS_KEY_FILE"
  | SOURCE_ALLOW_PRIVATE_ADDRESSES => "SOURCE_ALLOW_PRIVATE_ADDRESSES"
  | DESKTOP_PARENT_PID => "DESKTOP_PARENT_PID"
  | ACME_ENABLED => "ACME_ENABLED"
  | ACME_DOMAIN => "ACME_DOMAIN"
  | ACME_EMAIL => "ACME_EMAIL"
  | ACME_CACHE_DIR => "ACME_CACHE_DIR"
  | CORS_ALLOWED_ORIGINS => "CORS_ALLOWED_ORIGINS"
  | TRUSTED_PROXY_CIDRS => "TRUSTED_PROXY_CIDRS"
  | DEVICE_PAIRING_SECRET => "DEVICE_PAIRING_SECRET"
  end.

(** The name in a file: [strings.ToLower(f.key)]. *)
Definition file_name `{CaseTables} (k : key) : string := ToLower (key_name k).

Definition value_type (k : key) : Type :=
  match k with
  | SHUTDOWN_GRACE_PERIOD | HTTP_READ_TIMEOUT | HTTP_WRITE_TIMEOUT | HTTP_IDLE_TIMEOUT => Duration
  | DB_POOL_MAX_CONNS | HTTP_MAX_BODY_BYTES | DESKTOP_PARENT_PID => Z
  | SOURCE_ALLOW_PRIVATE_ADDRESSES | ACME_ENABLED => bool
  | CORS_ALLOWED_ORIGINS => list string
  | TRUSTED_PROXY_CIDRS => list Prefix
  | _ => string
  end.

(** Go's zero value. *)
Definition zero_value (k : key) : value_type k :=
  match k with
  | SHUTDOWN_GRACE_PERIOD | HTTP_READ_TIMEOUT | HTTP_WRITE_TIMEOUT | HTTP_IDLE_TIMEOUT => 0
  | DB_POOL_MAX_CONNS | HTTP_MAX_BODY_BYTES | DESKTOP_PARENT_PID => 0
  | SOURCE_ALLOW_PRIVATE_ADDRESSES | ACME_ENABLED => false
  | CORS_ALLOWED_ORIGINS => []
  | TRUSTED_PROXY_CIDRS => []
  | _ => ""
  end.

Inductive category := categoryRequired | categoryOptionalDefault | categoryOptionalNoDefault.

(** The table [fields], in its order. *)
Definition fields : list key :=
  [DATABASE_URL; LOG_LEVEL; SHUTDOWN_GRACE_PERIOD; DB_POOL_MAX_CONNS; HTTP_MAX_BODY_BYTES; HTTP_READ_TIMEOUT;
   HTTP_WRITE_TIMEOUT; HTTP_IDLE_TIMEOUT; OPEN_LIBRARY_USER_AGENT; BIND_ADDRESS; TLS_CERT_FILE; TLS_KEY_FILE;
   SOURCE_ALLOW_PRIVATE_ADDRESSES; DESKTOP_PARENT_PID; ACME_ENABLED; ACME_DOMAIN; ACME_EMAIL; ACME_CACHE_DIR;
   CORS_ALLOWED_ORIGINS; TRUSTED_PROXY_CIDRS; DEVICE_PAIRING_SECRET].
Definition field_category (k : key) : category :=
  match k with
  | OPEN_LIBRARY_USER_AGENT => categoryRequired
  | LOG_LEVEL | SHUTDOWN_GRACE_PERIOD | DB_POOL_MAX_CONNS | HTTP_MAX_BODY_BYTES | HTTP_READ_TIMEOUT
  | HTTP_WRITE_TIMEOUT | HTTP_IDLE_TIMEOUT | BIND_ADDRESS | SOURCE_ALLOW_PRIVATE_ADDRESSES
  | ACME_ENABLED => categoryOptionalDefault
  | _ => categoryOptionalNoDefault
  end.

(** The table [defaults]; a key it lacks has the zero value. *)
Definition defaults (k : key) : value_type k :=
  match k with
  | LOG_LEVEL => "info"
  | SHUTDOWN_GRACE_PERIOD => 10 * Second
  | DB_POOL_MAX_CONNS => 10
  | HTTP_MAX_BODY_BYTES => 10485760
  | HTTP_READ_TIMEOUT => 15 * Second
  | HTTP_WRITE_TIMEOUT => 15 * Second
  | HTTP_IDLE_TIMEOUT => 60 * Second
  | BIND_ADDRESS => "127.0.0.1:0"
  | k => zero_value k
  end.

(** ** The values (config.go) *)

(** What [parseOriginList] reads of a URL beside [Sources.url], and the error
    of a text that is not one. *)
Class UrlDetails := {
  url_RawQuery : string -> string;
  url_Fragment : string -> string;
  url_has_User : string -> bool;
  url_error : string -> error;
}.

Section values.
Context `{CaseTables} `{Urls} `{UrlDetails} `{NetipText}.

Definition parseLogLevel (raw : string) : Result string :=
  let lower := ToLower raw in
  if existsb (String.eqb lower) ["debug"; "info"; "warn"; "error"] then Ok lower
  else Err (New ("must be one of debug, info, warn, error (got " +:+ quote raw +:+ ")")).

(** [fmt.Errorf("...: %w", err)]. *)
Definition wrapf (msg : string) (e : error) : error := Errorf (msg +:+ ": " +:+ Error e) e.

Definition parseDuration (raw : string) : Result Duration :=
  match ParseDuration raw with
  | Err e => Err (wrapf "must be a valid duration" e)
  | r => r
  end.
Definition parseInt (raw : string) : Result Z :=
  match parse_int "Atoi" raw with
  | Err e => Err (wrapf "must be a valid integer" e)
  | r => r
  end.
Definition parseInt64 (raw : string) : Result Z :=
  match parse_int "ParseInt" raw with
  | Err e => Err (wrapf "must be a valid integer" e)
  | r => r
  end.
Definition parseBool (raw : string) : Result bool :=
  match ParseBool raw with
  | Some b => Ok b
  | None => Err (New ("must be a boolean (true/false/1/0): got " +:+ quote raw))
  end.
Definition parseHostPort (raw : string) : Result string :=
  match SplitHostPort raw with
  | Err e => Err (wrapf "must be host:port" e)
  | _ => Ok raw
  end.

Definition isDefaultPort (scheme port : string) : bool :=
  (String.eqb scheme "https" && String.eqb port "443") || (String.eqb scheme "http" && String.eqb port "80").

(** One entry of the list, trimmed and not empty. *)
Definition parseOrigin (entry : string) : Result string :=
  match url_Parse entry with
  | None => Err (wrapf ("entry " +:+ quote entry +:+ " is not a valid origin") (url_error entry))
  | Some u =>
      if negb (String.eqb (u_Scheme u) "http") && negb (String.eqb (u_Scheme u) "https") then
        Err (New ("entry " +:+ quote entry +:+ " must use the http or https scheme"))
      else if String.eqb (u_Hostname u) "" then Err (New ("entry " +:+ quote entry +:+ " has no host"))
      else if negb (String.eqb (u_Path u) "") || negb (String.eqb (url_RawQuery entry) "") ||
              negb (String.eqb (url_Fragment entry) "") || url_has_User entry then
        Err (New ("entry " +:+ quote entry +:+ " must be a bare scheme://host[:port] with no path"))
      else
        let host := ToLower (u_Hostname u) in
        let host := if contains_char ":" host then "[" +:+ host +:+ "]" else host in
        let host := if negb (String.eqb (u_Port u) "") && negb (isDefaultPort (u_Scheme u) (u_Port u))
                    then host +:+ ":" +:+ u_Port u else host in
        Ok (u_Scheme u +:+ "://" +:+ host)
  end.

(** The loop over the parts of a comma-separated value: empty ones are
    skipped, the first that is refused is the error. *)
Fixpoint parse_list {A} (parse : string -> Result A) (parts : list string) : Result (list A) :=
  match parts with
  | [] => Ok []
  | part :: parts' =>
      let entry := TrimSpace part in
      if String.eqb entry "" then parse_list parse parts'
      else a ← parse entry; out ← parse_list parse parts'; Ok (a :: out)
  end.

Definition parseOriginList (raw : string) : Result (list string) := parse_list parseOrigin (Split "," raw).
Definition parseCIDR (entry : string) : Result Prefix :=
  match ParsePrefix entry with
  | inl p => Ok (Masked p)
  | inr e => Err (wrapf ("entry " +:+ quote entry +:+ " is not a valid CIDR") e)
  end.
Definition parseCIDRList (raw : string) : Result (list Prefix) := parse_list parseCIDR (Split "," raw).

Definition parse (k : key) : string -> Result (value_type k) :=
  match k with
  | LOG_LEVEL => parseLogLevel
  | SHUTDOWN_GRACE_PERIOD | HTTP_READ_TIMEOUT | HTTP_WRITE_TIMEOUT | HTTP_IDLE_TIMEOUT => parseDuration
  | DB_POOL_MAX_CONNS | DESKTOP_PARENT_PID => parseInt
  | HTTP_MAX_BODY_BYTES => parseInt64
  | SOURCE_ALLOW_PRIVATE_ADDRESSES | ACME_ENABLED => parseBool
  | BIND_ADDRESS => parseHostPort
  | CORS_ALLOWED_ORIGINS => parseOriginList
  | TRUSTED_PROXY_CIDRS => parseCIDRList
  | _ => fun raw => Ok raw
  end.
End values.

(** ** Loading (config.go) *)

(** Reading a file: its bytes, that it does not exist ([fs.ErrNotExist]), or
    another failure. *)
Inductive file_read :=
| FileData (data : string)
| NoSuchFile (e : error)
| ReadFails (e : error).

(** What a TOML file gives at its top level: [fmt]'s text stands for a value
    that is none of the four kinds. *)
Inductive toml_value :=
| TomlString (s : string)
| TomlInt (n : Z)
| TomlFloat (f : float64)
| TomlBool (b : bool)
| TomlOther (text : string).

Class Toml := {
  (** The table, or the position of the error if the decoder knows it. *)
  toml_Unmarshal : string -> gmap string toml_value + option (Z * Z);
  (** [strconv.FormatFloat(f, 'g', -1, 64)]. *)
  FormatFloat_g : float64 -> string;
}.

(** [bindClass]. *)
Inductive bindClass := classLoopback | classPrivate | classPublic.
#[export] Instance bindClass_eq_dec : EqDecision bindClass.
Proof. solve_decision. Defined.

Definition reachability_of (c : bindClass) : string :=
  match c with
  | classLoopback => "loopback"
  | classPrivate => "private"
  | classPublic => "public"
  end.

(** X.509 (crypto/tls, crypto/x509): pairs of a certificate and its key as the
    chain they hold, and the leaf. *)
Class Certificates := {
  certificate : Type;
  X509KeyPair : string -> string -> list string + error;
  ParseCertificate : string -> certificate + error;
  NotBefore : certificate -> Time;
  NotAfter : certificate -> Time;
  (** The error of a certificate that does not cover the host. *)
  VerifyHostname : certificate -> string -> option error;
  time_String : Time -> string;
}.

(** [tls.Certificate]: the chain and its parsed leaf. *)
Record tls_Certificate `{Certificates} := mkTLSCertificate {
  tc_Certificate : list string;
  tc_Leaf : certificate;
}.
Arguments mkTLSCertificate {_} _ _.

Section config.
Context `{CaseTables} `{FoldTable} `{Urls} `{Addresses} `{UrlDetails} `{NetipText} `{Toml} `{Certificates}.

Record Config := mkConfig {
  value : forall k : key, value_type k;
  tlsCert : option tls_Certificate;
  reachability : string;
  tlsMode : string;
  namedBindHost : string;
}.
Definition zero_config : Config := mkConfig zero_value None "" "" "".

(** The field's [apply]. *)
Definition set_value (k : key) (v : value_type k) (f : forall k, value_type k) : forall k, value_type k := fun k' =>
  match decide (k = k') with
  | left E => eq_rect k value_type v k' E
  | right _ => f k'
  end.
Definition apply (k : key) (v : value_type k) (cfg : Config) : Config :=
  mkConfig (set_value k v (value cfg)) (tlsCert cfg) (reachability cfg) (tlsMode cfg) (namedBindHost cfg).

Definition tomlValueToString (v : toml_value) : string :=
  match v with
  | TomlString s => s
  | TomlInt n => itoa n
  | TomlFloat f => FormatFloat_g f
  | TomlBool b => if b then "true" else "false"
  | TomlOther text => text
  end.

Definition loadFileValues (configPath : string) (readFile : string -> file_read) (userConfigDir : string + error)
    : Result (gmap string string) :=
  let explicit := negb (String.eqb configPath "") in
  path ← (if explicit then Ok configPath
          else match userConfigDir with
               | inr e => Err (wrapf "could not resolve the default configuration directory" e)
               | inl dir => Ok (path_Join [dir; "alexandryn"; "config.toml"])
               end);
  match readFile path with
  | NoSuchFile e =>
      if explicit then Err (New ("config file " +:+ path +:+ " does not exist")) else Ok ∅
  | ReadFails e => Err (wrapf ("could not read config file " +:+ path) e)
  | FileData data =>
      match toml_Unmarshal data with
      | inr (Some (row, col)) =>
          Err (New ("config file " +:+ path +:+ " contains invalid TOML syntax at line " +:+ itoa row +:+
                    ", column " +:+ itoa col))
      | inr None => Err (New ("config file " +:+ path +:+ " contains invalid TOML syntax"))
      | inl raw => Ok (tomlValueToString <$> raw)
      end
  end.

(** What the sources give for a key: the environment's value unless it is
    empty, else the file's. *)
Definition raw_value (env : string -> option string) (fileValues : gmap string string) (k : key)
    : option string :=
  let raw := match env (key_name k) with
             | None | Some "" =>
                 match fileValues !! file_name k with
                 | Some fv => Some fv
                 | None => env (key_name k)
                 end
             | Some raw => Some raw
             end in
  match raw with None | Some "" => None | Some raw => Some raw end.

(** The body of [Load]'s loop for one field. *)
Definition load_field (env : string -> option string) (fileValues : gmap string string) (k : key) (cfg : Config)
    : Result Config :=
  match raw_value env fileValues k with
  | None =>
      match field_category k with
      | categoryRequired => Err (New ("missing required configuration key " +:+ key_name k))
      | categoryOptionalDefault => Ok (apply k (defaults k) cfg)
      | categoryOptionalNoDefault => Ok cfg
      end
  | Some raw =>
      match parse k raw with
      | Err e => Err (wrapf ("value for " +:+ key_name k +:+ " is invalid") e)
      | Ok v => Ok (apply k v cfg)
      | OutOfFuel => OutOfFuel
      end
  end.
Fixpoint load_fields (env : string -> option string) (fileValues : gmap string string) (ks : list key)
    (cfg : Config) : Result Config :=
  match ks with
  | [] => Ok cfg
  | k :: ks' => cfg ← load_field env fileValues k cfg; load_fields env fileValues ks' cfg
  end.

(** ** The address to bind (bindaddress.go) *)

Definition classifyBindHost (host : string) : bindClass :=
  if String.eqb host "localhost" then classLoopback
  else match ParseIP host with
  | None => classPublic
  | Some ip =>
      if IsLoopback ip then classLoopback
      else if IsPrivate ip || IsLinkLocalUnicast ip then classPrivate
      else classPublic
  end.

Definition read_named (readFile : string -> file_read) (what path : string) : Result string :=
  match readFile path with
  | FileData data => Ok data
  | NoSuchFile e | ReadFails e => Err (wrapf ("could not read " +:+ what +:+ " " +:+ path) e)
  end.

Definition loadAndValidateCert (cfg : Config) (readFile : string -> file_read) (now : Time) (sanHost : string)
    : Result tls_Certificate :=
  certPEM ← read_named readFile "TLS_CERT_FILE" (value cfg TLS_CERT_FILE);
  keyPEM ← read_named readFile "TLS_KEY_FILE" (value cfg TLS_KEY_FILE);
  match X509KeyPair certPEM keyPEM with
  | inr e => Err (wrapf "TLS_CERT_FILE/TLS_KEY_FILE are invalid" e)
  | inl [] => Err (New "TLS_CERT_FILE contains no certificate")
  | inl (der :: chain) =>
      match ParseCertificate der with
      | inr e => Err (wrapf "TLS_CERT_FILE could not be parsed" e)
      | inl leaf =>
          if Before now (NotBefore leaf) || After now (NotAfter leaf) then
            Err (New ("TLS certificate is not currently valid (validity window " +:+
                      time_String (NotBefore leaf) +:+ " to " +:+ time_String (NotAfter leaf) +:+ ")"))
          else
            match (if negb (String.eqb sanHost "") then VerifyHostname leaf sanHost else None) with
            | Some e => Err (wrapf ("TLS certificate does not cover BIND_ADDRESS host " +:+ quote sanHost) e)
            | None => Ok (mkTLSCertificate (der :: chain) leaf)
            end
      end
  end.

Definition with_bind (cfg : Config) (cert : option tls_Certificate) (reach mode named : string) : Config :=
  mkConfig (value cfg) cert reach mode named.

Definition validateBindAddress (cfg : Config) (readFile : string -> file_read) (now : Time) : Result Config :=
  let bind := value cfg BIND_ADDRESS in
  match SplitHostPort bind with
  | Err e => Err (wrapf "BIND_ADDRESS must be host:port" e)
  | OutOfFuel => OutOfFuel
  | Ok (host, _) =>
      let class := classifyBindHost host in
      let reach := reachability_of class in
      let certFile := value cfg TLS_CERT_FILE in
      let keyFile := value cfg TLS_KEY_FILE in
      if negb (Bool.eqb (String.eqb certFile "") (String.eqb keyFile "")) then
        let setKey := if negb (String.eqb certFile "") then "TLS_CERT_FILE" else "TLS_KEY_FILE" in
        Err (New ("TLS_CERT_FILE and TLS_KEY_FILE must be set together (only " +:+ setKey +:+ " is set)"))
      else
        let hasStaticCert := negb (String.eqb certFile "") && negb (String.eqb keyFile "") in
        match class with
        | classLoopback | classPrivate =>
            if value cfg ACME_ENABLED then
              Err (New ("BIND_ADDRESS " +:+ bind +:+ " is a loopback/private address; ACME_ENABLED cannot apply — an ACME HTTP-01 challenge needs a publicly reachable address. Use a static TLS_CERT_FILE/TLS_KEY_FILE, or terminate TLS with a reverse proxy in front"))
            else if hasStaticCert then
              cert ← loadAndValidateCert cfg readFile now "";
              Ok (with_bind cfg (Some cert) reach "static" (namedBindHost cfg))
            else Ok (with_bind cfg (tlsCert cfg) reach "none" (namedBindHost cfg))
        | classPublic =>
            let isName := match ParseIP host with None => true | Some _ => false end in
            let named := if isName then host else namedBindHost cfg in
            if value cfg ACME_ENABLED then
              if String.eqb (value cfg ACME_DOMAIN) "" then
                Err (New ("BIND_ADDRESS " +:+ bind +:+ " has ACME_ENABLED but ACME_DOMAIN is not set"))
              else if isName && negb (EqualFold host (value cfg ACME_DOMAIN)) then
                Err (New ("BIND_ADDRESS host " +:+ quote host +:+ " must equal ACME_DOMAIN " +:+
                          quote (value cfg ACME_DOMAIN)))
              else if hasStaticCert then
                Err (New "ACME_ENABLED and TLS_CERT_FILE/TLS_KEY_FILE are mutually exclusive — pick one certificate source")
              else Ok (with_bind cfg (tlsCert cfg) reach "acme" named)
            else if negb hasStaticCert then
              Err (New ("BIND_ADDRESS " +:+ bind +:+ " is not a loopback or private-range address, so in-process TLS is required: set TLS_CERT_FILE and TLS_KEY_FILE, enable ACME_ENABLED with an ACME_DOMAIN, or bind to a loopback/private address behind a reverse proxy"))
            else
              let sanHost := if isName then host else "" in
              cert ← loadAndValidateCert cfg readFile now sanHost;
              Ok (with_bind cfg (Some cert) reach "static" named)
        end
  end.

Definition Load (configPath : string) (readFile : string -> file_read) (userConfigDir : string + error)
    (env : string -> option string) (now : Time) : Result Config :=
  fileValues ← loadFileValues configPath readFile userConfigDir;
  cfg ← load_fields env fileValues fields zero_config;
  validateBindAddress cfg readFile now.
End config.
