(* ===== verification/ConfigSafety.v ===== *)
(** * What a loaded configuration guarantees
      (src/internal/config: config.go, bindaddress.go)

    Where the value of each key comes from and which error is reported, and
    that a server reachable from public addresses serves TLS. *)

From Stdlib Require Import SpecFloat.
From S2P Require Import Prelude GoStrings Errors Floats Encoding Paths Net Sources Config.

Local Open Scope string_scope.
Local Open Scope list_scope.
Local Open Scope Z_scope.

(** ** Durations end *)

Lemma span_length f l a b : span f l = (a, b) -> (length l = length a + length b)%nat.
Proof.
  revert a b. induction l as [|c l IH]; intros a b; cbn [span]; [by intros [= <- <-]|].
  destruct (f c); [|by intros [= <- <-]]. destruct (span f l) as [a' b']. intros [= <- <-]. cbn.
  by rewrite (IH a' b').
Qed.

Lemma fraction_digits_length l a b : fraction_digits l = (a, b) -> (length b <= length l)%nat.
Proof.
  destruct l as [|c l]; cbn [fraction_digits]; [by intros [= <- <-]|]. destruct (_ =? _); [|by intros [= <- <-]].
  intros H%span_length. cbn. lia.
Qed.

Lemma duration_turn_shrinks orig d l :
  match duration_turn orig d l with Ok (_, l') => (length l' < length l)%nat | Err _ => True | OutOfFuel => False end.
Proof.
  unfold duration_turn, invalid_duration. destruct (negb _); [done|].
  destruct (span is_digit l) as [int l1] eqn:E1; apply span_length in E1.
  destruct (leadingInt 0 int) as [v|]; [|done]. destruct (fraction_digits l1) as [frac l2] eqn:E2; apply fraction_digits_length in E2.
  destruct (leadingFraction _ _ _) as [f scale]. destruct (_ && _); [done|].
  destruct (span _ l2) as [u l3] eqn:E3; apply span_length in E3. case_bool_decide as Hu; [done|].
  destruct (unit_of u); [|done]. destruct (_ <? v); [done|]. cbv zeta. destruct (two63 <? _); [done|].
  destruct (two63 <? _); [done|]. destruct u; [done|]. cbn in *. lia.
Qed.

Lemma duration_loop_total fuel orig d l : (length l <= fuel)%nat -> duration_loop fuel orig d l <> OutOfFuel.
Proof.
  revert d l. induction fuel as [|fuel IH]; intros d [|c l] Hl; [done|cbn in Hl; lia|done|].
  cbn [duration_loop]. pose proof (duration_turn_shrinks orig d (c :: l)) as Ht.
  destruct (duration_turn _ _ _) as [[d' l']|e|]; [|done|done]. cbn. apply IH. cbn in *. lia.
Qed.

Lemma ParseDuration_total s : ParseDuration s <> OutOfFuel.
Proof.
  unfold ParseDuration, invalid_duration. destruct (match bytes s with [] => _ | _ => _ end) as [neg l].
  case_bool_decide; [done|]. case_bool_decide; [done|].
  pose proof (duration_loop_total (length l) s 0 l ltac:(lia)) as Hl.
  destruct (duration_loop _ _ _ _); [|done|done]. cbn. destruct neg; [done|]. by destruct (_ <? _).
Qed.

(** ** Where values come from *)

Section loading.
Context `{CaseTables} `{FoldTable} `{Urls} `{Addresses} `{UrlDetails} `{NetipText} `{Toml} `{Certificates}.

(** What a key is worth: what its parser makes of the text the environment
    or else the file gives, and its default or zero value without a text. *)
Definition resolved (env : string -> option string) (fv : gmap string string) (k : key) : Result (value_type k) :=
  match raw_value env fv k with
  | Some raw =>
      match parse k raw with
      | Err e => Err (wrapf ("value for " +:+ key_name k +:+ " is invalid") e)
      | r => r
      end
  | None =>
      match field_category k with
      | categoryRequired => Err (New ("missing required configuration key " +:+ key_name k))
      | categoryOptionalDefault => Ok (defaults k)
      | categoryOptionalNoDefault => Ok (zero_value k)
      end
  end.

(** The text of a key is the environment's, if that is not empty, or else
    the file's, if that is not. *)
Lemma raw_value_spec env fv k :
  raw_value env fv k =
    match env (key_name k), fv !! file_name k with
    | Some (String c s), _ => Some (String c s)
    | _, Some (String c s) => Some (String c s)
    | _, _ => None
    end.
Proof.
  unfold raw_value. destruct (env (key_name k)) as [[|c s]|]; [|done|]; destruct (fv !! file_name k) as [[|c' s']|]; done.
Qed.

Lemma parse_list_total {A} (p : string -> Result A) parts :
  (forall s, p s <> OutOfFuel) -> parse_list p parts <> OutOfFuel.
Proof.
  intros Hp. induction parts as [|part parts IH]; [done|]. cbn. destruct (String.eqb _ ""); [done|].
  pose proof (Hp (TrimSpace part)). destruct (p _); [|done|done]. cbn. destruct (parse_list p parts); done.
Qed.

Lemma SplitHostPort_total s : SplitHostPort s <> OutOfFuel.
Proof. unfold SplitHostPort. repeat (case_match; try done). Qed.

Lemma parse_total k raw : parse k raw <> OutOfFuel.
Proof.
  pose proof (ParseDuration_total raw) as Hd.
  assert (Hi : forall fn, parse_int fn raw <> OutOfFuel) by (intros fn; unfold parse_int; by destruct (Atoi raw)).
  destruct k; cbn [parse]; try done.
  all: try (unfold parseDuration; by destruct (ParseDuration raw)).
  all: try (unfold parseInt, parseInt64; match goal with |- context [parse_int ?fn ?r] => specialize (Hi fn);
              by destruct (parse_int fn r) end).
  all: try (unfold parseBool; by destruct (ParseBool raw)).
  - unfold parseLogLevel. by destruct (existsb _ _).
  - unfold parseHostPort. pose proof (SplitHostPort_total raw). by destruct (SplitHostPort raw).
  - apply parse_list_total. intros s. unfold parseOrigin. repeat (case_match; try done).
  - apply parse_list_total. intros s. unfold parseCIDR. by destruct (ParsePrefix s).
Qed.

Lemma resolved_total env fv k : resolved env fv k <> OutOfFuel.
Proof.
  unfold resolved. destruct (raw_value env fv k) as [raw|]; [|by destruct (field_category k)].
  pose proof (parse_total k raw). by destruct (parse k raw).
Qed.

(** Two configurations that differ in the values of some keys only. *)
Definition same_bind (c1 c2 : Config) : Prop :=
  tlsCert c1 = tlsCert c2 /\ reachability c1 = reachability c2 /\ tlsMode c1 = tlsMode c2 /\
  namedBindHost c1 = namedBindHost c2.
#[local] Instance same_bind_refl : PreOrder same_bind.
Proof. split; [done|]. intros c1 c2 c3 (?&?&?&?) (?&?&?&?). repeat split; congruence. Qed.

Lemma apply_same k v cfg : value (apply k v cfg) k = v.
Proof.
  cbn. unfold set_value. destruct (decide (k = k)) as [E|]; [|done].
  by rewrite (Eqdep_dec.UIP_dec (fun x y : key => decide (x = y)) E eq_refl).
Qed.
Lemma apply_other k v cfg k' : k <> k' -> value (apply k v cfg) k' = value cfg k'.
Proof. intros Hne. cbn. unfold set_value. by destruct (decide (k = k')). Qed.

Lemma load_field_spec env fv k cfg :
  value cfg k = zero_value k ->
  match resolved env fv k with
  | Ok v => exists cfg', load_field env fv k cfg = Ok cfg' /\ value cfg' k = v /\
      (forall k', k <> k' -> value cfg' k' = value cfg k') /\ same_bind cfg' cfg
  | Err e => load_field env fv k cfg = Err e
  | OutOfFuel => False
  end.
Proof.
  intros Hz. unfold resolved, load_field. destruct (raw_value env fv k) as [raw|].
  - pose proof (parse_total k raw) as Ht. destruct (parse k raw) as [v|e|]; [|done|done].
    exists (apply k v cfg). split; [done|]. split; [apply apply_same|]. split; [intros; by apply apply_other|done].
  - destruct (field_category k); [done| |].
    + exists (apply k (defaults k) cfg). split; [done|]. split; [apply apply_same|].
      split; [intros; by apply apply_other|done].
    + exists cfg. done.
Qed.

(** The fields are taken in turn, and the first that has no value is the
    error. *)
Lemma load_fields_spec env fv ks cfg :
  NoDup ks -> (forall k, k ∈ ks -> value cfg k = zero_value k) ->
  (exists cfg', load_fields env fv ks cfg = Ok cfg' /\ (forall k, k ∈ ks -> resolved env fv k = Ok (value cfg' k)) /\
     (forall k, k ∉ ks -> value cfg' k = value cfg k) /\ same_bind cfg' cfg) \/
  (exists ks1 k ks2 e, ks = ks1 ++ k :: ks2 /\ Forall (fun k => is_ok (resolved env fv k) = true) ks1 /\
     resolved env fv k = Err e /\ load_fields env fv ks cfg = Err e).
Proof.
  revert cfg. induction ks as [|k ks IH]; intros cfg Hnd Hz.
  - left. exists cfg. split; [done|]. split; [intros k Hk; by apply not_elem_of_nil in Hk|done].
  - apply NoDup_cons in Hnd as [Hk Hnd]. pose proof (load_field_spec env fv k cfg (Hz k ltac:(left))) as Hs.
    cbn [load_fields]. destruct (resolved env fv k) as [v|e|] eqn:Er; [| |done].
    + destruct Hs as (cfg1 & -> & Hv & Hoth & Hb). cbn [mbind res_bind].
      destruct (IH cfg1 Hnd) as [(cfg' & -> & Hin & Hout & Hb')|(ks1 & k' & ks2 & e & -> & Hok & He & ->)].
      { intros k' Hk'. rewrite Hoth by congruence. apply Hz. by right. }
      * left. exists cfg'. split; [done|]. split; [|split; [|by etrans]].
        { intros k' [->|Hk']%elem_of_cons; [|by apply Hin]. by rewrite Er, Hout, Hv. }
        intros k' [Hne Hni]%not_elem_of_cons. rewrite Hout by done. by apply Hoth.
      * right. exists (k :: ks1), k', ks2, e. split; [done|]. split; [|done]. constructor; [by rewrite Er|done].
    + right. exists [], k, ks, e. rewrite Hs. split; [done|]. split; [constructor|done].
Qed.
End loading.

Section posture.
Context `{CaseTables} `{FoldTable} `{Urls} `{Addresses} `{UrlDetails} `{NetipText} `{Toml} `{Certificates}.

Lemma fields_NoDup : NoDup fields.
Proof. apply (bool_decide_unpack _). vm_compute. exact I. Qed.
Lemma fields_complete k : k ∈ fields.
Proof. destruct k; unfold fields; repeat (apply list_elem_of_here || apply list_elem_of_further). Qed.

(** ** How the server terminates TLS *)

Definition file_bytes (readFile : string -> file_read) (path data : string) : Prop := readFile path = FileData data.

(** A certificate read from the configured files, valid at [now], that covers
    [host] if one is asked for. *)
Definition usable_certificate (readFile : string -> file_read) (now : Time) (cfg : Config) (san : option string)
    (cert : tls_Certificate) : Prop :=
  exists certPEM keyPEM,
    file_bytes readFile (value cfg TLS_CERT_FILE) certPEM /\ file_bytes readFile (value cfg TLS_KEY_FILE) keyPEM /\
    X509KeyPair certPEM keyPEM = inl (tc_Certificate cert) /\
    (exists der, head (tc_Certificate cert) = Some der /\ ParseCertificate der = inl (tc_Leaf cert)) /\
    NotBefore (tc_Leaf cert) <= now <= NotAfter (tc_Leaf cert) /\
    (forall host, san = Some host -> host <> "" -> VerifyHostname (tc_Leaf cert) host = None).

Definition no_files (cfg : Config) : Prop := value cfg TLS_CERT_FILE = "" /\ value cfg TLS_KEY_FILE = "".

(** A name, not the text of an address. *)
Definition is_name (host : string) : Prop := ParseIP host = None.

(** A host that no public address reaches: this machine by name, or an address
    of it, of a private network or of a link. *)
Definition local_host (host : string) : Prop :=
  host = "localhost" \/
  exists ip, ParseIP host = Some ip /\ (IsLoopback ip = true \/ IsPrivate ip = true \/ IsLinkLocalUnicast ip = true).

Lemma classify_local host : classifyBindHost host <> classPublic -> local_host host.
Proof.
  unfold classifyBindHost. destruct (String.eqb_spec host "localhost") as [->|_]; [by left|].
  destruct (ParseIP host) as [ip|] eqn:Hp; [|done]. intros Hc. right. exists ip. split; [done|].
  destruct (IsLoopback ip); [by left|]. destruct (IsPrivate ip); [by right; left|].
  destruct (IsLinkLocalUnicast ip); [by right; right|done].
Qed.
Lemma classify_public host : classifyBindHost host = classPublic <-> ~ local_host host.
Proof.
  split.
  - unfold classifyBindHost. intros Hc [->|(ip & Hp & Hl)]; [done|]. rewrite Hp in Hc.
    destruct (String.eqb host "localhost"), (IsLoopback ip), (IsPrivate ip), (IsLinkLocalUnicast ip); try done.
    by destruct Hl as [|[|]].
  - intros Hn. destruct (decide (classifyBindHost host = classPublic)) as [|Hc]; [done|].
    by apply classify_local in Hc.
Qed.

(** The three ways a server can serve, and what each needs. *)
Inductive posture (readFile : string -> file_read) (now : Time) (host : string) (cfg : Config) : Prop :=
| serves_plaintext :
    tlsMode cfg = "none" -> tlsCert cfg = None -> local_host host ->
    value cfg ACME_ENABLED = false -> no_files cfg -> posture readFile now host cfg
| serves_certificate cert san :
    tlsMode cfg = "static" -> tlsCert cfg = Some cert -> value cfg ACME_ENABLED = false ->
    (~ local_host host -> is_name host -> san = Some host) ->
    usable_certificate readFile now cfg san cert -> posture readFile now host cfg
| serves_acme :
    tlsMode cfg = "acme" -> tlsCert cfg = None -> ~ local_host host ->
    value cfg ACME_ENABLED = true -> value cfg ACME_DOMAIN <> "" -> no_files cfg ->
    (is_name host -> EqualFold host (value cfg ACME_DOMAIN) = true) -> posture readFile now host cfg.

Lemma read_named_ok readFile what path data :
  read_named readFile what path = Ok data -> file_bytes readFile path data.
Proof. unfold read_named, file_bytes. destruct (readFile path); [by intros [= ->]|done|done]. Qed.

Lemma loadAndValidateCert_ok cfg readFile now san cert :
  loadAndValidateCert cfg readFile now (default "" san) = Ok cert -> usable_certificate readFile now cfg san cert.
Proof.
  unfold loadAndValidateCert.
  destruct (read_named _ _ (value cfg TLS_CERT_FILE)) as [certPEM| |] eqn:E1; cbn [mbind res_bind]; [|done|done].
  destruct (read_named _ _ (value cfg TLS_KEY_FILE)) as [keyPEM| |] eqn:E2; cbn [mbind res_bind]; [|done|done].
  destruct (X509KeyPair certPEM keyPEM) as [[|der chain]|] eqn:E3; [done| |done].
  destruct (ParseCertificate der) as [leaf|] eqn:E4; [|done]. destruct (_ || _) eqn:E5; [done|].
  destruct (if negb _ then _ else _) as [e|] eqn:E6; [done|]. intros [= <-].
  apply orb_false_iff in E5 as [E5 E5']. unfold Before, After in *.
  exists certPEM, keyPEM. split; [by eapply read_named_ok|]. split; [by eapply read_named_ok|].
  split; [done|]. split; [by exists der|]. split; [cbn [tc_Leaf]; lia|]. intros host -> Hne. revert E6. cbn.
  by apply String.eqb_neq in Hne as ->.
Qed.

(** A validated configuration has one of the postures, and only the results of
    the validation are new in it. *)
Lemma validateBindAddress_ok cfg readFile now cfg' :
  tlsCert cfg = None ->
  validateBindAddress cfg readFile now = Ok cfg' ->
  exists host port, SplitHostPort (value cfg BIND_ADDRESS) = Ok (host, port) /\ value cfg' = value cfg /\
    (reachability cfg' = "public" <-> ~ local_host host) /\ posture readFile now host cfg'.
Proof.
  intros Hnone. unfold validateBindAddress. destruct (SplitHostPort _) as [[host port]| |]; [|done|done]. cbv zeta.
  destruct (negb (Bool.eqb _ _)) eqn:Epair; [done|]. apply negb_false_iff, eqb_prop in Epair.
  intros Hv. exists host, port. split; [done|].
  assert (Hnf : negb (String.eqb (value cfg TLS_CERT_FILE) "") && negb (String.eqb (value cfg TLS_KEY_FILE) "") = false ->
    no_files cfg).
  { rewrite <- Epair, andb_diag. intros E%negb_false_iff. unfold no_files. split; apply String.eqb_eq; congruence. }
  assert (Hcases : forall reach named mode cert, cfg' = with_bind cfg cert reach mode named ->
    value cfg' = value cfg) by (by intros ? ? ? ? ->).
  pose proof (classify_local host) as Hloc. pose proof (classify_public host) as [Hpub _].
  destruct (classifyBindHost host).
  1,2: specialize (Hloc ltac:(done)); destruct (value cfg ACME_ENABLED) eqn:Ea; [done|]; destruct (_ && _) eqn:Es;
    [destruct (loadAndValidateCert _ _ _ _) as [cert| |] eqn:El; [|done|done]; cbn [mbind res_bind] in Hv|];
    injection Hv as <-; (split; [done|]); (split; [by split|]);
    [apply (serves_certificate _ _ _ _ cert None); [done|done|done|done|by apply (loadAndValidateCert_ok cfg _ _ None)]
    |apply serves_plaintext; [done|done|done|done|by apply Hnf]].
  specialize (Hpub eq_refl).
  destruct (value cfg ACME_ENABLED) eqn:Ea.
  - destruct (String.eqb (value cfg ACME_DOMAIN) "") eqn:Ed; [done|]. apply String.eqb_neq in Ed.
    destruct (_ && negb _) eqn:En; [done|]. destruct (_ && _) eqn:Es in Hv; [done|]. injection Hv as <-.
    split; [done|]. split; [by split|]. apply serves_acme; try done; [by apply Hnf|].
    unfold is_name. intros Hname. rewrite Hname in En. cbn [andb] in En. by apply negb_false_iff in En.
  - destruct (negb (_ && _)) eqn:Es; [done|]. destruct (loadAndValidateCert _ _ _ _) as [cert| |] eqn:El; [|done|done].
    cbn [mbind res_bind] in Hv. injection Hv as <-. split; [done|]. split; [by split|].
    apply (serves_certificate _ _ _ _ cert (match ParseIP host with None => Some host | Some _ => None end)); try done.
    + unfold is_name. by intros _ ->.
    + apply (loadAndValidateCert_ok cfg). by destruct (ParseIP host).
Qed.
End posture.

Lemma loadFileValues_total `{CaseTables} `{FoldTable} `{Urls} `{Addresses} `{UrlDetails} `{NetipText} `{Toml}
    `{Certificates} configPath readFile dir : loadFileValues configPath readFile dir <> OutOfFuel.
Proof.
  unfold loadFileValues. destruct (negb _); [|destruct dir]; cbn [mbind res_bind]; try done.
  all: destruct (readFile _); try done; destruct (toml_Unmarshal data) as [|[[]|]]; done.
Qed.

Lemma Load_cases `{CaseTables} `{FoldTable} `{Urls} `{Addresses} `{UrlDetails} `{NetipText} `{Toml}
    `{Certificates} configPath readFile dir env now :
  match loadFileValues configPath readFile dir with
  | Err e => Load configPath readFile dir env now = Err e
  | OutOfFuel => False
  | Ok fv =>
      (exists ks1 k ks2 e, fields = ks1 ++ k :: ks2 /\
         Forall (fun k => is_ok (resolved env fv k) = true) ks1 /\ resolved env fv k = Err e /\
         Load configPath readFile dir env now = Err e) \/
      (exists cfg, (forall k, resolved env fv k = Ok (value cfg k)) /\ tlsCert cfg = None /\
         Load configPath readFile dir env now = validateBindAddress cfg readFile now)
  end.
Proof.
  unfold Load. pose proof (loadFileValues_total configPath readFile dir) as Ht.
  destruct (loadFileValues configPath readFile dir) as [fv|e|]; [|done|done]. cbn [mbind res_bind].
  destruct (load_fields_spec env fv fields zero_config fields_NoDup ltac:(done))
    as [(cfg & -> & Hv & _ & Hb)|(ks1 & k & ks2 & e & Hf & Hok & He & ->)];
    [right|left; by exists ks1, k, ks2, e].
  cbn [mbind res_bind]. exists cfg. split; [intros k; apply Hv, fields_complete|]. split; [apply Hb|done].
Qed.

(** What [Load] answers, whatever the environment, the file and
    the defaults hold.  A file that cannot be read or parsed is the error.
    Otherwise the keys are taken in the order of the table, and the first that
    is required and absent, or whose text its parser refuses, is the error;
    the text of a key is the environment's, or the file's when the environment
    has none or an empty one.  When no key fails, the answer is that of the
    check of the address on the configuration whose values are the parsed
    texts, the defaults and the zero values, and a configuration that is
    returned has exactly those values. *)
Theorem Load_outcome `{CaseTables} `{FoldTable} `{Urls} `{Addresses} `{UrlDetails} `{NetipText} `{Toml}
    `{Certificates} configPath readFile dir env now :
  match loadFileValues configPath readFile dir with
  | Err e => Load configPath readFile dir env now = Err e
  | OutOfFuel => False
  | Ok fv =>
      (exists ks1 k ks2 e, fields = ks1 ++ k :: ks2 /\
         Forall (fun k => is_ok (resolved env fv k) = true) ks1 /\ resolved env fv k = Err e /\
         Load configPath readFile dir env now = Err e) \/
      (exists cfg, (forall k, resolved env fv k = Ok (value cfg k)) /\
         Load configPath readFile dir env now = validateBindAddress cfg readFile now /\
         (forall cfg', Load configPath readFile dir env now = Ok cfg' -> value cfg' = value cfg))
  end.
Proof.
  pose proof (Load_cases configPath readFile dir env now) as Hc.
  destruct (loadFileValues _ _ _) as [fv|e|]; [|done|done]. destruct Hc as [Hc|(cfg & Hv & Hn & Hl)]; [by left|right].
  exists cfg. split; [done|]. split; [done|]. intros cfg' E. rewrite Hl in E.
  by apply validateBindAddress_ok in E as (? & ? & _ & -> & _).
Qed.

(** C37: a configuration that loads never serves a public address in
    plaintext.  Its address splits into a host and a port, and one of three
    holds: the host is a loopback, private or link-local address and there is neither ACME
    nor a certificate; or there is a certificate, read from the two configured
    files, matching its key, valid now, and covering the host when that is a
    public name; or the host is public, ACME is on with a domain, which is the
    host when that is a name, and there are no certificate files.  What is
    recorded of the address is that it is public just when it is. *)
Theorem Load_bind_secure `{CaseTables} `{FoldTable} `{Urls} `{Addresses} `{UrlDetails} `{NetipText} `{Toml}
    `{Certificates} configPath readFile dir env now cfg :
  Load configPath readFile dir env now = Ok cfg ->
  exists host port, SplitHostPort (value cfg BIND_ADDRESS) = Ok (host, port) /\
    (reachability cfg = "public" <-> ~ local_host host) /\ posture readFile now host cfg.
Proof.
  intros Hl. pose proof (Load_cases configPath readFile dir env now) as Hc.
  destruct (loadFileValues _ _ _) as [fv|e|]; [|congruence|done].
  destruct Hc as [(? & ? & ? & ? & _ & _ & _ & He)|(cfg0 & _ & Hn & Hv)]; [congruence|]. rewrite Hv in Hl.
  apply validateBindAddress_ok in Hl as (host & port & Hs & Hval & Hr & Hp); [|done].
  exists host, port. by rewrite Hval.
Qed.

(** ** A run *)

Module ConfigDemo.
#[local] Instance demo_fold : FoldTable := fun r => r.
#[local] Instance demo_urls : Urls :=
  {| url_Parse s := Some (mkUrl "https" s s "" "" None); url_Resolve base ref := ref; url_QueryEscape s := s |}.
#[local] Instance demo_details : UrlDetails :=
  {| url_RawQuery _ := ""; url_Fragment _ := ""; url_has_User _ := false; url_error s := New s |}.
#[local] Instance demo_addresses : Addresses := fun host =>
  if String.eqb host "127.0.0.1" then Some [127; 0; 0; 1] else None.
#[local] Instance demo_netip : NetipText :=
  {| ParseAddr _ := None; ParsePrefix s := inr (New s); addr_text _ := ""; prefix_text _ := "" |}.

(** A file with one key. *)
#[local] Instance demo_toml : Toml :=
  {| toml_Unmarshal data := if String.eqb data "" then inr (Some (1, 1))
                            else inl (<["bind_address" := TomlString data]> ∅);
     FormatFloat_g _ := "" |}.

(** A certificate is its host. *)
#[local] Instance demo_certificates : Certificates :=
  {| certificate := string; X509KeyPair cert key := if String.eqb cert key then inl [cert] else inr (New "mismatch");
     ParseCertificate der := inl der; NotBefore _ := 0; NotAfter _ := 1000;
     VerifyHostname leaf host := if String.eqb leaf host then None else Some (New "other host");
     time_String _ := "" |}.

Definition demo_env (name : string) : option string :=
  if String.eqb name "OPEN_LIBRARY_USER_AGENT" then Some "Alexandryn"
  else if String.eqb name "TLS_CERT_FILE" then Some "/tls/cert"
  else if String.eqb name "TLS_KEY_FILE" then Some "/tls/key"
  else if String.eqb name "HTTP_READ_TIMEOUT" then Some "1m30s"
  else None.
Definition demo_files (path : string) : file_read :=
  if String.eqb path "/home/alexandryn/config.toml" then FileData "books.example.org:443"
  else if HasPrefix path "/tls/" then FileData "books.example.org"
  else NoSuchFile (New "no such file").

Definition demo_load (env : string -> option string) : Result Config := Load "" demo_files (inl "/home") env 10.
Definition demo_config : Config := default zero_config (match demo_load demo_env with Ok c => Some c | _ => None end).

(** A public name with a certificate that covers it; the read timeout is the
    environment's and the address the file's. *)
Lemma Load_bind_secure_witness :
  exists host port, SplitHostPort (value demo_config BIND_ADDRESS) = Ok (host, port) /\
    (reachability demo_config = "public" <-> ~ local_host host) /\ posture demo_files 10 host demo_config.
Proof.
  apply (Load_bind_secure "" demo_files (inl "/home") demo_env 10). vm_compute. reflexivity.
Defined.

Example demo_values :
  tlsMode demo_config = "static" /\ reachability demo_config = "public" /\
  value demo_config HTTP_READ_TIMEOUT = 90 * Second /\ value demo_config LOG_LEVEL = "info".
Proof. vm_compute. done. Qed.

(** Without the certificate the same address is refused. *)
Example demo_plaintext_refused :
  is_ok (demo_load (fun name => if HasPrefix name "TLS_" then None else demo_env name)) = false.
Proof. vm_compute. reflexivity. Qed.
End ConfigDemo.
