(* ===== verification/Edge.v ===== *)
(** * The edge of the server (src/internal/transport/http: client_ip.go,
      origin_validation.go, origin_ref.go, cors.go, limits.go,
      security_headers.go, acme.go; src/cmd/server/network_helpers.go)

    What is decided on the connection and the headers of a request before it
    is routed: whom it comes from, whether it came over TLS, whether its
    origin is allowed, which headers its response carries; the addresses the
    server can be reached at; and the redirection to HTTPS.  The second half
    says whom forwarded headers can speak for, which addresses share a limit,
    and which origins may change state without a token. *)

From S2P Require Import Prelude GoStrings Errors Net Http Encoding Access AccessSafety Network Sources Config.

Local Open Scope string_scope.
Local Open Scope list_scope.
Local Open Scope Z_scope.

(** A request: [rq_EscapedPath] is its URL's escaped path, [rq_Header] answers
    [Header.Get] of a canonical name. *)
Record Request := mkRequest {
  rq_Method : string;
  rq_EscapedPath : string;
  rq_RequestURI : string;
  rq_Host : string;
  rq_RemoteAddr : string;
  rq_TLS : bool;
  rq_ContentLength : Z;
  rq_Header : string -> string;
  rq_Cookie : string -> option string;
}.

(** ** Whom a request comes from (client_ip.go) *)

(** [strings.Trim(s, "[]")]. *)
Definition bracket (c : ascii) : bool := Ascii.eqb c "[" || Ascii.eqb c "]".
Definition trim_brackets (s : string) : string :=
  text_of (drop_while_end bracket (drop_while bracket (chars s))).

Definition hostOnly (remoteAddr : string) : string :=
  match SplitHostPort remoteAddr with
  | Ok (host, _) => host
  | _ => trim_brackets remoteAddr
  end.

Definition addrInAny (a : Addr) (prefixes : list Prefix) : bool :=
  existsb (fun p => prefix_Contains p (Unmap a)) prefixes.

Section client.
Context `{NetipText} `{FoldTable}.

Definition lastForwardedHop (xff : string) : option Addr :=
  if String.eqb xff "" then None
  else Unmap <$> ParseAddr (TrimSpace (List.last (Split "," xff) "")).

Definition rateLimitKey (a : Addr) : string :=
  let a := Unmap a in
  if Is6 a then
    match addr_Prefix a 64 with
    | Some p => prefix_text p
    | None => addr_text a
    end
  else addr_text a.

(** [trusted] is what [SetTrustedProxyCIDRs] stored. *)
Definition clientIP (trusted : option (list Prefix)) (r : Request) : string :=
  let host := hostOnly (rq_RemoteAddr r) in
  match ParseAddr host with
  | None => host
  | Some addr =>
      let addr :=
        match trusted with
        | Some prefixes =>
            if addrInAny addr prefixes then
              match lastForwardedHop (rq_Header r "X-Forwarded-For") with
              | Some hop => hop
              | None => addr
              end
            else addr
        | None => addr
        end in
      rateLimitKey addr
  end.

Definition requestIsHTTPS (trusted : option (list Prefix)) (r : Request) : bool :=
  if rq_TLS r then true
  else match ParseAddr (hostOnly (rq_RemoteAddr r)) with
  | None => false
  | Some addr =>
      match trusted with
      | None => false
      | Some prefixes =>
          if negb (addrInAny addr prefixes) then false
          else
            let proto := rq_Header r "X-Forwarded-Proto" in
            let first := match Cut "," proto with Some (first, _) => first | None => proto end in
            EqualFold (TrimSpace first) "https"
      end
  end.
End client.

(** ** Responses

    What a handler chain answers: an endpoint runs with a context, or a
    middleware answers itself; and the headers the middleware set. *)
Inductive reply :=
| Served (endpoint : string) (ctx : context)
| Refused (e : http_error)
| NoContent
| RedirectTo (url : string).

Record Response := mkResponse { rs_reply : reply; rs_Header : list (string * string) }.
Definition answer (r : reply) : Response := mkResponse r [].
Definition with_headers (hs : list (string * string)) (r : Response) : Response :=
  mkResponse (rs_reply r) (hs ++ rs_Header r).

(** A handler runs on the state [W] its middleware keep. *)
Definition Handler (W : Type) := Request -> context -> W -> Response * W.
Definition Middleware (W : Type) := Handler W -> Handler W.

(** [Chain] (middleware.go): the first middleware is the outermost. *)
Definition Chain {W} (handler : Handler W) (mws : list (Middleware W)) : Handler W :=
  foldr (fun mw h => mw h) handler mws.

Definition refuse {W} (e : http_error) (w : W) : Response * W := (answer (Refused e), w).

(** ** Origins (origin_validation.go) *)

Section origins.
Context `{CaseTables} `{Urls} {W : Type}.

Definition originAllowedFromReferer (u : url) (inSet : string -> bool) : bool :=
  if String.eqb (u_Scheme u) "" || String.eqb (u_Host u) "" then false
  else inSet (u_Scheme u +:+ "://" +:+ ToLower (u_Host u)).

Definition origin_refused : http_error := Forbidden "request origin is not allowed".

(** [dynamic] is what [GetAllowedOrigins] answers of the reference, if there
    is one. *)
Definition LazyOriginValidation (allowed : list string) (dynamic : option (list string)) : Middleware W :=
  fun next r ctx w =>
  let inSet origin :=
    existsb (String.eqb origin) allowed ||
    match dynamic with Some ds => existsb (String.eqb origin) ds | None => false end in
  let origin := rq_Header r "Origin" in
  if negb (String.eqb origin "") then
    if negb (inSet origin) then refuse origin_refused w else next r ctx w
  else if negb (rq_ContentLength r =? 0) && negb (String.eqb (rq_Header r "Referer") "") &&
          negb (match url_Parse (rq_Header r "Referer") with
                | Some u => originAllowedFromReferer u inSet
                | None => false
                end)
  then refuse origin_refused w
  else next r ctx w.
End origins.

(** ** CORS, limits and security headers (cors.go, limits.go,
    security_headers.go) *)

Section headers.
Context {W : Type}.

Definition CORS (allowedOrigins : list string) : Middleware W := fun next r ctx w =>
  let vary := match allowedOrigins with [] => [] | _ => [("Vary", "Origin")] end in
  let origin := rq_Header r "Origin" in
  let allow :=
    if negb (String.eqb origin "") && existsb (String.eqb origin) allowedOrigins then
      [("Access-Control-Allow-Origin", origin);
       ("Access-Control-Allow-Methods", "GET, POST, PATCH, PUT, DELETE, OPTIONS");
       ("Access-Control-Allow-Headers", "Authorization, Content-Type, X-Library-Id");
       ("Access-Control-Max-Age", "600")]
    else [] in
  if String.eqb (rq_Method r) "OPTIONS" && negb (String.eqb (TrimSpace (rq_Header r "Access-Control-Request-Method")) "")
  then (mkResponse NoContent (vary ++ allow), w)
  else let '(res, w) := next r ctx w in (with_headers (vary ++ allow) res, w).

(** The cap on the bytes read of a body is not represented: handlers take the
    decoded body. *)
Definition Limits (maxBodyBytes : Z) : Middleware W := fun next r ctx w =>
  if (0 <=? rq_ContentLength r) && (maxBodyBytes <=? rq_ContentLength r) then
    refuse (HTTPError InvalidInput "request body exceeds the maximum allowed size") w
  else next r ctx w.

Definition appCSP : string := String.concat "; "
  ["default-src 'self'"; "script-src 'self'"; "style-src 'self' 'unsafe-inline'"; "img-src 'self' data:";
   "font-src 'self'"; "connect-src 'self'"; "object-src 'none'"; "base-uri 'none'"; "frame-ancestors 'none'";
   "form-action 'self'"].
Definition permissionsPolicy : string :=
  "accelerometer=(), autoplay=(), camera=(), clipboard-write=(self), display-capture=(), encrypted-media=(), fullscreen=(self), geolocation=(), gyroscope=(), magnetometer=(), microphone=(), midi=(), payment=(), usb=(), xr-spatial-tracking=()".

Definition security_headers : list (string * string) :=
  [("Content-Security-Policy", appCSP); ("X-Content-Type-Options", "nosniff"); ("X-Frame-Options", "DENY");
   ("Referrer-Policy", "no-referrer"); ("Permissions-Policy", permissionsPolicy)].
Definition SecurityHeaders : Middleware W := fun next r ctx w =>
  let '(res, w) := next r ctx w in (with_headers security_headers res, w).

Definition HSTS (tlsInProcess : bool) : Middleware W := fun next =>
  if negb tlsInProcess then next
  else fun r ctx w =>
    let '(res, w) := next r ctx w in (with_headers [("Strict-Transport-Security", "max-age=31536000")] res, w).
End headers.

(** ** The redirection to HTTPS (acme.go) *)

Definition HTTPSRedirect (canonicalHost tlsPort : string) (r : Request) : string :=
  let host :=
    if String.eqb canonicalHost "" then
      let host := match SplitHostPort (rq_Host r) with Ok (h, _) => h | _ => rq_Host r end in
      if contains_char ":" host && negb (HasPrefix host "[") then "[" +:+ host +:+ "]" else host
    else canonicalHost in
  let target := "https://" +:+ host in
  let target := if negb (String.eqb tlsPort "") && negb (String.eqb tlsPort "443")
                then target +:+ ":" +:+ tlsPort else target in
  target +:+ rq_RequestURI r.

(** ** The server's addresses (network_helpers.go) *)

(** [net.IP.String]. *)
Class IPText := IP_String : IP -> string.

(** An interface: its flags, and its addresses unless they cannot be read. *)
Record interface := mkInterface { if_up : bool; if_loopback : bool; if_addrs : option (list IP) }.

Record resolvedBindAddress := mkResolved {
  rb_port : string;
  rb_primaryHost : string;
  rb_extraHosts : list IP;
}.

Definition interface_hosts (i : interface) : list IP :=
  if negb (if_up i) || if_loopback i then []
  else match if_addrs i with
  | None => []
  | Some addrs => List.filter (fun ip => negb (IsLoopback ip)) addrs
  end.

(** [interfaces] is what [net.Interfaces] answers, [None] when it fails. *)
Definition resolveBindAddress (interfaces : option (list interface)) (bindAddr : string)
    : option resolvedBindAddress :=
  match SplitHostPort bindAddr with
  | Ok (host, port) =>
      if negb (existsb (String.eqb host) [""; "0.0.0.0"; "::"; "[::]"]) then Some (mkResolved port host [])
      else Some (mkResolved port "" (match interfaces with
                                     | Some ifaces => List.concat (List.map interface_hosts ifaces)
                                     | None => []
                                     end))
  | _ => None
  end.

Section addresses.
Context `{CaseTables} `{FoldTable} `{Urls} `{Addresses} `{UrlDetails} `{NetipText} `{Toml} `{Certificates} `{IPText}.

Definition scopeForIP (ip : IP) : string :=
  if IsPrivate ip || IsLinkLocalUnicast ip || IsLinkLocalMulticast ip then "lan" else "public".
Definition formatHost (ip : IP) : string :=
  match To4 ip with None => "[" +:+ IP_String ip +:+ "]" | Some _ => IP_String ip end.
Definition isLoopbackHost (host : string) : bool :=
  if String.eqb host "localhost" then true
  else match ParseIP host with Some ip => IsLoopback ip | None => false end.

Definition served_scheme (cfg : Config) : string :=
  if String.eqb (tlsMode cfg) "static" || String.eqb (tlsMode cfg) "acme" then "https" else "http".
Definition port_suffix (scheme port : string) : string :=
  if isDefaultPort scheme port then "" else ":" +:+ port.

Fixpoint first_of_each (seen : list string) (l : list string) : list string :=
  match l with
  | [] => []
  | o :: l' =>
      if negb (existsb (String.eqb o) seen) && negb (String.eqb o "") then o :: first_of_each (o :: seen) l'
      else first_of_each seen l'
  end.

Definition computeAllowedOrigins (interfaces : option (list interface)) (cfg : Config) : list string :=
  let scheme := served_scheme cfg in
  let own :=
    match resolveBindAddress interfaces (value cfg BIND_ADDRESS) with
    | None => []
    | Some r =>
        let suffix := port_suffix scheme (rb_port r) in
        let at_host h := scheme +:+ "://" +:+ h +:+ suffix in
        let loopbacks := [at_host "localhost"; at_host "127.0.0.1"; at_host "[::1]"] in
        (if negb (String.eqb (rb_primaryHost r) "") then
           at_host (rb_primaryHost r) :: (if isLoopbackHost (rb_primaryHost r) then loopbacks else [])
         else loopbacks) ++
        [at_host "alexandryn.local"] ++ List.map (fun ip => at_host (formatHost ip)) (rb_extraHosts r)
    end in
  first_of_each [] (value cfg CORS_ALLOWED_ORIGINS ++ own).

Definition resolveServerAddress (interfaces : option (list interface)) (cfg : Config) : string :=
  match resolveBindAddress interfaces (value cfg BIND_ADDRESS) with
  | None => value cfg BIND_ADDRESS
  | Some r =>
      if negb (String.eqb (rb_primaryHost r) "") then JoinHostPort (rb_primaryHost r) (rb_port r)
      else match List.find (fun ip => String.eqb (scopeForIP ip) "lan") (rb_extraHosts r) with
      | Some ip => JoinHostPort (IP_String ip) (rb_port r)
      | None =>
          match rb_extraHosts r with
          | ip :: _ => JoinHostPort (IP_String ip) (rb_port r)
          | [] => ""
          end
      end
  end.

(** [verified] is whether the multicast responder of the server found its own
    name. *)
Definition fallbackNetworkInfo (interfaces : option (list interface)) (verified : bool) (cfg : Config)
    : NetworkInfo :=
  let scheme := served_scheme cfg in
  let reach := if String.eqb (reachability cfg) "" || String.eqb (reachability cfg) "private" then "lan"
               else reachability cfg in
  let bindAddr := if String.eqb (value cfg BIND_ADDRESS) "" then "127.0.0.1:0" else value cfg BIND_ADDRESS in
  let mode := if String.eqb (tlsMode cfg) "" then "none" else tlsMode cfg in
  let info reach := mkNetworkInfo reach mode bindAddr (value cfg ACME_DOMAIN) "alexandryn.local" in
  match resolveBindAddress interfaces bindAddr with
  | None => info reach false []
  | Some r =>
      let suffix := port_suffix scheme (rb_port r) in
      let at_host h := scheme +:+ "://" +:+ h +:+ suffix in
      let strict := String.eqb reach "loopback" ||
                    (isLoopbackHost (rb_primaryHost r) && match rb_extraHosts r with [] => true | _ => false end) in
      let reach := if strict then "loopback" else reach in
      info reach (negb strict && verified)
        ((if negb (String.eqb (rb_primaryHost r) "") then [mkNetworkAddress reach (at_host (rb_primaryHost r))] else []) ++
         (if negb strict then [mkNetworkAddress "lan" (at_host "alexandryn.local")] else []) ++
         List.map (fun ip => mkNetworkAddress (scopeForIP ip) (at_host (formatHost ip))) (rb_extraHosts r))
  end.
End addresses.

(** ** Keys of the limiter *)

Section keys.
Context `{NetipText} `{FoldTable}.

(** The network an address counts for: itself, or the first 64 bits of an
    address of version 6. *)
Inductive network_of :=
| Exactly (a : Addr)
| Upper64 (bits : Z).
Definition client_network (a : Addr) : network_of :=
  let a := Unmap a in if Is6 a then Upper64 (Z.shiftr (ad_bits a) 64) else Exactly a.

Lemma Is6_family a : Is6 a = true <-> ad_family a = V6.
Proof. unfold Is6. apply bool_decide_eq_true. Qed.

Lemma prefix64 a : Is6 a = true -> exists p, addr_Prefix a 64 = Some p.
Proof.
  intros Hf%Is6_family. unfold addr_Prefix. rewrite Hf. cbn [width].
  destruct (_ || _) eqn:E; [by vm_compute in E|by eexists].
Qed.

(** Two addresses have the same key just when they count for the same
    network. *)
Lemma rateLimitKey_network `{!NetipTextLaws} a b :
  rateLimitKey a = rateLimitKey b <-> client_network a = client_network b.
Proof.
  unfold rateLimitKey, client_network. cbv zeta. set (a' := Unmap a). set (b' := Unmap b).
  destruct (Is6 a') eqn:Ea, (Is6 b') eqn:Eb.
  - destruct (prefix64 a' Ea) as (p & Hp), (prefix64 b' Eb) as (q & Hq). rewrite Hp, Hq.
    pose proof (addr_Prefix_same _ _ _ _ _ Hp Hq) as Hs. apply Is6_family in Ea, Eb. rewrite Ea, Eb in Hs.
    cbn [width] in Hs. change (128 - 64) with 64 in Hs. split.
    + intros E%prefix_text_inj. apply Hs in E as [_ ->]. done.
    + intros [= E]. f_equal. apply Hs. done.
  - destruct (prefix64 a' Ea) as (p & ->). split; [|done]. intros E. symmetry in E. by apply addr_not_prefix in E.
  - destruct (prefix64 b' Eb) as (q & ->). split; [|done]. intros E. by apply addr_not_prefix in E.
  - split; [by intros ->%addr_text_inj|by intros [= ->]].
Qed.

Lemma Unmap_idemp a : Unmap (Unmap a) = Unmap a.
Proof.
  assert (Hc : Unmap a = a \/ ad_family (Unmap a) = V4) by (unfold Unmap; destruct (Is4In6 a); auto).
  destruct Hc as [Hc|Hf]; [by rewrite !Hc|]. destruct (Unmap a) as [f x z]. cbn in Hf. by subst f.
Qed.

(** A connection from an address of a trusted proxy. *)
Definition from_proxy (trusted : option (list Prefix)) (r : Request) : bool :=
  match trusted, ParseAddr (hostOnly (rq_RemoteAddr r)) with
  | Some prefixes, Some addr => addrInAny addr prefixes
  | _, _ => false
  end.

(** The last part of a text with a separator. *)
Lemma Split_two c front s : exists h x t, Split c (front +:+ String c s) = h :: x :: t.
Proof.
  induction front as [|d front (h & x & t & IH)].
  - pose proof (Split_app c "" s eq_refl) as Hs. rewrite str_app_nil_l in Hs |- *. rewrite Hs.
    destruct (Split_cons c s) as (h & t & ->). by exists "", h, t.
  - rewrite str_app_cons. cbn [Split]. rewrite IH. destruct (Ascii.eqb d c); eauto.
Qed.

Lemma Split_last c front hop : contains_char c hop = false -> List.last (Split c (front +:+ String c hop)) "" = hop.
Proof.
  intros Hc. induction front as [|d front IH].
  - pose proof (Split_app c "" hop eq_refl) as Hs. rewrite str_app_nil_l in Hs |- *. rewrite Hs. by rewrite Split_none.
  - rewrite str_app_cons. cbn [Split]. destruct (Split_two c front hop) as (h & x & t & Hs). rewrite Hs in *.
    destruct (Ascii.eqb d c); exact IH.
Qed.
End keys.

(** C38: whom the limits and the Secure flag take a request to come from.
    Unless the connection is from a trusted proxy, no header changes the key
    of the limiter nor makes a plain connection pass for HTTPS.  Behind a
    trusted proxy the key is that of the last hop of X-Forwarded-For, which
    the proxy wrote, whatever the client put before it; and two addresses
    share a key just when they are the same address of version 4 or lie in
    the same /64. *)
Theorem client_identified `{NetipText} `{FoldTable} `{!NetipTextLaws} trusted r :
  (from_proxy trusted r = false ->
     requestIsHTTPS trusted r = rq_TLS r /\
     forall r', rq_RemoteAddr r' = rq_RemoteAddr r -> clientIP trusted r' = clientIP trusted r) /\
  (from_proxy trusted r = true -> forall front hop a,
     rq_Header r "X-Forwarded-For" = front +:+ "," +:+ hop -> contains_char "," hop = false ->
     ParseAddr (TrimSpace hop) = Some a -> clientIP trusted r = rateLimitKey a) /\
  (forall a b, rateLimitKey a = rateLimitKey b <-> client_network a = client_network b).
Proof.
  split; [|split; [|apply rateLimitKey_network]].
  - unfold from_proxy, requestIsHTTPS, clientIP. intros Hp. split.
    + destruct (rq_TLS r); [done|]. destruct trusted as [ps|]; destruct (ParseAddr _) as [a|]; try done. by rewrite Hp.
    + intros r' ->. destruct trusted as [ps|]; destruct (ParseAddr _) as [a|]; try done. by rewrite Hp.
  - unfold from_proxy, clientIP. destruct trusted as [ps|]; [|done]. destruct (ParseAddr (hostOnly _)) as [p|]; [|done].
    intros -> front hop a Hx Hc Ha. unfold lastForwardedHop. rewrite Hx.
    replace (String.eqb (front +:+ "," +:+ hop) "") with false by (by destruct front).
    change (front +:+ "," +:+ hop) with (front +:+ String "," hop). rewrite Split_last by done. rewrite Ha.
    cbn [fmap option_fmap option_map]. unfold rateLimitKey. cbv zeta.
    by rewrite Unmap_idemp.
Qed.

(** ** Texts of addresses, for the runs *)

(** Every address and prefix has a number, and that is its text. *)
#[local] Instance family_countable : Countable family.
Proof.
  refine (inj_countable' (fun f => match f with V4 => true | V6 => false end)
                         (fun b : bool => if b then V4 else V6) _). by intros [].
Defined.
#[local] Instance Addr_countable : Countable Addr.
Proof.
  refine (inj_countable' (fun a => (ad_family a, ad_bits a, ad_zone a)) (fun x => mkAddr x.1.1 x.1.2 x.2) _). by intros [].
Defined.
#[local] Instance Prefix_countable : Countable Prefix.
Proof.
  refine (inj_countable' (fun p => (px_addr p, px_bits p)) (fun x => mkPrefix x.1 x.2) _). by intros [].
Defined.

(** Addresses of version 4 are read from the two texts the run uses. *)
Definition demo_parse (s : string) : option Addr :=
  if String.eqb s "10.0.0.1" then Some (mkAddr V4 167772161 "")
  else if String.eqb s "203.0.113.9" then Some (mkAddr V4 3405803785 "")
  else None.
#[local] Instance demo_netip : NetipText :=
  {| ParseAddr := demo_parse; ParsePrefix s := inr (New s);
     addr_text a := "a" +:+ pretty (Npos (encode a)); prefix_text p := "p" +:+ pretty (Npos (encode p)) |}.
#[local] Instance demo_netip_laws : NetipTextLaws.
Proof.
  split.
  - intros a b E.
    change (String "a" (pretty (Npos (encode a))) = String "a" (pretty (Npos (encode b)))) in E. injection E as E. apply (inj pretty) in E. injection E as E. by apply (inj encode) in E.
  - intros p q E.
    change (String "p" (pretty (Npos (encode p))) = String "p" (pretty (Npos (encode q)))) in E. injection E as E. apply (inj pretty) in E. injection E as E. by apply (inj encode) in E.
  - intros a p E.
    change (String "a" (pretty (Npos (encode a))) = String "p" (pretty (Npos (encode p)))) in E. discriminate E.
Qed.
#[local] Instance demo_fold : FoldTable := fun r => r.

(** A request through the proxy at 10.0.0.1, from a client that wrote a hop of
    its own. *)
Definition demo_proxied : Request :=
  Edge.mkRequest "GET" "/healthz" "/healthz" "books.example.org" "10.0.0.1:5000" false 0
    (fun name => if String.eqb name "X-Forwarded-For" then "198.51.100.1, 203.0.113.9" else "") (fun _ => None).

Lemma client_identified_witness :
  clientIP (Some [mkPrefix (mkAddr V4 167772160 "") 8]) demo_proxied = rateLimitKey (mkAddr V4 3405803785 "").
Proof.
  apply (client_identified (Some [mkPrefix (mkAddr V4 167772160 "") 8]) demo_proxied) with (front := "198.51.100.1")
    (hop := " 203.0.113.9"); vm_compute; reflexivity.
Defined.

(** ** Origins the server knows itself by *)

Section own_origins.
Context `{Addresses} `{Certificates} `{IPText}.

Lemma first_of_each_in seen l o :
  o ∈ first_of_each seen l <-> o ∈ l /\ o ∉ seen /\ o <> "".
Proof.
  assert (Hex : forall x l, (existsb (String.eqb x) l = true) <-> x ∈ l).
  { intros x l'. rewrite existsb_exists, list_elem_of_In. split; [by intros (y & Hy & ->%String.eqb_eq)|].
    intros Hx. exists x. by rewrite String.eqb_refl. }
  revert seen. induction l as [|x l IH]; intros seen; cbn [first_of_each].
  - split; [by intros ?%not_elem_of_nil|by intros [?%not_elem_of_nil _]].
  - destruct (negb (existsb (String.eqb x) seen) && negb (String.eqb x "")) eqn:E.
    + apply andb_true_iff in E as [Es%negb_true_iff En%negb_true_iff%String.eqb_neq].
      assert (Hns : x ∉ seen) by (intros Hx%Hex; congruence).
      rewrite !elem_of_cons, IH, not_elem_of_cons. destruct (decide (o = x)) as [->|Hne]; [tauto|]. tauto.
    + rewrite IH, elem_of_cons. split; [tauto|]. intros ([-> |Hin] & Hs & Hn); [|done]. exfalso.
      apply andb_false_iff in E as [E%negb_false_iff|E%negb_false_iff]; [by apply Hex in E|by apply String.eqb_eq in E].
Qed.

(** Which origins may sign in besides the configured ones, all of
    which may.  On a host that is bound by name or address, the text of the
    bound address with the scheme the server serves may, its port left out
    when it is the scheme's own; so a browser that was sent to the server by
    its bound address is not refused for its origin, unless that address is
    one of version 6, whose brackets the text lacks. *)
Theorem bound_origin_allowed interfaces cfg :
  (forall o, o ∈ value cfg CORS_ALLOWED_ORIGINS -> o <> "" -> o ∈ computeAllowedOrigins interfaces cfg) /\
  (forall host port, SplitHostPort (value cfg BIND_ADDRESS) = Ok (host, port) ->
     host ∉ [""; "0.0.0.0"; "::"; "[::]"] ->
     (served_scheme cfg +:+ "://" +:+ host +:+ port_suffix (served_scheme cfg) port)
       ∈ computeAllowedOrigins interfaces cfg).
Proof.
  unfold computeAllowedOrigins. cbv zeta. split.
  - intros o Ho Hn. apply first_of_each_in. split; [|split; [apply not_elem_of_nil|done]]. apply elem_of_app. by left.
  - intros host port Hs Hw. unfold resolveBindAddress. rewrite Hs.
    assert (Hx : existsb (String.eqb host) [""; "0.0.0.0"; "::"; "[::]"] = false).
    { apply not_true_is_false. intros (y & Hy & ->%String.eqb_eq)%existsb_exists. by apply Hw, list_elem_of_In. }
    rewrite Hx. cbn [negb rb_port rb_primaryHost rb_extraHosts]. apply first_of_each_in.
    split; [|split; [apply not_elem_of_nil|]].
    + apply elem_of_app. right. apply elem_of_app. left.
      destruct (String.eqb host "") eqn:E; [by apply orb_false_iff in Hx as [? _]; congruence|]. left.
    + unfold served_scheme. by destruct (_ || _).
Qed.
End own_origins.

Module OriginDemo.
#[local] Instance demo_addresses : Addresses := fun _ => None.
#[local] Instance demo_text : IPText := fun _ => "".
#[local] Instance demo_certificates : Certificates :=
  {| certificate := unit; X509KeyPair _ _ := inr (New ""); ParseCertificate _ := inl tt; NotBefore _ := 0;
     NotAfter _ := 0; VerifyHostname _ _ := None; time_String _ := "" |}.
Definition bound_at (bind : string) : Config :=
  mkConfig (set_value BIND_ADDRESS bind zero_value) None "private" "none" "".

Lemma bound_origin_allowed_witness :
  "http://192.168.1.5:8080" ∈ computeAllowedOrigins None (bound_at "192.168.1.5:8080").
Proof.
  apply (bound_origin_allowed None (bound_at "192.168.1.5:8080")) with (host := "192.168.1.5") (port := "8080").
  - vm_compute. reflexivity.
  - apply (bool_decide_unpack _). vm_compute. exact I.
Defined.

(** The origin of a page loaded from an address of version 6 is not the text
    the server makes of it. *)
Example version6_origin_missing :
  computeAllowedOrigins None (bound_at "[fd00::5]:8080") = ["http://fd00::5:8080"; "http://alexandryn.local:8080"].
Proof. vm_compute. reflexivity. Qed.
End OriginDemo.
