(* ===== verification/Router.v ===== *)
(** * Routing (src/cmd/server/main.go; src/internal/transport/http:
      middleware.go, lazy_auth.go, sync_ref.go, ratelimit_public.go; and
      http.ServeMux of the standard library)

    The table of the server's routes, how a request finds its route, the
    guards in front of each handler, and the chain of middleware around them
    all.  The handlers themselves are components of their own: here a handler
    is its name, and serving a request ends in the handler that runs and the
    context it runs with.  Recovery, logging and metrics do not decide
    anything and are left out. *)

From S2P Require Import Prelude GoStrings Errors Postgres Http Progress Pairing PairingStore Cfi Sync Identity Encoding Paths Net Tokens AuthStore AuthHandlers Access Sources Edge.

Local Open Scope string_scope.
Local Open Scope list_scope.
Local Open Scope Z_scope.

(** ** Escapes in paths (net/url) *)

Definition hex_value (c : Z) : option Z :=
  if between 48 c 57 then Some (c - 48)
  else if between 97 c 102 then Some (c - 87)
  else if between 65 c 70 then Some (c - 55)
  else None.

(** [url.PathUnescape]. *)
Fixpoint unescape (l : list ascii) : option (list ascii) :=
  match l with
  | [] => Some []
  | c :: l' =>
      if Ascii.eqb c "%" then
        match l' with
        | a :: b :: l'' =>
            h ← hex_value (byte a); d ← hex_value (byte b);
            rest ← unescape l''; Some (ascii_of_Z (16 * h + d) :: rest)
        | _ => None
        end
      else rest ← unescape l'; Some (c :: rest)
  end.

(** ** Patterns (http.ServeMux) *)

(** A segment of a pattern: a literal, a wildcard for one segment, or one for
    the rest of the path, which a trailing slash stands for too. *)
Inductive segment := Lit (s : string) | Wild | Multi.
#[export] Instance segment_eq_dec : EqDecision segment.
Proof. solve_decision. Defined.

Record pattern := mkPattern { pt_method : string; pt_segments : list segment }.

(** [parsePattern], of patterns without a host. *)
Definition parse_segment (s : string) : segment :=
  if HasPrefix s "{" then
    if HasSuffix s "...}" then Multi else Wild
  else if String.eqb s "" then Multi
  else Lit s.
Definition parsePattern (s : string) : pattern :=
  let '(method, path) := match Cut " " s with Some mp => mp | None => ("", s) end in
  mkPattern method (List.map parse_segment (tl (Split "/" path))).

(** The segments of a path, unescaped; the last one is a slash when the path
    ends in one ([firstSegment]). *)
Definition slash_if_empty (s : string) : string := if String.eqb s "" then "/" else s.
Definition path_segment (s : string) : string :=
  match unescape (chars s) with Some l => text_of l | None => s end.
Fixpoint segments_of (l : list string) : list string :=
  match l with
  | [] => []
  | [s] => [slash_if_empty (path_segment s)]
  | s :: l' => path_segment s :: segments_of l'
  end.
Definition path_segments (path : string) : list string := segments_of (tl (Split "/" path)).

(** The routes whose pattern goes on after a literal, or a wildcard; and the
    first whose pattern ends here, or matches the rest. *)
Section matching.
Context {R : Type}.

Definition after_literal (seg : string) (cands : list (list segment * R)) : list (list segment * R) :=
  omap (fun '(p, r) => match p with
                       | Lit s :: p' => if String.eqb s seg then Some (p', r) else None
                       | _ => None
                       end) cands.
Definition after_wild (cands : list (list segment * R)) : list (list segment * R) :=
  omap (fun '(p, r) => match p with Wild :: p' => Some (p', r) | _ => None end) cands.
Fixpoint complete (cands : list (list segment * R)) : option R :=
  match cands with
  | [] => None
  | ([], r) :: _ => Some r
  | _ :: cands' => complete cands'
  end.
Fixpoint multi_child (cands : list (list segment * R)) : option R :=
  match cands with
  | [] => None
  | ([Multi], r) :: _ => Some r
  | _ :: cands' => multi_child cands'
  end.

(** [routingNode.matchPath]: a literal is preferred to a wildcard, and that to
    the rest of the path; a choice that leads nowhere is taken back. *)
Fixpoint matchPath (cands : list (list segment * R)) (segs : list string) : option R :=
  match segs with
  | [] => complete cands
  | seg :: rest =>
      (* A node has no literal child of the empty name: the lookup finds the
         wildcard's. *)
      let literal := if String.eqb seg "" then after_wild cands else after_literal seg cands in
      match matchPath literal rest with
      | Some r => Some r
      | None =>
          match (if String.eqb seg "/" then None else matchPath (after_wild cands) rest) with
          | Some r => Some r
          | None => multi_child cands
          end
      end
  end.
End matching.

(** ** The routes (main.go) *)

(** What stands before the handler of a route. *)
Inductive guard :=
| AdminOnly
| IngestAuth
| Syncing
| OriginValidated
| InitiateLimit
| VerifyLimit.
#[export] Instance guard_eq_dec : EqDecision guard.
Proof. solve_decision. Defined.

(** A pattern, its guards from the outermost, and the handler. *)
Record route := mkRoute { rt_pattern : string; rt_guards : list guard; rt_handler : string }.

Definition catalogue_routes : list route := [
  mkRoute "/healthz" [] "Healthz";
  mkRoute "/readyz" [] "Readyz";
  mkRoute "GET /api/v1/library" [] "LibraryHandler";
  mkRoute "GET /api/v1/works/{id}" [] "WorkDetailHandler";
  mkRoute "GET /api/v1/collections" [] "ListCollectionsHandler";
  mkRoute "POST /api/v1/collections" [] "CreateCollectionHandler";
  mkRoute "GET /api/v1/collections/{id}" [] "GetCollectionHandler";
  mkRoute "PATCH /api/v1/collections/{id}" [] "RenameCollectionHandler";
  mkRoute "DELETE /api/v1/collections/{id}" [] "DeleteCollectionHandler";
  mkRoute "POST /api/v1/collections/{id}/works" [] "AddWorkToCollectionHandler";
  mkRoute "DELETE /api/v1/collections/{id}/works/{workId}" [] "RemoveWorkFromCollectionHandler";
  mkRoute "GET /api/v1/discover" [] "DiscoverSearchHandler";
  mkRoute "GET /api/v1/discover/works/{openLibraryId}" [] "DiscoverWorkDetailHandler";
  mkRoute "GET /api/v1/discover/covers/{coverId}" [] "DiscoverCoverHandler"].

Definition source_routes : list route := [
  mkRoute "POST /api/v1/sources" [AdminOnly] "CreateSourceHandler";
  mkRoute "GET /api/v1/sources" [AdminOnly] "ListSourcesHandler";
  mkRoute "GET /api/v1/sources/{id}" [AdminOnly] "GetSourceHandler";
  mkRoute "PATCH /api/v1/sources/{id}" [AdminOnly] "UpdateSourceHandler";
  mkRoute "DELETE /api/v1/sources/{id}" [AdminOnly] "DeleteSourceHandler";
  mkRoute "POST /api/v1/sources/{id}/health-check" [AdminOnly] "HealthCheckSourceHandler";
  mkRoute "GET /api/v1/sources/{id}/browse" [AdminOnly] "BrowseSourceHandler";
  mkRoute "GET /api/v1/sources/{id}/search" [AdminOnly] "SearchSourceHandler";
  mkRoute "POST /api/v1/import/discover" [IngestAuth] "ImportDiscoverHandler";
  mkRoute "GET /api/v1/import/candidates" [IngestAuth] "ImportCandidatesListHandler";
  mkRoute "POST /api/v1/import/candidates/{id}/confirm" [IngestAuth] "ImportCandidateConfirmHandler";
  mkRoute "POST /api/v1/import/candidates/{id}/reject" [IngestAuth] "ImportCandidateRejectHandler";
  mkRoute "GET /api/v1/import/candidates/{id}/cover" [IngestAuth] "ImportCandidateCoverHandler"].

Definition reading_routes : list route := [
  mkRoute "GET /api/v1/library/editions/{editionId}/reader/content/{path...}" [] "ReaderContentHandler";
  mkRoute "POST /api/v1/library/editions/{editionId}/reader/session" [] "ReaderSessionHandler";
  mkRoute "GET /api/v1/reading/works/{workId}/progress" [] "ReadingProgressGetHandler";
  mkRoute "POST /api/v1/reading/works/{workId}/progress" [Syncing] "ReadingProgressReportHandler";
  mkRoute "GET /api/v1/reading/editions/{editionId}/bookmarks" [] "ReadingBookmarksListHandler";
  mkRoute "POST /api/v1/reading/editions/{editionId}/bookmarks" [Syncing] "ReadingBookmarkCreateHandler";
  mkRoute "DELETE /api/v1/reading/bookmarks/{bookmarkId}" [Syncing] "ReadingBookmarkDeleteHandler";
  mkRoute "GET /api/v1/reading/editions/{editionId}/highlights" [] "ReadingHighlightsListHandler";
  mkRoute "POST /api/v1/reading/editions/{editionId}/highlights" [Syncing] "ReadingHighlightCreateHandler";
  mkRoute "PATCH /api/v1/reading/highlights/{highlightId}" [Syncing] "ReadingHighlightPatchHandler";
  mkRoute "DELETE /api/v1/reading/highlights/{highlightId}" [Syncing] "ReadingHighlightDeleteHandler";
  mkRoute "GET /api/v1/reading/preferences" [] "ReadingPreferencesGetHandler";
  mkRoute "PUT /api/v1/reading/preferences" [Syncing] "ReadingPreferencesPutHandler";
  mkRoute "GET /api/v1/reading/export" [] "ReadingExportHandler"].

Definition auth_routes : list route := [
  mkRoute "GET /api/v1/auth/setup/status" [] "SetupStatusHandler";
  mkRoute "POST /api/v1/auth/setup" [OriginValidated] "SetupHandler";
  mkRoute "POST /api/v1/auth/login" [OriginValidated] "LoginHandler";
  mkRoute "POST /api/v1/auth/refresh" [] "RefreshHandler";
  mkRoute "POST /api/v1/auth/logout" [] "LogoutHandler";
  mkRoute "POST /api/v1/auth/password-reset/request" [] "PasswordResetRequestHandler";
  mkRoute "POST /api/v1/auth/password-reset/confirm" [] "PasswordResetConfirmHandler";
  mkRoute "POST /api/v1/auth/mfa/totp/setup" [] "TOTPSetupHandler";
  mkRoute "POST /api/v1/auth/mfa/totp/confirm" [] "TOTPConfirmHandler";
  mkRoute "POST /api/v1/auth/mfa/totp/verify" [] "TOTPVerifyHandler";
  mkRoute "POST /api/v1/auth/mfa/totp/disable" [] "TOTPDisableHandler";
  mkRoute "GET /api/v1/libraries" [] "ListLibrariesHandler";
  mkRoute "POST /api/v1/libraries" [] "CreateLibraryHandler";
  mkRoute "GET /api/v1/libraries/{id}" [] "GetLibraryHandler";
  mkRoute "PATCH /api/v1/libraries/{id}" [] "UpdateLibraryHandler";
  mkRoute "DELETE /api/v1/libraries/{id}" [] "DeleteLibraryHandler";
  mkRoute "GET /api/v1/libraries/{id}/members" [] "ListMembersHandler";
  mkRoute "POST /api/v1/libraries/{id}/invitations" [] "CreateInvitationHandler";
  mkRoute "POST /api/v1/invitations/{token}/accept" [] "AcceptInvitationHandler"].

Definition network_routes : list route := [
  mkRoute "POST /api/v1/network/pair/initiate" [AdminOnly; InitiateLimit] "InitiatePairingHandler";
  mkRoute "POST /api/v1/network/pair/verify" [VerifyLimit; OriginValidated] "VerifyPairingHandler";
  mkRoute "GET /api/v1/network/pair/{id}/qr" [AdminOnly] "PairingQRHandler";
  mkRoute "GET /api/v1/network/status" [] "NetworkStatusHandler";
  mkRoute "GET /api/v1/network/settings" [AdminOnly] "GetNetworkSettingsHandler";
  mkRoute "PATCH /api/v1/network/settings" [AdminOnly] "UpdateNetworkSettingsHandler";
  mkRoute "DELETE /api/v1/network/pair/{id}" [AdminOnly] "DeletePairingHandler";
  mkRoute "GET /api/v1/devices" [Syncing] "ListDevicesHandler";
  mkRoute "DELETE /api/v1/devices/{id}" [Syncing] "RevokeDeviceHandler";
  mkRoute "GET /api/v1/sync/reading" [Syncing] "SyncReadingHandler";
  mkRoute "POST /api/v1/sync/progress" [Syncing] "SyncProgressHandler"].

Definition other_routes : list route := [
  mkRoute "GET /api/bootstrap" [] "BootstrapHandler";
  mkRoute "GET /api/v1/diagnostics" [AdminOnly] "DiagnosticsHandler";
  mkRoute "GET /api/v1/activity/events" [AdminOnly] "ActivityEventsHandler";
  mkRoute "POST /api/v1/activity/pause-all" [AdminOnly] "ActivityPauseAllHandler";
  mkRoute "POST /api/v1/activity/jobs/{id}/cancel" [AdminOnly] "ActivityJobCancelHandler";
  mkRoute "POST /api/v1/activity/jobs/{id}/retry" [AdminOnly] "ActivityJobRetryHandler";
  mkRoute "POST /api/v1/activity/jobs/clear-completed" [AdminOnly] "ActivityClearCompletedHandler";
  mkRoute "GET /api/v1/library/finished" [] "FinishedWorksHandler";
  mkRoute "GET /api/v1/library/leaderboard" [] "LibraryLeaderboardHandler";
  mkRoute "/api/v1/" [] "NotFoundHandler";
  mkRoute "/" [] "StaticHandler"].

Definition routes : list route :=
  catalogue_routes ++ source_routes ++ reading_routes ++ auth_routes ++ network_routes ++ other_routes.

(** ** Finding the route (http.ServeMux) *)

(** The candidates of one method: [""] is the patterns without one. *)
Definition of_method (rts : list route) (method : string) : list (list segment * route) :=
  omap (fun rt => let p := parsePattern (rt_pattern rt) in
                  if String.eqb (pt_method p) method then Some (pt_segments p, rt) else None) rts.

(** [matchMethodAndPath]. *)
Definition match_route (rts : list route) (method path : string) : option route :=
  let segs := path_segments path in
  match matchPath (of_method rts method) segs with
  | Some rt => Some rt
  | None =>
      match (if String.eqb method "HEAD" then matchPath (of_method rts "GET") segs else None) with
      | Some rt => Some rt
      | None => matchPath (of_method rts "") segs
      end
  end.

Definition slashes (path : string) : nat := length (Split "/" path) - 1.
Definition exactMatch (rt : option route) (path : string) : bool :=
  match rt with
  | None => false
  | Some rt =>
      let segs := pt_segments (parsePattern (rt_pattern rt)) in
      if negb (bool_decide (last segs = Some Multi)) then true
      else if negb (HasSuffix path "/") then false
      else Nat.eqb (length segs) (slashes path)
  end.

Definition cleanPath (p : string) : string :=
  if String.eqb p "" then "/"
  else
    let p := if HasPrefix p "/" then p else "/" +:+ p in
    let np := path_Clean p in
    if HasSuffix p "/" && negb (String.eqb np "/") then np +:+ "/" else np.

(** Where a request goes: to the handler of a route, or to the path of the URL
    it is redirected to; [Nowhere] is the answer that no method or no path
    matches ([findHandler]). *)
Inductive destination :=
| ToRoute (rt : route)
| ToPath (path : string)
| Nowhere.

Definition find_handler (rts : list route) (method escapedPath path : string) : destination :=
  let clean := if String.eqb method "CONNECT" then escapedPath else cleanPath escapedPath in
  let n := match_route rts method clean in
  let slashed := clean +:+ "/" in
  if negb (exactMatch n clean) && negb (HasSuffix clean "/") && exactMatch (match_route rts method slashed) slashed
  then ToPath (cleanPath path +:+ "/")
  else if negb (String.eqb clean escapedPath) then ToPath clean
  else match n with
  | Some rt => ToRoute rt
  | None => Nowhere
  end.

Example route_literal_first :
  rt_handler <$> match_route routes "POST" "/api/v1/activity/jobs/clear-completed" = Some "ActivityClearCompletedHandler".
Proof. vm_compute. reflexivity. Qed.
Example route_wild :
  rt_handler <$> match_route routes "HEAD" "/api/v1/library/editions/e1/reader/content/a/b.xhtml" = Some "ReaderContentHandler".
Proof. vm_compute. reflexivity. Qed.
Example route_rest : rt_handler <$> match_route routes "PUT" "/api/v1/library" = Some "NotFoundHandler".
Proof. vm_compute. reflexivity. Qed.

(** ** The site

    What the middleware and the guards keep: the identity store, which two of
    them ask, and the three limiters. *)
Section site.
Context `{CaseTables} `{FoldTable} `{Urls} `{NetipText} `{TokenPrimitives} `{Limiter}.

Record World := mkWorld {
  w_db : auth_db;
  w_public : IPRateLimiter;
  w_initiate : IPRateLimiter;
  w_verify : IPRateLimiter;
}.
Definition set_db (db : auth_db) (w : World) : World := mkWorld db (w_public w) (w_initiate w) (w_verify w).
Definition set_public (l : IPRateLimiter) (w : World) : World := mkWorld (w_db w) l (w_initiate w) (w_verify w).
Definition set_initiate (l : IPRateLimiter) (w : World) : World := mkWorld (w_db w) (w_public w) l (w_verify w).
Definition set_verify (l : IPRateLimiter) (w : World) : World := mkWorld (w_db w) (w_public w) (w_initiate w) l.

(** What is fixed when the router is built, and what the references to the
    repositories hold at the time of the request: [None] before the database
    is ready. *)
Record Site := mkSite {
  s_trustedProxies : option (list Prefix);
  s_maxBodyBytes : Z;
  s_tlsInProcess : bool;
  s_corsOrigins : list string;
  s_allowedOrigins : list string;
  s_dynamicOrigins : option (list string);
  s_auth : option (JWTSigner * option GrantSigner);
  s_syncReady : bool;
  s_fault : Faults;
  s_now : Time;
}.

Definition not_ready : http_error := HTTPError Unavailable "database not ready".
Definition ReaderContentCookieName : string := "alx_rc".

(** What the authentication middleware reads of a request. *)
Definition auth_request (path : string) (r : Request) : request :=
  Access.mkRequest path (rq_Method r) (rq_Header r "Authorization") (rq_Header r "X-Library-Id")
    (rq_Cookie r ReaderContentCookieName).

(** A limiter kept in the world; one that refuses answers 429. *)
Definition limited (get : World -> IPRateLimiter) (set : IPRateLimiter -> World -> World) (applies : string -> bool)
    (site : Site) (path : string) : Middleware World := fun next r ctx w =>
  let '(ok, l) := PublicRateLimit applies path (clientIP (s_trustedProxies site) r) (s_now site) (get w) in
  if ok then next r ctx (set l w)
  else refuse (TooManyRequests "too many requests, slow down and try again shortly") (set l w).

Definition every_path : string -> bool := fun _ => true.

Definition LazyAuthMiddleware (site : Site) (path : string) : Middleware World := fun next r ctx w =>
  if IsPublicPath path then next r ctx w
  else match s_auth site with
  | None => refuse not_ready w
  | Some (signer, grants) =>
      match AuthMiddlewareWithReaderGrants signer grants (s_now site) ctx (auth_request path r) with
      | Next ctx => next r ctx w
      | Refuse e => refuse e w
      end
  end.

Definition LazyRequireIngestPermission (site : Site) : Middleware World := fun next r ctx w =>
  match ctx_user ctx with
  | None => refuse (HTTPError Unauthorized "unauthorized") w
  | Some user =>
      if is_admin user then next r ctx w
      else match s_auth site with
      | None => refuse not_ready w
      | Some _ =>
          match RequireIngestPermission (s_fault site 0%nat) ctx (w_db w) with
          | (Ok ctx, db) => next r ctx (set_db db w)
          | (Err e, db) => refuse e (set_db db w)
          | (OutOfFuel, db) => refuse Panicked (set_db db w)
          end
      end
  end.

(** The device the middleware leaves in the context is not part of it here. *)
Definition LazySyncMiddleware (site : Site) (path : string) : Middleware World := fun next r ctx w =>
  if negb (s_syncReady site) then refuse not_ready w
  else
    let db := network (w_db w) in
    let find id := (FindDeviceByID (s_fault site 0%nat) id db).1 in
    match SyncMiddleware find (s_fault site 1%nat) (au_UserID <$> ctx_user ctx) (rq_Header r "X-Device-Id")
            (HasPrefix path "/api/v1/sync/") (s_now site) db with
    | (Passed _, db) => next r ctx (set_db (set_network db (w_db w)) w)
    | (Sync.Refused e, db) => refuse (domain_http e) (set_db (set_network db (w_db w)) w)
    end.

Definition RequireAdmin : Middleware World := fun next r ctx w =>
  match RequireRole [RoleAdmin] ctx with
  | Next ctx => next r ctx w
  | Refuse e => refuse e w
  end.

Definition guard_middleware (site : Site) (path : string) (g : guard) : Middleware World :=
  match g with
  | AdminOnly => RequireAdmin
  | IngestAuth => LazyRequireIngestPermission site
  | Syncing => LazySyncMiddleware site path
  | OriginValidated => LazyOriginValidation (s_allowedOrigins site) (s_dynamicOrigins site)
  | InitiateLimit => limited w_initiate set_initiate every_path site path
  | VerifyLimit => limited w_verify set_verify every_path site path
  end.

Definition endpoint (name : string) : Handler World := fun r ctx w => (answer (Served name ctx), w).

(** The handler [http.ServeMux] runs. *)
Definition mux (site : Site) (path : string) : Handler World := fun r ctx w =>
  match find_handler routes (rq_Method r) (rq_EscapedPath r) path with
  | ToRoute rt => Chain (endpoint (rt_handler rt)) (List.map (guard_middleware site path) (rt_guards rt)) r ctx w
  | ToPath p => (answer (RedirectTo p), w)
  | Nowhere => refuse (HTTPError NotFound "404 page not found") w
  end.

(** [newProductionRouter]: the chain of the middleware around the routes. *)
Definition newProductionRouter (site : Site) (path : string) : Handler World :=
  Chain (mux site path)
    [Limits (s_maxBodyBytes site);
     SecurityHeaders;
     HSTS (s_tlsInProcess site);
     limited w_public set_public HealthProbePath site path;
     CORS (s_corsOrigins site);
     LazyAuthMiddleware site path].

Definition no_context : context := mkContext None None.

(** A request whose URL does not parse is refused by the server before it is
    routed. *)
Definition serve (site : Site) (r : Request) (w : World) : Response * World :=
  match unescape (chars (rq_EscapedPath r)) with
  | None => refuse (HTTPError InvalidInput "400 Bad Request") w
  | Some path => newProductionRouter site (text_of path) r no_context w
  end.
End site.
