(* ===== verification/RouterSafety.v ===== *)
(** * What routing guarantees
      (src/cmd/server/main.go, src/internal/transport/http)

    Which handlers a request without a verified user can reach, which need an
    administrator, what a reader-content cookie opens; and what every response
    carries. *)

From S2P Require Import Prelude GoStrings Errors Postgres Http Progress Pairing PairingStore Cfi Sync Identity Encoding Paths Net Tokens AuthStore AuthHandlers Access AccessSafety Sources Edge Router.

Local Open Scope string_scope.
Local Open Scope list_scope.
Local Open Scope Z_scope.

(** ** What a matched pattern says of a path *)

Fixpoint fits (p : list segment) (segs : list string) : Prop :=
  match p, segs with
  | [], [] => True
  | Lit s :: p', seg :: rest => s = seg /\ fits p' rest
  | Wild :: p', _ :: rest => fits p' rest
  | [Multi], _ :: _ => True
  | _, _ => False
  end.

Lemma complete_in {R} (cands : list (list segment * R)) r : complete cands = Some r -> ([], r) ∈ cands.
Proof.
  induction cands as [|[[|x p] r'] cands IH]; [done| |]; cbn [complete].
  - intros [= ->]. left.
  - intros H. right. by apply IH.
Qed.

Lemma multi_child_in {R} (cands : list (list segment * R)) r : multi_child cands = Some r -> ([Multi], r) ∈ cands.
Proof.
  induction cands as [|[p r'] cands IH]; [done|]. cbn [multi_child].
  destruct p as [|[s| |] [|? ?]]; try (intros H; right; by apply IH). intros [= ->]. left.
Qed.

Lemma after_literal_in {R} s (cands : list (list segment * R)) p r :
  (p, r) ∈ after_literal s cands -> (Lit s :: p, r) ∈ cands.
Proof.
  unfold after_literal. rewrite list_elem_of_omap. intros ([q r'] & Hin & Hq).
  destruct q as [|[s'| |] q]; try done. destruct (String.eqb s' s) eqn:E; [|done]. apply String.eqb_eq in E as ->.
  by injection Hq as -> ->.
Qed.

Lemma after_wild_in {R} (cands : list (list segment * R)) p r :
  (p, r) ∈ after_wild cands -> (Wild :: p, r) ∈ cands.
Proof.
  unfold after_wild. rewrite list_elem_of_omap. intros ([q r'] & Hin & Hq).
  destruct q as [|[s'| |] q]; try done. by injection Hq as -> ->.
Qed.

Lemma matchPath_sound {R} segs (cands : list (list segment * R)) r :
  matchPath cands segs = Some r -> exists p, (p, r) ∈ cands /\ fits p segs.
Proof.
  revert cands. induction segs as [|seg rest IH]; intros cands; cbn [matchPath].
  - intros H%complete_in. by exists [].
  - assert (Hwild : forall p, (p, r) ∈ after_wild cands -> fits p rest -> exists q, (q, r) ∈ cands /\ fits q (seg :: rest)).
    { intros p Hp Hf. exists (Wild :: p). split; [by apply after_wild_in|done]. }
    destruct (matchPath (if String.eqb seg "" then _ else _) rest) as [r'|] eqn:E1.
    { intros [= ->]. destruct (String.eqb seg ""); apply IH in E1 as (p & Hp & Hf); [by eapply Hwild|].
      exists (Lit seg :: p). split; [by apply after_literal_in|done]. }
    destruct (if String.eqb seg "/" then None else _) as [r'|] eqn:E2.
    { intros [= ->]. destruct (String.eqb seg "/"); [done|]. apply IH in E2 as (p & Hp & Hf). by eapply Hwild. }
    intros H%multi_child_in. by exists [Multi].
Qed.

(** The text every path of a pattern begins with, which is the whole path when
    the pattern has literals only. *)
Fixpoint literal_prefix (p : list segment) : string :=
  match p with
  | [] => ""
  | Lit s :: p' => "/" +:+ s +:+ literal_prefix p'
  | _ => "/"
  end.
Definition is_literal (x : segment) : bool := match x with Lit _ => true | _ => false end.
Definition plain_literal (x : segment) : bool := match x with Lit s => negb (String.eqb s "/") | _ => true end.

Lemma unescape_slash l1 l2 out :
  unescape (l1 ++ "/"%char :: l2) = Some out ->
  exists o1 o2, unescape l1 = Some o1 /\ unescape l2 = Some o2 /\ out = o1 ++ "/"%char :: o2.
Proof.
  remember (length l1) as n eqn:Hn. assert (Hle : (length l1 <= n)%nat) by lia. clear Hn. revert l1 out Hle.
  induction n as [|n IH]; intros [|c l1] out Hle; try (cbn in Hle; lia).
  1,2: cbn [app unescape]; cbn -[unescape]; destruct (unescape l2) as [o2|] eqn:E; [|done]; intros [= <-];
    by exists [], o2.
  cbn [app unescape]. destruct (Ascii.eqb c "%") eqn:Ec.
  - destruct l1 as [|a [|b l1]]; cbn [app].
    + destruct l2 as [|b l2]; [done|]. done.
    + destruct (hex_value (byte a)); done.
    + destruct (hex_value (byte a)) as [h|]; [|done]. destruct (hex_value (byte b)) as [d|]; [|done].
      cbn [mbind option_bind]. destruct (unescape (l1 ++ _)) as [rest|] eqn:E; [|done]. intros [= <-].
      apply IH in E as (o1 & o2 & -> & -> & ->); [|cbn in Hle; lia]. cbn [mbind option_bind]. by eexists _, o2.
  - destruct (unescape (l1 ++ _)) as [rest|] eqn:E; [|done]. cbn [mbind option_bind]. intros [= <-].
    apply IH in E as (o1 & o2 & -> & -> & ->); [|cbn in Hle; lia]. cbn [mbind option_bind]. by eexists _, o2.
Qed.

(** A text has no slash, or a part before its first one. *)
Lemma cut_slash s : Split "/" s = [s] \/ exists a b, s = a +:+ "/" +:+ b /\ Split "/" s = a :: Split "/" b.
Proof.
  induction s as [|c s IH]; [by left|]. destruct (Ascii.eqb c "/") eqn:E.
  - apply Ascii.eqb_eq in E as ->. right. exists "", s. split; [done|]. apply (Split_app "/" "" s). done.
  - cbn [Split]. destruct IH as [->|(a & b & -> & ->)]; rewrite E; [by left|]. right. exists (String c a), b. done.
Qed.

Lemma chars_text l : chars (text_of l) = l.
Proof. apply String.list_ascii_of_string_of_list_ascii. Qed.
Lemma text_of_app l1 l2 : text_of (l1 ++ l2) = text_of l1 +:+ text_of l2.
Proof.
  induction l1 as [|c l1 IH]; [done|].
  change (String c (text_of (l1 ++ l2)) = String c (text_of l1 +:+ text_of l2)). by rewrite IH.
Qed.


Lemma fits_nil p : fits p [] -> p = [].
Proof. by destruct p as [|[x| |] [|? ?]]. Qed.

(** A pattern that fits one segment. *)
Lemma fits_one p seg : fits p [seg] -> p = [Lit seg] \/ p = [Wild] \/ p = [Multi].
Proof.
  destruct p as [|[x| |] p]; cbn [fits]; [done| | |].
  - intros [-> Hp%fits_nil]. subst. by left.
  - intros Hp%fits_nil. subst. right. by left.
  - destruct p; [|done]. right. by right.
Qed.

Lemma segments_fit n s p out :
  (String.length s <= n)%nat -> unescape (chars s) = Some out -> forallb plain_literal p = true ->
  fits p (segments_of (Split "/" s)) ->
  exists tail, "/" +:+ text_of out = literal_prefix p +:+ tail /\ (forallb is_literal p = true -> tail = "").
Proof.
  revert s p out. induction n as [|n IH]; intros s p out Hn Hu Hp Hf.
  - destruct s; [|cbn in Hn; lia]. injection Hu as <-.
    apply fits_one in Hf as [-> | [-> | ->]]; [by cbn in Hp|by exists ""|by exists ""].
  - destruct (cut_slash s) as [Hs|(a & b & -> & Hs)]; rewrite Hs in Hf.
    + cbn [segments_of] in Hf. unfold path_segment in Hf. rewrite Hu in Hf.
      apply fits_one in Hf as [-> | [-> | ->]]; [|by exists (text_of out)|by exists (text_of out)].
      cbn [forallb plain_literal] in Hp. apply andb_true_iff in Hp as [Hp _]. exists "". split; [|done].
      unfold slash_if_empty in *. destruct (String.eqb (text_of out) "") eqn:E; [done|].
      cbn [literal_prefix]. by rewrite !str_app_nil_r.
    + rewrite !chars_app in Hu. change (chars "/") with ["/"%char] in Hu. cbn [app] in Hu.
      apply unescape_slash in Hu as (o1 & o2 & Ha & Hb & ->).
      destruct (Split_cons "/" b) as (h & t & Ht). rewrite Ht in Hf.
      change (segments_of (a :: h :: t)) with (path_segment a :: segments_of (h :: t)) in Hf. rewrite <- Ht in Hf.
      assert (Hlen : (String.length b <= n)%nat) by (rewrite !str_length_app in Hn; cbn in Hn; lia).
      rewrite text_of_app. cbn [text_of]. unfold path_segment in Hf at 1. rewrite Ha in Hf.
      destruct p as [|[x| |] p]; cbn [fits] in Hf; [done| | |].
      * destruct Hf as [-> Hf]. cbn [forallb] in Hp. apply andb_true_iff in Hp as [_ Hp].
        destruct (IH b p o2 Hlen Hb Hp Hf) as (tail & Htail & Hlit). exists tail. split; [|exact Hlit].
        cbn [literal_prefix]. rewrite !str_app_assoc, <- Htail. done.
      * exists (text_of o1 +:+ text_of ("/"%char :: o2)). split; [done|]. intros Hl. done.
      * exists (text_of o1 +:+ text_of ("/"%char :: o2)). split; [done|]. intros Hl. done.
Qed.

(** ** The route of a request *)

Lemma of_method_in rts m p rt :
  (p, rt) ∈ of_method rts m ->
  rt ∈ rts /\ pt_method (parsePattern (rt_pattern rt)) = m /\ pt_segments (parsePattern (rt_pattern rt)) = p.
Proof.
  unfold of_method. rewrite list_elem_of_omap. intros (rt' & Hin & Hq).
  destruct (String.eqb _ m) eqn:E; [|done]. apply String.eqb_eq in E. by injection Hq as <- ->.
Qed.

(** The methods whose patterns a request's method may match. *)
Definition serves_method (pm m : string) : Prop := pm = m \/ pm = "" \/ m = "HEAD" /\ pm = "GET".

Lemma match_route_sound rts m path rt :
  match_route rts m path = Some rt ->
  rt ∈ rts /\ serves_method (pt_method (parsePattern (rt_pattern rt))) m /\
  fits (pt_segments (parsePattern (rt_pattern rt))) (path_segments path).
Proof.
  assert (Hone : forall m', matchPath (of_method rts m') (path_segments path) = Some rt -> serves_method m' m ->
    rt ∈ rts /\ serves_method (pt_method (parsePattern (rt_pattern rt))) m /\
    fits (pt_segments (parsePattern (rt_pattern rt))) (path_segments path)).
  { intros m' (p & (Hin & Hm & Hp)%of_method_in & Hf)%matchPath_sound Hs. by subst. }
  unfold match_route. destruct (matchPath (of_method rts m) _) as [rt1|] eqn:E1.
  { intros [= ->]. apply (Hone m); [done|by left]. }
  destruct (String.eqb m "HEAD") eqn:Em.
  - apply String.eqb_eq in Em. destruct (matchPath (of_method rts "GET") _) as [rt2|] eqn:E2.
    + intros [= ->]. apply (Hone "GET"); [done|]. right. by right.
    + intros E3. apply (Hone ""); [done|]. right. by left.
  - intros E3. apply (Hone ""); [done|]. right. by left.
Qed.

Lemma HasPrefix_slash s : HasPrefix s "/" = true -> exists t, s = "/" +:+ t.
Proof. apply HasPrefix_Some. Qed.

Lemma path_Clean_rooted p : HasPrefix p "/" = true -> exists body, path_Clean p = "/" +:+ body.
Proof.
  intros Hp. unfold path_Clean. destruct (String.eqb p "") eqn:E.
  - apply String.eqb_eq in E as ->. done.
  - unfold is_rooted. rewrite Hp. by eexists.
Qed.

Lemma cleanPath_rooted p : exists t, cleanPath p = "/" +:+ t.
Proof.
  unfold cleanPath. destruct (String.eqb p ""); [by exists ""|].
  assert (Hr : HasPrefix (if HasPrefix p "/" then p else "/" +:+ p) "/" = true).
  { destruct (HasPrefix p "/") eqn:E; [done|]. apply (prefix_app "/"). }
  apply path_Clean_rooted in Hr as (body & Hb). cbv zeta. rewrite Hb.
  destruct (_ && _); [|by exists body]. exists (body +:+ "/"). done.
Qed.

(** Routing to a handler: the route is in the table, serves the method, and its
    pattern speaks of the path the other middleware see. *)
Lemma find_handler_sound m escaped out rt :
  unescape (chars escaped) = Some out -> m <> "CONNECT" ->
  find_handler routes m escaped (text_of out) = ToRoute rt ->
  rt ∈ routes /\ serves_method (pt_method (parsePattern (rt_pattern rt))) m /\
  exists tail, text_of out = literal_prefix (pt_segments (parsePattern (rt_pattern rt))) +:+ tail /\
    (forallb is_literal (pt_segments (parsePattern (rt_pattern rt))) = true -> tail = "").
Proof.
  intros Hu Hm. unfold find_handler. destruct (String.eqb m "CONNECT") eqn:Ec; [by apply String.eqb_eq in Ec|].
  destruct (_ && exactMatch _ _); [done|]. destruct (String.eqb (cleanPath escaped) escaped) eqn:Ee; [|done].
  cbn [negb]. apply String.eqb_eq in Ee. rewrite Ee. destruct (match_route routes m escaped) as [rt'|] eqn:Er; [|done].
  intros [= ->]. apply match_route_sound in Er as (Hin & Hs & Hf). split; [done|]. split; [done|].
  destruct (cleanPath_rooted escaped) as (t & Ht). rewrite Ee in Ht. subst escaped.
  rewrite chars_app in Hu. change (chars "/") with ["/"%char] in Hu.
  apply (unescape_slash []) in Hu as (o1 & o2 & [= <-] & Ho & ->).
  unfold path_segments in Hf. change (Split "/" ("/" +:+ t)) with (Split "/" (String "/" t)) in Hf.
  pose proof (Split_app "/" "" t eq_refl) as Hsp. rewrite str_app_nil_l in Hsp. rewrite Hsp in Hf. cbn [tl] in Hf.
  apply (segments_fit (String.length t) t _ o2) in Hf as (tail & Htail & Hlit); [|done|done|].
  - exists tail. split; [exact Htail|exact Hlit].
  - assert (Hall : forallb (fun rt => forallb plain_literal (pt_segments (parsePattern (rt_pattern rt)))) routes = true)
      by (vm_compute; reflexivity).
    rewrite forallb_forall in Hall. apply (Hall rt), list_elem_of_In, Hin.
Qed.

(** ** What the middleware let through *)

Section passing.
Context `{CaseTables} `{FoldTable} `{Urls} `{NetipText} `{TokenPrimitives} `{Limiter}.

(** A middleware that serves a request has run what it stands before, with the
    context [ctx']. *)
Definition passes_on (mw : Middleware World) (P : Request -> context -> context -> Prop) : Prop :=
  forall next r ctx w name c,
    rs_reply (mw next r ctx w).1 = Served name c ->
    exists ctx' w', rs_reply (next r ctx' w').1 = Served name c /\ P r ctx ctx'.

(** Most leave the context alone. *)
Definition same_context (P : Request -> context -> Prop) : Request -> context -> context -> Prop := fun r ctx ctx' =>
  ctx' = ctx /\ P r ctx.

Ltac serve_on := eexists _, _; split; [eassumption|done].

Lemma limited_passes get set applies site path : passes_on (limited get set applies site path) (same_context (fun _ _ => True)).
Proof.
  intros next r ctx w name c. unfold limited. destruct (PublicRateLimit _ _ _ _ _) as [[] l]; [|done].
  intros Hs. serve_on.
Qed.

Lemma origin_passes allowed dynamic :
  passes_on (LazyOriginValidation allowed dynamic) (same_context (fun _ _ => True)).
Proof.
  intros next r ctx w name c. unfold LazyOriginValidation. cbv zeta.
  destruct (negb (String.eqb _ "")); [destruct (negb (_ || _)); [done|]|destruct (_ && negb _); [done|]];
    intros Hs; serve_on.
Qed.

(** What a guard asks of the context. *)
Definition guard_ok (g : guard) (ctx : context) : Prop :=
  match g with
  | AdminOnly => exists user, ctx_user ctx = Some user /\ au_Role user = RoleAdmin
  | IngestAuth | Syncing => ctx_user ctx <> None
  | _ => True
  end.

Lemma RequireIngestPermission_same fault ctx db ctx' db' :
  RequireIngestPermission fault ctx db = (Ok ctx', db') -> ctx' = ctx.
Proof.
  unfold RequireIngestPermission. destruct (ctx_user ctx) as [user|]; [|done].
  destruct (is_admin user); [by intros [= -> _]|]. unfold attempt, mbind, stM_bind.
  destruct (FindLibraryByID _ _ db) as [[lib|e|] db1]; [|done|done].
  destruct (negb (l_allowReaderUploads lib)); [done|]. by intros [= -> _].
Qed.

Lemma guard_passes site path g : passes_on (guard_middleware site path g) (same_context (fun _ ctx => guard_ok g ctx)).
Proof.
  destruct g; cbn [guard_middleware guard_ok].
  - intros next r ctx w name c. unfold RequireAdmin, RequireRole. destruct (ctx_user ctx) as [user|] eqn:Eu; [|done].
    destruct (existsb _ _) eqn:Er; [|done]. intros Hs. exists ctx, w. split; [done|]. split; [done|].
    exists user. split; [done|]. cbn in Er. rewrite orb_false_r in Er. by apply String.eqb_eq in Er.
  - intros next r ctx w name c. unfold LazyRequireIngestPermission. destruct (ctx_user ctx) as [user|] eqn:Eu; [|done].
    destruct (is_admin user); [intros Hs; exists ctx, w; split; [done|split; [done|by rewrite Eu]]|].
    destruct (s_auth site); [|done]. destruct (RequireIngestPermission _ _ _) as [[ctx'|e|] db] eqn:Er; [|done|done].
    apply RequireIngestPermission_same in Er as ->. intros Hs. eexists _, _. split; [exact Hs|]. split; [done|by rewrite Eu].
  - intros next r ctx w name c. unfold LazySyncMiddleware. destruct (negb _); [done|]. cbv zeta.
    destruct (ctx_user ctx) as [user|] eqn:Eu; cbn [fmap option_fmap option_map]; [|done].
    destruct (SyncMiddleware _ _ _ _ _ _ _) as [[e|dev] db]; [done|]. intros Hs.
    eexists _, _. split; [exact Hs|]. split; [done|by rewrite Eu].
  - apply origin_passes.
  - apply limited_passes.
  - apply limited_passes.
Qed.

(** A route's handler runs in the context its guards were shown, and every
    guard was satisfied with it. *)
Lemma guards_pass site path gs name r ctx w h c :
  rs_reply (Chain (endpoint name) (List.map (guard_middleware site path) gs) r ctx w).1 = Served h c ->
  h = name /\ c = ctx /\ Forall (fun g => guard_ok g ctx) gs.
Proof.
  revert w. induction gs as [|g gs IH]; intros w; cbn [List.map].
  - unfold Chain. cbn. by intros [= -> ->].
  - intros Hs. apply (guard_passes site path g (Chain (endpoint name) (List.map (guard_middleware site path) gs)))
      in Hs as (ctx' & w' & Hs & -> & Hg). apply IH in Hs as (-> & -> & Hgs). split; [done|]. split; [done|]. by constructor.
Qed.

(** ** The middleware around the routes *)

Lemma headers_pass hs : passes_on (fun next r ctx w => let '(res, w) := next r ctx w in (with_headers hs res, w))
  (same_context (fun _ _ => True)).
Proof.
  intros next r ctx w name c. destruct (next r ctx w) as [res w'] eqn:E. intros Hs. exists ctx, w. rewrite E. done.
Qed.

Lemma CORS_passes allowed : passes_on (CORS allowed) (same_context (fun _ _ => True)).
Proof.
  intros next r ctx w name c. unfold CORS. cbv zeta. destruct (_ && negb _); [done|]. apply headers_pass.
Qed.

Lemma HSTS_passes tls : passes_on (HSTS tls) (same_context (fun _ _ => True)).
Proof.
  unfold HSTS. destruct (negb tls); [|apply headers_pass]. intros next r ctx w name c Hs. by exists ctx, w.
Qed.

Lemma Limits_passes n : passes_on (Limits n) (same_context (fun _ _ => True)).
Proof.
  intros next r ctx w name c. unfold Limits. destruct (_ && _); [done|]. intros Hs. by exists ctx, w.
Qed.

(** The context of a public path is the one before the middleware, another's is
    what the token or the cookie gave. *)
Definition authenticated (site : Site) (path : string) (r : Request) (ctx ctx' : context) : Prop :=
  IsPublicPath path = true /\ ctx' = ctx \/
  IsPublicPath path = false /\ exists signer grants, s_auth site = Some (signer, grants) /\
    AuthMiddlewareWithReaderGrants signer grants (s_now site) ctx (auth_request path r) = Next ctx'.

Lemma LazyAuth_passes site path : passes_on (LazyAuthMiddleware site path) (authenticated site path).
Proof.
  intros next r ctx w name c. unfold LazyAuthMiddleware, authenticated. destruct (IsPublicPath path).
  - intros Hs. exists ctx, w. split; [done|by left].
  - destruct (s_auth site) as [[signer grants]|]; [|done].
    destruct (AuthMiddlewareWithReaderGrants _ _ _ _ _) as [ctx'|e] eqn:E; [|done]. intros Hs. exists ctx', w.
    split; [done|]. right. split; [done|]. by exists signer, grants.
Qed.

(** A request that is served went through them all to the routes. *)
Lemma serve_passes site r w h c :
  rs_reply (serve site r w).1 = Served h c ->
  exists out ctx w', unescape (chars (rq_EscapedPath r)) = Some out /\
    authenticated site (text_of out) r no_context ctx /\ rs_reply (mux site (text_of out) r ctx w').1 = Served h c.
Proof.
  unfold serve. destruct (unescape _) as [out|]; [|done]. unfold newProductionRouter, Chain. cbn [foldr]. intros Hs.
  apply Limits_passes in Hs as (? & ? & Hs & -> & _). apply (headers_pass security_headers) in Hs as (? & ? & Hs & -> & _).
  apply HSTS_passes in Hs as (? & ? & Hs & -> & _). apply limited_passes in Hs as (? & ? & Hs & -> & _).
  apply CORS_passes in Hs as (? & ? & Hs & -> & _). apply LazyAuth_passes in Hs as (ctx & w' & Hs & Ha).
  exists out, ctx, w'. done.
Qed.

Lemma mux_served site path r ctx w h c :
  rs_reply (mux site path r ctx w).1 = Served h c ->
  exists rt, find_handler routes (rq_Method r) (rq_EscapedPath r) path = ToRoute rt /\ h = rt_handler rt /\ c = ctx /\
    Forall (fun g => guard_ok g ctx) (rt_guards rt).
Proof.
  unfold mux. destruct (find_handler _ _ _ _) as [rt|p|]; [|done|done]. intros (-> & -> & Hg)%guards_pass. by exists rt.
Qed.
End passing.

(** ** Who reaches which handler *)

(** The handlers that answer anyone. *)
Definition public_handlers : list string :=
  ["Healthz"; "Readyz"; "SetupStatusHandler"; "SetupHandler"; "LoginHandler"; "RefreshHandler"; "LogoutHandler";
   "PasswordResetRequestHandler"; "PasswordResetConfirmHandler"; "TOTPVerifyHandler"; "VerifyPairingHandler";
   "BootstrapHandler"; "NotFoundHandler"; "StaticHandler"].

(** The handlers of the server's operator. *)
Definition admin_handlers : list string :=
  ["CreateSourceHandler"; "ListSourcesHandler"; "GetSourceHandler"; "UpdateSourceHandler"; "DeleteSourceHandler";
   "HealthCheckSourceHandler"; "BrowseSourceHandler"; "SearchSourceHandler"; "InitiatePairingHandler";
   "PairingQRHandler"; "GetNetworkSettingsHandler"; "UpdateNetworkSettingsHandler"; "DeletePairingHandler";
   "DiagnosticsHandler"; "ActivityEventsHandler"; "ActivityPauseAllHandler"; "ActivityJobCancelHandler";
   "ActivityJobRetryHandler"; "ActivityClearCompletedHandler"].

(** The handlers a reader-content cookie opens. *)
Definition cookie_handlers : list string := ["ReaderContentHandler"; "NotFoundHandler"; "StaticHandler"].

Definition listed (h : string) (l : list string) : bool := existsb (String.eqb h) l.
Lemma listed_in h l : listed h l = true <-> h ∈ l.
Proof.
  unfold listed. rewrite existsb_exists, list_elem_of_In. split.
  - intros (x & Hx & ->%String.eqb_eq). done.
  - intros Hh. exists h. by rewrite String.eqb_refl.
Qed.

(** What is checked of each route of the table. *)
Definition route_segments (rt : route) : list segment := pt_segments (parsePattern (rt_pattern rt)).
Definition route_method (rt : route) : string := pt_method (parsePattern (rt_pattern rt)).
Definition asks_user (g : guard) : bool := match g with AdminOnly | IngestAuth | Syncing => true | _ => false end.
Definition private_pattern (p : list segment) : bool :=
  let L := literal_prefix p in
  if forallb is_literal p then negb (IsPublicPath L)
  else HasPrefix L "/api/v1/" && forallb (fun q => negb (HasPrefix q L)) publicAuthPaths.
Definition route_closed (rt : route) : bool :=
  listed (rt_handler rt) public_handlers || existsb asks_user (rt_guards rt) || private_pattern (route_segments rt).
Definition apart_from (E : string) (p : list segment) : bool :=
  let L := literal_prefix p in
  if forallb is_literal p then negb (HasPrefix L E) else negb (HasPrefix L E) && negb (HasPrefix E L).
Definition cookie_closed (rt : route) : bool :=
  listed (rt_handler rt) cookie_handlers || negb (listed (route_method rt) [""; "GET"; "HEAD"]) ||
  apart_from readerEditionsPrefix (route_segments rt).
Definition connect_public (rt : route) : bool :=
  negb (String.eqb (route_method rt) "CONNECT") &&
  (negb (String.eqb (route_method rt) "") || listed (rt_handler rt) public_handlers).

Lemma table_checked rt :
  rt ∈ routes ->
  route_closed rt = true /\ cookie_closed rt = true /\ connect_public rt = true /\
  (rt_handler rt ∈ admin_handlers -> AdminOnly ∈ rt_guards rt).
Proof.
  intros Hin.
  assert (Hall : forallb (fun rt => route_closed rt && cookie_closed rt && connect_public rt &&
    (negb (listed (rt_handler rt) admin_handlers) || bool_decide (AdminOnly ∈ rt_guards rt))) routes = true)
    by (vm_compute; reflexivity).
  rewrite forallb_forall in Hall. specialize (Hall rt). rewrite <- list_elem_of_In in Hall. specialize (Hall Hin).
  apply andb_true_iff in Hall as [[[H1 H2]%andb_true_iff H3]%andb_true_iff H4]. split; [done|]. split; [done|].
  split; [done|]. intros Ha%listed_in. rewrite Ha in H4. by apply bool_decide_eq_true in H4.
Qed.

Lemma prefix_trans a b c : HasPrefix (a +:+ b) c = true -> HasPrefix a c = true \/ HasPrefix c a = true.
Proof.
  unfold HasPrefix. revert c. induction a as [|x a IH]; intros c; [right; by destruct c|].
  destruct c as [|y c]; [by left|]. rewrite str_app_cons. cbn [String.prefix].
  destruct (ascii_dec y x) as [->|]; [|done]. destruct (ascii_dec x x); [|done]. apply IH.
Qed.

Lemma prefix_of_prefix a b c : HasPrefix a b = true -> HasPrefix b c = true -> HasPrefix a c = true.
Proof.
  intros (t & ->)%HasPrefix_Some (u & ->)%HasPrefix_Some. rewrite str_app_assoc. apply prefix_app.
Qed.

(** A path whose pattern is private is not public. *)
Lemma private_pattern_ok p tail :
  private_pattern p = true -> (forallb is_literal p = true -> tail = "") ->
  IsPublicPath (literal_prefix p +:+ tail) = false.
Proof.
  unfold private_pattern. cbv zeta. destruct (forallb is_literal p).
  - intros Hp%negb_true_iff Ht. rewrite (Ht eq_refl), str_app_nil_r. exact Hp.
  - intros [Hp Hq]%andb_true_iff _. set (L := literal_prefix p) in *.
    assert (Hpath : HasPrefix (L +:+ tail) "/api/v1/" = true) by (eapply prefix_of_prefix; [apply prefix_app|done]).
    assert (Hne : forall q, HasPrefix q "/api/v1/" = false -> String.eqb (L +:+ tail) q = false).
    { intros q Hf. apply String.eqb_neq. intros E. by rewrite <- E, Hpath in Hf. }
    unfold IsPublicPath. rewrite (Hne "/healthz"), (Hne "/readyz") by reflexivity. cbn [orb].
    replace (existsb _ publicAuthPaths) with false; [by rewrite Hpath|]. symmetry. apply not_true_is_false.
    rewrite existsb_exists. intros (q & Hin & Hq'%String.eqb_eq). rewrite forallb_forall in Hq. specialize (Hq q Hin).
    by rewrite <- Hq', prefix_app in Hq.
Qed.

Lemma find_handler_table m escaped path rt :
  find_handler routes m escaped path = ToRoute rt ->
  rt ∈ routes /\ serves_method (route_method rt) m.
Proof.
  unfold find_handler. destruct (_ && exactMatch _ _); [done|]. destruct (negb _); [done|].
  destruct (match_route routes m _) as [rt'|] eqn:E; [|done]. intros [= ->].
  apply match_route_sound in E as (Hin & Hs & _). done.
Qed.

(** On a public path only the public handlers, and those whose guards ask for a
    user, can be routed to. *)
Lemma public_path_route m escaped out rt :
  unescape (chars escaped) = Some out -> find_handler routes m escaped (text_of out) = ToRoute rt ->
  IsPublicPath (text_of out) = true -> listed (rt_handler rt) public_handlers || existsb asks_user (rt_guards rt) = true.
Proof.
  intros Hu Hf Hpub. pose proof (find_handler_table _ _ _ _ Hf) as [Hin Hm].
  destruct (table_checked rt Hin) as (Hc & _ & Hconn & _).
  unfold route_closed in Hc. destruct (listed (rt_handler rt) public_handlers) eqn:El; [done|]. cbn [orb] in Hc |- *.
  destruct (existsb asks_user (rt_guards rt)); [done|]. exfalso. cbn [orb] in Hc.
  destruct (String.eqb m "CONNECT") eqn:Em.
  - apply String.eqb_eq in Em as ->. unfold connect_public in Hconn. rewrite El, orb_false_r in Hconn.
    apply andb_true_iff in Hconn as [Hn%negb_true_iff He%negb_true_iff]. apply String.eqb_neq in Hn, He.
    destruct Hm as [Hm|[Hm|[Hm _]]]; done.
  - apply String.eqb_neq in Em. destruct (find_handler_sound _ _ _ _ Hu Em Hf) as (_ & _ & tail & Ht & Hlit).
    rewrite Ht in Hpub. by rewrite private_pattern_ok in Hpub.
Qed.

(** A reader-content cookie passes for the paths of the reader's content only,
    and to no handler but that of the content. *)
Lemma cookie_route m escaped out rt id :
  unescape (chars escaped) = Some out -> find_handler routes m escaped (text_of out) = ToRoute rt ->
  m = "GET" \/ m = "HEAD" -> readerContentEditionFromPath (text_of out) = Some id ->
  rt_handler rt ∈ cookie_handlers.
Proof.
  intros Hu Hf Hm Hid. assert (Hc : m <> "CONNECT") by (by destruct Hm as [-> | ->]).
  destruct (find_handler_sound _ _ _ _ Hu Hc Hf) as (Hin & Hs & tail & Ht & Hlit). fold (route_method rt) in Hs.
  fold (route_segments rt) in Ht, Hlit. destruct (table_checked rt Hin) as (_ & Hcc & _ & _).
  apply listed_in. unfold cookie_closed in Hcc. destruct (listed _ cookie_handlers); [done|]. cbn [orb] in Hcc.
  assert (Hpre : HasPrefix (text_of out) readerEditionsPrefix = true).
  { unfold readerContentEditionFromPath in Hid. destruct (CutPrefix _ _) as [rest|] eqn:Ec; [|done].
    apply CutPrefix_Some in Ec. rewrite Ec. apply prefix_app. }
  assert (Hmeth : listed (route_method rt) [""; "GET"; "HEAD"] = true).
  { apply listed_in. destruct Hs as [-> | [-> | [_ ->]]]; [destruct Hm as [-> | ->]| |];
      repeat (apply list_elem_of_here || apply list_elem_of_further). }
  rewrite Hmeth in Hcc. cbn [negb orb] in Hcc. unfold apart_from in Hcc. cbv zeta in Hcc.
  rewrite Ht in Hpre. destruct (forallb is_literal _).
  - rewrite (Hlit eq_refl), str_app_nil_r in Hpre. by rewrite Hpre in Hcc.
  - apply andb_true_iff in Hcc as [H1 H2]. apply prefix_trans in Hpre as [E|E]; rewrite E in *; done.
Qed.

Lemma cookie_context `{TokenPrimitives} signer grants now ctx path m lib cookie ctx' :
  AuthMiddlewareWithReaderGrants signer grants now ctx (Access.mkRequest path m "" lib cookie) = Next ctx' ->
  IsPublicPath path = false ->
  (m = "GET" \/ m = "HEAD") /\ exists id, readerContentEditionFromPath path = Some id.
Proof.
  unfold AuthMiddlewareWithReaderGrants. cbn [r_path r_authorization r_method]. intros Ha Hp. rewrite Hp in Ha.
  cbv zeta in Ha. destruct grants as [g|]; [|done]. cbn [String.eqb] in Ha.
  destruct (readerContentGrantContext _ _ _) as [c|] eqn:Eg; [|done].
  unfold readerContentGrantContext in Eg. cbn [r_method r_path] in Eg.
  destruct (negb (String.eqb m "GET") && negb (String.eqb m "HEAD")) eqn:Em; [done|].
  destruct (readerContentEditionFromPath path) as [id|]; [|done]. split; [|by exists id].
  apply andb_false_iff in Em as [E%negb_false_iff%String.eqb_eq|E%negb_false_iff%String.eqb_eq]; auto.
Qed.

(** C6: which handlers a request reaches, through the whole chain of
    middleware and whatever its method and the escapes in its path are.  A
    handler runs either without a user, and then it is one of the public
    handlers; or with the context the authentication middleware made of a
    verified token or cookie.  The operator's handlers run only for a user
    whose verified role is administrator; and a request without an
    Authorization header that is not public, one let in by a reader-content
    cookie, reaches no handler but that of the reader's content, or those that
    answer what has no route. *)
Theorem endpoints_guarded `{CaseTables} `{FoldTable} `{Urls} `{NetipText} `{TokenPrimitives} `{Limiter} site r w h ctx :
  rs_reply (serve site r w).1 = Served h ctx ->
  (h ∈ admin_handlers -> exists user, ctx_user ctx = Some user /\ au_Role user = RoleAdmin) /\
  ((ctx = no_context /\ h ∈ public_handlers) \/
   (exists path signer grants, unescape (chars (rq_EscapedPath r)) = Some (chars path) /\
      IsPublicPath path = false /\ s_auth site = Some (signer, grants) /\
      AuthMiddlewareWithReaderGrants signer grants (s_now site) no_context (auth_request path r) = Next ctx /\
      (rq_Header r "Authorization" = "" -> h ∈ cookie_handlers))).
Proof.
  intros (out & c & w' & Hu & Ha & Hs)%serve_passes.
  apply mux_served in Hs as (rt & Hf & -> & -> & Hg). pose proof (find_handler_table _ _ _ _ Hf) as [Hin _].
  rewrite Forall_forall in Hg. destruct (table_checked rt Hin) as (_ & _ & _ & Hadm). split.
  { intros Hh. by apply (Hg AdminOnly), Hadm. }
  destruct Ha as [[Hp ->]|(Hp & signer & grants & Hauth & Hn)].
  - left. split; [done|]. pose proof (public_path_route _ _ _ _ Hu Hf Hp) as Hr.
    apply orb_true_iff in Hr as [Hr%listed_in|Hr]; [done|]. exfalso. apply existsb_exists in Hr as (g & Hgin & Hga).
    apply list_elem_of_In, Hg in Hgin. destruct g; try done. by destruct Hgin as (u & ? & _).
  - right. exists (text_of out), signer, grants. rewrite chars_text. do 4 (split; [done|]). intros Hz.
    unfold auth_request in Hn. rewrite Hz in Hn. destruct (cookie_context _ _ _ _ _ _ _ _ _ Hn Hp) as [Hm [id Hid]].
    by eapply cookie_route.
Qed.

(** ** What every response carries *)

Section responses.
Context `{CaseTables} `{FoldTable} `{Urls} `{NetipText} `{TokenPrimitives} `{Limiter}.


Lemma limited_header get set applies site path next r ctx w x :
  x ∈ rs_Header (limited get set applies site path next r ctx w).1 ->
  exists w', x ∈ rs_Header (next r ctx w').1.
Proof.
  unfold limited. destruct (PublicRateLimit _ _ _ _ _) as [[] l]; [eauto|]. cbn. by intros ?%not_elem_of_nil.
Qed.

Lemma limiter_header get set applies site path next r ctx w name v :
  (forall w', (name, v) ∉ rs_Header (next r ctx w').1) ->
  (name, v) ∉ rs_Header (limited get set applies site path next r ctx w).1.
Proof. intros Hn [w' Hw]%limited_header. by apply (Hn w'). Qed.






End responses.








(** ** A run *)

Module RouterDemo.
#[local] Existing Instance demo_primitives.
#[local] Instance demo_fold : FoldTable := fun r => r.
#[local] Instance demo_urls : Urls := {| url_Parse _ := None; url_Resolve _ ref := ref; url_QueryEscape q := q |}.
#[local] Instance demo_netip : NetipText :=
  {| ParseAddr _ := None; ParsePrefix s := inr (New s); addr_text _ := ""; prefix_text _ := "" |}.
#[local] Instance demo_limiter : Limiter := {| bucket := unit; NewLimiter := tt; bucket_Allow _ b := (true, b) |}.

Definition demo_admin_claims : Claims :=
  mkClaims "u1" "ada" RoleAdmin [DefaultLibraryID] "j" 0 900 "alx" TokenTypeAccess.
Definition demo_site : Site :=
  mkSite None 1000 true ["https://books.example.org"] ["https://books.example.org"] None (Some (demo_signer, None))
    true (fun _ => None) 0.
Definition demo_world : World :=
  mkWorld (mkAuthDb ∅ ∅ ∅ ∅ ∅ ∅ ∅ ∅ None (mkPairingDb ∅ ∅ ∅ ∅))
    (NewIPRateLimiter 0) (NewIPRateLimiter 0) (NewIPRateLimiter 0).
Definition demo_get (path : string) (bearer : option Claims) : Request :=
  Edge.mkRequest "GET" path path "books.example.org" "10.0.0.7:40000" true 0
    (fun name => if String.eqb name "Authorization"
                 then match bearer with Some c => "Bearer " +:+ Sign demo_signer c | None => "" end else "")
    (fun _ => None).

Definition served_as (r : Request) : option (string * context) :=
  match rs_reply (serve demo_site r demo_world).1 with Served h c => Some (h, c) | _ => None end.

Lemma served_as_ok r h c : served_as r = Some (h, c) -> rs_reply (serve demo_site r demo_world).1 = Served h c.
Proof. unfold served_as. destruct (rs_reply _); [|done..]. by intros [= -> ->]. Qed.

Definition demo_list : Request := demo_get "/api/v1/sources" (Some demo_admin_claims).
Lemma demo_list_served : exists ctx, served_as demo_list = Some ("ListSourcesHandler", ctx).
Proof.
  assert (fst <$> served_as demo_list = Some "ListSourcesHandler") as Hs by (vm_compute; reflexivity).
  destruct (served_as demo_list) as [[h ctx]|]; [|discriminate Hs]. injection Hs as ->. by exists ctx.
Qed.

(** An administrator's token opens the list of sources, and another's, or none
    at all, does not. *)
Lemma endpoints_guarded_witness :
  exists ctx, served_as demo_list = Some ("ListSourcesHandler", ctx) /\
    exists user, ctx_user ctx = Some user /\ au_Role user = RoleAdmin.
Proof.
  destruct demo_list_served as [ctx E]. exists ctx. split; [exact E|].
  apply (endpoints_guarded demo_site demo_list demo_world "ListSourcesHandler" ctx (served_as_ok _ _ _ E)).
  apply listed_in. reflexivity.
Defined.

Example demo_refusals :
  served_as (demo_get "/api/v1/sources" None) = None /\
  served_as (demo_get "/api/v1/sources" (Some demo_claims)) = None /\
  fst <$> served_as (demo_get "/api%2Fv1/sources" (Some demo_claims)) = Some "StaticHandler" /\
  fst <$> served_as (demo_get "/healthz" None) = Some "Healthz".
Proof. vm_compute. done. Qed.
End RouterDemo.
