(* ===== verification/Observability.v ===== *)
(** * Events and metrics (src/internal/observability: events.go, store.go,
      reaper.go, metrics.go; src/internal/transport/http/activity.go)

    What an event may say, the table of events, the histogram of latencies,
    and the handlers of the activity page.  What Unicode says of a rune beyond
    ASCII and the JSON text of a payload are classes.  The second half says
    which keys of a payload of maps and lists are removed and what of it is
    kept, that a library reads its own events and the host's, that expired ones
    are removed, and that the histogram accounts for every request within a
    bounded memory. *)

From Stdlib Require Import SpecFloat Sorted.
From stdpp Require Import sorting.
From S2P Require Import Prelude GoStrings Errors Postgres Http Floats Jobs Access.

Local Open Scope string_scope.
Local Open Scope list_scope.
Local Open Scope Z_scope.

(** ** Keys (events.go) *)

(** [unicode.IsLetter], [IsDigit], [IsUpper] and [IsLower] beyond ASCII. *)
Class RuneKinds := {
  letter_tbl : Z -> bool;
  digit_tbl : Z -> bool;
  upper_kind_tbl : Z -> bool;
  lower_kind_tbl : Z -> bool;
}.

Section keys.
Context `{CaseTables} `{RuneKinds}.

Definition IsUpper (r : Z) : bool := if r <? 128 then between 65 r 90 else upper_kind_tbl r.
Definition IsLower (r : Z) : bool := if r <? 128 then between 97 r 122 else lower_kind_tbl r.
Definition IsLetter (r : Z) : bool := if r <? 128 then between 65 r 90 || between 97 r 122 else letter_tbl r.
Definition IsDigit (r : Z) : bool := if r <? 128 then between 48 r 57 else digit_tbl r.

Definition prohibitedPayloadKeys : list string :=
  ["password"; "passwd"; "token"; "secret"; "apikey"; "api_key"; "authorization"; "position"; "cfi"; "location";
   "percentage"; "pct"; "chapter"; "note"].

Definition isKeySeparator (r : Z) : bool := negb (IsLetter r) && negb (IsDigit r).

(** [strings.Map] that drops the separators. *)
Definition without_separators (s : string) : string :=
  cat ((fun c => (c.1, encode_rune c.1)) <$> List.filter (fun c => negb (isKeySeparator c.1)) (chunks s)).

(** The loop over the runes of the key: the word so far, the rune before. *)
Fixpoint key_words (first : bool) (prev : Z) (word : string) (rs : list Z) : list string :=
  let flush := if String.eqb word "" then [] else [word] in
  match rs with
  | [] => flush
  | r :: rs' =>
      if isKeySeparator r then flush ++ key_words false r "" rs'
      else if negb first && IsUpper r && (IsLower prev || IsDigit prev)
      then flush ++ key_words false r (encode_rune (lower_rune r)) rs'
      else key_words false r (word +:+ encode_rune (lower_rune r)) rs'
  end.
Definition keyForms (key : string) : list string :=
  without_separators (ToLower key) :: key_words true 0 "" (runes key).

Definition isProhibitedKey (key : string) : bool :=
  existsb (fun form => existsb (String.eqb form) (List.map ToLower prohibitedPayloadKeys)) (keyForms key).
End keys.

(** ** Payloads (events.go)

    A map is the list of its entries.  A value of another type than
    [map[string]any] and [[]any] that has parts of its own (a struct, a
    [map[string]string], a [[]map[string]any]) is the tree [json.Marshal] makes
    of it. *)
#[local] Set Warnings "-register-all".
Inductive payload_value :=
| PMap (entries : list (string * payload_value))
| PList (l : list payload_value)
| PTyped (json : payload_value)
| PText (s : string)
| POther (text : string).

Section payloads.
Context `{CaseTables} `{RuneKinds}.

Fixpoint sanitizeValue (v : payload_value) : payload_value :=
  match v with
  | PMap entries =>
      PMap ((fix go l := match l with
                         | [] => []
                         | (k, v) :: l' => if isProhibitedKey k then go l' else (k, sanitizeValue v) :: go l'
                         end) entries)
  | PList l => PList (List.map sanitizeValue l)
  | v => v
  end.

(** A nil payload is empty. *)
Definition SanitizedPayload (payload : option (list (string * payload_value))) : payload_value :=
  match payload with
  | None => PMap []
  | Some m => sanitizeValue (PMap m)
  end.
End payloads.

(** ** The table of events (store.go, reaper.go) *)

Record SystemEvent := mkSystemEvent {
  ev_Kind : string;
  ev_JobID : option string;
  ev_LibraryID : option string;
  ev_UserID : option string;
  ev_Payload : payload_value;
  ev_CreatedAt : Time;
  ev_PurgeAt : Time;
}.

Record NewSystemEvent := mkNewSystemEvent {
  ne_EventKind : string;
  ne_JobID : option string;
  ne_LibraryID : option string;
  ne_UserID : option string;
  ne_Payload : option (list (string * payload_value));
  ne_RetentionDays : Z;
}.

Definition DefaultRetentionDays : Z := 30.
Definition CalculatePurgeAt (e : NewSystemEvent) (now : Time) : Time :=
  let days := if ne_RetentionDays e <=? 0 then DefaultRetentionDays else ne_RetentionDays e in
  Add now (wrap64 (days * 24 * Hour)).

(** The rows by their number, the number of the next, and the rows the foreign
    keys refer to. *)
Record events_db := mkEventsDb {
  events : gmap Z SystemEvent;
  next_event : Z;
  known_reference : string -> string -> bool;
}.
Definition with_events (t : gmap Z SystemEvent) (db : events_db) : events_db :=
  mkEventsDb t (next_event db) (known_reference db).

(** [json.Marshal] of a payload, whose [None] is its error, and what reading
    the column back gives: an empty map when it is no map. *)
Class PayloadJSON := {
  payload_text : payload_value -> option string;
  payload_of : string -> payload_value;
}.

Section events.
Context `{CaseTables} `{RuneKinds} `{PayloadJSON}.

Definition reference_ok (db : events_db) (table : string) (id : option string) : bool :=
  match id with None => true | Some id => known_reference db table id end.

(** The statements of this store return the driver's errors as they are. *)
Definition RecordEvent (fault : option pg_error) (now : Time) (ev : NewSystemEvent) : stM events_db error unit :=
  fun db =>
  match payload_text (SanitizedPayload (ne_Payload ev)) with
  | None => (Err (New "json: unsupported value"), db)
  | Some text =>
      match fault with
      | Some e => (Err (pg_err e), db)
      | None =>
          if reference_ok db "jobs" (ne_JobID ev) && reference_ok db "libraries" (ne_LibraryID ev) &&
             reference_ok db "users" (ne_UserID ev)
          then
            let row := mkSystemEvent (ne_EventKind ev) (ne_JobID ev) (ne_LibraryID ev) (ne_UserID ev)
                         (payload_of text) now (CalculatePurgeAt ev now) in
            (Ok tt, mkEventsDb (<[next_event db := row]> (events db)) (next_event db + 1) (known_reference db))
          else (Err (pg_err foreign_key_violation), db)
      end
  end.

Definition newest_first (a b : Z * SystemEvent) : bool := ev_CreatedAt b.2 <=? ev_CreatedAt a.2.
Definition visible_to (libraryID : option string) (e : SystemEvent) : bool :=
  match libraryID, ev_LibraryID e with
  | _, None => true
  | Some lib, Some l => String.eqb l lib
  | None, Some _ => false
  end.

Definition ListEvents (fault : option pg_error) (libraryID : option string) (limit : Z)
    : stM events_db error (list (Z * SystemEvent)) := fun db =>
  let limit := if limit <=? 0 then 50 else limit in
  let limit := if 100 <? limit then 100 else limit in
  let libraryID := match libraryID with Some "" => None | l => l end in
  match fault with
  | Some e => (Err (pg_err e), db)
  | None =>
      (Ok (take (Z.to_nat limit)
             (sort_by newest_first (List.filter (fun e => visible_to libraryID e.2) (map_to_list (events db))))), db)
  end.

Definition PurgeExpired (fault : option pg_error) (now : Time) : stM events_db error Z := fun db =>
  match fault with
  | Some e => (Err (pg_err e), db)
  | None =>
      let kept := filter (fun ie : Z * SystemEvent => ~ (ev_PurgeAt ie.2 < now)) (events db) in
      (Ok (Z.of_nat (size (events db)) - Z.of_nat (size kept)), with_events kept db)
  end.

(** ** The activity page (activity.go)

    [ready] is whether the store or the queue is set. *)
Definition activity_limit (qLimit : string) : Z :=
  let limit := if String.eqb qLimit "" then 50
               else match Atoi qLimit with Some n => if 0 <? n then n else 50 | None => 50 end in
  if 100 <? limit then 100 else limit.

Definition ActivityEventsHandler (ready : bool) (fault : option pg_error) (qLimit : string) (ctx : context)
    : stM events_db http_error (list (Z * SystemEvent)) :=
  if negb ready then throw (HTTPError Unavailable "event store not ready")
  else
    let activeLib := ActiveLibraryFromContext ctx in
    or_fail (ListEvents fault (if String.eqb activeLib "" then None else Some activeLib) (activity_limit qLimit))
      (fun _ => HTTPError Internal "failed to query system events").
End events.

(** The error of a queue: a domain error, found anywhere in the chain, is the
    response. *)
Fixpoint as_domain (e : error) : option http_error :=
  match e with
  | DomainError c m _ => Some (HTTPError c m)
  | PermanentError e' => as_domain e'
  | Errorf _ e' => as_domain e'
  | New _ => None
  end.
Definition queue_error (msg : string) (e : error) : http_error := default (HTTPError Internal msg) (as_domain e).

Record job_world := mkJobWorld { jw_jobs : jobs_table; jw_live : liveJobs; jw_paused : bool }.

Definition ActivityPauseAllHandler (system : bool) (w : job_world) : job_world :=
  if system then mkJobWorld (jw_jobs w) (jw_live w) true else w.

(** The second component is whether a handler of this process was aborted. *)
Definition ActivityJobCancelHandler (ready : bool) (id : string) (now : Time) : stM job_world http_error bool := fun w =>
  if negb ready then (Err (HTTPError Unavailable "job queue not ready"), w)
  else if String.eqb id "" then (Err (HTTPError InvalidInput "job id required"), w)
  else match QueueCancelJob id now (jw_live w) (jw_jobs w) with
  | Ok (aborted, t) => (Ok aborted, mkJobWorld t (jw_live w) (jw_paused w))
  | Err e => (Err (queue_error "failed to cancel job" e), w)
  | OutOfFuel => (Err Panicked, w)
  end.

Definition ActivityJobRetryHandler (ready : bool) (id newID : string) (now : Time) : stM job_world http_error string :=
  fun w =>
  if negb ready then (Err (HTTPError Unavailable "job queue not ready"), w)
  else if String.eqb id "" then (Err (HTTPError InvalidInput "job id required"), w)
  else match RetryJob id newID now (jw_jobs w) with
  | Ok (newID, t) => (Ok newID, mkJobWorld t (jw_live w) (jw_paused w))
  | Err e => (Err (queue_error "failed to retry job" e), w)
  | OutOfFuel => (Err Panicked, w)
  end.

Definition ActivityClearCompletedHandler (ready : bool) (now : Time) : stM job_world http_error Z := fun w =>
  if negb ready then (Err (HTTPError Unavailable "job queue not ready"), w)
  else
    let '(n, t) := ClearCompleted (Add now (- Hour)) (jw_jobs w) in
    (Ok n, mkJobWorld t (jw_live w) (jw_paused w)).

(** ** Latencies (metrics.go) *)

Definition f64_div (x y : float64) : float64 := SFdiv 53 1024 x y.
Definition f64_add (x y : float64) : float64 := SFadd 53 1024 x y.
Definition f64_mul (x y : float64) : float64 := SFmul 53 1024 x y.

(** The bounds of the buckets, in milliseconds. *)
Definition DefaultLatencyBuckets : list float64 :=
  f64_of_Z 1 :: f64_div (f64_of_Z 5) (f64_of_Z 2) ::
  (f64_of_Z <$> [5; 10; 25; 50; 100; 250; 500; 1000; 2500; 5000; 10000]).

Record LatencyHistogram := mkHistogram {
  counts : list Z;
  overflow : Z;
  samples : list float64;
  count : Z;
  sumMS : float64;
}.
Definition NewLatencyHistogram : LatencyHistogram :=
  mkHistogram (replicate (length DefaultLatencyBuckets) 0) 0 [] 0 f64_zero.

(** The index of the first bound that is not below. *)
Fixpoint bucket_of (ms : float64) (i : nat) (bounds : list float64) : option nat :=
  match bounds with
  | [] => None
  | b :: bounds' => if SFleb ms b then Some i else bucket_of ms (S i) bounds'
  end.

Definition maxSamples : Z := 2048.
Definition Observe (d : Duration) (h : LatencyHistogram) : LatencyHistogram :=
  let ms := f64_div (f64_of_Z (Z.quot d 1000)) (f64_of_Z 1000) in
  let count := count h + 1 in
  let '(counts, overflow) :=
    match bucket_of ms 0 DefaultLatencyBuckets with
    | Some i => (alter (Z.add 1) i (counts h), overflow h)
    | None => (counts h, overflow h + 1)
    end in
  let n := Z.of_nat (length (samples h)) in
  let samples := if n <? maxSamples then samples h ++ [ms]
                 else <[Z.to_nat (Z.rem count n) := ms]> (samples h) in
  mkHistogram counts overflow samples count (f64_add (sumMS h) ms).

(** The index of a quantile among [n] sorted samples, by the conversion of a
    float to an [int]. *)
Definition percentile_index (n : Z) (p : float64) : Z := f64_trunc (f64_mul (f64_of_Z (n - 1)) p).

(** [Registry.ObserveRequest]. *)
Definition ObserveRequest (route : string) (d : Duration) (routes : gmap string LatencyHistogram)
    : gmap string LatencyHistogram :=
  <[route := Observe d (default NewLatencyHistogram (routes !! route))]> routes.

(** ** Payloads *)

Section payloads.
Context `{CaseTables} `{RuneKinds}.

(** An induction principle with hypotheses for the values inside. *)
Fixpoint payload_value_nested (P : payload_value -> Prop)
    (Hmap : forall l, Forall (fun kv => P kv.2) l -> P (PMap l))
    (Hlist : forall l, Forall P l -> P (PList l))
    (Htyped : forall v, P v -> P (PTyped v))
    (Htext : forall s, P (PText s)) (Hother : forall t, P (POther t)) (v : payload_value) : P v :=
  let IH := payload_value_nested P Hmap Hlist Htyped Htext Hother in
  match v with
  | PMap l => Hmap l ((fix go l : Forall (fun kv => P kv.2) l :=
      match l with
      | [] => List.Forall_nil _
      | kv :: l' => List.Forall_cons _ kv l' (IH kv.2) (go l')
      end) l)
  | PList l => Hlist l ((fix go l : Forall P l :=
      match l with [] => List.Forall_nil _ | v :: l' => List.Forall_cons _ v l' (IH v) (go l') end) l)
  | PTyped v => Htyped v (IH v)
  | PText s => Htext s
  | POther t => Hother t
  end.

(** *** What a key says *)

(** The keys the policy is about, and what makes a key one of them: a word of
    it, or all of it but its separators.  A word is a stretch of letters and
    digits, in lower case or upper, that ends where a separator does or where
    an upper-case letter follows a lower-case one or a digit. *)
Definition secret_words : list string :=
  ["password"; "passwd"; "token"; "secret"; "apikey"; "api_key"; "authorization"; "position"; "cfi"; "location";
   "percentage"; "pct"; "chapter"; "note"].

Fixpoint spelled (l : list Z) : string := match l with [] => "" | r :: l' => encode_rune r +:+ spelled l' end.
Definition separates (r : Z) : Prop := IsLetter r = false /\ IsDigit r = false.
Definition hump (a b : Z) : Prop := IsUpper b = true /\ (IsLower a = true \/ IsDigit a = true).

(** No separator in it and no hump between two of its runes. *)
Definition one_word (w : list Z) : Prop :=
  w <> [] /\ Forall (fun r => ~ separates r) w /\ forall x a b y, w = x ++ a :: b :: y -> ~ hump a b.
(** The text may be cut between [a] and [b]. *)
Definition cut (a b : Z) : Prop := separates a \/ separates b \/ hump a b.
Definition word_of (w l : list Z) : Prop :=
  exists before after, l = before ++ w ++ after /\ one_word w /\
    (forall x a, before = x ++ [a] -> exists b y, w = b :: y /\ cut a b) /\
    (forall b y, after = b :: y -> exists x a, w = x ++ [a] /\ cut a b).

Definition letters_only (l : list Z) : list Z := List.filter (fun r => IsLetter r || IsDigit r) l.
Definition secret_key (key : string) : Prop :=
  (exists w, word_of w (runes key) /\ spelled (lower_rune <$> w) ∈ secret_words) \/
  spelled (letters_only (runes (ToLower key))) ∈ secret_words.

(** The words the loop over a key finds, [u] the one it is in. *)
Fixpoint raw_words (u rs : list Z) : list (list Z) :=
  let flush := match u with [] => [] | _ => [u] end in
  match rs with
  | [] => flush
  | r :: rs' =>
      if isKeySeparator r then flush ++ raw_words [] rs'
      else if match last u with Some p => IsUpper r && (IsLower p || IsDigit p) | None => false end
      then u :: raw_words [r] rs'
      else raw_words (u ++ [r]) rs'
  end.

Lemma separates_spec r : isKeySeparator r = true <-> separates r.
Proof. unfold isKeySeparator, separates. by rewrite andb_true_iff, !negb_true_iff. Qed.
Lemma hump_spec a b : IsUpper b && (IsLower a || IsDigit a) = true <-> hump a b.
Proof. unfold hump. by rewrite andb_true_iff, orb_true_iff. Qed.

Lemma spelled_app l k : spelled (l ++ k) = spelled l +:+ spelled k.
Proof. induction l as [|r l IH]; [done|]. cbn. by rewrite IH, str_app_assoc. Qed.

Lemma encode_rune_nonempty r : encode_rune r <> "".
Proof. unfold encode_rune. cbv zeta. by repeat case_match. Qed.

Lemma spelled_empty l : String.eqb (spelled l) "" = match l with [] => true | _ => false end.
Proof.
  destruct l as [|r l]; [done|]. cbn. destruct (encode_rune r) as [|c e] eqn:E; [|done].
  exfalso. by apply encode_rune_nonempty in E.
Qed.

Lemma key_words_raw first prev u rs :
  (u <> [] -> first = false /\ last u = Some prev) -> (first = false -> u = [] -> separates prev) ->
  key_words first prev (spelled (lower_rune <$> u)) rs = (fun w => spelled (lower_rune <$> w)) <$> raw_words u rs.
Proof.
  revert first prev u. induction rs as [|r rs IH]; intros first prev u Hu Hp; cbn [key_words raw_words].
  { rewrite spelled_empty. by destruct u. }
  rewrite spelled_empty. destruct (isKeySeparator r) eqn:Es.
  - rewrite fmap_app. rewrite <- (IH false r []); [by destruct u|done|]. intros _ _. by apply separates_spec.
  - assert (Hjoin : key_words false r (spelled (lower_rune <$> u) +:+ encode_rune (lower_rune r)) rs =
      (fun w => spelled (lower_rune <$> w)) <$> raw_words (u ++ [r]) rs).
    { rewrite <- (IH false r (u ++ [r])).
      - rewrite fmap_app, spelled_app. cbn. by rewrite str_app_nil_r.
      - intros _. split; [done|]. by rewrite last_snoc.
      - intros _ E. by destruct u. }
    destruct u as [|x u].
    + cbn [last fmap list_fmap spelled] in *. rewrite <- Hjoin.
      destruct (_ && _); [|done]. cbn [app]. by rewrite str_app_nil_l.
    + destruct Hu as [-> Hl]; [done|]. rewrite Hl. cbn [negb andb]. destruct (IsUpper r && _) eqn:Eh; [|exact Hjoin].
      rewrite (fmap_cons (fun w => spelled (lower_rune <$> w)) (x :: u)), <- (IH false r [r]); [|done|done].
      cbn. by rewrite str_app_nil_r.
Qed.

(** A word does not go across a cut. *)
Definition cut_between (u v : list Z) : Prop := forall x a b y, u = x ++ [a] -> v = b :: y -> cut a b.

Lemma word_at_cut u v w before after :
  u ++ v = before ++ w ++ after -> one_word w -> cut_between u v ->
  (exists k, before = u ++ k /\ v = k ++ w ++ after) \/ (exists k, after = k ++ v /\ u = before ++ w ++ k).
Proof.
  intros E (Hw & Hn & Hh) Hcut. apply app_eq_inv in E as [(k & -> & E)|(k & -> & ->)]; [|left; by exists k].
  apply app_eq_inv in E as [(k' & -> & ->)|(k' & -> & ->)]; [|right; by exists k'].
  destruct k as [|a x _] using rev_ind; [left; exists []; by rewrite !app_nil_r|].
  destruct k' as [|b y]; [right; exists []; by rewrite !app_nil_r|]. exfalso.
  assert (Hab : cut a b) by (by apply (Hcut (before ++ x) a b (y ++ after)); rewrite ?app_assoc).
  rewrite <- app_assoc in Hn, Hh. cbn [app] in Hn, Hh. rewrite Forall_app, !Forall_cons in Hn. destruct Hn as (_ & Ha & Hb & _).
  destruct Hab as [?|[?|Hhump]]; [done|done|]. by apply (Hh x a b y).
Qed.

Lemma words_cut u v w : cut_between u v -> word_of w (u ++ v) <-> word_of w u \/ word_of w v.
Proof.
  intros Hcut. split.
  - intros (before & after & E & Hw & Hl & Hr).
    destruct (word_at_cut u v w before after E Hw Hcut) as [(k & -> & ->)|(k & -> & ->)]; [right|left].
    + exists k, after. split_and!; try done. intros x a ->. apply (Hl (u ++ x) a). by rewrite app_assoc.
    + exists before, k. split_and!; try done. intros b y ->. by apply (Hr b (y ++ v)).
  - intros [(before & after & -> & Hw & Hl & Hr)|(before & after & -> & Hw & Hl & Hr)].
    + exists before, (after ++ v). split_and!; [by rewrite <- !app_assoc|done|done|].
      intros b y E. destruct after as [|c after]; [|cbn in E; injection E as -> <-; by eapply Hr].
      destruct w as [|a x _] using rev_ind; [by destruct Hw|]. exists x, a. split; [done|].
      apply (Hcut (before ++ x) a b y); [by rewrite app_nil_r, app_assoc|exact E].
    + exists (u ++ before), after. split_and!; [by rewrite <- !app_assoc|done| |done].
      intros x a E. destruct before as [|c before _] using rev_ind.
      * destruct w as [|b y]; [by destruct Hw|]. exists b, y. split; [done|]. rewrite app_nil_r in E.
        by apply (Hcut x a b (y ++ after)).
      * rewrite app_assoc in E. apply app_inj_tail in E as [_ ->]. by eapply Hl.
Qed.

Lemma whole_word u w :
  Forall (fun r => ~ separates r) u -> (forall x a b y, u = x ++ a :: b :: y -> ~ hump a b) ->
  word_of w u <-> u <> [] /\ w = u.
Proof.
  intros Hn Hh. split.
  - intros (before & after & E & Hw & Hl & Hr).
    assert (Hcut : forall x a b y, u = x ++ a :: b :: y -> ~ cut a b).
    { intros x a b y Eu. rewrite Eu, Forall_app, !Forall_cons in Hn. destruct Hn as (_ & Ha & Hb & _).
      intros [?|[?|?]]; [done|done|]. by eapply Hh. }
    assert (before = []) as ->.
    { destruct before as [|a x _] using rev_ind; [done|]. destruct (Hl x a eq_refl) as (b & y & -> & Hc).
      destruct (Hcut x a b (y ++ after)); [|done]. by rewrite E, <- app_assoc. }
    assert (after = []) as ->.
    { destruct after as [|b y]; [done|]. destruct (Hr b y eq_refl) as (x & a & -> & Hc).
      destruct (Hcut x a b y); [|done]. by rewrite E, <- app_assoc. }
    cbn in E. rewrite app_nil_r in E. subst u. split; [apply Hw|done].
  - intros [Hne ->]. exists [], []. split_and!; [by rewrite app_nil_r|by split| |done].
    intros x a E. by destruct x.
Qed.

Lemma raw_words_spec u rs w :
  Forall (fun r => ~ separates r) u -> (forall x a b y, u = x ++ a :: b :: y -> ~ hump a b) ->
  w ∈ raw_words u rs <-> word_of w (u ++ rs).
Proof.
  revert u. induction rs as [|r rs IH]; intros u Hn Hh; cbn [raw_words].
  { rewrite app_nil_r, whole_word by done. destruct u; [rewrite elem_of_nil|rewrite list_elem_of_singleton]; naive_solver. }
  assert (Hflush : w ∈ (match u with [] => [] | _ => [u] end : list (list Z)) <-> word_of w u).
  { rewrite whole_word by done. destruct u; [rewrite elem_of_nil|rewrite list_elem_of_singleton]; naive_solver. }
  destruct (isKeySeparator r) eqn:Es.
  - apply separates_spec in Es. rewrite elem_of_app, Hflush, (IH []) by (constructor || (intros [|? [|]] *; discriminate)).
    rewrite (words_cut u (r :: rs)) by (intros x a b y _ [= <- _]; right; by left).
    rewrite (words_cut [r] rs) by (intros x a b y E _; destruct x as [|? [|]]; cbn in E; [injection E as <-; by left|discriminate..]).
    cbn [app].
    assert (~ word_of w [r]); [|tauto]. intros (before & after & E & (Hw & Hs & _) & _).
    destruct w as [|c w]; [done|]. apply Forall_cons in Hs as [Hc _].
    destruct before as [|? [|]]; cbn in E; [injection E as -> _; done|discriminate..].
  - assert (Hr : ~ separates r) by (by rewrite <- separates_spec, Es).
    destruct (match last u with Some p => _ | None => _ end) eqn:Eh.
    + destruct (last u) as [p|] eqn:El; [|done]. apply hump_spec in Eh. apply last_Some in El as [x ->].
      rewrite elem_of_cons, (IH [r]); [|by repeat constructor|by intros [|? [|]] *; discriminate].
      rewrite (words_cut (x ++ [p]) (r :: rs)), (whole_word (x ++ [p])) by
        (done || (intros x' a b y E [= <- _]; apply app_inj_tail in E as [_ ->]; by right; right)).
      cbn [app]. split; [|naive_solver]. intros [->|?]; [left|by right]. split; [|done]. by destruct x.
    + rewrite IH; [by rewrite <- app_assoc|by apply Forall_app; repeat constructor|].
      intros x a b y E Hab. destruct y as [|c y _] using rev_ind.
      * assert (u ++ [r] = (x ++ [a]) ++ [b]) as E' by (by rewrite E, <- app_assoc). apply app_inj_tail in E' as [-> ->].
        rewrite last_snoc in Eh. apply hump_spec in Hab. congruence.
      * assert (u ++ [r] = (x ++ a :: b :: y) ++ [c]) as E' by (by rewrite E, <- app_assoc).
        apply app_inj_tail in E' as [-> _]. by eapply Hh.
Qed.

(** [isProhibitedKey] finds the keys the policy is about. *)
Lemma isProhibitedKey_spec key : isProhibitedKey key = true <-> secret_key key.
Proof.
  assert (Hset : forall form, existsb (String.eqb form) (List.map ToLower prohibitedPayloadKeys) = true <-> form ∈ secret_words).
  { intros form. change (List.map ToLower prohibitedPayloadKeys) with secret_words. rewrite existsb_exists. split.
    - intros (x & Hx & ->%String.eqb_eq). by apply list_elem_of_In.
    - intros Hf. exists form. split; [by apply list_elem_of_In|apply String.eqb_refl]. }
  unfold isProhibitedKey, secret_key. rewrite existsb_exists. unfold keyForms.
  assert (Hwhole : without_separators (ToLower key) = spelled (letters_only (runes (ToLower key)))).
  { unfold without_separators, runes. induction (chunks (ToLower key)) as [|[r b] l IH]; [done|]. cbn.
    unfold isKeySeparator. rewrite <- negb_orb, negb_involutive. destruct (IsLetter r || IsDigit r); cbn; [by f_equal|done]. }
  assert (Hwords : forall form, form ∈ key_words true 0 "" (runes key) <->
            exists w, form = spelled (lower_rune <$> w) /\ word_of w (runes key)).
  { intros form. rewrite (key_words_raw true 0 []) by done. rewrite list_elem_of_fmap.
    setoid_rewrite (raw_words_spec [] (runes key)); [done|constructor|by intros [|? [|]] *; discriminate]. }
  split.
  - intros (form & Hin & Hf%Hset). apply list_elem_of_In, elem_of_cons in Hin as [->|Hin]; [right; by rewrite <- Hwhole|left].
    apply Hwords in Hin as (w & -> & Hw). by exists w.
  - intros [(w & Hw & Hf)|Hf]; eexists; (split; [|by apply Hset]); apply list_elem_of_In, elem_of_cons.
    + right. apply Hwords. by exists w.
    + left. by rewrite Hwhole.
Qed.

(** *** What a payload holds *)

(** Every key of a payload, at any depth. *)
Fixpoint keys_of (v : payload_value) : list string :=
  match v with
  | PMap l => List.concat (List.map (fun kv => kv.1 :: keys_of kv.2) l)
  | PList l => List.concat (List.map keys_of l)
  | PTyped v => keys_of v
  | _ => []
  end.

(** No value of another type that has parts. *)
Fixpoint plain (v : payload_value) : Prop :=
  match v with
  | PMap l => List.fold_right (fun kv P => plain kv.2 /\ P) True l
  | PList l => List.fold_right (fun v P => plain v /\ P) True l
  | PTyped _ => False
  | _ => True
  end.

Definition allowed_entries (l : list (string * payload_value)) : list (string * payload_value) :=
  List.map (fun kv => (kv.1, sanitizeValue kv.2)) (List.filter (fun kv => negb (isProhibitedKey kv.1)) l).

Lemma sanitizeValue_map l : sanitizeValue (PMap l) = PMap (allowed_entries l).
Proof.
  cbn [sanitizeValue]. f_equal. unfold allowed_entries. induction l as [|[k v] l IH]; [done|].
  cbn [List.filter fst]. destruct (isProhibitedKey k); cbn [negb]; [exact IH|]. cbn [List.map fst snd]. by rewrite <- IH.
Qed.

Lemma sanitizeValue_keys v : plain v -> Forall (fun k => ~ secret_key k) (keys_of (sanitizeValue v)).
Proof.
  induction v as [l IH|l IH| | |] using payload_value_nested; [|cbn [sanitizeValue]|done|constructor|constructor]; intros Hp.
  - rewrite sanitizeValue_map. cbn [keys_of]. unfold allowed_entries. induction IH as [|[k v] l Hv _ IHl]; [constructor|].
    cbn in Hp. destruct Hp as [Hpv Hpl].
    cbn [List.filter fst]. destruct (isProhibitedKey k) eqn:E; cbn [negb]; [by apply IHl|].
    cbn [List.map List.concat fst snd]. apply Forall_app. split; [|by apply IHl].
    constructor; [by rewrite <- isProhibitedKey_spec, E|by apply Hv].
  - cbn [keys_of]. induction IH as [|v l Hv _ IHl]; [constructor|]. cbn in Hp. destruct Hp as [Hpv Hpl].
    cbn [List.map List.concat]. apply Forall_app. auto.
Qed.

(** A payload without prohibited keys is left alone. *)
Lemma sanitizeValue_id v : Forall (fun k => ~ secret_key k) (keys_of v) -> sanitizeValue v = v.
Proof.
  induction v as [l IH|l IH| | |] using payload_value_nested; [| |done|done|done]; cbn [keys_of].
  - rewrite sanitizeValue_map. intros Hk. f_equal. unfold allowed_entries.
    induction IH as [|[k v] l Hv _ IHl]; [done|]. cbn [List.map List.concat fst snd] in Hk.
    apply Forall_app in Hk as [Hkv Hl]. apply Forall_cons in Hkv as [Hp Hv'].
    rewrite <- isProhibitedKey_spec, not_true_iff_false in Hp. cbn [List.filter fst]. rewrite Hp.
    cbn [negb List.map fst snd]. rewrite IHl by exact Hl. f_equal. f_equal. by apply Hv.
  - intros Hk. cbn [sanitizeValue]. f_equal. induction IH as [|v l Hv _ IHl]; [done|]. cbn [List.map List.concat] in *.
    apply Forall_app in Hk as [? ?]. rewrite IHl by done. by rewrite Hv.
Qed.

(** Where a value is in a payload: the keys and the positions on the way. *)
Inductive at_path : list string -> payload_value -> payload_value -> Prop :=
| at_here v : at_path [] v v
| at_key k v l path w : (k, v) ∈ l -> at_path path v w -> at_path (k :: path) (PMap l) w
| at_item v l path w : v ∈ l -> at_path path v w -> at_path path (PList l) w.

Lemma sanitized_at path v w :
  at_path path v w -> Forall (fun k => ~ secret_key k) path -> at_path path (sanitizeValue v) (sanitizeValue w).
Proof.
  induction 1 as [v|k v l path w Hin _ IH|v l path w Hin _ IH]; intros Hp; [constructor| |].
  - apply Forall_cons in Hp as [Hk Hp]. rewrite <- isProhibitedKey_spec, not_true_iff_false in Hk.
    rewrite sanitizeValue_map. eapply at_key; [|by apply IH].
    unfold allowed_entries. apply list_elem_of_In, in_map_iff. exists (k, v). split; [done|].
    apply filter_In. split; [by apply list_elem_of_In|]. by apply negb_true_iff.
  - cbn [sanitizeValue]. eapply at_item; [|by apply IH]. by apply list_elem_of_In, in_map, list_elem_of_In.
Qed.
End payloads.

(** C40: what is stored of an event's payload.  Of a payload made of
    [map[string]any], [[]any] and values without parts, no key that is stored,
    at any depth, is secret: none has one of the fourteen words of the policy
    among the words it is made of, nor is one when its separators are left out
    (a word that follows an acronym is not told apart from it, as in
    [APIToken]).  Whatever is reached by keys that are not secret, and has
    none inside, is stored whole and at its place.  A value of any other type
    that has keys, such as a struct or a [map[string]string], is stored with
    all of them, secret ones too. *)
Theorem SanitizedPayload_clean `{CaseTables} `{RuneKinds} entries :
  let stored := SanitizedPayload (Some entries) in
  (plain (PMap entries) -> Forall (fun k => ~ secret_key k) (keys_of stored)) /\
  (forall path v, at_path path (PMap entries) v -> Forall (fun k => ~ secret_key k) path ->
     Forall (fun k => ~ secret_key k) (keys_of v) -> at_path path stored v) /\
  (forall path v, at_path path (PMap entries) (PTyped v) -> Forall (fun k => ~ secret_key k) path ->
     at_path path stored (PTyped v)).
Proof.
  cbv zeta. split; [apply sanitizeValue_keys|]. split.
  - intros path v Ha Hp Hk. rewrite <- (sanitizeValue_id v Hk). by apply sanitized_at.
  - intros path v Ha Hp. by apply (sanitized_at path _ (PTyped v)).
Qed.

(** ** The table of events *)

Section events.

(** The order of a page. *)
Definition newer (a b : Z * SystemEvent) : Prop := newest_first a b = true.

Lemma newest_sorted l : StronglySorted newer (sort_by newest_first l).
Proof. apply sort_by_sorted; unfold newest_first; intros; lia. Qed.

(** A sorted list begins with its newest elements. *)
Lemma take_newest n l e e' : StronglySorted newer l -> e ∈ take n l -> e' ∈ drop n l -> newer e e'.
Proof.
  intros Hs Hi Hd. eapply StronglySorted_app_1_elem_of; [|exact Hi|exact Hd]. by rewrite take_drop.
Qed.
End events.

(** What the activity page shows and what the sweep removes.  A page
    holds events of the library that asks and of the host, none of another
    library; at most a hundred, the newest first, and an event left out is
    not newer than any shown.  A sweep removes exactly the events whose time
    is past, and answers how many. *)
Theorem events_shown (db : events_db) libraryID limit now page :
  (ListEvents None libraryID limit db).1 = Ok page ->
  ((forall i e, (i, e) ∈ page -> events db !! i = Some e /\
      (ev_LibraryID e = None \/ exists lib, libraryID = Some lib /\ ev_LibraryID e = Some lib)) /\
   (length page <= 100)%nat /\ StronglySorted newer page /\
   (forall i e j e', (i, e) ∈ page -> events db !! j = Some e' -> (j, e') ∉ page ->
      visible_to (match libraryID with Some "" => None | l => l end) e' = true -> ev_CreatedAt e' <= ev_CreatedAt e)) /\
  (exists n, PurgeExpired None now db = (Ok n, with_events (events (PurgeExpired None now db).2) db) /\
     n = Z.of_nat (size (events db)) - Z.of_nat (size (events (PurgeExpired None now db).2)) /\
     forall i e, events (PurgeExpired None now db).2 !! i = Some e <-> events db !! i = Some e /\ now <= ev_PurgeAt e).
Proof.
  intros Hp. split.
  - unfold ListEvents in Hp. cbv zeta in Hp. injection Hp as <-.
    set (lib := match libraryID with Some "" => None | l => l end).
    set (seen := List.filter (fun e => visible_to lib e.2) (map_to_list (events db))).
    set (n := if 100 <? (if limit <=? 0 then 50 else limit) then 100 else (if limit <=? 0 then 50 else limit)).
    assert (Hn : n <= 100) by (unfold n; destruct (100 <? _) eqn:E; lia).
    assert (Hseen : forall i e, (i, e) ∈ seen <-> events db !! i = Some e /\ visible_to lib e = true).
    { intros i e. unfold seen. rewrite list_elem_of_In, filter_In, <- list_elem_of_In, elem_of_map_to_list. done. }
    assert (Hin : forall x, x ∈ take (Z.to_nat n) (sort_by newest_first seen) -> x ∈ seen).
    { intros x Hx. rewrite <- ((sort_by_perm newest_first seen)), <- (take_drop (Z.to_nat n) (sort_by newest_first seen)). apply elem_of_app. by left. }
    split; [|split; [|split]].
    + intros i e [He Hv]%Hin%Hseen. split; [done|]. unfold visible_to in Hv. destruct (ev_LibraryID e) as [l|]; [|by left].
      right. unfold lib in Hv. destruct libraryID as [[|c s]|]; try done; apply String.eqb_eq in Hv as ->; eauto.
    + rewrite length_take. lia.
    + eapply StronglySorted_app_1_l. rewrite take_drop. apply newest_sorted.
    + intros i e j e' Hi Hj Hnj Hv. apply Z.leb_le.
      apply (take_newest (Z.to_nat n) _ (i, e) (j, e') (newest_sorted seen) Hi).
      assert (Hs : (j, e') ∈ sort_by newest_first seen) by (rewrite sort_by_perm; by apply Hseen).
      rewrite <- (take_drop (Z.to_nat n) (sort_by newest_first seen)) in Hs. apply elem_of_app in Hs as [?|?]; [|done]. contradiction.
  - unfold PurgeExpired. cbn [fst snd events with_events]. eexists. split; [reflexivity|]. split; [done|].
    intros i e. rewrite map_lookup_filter_Some. cbn [snd]. naive_solver lia.
Qed.

(** ** Latencies *)

Definition sum_Z (l : list Z) : Z := foldr Z.add 0 l.

Lemma sum_alter l i : (i < length l)%nat -> sum_Z (alter (Z.add 1) i l) = sum_Z l + 1.
Proof.
  revert i. induction l as [|x l IH]; intros [|i] Hi; cbn in Hi; try lia.
  - change (alter (Z.add 1) 0%nat (x :: l)) with ((1 + x) :: l). cbn [sum_Z foldr]. fold (sum_Z l). lia.
  - change (alter (Z.add 1) (S i) (x :: l)) with (x :: alter (Z.add 1) i l). cbn [sum_Z foldr]. fold (sum_Z l).
    fold (sum_Z (alter (Z.add 1) i l)). rewrite IH; lia.
Qed.

Lemma bucket_of_lt ms i bounds j : bucket_of ms i bounds = Some j -> (i <= j < i + length bounds)%nat.
Proof.
  revert i. induction bounds as [|b bounds IH]; intros i; cbn [bucket_of length]; [done|].
  destruct (SFleb ms b); [intros [= <-]; lia|]. intros Hj%IH. lia.
Qed.

(** What the histogram of [n] requests looks like. *)
Definition histogram_of (n : Z) (h : LatencyHistogram) : Prop :=
  count h = n /\ sum_Z (counts h) + overflow h = n /\ length (counts h) = length DefaultLatencyBuckets /\
  Z.of_nat (length (samples h)) = Z.min n maxSamples.

Lemma Observe_histogram n d h : 0 <= n -> histogram_of n h -> histogram_of (n + 1) (Observe d h).
Proof.
  intros Hn (Hc & Hs & Hl & Hm). unfold histogram_of, Observe. cbv zeta.
  set (ms := f64_div _ _). destruct (match bucket_of ms 0 DefaultLatencyBuckets with Some i => _ | None => _ end)
    as [cs o] eqn:E. cbn [counts overflow samples count].
  assert (Hcs : sum_Z cs + o = n + 1 /\ length cs = length DefaultLatencyBuckets).
  { destruct (bucket_of ms 0 DefaultLatencyBuckets) as [i|] eqn:Eb; injection E as <- <-; [|lia].
    apply bucket_of_lt in Eb. rewrite length_alter, sum_alter by lia. lia. }
  split; [lia|]. split; [apply Hcs|]. split; [apply Hcs|].
  destruct (Z.ltb_spec (Z.of_nat (length (samples h))) maxSamples) as [Hlt|Hge].
  - rewrite length_app. cbn [length]. lia.
  - rewrite length_insert. lia.
Qed.

Lemma percentile_in_range :
  forallb (fun n => forallb (fun p => (0 <=? percentile_index (Z.of_nat n) p) && (percentile_index (Z.of_nat n) p <? Z.of_nat n))
                      [f64_ratio 50 100; f64_ratio 95 100; f64_ratio 99 100]) (seq 1 2048) = true.
Proof. vm_compute. reflexivity. Qed.

(** The histogram of a route after any requests.  It counted every
    one, in a bucket or above the last; it holds at most 2048 of the
    latencies, whatever their number; and the samples its three
    quantiles are read from exist. *)
Theorem histogram_bounded ds :
  let h := foldr Observe NewLatencyHistogram ds in
  histogram_of (Z.of_nat (length ds)) h /\
  forall p, p ∈ [f64_ratio 50 100; f64_ratio 95 100; f64_ratio 99 100] -> ds <> [] ->
    0 <= percentile_index (Z.of_nat (length (samples h))) p < Z.of_nat (length (samples h)).
Proof.
  cbv zeta. assert (Hh : histogram_of (Z.of_nat (length ds)) (foldr Observe NewLatencyHistogram ds)).
  { induction ds as [|d ds IH]; [by vm_compute|]. cbn [foldr length].
    replace (Z.of_nat (S (length ds))) with (Z.of_nat (length ds) + 1) by lia. apply Observe_histogram; [lia|done]. }
  split; [done|]. intros p Hp Hne. destruct Hh as (_ & _ & _ & Hm). destruct ds as [|d ds]; [done|]. cbn [length] in Hm.
  pose proof percentile_in_range as Hr. rewrite forallb_forall in Hr.
  specialize (Hr (length (samples (foldr Observe NewLatencyHistogram (d :: ds))))). rewrite forallb_forall in Hr.
  specialize (Hr ltac:(apply in_seq; unfold maxSamples in Hm; lia) p ltac:(by apply list_elem_of_In)). lia.
Qed.

(** ** Runs *)

Module ObservabilityDemo.
#[local] Instance ascii_kinds : RuneKinds :=
  {| letter_tbl _ := false; digit_tbl _ := false; upper_kind_tbl _ := false; lower_kind_tbl _ := false |}.

Example nested_token_removed :
  SanitizedPayload (Some [("job", PMap [("accessToken", PText "t"); ("kind", PText "import")]); ("api_key", PText "k")]) =
    PMap [("job", PMap [("kind", PText "import")])].
Proof. vm_compute. reflexivity. Qed.

(** A word that follows an acronym is not told apart from it. *)
Example word_after_acronym : isProhibitedKey "APIToken" = false /\ isProhibitedKey "apiToken" = true.
Proof. vm_compute. done. Qed.

(** A [map[string]string] is stored with the keys it has. *)
Definition demo_entries : list (string * payload_value) :=
  [("job", PMap [("kind", PText "import")]); ("env", PTyped (PMap [("token", PText "t")]))].

Lemma SanitizedPayload_clean_witness :
  Forall (fun k => ~ secret_key k)
    (keys_of (SanitizedPayload (Some [("accessToken", PText "t"); ("kind", PText "import")]))) /\
  at_path ["job"] (SanitizedPayload (Some demo_entries)) (PMap [("kind", PText "import")]) /\
  at_path ["env"] (SanitizedPayload (Some demo_entries)) (PTyped (PMap [("token", PText "t")])).
Proof.
  assert (Hallowed : forall k, isProhibitedKey k = false -> ~ secret_key k).
  { intros k Hk. by rewrite <- isProhibitedKey_spec, Hk. }
  split; [|split].
  - apply (SanitizedPayload_clean [("accessToken", PText "t"); ("kind", PText "import")]). repeat split.
  - apply (SanitizedPayload_clean demo_entries).
    + eapply at_key; [left|apply at_here].
    + repeat constructor. apply Hallowed. vm_compute. reflexivity.
    + repeat constructor. apply Hallowed. vm_compute. reflexivity.
  - apply (SanitizedPayload_clean demo_entries).
    + eapply at_key; [right; left|apply at_here].
    + repeat constructor. apply Hallowed. vm_compute. reflexivity.
Defined.

Definition demo_events : events_db :=
  mkEventsDb {[1 := mkSystemEvent "job.failed" None (Some "lib") None (PMap []) 5 50;
              2 := mkSystemEvent "job.failed" None (Some "other") None (PMap []) 7 50;
              3 := mkSystemEvent "job.failed" None None None (PMap []) 9 10]} 4 (fun _ _ => true).

Lemma events_shown_witness :
  exists page, (ListEvents None (Some "lib") 0 demo_events).1 = Ok page /\ page.*1 = [3; 1] /\ (length page <= 100)%nat.
Proof.
  destruct ((ListEvents None (Some "lib") 0 demo_events).1) as [page|e|] eqn:E;
    [|exfalso; vm_compute in E; discriminate E..].
  exists page. split; [reflexivity|]. split; [vm_compute in E; injection E as <-; reflexivity|].
  apply (events_shown demo_events (Some "lib") 0 20 page E).
Defined.
End ObservabilityDemo.
