(* ===== verification/Leaderboard.v ===== *)
(** * Finished books and capabilities (src/internal/transport/http:
      leaderboard.go, bootstrap.go)

    The two pages over the finished books of a library, and what the client
    is told it may do.  The statements are queries of the reading tables; the
    names of the accounts are an argument. *)

From Stdlib Require Import Sorted.
From S2P Require Import Prelude GoStrings Errors Floats Catalog Transactor Progress Postgres Http Pairing PairingStore Cfi Sync ReadingStore Identity Encoding Tokens Totp AuthStore AuthHandlers Access CatalogStore Library.

Local Open Scope string_scope.
Local Open Scope list_scope.
Local Open Scope Z_scope.

(** ** Finished books (leaderboard.go) *)

Record FinishedUserRef := mkFinishedUserRef {
  fu_UserID : string;
  fu_DisplayName : string;
  fu_FinishedAt : Time;
}.
Record FinishedWorkItem := mkFinishedWorkItem { fw_WorkID : string; fw_FinishedBy : list FinishedUserRef }.
Record LeaderboardItem := mkLeaderboardItem { lb_WorkID : string; lb_FinishedCount : Z }.

Definition finishedWorksDefaultLimit : Z := 50.
Definition finishedWorksMaxLimit : Z := 200.

(** Before the query: the caller's library, and the limit asked for. *)
Definition member_library (pool : bool) (ctx : context) : http_error + LibraryID :=
  if negb pool then inl (HTTPError Unavailable "database not ready")
  else match ctx_user ctx with
  | None => inl (HTTPError Unauthorized "missing or invalid authorization token")
  | Some user =>
      let activeLib := ActiveLibraryFromContext ctx in
      if String.eqb activeLib "" || negb (libraryInClaims activeLib (au_Libraries user))
      then inl (Forbidden "you are not a member of that library") else inr activeLib
  end.
Definition page_limit (default max : Z) (q : string) : http_error + Z :=
  if String.eqb q "" then inr default
  else match Atoi q with
  | Some n => if 0 <? n then inr (Z.min n max) else inl (HTTPError InvalidInput "invalid limit parameter")
  | None => inl (HTTPError InvalidInput "invalid limit parameter")
  end.

(** The rows both queries count: [library_id = $1 AND percentage >= 100]. *)
Definition finished_in (lib : LibraryID) (r : sync_row progress_cols) : bool :=
  bool_decide (sy_library r = Some lib) && leaderboard_finished (pc_percentage (sy_cols r)).
Definition finished_rows (lib : LibraryID) (db : reading_db) : list (sync_row progress_cols) :=
  (select (fun _ r => finished_in lib r) (progress_table db)).*2.

Section finished.
Context `{Collation}.

Definition row_work (r : sync_row progress_cols) : string := pc_work_id (sy_cols r).

(** The page of works: [work_id > $2 GROUP BY work_id ORDER BY work_id LIMIT $3]. *)
Fixpoint distinct_works (l : list string) : list string :=
  match l with
  | a :: (b :: _) as l' => if String.eqb a b then distinct_works l' else a :: distinct_works l'
  | l => l
  end.
Definition page_works (cursor : string) (limit : Z) (rows : list (sync_row progress_cols)) : list string :=
  take (Z.to_nat limit)
    (distinct_works (sort_by text_le (List.filter (fun w => text_lt cursor w) (List.map row_work rows)))).

(** [ORDER BY rp.work_id, rp.observed_at, rp.user_id]; a null user comes last. *)
Definition user_before (a b : option string) : bool :=
  match a, b with
  | _, None => true
  | None, Some _ => false
  | Some x, Some y => text_le x y
  end.
Definition finish_order (a b : sync_row progress_cols) : bool :=
  if negb (String.eqb (row_work a) (row_work b)) then text_le (row_work a) (row_work b)
  else if negb (pc_observed_at (sy_cols a) =? pc_observed_at (sy_cols b))
  then pc_observed_at (sy_cols a) <=? pc_observed_at (sy_cols b)
  else user_before (sy_user a) (sy_user b).

(** A row without a user does not scan. *)
Definition scan_finish (username : string -> option string) (r : sync_row progress_cols)
    : Result (string * FinishedUserRef) :=
  match sy_user r with
  | None => Err (New "cannot scan NULL into *string")
  | Some u => Ok (row_work r, mkFinishedUserRef u (default "" (username u)) (pc_observed_at (sy_cols r)))
  end.

(** The works in the order they are first met, each with its readers. *)
Fixpoint group_finishes (l : list (string * FinishedUserRef)) (acc : list FinishedWorkItem) : list FinishedWorkItem :=
  match l with
  | [] => acc
  | (w, u) :: l' =>
      group_finishes l'
        (if existsb (fun it => String.eqb (fw_WorkID it) w) acc
         then List.map (fun it => if String.eqb (fw_WorkID it) w
                                  then mkFinishedWorkItem w (fw_FinishedBy it ++ [u]) else it) acc
         else acc ++ [mkFinishedWorkItem w [u]])
  end.

Definition FinishedWorksHandler (pool : bool) (fault : option pg_error) (username : string -> option string)
    (qLimit cursor : string) (ctx : context) (db : reading_db)
    : res http_error (list FinishedWorkItem * option string) :=
  match member_library pool ctx with
  | inl e => Err e
  | inr lib =>
      match page_limit finishedWorksDefaultLimit finishedWorksMaxLimit qLimit with
      | inl e => Err e
      | inr limit =>
          match fault with
          | Some _ => Err (HTTPError Internal "failed to query finished works")
          | None =>
              let rows := finished_rows lib db in
              let page := page_works cursor limit rows in
              let met := List.filter (fun r => existsb (String.eqb (row_work r)) page) rows in
              match scan_rows (scan_finish username) (sort_by finish_order met) with
              | Ok finishes =>
                  let works := group_finishes finishes [] in
                  Ok (works, if Z.of_nat (length works) =? limit then fw_WorkID <$> last works else None)
              | _ => Err (HTTPError Internal "failed to read finished works row")
              end
          end
      end
  end.

(** [COUNT(DISTINCT rp.user_id)] of a work: a null user is not counted. *)
Definition count_readers (w : string) (rows : list (sync_row progress_cols)) : Z :=
  Z.of_nat (size (list_to_set (omap (fun r => if String.eqb (row_work r) w then sy_user r else None) rows) : gset string)).
Definition by_count (a b : LeaderboardItem) : bool :=
  if lb_FinishedCount a =? lb_FinishedCount b then text_le (lb_WorkID a) (lb_WorkID b)
  else lb_FinishedCount b <=? lb_FinishedCount a.

Definition LibraryLeaderboardHandler (pool : bool) (fault : option pg_error) (qLimit : string) (ctx : context)
    (db : reading_db) : res http_error (list LeaderboardItem) :=
  match member_library pool ctx with
  | inl e => Err e
  | inr lib =>
      match page_limit 20 50 qLimit with
      | inl e => Err e
      | inr limit =>
          match fault with
          | Some _ => Err (HTTPError Internal "failed to query leaderboard")
          | None =>
              let rows := finished_rows lib db in
              let works := distinct_works (sort_by text_le (List.map row_work rows)) in
              Ok (take (Z.to_nat limit) (sort_by by_count (List.map (fun w => mkLeaderboardItem w (count_readers w rows)) works)))
          end
      end
  end.
End finished.

(** ** Capabilities (bootstrap.go) *)

Record BootstrapCapabilities := mkBootstrapCapabilities {
  bc_Sources : bool;
  bc_Import : bool;
  bc_Settings : bool;
  bc_System : bool;
  bc_Network : bool;
}.

(** [api] is what the references hold: the signer and the libraries, each if
    set. *)
Definition LazyBootstrapHandler `{TokenPrimitives} (api : option (option JWTSigner * bool)) (fault : option pg_error)
    (now : Time) (authHeader libraryHeader : string) (ctx : context) (db : auth_db) : BootstrapCapabilities :=
  let user :=
    match ctx_user ctx with
    | Some u => Some u
    | None =>
        match api with
        | Some (Some signer, _) =>
            match CutPrefix authHeader "Bearer " with
            | Some token =>
                match VerifyAccessToken signer token now with
                | Ok claims => Some (mkAuthenticatedUser (c_Subject claims) "" (c_Role claims) (c_Libraries claims))
                | _ => None
                end
            | None => None
            end
        | _ => None
        end
    end in
  let isAdmin := match user with Some u => is_admin u | None => false end in
  let allowUpload :=
    if isAdmin then true
    else match user, api with
    | Some u, Some (_, true) =>
        if negb (String.eqb (au_Role u) RoleReader) then false
        else
          let activeLibID := ActiveLibraryFromContext ctx in
          let activeLibID :=
            if (String.eqb activeLibID "" || String.eqb activeLibID DefaultLibraryID) &&
               negb (String.eqb libraryHeader "") && libraryInClaims libraryHeader (au_Libraries u)
            then libraryHeader else activeLibID in
          if String.eqb activeLibID "" then false
          else match (FindLibraryByID fault activeLibID db).1 with
          | Ok lib => l_allowReaderUploads lib
          | _ => false
          end
    | _, _ => false
    end in
  mkBootstrapCapabilities isAdmin allowUpload isAdmin isAdmin isAdmin.

(** ** What they answer *)

(** The percentages that the repositories store. *)
Definition stored_percentages (db : reading_db) : Prop :=
  map_Forall (fun _ r => NewPercentage (pc_percentage (sy_cols r)) = Ok (pc_percentage (sy_cols r)) /\
                         is_nan (pc_percentage (sy_cols r)) = false) (progress_table db).

Lemma no_finished_rows lib db : stored_percentages db -> finished_rows lib db = [].
Proof.
  intros Hs. unfold finished_rows. destruct (select _ _) as [|[k r] l] eqn:E; [done|]. exfalso.
  assert (Hin : (k, r) ∈ select (fun _ r => finished_in lib r) (progress_table db)) by (rewrite E; left).
  apply elem_of_select in Hin as [Hl Hf]. destruct (Hs k r Hl) as [Hs' Hn].
  apply andb_true_iff in Hf as [_ Hf]. unfold NewPercentage in Hs'. destruct (_ || _) eqn:Eb; [done|].
  apply orb_false_iff in Eb as [_ H1]. set (p := pc_percentage (sy_cols r)) in *. clear Hs Hs' E.
  unfold leaderboard_finished in Hf. cbn [snd] in Hf. fold p in Hf. rewrite Hn in Hf. apply (fge_key Hn (y := f64_of_Z 100) eq_refl) in Hf. apply Hf.
  assert (H100 : key_lt (fkey f64_one) (fkey (f64_of_Z 100))) by (vm_compute; auto).
  destruct (key_trichotomy (fkey p) (fkey f64_one)) as [Hk|[->|Hk]]; [|done|].
  - by eapply key_lt_trans.
  - apply (flt_key (x := f64_one) eq_refl Hn) in Hk. unfold fgt in H1. unfold flt in Hk. congruence.
Qed.

(** No book is ever shown as finished.  A stored percentage is one
    that [NewPercentage] accepted, a number at most one, and the pages ask for a
    hundred: whatever has been read, a member of the library is answered an
    empty list by both, and nobody else is answered one. *)
Theorem nothing_finished `{Collation} pool username qLimit cursor ctx db :
  stored_percentages db ->
  (forall works next, FinishedWorksHandler pool None username qLimit cursor ctx db = Ok (works, next) -> works = [] /\ next = None) /\
  (forall items, LibraryLeaderboardHandler pool None qLimit ctx db = Ok items -> items = []) /\
  (is_ok (LibraryLeaderboardHandler pool None qLimit ctx db) = true ->
     exists user, ctx_user ctx = Some user /\ libraryInClaims (ActiveLibraryFromContext ctx) (au_Libraries user) = true).
Proof.
  intros Hs. unfold FinishedWorksHandler, LibraryLeaderboardHandler. destruct (member_library pool ctx) as [e|lib] eqn:Em; [done|].
  rewrite !(no_finished_rows lib db Hs). split; [|split].
  - intros works next. destruct (page_limit finishedWorksDefaultLimit _ qLimit) as [e|limit]; [done|].
    cbn [List.map List.filter sort_by fold_right scan_rows group_finishes length]. intros [= <- <-].
    split; [done|]. by destruct limit.
  - intros items. destruct (page_limit 20 50 qLimit) as [e|limit]; [done|]. cbn [List.map sort_by fold_right distinct_works].
    rewrite take_nil. by intros [= <-].
  - intros _. unfold member_library in Em. destruct (negb pool); [done|]. destruct (ctx_user ctx) as [user|]; [|done].
    exists user. split; [done|]. cbv zeta in Em. destruct (_ || negb _) eqn:E; [done|].
    apply orb_false_iff in E as [_ E]. by apply negb_false_iff in E.
Qed.
